(* ===== verification/_CoqProject ===== *)
-Q . S2P
Prelude.v
Words.v
EvalCtx.v
Slice.v
DecimalBase.v
DecimalLoops.v
DecimalAddSub.v
DecimalCmp.v
DecimalSub.v
DecimalMulDiv.v
DecimalRound.v
ToInt.v
DecimalConv.v
DecimalCodec.v
DecimalWire.v
DecimalRounding.v
DecimalInt.v
Duration.v
Upsert.v
NumPrefix.v
Order.v
Shelling.v
EmlValue.v
EmlOrder.v
Query.v
QueryLaws.v
QuerySample.v
TypedValue.v
Algebrize.v
Schema.v
SchemaUpdate.v
SchemaLaws.v
SchemaRetract.v
Bootstrap.v
SchemaSample.v
Float.v
JsonBinary.v
JsonTree.v
JsonExtract.v
JsonModify.v
JsonRebuild.v
JsonUpdate.v
JsonOps.v
JsonCmp.v
JsonMerge.v
JsonMerging.v
JsonSample.v
Cache.v
CacheAgree.v
CacheUpdate.v
CacheTransact.v
CacheRegister.v
CacheReads.v
CacheSession.v
Datum.v
DatumArith.v
DatumCodec.v
DatumWire.v
DatumPayload.v
Table.v
TableRows.v
Tests.v
ConfigPools.v
ConfigDb.v
Config.v
ConfigChange.v
ConfigLaws.v
ConfigSample.v
Literals.v
Paths.v
DurationText.v
Columns.v
Capture.v
CaptureLaws.v
Vocab.v
VocabLaws.v
Fsm.v
ReadPool.v
Rows.v
Timeline.v
