(* ===== verification/Prelude.v ===== *)
(** * EinsteinDB: a verification development

    EinsteinDB is a database kernel in Rust that grew out of a Datomic-like store and
    a SQL coprocessor.  This library models the parts of it that compute: the SQL
    value types, their arithmetic and encodings, the query language and its values, the
    schema and how it changes, vocabularies, the resolution of upserts in a transaction,
    timelines, the attribute caches, columns of rows, the capture of changes, the
    configuration with its checks and online changes, and two concurrent components,
    mailboxes and read pools.  The storage engines, the server and the tools call
    external databases and are not modelled.

    ** The parts and how they call each other

    - [Prelude], [Words]: the ground layer.  A computation that may panic is an
      [outcome]; machine integers are [Z] with checked ([u8], [u32], [i64], ...) and
      wrapping ([as_u8], ...) operations; buffers are lists whose indexing panics out of
      range.  [Words] gives a list of words its value in a base; [Slice] has slices
      and writes with Rust's range checks, byte-string order, and computations that may
      panic or fail ([rM]).
    - [EvalCtx]: [berolinasql/src/error.rs] and [causetq/src/ctx.rs].  Errors, the
      flags of a session and the bounded warning buffer.  Code that takes
      [&mut EvalContext] and returns a [Result] is a computation in [evalM]: the error
      stops it and the context is kept as it is then.
    - [DecimalBase] ... [DecimalWire]: [berolinasql/src/decimal.rs].  The state is the
      record [Decimal] (digit counts, sign, nine base-10^9 words), every operation a
      function on it that returns a value marked exact, truncated or overflowed
      ([Res]).  [DecimalBase] holds the data, the digit counting and the invariant [wf];
      [DecimalAddSub] addition, subtraction, comparison and hash; [DecimalMulDiv]
      multiplication, division and remainder; [DecimalRound] rounding and shifting;
      [DecimalConv] integers and text; [DecimalCodec] the binary form.  The proofs are
      in [DecimalLoops] (a decimal as a scaled integer), [DecimalAddSub],
      [DecimalSub], [DecimalCmp], [DecimalInt], [DecimalWire]
      and [DecimalRounding].
    - [Duration]: [berolinasql/src/duration.rs], over the decimal's table of powers.
      [DurationText]: its parser of texts, over the combinators of the external parser
      crate ([NomParsers]), with the grammar it follows ([DurationText.DurationText]).
    - [ToInt], [NumPrefix]: the parts of [allegro_poset/convert.rs] that
      read integers from bytes, clamp integers to SQL field types (those of
      [causet/src/field_type.rs]), cut numeric prefixes off strings and round them; and
      the division of [berolinasql/src/overflow.rs].
    - [Literals]: [berolinasql/src/binary_literal.rs], literals of bits and bytes.
    - [Float]: the [f64] operations, through the Standard Library's binary64, and the
      bit patterns of finite floats.
    - JSON documents, the binary form of [berolinasql/src]: a [JsonRef] is a type, a
      slice and its offset in the document.  [JsonBinary] ([mod.rs], [binary.rs],
      [jcodec.rs], [constants.rs]) reads members and writes objects; [JsonExtract]
      ([json_extract.rs], [json_depth.rs], [json_length.rs], [json_keys.rs],
      [json_type.rs]) follows paths; [JsonModify] ([modifier.rs], [json_modify.rs],
      [json_remove.rs]) rebuilds a document around a change, found by its address;
      [JsonCmp] is [comparison.rs]; [JsonMerge] is [json_merge.rs].  The specification is on trees: [JsonTree] lays a
      tree out as bytes ([enc]) and says when it fits ([jok]), [tfind], [tmodify],
      [tremove] and [tcmp] are the operations on trees, and the refinement is proved in
      [JsonTree], [JsonRebuild], [JsonUpdate], [JsonOps],
      and for merging [JsonMerging].  [JsonSample]
      instantiates the interfaces.  [Paths] unquotes strings ([json_unquote.rs]) and parses
      the text of a path ([path_expr.rs]), over a matcher of legs ([LegRegex]) in place of
      the regular expression.
    - [Order]: comparisons that are total preorders, and how they combine.
    - [Shelling]: the names of the query language ([einstein_ml/isolated_namespace.rs],
      [einsteindb-server/src/shellings.rs]): a namespace is one text with the place where
      the name starts.
    - [EmlValue], [EmlOrder]: the values of the query notation, with and without the
      positions they were read at, and their order ([allegro_poset/types.rs]).
    - [Query], [QueryLaws]: the query language
      ([einstein_ml/query.rs]): patterns, clauses and the variables they mention, and the
      assembly of a parsed query from its parts.  [QuerySample] has concrete queries.
    - [TypedValue]: what a typed value is in the SQL store and in the notation
      ([einstein_db/src/einsteindb.rs]), and type checking against the schema
      ([fdb_traits/src/schema.rs]).
    - [Algebrize]: from a parsed query to one that can run ([einstein_db/src/lib.rs]): its
      order and its limit against what the conditions bind.  The conditions are the class
      [ConjoiningClauses].
    - [Schema], [SchemaUpdate]: attributes, their validation and their builder
      ([fdb_traits/src/schema.rs]), the ids of the schema's own attributes
      ([einstein_db/src/causetids.rs]), the updates of the schema from retracted and
      asserted triples ([allegro_poset/spacetime.rs]) and the pairing of assertions with
      retractions ([allegro_poset/lightlike_upsert.rs]).  Proofs in [SchemaLaws]
      and [SchemaRetract].
    - [Bootstrap]: the schema a new store starts from ([causetq/src/dedup.rs]), turned
      into triples and asserted through [SchemaUpdate], and computed for
      every lawful constructor of names.  [SchemaSample] has concrete schemas.
    - [Datum], [DatumCodec]: [allegro_poset/datum.rs].  A dynamically typed value over
      decimals, durations, integers, floats and bytes; its comparison, coercion and
      checked arithmetic, and its encoding.  What belongs to parts not modelled here
      (time, JSON, float text) or to the codec crate is an interface, the classes
      [Externals] and [Codec]; the theorems use their laws ([ExternalLaws],
      [CodecLaws]) and the witnesses instantiate them.  Proofs in [DatumArith] and
      [DatumWire].  [DatumPayload]: the writers and readers of one type each
      ([allegro_poset/datum_codec.rs]), beside the general ones.
    - [Columns]: vectors of optional values, columns that are bytes until they are decoded, and
      batches of columns ([causets/not_chunked_vec.rs], [causets/quiesce_column.rs],
      [causets/quiesce_column_vec.rs]).
    - [Rows]: the compact form of a row ([src/encoder.rs]): flags, ids, offsets, values.
    - [Table]: [berolinasql/src/table.rs] over the datum encoding: record and index
      keys, and rows, cut into columns ([RowColsDict]) or decoded.  Proofs in
      [TableRows], which also instantiates them.
    - [Upsert]: [causetq/src/upsert_resolution.rs] on the terms of
      [causetq/src/internal_types.rs].  The state is the record [Generation]; petgraph's
      union-find is the class [UnionFind].
    - [Timeline]: [soliton/discrete_morse.rs].  The tables of transactions and of datoms;
      transactions leave the main timeline by being reversed, newest first.  The transactor
      is the class [TimelineExternals] with its laws.
    - [Vocab]: [fdb_traits/src/vocabulary.rs].  Named, versioned sets of attributes, which
      are read from the store, checked, installed and upgraded.  The store is the class
      [VocabularyStore].  Proofs and concrete stores in [VocabLaws].
    - [Capture]: [einstein_db_alexandrov_processing/mod.rs].  The observer of a region of the
      store: who listens, what waits until the region is ready, and the events that commands
      and scans become.  Locks, keys and the resolver are the class [CaptureTypes].  Proofs in
      [CaptureLaws], where runs of a region are a step relation.
    - [Fsm]: the state of a mailbox, [engine_test/src/fsm.rs]; [ReadPool]: the handle of the
      read pools, [soliton/read_pool.rs].  Both are given twice, as functions on a
      state nobody else touches and as steps of threads, one step for each atomic access.
    - [Cache]: [soliton/cache.rs].  The values and entities of cached attributes in four
      kinds of maps ([AttributeCaches]), filled from the database, updated by rows,
      overlaid during a transaction ([InProgressSQLiteAttributeCache]) and committed; a
      watcher collects the transaction's terms.  The specification is the store, a
      relation of attribute, entity and value: [CacheAgree] says with one interface
      ([CacheKind]) what each kind of map holds; [CacheUpdate],
      [CacheTransact], [CacheRegister] and [CacheReads]
      prove that the operations keep the maps in agreement with it; [CacheSession] has the
      promises, over sequences of operations as a step relation, and
      instantiates the functions that the file calls and does not define.
    - Configuration, [soliton/config.rs].  [ConfigPools]: memory limits, background jobs,
      read pools, and the sections for backup, change capture and resolved timestamps.
      [ConfigDb]: column families and the two databases, their defaults and checks and
      the options built for the engine.  [Config]: the whole configuration, its
      validation, the adjustment of settings that moved, the limit on memory and the
      comparison with the last start.  [ConfigChange]: a change given as names and texts
      becomes a tree of values with the shape of the configuration, is handed to the
      managers of the modules ([dispatch] is that of a database) and is written to the
      file ([ConfigController]).  The specification of changes ([look], [effects],
      [accepts]) and the proofs are in [ConfigLaws]; [ConfigSample] instantiates the
      interfaces and runs the repository's tests.
    - [Tests]: the decimal tables of the repository's unit tests, run on the model.

    ** What the theorems show

    - Decimals: addition and subtraction give the exact sum up to the digits the
      result can hold, and say when they drop any ([dec_add_exact], [dec_sub_exact]);
      comparison is comparison of values and a total order, equal values hash alike
      ([dec_cmp_value], [dec_cmp_total_order], [dec_hash_iff]); conversions from and to
      64-bit integers are exact or saturate ([dec_from_int_exact], [as_int_exact]); the
      binary form is read back ([decimal_codec_roundtrip]); rounding gives the number
      its mode defines, with the cases that overflow or drop digits told apart
      ([round_exact], [ceil_floor_exact]).
    - JSON: on the document of a tree, extraction, depth, insertion, replacement,
      removal and comparison return the document (or the answer) of the operation on
      the tree, for every path, and never panic ([extract_exact], [depth_exact],
      [modify_exact], [remove_exact], [partial_cmp_exact]); what was set is found, what
      was removed is not; a document stands for one tree; the order is antisymmetric
      and has a cycle.
      Merging documents is merging trees: adjacent objects member by member, adjacent
      arrays end to end ([json_merge_exact]).  Unquoting is inverse to every way of
      escaping ([unquote_exact]); a path is parsed exactly when its text stands for one, and
      its flags say which wildcards it has ([parse_path_exact], [asterisks_said]).
    - Queries and their values: values are totally preordered, whatever they hold
      ([value_order]); reversing a name and back, and where it fails ([reversal_exact]); a
      pattern holds only forward attributes and its places have the types they should
      ([pattern_well_formed]); the variables a clause mentions are those that occur in it
      ([mentioned_exact]), whether they are cached or not ([cache_transparent]); a query is
      assembled exactly when no part is repeated and none is missing, and otherwise the
      error names the part ([from_parts_exact]).  What an algebrized query is ordered by is a
      column that is projected, and its limit is positive ([order_exact],
      [algebrized_ready]).
    - Schema: a batch of triples changes each entity as its own triples say, and is
      refused exactly when one of them is ([schema_update_exact]); what it keeps
      ([update_stable]), when it leaves the schema well formed ([update_well_formed]) and
      what it refuses ([update_refused]); the retraction of whole attributes
      ([retractions_exact]); type checking is sound and complete ([typing_sound]); values are
      read back from the SQL store ([sql_read_back]).  The bootstrap schema is read into the
      triples it means ([symbolic_triples_exact]), and their assertion is refused
      ([bootstrap_fails]).
    - Vocabularies: what a definition is described as ([description_exact]); which
      attributes are missing or in conflict ([check_vocabulary_exact]); ensuring a set of
      vocabularies installs, completes and upgrades as the specification by phases says, or
      gives the first error ([ensure_refines]); the core schema is not found in a
      bootstrapped store ([core_names_missing]).
    - Timelines: moving transactions rewinds the store to the datoms of the
      transactions that stay, with a transactor that replaces the value of an attribute of
      cardinality one ([rewound_exact]); which moves are refused ([move_refused]).
    - Tables: keys give back what they were made of and are ordered as it is; cutting
      a row keeps the bytes of each wanted value, and decoding the row is decoding those bytes
      column by column, failures included, whatever the types ([decode_cut_agree]); an index
      key of columns whose types keep what is read gives back its values and its handle.
    - Durations: every constructor and operation keeps the range and precision
      invariant, rounding is to the nearest step, readers give back the parts,
      formatting denotes the value.  A text is parsed exactly as the grammar reads it, and
      what is formatted is read back ([parse_duration_exact], [duration_text_roundtrip]).
    - Integers and strings: readers and clamping are exact on every branch; the prefix
      scans return the longest prefix in a grammar stated apart from them.
    - Datums: integer arithmetic and comparison are exact in every mixture of signed
      and unsigned operands, with the panicking operands listed; comparison is
      antisymmetric across types; encoding and decoding are inverse, encoded datums
      split off and fit the estimate.  The decoders of one type accept what the general
      one reads as that type ([decoders_agree]), and read what the writers wrote
      ([evaluable_roundtrip]).
    - Columns and rows: decoding a column cannot be seen in what is encoded afterwards
      ([decoding_unseen]); equal lengths are the shortest ([truncate_exact]); a
      written row, cut at its offsets, spells the values of its columns ([row_exact]),
      its integers in as few bytes as they need ([compact_exact]); its bytes as the code
      stands, which its tests contradict, are in [row_layout].
    - Literals: their numbers modulo 2^64, their order, and their bits, read back
      ([to_uint_exact], [lit_cmp_exact], [bit_string_roundtrip]).
    - Caches: in a session of registrations, removals and transactions nothing panics, what
      is committed agrees with the store of the last transaction, and reads are reads of
      the store ([session_commits], [session_reads_exact]), except that a retracted single
      value is still read until the commit.  One registration is not covered, and commits
      stale values ([stale_reregistration]): that of an attribute which the committed caches
      hold, the session has unregistered, and the store has no row of any more.
    - Configuration: which read pools, databases and families are accepted, and that the
      options of accepted ones can be built or when not ([readpool_exact],
      [databases_exact], [family_options_exact]); the limits on jobs and when the defaults
      are refused ([background_jobs_exact]); adjusting moved settings is stable under
      validation and invisible to the next start ([compatible_adjust_exact],
      [check_critical_exact]); a change of settings is what its texts say
      ([to_config_change_exact]), is applied up to the first section a manager refuses
      ([fidelate_exact]), and never reaches a column family ([family_changes_refused]).
    - Change capture: over every run of a region the downstreams hear what the specification
      says, and nothing after they leave ([sentinel_refines], [leave_exact]); who waits is
      served when the region is ready ([waiting_are_served]); a resolved timestamp
      is never above the start of a transaction that is in flight ([resolved_ts_safe]); a
      command and a scan are the rows of their keys, in batches ([sink_data_exact],
      [scan_exact], [commands_exact]).
    - Concurrency: however threads interleave, at most one has the machine of a mailbox and
      none is lost but by scheduling ([fsm_exclusive]), a machine that is released can be
      taken ([fsm_available]), one that was scheduled never again ([fsm_scheduled_once]),
      and a cleared one stays ([fsm_cleared]).  The gauge of a read pool exceeds the maximum by
      less than the number of callers, and can by that much ([pool_bounded],
      [pool_overshoots]); panicking tasks starve the pool ([pool_starves]).
    - Upserts: a step of evolution neither loses nor invents an assertion and resolves
      all the map allows ([evolve_one_step_conserves]); whatever the store answers, evolution
      stops after at most one round more than there are complex upserts
      ([evolution_terminates]), and the chain of the repository's test takes that many; the
      labels given to tempids are exactly the classes of the tempids that must coincide.
    - Evaluation context: the warning buffer is bounded whatever sequence of handlers
      runs.

    ** Conventions, fuel and bounds

    A panic (index out of range, arithmetic overflow with overflow checks on, a missing
    match arm, [unwrap] of an error) is [Panic], and a theorem that an operation returns
    is proved as such.  The one exception are the matches of [evolve_one_step] on two
    tempids, which are not exhaustive in the source: [Upsert] gives them the arm its comments
    and tests require.  Loops over a buffer recurse on a count that the code's loop
    bounds give (at most the nine words of a decimal, the 81 digits they hold, the
    length of the input); where the bound is not syntactic the fuel is stated with the
    definition, and running out of it is [Panic], so that the theorems also show it
    never does.  Merging recurses with the length of the longest document, as merging two
    members is on shorter ones; comparing two values goes down in both at once and has the
    smaller depth for fuel.  Error texts are not modelled; an error keeps its constructor
    and code, and the complaints about the schema have one constructor for each text.
    A setter of the external engine's options is a [Call] in the list of calls made; the
    order in which a hash map is walked is a parameter ([HashIter]), so that theorems
    hold for every order.  A configuration keeps the sections no modelled code looks
    into as values of abstract types.

    ** Not modelled

    The text of JSON documents and character sets (tables, and glue over external
    parsers); printing of values; dates and times, which no file defines; the
    conversions of [convert.rs] that do not type-check; of the configuration the first types
    of the file, gauges and serde glue; the reader of rows ([src/event_slice.rs]), the
    general decoder of [datum_codec.rs], the assembly of a [FindQuery] and the constructors of
    the read pool, whose bodies use names and constructors that do not exist; the scans of
    [causets/mutant_searches.rs] and the ranges of [causet], on types no file
    defines; memory orders weaker than sequential consistency; the SQL of
    [einstein_db/src/einsteindb.rs] and the storage engines, traits, server and tools, which
    are glue over external systems. *)
From Stdlib Require Import ZArith Lia.
From stdpp Require Import base list numbers.
#[local] Open Scope Z_scope.

(** ** Outcomes

    Rust code either returns or panics (an index out of range, a failed
    [unwrap], an arithmetic overflow with overflow checks on).  [outcome] keeps
    the two apart; it is a monad through stdpp's [MRet] and [MBind], so the
    notation [x ← c; k] sequences fallible steps. *)

Inductive outcome (A : Type) : Type :=
| Ret (a : A)
| Panic.
Arguments Ret {A} a.
Arguments Panic {A}.

#[export] Instance outcome_ret : MRet outcome := fun A a => Ret a.
#[export] Instance outcome_bind : MBind outcome :=
  fun A B f c => match c with Ret a => f a | Panic => Panic end.
#[export] Instance outcome_fmap : FMap outcome :=
  fun A B f c => match c with Ret a => Ret (f a) | Panic => Panic end.

Definition guardM (b : bool) : outcome unit := if b then Ret tt else Panic.

Lemma bind_Ret {A B} (c : outcome A) (f : A → outcome B) b :
  (c ≫= f) = Ret b ↔ ∃ a, c = Ret a ∧ f a = Ret b.
Proof. destruct c; cbn; naive_solver. Qed.

Lemma bind_ret_l {A B} (a : A) (f : A → outcome B) : (Ret a ≫= f) = f a.
Proof. reflexivity. Qed.

Lemma bind_assoc {A B C} (c : outcome A) (f : A → outcome B) (g : B → outcome C) :
  ((c ≫= f) ≫= g) = (c ≫= λ a, f a ≫= g).
Proof. by destruct c. Qed.

(** Inverts hypotheses of the shape [c = Ret b]. *)
Ltac inv_out :=
  repeat match goal with
  | H : (_ ≫= _) = Ret _ |- _ =>
      let a := fresh "a" in let Ha := fresh "Ha" in
      apply bind_Ret in H; destruct H as (a & Ha & H)
  | H : Ret _ = Ret _ |- _ => injection H; clear H; intros
  | H : Panic = Ret _ |- _ => discriminate H
  end; subst.

(** ** Machine integers

    A w-bit integer is a [Z]; an operation whose result leaves the type's range
    panics ([chk]), a cast wraps. *)

Definition chk (lo hi z : Z) : outcome Z :=
  if (lo <=? z) && (z <=? hi) then Ret z else Panic.

Definition U8_MAX : Z := 255.
Definition U16_MAX : Z := 65535.
Definition U32_MAX : Z := 4294967295.
Definition U64_MAX : Z := 18446744073709551615.
Definition I8_MIN : Z := -128.
Definition I8_MAX : Z := 127.
Definition I16_MIN : Z := -32768.
Definition I16_MAX : Z := 32767.
Definition I32_MIN : Z := -2147483648.
Definition I32_MAX : Z := 2147483647.
Definition I64_MIN : Z := -9223372036854775808.
Definition I64_MAX : Z := 9223372036854775807.

Definition u8 (z : Z) : outcome Z := chk 0 U8_MAX z.
Definition u32 (z : Z) : outcome Z := chk 0 U32_MAX z.
Definition u64 (z : Z) : outcome Z := chk 0 U64_MAX z.
Definition usize (z : Z) : outcome Z := chk 0 U64_MAX z.
Definition i8 (z : Z) : outcome Z := chk I8_MIN I8_MAX z.
Definition i32 (z : Z) : outcome Z := chk I32_MIN I32_MAX z.
Definition i64 (z : Z) : outcome Z := chk I64_MIN I64_MAX z.
Definition isize (z : Z) : outcome Z := chk I64_MIN I64_MAX z.

(** Casts ([as u8] and the like): two's complement wrap-around. *)
Definition as_u8 (z : Z) : Z := z mod 256.
Definition as_u32 (z : Z) : Z := z mod 4294967296.
Definition as_u64 (z : Z) : Z := z mod 18446744073709551616.
Definition as_i8 (z : Z) : Z := (z + 128) mod 256 - 128.
Definition as_i32 (z : Z) : Z := (z + 2147483648) mod 4294967296 - 2147483648.
Definition as_i64 (z : Z) : Z :=
  (z + 9223372036854775808) mod 18446744073709551616 - 9223372036854775808.

(** [checked_*]: [None] when the result leaves the range. *)
Definition checked (lo hi z : Z) : option Z :=
  if (lo <=? z) && (z <=? hi) then Some z else None.

Definition is_u8 (z : Z) : Prop := 0 <= z <= U8_MAX.
Definition is_u32 (z : Z) : Prop := 0 <= z <= U32_MAX.
Definition is_u64 (z : Z) : Prop := 0 <= z <= U64_MAX.
Definition is_i64 (z : Z) : Prop := I64_MIN <= z <= I64_MAX.

Create HintDb machine.
#[export] Hint Unfold U8_MAX U16_MAX U32_MAX U64_MAX I8_MIN I8_MAX I16_MIN I16_MAX
  I32_MIN I32_MAX I64_MIN I64_MAX u8 u32 u64 usize i8 i32 i64 isize
  is_u8 is_u32 is_u64 is_i64 : machine.

(** Unfolds the machine-integer layer everywhere. *)
Ltac mach := autounfold with machine in *.

Lemma chk_ok lo hi z : lo <= z <= hi → chk lo hi z = Ret z.
Proof. intros ?. unfold chk. by rewrite (proj2 (Z.leb_le _ _)), (proj2 (Z.leb_le _ _)) by lia. Qed.

Lemma chk_panic lo hi z : z < lo ∨ hi < z → chk lo hi z = Panic.
Proof.
  intros ?. unfold chk. destruct (Z.leb_spec lo z), (Z.leb_spec z hi); cbn; auto; lia.
Qed.

Lemma chk_Ret lo hi z z' : chk lo hi z = Ret z' ↔ z' = z ∧ lo <= z <= hi.
Proof.
  unfold chk. destruct (Z.leb_spec lo z), (Z.leb_spec z hi); cbn;
    split; intros; simplify_eq; try (split; [reflexivity|lia]); naive_solver lia.
Qed.

Lemma checked_Some lo hi z z' : checked lo hi z = Some z' ↔ z' = z ∧ lo <= z <= hi.
Proof.
  unfold checked. destruct (Z.leb_spec lo z), (Z.leb_spec z hi); cbn;
    naive_solver lia.
Qed.

Lemma checked_None lo hi z : checked lo hi z = None ↔ z < lo ∨ hi < z.
Proof.
  unfold checked. destruct (Z.leb_spec lo z), (Z.leb_spec z hi); cbn;
    naive_solver lia.
Qed.

(** ** Fixed-size buffers: indexing panics out of range *)

Definition get {A} (l : list A) (i : Z) : outcome A :=
  if 0 <=? i then match l !! Z.to_nat i with Some x => Ret x | None => Panic end
  else Panic.

Definition set {A} (l : list A) (i : Z) (x : A) : outcome (list A) :=
  if (0 <=? i) && (i <? Z.of_nat (length l)) then Ret (<[Z.to_nat i := x]> l)
  else Panic.

Lemma get_ok {A} (l : list A) i x :
  l !! Z.to_nat i = Some x → 0 <= i → get l i = Ret x.
Proof. intros Hx Hi. unfold get. by rewrite (proj2 (Z.leb_le _ _)), Hx by lia. Qed.

Lemma get_Ret {A} (l : list A) i x :
  get l i = Ret x ↔ 0 <= i ∧ l !! Z.to_nat i = Some x.
Proof.
  unfold get. destruct (Z.leb_spec 0 i); [|naive_solver lia].
  destruct (l !! Z.to_nat i); naive_solver lia.
Qed.

Lemma set_ok {A} (l : list A) i x :
  0 <= i < Z.of_nat (length l) → set l i x = Ret (<[Z.to_nat i := x]> l).
Proof.
  intros ?. unfold set. by rewrite (proj2 (Z.leb_le _ _)), (proj2 (Z.ltb_lt _ _)) by lia.
Qed.

Lemma set_Ret {A} (l : list A) i x l' :
  set l i x = Ret l' ↔ l' = <[Z.to_nat i := x]> l ∧ 0 <= i < Z.of_nat (length l).
Proof.
  unfold set. destruct (Z.leb_spec 0 i), (Z.ltb_spec i (Z.of_nat (length l))); cbn;
    split; intros; simplify_eq; try (split; [reflexivity|lia]); naive_solver lia.
Qed.

(** Splitting goals on boolean integer comparisons. *)
Ltac case_Z :=
  match goal with
  | |- context [Z.leb ?a ?b] => destruct (Z.leb_spec a b)
  | |- context [Z.ltb ?a ?b] => destruct (Z.ltb_spec a b)
  | |- context [Z.eqb ?a ?b] => destruct (Z.eqb_spec a b)
  | |- context [Z.gtb ?a ?b] => rewrite (Z.gtb_ltb a b); destruct (Z.ltb_spec b a)
  | |- context [Z.geb ?a ?b] => rewrite (Z.geb_leb a b); destruct (Z.leb_spec b a)
  end.

(** [i -= 1] on an index: panics below zero. *)
Definition usize_dec (i : Z) : outcome Z := if 0 <? i then Ret (i - 1) else Panic.

Lemma usize_dec_ok i : 0 < i → usize_dec i = Ret (i - 1).
Proof. intros. unfold usize_dec. by rewrite (proj2 (Z.ltb_lt _ _)). Qed.

Lemma usize_ok z : 0 <= z <= U64_MAX → usize z = Ret z.
Proof. apply chk_ok. Qed.
Lemma u8_ok z : 0 <= z <= 255 → u8 z = Ret z.
Proof. apply chk_ok. Qed.
Lemma u32_ok z : 0 <= z <= U32_MAX → u32 z = Ret z.
Proof. apply chk_ok. Qed.
Lemma u64_ok z : 0 <= z <= U64_MAX → u64 z = Ret z.
Proof. apply chk_ok. Qed.
Lemma i8_ok z : -128 <= z <= 127 → i8 z = Ret z.
Proof. apply chk_ok. Qed.
Lemma i32_ok z : I32_MIN <= z <= I32_MAX → i32 z = Ret z.
Proof. apply chk_ok. Qed.
Lemma i64_ok z : I64_MIN <= z <= I64_MAX → i64 z = Ret z.
Proof. apply chk_ok. Qed.

Lemma as_u8_id z : 0 <= z <= 255 → as_u8 z = z.
Proof. intros. unfold as_u8. apply Z.mod_small. lia. Qed.
Lemma as_u32_id z : 0 <= z <= U32_MAX → as_u32 z = z.
Proof. unfold U32_MAX. intros. unfold as_u32. apply Z.mod_small. lia. Qed.
Lemma as_u64_id z : 0 <= z <= U64_MAX → as_u64 z = z.
Proof. unfold U64_MAX. intros. unfold as_u64. apply Z.mod_small. lia. Qed.
Lemma as_i8_id z : I8_MIN <= z <= I8_MAX → as_i8 z = z.
Proof. unfold I8_MIN, I8_MAX. intros. unfold as_i8. rewrite Z.mod_small; lia. Qed.
Lemma as_i32_id z : I32_MIN <= z <= I32_MAX → as_i32 z = z.
Proof. unfold I32_MIN, I32_MAX. intros. unfold as_i32. rewrite Z.mod_small; lia. Qed.
Lemma as_i64_id z : I64_MIN <= z <= I64_MAX → as_i64 z = z.
Proof. unfold I64_MIN, I64_MAX. intros. unfold as_i64. rewrite Z.mod_small; lia. Qed.

(** Linear arithmetic with division and remainder by constants. *)
Ltac zdiv := Z.to_euclidean_division_equations; lia.

(** Runs the first step of a bind whose head has become [Ret]. *)
Ltac bindr := cbn [mbind outcome_bind].

Lemma as_i64_sub a b : as_i64 (as_i64 a - b) = as_i64 (a - b).
Proof.
  unfold as_i64. f_equal.
  replace ((a + 9223372036854775808) mod 18446744073709551616 - 9223372036854775808 - b
           + 9223372036854775808)
    with ((a + 9223372036854775808) mod 18446744073709551616 - b) by lia.
  rewrite Zminus_mod_idemp_l. f_equal. lia.
Qed.

(** ** Loops *)

(** A loop that threads a state and may panic. *)
Fixpoint foldO {A S} (f : S → A → outcome S) (s : S) (l : list A) : outcome S :=
  match l with
  | [] => Ret s
  | x :: l => s ← f s x; foldO f s l
  end.

Lemma foldO_inv {A S} (P : S → list A → Prop) (f : S → A → outcome S) (l : list A) : ∀ done s s',
  P s done → (∀ s done x s', P s done → x ∈ l → f s x = Ret s' → P s' (done ++ [x])) →
  foldO f s l = Ret s' → P s' (done ++ l).
Proof.
  induction l as [|x l IH]; intros done s s' HP Hf Hl; cbn in Hl.
  - injection Hl as <-. by rewrite app_nil_r.
  - inv_out. rewrite cons_middle, app_assoc. eapply IH; [|intros; eapply Hf|done]; eauto; [|by right].
    eapply Hf; eauto. by left.
Qed.

Lemma foldO_Ret {A S} (f : S → A → outcome S) (P : A → Prop) (l : list A) : ∀ s,
  (∀ s x, (∃ s', f s x = Ret s') ↔ P x) →
  (∃ s', foldO f s l = Ret s') ↔ Forall P l.
Proof.
  induction l as [|x l IH]; intros s Hf; cbn.
  - split; [done|eauto].
  - rewrite Forall_cons_iff, <- (Hf s x). split.
    + intros [s' Hs]. inv_out. split; [eauto|]. apply (IH a Hf). eauto.
    + intros [[s1 Hs1] Hl]. rewrite Hs1. bindr. by apply IH.
Qed.

