(* ===== verification/Words.v ===== *)
(** * Words: big-endian positional numbers over a base, held in buffers

    The decimals of [berolinasql/src/decimal.rs] are arrays of base-10^9 digits,
    most significant first.  This file has the value of such a list, its bounds
    and its order, and the lemmas on reading and writing a buffer at the border
    between two of its parts, which is what the arithmetic loops do. *)
From Stdlib Require Import ZArith Lia.
From stdpp Require Import base list numbers.
From S2P Require Import Prelude.
#[local] Open Scope Z_scope.

Section Positional.
Context (B : Z).

Fixpoint wval_acc (acc : Z) (ws : list Z) : Z :=
  match ws with
  | [] => acc
  | w :: ws => wval_acc (acc * B + w) ws
  end.

(** The number a list of words denotes. *)
Definition wval (ws : list Z) : Z := wval_acc 0 ws.

(** A digit of the base. *)
Definition word (w : Z) : Prop := 0 <= w < B.

Lemma wval_acc_eq acc ws :
  wval_acc acc ws = acc * B ^ Z.of_nat (length ws) + wval ws.
Proof.
  unfold wval. revert acc. induction ws as [|w ws IH]; intros acc.
  - cbn. lia.
  - cbn [wval_acc length]. rewrite IH, (IH (0 * B + w)).
    rewrite Nat2Z.inj_succ, Z.pow_succ_r by lia. ring.
Qed.

Lemma wval_nil : wval [] = 0.
Proof. reflexivity. Qed.

Lemma wval_cons w ws : wval (w :: ws) = w * B ^ Z.of_nat (length ws) + wval ws.
Proof. unfold wval at 1. cbn [wval_acc]. by rewrite wval_acc_eq, Z.mul_0_l, Z.add_0_l. Qed.

Lemma wval_app a b : wval (a ++ b) = wval a * B ^ Z.of_nat (length b) + wval b.
Proof.
  induction a as [|w a IH]; [rewrite app_nil_l, wval_nil; lia|].
  cbn [app]. rewrite !wval_cons, IH, length_app, Nat2Z.inj_add, Z.pow_add_r by lia. ring.
Qed.

Lemma wval_snoc a w : wval (a ++ [w]) = wval a * B + w.
Proof. rewrite wval_app. cbn [length]. change (Z.of_nat 1) with 1.
  rewrite Z.pow_1_r. unfold wval at 2. cbn. lia. Qed.

Lemma wval_replicate_0 n : wval (replicate n 0) = 0.
Proof.
  induction n as [|n IH]; [done|]. cbn [replicate].
  rewrite wval_cons, IH. lia.
Qed.

Lemma wval_zeros_app n ws : wval (replicate n 0 ++ ws) = wval ws.
Proof. rewrite wval_app, wval_replicate_0. lia. Qed.

Lemma wval_app_zeros ws n :
  wval (ws ++ replicate n 0) = wval ws * B ^ Z.of_nat n.
Proof. rewrite wval_app, wval_replicate_0, length_replicate. lia. Qed.

Context (HB : 1 < B).

Lemma base_pow_pos (n : nat) : 0 < B ^ Z.of_nat n.
Proof. apply Z.pow_pos_nonneg; lia. Qed.

Lemma wval_bounds ws : Forall word ws → 0 <= wval ws < B ^ Z.of_nat (length ws).
Proof.
  induction 1 as [|w ws Hw _ IH]; [cbn; lia|].
  rewrite wval_cons. cbn [length]. rewrite Nat2Z.inj_succ, Z.pow_succ_r by lia.
  unfold word in Hw. pose proof (base_pow_pos (length ws)). nia.
Qed.

Lemma word_0 : word 0.
Proof. unfold word. lia. Qed.

Lemma words_zeros n : Forall word (replicate n 0).
Proof. apply Forall_replicate, word_0. Qed.

(** The order of two lists of the same length is the order of their values: the
    first difference decides. *)
Lemma wval_first_diff a x y b c :
  Forall word b → Forall word c → length b = length c → x < y →
  wval (a ++ x :: b) < wval (a ++ y :: c).
Proof.
  intros Hb Hc Hlen Hxy. rewrite !wval_app, !wval_cons. cbn [length]. rewrite Hlen.
  apply wval_bounds in Hb, Hc. rewrite Hlen in Hb.
  pose proof (base_pow_pos (length c)). nia.
Qed.

(** A non-zero leading digit outweighs any shorter list. *)
Lemma wval_longer x a b :
  Forall word a → Forall word b → 0 < x → (length b <= length a)%nat →
  wval b < wval (x :: a).
Proof.
  intros Ha Hb Hx Hlen. rewrite wval_cons.
  apply wval_bounds in Ha, Hb.
  assert (B ^ Z.of_nat (length b) <= B ^ Z.of_nat (length a)) by (apply Z.pow_le_mono_r; lia).
  pose proof (base_pow_pos (length a)). nia.
Qed.

Lemma wval_zero ws : Forall word ws → wval ws = 0 → ws = replicate (length ws) 0.
Proof.
  induction 1 as [|w ws Hw Hws IH]; [done|]. rewrite wval_cons. intros H.
  pose proof (wval_bounds ws Hws). pose proof (base_pow_pos (length ws)).
  unfold word in Hw. assert (w = 0) as -> by nia.
  cbn [length replicate]. f_equal. apply IH. lia.
Qed.
End Positional.

Create HintDb words.
#[export] Hint Rewrite wval_nil wval_cons wval_app wval_replicate_0 wval_zeros_app : wval.
#[export] Hint Resolve word_0 words_zeros Forall_app_2 : words.

(** ** Buffers cut in two

    [get] and [set] at the border of [pre] and its successor. *)

Lemma get_mid {A} (pre : list A) x post i :
  i = Z.of_nat (length pre) → get (pre ++ x :: post) i = Ret x.
Proof.
  intros ->. apply get_ok; [|lia]. rewrite Nat2Z.id.
  rewrite lookup_app_r, Nat.sub_diag by lia. done.
Qed.

Lemma set_mid {A} (pre : list A) x y post i :
  i = Z.of_nat (length pre) → set (pre ++ y :: post) i x = Ret (pre ++ x :: post).
Proof.
  intros ->. rewrite set_ok by (rewrite length_app; cbn; lia).
  rewrite Nat2Z.id. f_equal.
  rewrite insert_app_r_alt, Nat.sub_diag by lia. done.
Qed.

(** Writing the last cell of [pre]. *)
Lemma set_last {A} (pre : list A) x y post i :
  i = Z.of_nat (length pre) → set ((pre ++ [y]) ++ post) i x = Ret (pre ++ x :: post).
Proof. intros. rewrite <- app_assoc. cbn. by apply set_mid. Qed.

Lemma get_last {A} (pre : list A) x post i :
  i = Z.of_nat (length pre) → get ((pre ++ [x]) ++ post) i = Ret x.
Proof. intros. rewrite <- app_assoc. cbn. by apply get_mid. Qed.

(** A list of the right length is the concatenation of its parts. *)
Lemma cut_at {A} (l : list A) (n : nat) :
  (n <= length l)%nat → ∃ a b, l = a ++ b ∧ length a = n.
Proof.
  intros. exists (take n l), (drop n l). rewrite take_drop. split; [done|].
  rewrite length_take. lia.
Qed.

Lemma snoc_cases {A} (l : list A) (n : nat) :
  length l = S n → ∃ a x, l = a ++ [x] ∧ length a = n.
Proof.
  intros H. destruct l as [|x l _] using rev_ind; [done|].
  rewrite length_app in H. cbn in H. exists l, x. split; [done|lia].
Qed.

Lemma Forall_snoc_inv {A} (P : A → Prop) l x : Forall P (l ++ [x]) → Forall P l ∧ P x.
Proof. rewrite Forall_app, Forall_singleton. done. Qed.

Lemma cut_at_r {A} (l : list A) (n : nat) :
  (n <= length l)%nat → ∃ a b, l = a ++ b ∧ length b = n.
Proof.
  intros. exists (take (length l - n) l), (drop (length l - n) l). rewrite take_drop.
  split; [done|]. rewrite length_drop. lia.
Qed.

Lemma app_cons_l {A} (a : list A) x b : a ++ x :: b = (a ++ [x]) ++ b.
Proof. by rewrite <- app_assoc. Qed.
