(* ===== verification/EvalCtx.v ===== *)
(** * EvalCtx: errors, evaluation flags and the warning buffer

    Models the error type of [berolinasql/src/error.rs] and the evaluation
    context of [causetq/src/ctx.rs]: the flags that decide whether a truncation,
    an overflow or a division by zero is ignored, turned into a warning or
    returned as an error, and the bounded buffer of warnings.

    Message texts are not modelled: an error keeps its constructor and, for
    [Error::Eval], its code.  The time zone of the configuration is not
    modelled, since no modelled operation reads it. *)
From Stdlib Require Import ZArith Lia.
From stdpp Require Import base list numbers relations.
From S2P Require Import Prelude.
#[local] Open Scope Z_scope.

(** ** Errors ([error.rs]) *)

Definition ERR_M_BIGGER_THAN_D : Z := 1427.
Definition ERR_UNCAUSET_LOCALE_NUCLEON : Z := 1105.
Definition WARN_DATA_TRUNCATED : Z := 1265.
Definition ERR_TRUNCATE_WRONG_VALUE : Z := 1292.
Definition ERR_DIVISION_BY_ZERO : Z := 1365.
Definition ERR_DATA_TOO_LONG : Z := 1406.
Definition ERR_DATA_OUT_OF_RANGE : Z := 1690.

(** [enum Error]; the payloads other than the code are texts. *)
Inductive Error : Type :=
| InvalidDataType
| Encoding
| ColumnOffset (offset : Z)
| UnCausetLocaleNucleonSignature
| EvalErr (code : Z)
| Other.

#[export] Instance Error_eq_dec : EqDecision Error.
Proof. solve_decision. Defined.

(** [Result<T>] of the crate. *)
Inductive result (A : Type) : Type :=
| Ok (a : A)
| Err (e : Error).
Arguments Ok {A} a.
Arguments Err {A} e.

Definition over_causetxctx : Error := EvalErr ERR_DATA_OUT_OF_RANGE.
Definition truncated_wrong_val : Error := EvalErr ERR_TRUNCATE_WRONG_VALUE.
Definition truncated : Error := EvalErr WARN_DATA_TRUNCATED.
Definition m_bigger_than_d : Error := EvalErr ERR_M_BIGGER_THAN_D.
Definition division_by_zero : Error := EvalErr ERR_DIVISION_BY_ZERO.
Definition data_too_long : Error := EvalErr ERR_DATA_TOO_LONG.

(** [Error::code]. *)
Definition code (e : Error) : Z :=
  match e with
  | EvalErr code => code
  | _ => ERR_UNCAUSET_LOCALE_NUCLEON
  end.

(** [Error::is_over_causetxctx]. *)
Definition is_over_causetxctx (e : Error) : bool := code e =? ERR_DATA_OUT_OF_RANGE.

(** ** Flags ([bitflags!] of [ctx.rs]) *)

Definition STRICT_TRANS_TABLES : Z := Z.shiftl 1 22.
Definition STRICT_ALL_TABLES : Z := Z.shiftl 1 23.
Definition ERROR_FOR_DIVISION_BY_ZERO : Z := Z.shiftl 1 27.

Definition IGNORE_TRUNCATE : Z := 1.
Definition TRUNCATE_AS_WARNING : Z := Z.shiftl 1 1.
Definition IN_INSERT_STMT : Z := Z.shiftl 1 3.
Definition IN_FIDelio_OR_DELETE_STMT : Z := Z.shiftl 1 4.
Definition IN_SELECT_STMT : Z := Z.shiftl 1 5.
Definition OVERCausetxctx_AS_WARNING : Z := Z.shiftl 1 6.
Definition DIVIDED_BY_ZERO_AS_WARNING : Z := Z.shiftl 1 8.
Definition IN_LOAD_DATA_STMT : Z := Z.shiftl 1 10.

(** [bitflags]' [contains]: every bit of [f] is set in [bits]. *)
Definition contains (bits f : Z) : bool := Z.land bits f =? f.

(** [BerolinaSQLMode::is_strict]. *)
Definition is_strict (mode : Z) : bool :=
  contains mode STRICT_TRANS_TABLES || contains mode STRICT_ALL_TABLES.

(** ** Configuration *)

Definition DEFAULT_MAX_WARNING_CNT : nat := 64.

Record PolicyGradient := mkPolicyGradient {
  flag : Z;
  max_warning_cnt : nat;
  berolina_sql_mode : Z;
}.

(** [PolicyGradient::new]. *)
Definition PolicyGradient_new : PolicyGradient :=
  {| flag := 0; max_warning_cnt := DEFAULT_MAX_WARNING_CNT; berolina_sql_mode := 0 |}.

(** [set_flag]: the two branches on the relativistic-time bit only touch the
    field that the last assignment overwrites. *)
Definition set_flag (RELATIVISTIC_TIME : Z) (cfg : PolicyGradient) (new : Z) : PolicyGradient :=
  let cfg' :=
    if contains new RELATIVISTIC_TIME
    then {| flag := Z.lor (flag cfg) RELATIVISTIC_TIME;
            max_warning_cnt := max_warning_cnt cfg; berolina_sql_mode := berolina_sql_mode cfg |}
    else {| flag := Z.ldiff (flag cfg) RELATIVISTIC_TIME;
            max_warning_cnt := max_warning_cnt cfg; berolina_sql_mode := berolina_sql_mode cfg |} in
  {| flag := new; max_warning_cnt := max_warning_cnt cfg';
     berolina_sql_mode := berolina_sql_mode cfg' |}.

Definition from_flag (RELATIVISTIC_TIME : Z) (f : Z) : PolicyGradient :=
  set_flag RELATIVISTIC_TIME PolicyGradient_new f.

Definition set_max_warning_cnt (cfg : PolicyGradient) (n : nat) : PolicyGradient :=
  {| flag := flag cfg; max_warning_cnt := n; berolina_sql_mode := berolina_sql_mode cfg |}.

Definition set_berolina_sql_mode (cfg : PolicyGradient) (m : Z) : PolicyGradient :=
  {| flag := flag cfg; max_warning_cnt := max_warning_cnt cfg; berolina_sql_mode := m |}.

(** ** Warnings *)

Record EvalWarnings := mkEvalWarnings {
  ew_max_warning_cnt : nat;
  warning_cnt : nat;
  warnings : list Error;
}.

(** [EvalWarnings::new]. *)
Definition EvalWarnings_new (max_warning_cnt : nat) : EvalWarnings :=
  {| ew_max_warning_cnt := max_warning_cnt; warning_cnt := 0; warnings := [] |}.

Definition append_warning (w : EvalWarnings) (err : Error) : EvalWarnings :=
  {| ew_max_warning_cnt := ew_max_warning_cnt w;
     warning_cnt := warning_cnt w + 1;
     warnings := if (length (warnings w) <? ew_max_warning_cnt w)%nat
                 then warnings w ++ [err] else warnings w |}.

(** [EvalWarnings::merge]: [other] is drained too, so both are returned. *)
Definition merge (w other : EvalWarnings) : EvalWarnings * EvalWarnings :=
  let cnt := (warning_cnt w + warning_cnt other)%nat in
  if (ew_max_warning_cnt w <=? length (warnings w))%nat then
    ({| ew_max_warning_cnt := ew_max_warning_cnt w; warning_cnt := cnt;
        warnings := warnings w |}, other)
  else
    let kept := take (ew_max_warning_cnt w - length (warnings w)) (warnings other) in
    ({| ew_max_warning_cnt := ew_max_warning_cnt w; warning_cnt := cnt;
        warnings := warnings w ++ kept |},
     {| ew_max_warning_cnt := ew_max_warning_cnt other; warning_cnt := warning_cnt other;
        warnings := [] |}).

(** ** Context *)

Record EvalContext := mkEvalContext {
  braneg : PolicyGradient;
  ctx_warnings : EvalWarnings;
}.

(** [EvalContext::new]. *)
Definition EvalContext_new (cfg : PolicyGradient) : EvalContext :=
  {| braneg := cfg; ctx_warnings := EvalWarnings_new (max_warning_cnt cfg) |}.

Definition has_flag (ctx : EvalContext) (f : Z) : bool := contains (flag (braneg ctx)) f.

Definition warn (ctx : EvalContext) (err : Error) : EvalContext :=
  {| braneg := braneg ctx; ctx_warnings := append_warning (ctx_warnings ctx) err |}.

Definition handle_truncate_err (ctx : EvalContext) (err : Error) : result unit * EvalContext :=
  if has_flag ctx IGNORE_TRUNCATE then (Ok tt, ctx)
  else if has_flag ctx TRUNCATE_AS_WARNING then (Ok tt, warn ctx err)
  else (Err err, ctx).

Definition handle_truncate (ctx : EvalContext) (is_truncated : bool) : result unit * EvalContext :=
  if negb is_truncated then (Ok tt, ctx) else handle_truncate_err ctx truncated.

Definition handle_overCausetxctx_err (ctx : EvalContext) (err : Error)
  : result unit * EvalContext :=
  if has_flag ctx OVERCausetxctx_AS_WARNING then (Ok tt, warn ctx err) else (Err err, ctx).

Definition handle_division_by_zero (ctx : EvalContext) : result unit * EvalContext :=
  let fallthrough := (Ok tt, warn ctx division_by_zero) in
  if has_flag ctx IN_INSERT_STMT || has_flag ctx IN_FIDelio_OR_DELETE_STMT then
    if negb (contains (berolina_sql_mode (braneg ctx)) ERROR_FOR_DIVISION_BY_ZERO)
    then (Ok tt, ctx)
    else if is_strict (berolina_sql_mode (braneg ctx))
            && negb (has_flag ctx DIVIDED_BY_ZERO_AS_WARNING)
    then (Err division_by_zero, ctx)
    else fallthrough
  else fallthrough.

Definition handle_invalid_time_error (ctx : EvalContext) (err : Error)
  : result unit * EvalContext :=
  if is_strict (berolina_sql_mode (braneg ctx))
     && (has_flag ctx IN_INSERT_STMT || has_flag ctx IN_FIDelio_OR_DELETE_STMT)
  then (Err err, ctx)
  else (Ok tt, warn ctx err).

Definition overCausetxctx_from_cast_str_as_int (ctx : EvalContext) (orig_err : Error)
    (negative : bool) : result Z * EvalContext :=
  if negb (has_flag ctx IN_SELECT_STMT) || negb (has_flag ctx OVERCausetxctx_AS_WARNING)
  then (Err orig_err, ctx)
  else (Ok (if negative then I64_MIN else as_i64 U64_MAX), warn ctx truncated_wrong_val).

(** [take_warnings] replaces the buffer by an empty one of the configured size. *)
Definition take_warnings (ctx : EvalContext) : EvalWarnings * EvalContext :=
  (ctx_warnings ctx,
   {| braneg := braneg ctx;
      ctx_warnings := EvalWarnings_new (max_warning_cnt (braneg ctx)) |}).

Definition should_clip_to_zero (ctx : EvalContext) : bool :=
  has_flag ctx IN_INSERT_STMT || has_flag ctx IN_LOAD_DATA_STMT.

(** ** The evaluation monad

    Code that takes [ctx: &mut EvalContext] and returns a [Result]: the [?]
    operator stops at the first error and keeps the context as it is then. *)

Definition evalM (A : Type) : Type := EvalContext → outcome (result A * EvalContext).

#[export] Instance evalM_ret : MRet evalM := fun A a ctx => Ret (Ok a, ctx).
#[export] Instance evalM_bind : MBind evalM :=
  fun A B f m ctx =>
    match m ctx with
    | Ret (Ok a, ctx') => f a ctx'
    | Ret (Err e, ctx') => Ret (Err e, ctx')
    | Panic => Panic
    end.

Definition fail {A} (e : Error) : evalM A := fun ctx => Ret (Err e, ctx).
Definition pure_ctx {A} (f : EvalContext → A) : evalM A := fun ctx => Ret (Ok (f ctx), ctx).
Definition handler {A} (h : EvalContext → result A * EvalContext) : evalM A := fun ctx => Ret (h ctx).
Definition lift_out {A} (o : outcome A) : evalM A :=
  fun ctx => match o with Ret a => Ret (Ok a, ctx) | Panic => Panic end.
Definition lift_res {A} (r : result A) : evalM A := fun ctx => Ret (r, ctx).

(** ** Properties *)

(** One step of the context: any of the handlers, or [take_warnings]. *)
Inductive ctx_step : EvalContext → EvalContext → Prop :=
| step_truncate ctx b r ctx' :
    handle_truncate ctx b = (r, ctx') → ctx_step ctx ctx'
| step_truncate_err ctx e r ctx' :
    handle_truncate_err ctx e = (r, ctx') → ctx_step ctx ctx'
| step_overflow ctx e r ctx' :
    handle_overCausetxctx_err ctx e = (r, ctx') → ctx_step ctx ctx'
| step_div ctx r ctx' :
    handle_division_by_zero ctx = (r, ctx') → ctx_step ctx ctx'
| step_time ctx e r ctx' :
    handle_invalid_time_error ctx e = (r, ctx') → ctx_step ctx ctx'
| step_cast ctx e neg r ctx' :
    overCausetxctx_from_cast_str_as_int ctx e neg = (r, ctx') → ctx_step ctx ctx'
| step_take ctx w ctx' :
    take_warnings ctx = (w, ctx') → ctx_step ctx ctx'.

(** The buffer holds the first [max] of the warnings counted. *)
Definition warnings_wf (w : EvalWarnings) : Prop :=
  length (warnings w) = (warning_cnt w `min` ew_max_warning_cnt w)%nat.

Definition ctx_wf (cfg : PolicyGradient) (ctx : EvalContext) : Prop :=
  braneg ctx = cfg ∧ ew_max_warning_cnt (ctx_warnings ctx) = max_warning_cnt cfg
  ∧ warnings_wf (ctx_warnings ctx).

Lemma append_warning_wf w e : warnings_wf w → warnings_wf (append_warning w e).
Proof.
  unfold warnings_wf, append_warning. cbn [warnings warning_cnt ew_max_warning_cnt]. intros H.
  destruct (Nat.ltb_spec (length (warnings w)) (ew_max_warning_cnt w));
    rewrite ?length_app; cbn; lia.
Qed.

Lemma warn_wf cfg ctx e : ctx_wf cfg ctx → ctx_wf cfg (warn ctx e).
Proof. intros (? & ? & ?). split_and!; cbn; auto using append_warning_wf. Qed.

Lemma new_ctx_wf cfg : ctx_wf cfg (EvalContext_new cfg).
Proof. done. Qed.

(** A handler leaves the context alone or adds one warning. *)
Lemma step_shape ctx ctx' :
  ctx_step ctx ctx' →
  ctx' = ctx ∨ (∃ e, ctx' = warn ctx e) ∨ ctx' = (take_warnings ctx).2.
Proof.
  destruct 1 as [? [] ? ? H|? ? ? ? H|? ? ? ? H|? ? ? H|? ? ? ? H|? ? ? ? ? H|? ? ? H];
    revert H;
    unfold handle_truncate, handle_truncate_err, handle_overCausetxctx_err,
      handle_division_by_zero, handle_invalid_time_error,
      overCausetxctx_from_cast_str_as_int, take_warnings;
    cbn; repeat case_match; intros; simplify_eq; eauto.
Qed.

(** Whatever sequence of handlers runs on a fresh context, the
    configuration is the one it was created with and the warning buffer holds
    exactly the first [max_warning_cnt] of the warnings raised since the last
    [take_warnings]: never more, and none lost below the bound. *)
Theorem warnings_bounded (cfg : PolicyGradient) (ctx : EvalContext) :
  rtc ctx_step (EvalContext_new cfg) ctx → ctx_wf cfg ctx.
Proof.
  intros H. assert (ctx_wf cfg (EvalContext_new cfg)) as Hwf by apply new_ctx_wf.
  induction H as [|x y z Hstep _ IH]; [done|]. apply IH.
  destruct (step_shape _ _ Hstep) as [-> | [ [e ->] | -> ] ]; [done|by apply warn_wf|].
  destruct Hwf as (Hc & ? & ?). split_and!; cbn; [done|by rewrite Hc|done].
Qed.

Lemma warnings_bounded_witness :
  ctx_wf (from_flag 0 TRUNCATE_AS_WARNING)
    (handle_truncate (EvalContext_new (from_flag 0 TRUNCATE_AS_WARNING)) true).2.
Proof.
  apply (warnings_bounded (from_flag 0 TRUNCATE_AS_WARNING)).
  eapply rtc_l; [|apply rtc_refl]. eapply (step_truncate _ true). reflexivity.
Defined.

(** Merging the warnings of two workers that share one bound keeps the
    buffer exact: the counts add up, and the details kept are a prefix of the
    concatenation of both buffers of length [min total max]. *)
Theorem merge_exact (w other w' other' : EvalWarnings) :
  warnings_wf w → warnings_wf other →
  ew_max_warning_cnt w = ew_max_warning_cnt other →
  merge w other = (w', other') →
  warnings_wf w'
  ∧ warning_cnt w' = (warning_cnt w + warning_cnt other)%nat
  ∧ warnings w' = take (ew_max_warning_cnt w) (warnings w ++ warnings other).
Proof.
  unfold warnings_wf, merge. intros Hw Ho Hm.
  destruct (Nat.leb_spec (ew_max_warning_cnt w) (length (warnings w)));
    intros; simplify_eq; cbn [warnings warning_cnt ew_max_warning_cnt].
  - split_and!; [lia|done|]. rewrite take_app_le, take_ge by lia. done.
  - split_and!; [rewrite length_app, length_take; lia|done|].
    by rewrite take_app_ge by lia.
Qed.

Lemma merge_exact_witness :
  let w := append_warning (EvalWarnings_new 1) truncated in
  warnings (merge w w).1 = take 1 (warnings w ++ warnings w).
Proof.
  intros w. destruct (merge w w) as [w' o'] eqn:E.
  apply (merge_exact w w w' o' eq_refl eq_refl eq_refl E).
Defined.

(** [handle_division_by_zero] on its whole table: outside INSERT/UPDATE/
    DELETE, or inside them with [ERROR_FOR_DIVISION_BY_ZERO] set but either the
    mode not strict or the warning flag on, it warns; inside them without that
    mode it is silent; only strict mode without the warning flag is an error. *)
Theorem handle_division_by_zero_table (ctx : EvalContext) :
  let dml := has_flag ctx IN_INSERT_STMT || has_flag ctx IN_FIDelio_OR_DELETE_STMT in
  let mode := berolina_sql_mode (braneg ctx) in
  let efd := contains mode ERROR_FOR_DIVISION_BY_ZERO in
  let strict := is_strict mode && negb (has_flag ctx DIVIDED_BY_ZERO_AS_WARNING) in
  ((handle_division_by_zero ctx).1 = Err division_by_zero ↔ dml && efd && strict = true)
  ∧ ((handle_division_by_zero ctx).2 = ctx ↔ dml && (negb efd || strict) = true)
  ∧ ((handle_division_by_zero ctx).2 = warn ctx division_by_zero
     ↔ negb dml || (efd && negb strict) = true).
Proof.
  intros dml mode efd strict.
  assert (warn ctx division_by_zero ≠ ctx) as Hne.
  { destruct ctx as [c [m n l]]. unfold warn, append_warning; cbn. intros [=]. lia. }
  unfold handle_division_by_zero. fold dml mode efd strict.
  destruct dml, efd, strict; cbn; naive_solver.
Qed.
