(* ===== verification/Slice.v ===== *)
(** * Slice: byte slices and fallible computations

    What Rust's slices and [Result] give the code that reads binary layouts: indexing
    and slicing that panic out of range, writing in place, the lexicographic order of
    byte slices, little-endian integers, and the sequencing of computations that may
    panic or return an error ([?]). *)
From Stdlib Require Import ZArith Lia.
From stdpp Require Import base list numbers.
From S2P Require Import Prelude EvalCtx.
#[local] Open Scope Z_scope.

#[local] Notation zlen l := (Z.of_nat (length l)).

(** ** [Result]-valued computations *)

Definition rM (A : Type) : Type := outcome (result A).

Definition okR {A} (a : A) : rM A := Ret (Ok a).
Definition errR {A} (e : Error) : rM A := Ret (Err e).
Definition liftR {A} (c : outcome A) : rM A := match c with Ret a => okR a | Panic => Panic end.

Definition rbind {A B} (f : A → rM B) (c : rM A) : rM B :=
  match c with Ret (Ok a) => f a | Ret (Err e) => errR e | Panic => Panic end.

Declare Scope rM_scope.
Delimit Scope rM_scope with rM.
Notation "x ←? c ; k" := (rbind (λ x, k) c)
  (at level 20, c at level 100, k at level 200, only parsing) : rM_scope.
Notation "' p ←? c ; k" := (rbind (λ p, k) c)
  (at level 20, p pattern, c at level 100, k at level 200, only parsing) : rM_scope.
#[local] Open Scope rM_scope.

Lemma rbind_ok {A B} (a : A) (f : A → rM B) : rbind f (okR a) = f a.
Proof. reflexivity. Qed.

Lemma rbind_inv {A B} (f : A → rM B) c b : rbind f c = okR b → ∃ a, c = okR a ∧ f a = okR b.
Proof. destruct c as [[a|e]|]; cbn; try discriminate. eauto. Qed.

(** [for x in l { ret.push(f(x)?) }]. *)
Fixpoint mapR {A B} (f : A → rM B) (l : list A) : rM (list B) :=
  match l with
  | [] => okR []
  | x :: l => b ←? f x; bs ←? mapR f l; okR (b :: bs)
  end.

(** [ret.append(&mut f(x)?)] for each [x]. *)
Definition flatR {A B} (f : A → rM (list B)) (l : list A) : rM (list B) :=
  ls ←? mapR f l; okR (concat ls).

(** [for x in l { acc = f(acc, x)?; }]. *)
Fixpoint foldR {A B} (f : B → A → rM B) (acc : B) (l : list A) : rM B :=
  match l with
  | [] => okR acc
  | x :: l => acc ←? f acc x; foldR f acc l
  end.

Lemma mapR_ok {A B} (f : A → rM B) g l : (∀ x, x ∈ l → f x = okR (g x)) → mapR f l = okR (map g l).
Proof.
  induction l as [|x l IH]; intros H; cbn; [done|].
  rewrite (H x) by constructor. rewrite rbind_ok, IH; [done|]. intros. apply H. by constructor.
Qed.

Lemma mapR_Forall2 {A B C} (f : A → rM B) (R : C → B → Prop) l cs :
  Forall2 (λ x c, ∃ b, f x = okR b ∧ R c b) l cs → ∃ bs, mapR f l = okR bs ∧ Forall2 R cs bs.
Proof.
  induction 1 as [|x c l cs (b & E & Hb) _ (bs & Es & Hbs)]; cbn; [eauto|].
  rewrite E, rbind_ok, Es, rbind_ok. eauto.
Qed.

(** [0..n] *)
Definition range (n : Z) : list Z := map Z.of_nat (seq 0 (Z.to_nat n)).

(** ** Slicing *)

(** [&l[a..b]] and [&l[a..]]. *)
Definition slice {A} (l : list A) (a b : Z) : outcome (list A) :=
  if (0 <=? a) && (a <=? b) && (b <=? zlen l)
  then Ret (take (Z.to_nat (b - a)) (drop (Z.to_nat a) l)) else Panic.

Definition slice_from {A} (l : list A) (a : Z) : outcome (list A) :=
  if (0 <=? a) && (a <=? zlen l) then Ret (drop (Z.to_nat a) l) else Panic.

(** Writing [s] at [a], in place. *)
Definition put_at {A} (l : list A) (a : Z) (s : list A) : outcome (list A) :=
  if (0 <=? a) && (a + zlen s <=? zlen l)
  then Ret (take (Z.to_nat a) l ++ s ++ drop (Z.to_nat a + length s) l) else Panic.

Lemma slice_mid {A} (p s q : list A) a b : a = zlen p → b = zlen p + zlen s →
  slice (p ++ s ++ q) a b = Ret s.
Proof.
  intros -> ->. unfold slice. rewrite !length_app.
  rewrite !(proj2 (Z.leb_le _ _)) by lia. cbn [andb]. rewrite Nat2Z.id, drop_app_length.
  replace (Z.to_nat (zlen p + zlen s - zlen p)) with (length s) by lia. by rewrite take_app_length.
Qed.

Lemma slice_from_mid {A} (p s : list A) a : a = zlen p → slice_from (p ++ s) a = Ret s.
Proof.
  intros ->. unfold slice_from. rewrite length_app, !(proj2 (Z.leb_le _ _)) by lia. cbn [andb].
  by rewrite Nat2Z.id, drop_app_length.
Qed.

Lemma put_at_mid {A} (p s s' q : list A) a : a = zlen p → length s' = length s →
  put_at (p ++ s ++ q) a s' = Ret (p ++ s' ++ q).
Proof.
  intros -> Hl. unfold put_at. rewrite !length_app, !(proj2 (Z.leb_le _ _)) by lia. cbn [andb].
  rewrite Nat2Z.id, take_app_length, Hl. do 3 f_equal.
  rewrite <- drop_drop, drop_app_length, drop_app_length. done.
Qed.

(** ** Little-endian integers *)

Fixpoint le_bytes (n : nat) (v : Z) : list Z :=
  match n with
  | O => []
  | S n' => v mod 256 :: le_bytes n' (v / 256)
  end.

Lemma le_bytes_length n : ∀ v, length (le_bytes n v) = n.
Proof. induction n as [|n IH]; intros v; cbn; [done|]. by rewrite IH. Qed.

(** ** The order of byte slices *)

(** [<[u8] as Ord>::cmp]. *)
Fixpoint bytes_cmp (l r : list Z) : comparison :=
  match l, r with
  | [], [] => Eq
  | [], _ :: _ => Lt
  | _ :: _, [] => Gt
  | a :: l, b :: r => match a ?= b with Eq => bytes_cmp l r | o => o end
  end.

Definition bytes_ltb (l r : list Z) : bool := match bytes_cmp l r with Lt => true | _ => false end.
Definition bytes_eqb (l r : list Z) : bool := match bytes_cmp l r with Eq => true | _ => false end.

Lemma bytes_cmp_antisym l : ∀ r, bytes_cmp r l = CompOpp (bytes_cmp l r).
Proof.
  induction l as [|a l IH]; intros [|b r]; cbn; try done.
  rewrite (Z.compare_antisym a b). destruct (a ?= b); cbn; auto.
Qed.

Lemma bytes_cmp_eq l : ∀ r, bytes_cmp l r = Eq ↔ l = r.
Proof.
  induction l as [|a l IH]; intros [|b r]; cbn; try (split; congruence).
  destruct (Z.compare_spec a b) as [->|?|?].
  - rewrite IH. split; congruence.
  - split; [done|]. intros. simplify_eq. lia.
  - split; [done|]. intros. simplify_eq. lia.
Qed.

Definition bytes_lt (l r : list Z) : Prop := bytes_cmp l r = Lt.

Lemma bytes_lt_trans a : ∀ b c, bytes_lt a b → bytes_lt b c → bytes_lt a c.
Proof.
  unfold bytes_lt. induction a as [|x a IH]; intros [|y b] [|z c]; cbn; try done.
  destruct (Z.compare_spec x y), (Z.compare_spec y z), (Z.compare_spec x z); subst; try (done || lia); eauto.
Qed.

Lemma bytes_lt_irrefl a : ¬ bytes_lt a a.
Proof. unfold bytes_lt. by rewrite (proj2 (bytes_cmp_eq a a)). Qed.

#[export] Instance bytes_lt_strict : StrictOrder bytes_lt.
Proof. split; [exact bytes_lt_irrefl|exact bytes_lt_trans]. Qed.

Lemma bytes_ltb_lt l r : bytes_ltb l r = true ↔ bytes_lt l r.
Proof. unfold bytes_ltb, bytes_lt. destruct (bytes_cmp l r); naive_solver. Qed.

Lemma bytes_eqb_eq l r : bytes_eqb l r = true ↔ l = r.
Proof. rewrite <- bytes_cmp_eq. unfold bytes_eqb. destruct (bytes_cmp l r); naive_solver. Qed.

(** Comparable one way or the other. *)
Lemma bytes_lt_total l r : bytes_lt l r ∨ l = r ∨ bytes_lt r l.
Proof.
  unfold bytes_lt. rewrite <- (bytes_cmp_eq l r), (bytes_cmp_antisym l r).
  destruct (bytes_cmp l r); cbn; auto.
Qed.
