(* ===== verification/DecimalBase.v ===== *)
(** * DecimalBase: the decimal type of [berolinasql/src/decimal.rs]

    The constants, the [Res] type, the [Decimal] record, the word-level helpers
    and the small queries on a decimal, with the well-formedness invariant and
    the value a decimal denotes.

    The power table [TEN_POW] is imported by the source from a crate that is not
    in the repository: it is the parameter [TenPow], with the law that it lists
    the first ten powers of ten. *)
From Stdlib Require Import ZArith Lia.
From stdpp Require Import base list numbers.
From S2P Require Import Prelude Words EvalCtx.
#[local] Open Scope Z_scope.

(** The external table of powers of ten. *)
Class TenPow := {
  TEN_POW : list Z;
  TEN_POW_law :
    TEN_POW = [1; 10; 100; 1000; 10000; 100000; 1000000; 10000000; 100000000; 1000000000]
}.

(** A concrete table, for evaluation. *)
Definition ten_pow_table : TenPow :=
  {| TEN_POW :=
       [1; 10; 100; 1000; 10000; 100000; 1000000; 10000000; 100000000; 1000000000];
     TEN_POW_law := eq_refl |}.

(** ** [Res]: a value with a truncation or overflow mark

    The file declares [enum Res] with [Ok] and [Err] but matches everywhere on
    [Ok], [Truncated] and [OverCausetxctx]; the three constructors are modelled. *)

Inductive Res (A : Type) : Type :=
| ROk (a : A)
| RTruncated (a : A)
| ROverCausetxctx (a : A).
Arguments ROk {A} a.
Arguments RTruncated {A} a.
Arguments ROverCausetxctx {A} a.

(** [Deref]: a [Res] is read as the value it carries. *)
Definition res_val {A} (r : Res A) : A :=
  match r with ROk a | RTruncated a | ROverCausetxctx a => a end.

Definition res_map {A B} (f : A → B) (r : Res A) : Res B :=
  match r with
  | ROk a => ROk (f a)
  | RTruncated a => RTruncated (f a)
  | ROverCausetxctx a => ROverCausetxctx (f a)
  end.

Definition is_ok {A} (r : Res A) : bool := match r with ROk _ => true | _ => false end.
Definition is_truncated {A} (r : Res A) : bool :=
  match r with RTruncated _ => true | _ => false end.
Definition is_overCausetxctx {A} (r : Res A) : bool :=
  match r with ROverCausetxctx _ => true | _ => false end.

(** [Into<Result<T>>]: every mark is an error. *)
Definition res_into {A} (r : Res A) : result A :=
  match r with
  | ROk t => Ok t
  | RTruncated _ => Err truncated
  | ROverCausetxctx _ => Err over_causetxctx
  end.

(** [into_result_impl]: the context decides what a mark becomes. *)
Definition into_result_impl {A} (r : Res A) (truncated_err over_err : option Error) : evalM A :=
  match r with
  | ROk t => mret t
  | RTruncated t =>
      _ ← handler (fun ctx => match truncated_err with
                              | Some error => handle_truncate_err ctx error
                              | None => handle_truncate ctx true
                              end);
      mret t
  | ROverCausetxctx t =>
      _ ← handler (fun ctx => handle_overCausetxctx_err ctx
                                (match over_err with
                                 | Some error => error
                                 | None => over_causetxctx
                                 end));
      mret t
  end.

(** ** Constants *)

Definition WORD_BUF_LEN : Z := 9.
Definition DIGITS_PER_WORD : Z := 9.
Definition WORD_SIZE : Z := 4.
Definition MAX_FRACTION : Z := 30.
Definition DEFAULT_DIV_FRAC_INCR : Z := 4.
Definition DIG_2_BYTES : list Z := [0; 1; 1; 2; 2; 3; 3; 4; 4; 4].
Definition FRAC_MAX : list Z :=
  [900000000; 990000000; 999000000; 999900000; 999990000; 999999000; 999999900; 999999990].
Definition NOT_FIXED_DEC : Z := 31.

(** [macro_rules! word_cnt]: [cast] is the conversion to the target type. *)
Definition word_cnt_as (cast : Z → Z) (len : Z) : Z :=
  if (0 <? len) && (DIGITS_PER_WORD * WORD_BUF_LEN <? len) then WORD_BUF_LEN + 1
  else if (len <=? 0) && (0 <? cast len) then 0
  else Z.quot (cast len + DIGITS_PER_WORD - 1) DIGITS_PER_WORD.

Definition word_cnt (len : Z) : Z := word_cnt_as as_u8 len.
Definition word_cnt_i8 (len : Z) : Z := word_cnt_as as_i8 len.
Definition word_cnt_isize (len : Z) : Z := word_cnt_as as_i64 len.
Definition word_cnt_usize (len : Z) : Z := word_cnt_as as_u64 len.

(** ** The record *)

Record Decimal := mkDecimal {
  int_cnt : Z;
  frac_cnt : Z;
  result_frac_cnt : Z;
  negative : bool;
  word_buf : list Z;
}.

Inductive RoundMode := HalfEven | Truncate | Ceiling.

(** [Decimal::new]. *)
Definition dec_new (int_cnt frac_cnt : Z) (negative : bool) : Decimal :=
  {| int_cnt := int_cnt; frac_cnt := frac_cnt; result_frac_cnt := 0;
     negative := negative; word_buf := replicate 9 0 |}.

Definition dec_zero : Decimal := dec_new 1 0 false.

(** Field updates. *)
Definition with_buf (d : Decimal) (buf : list Z) : Decimal :=
  {| int_cnt := int_cnt d; frac_cnt := frac_cnt d; result_frac_cnt := result_frac_cnt d;
     negative := negative d; word_buf := buf |}.
Definition with_int_cnt (d : Decimal) (n : Z) : Decimal :=
  {| int_cnt := n; frac_cnt := frac_cnt d; result_frac_cnt := result_frac_cnt d;
     negative := negative d; word_buf := word_buf d |}.
Definition with_frac_cnt (d : Decimal) (n : Z) : Decimal :=
  {| int_cnt := int_cnt d; frac_cnt := n; result_frac_cnt := result_frac_cnt d;
     negative := negative d; word_buf := word_buf d |}.
Definition with_result_frac_cnt (d : Decimal) (n : Z) : Decimal :=
  {| int_cnt := int_cnt d; frac_cnt := frac_cnt d; result_frac_cnt := n;
     negative := negative d; word_buf := word_buf d |}.
Definition with_negative (d : Decimal) (b : bool) : Decimal :=
  {| int_cnt := int_cnt d; frac_cnt := frac_cnt d; result_frac_cnt := result_frac_cnt d;
     negative := b; word_buf := word_buf d |}.

(** [fix_word_cnt_err] limits the word counts to the buffer. *)
Definition fix_word_cnt_err (int_word_cnt frac_word_cnt word_buf_len : Z)
  : outcome (Res (Z * Z)) :=
  s ← u8 (int_word_cnt + frac_word_cnt);
  if word_buf_len <? s then
    if word_buf_len <? int_word_cnt then Ret (ROverCausetxctx (word_buf_len, 0))
    else Ret (RTruncated (int_word_cnt, word_buf_len - int_word_cnt))
  else Ret (ROk (int_word_cnt, frac_word_cnt)).

Section WithTable.
Context {TP : TenPow}.

Definition DIG_MASK : Z := TEN_POW !!! 8%nat.
Definition WORD_BASE : Z := TEN_POW !!! 9%nat.
Definition WORD_MAX : Z := WORD_BASE - 1.

(** [dec_encoded_len]: the length of the first encoded decimal. *)
Definition dec_encoded_len (encoded : list Z) : outcome (result Z) :=
  if (length encoded <? 2)%nat then Ret (Err Other)
  else
    precision ← get encoded 0;
    frac_cnt ← get encoded 1;
    if precision <? frac_cnt then Ret (Err Other)
    else
      let int_cnt := precision - frac_cnt in
      let int_word_cnt := int_cnt / DIGITS_PER_WORD in
      let frac_word_cnt := frac_cnt / DIGITS_PER_WORD in
      let int_left := int_cnt - int_word_cnt * DIGITS_PER_WORD in
      let frac_left := frac_cnt - frac_word_cnt * DIGITS_PER_WORD in
      ib ← get DIG_2_BYTES int_left;
      int_len ← u8 (int_word_cnt * WORD_SIZE + ib);
      fb ← get DIG_2_BYTES frac_left;
      frac_len ← u8 (frac_word_cnt * WORD_SIZE + fb);
      Ret (Ok (int_len + frac_len + 2)).

(** The loop of [count_leading_zeroes], on its index [i]. *)
Fixpoint clz_loop (i : nat) (word c : Z) : outcome Z :=
  t ← get TEN_POW (Z.of_nat i);
  if word <? t then
    match i with
    | O => Panic
    | S i' => c' ← u8 (c + 1); clz_loop i' word c'
    end
  else Ret c.

Definition count_leading_zeroes (i word : Z) : outcome Z := clz_loop (Z.to_nat i) word 0.

(** The loop of [count_trailing_zeroes]; the index runs out of the ten-entry
    table before the fuel does. *)
Fixpoint ctz_loop (fuel : nat) (i word c : Z) : outcome Z :=
  match fuel with
  | O => Panic
  | S fuel' =>
      t ← get TEN_POW i;
      if word mod t =? 0 then c' ← u8 (c + 1); ctz_loop fuel' (i + 1) word c'
      else Ret c
  end.

Definition count_trailing_zeroes (i word : Z) : outcome Z := ctz_loop 11 i word 0.

(** [add], [sub] and [sub2] return the new carry and the stored word. *)
Definition add (a b carry : Z) : outcome (Z * Z) :=
  s ← u32 (a + b);
  sum ← u32 (s + carry);
  if WORD_BASE <=? sum then Ret (1, sum - WORD_BASE) else Ret (0, sum).

Definition sub (lhs rhs carry : Z) : outcome (Z * Z) :=
  d ← i32 (as_i32 lhs - as_i32 rhs);
  diff ← i32 (d - carry);
  if diff <? 0 then
    r ← i32 (diff + as_i32 WORD_BASE);
    Ret (1, as_u32 r)
  else Ret (0, as_u32 diff).

Definition sub2 (lhs rhs carry : Z) : outcome (Z * Z) :=
  d ← i32 (as_i32 lhs - as_i32 rhs);
  diff ← i32 (d - carry);
  if diff <? - as_i32 WORD_BASE then
    b2 ← i32 (as_i32 WORD_BASE + as_i32 WORD_BASE);
    r ← i32 (diff + b2);
    Ret (2, as_u32 r)
  else if diff <? 0 then
    r ← i32 (diff + as_i32 WORD_BASE);
    Ret (1, as_u32 r)
  else Ret (0, as_u32 diff).

(** The word loop of [remove_leading_zeroes], on the digits that remain. *)
Fixpoint rlz_loop (fuel : nat) (buf : list Z) (cnt i word_idx : Z) : outcome (Z * Z) :=
  match fuel with
  | O => Panic
  | S fuel' =>
      if 0 <? cnt then
        w ← get buf word_idx;
        if w =? 0 then
          cnt' ← u8 (cnt - i);
          rlz_loop fuel' buf cnt' DIGITS_PER_WORD (word_idx + 1)
        else Ret (cnt, word_idx)
      else Ret (cnt, word_idx)
  end.

(** [remove_leading_zeroes]: the index of the first non-zero word among those
    holding the leading [prec] digits, and the digits left.  The buffer ends
    before the fuel. *)
Definition remove_leading_zeroes (d : Decimal) (prec : Z) : outcome (Z * Z) :=
  s ← u8 (prec + DIGITS_PER_WORD);
  let i := (s - 1) mod DIGITS_PER_WORD + 1 in
  '(cnt, word_idx) ← rlz_loop 11 (word_buf d) prec i 0;
  if 0 <? cnt then
    w ← get (word_buf d) word_idx;
    c ← count_leading_zeroes ((cnt - 1) mod DIGITS_PER_WORD) w;
    cnt' ← u8 (cnt - c);
    Ret (word_idx, cnt')
  else Ret (word_idx, cnt).

(** [prec_and_frac]: the least precision that encodes the decimal. *)
Definition prec_and_frac (d : Decimal) : outcome (Z * Z) :=
  '(_, int_cnt) ← remove_leading_zeroes d (int_cnt d);
  prec ← u8 (int_cnt + frac_cnt d);
  if prec =? 0 then Ret (1, frac_cnt d) else Ret (prec, frac_cnt d).

(** [is_zero]. *)
Definition is_zero (d : Decimal) : outcome bool :=
  len ← u8 (word_cnt (int_cnt d) + word_cnt (frac_cnt d));
  if Z.of_nat (length (word_buf d)) <? len then Panic
  else Ret (forallb (fun x => x =? 0) (take (Z.to_nat len) (word_buf d))).

(** [Neg]: zero keeps its sign. *)
Definition neg (d : Decimal) : outcome Decimal :=
  z ← is_zero d;
  Ret (if negb z then with_negative d (negb (negative d)) else d).

Definition abs (d : Decimal) : Res Decimal := ROk (with_negative d false).

(** [for _ in 0..n { buf[idx] = v; idx += 1 }]. *)
Fixpoint fill (n : nat) (v : Z) (buf : list Z) (idx : Z) : outcome (list Z * Z) :=
  match n with
  | O => Ret (buf, idx)
  | S n' => buf' ← set buf idx v; fill n' v buf' (idx + 1)
  end.

(** [max_decimal]: all digits nine; the [debug_assert!] is a panic. *)
Definition max_decimal (prec frac_cnt : Z) : outcome Decimal :=
  _ ← guardM (frac_cnt <=? prec);
  let int_cnt := prec - frac_cnt in
  let res := dec_new int_cnt frac_cnt false in
  '(buf, idx) ←
    (if 0 <? int_cnt then
       let first_word_cnt := int_cnt mod DIGITS_PER_WORD in
       '(buf, idx) ←
         (if 0 <? first_word_cnt then
            t ← get TEN_POW first_word_cnt;
            buf ← set (word_buf res) 0 (t - 1);
            Ret (buf, 1)
          else Ret (word_buf res, 0));
       fill (Z.to_nat (int_cnt / DIGITS_PER_WORD)) WORD_MAX buf idx
     else Ret (word_buf res, 0));
  buf ←
    (if 0 <? frac_cnt then
       let last_digits := frac_cnt mod DIGITS_PER_WORD in
       '(buf, idx) ← fill (Z.to_nat (frac_cnt / DIGITS_PER_WORD)) WORD_MAX buf idx;
       if 0 <? last_digits then
         f ← get FRAC_MAX (last_digits - 1);
         set buf idx f
       else Ret buf
     else Ret buf);
  Ret (with_buf res buf).

Definition max_or_min_dec (negative : bool) (prec frac : Z) : outcome Decimal :=
  d ← max_decimal prec frac;
  Ret (with_negative d negative).

End WithTable.

(** ** Invariant and value *)

(** The base of a word, as the table gives it. *)
Notation BASE := 1000000000.

Definition int_words (d : Decimal) : Z := word_cnt (int_cnt d).
Definition frac_words (d : Decimal) : Z := word_cnt (frac_cnt d).

(** The words in use. *)
Definition used (d : Decimal) : list Z :=
  take (Z.to_nat (int_words d + frac_words d)) (word_buf d).

(** A well-formed decimal: nine words below the base, and counts that fit. *)
Record wf (d : Decimal) : Prop := {
  wf_len : length (word_buf d) = 9%nat;
  wf_words : Forall (word BASE) (word_buf d);
  wf_int : 0 <= int_cnt d <= 81;
  wf_frac : 0 <= frac_cnt d <= 81;
  wf_some : 0 < int_words d + frac_words d;
  wf_fit : int_words d + frac_words d <= 9;
}.

(** The unsigned coefficient, and its scale in words: [d] denotes
    [± coeff d / BASE ^ frac_words d]. *)
Definition coeff (d : Decimal) : Z := wval BASE (used d).

(** The signed coefficient brought to a scale of [k] words. *)
Definition scaled (d : Decimal) (k : Z) : Z :=
  (if negative d then -1 else 1) * coeff d * BASE ^ (k - frac_words d).

(** ** Lemmas on the constants and the word operations *)

Section BaseLemmas.
Context {TP : TenPow}.

Lemma DIG_MASK_eq : DIG_MASK = 100000000.
Proof. unfold DIG_MASK. by rewrite TEN_POW_law. Qed.

Lemma WORD_BASE_eq : WORD_BASE = BASE.
Proof. unfold WORD_BASE. by rewrite TEN_POW_law. Qed.

Lemma WORD_MAX_eq : WORD_MAX = 999999999.
Proof. unfold WORD_MAX. by rewrite WORD_BASE_eq. Qed.

Lemma TEN_POW_get i : 0 <= i <= 9 → get TEN_POW i = Ret (10 ^ i).
Proof.
  intros Hi. rewrite TEN_POW_law.
  assert (i = 0 ∨ i = 1 ∨ i = 2 ∨ i = 3 ∨ i = 4 ∨ i = 5 ∨ i = 6 ∨ i = 7 ∨ i = 8 ∨ i = 9) by lia.
  naive_solver.
Qed.

Lemma word_cnt_eq n : 0 <= n <= 81 → word_cnt n = (n + 8) / 9.
Proof.
  intros Hn. unfold word_cnt, word_cnt_as, DIGITS_PER_WORD, WORD_BUF_LEN.
  rewrite as_u8_id, Z.quot_div_nonneg by lia.
  repeat case_Z; cbn [andb]; try lia; try (f_equal; lia); zdiv.
Qed.

Lemma word_cnt_bounds n : 0 <= n <= 81 → 0 <= word_cnt n <= 9 ∧ n <= 9 * word_cnt n < n + 9.
Proof. intros Hn. rewrite word_cnt_eq by done. zdiv. Qed.

Lemma word_cnt_mul k : 0 <= k <= 9 → word_cnt (k * 9) = k.
Proof. intros Hk. rewrite word_cnt_eq by lia. zdiv. Qed.

Lemma fix_word_cnt_cases it ft : 0 <= it <= 10 → 0 <= ft <= 9 →
  (it + ft <= 9 ∧ fix_word_cnt_err it ft WORD_BUF_LEN = Ret (ROk (it, ft)))
  ∨ (9 < it + ft ∧ it <= 9 ∧
     fix_word_cnt_err it ft WORD_BUF_LEN = Ret (RTruncated (it, 9 - it)))
  ∨ (9 < it ∧ fix_word_cnt_err it ft WORD_BUF_LEN = Ret (ROverCausetxctx (9, 0))).
Proof.
  intros ? ?. unfold fix_word_cnt_err, WORD_BUF_LEN. rewrite u8_ok by lia. bindr.
  repeat case_Z; naive_solver lia.
Qed.

(** The single-word operations are exact, [σ] being the sign of the right operand. *)
Definition op_exact (op : Z → Z → Z → outcome (Z * Z)) (σ : Z) : Prop :=
  ∀ a b c, word BASE a → word BASE b → 0 <= c <= 1 →
    ∃ c' r, op a b c = Ret (c', r) ∧ word BASE r ∧ 0 <= c' <= 1 ∧
            r + σ * c' * BASE = a + σ * b + σ * c.

Lemma add_exact : op_exact add 1.
Proof.
  intros a b c Ha Hb Hc. unfold word in *. unfold add.
  rewrite u32_ok by (mach; lia). cbn [mbind outcome_bind].
  rewrite u32_ok by (mach; lia). cbn [mbind outcome_bind].
  rewrite WORD_BASE_eq. case_Z; eexists _, _; (split; [reflexivity|]); lia.
Qed.

Lemma sub_exact : op_exact sub (-1).
Proof.
  intros a b c Ha Hb Hc. unfold word in *. unfold sub.
  rewrite WORD_BASE_eq, !as_i32_id by (mach; lia).
  rewrite i32_ok by (mach; lia). cbn [mbind outcome_bind].
  rewrite i32_ok by (mach; lia). cbn [mbind outcome_bind].
  case_Z.
  - rewrite i32_ok by (mach; lia). cbn [mbind outcome_bind].
    rewrite as_u32_id by (mach; lia). eexists _, _. split; [reflexivity|]. lia.
  - rewrite as_u32_id by (mach; lia). eexists _, _. split; [reflexivity|]. lia.
Qed.
End BaseLemmas.
