(* ===== verification/DecimalLoops.v ===== *)
(** * DecimalLoops: decimals as numbers, and the word loops of [do_add] and [do_sub]

    The value layer every arithmetic theorem is stated on: [coeff] and [scaled]
    of [DecimalBase], the truncated reading [coeff_at], and the cut of a
    well-formed buffer into integer words, fraction words and rest.

    [do_add] and [do_sub] walk two word buffers from the least significant word up and
    write a third.  The loops are written once over the single-word operation
    ([add] or [sub]); each has an exactness lemma over big-endian values. *)
From Stdlib Require Import ZArith Lia.
From stdpp Require Import base list numbers.
From S2P Require Import Prelude Words EvalCtx DecimalBase.
#[local] Open Scope Z_scope.

#[local] Notation V := (wval BASE).
#[local] Notation W := (Forall (word BASE)).
#[local] Notation zlen l := (Z.of_nat (length l)).

(** The magnitude of [d] at a scale of [k] words, digits beyond dropped. *)
Definition coeff_at (d : Decimal) (k : Z) : Z :=
  if frac_words d <=? k then coeff d * BASE ^ (k - frac_words d)
  else coeff d / BASE ^ (frac_words d - k).

Definition sign (d : Decimal) : Z := if negative d then -1 else 1.

Lemma BASE_gt : 1 < BASE.
Proof. lia. Qed.

Lemma BASE_pow_pos k : 0 <= k → 0 < BASE ^ k.
Proof. intros. by apply Z.pow_pos_nonneg. Qed.

Lemma BASE_pow_pred k : 0 < k → BASE ^ k = BASE * BASE ^ (k - 1).
Proof. intros. rewrite <- Z.pow_succ_r by lia. f_equal. lia. Qed.

Lemma V_bounds ws : W ws → 0 <= V ws < BASE ^ zlen ws.
Proof. apply wval_bounds, BASE_gt. Qed.

Lemma words_nonneg d : wf d → 0 <= int_words d <= 9 ∧ 0 <= frac_words d <= 9.
Proof.
  intros [? ? Hi Hf ? ?]. apply word_cnt_bounds in Hi, Hf. unfold int_words, frac_words. lia.
Qed.

(** The cut of a well-formed decimal. *)
Lemma wf_cut d : wf d → ∃ I F T, word_buf d = I ++ F ++ T
  ∧ zlen I = int_words d ∧ zlen F = frac_words d ∧ W I ∧ W F ∧ W T
  ∧ coeff d = V (I ++ F).
Proof.
  intros Hwf. pose proof (words_nonneg d Hwf). destruct Hwf as [Hl Hw Hi Hf ? ?].
  destruct (cut_at (word_buf d) (Z.to_nat (int_words d))) as (I & R & E & LI); [lia|].
  assert (length I + length R = 9)%nat by (rewrite <- Hl, E, length_app; done).
  destruct (cut_at R (Z.to_nat (frac_words d))) as (F & T & -> & LF); [lia|].
  exists I, F, T. rewrite E in Hw. apply Forall_app in Hw as [? [? ?]%Forall_app].
  repeat split; auto; try lia.
  unfold coeff, used. rewrite E, app_assoc, take_app_length'; [done|].
  rewrite length_app. lia.
Qed.

(** Building one back: the fields of a fresh result. *)
Lemma wf_build int frac rf neg I F T :
  0 <= int <= 81 → 0 <= frac <= 81 → zlen I = word_cnt int → zlen F = word_cnt frac →
  length (I ++ F ++ T) = 9%nat → (0 < length (I ++ F))%nat → W (I ++ F ++ T) →
  wf (mkDecimal int frac rf neg (I ++ F ++ T))
  ∧ coeff (mkDecimal int frac rf neg (I ++ F ++ T)) = V (I ++ F).
Proof.
  intros Hi Hf LI LF Hl Hn HW. rewrite length_app in Hn. rewrite !length_app in Hl.
  split.
  - split; unfold int_words, frac_words; cbn [int_cnt frac_cnt word_buf];
      rewrite ?length_app; auto; lia.
  - unfold coeff, used, int_words, frac_words. cbn [int_cnt frac_cnt word_buf].
    rewrite app_assoc, take_app_length'; [done|]. rewrite length_app. lia.
Qed.

Lemma coeff_nonneg d : wf d → 0 <= coeff d.
Proof.
  intros (I & F & T & _ & _ & _ & HI & HF & _ & ->)%wf_cut.
  apply V_bounds. auto using Forall_app_2.
Qed.

(** Dropping fraction words. *)
Lemma coeff_at_cut d I F1 F2 :
  coeff d = V (I ++ F1 ++ F2) → frac_words d = zlen (F1 ++ F2) → W I → W F1 → W F2 →
  coeff_at d (zlen F1) = V (I ++ F1).
Proof.
  intros Hc Hf HI H1 H2. unfold coeff_at. rewrite Hc, Hf.
  rewrite length_app, Nat2Z.inj_add, app_assoc, wval_app.
  pose proof (V_bounds F2 H2). case_Z.
  - destruct F2; [|cbn in *; lia]. cbn [length]. change (Z.of_nat 0) with 0.
    rewrite wval_nil, !Z.add_0_r, Z.sub_diag. lia.
  - rewrite Z.add_simpl_l, Z.div_add_l, Z.div_small by lia. lia.
Qed.

Lemma coeff_at_ge d k : frac_words d <= k → coeff_at d k = coeff d * BASE ^ (k - frac_words d).
Proof. intros. unfold coeff_at. by rewrite (proj2 (Z.leb_le _ _)). Qed.

Lemma coeff_at_self d : coeff_at d (frac_words d) = coeff d.
Proof. rewrite coeff_at_ge by lia. rewrite Z.sub_diag. lia. Qed.

Lemma scaled_eq d k : frac_words d <= k → scaled d k = sign d * coeff_at d k.
Proof. intros. rewrite coeff_at_ge by done. unfold scaled, sign. lia. Qed.

(** Rescaling. *)
Lemma coeff_at_scale d k k' : frac_words d <= k → k <= k' →
  coeff_at d k' = coeff_at d k * BASE ^ (k' - k).
Proof.
  intros. rewrite !coeff_at_ge by lia.
  rewrite <- Z.mul_assoc, <- Z.pow_add_r by lia. do 2 f_equal. lia.
Qed.

(** The 81 nines. *)
Definition dec_max81 : Decimal := mkDecimal 81 0 0 false (replicate 9 999999999).

(** [coeff_at] only needs the fraction words both scales have. *)
Lemma coeff_at_min d k :
  coeff_at d k = coeff_at d (Z.min k (frac_words d)) * BASE ^ (k - Z.min k (frac_words d)).
Proof.
  destruct (Z.le_ge_cases k (frac_words d)).
  - rewrite Z.min_l, Z.sub_diag by done. lia.
  - rewrite Z.min_r, coeff_at_self, coeff_at_ge by lia. done.
Qed.

(** The first [k] fraction words of a well-formed decimal. *)
Lemma wf_cut_at d k : wf d → 0 <= k → ∃ I F T, word_buf d = I ++ F ++ T
  ∧ zlen I = int_words d ∧ zlen F = Z.min k (frac_words d) ∧ W I ∧ W F
  ∧ V (I ++ F) * BASE ^ (k - zlen F) = coeff_at d k.
Proof.
  intros Hwf Hk. destruct (wf_cut d Hwf) as (I & F & T & E & LI & LF & HI & HF & HT & Hc).
  destruct (cut_at F (Z.to_nat (Z.min k (frac_words d)))) as (F1 & F2 & -> & L1); [lia|].
  apply Forall_app in HF as [H1 H2]. exists I, F1, (F2 ++ T).
  assert (zlen F1 = Z.min k (frac_words d)) as L by lia.
  rewrite <- app_assoc in E. repeat split; auto.
  rewrite coeff_at_min, <- L. by rewrite (coeff_at_cut d I F1 F2).
Qed.

(** Bounds on [coeff_at], by the word count and by the leading word. *)
Lemma coeff_at_bound d k : wf d → 0 <= k → 0 <= coeff_at d k < BASE ^ (int_words d + k).
Proof.
  intros Hwf Hk. destruct (wf_cut_at d k Hwf Hk) as (I & F & T & _ & LI & LF & HI & HF & <-).
  pose proof (V_bounds (I ++ F) ltac:(auto using Forall_app_2)) as B.
  rewrite length_app, Nat2Z.inj_add in B.
  pose proof (words_nonneg d Hwf).
  replace (int_words d + k) with (zlen I + zlen F + (k - zlen F)) by lia.
  rewrite (Z.pow_add_r _ (zlen I + zlen F)) by lia.
  pose proof (BASE_pow_pos (k - zlen F)). nia.
Qed.

Lemma coeff_at_lead d k w : wf d → 0 <= k → 0 < int_words d + k →
  word_buf d !! 0%nat = Some w → word BASE w ∧
  w * BASE ^ (int_words d + k - 1) <= coeff_at d k < (w + 1) * BASE ^ (int_words d + k - 1).
Proof.
  intros Hwf Hk Hn Hw. split.
  { destruct Hwf as [_ HW _ _ _ _]. exact (Forall_lookup_1 _ _ _ _ HW Hw). }
  pose proof (words_nonneg d Hwf). pose proof (wf_some d Hwf).
  destruct (wf_cut_at d k Hwf Hk) as (I & F & T & E & LI & LF & HI & HF & <-).
  destruct (I ++ F) as [|w' s] eqn:Es.
  { apply app_nil in Es as [-> ->]. cbn in LI, LF. lia. }
  rewrite E, app_assoc, Es in Hw. cbn in Hw. simplify_eq.
  assert (HW : W (w :: s)) by (rewrite <- Es; auto using Forall_app_2).
  apply Forall_cons_1 in HW as [Hw HW]. pose proof (V_bounds s HW).
  assert (Hlen : zlen I + zlen F = zlen s + 1).
  { rewrite <- Nat2Z.inj_add, <- length_app, Es. cbn. lia. }
  replace (int_words d + k - 1) with (zlen s + (k - zlen F)) by lia.
  rewrite wval_cons, Z.pow_add_r by lia.
  pose proof (BASE_pow_pos (k - zlen F)). unfold word in Hw. nia.
Qed.

Lemma word_cnt_max a b : 0 <= a <= 81 → 0 <= b <= 81 →
  word_cnt (Z.max a b) = Z.max (word_cnt a) (word_cnt b).
Proof. intros. rewrite !word_cnt_eq by lia. zdiv. Qed.

Lemma word_cnt_min k a : 0 <= a <= 81 → 0 <= k <= 9 →
  word_cnt (Z.min a (k * 9)) = Z.min (word_cnt a) k.
Proof. intros. rewrite !word_cnt_eq by lia. zdiv. Qed.

Lemma word_buf_head d : wf d → ∃ w, word_buf d !! 0%nat = Some w ∧ word BASE w.
Proof.
  intros [Hl Hw _ _ _ _]. destruct (word_buf d) as [|w l]; [done|].
  apply Forall_cons_1 in Hw. exists w. naive_solver.
Qed.

(** ** What an operation on magnitudes promises

    [mag_spec f l r res]: [res] carries a well-formed decimal whose magnitude is
    [f] of the operands' magnitudes at the result's own scale; that scale is the
    longer of the two unless the result is marked truncated. *)
Definition mag_at (f : Z → Z → Z) (l r : Decimal) (neg : bool) (d : Decimal) : Prop :=
  wf d ∧ negative d = neg
  ∧ coeff d = f (coeff_at l (frac_words d)) (coeff_at r (frac_words d)).

Definition mag_spec (f : Z → Z → Z) (l r : Decimal) (neg : bool) (res : Res Decimal) : Prop :=
  match res with
  | ROk d => mag_at f l r neg d ∧ frac_words d = Z.max (frac_words l) (frac_words r)
  | RTruncated d => mag_at f l r neg d ∧ frac_words d < Z.max (frac_words l) (frac_words r)
  | ROverCausetxctx d =>
      d = dec_max81 ∧ (BASE - 1) * BASE ^ 8 <= f (coeff_at l 0) (coeff_at r 0)
  end.

(** The fresh result of both operations: [it] integer words, all of them counted
    as full, and [k] fraction words. *)
Lemma fresh_result it k frac neg out v :
  0 <= it → 0 <= k → 0 < it + k <= 9 → 0 <= frac <= 81 → word_cnt frac = k →
  zlen out = it + k → W out → V out = v →
  let d := with_buf (dec_new (it * 9) frac neg) (out ++ replicate (Z.to_nat (9 - (it + k))) 0) in
  wf d ∧ negative d = neg ∧ frac_words d = k ∧ coeff d = v.
Proof.
  intros Hit Hk Hn Hf Hw Ho HW <- d.
  destruct (cut_at out (Z.to_nat it)) as (I & F & -> & LI); [lia|].
  rewrite length_app in Ho. subst d. unfold with_buf, dec_new. rewrite <- app_assoc.
  destruct (wf_build (it * 9) frac 0 neg I F (replicate (Z.to_nat (9 - (it + k))) 0))
    as [Hd Hc]; rewrite ?length_app, ?length_replicate, ?word_cnt_mul; auto; try lia.
  rewrite app_assoc. apply Forall_app_2; [done|]. apply words_zeros. lia.
Qed.

Lemma fresh_mag f l r it k frac neg out :
  0 <= it → 0 <= k → 0 < it + k <= 9 → 0 <= frac <= 81 → word_cnt frac = k →
  zlen out = it + k → W out → V out = f (coeff_at l k) (coeff_at r k) →
  let d := with_buf (dec_new (it * 9) frac neg) (out ++ replicate (Z.to_nat (9 - (it + k))) 0) in
  mag_at f l r neg d ∧ frac_words d = k.
Proof.
  intros Hit Hk Hn Hf Hw Ho HW HV.
  destruct (fresh_result it k frac neg out _ Hit Hk Hn Hf Hw Ho HW HV) as (Hwf & Hneg & Hfr & Hc).
  split; [|done]. unfold mag_at. by rewrite Hfr.
Qed.

(** Dropping more fraction words drops digits of the number. *)
Lemma coeff_at_div d k k' : wf d → 0 <= k <= k' → coeff_at d k = coeff_at d k' / BASE ^ (k' - k).
Proof.
  intros Hd Hk. pose proof (words_nonneg d Hd). unfold coeff_at.
  destruct (Z.leb_spec (frac_words d) k), (Z.leb_spec (frac_words d) k'); try lia.
  - replace (k' - frac_words d) with ((k - frac_words d) + (k' - k)) by lia.
    rewrite Z.pow_add_r, Z.mul_assoc, Z.div_mul by (try apply Z.pow_nonzero; lia). done.
  - replace (k' - k) with ((frac_words d - k) + (k' - frac_words d)) by lia.
    rewrite Z.pow_add_r by lia.
    rewrite Z.div_mul_cancel_r by (apply Z.pow_nonzero; lia). done.
  - replace (frac_words d - k) with ((frac_words d - k') + (k' - k)) by lia.
    rewrite Z.pow_add_r, Z.div_div by (try apply BASE_pow_pos; try apply Z.pow_nonzero; lia). done.
Qed.

Lemma coeff_at_mono l r k k' : wf l → wf r → 0 <= k <= k' →
  coeff_at r k' <= coeff_at l k' → coeff_at r k <= coeff_at l k.
Proof.
  intros Hl Hr Hk Hle. rewrite (coeff_at_div l k k'), (coeff_at_div r k k') by done.
  apply Z.div_le_mono; [apply BASE_pow_pos; lia|done].
Qed.

Lemma wf_zero : wf dec_zero.
Proof.
  split; [done| |cbn; lia..|by vm_compute|by vm_compute].
  apply words_zeros. lia.
Qed.

(** A well-formedness check, for concrete decimals. *)
Definition wfb (d : Decimal) : bool :=
  (length (word_buf d) =? 9)%nat
  && forallb (fun w => (0 <=? w) && (w <? BASE)) (word_buf d)
  && (0 <=? int_cnt d) && (int_cnt d <=? 81) && (0 <=? frac_cnt d) && (frac_cnt d <=? 81)
  && (0 <? int_words d + frac_words d) && (int_words d + frac_words d <=? 9).

Lemma wfb_wf d : wfb d = true → wf d.
Proof.
  unfold wfb. rewrite !andb_true_iff, Nat.eqb_eq, !Z.leb_le, Z.ltb_lt.
  intros (((((((Hl & Hw) & ?) & ?) & ?) & ?) & ?) & ?). split; auto.
  apply Is_true_true, forallb_True in Hw. eapply list.Forall_impl; [exact Hw|].
  intros w Hb. apply Is_true_true, andb_true_iff in Hb. unfold word. lia.
Qed.

(** Sample decimals for the witnesses: 9999999999.12 and -123.99999999912. *)
Definition dec_a : Decimal := mkDecimal 10 2 2 false [9; 999999999; 120000000; 0; 0; 0; 0; 0; 0].
Definition dec_b : Decimal := mkDecimal 3 11 4 true [123; 999999999; 120000000; 0; 0; 0; 0; 0; 0].
Lemma wf_a : wf dec_a. Proof. by apply wfb_wf. Qed.
Lemma wf_b : wf dec_b. Proof. by apply wfb_wf. Qed.

(** [while l_idx > l_stop { idx_to -= 1; l_idx -= 1; to[idx_to] = from[l_idx]; }] *)
Fixpoint copy_loop (n : nat) (from : list Z) (l_idx : Z) (to : list Z) (idx_to : Z)
  : outcome (Z * Z * list Z) :=
  match n with
  | O => Ret (l_idx, idx_to, to)
  | S n' =>
      idx_to ← usize_dec idx_to;
      l_idx ← usize_dec l_idx;
      w ← get from l_idx;
      to ← set to idx_to w;
      copy_loop n' from l_idx to idx_to
  end.

Section Ops.
Context (op : Z → Z → Z → outcome (Z * Z)).

(** Both operands have a word at this position. *)
Fixpoint both_loop (n : nat) (lhs : list Z) (l_idx : Z) (rhs : list Z) (r_idx : Z)
    (to : list Z) (idx_to carry : Z) : outcome (Z * Z * Z * Z * list Z) :=
  match n with
  | O => Ret (l_idx, r_idx, idx_to, carry, to)
  | S n' =>
      idx_to ← usize_dec idx_to;
      l_idx ← usize_dec l_idx;
      r_idx ← usize_dec r_idx;
      a ← get lhs l_idx;
      b ← get rhs r_idx;
      '(carry, w) ← op a b carry;
      to ← set to idx_to w;
      both_loop n' lhs l_idx rhs r_idx to idx_to carry
  end.

(** Only the left operand has: the right one reads as zero. *)
Fixpoint left_loop (n : nat) (lhs : list Z) (l_idx : Z) (to : list Z) (idx_to carry : Z)
  : outcome (Z * Z * Z * list Z) :=
  match n with
  | O => Ret (l_idx, idx_to, carry, to)
  | S n' =>
      idx_to ← usize_dec idx_to;
      l_idx ← usize_dec l_idx;
      a ← get lhs l_idx;
      '(carry, w) ← op a 0 carry;
      to ← set to idx_to w;
      left_loop n' lhs l_idx to idx_to carry
  end.

(** Only the right operand has. *)
Fixpoint right_loop (n : nat) (rhs : list Z) (r_idx : Z) (to : list Z) (idx_to carry : Z)
  : outcome (Z * Z * Z * list Z) :=
  match n with
  | O => Ret (r_idx, idx_to, carry, to)
  | S n' =>
      idx_to ← usize_dec idx_to;
      r_idx ← usize_dec r_idx;
      b ← get rhs r_idx;
      '(carry, w) ← op 0 b carry;
      to ← set to idx_to w;
      right_loop n' rhs r_idx to idx_to carry
  end.

(** [while carry > 0 && l_idx > l_start]. *)
Fixpoint borrow_loop (n : nat) (lhs : list Z) (l_idx : Z) (to : list Z) (idx_to carry : Z)
  : outcome (Z * Z * Z * list Z) :=
  match n with
  | O => Ret (l_idx, idx_to, carry, to)
  | S n' =>
      if 0 <? carry then
        idx_to ← usize_dec idx_to;
        l_idx ← usize_dec l_idx;
        a ← get lhs l_idx;
        '(carry, w) ← op a 0 carry;
        to ← set to idx_to w;
        borrow_loop n' lhs l_idx to idx_to carry
      else Ret (l_idx, idx_to, carry, to)
  end.

End Ops.

(** ** Exactness

    The buffers are cut around the segment a loop walks; [n] is its length. *)

Lemma copy_loop_spec (n : nat) : ∀ a s b p zs t l_idx idx_to,
  length s = n → length zs = n →
  l_idx = Z.of_nat (length a + n) → idx_to = Z.of_nat (length p + n) →
  copy_loop n (a ++ s ++ b) l_idx (p ++ zs ++ t) idx_to
  = Ret (Z.of_nat (length a), Z.of_nat (length p), p ++ s ++ t).
Proof.
  induction n as [|n IH]; intros a s b p zs t l_idx idx_to Hs Hz -> ->.
  - apply nil_length_inv in Hs as ->. cbn [copy_loop]. rewrite !Nat.add_0_r.
    by apply nil_length_inv in Hz as ->.
  - apply snoc_cases in Hs as (s' & x & -> & Hs), Hz as (z' & y & -> & Hz).
    cbn [copy_loop]. rewrite usize_dec_ok by lia. bindr.
    rewrite usize_dec_ok by lia. bindr.
    rewrite <- !(app_assoc _ [_]). cbn [app]. rewrite (app_assoc a).
    rewrite get_mid by (rewrite length_app; lia). bindr.
    rewrite (app_assoc p), set_mid by (rewrite length_app; lia). bindr.
    rewrite <- !app_assoc.
    by rewrite (IH a s' (x :: b) p z' (x :: t)) by lia.
Qed.

Section Exact.
Context (op : Z → Z → Z → outcome (Z * Z)) (σ : Z) (Hop : op_exact op σ).

(** One more word on the left: [r] is the new word of weight [B^k]. *)
Lemma carry_step k c' r a b c c2 v v1 v2 :
  r + σ * c' * BASE = a + σ * b + σ * c →
  v + σ * c2 * BASE ^ k = v1 + σ * v2 + σ * c' →
  v * BASE + r + σ * c2 * (BASE ^ k * BASE) = v1 * BASE + a + σ * (v2 * BASE + b) + σ * c.
Proof. intros H1 H2. nia. Qed.

Lemma both_loop_spec (n : nat) : ∀ a1 s1 b1 a2 s2 b2 p zs t l_idx r_idx idx_to c,
  length s1 = n → length s2 = n → length zs = n →
  Forall (word BASE) s1 → Forall (word BASE) s2 → 0 <= c <= 1 →
  l_idx = Z.of_nat (length a1 + n) → r_idx = Z.of_nat (length a2 + n) →
  idx_to = Z.of_nat (length p + n) →
  ∃ zs' c',
    both_loop op n (a1 ++ s1 ++ b1) l_idx (a2 ++ s2 ++ b2) r_idx (p ++ zs ++ t) idx_to c
    = Ret (Z.of_nat (length a1), Z.of_nat (length a2), Z.of_nat (length p), c',
           p ++ zs' ++ t)
    ∧ length zs' = n ∧ Forall (word BASE) zs' ∧ 0 <= c' <= 1
    ∧ wval BASE zs' + σ * c' * BASE ^ Z.of_nat n
      = wval BASE s1 + σ * wval BASE s2 + σ * c.
Proof.
  induction n as [|n IH];
    intros a1 s1 b1 a2 s2 b2 p zs t l_idx r_idx idx_to c Hl1 Hl2 Hz H1 H2 Hc -> -> ->.
  - apply nil_length_inv in Hl1 as ->. apply nil_length_inv in Hl2 as ->.
    apply nil_length_inv in Hz as ->. exists [], c. cbn [both_loop].
    rewrite !Nat.add_0_r. cbn. repeat split; try lia. constructor.
  - apply snoc_cases in Hl1 as (s1' & x & -> & Hl1), Hl2 as (s2' & y & -> & Hl2),
      Hz as (z' & z & -> & Hz).
    apply Forall_snoc_inv in H1 as [H1 Hx].
    apply Forall_snoc_inv in H2 as [H2 Hy].
    cbn [both_loop]. rewrite usize_dec_ok by lia. bindr.
    rewrite usize_dec_ok by lia. bindr. rewrite usize_dec_ok by lia. bindr.
    rewrite <- !(app_assoc _ [_]). cbn [app]. rewrite (app_assoc a1), (app_assoc a2).
    rewrite get_mid by (rewrite length_app; lia). bindr.
    rewrite get_mid by (rewrite length_app; lia). bindr.
    destruct (Hop x y c Hx Hy Hc) as (c1 & r & -> & Hr & Hc1 & Hv). bindr.
    rewrite (app_assoc p), set_mid by (rewrite length_app; lia). bindr.
    rewrite <- !app_assoc.
    destruct (IH a1 s1' (x :: b1) a2 s2' (y :: b2) p z' (r :: t)
                (Z.of_nat (length a1 + S n) - 1) (Z.of_nat (length a2 + S n) - 1)
                (Z.of_nat (length p + S n) - 1) c1)
      as (zs' & c' & -> & Hz' & Hw & Hc' & Heq); auto; try lia.
    exists (zs' ++ [r]), c'. rewrite <- app_assoc, length_app. cbn [app length].
    split; [done|]. split; [lia|]. split; [apply Forall_app_2; auto|]. split; [lia|].
    rewrite !wval_snoc, Nat2Z.inj_succ, Z.pow_succ_r, (Z.mul_comm BASE (BASE ^ _)) by lia.
    by apply (carry_step _ c1).
Qed.

(** The single-operand loops are the two-operand loop on zeros. *)
Lemma left_loop_spec (n : nat) : ∀ a1 s1 b1 p zs t l_idx idx_to c,
  length s1 = n → length zs = n → Forall (word BASE) s1 → 0 <= c <= 1 →
  l_idx = Z.of_nat (length a1 + n) → idx_to = Z.of_nat (length p + n) →
  ∃ zs' c',
    left_loop op n (a1 ++ s1 ++ b1) l_idx (p ++ zs ++ t) idx_to c
    = Ret (Z.of_nat (length a1), Z.of_nat (length p), c', p ++ zs' ++ t)
    ∧ length zs' = n ∧ Forall (word BASE) zs' ∧ 0 <= c' <= 1
    ∧ wval BASE zs' + σ * c' * BASE ^ Z.of_nat n = wval BASE s1 + σ * c.
Proof.
  induction n as [|n IH]; intros a1 s1 b1 p zs t l_idx idx_to c Hl1 Hz H1 Hc -> ->.
  - apply nil_length_inv in Hl1 as ->. apply nil_length_inv in Hz as ->.
    exists [], c. cbn [left_loop]. rewrite !Nat.add_0_r. cbn.
    repeat split; try lia. constructor.
  - apply snoc_cases in Hl1 as (s1' & x & -> & Hl1), Hz as (z' & z & -> & Hz).
    apply Forall_snoc_inv in H1 as [H1 Hx].
    cbn [left_loop]. rewrite usize_dec_ok by lia. bindr. rewrite usize_dec_ok by lia. bindr.
    rewrite <- !(app_assoc _ [_]). cbn [app]. rewrite (app_assoc a1).
    rewrite get_mid by (rewrite length_app; lia). bindr.
    destruct (Hop x 0 c Hx ltac:(apply word_0; lia) Hc) as (c1 & r & -> & Hr & Hc1 & Hv).
    bindr. rewrite (app_assoc p), set_mid by (rewrite length_app; lia). bindr.
    rewrite <- !app_assoc.
    destruct (IH a1 s1' (x :: b1) p z' (r :: t) (Z.of_nat (length a1 + S n) - 1)
                (Z.of_nat (length p + S n) - 1) c1)
      as (zs' & c' & -> & Hz' & Hw & Hc' & Heq); auto; try lia.
    exists (zs' ++ [r]), c'. rewrite <- app_assoc, length_app. cbn [app length].
    split; [done|]. split; [lia|]. split; [apply Forall_app_2; auto|]. split; [lia|].
    rewrite !wval_snoc, Nat2Z.inj_succ, Z.pow_succ_r by lia. nia.
Qed.

Lemma right_loop_spec (n : nat) : ∀ a2 s2 b2 p zs t r_idx idx_to c,
  length s2 = n → length zs = n → Forall (word BASE) s2 → 0 <= c <= 1 →
  r_idx = Z.of_nat (length a2 + n) → idx_to = Z.of_nat (length p + n) →
  ∃ zs' c',
    right_loop op n (a2 ++ s2 ++ b2) r_idx (p ++ zs ++ t) idx_to c
    = Ret (Z.of_nat (length a2), Z.of_nat (length p), c', p ++ zs' ++ t)
    ∧ length zs' = n ∧ Forall (word BASE) zs' ∧ 0 <= c' <= 1
    ∧ wval BASE zs' + σ * c' * BASE ^ Z.of_nat n = σ * wval BASE s2 + σ * c.
Proof.
  induction n as [|n IH]; intros a2 s2 b2 p zs t r_idx idx_to c Hl2 Hz H2 Hc -> ->.
  - apply nil_length_inv in Hl2 as ->. apply nil_length_inv in Hz as ->.
    exists [], c. cbn [right_loop]. rewrite !Nat.add_0_r. cbn.
    repeat split; try lia. constructor.
  - apply snoc_cases in Hl2 as (s2' & x & -> & Hl2), Hz as (z' & z & -> & Hz).
    apply Forall_snoc_inv in H2 as [H2 Hx].
    cbn [right_loop]. rewrite usize_dec_ok by lia. bindr. rewrite usize_dec_ok by lia. bindr.
    rewrite <- !(app_assoc _ [_]). cbn [app]. rewrite (app_assoc a2).
    rewrite get_mid by (rewrite length_app; lia). bindr.
    destruct (Hop 0 x c ltac:(apply word_0; lia) Hx Hc) as (c1 & r & -> & Hr & Hc1 & Hv).
    bindr. rewrite (app_assoc p), set_mid by (rewrite length_app; lia). bindr.
    rewrite <- !app_assoc.
    destruct (IH a2 s2' (x :: b2) p z' (r :: t) (Z.of_nat (length a2 + S n) - 1)
                (Z.of_nat (length p + S n) - 1) c1)
      as (zs' & c' & -> & Hz' & Hw & Hc' & Heq); auto; try lia.
    exists (zs' ++ [r]), c'. rewrite <- app_assoc, length_app. cbn [app length].
    split; [done|]. split; [lia|]. split; [apply Forall_app_2; auto|]. split; [lia|].
    rewrite !wval_snoc, Nat2Z.inj_succ, Z.pow_succ_r by lia. nia.
Qed.

(** The borrow loop stops early, at a segment that is left to copy. *)
Lemma borrow_loop_spec (n : nat) : ∀ a1 s1 b1 p zs t l_idx idx_to c,
  length s1 = n → length zs = n → Forall (word BASE) s1 → 0 <= c <= 1 →
  l_idx = Z.of_nat (length a1 + n) → idx_to = Z.of_nat (length p + n) →
  ∃ c' zs',
    ('(l_idx, idx_to, carry, to) ← borrow_loop op n (a1 ++ s1 ++ b1) l_idx (p ++ zs ++ t) idx_to c;
     '(l_idx, idx_to, to) ←
       copy_loop (Z.to_nat (l_idx - Z.of_nat (length a1))) (a1 ++ s1 ++ b1) l_idx to idx_to;
     Ret to)
    = Ret (p ++ zs' ++ t)
    ∧ length zs' = n ∧ Forall (word BASE) zs' ∧ 0 <= c' <= 1
    ∧ wval BASE zs' + σ * c' * BASE ^ Z.of_nat n = wval BASE s1 + σ * c.
Proof.
  induction n as [|n IH]; intros a1 s1 b1 p zs t l_idx idx_to c Hl1 Hz H1 Hc -> ->.
  - apply nil_length_inv in Hl1 as ->. apply nil_length_inv in Hz as ->.
    exists c, []. cbn [borrow_loop]. rewrite !Nat.add_0_r. bindr.
    rewrite Z.sub_diag. cbn. repeat split; try lia. constructor.
  - cbn [borrow_loop]. case_Z.
    + apply snoc_cases in Hl1 as (s1' & x & -> & Hl1), Hz as (z' & z & -> & Hz).
      apply Forall_snoc_inv in H1 as [H1 Hx].
      rewrite usize_dec_ok by lia. bindr. rewrite usize_dec_ok by lia. bindr.
      rewrite <- !(app_assoc _ [_]). cbn [app]. rewrite (app_assoc a1).
      rewrite get_mid by (rewrite length_app; lia). bindr.
      destruct (Hop x 0 c Hx ltac:(apply word_0; lia) Hc) as (c1 & r & -> & Hr & Hc1 & Hv).
      bindr. rewrite (app_assoc p), set_mid by (rewrite length_app; lia). bindr.
      rewrite <- !app_assoc.
      destruct (IH a1 s1' (x :: b1) p z' (r :: t) (Z.of_nat (length a1 + S n) - 1)
                  (Z.of_nat (length p + S n) - 1) c1)
        as (c' & zs' & E & Hz' & Hw & Hc' & Heq); auto; try lia.
      exists c', (zs' ++ [r]). bindr. cbn [mbind outcome_bind] in E. rewrite E.
      rewrite <- app_assoc, length_app. cbn [app length].
      split; [done|]. split; [lia|]. split; [apply Forall_app_2; auto|]. split; [lia|].
      rewrite !wval_snoc, Nat2Z.inj_succ, Z.pow_succ_r by lia. nia.
    + exists c, s1. bindr.
      replace (Z.to_nat _) with (S n) by lia.
      rewrite (copy_loop_spec (S n)) by lia. bindr.
      assert (c = 0) as -> by lia. repeat split; auto; lia.
Qed.
End Exact.
