(* ===== verification/DecimalAddSub.v ===== *)
(** * DecimalAddSub: addition, subtraction, comparison and hashing of decimals

    [calc_sub_carry], [do_sub], [do_add] of [berolinasql/src/decimal.rs] and the
    [Ord], [Add], [Sub] and [Hash] implementations over them; then the proof that
    [do_add] is exact. *)
From Stdlib Require Import ZArith Lia.
From stdpp Require Import base list numbers.
From S2P Require Import Prelude Words EvalCtx DecimalBase DecimalLoops.
#[local] Open Scope Z_scope.

(** ** Definitions *)

(** [while idx < stop && buf[idx] == 0 { idx += 1; }], from [idx], [n] steps to [stop]. *)
Fixpoint skip_zeros (n : nat) (buf : list Z) (idx : Z) : outcome Z :=
  match n with
  | O => Ret idx
  | S n' => w ← get buf idx; if w =? 0 then skip_zeros n' buf (idx + 1) else Ret idx
  end.

(** [while start <= end && buf[end] == 0 { end -= 1; }], [n] being [end + 1 - start]. *)
Fixpoint trim_zeros (n : nat) (buf : list Z) (end_ : Z) : outcome Z :=
  match n with
  | O => Ret end_
  | S n' => w ← get buf end_; if w =? 0 then trim_zeros n' buf (end_ - 1) else Ret end_
  end.

(** [while l_idx <= l_end && r_idx <= r_end && lhs[l_idx] == rhs[r_idx]], [n] being
    the number of positions both have. *)
Fixpoint skip_equal (n : nat) (lhs : list Z) (l_idx : Z) (rhs : list Z) (r_idx : Z)
  : outcome (Z * Z) :=
  match n with
  | O => Ret (l_idx, r_idx)
  | S n' =>
      a ← get lhs l_idx;
      b ← get rhs r_idx;
      if a =? b then skip_equal n' lhs (l_idx + 1) rhs (r_idx + 1) else Ret (l_idx, r_idx)
  end.

(** The comparison of [calc_sub_carry] from the first differing word on. *)
Definition first_difference (lhs rhs : list Z) (l_idx l_end r_idx r_end : Z)
  : outcome (option Z) :=
  '(l_idx, r_idx) ←
    skip_equal (Z.to_nat (Z.min (l_end + 1 - l_idx) (r_end + 1 - r_idx))) lhs l_idx rhs r_idx;
  if l_idx <=? l_end then
    if r_idx <=? r_end then
      r ← get rhs r_idx;
      l ← get lhs l_idx;
      Ret (if l <? r then Some 1 else Some 0)
    else Ret (Some 0)
  else if r_idx <=? r_end then Ret (Some 1)
  else Ret None.

(** [SubTmp]: the first non-zero integer word, the integer words from it on, and
    the fraction words. *)
Definition SubTmp : Type := Z * Z * Z.

(** [calc_sub_carry]: the comparison of the magnitudes ([None] equal, [Some 0]
    greater, [Some 1] less), the fraction words of the result and the temporaries. *)
Definition calc_sub_carry (lhs rhs : Decimal) : outcome (option Z * Z * SubTmp * SubTmp) :=
  let l_frac_word_cnt := word_cnt (frac_cnt lhs) in
  let r_frac_word_cnt := word_cnt (frac_cnt rhs) in
  let frac_word_to := Z.max l_frac_word_cnt r_frac_word_cnt in
  let l_stop := word_cnt (int_cnt lhs) in
  l_idx ← skip_zeros (Z.to_nat l_stop) (word_buf lhs) 0;
  let l_start := l_idx in
  let l_int_word_cnt := l_stop - l_idx in
  let r_stop := word_cnt (int_cnt rhs) in
  r_idx ← skip_zeros (Z.to_nat r_stop) (word_buf rhs) 0;
  let r_start := r_idx in
  let r_int_word_cnt := r_stop - r_idx in
  '(carry, l_frac_word_cnt, r_frac_word_cnt) ←
    match r_int_word_cnt ?= l_int_word_cnt with
    | Gt => Ret (Some 1, l_frac_word_cnt, r_frac_word_cnt)
    | Lt => Ret (Some 0, l_frac_word_cnt, r_frac_word_cnt)
    | Eq =>
        l_end ← usize (l_stop + l_frac_word_cnt - 1);
        r_end ← usize (r_stop + r_frac_word_cnt - 1);
        l_end ← trim_zeros (Z.to_nat (l_end + 1 - l_idx)) (word_buf lhs) l_end;
        r_end ← trim_zeros (Z.to_nat (r_end + 1 - r_idx)) (word_buf rhs) r_end;
        let l_frac_word_cnt := as_u8 (Z.max 0 (l_end + 1 - l_stop)) in
        let r_frac_word_cnt := as_u8 (Z.max 0 (r_end + 1 - r_stop)) in
        carry ← first_difference (word_buf lhs) (word_buf rhs) l_idx l_end r_idx r_end;
        Ret (carry, l_frac_word_cnt, r_frac_word_cnt)
    end;
  Ret (carry, frac_word_to, (l_start, l_int_word_cnt, l_frac_word_cnt),
       (r_start, r_int_word_cnt, r_frac_word_cnt)).

Section WithTable.
Context {TP : TenPow}.

(** The word loops of [do_sub]: [lhs] has the greater magnitude, and [to] is the
    buffer of the fresh result. *)
Definition sub_words (lhs rhs : list Z) (l r : SubTmp) (frac_word_to : Z) (to : list Z)
  : outcome (list Z) :=
  let '(l_start, l_int_word_cnt, l_frac_word_cnt) := l in
  let '(r_start, r_int_word_cnt, r_frac_word_cnt) := r in
  let idx_to := l_int_word_cnt + frac_word_to in
  let l_idx := l_start + l_int_word_cnt + l_frac_word_cnt in
  let r_idx := r_start + r_int_word_cnt + r_frac_word_cnt in
  '(l_idx, r_idx, idx_to, carry, to) ←
    (if r_frac_word_cnt <? l_frac_word_cnt then
       let l_stop := l_start + l_int_word_cnt + r_frac_word_cnt in
       idx_to ← (if l_frac_word_cnt <? frac_word_to
                 then usize (idx_to - (frac_word_to - l_frac_word_cnt)) else Ret idx_to);
       '(l_idx, idx_to, to) ← copy_loop (Z.to_nat (l_idx - l_stop)) lhs l_idx to idx_to;
       Ret (l_idx, r_idx, idx_to, 0, to)
     else
       let r_stop := r_start + r_int_word_cnt + l_frac_word_cnt in
       idx_to ← (if r_frac_word_cnt <? frac_word_to
                 then usize (idx_to - (frac_word_to - r_frac_word_cnt)) else Ret idx_to);
       '(r_idx, idx_to, carry, to) ←
         right_loop sub (Z.to_nat (r_idx - r_stop)) rhs r_idx to idx_to 0;
       Ret (l_idx, r_idx, idx_to, carry, to));
  '(l_idx, r_idx, idx_to, carry, to) ←
    both_loop sub (Z.to_nat (r_idx - r_start)) lhs l_idx rhs r_idx to idx_to carry;
  '(l_idx, idx_to, carry, to) ←
    borrow_loop sub (Z.to_nat (l_idx - l_start)) lhs l_idx to idx_to carry;
  '(l_idx, idx_to, to) ← copy_loop (Z.to_nat (l_idx - l_start)) lhs l_idx to idx_to;
  Ret to.

(** [do_sub] once the operands are swapped so that [lhs] has the greater magnitude. *)
Definition sub_ordered (lhs rhs : Decimal) (l_res r_res : SubTmp) (frac_word_to : Z)
    (negative : bool) : outcome (Res Decimal) :=
  let '(l_start, l_int_word_cnt, l_frac_word_cnt) := l_res in
  let '(r_start, r_int_word_cnt, r_frac_word_cnt) := r_res in
  res ← fix_word_cnt_err (as_u8 l_int_word_cnt) frac_word_to WORD_BUF_LEN;
  let l_int_word_cnt := (res_val res).1 in
  let frac_word_to := (res_val res).2 in
  let frac := Z.max (frac_cnt lhs) (frac_cnt rhs) in
  int ← u8 (as_u8 l_int_word_cnt * DIGITS_PER_WORD);
  '(frac, l_frac_word_cnt, r_frac_word_cnt, r_int_word_cnt) ←
    (if negb (is_ok res) then
       f ← u8 (frac_word_to * DIGITS_PER_WORD);
       Ret (Z.min frac f, Z.min l_frac_word_cnt frac_word_to,
            Z.min r_frac_word_cnt frac_word_to, Z.min r_int_word_cnt l_int_word_cnt)
     else Ret (frac, l_frac_word_cnt, r_frac_word_cnt, r_int_word_cnt));
  let d := dec_new int frac negative in
  buf ← sub_words (word_buf lhs) (word_buf rhs)
          (l_start, l_int_word_cnt, l_frac_word_cnt)
          (r_start, r_int_word_cnt, r_frac_word_cnt) frac_word_to (word_buf d);
  Ret (res_map (fun _ => with_buf d buf) res).

(** [do_sub]: [lhs - rhs] for decimals of one sign. *)
Definition do_sub (lhs rhs : Decimal) : outcome (Res Decimal) :=
  '(carry, frac_word_to, l_res, r_res) ← calc_sub_carry lhs rhs;
  match carry with
  | None => Ret (ROk dec_zero)
  | Some carry =>
      if 0 <? carry then
        sub_ordered rhs lhs r_res l_res frac_word_to (negb (negative lhs))
      else sub_ordered lhs rhs l_res r_res frac_word_to (negative lhs)
  end.

(** The word loops of [do_add].  [lhs] and [rhs] are swapped so that the left one
    has the longer fraction, then so that it has the longer integer part. *)
Definition add_words (lhs rhs : list Z)
    (l_int_word_cnt l_frac_word_cnt r_int_word_cnt r_frac_word_cnt idx_to : Z)
    (to : list Z) : outcome (list Z) :=
  let '(lhs, rhs, l_idx, l_stop, r_idx, r_stop, exchanged) :=
    if r_frac_word_cnt <? l_frac_word_cnt then
      (lhs, rhs, l_int_word_cnt + l_frac_word_cnt, l_int_word_cnt + r_frac_word_cnt,
       r_int_word_cnt + r_frac_word_cnt, Z.max 0 (l_int_word_cnt - r_int_word_cnt), false)
    else
      (rhs, lhs, r_int_word_cnt + r_frac_word_cnt, r_int_word_cnt + l_frac_word_cnt,
       l_int_word_cnt + l_frac_word_cnt, Z.max 0 (r_int_word_cnt - l_int_word_cnt), true) in
  '(l_idx, idx_to, to) ← copy_loop (Z.to_nat (l_idx - l_stop)) lhs l_idx to idx_to;
  '(l_idx, r_idx, idx_to, carry, to) ←
    both_loop add (Z.to_nat (l_idx - r_stop)) lhs l_idx rhs r_idx to idx_to 0;
  let '(l_idx, lhs) :=
    if r_int_word_cnt <? l_int_word_cnt then
      (l_int_word_cnt - r_int_word_cnt, if exchanged then rhs else lhs)
    else
      (r_int_word_cnt - l_int_word_cnt, if negb exchanged then rhs else lhs) in
  '(l_idx, idx_to, carry, to) ←
    left_loop add (Z.to_nat l_idx) lhs l_idx to idx_to carry;
  if 0 <? carry then
    idx_to ← usize_dec idx_to;
    set to idx_to 1
  else Ret to.

(** [do_add]: [lhs + rhs] for decimals of one sign. *)
Definition do_add (lhs rhs : Decimal) : outcome (Res Decimal) :=
  let l_int_word_cnt := word_cnt (int_cnt lhs) in
  let l_frac_word_cnt := word_cnt (frac_cnt lhs) in
  let r_int_word_cnt := word_cnt (int_cnt rhs) in
  let r_frac_word_cnt := word_cnt (frac_cnt rhs) in
  let int_word_to := Z.max l_int_word_cnt r_int_word_cnt in
  let frac_word_to := Z.max l_frac_word_cnt r_frac_word_cnt in
  x ← match l_int_word_cnt ?= r_int_word_cnt with
      | Gt => get (word_buf lhs) 0
      | Lt => get (word_buf rhs) 0
      | Eq => a ← get (word_buf lhs) 0; b ← get (word_buf rhs) 0; u32 (a + b)
      end;
  int_word_to ← (if WORD_MAX - 1 <? x then u8 (int_word_to + 1) else Ret int_word_to);
  res ← fix_word_cnt_err int_word_to frac_word_to WORD_BUF_LEN;
  if is_overCausetxctx res then
    p ← u8 (WORD_BUF_LEN * DIGITS_PER_WORD);
    d ← max_decimal p 0;
    Ret (ROverCausetxctx d)
  else
    let '(int_word_to, frac_word_to) := res_val res in
    let idx_to := int_word_to + frac_word_to in
    int ← u8 (int_word_to * DIGITS_PER_WORD);
    let frac := Z.max (frac_cnt lhs) (frac_cnt rhs) in
    '(frac, l_int_word_cnt, l_frac_word_cnt, r_int_word_cnt, r_frac_word_cnt) ←
      (if negb (is_ok res) then
         f ← u8 (frac_word_to * DIGITS_PER_WORD);
         Ret (Z.min f frac, Z.min l_int_word_cnt int_word_to,
              Z.min frac_word_to l_frac_word_cnt, Z.min r_int_word_cnt int_word_to,
              Z.min r_frac_word_cnt frac_word_to)
       else Ret (frac, l_int_word_cnt, l_frac_word_cnt, r_int_word_cnt, r_frac_word_cnt));
    let d := dec_new int frac (negative lhs) in
    to ← set (word_buf d) 0 0;
    buf ← add_words (word_buf lhs) (word_buf rhs) l_int_word_cnt l_frac_word_cnt
            r_int_word_cnt r_frac_word_cnt idx_to to;
    Ret (res_map (fun _ => with_buf d buf) res).

(** [Ord::cmp]. *)
Definition dec_cmp (l r : Decimal) : outcome comparison :=
  if Bool.eqb (negative l) (negative r) then
    '(carry, _, _, _) ← calc_sub_carry l r;
    Ret match carry with
        | None => Eq
        | Some carry => if Bool.eqb (0 <? carry) (negative l) then Gt else Lt
        end
  else if negative l then Ret Lt
  else Ret Gt.

Definition dec_eq (l r : Decimal) : outcome bool :=
  c ← dec_cmp l r; Ret match c with Eq => true | _ => false end.

(** The [Add] and [Sub] operators. *)
Definition dec_add (l r : Decimal) : outcome (Res Decimal) :=
  let frac := Z.max (result_frac_cnt l) (result_frac_cnt r) in
  res ← (if Bool.eqb (negative l) (negative r) then do_add l r else do_sub l r);
  Ret (res_map (fun d => with_result_frac_cnt d frac) res).

Definition dec_sub (l r : Decimal) : outcome (Res Decimal) :=
  let frac := Z.max (result_frac_cnt l) (result_frac_cnt r) in
  res ← (if Bool.eqb (negative l) (negative r) then do_sub l r else do_add l r);
  Ret (res_map (fun d => with_result_frac_cnt d frac) res).

(** [Hash::hash]: what is fed to the hasher. *)
Definition dec_hash (d : Decimal) : outcome (Z * list Z * bool) :=
  let stop := word_cnt (int_cnt d) in
  start ← skip_zeros (Z.to_nat stop) (word_buf d) 0;
  let int_word_cnt := stop - start in
  end_ ← usize (stop + word_cnt (frac_cnt d) - 1);
  end_ ← trim_zeros (Z.to_nat (end_ + 1 - start)) (word_buf d) end_;
  Ret (int_word_cnt, drop (Z.to_nat start) (take (Z.to_nat (end_ + 1)) (word_buf d)),
       negative d && (start <=? end_)).

End WithTable.

Section Add.
Context {TP : TenPow}.
#[local] Notation V := (wval BASE).
#[local] Notation W := (Forall (word BASE)).
#[local] Notation zlen l := (Z.of_nat (length l)).

(** The last carry goes into the zeros above the sum, if there are any. *)
Lemma carry_out h o t c :
  h = replicate (length h) 0 → W o → 0 <= c <= 1 → (h = [] → c = 0) →
  ∃ out,
    (if 0 <? c then idx_to ← usize_dec (zlen h); set (h ++ o ++ t) idx_to 1
     else Ret (h ++ o ++ t)) = Ret (out ++ t)
    ∧ length out = (length h + length o)%nat ∧ W out ∧ V out = c * BASE ^ zlen o + V o.
Proof.
  intros Hh Ho Hc Hn. case_Z.
  - assert (c = 1) as -> by lia. destruct h as [|w h _] using rev_ind; [naive_solver lia|].
    rewrite length_app in Hh. cbn in Hh. rewrite replicate_add in Hh.
    apply app_inj_tail in Hh as [Hh _]. exists ((h ++ [1]) ++ o).
    rewrite usize_dec_ok by (rewrite length_app; cbn; lia). bindr.
    rewrite set_last by (rewrite length_app; cbn; lia).
    rewrite <- !app_assoc, !length_app. split; [done|]. split; [cbn; lia|].
    split; [apply Forall_app_2; [rewrite Hh; apply words_zeros; lia|]|].
    + constructor; [unfold word; lia|done].
    + rewrite !wval_app, Hh, wval_replicate_0. cbn. lia.
  - assert (c = 0) as -> by lia. exists (h ++ o). rewrite <- !app_assoc, length_app.
    split; [done|]. split; [done|]. split.
    + apply Forall_app_2; [rewrite Hh; apply words_zeros; lia|done].
    + rewrite Hh, wval_zeros_app. lia.
Qed.

(** Zeros cut into four parts. *)
Lemma zeros_split zs (n1 n2 n3 : nat) :
  zs = replicate (length zs) 0 → (n1 + (n2 + n3) <= length zs)%nat →
  ∃ h z3 z2 z1, zs = h ++ z3 ++ z2 ++ z1 ∧ length z1 = n1 ∧
     length z2 = n2 ∧ length z3 = n3 ∧ h = replicate (length h) 0.
Proof.
  intros Hz Hlen. exists (replicate (length zs - (n1 + (n2 + n3))) 0),
    (replicate n3 0), (replicate n2 0), (replicate n1 0).
  rewrite !length_replicate. repeat split; auto.
  rewrite <- !replicate_add, Hz at 1. f_equal. lia.
Qed.

(** The three loops after the swaps: [a] and [c] are what sticks out on the left,
    [s1] and [s2] overlap, [f] is the longer fraction's tail. *)
Lemma add_core a s1 f lt b s2 rt c ct zs t l r l3 l_idx l_stop r_idx r_stop l_idx' idx_to v :
  l = a ++ s1 ++ f ++ lt → r = b ++ s2 ++ rt → l3 = c ++ ct →
  l_idx = zlen a + zlen s1 + zlen f → l_stop = zlen a + zlen s1 →
  r_idx = zlen b + zlen s2 → r_stop = zlen a → l_idx' = zlen c →
  length s1 = length s2 → W s1 → W s2 → W c → W f →
  (length f + (length s1 + length c) <= length zs)%nat → zs = replicate (length zs) 0 →
  idx_to = zlen zs →
  V c * BASE ^ zlen s1 * BASE ^ zlen f + (V s1 + V s2) * BASE ^ zlen f + V f = v →
  v < BASE ^ zlen zs →
  ∃ out,
    ('(l_idx, idx_to, to) ←
       copy_loop (Z.to_nat (l_idx - l_stop)) l l_idx (zs ++ t) idx_to;
     '(_, _, idx_to, carry, to) ←
       both_loop add (Z.to_nat (l_idx - r_stop)) l l_idx r r_idx to idx_to 0;
     '(_, idx_to, carry, to) ←
       left_loop add (Z.to_nat l_idx') l3 l_idx' to idx_to carry;
     if 0 <? carry then idx_to ← usize_dec idx_to; set to idx_to 1 else Ret to)
    = Ret (out ++ t)
    ∧ length out = length zs ∧ W out
    ∧ V out = v.
Proof.
  intros -> -> -> -> -> -> -> -> Hs H1 H2 Hc Hf Hlen Hz -> <- Hlt.
  apply (zeros_split _ (length f) (length s1) (length c)) in Hlen
    as (h & z3 & z2 & z1 & -> & L1 & L2 & L3 & Hh); [|done]. clear Hz.
  rewrite <- !app_assoc, !length_app in *.
  rewrite (app_assoc a), (app_assoc h), (app_assoc (h ++ z3)).
  rewrite Nat2Z.id.
  replace (Z.to_nat (_ - _)) with (length f) by lia.
  rewrite (copy_loop_spec (length f)) by (rewrite ?length_app; lia). bindr.
  rewrite <- !app_assoc, !length_app.
  replace (Z.to_nat (_ - _)) with (length s1) by lia.
  destruct (both_loop_spec add 1 add_exact (length s1) a s1 (f ++ lt) b s2 rt
    (h ++ z3) z2 (f ++ t) (Z.of_nat (length a + length s1)) (zlen b + zlen s2)
    (Z.of_nat (length h + (length z3 + length z2))) 0) as (o2 & c2 & E2 & Lo2 & Wo2 & Hc2 & V2);
    rewrite ?length_app; auto; try lia.
  rewrite <- !app_assoc, length_app in E2. rewrite E2. bindr.
  destruct (left_loop_spec add 1 add_exact (length c) [] c ct h z3 (o2 ++ f ++ t)
    (zlen c) (Z.of_nat (length h + length z3)) c2) as (o3 & c3 & E3 & Lo3 & Wo3 & Hc3 & V3);
    rewrite ?length_app; auto; try lia.
  cbn [app] in E3. rewrite E3. bindr.
  pose proof (base_pow_pos BASE BASE_gt (length f)) as P1.
  pose proof (base_pow_pos BASE BASE_gt (length s1)) as P2.
  assert (Hv : c3 * (BASE ^ zlen c * (BASE ^ zlen s1 * BASE ^ zlen f)) + V (o3 ++ o2 ++ f)
          = V c * BASE ^ zlen s1 * BASE ^ zlen f + (V s1 + V s2) * BASE ^ zlen f + V f).
  { rewrite !wval_app, length_app, Nat2Z.inj_add, Z.pow_add_r, Lo2 by lia. nia. }
  destruct (carry_out h (o3 ++ o2 ++ f) t c3) as (out & E4 & Lo & Wo & Vo);
    auto using Forall_app_2.
  { intros ->. cbn [length Nat.add] in Hlt. rewrite L1, L2, L3 in Hlt.
    rewrite <- Hv, !Nat2Z.inj_add, !Z.pow_add_r in Hlt by lia.
    pose proof (wval_bounds BASE BASE_gt (o3 ++ o2 ++ f)
      ltac:(auto using Forall_app_2)). nia. }
  exists out. rewrite <- !app_assoc in E4. rewrite E4. split; [done|].
  rewrite !length_app in Lo. split; [lia|]. split; [done|].
  rewrite Vo, <- Hv, !length_app, Lo2, Lo3, !Nat2Z.inj_add, !Z.pow_add_r by lia. done.
Qed.

(** Closes the side conditions of [add_core] once the operands are cut. *)
#[local] Ltac add_side :=
  rewrite ?Forall_app in *; destruct_and?; rewrite ?length_app in *;
  rewrite <- ?app_assoc in *; cbn [length] in *; try reflexivity; try assumption; try lia;
  try (split_and?; assumption);
  rewrite !wval_app, ?length_app, ?Nat2Z.inj_max, ?Nat2Z.inj_add, ?Z.pow_add_r by lia;
  repeat match goal with
  | L : length ?x = length ?y |- context [length ?x] => rewrite !L
  end;
  repeat first [rewrite Z.max_l by lia | rewrite Z.max_r by lia];
  rewrite ?Z.sub_diag, ?Z.add_simpl_l, ?Z.pow_0_r; lia.

(** [add_words] on operands cut into integer part, fraction and rest. *)
Lemma add_words_spec (lhs rhs LI LF LT RI RF RT zs t : list Z) idx_to (m : nat) :
  lhs = LI ++ LF ++ LT → rhs = RI ++ RF ++ RT → m = (length LF `max` length RF)%nat →
  W LI → W LF → W RI → W RF →
  (m + length LI <= length zs)%nat → (m + length RI <= length zs)%nat →
  zs = replicate (length zs) 0 → idx_to = zlen zs →
  V (LI ++ LF) * BASE ^ (Z.of_nat m - zlen LF) + V (RI ++ RF) * BASE ^ (Z.of_nat m - zlen RF)
    < BASE ^ zlen zs →
  ∃ out,
    add_words lhs rhs (zlen LI) (zlen LF) (zlen RI) (zlen RF) idx_to (zs ++ t) = Ret (out ++ t)
    ∧ length out = length zs ∧ W out
    ∧ V out = V (LI ++ LF) * BASE ^ (Z.of_nat m - zlen LF)
              + V (RI ++ RF) * BASE ^ (Z.of_nat m - zlen RF).
Proof.
  intros -> -> -> WLI WLF WRI WRF B1 B2 Hz -> Hlt. unfold add_words.
  destruct (Z.ltb_spec (zlen RF) (zlen LF)).
  - destruct (cut_at LF (length RF)) as (f1 & f2 & -> & L1); [lia|].
    destruct (Z.ltb_spec (zlen RI) (zlen LI)).
    + destruct (cut_at_r LI (length RI)) as (c & i & -> & L2); [lia|].
      apply (add_core c (i ++ f1) f2 LT [] (RI ++ RF) RT c (i ++ (f1 ++ f2) ++ LT) zs t);
        add_side.
    + destruct (cut_at_r RI (length LI)) as (c & i & -> & L2); [lia|].
      apply (add_core [] (LI ++ f1) f2 LT c (i ++ RF) RT c (i ++ RF ++ RT) zs t); add_side.
  - destruct (cut_at RF (length LF)) as (f1 & f2 & -> & L1); [lia|].
    destruct (Z.ltb_spec (zlen RI) (zlen LI)).
    + destruct (cut_at_r LI (length RI)) as (c & i & -> & L2); [lia|].
      apply (add_core [] (RI ++ f1) f2 RT c (i ++ LF) LT c (i ++ LF ++ LT) zs t); add_side.
    + destruct (cut_at_r RI (length LI)) as (c & i & -> & L2); [lia|].
      apply (add_core c (i ++ f1) f2 RT [] (LI ++ LF) LT c (i ++ (f1 ++ f2) ++ RT) zs t);
        add_side.
Qed.

(** [add_words] on well-formed decimals, at a scale of [k] words. *)
Lemma add_words_dec l r it k :
  wf l → wf r → int_words l <= it → int_words r <= it →
  0 <= k <= Z.max (frac_words l) (frac_words r) → it + k <= 9 →
  coeff_at l k + coeff_at r k < BASE ^ (it + k) →
  ∃ out,
    add_words (word_buf l) (word_buf r) (int_words l) (Z.min k (frac_words l))
      (int_words r) (Z.min k (frac_words r)) (it + k) (replicate 9 0)
    = Ret (out ++ replicate (Z.to_nat (9 - (it + k))) 0)
    ∧ zlen out = it + k ∧ W out ∧ V out = coeff_at l k + coeff_at r k.
Proof.
  intros Hl Hr Hil Hir Hk Hn Hlt. pose proof (words_nonneg l Hl). pose proof (words_nonneg r Hr).
  destruct (wf_cut_at l k Hl ltac:(lia)) as (LI & LF & LT & EL & LLI & LLF & WLI & WLF & VL).
  destruct (wf_cut_at r k Hr ltac:(lia)) as (RI & RF & RT & ER & LRI & LRF & WRI & WRF & VR).
  rewrite <- LLI, <- LRI, <- LLF, <- LRF, <- VL, <- VR.
  replace (replicate 9 0) with
    (replicate (Z.to_nat (it + k)) 0 ++ replicate (Z.to_nat (9 - (it + k))) 0)
    by (rewrite <- replicate_add; f_equal; lia).
  destruct (add_words_spec (word_buf l) (word_buf r) LI LF LT RI RF RT
    (replicate (Z.to_nat (it + k)) 0) (replicate (Z.to_nat (9 - (it + k))) 0) (it + k)
    (Z.to_nat k)) as (out & E & Lo & Wo & Vo); rewrite ?length_replicate; auto; try lia.
  { rewrite !Z2Nat.id, VL, VR by lia. done. }
  rewrite length_replicate in Lo. rewrite Z2Nat.id in Vo by lia.
  exists out. split; [done|]. split; [lia|done].
Qed.

(** The leading word(s), which decide on one more integer word. *)
Lemma lead_spec l r : wf l → wf r → ∃ x,
  match word_cnt (int_cnt l) ?= word_cnt (int_cnt r) with
  | Gt => get (word_buf l) 0
  | Lt => get (word_buf r) 0
  | Eq => a ← get (word_buf l) 0; b ← get (word_buf r) 0; u32 (a + b)
  end = Ret x
  ∧ (x <= BASE - 2 → ∀ k, 0 <= k → 0 < Z.max (int_words l) (int_words r) + k →
     coeff_at l k + coeff_at r k < BASE ^ (Z.max (int_words l) (int_words r) + k))
  ∧ (BASE - 2 < x → ∀ k, 0 <= k → 0 < Z.max (int_words l) (int_words r) + k →
     (BASE - 1) * BASE ^ (Z.max (int_words l) (int_words r) + k - 1)
     <= coeff_at l k + coeff_at r k).
Proof.
  intros Hl Hr. destruct (word_buf_head l Hl) as (a & Ea & Wa), (word_buf_head r Hr) as (b & Eb & Wb).
  rewrite (get_ok (word_buf l) 0 a), (get_ok (word_buf r) 0 b) by (done || lia). bindr. unfold word in Wa, Wb.
  rewrite u32_ok by (mach; lia).
  change (word_cnt (int_cnt l)) with (int_words l).
  change (word_cnt (int_cnt r)) with (int_words r).
  pose proof (words_nonneg l Hl). pose proof (words_nonneg r Hr).
  destruct (Z.compare_spec (int_words l) (int_words r)) as [E|E|E]; eexists;
    (split; [reflexivity|split]); intros Hx k Hk Hn.
  1, 2: rewrite E, Z.max_id in *;
    pose proof (coeff_at_lead l k a Hl Hk ltac:(lia) Ea) as [_ B1];
    pose proof (coeff_at_lead r k b Hr Hk ltac:(lia) Eb) as [_ B2]; rewrite E in B1;
    rewrite ?(BASE_pow_pred (int_words r + k)) by lia.
  3, 4: rewrite Z.max_r in * by lia;
    pose proof (coeff_at_lead r k b Hr Hk ltac:(lia) Eb) as [_ B2];
    pose proof (coeff_at_bound l k Hl Hk) as B1;
    assert (BASE ^ (int_words l + k) <= BASE ^ (int_words r + k - 1))
      by (apply Z.pow_le_mono_r; lia);
    rewrite ?(BASE_pow_pred (int_words r + k)) by lia.
  5, 6: rewrite Z.max_l in * by lia;
    pose proof (coeff_at_lead l k a Hl Hk ltac:(lia) Ea) as [_ B2];
    pose proof (coeff_at_bound r k Hr Hk) as B1;
    assert (BASE ^ (int_words r + k) <= BASE ^ (int_words l + k - 1))
      by (apply Z.pow_le_mono_r; lia);
    rewrite ?(BASE_pow_pred (int_words l + k)) by lia.
  1, 2: pose proof (BASE_pow_pos (int_words r + k - 1)); nia.
  1, 2: pose proof (BASE_pow_pos (int_words r + k - 1)); nia.
  all: pose proof (BASE_pow_pos (int_words l + k - 1)); nia.
Qed.

Lemma max_decimal_81 : max_decimal 81 0 = Ret dec_max81.
Proof. unfold max_decimal. cbn. by rewrite WORD_MAX_eq. Qed.

(** The integer words of the sum: one more when the leading words may carry. *)
Lemma int_word_to_spec l r x : wf l → wf r →
  let it0 := Z.max (int_words l) (int_words r) in
  (x <= BASE - 2 → ∀ k, 0 <= k → 0 < it0 + k → coeff_at l k + coeff_at r k < BASE ^ (it0 + k)) →
  ∃ it,
    (if WORD_MAX - 1 <? x then u8 (it0 + 1) else Ret it0) = Ret it
    ∧ it0 <= it <= it0 + 1 ∧ (it = it0 + 1 → BASE - 2 < x)
    ∧ ∀ k, 0 <= k → 0 < it0 + k → coeff_at l k + coeff_at r k < BASE ^ (it + k).
Proof.
  intros Hl Hr it0 Hlo. pose proof (words_nonneg l Hl). pose proof (words_nonneg r Hr).
  rewrite WORD_MAX_eq. case_Z; eexists.
  - rewrite u8_ok by lia. split; [reflexivity|]. split; [lia|]. split; [lia|].
    intros k Hk Hn. pose proof (coeff_at_bound l k Hl Hk). pose proof (coeff_at_bound r k Hr Hk).
    rewrite (BASE_pow_pred (it0 + 1 + k)) by lia.
    replace (it0 + 1 + k - 1) with (it0 + k) by lia.
    assert (BASE ^ (int_words l + k) <= BASE ^ (it0 + k)) by (apply Z.pow_le_mono_r; lia).
    assert (BASE ^ (int_words r + k) <= BASE ^ (it0 + k)) by (apply Z.pow_le_mono_r; lia). lia.
  - split; [reflexivity|]. split; [lia|]. split; [lia|]. apply Hlo. lia.
Qed.

(** [do_add] never panics on well-formed operands, and is exact. *)
Lemma do_add_mag l r : wf l → wf r →
  ∃ res, do_add l r = Ret res ∧ mag_spec Z.add l r (negative l) res.
Proof.
  intros Hl Hr. unfold do_add. destruct (lead_spec l r Hl Hr) as (x & -> & Hlo & Hhi). bindr.
  pose proof (words_nonneg l Hl). pose proof (words_nonneg r Hr).
  pose proof (wf_some l Hl). pose proof (wf_some r Hr).
  pose proof (wf_frac l Hl). pose proof (wf_frac r Hr).
  assert (Hcnt : word_cnt (frac_cnt l `max` frac_cnt r) = Z.max (frac_words l) (frac_words r))
    by (apply word_cnt_max; lia).
  change (word_cnt (int_cnt l)) with (int_words l). change (word_cnt (int_cnt r)) with (int_words r).
  change (word_cnt (frac_cnt l)) with (frac_words l).
  change (word_cnt (frac_cnt r)) with (frac_words r).
  destruct (int_word_to_spec l r x Hl Hr Hlo) as (it & -> & Hit & Hx & Hlt). bindr.
  set (ft := Z.max (frac_words l) (frac_words r)) in *. change DIGITS_PER_WORD with 9.
  destruct (fix_word_cnt_cases it ft) as [(Hc & ->)|[(Hc & Hc' & ->)|(Hc & ->)]];
    [lia|lia|..]; bindr; cbn [is_overCausetxctx is_ok negb res_val res_map].
  - rewrite u8_ok by lia. bindr. change (set _ 0 0) with (Ret (replicate 9 0)). bindr.
    destruct (add_words_dec l r it ft) as (out & E & Lo & Wo & Vo); auto; try lia.
    { apply Hlt; lia. }
    rewrite !Z.min_r in E by lia. rewrite E. bindr. eexists. split; [reflexivity|].
    apply (fresh_mag Z.add l r); auto; lia.
  - rewrite !u8_ok by lia. bindr. change (set _ 0 0) with (Ret (replicate 9 0)). bindr.
    destruct (add_words_dec l r it (9 - it)) as (out & E & Lo & Wo & Vo); auto; try lia.
    { apply Hlt; lia. }
    rewrite !(Z.min_l (int_words _)), (Z.min_comm (frac_words r)) by lia.
    rewrite E. bindr. eexists. split; [reflexivity|].
    destruct (fresh_mag Z.add l r it (9 - it) (Z.min ((9 - it) * 9) (frac_cnt l `max` frac_cnt r))
      (negative l) out) as [Hm Hf]; auto; try lia.
    { rewrite Z.min_comm, word_cnt_min, Hcnt by lia. lia. }
    split; [done|]. rewrite Hf. lia.
  - change (u8 _) with (Ret 81). bindr. rewrite max_decimal_81. bindr. eexists. split; [reflexivity|].
    split; [done|]. assert (Z.max (int_words l) (int_words r) = 9) as E9 by lia.
    specialize (Hhi ltac:(lia) 0). rewrite E9 in Hhi. apply Hhi; lia.
Qed.
End Add.
