(* ===== verification/DecimalCmp.v ===== *)
(** * DecimalCmp: [calc_sub_carry], the order and the hash of decimals *)
From Stdlib Require Import ZArith Lia.
From stdpp Require Import base list numbers.
From S2P Require Import Prelude Words EvalCtx DecimalBase DecimalLoops DecimalAddSub.
#[local] Open Scope Z_scope.

#[local] Notation V := (wval BASE).
#[local] Notation W := (Forall (word BASE)).
#[local] Notation zlen l := (Z.of_nat (length l)).

(** Word lists without leading, and without trailing, zeros. *)
Definition no_lead (l : list Z) : Prop := match l with [] => True | w :: _ => w ≠ 0 end.
Definition no_trail (l : list Z) : Prop := l = [] ∨ ∃ a w, l = a ++ [w] ∧ w ≠ 0.

(** ** The scanning loops *)

Lemma skip_zeros_spec (I : list Z) : ∀ pre post idx,
  idx = zlen pre →
  ∃ (s : nat) I', I = replicate s 0 ++ I' ∧ no_lead I' ∧
    skip_zeros (length I) (pre ++ I ++ post) idx = Ret (zlen pre + Z.of_nat s).
Proof.
  induction I as [|w I IH]; intros pre post idx ->.
  - exists 0%nat, []. cbn. by rewrite Z.add_0_r.
  - cbn [length skip_zeros app]. rewrite get_mid by done. bindr. case_Z.
    + subst. destruct (IH (pre ++ [0]) post (zlen pre + 1)) as (s & I' & -> & Hn & E).
      { rewrite length_app. cbn. lia. }
      exists (S s), I'. split; [done|]. split; [done|].
      rewrite <- app_assoc in E. cbn [app] in E. rewrite E, length_app. cbn. f_equal. lia.
    + exists 0%nat, (w :: I). split; [done|]. split; [done|]. f_equal. lia.
Qed.

Lemma trim_zeros_spec (A : list Z) : ∀ pre post end_,
  end_ = zlen pre + zlen A - 1 →
  ∃ A' k, A = A' ++ replicate k 0 ∧ no_trail A' ∧
    trim_zeros (length A) (pre ++ A ++ post) end_ = Ret (zlen pre + zlen A' - 1).
Proof.
  induction A as [|w A IH] using rev_ind; intros pre post end_ ->.
  - exists [], 0%nat. split; [done|]. split; [by left|done].
  - rewrite length_app. cbn [length]. rewrite Nat.add_1_r. cbn [trim_zeros].
    rewrite <- app_assoc. cbn [app]. rewrite (app_assoc pre).
    rewrite get_mid by (rewrite length_app; lia). bindr. case_Z.
    + subst. destruct (IH pre (0 :: post) (zlen pre + zlen A - 1)) as (A' & k & -> & Hn & E);
        [done|].
      exists A', (S k). rewrite <- app_assoc, replicate_S_end. split; [done|]. split; [done|].
      rewrite <- (app_assoc pre). rewrite <- E. f_equal. lia.
    + exists (A ++ [w]), 0%nat. rewrite app_nil_r. split; [done|].
      split; [right; eauto|]. f_equal. rewrite length_app. cbn. lia.
Qed.

Lemma skip_equal_spec (A : list Z) : ∀ B p1 t1 p2 t2 l_idx r_idx,
  l_idx = zlen p1 → r_idx = zlen p2 →
  ∃ C A' B', A = C ++ A' ∧ B = C ++ B' ∧
    (A' = [] ∨ B' = [] ∨ ∃ x y A1 B1, A' = x :: A1 ∧ B' = y :: B1 ∧ x ≠ y) ∧
    skip_equal (length A `min` length B) (p1 ++ A ++ t1) l_idx (p2 ++ B ++ t2) r_idx
    = Ret (zlen p1 + zlen C, zlen p2 + zlen C).
Proof.
  induction A as [|x A IH]; intros B p1 t1 p2 t2 l_idx r_idx -> ->.
  { exists [], [], B. cbn. rewrite !Z.add_0_r. split_and!; auto. }
  destruct B as [|y B].
  { exists [], (x :: A), []. cbn. rewrite !Z.add_0_r. split_and!; auto. }
  cbn [length Nat.min skip_equal app]. rewrite !get_mid by done. bindr. case_Z.
  - subst. destruct (IH B (p1 ++ [y]) t1 (p2 ++ [y]) t2 (zlen p1 + 1) (zlen p2 + 1))
      as (C & A' & B' & -> & -> & Hd & E); [rewrite length_app; cbn; lia ..|].
    exists (y :: C), A', B'. split; [done|]. split; [done|]. split; [done|].
    rewrite <- !(app_assoc _ [y]), !(length_app _ [y]) in E. cbn [app] in E.
    rewrite E. cbn [length]. f_equal. f_equal; lia.
  - exists [], (x :: A), (y :: B). split; [done|]. split; [done|].
    split; [right; right; eauto 10|]. cbn [length]. by rewrite !Z.add_0_r.
Qed.

(** ** The temporaries of [calc_sub_carry] *)

(** [t] cuts [d]: zero words, integer words from the first non-zero one, fraction
    words, trimmed zeros. *)
Definition sub_tmp (d : Decimal) (t : SubTmp) : Prop :=
  let '(s, i, f) := t in
  ∃ (s' z : nat) I F T, word_buf d = replicate s' 0 ++ I ++ F ++ replicate z 0 ++ T
  ∧ s = Z.of_nat s' ∧ i = zlen I ∧ f = zlen F ∧ W I ∧ W F ∧ no_lead I
  ∧ s + i = int_words d ∧ f + Z.of_nat z = frac_words d
  ∧ coeff d = V (I ++ F) * BASE ^ Z.of_nat z.

(** More significant integer words, greater magnitude. *)
Lemma sub_tmp_longer l ls li lf r rs ri rf k :
  wf l → wf r → sub_tmp l (ls, li, lf) → sub_tmp r (rs, ri, rf) →
  frac_words l <= k → frac_words r <= k → li < ri → coeff_at l k < coeff_at r k.
Proof.
  intros Hl Hr (s1 & z1 & I1 & F1 & T1 & _ & -> & -> & -> & WI1 & WF1 & _ & _ & Hf1 & V1)
    (s2 & z2 & I2 & F2 & T2 & _ & -> & -> & -> & WI2 & WF2 & Hn2 & _ & Hf2 & V2) H1 H2 Hlt.
  rewrite !coeff_at_ge, V1, V2 by done.
  rewrite <- !Z.mul_assoc, <- !Z.pow_add_r by lia.
  assert (B1 : V (I1 ++ F1) < BASE ^ (zlen I1 + zlen F1)).
  { rewrite <- Nat2Z.inj_add, <- length_app. apply V_bounds. auto using Forall_app_2. }
  destruct I2 as [|w I2]; [cbn in Hlt; lia|].
  apply Forall_cons_1 in WI2 as [Hw WI2]. cbn in Hn2. unfold word in Hw.
  assert (B2 : BASE ^ (zlen I2 + zlen F2) <= V ((w :: I2) ++ F2)).
  { cbn [app]. rewrite wval_cons, length_app, Nat2Z.inj_add.
    pose proof (V_bounds (I2 ++ F2) ltac:(auto using Forall_app_2)).
    pose proof (BASE_pow_pos (zlen I2 + zlen F2)). nia. }
  set (e1 := Z.of_nat z1 + (k - frac_words l)) in *.
  set (e2 := Z.of_nat z2 + (k - frac_words r)) in *.
  pose proof (BASE_pow_pos e1 ltac:(lia)). pose proof (BASE_pow_pos e2 ltac:(lia)).
  assert (BASE ^ (zlen I1 + zlen F1) * BASE ^ e1 <= BASE ^ (zlen I2 + zlen F2) * BASE ^ e2).
  { rewrite <- !Z.pow_add_r by lia. apply Z.pow_le_mono_r; [lia|]. cbn [length] in Hlt. lia. }
  nia.
Qed.

(** A trimmed list is positive, unless empty. *)
Lemma no_trail_pos A : W A → no_trail A → A ≠ [] → 0 < V A.
Proof.
  intros HW [->|(a & w & -> & Hw)] Hne; [congruence|].
  apply Forall_snoc_inv in HW as [HW Hww]. rewrite wval_snoc.
  pose proof (V_bounds a HW). unfold word in Hww. lia.
Qed.

Lemma no_trail_app C A : no_trail (C ++ A) → no_trail A.
Proof.
  intros [[_ ->]%app_nil|(a & w & E & Hw)]; [by left|].
  destruct A as [|x A _] using rev_ind; [by left|].
  rewrite app_assoc in E. apply app_inj_tail in E as [_ ->]. right. eauto.
Qed.

(** Comparing two trimmed lists brought to one length [n], from their first difference. *)
Lemma first_diff_compare (C A B : list Z) n :
  W (C ++ A) → W (C ++ B) → no_trail (C ++ A) → no_trail (C ++ B) →
  (A = [] ∨ B = [] ∨ ∃ x y A1 B1, A = x :: A1 ∧ B = y :: B1 ∧ x ≠ y) →
  zlen (C ++ A) <= n → zlen (C ++ B) <= n →
  (V (C ++ A) * BASE ^ (n - zlen (C ++ A)) ?= V (C ++ B) * BASE ^ (n - zlen (C ++ B)))
  = match A, B with
    | [], [] => Eq
    | [], _ :: _ => Lt
    | _ :: _, [] => Gt
    | x :: _, y :: _ => x ?= y
    end.
Proof.
  intros HA HB TA%no_trail_app TB%no_trail_app Hd LA LB.
  apply Forall_app in HA as [HC HA], HB as [_ HB].
  rewrite !length_app, !Nat2Z.inj_add, !wval_app in *.
  assert (E : ∀ X, zlen C + zlen X <= n →
    (V C * BASE ^ zlen X + V X) * BASE ^ (n - (zlen C + zlen X))
    = V C * BASE ^ (n - zlen C) + V X * BASE ^ (n - zlen C - zlen X)).
  { intros X HX. replace (n - zlen C) with (zlen X + (n - (zlen C + zlen X))) at 1 by lia.
    rewrite Z.pow_add_r by lia. replace (n - zlen C - zlen X) with (n - (zlen C + zlen X)) by lia.
    ring. }
  rewrite !E, Z.add_compare_mono_l by done. clear E. set (m := n - zlen C) in *.
  destruct A as [|x A], B as [|y B].
  - apply Z.compare_refl.
  - apply Z.compare_lt_iff. rewrite wval_nil. pose proof (no_trail_pos _ HB TB ltac:(done)).
    pose proof (BASE_pow_pos (m - zlen (y :: B)) ltac:(lia)). nia.
  - apply Z.compare_gt_iff. rewrite wval_nil. pose proof (no_trail_pos _ HA TA ltac:(done)).
    pose proof (BASE_pow_pos (m - zlen (x :: A)) ltac:(lia)). nia.
  - destruct Hd as [?|[?|(? & ? & ? & ? & [= <- <-] & [= <- <-] & Hxy)]]; [done..|].
    apply Forall_cons_1 in HA as [Hx HA], HB as [Hy HB].
    cbn [length] in *. rewrite !wval_cons.
    pose proof (V_bounds A HA). pose proof (V_bounds B HB).
    assert (Hs : ∀ X x, 0 <= x → zlen C + Z.of_nat (S (length X)) <= n →
      0 <= V X < BASE ^ zlen X →
      ∃ e, (x * BASE ^ zlen X + V X) * BASE ^ (m - Z.of_nat (S (length X)))
           = x * BASE ^ (m - 1) + e ∧ 0 <= e < BASE ^ (m - 1)).
    { intros X x0 Hx0 HX HV. exists (V X * BASE ^ (m - Z.of_nat (S (length X)))).
      replace (m - 1) with (zlen X + (m - Z.of_nat (S (length X)))) by lia.
      rewrite Z.pow_add_r by lia.
      pose proof (BASE_pow_pos (m - Z.of_nat (S (length X))) ltac:(lia)). split; [ring|nia]. }
    unfold word in *. destruct (Hs A x) as (e1 & -> & ?); [lia..|].
    destruct (Hs B y) as (e2 & -> & ?); [lia..|].
    destruct (Z.compare_spec x y); [done|apply Z.compare_lt_iff; nia|apply Z.compare_gt_iff; nia].
Qed.

(** The common start of [calc_sub_carry] and [hash]: the leading zero words go. *)
Lemma skip_spec d : wf d → ∃ (s : nat) I F T,
  skip_zeros (Z.to_nat (int_words d)) (word_buf d) 0 = Ret (Z.of_nat s)
  ∧ word_buf d = replicate s 0 ++ I ++ F ++ T
  ∧ Z.of_nat s + zlen I = int_words d ∧ zlen F = frac_words d
  ∧ no_lead I ∧ W I ∧ W F ∧ coeff d = V (I ++ F).
Proof.
  intros Hwf. destruct (wf_cut d Hwf) as (I & F & T & E & LI & LF & HI & HF & _ & Hc).
  destruct (skip_zeros_spec I [] (F ++ T) 0 eq_refl) as (s & I' & -> & Hn & Es).
  apply Forall_app in HI as [_ HI]. rewrite length_app, length_replicate in LI.
  exists s, I', F, T. rewrite <- app_assoc in *. split_and!; auto; try lia.
  - rewrite E, <- LI. rewrite Nat2Z.id. rewrite length_app, length_replicate in Es.
    rewrite <- ?app_assoc in Es. exact Es.
  - by rewrite Hc, wval_zeros_app.
Qed.

(** The common end: the trailing zero words go, through the point if they reach it. *)
Lemma trim_spec d (s : nat) I F T : wf d →
  word_buf d = replicate s 0 ++ I ++ F ++ T → Z.of_nat s + zlen I = int_words d →
  zlen F = frac_words d → no_lead I → W I → W F → coeff d = V (I ++ F) →
  ∃ e A k,
    usize (int_words d + frac_words d - 1) = Ret e
    ∧ trim_zeros (Z.to_nat (e + 1 - Z.of_nat s)) (word_buf d) e = Ret (Z.of_nat s + zlen A - 1)
    ∧ I ++ F = A ++ replicate k 0 ∧ no_trail A
    ∧ sub_tmp d (Z.of_nat s, zlen I,
                 as_u8 (Z.max 0 (Z.of_nat s + zlen A - 1 + 1 - int_words d))).
Proof.
  intros Hwf E LI LF Hn HI HF Hc. pose proof (words_nonneg d Hwf). pose proof (wf_some d Hwf).
  destruct (trim_zeros_spec (I ++ F) (replicate s 0) T (int_words d + frac_words d - 1))
    as (A & k & EA & HA & Et).
  { rewrite length_replicate, length_app. lia. }
  exists (int_words d + frac_words d - 1), A, k.
  split; [apply usize_ok; mach; lia|]. split.
  { rewrite E, (app_assoc I), length_replicate in *. rewrite <- Et. f_equal.
    rewrite length_app. lia. }
  split; [done|]. split; [done|].
  assert (LA : zlen I + zlen F = zlen A + Z.of_nat k).
  { rewrite <- !Nat2Z.inj_add, <- length_app, EA, length_app, length_replicate. lia. }
  rewrite as_u8_id by lia.
  assert (∃ F' z, F = F' ++ replicate z 0 ∧
    zlen F' = Z.max 0 (Z.of_nat s + zlen A - 1 + 1 - int_words d)) as (F' & z & -> & LF').
  { destruct (Z.le_ge_cases (zlen A) (zlen I)).
    - exists [], (length F). split; [|cbn; lia]. apply (f_equal (drop (length I))) in EA.
      rewrite drop_app_length, drop_app_ge, drop_replicate in EA by lia.
      rewrite EA. cbn. by rewrite length_replicate.
    - apply (f_equal (drop (length I))) in EA. rewrite drop_app_length in EA.
      rewrite drop_app_le in EA by lia. exists (drop (length I) A), k. split; [done|].
      rewrite length_drop. lia. }
  rewrite <- LF'. rewrite <- app_assoc in E. apply Forall_app in HF as [HF _].
  rewrite length_app, length_replicate in LF.
  exists s, z, I, F', T. split_and!; auto; try lia.
  rewrite Hc, app_assoc. apply wval_app_zeros.
Qed.

(** The comparison after the trims, on the trimmed words [LA] and [RA]. *)
Lemma lex_spec (p1 p2 LA RA t1 t2 : list Z) n :
  W LA → W RA → no_trail LA → no_trail RA → zlen LA <= n → zlen RA <= n →
  first_difference (p1 ++ LA ++ t1) (p2 ++ RA ++ t2)
    (zlen p1) (zlen p1 + zlen LA - 1) (zlen p2) (zlen p2 + zlen RA - 1)
  = Ret match V LA * BASE ^ (n - zlen LA) ?= V RA * BASE ^ (n - zlen RA) with
        | Eq => None | Gt => Some 0 | Lt => Some 1 end.
Proof.
  intros WA WB NA NB LA_n RA_n. unfold first_difference.
  destruct (skip_equal_spec LA RA p1 t1 p2 t2 (zlen p1) (zlen p2))
    as (C & A & B & -> & -> & Hd & E); [done..|].
  rewrite (first_diff_compare C A B n) by done.
  replace (Z.to_nat _) with (length (C ++ A) `min` length (C ++ B))%nat by lia.
  rewrite E. bindr. clear E. rewrite !length_app, !Nat2Z.inj_add.
  destruct A as [|x A], B as [|y B]; cbn [length];
    repeat match goal with
    | |- context [?a <=? ?b] =>
        first [rewrite (proj2 (Z.leb_le a b)) by lia | rewrite (proj2 (Z.leb_gt a b)) by lia]
    end; [done..|].
  rewrite <- !app_assoc. cbn [app]. rewrite (app_assoc p1), (app_assoc p2).
  rewrite get_mid by (rewrite length_app; lia). bindr.
  rewrite get_mid by (rewrite length_app; lia). bindr.
  destruct Hd as [?|[?|(? & ? & ? & ? & [= <- <-] & [= <- <-] & Hxy)]]; [done..|].
  f_equal. destruct (Z.ltb_spec x y), (Z.compare_spec x y); done || lia.
Qed.

(** On two decimals with as many significant integer words. *)
Lemma trimmed_difference l r (ls rs : nat) LI LF LT RI RF RT LA RA (lk rk : nat) :
  word_buf l = replicate ls 0 ++ LI ++ LF ++ LT → zlen LF = frac_words l →
  word_buf r = replicate rs 0 ++ RI ++ RF ++ RT → zlen RF = frac_words r →
  W LI → W LF → W RI → W RF → zlen LI = zlen RI →
  coeff l = V (LI ++ LF) → coeff r = V (RI ++ RF) →
  LI ++ LF = LA ++ replicate lk 0 → RI ++ RF = RA ++ replicate rk 0 →
  no_trail LA → no_trail RA →
  first_difference (word_buf l) (word_buf r) (Z.of_nat ls) (Z.of_nat ls + zlen LA - 1)
    (Z.of_nat rs) (Z.of_nat rs + zlen RA - 1)
  = Ret (let ft := Z.max (frac_words l) (frac_words r) in
         match coeff_at l ft ?= coeff_at r ft with
         | Eq => None | Gt => Some 0 | Lt => Some 1 end).
Proof.
  intros EL LLF ER LRF WLI WLF WRI WRF Hi VL VR EA EB NA NB.
  rewrite EL, (app_assoc LI), EA, <- app_assoc, ER, (app_assoc RI), EB, <- app_assoc.
  pose proof (lex_spec (replicate ls 0) (replicate rs 0) LA RA (replicate lk 0 ++ LT)
    (replicate rk 0 ++ RT) (zlen LI + Z.max (frac_words l) (frac_words r))) as H.
  assert (WA : W LA) by (assert (W (LA ++ replicate lk 0)) as [? _]%Forall_app by (rewrite <- EA; auto using Forall_app_2); done).
  assert (WB : W RA) by (assert (W (RA ++ replicate rk 0)) as [? _]%Forall_app by (rewrite <- EB; auto using Forall_app_2); done).
  pose proof (f_equal length EA) as LA'. pose proof (f_equal length EB) as RA'.
  rewrite !length_app, length_replicate in LA', RA'. rewrite !length_replicate in H.
  rewrite H by (auto; lia). cbv zeta. rewrite !coeff_at_ge, VL, VR, EA, EB, !wval_app_zeros by lia.
  rewrite <- !Z.mul_assoc, <- !Z.pow_add_r by lia.
  set (ft := Z.max (frac_words l) (frac_words r)).
  replace (zlen LI + ft - zlen LA) with (Z.of_nat lk + (ft - frac_words l)) by lia.
  replace (zlen LI + ft - zlen RA) with (Z.of_nat rk + (ft - frac_words r)) by lia. done.
Qed.

Lemma calc_sub_carry_spec l r : wf l → wf r →
  let ft := Z.max (frac_words l) (frac_words r) in
  ∃ c lt rt, calc_sub_carry l r = Ret (c, ft, lt, rt) ∧ sub_tmp l lt ∧ sub_tmp r rt ∧
    c = match coeff_at l ft ?= coeff_at r ft with
        | Eq => None | Gt => Some 0 | Lt => Some 1 end.
Proof.
  intros Hl Hr ft. unfold calc_sub_carry.
  change (word_cnt (int_cnt l)) with (int_words l). change (word_cnt (int_cnt r)) with (int_words r).
  change (word_cnt (frac_cnt l)) with (frac_words l).
  change (word_cnt (frac_cnt r)) with (frac_words r).
  destruct (skip_spec l Hl) as (ls & LI & LF & LT & -> & EL & LLI & LLF & NL & WLI & WLF & VL).
  destruct (skip_spec r Hr) as (rs & RI & RF & RT & E & ER & LRI & LRF & NR & WRI & WRF & VR).
  bindr. rewrite E. bindr. clear E.
  assert (TL : sub_tmp l (Z.of_nat ls, int_words l - Z.of_nat ls, frac_words l)).
  { exists ls, 0%nat, LI, LF, LT. split_and!; auto; try lia. }
  assert (TR : sub_tmp r (Z.of_nat rs, int_words r - Z.of_nat rs, frac_words r)).
  { exists rs, 0%nat, RI, RF, RT. split_and!; auto; try lia. }
  destruct (Z.compare_spec (int_words r - Z.of_nat rs) (int_words l - Z.of_nat ls)) as [Hi|Hi|Hi].
  - destruct (trim_spec l ls LI LF LT) as (le & LA & lk & -> & TrL & EA & NA & SL); auto.
    destruct (trim_spec r rs RI RF RT) as (re & RA & rk & -> & TrR & EB & NB & SR); auto.
    bindr. rewrite TrL. bindr. rewrite TrR. bindr.
    rewrite (trimmed_difference l r ls rs LI LF LT RI RF RT LA RA lk rk) by (auto; lia).
    bindr. eexists _, _, _. split; [reflexivity|]. split; [|split; [|reflexivity]].
    + replace (int_words l - Z.of_nat ls) with (zlen LI) by lia. exact SL.
    + replace (int_words r - Z.of_nat rs) with (zlen RI) by lia. exact SR.
  - bindr. eexists _, _, _. split; [reflexivity|]. split; [done|]. split; [done|].
    rewrite (proj2 (Z.compare_gt_iff _ _)); [done|].
    eapply (sub_tmp_longer r _ _ _ l _ _ _ ft); eauto; lia.
  - bindr. eexists _, _, _. split; [reflexivity|]. split; [done|]. split; [done|].
    rewrite (proj2 (Z.compare_lt_iff _ _)); [done|].
    eapply (sub_tmp_longer l _ _ _ r _ _ _ ft); eauto; lia.
Qed.

(** ** The order *)

Section Order.
Context (l r : Decimal) (Hl : wf l) (Hr : wf r).
#[local] Notation ft := (Z.max (frac_words l) (frac_words r)).

Lemma scaled_sign d k : frac_words d <= k → scaled d k = if negative d then - coeff_at d k else coeff_at d k.
Proof. intros. rewrite scaled_eq by done. unfold sign. destruct (negative d); lia. Qed.

(** Same sign: the order of the signed values; otherwise the sign decides, also
    between the two zeros. *)
Lemma dec_cmp_spec : dec_cmp l r = Ret
  (if Bool.eqb (negative l) (negative r) then scaled l ft ?= scaled r ft
   else if negative l then Lt else Gt).
Proof.
  unfold dec_cmp. rewrite !scaled_sign by lia.
  destruct (Bool.eqb_spec (negative l) (negative r)) as [E|]; [|by destruct (negative l)].
  destruct (calc_sub_carry_spec l r Hl Hr) as (c & lt & rt & -> & _ & _ & ->). bindr.
  rewrite <- E. destruct (negative l).
  - rewrite Z.compare_opp, (Z.compare_antisym (coeff_at l ft) (coeff_at r ft)). by destruct (coeff_at l ft ?= coeff_at r ft).
  - by destruct (coeff_at l ft ?= coeff_at r ft).
Qed.

(** ** The hash *)

(** What the hasher sees: the number of significant integer words, the words
    without leading and trailing zeros, and the sign unless there are none. *)
Lemma dec_hash_spec d : wf d → ∃ (I F A : list Z) (k : nat),
  dec_hash d = Ret (zlen I, A, negative d && negb (bool_decide (A = [])))
  ∧ I ++ F = A ++ replicate k 0 ∧ no_lead I ∧ no_trail A ∧ W A
  ∧ zlen F = frac_words d ∧ coeff d = V (I ++ F)
  ∧ ∃ s, sub_tmp d (s, zlen I, frac_words d).
Proof.
  intros Hd. destruct (skip_spec d Hd) as (s & I & F & T & Es & Eb & LI & LF & NL & WI & WF & Hc).
  destruct (trim_spec d s I F T) as (e & A & k & Ee & Et & EA & NA & _); auto.
  assert (W (A ++ replicate k 0)) as [WA _]%Forall_app
    by (rewrite <- EA; auto using Forall_app_2).
  exists I, F, A, k. split.
  2: { split_and!; auto. exists (Z.of_nat s), s, 0%nat, I, F, T. split_and!; auto; lia. }
  unfold dec_hash. change (word_cnt (int_cnt d)) with (int_words d).
  change (word_cnt (frac_cnt d)) with (frac_words d).
  rewrite Es. bindr. rewrite Ee. bindr. rewrite Et. bindr.
  replace (int_words d - Z.of_nat s) with (zlen I) by lia. f_equal. f_equal; [f_equal|].
  - rewrite Eb, (app_assoc I), EA, <- app_assoc, Nat2Z.id.
    replace (Z.to_nat _) with (length (replicate s 0%Z) + length A)%nat
      by (rewrite length_replicate; lia).
    rewrite take_app_add, take_app_length, <- (length_replicate s 0) at 1.
    apply drop_app_length.
  - f_equal. destruct A; [cbn; apply Z.leb_gt; lia|]. cbn. apply Z.leb_le. lia.
Qed.
End Order.

(** A trimmed list is determined by its value at a fixed length. *)
Lemma trimmed_unique A B n :
  W A → W B → no_trail A → no_trail B → zlen A <= n → zlen B <= n →
  V A * BASE ^ (n - zlen A) = V B * BASE ^ (n - zlen B) → A = B.
Proof.
  intros WA WB NA NB LA LB E.
  destruct (skip_equal_spec A B [] [] [] [] 0 0 eq_refl eq_refl) as (C & A' & B' & -> & -> & Hd & _).
  pose proof (first_diff_compare C A' B' n WA WB NA NB Hd LA LB) as H.
  rewrite E, Z.compare_refl in H. destruct A' as [|x A'], B' as [|y B']; try done.
  symmetry in H. apply Z.compare_eq in H.
  destruct Hd as [?|[?|(? & ? & ? & ? & [= <- <-] & [= <- <-] & Hxy)]]; done.
Qed.

(** Equal magnitudes have equal significant parts. *)
Lemma mag_eq_parts l r Il Fl Al kl Ir Fr Ar kr sl sr :
  wf l → wf r →
  Il ++ Fl = Al ++ replicate kl 0 → no_trail Al → W Al → zlen Fl = frac_words l →
  coeff l = V (Il ++ Fl) → sub_tmp l (sl, zlen Il, frac_words l) →
  Ir ++ Fr = Ar ++ replicate kr 0 → no_trail Ar → W Ar → zlen Fr = frac_words r →
  coeff r = V (Ir ++ Fr) → sub_tmp r (sr, zlen Ir, frac_words r) →
  let ft := Z.max (frac_words l) (frac_words r) in
  coeff_at l ft = coeff_at r ft ↔ zlen Il = zlen Ir ∧ Al = Ar.
Proof.
  intros Hl Hr El Nl Wl Fl_ Vl Tl Er Nr Wr Fr_ Vr Tr ft.
  assert (Hat : ∀ d I F A (k : nat), I ++ F = A ++ replicate k 0 → zlen F = frac_words d →
    coeff d = V (I ++ F) → frac_words d <= ft →
    zlen A <= zlen I + ft ∧ coeff_at d ft = V A * BASE ^ (zlen I + ft - zlen A)).
  { intros d I F A k E Lf Hv Hk. pose proof (f_equal length E) as Hlen.
    rewrite !length_app, length_replicate in Hlen. split; [lia|].
    rewrite coeff_at_ge, Hv, E, wval_app_zeros by done.
    rewrite <- Z.mul_assoc, <- Z.pow_add_r by lia. do 2 f_equal. lia. }
  destruct (Hat l Il Fl Al kl) as [? ->]; [done..|lia|].
  split.
  - intros E. assert (coeff_at l ft = coeff_at r ft) as Ec.
    { destruct (Hat l Il Fl Al kl) as [_ ->]; [done..|lia|done]. }
    assert (zlen Il = zlen Ir) as Ei.
    { destruct (Z.lt_total (zlen Il) (zlen Ir)) as [Hlt|[?|Hlt]]; [|done|].
      - pose proof (sub_tmp_longer l _ _ _ r _ _ _ ft Hl Hr Tl Tr). lia.
      - pose proof (sub_tmp_longer r _ _ _ l _ _ _ ft Hr Hl Tr Tl). lia. }
    split; [done|]. destruct (Hat r Ir Fr Ar kr) as [? Er']; [done..|lia|].
    rewrite Er', <- Ei in E. apply (trimmed_unique Al Ar (zlen Il + ft)); auto; lia.
  - intros [Ei <-]. destruct (Hat r Ir Fr Al kr) as [? ->]; [done..|lia|]. by rewrite Ei.
Qed.

(** Hashing agrees with numeric equality: two well-formed decimals feed the
    hasher the same data exactly when they denote the same number (trailing
    fraction zeros, leading zero words and the sign of zero do not count), and
    hashing never panics on them. *)
Theorem dec_hash_iff l r : wf l → wf r →
  (∃ h, dec_hash l = Ret h) ∧
  (dec_hash l = dec_hash r ↔
   let ft := Z.max (frac_words l) (frac_words r) in scaled l ft = scaled r ft).
Proof.
  intros Hl Hr.
  destruct (dec_hash_spec l Hl) as (Il & Fl & Al & kl & -> & El & _ & Nl & Wl & Fl_ & Vl & sl & Tl).
  destruct (dec_hash_spec r Hr) as (Ir & Fr & Ar & kr & -> & Er & _ & Nr & Wr & Fr_ & Vr & sr & Tr).
  split; [eauto|]. cbv zeta.
  pose proof (mag_eq_parts l r Il Fl Al kl Ir Fr Ar kr sl sr Hl Hr El Nl Wl Fl_ Vl Tl
    Er Nr Wr Fr_ Vr Tr) as Hm. cbv zeta in Hm.
  set (ft := Z.max (frac_words l) (frac_words r)) in *.
  rewrite !scaled_sign by lia. pose proof (coeff_at_bound l ft Hl).
  pose proof (coeff_at_bound r ft Hr). pose proof (words_nonneg l Hl).
  assert (Hz : coeff_at l ft = 0 ↔ Al = []).
  { rewrite coeff_at_ge, Vl, El, wval_app_zeros by lia. split; [|intros ->; cbn; lia].
    intros Z0. destruct Al as [|x Al]; [done|exfalso].
    pose proof (no_trail_pos _ Wl Nl ltac:(done)). pose proof (BASE_pow_pos (Z.of_nat kl)).
    pose proof (BASE_pow_pos (ft - frac_words l)). nia. }
  split.
  - intros [= Ei EA Hs]. assert (coeff_at l ft = coeff_at r ft) as Ec by (apply Hm; auto).
    destruct (decide (Al = [])) as [E0|Hne].
    + apply Hz in E0. destruct (negative l), (negative r); lia.
    + rewrite <- EA, (bool_decide_eq_false_2 (Al = [])), !andb_true_r in Hs by done.
      rewrite Hs, Ec. done.
  - intros Es. assert (coeff_at l ft = coeff_at r ft) as Ec
      by (destruct (negative l), (negative r); lia).
    apply Hm in Ec as HA. destruct HA as [-> HA]. rewrite <- HA.
    destruct (bool_decide_reflect (Al = [])) as [E0|Hne].
    + cbn. by rewrite !andb_false_r.
    + cbn. rewrite !andb_true_r. f_equal. f_equal.
      assert (coeff_at l ft ≠ 0) by tauto. destruct (negative l), (negative r); done || lia.
Qed.

(** [Ord::cmp] on well-formed decimals is the order of the numbers they
    denote (read at a common scale), unless both are zeros of different sign. *)
Theorem dec_cmp_value l r : wf l → wf r →
  (coeff l ≠ 0 ∨ coeff r ≠ 0 ∨ negative l = negative r) →
  let ft := Z.max (frac_words l) (frac_words r) in
  dec_cmp l r = Ret (scaled l ft ?= scaled r ft).
Proof.
  intros Hl Hr Hz ft. rewrite (dec_cmp_spec l r Hl Hr).
  destruct (Bool.eqb_spec (negative l) (negative r)) as [E|Hne]; [done|].
  assert (H : coeff l ≠ 0 ∨ coeff r ≠ 0) by tauto. clear Hz.
  pose proof (coeff_nonneg l Hl). pose proof (coeff_nonneg r Hr).
  rewrite !scaled_sign, !coeff_at_ge by lia.
  pose proof (words_nonneg l Hl). pose proof (words_nonneg r Hr).
  pose proof (BASE_pow_pos (ft - frac_words l) ltac:(lia)).
  pose proof (BASE_pow_pos (ft - frac_words r) ltac:(lia)).
  f_equal. symmetry. destruct (negative l), (negative r); try done;
    [apply Z.compare_lt_iff|apply Z.compare_gt_iff]; destruct H; nia.
Qed.

Lemma scaled_scale d k k' : frac_words d <= k <= k' → scaled d k' = scaled d k * BASE ^ (k' - k).
Proof.
  intros. rewrite !scaled_eq, (coeff_at_scale d k k') by lia. lia.
Qed.

(** The comparison at any common scale. *)
Lemma dec_cmp_at l r k : wf l → wf r → frac_words l <= k → frac_words r <= k →
  dec_cmp l r = Ret (if Bool.eqb (negative l) (negative r) then scaled l k ?= scaled r k
                     else if negative l then Lt else Gt).
Proof.
  intros Hl Hr H1 H2. rewrite (dec_cmp_spec l r Hl Hr).
  set (ft := Z.max (frac_words l) (frac_words r)).
  rewrite (scaled_scale l ft k), (scaled_scale r ft k) by lia.
  pose proof (BASE_pow_pos (k - ft) ltac:(lia)).
  rewrite <- Zmult_compare_compat_r by lia. done.
Qed.

(** [Ord::cmp] is a total order on well-formed decimals: it always returns,
    swapping the operands swaps the result, and "not greater" is transitive. *)
Theorem dec_cmp_total_order a b c : wf a → wf b → wf c →
  (∃ o, dec_cmp a b = Ret o ∧ dec_cmp b a = Ret (CompOpp o)) ∧
  (dec_cmp a b ≠ Ret Gt → dec_cmp b c ≠ Ret Gt → dec_cmp a c ≠ Ret Gt) ∧
  (dec_cmp a b = Ret Eq → dec_cmp b c = Ret Eq → dec_cmp a c = Ret Eq).
Proof.
  intros Ha Hb Hc.
  set (k := Z.max (frac_words a) (Z.max (frac_words b) (frac_words c))).
  rewrite (dec_cmp_at a b k), (dec_cmp_at b a k), (dec_cmp_at b c k), (dec_cmp_at a c k)
    by (auto; lia).
  split; [|split].
  - destruct (negative a), (negative b); cbn; eexists; (split; [reflexivity|]); try done.
    all: by rewrite Z.compare_antisym.
  - destruct (negative a), (negative b), (negative c); cbn; try done; intros H1 H2 H3;
      injection H3 as H3; apply Z.compare_gt_iff in H3.
    all: apply H1; f_equal; apply Z.compare_gt_iff.
    all: assert (scaled b k <= scaled c k) by (apply Z.compare_le_iff; congruence); lia.
  - destruct (negative a), (negative b), (negative c); cbn; try done; intros [= H1] [= H2];
      f_equal; apply Z.compare_eq in H1, H2; apply Z.compare_eq_iff; lia.
Qed.

Lemma dec_hash_iff_witness :
  wf dec_a ∧ wf dec_b ∧ (∃ h, dec_hash dec_a = Ret h) ∧
  (dec_hash dec_a = dec_hash dec_b ↔ scaled dec_a 2 = scaled dec_b 2).
Proof. split; [exact wf_a|]. split; [exact wf_b|]. exact (dec_hash_iff dec_a dec_b wf_a wf_b). Defined.

Lemma dec_cmp_value_witness : dec_cmp dec_b dec_a = Ret (scaled dec_b 2 ?= scaled dec_a 2).
Proof. apply (dec_cmp_value dec_b dec_a wf_b wf_a). left. by vm_compute. Defined.

Lemma dec_cmp_total_order_witness :
  dec_cmp dec_b dec_zero ≠ Ret Gt ∧ dec_cmp dec_zero dec_a ≠ Ret Gt ∧ dec_cmp dec_b dec_a ≠ Ret Gt.
Proof.
  split; [by vm_compute|]. split; [by vm_compute|].
  apply (dec_cmp_total_order dec_b dec_zero dec_a wf_b wf_zero wf_a); by vm_compute.
Defined.

(** The two zeros compare as different, though they hash alike. *)
Lemma dec_cmp_zeros :
  dec_cmp (with_negative dec_zero true) dec_zero = Ret Lt
  ∧ dec_hash (with_negative dec_zero true) = dec_hash dec_zero.
Proof. by vm_compute. Qed.
