(* ===== verification/DecimalSub.v ===== *)
(** * DecimalSub: [do_sub] is exact, and the signed operators over both *)
From Stdlib Require Import ZArith Lia.
From stdpp Require Import base list numbers.
From S2P Require Import Prelude Words EvalCtx DecimalBase DecimalLoops DecimalAddSub.
From S2P Require Import DecimalCmp DecimalAddSub.
#[local] Open Scope Z_scope.

#[local] Notation V := (wval BASE).
#[local] Notation W := (Forall (word BASE)).
#[local] Notation zlen l := (Z.of_nat (length l)).

Section Sub.
Context {TP : TenPow}.

(** The last three loops of [sub_words]: the tail [o] is done, with borrow [c];
    [s1] and [s2] overlap and [i] is what the left operand has above. *)
Lemma sub_tail ls i s1 lt rs s2 rt zi zs o t l r l_idx r_idx l_start r_start idx_to c :
  l = ls ++ i ++ s1 ++ lt → r = rs ++ s2 ++ rt →
  length s1 = length s2 → length zs = length s1 → length zi = length i →
  W s1 → W s2 → W i → W o → 0 <= c <= 1 →
  l_idx = zlen ls + zlen i + zlen s1 → r_idx = zlen rs + zlen s2 →
  l_start = zlen ls → r_start = zlen rs → idx_to = zlen i + zlen s1 →
  0 <= V i * BASE ^ zlen s1 + V s1 - V s2 - c →
  ∃ out,
    ('(l_idx, r_idx, idx_to, carry, to) ←
       both_loop sub (Z.to_nat (r_idx - r_start)) l l_idx r r_idx (zi ++ zs ++ o ++ t) idx_to c;
     '(l_idx, idx_to, carry, to) ←
       borrow_loop sub (Z.to_nat (l_idx - l_start)) l l_idx to idx_to carry;
     '(l_idx, idx_to, to) ← copy_loop (Z.to_nat (l_idx - l_start)) l l_idx to idx_to;
     Ret to) = Ret (out ++ t)
    ∧ length out = (length i + (length s1 + length o))%nat ∧ W out
    ∧ V out = (V i * BASE ^ zlen s1 + V s1 - V s2 - c) * BASE ^ zlen o + V o.
Proof.
  intros -> -> Hs Hz Hzi W1 W2 Wi Wo Hc -> -> -> -> -> Hpos.
  replace (Z.to_nat _) with (length s1) by lia.
  destruct (both_loop_spec sub (-1) sub_exact (length s1) (ls ++ i) s1 lt rs s2 rt zi zs (o ++ t)
    (zlen ls + zlen i + zlen s1) (zlen rs + zlen s2) (zlen i + zlen s1) c)
    as (o2 & c2 & E2 & Lo2 & Wo2 & Hc2 & V2); rewrite ?length_app; auto; try lia.
  rewrite <- !app_assoc in E2. rewrite E2. bindr. rewrite length_app.
  replace (Z.to_nat _) with (length i) by lia.
  destruct (borrow_loop_spec sub (-1) sub_exact (length i) ls i (s1 ++ lt) [] zi (o2 ++ o ++ t)
    (Z.of_nat (length ls + length i)) (zlen zi) c2)
    as (c3 & o3 & E3 & Lo3 & Wo3 & Hc3 & V3); auto; try (cbn; lia).
  cbn [app] in E3. rewrite E3. exists (o3 ++ o2 ++ o). rewrite <- !app_assoc, !length_app.
  split; [done|]. split; [lia|]. split; [auto using Forall_app_2|].
  rewrite !wval_app, length_app, Lo2, Nat2Z.inj_add, Z.pow_add_r by lia.
  assert (c3 = 0) as ->.
  { pose proof (V_bounds o3 Wo3). pose proof (V_bounds o2 Wo2). rewrite Lo2, Lo3 in *.
    pose proof (BASE_pow_pos (zlen s1)). pose proof (BASE_pow_pos (zlen i)).
    assert (V i * BASE ^ zlen s1 + V s1 - V s2 - c
            = V o3 * BASE ^ zlen s1 + V o2 - c3 * (BASE ^ zlen i * BASE ^ zlen s1)) by nia.
    destruct (Z.eq_dec c3 0); [done|]. assert (c3 = 1) as -> by lia. nia. }
  nia.
Qed.

(** Stepping over the fraction words the result has and neither operand needs. *)
Lemma idx_adjust a f i : 0 <= a <= f → 0 <= i → i + f <= U64_MAX →
  (if a <? f then usize (i + f - (f - a)) else Ret (i + f)) = Ret (i + a).
Proof.
  intros. case_Z; [rewrite usize_ok by lia|]; f_equal; lia.
Qed.

(** What the loops above [o] leave: never a borrow, the left operand being greater. *)
Lemma no_borrow X c v o k : 0 < k → 0 <= X * k - v → o - c * k = - v → 0 <= o < k → 0 <= X - c.
Proof. nia. Qed.

#[local] Ltac sub_side :=
  rewrite ?length_app, ?Nat2Z.inj_add; rewrite <- ?app_assoc;
  try done; try lia; auto using Forall_app_2.

(** The left operand has the longer fraction, its tail [f2] being copied. *)
Lemma sub_words_long (LS i i2 f1 f2 LT RS RI RF RT zs t lhs rhs : list Z) ft :
  lhs = LS ++ i ++ i2 ++ f1 ++ f2 ++ LT → rhs = RS ++ RI ++ RF ++ RT →
  length i2 = length RI → length f1 = length RF → 0 < zlen f2 →
  W i → W i2 → W f1 → W f2 → W RI → W RF →
  zlen f1 + zlen f2 <= ft → zlen i + zlen i2 + ft <= U64_MAX →
  zlen zs = zlen i + zlen i2 + zlen f1 + zlen f2 →
  0 <= V i * BASE ^ zlen (i2 ++ f1) + V (i2 ++ f1) - V (RI ++ RF) - 0 →
  ∃ out,
    sub_words lhs rhs (zlen LS, zlen i + zlen i2, zlen f1 + zlen f2) (zlen RS, zlen RI, zlen RF)
      ft (zs ++ t) = Ret (out ++ t)
    ∧ zlen out = zlen zs ∧ W out
    ∧ V out = (V i * BASE ^ zlen (i2 ++ f1) + V (i2 ++ f1) - V (RI ++ RF) - 0) * BASE ^ zlen f2 + V f2.
Proof.
  intros -> -> L2 L1 Hf2 Wi Wi2 W1 W2 WI WF Hft Hmax Hz Hpos. unfold sub_words.
  rewrite (proj2 (Z.ltb_lt _ _)) by lia. rewrite idx_adjust by lia. bindr.
  destruct (cut_at zs (length i)) as (zi & zr & -> & L3); [lia|]. rewrite length_app in Hz.
  destruct (cut_at zr (length i2 + length f1)) as (z1 & z2 & -> & L4); [lia|].
  rewrite length_app in Hz. replace (Z.to_nat _) with (length f2) by lia.
  replace (LS ++ i ++ i2 ++ f1 ++ f2 ++ LT) with ((LS ++ i ++ i2 ++ f1) ++ f2 ++ LT)
    by (by rewrite <- !app_assoc).
  replace ((zi ++ z1 ++ z2) ++ t) with ((zi ++ z1) ++ z2 ++ t) by (by rewrite <- !app_assoc).
  rewrite (copy_loop_spec (length f2)) by (rewrite ?length_app; lia). bindr.
  rewrite <- (app_assoc zi).
  destruct (sub_tail LS i (i2 ++ f1) (f2 ++ LT) RS (RI ++ RF) RT zi z1 f2 t
    ((LS ++ i ++ i2 ++ f1) ++ f2 ++ LT) (RS ++ RI ++ RF ++ RT)
    (zlen (LS ++ i ++ i2 ++ f1)) (zlen RS + zlen RI + zlen RF) (zlen LS) (zlen RS)
    (zlen (zi ++ z1)) 0) as (out & Eo & Lo & Wo & Vo);
    try solve [assumption | rewrite ?length_app, <- ?app_assoc; auto using Forall_app_2; lia].
  exists out. split; [exact Eo|]. split; [|done]. rewrite !length_app in *. lia.
Qed.

(** The right operand has the fraction at least as long: zero minus its tail [f2]. *)
Lemma sub_words_short (LS i i2 LF LT RS RI f1 f2 RT zs t lhs rhs : list Z) ft :
  lhs = LS ++ i ++ i2 ++ LF ++ LT → rhs = RS ++ RI ++ f1 ++ f2 ++ RT →
  length i2 = length RI → length LF = length f1 →
  W i → W i2 → W f1 → W f2 → W RI → W LF →
  zlen f1 + zlen f2 <= ft → zlen i + zlen i2 + ft <= U64_MAX →
  zlen zs = zlen i + zlen i2 + zlen f1 + zlen f2 →
  0 <= (V i * BASE ^ zlen (i2 ++ LF) + V (i2 ++ LF) - V (RI ++ f1)) * BASE ^ zlen f2 - V f2 →
  ∃ out,
    sub_words lhs rhs (zlen LS, zlen i + zlen i2, zlen LF) (zlen RS, zlen RI, zlen f1 + zlen f2)
      ft (zs ++ t) = Ret (out ++ t)
    ∧ zlen out = zlen zs ∧ W out
    ∧ V out = (V i * BASE ^ zlen (i2 ++ LF) + V (i2 ++ LF) - V (RI ++ f1)) * BASE ^ zlen f2 - V f2.
Proof.
  intros -> -> L2 L1 Wi Wi2 W1 W2 WI WF Hft Hmax Hz Hpos. unfold sub_words.
  rewrite (proj2 (Z.ltb_ge _ _)) by lia. rewrite idx_adjust by lia. bindr.
  destruct (cut_at zs (length i)) as (zi & zr & -> & L3); [lia|]. rewrite length_app in Hz.
  destruct (cut_at zr (length i2 + length LF)) as (z1 & z2 & -> & L4); [lia|].
  rewrite length_app in Hz. replace (Z.to_nat _) with (length f2) by lia.
  replace (RS ++ RI ++ f1 ++ f2 ++ RT) with ((RS ++ RI ++ f1) ++ f2 ++ RT)
    by (by rewrite <- !app_assoc).
  replace ((zi ++ z1 ++ z2) ++ t) with ((zi ++ z1) ++ z2 ++ t) by (by rewrite <- !app_assoc).
  destruct (right_loop_spec sub (-1) sub_exact (length f2) (RS ++ RI ++ f1) f2 RT (zi ++ z1) z2 t
    (zlen RS + zlen RI + (zlen f1 + zlen f2)) (zlen i + zlen i2 + (zlen f1 + zlen f2)) 0)
    as (o & c & E & Lo & Wo & Hc & Vo); rewrite ?length_app; auto; try lia.
  rewrite E. bindr. clear E. rewrite <- (app_assoc zi).
  pose proof (BASE_pow_pos (zlen f2) ltac:(lia)). pose proof (V_bounds o Wo) as Bo.
  rewrite Lo in Bo.
  destruct (sub_tail LS i (i2 ++ LF) LT RS (RI ++ f1) (f2 ++ RT) zi z1 o t
    (LS ++ i ++ i2 ++ LF ++ LT) ((RS ++ RI ++ f1) ++ f2 ++ RT)
    (zlen LS + (zlen i + zlen i2) + zlen LF) (zlen (RS ++ RI ++ f1)) (zlen LS) (zlen RS)
    (zlen (zi ++ z1)) c) as (out & Eo & Lo' & Wo' & Vo');
    try solve [assumption | rewrite ?length_app, <- ?app_assoc; auto using Forall_app_2; lia].
  { eapply (no_borrow _ c (V f2) (V o) (BASE ^ zlen f2)); auto; lia. }
  exists out. split; [exact Eo|]. split; [rewrite !length_app in *; lia|]. split; [done|].
  rewrite Vo', Lo, !(length_app i2). lia.
Qed.

(** [sub_words] on operands cut into integer words, fraction words and rest. *)
Lemma sub_words_spec (LS LI LF LT RS RI RF RT zs t lhs rhs : list Z) ls li lf rs ri rf ft m :
  lhs = LS ++ LI ++ LF ++ LT → rhs = RS ++ RI ++ RF ++ RT →
  ls = zlen LS → li = zlen LI → lf = zlen LF → rs = zlen RS → ri = zlen RI → rf = zlen RF →
  m = Z.max lf rf → m <= ft → ri <= li →
  W LI → W LF → W RI → W RF → zlen zs = li + m → ft + li <= U64_MAX →
  0 <= V (LI ++ LF) * BASE ^ (m - lf) - V (RI ++ RF) * BASE ^ (m - rf) →
  ∃ out,
    sub_words lhs rhs (ls, li, lf) (rs, ri, rf) ft (zs ++ t) = Ret (out ++ t)
    ∧ zlen out = li + m ∧ W out
    ∧ V out = V (LI ++ LF) * BASE ^ (m - lf) - V (RI ++ RF) * BASE ^ (m - rf).
Proof.
  intros -> -> -> -> -> -> -> -> -> Hm Hi WLI WLF WRI WRF Hz Hmax Hpos.
  destruct (cut_at_r LI (length RI)) as (i & i2 & -> & L2); [lia|].
  apply Forall_app in WLI as [Wi Wi2].
  destruct (Z.ltb_spec (zlen RF) (zlen LF)).
  - destruct (cut_at LF (length RF)) as (f1 & f2 & -> & L1); [lia|].
    apply Forall_app in WLF as [W1 W2].
    assert (Hv : V ((i ++ i2) ++ f1 ++ f2) * BASE ^ (Z.max (zlen (f1 ++ f2)) (zlen RF) - zlen (f1 ++ f2))
      - V (RI ++ RF) * BASE ^ (Z.max (zlen (f1 ++ f2)) (zlen RF) - zlen RF) =
      (V i * BASE ^ zlen (i2 ++ f1) + V (i2 ++ f1) - V (RI ++ RF) - 0) * BASE ^ zlen f2 + V f2).
    { rewrite Z.max_l, Z.sub_diag by lia.
      replace (zlen (f1 ++ f2) - zlen RF) with (zlen f2) by (rewrite length_app; lia).
      rewrite !wval_app, !length_app, !Nat2Z.inj_add, !Z.pow_add_r by lia. ring. }
    rewrite Hv in *. clear Hv. rewrite !length_app, !Nat2Z.inj_add in *.
    rewrite Z.max_l in * by lia. rewrite <- app_assoc, <- (app_assoc f1).
    pose proof (V_bounds f2 W2).
    destruct (sub_words_long LS i i2 f1 f2 LT RS RI RF RT zs t _ _ ft eq_refl eq_refl)
      as (out & E & Lo & Wo & Vo); auto; try lia.
    { rewrite length_app, Nat2Z.inj_add. pose proof (BASE_pow_pos (zlen f2) ltac:(lia)). nia. }
    exists out. split; [exact E|]. split; [lia|]. split; [done|].
    rewrite Vo, length_app, Nat2Z.inj_add. done.
  - destruct (cut_at RF (length LF)) as (f1 & f2 & -> & L1); [lia|].
    apply Forall_app in WRF as [W1 W2].
    assert (Hv : V ((i ++ i2) ++ LF) * BASE ^ (Z.max (zlen LF) (zlen (f1 ++ f2)) - zlen LF)
      - V (RI ++ f1 ++ f2) * BASE ^ (Z.max (zlen LF) (zlen (f1 ++ f2)) - zlen (f1 ++ f2)) =
      (V i * BASE ^ zlen (i2 ++ LF) + V (i2 ++ LF) - V (RI ++ f1)) * BASE ^ zlen f2 - V f2).
    { rewrite Z.max_r, Z.sub_diag by lia.
      replace (zlen (f1 ++ f2) - zlen LF) with (zlen f2) by (rewrite length_app; lia).
      rewrite !wval_app, !length_app, !Nat2Z.inj_add, !Z.pow_add_r by lia. ring. }
    rewrite Hv in *. clear Hv. rewrite !(length_app i), !(length_app f1), !Nat2Z.inj_add in *.
    rewrite Z.max_r in * by lia. rewrite <- app_assoc, <- (app_assoc f1).
    destruct (sub_words_short LS i i2 LF LT RS RI f1 f2 RT zs t _ _ ft eq_refl eq_refl)
      as (out & E & Lo & Wo & Vo); auto; try lia.
    exists out. split; [exact E|]. split; [lia|]. split; [done|]. exact Vo.
Qed.

(** A cut made by [calc_sub_carry], at a scale of [k] words. *)
Lemma sub_tmp_at d s i f k : wf d → sub_tmp d (s, i, f) → 0 <= k →
  ∃ S I F T, word_buf d = S ++ I ++ F ++ T ∧ s = zlen S ∧ i = zlen I
  ∧ zlen F = Z.min f k ∧ W I ∧ W F ∧ V (I ++ F) * BASE ^ (k - zlen F) = coeff_at d k
  ∧ zlen S + i = int_words d ∧ 0 <= f <= frac_words d.
Proof.
  intros Hd (s' & z & I & F & T & E & -> & -> & -> & WI & WF & _ & Hi & Hf & Hv) Hk.
  destruct (cut_at F (Z.to_nat (Z.min (zlen F) k))) as (F1 & F2 & -> & L1); [lia|].
  apply Forall_app in WF as [W1 W2].
  exists (replicate s' 0), I, F1, (F2 ++ replicate z 0 ++ T).
  rewrite <- app_assoc in E. rewrite length_replicate, length_app, Nat2Z.inj_add in *.
  split_and!; auto; try lia.
  destruct (Z.lt_ge_cases k (zlen F1 + zlen F2)).
  - replace k with (zlen F1) by lia. rewrite Z.sub_diag, Z.mul_1_r. symmetry.
    apply (coeff_at_cut d I F1 (F2 ++ replicate z 0)); auto.
    + rewrite Hv, !app_assoc. symmetry. apply wval_app_zeros.
    + rewrite !length_app, length_replicate. lia.
    + apply Forall_app_2; [done|]. apply words_zeros. lia.
  - destruct F2; [|cbn in *; lia]. cbn [length] in *. rewrite app_nil_r in Hv.
    unfold coeff_at. rewrite Hv. case_Z.
    + rewrite <- Z.mul_assoc, <- Z.pow_add_r by lia. do 2 f_equal. lia.
    + replace (Z.of_nat z) with ((k - zlen F1) + (frac_words d - k)) by lia.
      rewrite Z.pow_add_r, Z.mul_assoc, Z.div_mul by (try apply Z.pow_nonzero; lia). done.
Qed.

(** The words of an ordered subtraction at a scale of [k]. *)
Lemma sub_words_dec l r ls li lf rs ri rf k :
  wf l → wf r → sub_tmp l (ls, li, lf) → sub_tmp r (rs, ri, rf) → ri <= li → 0 <= k →
  li + k <= 9 → coeff_at r k <= coeff_at l k →
  ∃ out,
    sub_words (word_buf l) (word_buf r) (ls, li, Z.min lf k) (rs, ri, Z.min rf k) k (replicate 9 0)
    = Ret (out ++ replicate (Z.to_nat (9 - (li + k))) 0)
    ∧ zlen out = li + k ∧ W out ∧ V out = coeff_at l k - coeff_at r k.
Proof.
  intros Hl Hr Tl Tr Hi Hk Hn Hle.
  destruct (sub_tmp_at l ls li lf k Hl Tl Hk)
    as (LS & LI & LF & LT & EL & ELs & ELi & LLF & WLI & WLF & VL & _ & Bl).
  destruct (sub_tmp_at r rs ri rf k Hr Tr Hk)
    as (RS & RI & RF & RT & ER & ERs & ERi & LRF & WRI & WRF & VR & _ & Br).
  set (m := Z.max (Z.min lf k) (Z.min rf k)).
  replace (replicate 9 0) with
    (replicate (Z.to_nat (li + m)) 0 ++ replicate (Z.to_nat (9 - (li + m))) 0)
    by (rewrite <- replicate_add; f_equal; lia).
  assert (Hs : ∀ X f, f <= m → X * BASE ^ (m - f) * BASE ^ (k - m) = X * BASE ^ (k - f)).
  { intros X f Hf. rewrite <- Z.mul_assoc, <- Z.pow_add_r by lia. do 2 f_equal. lia. }
  pose proof (Hs (V (LI ++ LF)) (Z.min lf k) ltac:(lia)) as Sl.
  pose proof (Hs (V (RI ++ RF)) (Z.min rf k) ltac:(lia)) as Sr.
  rewrite <- LLF in Sl at 2. rewrite <- LRF in Sr at 2. rewrite VL in Sl. rewrite VR in Sr.
  pose proof (BASE_pow_pos (k - m) ltac:(lia)).
  destruct (sub_words_spec LS LI LF LT RS RI RF RT (replicate (Z.to_nat (li + m)) 0)
    (replicate (Z.to_nat (9 - (li + m))) 0) (word_buf l) (word_buf r)
    ls li (Z.min lf k) rs ri (Z.min rf k) k m) as (out & E & Lo & Wo & Vo);
    rewrite ?length_replicate; auto; try (mach; lia); try nia.
  exists (out ++ replicate (Z.to_nat (k - m)) 0). rewrite E. split.
  { rewrite <- app_assoc, <- replicate_add. do 3 f_equal. lia. }
  rewrite length_app, length_replicate. split; [lia|]. split.
  - apply Forall_app_2; [done|]. apply words_zeros. lia.
  - rewrite wval_app_zeros, Vo, Z2Nat.id by lia. lia.
Qed.

(** An ordered subtraction never overflows. *)
Lemma sub_ordered_mag l r ls li lf rs ri rf neg :
  wf l → wf r → sub_tmp l (ls, li, lf) → sub_tmp r (rs, ri, rf) →
  let ft := Z.max (frac_words l) (frac_words r) in
  coeff_at r ft < coeff_at l ft →
  ∃ res, sub_ordered l r (ls, li, lf) (rs, ri, rf) ft neg = Ret res
    ∧ is_overCausetxctx res = false ∧ mag_spec Z.sub l r neg res.
Proof.
  intros Hl Hr Tl Tr ft Hlt. pose proof (words_nonneg l Hl). pose proof (words_nonneg r Hr).
  pose proof (wf_frac l Hl). pose proof (wf_frac r Hr).
  assert (Hi : ri <= li).
  { destruct (Z.le_gt_cases ri li); [done|].
    pose proof (sub_tmp_longer l _ _ _ r _ _ _ ft Hl Hr Tl Tr). lia. }
  assert (Hcnt : word_cnt (frac_cnt l `max` frac_cnt r) = ft) by (apply word_cnt_max; lia).
  destruct (sub_tmp_at l ls li lf ft Hl Tl ltac:(lia))
    as (S & I & F & T & _ & -> & ELi & LF & _ & _ & VL & HS & Bl).
  destruct (sub_tmp_at r rs ri rf ft Hr Tr ltac:(lia))
    as (S' & I' & F' & T' & _ & _ & ERi & _ & _ & _ & _ & _ & Br).
  assert (Hpos : 0 < li + ft).
  { destruct (Z.lt_ge_cases 0 (li + ft)); [done|]. exfalso.
    pose proof (coeff_at_bound r ft Hr ltac:(lia)).
    destruct I, F; cbn in *; lia. }
  unfold sub_ordered. rewrite as_u8_id by lia. change DIGITS_PER_WORD with 9.
  destruct (fix_word_cnt_cases li ft) as [(Hc & ->)|[(Hc & Hc' & ->)|(Hc & _)]];
    [lia|lia|..|lia]; bindr; cbn [is_ok negb res_val res_map fst snd];
    rewrite as_u8_id, u8_ok by lia; bindr.
  - destruct (sub_words_dec l r (zlen S) li lf rs ri rf ft) as (out & E & Lo & Wo & Vo);
      auto; try lia.
    rewrite !Z.min_l in E by lia. cbn [dec_new word_buf]. rewrite E. bindr.
    eexists. split; [reflexivity|]. split; [done|].
    apply (fresh_mag Z.sub l r); auto; lia.
  - rewrite u8_ok by lia. bindr. rewrite (Z.min_l ri) by lia.
    destruct (sub_words_dec l r (zlen S) li lf rs ri rf (9 - li)) as (out & E & Lo & Wo & Vo);
      auto; try lia.
    { apply (coeff_at_mono l r (9 - li) ft); auto; lia. }
    cbn [dec_new word_buf]. rewrite E. bindr.
    eexists. split; [reflexivity|]. split; [done|].
    destruct (fresh_mag Z.sub l r li (9 - li) (Z.min (frac_cnt l `max` frac_cnt r) ((9 - li) * 9))
      neg out) as [Hm Hf]; auto; try lia.
    { rewrite word_cnt_min, Hcnt by lia. lia. }
    split; [done|]. rewrite Hf. lia.
Qed.

(** [do_sub]: zero on equal magnitudes, otherwise the exact difference, signed
    like the operand of greater magnitude. *)
Lemma do_sub_mag l r : wf l → wf r →
  let ft := Z.max (frac_words l) (frac_words r) in
  ∃ res, do_sub l r = Ret res ∧ is_overCausetxctx res = false ∧
  match coeff_at l ft ?= coeff_at r ft with
  | Eq => res = ROk dec_zero
  | Gt => mag_spec Z.sub l r (negative l) res
  | Lt => mag_spec (λ a b, b - a) l r (negb (negative l)) res
  end.
Proof.
  intros Hl Hr ft. unfold do_sub.
  destruct (calc_sub_carry_spec l r Hl Hr)
    as (c & [[ls li] lf] & [[rs ri] rf] & -> & Tl & Tr & ->).
  bindr. fold ft. destruct (Z.compare_spec (coeff_at l ft) (coeff_at r ft)) as [E|E|E].
  - by eexists.
  - cbn [Z.ltb]. change (0 <? 1) with true. cbn iota.
    destruct (sub_ordered_mag r l rs ri rf ls li lf (negb (negative l)) Hr Hl Tr Tl)
      as (res & Es & Ho & Hm); [by rewrite Z.max_comm|].
    rewrite Z.max_comm in Es. exists res. split; [done|]. split; [done|].
    destruct res; cbn in *; [..|done]; unfold mag_at in *; rewrite Z.max_comm; naive_solver.
  - change (0 <? 0) with false. cbn iota.
    destruct (sub_ordered_mag l r ls li lf rs ri rf (negative l) Hl Hr Tl Tr E)
      as (res & Es & Ho & Hm). eauto.
Qed.

(** ** The signed operators *)

(** What an addition promises: the exact sum, unless digits had to go.  [s] is the
    sign put on the right operand, [f] the declared result scale. *)
Definition signed_spec (s : Z) (l r : Decimal) (f : Z) (res : Res Decimal) : Prop :=
  let ft := Z.max (frac_words l) (frac_words r) in
  match res with
  | ROk d => wf d ∧ result_frac_cnt d = f ∧ frac_words d <= ft
             ∧ scaled d ft = scaled l ft + s * scaled r ft
  | RTruncated d =>
      wf d ∧ result_frac_cnt d = f ∧ frac_words d < ft
      ∧ (let k := frac_words d in
         sign d * coeff d = sign l * coeff_at l k + s * (sign r * coeff_at r k))
  | ROverCausetxctx d =>
      word_buf d = replicate 9 999999999 ∧
      (BASE - 1) * BASE ^ 8 <= coeff_at l 0 + coeff_at r 0
  end.

Lemma wf_with_result_frac_cnt d f : wf d → wf (with_result_frac_cnt d f).
Proof. intros [? ? ? ? ? ?]. by split. Qed.

(** From magnitudes to signed values. *)
Lemma signed_of_mag (f : Z → Z → Z) s l r (neg : bool) g res :
  wf l → wf r →
  is_overCausetxctx res = false ∨ (∀ a b : Z, f a b = a + b) →
  (∀ k, 0 <= k → (if neg then -1 else 1) * f (coeff_at l k) (coeff_at r k)
                 = sign l * coeff_at l k + s * (sign r * coeff_at r k)) →
  mag_spec f l r neg res →
  signed_spec s l r g (res_map (fun d => with_result_frac_cnt d g) res).
Proof.
  intros Hl Hr Ho Hf Hm. pose proof (words_nonneg l Hl). pose proof (words_nonneg r Hr).
  destruct res as [d|d|d]; cbn [res_map mag_spec signed_spec] in *.
  - destruct Hm as [(Hd & Hn & Hc) Hk]. split; [by apply wf_with_result_frac_cnt|].
    change (frac_words (with_result_frac_cnt d g)) with (frac_words d).
    split; [done|]. split; [lia|].
    change (scaled (with_result_frac_cnt d g)) with (scaled d).
    rewrite !scaled_eq, <- Hf, <- Hk, coeff_at_self, <- Hc by lia. unfold sign. by rewrite Hn.
  - destruct Hm as [(Hd & Hn & Hc) Hk]. split; [by apply wf_with_result_frac_cnt|].
    change (frac_words (with_result_frac_cnt d g)) with (frac_words d).
    split; [done|]. split; [lia|]. pose proof (words_nonneg d Hd).
    rewrite <- Hf by lia. change (coeff (with_result_frac_cnt d g)) with (coeff d).
    rewrite <- Hc. unfold sign. cbn [negative with_result_frac_cnt]. by rewrite Hn.
  - destruct Hm as [-> Hk]. destruct Ho as [?|Ho]; [done|]. rewrite Ho in Hk. done.
Qed.

(** The subtraction branch, for either sign. *)
Lemma signed_of_sub s l r g : wf l → wf r →
  s * sign r = - sign l →
  ∃ res, do_sub l r = Ret res ∧
    signed_spec s l r g (res_map (fun d => with_result_frac_cnt d g) res).
Proof.
  intros Hl Hr Hs. destruct (do_sub_mag l r Hl Hr) as (res & -> & Ho & Hm).
  exists res. split; [done|].
  assert (Hv : ∀ k, sign l * coeff_at l k + s * (sign r * coeff_at r k)
                    = sign l * (coeff_at l k - coeff_at r k)).
  { intros k. rewrite Z.mul_assoc, Hs. lia. }
  destruct (Z.compare_spec (coeff_at l (Z.max (frac_words l) (frac_words r)))
    (coeff_at r (Z.max (frac_words l) (frac_words r)))) as [E|E|E].
  - subst res. pose proof (words_nonneg l Hl). pose proof (words_nonneg r Hr).
    cbn [res_map signed_spec]. split; [|split; [done|]].
    { apply wf_with_result_frac_cnt, wf_zero. }
    change (frac_words _) with 0 at 1. split; [lia|].
    change (scaled (with_result_frac_cnt _ _)) with (scaled dec_zero).
    assert (Hz : frac_words dec_zero = 0) by done.
    rewrite !scaled_eq, Hv, E, coeff_at_ge by lia. change (coeff dec_zero) with 0. lia.
  - eapply signed_of_mag; [done|done|by left| |exact Hm]. intros k Hk. rewrite Hv. unfold sign. destruct (negative l); cbv beta iota delta [negb]; lia.
  - eapply signed_of_mag; [done|done|by left| |exact Hm]. intros k Hk. rewrite Hv. unfold sign. destruct (negative l); cbv beta iota delta [negb]; lia.
Qed.

(** The addition branch. *)
Lemma signed_of_add s l r g : wf l → wf r → s * sign r = sign l →
  ∃ res, do_add l r = Ret res ∧
    signed_spec s l r g (res_map (fun d => with_result_frac_cnt d g) res).
Proof.
  intros Hl Hr Hs. destruct (do_add_mag l r Hl Hr) as (res & -> & Hm).
  exists res. split; [done|]. eapply signed_of_mag; eauto.
  intros k Hk. rewrite Z.mul_assoc, Hs. unfold sign. destruct (negative l); lia.
Qed.

(** C1. [Add for Decimal] on well-formed operands never panics; an [Ok] result is
    well formed and denotes exactly the sum of the operands, a [Truncated] one the
    sum of the operands cut to the fraction words that fit, and [Overflow] is the
    81 nines, returned only when the integer parts add up to at least
    [999999999 * 10^72]. *)
Theorem dec_add_exact l r : wf l → wf r →
  ∃ res, dec_add l r = Ret res
    ∧ signed_spec 1 l r (Z.max (result_frac_cnt l) (result_frac_cnt r)) res.
Proof.
  intros Hl Hr. unfold dec_add.
  destruct (Bool.eqb_spec (negative l) (negative r)) as [E|E].
  - destruct (signed_of_add 1 l r (Z.max (result_frac_cnt l) (result_frac_cnt r)) Hl Hr)
      as (res & -> & H); [unfold sign; rewrite E; by destruct (negative r)|]. bindr. eauto.
  - destruct (signed_of_sub 1 l r (Z.max (result_frac_cnt l) (result_frac_cnt r)) Hl Hr)
      as (res & -> & H); [unfold sign; by destruct (negative l), (negative r)|]. bindr. eauto.
Qed.

(** [Sub for Decimal] likewise, with the difference. *)
Theorem dec_sub_exact l r : wf l → wf r →
  ∃ res, dec_sub l r = Ret res
    ∧ signed_spec (-1) l r (Z.max (result_frac_cnt l) (result_frac_cnt r)) res.
Proof.
  intros Hl Hr. unfold dec_sub.
  destruct (Bool.eqb_spec (negative l) (negative r)) as [E|E].
  - destruct (signed_of_sub (-1) l r (Z.max (result_frac_cnt l) (result_frac_cnt r)) Hl Hr)
      as (res & -> & H); [unfold sign; rewrite E; by destruct (negative r)|]. bindr. eauto.
  - destruct (signed_of_add (-1) l r (Z.max (result_frac_cnt l) (result_frac_cnt r)) Hl Hr)
      as (res & -> & H); [unfold sign; by destruct (negative l), (negative r)|]. bindr. eauto.
Qed.
End Sub.

Lemma dec_add_exact_witness :
  ∃ res, @dec_add ten_pow_table dec_a dec_b = Ret res ∧ signed_spec 1 dec_a dec_b 4 res.
Proof. exact (@dec_add_exact ten_pow_table dec_a dec_b wf_a wf_b). Defined.

Lemma dec_sub_exact_witness :
  ∃ res, @dec_sub ten_pow_table dec_a dec_b = Ret res ∧ signed_spec (-1) dec_a dec_b 4 res.
Proof. exact (@dec_sub_exact ten_pow_table dec_a dec_b wf_a wf_b). Defined.
