(* ===== verification/DecimalMulDiv.v ===== *)
(** * DecimalMulDiv: [do_mul], [do_div_mod_impl] and the operators over them

    Both functions of [berolinasql/src/decimal.rs] work in word buffers with the
    carries of [add] and [sub2]; the loops are transcribed with their bounds. *)
From Stdlib Require Import ZArith Lia.
From stdpp Require Import base list numbers.
From S2P Require Import Prelude Words EvalCtx DecimalBase.
#[local] Open Scope Z_scope.

Section WithTable.
Context {TP : TenPow}.

(** ** Multiplication *)

(** [for r_idx in (0..r_start).rev()]: one row of the product, [n] being [r_idx + 1]. *)
Fixpoint mul_row (n : nat) (lw : Z) (rhs : list Z) (to : list Z) (idx_to carry : Z)
  : outcome (Z * Z * list Z) :=
  match n with
  | O => Ret (idx_to, carry, to)
  | S n' =>
      idx_to ← usize_dec idx_to;
      rw ← get rhs (Z.of_nat n');
      p ← u64 (lw * rw);
      let hi := p / WORD_BASE in
      let lo := p - hi * WORD_BASE in
      w ← get to idx_to;
      '(carry, w') ← add w (as_u32 lo) carry;
      to ← set to idx_to w';
      carry ← u32 (carry + as_u32 hi);
      mul_row n' lw rhs to idx_to carry
  end.

(** [while carry > 0]: the carry of a row moves up; [None] is the early return with
    an overflow when it reaches the top.  [n] bounds [idx_to]. *)
Fixpoint mul_carry (n : nat) (to : list Z) (idx_to carry : Z) : outcome (option (list Z) * list Z) :=
  if 0 <? carry then
    if idx_to =? 0 then Ret (None, to)
    else
      match n with
      | O => Panic
      | S n' =>
          idx_to ← usize_dec idx_to;
          w ← get to idx_to;
          '(carry, w') ← add w 0 carry;
          to ← set to idx_to w';
          mul_carry n' to idx_to carry
      end
  else Ret (Some to, to).

(** [for l_idx in (0..left_stop).rev()]: [inl] is the overflow return. *)
Fixpoint mul_rows (n : nat) (lhs rhs : list Z) (r_start start_to : Z) (to : list Z)
  : outcome (list Z + list Z) :=
  match n with
  | O => Ret (inr to)
  | S n' =>
      if start_to <? r_start then Ret (inr to)
      else
        let idx_to := start_to in
        start_to ← usize_dec start_to;
        lw ← get lhs (Z.of_nat n');
        '(idx_to, carry, to) ← mul_row (Z.to_nat r_start) lw rhs to idx_to 0;
        '(r, to) ← mul_carry (Z.to_nat idx_to) to idx_to carry;
        match r with
        | None => Ret (inl to)
        | Some to => mul_rows n' lhs rhs r_start start_to to
        end
  end.

(** The -0.000 check: whether the words up to [end_] are all zero.  A word is read
    before the bound is tested. *)
Fixpoint all_zero_upto (fuel : nat) (buf : list Z) (idx end_ : Z) : outcome bool :=
  match fuel with
  | O => Panic
  | S fuel' =>
      w ← get buf idx;
      if w =? 0 then
        if idx + 1 =? end_ then Ret true else all_zero_upto fuel' buf (idx + 1) end_
      else Ret false
  end.

(** Leading zero words are dropped while more than one integer word is left; the
    buffer ends before the fuel. *)
Fixpoint mul_strip (fuel : nat) (buf : list Z) (int idx_to d_to_move : Z)
  : outcome (Z * Z * Z) :=
  match fuel with
  | O => Panic
  | S fuel' =>
      w ← get buf idx_to;
      if (w =? 0) && (DIGITS_PER_WORD <? int) then
        d_to_move ← usize_dec d_to_move;
        mul_strip fuel' buf (int - DIGITS_PER_WORD) (idx_to + 1) d_to_move
      else Ret (int, idx_to, d_to_move)
  end.

(** [for cur_idx in 0..d_to_move { buf[cur_idx] = buf[idx_to]; idx_to += 1; }]. *)
Fixpoint move_words (n : nat) (buf : list Z) (cur_idx idx_to : Z) : outcome (list Z) :=
  match n with
  | O => Ret buf
  | S n' =>
      w ← get buf idx_to;
      buf ← set buf cur_idx w;
      move_words n' buf (cur_idx + 1) (idx_to + 1)
  end.

Definition clamp (z lo hi : Z) : Z := if z <? lo then lo else if hi <? z then hi else z.

(** The word counts the multiplication uses when the product does not fit:
    [(r_int, l_frac, r_frac)]. *)
Definition mul_truncate (int_word_to old_int_word_to old_frac_word_to
    r_int_word_cnt l_frac_word_cnt r_frac_word_cnt : Z) : Z * Z * Z :=
  if int_word_to <? old_int_word_to then
    let old_int_word_to := old_int_word_to - int_word_to in
    let old_frac_word_to := Z.quot old_int_word_to 2 in
    (old_int_word_to - old_frac_word_to, 0, 0)
  else
    let old_frac_word_to := old_frac_word_to - int_word_to in
    let old_int_word_to := Z.quot old_frac_word_to 2 in
    if l_frac_word_cnt <=? r_frac_word_cnt then
      (r_int_word_cnt, l_frac_word_cnt - old_int_word_to,
       r_frac_word_cnt - (old_frac_word_to - old_int_word_to))
    else
      (r_int_word_cnt, l_frac_word_cnt - (old_frac_word_to - old_int_word_to),
       r_frac_word_cnt - old_int_word_to).

(** What follows the product loops: [-0.000] becomes zero and leading words go. *)
Definition mul_finish (dec : Decimal) (res : Res (Z * Z)) (end_ : Z) : outcome (Res Decimal) :=
  dec ← (if negative dec then
           z ← all_zero_upto 10 (word_buf dec) 0 end_;
           Ret (if (z : bool) then dec_zero else dec)
         else Ret dec);
  '(int, idx_to, d_to_move) ←
     mul_strip 10 (word_buf dec) (int_cnt dec) 0 ((res_val res).1 + word_cnt (frac_cnt dec));
  buf ← (if 0 <? idx_to then move_words (Z.to_nat d_to_move) (word_buf dec) 0 idx_to
         else Ret (word_buf dec));
  Ret (res_map (fun _ => with_buf (with_int_cnt dec int) buf) res).

(** [do_mul]. *)
Definition do_mul (lhs rhs : Decimal) : outcome (Res Decimal) :=
  let l_int_word_cnt := word_cnt (int_cnt lhs) in
  let l_frac_word_cnt := word_cnt (frac_cnt lhs) in
  let r_int_word_cnt := word_cnt (int_cnt rhs) in
  let r_frac_word_cnt := word_cnt (frac_cnt rhs) in
  ints ← u8 (int_cnt lhs + int_cnt rhs);
  let old_int_word_to := word_cnt ints in
  let old_frac_word_to := l_frac_word_cnt + r_frac_word_cnt in
  res ← fix_word_cnt_err (as_u8 old_int_word_to) (as_u8 old_frac_word_to) WORD_BUF_LEN;
  let '(int_word_to, frac_word_to) := res_val res in
  let neg := negb (Bool.eqb (negative lhs) (negative rhs)) in
  fracs ← u8 (frac_cnt lhs + frac_cnt rhs);
  let frac := Z.min fracs NOT_FIXED_DEC in
  int ← u8 (as_u8 int_word_to * DIGITS_PER_WORD);
  rfracs ← u8 (result_frac_cnt lhs + result_frac_cnt rhs);
  let dec := with_result_frac_cnt (dec_new int frac neg) (Z.min rfracs MAX_FRACTION) in
  if is_overCausetxctx res then Ret (ROverCausetxctx dec)
  else
    '(dec, r_int_word_cnt, l_frac_word_cnt, r_frac_word_cnt) ←
      (if negb (is_ok res) then
         f ← u8 (as_u8 frac_word_to * DIGITS_PER_WORD);
         let '(r_int, l_frac, r_frac) :=
           mul_truncate int_word_to old_int_word_to old_frac_word_to
             r_int_word_cnt l_frac_word_cnt r_frac_word_cnt in
         Ret (with_frac_cnt dec (Z.min (frac_cnt dec) f), r_int, l_frac, r_frac)
       else Ret (dec, r_int_word_cnt, l_frac_word_cnt, r_frac_word_cnt));
    let start_to := int_word_to + frac_word_to in
    let r_start := clamp (r_int_word_cnt + r_frac_word_cnt) 0 WORD_BUF_LEN in
    let left_stop := clamp (l_int_word_cnt + l_frac_word_cnt) 0 WORD_BUF_LEN in
    rows ← mul_rows (Z.to_nat left_stop) (word_buf lhs) (word_buf rhs) r_start start_to
             (word_buf dec);
    match rows with
    | inl buf => Ret (ROverCausetxctx (with_buf dec buf))
    | inr buf => mul_finish (with_buf dec buf) res (int_word_to + frac_word_to)
    end.

(** ** Division *)

(** [for (r_idx, l_idx) in (r_start..r_stop).rev().zip((0..=l_idx + r_len).rev())]:
    [buf -= guess * rhs]. *)
Fixpoint div_sub_loop (n : nat) (guess : Z) (rhs : list Z) (r_idx : Z) (buf : list Z)
    (l_idx carry : Z) : outcome (Z * list Z) :=
  match n with
  | O => Ret (carry, buf)
  | S n' =>
      r ← get rhs r_idx;
      x ← i64 (guess * r);
      let hi := Z.quot x WORD_BASE in
      let lo := x - hi * WORD_BASE in
      w ← get buf l_idx;
      '(carry, w') ← sub2 w (as_u32 lo) carry;
      buf ← set buf l_idx w';
      carry ← i32 (carry + as_i32 hi);
      div_sub_loop n' guess rhs (r_idx - 1) buf (l_idx - 1) carry
  end.

(** The correction: [buf += rhs]. *)
Fixpoint div_add_loop (n : nat) (rhs : list Z) (r_idx : Z) (buf : list Z) (l_idx carry : Z)
  : outcome (list Z) :=
  match n with
  | O => Ret buf
  | S n' =>
      r ← get rhs r_idx;
      w ← get buf l_idx;
      '(carry, w') ← add w r carry;
      buf ← set buf l_idx w';
      div_add_loop n' rhs (r_idx - 1) buf (l_idx - 1) carry
  end.

(** The guess is one too great when the next divisor word says so. *)
Definition div_adjust (r0 r1 x y guess : Z) : outcome Z :=
  a ← i64 (r1 * guess);
  g ← i64 (guess * r0);
  d ← i64 (x - g);
  m ← i64 (d * WORD_BASE);
  b ← i64 (m + y);
  Ret (if b <? a then guess - 1 else guess).

(** One quotient word: the guess and the buffer with its multiple taken off. *)
Definition div_step (norm_factor r_norm : Z) (rhs : list Z) (r_start r_stop r_len : Z)
    (buf : list Z) (l_idx dcarry : Z) : outcome (Z * list Z) :=
  b0 ← get buf l_idx;
  r0 ← get rhs r_start;
  if (dcarry =? 0) && (b0 <? r0) then Ret (0, buf)
  else
    x ← i64 (b0 + dcarry * WORD_BASE);
    y ← get buf (l_idx + 1);
    nx ← i64 (norm_factor * x);
    ny ← i64 (norm_factor * y);
    n ← i64 (nx + Z.quot ny WORD_BASE);
    let guess := Z.quot n r_norm in
    let guess := if WORD_BASE <=? guess then WORD_BASE - 1 else guess in
    guess ← (if 0 <? r_len then
               r1 ← get rhs (r_start + 1);
               guess ← div_adjust r0 r1 x y guess;
               div_adjust r0 r1 x y guess
             else Ret guess);
    let n := Z.to_nat (Z.min (r_stop - r_start) (l_idx + r_len + 1)) in
    '(carry, buf) ← div_sub_loop n guess rhs (r_stop - 1) buf (l_idx + r_len) 0;
    if dcarry <? carry then
      buf ← div_add_loop n rhs (r_stop - 1) buf (l_idx + r_len) 0;
      Ret (guess - 1, buf)
    else Ret (guess, buf).

(** [for idx_to in idx_to..int_word_to + frac_word_to]. *)
Fixpoint div_loop (n : nat) (do_mod : bool) (norm_factor r_norm : Z) (rhs : list Z)
    (r_start r_stop r_len : Z) (buf : list Z) (l_idx dcarry : Z) (to : list Z) (idx_to : Z)
  : outcome (list Z * Z * Z * list Z) :=
  match n with
  | O => Ret (buf, l_idx, dcarry, to)
  | S n' =>
      '(guess, buf) ← div_step norm_factor r_norm rhs r_start r_stop r_len buf l_idx dcarry;
      to ← (if do_mod then Ret to else set to idx_to (as_u32 guess));
      b ← get buf l_idx;
      div_loop n' do_mod norm_factor r_norm rhs r_start r_stop r_len buf (l_idx + 1)
        (as_i32 b) to (idx_to + 1)
  end.

(** [while rhs.word_buf[r_stop] == 0 && r_stop >= r_start { r_stop -= 1; }]. *)
Fixpoint div_r_stop (fuel : nat) (rhs : list Z) (r_start r_stop : Z) : outcome Z :=
  match fuel with
  | O => Panic
  | S fuel' =>
      w ← get rhs r_stop;
      if (w =? 0) && (r_start <=? r_stop) then
        r_stop ← usize_dec r_stop;
        div_r_stop fuel' rhs r_start r_stop
      else Ret r_stop
  end.

(** The remainder: what is left in [buf] is brought into [res]. *)
Definition mod_finish (res rhs : Decimal) (buf : list Z) (l_prec l_frac_cnt l_idx dcarry : Z)
  : outcome (Res Decimal) :=
  '(l_idx, buf) ← (if negb (dcarry =? 0) then
                     l_idx ← usize_dec l_idx;
                     buf ← set buf l_idx (as_u32 dcarry);
                     Ret (l_idx, buf)
                   else Ret (l_idx, buf));
  int_cnt_to ← i32 (l_prec - l_frac_cnt - as_i32 l_idx * DIGITS_PER_WORD);
  let int_word_to := if int_cnt_to <? 0 then as_i8 (Z.quot int_cnt_to DIGITS_PER_WORD)
                     else word_cnt_i8 int_cnt_to in
  let frac_word_to := word_cnt (frac_cnt res) in
  if (int_word_to =? 0) && (frac_word_to =? 0) then Ret (ROk dec_zero)
  else if (int_word_to <=? 0) && (WORD_BUF_LEN <=? as_u8 (- int_word_to)) then
    Ret (RTruncated dec_zero)
  else if negb (int_word_to <=? 0) && (WORD_BUF_LEN <? as_u8 int_word_to) then
    n ← u8 (DIGITS_PER_WORD * WORD_BUF_LEN);
    Ret (ROverCausetxctx (with_frac_cnt (with_int_cnt res n) 0))
  else
    '(res, idx_to, l_stop, int_word_to, frac_word_to) ←
      (if int_word_to <=? 0 then
         s ← i8 (as_i8 l_idx + int_word_to);
         s ← i8 (s + as_i8 frac_word_to);
         f ← i8 (as_i8 frac_word_to + int_word_to);
         '(to, idx_to) ← fill (Z.to_nat (- int_word_to)) 0 (word_buf res) 0;
         Ret (with_buf (with_int_cnt res 0) to, idx_to, as_u8 s, 0, as_u8 f)
       else
         s ← u8 (as_u8 l_idx + as_u8 int_word_to);
         s ← u8 (s + frac_word_to);
         n ← u8 (as_u8 int_word_to * DIGITS_PER_WORD);
         Ret (with_int_cnt res (Z.min n (int_cnt rhs)), 0, s, int_word_to, frac_word_to));
    total ← u8 (as_u8 int_word_to + frac_word_to);
    '(res, l_stop) ←
      (if WORD_BUF_LEN <? total then
         l_stop ← u8 (l_stop - (total - WORD_BUF_LEN));
         frac_word_to ← u8 (WORD_BUF_LEN - as_u8 int_word_to);
         f ← u8 (frac_word_to - as_u8 int_word_to);
         Ret (RTruncated (with_frac_cnt res f), l_stop)
       else Ret (ROk res, l_stop));
    if (l_stop <? l_idx) || (Z.of_nat (length buf) <? l_stop) then Panic
    else
      let src := take (Z.to_nat (l_stop - l_idx)) (drop (Z.to_nat l_idx) buf) in
      let d := res_val res in
      if Z.of_nat (length (word_buf d)) <? idx_to + Z.of_nat (length src) then Panic
      else
        let to := take (Z.to_nat idx_to) (word_buf d) ++ src
                  ++ drop (Z.to_nat idx_to + length src) (word_buf d) in
        Ret (res_map (fun d => with_buf d to) res).

(** [saturating_add] and [saturating_mul] on [u8]. *)
Definition sat_u8 (z : Z) : Z := Z.min z U8_MAX.

(** [do_div_mod_impl]: [None] is division by zero. *)
Definition do_div_mod_impl (lhs rhs : Decimal) (frac_incr : Z) (do_mod : bool)
  : outcome (option (Res Decimal)) :=
  r_frac_cnt ← u8 (word_cnt (frac_cnt rhs) * DIGITS_PER_WORD);
  rp ← u8 (int_cnt rhs + r_frac_cnt);
  '(r_idx, r_prec) ← remove_leading_zeroes rhs rp;
  if r_prec =? 0 then Ret None
  else
    l_frac_cnt ← u8 (word_cnt (frac_cnt lhs) * DIGITS_PER_WORD);
    lp ← u8 (int_cnt lhs + l_frac_cnt);
    '(l_idx, l_prec) ← remove_leading_zeroes lhs lp;
    if l_prec =? 0 then Ret (Some (ROk dec_zero))
    else
      d1 ← u8 (l_frac_cnt - frac_cnt lhs);
      d2 ← u8 (d1 + r_frac_cnt);
      d3 ← u8 (d2 - frac_cnt rhs);
      let frac_incr := Z.max 0 (frac_incr - d3) in
      let int_cnt_to := (l_prec - l_frac_cnt) - (r_prec - r_frac_cnt) in
      lw ← get (word_buf lhs) l_idx;
      rw ← get (word_buf rhs) r_idx;
      let int_cnt_to := if rw <=? lw then int_cnt_to + 1 else int_cnt_to in
      let '(int_cnt_to, int_word_to) :=
        if int_cnt_to <? 0 then (Z.quot int_cnt_to DIGITS_PER_WORD, 0)
        else (int_cnt_to, word_cnt int_cnt_to) in
      '(res, int_word_to, frac_word_to) ←
        (if do_mod then
           Ret (ROk (dec_new 0 (Z.max (frac_cnt lhs) (frac_cnt rhs)) (negative lhs)),
                int_word_to, 0)
         else
           let frac_word_to := word_cnt (sat_u8 (sat_u8 (l_frac_cnt + r_frac_cnt) + frac_incr)) in
           res ← fix_word_cnt_err int_word_to frac_word_to WORD_BUF_LEN;
           let '(int_word_to, frac_word_to) := res_val res in
           i ← u8 (int_word_to * DIGITS_PER_WORD);
           f ← u8 (frac_word_to * DIGITS_PER_WORD);
           Ret (res_map (fun _ => dec_new i f (negb (Bool.eqb (negative lhs) (negative rhs)))) res,
                int_word_to, frac_word_to));
      let idx_to := if negb do_mod && (int_cnt_to <? 0)
                    then Z.min (as_u8 (- int_cnt_to)) WORD_BUF_LEN else 0 in
      let i := word_cnt_usize l_prec in
      let l_len := Z.max 3 (i + word_cnt (sat_u8 (sat_u8 (sat_u8 (r_frac_cnt * 2) + frac_incr) + 1))
                            + 1) in
      if (Z.of_nat (length (word_buf lhs)) <? l_idx + i) || (l_len <? i) then Panic
      else
        let buf := take (Z.to_nat i) (drop (Z.to_nat l_idx) (word_buf lhs))
                   ++ replicate (Z.to_nat (l_len - i)) 0 in
        let r_start := r_idx in
        r_stop ← usize (r_idx + word_cnt_usize r_prec - 1);
        r_stop ← div_r_stop 11 (word_buf rhs) r_start r_stop;
        r_len ← usize (r_stop - r_start);
        let r_stop := r_stop + 1 in
        r0 ← get (word_buf rhs) r_start;
        let norm_factor := WORD_BASE / (r0 + 1) in
        r_norm ← (if 0 <? r_len then
                    r1 ← get (word_buf rhs) (r_start + 1);
                    Ret (norm_factor * r0 + Z.quot (norm_factor * r1) WORD_BASE)
                  else Ret (norm_factor * r0));
        b0 ← get buf 0;
        let '(dcarry, l_idx) := if b0 <? r0 then (as_i32 b0, 1) else (0, 0) in
        stop ← u8 (int_word_to + frac_word_to);
        '(buf, l_idx, dcarry, to) ←
          div_loop (Z.to_nat (stop - idx_to)) do_mod norm_factor r_norm (word_buf rhs)
            r_start r_stop r_len buf l_idx dcarry (word_buf (res_val res)) idx_to;
        if do_mod then
          r ← mod_finish (res_val res) rhs buf l_prec l_frac_cnt l_idx dcarry;
          Ret (Some r)
        else Ret (Some (res_map (fun d => with_buf d to) res)).

(** [do_div_mod], [Decimal::div] and the operators. *)
Definition do_div_mod (lhs rhs : Decimal) (frac_incr : Z) (do_mod : bool)
  : outcome (option (Res Decimal)) := do_div_mod_impl lhs rhs frac_incr do_mod.

Definition dec_mul (l r : Decimal) : outcome (Res Decimal) := do_mul l r.

Definition dec_div (l r : Decimal) (frac_incr : Z) : outcome (option (Res Decimal)) :=
  let result_frac_cnt := Z.min (sat_u8 (result_frac_cnt l + frac_incr)) MAX_FRACTION in
  res ← do_div_mod l r frac_incr false;
  Ret (option_map (res_map (fun d => with_result_frac_cnt d result_frac_cnt)) res).

Definition dec_div_op (l r : Decimal) : outcome (option (Res Decimal)) :=
  dec_div l r DEFAULT_DIV_FRAC_INCR.

Definition dec_rem (l r : Decimal) : outcome (option (Res Decimal)) :=
  let result_frac_cnt := Z.max (result_frac_cnt l) (result_frac_cnt r) in
  res ← do_div_mod_impl l r 0 true;
  Ret (option_map (res_map (fun d => with_result_frac_cnt d result_frac_cnt)) res).

End WithTable.
