(* ===== verification/DecimalRound.v ===== *)
(** * DecimalRound: rounding and shifting decimals

    [round], [ceil], [floor], [convert_to], [digit_bounds], the mini shifts and
    [shift] of [berolinasql/src/decimal.rs], with their i8 arithmetic. *)
From Stdlib Require Import ZArith Lia.
From stdpp Require Import base list numbers.
From S2P Require Import Prelude Words EvalCtx DecimalBase DecimalAddSub.
#[local] Open Scope Z_scope.

(** [for i in a..b { buf[i] = 0; }], [n] being [b - a]. *)
Fixpoint zero_range (n : nat) (buf : list Z) (i : Z) : outcome (list Z) :=
  match n with
  | O => Ret buf
  | S n' => buf ← set buf i 0; zero_range n' buf (i + 1)
  end.

(** Number of steps of [a..b]. *)
Definition span (a b : Z) : nat := Z.to_nat (b - a).

Section WithTable.
Context {TP : TenPow}.

(** ** Rounding *)

(** [while carry == 1 && to_idx > 0]: the carry of an increment moves up. *)
Fixpoint carry_loop (to_idx : nat) (buf : list Z) (carry : Z) : outcome (nat * Z * list Z) :=
  match to_idx with
  | O => Ret (O, carry, buf)
  | S to_idx' =>
      if carry =? 1 then
        w ← get buf (Z.of_nat to_idx');
        '(carry, w') ← add w 0 carry;
        buf ← set buf (Z.of_nat to_idx') w';
        carry_loop to_idx' buf carry
      else Ret (to_idx, carry, buf)
  end.

(** [for i in (0..n).rev()]: the words move one up; the flag is the overflow mark. *)
Fixpoint push_words (n : nat) (word_buf_len : Z) (buf : list Z) (over : bool)
  : outcome (list Z * bool) :=
  match n with
  | O => Ret (buf, over)
  | S n' =>
      let i := Z.of_nat n' in
      if i + 1 <? word_buf_len then
        w ← get buf i;
        buf ← set buf (i + 1) w;
        push_words n' word_buf_len buf over
      else push_words n' word_buf_len buf true
  end.

Definition mark_over {A} (b : bool) (r : Res A) : Res A :=
  if b then ROverCausetxctx (res_val r) else r.

(** [while dec.word_buf[to_idx] == 0]: [None] when the whole number is zero. *)
Fixpoint find_nonzero (to_idx : nat) (buf : list Z) : outcome (option nat) :=
  w ← get buf (Z.of_nat to_idx);
  if w =? 0 then match to_idx with O => Ret None | S to_idx' => find_nonzero to_idx' buf end
  else Ret (Some to_idx).

(** The end of [handle_carry]: the counts of the result. *)
Definition carry_finish (dec : Res Decimal) (to_idx : nat) (frac : Z) : outcome (Res Decimal) :=
  let d := res_val dec in
  let first_dig := int_cnt d mod DIGITS_PER_WORD in
  int ← (if 0 <? first_dig then
           w ← get (word_buf d) (Z.of_nat to_idx);
           t ← get TEN_POW first_dig;
           if t <=? w then u8 (int_cnt d + 1) else Ret (int_cnt d)
         else Ret (int_cnt d));
  Ret (res_map (fun d => with_frac_cnt (with_int_cnt d int) (as_u8 (Z.max 0 frac))) dec).

(** [if carry > 0]: a word is put in front, the last one dropped when the buffer is
    full, and the integer part gains a digit unless it is full already. *)
Definition carry_out (dec : Res Decimal) (frac frac_word_to int_word_cnt word_buf_len : Z)
  : outcome (Res Decimal) :=
  s ← i8 (as_i8 int_word_cnt + frac_word_to);
  '(dec, frac, frac_word_to) ←
    (if as_i8 word_buf_len <=? s then
       frac_word_to ← i8 (frac_word_to - 1);
       frac ← i8 (frac_word_to * DIGITS_PER_WORD);
       Ret (RTruncated (res_val dec), frac, frac_word_to)
     else Ret (dec, frac, frac_word_to));
  '(buf, over) ← push_words (Z.to_nat (int_word_cnt + Z.max frac_word_to 0)) word_buf_len
                   (word_buf (res_val dec)) false;
  buf ← set buf 0 1;
  let dec := mark_over over (res_map (fun d => with_buf d buf) dec) in
  lim ← u8 (DIGITS_PER_WORD * word_buf_len);
  if int_cnt (res_val dec) <? lim then
    int ← u8 (int_cnt (res_val dec) + 1);
    carry_finish (res_map (fun d => with_int_cnt d int) dec) 0%nat frac
  else carry_finish (ROverCausetxctx (res_val dec)) 0%nat frac.

(** [handle_carry] *)
Definition handle_carry (dec : Res Decimal) (to_idx : nat) (frac frac_word_to int_word_cnt
    word_buf_len : Z) : outcome (Res Decimal) :=
  let d := res_val dec in
  w ← get (word_buf d) (Z.of_nat to_idx);
  if WORD_BASE <=? w then
    buf ← set (word_buf d) (Z.of_nat to_idx) (w - WORD_BASE);
    '(to_idx, carry, buf) ← carry_loop to_idx buf 1;
    let dec := res_map (fun d => with_buf d buf) dec in
    if 0 <? carry then carry_out dec frac frac_word_to int_word_cnt word_buf_len
    else carry_finish dec to_idx frac
  else
    nz ← find_nonzero to_idx (word_buf d);
    match nz with
    | Some to_idx => carry_finish dec to_idx frac
    | None =>
        idx ← i8 (frac_word_to + 1);
        buf ← zero_range (Z.to_nat idx) (word_buf d) 0;
        Ret (ROk (with_negative (with_buf (with_frac_cnt (with_int_cnt d 1)
                   (as_u8 (Z.max 0 frac))) buf) false))
    end.

(** The increment test of [handle_incr] at a word boundary. *)
Definition round_do_inc (buf : list Z) (to_idx frac_word_cnt frac_words_to : Z)
    (round_mode : RoundMode) : outcome bool :=
  match round_mode with
  | Ceiling =>
      a ← i8 (to_idx + as_i8 frac_word_cnt);
      idx ← i8 (a - frac_words_to);
      if to_idx <? idx then
        if (to_idx + 1 <? 0) || (Z.of_nat (length buf) <=? idx) then Panic
        else Ret (existsb (fun c => negb (c =? 0))
                    (take (Z.to_nat (idx - to_idx)) (drop (Z.to_nat (to_idx + 1)) buf)))
      else Ret false
  | HalfEven =>
      w ← get buf (to_idx + 1);
      Ret (5 <=? w / DIG_MASK)
  | Truncate => Ret false
  end.

(** The word at [to_idx] rounded at its digit of weight [10^pos]. *)
Definition round_word (w pos : Z) (round_mode : RoundMode) : outcome Z :=
  t ← get TEN_POW pos;
  let shifted_number := w / t in
  let dig_after_scale := shifted_number mod 10 in
  let round_digit := match round_mode with Ceiling => 0 | HalfEven => 5 | Truncate => 10 end in
  shifted_number ←
    (if (round_digit <? dig_after_scale) || ((round_digit =? 5) && (dig_after_scale =? 5))
     then u32 (shifted_number + 10) else Ret shifted_number);
  u32 (t * (shifted_number - dig_after_scale)).

(** The word at the last kept digit is incremented or rounded; [None] is the early
    return of zero.  [s] is [int_word_cnt + frac_words_to]. *)
Definition incr_step (buf : list Z) (s to_idx frac_words_to frac frac_word_cnt : Z)
    (round_mode : RoundMode) : outcome (option (list Z * Z)) :=
  fd ← i8 (frac_words_to * DIGITS_PER_WORD);
  if frac =? fd then
    do_inc ← round_do_inc buf to_idx frac_word_cnt frac_words_to round_mode;
    if (do_inc : bool) then
      if 0 <=? to_idx then
        w ← get buf to_idx;
        w ← u32 (w + 1);
        buf ← set buf to_idx w;
        Ret (Some (buf, to_idx))
      else
        buf ← set buf (to_idx + 1) WORD_BASE;
        Ret (Some (buf, to_idx + 1))
    else if s =? 0 then Ret None
    else Ret (Some (buf, to_idx))
  else
    a ← i8 (fd - frac);
    pos ← i8 (a - 1);
    w ← get buf (as_u64 to_idx);
    w ← round_word w (as_u64 pos) round_mode;
    buf ← set buf to_idx w;
    Ret (Some (buf, to_idx)).

(** [handle_incr] *)
Definition handle_incr (res : Res Decimal) (int_word_cnt frac_words_to frac frac_word_cnt
    word_buf_len : Z) (round_mode : RoundMode) : outcome (Res Decimal) :=
  let d := res_val res in
  s ← i8 (as_i8 int_word_cnt + frac_words_to);
  to_idx ← i8 (s - 1);
  step ← incr_step (word_buf d) s to_idx frac_words_to frac frac_word_cnt round_mode;
  match step with
  | None => Ret (ROk dec_zero)
  | Some (buf, to_idx) =>
      buf ← (if frac_words_to <? as_i8 frac_word_cnt then
               let idx := if (frac =? 0) && (int_word_cnt =? 0) then 1 else as_u64 s in
               zero_range (span idx word_buf_len) buf idx
             else Ret buf);
      if to_idx <? 0 then Panic
      else handle_carry (res_map (fun d => with_buf d buf) res) (Z.to_nat to_idx) frac
             frac_words_to int_word_cnt word_buf_len
  end.

(** The second half of [round_with_word_buf_len]: zero words are appended, the digits are
    kept, or the number is cut. *)
Definition round_body (res : Res Decimal) (int_word_cnt frac_word_cnt frac_words_to frac
    word_buf_len : Z) (round_mode : RoundMode) : outcome (Res Decimal) :=
  int ← u8 (Z.min int_word_cnt word_buf_len * DIGITS_PER_WORD);
  let res := res_map (fun d => with_int_cnt d int) res in
  if as_i8 frac_word_cnt <? frac_words_to then
    let a := int_word_cnt + frac_word_cnt in
    buf ← zero_range (span a (int_word_cnt + as_u8 frac_words_to)) (word_buf (res_val res)) a;
    Ret (res_map (fun d => with_frac_cnt (with_buf d buf) (as_u8 frac)) res)
  else if as_i8 (frac_cnt (res_val res)) <=? frac then
    Ret (res_map (fun d => with_frac_cnt d (as_u8 frac)) res)
  else handle_incr res int_word_cnt frac_words_to frac frac_word_cnt word_buf_len round_mode.

(** [round_with_word_buf_len] *)
Definition round_with_word_buf_len (d : Decimal) (frac word_buf_len : Z) (round_mode : RoundMode)
  : outcome (Res Decimal) :=
  let frac := if MAX_FRACTION <? frac then MAX_FRACTION else frac in
  let frac_words_to := if 0 <? frac then word_cnt_i8 frac else Z.quot (frac + 1) DIGITS_PER_WORD in
  let int_word_cnt := word_cnt (int_cnt d) in
  let frac_word_cnt := word_cnt (frac_cnt d) in
  s ← i8 (as_i8 int_word_cnt + frac_words_to);
  if as_i8 word_buf_len <? s then
    frac_words_to ← i8 (as_i8 word_buf_len - as_i8 int_word_cnt);
    frac ← i8 (frac_words_to * DIGITS_PER_WORD);
    round_body (RTruncated d) int_word_cnt frac_word_cnt frac_words_to frac word_buf_len round_mode
  else
    t ← i8 (as_i8 (int_cnt d) + frac);
    if t <? 0 then Ret (ROk dec_zero)
    else round_body (ROk d) int_word_cnt frac_word_cnt frac_words_to frac word_buf_len round_mode.

(** [round] *)
Definition round (d : Decimal) (frac : Z) (round_mode : RoundMode) : outcome (Res Decimal) :=
  round_with_word_buf_len d frac WORD_BUF_LEN round_mode.

Definition ceil (d : Decimal) : outcome (Res Decimal) :=
  if negb (negative d) then round d 0 Ceiling else round d 0 Truncate.

Definition floor (d : Decimal) : outcome (Res Decimal) :=
  if negb (negative d) then round d 0 Truncate else round d 0 Ceiling.

(** [convert_to] *)
Definition convert_to (d : Decimal) (flen decimal : Z) (ctx : EvalContext)
  : outcome (result Decimal * EvalContext) :=
  '(prec, frac) ← prec_and_frac d;
  if flen <? decimal then Ret (Err m_bigger_than_d, ctx)
  else
    z ← is_zero d;
    big ← (if negb z then
             a ← u8 (prec - frac);
             b ← u8 (flen - decimal);
             Ret (b <? a)
           else Ret false);
    if (big : bool) then
      m ← max_or_min_dec (negative d) flen decimal;
      Ret (Ok m, ctx)
    else if frac =? decimal then Ret (Ok d, ctx)
    else
      r ← round d (as_i8 decimal) HalfEven;
      let ret := res_val r in
      z ← is_zero ret;
      e ← dec_eq ret d;
      if negb z && (decimal <? frac) && negb e then
        match handle_truncate ctx true with
        | (Err e, ctx) => Ret (Err e, ctx)
        | (Ok _, ctx) => Ret (Ok ret, ctx)
        end
      else Ret (Ok ret, ctx).

(** ** Shifting *)

(** [while buf_beg < buf_len && word_buf[buf_beg] == 0]. *)
Definition first_nonzero (d : Decimal) (buf_len : Z) : outcome Z :=
  skip_zeros (Z.to_nat buf_len) (word_buf d) 0.

(** [while buf_end > buf_beg && word_buf[buf_end] == 0]. *)
Definition last_nonzero (d : Decimal) (buf_beg buf_end : Z) : outcome Z :=
  trim_zeros (span buf_beg buf_end) (word_buf d) buf_end.

(** [digit_bounds] *)
Definition digit_bounds (d : Decimal) : outcome (Z * Z) :=
  buf_len ← u8 (word_cnt (int_cnt d) + word_cnt (frac_cnt d));
  buf_end ← usize (buf_len - 1);
  buf_beg ← first_nonzero d buf_len;
  if buf_len <=? buf_beg then Ret (0, 0)
  else
    '(i, start) ←
      (if (buf_beg =? 0) && (0 <? int_cnt d) then
         let i := (int_cnt d - 1) mod DIGITS_PER_WORD in
         Ret (i, DIGITS_PER_WORD - i - 1)
       else
         s ← u8 (as_u8 buf_beg * DIGITS_PER_WORD);
         Ret (DIGITS_PER_WORD - 1, s));
    w ← get (word_buf d) buf_beg;
    c ← count_leading_zeroes i w;
    start ← u8 (start + c);
    buf_end ← last_nonzero d buf_beg buf_end;
    '(i, end_) ←
      (if (buf_end =? buf_len - 1) && (0 <? frac_cnt d) then
         let i := (frac_cnt d - 1) mod DIGITS_PER_WORD + 1 in
         e ← u8 (as_u8 buf_end * DIGITS_PER_WORD + i);
         Ret (DIGITS_PER_WORD - i + 1, e)
       else
         e ← u8 ((as_u8 buf_end + 1) * DIGITS_PER_WORD);
         Ret (1, e));
    w ← get (word_buf d) buf_end;
    c ← count_trailing_zeroes i w;
    end_ ← u8 (end_ - c);
    Ret (start, end_).

(** [while buf_from < buf_end] of [do_mini_left_shift]. *)
Fixpoint left_shift_loop (n : nat) (ts tc : Z) (buf : list Z) (buf_from : Z)
  : outcome (list Z * Z) :=
  match n with
  | O => Ret (buf, buf_from)
  | S n' =>
      a ← get buf buf_from;
      b ← get buf (buf_from + 1);
      w ← u32 (a mod tc * ts + b / tc);
      buf ← set buf buf_from w;
      left_shift_loop n' ts tc buf (buf_from + 1)
  end.

(** [do_mini_left_shift] *)
Definition do_mini_left_shift (d : Decimal) (shift beg end_ : Z) : outcome Decimal :=
  let buf_from := beg / DIGITS_PER_WORD in
  e ← u8 (end_ - 1);
  let buf_end := e / DIGITS_PER_WORD in
  c_shift ← usize (DIGITS_PER_WORD - shift);
  tc ← get TEN_POW c_shift;
  ts ← get TEN_POW shift;
  buf ← (if beg mod DIGITS_PER_WORD <? shift then
           w ← get (word_buf d) buf_from;
           set (word_buf d) (buf_from - 1) (w / tc)
         else Ret (word_buf d));
  '(buf, buf_from) ← left_shift_loop (span buf_from buf_end) ts tc buf buf_from;
  a ← get buf buf_from;
  w ← u32 (a mod tc * ts);
  buf ← set buf buf_from w;
  Ret (with_buf d buf).

(** [while buf_from > buf_end] of [do_mini_right_shift]. *)
Fixpoint right_shift_loop (n : nat) (ts tc : Z) (buf : list Z) (buf_from : Z)
  : outcome (list Z * Z) :=
  match n with
  | O => Ret (buf, buf_from)
  | S n' =>
      a ← get buf buf_from;
      b ← get buf (buf_from - 1);
      w ← u32 (a / ts + b mod ts * tc);
      buf ← set buf buf_from w;
      right_shift_loop n' ts tc buf (buf_from - 1)
  end.

(** [do_mini_right_shift] *)
Definition do_mini_right_shift (d : Decimal) (shift beg end_ : Z) : outcome Decimal :=
  e ← u8 (end_ - 1);
  let buf_from := e / DIGITS_PER_WORD in
  let buf_end := beg / DIGITS_PER_WORD in
  c_shift ← usize (DIGITS_PER_WORD - shift);
  tc ← get TEN_POW c_shift;
  ts ← get TEN_POW shift;
  buf ← (if DIGITS_PER_WORD - (e mod DIGITS_PER_WORD + 1) <? shift then
           w ← get (word_buf d) buf_from;
           set (word_buf d) (buf_from + 1) (w mod ts * tc)
         else Ret (word_buf d));
  '(buf, buf_from) ← right_shift_loop (span buf_end buf_from) ts tc buf buf_from;
  a ← get buf buf_from;
  buf ← set buf buf_from (a / ts);
  Ret (with_buf d buf).

(** [for i in to..=barier { buf[i] = buf[i + word_shift]; }] *)
Fixpoint move_down (n : nat) (buf : list Z) (i word_shift : Z) : outcome (list Z) :=
  match n with
  | O => Ret buf
  | S n' =>
      w ← get buf (i + word_shift);
      buf ← set buf i w;
      move_down n' buf (i + 1) word_shift
  end.

(** [for i in (barier..=to).rev() { buf[i] = buf[i - word_shift]; }] *)
Fixpoint move_up (n : nat) (buf : list Z) (i word_shift : Z) : outcome (list Z) :=
  match n with
  | O => Ret buf
  | S n' =>
      w ← get buf (i - word_shift);
      buf ← set buf i w;
      move_up n' buf (i - 1) word_shift
  end.

(** The whole-word part of the shift: the buffer, and the new [beg], [end] and
    [new_point]. *)
Definition shift_words (buf : list Z) (beg end_ new_point new_front : Z)
  : outcome (list Z * Z * Z * Z) :=
  if (DIGITS_PER_WORD <=? new_front) || (new_front <? 0) then
    e ← u8 (end_ - 1);
    '(buf, word_shift) ←
      (if 0 <? new_front then
         let word_shift := Z.quot new_front DIGITS_PER_WORD in
         let to := as_u64 (beg / DIGITS_PER_WORD - word_shift) in
         let barier := as_u64 (e / DIGITS_PER_WORD - word_shift) in
         buf ← move_down (span to (barier + 1)) buf to word_shift;
         buf ← zero_range (Z.to_nat word_shift) buf (barier + 1);
         Ret (buf, - word_shift)
       else
         let word_shift := Z.quot (1 - new_front) DIGITS_PER_WORD in
         let to := as_u64 (e / DIGITS_PER_WORD + word_shift) in
         let barier := as_u64 (beg / DIGITS_PER_WORD + word_shift) in
         buf ← move_up (span barier (to + 1)) buf to word_shift;
         buf ← zero_range (Z.to_nat word_shift) buf (barier - word_shift);
         Ret (buf, word_shift));
    let shift_cnt := word_shift * DIGITS_PER_WORD in
    Ret (buf, as_u8 (beg + shift_cnt), as_u8 (end_ + shift_cnt), new_point + shift_cnt)
  else Ret (buf, beg, end_, new_point).

(** The gaps between the digits and the point are zeroed, and the counts set. *)
Definition shift_finish (res : Res Decimal) (buf : list Z) (beg end_ new_point int frac : Z)
  : outcome (Res Decimal) :=
  let beg_word := beg / DIGITS_PER_WORD in
  e ← u8 (end_ - 1);
  let end_word := e / DIGITS_PER_WORD in
  let new_point_word := if negb (new_point =? 0) then Z.quot (new_point - 1) DIGITS_PER_WORD else 0 in
  buf ← (if end_word <? new_point_word
         then zero_range (span (end_word + 1) (new_point_word + 1)) buf (end_word + 1)
         else zero_range (span new_point_word beg_word) buf new_point_word);
  Ret (res_map (fun d => with_frac_cnt (with_int_cnt (with_buf d buf) (as_u8 int)) (as_u8 frac)) res).

(** The digit part of the shift: which way, and by how much; [inl] is the early return. *)
Definition shift_mini (res : Res Decimal) (shift beg end_ word_buf_len new_point int frac : Z)
  : outcome (Res Decimal + (Res Decimal * Z * Z * Z)) :=
  if Z.rem shift DIGITS_PER_WORD =? 0 then Ret (inr (res, beg, end_, new_point))
  else
    '(l_mini_shift, r_mini_shift, do_left) ←
      (if 0 <? shift then
         let l := as_u8 (Z.rem shift DIGITS_PER_WORD) in
         Ret (l, DIGITS_PER_WORD - l, l <=? beg)
       else
         let r := as_u8 (Z.rem (- shift) DIGITS_PER_WORD) in
         lim ← u8 (DIGITS_PER_WORD * word_buf_len);
         room ← u8 (lim - end_);
         Ret (DIGITS_PER_WORD - r, r, room <? r));
    '(d, mini_shift) ←
      (if (do_left : bool) then
         d ← do_mini_left_shift (res_val res) l_mini_shift beg end_; Ret (d, - l_mini_shift)
       else
         d ← do_mini_right_shift (res_val res) r_mini_shift beg end_; Ret (d, r_mini_shift));
    let res := res_map (fun _ => d) res in
    let new_point := new_point + mini_shift in
    if (shift + mini_shift =? 0) && (new_point - int <? DIGITS_PER_WORD) then
      Ret (inl (res_map (fun d => with_frac_cnt (with_int_cnt d (as_u8 int)) (as_u8 frac)) res))
    else
      b ← i8 (as_i8 beg + mini_shift);
      e ← i8 (as_i8 end_ + mini_shift);
      Ret (inr (res, as_u8 b, as_u8 e, new_point)).

(** The operand of the shift, rounded when the result does not fit; [inl] returns. *)
Definition shift_round (d : Decimal) (beg end_ point int frac word_buf_len : Z)
  : outcome (Res Decimal + (Res Decimal * Z * Z)) :=
  let int_word_cnt := word_cnt_isize int in
  let frac_word_cnt := word_cnt_isize frac in
  let new_len := int_word_cnt + frac_word_cnt in
  if word_buf_len <? new_len then
    let lack := new_len - word_buf_len in
    if frac_word_cnt <? lack then Ret (inl (ROverCausetxctx d))
    else
      let frac_word_cnt := frac_word_cnt - lack in
      let diff := frac - frac_word_cnt * DIGITS_PER_WORD in
      let frac := frac_word_cnt * DIGITS_PER_WORD in
      if end_ - diff <=? beg then Ret (inl (RTruncated dec_zero))
      else
        let end_ := as_u8 (end_ - diff) in
        f ← i8 (as_i8 end_ - as_i8 point);
        r ← round_with_word_buf_len d f word_buf_len HalfEven;
        Ret (inr (RTruncated (res_val r), end_, frac))
  else Ret (inr (ROk d, end_, frac)).

(** [shift_with_word_buf_len] *)
Definition shift_with_word_buf_len (d : Decimal) (shift word_buf_len : Z) : outcome (Res Decimal) :=
  if shift =? 0 then Ret (ROk d)
  else
    '(beg, end_) ← digit_bounds d;
    if beg =? end_ then Ret (ROk dec_zero)
    else
      upper ← u8 (DIGITS_PER_WORD * word_buf_len * 2);
      if upper <? shift then Ret (ROverCausetxctx d)
      else if shift <? - upper then Ret (RTruncated dec_zero)
      else
        point ← u8 (word_cnt (int_cnt d) * DIGITS_PER_WORD);
        let new_point := point + shift in
        let int := if new_point <? beg then 0 else new_point - beg in
        let frac := if end_ <? new_point then 0 else end_ - new_point in
        start ← shift_round d beg end_ point int frac word_buf_len;
        match start with
        | inl r => Ret r
        | inr (res, end_, frac) =>
            mini ← shift_mini res shift beg end_ word_buf_len new_point int frac;
            match mini with
            | inl r => Ret r
            | inr (res, beg, end_, new_point) =>
                '(buf, beg, end_, new_point) ←
                  shift_words (word_buf (res_val res)) beg end_ new_point (new_point - int);
                shift_finish res buf beg end_ new_point int frac
            end
        end.

Definition shift (d : Decimal) (n : Z) : outcome (Res Decimal) :=
  shift_with_word_buf_len d n WORD_BUF_LEN.

End WithTable.
