(* ===== verification/ToInt.v ===== *)
(** * ToInt: integers from byte strings, conversions between integer types, and division

    Of [allegro_poset/convert.rs]: [bytes_to_int_without_context] and
    [bytes_to_uint_without_context] (a byte is a [Z] below 256); the bounds of the integer
    field types ([causet/src/field_type.rs]), the [ToInt] implementations of [i64] and
    [u64], which clamp under the evaluation context's flags, and the array casts
    [convert_from_..].  Then the divisions of [berolinasql/src/overflow.rs]. *)
From Stdlib Require Import ZArith Lia.
From stdpp Require Import base list numbers.
From S2P Require Import Prelude Words EvalCtx.
#[local] Open Scope Z_scope.

(** [b'0' ..= b'9'], the signs and the blanks the readers skip. *)
Definition is_digit (c : Z) : bool := (48 <=? c) && (c <=? 57).
Definition is_blank (b : Z) : bool := (b =? 32) || (b =? 9).

Fixpoint skip_while (p : Z → bool) (bs : list Z) : list Z :=
  match bs with
  | [] => []
  | b :: bs' => if p b then skip_while p bs' else bs
  end.

(** [Option::and_then] chains of the loops: [None] stops them. *)
Fixpoint int_digits (negative : bool) (bs : list Z) (r : Z) : option Z :=
  match bs with
  | [] => Some r
  | c :: bs' =>
      if is_digit c then
        let cur := c - 48 in
        r ← checked I64_MIN I64_MAX (r * 10);
        r ← checked I64_MIN I64_MAX (if negative then r - cur else r + cur);
        int_digits negative bs' r
      else Some r
  end.

(** [bytes_to_int_without_context] *)
Definition bytes_to_int_without_context (bytes : list Z) : result Z :=
  match skip_while is_blank bytes with
  | [] => Ok 0
  | c :: bs =>
      let r :=
        if c =? 45 then int_digits true bs 0
        else if is_digit c then int_digits false bs (c - 48)
        else if negb (c =? 43) then Some 0
        else int_digits false bs 0 in
      match r with Some r => Ok r | None => Err over_causetxctx end
  end.

Fixpoint uint_digits (bs : list Z) (r : Z) : option Z :=
  match bs with
  | [] => Some r
  | c :: bs' =>
      if is_digit c then
        r ← checked 0 U64_MAX (r * 10);
        r ← checked 0 U64_MAX (r + (c - 48));
        uint_digits bs' r
      else Some r
  end.

(** [bytes_to_uint_without_context] *)
Definition bytes_to_uint_without_context (bytes : list Z) : result Z :=
  match skip_while is_blank bytes with
  | [] => Ok 0
  | c :: bs =>
      let r :=
        if is_digit c then uint_digits bs (c - 48)
        else if negb (c =? 43) then Some 0
        else uint_digits bs 0 in
      match r with Some r => Ok r | None => Err over_causetxctx end
  end.

(** ** The numbers these texts denote *)

(** The value of a list of digit characters. *)
Definition digits_val (ds : list Z) : Z := wval 10 (map (fun c => c - 48) ds).

(** A decimal integer text: blanks, a sign, digits, and what follows them. *)
Inductive sign_text : list Z → bool → Prop :=
| sign_none : sign_text [] false
| sign_plus : sign_text [43] false
| sign_minus : sign_text [45] true.

Definition starts_non_digit (bs : list Z) : Prop :=
  match bs with [] => True | c :: _ => is_digit c = false end.

Lemma digits_val_snoc_acc ds acc :
  Forall (λ c, is_digit c = true) ds →
  0 <= acc → acc <= wval_acc 10 acc (map (fun c => c - 48) ds).
Proof.
  intros H. revert acc. induction H as [|c ds Hc _ IH]; intros acc Ha; [cbn; lia|].
  cbn [map wval_acc]. unfold is_digit in Hc. rewrite andb_true_iff, !Z.leb_le in Hc.
  specialize (IH (acc * 10 + (c - 48)) ltac:(lia)). lia.
Qed.

(** The loops compute the number, and stop with [None] exactly when it leaves the type. *)
Lemma int_digits_spec (neg : bool) ds rest : ∀ r,
  Forall (λ c, is_digit c = true) ds → starts_non_digit rest →
  (if neg then I64_MIN <= - r else r <= I64_MAX) → 0 <= r →
  int_digits neg (ds ++ rest) (if neg then - r else r)
  = let v := wval_acc 10 r (map (fun c => c - 48) ds) in
    checked I64_MIN I64_MAX (if neg then - v else v).
Proof.
  induction ds as [|c ds IH]; intros r Hds Hr Hb H0.
  - cbn [app map wval_acc]. transitivity (Some (if neg then - r else r)).
    + destruct rest as [|c rest]; [done|]. cbn in *. by rewrite Hr.
    + symmetry. apply checked_Some. split; [done|]. mach. destruct neg; lia.
  - apply Forall_cons_1 in Hds as [Hc Hds]. cbn [app int_digits map wval_acc]. rewrite Hc.
    unfold is_digit in Hc. rewrite andb_true_iff, !Z.leb_le in Hc.
    pose proof (digits_val_snoc_acc ds (r * 10 + (c - 48)) Hds ltac:(lia)) as Hge.
    set (v := wval_acc 10 (r * 10 + (c - 48)) (map (λ c0, c0 - 48) ds)) in *.
    assert (Hout : (if neg then - (r * 10 + (c - 48)) < I64_MIN else I64_MAX < r * 10 + (c - 48)) →
      checked I64_MIN I64_MAX (if neg then - v else v) = None).
    { intros Hlt. apply checked_None. destruct neg; lia. }
    destruct (checked I64_MIN I64_MAX ((if neg then - r else r) * 10)) as [x|] eqn:E1.
    + apply checked_Some in E1 as [-> B1]. cbn [mbind option_bind].
      replace (if neg then (if neg then - r else r) * 10 - (c - 48)
               else (if neg then - r else r) * 10 + (c - 48))
        with (if neg then - (r * 10 + (c - 48)) else r * 10 + (c - 48)) by (destruct neg; lia).
      destruct (checked I64_MIN I64_MAX (if neg then - (r * 10 + (c - 48)) else r * 10 + (c - 48)))
        as [x|] eqn:E2.
      * apply checked_Some in E2 as [-> B2]. cbn [mbind option_bind].
        rewrite (IH (r * 10 + (c - 48))); [done|done|done|destruct neg; lia|lia].
      * apply checked_None in E2. cbn [mbind option_bind]. symmetry. apply Hout.
        mach. destruct neg; lia.
    + apply checked_None in E1. cbn [mbind option_bind]. symmetry. apply Hout.
      mach. destruct neg; lia.
Qed.

Lemma uint_digits_spec ds rest : ∀ r,
  Forall (λ c, is_digit c = true) ds → starts_non_digit rest → 0 <= r <= U64_MAX →
  uint_digits (ds ++ rest) r = checked 0 U64_MAX (wval_acc 10 r (map (fun c => c - 48) ds)).
Proof.
  induction ds as [|c ds IH]; intros r Hds Hr Hb.
  - cbn [app map wval_acc]. transitivity (Some r).
    + destruct rest as [|c rest]; [done|]. cbn in *. by rewrite Hr.
    + symmetry. by apply checked_Some.
  - apply Forall_cons_1 in Hds as [Hc Hds]. cbn [app uint_digits map wval_acc]. rewrite Hc.
    unfold is_digit in Hc. rewrite andb_true_iff, !Z.leb_le in Hc.
    pose proof (digits_val_snoc_acc ds (r * 10 + (c - 48)) Hds ltac:(lia)) as Hge.
    destruct (checked 0 U64_MAX (r * 10)) as [x|] eqn:E1.
    + apply checked_Some in E1 as [-> B1]. cbn [mbind option_bind].
      destruct (checked 0 U64_MAX (r * 10 + (c - 48))) as [x|] eqn:E2.
      * apply checked_Some in E2 as [-> B2]. cbn [mbind option_bind]. by rewrite IH.
      * apply checked_None in E2. cbn [mbind option_bind]. symmetry. apply checked_None. lia.
    + apply checked_None in E1. cbn [mbind option_bind]. symmetry. apply checked_None. lia.
Qed.

Lemma skip_blanks ws bs :
  Forall (λ c, is_blank c = true) ws →
  (match bs with [] => True | c :: _ => is_blank c = false end) →
  skip_while is_blank (ws ++ bs) = bs.
Proof.
  intros Hw Hb. induction Hw as [|w ws Hw _ IH]; cbn; [|by rewrite Hw].
  destruct bs as [|c bs]; [done|]. cbn. by rewrite Hb.
Qed.

Lemma digit_not_blank c : is_digit c = true → is_blank c = false.
Proof.
  unfold is_digit, is_blank. rewrite andb_true_iff, !Z.leb_le. intros ?.
  rewrite orb_false_iff, !Z.eqb_neq. lia.
Qed.

(** [bytes_to_int_without_context] on blanks, an optional sign, one or more
    digits and anything that does not go on with a digit: the signed number when it
    is an [i64], the overflow error otherwise. *)
Theorem bytes_to_int_exact ws sg neg ds rest :
  Forall (λ c, is_blank c = true) ws → sign_text sg neg →
  Forall (λ c, is_digit c = true) ds → ds ≠ [] → starts_non_digit rest →
  bytes_to_int_without_context (ws ++ sg ++ ds ++ rest)
  = let v := if neg then - digits_val ds else digits_val ds in
    if decide (is_i64 v) then Ok v else Err over_causetxctx.
Proof.
  intros Hw Hs Hd Hne Hr. unfold bytes_to_int_without_context.
  rewrite skip_blanks; [|done|].
  2: { destruct Hs, ds as [|d ds]; try done. cbn.
       apply Forall_cons_1 in Hd as [Hd _]. by apply digit_not_blank. }
  assert (Hfin : ∀ v, match checked I64_MIN I64_MAX v with
    | Some r => Ok r | None => Err over_causetxctx end
    = if decide (is_i64 v) then Ok v else Err over_causetxctx).
  { intros v. destruct (checked I64_MIN I64_MAX v) eqn:E.
    - apply checked_Some in E as [-> ?]. by rewrite decide_True.
    - apply checked_None in E. rewrite decide_False; [done|]. unfold is_i64. lia. }
  destruct Hs; cbn [app].
  - destruct ds as [|d ds]; [done|]. cbn [app]. apply Forall_cons_1 in Hd as [Hc Hd].
    rewrite Hc. assert (d =? 45 = false) as -> by
      (unfold is_digit in Hc; rewrite andb_true_iff, !Z.leb_le in Hc; apply Z.eqb_neq; lia).
    assert (0 <= d - 48 <= 9) by (unfold is_digit in Hc; rewrite andb_true_iff, !Z.leb_le in Hc; lia).
    rewrite (int_digits_spec false ds rest (d - 48) Hd Hr) by (mach; lia). apply Hfin.
  - cbn [Z.eqb]. change (is_digit 43) with false. cbn iota. change (43 =? 43) with true. cbn [negb].
    change (43 =? 45) with false. cbn iota.
    rewrite (int_digits_spec false ds rest 0 Hd Hr) by (mach; lia). apply Hfin.
  - change (45 =? 45) with true. cbn iota.
    pose proof (int_digits_spec true ds rest 0 Hd Hr) as H. cbn iota in H. change (- 0) with 0 in H.
    rewrite H by (mach; lia). apply Hfin.
Qed.

Lemma bytes_to_int_exact_witness :
  bytes_to_int_without_context [32; 45; 57; 50; 97] = Ok (-92).
Proof.
  apply (bytes_to_int_exact [32] [45] true [57; 50] [97]); [..|done|done];
    repeat constructor.
Defined.

(** [bytes_to_uint_without_context] likewise for [u64] and an optional plus
    sign; a minus sign gives zero, not an error. *)
Theorem bytes_to_uint_exact ws sg ds rest :
  Forall (λ c, is_blank c = true) ws → sign_text sg false →
  Forall (λ c, is_digit c = true) ds → ds ≠ [] → starts_non_digit rest →
  bytes_to_uint_without_context (ws ++ sg ++ ds ++ rest)
  = (if decide (is_u64 (digits_val ds)) then Ok (digits_val ds) else Err over_causetxctx)
  ∧ bytes_to_uint_without_context (ws ++ 45 :: ds ++ rest) = Ok 0.
Proof.
  intros Hw Hs Hd Hne Hr. unfold bytes_to_uint_without_context. split.
  2: { rewrite skip_blanks by done. done. }
  rewrite skip_blanks; [|done|].
  2: { inversion Hs; destruct ds as [|d ds]; try done. cbn.
       apply Forall_cons_1 in Hd as [Hd _]. by apply digit_not_blank. }
  assert (Hfin : ∀ v, match checked 0 U64_MAX v with
    | Some r => Ok r | None => Err over_causetxctx end
    = if decide (is_u64 v) then Ok v else Err over_causetxctx).
  { intros v. destruct (checked 0 U64_MAX v) eqn:E.
    - apply checked_Some in E as [-> ?]. by rewrite decide_True.
    - apply checked_None in E. rewrite decide_False; [done|]. unfold is_u64. lia. }
  inversion Hs; cbn [app].
  - destruct ds as [|d ds]; [done|]. cbn [app]. apply Forall_cons_1 in Hd as [Hc Hd].
    rewrite Hc. assert (0 <= d - 48 <= 9)
      by (unfold is_digit in Hc; rewrite andb_true_iff, !Z.leb_le in Hc; lia).
    rewrite (uint_digits_spec ds rest (d - 48) Hd Hr) by (mach; lia). apply Hfin.
  - change (is_digit 43) with false. cbn iota. change (43 =? 43) with true. cbn [negb].
    rewrite (uint_digits_spec ds rest 0 Hd Hr) by (mach; lia). apply Hfin.
Qed.

Lemma bytes_to_uint_exact_witness :
  bytes_to_uint_without_context [32; 43; 57; 50; 97] = Ok 92
  ∧ bytes_to_uint_without_context [32; 45; 57; 50; 97] = Ok 0.
Proof.
  apply (bytes_to_uint_exact [32] [43] [57; 50] [97]); [..|done|done]; repeat constructor.
Defined.

(** [overflowing_div] on [i64]: the wrapped quotient and the overflow flag. *)
Definition overflowing_div (a b : Z) : Z * bool :=
  if (a =? I64_MIN) && (b =? -1) then (a, true) else (Z.quot a b, false).

(** [overflowing_neg().0] on [i64]. *)
Definition wrapping_neg (a : Z) : Z := as_i64 (- a).

Definition div_i64 (a b : Z) : result Z :=
  if b =? 0 then Err division_by_zero
  else match overflowing_div a b with
       | (_, true) => Err over_causetxctx
       | (res, false) => Ok res
       end.

Definition div_u64_with_i64 (a b : Z) : result Z :=
  if b =? 0 then Err division_by_zero
  else if b <? 0 then
    if negb (a =? 0) && (as_u64 (wrapping_neg b) <=? a) then Err over_causetxctx else Ok 0
  else Ok (a / as_u64 b).

Definition div_i64_with_u64 (a b : Z) : result Z :=
  if b =? 0 then Err division_by_zero
  else if a <? 0 then
    if b <=? as_u64 (wrapping_neg a) then Err over_causetxctx else Ok 0
  else Ok (as_u64 a / b).

(** What a division into the range [lo..hi] promises: the exact quotient, truncated
    towards zero, or the error that fits. *)
Definition div_spec (lo hi a b : Z) : result Z :=
  if b =? 0 then Err division_by_zero
  else match checked lo hi (Z.quot a b) with
       | Some q => Ok q
       | None => Err over_causetxctx
       end.

Lemma checked_in lo hi z : lo <= z <= hi → checked lo hi z = Some z.
Proof. intros. by apply checked_Some. Qed.

(** [-b as u64] is the magnitude of a negative [i64], [i64::MIN] included. *)
Lemma wrapping_neg_mag b : I64_MIN <= b < 0 → as_u64 (wrapping_neg b) = - b.
Proof.
  intros Hb. unfold wrapping_neg, as_u64, as_i64. mach.
  destruct (Z.eq_dec b (-9223372036854775808)) as [->|]; [by vm_compute|].
  rewrite (Z.mod_small (- b + _)), Z.mod_small by lia. lia.
Qed.

(** A quotient whose operands have opposite signs is not positive, and zero exactly
    when the divisor is the larger one. *)
Lemma quot_opposite a b : 0 <= a → b < 0 →
  Z.quot a b <= 0 ∧ (Z.quot a b = 0 ↔ a < - b).
Proof.
  intros Ha Hb. replace b with (- - b) by lia. rewrite Z.quot_opp_r by lia.
  rewrite Z.quot_div_nonneg by lia. pose proof (Z.div_pos a (- b) ltac:(lia) ltac:(lia)).
  split; [lia|]. split; intros H1.
  - apply Z.lt_nge. intros Hge. enough (1 <= a / - b) by lia.
    apply Z.div_le_lower_bound; lia.
  - rewrite Z.div_small by lia. lia.
Qed.

(** The three divisions are total and exact: a zero divisor is the
    division-by-zero error, a truncated quotient that is not a value of the result
    type ([i64], [u64], [u64]) is the overflow error, and otherwise the quotient is
    returned, also where the operands' signs differ or [i64::MIN] is negated. *)
Theorem div_exact :
  (∀ a b, is_i64 a → is_i64 b → div_i64 a b = div_spec I64_MIN I64_MAX a b) ∧
  (∀ a b, is_u64 a → is_i64 b → div_u64_with_i64 a b = div_spec 0 U64_MAX a b) ∧
  (∀ a b, is_i64 a → is_u64 b → div_i64_with_u64 a b = div_spec 0 U64_MAX a b).
Proof.
  unfold is_i64, is_u64. split; [|split]; intros a b Ha Hb;
    unfold div_i64, div_u64_with_i64, div_i64_with_u64, div_spec, overflowing_div;
    destruct (Z.eqb_spec b 0) as [|Hb0]; try done.
  - destruct (Z.eqb_spec a I64_MIN) as [->|Ha0], (Z.eqb_spec b (-1)) as [->|Hb1]; cbn [andb];
      [done|rewrite checked_in; [done|mach; zdiv]..].
  - destruct (Z.ltb_spec b 0).
    + rewrite wrapping_neg_mag by lia. destruct (quot_opposite a b) as [Hq H0]; [lia..|].
      destruct (Z.eqb_spec a 0) as [->|]; cbn [negb andb];
        [by rewrite Z.quot_0_l by lia|]. destruct (Z.leb_spec (- b) a).
      * by rewrite (proj2 (checked_None _ _ _)) by lia.
      * rewrite checked_in; mach; [f_equal|]; lia.
    + rewrite as_u64_id, <- Z.quot_div_nonneg by (mach; lia).
      rewrite checked_in; [done|]. rewrite Z.quot_div_nonneg by lia.
      split; [apply Z.div_pos; lia|apply Z.div_le_upper_bound; nia].
  - destruct (Z.ltb_spec a 0).
    + rewrite wrapping_neg_mag by lia.
      destruct (quot_opposite (- a) (- b)) as [Hq H0]; [lia..|].
      rewrite Z.quot_opp_opp in Hq, H0 by lia. destruct (Z.leb_spec b (- a)).
      * by rewrite (proj2 (checked_None _ _ _)) by lia.
      * rewrite checked_in; mach; [f_equal|]; lia.
    + rewrite as_u64_id, <- Z.quot_div_nonneg by (mach; lia).
      rewrite checked_in; [done|]. rewrite Z.quot_div_nonneg by lia.
      split; [apply Z.div_pos; lia|apply Z.div_le_upper_bound; mach; nia].
Qed.

Lemma div_exact_witness :
  div_i64 I64_MIN (-1) = Err over_causetxctx ∧ div_u64_with_i64 7 (-8) = Ok 0.
Proof.
  destruct div_exact as (H1 & H2 & _).
  split; [rewrite H1|rewrite H2]; by vm_compute.
Defined.

(** ** Field types *)

Inductive FieldTypeTp : Type :=
| TpUnspecified | TpTiny | TpShort | TpLong | TpFloat | TpDouble | TpNull | TpTimestamp
| TpLongLong | TpInt24 | TpDate | TpDuration | TpDateTime | TpYear | TpNewDate | TpVarChar
| TpBit | TpJSON | TpNewDecimal | TpEnum | TpSet | TpTinyBlob | TpMediumBlob | TpLongBlob
| TpBlob | TpVarString | TpString | TpGeometry.

#[export] Instance FieldTypeTp_eq_dec : EqDecision FieldTypeTp.
Proof. solve_decision. Defined.

Definition integer_unsigned_upper_bound (tp : FieldTypeTp) : outcome Z :=
  match tp with
  | TpTiny => Ret U8_MAX
  | TpShort => Ret U16_MAX
  | TpInt24 => Ret (Z.shiftl 1 24 - 1)
  | TpLong => Ret U32_MAX
  | TpLongLong | TpBit | TpSet | TpEnum => Ret U64_MAX
  | _ => Panic
  end.

Definition integer_signed_upper_bound (tp : FieldTypeTp) : outcome Z :=
  match tp with
  | TpTiny => Ret I8_MAX
  | TpShort => Ret I16_MAX
  | TpInt24 => Ret (Z.shiftl 1 23 - 1)
  | TpLong => Ret I32_MAX
  | TpLongLong => Ret I64_MAX
  | _ => Panic
  end.

Definition integer_signed_lower_bound (tp : FieldTypeTp) : outcome Z :=
  match tp with
  | TpTiny => Ret I8_MIN
  | TpShort => Ret I16_MIN
  | TpInt24 => Ret (Z.shiftl (-1) 23)
  | TpLong => Ret I32_MIN
  | TpLongLong => Ret I64_MIN
  | _ => Panic
  end.

(** ** [ToInt] *)

(** [ctx.handle_overCausetxctx_err(over_causetxctx(..))?; return Ok(v)] *)
Definition overflow_to (v : Z) : evalM Z :=
  _ ← handler (fun ctx => handle_overCausetxctx_err ctx over_causetxctx); mret v.

Definition i64_to_int (v : Z) (tp : FieldTypeTp) : evalM Z :=
  lower_bound ← lift_out (integer_signed_lower_bound tp);
  if v <? lower_bound then overflow_to lower_bound
  else
    upper_bound ← lift_out (integer_signed_upper_bound tp);
    if upper_bound <? v then overflow_to upper_bound else mret v.

Definition i64_to_uint (v : Z) (tp : FieldTypeTp) : evalM Z :=
  clip ← pure_ctx should_clip_to_zero;
  if (v <? 0) && (clip : bool) then overflow_to 0
  else
    upper_bound ← lift_out (integer_unsigned_upper_bound tp);
    if upper_bound <? as_u64 v then overflow_to upper_bound else mret (as_u64 v).

Definition u64_to_int (v : Z) (tp : FieldTypeTp) : evalM Z :=
  upper_bound ← lift_out (integer_signed_upper_bound tp);
  if as_u64 upper_bound <? v then overflow_to upper_bound else mret (as_i64 v).

Definition u64_to_uint (v : Z) (tp : FieldTypeTp) : evalM Z :=
  upper_bound ← lift_out (integer_unsigned_upper_bound tp);
  if upper_bound <? v then overflow_to upper_bound else mret v.

(** ** Array casts *)

(** [for x in a.iter() { if i >= b.len() { break; } b[i] = cast x; i += 1; }] *)
Fixpoint cast_prefix (cast : Z → Z) (i : nat) (a b : list Z) : list Z :=
  match a with
  | [] => b
  | x :: a => if (length b <=? i)%nat then b else cast_prefix cast (S i) a (<[i := cast x]> b)
  end.

(** [for i in 0..a.len() { b[i] = cast a[i]; }] *)
Fixpoint cast_range (cast : Z → Z) (n i : nat) (a b : list Z) : outcome (list Z) :=
  match n with
  | O => Ret b
  | S n =>
      x ← get a (Z.of_nat i);
      b ← set b (Z.of_nat i) (cast x);
      cast_range cast n (S i) a b
  end.

Definition with_causet_assertion_in_timelike_convert_from_u8_to_i32 (a b : list Z) : list Z :=
  cast_prefix as_i32 0 a b.
Definition with_causet_assertion_in_timelike_convert_from_i32_to_u8 (a b : list Z) : list Z :=
  cast_prefix as_u8 0 a b.

Definition convert_from_u8_to_i32 (a b : list Z) : result (list Z) :=
  if negb (length a * 4 =? length b)%nat then Err Other else Ok (cast_prefix as_i32 0 a b).

(** The length test and the cast of every element. *)
Definition convert_same_len (cast : Z → Z) (a b : list Z) : outcome (result (list Z)) :=
  if negb (length a =? length b)%nat then Ret (Err Other)
  else b ← cast_range cast (length a) 0 a b; Ret (Ok b).

Definition as_u16 (z : Z) : Z := z mod 65536.

Definition convert_from_i32_to_u8 (a b : list Z) := convert_same_len as_u8 a b.
Definition convert_from_i32_to_u16 (a b : list Z) := convert_same_len as_u16 a b.
Definition convert_from_u16_to_i32 (a b : list Z) := convert_same_len as_i32 a b.
Definition convert_from_u16_to_u8 (a b : list Z) := convert_same_len as_u8 a b.

(** ** What they compute *)

(** The type's bounds, where it has them. *)
Definition signed_bounds (tp : FieldTypeTp) : option (Z * Z) :=
  match tp with
  | TpTiny => Some (- 2 ^ 7, 2 ^ 7 - 1)
  | TpShort => Some (- 2 ^ 15, 2 ^ 15 - 1)
  | TpInt24 => Some (- 2 ^ 23, 2 ^ 23 - 1)
  | TpLong => Some (- 2 ^ 31, 2 ^ 31 - 1)
  | TpLongLong => Some (- 2 ^ 63, 2 ^ 63 - 1)
  | _ => None
  end.

Definition unsigned_width (tp : FieldTypeTp) : option Z :=
  match tp with
  | TpTiny => Some 8
  | TpShort => Some 16
  | TpInt24 => Some 24
  | TpLong => Some 32
  | TpLongLong | TpBit | TpSet | TpEnum => Some 64
  | _ => None
  end.

(** Clamping [v] between [lo] and [hi]: silent inside, and outside as the flag
    [OVERCausetxctx_AS_WARNING] says, a warning and the nearest bound or an error. *)
Definition saturate (lo hi v : Z) (ctx : EvalContext) : outcome (result Z * EvalContext) :=
  if (lo <=? v) && (v <=? hi) then Ret (Ok v, ctx)
  else if has_flag ctx OVERCausetxctx_AS_WARNING
       then Ret (Ok (Z.max lo (Z.min hi v)), warn ctx over_causetxctx)
       else Ret (Err over_causetxctx, ctx).

Lemma overflow_to_saturate lo hi v b ctx : (v < lo ∨ hi < v) → lo <= hi →
  b = Z.max lo (Z.min hi v) → overflow_to b ctx = saturate lo hi v ctx.
Proof.
  intros Hv Hlh ->. unfold overflow_to, saturate, handler, handle_overCausetxctx_err.
  unfold mbind, evalM_bind. destruct (has_flag ctx OVERCausetxctx_AS_WARNING); destruct (Z.leb_spec lo v), (Z.leb_spec v hi); cbn -[Z.max Z.min]; done || lia.
Qed.

Lemma saturate_in lo hi v ctx : lo <= v <= hi → saturate lo hi v ctx = Ret (Ok v, ctx).
Proof. intros ?. unfold saturate. by rewrite (proj2 (Z.leb_le _ _)), (proj2 (Z.leb_le _ _)) by lia. Qed.

Lemma signed_bounds_spec tp lo hi : signed_bounds tp = Some (lo, hi) →
  integer_signed_lower_bound tp = Ret lo ∧ integer_signed_upper_bound tp = Ret hi
  ∧ I64_MIN <= lo < 0 ∧ 0 < hi <= I64_MAX.
Proof. destruct tp; intros [= <- <-]; mach; cbn; repeat split; lia. Qed.

Lemma unsigned_width_spec tp w : unsigned_width tp = Some w →
  integer_unsigned_upper_bound tp = Ret (2 ^ w - 1) ∧ 0 < 2 ^ w - 1 <= U64_MAX.
Proof. destruct tp; intros [= <-]; mach; cbn; repeat split; lia. Qed.

Lemma bind_lift_out {A B} (a : A) (f : A → evalM B) ctx : (lift_out (Ret a) ≫= f) ctx = f a ctx.
Proof. reflexivity. Qed.
Lemma bind_pure_ctx {A B} (g : EvalContext → A) (f : A → evalM B) ctx :
  (pure_ctx g ≫= f) ctx = f (g ctx) ctx.
Proof. reflexivity. Qed.

(** Converting an integer to an integer field type clamps it to the type's exact
    range, on every branch: a value in range passes with the context untouched; one
    out of range is an error, or, under the overflow-as-warning flag, one warning and
    the nearest bound.  A negative [i64] read as unsigned is clamped to zero when the
    context clips and reinterpreted modulo 2^64 before clamping when it does not. *)
Theorem to_int_saturates ctx tp i u : is_i64 i → is_u64 u →
  (∀ lo hi, signed_bounds tp = Some (lo, hi) →
     i64_to_int i tp ctx = saturate lo hi i ctx ∧ u64_to_int u tp ctx = saturate lo hi u ctx)
  ∧ (∀ w, unsigned_width tp = Some w →
     u64_to_uint u tp ctx = saturate 0 (2 ^ w - 1) u ctx
     ∧ i64_to_uint i tp ctx
       = saturate 0 (2 ^ w - 1) (if should_clip_to_zero ctx then i else i mod 2 ^ 64) ctx).
Proof.
  intros Hi Hu. split.
  - intros lo hi (El & Eh & Hlo & Hhi)%signed_bounds_spec. mach. split.
    + unfold i64_to_int. rewrite El, bind_lift_out. case_Z; [apply overflow_to_saturate; lia|].
      rewrite Eh, bind_lift_out. case_Z; [apply overflow_to_saturate; lia|].
      by rewrite saturate_in by lia.
    + unfold u64_to_int. rewrite Eh, bind_lift_out, as_u64_id by (mach; lia).
      case_Z; [apply overflow_to_saturate; lia|].
      rewrite saturate_in by lia. unfold as_i64.
      rewrite Z.mod_small, Z.add_simpl_r by lia. done.
  - intros w (E & Hw)%unsigned_width_spec. mach. revert E Hw. generalize (2 ^ w - 1) as m.
    intros m E Hw. split.
    + unfold u64_to_uint. rewrite E, bind_lift_out. case_Z; [apply overflow_to_saturate; lia|].
      by rewrite saturate_in by lia.
    + unfold i64_to_uint. rewrite bind_pure_ctx, E. cbv beta.
      assert (Hm : 0 <= as_u64 i < 18446744073709551616) by (apply Z.mod_pos_bound; lia).
      change (i mod 2 ^ 64) with (as_u64 i).
      destruct (should_clip_to_zero ctx); rewrite ?andb_true_r, ?andb_false_r.
      * case_Z; [apply overflow_to_saturate; lia|]. rewrite bind_lift_out, as_u64_id by (mach; lia).
        case_Z; [apply overflow_to_saturate; lia|]. by rewrite saturate_in by lia.
      * rewrite bind_lift_out. case_Z; [apply overflow_to_saturate; lia|].
        by rewrite saturate_in by lia.
Qed.

Lemma cast_prefix_spec cast a : ∀ (i : nat) b, (i <= length b)%nat →
  cast_prefix cast i a b
  = take i b ++ map cast (take (length b - i)%nat a) ++ drop (i + length a)%nat b.
Proof.
  induction a as [|x a IH]; intros i b Hi; cbn [cast_prefix].
  - rewrite take_nil, Nat.add_0_r. cbn. by rewrite take_drop.
  - destruct (Nat.leb_spec (length b) i).
    + assert (i = length b) as -> by lia. rewrite Nat.sub_diag. cbn.
      rewrite firstn_all, drop_ge by lia. by rewrite app_nil_r.
    + rewrite IH by (rewrite length_insert; lia). rewrite length_insert.
      rewrite (take_S_r _ _ (cast x)) by (rewrite list_lookup_insert_eq; [done|lia]).
      rewrite take_insert_ge, drop_insert_lt by lia.
      replace (length b - i)%nat with (S (length b - S i)) by lia. cbn [take map length].
      rewrite <- app_assoc. cbn [app]. do 4 f_equal. lia.
Qed.

Lemma cast_range_spec cast n : ∀ pre xs ys,
  length xs = n → length ys = n → ∀ bpre, length bpre = length pre →
  cast_range cast n (length pre) (pre ++ xs) (bpre ++ ys) = Ret (bpre ++ map cast xs).
Proof.
  induction n as [|n IH]; intros pre xs ys Hx Hy bpre Hb.
  - apply nil_length_inv in Hx as ->. by apply nil_length_inv in Hy as ->.
  - destruct xs as [|x xs], ys as [|y ys]; try done. cbn [cast_range].
    rewrite get_mid by done. cbn. rewrite set_mid by lia. cbn.
    replace (pre ++ x :: xs) with ((pre ++ [x]) ++ xs) by (by rewrite <- app_assoc).
    replace (bpre ++ cast x :: ys) with ((bpre ++ [cast x]) ++ ys) by (by rewrite <- app_assoc).
    replace (S (length pre)) with (length (pre ++ [x])) by (rewrite length_app; cbn; lia).
    rewrite IH by (rewrite ?length_app; cbn in *; lia). by rewrite <- app_assoc.
Qed.

(** The array casts: arrays of the same length are cast element by element and
    arrays of different lengths are refused with the target untouched, never out of
    bounds; the prefix cast fills as much of the target as the source reaches and
    keeps the rest. *)
Theorem array_casts_exact cast a b :
  convert_same_len cast a b
  = Ret (if decide (length a = length b) then Ok (map cast a) else Err Other)
  ∧ cast_prefix cast 0 a b = map cast (take (length b) a) ++ drop (length a) b.
Proof.
  split.
  - unfold convert_same_len. destruct (Nat.eqb_spec (length a) (length b)) as [E|];
      [rewrite decide_True by done|by rewrite decide_False by done].
    cbn. pose proof (cast_range_spec cast (length a) [] a b eq_refl (eq_sym E) [] eq_refl) as Hr.
    cbn in Hr. by rewrite Hr.
  - by rewrite cast_prefix_spec, Nat.sub_0_r by lia.
Qed.

Lemma to_int_saturates_witness :
  let ctx := EvalContext_new PolicyGradient_new in
  is_i64 (-129) ∧ is_u64 300 ∧
  (i64_to_int (-129) TpTiny ctx = saturate (-128) 127 (-129) ctx
   ∧ u64_to_int 300 TpTiny ctx = saturate (-128) 127 300 ctx) ∧
  (u64_to_uint 300 TpTiny ctx = saturate 0 255 300 ctx
   ∧ i64_to_uint (-129) TpTiny ctx
     = saturate 0 255 (if should_clip_to_zero ctx then -129 else (-129) mod 2 ^ 64) ctx).
Proof.
  intros ctx. assert (Hi : is_i64 (-129)) by (mach; lia). assert (Hu : is_u64 300) by (mach; lia).
  split; [exact Hi|]. split; [exact Hu|].
  destruct (to_int_saturates ctx TpTiny (-129) 300 Hi Hu) as [H1 H2].
  split; [exact (H1 (-128) 127 eq_refl)|exact (H2 8 eq_refl)].
Defined.
