(* ===== verification/DecimalConv.v ===== *)
(** * DecimalConv: decimals to and from integers and text

    [as_i64], [as_u64], [From<u64>], [From<i64>], [from_bytes], [from_str],
    [prepare_buf], [to_string] and [Display::fmt] of [berolinasql/src/decimal.rs].
    Text is a list of bytes. *)
From Stdlib Require Import ZArith Lia.
From stdpp Require Import base list numbers.
From S2P Require Import Prelude Words EvalCtx DecimalBase DecimalRound DecimalLoops ToInt.
#[local] Open Scope Z_scope.

Section WithTable.
Context {TP : TenPow}.

(** ** To integers *)

(** [for word_idx in 0..int_word_cnt] of [as_i64]; [inr] is the overflow return. *)
Fixpoint as_i64_loop (n : nat) (buf : list Z) (word_idx x : Z) : outcome (option Z) :=
  match n with
  | O => Ret (Some x)
  | S n' =>
      let y := x in
      w ← get buf word_idx;
      let x := as_i64 (as_i64 (x * WORD_BASE) - w) in
      if (y <? Z.quot I64_MIN WORD_BASE) || (y <? x) then Ret None
      else as_i64_loop n' buf (word_idx + 1) x
  end.

(** Whether one of the [n] words from [word_idx] on is not zero. *)
Fixpoint some_nonzero (n : nat) (buf : list Z) (word_idx : Z) : outcome bool :=
  match n with
  | O => Ret false
  | S n' =>
      w ← get buf word_idx;
      if negb (w =? 0) then Ret true else some_nonzero n' buf (word_idx + 1)
  end.

(** [as_i64]: accumulates below zero, so that [i64::MIN] is reached. *)
Definition dec_as_i64 (d : Decimal) : outcome (Res Z) :=
  let int_word_cnt := word_cnt (int_cnt d) in
  x ← as_i64_loop (Z.to_nat int_word_cnt) (word_buf d) 0 0;
  match x with
  | None => Ret (ROverCausetxctx (if negative d then I64_MIN else I64_MAX))
  | Some x =>
      if negb (negative d) && (x =? I64_MIN) then Ret (ROverCausetxctx I64_MAX)
      else
        x ← (if negb (negative d) then i64 (- x) else Ret x);
        t ← some_nonzero (Z.to_nat (word_cnt (frac_cnt d))) (word_buf d) int_word_cnt;
        Ret (if (t : bool) then RTruncated x else ROk x)
  end.

Definition as_i64_with_ctx (d : Decimal) (ctx : EvalContext) : outcome (result Z * EvalContext) :=
  res ← dec_as_i64 d;
  Ret match handle_truncate ctx (is_truncated res) with
      | (Err e, ctx) => (Err e, ctx)
      | (Ok _, ctx) => (res_into res, ctx)
      end.

(** [overflowing_mul] and [overflowing_add] of [as_u64]; [None] is the overflow. *)
Fixpoint as_u64_loop (n : nat) (buf : list Z) (word_idx x : Z) : outcome (option Z) :=
  match n with
  | O => Ret (Some x)
  | S n' =>
      match checked 0 U64_MAX (x * WORD_BASE) with
      | None => Ret None
      | Some x =>
          w ← get buf word_idx;
          match checked 0 U64_MAX (x + w) with
          | None => Ret None
          | Some x => as_u64_loop n' buf (word_idx + 1) x
          end
      end
  end.

(** [as_u64] *)
Definition dec_as_u64 (d : Decimal) : outcome (Res Z) :=
  if negative d then Ret (ROverCausetxctx 0)
  else
    let int := word_cnt (int_cnt d) in
    x ← as_u64_loop (Z.to_nat int) (word_buf d) 0 0;
    match x with
    | None => Ret (ROverCausetxctx U64_MAX)
    | Some x =>
        t ← some_nonzero (Z.to_nat (word_cnt (frac_cnt d))) (word_buf d) int;
        Ret (if (t : bool) then RTruncated x else ROk x)
    end.

(** ** From integers *)

(** [while x >= WORD_BASE]: the words of a [u64] are at most three. *)
Fixpoint count_words (fuel : nat) (x word_idx : Z) : outcome Z :=
  match fuel with
  | O => Panic
  | S fuel' => if WORD_BASE <=? x then count_words fuel' (x / WORD_BASE) (word_idx + 1)
               else Ret word_idx
  end.

(** [while word_idx > 0]. *)
Fixpoint put_words (word_idx : nat) (x : Z) (buf : list Z) : outcome (list Z) :=
  match word_idx with
  | O => Ret buf
  | S w =>
      buf ← set buf (Z.of_nat w) (x mod WORD_BASE);
      put_words w (x / WORD_BASE) buf
  end.

(** [From<u64>] *)
Definition dec_from_u64 (u : Z) : outcome Decimal :=
  word_idx ← count_words 4 u 1;
  n ← u8 (word_idx * DIGITS_PER_WORD);
  let d := dec_new n 0 false in
  buf ← put_words (Z.to_nat word_idx) u (word_buf d);
  Ret (with_buf d buf).

(** [From<i64>] *)
Definition dec_from_i64 (i : Z) : outcome Decimal :=
  '(neg, d) ← (if i <? 0 then d ← dec_from_u64 (as_u64 (as_i64 (- i))); Ret (true, d)
               else d ← dec_from_u64 (as_u64 i); Ret (false, d));
  Ret (with_negative d neg).

(** ** From text *)

Definition is_ascii_whitespace (c : Z) : bool :=
  (c =? 32) || (c =? 9) || (c =? 10) || (c =? 12) || (c =? 13).

(** [first_non_digit] *)
Fixpoint digit_prefix (bs : list Z) : nat :=
  match bs with
  | [] => O
  | c :: bs' => if (c <? 48) || (57 <? c) then O else S (digit_prefix bs')
  end.

Definition first_non_digit (bs : list Z) (start_idx : nat) : nat :=
  match digit_prefix (drop start_idx bs) with
  | n => if (n =? length bs - start_idx)%nat then length bs else (n + start_idx)%nat
  end.

(** The integer digits, from the last one up. *)
Fixpoint put_int_digits (cs : list Z) (word inner_idx word_idx : Z) (buf : list Z)
  : outcome (Z * Z * Z * list Z) :=
  match cs with
  | [] => Ret (word, inner_idx, word_idx, buf)
  | c :: cs' =>
      t ← get TEN_POW inner_idx;
      word ← u32 (word + (c - 48) * t);
      let inner_idx := inner_idx + 1 in
      if inner_idx =? DIGITS_PER_WORD then
        word_idx ← usize_dec word_idx;
        buf ← set buf word_idx word;
        put_int_digits cs' 0 0 word_idx buf
      else put_int_digits cs' word inner_idx word_idx buf
  end.

(** The fraction digits, from the first one down. *)
Fixpoint put_frac_digits (cs : list Z) (word inner_idx word_idx : Z) (buf : list Z)
  : outcome (Z * Z * Z * list Z) :=
  match cs with
  | [] => Ret (word, inner_idx, word_idx, buf)
  | c :: cs' =>
      word ← u32 (c - 48 + word * 10);
      let inner_idx := inner_idx + 1 in
      if inner_idx =? DIGITS_PER_WORD then
        buf ← set buf word_idx word;
        put_frac_digits cs' 0 0 (word_idx + 1) buf
      else put_frac_digits cs' word inner_idx word_idx buf
  end.

(** The digits of the text in a word buffer. *)
Definition put_digits (bs : list Z) (int_idx int_cnt frac_cnt : nat) (int_word_cnt : Z)
    (buf : list Z) : outcome (list Z) :=
  '(word, inner_idx, word_idx, buf) ←
    put_int_digits (rev (take int_cnt (drop (int_idx - int_cnt) bs))) 0 0 int_word_cnt buf;
  buf ← (if negb (inner_idx =? 0) then
           word_idx ← usize_dec word_idx;
           set buf word_idx word
         else Ret buf);
  '(word, inner_idx, word_idx, buf) ←
    put_frac_digits (take frac_cnt (drop (int_idx + 1) bs)) 0 0 int_word_cnt buf;
  if negb (inner_idx =? 0) then
    t ← get TEN_POW (DIGITS_PER_WORD - inner_idx);
    w ← u32 (word * t);
    set buf word_idx w
  else Ret buf.

(** The exponent. *)
Definition apply_exponent (d : Res Decimal) (exp : Z) : outcome (Res Decimal) :=
  if is_overCausetxctx d then Ret d
  else
    r ← shift (res_val d) exp;
    match r with
    | ROverCausetxctx v =>
        m ← max_or_min_dec (negative v) (WORD_BUF_LEN * DIGITS_PER_WORD) 0;
        Ret (ROverCausetxctx m)
    | ROk v => Ret (if is_truncated d then RTruncated v else ROk v)
    | RTruncated v => Ret (RTruncated v)
    end.

(** [from_bytes_with_word_buf]: what follows the sign; [bs] is the rest of the text. *)
Definition from_unsigned (bs : list Z) (negative : bool) (word_buf_len : Z)
  : outcome (result (Res Decimal)) :=
  let int_idx := first_non_digit bs 0 in
  let int_cnt := int_idx in
  let '(end_idx, frac_cnt) :=
    if (int_idx <? length bs)%nat && (default 0 (bs !! int_idx) =? 46) then
      let end_idx := first_non_digit bs (int_idx + 1) in
      (end_idx, (end_idx - int_idx - 1)%nat)
    else (int_idx, 0%nat) in
  if (int_cnt + frac_cnt =? 0)%nat then Ret (Err Other)
  else
    res ← fix_word_cnt_err (word_cnt (Z.of_nat int_cnt)) (word_cnt (Z.of_nat frac_cnt)) word_buf_len;
    let '(int_word_cnt, frac_word_cnt) := res_val res in
    let frac_cnt := if negb (is_ok res) then Z.to_nat (frac_word_cnt * DIGITS_PER_WORD) else frac_cnt in
    let int_cnt := if negb (is_ok res) && is_overCausetxctx res
                   then Z.to_nat (int_word_cnt * DIGITS_PER_WORD) else int_cnt in
    let d := dec_new (as_u8 (Z.of_nat int_cnt)) (as_u8 (Z.of_nat frac_cnt)) negative in
    buf ← put_digits bs int_idx int_cnt frac_cnt int_word_cnt (word_buf d);
    let d := res_map (fun _ => with_buf d buf) res in
    let finish (d : Res Decimal) : outcome (result (Res Decimal)) :=
      let neg (d : Decimal) :=
        if forallb (fun c => c =? 0) (word_buf d) then with_negative d false else d in
      Ret (Ok (res_map (fun d => with_result_frac_cnt (neg d) (DecimalBase.frac_cnt d)) d)) in
    let e := default 0 (bs !! end_idx) in
    if (end_idx <? length bs)%nat && ((e =? 101) || (e =? 69)) then
      match bytes_to_int_without_context (drop (end_idx + 1) bs) with
      | Err e => Ret (Err e)
      | Ok exp =>
          if 1073741823 <? exp then
            m ← max_or_min_dec (DecimalBase.negative (res_val d)) (WORD_BUF_LEN * DIGITS_PER_WORD) 0;
            Ret (Ok (ROverCausetxctx m))
          else if (exp <? -1073741824) && negb (is_overCausetxctx d) then
            Ret (Ok (RTruncated dec_zero))
          else
            d ← apply_exponent d exp;
            finish d
      end
    else finish d.

(** [from_bytes_with_word_buf] *)
Definition from_bytes_with_word_buf (s : list Z) (word_buf_len : Z)
  : outcome (result (Res Decimal)) :=
  match skip_while is_ascii_whitespace s with
  | [] => Ret (Err Other)
  | c :: bs =>
      if c =? 45 then from_unsigned bs true word_buf_len
      else if c =? 43 then from_unsigned bs false word_buf_len
      else from_unsigned (c :: bs) false word_buf_len
  end.

Definition from_bytes (s : list Z) : outcome (result (Res Decimal)) :=
  from_bytes_with_word_buf s WORD_BUF_LEN.

(** [FromStr::from_str]: a mark is an error. *)
Definition from_str (s : list Z) : outcome (result Decimal) :=
  r ← from_bytes s;
  Ret match r with
      | Err e => Err e
      | Ok (ROk d) => Ok d
      | Ok (ROverCausetxctx _) => Err Other
      | Ok (RTruncated _) => Err Other
      end.

(** ** To text *)

(** [prepare_buf]: the capacity of the text, the first word, and the digit counts
    [(int_len, int_cnt, frac_cnt)]. *)
Definition prepare_buf (d : Decimal) : outcome (Z * Z * Z * Z * Z) :=
  let frac := frac_cnt d in
  '(word_start_idx, int) ← remove_leading_zeroes d (int_cnt d);
  total ← u8 (int + frac);
  let '(int, word_start_idx) := if total =? 0 then (1, 0) else (int, word_start_idx) in
  let int_len := Z.max 1 int in
  len ← u8 (int_len + frac);
  len ← (if negative d then u8 (len + 1) else Ret len);
  len ← (if 0 <? frac then u8 (len + 1) else Ret len);
  Ret (len, word_start_idx, int_len, int, frac).

(** The [k] low digits of a word, in front of [acc]. *)
Fixpoint low_digits (k : nat) (x : Z) (acc : list Z) : list Z :=
  match k with
  | O => acc
  | S k' => low_digits k' (x / 10) (48 + x mod 10 :: acc)
  end.

(** [while idx > base_idx]: [cnt] integer digits up to the word before [widx]; each
    step takes at least one. *)
Fixpoint int_text (fuel : nat) (buf : list Z) (cnt widx : Z) (acc : list Z) : outcome (list Z) :=
  match fuel with
  | O => Panic
  | S fuel' =>
      if 0 <? cnt then
        widx ← usize_dec widx;
        x ← get buf widx;
        let k := Z.min cnt DIGITS_PER_WORD in
        int_text fuel' buf (cnt - k) widx (low_digits (Z.to_nat k) x acc)
      else Ret acc
  end.

(** The [k] high digits of a nine-digit word. *)
Fixpoint high_digits (k : nat) (x : Z) : outcome (list Z) :=
  match k with
  | O => Ret []
  | S k' =>
      c ← u8 (as_u8 (x / DIG_MASK) + 48);
      x ← u32 ((x mod DIG_MASK) * 10);
      cs ← high_digits k' x;
      Ret (c :: cs)
  end.

(** [while buf.len() < exp_idx]: [cnt] fraction digits. *)
Fixpoint frac_text (fuel : nat) (buf : list Z) (cnt widx : Z) : outcome (list Z) :=
  match fuel with
  | O => Panic
  | S fuel' =>
      if 0 <? cnt then
        x ← get buf widx;
        let k := Z.min cnt DIGITS_PER_WORD in
        cs ← high_digits (Z.to_nat k) x;
        rest ← frac_text fuel' buf (cnt - k) (widx + 1);
        Ret (cs ++ rest)
      else Ret []
  end.

(** [to_string]; the buffer's capacity is what [prepare_buf] asks for. *)
Definition to_string (d : Decimal) : outcome (list Z) :=
  '(capacity, word_start_idx, int_len, int, frac) ← prepare_buf d;
  let sign := if negative d then [45] else [] in
  pad ← u8 (int_len - Z.max int 1);
  let buf := sign ++ replicate (Z.to_nat pad) 48 in
  ints ← (if 0 <? int then int_text 256 (word_buf d) int (word_start_idx + word_cnt int) []
          else Ret [48]);
  let buf := buf ++ ints in
  if 0 <? frac then
    fracs ← frac_text 256 (word_buf d) frac (word_start_idx + word_cnt int);
    let buf := buf ++ 46 :: fracs in
    Ret (buf ++ replicate (Z.to_nat (capacity - Z.of_nat (length buf))) 48)
  else Ret buf.

(** [Display::fmt] *)
Definition dec_display (d : Decimal) : outcome (list Z) :=
  r ← round d (as_i8 (result_frac_cnt d)) HalfEven;
  to_string (res_val r).

End WithTable.
