(* ===== verification/DecimalCodec.v ===== *)
(** * DecimalCodec: the binary form of a decimal

    [write_decimal], [read_word], [read_decimal] and [approximate_encoded_size] of
    [berolinasql/src/decimal.rs].  The writer is the growing byte vector: its state
    is the list of bytes written so far; the reader's state is the list of bytes
    that are left. *)
From Stdlib Require Import ZArith Lia.
From stdpp Require Import base list numbers.
From S2P Require Import Prelude Words EvalCtx DecimalBase.
#[local] Open Scope Z_scope.

(** ** Writing *)

(** The bytes of a word, most significant first, [size] of them. *)
Definition word_bytes (word size : Z) : outcome (list Z) :=
  if size =? 1 then Ret [as_u8 word]
  else if size =? 2 then Ret [as_u8 (Z.shiftr word 8); as_u8 word]
  else if size =? 3 then Ret [as_u8 (Z.shiftr word 16); as_u8 (Z.shiftr word 8); as_u8 word]
  else if size =? 4 then
    Ret [as_u8 (Z.shiftr word 24); as_u8 (Z.shiftr word 16); as_u8 (Z.shiftr word 8); as_u8 word]
  else Panic.

(** The first byte of the payload has its top bit flipped. *)
Definition flip_first (bs : list Z) : list Z :=
  match bs with [] => [] | b :: bs' => Z.lxor b 128 :: bs' end.

(** [write_u8!] and [write_word!]: the bytes written and their number. *)
Definition write_u8 (out : list Z) (b written : Z) : list Z * Z :=
  let bs := [b] in
  (out ++ (if written =? 0 then flip_first bs else bs), written + 1).

Definition write_word (out : list Z) (word size written : Z) : outcome (list Z * Z) :=
  data ← word_bytes word size;
  Ret (out ++ (if written =? 0 then flip_first data else data), written + size).

(** [n] mask bytes. *)
Fixpoint write_pad (n : nat) (out : list Z) (b written : Z) : list Z * Z :=
  match n with
  | O => (out, written)
  | S n' => let '(out, written) := write_u8 out b written in write_pad n' out b written
  end.

(** [while src_word_start_idx < stop]: whole words. *)
Fixpoint write_words (n : nat) (buf : list Z) (mask idx : Z) (out : list Z) (written : Z)
  : outcome (list Z * Z) :=
  match n with
  | O => Ret (out, written)
  | S n' =>
      w ← get buf idx;
      '(out, written) ← write_word out (Z.lxor w mask) 4 written;
      write_words n' buf mask (idx + 1) out written
  end.

(** [while src_trailing_digits < lim && DIG_2_BYTES[src_trailing_digits] == i]. *)
Fixpoint widen_trailing (n : nat) (i src_trailing_digits : Z) : outcome Z :=
  match n with
  | O => Ret src_trailing_digits
  | S n' =>
      b ← get DIG_2_BYTES src_trailing_digits;
      if b =? i then widen_trailing n' i (src_trailing_digits + 1) else Ret src_trailing_digits
  end.

Section WithTable.
Context {TP : TenPow}.

(** The split of [n] digits into whole words, left digits and bytes. *)
Definition digit_sizes (n : Z) : outcome (Z * Z * Z) :=
  let words := n / DIGITS_PER_WORD in
  let left := n - words * DIGITS_PER_WORD in
  b ← get DIG_2_BYTES left;
  size ← u8 (words * WORD_SIZE + b);
  Ret (words, left, size).

(** What is written of the integer part: the source's first word, whole words and
    leading digits, after the pad; and whether digits were lost. *)
Definition write_int_plan (int_cnt int_word_cnt leading_digits int_size : Z)
    (src_idx src_int_cnt src_int_word_cnt src_leading_digits src_int_size : Z)
    (mask : Z) (out : list Z) : outcome (Z * Z * Z * bool * list Z * Z) :=
  if int_cnt <? src_int_cnt then
    d ← u8 (src_int_word_cnt - int_word_cnt);
    let idx := src_idx + d in
    let idx := if 0 <? src_leading_digits then idx + 1 else idx in
    idx ← (if 0 <? leading_digits then usize_dec idx else Ret idx);
    Ret (idx, int_word_cnt, leading_digits, true, out, 0)
  else
    let '(out, written) :=
      if src_int_size <? int_size
      then write_pad (Z.to_nat (int_size - src_int_size)) out (as_u8 mask) 0
      else (out, 0) in
    Ret (src_idx, src_int_word_cnt, src_leading_digits, false, out, written).

(** What is written of the fraction part: the source's whole words and trailing
    digits, the bytes of the fraction, and whether digits were lost. *)
Definition write_frac_plan (frac_word_cnt trailing_digits frac_size : Z)
    (src_frac_word_cnt src_trailing_digits src_frac_size : Z) : Z * Z * Z * bool :=
  if frac_size <? src_frac_size then (frac_word_cnt, trailing_digits, frac_size, true)
  else if (src_frac_size <? frac_size) && (0 <? src_trailing_digits) then
    if frac_word_cnt =? src_frac_word_cnt then
      (src_frac_word_cnt, trailing_digits, src_frac_size, false)
    else (src_frac_word_cnt + 1, 0, frac_size, false)
  else (src_frac_word_cnt, src_trailing_digits, frac_size, false).

(** [write_decimal] on the buffer [out]. *)
Definition write_decimal (out : list Z) (d : Decimal) (prec frac : Z)
  : outcome (list Z * Res unit) :=
  let out := out ++ [prec; frac] in
  let mask := if negative d then U32_MAX else 0 in
  int ← u8 (prec - frac);
  '(int_word_cnt, leading_digits, int_size) ← digit_sizes int;
  '(frac_word_cnt, trailing_digits, frac_size) ← digit_sizes frac;
  '(src_frac_word_cnt, src_trailing_digits, src_frac_size) ← digit_sizes (frac_cnt d);
  '(src_word_start_idx, src_int_cnt) ← remove_leading_zeroes d (int_cnt d);
  s ← u8 (src_int_cnt + src_frac_size);
  let '(mask, int) := if s =? 0 then (0, 1) else (mask, int) in
  '(src_int_word_cnt, src_leading_digits, src_int_size) ← digit_sizes src_int_cnt;
  '(idx, src_int_word_cnt, src_leading_digits, over, out, written) ←
    write_int_plan int int_word_cnt leading_digits int_size
      src_word_start_idx src_int_cnt src_int_word_cnt src_leading_digits src_int_size mask out;
  let '(src_frac_word_cnt, src_trailing_digits, frac_size, trunc) :=
    write_frac_plan frac_word_cnt trailing_digits frac_size
      src_frac_word_cnt src_trailing_digits src_frac_size in
  let res := if trunc then RTruncated tt else if (over : bool) then ROverCausetxctx tt else ROk tt in
  '(idx, out, written) ←
    (if 0 <? src_leading_digits then
       i ← get DIG_2_BYTES src_leading_digits;
       w ← get (word_buf d) idx;
       t ← get TEN_POW src_leading_digits;
       '(out, written) ← write_word out (Z.lxor (w mod t) mask) i written;
       Ret (idx + 1, out, written)
     else Ret (idx, out, written));
  let stop := idx + src_int_word_cnt + src_frac_word_cnt in
  '(out, written) ← write_words (Z.to_nat (stop - idx)) (word_buf d) mask idx out written;
  let idx := Z.max idx stop in
  '(out, written) ←
    (if 0 <? src_trailing_digits then
       i ← get DIG_2_BYTES src_trailing_digits;
       let lim := if src_frac_word_cnt <? frac_word_cnt then DIGITS_PER_WORD else trailing_digits in
       src_trailing_digits ←
         widen_trailing (Z.to_nat (lim - src_trailing_digits)) i src_trailing_digits;
       w ← get (word_buf d) idx;
       t ← get TEN_POW (DIGITS_PER_WORD - src_trailing_digits);
       write_word out (Z.lxor (w / t) mask) i written
     else Ret (out, written));
  if src_frac_size <? frac_size then
    total ← u8 (int_size + frac_size);
    let n := Z.min (frac_size - src_frac_size) (total - written) in
    Ret ((write_pad (Z.to_nat n) out (as_u8 mask) written).1, res)
  else Ret (out, res).

(** ** Reading *)

(** [i32::from(first as i8) << k] and the like, on unsigned bytes. *)
Definition sign_byte (b : Z) : Z := as_i8 b.

(** The word of the bytes [bs], sign-extended from the first of them. *)
Definition read_word_bytes (first : Z) (bs : list Z) (size : Z) : outcome Z :=
  if size =? 1 then Ret (as_u32 (sign_byte first))
  else if size =? 2 then
    b1 ← get bs 1; Ret (as_u32 (as_i32 (Z.shiftl (sign_byte first) 8) + b1))
  else if size =? 3 then
    b1 ← get bs 1; b2 ← get bs 2;
    Ret (if negb (Z.land first 128 =? 0)
         then Z.lor (Z.lor (Z.lor (Z.shiftl 255 24) (Z.shiftl first 16)) (Z.shiftl b1 8)) b2
         else Z.lor (Z.lor (Z.shiftl first 16) (Z.shiftl b1 8)) b2)
  else if size =? 4 then
    b1 ← get bs 1; b2 ← get bs 2; b3 ← get bs 3;
    Ret (as_u32 (as_i32 (Z.shiftl (sign_byte first) 24) + Z.shiftl b1 16 + Z.shiftl b2 8 + b3))
  else Panic.

(** [read_word]: the word, the flag and the bytes left.  An empty buffer fails the
    length test, the sizes being positive. *)
Definition read_word (bs : list Z) (size : Z) (is_first : bool) : outcome (result (Z * bool * list Z)) :=
  if Z.of_nat (length bs) <? size then Ret (Err Other)
  else
    b0 ← get bs 0;
    let '(first, is_first) := if is_first then (Z.lxor b0 128, false) else (b0, is_first) in
    w ← read_word_bytes first bs size;
    Ret (Ok (w, is_first, drop (Z.to_nat size) bs)).

(** The whole words: [int] tells the integer part, whose leading zero words are
    dropped from the count. *)
Fixpoint read_words (n : nat) (int : bool) (mask : Z) (d : Decimal) (word_idx : Z)
    (is_first : bool) (bs : list Z) : outcome (result (Decimal * Z * bool * list Z)) :=
  match n with
  | O => Ret (Ok (d, word_idx, is_first, bs))
  | S n' =>
      r ← read_word bs 4 is_first;
      match r with
      | Err e => Ret (Err e)
      | Ok (w, is_first, bs) =>
          let w := Z.lxor w mask in
          buf ← set (word_buf d) word_idx w;
          let d := with_buf d buf in
          if WORD_MAX <? w then Ret (Err Other)
          else if int then
            if (0 <? word_idx) || negb (w =? 0)
            then read_words n' int mask d (word_idx + 1) is_first bs
            else
              i ← u8 (int_cnt d - DIGITS_PER_WORD);
              read_words n' int mask (with_int_cnt d i) word_idx is_first bs
          else read_words n' int mask d (word_idx + 1) is_first bs
      end
  end.

(** The leading digits. *)
Definition read_leading (leading_digits mask : Z) (d : Decimal) (is_first : bool) (bs : list Z)
  : outcome (result (Decimal * Z * bool * list Z)) :=
  if 0 <? leading_digits then
    i ← get DIG_2_BYTES leading_digits;
    r ← read_word bs i is_first;
    match r with
    | Err e => Ret (Err e)
    | Ok (w, is_first, bs) =>
        let w := Z.lxor w mask in
        buf ← set (word_buf d) 0 w;
        let d := with_buf d buf in
        t ← get TEN_POW (leading_digits + 1);
        if t <=? w then Ret (Err Other)
        else if negb (w =? 0) then Ret (Ok (d, 1, is_first, bs))
        else
          i ← u8 (int_cnt d - leading_digits);
          Ret (Ok (with_int_cnt d i, 0, is_first, bs))
    end
  else Ret (Ok (d, 0, is_first, bs)).

(** The trailing digits. *)
Definition read_trailing (trailing_digits mask : Z) (d : Decimal) (word_idx : Z) (is_first : bool)
    (bs : list Z) : outcome (result (Decimal * list Z)) :=
  if 0 <? trailing_digits then
    i ← get DIG_2_BYTES trailing_digits;
    r ← read_word bs i is_first;
    match r with
    | Err e => Ret (Err e)
    | Ok (w, _, bs) =>
        let x := Z.lxor w mask in
        t ← get TEN_POW (DIGITS_PER_WORD - trailing_digits);
        match checked 0 U32_MAX (x * t) with
        | Some v =>
            if v <=? WORD_MAX then
              buf ← set (word_buf d) word_idx v;
              Ret (Ok (with_buf d buf, bs))
            else Ret (Err Other)
        | None => Ret (Err Other)
        end
    end
  else Ret (Ok (d, bs)).

(** [read_decimal]: the decimal and the bytes left. *)
Definition read_decimal (bs : list Z) : outcome (result (Decimal * list Z)) :=
  if (length bs <? 3)%nat then Ret (Err Other)
  else
    prec ← get bs 0;
    frac ← get bs 1;
    let bs := drop 2 bs in
    if prec <? frac then Ret (Err Other)
    else
      let int := prec - frac in
      let int_word_cnt := int / DIGITS_PER_WORD in
      let leading_digits := int - int_word_cnt * DIGITS_PER_WORD in
      let frac_word_cnt := frac / DIGITS_PER_WORD in
      let trailing_digits := frac - frac_word_cnt * DIGITS_PER_WORD in
      let int_word_to := if 0 <? leading_digits then int_word_cnt + 1 else int_word_cnt in
      let frac_word_to := if 0 <? trailing_digits then frac_word_cnt + 1 else frac_word_cnt in
      b0 ← get bs 0;
      let mask := if negb (Z.land b0 128 =? 0) then 0 else U32_MAX in
      res ← fix_word_cnt_err int_word_to frac_word_to WORD_BUF_LEN;
      if negb (is_ok res) then Ret (Err Other)
      else
        let d := with_result_frac_cnt (dec_new int frac (negb (mask =? 0))) frac in
        r ← read_leading leading_digits mask d true bs;
        match r with
        | Err e => Ret (Err e)
        | Ok (d, word_idx, is_first, bs) =>
            r ← read_words (Z.to_nat int_word_cnt) true mask d word_idx is_first bs;
            match r with
            | Err e => Ret (Err e)
            | Ok (d, word_idx, is_first, bs) =>
                r ← read_words (Z.to_nat frac_word_cnt) false mask d word_idx is_first bs;
                match r with
                | Err e => Ret (Err e)
                | Ok (d, word_idx, is_first, bs) =>
                    r ← read_trailing trailing_digits mask d word_idx is_first bs;
                    match r with
                    | Err e => Ret (Err e)
                    | Ok (d, bs) =>
                        let d := if (int_cnt d =? 0) && (frac_cnt d =? 0) then dec_zero else d in
                        Ret (Ok (with_result_frac_cnt d frac, bs))
                    end
                end
            end
        end.

(** [approximate_encoded_size] *)
Definition approximate_encoded_size (d : Decimal) : outcome Z :=
  '(prec, frac) ← prec_and_frac d;
  r ← dec_encoded_len [prec; frac];
  Ret match r with Ok n => n | Err _ => 3 end.

End WithTable.
