(* ===== verification/DecimalWire.v ===== *)
(** * DecimalWire: a decimal survives its binary form

    What [remove_leading_zeroes] computes, first: the first non-zero word of the leading
    digits and the digits left from there.  Then [write_decimal] with the precision
    [prec_and_frac] asks for and [read_decimal]: the same number comes back, the bytes
    written are as many as [dec_encoded_len] says, and what follows them is left alone.
    One word at a time: [write_word!] and [read_word] are inverse on the words that fit
    their bytes, under either sign mask. *)
From Stdlib Require Import ZArith Lia.
From stdpp Require Import base list numbers.
From S2P Require Import Prelude Words EvalCtx DecimalBase DecimalCodec DecimalLoops.
#[local] Open Scope Z_scope.

#[local] Notation W := (Forall (word BASE)).
#[local] Notation zlen l := (Z.of_nat (length l)).

Lemma pow10_pos n : 0 <= n → 0 < 10 ^ n.
Proof. intros. by apply Z.pow_pos_nonneg. Qed.

Lemma pow10_9 : 10 ^ 9 = BASE.
Proof. done. Qed.

(** The digits of the word that holds the most significant of [n] digits. *)
Definition top_digits (n : Z) : Z := (n - 1) mod 9 + 1.

Lemma top_digits_bounds n : 1 <= top_digits n <= 9.
Proof. unfold top_digits. pose proof (Z.mod_pos_bound (n - 1) 9). lia. Qed.

Section Lead.
Context {TP : TenPow}.

Lemma clz_loop_spec (i : nat) : ∀ w c0, (i <= 8)%nat → 0 < w → 0 <= c0 → c0 + Z.of_nat i <= 100 →
  ∃ c, clz_loop i w c0 = Ret (c0 + c) ∧ 0 <= c <= Z.of_nat i
    ∧ 10 ^ (Z.of_nat i - c) <= w
    ∧ (w < 10 ^ (Z.of_nat i + 1) → w < 10 ^ (Z.of_nat i - c + 1)).
Proof.
  induction i as [|i IH]; intros w c0 Hi Hw Hc Hc2; cbn [clz_loop]; rewrite TEN_POW_get by lia; bindr.
  - change (10 ^ Z.of_nat 0) with 1. rewrite (proj2 (Z.ltb_ge w 1)) by lia. exists 0.
    rewrite Z.add_0_r. split_and!; done || (cbn; lia).
  - destruct (Z.ltb_spec w (10 ^ Z.of_nat (S i))) as [Hlt|Hge].
    + rewrite u8_ok by lia. bindr. destruct (IH w (c0 + 1)) as (c & -> & Hc' & Hlo & Hhi); [lia..|].
      exists (c + 1). split; [f_equal; lia|]. split; [lia|].
      replace (Z.of_nat (S i) - (c + 1)) with (Z.of_nat i - c) by lia.
      split; [done|]. intros _. apply Hhi. replace (Z.of_nat i + 1) with (Z.of_nat (S i)) by lia. done.
    + exists 0. rewrite Z.add_0_r, Z.sub_0_r. split; [done|]. split; [lia|]. split; [done|]. done.
Qed.

Lemma count_leading_zeroes_spec i w : 0 <= i <= 8 → 0 < w →
  ∃ n, count_leading_zeroes i w = Ret (i + 1 - n) ∧ 1 <= n <= i + 1
    ∧ 10 ^ (n - 1) <= w ∧ (w < 10 ^ (i + 1) → w < 10 ^ n).
Proof.
  intros Hi Hw. unfold count_leading_zeroes.
  destruct (clz_loop_spec (Z.to_nat i) w 0) as (c & -> & Hc & Hlo & Hhi); [lia..|].
  rewrite Z2Nat.id in * by lia. exists (i + 1 - c).
  replace (i + 1 - (i + 1 - c)) with (0 + c) by lia.
  replace (i + 1 - c - 1) with (i - c) by lia. replace (i + 1 - c) with (i - c + 1) by lia.
  split_and!; done || lia.
Qed.

(** The loop skips whole zero words. *)
Lemma rlz_loop_spec (ws : list Z) : ∀ fuel pre post cnt i,
  (length ws < fuel)%nat → W ws → 1 <= i <= 9 →
  cnt = (if decide (ws = []) then 0 else 9 * (zlen ws - 1) + i) → cnt <= 81 →
  ∃ k rest, ws = replicate k 0 ++ rest
    ∧ rlz_loop fuel (pre ++ ws ++ post) cnt i (zlen pre)
      = Ret (if decide (rest = []) then 0 else if decide (k = O) then cnt else 9 * zlen rest,
             zlen pre + Z.of_nat k)
    ∧ ∀ w rest', rest = w :: rest' → 0 < w.
Proof.
  induction ws as [|w ws IH]; intros fuel pre post cnt i Hf HW Hi Hcnt Hb;
    (destruct fuel as [|fuel]; [cbn in Hf; lia|]); cbn [rlz_loop].
  - rewrite decide_True in Hcnt by done. subst cnt. exists O, []. cbn. rewrite Z.add_0_r. done.
  - rewrite decide_False in Hcnt by done. cbn [length] in *.
    rewrite (proj2 (Z.ltb_lt 0 cnt)) by lia. cbn [app]. rewrite get_mid by done. bindr.
    apply Forall_cons_1 in HW as [Hw HW]. unfold word in Hw. case_Z.
    + subst w. rewrite u8_ok by lia. bindr. rewrite (app_cons_l pre).
      destruct (IH fuel (pre ++ [0]) post (cnt - i) DIGITS_PER_WORD)
        as (k & rest & -> & Hl & Hr); [lia|done|unfold DIGITS_PER_WORD; lia| |lia|].
      { unfold DIGITS_PER_WORD. destruct (decide (ws = [])) as [->|]; [cbn in Hcnt; lia|lia]. }
      rewrite length_app in Hl. cbn [length] in Hl.
      replace (Z.of_nat (length pre + 1)) with (zlen pre + 1) in Hl by lia.
      exists (S k), rest. split; [done|]. split; [|done]. rewrite Hl. f_equal. f_equal; [|lia].
      destruct (decide (rest = [])) as [|Hne]; [done|]. rewrite (decide_False (P := S k = O)) by lia.
      destruct (decide (k = O)) as [->|]; [|done]. cbn [replicate app] in *. lia.
    + exists O, (w :: ws). split; [done|]. rewrite decide_False, decide_True by done.
      split; [f_equal; f_equal; lia|]. intros ? ? [= <- <-]. lia.
Qed.

(** [remove_leading_zeroes] on the words [ws] that hold the leading [prec] digits:
    [k] zero words are skipped; the count is that of the digits from the first
    non-zero one on, as long as the first word is not wider than it should be. *)
Lemma remove_leading_zeroes_spec d prec ws post :
  word_buf d = ws ++ post → W ws → 0 <= prec <= 81 → zlen ws = (prec + 8) / 9 →
  ∃ k rest c, ws = replicate k 0 ++ rest
    ∧ remove_leading_zeroes d prec = Ret (Z.of_nat k, c) ∧ 0 <= c <= prec
    ∧ ((rest = [] ∧ c = 0) ∨
       ∃ w rest' n, rest = w :: rest' ∧ 0 < w ∧ c = 9 * zlen rest' + n ∧ 1 <= n <= 9
         ∧ 10 ^ (n - 1) <= w
         ∧ (w < 10 ^ (if decide (k = O) then top_digits prec else 9) → w < 10 ^ n)).
Proof.
  intros Eb HW Hp Hlen. unfold remove_leading_zeroes. rewrite u8_ok by (unfold DIGITS_PER_WORD; lia).
  bindr. set (i := (prec + DIGITS_PER_WORD - 1) mod DIGITS_PER_WORD + 1).
  assert (Hi : i = top_digits prec).
  { unfold i, top_digits, DIGITS_PER_WORD. f_equal.
    replace (prec + 9 - 1) with (prec - 1 + 1 * 9) by lia. by rewrite Z.mod_add by lia. }
  pose proof (top_digits_bounds prec) as Hi9.
  assert (Hcnt : prec = if decide (ws = []) then 0 else 9 * (zlen ws - 1) + i).
  { destruct (decide (ws = [])) as [->|Hne].
    - cbn in Hlen. zdiv.
    - destruct ws; [done|]. rewrite Hlen, Hi. unfold top_digits. cbn in Hlen. zdiv. }
  destruct (rlz_loop_spec ws 11 [] post prec i) as (k & rest & -> & Hl & Hr); [zdiv|done|lia|done|lia|].
  rewrite Eb. cbn [app length] in Hl. change (Z.of_nat 0) with 0 in Hl. rewrite Hl. bindr. cbn [fst snd].
  exists k, rest. destruct (decide (rest = [])) as [->|Hne].
  - exists 0. change (0 <? 0) with false. cbn iota. rewrite Z.add_0_l.
    split; [done|]. split; [done|]. split; [lia|]. by left.
  - destruct rest as [|w rest']; [done|]. specialize (Hr w rest' eq_refl).
    set (cnt := if decide (k = O) then prec else 9 * zlen (w :: rest')).
    set (m := if decide (k = O) then top_digits prec else 9).
    assert (Hm : cnt = 9 * zlen rest' + m ∧ 1 <= m <= 9 ∧ cnt <= prec).
    { rewrite decide_False in Hcnt by (by destruct k). rewrite length_app, length_replicate in Hcnt.
      cbn [length] in Hcnt. subst cnt m. destruct (decide (k = O)) as [->|]; cbn [length]; lia. }
    destruct Hm as (Hcm & Hm9 & Hcp).
    rewrite (proj2 (Z.ltb_lt 0 cnt)) by lia. rewrite <- app_assoc. cbn [app].
    rewrite get_mid by (rewrite length_replicate; lia). bindr.
    assert (Em : (cnt - 1) mod DIGITS_PER_WORD = m - 1).
    { rewrite Hcm. unfold DIGITS_PER_WORD.
      replace (9 * zlen rest' + m - 1) with (m - 1 + zlen rest' * 9) by lia.
      rewrite Z.mod_add, Z.mod_small by lia. done. }
    rewrite Em. destruct (count_leading_zeroes_spec (m - 1) w) as (n & -> & Hn & Hlo & Hhi); [lia..|].
    bindr. rewrite u8_ok by lia. bindr. exists (9 * zlen rest' + n).
    split; [done|]. split; [f_equal; f_equal; lia|]. split; [lia|]. right.
    exists w, rest', n. replace (m - 1 + 1) with m in Hhi by lia.
    split_and!; done || lia.
Qed.
End Lead.

(** The two masks: [0] for a positive number, all ones for a negative one. *)
Definition mask_of (neg : bool) : Z := if neg then U32_MAX else 0.

(** A masked word: the word, or its complement. *)
Definition masked (neg : bool) (w : Z) : Z := if neg then U32_MAX - w else w.

Lemma lxor_ones w : 0 <= w <= U32_MAX → Z.lxor w U32_MAX = U32_MAX - w.
Proof.
  mach. intros Hw. change 4294967295 with (Z.ones 32).
  assert (Hhi : ∀ n, 32 <= n → Z.testbit w n = false).
  { intros n Hn. destruct (Z.eq_dec w 0) as [->|]; [apply Z.bits_0|].
    apply Z.bits_above_log2; [lia|]. apply Z.log2_lt_pow2; [lia|].
    apply Z.lt_le_trans with (2 ^ 32); [lia|]. apply Z.pow_le_mono_r; lia. }
  rewrite Z.sub_nocarry_ldiff.
  - apply Z.bits_inj'. intros n Hn. rewrite Z.lxor_spec, Z.ldiff_spec, Z.testbit_ones_nonneg by lia.
    destruct (Z.ltb_spec n 32); [by destruct (Z.testbit w n)|]. by rewrite Hhi by lia.
  - apply Z.bits_inj'. intros n Hn. rewrite Z.ldiff_spec, Z.bits_0, Z.testbit_ones_nonneg by lia.
    destruct (Z.ltb_spec n 32); [by rewrite andb_false_r|]. by rewrite Hhi by lia.
Qed.

Lemma lxor_mask neg w : 0 <= w <= U32_MAX → Z.lxor w (mask_of neg) = masked neg w.
Proof. destruct neg; cbn; [apply lxor_ones|]. intros _. apply Z.lxor_0_r. Qed.

Lemma masked_masked neg w : masked neg (masked neg w) = w.
Proof. destruct neg; cbn; lia. Qed.

(** Flipping the top bit of a byte, by cases on the bit. *)
Lemma flip_byte b : 0 <= b <= 255 →
  Z.lxor b 128 = (if b <? 128 then b + 128 else b - 128) ∧ Z.lxor (Z.lxor b 128) 128 = b
  ∧ 0 <= Z.lxor b 128 <= 255
  ∧ (Z.land b 128 =? 0) = (b <? 128) ∧ (Z.land (Z.lxor b 128) 128 =? 0) = negb (b <? 128).
Proof.
  intros Hb. assert (H : forallb (fun b => (Z.lxor b 128 =? if b <? 128 then b + 128 else b - 128)
      && (Z.lxor (Z.lxor b 128) 128 =? b)
      && Bool.eqb (Z.land b 128 =? 0) (b <? 128)
      && Bool.eqb (Z.land (Z.lxor b 128) 128 =? 0) (negb (b <? 128)))
    (seqZ 0 256) = true) by (by vm_compute).
  rewrite forallb_forall in H. specialize (H b).
  rewrite !andb_true_iff, !Z.eqb_eq, !eqb_true_iff in H.
  destruct H as [ [ [H1 H2] H3] H4].
  { apply list_elem_of_In, elem_of_seqZ. lia. }
  split_and!; auto; rewrite H1; case_Z; lia.
Qed.

(** Bytes put side by side. *)
Lemma lor_add a b k : 0 <= k → 0 <= b < 2 ^ k → Z.lor (a * 2 ^ k) b = a * 2 ^ k + b.
Proof.
  intros Hk Hb. assert (Hl : Z.land (a * 2 ^ k) b = 0).
  { apply Z.bits_inj'. intros n Hn. rewrite Z.land_spec, Z.bits_0.
    destruct (Z.lt_ge_cases n k).
    - by rewrite Z.mul_pow2_bits_low by lia.
    - destruct (Z.eq_dec b 0) as [->|]; [by rewrite Z.bits_0, andb_false_r|].
      rewrite (Z.bits_above_log2 b n), andb_false_r; [done|lia|].
      apply Z.log2_lt_pow2; [lia|]. apply Z.lt_le_trans with (2 ^ k); [lia|].
      apply Z.pow_le_mono_r; lia. }
  by rewrite <- Z.lxor_lor, <- Z.add_nocarry_lxor by done.
Qed.

Lemma bytes3 a b c : 0 <= b < 256 → 0 <= c < 256 →
  Z.lor (Z.lor (Z.shiftl a 16) (Z.shiftl b 8)) c = a * 65536 + b * 256 + c.
Proof.
  intros Hb Hc. rewrite !Z.shiftl_mul_pow2 by lia.
  rewrite (lor_add a (b * 2 ^ 8) 16) by lia.
  replace (a * 2 ^ 16 + b * 2 ^ 8) with ((a * 256 + b) * 2 ^ 8) by lia.
  rewrite lor_add by lia. lia.
Qed.

Lemma bytes4 d a b c : 0 <= a < 256 → 0 <= b < 256 → 0 <= c < 256 →
  Z.lor (Z.lor (Z.lor (Z.shiftl d 24) (Z.shiftl a 16)) (Z.shiftl b 8)) c
  = d * 16777216 + a * 65536 + b * 256 + c.
Proof.
  intros Ha Hb Hc. rewrite !Z.shiftl_mul_pow2 by lia.
  rewrite (lor_add d (a * 2 ^ 16) 24) by lia.
  replace (d * 2 ^ 24 + a * 2 ^ 16) with ((d * 256 + a) * 2 ^ 16) by lia.
  rewrite (lor_add _ (b * 2 ^ 8) 16) by lia.
  replace ((d * 256 + a) * 2 ^ 16 + b * 2 ^ 8) with (((d * 256 + a) * 256 + b) * 2 ^ 8) by lia.
  rewrite lor_add by lia. lia.
Qed.

(** A word that fits [size] bytes below the sign bit. *)
Definition fits (w size : Z) : Prop :=
  (size = 1 ∧ 0 <= w < 128) ∨ (size = 2 ∧ 0 <= w < 32768)
  ∨ (size = 3 ∧ 0 <= w < 8388608) ∨ (size = 4 ∧ 0 <= w < 2147483648).

Lemma fits_u32 w size : fits w size → 0 <= w <= U32_MAX ∧ 1 <= size <= 4.
Proof. unfold fits. mach. lia. Qed.

Lemma get_0 {A} (a : A) l : get (a :: l) 0 = Ret a.
Proof. done. Qed.
Lemma get_1 {A} (a b : A) l : get (a :: b :: l) 1 = Ret b.
Proof. done. Qed.
Lemma get_2 {A} (a b c : A) l : get (a :: b :: c :: l) 2 = Ret c.
Proof. done. Qed.
Lemma get_3 {A} (a b c d : A) l : get (a :: b :: c :: d :: l) 3 = Ret d.
Proof. done. Qed.

(** Two's complement: the sign-extended first byte and the bytes below it. *)
Lemma sign_extend (neg : bool) w k : 1 <= k <= 4 → 0 <= w < 2 ^ (8 * k - 1) →
  let x := masked neg w in
  as_i8 (x / 2 ^ (8 * (k - 1)) mod 256) * 2 ^ (8 * (k - 1)) + x mod 2 ^ (8 * (k - 1))
  = if neg then - 1 - w else w.
Proof.
  intros Hk Hw x.
  assert (k = 1 ∨ k = 2 ∨ k = 3 ∨ k = 4) as [->|[->|[->| ->]]] by lia; cbn in Hw |- *;
    subst x; unfold masked, as_i8; mach; destruct neg; zdiv.
Qed.

Lemma as_u32_masked (neg : bool) w : 0 <= w <= U32_MAX →
  as_u32 (if neg then - 1 - w else w) = masked neg w.
Proof. mach. intros Hw. unfold as_u32, masked. mach. destruct neg; zdiv. Qed.

(** The bytes of a masked word: their number, their range and the sign bit of the
    first, and the word they are read back as. *)
Lemma word_bytes_spec neg w size : fits w size →
  ∃ b bs, word_bytes (masked neg w) size = Ret (b :: bs)
    ∧ Z.of_nat (length (b :: bs)) = size ∧ 0 <= b <= 255
    ∧ (b <? 128) = negb neg
    ∧ ∀ b' rest, read_word_bytes b ((b' :: bs) ++ rest) size = Ret (masked neg w).
Proof.
  intros Hf. unfold word_bytes, read_word_bytes, sign_byte.
  assert (Hu : ∀ z, 0 <= as_u8 z < 256) by (intros; unfold as_u8; apply Z.mod_pos_bound; lia).
  destruct Hf as [ [-> Hw]|[ [-> Hw]|[ [-> Hw]|[-> Hw] ] ] ]; cbn [Z.eqb Pos.eqb];
    eexists _, _; (split; [reflexivity|]); (split; [done|]);
    rewrite ?Z.shiftr_div_pow2 by lia; change (2 ^ 8) with 256; change (2 ^ 16) with 65536;
    change (2 ^ 24) with 16777216;
    (split; [unfold as_u8; zdiv|]);
    (split; [unfold as_u8, masked; mach; destruct neg; case_Z; cbn; (done || (exfalso; zdiv))|]);
    intros b' rest; cbn [app]; rewrite ?get_1, ?get_2, ?get_3; bindr;
    (transitivity (Ret (as_u32 (if neg then - 1 - w else w)));
      [|f_equal; apply as_u32_masked; mach; lia]).
  - rewrite <- (sign_extend neg w 1) by (cbn; lia). change (2 ^ (8 * (1 - 1))) with 1.
    f_equal. rewrite Z.div_1_r, Z.mod_1_r. rewrite Z.mul_1_r, Z.add_0_r. done.
  - rewrite <- (sign_extend neg w 2) by (cbn; lia). rewrite Z.shiftl_mul_pow2 by lia.
    change (2 ^ (8 * (2 - 1))) with 256. change (2 ^ 8) with 256. unfold as_u8.
    rewrite as_i32_id; [done|]. unfold as_i8. mach. zdiv.
  - rewrite as_u32_masked by (mach; lia). f_equal.
    destruct (flip_byte (as_u8 (masked neg w / 65536))) as (_ & _ & _ & -> & _).
    { pose proof (Hu (masked neg w / 65536)). lia. }
    rewrite bytes3, bytes4 by auto.
    unfold as_u8, masked. mach. destruct neg; case_Z; cbn [negb]; zdiv.
  - rewrite <- (sign_extend neg w 4) by (cbn; lia). rewrite !Z.shiftl_mul_pow2 by lia.
    change (2 ^ (8 * (4 - 1))) with 16777216. change (2 ^ 8) with 256.
    change (2 ^ 24) with 16777216. change (2 ^ 16) with 65536. unfold as_u8.
    rewrite as_i32_id; [do 2 f_equal; zdiv|]. unfold as_i8. mach. zdiv.
Qed.

#[local] Notation V := (wval BASE).

(** ** Bytes in sequence *)

(** The bytes of one masked word, and of a list of whole words. *)
Definition wire (neg : bool) (w size : Z) : list Z :=
  match word_bytes (masked neg w) size with Ret bs => bs | Panic => [] end.
Definition wires (neg : bool) (ws : list Z) : list Z := concat (map (fun w => wire neg w 4) ws).

(** The bytes as they stand on the wire: the first of all has its top bit flipped. *)
Definition stream (first : bool) (bs : list Z) : list Z := if first then flip_first bs else bs.

Lemma word_fits w : word BASE w → fits w 4.
Proof. unfold word, fits. lia. Qed.

Lemma wire_spec neg w size : fits w size →
  word_bytes (masked neg w) size = Ret (wire neg w size) ∧ zlen (wire neg w size) = size.
Proof.
  intros (b & bs & E & Hl & _)%(word_bytes_spec neg). unfold wire. rewrite E. by rewrite Hl.
Qed.

Lemma wires_length neg ws : W ws → zlen (wires neg ws) = 4 * zlen ws.
Proof.
  induction 1 as [|w ws Hw _ IH]; [done|]. unfold wires in *. cbn [map concat].
  rewrite length_app, Nat2Z.inj_add, IH.
  rewrite (proj2 (wire_spec neg w 4 (word_fits w Hw))). cbn [length]. lia.
Qed.

Lemma flip_first_app a b : a ≠ [] → flip_first a ++ b = flip_first (a ++ b).
Proof. by destruct a. Qed.

(** Writing: the output so far is a prefix and a flipped payload. *)
Lemma write_word_spec neg w size pre acc : fits w size →
  write_word (pre ++ flip_first acc) (masked neg w) size (zlen acc)
  = Ret (pre ++ flip_first (acc ++ wire neg w size), zlen (acc ++ wire neg w size)).
Proof.
  intros Hf. destruct (wire_spec neg w size Hf) as [E Hl]. unfold write_word. rewrite E. bindr.
  rewrite length_app, Nat2Z.inj_add, Hl. do 2 f_equal.
  destruct acc as [|a acc]; cbn [length].
  - cbn. by rewrite app_nil_r.
  - rewrite (proj2 (Z.eqb_neq _ _)) by lia. by rewrite <- app_assoc, flip_first_app.
Qed.

Lemma write_words_spec neg (ws : list Z) : ∀ a b pre acc, W ws →
  write_words (length ws) (a ++ ws ++ b) (mask_of neg) (zlen a) (pre ++ flip_first acc) (zlen acc)
  = Ret (pre ++ flip_first (acc ++ wires neg ws), zlen (acc ++ wires neg ws)).
Proof.
  induction ws as [|w ws IH]; intros a b pre acc HW; cbn [length write_words].
  - unfold wires. cbn. by rewrite app_nil_r.
  - apply Forall_cons_1 in HW as [Hw HW]. cbn [app]. rewrite get_mid by done. bindr.
    rewrite lxor_mask by (unfold word in Hw; mach; lia).
    rewrite write_word_spec by (by apply word_fits). bindr.
    rewrite (app_cons_l a). replace (zlen a + 1) with (zlen (a ++ [w])) by (rewrite length_app; cbn; lia).
    rewrite IH by done. unfold wires. cbn [map concat]. by rewrite <- !app_assoc.
Qed.

(** Reading one word. *)
Lemma read_word_spec neg w size first rest : fits w size →
  read_word (stream first (wire neg w size ++ rest)) size first
  = Ret (Ok (masked neg w, false, rest)).
Proof.
  intros Hf. pose proof (fits_u32 _ _ Hf) as [_ Hs].
  destruct (word_bytes_spec neg w size Hf) as (b & bs & E & Hl & Hb & _ & Hread).
  unfold wire. rewrite E. unfold read_word, stream. cbn [app flip_first length] in *.
  assert (Hlen : ∀ x, Z.of_nat (length (x :: bs ++ rest)) <? size = false).
  { intros x. apply Z.ltb_ge. cbn [length]. rewrite length_app. lia. }
  assert (Hdrop : ∀ x, drop (Z.to_nat size) (x :: bs ++ rest) = rest).
  { intros x. replace (Z.to_nat size) with (length (x :: bs)) by (cbn; lia).
    exact (drop_app_length (x :: bs) rest). }
  assert (Hread' : ∀ b', read_word_bytes b (b' :: bs ++ rest) size = Ret (masked neg w)).
  { intros b'. exact (Hread b' rest). }
  destruct first; rewrite Hlen, get_0; bindr.
  - destruct (flip_byte b Hb) as (_ & -> & _). rewrite Hread'. bindr. by rewrite Hdrop.
  - rewrite Hread'. bindr. by rewrite Hdrop.
Qed.

Section Wire.
Context {TP : TenPow}.

(** Reading whole words: as many cells of the buffer are set, and the integer part
    loses no digit when its first word is not zero. *)
Lemma read_words_spec neg int (ws : list Z) : ∀ d pre zs post first rest,
  W ws → length zs = length ws →
  (int = true → pre = [] → ∀ w ws', ws = w :: ws' → w ≠ 0) →
  read_words (length ws) int (mask_of neg) (with_buf d (pre ++ zs ++ post)) (zlen pre) first
    (stream first (wires neg ws ++ rest))
  = Ret (Ok (with_buf d (pre ++ ws ++ post), zlen pre + zlen ws,
             first && bool_decide (ws = []), stream (first && bool_decide (ws = [])) rest)).
Proof.
  induction ws as [|w ws IH]; intros d pre zs post first rest HW Hz Hh; cbn [length read_words].
  - apply nil_length_inv in Hz as ->. rewrite bool_decide_eq_true_2, andb_true_r by done.
    unfold wires. cbn. by rewrite Z.add_0_r.
  - apply Forall_cons_1 in HW as [Hw HW]. destruct zs as [|z zs]; [done|].
    unfold wires. cbn [map concat]. rewrite <- app_assoc.
    rewrite read_word_spec by (by apply word_fits). bindr. unfold word in Hw.
    rewrite (lxor_mask neg (masked neg w)) by (unfold masked; destruct neg; mach; lia).
    rewrite masked_masked. cbn [word_buf with_buf app]. rewrite set_mid by done. bindr.
    rewrite WORD_MAX_eq, (proj2 (Z.ltb_ge _ _)) by lia. cbn [int_cnt with_buf].
    rewrite (bool_decide_eq_false_2 (w :: ws = [])), andb_false_r by done.
    replace (zlen pre + Z.of_nat (S (length ws))) with (zlen (pre ++ [w]) + zlen ws)
      by (rewrite length_app; cbn; lia).
    replace (zlen pre + 1) with (zlen (pre ++ [w])) by (rewrite length_app; cbn; lia).
    assert (Hstep : read_words (length ws) int (mask_of neg)
        (with_buf (with_buf d (pre ++ z :: zs ++ post)) (pre ++ w :: zs ++ post))
        (zlen (pre ++ [w])) false (concat (map (λ w0, wire neg w0 4) ws) ++ rest)
      = Ret (Ok (with_buf d (pre ++ w :: ws ++ post), zlen (pre ++ [w]) + zlen ws, false, rest))).
    { rewrite (app_cons_l pre w (zs ++ post)), (app_cons_l pre w (ws ++ post)).
      apply (IH d (pre ++ [w]) zs post false rest); [done|by cbn in Hz; lia|].
      intros _ Hp. by apply app_nil in Hp as [_ ?]. }
    destruct int; [|exact Hstep].
    assert ((0 <? zlen pre) || negb (w =? 0) = true) as ->; [|exact Hstep].
    destruct pre as [|p pre]; [|done]. apply orb_true_iff. right.
    apply negb_true_iff, Z.eqb_neq. by eapply Hh.
Qed.

(** ** The shape of a decimal that encodes without loss

    [tight]: no digit outside the counts, in the first and in the last word. *)
Definition tight (d : Decimal) : Prop :=
  (∀ w, word_buf d !! O = Some w → 0 < int_cnt d → w < 10 ^ top_digits (int_cnt d)) ∧
  (∀ v, word_buf d !! Z.to_nat (int_words d + frac_words d - 1) = Some v → 0 < frac_cnt d →
        (10 ^ (9 - top_digits (frac_cnt d)) | v)).

(** The word of the [n] leading digits, and of the [n] trailing ones; none when [n] is
    zero. *)
Definition lead_ok (n : Z) (l : list Z) : Prop :=
  (n = 0 ∧ l = []) ∨ (1 <= n <= 8 ∧ ∃ w, l = [w] ∧ 0 < w < 10 ^ n).
Definition trail_ok (n : Z) (l : list Z) : Prop :=
  (n = 0 ∧ l = []) ∨ (1 <= n <= 8 ∧ ∃ x, l = [x * 10 ^ (9 - n)] ∧ 0 <= x < 10 ^ n).

Record shape (d : Decimal) (k : nat) (lead body mid trail T : list Z) (c : Z) : Prop := {
  sh_buf : word_buf d = replicate k 0 ++ lead ++ body ++ mid ++ trail ++ T;
  sh_rlz : remove_leading_zeroes d (int_cnt d) = Ret (Z.of_nat k, c);
  sh_c : 0 <= c <= 81;
  sh_lead : lead_ok (c mod 9) lead;
  sh_body : zlen body = c / 9;
  sh_head : lead = [] → ∀ w ws, body = w :: ws → w ≠ 0;
  sh_mid : zlen mid = frac_cnt d / 9;
  sh_trail : trail_ok (frac_cnt d mod 9) trail;
  sh_wbody : W body;
  sh_wmid : W mid;
  sh_len : zlen lead + zlen body + zlen mid + zlen trail <= 9;
  sh_int : zlen lead + zlen body = word_cnt c;
  sh_coeff : coeff d = V (lead ++ body ++ mid ++ trail);
}.

Lemma word_cnt_parts n : 0 <= n <= 81 →
  word_cnt n = n / 9 + (if 0 <? n mod 9 then 1 else 0) ∧ 0 <= n mod 9 <= 8
  ∧ (0 < n mod 9 → top_digits n = n mod 9).
Proof.
  intros Hn. rewrite word_cnt_eq by done. unfold top_digits. split; [case_Z; zdiv|]. zdiv.
Qed.

(** The fraction words of a tight decimal. *)
Lemma frac_shape (d : Decimal) F : wf d → zlen F = frac_words d → W F →
  (∀ v, list.last F = Some v → 0 < frac_cnt d → (10 ^ (9 - top_digits (frac_cnt d)) | v)) →
  ∃ mid trail, F = mid ++ trail ∧ zlen mid = frac_cnt d / 9
    ∧ trail_ok (frac_cnt d mod 9) trail ∧ W mid.
Proof.
  intros Hd LF HF Ht. pose proof (wf_frac d Hd) as Hb.
  destruct (word_cnt_parts (frac_cnt d) Hb) as (Hw & Hm & Htop).
  assert (0 <= frac_cnt d / 9) by (apply Z.div_pos; lia).
  unfold frac_words in LF. rewrite Hw in LF. destruct (Z.ltb_spec 0 (frac_cnt d mod 9)).
  - destruct (snoc_cases F (Z.to_nat (frac_cnt d / 9))) as (mid & v & -> & Lm); [lia|].
    apply Forall_snoc_inv in HF as [HF Hv]. unfold word in Hv.
    exists mid, [v]. split; [done|]. split; [rewrite Lm; zdiv|]. split; [|done]. right.
    split; [lia|]. destruct (Ht v) as [x ->]; [by rewrite last_snoc|zdiv|].
    rewrite Htop in * by lia. exists x. split; [done|].
    assert (10 ^ (9 - frac_cnt d mod 9) * 10 ^ (frac_cnt d mod 9) = BASE) as E
      by (rewrite <- Z.pow_add_r by lia; by replace (9 - _ + _) with 9 by lia).
    pose proof (pow10_pos (9 - frac_cnt d mod 9)). nia.
  - exists F, []. rewrite app_nil_r. split; [done|]. split; [lia|]. split; [|done]. left.
    split; [lia|done].
Qed.

Lemma tight_shape d : wf d → tight d → ∃ k lead body mid trail T c,
  shape d k lead body mid trail T c.
Proof.
  intros Hd [Hti Htf]. destruct (wf_cut d Hd) as (I & F & T & E & LI & LF & HI & HF & HT & Hc).
  pose proof (words_nonneg d Hd) as [Hiw Hfw]. pose proof (wf_fit d Hd) as Hfit.
  destruct (frac_shape d F) as (mid & trail & -> & Lm & Ht & Hm); [done..| |].
  { intros v Hv Hp. apply Htf; [|done]. rewrite E, app_assoc.
    assert (F ≠ []) by (by intros ->). rewrite last_lookup in Hv.
    replace (Z.to_nat (int_words d + frac_words d - 1)) with (length I + pred (length F))%nat.
    - rewrite lookup_app_l; [|rewrite length_app; destruct F; [done|cbn; lia]].
      rewrite lookup_app_r by lia. rewrite <- Hv. f_equal. lia.
    - destruct F; [done|]. cbn [length] in *. lia. }
  pose proof (wf_int d Hd) as Hib.
  destruct (remove_leading_zeroes_spec d (int_cnt d) I ((mid ++ trail) ++ T))
    as (k & rest & c & -> & Hr & Hcb & Hcase); [done..| |].
  { rewrite LI. unfold int_words. by apply word_cnt_eq. }
  apply Forall_app in HI as [_ HI].
  assert (Hcoeff : coeff d = V (rest ++ mid ++ trail)).
  { rewrite Hc, <- app_assoc. apply wval_zeros_app. }
  rewrite !length_app, length_replicate in LI. rewrite length_app in LF.
  destruct Hcase as [ [-> ->]|(w & rest' & n & -> & Hw & Hcn & Hn & Hlo & Hhi)].
  - exists k, [], [], mid, trail, T, 0.
    split; try done; [by rewrite E, <- !app_assoc, app_nil_l|by left|cbn in *; lia].
  - apply Forall_cons_1 in HI as [Hw9 HI].
    assert (Hwn : w < 10 ^ n).
    { apply Hhi. destruct (decide (k = O)) as [->|].
      - apply Hti; [by rewrite E|]. destruct (Z.eq_dec (int_cnt d) 0) as [E0|]; [|lia].
        rewrite E0 in Hcb. lia.
      - rewrite pow10_9. unfold word in Hw9. lia. }
    cbn [length] in LI. destruct (Z.eq_dec n 9) as [->|Hn9].
    + exists k, [], (w :: rest'), mid, trail, T, c.
      assert (c mod 9 = 0 ∧ c / 9 = zlen rest' + 1) as [Em Eq] by (subst c; zdiv).
      split; rewrite ?Em, ?Eq; try done.
      * by rewrite E, <- !app_assoc.
      * lia.
      * by left.
      * cbn. lia.
      * intros _ ? ? [= <- <-]. lia.
      * by constructor.
      * cbn [length]. lia.
      * cbn [length]. rewrite word_cnt_eq by lia. subst c. zdiv.
    + exists k, [w], rest', mid, trail, T, c.
      assert (c mod 9 = n ∧ c / 9 = zlen rest') as [Em Eq] by (subst c; zdiv).
      split; rewrite ?Em, ?Eq; try done.
      * by rewrite E, <- !app_assoc.
      * lia.
      * right. split; [lia|]. by exists w.
      * cbn [length]. lia.
      * cbn [length]. rewrite word_cnt_eq by lia. subst c. zdiv.
Qed.
(** ** Writing *)

(** The bytes that hold [n] digits, [n] being less than nine. *)
Lemma dig_get n : 0 <= n <= 8 → get DIG_2_BYTES n = Ret ((n + 1) / 2).
Proof.
  intros Hn. assert (n = 0 ∨ n = 1 ∨ n = 2 ∨ n = 3 ∨ n = 4 ∨ n = 5 ∨ n = 6 ∨ n = 7 ∨ n = 8) by lia.
  naive_solver.
Qed.

Lemma fits_dig n w : 1 <= n <= 8 → 0 <= w < 10 ^ n → fits w ((n + 1) / 2).
Proof.
  intros Hn. assert (n = 1 ∨ n = 2 ∨ n = 3 ∨ n = 4 ∨ n = 5 ∨ n = 6 ∨ n = 7 ∨ n = 8) as H by lia.
  unfold fits. destruct H as [->|[->|[->|[->|[->|[->|[->| ->]]]]]]]; cbn -[Z.le Z.lt]; intros; zdiv.
Qed.

Definition bytes_of (n : Z) : Z := 4 * (n / 9) + (n mod 9 + 1) / 2.

Lemma digit_sizes_spec n : 0 <= n <= 81 → digit_sizes n = Ret (n / 9, n mod 9, bytes_of n).
Proof.
  intros Hn. unfold digit_sizes, DIGITS_PER_WORD, WORD_SIZE, bytes_of.
  replace (n - n / 9 * 9) with (n mod 9) by zdiv.
  rewrite dig_get by zdiv. bindr. rewrite u8_ok by zdiv. bindr. do 2 f_equal. lia.
Qed.

Lemma bytes_of_bounds n : 0 <= n <= 81 → 0 <= bytes_of n <= 36 ∧ (bytes_of n = 0 ↔ n = 0).
Proof. intros Hn. unfold bytes_of. zdiv. Qed.

(** The bytes of at most one partial word of [n] digits. *)
Definition part (neg : bool) (n : Z) (l : list Z) : list Z :=
  match l with w :: _ => wire neg w ((n + 1) / 2) | [] => [] end.

Definition low (n v : Z) : Z := v / 10 ^ (9 - n).

Definition payload (neg : bool) (c frac : Z) (lead body mid trail : list Z) : list Z :=
  part neg (c mod 9) lead ++ wires neg (body ++ mid)
  ++ part neg (frac mod 9) (map (low (frac mod 9)) trail).

Lemma low_trail n x : 0 <= n <= 9 → low n (x * 10 ^ (9 - n)) = x.
Proof. intros Hn. unfold low. apply Z.div_mul. pose proof (pow10_pos (9 - n)). lia. Qed.

Lemma pow10_le n : 0 <= n <= 9 → 10 ^ n <= BASE.
Proof. intros. rewrite <- pow10_9. apply Z.pow_le_mono_r; lia. Qed.

Lemma write_decimal_spec d k lead body mid trail T c out : wf d →
  shape d k lead body mid trail T c → 0 < c + frac_cnt d <= 81 →
  write_decimal out d (c + frac_cnt d) (frac_cnt d)
  = Ret ((out ++ [c + frac_cnt d; frac_cnt d])
         ++ flip_first (payload (negative d) c (frac_cnt d) lead body mid trail), ROk tt).
Proof.
  intros Hd [Eb Hr Hc Hl Lb Hh Lm Ht Wb Wm Hlen Hint _] Hp.
  pose proof (wf_frac d Hd) as Hf. unfold write_decimal.
  rewrite u8_ok, Z.add_simpl_r by lia. bindr.
  rewrite !digit_sizes_spec by lia. bindr. rewrite Hr. bindr.
  destruct (bytes_of_bounds c Hc), (bytes_of_bounds (frac_cnt d) Hf).
  rewrite u8_ok by lia. bindr. rewrite (proj2 (Z.eqb_neq (c + bytes_of _) 0)) by lia.
  cbn iota. rewrite !digit_sizes_spec by lia. bindr.
  unfold write_int_plan. rewrite !Z.ltb_irrefl. bindr.
  unfold write_frac_plan. rewrite !Z.ltb_irrefl. cbn [andb]. cbn iota.
  change (if negative d then U32_MAX else 0) with (mask_of (negative d)).
  set (neg := negative d). set (pre := out ++ [c + frac_cnt d; frac_cnt d]).
  destruct (word_cnt_parts c Hc) as (_ & Hcm & _).
  destruct (word_cnt_parts (frac_cnt d) Hf) as (_ & Hfm & _).
  assert (Hlead : (if 0 <? c mod 9 then
       i ← get DIG_2_BYTES (c mod 9);
       w ← get (word_buf d) (Z.of_nat k);
       t ← get TEN_POW (c mod 9);
       '(out, written) ← write_word pre (Z.lxor (w mod t) (mask_of neg)) i 0;
       Ret (Z.of_nat k + 1, out, written)
     else Ret (Z.of_nat k, pre, 0))
    = Ret (zlen (replicate k 0 ++ lead), pre ++ flip_first (part neg (c mod 9) lead),
           zlen (part neg (c mod 9) lead))).
  { rewrite length_app, length_replicate. destruct Hl as [ [E ->]|(Hn & w & -> & Hw)].
    - rewrite E. cbn. by rewrite app_nil_r, Nat.add_0_r.
    - rewrite (proj2 (Z.ltb_lt _ _)) by lia. rewrite dig_get by lia. bindr.
      rewrite Eb. cbn [app]. rewrite get_mid by (by rewrite length_replicate). bindr.
      rewrite TEN_POW_get by lia. bindr. rewrite Z.mod_small by lia.
      pose proof (pow10_le (c mod 9) ltac:(lia)).
      rewrite lxor_mask by (mach; lia).
      pose proof (write_word_spec neg w ((c mod 9 + 1) / 2) pre []) as Hww.
      cbn [flip_first app length] in Hww. rewrite app_nil_r in Hww. change (Z.of_nat 0) with 0 in Hww.
      rewrite Hww by (apply fits_dig; lia). bindr. cbn [part length]. do 3 f_equal. lia. }
  rewrite Hlead. bindr.
  set (idx := zlen (replicate k 0 ++ lead)).
  replace (Z.to_nat (idx + c / 9 + frac_cnt d / 9 - idx)) with (length (body ++ mid))
    by (rewrite (length_app body); lia).
  rewrite Eb. rewrite (app_assoc (replicate k 0)), (app_assoc body).
  rewrite write_words_spec by auto using Forall_app_2. bindr.
  rewrite Z.max_r by lia. 
  unfold payload. destruct Ht as [ [E ->]|(Hn & x & -> & Hx)].
  - rewrite E. cbn [Z.ltb Z.compare map part]. rewrite app_nil_r. bindr.
    by rewrite Z.ltb_irrefl.
  - rewrite (proj2 (Z.ltb_lt 0 (frac_cnt d mod 9))) by lia. rewrite dig_get by lia. bindr.
    rewrite !Z.ltb_irrefl, Z.sub_diag. change (Z.to_nat 0) with O. cbn [widen_trailing]. bindr.
    cbn [app]. rewrite (app_assoc (_ ++ lead)).
    rewrite get_mid by (subst idx; rewrite !length_app; lia). bindr.
    unfold DIGITS_PER_WORD. rewrite TEN_POW_get by lia. bindr.
    cbn [map part]. change (x * 10 ^ (9 - frac_cnt d mod 9) / 10 ^ (9 - frac_cnt d mod 9))
      with (low (frac_cnt d mod 9) (x * 10 ^ (9 - frac_cnt d mod 9))).
    rewrite low_trail by lia. pose proof (pow10_le (frac_cnt d mod 9) ltac:(lia)).
    rewrite lxor_mask by (mach; lia).
    rewrite write_word_spec by (apply fits_dig; lia). bindr.
    by rewrite <- !app_assoc.
Qed.

(** ** Reading *)

Definition zeros (n : nat) : list Z := replicate n 0.

Lemma zeros_app n m : zeros (n + m) = zeros n ++ zeros m.
Proof. apply replicate_add. Qed.

Lemma set_0 {A} (y : A) l x : set (y :: l) 0 x = Ret (x :: l).
Proof. apply (set_mid [] x y l). done. Qed.

(** The parts that are read, one after the other. *)
Lemma read_leading_spec neg c lead d0 buf rest : lead_ok (c mod 9) lead →
  read_leading (c mod 9) (mask_of neg) (with_buf d0 (zeros (length lead) ++ buf)) true
    (stream true (part neg (c mod 9) lead ++ rest))
  = Ret (Ok (with_buf d0 (lead ++ buf), zlen lead, bool_decide (lead = []),
             stream (bool_decide (lead = [])) rest)).
Proof.
  intros [ [E ->]|(Hn & w & -> & Hw)]; unfold read_leading.
  - rewrite E. done.
  - rewrite (proj2 (Z.ltb_lt _ _)), dig_get by lia. bindr. cbn [part].
    rewrite read_word_spec by (apply fits_dig; lia). bindr.
    pose proof (pow10_le (c mod 9) ltac:(lia)).
    rewrite (lxor_mask neg (masked neg w)) by (unfold masked; destruct neg; mach; lia).
    rewrite masked_masked. cbn [length zeros replicate app word_buf with_buf].
    rewrite set_0. bindr. rewrite TEN_POW_get by lia. bindr.
    assert (10 ^ (c mod 9) <= 10 ^ (c mod 9 + 1)) by (apply Z.pow_le_mono_r; lia).
    rewrite (proj2 (Z.leb_gt _ _)), (proj2 (Z.eqb_neq w 0)) by lia. done.
Qed.

Lemma read_trailing_spec neg frac trail d0 pre buf first rest : trail_ok (frac mod 9) trail →
  read_trailing (frac mod 9) (mask_of neg) (with_buf d0 (pre ++ zeros (length trail) ++ buf))
    (zlen pre) first (stream first (part neg (frac mod 9) (map (low (frac mod 9)) trail) ++ rest))
  = Ret (Ok (with_buf d0 (pre ++ trail ++ buf),
             stream (first && bool_decide (trail = [])) rest)).
Proof.
  intros [ [E ->]|(Hn & x & -> & Hx)]; unfold read_trailing.
  - rewrite E, bool_decide_eq_true_2, andb_true_r by done. done.
  - rewrite (proj2 (Z.ltb_lt _ _)), dig_get by lia. bindr. cbn [part map].
    rewrite low_trail by lia. rewrite read_word_spec by (apply fits_dig; lia). bindr.
    pose proof (pow10_le (frac mod 9) ltac:(lia)).
    rewrite (lxor_mask neg (masked neg x)) by (unfold masked; destruct neg; mach; lia).
    rewrite masked_masked. unfold DIGITS_PER_WORD. rewrite TEN_POW_get by lia. bindr.
    assert (E : 10 ^ (frac mod 9) * 10 ^ (9 - frac mod 9) = BASE)
      by (rewrite <- Z.pow_add_r by lia; by replace (_ + (9 - _)) with 9 by lia).
    pose proof (pow10_pos (9 - frac mod 9) ltac:(lia)).
    rewrite (proj2 (checked_Some 0 U32_MAX _ _)) by (split; [done|mach; nia]).
    rewrite WORD_MAX_eq, (proj2 (Z.leb_le _ 999999999)) by nia.
    cbn [word_buf with_buf length zeros replicate app]. rewrite set_mid by done. bindr.
    by rewrite andb_false_r.
Qed.

(** The first byte of the payload carries the sign. *)
Lemma wire_head neg w size : fits w size →
  ∃ b bs, wire neg w size = b :: bs ∧ 0 <= b <= 255 ∧ (b <? 128) = negb neg.
Proof.
  intros (b & bs & E & _ & Hb & Hs & _)%(word_bytes_spec neg). unfold wire. rewrite E. eauto.
Qed.

Lemma wires_app neg a b : wires neg (a ++ b) = wires neg a ++ wires neg b.
Proof. unfold wires. by rewrite map_app, concat_app. Qed.

Lemma payload_head neg c frac lead body mid trail :
  lead_ok (c mod 9) lead → W body → W mid → trail_ok (frac mod 9) trail →
  0 < zlen lead + zlen body + zlen mid + zlen trail →
  ∃ b bs, payload neg c frac lead body mid trail = b :: bs ∧ 0 <= b <= 255 ∧ (b <? 128) = negb neg.
Proof.
  intros Hl Wb Wm Ht Hpos. unfold payload. rewrite wires_app.
  destruct Hl as [ [_ ->]|(Hn & w & -> & Hw)].
  2: { destruct (wire_head neg w ((c mod 9 + 1) / 2)) as (b & bs & E & H); [apply fits_dig; lia|].
       cbn [part]. rewrite E. cbn [app]. eauto. }
  destruct body as [|w body].
  2: { apply Forall_cons_1 in Wb as [Hw _]. unfold wires at 1. cbn [map concat part app].
       destruct (wire_head neg w 4 (word_fits w Hw)) as (b & bs & E & H). rewrite E. cbn [app]. eauto. }
  destruct mid as [|w mid].
  2: { apply Forall_cons_1 in Wm as [Hw _]. unfold wires. cbn [map concat part app].
       destruct (wire_head neg w 4 (word_fits w Hw)) as (b & bs & E & H). rewrite E. cbn [app]. eauto. }
  destruct Ht as [ [_ ->]|(Hn & x & -> & Hx)]; [cbn in Hpos; lia|].
  cbn [map part]. rewrite low_trail by lia.
  destruct (wire_head neg x ((frac mod 9 + 1) / 2)) as (b & bs & E & H); [apply fits_dig; lia|].
  rewrite E. unfold wires. cbn [map concat part app]. eauto.
Qed.

Definition read_result (neg : bool) (c frac : Z) (ws : list Z) : Decimal :=
  mkDecimal c frac frac neg (ws ++ zeros (9 - length ws)).

Lemma read_decimal_spec neg c frac lead body mid trail rest :
  0 <= c <= 81 → 0 <= frac <= 81 → 0 < c + frac →
  lead_ok (c mod 9) lead → zlen body = c / 9 → (lead = [] → ∀ w ws, body = w :: ws → w ≠ 0) →
  zlen mid = frac / 9 → trail_ok (frac mod 9) trail → W body → W mid →
  zlen lead + zlen body + zlen mid + zlen trail <= 9 →
  read_decimal ([c + frac; frac] ++ flip_first (payload neg c frac lead body mid trail) ++ rest)
  = Ret (Ok (read_result neg c frac (lead ++ body ++ mid ++ trail), rest)).
Proof.
  intros Hc Hf Hp Hl Lb Hh Lm Ht Wb Wm Hlen.
  assert (Hll : zlen lead = if 0 <? c mod 9 then 1 else 0).
  { destruct Hl as [ [-> ->]|(? & w & -> & _)]; [done|]. by rewrite (proj2 (Z.ltb_lt _ _)) by lia. }
  assert (Htl : zlen trail = if 0 <? frac mod 9 then 1 else 0).
  { destruct Ht as [ [-> ->]|(? & w & -> & _)]; [done|]. by rewrite (proj2 (Z.ltb_lt _ _)) by lia. }
  assert (Hpos : 0 < zlen lead + zlen body + zlen mid + zlen trail).
  { rewrite Hll, Htl, Lb, Lm. repeat case_Z; zdiv. }
  destruct (payload_head neg c frac lead body mid trail) as (b & bs & Epay & Hb & Hsign); auto.
  rewrite flip_first_app by (by rewrite Epay). unfold read_decimal.
  assert (Hlt : (length ([(c + frac)%Z; frac]
      ++ flip_first (payload neg c frac lead body mid trail ++ rest)) <? 3)%nat = false).
  { rewrite Epay. cbn [app flip_first length]. apply Nat.ltb_ge. lia. }
  rewrite Hlt. cbn [app]. rewrite get_0. bindr. rewrite get_1. bindr. cbn [drop]. rewrite drop_0.
  rewrite (proj2 (Z.ltb_ge _ _)), Z.add_simpl_r by lia. unfold DIGITS_PER_WORD.
  replace (c - c / 9 * 9) with (c mod 9) by zdiv.
  replace (frac - frac / 9 * 9) with (frac mod 9) by zdiv.
  assert (Hget : get (flip_first (payload neg c frac lead body mid trail ++ rest)) 0
                 = Ret (Z.lxor b 128)) by (rewrite Epay; done).
  rewrite Hget. bindr. destruct (flip_byte b Hb) as (_ & _ & _ & _ & ->). rewrite Hsign, negb_involutive.
  replace (if negb neg then 0 else U32_MAX) with (mask_of neg) by (by destruct neg).
  unfold fix_word_cnt_err, WORD_BUF_LEN.
  rewrite u8_ok by (revert Hll Htl; repeat case_Z; zdiv). bindr.
  rewrite (proj2 (Z.ltb_ge 9 _)) by (revert Hll Htl; repeat case_Z; lia).
  bindr. cbn [is_ok negb].
  replace (negb (mask_of neg =? 0)) with neg by (by destruct neg).
  set (d0 := with_result_frac_cnt (dec_new c frac neg) frac).
  set (r := (9 - length (lead ++ body ++ mid ++ trail))%nat).
  assert (Ed : d0 = with_buf d0 (zeros (length lead) ++ zeros (length body) ++ zeros (length mid)
                                 ++ zeros (length trail) ++ zeros r)).
  { rewrite <- !zeros_app. subst d0 r. unfold with_result_frac_cnt, dec_new, with_buf. cbn.
    f_equal. unfold zeros. change [0; 0; 0; 0; 0; 0; 0; 0; 0] with (replicate 9 0).
    f_equal. rewrite !length_app. lia. }
  change (flip_first ?l) with (stream true l). unfold payload. rewrite <- !app_assoc.
  rewrite Ed at 1. rewrite read_leading_spec by done. bindr.
  rewrite wires_app, <- !app_assoc. replace (Z.to_nat (c / 9)) with (length body) by lia.
  rewrite (read_words_spec neg true body d0 lead)
    by (unfold zeros; rewrite ?length_replicate; try done; intros _; exact Hh). bindr.
  replace (Z.to_nat (frac / 9)) with (length mid) by lia.
  rewrite (app_assoc lead). replace (zlen lead + zlen body) with (zlen (lead ++ body))
    by (rewrite length_app; lia).
  rewrite (read_words_spec neg false mid d0 (lead ++ body))
    by (unfold zeros; rewrite ?length_replicate; done).
  bindr. rewrite (app_assoc (lead ++ body)).
  replace (zlen (lead ++ body) + zlen mid) with (zlen ((lead ++ body) ++ mid))
    by (rewrite !length_app; lia).
  rewrite read_trailing_spec by done. bindr. cbn [int_cnt frac_cnt with_buf].
  change (int_cnt d0) with c. change (frac_cnt d0) with frac.
  assert ((c =? 0) && (frac =? 0) = false) as ->.
  { destruct (Z.eqb_spec c 0), (Z.eqb_spec frac 0); try done. lia. }
  assert (Hfin : bool_decide (lead = []) && bool_decide (body = []) && bool_decide (mid = [])
                 && bool_decide (trail = []) = false).
  { repeat case_bool_decide; try done. subst. cbn in Hpos. lia. }
  rewrite Hfin. cbn [stream]. unfold read_result. rewrite <- !app_assoc. done.
Qed.
(** ** The round trip *)

Lemma part_length neg n w l : 1 <= n <= 8 → 0 <= w < 10 ^ n →
  zlen (part neg n (w :: l)) = (n + 1) / 2.
Proof. intros. cbn [part]. by apply wire_spec, fits_dig. Qed.

Lemma payload_length neg c frac lead body mid trail :
  0 <= c → 0 <= frac → lead_ok (c mod 9) lead → trail_ok (frac mod 9) trail →
  zlen body = c / 9 → zlen mid = frac / 9 → W body → W mid →
  zlen (payload neg c frac lead body mid trail) = bytes_of c + bytes_of frac.
Proof.
  intros ? ? Hl Ht Lb Lm Wb Wm. unfold payload.
  rewrite !length_app, !Nat2Z.inj_add, wires_length, length_app by auto using Forall_app_2.
  assert (zlen (part neg (c mod 9) lead) = (c mod 9 + 1) / 2) as ->.
  { destruct Hl as [ [-> ->]|(Hn & w & -> & Hw)]; [done|]. apply part_length; lia. }
  assert (zlen (part neg (frac mod 9) (map (low (frac mod 9)) trail)) = (frac mod 9 + 1) / 2) as ->.
  { destruct Ht as [ [-> ->]|(Hn & x & -> & Hx)]; [done|]. cbn [map]. rewrite low_trail by lia.
    apply part_length; lia. }
  unfold bytes_of. lia.
Qed.

Lemma dec_encoded_len_spec c frac bs : 0 <= c → 0 <= frac → c + frac <= 81 →
  dec_encoded_len ([c + frac; frac] ++ bs) = Ret (Ok (bytes_of c + bytes_of frac + 2)).
Proof.
  intros ? ? ?. unfold dec_encoded_len. cbn [app length Nat.ltb Nat.leb].
  rewrite get_0, get_1. bindr. rewrite (proj2 (Z.ltb_ge _ _)), Z.add_simpl_r by lia.
  unfold DIGITS_PER_WORD, WORD_SIZE.
  replace (c - c / 9 * 9) with (c mod 9) by zdiv.
  replace (frac - frac / 9 * 9) with (frac mod 9) by zdiv.
  rewrite !dig_get by zdiv. bindr. rewrite !u8_ok by zdiv. bindr.
  unfold bytes_of. rewrite ?u8_ok by zdiv. bindr. do 2 f_equal. lia.
Qed.

(** The digits the two parts of a shape need fit the buffer. *)
Lemma shape_digits d k lead body mid trail T c : wf d →
  shape d k lead body mid trail T c → c + frac_cnt d <= 81.
Proof.
  intros Hd [_ _ Hc Hl Lb _ Lm Ht _ _ Hlen _ _]. pose proof (wf_frac d Hd).
  destruct Hl as [ [El ->]|(El & ? & -> & _)], Ht as [ [Et ->]|(Et & ? & -> & _)];
    cbn [length] in Hlen; zdiv.
Qed.

(** What comes back: the same sign, scale and digits, without the leading zeros. *)
Lemma wire_roundtrip d k lead body mid trail T c pre : wf d →
  shape d k lead body mid trail T c → 0 < c + frac_cnt d →
  let out := [c + frac_cnt d; frac_cnt d]
             ++ flip_first (payload (negative d) c (frac_cnt d) lead body mid trail) in
  let d' := read_result (negative d) c (frac_cnt d) (lead ++ body ++ mid ++ trail) in
  prec_and_frac d = Ret (c + frac_cnt d, frac_cnt d)
  ∧ write_decimal pre d (c + frac_cnt d) (frac_cnt d) = Ret (pre ++ out, ROk tt)
  ∧ dec_encoded_len out = Ret (Ok (zlen out))
  ∧ (∀ rest, read_decimal (out ++ rest) = Ret (Ok (d', rest)))
  ∧ wf d' ∧ coeff d' = coeff d.
Proof.
  intros Hd Hs Hpos. pose proof (shape_digits _ _ _ _ _ _ _ _ Hd Hs).
  pose proof (wf_frac d Hd) as Hf.
  pose proof (write_decimal_spec d k lead body mid trail T c pre Hd Hs ltac:(lia)) as Hw.
  destruct Hs as [Eb Hr Hc Hl Lb Hh Lm Ht Wb Wm Hlen Hint Hco]. cbv zeta.
  split; [|split; [|split; [|split] ] ].
  - unfold prec_and_frac. rewrite Hr. bindr. rewrite u8_ok by lia. bindr.
    by rewrite (proj2 (Z.eqb_neq _ _)) by lia.
  - rewrite Hw. by rewrite <- app_assoc.
  - rewrite dec_encoded_len_spec by lia. do 2 f_equal.
    rewrite length_app, Nat2Z.inj_add.
    assert (∀ l, length (flip_first l) = length l) as -> by (by intros []).
    rewrite payload_length by (auto; lia). cbn [length]. lia.
  - intros rest. rewrite <- app_assoc. by apply read_decimal_spec.
  - unfold read_result.
    replace (lead ++ body ++ mid ++ trail) with ((lead ++ body) ++ mid ++ trail)
      by (by rewrite <- !app_assoc).
    set (F := mid ++ trail). set (I := lead ++ body).
    assert (Wl : W lead).
    { destruct Hl as [ [_ ->]|(Hn & w & -> & Hw1)]; [done|]. constructor; [|done].
      pose proof (pow10_le (c mod 9) ltac:(lia)). unfold word. lia. }
    assert (Wt : W trail).
    { destruct Ht as [ [_ ->]|(Hn & x & -> & Hx)]; [done|]. constructor; [|done].
      assert (10 ^ (frac_cnt d mod 9) * 10 ^ (9 - frac_cnt d mod 9) = BASE) as E
        by (rewrite <- Z.pow_add_r by lia; by replace (_ + (9 - _)) with 9 by lia).
      pose proof (pow10_pos (9 - frac_cnt d mod 9) ltac:(lia)). unfold word. nia. }
    destruct (word_cnt_parts c Hc) as (Ec & _). destruct (word_cnt_parts _ Hf) as (Ef & _).
    assert (Hlw : zlen F = word_cnt (frac_cnt d)).
    { subst F. rewrite length_app, Ef, Nat2Z.inj_add, Lm.
      destruct Ht as [ [-> ->]|(? & x & -> & _)]; [done|]. by rewrite (proj2 (Z.ltb_lt _ _)) by lia. }
    assert (Hiw : zlen I = word_cnt c) by (subst I; rewrite length_app; lia).
    rewrite <- (app_assoc I).
    destruct (wf_build c (frac_cnt d) (frac_cnt d) (negative d) I F (zeros (9 - length (I ++ F))))
      as [HA HB]; try lia.
    + subst I F. unfold zeros. rewrite !length_app, length_replicate in *. lia.
    + rewrite length_app. revert Hiw Hlw. rewrite Ec, Ef. repeat case_Z; zdiv.
    + subst I F. repeat apply Forall_app_2; auto. apply Forall_replicate. unfold word. lia.
    + split; [exact HA|]. rewrite HB, Hco. subst I F. by rewrite <- !app_assoc.
Qed.

(** Zero without fraction is one digit. *)
Lemma wire_zero d k T pre : wf d → shape d k [] [] [] [] T 0 → frac_cnt d = 0 →
  let out := [1; 0; 128] in
  prec_and_frac d = Ret (1, 0)
  ∧ write_decimal pre d 1 0 = Ret (pre ++ out, ROk tt)
  ∧ dec_encoded_len out = Ret (Ok 3)
  ∧ (∀ rest, read_decimal (out ++ rest) = Ret (Ok (dec_zero, rest)))
  ∧ coeff d = 0.
Proof.
  intros Hd Hs Ef. destruct Hs as [Eb Hr _ _ _ _ _ _ _ _ _ _ Hco]. cbv zeta.
  split; [|split; [|split; [|split] ] ].
  - unfold prec_and_frac. by rewrite Hr, Ef.
  - unfold write_decimal. rewrite Hr, Ef. change (u8 (1 - 0)) with (Ret 1). bindr.
    assert (E0 : digit_sizes 0 = Ret (0, 0, 0)) by done.
    assert (E1 : digit_sizes 1 = Ret (0, 1, 1)) by done.
    rewrite E1. bindr. rewrite E0. bindr. change (u8 (0 + 0)) with (Ret 0). bindr.
    unfold write_int_plan, write_frac_plan. cbn.
    change (Z.to_nat (1 - 0)) with 1%nat. cbn [write_pad write_u8]. bindr. cbn.
    replace (Z.to_nat (Z.of_nat k + 0 + 0 - Z.of_nat k)) with O by lia.
    cbn. by rewrite <- app_assoc.
  - done.
  - intros rest. assert (Hlead : ∀ z, read_leading 1 0 (with_buf (dec_new 1 0 false) z) true (128 :: rest)
        = (buf ← set z 0 0; Ret (Ok (with_buf (dec_new 0 0 false) buf, 0, false, rest)))).
    { intros z. unfold read_leading. change (0 <? 1) with true. cbn iota.
      rewrite (dig_get 1) by lia. bindr. change ((1 + 1) / 2) with 1. unfold read_word.
      rewrite (proj2 (Z.ltb_ge (zlen (128 :: rest)) 1)) by (cbn [length]; lia).
      rewrite get_0. bindr. change (Z.lxor 128 128) with 0. change (read_word_bytes 0 (128 :: rest) 1) with (Ret 0).
      bindr. change (Z.to_nat 1) with 1%nat. cbn [drop]. rewrite ?drop_0. change (Z.lxor 0 0) with 0.
      cbn [word_buf with_buf]. destruct (set z 0 0); [|done]. bindr.
      rewrite TEN_POW_get by lia. bindr. done. }
    specialize (Hlead (word_buf dec_zero)). cbn in Hlead.
    unfold read_decimal. cbn [app length Nat.ltb Nat.leb].
    rewrite get_0, get_1. bindr. change (1 <? 0) with false. cbn iota. cbn [drop]. rewrite ?drop_0, get_0. bindr.
    change (negb (Z.land 128 128 =? 0)) with true. cbn iota.
    change ((1 - 0) / DIGITS_PER_WORD) with 0. change (0 / DIGITS_PER_WORD) with 0.
    change (fix_word_cnt_err _ _ _) with (Ret (ROk (1, 0))). bindr.
    cbn [is_ok negb]. cbn iota. change (1 - 0 - 0 * DIGITS_PER_WORD) with 1.
    change (negb (0 =? 0)) with false.
    change (with_result_frac_cnt (dec_new (1 - 0) 0 false) 0) with (with_buf (dec_new 1 0 false) (word_buf dec_zero)).
    cbn in Hlead |- *. rewrite Hlead. bindr. done.
  - exact Hco.
Qed.

(** The round trip, for the components that embed decimals. *)
Lemma codec_roundtrip d : wf d → tight d → ∃ prec frac out d',
  prec_and_frac d = Ret (prec, frac)
  ∧ (∀ pre, write_decimal pre d prec frac = Ret (pre ++ out, ROk tt))
  ∧ dec_encoded_len out = Ret (Ok (zlen out))
  ∧ (∀ rest, dec_encoded_len (out ++ rest) = Ret (Ok (zlen out)))
  ∧ dec_encoded_len [prec; frac] = Ret (Ok (zlen out))
  ∧ (∀ rest, read_decimal (out ++ rest) = Ret (Ok (d', rest)))
  ∧ wf d' ∧ frac_cnt d' = frac_cnt d ∧ (∀ k, scaled d' k = scaled d k).
Proof.
  intros Hd Ht. destruct (tight_shape d Hd Ht) as (k & lead & body & mid & trail & T & c & Hs).
  pose proof (sh_c _ _ _ _ _ _ _ _ Hs) as Hc. pose proof (wf_frac d Hd) as Hf.
  destruct (Z.eq_dec (c + frac_cnt d) 0) as [E|].
  - assert (c = 0) as -> by lia. assert (Ef : frac_cnt d = 0) by lia.
    pose proof Hs as [_ _ _ Hl Lb _ Lm Htr _ _ _ _ _]. rewrite Ef in Lm, Htr.
    change (0 mod 9) with 0 in *. change (0 / 9) with 0 in *.
    destruct Hl as [ [_ ->]|(? & _)]; [|lia]. destruct Htr as [ [_ ->]|(? & _)]; [|lia].
    destruct body; [|done]. destruct mid; [|done].
    assert (Hz := λ pre, wire_zero d k T pre Hd Hs Ef). cbv zeta in Hz.
    destruct (Hz []) as (H1 & _ & H3 & H4 & H5).
    exists 1, 0, [1; 0; 128], dec_zero. split; [done|]. split; [intros pre; apply Hz|].
    do 4 (split; [done|]). split; [exact wf_zero|]. split; [done|].
    intros j. unfold scaled. rewrite H5. change (coeff dec_zero) with 0. lia.
  - assert (Hz := λ pre, wire_roundtrip d k lead body mid trail T c pre Hd Hs ltac:(lia)).
    cbv zeta in Hz. destruct (Hz []) as (H1 & _ & H3 & H4 & H5 & H6).
    pose proof (shape_digits _ _ _ _ _ _ _ _ Hd Hs).
    assert (Hlen : ∀ bs, dec_encoded_len ([c + frac_cnt d; frac_cnt d] ++ bs)
      = dec_encoded_len ([c + frac_cnt d; frac_cnt d] ++ flip_first (payload (negative d) c (frac_cnt d) lead body mid trail)))
      by (intros; by rewrite !dec_encoded_len_spec by lia).
    eexists _, _, _, _. split; [eassumption|]. split; [intros pre; apply Hz|]. split; [exact H3|].
    split; [intros rest; by rewrite <- app_assoc, Hlen|].
    split; [by rewrite <- H3; exact (Hlen [])|]. split; [exact H4|]. split; [done|]. split; [done|].
    intros j. unfold scaled. by rewrite H6.
Qed.

(** C4. A well-formed decimal with no digit outside its declared counts survives its
    binary form: with the precision [prec_and_frac] asks for, [write_decimal] appends
    bytes to the buffer without loss, as many as [dec_encoded_len] reads off them, and
    [read_decimal] gives from them a well-formed decimal of the same value and the
    same number of fraction digits, leaving what follows alone. *)
Theorem decimal_codec_roundtrip d : wf d → tight d → ∃ prec frac out d',
  prec_and_frac d = Ret (prec, frac)
  ∧ (∀ pre, write_decimal pre d prec frac = Ret (pre ++ out, ROk tt))
  ∧ dec_encoded_len out = Ret (Ok (zlen out))
  ∧ (∀ rest, read_decimal (out ++ rest) = Ret (Ok (d', rest)))
  ∧ wf d' ∧ frac_cnt d' = frac_cnt d ∧ (∀ k, scaled d' k = scaled d k).
Proof.
  intros Hd Ht. destruct (codec_roundtrip d Hd Ht) as (prec & frac & out & d' & ? & ? & ? & _ & _ & ?).
  by exists prec, frac, out, d'.
Qed.

End Wire.

(** -1234567890.500, encoded and read back. *)
Lemma decimal_codec_roundtrip_witness :
  let d := mkDecimal 10 3 3 true [1; 234567890; 500000000; 0; 0; 0; 0; 0; 0] in
  wf d ∧ tight d ∧ ∃ prec frac out d',
    @prec_and_frac ten_pow_table d = Ret (prec, frac)
    ∧ (∀ pre, @write_decimal ten_pow_table pre d prec frac = Ret (pre ++ out, ROk tt))
    ∧ dec_encoded_len out = Ret (Ok (zlen out))
    ∧ (∀ rest, @read_decimal ten_pow_table (out ++ rest) = Ret (Ok (d', rest)))
    ∧ wf d' ∧ frac_cnt d' = frac_cnt d ∧ (∀ k, scaled d' k = scaled d k).
Proof.
  intros d. assert (Hd : wf d) by (by split; repeat constructor).
  assert (Ht : tight d).
  { split.
    - intros w [= <-] _. done.
    - intros v [= <-] _. by exists 500. }
  split; [exact Hd|]. split; [exact Ht|]. exact (@decimal_codec_roundtrip ten_pow_table d Hd Ht).
Defined.
