(* ===== verification/DecimalRounding.v ===== *)
(** * DecimalRounding: what [round] computes

    Rounding a well-formed decimal with no digit outside its counts is rounding of
    its magnitude to a multiple of [10^-frac]: to the nearest, halves away from zero,
    in the mode called [HalfEven], toward zero in [Truncate], and away from zero in
    [Ceiling] at the word boundaries (the source's own note says that [Ceiling] does
    not work elsewhere).  [ceil] and [floor] follow. *)
From Stdlib Require Import ZArith Lia.
From stdpp Require Import base list numbers.
From S2P Require Import Prelude Words EvalCtx DecimalBase DecimalAddSub DecimalRound DecimalWire DecimalLoops.
#[local] Open Scope Z_scope.

#[local] Notation V := (wval BASE).
#[local] Notation W := (Forall (word BASE)).
#[local] Notation zlen l := (Z.of_nat (length l)).

(** ** Rounding of a natural number to a multiple *)

Definition rnd (m : RoundMode) (n q : Z) : Z :=
  match m with
  | Truncate => n / q * q
  | HalfEven => (n + q / 2) / q * q
  | Ceiling => (n + q - 1) / q * q
  end.

(** Whether a remainder [b] of [q] rounds up. *)
Definition ups (m : RoundMode) (b q : Z) : bool :=
  match m with
  | Truncate => false
  | HalfEven => q <=? 2 * b
  | Ceiling => 0 <? b
  end.

(** Every decimal magnitude as an integer: nine fraction words. *)
Definition mag (d : Decimal) : Z := coeff_at d 9.

Lemma rnd_ups m a b q : 0 < q → (2 | q) → 0 <= b < q →
  rnd m (a * q + b) q = (a + Z.b2z (ups m b q)) * q.
Proof.
  intros Hq [h ->] Hb. unfold rnd, ups. destruct m; f_equal.
  - rewrite (Z.div_mul h) by lia. case_Z; cbn [Z.b2z].
    + symmetry. apply (Z.div_unique _ _ _ (b - h)); lia.
    + symmetry. apply (Z.div_unique _ _ _ (b + h)); lia.
  - symmetry. apply (Z.div_unique _ _ _ b); cbn; lia.
  - case_Z; cbn [Z.b2z].
    + symmetry. apply (Z.div_unique _ _ _ (b - 1)); lia.
    + symmetry. apply (Z.div_unique _ _ _ (h * 2 - 1)); lia.
Qed.

Lemma rnd_multiple m n q : 0 < q → (2 | q) → (q | n) → rnd m n q = n.
Proof.
  intros Hq H2 [a ->]. rewrite <- (Z.add_0_r (a * q)) at 1. rewrite rnd_ups by (done || lia).
  assert (ups m 0 q = false) as ->; [|cbn; lia].
  unfold ups. destruct m; rewrite ?Z.leb_gt; lia || done.
Qed.

(** The digits below a coarser step do not matter, except for [Ceiling]. *)
Lemma rnd_scale m a b p q : m ≠ Ceiling → 0 < p → 0 < q → (2 | q) → 0 <= b < p →
  rnd m (a * p + b) (q * p) = rnd m a q * p.
Proof.
  intros Hm Hp Hq Hq2 Hb. pose proof (Z.mod_pos_bound a q Hq) as Hr.
  pose proof (Z.div_mod a q ltac:(lia)) as Ha.
  set (r := a mod q) in *. set (k := a / q) in *. clearbody r k. subst a.
  replace ((q * k + r) * p + b) with (k * (q * p) + (r * p + b)) by lia.
  replace (q * k + r) with (k * q + r) by lia.
  rewrite !rnd_ups; try (done || nia).
  - assert (ups m (r * p + b) (q * p) = ups m r q) as ->; [|lia].
    destruct m; [|done..]. cbn. destruct Hq2 as [h ->]. repeat case_Z; try done; nia.
  - destruct Hq2 as [h ->]. exists (h * p). lia.
Qed.

(** ** The loops *)

Lemma zero_range_spec (n : nat) : ∀ p s t i, length s = n → i = zlen p →
  zero_range n (p ++ s ++ t) i = Ret (p ++ replicate n 0 ++ t).
Proof.
  induction n as [|n IH]; intros p s t i Hs ->; cbn [zero_range].
  - by apply nil_length_inv in Hs as ->.
  - destruct s as [|x s]; [done|]. cbn [app]. rewrite set_mid by done. bindr.
    rewrite (app_cons_l p 0 (s ++ t)). rewrite IH.
    + by rewrite <- app_assoc.
    + by injection Hs.
    + rewrite length_app. cbn. lia.
Qed.

Lemma push_words_spec (n : nat) : ∀ a y b len o, length a = n → Z.of_nat n < len →
  push_words n len (a ++ y :: b) o = Ret (take 1 (a ++ [y]) ++ a ++ b, o).
Proof.
  induction n as [|n IH]; intros a y b len o Ha Hl; cbn [push_words].
  - by apply nil_length_inv in Ha as ->.
  - apply snoc_cases in Ha as (a' & x & -> & Ha). rewrite (proj2 (Z.ltb_lt _ _)) by lia.
    rewrite get_last by lia. bindr.
    rewrite (set_mid (a' ++ [x])) by (rewrite length_app; cbn; lia). bindr.
    rewrite <- (app_cons_l a' x (x :: b)), IH by lia. f_equal. f_equal.
    rewrite <- !app_assoc. by destruct a'.
Qed.

Section Loops.
Context {TP : TenPow}.

Lemma carry_loop_spec (n : nat) : ∀ k t c, length k = n → W k → 0 <= c <= 1 →
  ∃ j c' k', carry_loop n (k ++ t) c = Ret (j, c', k' ++ t)
    ∧ (j <= n)%nat ∧ length k' = n ∧ W k' ∧ 0 <= c' <= 1
    ∧ V k' + c' * BASE ^ Z.of_nat n = V k + c.
Proof.
  induction n as [|n IH]; intros k t c Hk HW Hc; cbn [carry_loop].
  - apply nil_length_inv in Hk as ->. exists O, c, []. cbn. repeat split; lia || constructor.
  - case_Z.
    + apply snoc_cases in Hk as (k0 & x & -> & Hk). apply Forall_snoc_inv in HW as [HW Hx].
      rewrite get_last by lia. bindr.
      destruct (add_exact x 0 c Hx ltac:(apply word_0; lia) Hc) as (c1 & r & -> & Hr & Hc1 & Hv).
      bindr. rewrite set_last by lia. bindr.
      destruct (IH k0 (r :: t) c1 Hk HW Hc1) as (j & c' & k' & -> & Hj & Hk' & HW' & Hc' & He).
      exists j, c', (k' ++ [r]). rewrite <- app_assoc, length_app. cbn [app length].
      split; [done|]. split; [lia|]. split; [lia|]. split; [apply Forall_app_2; auto|].
      split; [done|]. rewrite !wval_snoc, Nat2Z.inj_succ, Z.pow_succ_r by lia. lia.
    + exists (S n), c, k. repeat split; done || lia.
Qed.

Lemma find_nonzero_spec (n : nat) : ∀ k w t, length k = n → W (k ++ [w]) →
  (find_nonzero n (k ++ w :: t) = Ret None ∧ k ++ [w] = replicate (S n) 0)
  ∨ ∃ j, find_nonzero n (k ++ w :: t) = Ret (Some j).
Proof.
  induction n as [|n IH]; intros k w t Hk HW; cbn [find_nonzero].
  - apply nil_length_inv in Hk as ->. cbn [app]. rewrite (get_mid [] w t (Z.of_nat 0) eq_refl : get (w :: t) _ = _). bindr.
    case_Z; [left; by subst|right; eauto].
  - apply snoc_cases in Hk as (k0 & x & -> & Hk). apply Forall_snoc_inv in HW as [HW _].
    rewrite get_mid by (rewrite length_app; cbn; lia). bindr. case_Z; [|right; eauto].
    subst w. rewrite <- (app_assoc k0 [x] (0 :: t)). cbn [app]. destruct (IH k0 x (0 :: t) Hk HW) as [[-> E]|[j ->]].
    + left. split; [done|]. rewrite E. by rewrite (replicate_S_end (S n)).
    + right. eauto.
Qed.
End Loops.

(** ** Magnitudes of buffers *)

(** A decimal read off its used words [p]. *)
Lemma mag_of_words int frac g neg p r :
  0 <= int <= 81 → 0 <= frac <= 81 → zlen p = word_cnt int + word_cnt frac →
  length (p ++ r) = 9%nat → (0 < length p)%nat → W (p ++ r) →
  wf (mkDecimal int frac g neg (p ++ r))
  ∧ mag (mkDecimal int frac g neg (p ++ r)) = V p * BASE ^ (9 - word_cnt frac).
Proof.
  intros Hi Hf Hp Hl Hn HW. pose proof (word_cnt_bounds int Hi). pose proof (word_cnt_bounds frac Hf).
  destruct (cut_at p (Z.to_nat (word_cnt int))) as (I & F & -> & LI); [lia|].
  rewrite length_app in Hp. rewrite <- app_assoc in *.
  destruct (wf_build int frac g neg I F r) as [Hd Hc]; try (done || lia).
  split; [done|]. unfold mag. rewrite coeff_at_ge by (unfold frac_words; cbn; lia). by rewrite Hc.
Qed.

(** The outcome of a rounding whose exact magnitude is [target]: [frac] digits are to
    be kept. *)
Definition same_sign (neg : bool) (d : Decimal) : Prop := negative d = neg ∨ mag d = 0.

Definition rounded (target frac : Z) (neg : bool) (res : Res Decimal) : Prop :=
  match res with
  | ROk d => wf d ∧ frac_cnt d = Z.max 0 frac ∧ mag d = target ∧ same_sign neg d
  | RTruncated d => wf d ∧ frac_cnt d < Z.max 0 frac ∧ mag d = target ∧ same_sign neg d
  | ROverCausetxctx _ => 10 ^ 162 <= target
  end.

(** What [frac] says about the number of fraction words to keep. *)
Definition words_to (frac fwt : Z) : Prop :=
  (0 < frac <= 30 ∧ fwt = word_cnt frac) ∨ (-128 <= frac <= 0 ∧ fwt = Z.quot (frac + 1) 9).

Lemma words_to_bounds frac fwt : words_to frac fwt →
  -14 <= fwt <= 4 ∧ frac <= 9 * fwt ∧ 9 * fwt - frac <= 9 ∧ (frac < 0 → fwt <= 0)
  ∧ (0 <= frac → 0 <= fwt ∧ 9 * fwt < frac + 9).
Proof.
  intros [[H ->]|[H ->]]; [rewrite word_cnt_eq by lia|]; zdiv.
Qed.

Lemma BASE_pow10 k : 0 <= k → BASE ^ k = 10 ^ (9 * k).
Proof. intros. by rewrite Z.pow_mul_r by lia. Qed.

(** ** After the increment: [handle_carry]

    [k ++ [w]] are the words kept of a number with [i] integer words and [fwt]
    fraction words (integer words are dropped when [fwt] is negative, and are zero
    in [r]); [w] may be the base. *)
Record kept (i fwt frac : Z) (k : list Z) (r : list Z) : Prop := {
  kept_i : 0 <= i <= 9;
  kept_frac : words_to frac fwt;
  kept_len : zlen k + 1 = i + fwt;
  kept_all : (length k + 1 + length r = 9)%nat;
  kept_W : W k;
  kept_Wr : W r;
  kept_tail : fwt < 0 → r = replicate (length r) 0;
}.

Lemma words_to_cnt frac fwt : words_to frac fwt → word_cnt (Z.max 0 frac) = Z.max 0 fwt
  ∧ 0 <= Z.max 0 frac <= 81 ∧ as_u8 (Z.max 0 frac) = Z.max 0 frac.
Proof.
  intros H. pose proof (words_to_bounds frac fwt H). rewrite as_u8_id by lia.
  split; [|lia]. destruct H as [[? ->]|[? ->]].
  - rewrite Z.max_r by lia. pose proof (word_cnt_bounds frac). lia.
  - rewrite !Z.max_l by lia. done.
Qed.

Lemma kept_mag i fwt frac k r w g neg : kept i fwt frac k r → word BASE w →
  wf (mkDecimal (i * 9) (Z.max 0 frac) g neg (k ++ w :: r))
  ∧ mag (mkDecimal (i * 9) (Z.max 0 frac) g neg (k ++ w :: r)) = V (k ++ [w]) * BASE ^ (9 - fwt).
Proof.
  intros [Hi Hf Hk Hl HW HWr Ht] Hw. destruct (words_to_cnt frac fwt Hf) as (Hc & Hb & _).
  pose proof (words_to_bounds frac fwt Hf).
  assert (HWk : W (k ++ [w])) by (apply Forall_app_2; auto).
  rewrite (app_cons_l k w r). destruct (Z.le_gt_cases 0 fwt) as [Hp|Hn].
  - destruct (mag_of_words (i * 9) (Z.max 0 frac) g neg (k ++ [w]) r) as [? ->];
      rewrite ?length_app, ?word_cnt_mul, ?Hc; cbn [length]; try lia; [by apply Forall_app_2|].
    split; [done|]. do 2 f_equal. lia.
  - rewrite (Ht Hn). replace (length r) with (Z.to_nat (- fwt) + (length r - Z.to_nat (- fwt)))%nat by lia.
    rewrite replicate_add, app_assoc.
    destruct (mag_of_words (i * 9) (Z.max 0 frac) g neg ((k ++ [w]) ++ replicate (Z.to_nat (- fwt)) 0)
      (replicate (length r - Z.to_nat (- fwt)) 0)) as [? ->];
      rewrite ?length_app, ?length_replicate, ?word_cnt_mul, ?Hc; cbn [length]; try lia.
    { repeat apply Forall_app_2; auto using words_zeros, BASE_gt. }
    split; [done|]. rewrite wval_app_zeros, Z2Nat.id, <- Z.mul_assoc, <- Z.pow_add_r by lia.
    do 2 f_equal. lia.
Qed.

(** A number rounded to zero. *)
Lemma kept_zero i fwt frac k r g : kept i fwt frac k r → ∃ buf,
  zero_range (Z.to_nat (fwt + 1)) (k ++ 0 :: r) 0 = Ret buf ∧
  (k ++ [0] = replicate (length k + 1) 0 →
   wf (mkDecimal 1 (Z.max 0 frac) g false buf) ∧ mag (mkDecimal 1 (Z.max 0 frac) g false buf) = 0).
Proof.
  intros [Hi Hf Hk Hl HW HWr Ht]. destruct (words_to_cnt frac fwt Hf) as (Hc & Hb & _).
  pose proof (words_to_bounds frac fwt Hf).
  destruct (cut_at (k ++ 0 :: r) (Z.to_nat (fwt + 1))) as (a & b & E & La).
  { rewrite length_app. cbn. lia. }
  assert (HWb : W (k ++ 0 :: r)).
  { apply Forall_app_2; [done|]. constructor; [apply word_0; lia|done]. }
  assert (Hlen : (length a + length b = 9)%nat).
  { rewrite <- length_app, <- E, length_app. cbn. lia. }
  rewrite E. exists (replicate (Z.to_nat (fwt + 1)) 0 ++ b). split.
  { rewrite <- (app_nil_l (a ++ b)). by rewrite zero_range_spec. }
  intros Hz. rewrite E in HWb. apply Forall_app in HWb as [_ HWb].
  destruct (Z.le_gt_cases 0 fwt) as [Hp|Hn].
  - destruct (mag_of_words 1 (Z.max 0 frac) g false (replicate (Z.to_nat (fwt + 1)) 0) b) as [? ->];
      rewrite ?length_app, ?length_replicate, ?Hc; try (change (word_cnt 1) with 1); try lia.
    { apply Forall_app_2; auto using words_zeros, BASE_gt. }
    split; [done|]. rewrite wval_replicate_0. lia.
  - replace (Z.to_nat (fwt + 1)) with O in * by lia. apply nil_length_inv in La as ->. cbn [app replicate] in *.
    rewrite (app_cons_l k), Hz, Nat.add_1_r in E. cbn [replicate app] in E. subst b.
    change (0 :: replicate (length k) 0 ++ r) with ([0] ++ (replicate (length k) 0 ++ r)) in *.
    destruct (mag_of_words 1 (Z.max 0 frac) g false [0] (replicate (length k) 0 ++ r)) as [? ->];
      rewrite ?Hc; try (change (word_cnt 1) with 1); cbn [length] in *; try (done || lia).
Qed.

Lemma kept_rounded i fwt frac k r w fc g neg : kept i fwt frac k r → word BASE w →
  rounded (V (k ++ [w]) * BASE ^ (9 - fwt)) frac neg
    (res_map (λ d, with_frac_cnt (with_int_cnt d (int_cnt (mkDecimal (i * 9) fc g neg (k ++ w :: r))))
                     (as_u8 (Z.max 0 frac))) (ROk (mkDecimal (i * 9) fc g neg (k ++ w :: r)))).
Proof.
  intros Hk Hw. destruct (words_to_cnt frac fwt (kept_frac _ _ _ _ _ Hk)) as (_ & _ & Ha).
  unfold with_frac_cnt, with_int_cnt. cbn. rewrite Ha.
  destruct (kept_mag i fwt frac k r w g neg Hk Hw) as [Hwf Hm].
  rewrite Hm. split; [done|]. split; [done|]. split; [done|]. by left.
Qed.

Section Carry.
Context {TP : TenPow}.

(** With all integer words full, [carry_finish] keeps the count; after a carry out the
    leading word is [1]. *)
Lemma carry_finish_full i fc g neg b (to_idx : nat) frac :
  carry_finish (ROk (mkDecimal (i * 9) fc g neg b)) to_idx frac
  = Ret (res_map (λ d, with_frac_cnt (with_int_cnt d (int_cnt (mkDecimal (i * 9) fc g neg b)))
                         (as_u8 (Z.max 0 frac))) (ROk (mkDecimal (i * 9) fc g neg b))).
Proof.
  unfold carry_finish. cbn [res_val int_cnt]. change DIGITS_PER_WORD with 9.
  by rewrite Z.mod_mul by lia.
Qed.

Lemma carry_finish_one mk i fc g neg b frac : 0 <= i →
  res_val (mk (mkDecimal (i * 9 + 1) fc g neg (1 :: b))) = mkDecimal (i * 9 + 1) fc g neg (1 :: b) →
  carry_finish (mk (mkDecimal (i * 9 + 1) fc g neg (1 :: b))) 0 frac
  = Ret (res_map (λ d, with_frac_cnt (with_int_cnt d (i * 9 + 1)) (as_u8 (Z.max 0 frac)))
           (mk (mkDecimal (i * 9 + 1) fc g neg (1 :: b)))).
Proof.
  intros Hi E. unfold carry_finish. rewrite E. cbn [int_cnt word_buf]. change DIGITS_PER_WORD with 9.
  rewrite Z.add_comm, Z.mod_add by lia. change (1 mod 9) with 1. cbn [Z.ltb Z.compare]. cbn iota.
  rewrite TEN_POW_get by lia. reflexivity.
Qed.

Lemma carry_finish_any dec to_idx frac : int_cnt (res_val dec) mod 9 = 0 →
  ∃ d, carry_finish (ROverCausetxctx (res_val dec)) to_idx frac = Ret (ROverCausetxctx d).
Proof.
  intros E. unfold carry_finish. change DIGITS_PER_WORD with 9. cbn [res_val]. rewrite E. eexists. reflexivity.
Qed.

(** No carry leaves the words: the kept words are the number. *)
Lemma handle_carry_small i fwt frac k r w fc g neg : kept i fwt frac k r → word BASE w → ∃ res,
  handle_carry (ROk (mkDecimal (i * 9) fc g neg (k ++ w :: r))) (length k) frac fwt i WORD_BUF_LEN = Ret res
  ∧ rounded (V (k ++ [w]) * BASE ^ (9 - fwt)) frac neg res.
Proof.
  intros Hk Hw. destruct (words_to_cnt frac fwt (kept_frac _ _ _ _ _ Hk)) as (_ & _ & Ha).
  pose proof (words_to_bounds frac fwt (kept_frac _ _ _ _ _ Hk)) as Hb.
  unfold handle_carry. cbn [res_val word_buf int_cnt]. rewrite get_mid by done. bindr.
  rewrite WORD_BASE_eq, (proj2 (Z.leb_gt _ _)) by (unfold word in Hw; lia).
  assert (HW : W (k ++ [w])) by (apply Forall_app_2; [apply Hk|auto]).
  destruct (find_nonzero_spec (length k) k w r eq_refl HW) as [[-> E]|[j ->]]; bindr.
  - rewrite i8_ok by (mach; lia). bindr.
    assert (w = 0) as ->.
    { rewrite replicate_S_end in E. by apply app_inj_tail in E as [_ ?]. }
    destruct (kept_zero i fwt frac k r g Hk) as (buf & -> & Hz). bindr.
    destruct Hz as [Hwf Hm]; [by rewrite Nat.add_1_r|].
    eexists. split; [reflexivity|].
    unfold with_negative, with_buf, with_frac_cnt, with_int_cnt. cbn.
    rewrite Ha. split; [done|]. split; [done|]. rewrite Hm, E, wval_replicate_0.
    split; [done|]. by right.
  - rewrite carry_finish_full. eexists. split; [reflexivity|]. by apply kept_rounded.
Qed.

(** [push_words] with its first word set: the carry in front of [p] zero words. *)
Lemma push_zeros (p : nat) y b : (p <= 8)%nat → push_words p WORD_BUF_LEN (replicate p 0 ++ y :: b) false
  = Ret (take 1 (replicate p 0 ++ [y]) ++ replicate p 0 ++ b, false)
  ∧ set (take 1 (replicate p 0 ++ [y]) ++ replicate p 0 ++ b) 0 1 = Ret (1 :: replicate p 0 ++ b).
Proof.
  intros Hp. split; [apply push_words_spec; [apply length_replicate|unfold WORD_BUF_LEN; lia]|].
  destruct p; cbn [replicate app take]; by apply (set_mid []).
Qed.

Lemma push_over buf : length buf = 9%nat → ∃ buf' buf'',
  push_words 9 WORD_BUF_LEN buf false = Ret (buf', true) ∧ set buf' 0 1 = Ret buf''.
Proof.
  intros Hl. apply snoc_cases in Hl as (a & y & -> & Ha).
  assert (∀ o, push_words 8 WORD_BUF_LEN (a ++ [y]) o = Ret (take 1 (a ++ [y]) ++ a ++ [], o)) as E.
  { intros o. apply push_words_spec; [done|]. unfold WORD_BUF_LEN. lia. }
  change (push_words 9 WORD_BUF_LEN (a ++ [y]) false) with (push_words 8 WORD_BUF_LEN (a ++ [y]) true).
  rewrite E. eexists _, _. split; [done|]. rewrite set_ok; [done|].
  rewrite !length_app, length_take, length_app. cbn. lia.
Qed.

(** The carry out of the leading word, as a decimal. *)
Lemma carry_mag i F' frac' g neg (p : nat) b : 0 <= i <= 8 → 0 <= frac' <= 81 → word_cnt frac' = F' →
  Z.of_nat p = i + F' → (p + length b = 8)%nat → W b →
  wf (mkDecimal (i * 9 + 1) frac' g neg (1 :: replicate p 0 ++ b))
  ∧ mag (mkDecimal (i * 9 + 1) frac' g neg (1 :: replicate p 0 ++ b)) = BASE ^ (i + 9).
Proof.
  intros Hi Hf HF Hp Hb HW. pose proof (word_cnt_bounds frac' Hf).
  assert (Hw : word_cnt (i * 9 + 1) = i + 1) by (rewrite word_cnt_eq by lia; zdiv).
  change (1 :: replicate p 0 ++ b) with ((1 :: replicate p 0) ++ b).
  destruct (mag_of_words (i * 9 + 1) frac' g neg (1 :: replicate p 0) b) as [? ->];
    rewrite ?length_app, ?Hw; cbn [length]; rewrite ?length_replicate; try lia.
  { apply Forall_app_2; [|done]. constructor; [unfold word; lia|]. auto using words_zeros, BASE_gt. }
  split; [done|]. rewrite wval_cons, wval_replicate_0, length_replicate, Z.mul_1_l, Z.add_0_r.
  rewrite <- Z.pow_add_r by lia. f_equal. lia.
Qed.
(** The number overflows, or takes one more integer word. *)
Lemma carry_out_over i fwt frac fc g neg b : i = 9 → fwt <= 0 → -14 <= fwt → length b = 9%nat →
  ∃ d, carry_out (ROk (mkDecimal (i * 9) fc g neg b)) frac fwt i WORD_BUF_LEN = Ret (ROverCausetxctx d).
Proof.
  intros -> Hf Hf' Hl. destruct (push_over b Hl) as (b1 & b2 & Hp & Hs).
  unfold carry_out. cbn [res_val word_buf]. change (as_i8 9) with 9. rewrite (i8_ok (9 + fwt)) by lia. bindr.
  change (as_i8 WORD_BUF_LEN) with 9. change DIGITS_PER_WORD with 9. case_Z.
  - rewrite i8_ok by lia. bindr. rewrite i8_ok by lia. bindr. cbn [res_val word_buf].
    rewrite Z.max_r by lia. change (Z.to_nat (9 + 0)) with 9%nat. rewrite Hp. bindr. rewrite Hs. bindr.
    change (u8 (9 * WORD_BUF_LEN)) with (Ret 81). cbn. by apply (carry_finish_any (ROk _)).
  - cbn [mbind outcome_bind res_val word_buf].
    rewrite Z.max_r by lia. change (Z.to_nat (9 + 0)) with 9%nat. rewrite Hp. bindr. rewrite Hs. bindr.
    change (u8 (9 * WORD_BUF_LEN)) with (Ret 81). cbn. by apply (carry_finish_any (ROk _)).
Qed.
(** The words in front of the place the carry pushes them to are zero. *)
Lemma kept_push i fwt frac k r : kept i fwt frac k r → i + fwt < 9 → i <= 8 → ∃ y b,
  replicate (length k) 0 ++ 0 :: r = replicate (Z.to_nat (i + Z.max fwt 0)) 0 ++ y :: b
  ∧ W b ∧ (Z.to_nat (i + Z.max fwt 0) + length b = 8)%nat.
Proof.
  intros [Hi Hf Hk Hl HW HWr Ht] Hs Hi8. pose proof (words_to_bounds frac fwt Hf).
  assert (E : replicate (length k) 0 ++ 0 :: r = replicate (S (length k)) 0 ++ r).
  { by rewrite (replicate_S_end (length k)), <- app_assoc. }
  rewrite E. destruct (Z.le_gt_cases 0 fwt).
  - destruct r as [|y b]; [cbn in Hl; lia|]. apply Forall_cons_1 in HWr as [_ HWb].
    exists y, b. cbn in Hl. replace (Z.to_nat (i + Z.max fwt 0)) with (S (length k)) by lia.
    split; [done|]. split; [done|]. lia.
  - rewrite (Ht H0), <- replicate_add.
    exists 0, (replicate (8 - Z.to_nat (i + Z.max fwt 0)) 0). rewrite length_replicate.
    split; [|split; [apply words_zeros; lia|lia]].
    change (0 :: replicate (8 - Z.to_nat (i + Z.max fwt 0)) 0)
      with (replicate (S (8 - Z.to_nat (i + Z.max fwt 0))) 0).
    rewrite <- replicate_add. f_equal. lia.
Qed.

Lemma carry_out_ok i fwt frac fc g neg k r : kept i fwt frac k r → i <= 8 → ∃ res,
  carry_out (ROk (mkDecimal (i * 9) fc g neg (replicate (length k) 0 ++ 0 :: r))) frac fwt i WORD_BUF_LEN = Ret res
  ∧ rounded (BASE ^ (i + 9)) frac neg res.
Proof.
  intros Hkept Hi8. pose proof Hkept as [Hi Hf Hk Hl HW HWr Ht].
  destruct (words_to_cnt frac fwt Hf) as (Hcnt & Hb8 & Ha). pose proof (words_to_bounds frac fwt Hf) as Hb.
  unfold carry_out. cbn [res_val word_buf]. rewrite (as_i8_id i), (i8_ok (i + fwt)) by (mach; lia). bindr.
  change (as_i8 WORD_BUF_LEN) with 9. change DIGITS_PER_WORD with 9. change (u8 (9 * WORD_BUF_LEN)) with (Ret 81).
  case_Z.
  - rewrite i8_ok by lia. bindr. rewrite i8_ok by lia. bindr. cbn [res_val word_buf].
    replace (Z.to_nat (i + Z.max (fwt - 1) 0)) with 8%nat by lia.
    replace (length k) with 8%nat by lia. destruct r as [|? ?]; [|cbn in Hl; lia].
    destruct (push_zeros 8 0 []) as [-> Hset]; [lia|]. bindr. rewrite Hset. bindr.
    cbn [mark_over res_map res_val with_buf int_cnt with_int_cnt]. rewrite (proj2 (Z.ltb_lt _ _)) by lia.
    rewrite u8_ok by lia. bindr. unfold with_int_cnt, with_buf. cbn [negative frac_cnt result_frac_cnt word_buf].
    rewrite (carry_finish_one RTruncated) by (done || lia). eexists. split; [reflexivity|].
    unfold with_frac_cnt, with_int_cnt. cbn -[replicate]. rewrite as_u8_id, Z.max_r by lia.
    destruct (carry_mag i (fwt - 1) ((fwt - 1) * 9) g neg 8 []) as [Hwf Hm];
      [lia|lia|apply word_cnt_mul; lia|lia|done|done|].
    split; [done|]. split; [lia|]. split; [done|]. by left.
  - destruct (kept_push i fwt frac k r Hkept ltac:(lia) Hi8) as (y & b & -> & HWb & Hp).
    cbn [mbind outcome_bind res_val word_buf].
    destruct (push_zeros (Z.to_nat (i + Z.max fwt 0)) y b) as [-> Hset]; [lia|]. bindr. rewrite Hset. bindr.
    cbn [mark_over res_map res_val with_buf int_cnt with_int_cnt]. rewrite (proj2 (Z.ltb_lt _ _)) by lia.
    rewrite u8_ok by lia. bindr. unfold with_int_cnt, with_buf. cbn [negative frac_cnt result_frac_cnt word_buf].
    rewrite (carry_finish_one ROk) by (done || lia). eexists. split; [reflexivity|].
    unfold with_frac_cnt, with_int_cnt. cbn -[replicate]. rewrite Ha.
    destruct (carry_mag i (Z.max 0 fwt) (Z.max 0 frac) g neg (Z.to_nat (i + Z.max fwt 0)) b) as [Hwf Hm];
      [lia|lia|done|lia|done|done|].
    split; [done|]. split; [done|]. split; [done|]. by left.
Qed.

(** The rounded words, with the carry of an increment still in the last of them. *)
Lemma handle_carry_spec i fwt frac k r w fc g neg : kept i fwt frac k r → 0 <= w <= BASE → ∃ res,
  handle_carry (ROk (mkDecimal (i * 9) fc g neg (k ++ w :: r))) (length k) frac fwt i WORD_BUF_LEN = Ret res
  ∧ rounded ((V k * BASE + w) * BASE ^ (9 - fwt)) frac neg res.
Proof.
  intros Hkept Hw. destruct (Z.eq_dec w BASE) as [->|].
  2:{ rewrite <- wval_snoc. apply handle_carry_small; [done|]. unfold word. lia. }
  pose proof Hkept as [Hi Hf Hk Hl HW HWr Ht]. pose proof (words_to_bounds frac fwt Hf).
  unfold handle_carry. cbn [res_val word_buf]. rewrite get_mid by done. bindr.
  rewrite WORD_BASE_eq, (proj2 (Z.leb_le _ _)), Z.sub_diag, set_mid by done || lia. bindr.
  destruct (carry_loop_spec (length k) k (0 :: r) 1 eq_refl HW ltac:(lia)) as (j & c & k' & -> & _ & Hk' & HW' & Hc & HV).
  bindr. cbn [res_map]. unfold with_buf. cbn [int_cnt frac_cnt result_frac_cnt negative].
  replace ((V k * BASE + BASE) * BASE ^ (9 - fwt))
    with ((V k' + c * BASE ^ zlen k) * BASE ^ (10 - fwt)).
  2:{ rewrite HV. replace (10 - fwt) with (Z.succ (9 - fwt)) by lia. rewrite Z.pow_succ_r by lia. ring. }
  pose proof (V_bounds k HW). pose proof (V_bounds k' HW') as Hb'. rewrite Hk' in Hb'.
  case_Z.
  - assert (c = 1) as -> by lia. assert (Hz : V k' = 0) by lia. rewrite Hz.
    apply (wval_zero BASE BASE_gt) in Hz as ->; [|done]. rewrite Hk', Z.add_0_l, Z.mul_1_l.
    rewrite <- Z.pow_add_r by lia. replace (zlen k + (10 - fwt)) with (i + 9) by lia.
    destruct (Z.eq_dec i 9) as [->|]; [|apply carry_out_ok; [done|lia]].
    destruct (carry_out_over 9 fwt frac fc g neg (replicate (length k) 0 ++ 0 :: r)) as [d ->];
      try lia. { rewrite length_app, length_replicate. cbn. lia. }
    eexists. split; [done|]. cbn -[Z.pow]. by vm_compute.
  - rewrite carry_finish_full. eexists. split; [reflexivity|].
    assert (c = 0) as -> by lia. rewrite Z.mul_0_l, Z.add_0_r.
    replace (V k' * BASE ^ (10 - fwt)) with (V (k' ++ [0]) * BASE ^ (9 - fwt)).
    + apply kept_rounded; [|apply word_0; lia]. split; try done; by rewrite Hk'.
    + rewrite wval_snoc. replace (10 - fwt) with (Z.succ (9 - fwt)) by lia. rewrite Z.pow_succ_r by lia. ring.
Qed.
End Carry.

(** ** The increment: [handle_incr] *)

Lemma existsb_nonzero R : W R → existsb (λ c, negb (c =? 0)) R = (0 <? V R).
Proof.
  intros HR. induction HR as [|x R Hx HR IH]; [done|]. cbn [existsb].
  rewrite IH, wval_cons. pose proof (V_bounds R HR). pose proof (BASE_pow_pos (zlen R)).
  unfold word in Hx. repeat case_Z; cbn; try done; nia.
Qed.

Section Incr.
Context {TP : TenPow}.

Lemma round_do_inc_spec K R T F fwt m : W R → (0 < length R)%nat → zlen R = F - fwt →
  0 <= F <= 9 → -14 <= fwt <= 4 → zlen K <= 9 →
  round_do_inc (K ++ R ++ T) (zlen K - 1) F fwt m = Ret (ups m (V R) (BASE ^ zlen R)).
Proof.
  intros HR Hn HL HF Hf HK. unfold round_do_inc. destruct m; [|done|].
  - destruct R as [|x R]; [cbn in Hn; lia|]. cbn [app]. rewrite get_mid by lia. bindr.
    rewrite DIG_MASK_eq. f_equal. apply Forall_cons_1 in HR as [Hx HR]. unfold word in Hx.
    cbn [ups length]. rewrite wval_cons, Nat2Z.inj_succ, Z.pow_succ_r by lia.
    pose proof (V_bounds R HR). set (P := BASE ^ zlen R) in *.
    assert (Hd : 5 <= x / 100000000 ↔ 500000000 <= x) by (split; intros; zdiv).
    destruct (Z.leb_spec 5 (x / 100000000)), (Z.leb_spec (BASE * P) (2 * (x * P + V R))); try done; nia.
  - rewrite as_i8_id, i8_ok by (mach; lia). bindr. rewrite i8_ok by lia. bindr.
    replace (zlen K - 1 + F - fwt) with (zlen K - 1 + zlen R) by lia.
    rewrite (proj2 (Z.ltb_lt _ _)) by lia. rewrite !length_app.
    rewrite (proj2 (Z.ltb_ge _ 0)), (proj2 (Z.leb_gt _ _)) by lia. cbn [orb].
    replace (Z.to_nat (zlen K - 1 + 1)) with (length K) by lia. rewrite drop_app_length.
    replace (Z.to_nat (zlen K - 1 + zlen R - (zlen K - 1))) with (length R) by lia.
    by rewrite take_app_length, existsb_nonzero.
Qed.

Lemma round_word_spec w pos m : word BASE w → 0 <= pos <= 8 → m ≠ Ceiling →
  round_word w pos m = Ret (rnd m w (10 ^ (pos + 1))) ∧ 0 <= rnd m w (10 ^ (pos + 1)) <= BASE.
Proof.
  intros Hw Hp Hm. unfold word in Hw. unfold round_word. rewrite TEN_POW_get by lia. bindr.
  assert (Ht : 10 ^ (pos + 1) = 10 * 10 ^ pos) by (rewrite Z.add_1_r, Z.pow_succ_r by lia; done).
  assert (HB : BASE = 10 ^ (pos + 1) * 10 ^ (8 - pos)).
  { rewrite <- Z.pow_add_r by lia. replace (pos + 1 + (8 - pos)) with 9 by lia. done. }
  rewrite Ht in *. pose proof (pow10_pos pos ltac:(lia)) as Htp. pose proof (pow10_pos (8 - pos) ltac:(lia)).
  set (t := 10 ^ pos) in *. set (u := 10 ^ (8 - pos)) in *. clearbody t u.
  pose proof (Z.div_mod w t ltac:(lia)) as E1. pose proof (Z.mod_pos_bound w t Htp) as B1.
  pose proof (Z.div_mod (w / t) 10 ltac:(lia)) as E2. pose proof (Z.mod_pos_bound (w / t) 10 ltac:(lia)) as B2.
  assert (0 <= w / t) by (apply Z.div_pos; lia).
  set (q := w / t) in *. set (a := q / 10) in *. set (dg := q mod 10) in *. set (lo := w mod t) in *.
  clearbody q a dg lo. assert (Ew : w = a * (10 * t) + (dg * t + lo)) by nia. clear E1.
  assert (Ha : 0 <= a < u) by nia.
  assert (Hr : rnd m w (10 * t) = (a + Z.b2z (ups m (dg * t + lo) (10 * t))) * (10 * t)).
  { rewrite Ew. apply rnd_ups; [lia|exists (5 * t); lia|nia]. }
  rewrite Hr. set (up := ups m (dg * t + lo) (10 * t)).
  assert (Hu : ((match m with Ceiling => 0 | HalfEven => 5 | Truncate => 10 end <? dg)
                || (match m with Ceiling => 0 | HalfEven => 5 | Truncate => 10 end =? 5) && (dg =? 5)) = up).
  { unfold up, ups. destruct m; [| |done].
    - change (5 =? 5) with true. cbn [andb]. repeat case_Z; try done; nia.
    - change (10 =? 5) with false. case_Z; [lia|done]. }
  rewrite Hu. assert (Hup : 0 <= Z.b2z up <= 1) by (by destruct up).
  assert (q < BASE) by nia. assert (Hbound : 0 <= (a + Z.b2z up) * (10 * t) <= BASE) by nia.
  split; [|done]. destruct up; cbn [Z.b2z] in *.
  - rewrite u32_ok by (mach; lia). bindr. rewrite u32_ok by (mach; nia). f_equal. nia.
  - bindr. rewrite u32_ok by (mach; nia). f_equal. nia.
Qed.
Lemma rnd_add m a b q : 0 < q → (q | a) → rnd m (a + b) q = a + rnd m b q.
Proof.
  intros Hq [c ->]. unfold rnd. destruct m.
  - replace (c * q + b + q / 2) with (b + q / 2 + c * q) by lia. rewrite Z.div_add by lia. lia.
  - replace (c * q + b) with (b + c * q) by lia. rewrite Z.div_add by lia. lia.
  - replace (c * q + b + q - 1) with (b + q - 1 + c * q) by lia. rewrite Z.div_add by lia. lia.
Qed.

Lemma ups_scale m b q p : 0 < p → ups m (b * p) (q * p) = ups m b q.
Proof. intros Hp. destruct m; cbn; [|done|]; repeat case_Z; done || nia. Qed.

(** The words of the number at hand: [K] is kept and [R] is cut off. *)
Record cut (i F fwt frac : Z) (m : RoundMode) (K R T : list Z) : Prop := {
  cut_i : 0 <= i <= 9;
  cut_F : 0 <= F <= 9;
  cut_frac : words_to frac fwt;
  cut_K : zlen K = i + fwt;
  cut_R : zlen R = F - fwt;
  cut_all : (length K + length R + length T = 9)%nat;
  cut_WK : W K;
  cut_WR : W R;
  cut_WT : W T;
  cut_neg : frac < 0 → K ≠ [];
  cut_drop : frac = fwt * 9 → R ≠ [];
  cut_mode : m = Ceiling → frac = fwt * 9;
}.

Definition cut_mag (F : Z) (K R : list Z) : Z := (V K * BASE ^ zlen R + V R) * BASE ^ (9 - F).

(** What is left of the number is zero below the kept words. *)
Lemma incr_zero i F fwt frac m K0 w R T R1 w' : cut i F fwt frac m (K0 ++ [w]) R T →
  length R1 = (length R + length T)%nat → (fwt = F → R1 = T) → ∃ R2,
  (if fwt <? as_i8 F then
     zero_range (span (if (frac =? 0) && (i =? 0) then 1 else as_u64 (i + fwt)) WORD_BUF_LEN) (K0 ++ w' :: R1)
       (if (frac =? 0) && (i =? 0) then 1 else as_u64 (i + fwt))
   else Ret (K0 ++ w' :: R1)) = Ret (K0 ++ w' :: R2) ∧ kept i fwt frac K0 R2.
Proof.
  intros [Hi HF Hf HK HR Hall HWK HWR HWT Hneg Hdrop Hm] Hl1 HT. pose proof (words_to_bounds frac fwt Hf).
  rewrite !length_app in *. cbn [length] in *. apply Forall_snoc_inv in HWK as [HWK Hw].
  rewrite as_i8_id by (mach; lia). case_Z.
  - assert ((frac =? 0) && (i =? 0) = false) as -> by (repeat case_Z; cbn; try done; lia).
    rewrite as_u64_id by (mach; lia). exists (replicate (length R1) 0). split.
    + rewrite (app_cons_l K0 w' R1), <- (app_nil_r R1) at 1. unfold span, WORD_BUF_LEN.
      replace (Z.to_nat (9 - (i + fwt))) with (length R1) by lia.
      rewrite zero_range_spec by (rewrite ?length_app; cbn; lia).
      by rewrite app_nil_r, <- (app_cons_l K0 w').
    + split; rewrite ?length_replicate; auto; try lia. apply words_zeros. lia.
  - exists R1. split; [done|]. assert (fwt = F) as E by lia. rewrite (HT E). rewrite (HT E) in Hl1.
    split; auto; lia.
Qed.
(** The rest of [handle_incr], once the last kept word is [w']. *)
Lemma incr_tail i F fwt frac m K0 w R T R1 w' fc g neg b : cut i F fwt frac m (K0 ++ [w]) R T →
  length R1 = (length R + length T)%nat → (fwt = F → R1 = T) → 0 <= w' <= BASE →
  incr_step b (i + fwt) (i + fwt - 1) fwt frac F m = Ret (Some (K0 ++ w' :: R1, i + fwt - 1)) → ∃ res,
  handle_incr (ROk (mkDecimal (i * 9) fc g neg b)) i fwt frac F WORD_BUF_LEN m = Ret res
  ∧ rounded ((V K0 * BASE + w') * BASE ^ (9 - fwt)) frac neg res.
Proof.
  intros Hcut Hl1 HT Hw' Hstep. pose proof Hcut as [Hi HF Hf HK _ _ _ _ _ _ _ _].
  pose proof (words_to_bounds frac fwt Hf). rewrite length_app in HK. cbn [length] in HK.
  unfold handle_incr. cbn [res_val word_buf]. rewrite (as_i8_id i), (i8_ok (i + fwt)) by (mach; lia). bindr.
  rewrite i8_ok by lia. bindr. rewrite Hstep. bindr.
  destruct (incr_zero i F fwt frac m K0 w R T R1 w' Hcut Hl1 HT) as (R2 & -> & Hkept). bindr.
  rewrite (proj2 (Z.ltb_ge _ _)) by lia. replace (Z.to_nat (i + fwt - 1)) with (length K0) by lia.
  by apply handle_carry_spec.
Qed.

(** The cut falls inside a word. *)
Lemma incr_inside i F fwt frac m K R T fc g neg : cut i F fwt frac m K R T → frac ≠ fwt * 9 → ∃ res,
  handle_incr (ROk (mkDecimal (i * 9) fc g neg (K ++ R ++ T))) i fwt frac F WORD_BUF_LEN m = Ret res
  ∧ rounded (rnd m (cut_mag F K R) (10 ^ (81 - frac))) frac neg res.
Proof.
  intros Hcut Hne. pose proof Hcut as [Hi HF Hf HK HR Hall HWK HWR HWT Hneg Hdrop Hm].
  pose proof (words_to_bounds frac fwt Hf).
  destruct K as [|w K0 _] using rev_ind.
  { exfalso. cbn in HK. destruct (Z.lt_ge_cases frac 0); [by apply Hneg|lia]. }
  rewrite length_app in HK. cbn [length] in HK. apply Forall_snoc_inv in HWK as [HWK Hw].
  set (pos := fwt * 9 - frac - 1).
  destruct (round_word_spec w pos m Hw ltac:(lia) ltac:(by intros ->; auto)) as [Hrw Hrb].
  replace (rnd m (cut_mag F (K0 ++ [w]) R) (10 ^ (81 - frac)))
    with ((V K0 * BASE + rnd m w (10 ^ (pos + 1))) * BASE ^ (9 - fwt)).
  - apply (incr_tail i F fwt frac m K0 w R T (R ++ T)); try done.
    { by rewrite length_app. }
    { intros E. destruct R; [done|cbn in HR; lia]. }
    unfold incr_step. change DIGITS_PER_WORD with 9. rewrite i8_ok by lia. bindr.
    rewrite (proj2 (Z.eqb_neq _ _)) by done. rewrite i8_ok by lia. bindr. rewrite i8_ok by lia. bindr.
    rewrite !as_u64_id by (mach; lia). rewrite get_last by lia. bindr.
    fold pos. rewrite Hrw. bindr. by rewrite set_last by lia.
  - rewrite <- (rnd_add m (V K0 * BASE)).
    + unfold cut_mag. rewrite wval_snoc, Z.mul_add_distr_r, <- Z.mul_assoc, <- Z.pow_add_r by lia.
      replace (zlen R + (9 - F)) with (9 - fwt) by lia.
      replace (10 ^ (81 - frac)) with (10 ^ (pos + 1) * BASE ^ (9 - fwt)).
      2:{ rewrite BASE_pow10, <- Z.pow_add_r by lia. f_equal. lia. }
      rewrite rnd_scale; try done; try apply BASE_pow_pos; try apply pow10_pos; try lia.
      * by intros ->; auto.
      * exists (5 * 10 ^ pos). rewrite Z.pow_add_r by lia. lia.
      * pose proof (V_bounds R HWR). pose proof (BASE_pow_pos (9 - F) ltac:(lia)). split; [nia|].
        replace (9 - fwt) with (zlen R + (9 - F)) by lia. rewrite Z.pow_add_r by lia. nia.
    + apply pow10_pos. lia.
    + apply Z.divide_mul_r. exists (10 ^ (9 - (pos + 1))). rewrite <- Z.pow_add_r by lia.
      replace (9 - (pos + 1) + (pos + 1)) with 9 by lia. done.
Qed.

(** The value of a number cut at a word boundary. *)
Lemma cut_boundary i F fwt frac m K R T : cut i F fwt frac m K R T → frac = fwt * 9 →
  rnd m (cut_mag F K R) (10 ^ (81 - frac)) = (V K + Z.b2z (ups m (V R) (BASE ^ zlen R))) * BASE ^ (9 - fwt).
Proof.
  intros [Hi HF Hf HK HR Hall HWK HWR HWT Hneg Hdrop Hm] E. pose proof (words_to_bounds frac fwt Hf).
  pose proof (V_bounds R HWR). pose proof (BASE_pow_pos (9 - F) ltac:(lia)).
  replace (10 ^ (81 - frac)) with (BASE ^ (9 - fwt)) by (rewrite BASE_pow10 by lia; f_equal; lia).
  assert (Eq : BASE ^ (9 - fwt) = BASE ^ zlen R * BASE ^ (9 - F)).
  { rewrite <- Z.pow_add_r by lia. f_equal. lia. }
  unfold cut_mag. rewrite Z.mul_add_distr_r, <- Z.mul_assoc, <- Eq.
  rewrite rnd_ups.
  - by rewrite Eq, ups_scale.
  - apply BASE_pow_pos. lia.
  - rewrite BASE_pow10 by lia. exists (5 * 10 ^ (9 * (9 - fwt) - 1)).
    rewrite <- (Z.mul_comm 2), Z.mul_assoc. change (2 * 5) with 10. rewrite <- Z.pow_succ_r by lia. f_equal. lia.
  - rewrite Eq. nia.
Qed.
(** Nothing is kept and the fraction rounds up to one. *)
Lemma handle_carry_one fc g neg frac b : length b = 8%nat → W b → frac = 0 → ∃ res,
  handle_carry (ROk (mkDecimal 0 fc g neg (BASE :: b))) 0 frac 0 0 WORD_BUF_LEN = Ret res
  ∧ rounded (BASE ^ 9) frac neg res.
Proof.
  intros Hb HW ->. unfold handle_carry. cbn [res_val word_buf].
  rewrite (get_mid [] BASE b (Z.of_nat 0) eq_refl : get (BASE :: b) _ = _). bindr.
  rewrite WORD_BASE_eq. cbn [Z.leb Z.compare Pos.compare Pos.compare_cont].
  rewrite (set_mid [] (BASE - BASE) BASE b (Z.of_nat 0) eq_refl : set (BASE :: b) _ _ = _). bindr.
  cbn [carry_loop mbind outcome_bind]. change (BASE - BASE) with 0. cbn [app Z.ltb Z.compare res_map].
  unfold carry_out, with_buf. cbn [res_val word_buf int_cnt frac_cnt result_frac_cnt negative].
  change (i8 (as_i8 0 + 0)) with (Ret 0). bindr.
  change (as_i8 WORD_BUF_LEN <=? 0) with false. cbn [mbind outcome_bind].
  change (Z.to_nat (0 + Z.max 0 0)) with 0%nat. cbn [push_words mbind outcome_bind res_val word_buf].
  rewrite (set_mid [] 1 0 b 0 eq_refl : set (0 :: b) _ _ = _). bindr.
  change (u8 (DIGITS_PER_WORD * WORD_BUF_LEN)) with (Ret 81). bindr.
  cbn [app mark_over res_map res_val int_cnt Z.ltb Z.compare]. change (u8 (0 + 1)) with (Ret 1). bindr.
  unfold with_int_cnt. cbn [int_cnt frac_cnt result_frac_cnt negative word_buf].
  rewrite (carry_finish_one ROk 0) by done. eexists. split; [reflexivity|].
  destruct (carry_mag 0 0 0 g neg 0 b) as [Hwf Hm]; [lia|lia|reflexivity|reflexivity|lia|done|].
  cbn [replicate app] in Hwf, Hm. split; [exact Hwf|]. split; [reflexivity|]. split; [exact Hm|]. left. reflexivity.
Qed.

Lemma incr_boundary i F fwt frac m K R T fc g neg : cut i F fwt frac m K R T → frac = fwt * 9 → ∃ res,
  handle_incr (ROk (mkDecimal (i * 9) fc g neg (K ++ R ++ T))) i fwt frac F WORD_BUF_LEN m = Ret res
  ∧ rounded (rnd m (cut_mag F K R) (10 ^ (81 - frac))) frac neg res.
Proof.
  intros Hcut E. pose proof Hcut as [Hi HF Hf HK HR Hall HWK HWR HWT Hneg Hdrop Hm].
  pose proof (words_to_bounds frac fwt Hf). rewrite (cut_boundary i F fwt frac m K R T Hcut E).
  assert (Hinc : round_do_inc (K ++ R ++ T) (i + fwt - 1) F fwt m = Ret (ups m (V R) (BASE ^ zlen R))).
  { rewrite <- HK. apply round_do_inc_spec; try done; try lia. destruct R; [by destruct (Hdrop E)|cbn; lia]. }
  set (up := ups m (V R) (BASE ^ zlen R)) in *. clearbody up.
  assert (Hup : 0 <= Z.b2z up <= 1) by (by destruct up).
  destruct K as [|w K0 _] using rev_ind.
  - cbn in HK, Hall. assert (0 <= frac) by (destruct (Z.lt_ge_cases frac 0); [by destruct Hneg|done]).
    assert (fwt = 0 ∧ i = 0 ∧ frac = 0) as (-> & -> & ->) by lia. clear E.
    unfold handle_incr, incr_step. cbn [res_val word_buf app Z.mul]. change (i8 (as_i8 0 + 0)) with (Ret 0). bindr.
    change (i8 (0 - 1)) with (Ret (-1)). bindr. change (i8 (0 * DIGITS_PER_WORD)) with (Ret 0). bindr.
    cbn [Z.eqb]. change (0 + 0 - 1) with (-1) in Hinc. cbn [app] in Hinc. rewrite Hinc. bindr. destruct up.
    + cbn [Z.leb Z.compare]. change (-1 + 1) with 0. destruct R as [|x R]; [by destruct (Hdrop eq_refl)|].
      rewrite (set_mid [] WORD_BASE x (R ++ T) 0 eq_refl : set ((x :: R) ++ T) _ _ = _). bindr.
      rewrite WORD_BASE_eq, as_i8_id by (mach; lia). assert (0 < F) by (cbn [length] in HR; lia). rewrite (proj2 (Z.ltb_lt 0 F)) by done.
      cbn [andb app]. change (BASE :: R ++ T) with ([BASE] ++ (R ++ T)). rewrite <- (app_nil_r (R ++ T)).
      change (span 1 WORD_BUF_LEN) with 8%nat. cbn in HR, Hall.
      rewrite zero_range_spec by (rewrite ?length_app; cbn; lia). bindr. cbn [Z.ltb Z.compare res_map].
      change ((V [] + Z.b2z true) * BASE ^ (9 - 0)) with (1 * BASE ^ 9). rewrite Z.mul_1_l.
      unfold with_buf. cbn [int_cnt frac_cnt result_frac_cnt negative app]. rewrite app_nil_r.
      apply handle_carry_one; [apply length_replicate|apply words_zeros; lia|reflexivity].
    + cbn [Z.eqb]. bindr. eexists. split; [reflexivity|].
      split; [apply wf_zero|]. split; [done|]. split; [done|]. by right.
  - rewrite wval_snoc. apply Forall_snoc_inv in HWK as [HWK Hw]. rewrite length_app in HK. cbn [length] in HK.
    rewrite <- Z.add_assoc. unfold word in Hw.
    apply (incr_tail i F fwt frac m K0 w R T (R ++ T)); try (done || lia).
    { by rewrite length_app. }
    { intros E'. destruct R; [by destruct (Hdrop E)|cbn in HR; lia]. }
    unfold incr_step. change DIGITS_PER_WORD with 9. rewrite i8_ok by lia. bindr.
    rewrite (proj2 (Z.eqb_eq _ _)) by done. rewrite Hinc. bindr. destruct up.
    + rewrite (proj2 (Z.leb_le _ _)) by lia. rewrite get_last by lia. bindr.
      rewrite u32_ok by (mach; lia). bindr. by rewrite set_last by lia.
    + rewrite (proj2 (Z.eqb_neq _ _)) by lia. rewrite Z.add_0_r. by rewrite <- app_assoc.
Qed.

Lemma handle_incr_spec i F fwt frac m K R T fc g neg : cut i F fwt frac m K R T → ∃ res,
  handle_incr (ROk (mkDecimal (i * 9) fc g neg (K ++ R ++ T))) i fwt frac F WORD_BUF_LEN m = Ret res
  ∧ rounded (rnd m (cut_mag F K R) (10 ^ (81 - frac))) frac neg res.
Proof.
  intros Hcut. destruct (Z.eq_dec frac (fwt * 9)); [by apply incr_boundary|by apply incr_inside].
Qed.
End Incr.

(** ** The whole of [round] *)

Lemma mag_eq d I F T : wf d → word_buf d = I ++ F ++ T → zlen I = int_words d → zlen F = frac_words d →
  mag d = V (I ++ F) * BASE ^ (9 - frac_words d).
Proof.
  intros Hd E LI LF. pose proof (words_nonneg d Hd). unfold mag. rewrite coeff_at_ge by lia.
  unfold coeff, used. rewrite E, app_assoc, take_app_length'; [done|]. rewrite length_app. lia.
Qed.

Lemma word_cnt_top n : 0 < n <= 81 → 9 * word_cnt n = n + (9 - top_digits n).
Proof. intros. rewrite word_cnt_eq by lia. unfold top_digits. zdiv. Qed.

(** A tight decimal has no digit beyond its counts. *)
Lemma tight_divides d : wf d → tight d → (10 ^ (81 - frac_cnt d) | mag d).
Proof.
  intros Hd [_ Ht]. pose proof (words_nonneg d Hd). pose proof (wf_frac d Hd).
  destruct (wf_cut d Hd) as (I & F & T & E & LI & LF & HI & HF & HT & Hc).
  rewrite (mag_eq d I F T) by done. unfold frac_words in *.
  destruct (Z.eq_dec (frac_cnt d) 0) as [E0|].
  - rewrite E0. change (word_cnt 0) with 0. apply Z.divide_factor_r.
  - pose proof (word_cnt_top (frac_cnt d) ltac:(lia)). pose proof (top_digits_bounds (frac_cnt d)).
    destruct F as [|v F _] using rev_ind; [cbn in LF; lia|].
    destruct (Ht v) as [x ->].
    { rewrite E, <- app_assoc, app_assoc, lookup_app_r; rewrite !length_app in *; cbn in LF |- *; [|lia].
      replace (_ - _)%nat with O by lia. done. }
    { lia. }
    rewrite app_assoc, wval_snoc.
    replace (10 ^ (81 - frac_cnt d))
      with (10 ^ (9 - top_digits (frac_cnt d)) * BASE ^ (9 - word_cnt (frac_cnt d))).
    2:{ rewrite BASE_pow10, <- Z.pow_add_r by lia. f_equal. lia. }
    apply Z.mul_divide_mono_r. apply Z.divide_add_r; [|apply Z.divide_factor_r].
    apply Z.divide_mul_r. exists (10 ^ top_digits (frac_cnt d)). rewrite <- Z.pow_add_r by lia.
    replace (top_digits (frac_cnt d) + (9 - top_digits (frac_cnt d))) with 9 by lia. done.
Qed.

Lemma tight_bound d : wf d → tight d → 0 <= mag d < 10 ^ (81 + int_cnt d).
Proof.
  intros Hd [Ht _]. pose proof (words_nonneg d Hd). pose proof (wf_int d Hd).
  pose proof (coeff_at_bound d 9 Hd ltac:(lia)) as Hb. fold (mag d) in Hb. unfold int_words in *.
  destruct (Z.eq_dec (int_cnt d) 0) as [E0|].
  - rewrite E0 in *. change (word_cnt 0) with 0 in Hb. change (BASE ^ (0 + 9)) with (10 ^ (81 + 0)) in Hb. done.
  - pose proof (word_cnt_top (int_cnt d) ltac:(lia)) as Htop. pose proof (top_digits_bounds (int_cnt d)).
    destruct (word_buf_head d Hd) as (w & Hw & _).
    destruct (coeff_at_lead d 9 w Hd) as (_ & _ & Hlt); [lia|unfold int_words; lia|done|]. fold (mag d) in Hlt.
    unfold int_words in Hlt. specialize (Ht w Hw ltac:(lia)). split; [lia|].
    replace (81 + int_cnt d) with (top_digits (int_cnt d) + 9 * (word_cnt (int_cnt d) + 9 - 1)) by lia.
    rewrite Z.pow_add_r, <- BASE_pow10 by lia.
    pose proof (BASE_pow_pos (word_cnt (int_cnt d) + 9 - 1)). nia.
Qed.

(** The decimal is kept as it is, padded with zero words. *)
Lemma pad_mag (i f g : Z) (neg : bool) (I F : list Z) (z : nat) (T : list Z) :
  0 <= i <= 9 → 0 <= f <= 81 → zlen I = i →
  word_cnt f = zlen F + Z.of_nat z → zlen (I ++ F ++ replicate z 0 ++ T) = 9 →
  0 < zlen (I ++ F ++ replicate z 0) → W I → W F → W T →
  wf (mkDecimal (i * 9) f g neg (I ++ F ++ replicate z 0 ++ T)) ∧
  mag (mkDecimal (i * 9) f g neg (I ++ F ++ replicate z 0 ++ T)) = V (I ++ F) * BASE ^ (9 - zlen F).
Proof.
  intros Hi Hf LI Hw Hl Hn HI HF HT. rewrite !app_assoc. pose proof (word_cnt_bounds f Hf).
  destruct (mag_of_words (i * 9) f g neg ((I ++ F) ++ replicate z 0) T) as [Hwf Hm].
  - lia.
  - done.
  - rewrite word_cnt_mul, !length_app, length_replicate by lia. lia.
  - rewrite <- !app_assoc. lia.
  - rewrite <- app_assoc. lia.
  - repeat apply Forall_app_2; auto using words_zeros, BASE_gt.
  - split; [done|]. rewrite Hm, Hw, wval_app_zeros, <- Z.mul_assoc, <- Z.pow_add_r by lia. do 2 f_equal. lia.
Qed.

Lemma even_step k : 0 < k → (2 | 10 ^ k).
Proof.
  intros. exists (5 * 10 ^ (k - 1)). replace k with (Z.succ (k - 1)) at 1 by lia.
  rewrite Z.pow_succ_r by lia. lia.
Qed.

(** Keeping all the digits there are changes nothing. *)
Lemma rnd_keep m d frac : wf d → tight d → frac_cnt d <= frac <= 30 →
  rnd m (mag d) (10 ^ (81 - frac)) = mag d.
Proof.
  intros Hd Ht Hf. pose proof (wf_frac d Hd).
  apply rnd_multiple; [apply pow10_pos; lia|apply even_step; lia|].
  etrans; [|by apply tight_divides]. exists (10 ^ (frac - frac_cnt d)). rewrite <- Z.pow_add_r by lia. f_equal. lia.
Qed.

(** A step ten times the number rounds it to zero. *)
Lemma rnd_zero m d frac : wf d → tight d → m ≠ Ceiling → int_cnt d + frac < 0 → -128 <= frac →
  rnd m (mag d) (10 ^ (81 - frac)) = 0.
Proof.
  intros Hd Ht Hm Hf Hlo. pose proof (tight_bound d Hd Ht). pose proof (wf_int d Hd).
  assert (Hq : 10 ^ (81 - frac) = 10 ^ (81 + int_cnt d) * (10 * 10 ^ (- frac - int_cnt d - 1))).
  { rewrite <- Z.pow_succ_r, <- Z.pow_add_r by lia. f_equal. lia. }
  pose proof (pow10_pos (- frac - int_cnt d - 1) ltac:(lia)). pose proof (pow10_pos (81 + int_cnt d) ltac:(lia)).
  replace (mag d) with (0 * 10 ^ (81 - frac) + mag d) by lia.
  rewrite rnd_ups; [|apply pow10_pos; lia|apply even_step; lia|rewrite Hq; nia].
  assert (ups m (mag d) (10 ^ (81 - frac)) = false) as ->; [|cbn; lia].
  rewrite Hq. destruct m; [|done..]. cbn. apply Z.leb_gt. nia.
Qed.

Section Round.
Context {TP : TenPow}.

(** The case of a fraction that gains digits, or keeps them all. *)
Lemma round_padded (mk : Decimal → Res Decimal) d i F I Fr T frac f fwt m : wf d → tight d →
  (mk = ROk ∧ f = frac ∨ mk = RTruncated ∧ 0 <= f < frac) → frac <= 30 → 0 <= f → frac_cnt d <= f →
  word_cnt f = fwt → F <= fwt → i + fwt <= 9 → i = int_words d → F = frac_words d → 
  word_buf d = I ++ Fr ++ T → zlen I = i → zlen Fr = F → W I → W Fr → W T → ∃ b,
  zero_range (span (i + F) (i + fwt)) (word_buf d) (i + F) = Ret b ∧
  rounded (rnd m (mag d) (10 ^ (81 - frac))) frac (negative d)
    (mk (mkDecimal (i * 9) f (result_frac_cnt d) (negative d) b)).
Proof.
  intros Hd Ht Hmk Hf30 Hf0 Hfc Hcf HF Hs Ei EF E LI LF HI HFr HT.
  pose proof (words_nonneg d Hd) as Hn. rewrite <- Ei, <- EF in Hn. pose proof (wf_some d Hd). pose proof (wf_len d Hd) as Hl.
  rewrite E, !length_app in Hl.
  destruct (cut_at T (Z.to_nat (fwt - F))) as (Z0 & T' & -> & LZ); [lia|].
  apply Forall_app in HT as [_ HT]. rewrite length_app in Hl.
  exists (I ++ Fr ++ replicate (Z.to_nat (fwt - F)) 0 ++ T'). split.
  - rewrite E, !app_assoc, <- !(app_assoc (I ++ Fr)). unfold span. replace (i + fwt - (i + F)) with (fwt - F) by lia.
    apply zero_range_spec; [done|]. rewrite length_app. lia.
  - rewrite rnd_keep by (done || destruct Hmk; lia). rewrite (mag_eq d I Fr (Z0 ++ T')), <- EF by (done || lia).
    destruct (pad_mag i f (result_frac_cnt d) (negative d) I Fr (Z.to_nat (fwt - F)) T') as [Hwf Hm];
      rewrite ?length_app, ?length_replicate; auto; try lia. rewrite LF in Hm.
    destruct Hmk as [[-> ->]|[-> ?]]; (split; [done|]); cbn [frac_cnt]; (split; [lia|]); (split; [done|]); by left.
Qed.
(** The words [handle_incr] is called on. *)
Lemma round_cut d I Fr T frac fwt m : wf d → words_to frac fwt → (m = Ceiling → frac = fwt * 9) →
  fwt <= frac_words d → frac < frac_cnt d → 0 <= int_cnt d + frac → int_words d + fwt <= 9 →
  word_buf d = I ++ Fr ++ T → zlen I = int_words d → zlen Fr = frac_words d → W I → W Fr → W T →
  ∃ K R, word_buf d = K ++ R ++ T ∧ cut (int_words d) (frac_words d) fwt frac m K R T
    ∧ cut_mag (frac_words d) K R = mag d.
Proof.
  intros Hd Hf Hm Hle Hlt Hpos Hs E LI LF HI HFr HT. pose proof (words_nonneg d Hd).
  pose proof (words_to_bounds frac fwt Hf). pose proof (wf_len d Hd) as Hl. rewrite E, !length_app in Hl.
  pose proof (word_cnt_bounds (int_cnt d) (wf_int d Hd)). pose proof (word_cnt_bounds (frac_cnt d) (wf_frac d Hd)).
  unfold int_words, frac_words in *.
  assert (0 <= word_cnt (int_cnt d) + fwt ∧ (frac < 0 → 1 <= word_cnt (int_cnt d) + fwt)).
  { destruct Hf as [[? ->]|[? ->]]; zdiv. }
  destruct (cut_at (I ++ Fr) (Z.to_nat (word_cnt (int_cnt d) + fwt))) as (K & R & EKR & LK).
  { rewrite length_app. lia. }
  assert (LR : (length K + length R = length I + length Fr)%nat) by (rewrite <- !length_app, EKR; done).
  assert (HKR : W (K ++ R)) by (rewrite <- EKR; auto using Forall_app_2). apply Forall_app in HKR as [HK HR].
  exists K, R. rewrite E, app_assoc, EKR, <- app_assoc. split; [done|]. split.
  - split; auto; try lia.
    + intros ? ->. cbn in LK. lia.
    + intros ? ->. cbn in LR. lia.
  - unfold cut_mag. rewrite (mag_eq d I Fr T) by done. rewrite EKR, wval_app. done.
Qed.

(** [round_body] when no digit is cut. *)
Lemma round_body_padded mk d frac f fwt m : wf d → tight d →
  (mk = ROk ∧ f = frac ∨ mk = RTruncated ∧ 0 <= f < frac) → frac <= 30 → 0 <= f → frac_cnt d <= f →
  word_cnt f = fwt → int_words d + fwt <= 9 → ∃ res,
  round_body (mk d) (int_words d) (frac_words d) fwt f WORD_BUF_LEN m = Ret res
  ∧ rounded (rnd m (mag d) (10 ^ (81 - frac))) frac (negative d) res.
Proof.
  intros Hd Ht Hmk H30 Hf0 Hfc Hcf Hs. pose proof (words_nonneg d Hd). pose proof (wf_frac d Hd).
  destruct (wf_cut d Hd) as (I & F & T & E & LI & LF & HI & HF & HT & _).
  assert (Hb : 0 <= f <= 81) by (destruct Hmk; lia). pose proof (word_cnt_bounds f Hb).
  pose proof (word_cnt_bounds (frac_cnt d) ltac:(done)). unfold frac_words in *.
  destruct (round_padded mk d (int_words d) (frac_words d) I F T frac f fwt m) as (b & Hz & Hres);
    auto; try (unfold frac_words; lia). unfold frac_words in *.
  eexists. split; [|exact Hres]. unfold round_body, WORD_BUF_LEN. rewrite Z.min_l by lia.
  change DIGITS_PER_WORD with 9. rewrite u8_ok by lia. bindr. rewrite as_i8_id by (mach; lia).
  destruct (Z.ltb_spec (word_cnt (frac_cnt d)) fwt).
  - destruct Hmk as [[-> _]|[-> _]]; cbn [res_map res_val with_int_cnt word_buf];
      rewrite (as_u8_id fwt), Hz, (as_u8_id f) by lia; reflexivity.
  - replace (span _ _) with O in Hz by (unfold span; lia). injection Hz as <-.
    destruct Hmk as [[-> _]|[-> _]]; cbn [res_map res_val with_int_cnt frac_cnt];
      rewrite as_i8_id, (proj2 (Z.leb_le _ _)), as_u8_id by (mach; lia); reflexivity.
Qed.

Lemma round_spec d frac m : wf d → tight d → -128 <= frac <= 127 →
  (m = Ceiling → 0 <= frac < 30 ∧ frac mod 9 = 0) →
  ∃ res, round d frac m = Ret res ∧
    rounded (rnd m (mag d) (10 ^ (81 - Z.min frac 30))) (Z.min frac 30) (negative d) res.
Proof.
  intros Hd Ht Hr Hm. unfold round, round_with_word_buf_len.
  replace (if MAX_FRACTION <? frac then MAX_FRACTION else frac) with (Z.min frac 30)
    by (unfold MAX_FRACTION; case_Z; lia).
  assert (Hf : ∃ fwt, (if 0 <? Z.min frac 30 then word_cnt_i8 (Z.min frac 30)
                       else Z.quot (Z.min frac 30 + 1) DIGITS_PER_WORD) = fwt ∧ words_to (Z.min frac 30) fwt).
  { eexists. split; [reflexivity|]. unfold words_to, word_cnt_i8. case_Z; [left|right]; (split; [lia|]); [|done].
    unfold word_cnt, word_cnt_as. by rewrite as_i8_id, as_u8_id by (mach; lia). }
  assert (Hm' : m = Ceiling → Z.min frac 30 = word_cnt (Z.min frac 30) * 9 ∧ 0 <= Z.min frac 30).
  { intros E. specialize (Hm E). rewrite Z.min_l, word_cnt_eq by lia. zdiv. }
  assert (Hr' : -128 <= Z.min frac 30 <= 30) by lia. clear Hr Hm. destruct Hf as (fwt & -> & Hf).
  set (fr := Z.min frac 30) in *. clearbody fr. fold (int_words d) (frac_words d).
  pose proof (words_nonneg d Hd). pose proof (words_to_bounds fr fwt Hf). pose proof (wf_int d Hd). pose proof (wf_frac d Hd).
  destruct (wf_cut d Hd) as (I & F & T & E & LI & LF & HI & HF & HT & _).
  pose proof (word_cnt_bounds (frac_cnt d) ltac:(done)). 
  rewrite (as_i8_id (int_words d)), (i8_ok (int_words d + fwt)) by (mach; lia). bindr. change (as_i8 WORD_BUF_LEN) with 9.
  change DIGITS_PER_WORD with 9. case_Z.
  - rewrite i8_ok by lia. bindr. rewrite i8_ok by lia. bindr.
    apply (round_body_padded RTruncated); try done; try lia.
    + right. split; [done|lia].
    + pose proof (wf_fit d Hd). unfold frac_words in *. lia.
    + apply word_cnt_mul. lia.
  - rewrite as_i8_id, i8_ok by (mach; lia). bindr. case_Z; [|destruct (Z.le_gt_cases (frac_cnt d) fr)].
    + eexists. split; [reflexivity|]. rewrite rnd_zero by (done || lia || (intros E'; apply Hm' in E'; lia)).
      split; [apply wf_zero|]. split; [cbn; lia|]. split; [done|]. by right.
    + apply (round_body_padded ROk); try done; try lia; [by left|].
      destruct Hf as [[? ->]|[? ->]]; [done|]. assert (fr = 0) as -> by lia. done.
    + assert (fwt <= frac_words d).
      { unfold frac_words. destruct Hf as [[? ->]|[? ->]]; [rewrite !word_cnt_eq by lia|]; zdiv. }
      destruct (round_cut d I F T fr fwt m) as (K & R & E' & Hcut & <-); auto; try lia.
      { intros Ec. destruct (Hm' Ec) as [? ?]. destruct Hf as [[? ->]|[? ->]]; [done|].
        assert (fr = 0) as -> by lia. done. }
      unfold round_body. rewrite Z.min_l by (unfold WORD_BUF_LEN; lia). change DIGITS_PER_WORD with 9.
      rewrite u8_ok by lia. bindr. cbn [res_map res_val with_int_cnt frac_cnt].
      rewrite (as_i8_id (frac_words d)), (as_i8_id (frac_cnt d)) by (mach; lia).
      rewrite (proj2 (Z.ltb_ge _ _)), (proj2 (Z.leb_gt _ _)) by lia.
      unfold with_int_cnt. rewrite E'. by apply handle_incr_spec.
Qed.

(** ** [ceil] and [floor] *)

(** The number, scaled by [10^81]. *)
Definition sval (d : Decimal) : Z := sign d * mag d.

(** A result that must be the integer number [v]. *)
Definition integral (v : Z) (res : Res Decimal) : Prop :=
  match res with
  | ROk d => wf d ∧ frac_cnt d = 0 ∧ sval d = v
  | RTruncated _ => False
  | ROverCausetxctx _ => 10 ^ 162 <= Z.abs v
  end.

Lemma rounded_integral d m v res : rounded (rnd m (mag d) (10 ^ 81)) 0 (negative d) res →
  v = sign d * rnd m (mag d) (10 ^ 81) → integral v res.
Proof.
  unfold rounded, integral, sval, sign, same_sign. intros H ->. destruct res as [d'|d'|d'].
  - destruct H as (Hd & Hf & Hm & Hs). split; [done|]. split; [done|]. rewrite Hm in *.
    destruct Hs as [->| ->]; [done|lia].
  - destruct H as (Hd & Hf & _). pose proof (wf_frac d' Hd). cbn in Hf. lia.
  - destruct (negative d); lia.
Qed.

Lemma rnd_toward m d : wf d → m = Truncate ∨ m = Ceiling →
  sign d * rnd m (mag d) (10 ^ 81)
  = if Bool.eqb (negative d) (match m with Ceiling => true | _ => false end)
    then sval d / 10 ^ 81 * 10 ^ 81 else - (- sval d / 10 ^ 81) * 10 ^ 81.
Proof.
  intros Hd Hm. pose proof (coeff_at_bound d 9 Hd ltac:(lia)) as [Hb _]. fold (mag d) in Hb.
  unfold sval, sign. pose proof (pow10_pos 81 ltac:(lia)) as Hq. set (q := 10 ^ 81) in *. clearbody q.
  pose proof (Z.div_mod (mag d) q ltac:(lia)) as E. pose proof (Z.mod_pos_bound (mag d) q Hq) as B.
  set (a := mag d / q) in *. set (b := mag d mod q) in *. clearbody a b.
  assert (Hfl : mag d / q = a) by (symmetry; apply (Z.div_unique _ _ _ b); lia).
  assert (Hup : - (- mag d / q) = (mag d + q - 1) / q).
  { destruct (Z.eq_dec b 0).
    - assert (- mag d / q = - a) as -> by (symmetry; apply (Z.div_unique _ _ _ 0); lia).
      rewrite Z.opp_involutive. apply (Z.div_unique _ _ _ (q - 1)); lia.
    - assert (- mag d / q = - a - 1) as -> by (symmetry; apply (Z.div_unique _ _ _ (q - b)); lia).
      apply (Z.div_unique _ _ _ (b - 1)); lia. }
  assert (-1 * mag d = - mag d) as Hneg by lia.
  destruct Hm as [-> | ->], (negative d); cbn [rnd Bool.eqb];
    rewrite ?Z.mul_1_l, ?Hneg, ?Z.opp_involutive, <- ?Hup; lia.
Qed.

(** [ceil] and [floor] never panic: the least integer not below, and the greatest not
    above, the decimal; an overflow means that it needs 82 digits. *)
Theorem ceil_floor_exact d : wf d → tight d →
  (∃ res, ceil d = Ret res ∧ integral (- (- sval d / 10 ^ 81) * 10 ^ 81) res) ∧
  (∃ res, floor d = Ret res ∧ integral (sval d / 10 ^ 81 * 10 ^ 81) res).
Proof.
  intros Hd Ht.
  assert (Hr : ∀ m, m ≠ HalfEven → ∃ res, round d 0 m = Ret res ∧
    rounded (rnd m (mag d) (10 ^ 81)) 0 (negative d) res).
  { intros m _. by apply (round_spec d 0 m). }
  destruct (Hr Ceiling) as (rc & Ec & Hc); [done|]. destruct (Hr Truncate) as (rt & Et & Ht'); [done|].
  pose proof (rnd_toward Ceiling d Hd ltac:(by right)) as Vc. pose proof (rnd_toward Truncate d Hd ltac:(by left)) as Vt.
  unfold ceil, floor. destruct (negative d) eqn:En; cbn [negb Bool.eqb] in *; rewrite Ec, Et.
  - split; [exists rt|exists rc]; (split; [done|]); eapply rounded_integral; rewrite ?En; eauto.
  - split; [exists rc|exists rt]; (split; [done|]); eapply rounded_integral; rewrite ?En; eauto.
Qed.
End Round.


Lemma ceil_floor_exact_witness :
  (∃ res, @ceil ten_pow_table dec_b = Ret res ∧ integral (- (- sval dec_b / 10 ^ 81) * 10 ^ 81) res) ∧
  (∃ res, @floor ten_pow_table dec_b = Ret res ∧ integral (sval dec_b / 10 ^ 81 * 10 ^ 81) res).
Proof.
  refine (@ceil_floor_exact ten_pow_table dec_b wf_b _).
  split; intros w [= <-] _; [done|]. by apply Z.mod_divide.
Defined.
