(* ===== verification/DecimalInt.v ===== *)
(** * DecimalInt: the conversions between decimals and 64-bit integers are exact *)
From Stdlib Require Import ZArith Lia.
From stdpp Require Import base list numbers.
From S2P Require Import Prelude Words EvalCtx DecimalBase DecimalRound DecimalConv DecimalLoops ToInt.
#[local] Open Scope Z_scope.

#[local] Notation V := (wval BASE).
#[local] Notation W := (Forall (word BASE)).
#[local] Notation zlen l := (Z.of_nat (length l)).

(** The integer part of a decimal, and whether anything follows the point. *)
Definition int_part (d : Decimal) : Z := coeff d / BASE ^ frac_words d.
Definition has_frac (d : Decimal) : bool := negb (coeff d mod BASE ^ frac_words d =? 0).

(** What a conversion to an integer type of range [lo..hi] promises. *)
Definition int_spec (lo hi : Z) (d : Decimal) : Res Z :=
  let v := sign d * int_part d in
  if v <? lo then ROverCausetxctx lo
  else if hi <? v then ROverCausetxctx hi
  else if has_frac d then RTruncated v else ROk v.

Section Int.
Context {TP : TenPow}.

Lemma some_nonzero_spec (ws : list Z) : ∀ pre post i,
  i = zlen pre → W ws →
  some_nonzero (length ws) (pre ++ ws ++ post) i = Ret (negb (V ws =? 0)).
Proof.
  induction ws as [|w ws IH]; intros pre post i -> HW; [done|].
  apply Forall_cons_1 in HW as [Hw HW]. cbn [length some_nonzero app].
  rewrite get_mid by done. bindr. rewrite wval_cons.
  pose proof (V_bounds ws HW) as HB. pose proof (BASE_pow_pos (zlen ws)).
  unfold word in Hw. case_Z; cbn [negb].
  - subst. rewrite (app_cons_l pre), IH;
      [|rewrite length_app; cbn; lia|done]. do 2 f_equal.
  - f_equal. symmetry. apply negb_true_iff, Z.eqb_neq. nia.
Qed.

(** Accumulated below zero, an [i64] holds every prefix of the integer part until
    the number leaves the type. *)
Lemma as_i64_loop_spec (ws : list Z) : ∀ pre post i m,
  i = zlen pre → W ws → 0 <= m <= - I64_MIN →
  as_i64_loop (length ws) (pre ++ ws ++ post) i (- m)
  = Ret (let v := wval_acc BASE m ws in if v <=? - I64_MIN then Some (- v) else None).
Proof.
  induction ws as [|w ws IH]; intros pre post i m -> HW Hm.
  - cbn. rewrite (proj2 (Z.leb_le _ _)) by (mach; lia). done.
  - apply Forall_cons_1 in HW as [Hw HW]. cbn [length as_i64_loop app wval_acc].
    rewrite get_mid by done. bindr. rewrite WORD_BASE_eq.
    set (y := as_i64 _). set (v := wval_acc BASE (m * BASE + w) ws).
    assert (Hv : m * BASE + w <= v).
    { subst v. rewrite wval_acc_eq. pose proof (V_bounds ws HW).
      pose proof (BASE_pow_pos (zlen ws)). unfold word in Hw. nia. }
    assert (Hy : y = as_i64 (- (m * BASE + w))).
    { subst y. rewrite as_i64_sub. f_equal. lia. }
    unfold word in Hw. mach. change (Z.quot (-9223372036854775808) BASE) with (-9223372036).
    destruct (Z.le_gt_cases (m * BASE + w) 9223372036854775808) as [Hle|Hgt].
    + rewrite as_i64_id in Hy by (mach; lia). rewrite Hy.
      rewrite (proj2 (Z.ltb_ge (- m) _)), (proj2 (Z.ltb_ge _ (- (m * BASE + w)))) by lia.
      cbn [orb]. rewrite (app_cons_l pre).
      apply IH; [rewrite length_app; cbn; lia|done|lia].
    + rewrite (proj2 (Z.leb_gt v _)) by lia.
      destruct (Z.ltb_spec (- m) (-9223372036)); [done|].
      rewrite (proj2 (Z.ltb_lt (- m) y)); [done|].
      rewrite Hy. unfold as_i64. zdiv.
Qed.

Lemma dec_as_i64_spec d : wf d → dec_as_i64 d = Ret (int_spec I64_MIN I64_MAX d).
Proof.
  intros Hd. destruct (wf_cut d Hd) as (I & F & T & E & LI & LF & WI & WF & _ & Hc).
  unfold dec_as_i64. change (word_cnt (int_cnt d)) with (int_words d).
  change (word_cnt (frac_cnt d)) with (frac_words d). rewrite <- LI, <- LF, !Nat2Z.id, E.
  pose proof (as_i64_loop_spec I [] (F ++ T) 0 0 eq_refl WI ltac:(mach; lia)) as Hloop.
  cbn [app] in Hloop. change (- 0) with 0 in Hloop. rewrite Hloop. bindr. clear Hloop. change (wval_acc BASE 0 I) with (V I).
  rewrite some_nonzero_spec by done.
  unfold int_spec, has_frac, int_part, sign. rewrite Hc, <- LF, wval_app.
  pose proof (V_bounds F WF). pose proof (V_bounds I WI).
  rewrite Z.div_add_l, Z.div_small, Z.add_0_r by lia.
  rewrite Z.add_comm, Z.mod_add, Z.mod_small by lia. mach.
  destruct (negative d); cbn [negb]; case_Z; cbn iota.
  - rewrite (proj2 (Z.ltb_ge _ _)), (proj2 (Z.ltb_ge _ _)) by lia. cbn [andb]. bindr.
    f_equal; destruct (negb _); f_equal; lia.
  - by rewrite (proj2 (Z.ltb_lt _ _)) by lia.
  - rewrite (proj2 (Z.ltb_ge (1 * V I) _)) by lia.
    destruct (Z.eqb_spec (- V I) (-9223372036854775808)); cbn [andb].
    + rewrite (proj2 (Z.ltb_lt _ _)) by lia. done.
    + rewrite (proj2 (Z.ltb_ge _ _)) by lia. rewrite Z.opp_involutive, chk_ok by lia. bindr.
      f_equal; destruct (negb _); f_equal; lia.
  - rewrite (proj2 (Z.ltb_ge (1 * V I) _)) by lia.
    by rewrite (proj2 (Z.ltb_lt _ _)) by lia.
Qed.

Lemma as_u64_loop_spec (ws : list Z) : ∀ pre post i m,
  i = zlen pre → W ws → 0 <= m <= U64_MAX →
  as_u64_loop (length ws) (pre ++ ws ++ post) i m
  = Ret (let v := wval_acc BASE m ws in if v <=? U64_MAX then Some v else None).
Proof.
  induction ws as [|w ws IH]; intros pre post i m -> HW Hm.
  - cbn. by rewrite (proj2 (Z.leb_le _ _)) by lia.
  - apply Forall_cons_1 in HW as [Hw HW]. cbn [length as_u64_loop app wval_acc].
    rewrite WORD_BASE_eq. set (v := wval_acc BASE (m * BASE + w) ws).
    assert (Hv : m * BASE + w <= v).
    { subst v. rewrite wval_acc_eq. pose proof (V_bounds ws HW).
      pose proof (BASE_pow_pos (zlen ws)). unfold word in Hw. nia. }
    unfold word in Hw.
    destruct (checked 0 U64_MAX (m * BASE)) as [x|] eqn:E1.
    + apply checked_Some in E1 as [-> B1]. rewrite get_mid by done. bindr.
      destruct (checked 0 U64_MAX (m * BASE + w)) as [x|] eqn:E2.
      * apply checked_Some in E2 as [-> B2]. rewrite (app_cons_l pre).
        apply IH; [rewrite length_app; cbn; lia|done|lia].
      * apply checked_None in E2. by rewrite (proj2 (Z.leb_gt v _)) by lia.
    + apply checked_None in E1. by rewrite (proj2 (Z.leb_gt v _)) by lia.
Qed.

Lemma dec_as_u64_spec d : wf d →
  dec_as_u64 d = Ret (if negative d then ROverCausetxctx 0 else int_spec 0 U64_MAX d).
Proof.
  intros Hd. destruct (wf_cut d Hd) as (I & F & T & E & LI & LF & WI & WF & _ & Hc).
  unfold dec_as_u64, int_spec, has_frac, int_part, sign. destruct (negative d); [done|].
  change (word_cnt (int_cnt d)) with (int_words d).
  change (word_cnt (frac_cnt d)) with (frac_words d). rewrite <- LI, <- LF, !Nat2Z.id, E.
  pose proof (as_u64_loop_spec I [] (F ++ T) 0 0 eq_refl WI ltac:(mach; lia)) as Hloop.
  cbn [app] in Hloop. rewrite Hloop. bindr. clear Hloop. change (wval_acc BASE 0 I) with (V I).
  rewrite some_nonzero_spec by done. rewrite Hc, wval_app.
  pose proof (V_bounds F WF). pose proof (V_bounds I WI).
  rewrite Z.div_add_l, Z.div_small, Z.add_0_r by lia.
  rewrite Z.add_comm, Z.mod_add, Z.mod_small by lia. rewrite Z.mul_1_l.
  rewrite (proj2 (Z.ltb_ge (V I) 0)) by lia.
  destruct (Z.leb_spec (V I) U64_MAX); cbn iota.
  - by rewrite (proj2 (Z.ltb_ge _ _)) by lia.
  - by rewrite (proj2 (Z.ltb_lt _ _)) by lia.
Qed.

(** ** From integers *)

Lemma count_words_spec u : 0 <= u <= U64_MAX →
  ∃ k, count_words 4 u 1 = Ret k ∧ 1 <= k <= 3 ∧ u < BASE ^ k.
Proof.
  intros Hu. mach. unfold count_words. rewrite WORD_BASE_eq.
  case_Z; [|exists 1; split_and!; [done|lia..]]. case_Z; [|exists 2; split; [done|]; split; [lia|];
    change (BASE ^ 2) with (BASE * BASE); zdiv].
  exists 3. split; [|split; [lia|change (BASE ^ 3) with (BASE * BASE * BASE); lia]].
  rewrite (proj2 (Z.leb_gt _ _)); [done|]. zdiv.
Qed.

Lemma put_words_spec (k : nat) : ∀ u zs t,
  length zs = k → 0 <= u < BASE ^ Z.of_nat k →
  ∃ ws, put_words k u (zs ++ t) = Ret (ws ++ t) ∧ length ws = k ∧ W ws ∧ V ws = u.
Proof.
  induction k as [|k IH]; intros u zs t Hz Hu.
  - apply nil_length_inv in Hz as ->. exists []. cbn in *. repeat split; [constructor|lia].
  - apply snoc_cases in Hz as (zs' & z & -> & Hz). cbn [put_words]. rewrite WORD_BASE_eq.
    rewrite set_last by lia. bindr.
    rewrite Nat2Z.inj_succ, Z.pow_succ_r in Hu by lia.
    destruct (IH (u / BASE) zs' (u mod BASE :: t)) as (ws & -> & Lw & Ww & Vw); [done| |].
    { split; [apply Z.div_pos; lia|]. apply Z.div_lt_upper_bound; lia. }
    exists (ws ++ [u mod BASE]). rewrite <- app_assoc, length_app, wval_snoc, Vw. cbn [length].
    split; [done|]. split; [lia|]. split; [|pose proof (Z.div_mod u BASE); lia].
    apply Forall_app_2; [done|]. constructor; [|done]. unfold word. apply Z.mod_pos_bound. lia.
Qed.

Lemma dec_from_u64_spec u : 0 <= u <= U64_MAX →
  ∃ d, dec_from_u64 u = Ret d ∧ wf d ∧ negative d = false ∧ frac_words d = 0 ∧ coeff d = u.
Proof.
  intros Hu. unfold dec_from_u64. destruct (count_words_spec u Hu) as (k & -> & Hk & Hlt). bindr.
  change DIGITS_PER_WORD with 9. rewrite u8_ok by lia. bindr. cbn [dec_new word_buf].
  replace (replicate 9 0) with (replicate (Z.to_nat k) 0 ++ replicate (Z.to_nat (9 - k)) 0)
    by (rewrite <- replicate_add; f_equal; lia).
  destruct (put_words_spec (Z.to_nat k) u (replicate (Z.to_nat k) 0) (replicate (Z.to_nat (9 - k)) 0))
    as (ws & -> & Lw & Ww & Vw); [by rewrite length_replicate|rewrite Z2Nat.id by lia; lia|].
  bindr. eexists. split; [reflexivity|].
  destruct (fresh_result k 0 0 false ws u) as (? & ? & ? & ?); auto; try lia.
  rewrite Z.add_0_r in *. auto.
Qed.

(** [Decimal::as_i64] on a well-formed decimal is the integer part of the number
    when it is an [i64], marked truncated when a fraction is dropped; outside, it is
    the bound on that side, marked as an overflow.  [as_u64] likewise for [u64], every
    decimal with a minus sign (the negative zero included) being an overflow to 0. *)
Theorem as_int_exact d : wf d →
  dec_as_i64 d = Ret (int_spec I64_MIN I64_MAX d)
  ∧ dec_as_u64 d = Ret (if negative d then ROverCausetxctx 0 else int_spec 0 U64_MAX d).
Proof. intros Hd. split; [by apply dec_as_i64_spec|by apply dec_as_u64_spec]. Qed.

Lemma int_spec_exact lo hi d u : frac_words d = 0 → sign d * coeff d = u → lo <= u <= hi →
  int_spec lo hi d = ROk u.
Proof.
  intros Hf Hc Hu. unfold int_spec, has_frac, int_part.
  rewrite Hf, Z.pow_0_r, Z.div_1_r, Z.mod_1_r, Hc.
  by rewrite (proj2 (Z.ltb_ge _ _)), (proj2 (Z.ltb_ge _ _)) by lia.
Qed.

Lemma wf_with_negative d b : wf d → wf (with_negative d b).
Proof. intros [? ? ? ? ? ?]. by split. Qed.

(** [From<u64>] and [From<i64>] are total on their types and lose nothing: the
    decimal is well formed, denotes the integer, and converts back to it. *)
Theorem dec_from_int_exact u i : is_u64 u → is_i64 i →
  (∃ d, dec_from_u64 u = Ret d ∧ wf d ∧ scaled d 0 = u ∧ dec_as_u64 d = Ret (ROk u)) ∧
  (∃ d, dec_from_i64 i = Ret d ∧ wf d ∧ scaled d 0 = i ∧ dec_as_i64 d = Ret (ROk i)).
Proof.
  intros Hu Hi. split.
  - destruct (dec_from_u64_spec u Hu) as (d & -> & Hd & Hn & Hf & Hc). exists d.
    split; [done|]. split; [done|]. rewrite dec_as_u64_spec, Hn by done.
    rewrite (int_spec_exact _ _ _ u) by (unfold sign; rewrite ?Hn, ?Hc; done || lia).
    unfold scaled. rewrite Hn, Hf, Hc. split; [lia|done].
  - unfold dec_from_i64, is_i64 in *.
    assert (∃ n b, (if i <? 0 then d ← dec_from_u64 (as_u64 (as_i64 (- i))); Ret (true, d)
        else d ← dec_from_u64 (as_u64 i); Ret (false, d)) = (d ← dec_from_u64 n; Ret (b, d))
        ∧ is_u64 n ∧ i = (if b : bool then - n else n)) as (n & b & -> & Hn & Ei).
    { mach. case_Z.
      - exists (- i), true. split; [|lia]. do 2 f_equal. unfold as_u64, as_i64. zdiv.
      - exists i, false. split; [|lia]. do 2 f_equal. unfold as_u64. zdiv. }
    destruct (dec_from_u64_spec n Hn) as (d & -> & Hd & Hneg & Hf & Hc). bindr.
    exists (with_negative d b). split; [done|]. split; [by apply wf_with_negative|].
    rewrite dec_as_i64_spec by (by apply wf_with_negative).
    assert (Hs : sign (with_negative d b) * coeff (with_negative d b) = i).
    { unfold sign. change (coeff (with_negative d b)) with (coeff d). rewrite Hc.
      cbn [negative with_negative]. destruct b; lia. }
    rewrite (int_spec_exact _ _ _ i) by done. split; [|done].
    rewrite <- Hs. unfold scaled, sign. change (frac_words (with_negative d b)) with (frac_words d).
    rewrite Hf, Z.sub_0_r, Z.pow_0_r. lia.
Qed.
End Int.

Lemma as_int_exact_witness :
  @dec_as_i64 ten_pow_table dec_b = Ret (RTruncated (-123))
  ∧ @dec_as_u64 ten_pow_table dec_b = Ret (ROverCausetxctx 0).
Proof. exact (@as_int_exact ten_pow_table dec_b wf_b). Defined.

Lemma dec_from_int_exact_witness :
  (∃ d, @dec_from_u64 ten_pow_table U64_MAX = Ret d ∧ wf d ∧ scaled d 0 = U64_MAX
        ∧ @dec_as_u64 ten_pow_table d = Ret (ROk U64_MAX)) ∧
  (∃ d, @dec_from_i64 ten_pow_table I64_MIN = Ret d ∧ wf d ∧ scaled d 0 = I64_MIN
        ∧ @dec_as_i64 ten_pow_table d = Ret (ROk I64_MIN)).
Proof. apply (@dec_from_int_exact ten_pow_table U64_MAX I64_MIN); mach; lia. Defined.
