(* ===== verification/Duration.v ===== *)
(** * Duration: [berolinasql/src/duration.rs]

    A duration is a number of nanoseconds with a display precision [fsp].  The
    precision limits and [check_fsp] come from a module that is not in the
    repository: they are the parameter [Fsp]. *)
From Stdlib Require Import ZArith Lia.
From stdpp Require Import base list numbers.
From S2P Require Import Prelude Words EvalCtx DecimalBase ToInt.
#[local] Open Scope Z_scope.

(** The external precision limits: an accepted precision is at most [MAX_FSP], and
    one in range is accepted as it is. *)
Class Fsp := {
  MAX_FSP : Z;
  DEFAULT_FSP : Z;
  check_fsp : Z → result Z;
  MAX_FSP_law : MAX_FSP = 6;
  DEFAULT_FSP_law : DEFAULT_FSP = 0;
  check_fsp_range : ∀ f g, check_fsp f = Ok g → 0 <= g <= MAX_FSP;
  check_fsp_id : ∀ f, 0 <= f <= MAX_FSP → check_fsp f = Ok f
}.

(** A concrete instance, for evaluation. *)
Definition check_fsp_impl (f : Z) : result Z :=
  if (0 <=? f) && (f <=? 6) then Ok f else Err Other.

Definition fsp_table : Fsp.
Proof.
  refine {| MAX_FSP := 6; DEFAULT_FSP := 0; check_fsp := check_fsp_impl;
            MAX_FSP_law := eq_refl; DEFAULT_FSP_law := eq_refl |}; unfold check_fsp_impl.
  - intros f g. destruct (Z.leb_spec 0 f), (Z.leb_spec f 6); cbn; intros [= <-]; lia.
  - intros f Hf. by rewrite (proj2 (Z.leb_le _ _)), (proj2 (Z.leb_le _ _)) by lia.
Defined.

(** ** Definitions *)

Definition NANOS_PER_SEC : Z := 1000000000.
Definition NANOS_PER_MILLI : Z := 1000000.
Definition NANOS_PER_MICRO : Z := 1000.
Definition NANO_WIDTH : Z := 9.
Definition SECS_PER_HOUR : Z := 3600.
Definition SECS_PER_MINUTE : Z := 60.
Definition MAX_HOUR_PART : Z := 838.
Definition MAX_MINUTE_PART : Z := 59.
Definition MAX_SECOND_PART : Z := 59.
Definition MAX_NANOS_PART : Z := 999999999.
Definition MAX_NANOS : Z :=
  (MAX_HOUR_PART * SECS_PER_HOUR + MAX_MINUTE_PART * SECS_PER_MINUTE + MAX_SECOND_PART)
  * NANOS_PER_SEC + MAX_NANOS_PART.

Record Duration := mkDuration { dur_secs : Z; nanos : Z; fsp : Z }.

Definition check_hour_part (hour : Z) : result Z :=
  if MAX_HOUR_PART <? hour then Err over_causetxctx else Ok hour.
Definition check_minute_part (minute : Z) : result Z :=
  if MAX_MINUTE_PART <? minute then Err truncated_wrong_val else Ok minute.
Definition check_second_part (second : Z) : result Z :=
  if MAX_SECOND_PART <? second then Err truncated_wrong_val else Ok second.
Definition check_nanos_part (nanos : Z) : result Z :=
  if MAX_NANOS_PART <? nanos then Err truncated_wrong_val else Ok nanos.
Definition check_nanos (nanos : Z) : result Z :=
  if (nanos <? - MAX_NANOS) || (MAX_NANOS <? nanos) then Err truncated_wrong_val else Ok nanos.

(** [?] on a [Result] inside a computation that may panic. *)
Definition try_res {A B} (r : result A) (f : A → outcome (result B)) : outcome (result B) :=
  match r with Ok a => f a | Err e => Ret (Err e) end.
Notation "'try' x ← r ; k" := (try_res r (fun x => k))
  (at level 200, x name, r at level 100, k at level 200, only parsing).

Section WithTables.
Context {TP : TenPow} {FS : Fsp}.

(** [checked_round]: half away from zero to the precision's step. *)
Definition checked_round (nanos fsp : Z) : outcome (result Z) :=
  try _ ← check_nanos nanos;
  (min_step ← get TEN_POW (NANO_WIDTH - fsp);
   let rem := Z.rem nanos min_step in
   nanos ← (if Z.abs rem <? Z.quot min_step 2 then i64 (nanos - rem)
            else i64 (nanos - rem + min_step * Z.sgn nanos));
   Ret (check_nanos nanos)).

Definition dur_is_neg (d : Duration) : bool := nanos d <? 0.
Definition to_secs (d : Duration) : Z := Z.quot (nanos d) NANOS_PER_SEC.
Definition hours (d : Duration) : Z := as_u32 (Z.quot (Z.abs (to_secs d)) SECS_PER_HOUR).
Definition minutes (d : Duration) : Z :=
  as_u32 (Z.rem (Z.quot (Z.abs (to_secs d)) SECS_PER_MINUTE) 60).
Definition secs (d : Duration) : Z := as_u32 (Z.rem (Z.abs (to_secs d)) SECS_PER_MINUTE).
Definition subsec_nanos (d : Duration) : Z := as_u32 (Z.rem (Z.abs (nanos d)) NANOS_PER_SEC).
Definition subsec_micros (d : Duration) : Z := subsec_nanos d / 1000.
Definition maximize_fsp (d : Duration) : Duration :=
  mkDuration (dur_secs d) (nanos d) (as_u8 MAX_FSP).
Definition to_millis (d : Duration) : Z := Z.quot (nanos d) NANOS_PER_MILLI.
Definition to_micros (d : Duration) : Z := Z.quot (nanos d) NANOS_PER_MICRO.
Definition to_nanos (d : Duration) : Z := nanos d.
Definition dur_zero : Duration := mkDuration 0 0 (as_u8 DEFAULT_FSP).
Definition dur_is_zero (d : Duration) : bool := nanos d =? 0.
Definition dur_abs (d : Duration) : outcome Duration :=
  n ← i64 (Z.abs (nanos d)); Ret (mkDuration (dur_secs d) n (fsp d)).

(** [checked_mul] with its overflow error. *)
Definition mul_nanos (n k : Z) : result Z :=
  match checked I64_MIN I64_MAX (n * k) with Some n => Ok n | None => Err over_causetxctx end.

Definition dur_from_secs (secs fsp : Z) : outcome (result Duration) :=
  try fsp ← check_fsp fsp;
  try nanos ← mul_nanos secs NANOS_PER_SEC;
  try _ ← check_nanos nanos;
  Ret (Ok (mkDuration secs nanos fsp)).

Definition rounded (nanos fsp : Z) : outcome (result Duration) :=
  r ← checked_round nanos fsp;
  try nanos ← r; Ret (Ok (mkDuration 0 nanos fsp)).

Definition from_millis (millis fsp : Z) : outcome (result Duration) :=
  try fsp ← check_fsp fsp;
  try nanos ← mul_nanos millis NANOS_PER_MILLI; rounded nanos fsp.

Definition from_micros (micros fsp : Z) : outcome (result Duration) :=
  try fsp ← check_fsp fsp;
  try nanos ← mul_nanos micros NANOS_PER_MICRO; rounded nanos fsp.

Definition from_nanos (nanos fsp : Z) : outcome (result Duration) :=
  try fsp ← check_fsp fsp; rounded nanos fsp.

(** [new_from_parts] *)
Definition new_from_parts (neg : bool) (hour minute second nanos fsp : Z)
  : outcome (result Duration) :=
  try _ ← check_minute_part minute;
  try _ ← check_second_part second;
  try _ ← check_nanos_part nanos;
  try _ ← check_hour_part hour;
  try fsp ← check_fsp fsp;
  (let signum := if neg then -1 else 1 in
   minute ← i64 (minute + hour * 60);
   second ← i64 (second + minute * SECS_PER_MINUTE);
   nanos ← i64 (nanos + second * NANOS_PER_SEC);
   nanos ← i64 (signum * nanos);
   rounded nanos fsp).

(** [round_frac] *)
Definition round_frac (d : Duration) (new_fsp : Z) : outcome (result Duration) :=
  try new_fsp ← check_fsp new_fsp;
  if fsp d <=? new_fsp then Ret (Ok (mkDuration (dur_secs d) (nanos d) new_fsp))
  else rounded (nanos d) new_fsp.

(** [checked_add] and [checked_sub] *)
Definition dur_checked (n f : Z) : option Duration :=
  n ← checked I64_MIN I64_MAX n;
  match check_nanos n with Ok _ => Some (mkDuration 0 n f) | Err _ => None end.
Definition dur_checked_add (l r : Duration) : option Duration :=
  dur_checked (nanos l + nanos r) (Z.max (fsp l) (fsp r)).
Definition dur_checked_sub (l r : Duration) : option Duration :=
  dur_checked (nanos l - nanos r) (Z.max (fsp l) (fsp r)).

(** [{:0width$}] on an unsigned number: its digits, zero-padded on the left.  A [u32]
    has at most ten digits. *)
Fixpoint pad_digits (fuel width : nat) (n : Z) (acc : list Z) : list Z :=
  match fuel with
  | O => acc
  | S fuel' =>
      if (n =? 0) && (width =? 0)%nat then acc
      else pad_digits fuel' (pred width) (n / 10) (48 + n mod 10 :: acc)
  end.
Definition fmt_width (width n : Z) : list Z := pad_digits 20 (Z.to_nat (Z.max 1 width)) n [].

(** [format]: the text with [sep] between the parts. *)
Definition format (d : Duration) (sep : list Z) : outcome (list Z) :=
  let string := if dur_is_neg d then [45] else [] in
  let string := string ++ fmt_width 2 (hours d) ++ sep ++ fmt_width 2 (minutes d) ++ sep
                ++ fmt_width 2 (secs d) in
  if 0 <? fsp d then
    t ← get TEN_POW (NANO_WIDTH - fsp d);
    Ret (string ++ 46 :: fmt_width (fsp d) (subsec_nanos d / t))
  else Ret string.

Definition to_numeric_string (d : Duration) : outcome (list Z) := format d [].
Definition dur_fmt (d : Duration) : outcome (list Z) := format d [58].

(** [from_i64_with_ctx_and_check]: a number written HHMMSS. *)
Definition from_i64_with_ctx_and_check (n fsp : Z) : outcome (result Duration) :=
  abs ← i64 (Z.abs n);
  let hour := as_u32 (Z.quot abs 10000) in
  let minute := as_u32 (Z.rem (Z.quot abs 100) 100) in
  let second := as_u32 (Z.rem abs 100) in
  if (MAX_HOUR_PART <? hour) || (MAX_MINUTE_PART <? minute) || (MAX_SECOND_PART <? second)
  then Ret (Err truncated_wrong_val)
  else new_from_parts (n <? 0) hour minute second 0 fsp.

(** The comparisons and the hash are those of the nanoseconds. *)
Definition dur_eq (l r : Duration) : bool := nanos l =? nanos r.
Definition dur_cmp (l r : Duration) : comparison := nanos l ?= nanos r.
Definition dur_hash (d : Duration) : Z := nanos d.

(** ** The invariant *)

Definition dur_wf (d : Duration) : Prop :=
  - MAX_NANOS <= nanos d <= MAX_NANOS ∧ 0 <= fsp d <= 6.

Lemma MAX_NANOS_eq : MAX_NANOS = 3020399999999999.
Proof. reflexivity. Qed.

Lemma check_nanos_Ok n : check_nanos n = Ok n ↔ - MAX_NANOS <= n <= MAX_NANOS.
Proof.
  unfold check_nanos. destruct (Z.ltb_spec n (- MAX_NANOS)), (Z.ltb_spec MAX_NANOS n); cbn;
    split; intros; try done; lia.
Qed.

Lemma check_nanos_cases n :
  check_nanos n = if decide (- MAX_NANOS <= n <= MAX_NANOS) then Ok n else Err truncated_wrong_val.
Proof.
  unfold check_nanos. destruct (decide _) as [H|H];
    destruct (Z.ltb_spec n (- MAX_NANOS)), (Z.ltb_spec MAX_NANOS n); cbn; done || lia.
Qed.

Lemma check_fsp_ok f g : check_fsp f = Ok g → 0 <= g <= 6.
Proof. intros H%check_fsp_range. by rewrite MAX_FSP_law in H. Qed.

(** The step of a precision, and rounding to it, half away from zero. *)
Definition step (f : Z) : Z := 10 ^ (9 - f).
Definition round_half_away (n s : Z) : Z := Z.sgn n * ((Z.abs n + s / 2) / s * s).

Lemma step_bounds f : 0 <= f <= 6 → 1000 <= step f <= 1000000000 ∧ step f mod 2 = 0.
Proof.
  intros Hf. unfold step.
  assert (f = 0 ∨ f = 1 ∨ f = 2 ∨ f = 3 ∨ f = 4 ∨ f = 5 ∨ f = 6) as
    [->|[->|[->|[->|[->|[->| ->]]]]]] by lia; by vm_compute.
Qed.

(** The rounding of the code, on the remainder. *)
Lemma round_rem n s : 0 < s → s mod 2 = 0 →
  (if Z.abs (Z.rem n s) <? Z.quot s 2 then n - Z.rem n s else n - Z.rem n s + s * Z.sgn n)
  = round_half_away n s.
Proof.
  intros Hs He. unfold round_half_away.
  assert (Hdiv : ∀ a, 0 <= a → (a + s / 2) / s = a / s + (if a mod s <? s / 2 then 0 else 1)).
  { intros a Ha. pose proof (Z.div_mod a s ltac:(lia)). pose proof (Z.mod_pos_bound a s Hs).
    pose proof (Z.div_mod s 2 ltac:(lia)).
    destruct (Z.ltb_spec (a mod s) (s / 2)); symmetry;
      [apply (Z.div_unique _ _ _ (a mod s + s / 2))
      |apply (Z.div_unique _ _ _ (a mod s + s / 2 - s))]; lia. }
  assert (Hq : Z.quot s 2 = s / 2) by (apply Z.quot_div_nonneg; lia). rewrite Hq.
  destruct (Z.lt_total n 0) as [Hn|[->|Hn]].
  - rewrite (Z.sgn_neg n Hn), (Z.abs_neq n) by lia. rewrite Hdiv by lia.
    replace (Z.rem n s) with (- ((- n) mod s)).
    2: { rewrite <- Z.rem_mod_nonneg, <- Z.rem_opp_l by lia. f_equal. lia. }
    pose proof (Z.mod_pos_bound (- n) s Hs). rewrite Z.abs_opp, Z.abs_eq by lia.
    pose proof (Z.div_mod (- n) s ltac:(lia)). case_Z; nia.
  - rewrite Z.rem_0_l by lia. cbn [Z.abs Z.sgn]. case_Z; lia.
  - rewrite (Z.sgn_pos n Hn), (Z.abs_eq n) by lia. rewrite Hdiv by lia.
    rewrite Z.rem_mod_nonneg by lia. pose proof (Z.mod_pos_bound n s Hs).
    rewrite Z.abs_eq by lia. pose proof (Z.div_mod n s ltac:(lia)). case_Z; nia.
Qed.

Lemma round_half_away_bound n s : 0 < s → s mod 2 = 0 → Z.abs (round_half_away n s - n) * 2 <= s.
Proof.
  intros Hs He. unfold round_half_away. pose proof (Z.div_mod s 2 ltac:(lia)).
  pose proof (Z.div_mod (Z.abs n + s / 2) s ltac:(lia)).
  pose proof (Z.mod_pos_bound (Z.abs n + s / 2) s Hs).
  destruct (Z.lt_total n 0) as [Hn|[->|Hn]]; [rewrite Z.sgn_neg|cbn [Z.sgn Z.abs] in *|rewrite Z.sgn_pos];
    nia.
Qed.

Lemma checked_round_spec n f : 0 <= f <= 6 →
  checked_round n f = Ret (if decide (- MAX_NANOS <= n <= MAX_NANOS)
                           then check_nanos (round_half_away n (step f))
                           else Err truncated_wrong_val).
Proof.
  intros Hf. destruct (step_bounds f Hf) as [Hs He]. unfold checked_round, NANO_WIDTH.
  rewrite (check_nanos_cases n). destruct (decide _) as [Hn|Hn]; [|done]. cbn [try_res].
  rewrite TEN_POW_get by lia. bindr. change (10 ^ (9 - f)) with (step f).
  pose proof (round_half_away_bound n (step f) ltac:(lia) He) as Hb. rewrite MAX_NANOS_eq in Hn.
  rewrite <- (round_rem n (step f)) in * by lia.
  destruct (Z.abs _ <? _); rewrite i64_ok by (mach; lia); bindr; done.
Qed.

(** [checked_round] never panics at a valid precision: it rounds to the nearest
    multiple of the precision's step, half away from zero, and answers with an error
    exactly when the argument or the rounded value is beyond 838:59:59.999999999. *)
Theorem checked_round_exact n f : 0 <= f <= 6 →
  let r := round_half_away n (step f) in
  checked_round n f =
    Ret (if decide (- MAX_NANOS <= n <= MAX_NANOS ∧ - MAX_NANOS <= r <= MAX_NANOS)
         then Ok r else Err truncated_wrong_val)
  ∧ (step f | r) ∧ Z.abs (r - n) * 2 <= step f
  ∧ (Z.abs (r - n) * 2 = step f → Z.abs n < Z.abs r).
Proof.
  intros Hf r. destruct (step_bounds f Hf) as [Hs He]. split; [|split; [|split]].
  - rewrite checked_round_spec, check_nanos_cases by done. fold r. f_equal.
    destruct (decide (- MAX_NANOS <= n <= MAX_NANOS)), (decide (- MAX_NANOS <= r <= MAX_NANOS)),
      (decide _); tauto.
  - exists (Z.sgn n * ((Z.abs n + step f / 2) / step f)). unfold r, round_half_away. lia.
  - apply round_half_away_bound; lia.
  - intros Ht. unfold r, round_half_away in *.
    pose proof (Z.div_mod (step f) 2 ltac:(lia)).
    pose proof (Z.div_mod (Z.abs n + step f / 2) (step f) ltac:(lia)).
    pose proof (Z.mod_pos_bound (Z.abs n + step f / 2) (step f) ltac:(lia)).
    destruct (Z.lt_total n 0) as [Hn|[->|Hn]];
      [rewrite Z.sgn_neg in * by done|cbn [Z.sgn Z.abs] in *; lia|rewrite Z.sgn_pos in * by done];
      nia.
Qed.

(** ** Constructors and arithmetic *)

Lemma rounded_wf n f d : 0 <= f <= 6 → rounded n f = Ret (Ok d) → dur_wf d.
Proof.
  intros Hf. unfold rounded. rewrite checked_round_spec by done. bindr.
  destruct (decide _); [|done]. rewrite check_nanos_cases. destruct (decide _); [|done].
  cbn. intros [= <-]. by split.
Qed.

Lemma try_Ok {A B} (r : result A) (f : A → outcome (result B)) b :
  try_res r f = Ret (Ok b) → ∃ a, r = Ok a ∧ f a = Ret (Ok b).
Proof. destruct r; [eauto|done]. Qed.

(** The type invariant: every duration built by a constructor, by rounding, or
    by checked addition and subtraction is within 838:59:59.999999999 and has a
    precision of at most six digits. *)
Theorem duration_invariant d d1 d2 n neg h m s ns f :
  dur_wf d1 → dur_wf d2 →
  dur_from_secs n f = Ret (Ok d) ∨ from_millis n f = Ret (Ok d) ∨ from_micros n f = Ret (Ok d)
  ∨ from_nanos n f = Ret (Ok d) ∨ new_from_parts neg h m s ns f = Ret (Ok d)
  ∨ round_frac d1 f = Ret (Ok d) ∨ dur_checked_add d1 d2 = Some d
  ∨ dur_checked_sub d1 d2 = Some d ∨ from_i64_with_ctx_and_check n f = Ret (Ok d) →
  dur_wf d.
Proof.
  intros [H1 F1] [H2 F2].
  assert (Hnew : ∀ neg h m s ns, new_from_parts neg h m s ns f = Ret (Ok d) → dur_wf d).
  { intros ? ? ? ? ? H. unfold new_from_parts in H.
    apply try_Ok in H as (? & _ & H). apply try_Ok in H as (? & _ & H).
    apply try_Ok in H as (? & _ & H). apply try_Ok in H as (? & _ & H).
    apply try_Ok in H as (g & Hg%check_fsp_ok & H). inv_out. by eapply rounded_wf. }
  assert (Hc : ∀ x, dur_checked x (Z.max (fsp d1) (fsp d2)) = Some d → dur_wf d).
  { intros x H. unfold dur_checked in H.
    destruct (checked _ _ x) as [y|]; [|done]. cbn [mbind option_bind] in H.
    rewrite check_nanos_cases in H. destruct (decide _); [|done].
    injection H as <-. split; cbn; [done|lia]. }
  intros [H|[H|[H|[H|[H|[H|[H|[H|H]]]]]]]].
  - apply try_Ok in H as (g & Hg%check_fsp_ok & H). apply try_Ok in H as (x & _ & H).
    apply try_Ok in H as (y & Hy & H). injection H as <-. split; [|done]. cbn.
    apply check_nanos_Ok. revert Hy. rewrite check_nanos_cases. by destruct (decide _).
  - apply try_Ok in H as (g & Hg%check_fsp_ok & H). apply try_Ok in H as (x & _ & H).
    by eapply rounded_wf.
  - apply try_Ok in H as (g & Hg%check_fsp_ok & H). apply try_Ok in H as (x & _ & H).
    by eapply rounded_wf.
  - apply try_Ok in H as (g & Hg%check_fsp_ok & H). by eapply rounded_wf.
  - by eapply Hnew.
  - apply try_Ok in H as (g & Hg%check_fsp_ok & H). destruct (_ <=? _).
    + injection H as <-. by split.
    + by eapply rounded_wf.
  - by eapply Hc.
  - by eapply Hc.
  - unfold from_i64_with_ctx_and_check in H. inv_out. destruct (_ || _ || _); [done|].
    by eapply Hnew.
Qed.

(** [checked_add] and [checked_sub] on well-formed durations are exact: the sum
    (difference) of the nanoseconds with the finer precision, and [None] exactly when
    it is out of range. *)
Theorem dur_checked_exact l r : dur_wf l → dur_wf r →
  (∀ n, n = nanos l + nanos r → dur_checked_add l r =
     if decide (- MAX_NANOS <= n <= MAX_NANOS)
     then Some (mkDuration 0 n (Z.max (fsp l) (fsp r))) else None) ∧
  (∀ n, n = nanos l - nanos r → dur_checked_sub l r =
     if decide (- MAX_NANOS <= n <= MAX_NANOS)
     then Some (mkDuration 0 n (Z.max (fsp l) (fsp r))) else None).
Proof.
  intros [Hl _] [Hr _]. rewrite MAX_NANOS_eq in *.
  assert (H : ∀ n f, I64_MIN <= n <= I64_MAX → dur_checked n f =
    if decide (- 3020399999999999 <= n <= 3020399999999999)
    then Some (mkDuration 0 n f) else None).
  { intros n f Hn. unfold dur_checked. rewrite (proj2 (checked_Some _ _ n n)) by done.
    cbn [mbind option_bind]. rewrite check_nanos_cases, MAX_NANOS_eq. by destruct (decide _). }
  split; intros n ->; apply H; mach; lia.
Qed.

(** ** Reading the parts back *)

Lemma new_from_parts_eq neg h m s n f :
  0 <= h <= 838 → 0 <= m <= 59 → 0 <= s <= 59 → 0 <= n <= 999999999 → 0 <= f <= 6 →
  new_from_parts neg h m s n f
  = rounded ((if neg then -1 else 1) * (((h * 60 + m) * 60 + s) * 1000000000 + n)) f.
Proof.
  intros Hh Hm Hs Hn Hf. unfold new_from_parts, check_minute_part, check_second_part,
    check_nanos_part, check_hour_part.
  rewrite (proj2 (Z.ltb_ge MAX_MINUTE_PART m)) by (unfold MAX_MINUTE_PART; lia).
  rewrite (proj2 (Z.ltb_ge MAX_SECOND_PART s)) by (unfold MAX_SECOND_PART; lia).
  rewrite (proj2 (Z.ltb_ge MAX_NANOS_PART n)) by (unfold MAX_NANOS_PART; lia).
  rewrite (proj2 (Z.ltb_ge MAX_HOUR_PART h)) by (unfold MAX_HOUR_PART; lia).
  cbn [try_res]. rewrite check_fsp_id by (rewrite MAX_FSP_law; lia). cbn [try_res].
  unfold SECS_PER_MINUTE, NANOS_PER_SEC.
  rewrite i64_ok by (mach; lia). bindr. rewrite i64_ok by (mach; lia). bindr.
  rewrite i64_ok by (mach; lia). bindr. rewrite i64_ok by (mach; destruct neg; lia). bindr.
  f_equal. destruct neg; lia.
Qed.

Lemma round_half_away_fix n s : 0 < s → (s | n) → round_half_away n s = n.
Proof.
  intros Hs [k ->]. unfold round_half_away.
  assert (E : (Z.abs (k * s) + s / 2) / s * s = Z.abs (k * s)).
  { rewrite Z.abs_mul, (Z.abs_eq s) by lia. rewrite Z.add_comm, Z.div_add by lia.
    rewrite (Z.div_small (s / 2)); [lia|]. split; [apply Z.div_pos; lia|].
    apply Z.div_lt; lia. }
  rewrite E, Z.mul_comm. apply Z.abs_sgn.
Qed.

(** Building a duration from parts that its precision can hold, and reading
    [hours], [minutes], [secs], [subsec_nanos], [subsec_micros] and [is_neg] gives
    the parts back (zero being never negative). *)
Theorem new_from_parts_readback neg h m s n f :
  0 <= h <= 838 → 0 <= m <= 59 → 0 <= s <= 59 → 0 <= n <= 999999999 → 0 <= f <= 6 →
  (step f | n) →
  ∃ d, new_from_parts neg h m s n f = Ret (Ok d) ∧
    hours d = h ∧ minutes d = m ∧ secs d = s ∧ subsec_nanos d = n ∧ subsec_micros d = n / 1000
    ∧ fsp d = f ∧ (dur_is_neg d = true ↔ neg = true ∧ dur_is_zero d = false).
Proof.
  intros Hh Hm Hs Hn Hf Hd. rewrite new_from_parts_eq by done. unfold rounded.
  rewrite checked_round_spec by done. bindr.
  set (t := ((h * 60 + m) * 60 + s) * 1000000000 + n).
  assert (Ht : 0 <= t <= MAX_NANOS) by (rewrite MAX_NANOS_eq; subst t; lia).
  rewrite decide_True by (destruct neg; lia).
  assert (Hdiv : (step f | t)).
  { subst t. apply Z.divide_add_r; [|done]. apply Z.divide_mul_r.
    exists (10 ^ f). unfold step. rewrite <- Z.pow_add_r by lia. by replace (f + (9 - f)) with 9 by lia. }
  destruct (step_bounds f Hf) as [Hst _].
  rewrite round_half_away_fix by (try apply Z.divide_mul_r; done || lia).
  rewrite (proj2 (check_nanos_Ok _)) by (destruct neg; lia). cbn [try_res].
  eexists. split; [reflexivity|].
  unfold hours, minutes, secs, subsec_micros, subsec_nanos, dur_is_neg, dur_is_zero, to_secs,
    SECS_PER_HOUR, SECS_PER_MINUTE, NANOS_PER_SEC. cbn [nanos fsp].
  assert (Hq : Z.abs (Z.quot ((if neg then -1 else 1) * t) 1000000000) = (h * 60 + m) * 60 + s)
    by (subst t; destruct neg; zdiv).
  assert (Ha : Z.abs ((if neg then -1 else 1) * t) = t) by (destruct neg; lia).
  rewrite Hq, Ha. rewrite !as_u32_id by (mach; subst t; zdiv).
  rewrite Z.ltb_lt, Z.eqb_neq.
  split_and!; try (subst t; zdiv). destruct neg; lia.
Qed.
End WithTables.

(** ** The text *)

Lemma pad_digits_spec (fuel : nat) : ∀ width n acc,
  (width <= fuel)%nat → 0 <= n < 10 ^ Z.of_nat fuel →
  ∃ ds, pad_digits fuel width n acc = ds ++ acc ∧ Forall (λ c, is_digit c = true) ds
    ∧ digits_val ds = n ∧ (width <= length ds)%nat
    ∧ ∀ k, (width <= k)%nat → n < 10 ^ Z.of_nat k → (length ds <= k)%nat.
Proof.
  induction fuel as [|fuel IH]; intros width n acc Hw Hn.
  - exists []. assert (width = 0)%nat as -> by lia. cbn in *. split_and!; [done..|lia|lia|lia].
  - cbn [pad_digits]. destruct ((n =? 0) && (width =? 0)%nat) eqn:E0.
    { apply andb_true_iff in E0 as [->%Z.eqb_eq ->%Nat.eqb_eq]. exists [].
      split_and!; cbn; [done..|lia|lia]. }
    rewrite Nat2Z.inj_succ, Z.pow_succ_r in Hn by lia.
    destruct (IH (pred width) (n / 10) (48 + n mod 10 :: acc)) as (ds & E & Hd & Hv & Hl & Hlt);
      [lia|split; [apply Z.div_pos; lia|apply Z.div_lt_upper_bound; lia]|].
    exists (ds ++ [48 + n mod 10]); rewrite <- app_assoc; cbn [app].
    pose proof (Z.mod_pos_bound n 10 ltac:(lia)). pose proof (Z.div_mod n 10 ltac:(lia)).
    split; [done|]. split.
    { apply Forall_app_2; [done|]. constructor; [|done]. unfold is_digit.
      rewrite andb_true_iff, !Z.leb_le. lia. }
    unfold digits_val in *. rewrite map_app. cbn [map]. rewrite wval_snoc, Hv, length_app.
    cbn [length]. split; [lia|]. split; [lia|]. intros [|k] Hk Hn10.
    + apply andb_false_iff in E0 as [E0%Z.eqb_neq|E0%Nat.eqb_neq]; [cbn in Hn10|]; lia.
    + rewrite Nat2Z.inj_succ, Z.pow_succ_r in Hn10 by lia.
      enough (length ds <= k)%nat by lia. apply Hlt; [lia|]. apply Z.div_lt_upper_bound; lia.
Qed.

Lemma digits_val_bound ds : Forall (λ c, is_digit c = true) ds →
  0 <= digits_val ds < 10 ^ Z.of_nat (length ds).
Proof.
  intros H. unfold digits_val. rewrite <- (length_map (fun c => c - 48)).
  apply (wval_bounds 10); [lia|]. apply list.Forall_fmap. eapply list.Forall_impl; [exact H|].
  intros c Hc. cbn. unfold is_digit in Hc. rewrite andb_true_iff, !Z.leb_le in Hc. unfold word. lia.
Qed.

Lemma fmt_width_spec w n k : 1 <= w <= 20 → 0 <= n < 10 ^ k → w <= k <= 20 →
  ∃ ds, fmt_width w n = ds ∧ Forall (λ c, is_digit c = true) ds ∧ digits_val ds = n
    ∧ w <= Z.of_nat (length ds) <= k.
Proof.
  intros Hw Hn Hk. unfold fmt_width. rewrite Z.max_r by lia.
  assert (10 ^ k <= 10 ^ Z.of_nat 20) by (apply Z.pow_le_mono_r; lia).
  destruct (pad_digits_spec 20 (Z.to_nat w) n []) as (ds & -> & Hd & Hv & Hl & Hlt); [lia|lia|].
  rewrite app_nil_r. exists ds. split_and!; auto; [lia|].
  specialize (Hlt (Z.to_nat k)). rewrite Z2Nat.id in Hlt by lia. lia.
Qed.

Lemma digits_val_app a b :
  digits_val (a ++ b) = digits_val a * 10 ^ Z.of_nat (length b) + digits_val b.
Proof. unfold digits_val. by rewrite map_app, wval_app, length_map. Qed.

Section Text.
Context {TP : TenPow} {FS : Fsp}.

(** The ranges of the parts. *)
Lemma part_ranges d : dur_wf d → 0 <= hours d <= 838 ∧ 0 <= minutes d <= 59 ∧ 0 <= secs d <= 59 ∧ 0 <= subsec_nanos d <= 999999999
  ∧ Z.abs (nanos d) = ((hours d * 60 + minutes d) * 60 + secs d) * 1000000000 + subsec_nanos d.
Proof.
  intros [Hn _]. rewrite MAX_NANOS_eq in Hn. unfold hours, minutes, secs, subsec_nanos, to_secs, SECS_PER_HOUR, SECS_PER_MINUTE, NANOS_PER_SEC.
  assert (Hs : 0 <= Z.abs (Z.quot (nanos d) 1000000000) <= 3020399
               ∧ Z.abs (nanos d) = Z.abs (Z.quot (nanos d) 1000000000) * 1000000000 + Z.rem (Z.abs (nanos d)) 1000000000) by zdiv.
  assert (0 <= Z.rem (Z.abs (nanos d)) 1000000000 <= 999999999) by zdiv.
  revert Hs. generalize (Z.abs (Z.quot (nanos d) 1000000000)). intros x [Hx Ha].
  rewrite !as_u32_id by (mach; zdiv). split_and!; zdiv.
Qed.

(** The text of a duration: the digits of its parts, the hours' at least two, around the
    separator, and its fraction after a point, cut off at the precision. *)
Lemma format_text d sep : dur_wf d → ∃ hs ms ss fs,
  format d sep = Ret ((if dur_is_neg d then [45] else []) ++ hs ++ sep ++ ms ++ sep ++ ss ++ (if 0 <? fsp d then 46 :: fs else []))
  ∧ Forall (λ ds, Forall (λ c, is_digit c = true) ds) [hs; ms; ss; fs]
  ∧ digits_val hs = hours d ∧ digits_val ms = minutes d ∧ digits_val ss = secs d ∧ digits_val fs = subsec_nanos d / step (fsp d)
  ∧ Z.of_nat (length hs) = (if hours d <? 100 then 2 else 3) ∧ Z.of_nat (length ms) = 2 ∧ Z.of_nat (length ss) = 2 ∧ Z.of_nat (length fs) = fsp d.
Proof.
  intros Hwf. destruct (part_ranges d Hwf) as (Hh & Hm & Hs & Hns & _). destruct Hwf as [_ Hf]. unfold format.
  destruct (fmt_width_spec 2 (hours d) 3) as (hs & Eh & Dh & Vh & Lh); [cbn; lia..|].
  destruct (fmt_width_spec 2 (minutes d) 2) as (ms & -> & Dm & Vm & Lm); [cbn; lia..|].
  destruct (fmt_width_spec 2 (secs d) 2) as (ss & -> & Ds & Vs & Ls); [cbn; lia..|].
  assert (Hlen : Z.of_nat (length hs) = if hours d <? 100 then 2 else 3).
  { pose proof (digits_val_bound hs Dh) as B. rewrite Vh in B. case_Z.
    - destruct (fmt_width_spec 2 (hours d) 2) as (hs' & E' & _ & _ & L'); [cbn; lia..|].
      rewrite Eh in E'. subst hs'. lia.
    - destruct (Z.eq_dec (Z.of_nat (length hs)) 2) as [E2|]; [|lia].
      rewrite E2 in B. cbn in B. lia. }
  rewrite Eh. exists hs, ms, ss. destruct (Z.ltb_spec 0 (fsp d)).
  - rewrite TEN_POW_get by (unfold NANO_WIDTH; lia). bindr.
    change (10 ^ (NANO_WIDTH - fsp d)) with (step (fsp d)).
    assert (Hq : 0 <= subsec_nanos d / step (fsp d) < 10 ^ fsp d).
    { destruct (step_bounds (fsp d) Hf) as [? _]. split; [apply Z.div_pos; lia|].
      apply Z.div_lt_upper_bound; [lia|]. unfold step. rewrite <- Z.pow_add_r by lia.
      replace (9 - fsp d + fsp d) with 9 by lia. lia. }
    destruct (fmt_width_spec (fsp d) (subsec_nanos d / step (fsp d)) (fsp d))
      as (fs & -> & Df & Vf & Lf); [lia..|].
    exists fs. rewrite <- !app_assoc. split; [done|]. split; [by repeat constructor|]. split_and!; auto; lia.
  - exists []. rewrite !app_nil_r. split; [done|]. split; [by repeat constructor|].
    assert (fsp d = 0) as Ef by lia. rewrite Ef. split_and!; auto; try lia.
    cbn. symmetry. apply Z.div_small. unfold step. cbn. lia.
Qed.

(** [to_numeric_string] of a well-formed duration never panics and is an
    optional minus sign, the digits of HHMMSS (six of them, seven from 100 hours on)
    and, when the precision is not zero, a point and exactly that many digits; the
    number it spells is hours, minutes and seconds with the fraction truncated. *)
Theorem to_numeric_string_exact d : dur_wf d →
  ∃ hms frac,
    to_numeric_string d =
      Ret ((if dur_is_neg d then [45] else []) ++ hms
           ++ (if 0 <? fsp d then 46 :: frac else []))
    ∧ Forall (λ c, is_digit c = true) (hms ++ frac)
    ∧ digits_val hms = hours d * 10000 + minutes d * 100 + secs d
    ∧ Z.of_nat (length hms) = (if hours d <? 100 then 6 else 7)
    ∧ Z.of_nat (length frac) = fsp d
    ∧ digits_val frac = subsec_nanos d / step (fsp d).
Proof.
  intros Hwf. destruct (format_text d [] Hwf) as (hs & ms & ss & fs & He & Hd & Vh & Vm & Vs & Vf & Lh & Lm & Ls & Lf).
  rewrite !Forall_cons_iff in Hd. destruct Hd as (Dh & Dm & Ds & Df & _). exists (hs ++ ms ++ ss), fs.
  unfold to_numeric_string. rewrite He. cbn [app]. rewrite <- !app_assoc. split; [done|]. split; [auto using Forall_app_2|].
  rewrite !digits_val_app, !length_app, !Nat2Z.inj_add, Lm, Ls, Vh, Vm, Vs, Lh. split_and!; [lia| |done..]. case_Z; lia.
Qed.

(** [from_i64_with_ctx_and_check], as long as the hours fit their [u32]: a number
    read as HHMMSS is accepted exactly when its parts are in range, and then has
    those parts. *)
Theorem from_hhmmss_exact n f : Z.abs n <= 42949672959999 → 0 <= f <= 6 →
  let h := Z.abs n / 10000 in
  let m := Z.abs n / 100 mod 100 in
  let s := Z.abs n mod 100 in
  from_i64_with_ctx_and_check n f =
    if decide (h <= 838 ∧ m <= 59 ∧ s <= 59)
    then Ret (Ok (mkDuration 0 (Z.sgn n * (((h * 60 + m) * 60 + s) * 1000000000)) f))
    else Ret (Err truncated_wrong_val).
Proof.
  intros Hn Hf h m s. unfold from_i64_with_ctx_and_check.
  rewrite i64_ok by (mach; lia). bindr.
  rewrite !Z.quot_div_nonneg, !Z.rem_mod_nonneg by (try apply Z.div_pos; lia).
  fold h m s. assert (Hr : 0 <= h <= 4294967295 ∧ 0 <= m < 100 ∧ 0 <= s < 100)
    by (subst h m s; zdiv).
  rewrite !as_u32_id by (mach; lia). unfold MAX_HOUR_PART, MAX_MINUTE_PART, MAX_SECOND_PART.
  destruct (decide _) as [Hp|Hp].
  - rewrite (proj2 (Z.ltb_ge 838 h)), (proj2 (Z.ltb_ge 59 m)), (proj2 (Z.ltb_ge 59 s)) by lia.
    cbn [orb]. rewrite new_from_parts_eq by lia. unfold rounded.
    rewrite checked_round_spec by done. bindr. rewrite Z.add_0_r.
    set (t := ((h * 60 + m) * 60 + s) * 1000000000).
    assert (Ht : 0 <= t <= MAX_NANOS) by (rewrite MAX_NANOS_eq; subst t; lia).
    assert (Es : (if n <? 0 then -1 else 1) * t = Z.sgn n * t).
    { case_Z; [by rewrite Z.sgn_neg|]. destruct (Z.eq_dec n 0) as [->|]; [|by rewrite Z.sgn_pos by lia].
      subst t h m s. done. }
    rewrite Es. assert (- MAX_NANOS <= Z.sgn n * t <= MAX_NANOS)
      by (pose proof (Z.sgn_spec n); nia).
    rewrite decide_True by done. destruct (step_bounds f Hf) as [Hst _].
    rewrite round_half_away_fix; [|lia|].
    2: { apply Z.divide_mul_r, Z.divide_mul_r. exists (10 ^ f). unfold step.
         rewrite <- Z.pow_add_r by lia. by replace (f + (9 - f)) with 9 by lia. }
    by rewrite (proj2 (check_nanos_Ok _)).
  - destruct (Z.ltb_spec 838 h), (Z.ltb_spec 59 m), (Z.ltb_spec 59 s); cbn [orb]; done || lia.
Qed.

End Text.

(** Beyond, the hour wraps around 2^32: 4294967296 hours are accepted as none. *)
Lemma from_hhmmss_wraps :
  @from_i64_with_ctx_and_check ten_pow_table fsp_table 42949672960000 0
  = Ret (Ok (mkDuration 0 0 0)).
Proof. by vm_compute. Qed.

(** ** Witnesses *)

Definition dur_sample : Duration := mkDuration 0 (-45296999500000) 6.

Lemma dur_sample_wf : dur_wf dur_sample.
Proof. unfold dur_wf, dur_sample. rewrite MAX_NANOS_eq. cbn. lia. Qed.

Lemma checked_round_exact_witness :
  @checked_round ten_pow_table 45296999500000 3 = Ret (Ok 45297000000000)
  ∧ (step 3 | 45297000000000).
Proof.
  pose proof (@checked_round_exact ten_pow_table 45296999500000 3 ltac:(lia)) as H.
  cbv zeta in H. change (round_half_away 45296999500000 (step 3)) with 45297000000000 in H.
  destruct H as (H & Hd & _). split; [rewrite H; by vm_compute|exact Hd].
Defined.

Lemma duration_invariant_witness :
  dur_wf dur_sample ∧ ∀ d, dur_checked_add dur_sample dur_sample = Some d → dur_wf d.
Proof.
  split; [exact dur_sample_wf|]. intros d H.
  apply (@duration_invariant ten_pow_table fsp_table d dur_sample dur_sample 0 false 0 0 0 0 0
    dur_sample_wf dur_sample_wf). tauto.
Defined.

Lemma dur_checked_exact_witness :
  dur_checked_sub dur_sample dur_sample = Some (mkDuration 0 0 6).
Proof. apply (proj2 (dur_checked_exact dur_sample dur_sample dur_sample_wf dur_sample_wf) 0). done. Defined.

Lemma new_from_parts_readback_witness :
  ∃ d, @new_from_parts ten_pow_table fsp_table true 12 34 56 789000000 3 = Ret (Ok d)
    ∧ hours d = 12 ∧ minutes d = 34 ∧ secs d = 56.
Proof.
  destruct (@new_from_parts_readback ten_pow_table fsp_table true 12 34 56 789000000 3)
    as (d & E & Hh & Hm & Hs & _); try lia; [by exists 789|]. eauto.
Defined.

Lemma to_numeric_string_exact_witness :
  dur_wf dur_sample ∧ ∃ hms, digits_val hms = 123456
    ∧ Forall (λ c, is_digit c = true) hms.
Proof.
  split; [exact dur_sample_wf|].
  destruct (@to_numeric_string_exact ten_pow_table dur_sample dur_sample_wf)
    as (hms & frac & _ & [Hd _]%Forall_app & Hv & _). exists hms. split; [|done].
  rewrite Hv. by vm_compute.
Defined.

Lemma from_hhmmss_exact_witness :
  @from_i64_with_ctx_and_check ten_pow_table fsp_table (-123456) 0
  = Ret (Ok (mkDuration 0 (-45296000000000) 0)).
Proof. rewrite (@from_hhmmss_exact ten_pow_table fsp_table (-123456) 0) by lia. by vm_compute. Defined.
