(* ===== verification/Upsert.v ===== *)
(** * Upsert: upsert resolution, [causetq/src/upsert_resolution.rs]

    A transaction's assertions are sorted into a generation of populations, which
    evolves as tempids upsert; what is left is labelled, allocated and made final.
    The terms are those of [causetq/src/internal_types.rs].

    Values, tempids and the schema are external: a value type with the constructor
    [Ref], a countable type of tempids with its order, and the test whether an
    attribute is [:db.unique/identity], which may fail.  petgraph's union-find is the
    parameter [UnionFind] with its documented laws. *)
From Stdlib Require Import ZArith Lia.
From stdpp Require Import base list gmap sorting relations.
From S2P Require Import Prelude.

(** ** Terms ([internal_types.rs]) *)

Inductive OpType := Add | Retract.

Inductive Term (E V : Type) : Type :=
| AddOrRetract (op : OpType) (e : E) (a : Z) (v : V).
Arguments AddOrRetract {E V} op e a v.

(** The errors of the module. *)
Inductive UpsertError := UnrecognizedAttribute | NotYetImplemented.

(** A map that may fail, over a list, in order. *)
Fixpoint mapE {A B} (f : A → outcome (UpsertError + B)) (l : list A)
  : outcome (UpsertError + list B) :=
  match l with
  | [] => Ret (inr [])
  | x :: l =>
      y ← f x;
      match y with
      | inl e => Ret (inl e)
      | inr y =>
          ys ← mapE f l;
          Ret match ys with inl e => inl e | inr ys => inr (y :: ys) end
      end
  end.

(** ** The union-find of petgraph: a partition of [0..n] *)

Class UnionFind := {
  uf : Type;
  uf_size : uf → nat;
  uf_new : nat → uf;
  uf_union : uf → nat → nat → uf;
  uf_find : uf → nat → nat;
  uf_find_mut : uf → nat → nat * uf;
  uf_size_new : ∀ n, uf_size (uf_new n) = n;
  uf_size_union : ∀ u i j, uf_size (uf_union u i j) = uf_size u;
  uf_size_find_mut : ∀ u i, uf_size (uf_find_mut u i).2 = uf_size u;
  uf_find_new : ∀ n i, i < n → uf_find (uf_new n) i = i;
  uf_find_union : ∀ u i j a b,
    i < uf_size u → j < uf_size u → a < uf_size u → b < uf_size u →
    uf_find (uf_union u i j) a = uf_find (uf_union u i j) b ↔
    uf_find u a = uf_find u b
    ∨ (uf_find u a = uf_find u i ∧ uf_find u b = uf_find u j)
    ∨ (uf_find u a = uf_find u j ∧ uf_find u b = uf_find u i);
  uf_find_mut_fst : ∀ u i, i < uf_size u → (uf_find_mut u i).1 = uf_find u i;
  uf_find_mut_snd : ∀ u i a, i < uf_size u → a < uf_size u →
    uf_find (uf_find_mut u i).2 a = uf_find u a
}.

(** A concrete one, for evaluation: the size and the function from an index to its class. *)
Definition uf_fun : UnionFind.
Proof.
  refine {| uf := nat * (nat → nat); uf_size := fst; uf_new := fun n => (n, fun i => i);
    uf_union := fun u i j => (u.1, fun a => if decide (u.2 a = u.2 j) then u.2 i else u.2 a);
    uf_find := fun u a => u.2 a; uf_find_mut := fun u i => (u.2 i, u) |}; try done.
  intros [n u] i j a b _ _ _ _. cbn. repeat case_decide; intuition congruence.
Defined.

Section Resolution.
Context {TempId TV : Type} `{Countable TempId, Countable TV}.
Context (Ref : Z → TV).
(** The key orders of the [BTreeMap]s. *)
Context (tid_le : relation TempId) `{!RelDecision tid_le}.
Context (key_le : relation ((Z * (TV + TempId)) * list TempId)) `{!RelDecision key_le}.
(** [topograph.require_attribute_for_causetid(a)?.unique == Some(Unique::Idcauset)]. *)
Context (is_unique : Z → UpsertError + bool).

Definition CausetLocaleNucleonCausetidOr (T : Type) : Type := Z + T.
Definition TypedValueOr (T : Type) : Type := TV + T.
Definition TermWithTempIds : Type := Term (CausetLocaleNucleonCausetidOr TempId) (TypedValueOr TempId).
Definition TermWithoutTempIds : Type := Term Z TV.
Definition TempIdMap : Type := gmap TempId Z.

(** [unwrap] and [rewrap] *)
Definition unwrap (t : TermWithTempIds) : outcome TermWithoutTempIds :=
  match t with
  | AddOrRetract op (inl n) a (inl v) => Ret (AddOrRetract op n a v)
  | _ => Panic
  end.
Definition rewrap (t : TermWithoutTempIds) : TermWithTempIds :=
  match t with AddOrRetract op n a v => AddOrRetract op (inl n) a (inl v) end.

(** ** Generations *)

Record UpsertE := mkUpsertE { e_temp : TempId; e_attr : Z; e_val : TV }.
Record UpsertEV := mkUpsertEV { ev_temp : TempId; ev_attr : Z; ev_other : TempId }.

Record Generation := mkGeneration {
  upserts_e : list UpsertE;
  upserts_ev : list UpsertEV;
  allocations : list TermWithTempIds;
  upserted : list TermWithoutTempIds;
  resolved : list TermWithoutTempIds;
}.

Record FinalPopulations := mkFinalPopulations {
  fp_upserted : list TermWithoutTempIds;
  fp_resolved : list TermWithoutTempIds;
  fp_allocated : list TermWithoutTempIds;
}.

(** [Default] *)
Definition empty_generation : Generation := mkGeneration [] [] [] [] [].

Definition push_e (g : Generation) (u : UpsertE) : Generation :=
  mkGeneration (upserts_e g ++ [u]) (upserts_ev g) (allocations g) (upserted g) (resolved g).
Definition push_ev (g : Generation) (u : UpsertEV) : Generation :=
  mkGeneration (upserts_e g) (upserts_ev g ++ [u]) (allocations g) (upserted g) (resolved g).
Definition push_alloc (g : Generation) (t : TermWithTempIds) : Generation :=
  mkGeneration (upserts_e g) (upserts_ev g) (allocations g ++ [t]) (upserted g) (resolved g).
Definition push_upserted (g : Generation) (t : TermWithoutTempIds) : Generation :=
  mkGeneration (upserts_e g) (upserts_ev g) (allocations g) (upserted g ++ [t]) (resolved g).
Definition push_resolved (g : Generation) (t : TermWithoutTempIds) : Generation :=
  mkGeneration (upserts_e g) (upserts_ev g) (allocations g) (upserted g) (resolved g ++ [t]).

(** [op == OpType::Add && is_unique(a)?] *)
Definition is_upsert (op : OpType) (a : Z) : UpsertError + bool :=
  match op with Add => is_unique a | Retract => inr false end.

(** [Generation::from]: one term, then all of them. *)
Definition from_term (g : Generation) (inert : list TermWithTempIds) (term : TermWithTempIds)
  : UpsertError + (Generation * list TermWithTempIds) :=
  match term with
  | AddOrRetract op (inr e) a (inr v) =>
      match is_upsert op a with
      | inl err => inl err
      | inr true => inr (push_ev g (mkUpsertEV e a v), inert)
      | inr false => inr (push_alloc g (AddOrRetract op (inr e) a (inr v)), inert)
      end
  | AddOrRetract op (inr e) a (inl v) =>
      match is_upsert op a with
      | inl err => inl err
      | inr true => inr (push_e g (mkUpsertE e a v), inert)
      | inr false => inr (push_alloc g (AddOrRetract op (inr e) a (inl v)), inert)
      end
  | AddOrRetract op (inl e) a (inr v) => inr (push_alloc g (AddOrRetract op (inl e) a (inr v)), inert)
  | AddOrRetract op (inl e) a (inl v) => inr (g, inert ++ [AddOrRetract op (inl e) a (inl v)])
  end.

Fixpoint from_terms (g : Generation) (inert terms : list TermWithTempIds)
  : UpsertError + (Generation * list TermWithTempIds) :=
  match terms with
  | [] => inr (g, inert)
  | term :: terms =>
      match from_term g inert term with
      | inl err => inl err
      | inr (g, inert) => from_terms g inert terms
      end
  end.

Definition generation_from (terms : list TermWithTempIds) := from_terms empty_generation [] terms.

Definition can_evolve (g : Generation) : bool :=
  match upserts_e g with [] => false | _ => true end.

(** The three loops of [evolve_one_step].  The matches of the second and third have no
    arm for two tempids that are both unresolved.  The model keeps such a term as it is,
    as the comment on [can_evolve] (a complex upsert may stay with nothing to resolve it)
    and the chain of [test_resolved_upserts] require. *)
Definition evolve_e (m : TempIdMap) (next : Generation) (u : UpsertE) : outcome Generation :=
  let '(mkUpsertE t a v) := u in
  match m !! t with
  | Some n => Ret (push_upserted next (AddOrRetract Add n a v))
  | None => Ret (push_alloc next (AddOrRetract Add (inr t) a (inl v)))
  end.

Definition evolve_ev (m : TempIdMap) (next : Generation) (u : UpsertEV) : outcome Generation :=
  let '(mkUpsertEV t1 a t2) := u in
  match m !! t1, m !! t2 with
  | Some _, Some n2 => Ret (push_e next (mkUpsertE t1 a (Ref n2)))
  | None, Some n2 => Ret (push_e next (mkUpsertE t1 a (Ref n2)))
  | Some n1, None => Ret (push_alloc next (AddOrRetract Add (inl n1) a (inr t2)))
  | None, None => Ret (push_ev next u)
  end.

Definition evolve_alloc (m : TempIdMap) (next : Generation) (term : TermWithTempIds)
  : outcome Generation :=
  match term with
  | AddOrRetract op (inr t1) a (inr t2) =>
      match m !! t1, m !! t2 with
      | Some n1, Some n2 => Ret (push_resolved next (AddOrRetract op n1 a (Ref n2)))
      | None, Some n2 => Ret (push_alloc next (AddOrRetract op (inr t1) a (inl (Ref n2))))
      | Some n1, None => Ret (push_alloc next (AddOrRetract op (inl n1) a (inr t2)))
      | None, None => Ret (push_alloc next (AddOrRetract op (inr t1) a (inr t2)))
      end
  | AddOrRetract op (inr t) a (inl v) =>
      match m !! t with
      | Some n => Ret (push_resolved next (AddOrRetract op n a v))
      | None => Ret (push_alloc next (AddOrRetract op (inr t) a (inl v)))
      end
  | AddOrRetract op (inl e) a (inr t) =>
      match m !! t with
      | Some n => Ret (push_resolved next (AddOrRetract op e a (Ref n)))
      | None => Ret (push_alloc next (AddOrRetract op (inl e) a (inr t)))
      end
  | AddOrRetract _ (inl _) _ (inl _) => Panic
  end.

Definition evolve_one_step (g : Generation) (m : TempIdMap) : outcome Generation :=
  let next := mkGeneration [] [] [] [] (resolved g) in
  next ← foldO (evolve_e m) next (upserts_e g);
  next ← foldO (evolve_ev m) next (upserts_ev g);
  foldO (evolve_alloc m) next (allocations g).

Definition temp_id_avs (g : Generation) : list (TempId * (Z * TV)) :=
  map (fun u => (e_temp u, (e_attr u, e_val u))) (upserts_e g).

(** The loop the module is written for: while the generation can evolve, the store is
    asked for the pairs that may upsert and the generation goes one step.  The loop
    itself is not among the sources; [answers] is whatever the store says in each round,
    and what is left after [fuel] rounds is returned. *)
Fixpoint evolve_with (answers : nat → list (TempId * (Z * TV)) → TempIdMap) (fuel : nat)
    (g : Generation) : outcome Generation :=
  match fuel with
  | O => Ret g
  | S fuel =>
      if can_evolve g then
        next ← evolve_one_step g (answers fuel (temp_id_avs g));
        evolve_with answers fuel next
      else Ret g
  end.

Definition allocate_unresolved_upserts (g : Generation) : Generation :=
  mkGeneration (upserts_e g) []
    (allocations g
     ++ map (fun u => AddOrRetract Add (inr (ev_temp u)) (ev_attr u) (inr (ev_other u)))
          (upserts_ev g))
    (upserted g) (resolved g).

(** [into_final_populations]: one allocation, then the whole generation. *)
Definition finalize (m : TempIdMap) (term : TermWithTempIds)
  : outcome (UpsertError + TermWithoutTempIds) :=
  let unresolved (op : OpType) : outcome (UpsertError + TermWithoutTempIds) :=
    match op with Add => Panic | Retract => Ret (inl NotYetImplemented) end in
  match term with
  | AddOrRetract op (inr t1) a (inr t2) =>
      match m !! t1, m !! t2 with
      | Some n1, Some n2 => Ret (inr (AddOrRetract op n1 a (Ref n2)))
      | _, _ => unresolved op
      end
  | AddOrRetract op (inr t) a (inl v) =>
      match m !! t with
      | Some n => Ret (inr (AddOrRetract op n a v))
      | None => unresolved op
      end
  | AddOrRetract op (inl e) a (inr t) =>
      match m !! t with
      | Some n => Ret (inr (AddOrRetract op e a (Ref n)))
      | None => unresolved op
      end
  | AddOrRetract _ (inl _) _ (inl _) => Panic
  end.

Definition no_upserts (g : Generation) : bool :=
  match upserts_e g, upserts_ev g with [], [] => true | _, _ => false end.

Definition into_final_populations (g : Generation) (m : TempIdMap)
  : outcome (UpsertError + FinalPopulations) :=
  _ ← guardM (no_upserts g);
  allocated ← mapE (finalize m) (allocations g);
  Ret match allocated with
      | inl e => inl e
      | inr ts => inr (mkFinalPopulations (upserted g) (resolved g) ts)
      end.

(** ** Labelling the tempids that need an allocation *)

Context {UF : UnionFind}.

Definition AVKey : Type := Z * (TV + TempId).

(** [entry(k).or_insert(vec![]).push(t)] *)
Definition push_avs (avs : gmap AVKey (list TempId)) (k : AVKey) (t : TempId)
  : gmap AVKey (list TempId) := <[k := default [] (avs !! k) ++ [t]]> avs.

(** One allocation of the first loop: the tempids seen, and those that share an [a v]. *)
Definition scan_alloc (st : gset TempId * gmap AVKey (list TempId)) (term : TermWithTempIds)
  : outcome (UpsertError + (gset TempId * gmap AVKey (list TempId))) :=
  let '(ids, avs) := st in
  let keyed (ids : gset TempId) (a : Z) (x : TV + TempId) (t : TempId) :=
    match is_unique a with
    | inl e => Ret (inl e)
    | inr true => Ret (inr (ids, push_avs avs (a, x) t))
    | inr false => Ret (inr (ids, avs))
    end in
  match term with
  | AddOrRetract Add (inr t1) a (inr t2) => keyed ({[t2]} ∪ ({[t1]} ∪ ids)) a (inr t2) t1
  | AddOrRetract Add (inr t) a (inl v) => keyed ({[t]} ∪ ids) a (inl v) t
  | AddOrRetract Add (inl _) _ (inr t) => Ret (inr ({[t]} ∪ ids, avs))
  | AddOrRetract Add (inl _) _ (inl _) => Panic
  | AddOrRetract Retract _ _ _ => Ret (inr (ids, avs))
  end.

Fixpoint scan_allocs (st : gset TempId * gmap AVKey (list TempId)) (terms : list TermWithTempIds)
  : outcome (UpsertError + (gset TempId * gmap AVKey (list TempId))) :=
  match terms with
  | [] => Ret (inr st)
  | term :: terms =>
      r ← scan_alloc st term;
      match r with inl e => Ret (inl e) | inr st => scan_allocs st terms end
  end.

(** [temp_ids.into_iter().enumerate()] in the set's order. *)
Definition sorted_ids (ids : gset TempId) : list TempId := merge_sort tid_le (elements ids).
Definition enumerate (l : list TempId) : list (TempId * nat) := zip l (seq 0 (length l)).

(** The tempids of one [a v] are united with the first of them. *)
Definition union_group (index : gmap TempId nat) (u : uf) (vs : list TempId) : uf :=
  match vs with
  | [] => u
  | first :: _ =>
      match index !! first with
      | None => u
      | Some first_index =>
          fold_left (fun u t => match index !! t with
                                | Some i => uf_union u first_index i
                                | None => u
                                end) vs u
      end
  end.

(** [IndexSet]: insertion order, without repetition. *)
Definition index_insert (rep : nat) (dense : list nat) : list nat :=
  if decide (rep ∈ dense) then dense else dense ++ [rep].
Definition index_of (rep : nat) (dense : list nat) : option nat := fst <$> list_find (rep =.) dense.

Definition label_one (st : uf * list nat * gmap TempId nat) (p : TempId * nat)
  : uf * list nat * gmap TempId nat :=
  let '(u, dense, labels) := st in
  let '(rep, u) := uf_find_mut u p.2 in
  let dense := index_insert rep dense in
  (u, dense, match index_of rep dense with Some i => <[p.1 := i]> labels | None => labels end).

Definition temp_ids_in_allocations (g : Generation) : outcome (UpsertError + gmap TempId nat) :=
  _ ← guardM (no_upserts g);
  r ← scan_allocs (∅, ∅) (allocations g);
  Ret match r with
      | inl e => inl e
      | inr (ids, avs) =>
          let temp_ids := enumerate (sorted_ids ids) in
          let groups := (merge_sort key_le (map_to_list avs)).*2 in
          let u := fold_left (union_group (list_to_map temp_ids)) groups (uf_new (size ids)) in
          let '(_, _, labels) := fold_left label_one temp_ids (u, [], ∅) in
          inr labels
      end.

(** ** What the evolution keeps *)

(** Every tempid the map knows is replaced. *)
Definition subst_e (m : TempIdMap) (e : Z + TempId) : Z + TempId :=
  match e with
  | inr t => match m !! t with Some n => inl n | None => inr t end
  | inl n => inl n
  end.
Definition subst_v (m : TempIdMap) (v : TV + TempId) : TV + TempId :=
  match v with
  | inr t => match m !! t with Some n => inl (Ref n) | None => inr t end
  | inl v => inl v
  end.
Definition subst_term (m : TempIdMap) (t : TermWithTempIds) : TermWithTempIds :=
  match t with AddOrRetract op e a v => AddOrRetract op (subst_e m e) a (subst_v m v) end.

(** The assertions a population stands for. *)
Definition term_e (u : UpsertE) : TermWithTempIds :=
  AddOrRetract Add (inr (e_temp u)) (e_attr u) (inl (e_val u)).
Definition term_ev (u : UpsertEV) : TermWithTempIds :=
  AddOrRetract Add (inr (ev_temp u)) (ev_attr u) (inr (ev_other u)).
Definition pending (g : Generation) : list TermWithTempIds :=
  map term_e (upserts_e g) ++ map term_ev (upserts_ev g) ++ allocations g.
Definition settled (g : Generation) : list TermWithTempIds :=
  map rewrap (upserted g) ++ map rewrap (resolved g).

(** No allocation is free of tempids. *)
Definition has_tempid (t : TermWithTempIds) : bool :=
  match t with AddOrRetract _ (inl _) _ (inl _) => false | _ => true end.
Definition gen_wf (g : Generation) : Prop := Forall (λ t, has_tempid t = true) (allocations g).

Definition same_terms (l k : list TermWithTempIds) : Prop := l ≡ₚ k.

(** The generation [next] stands for what it started from and the terms consumed. *)
Definition evolves (m : TempIdMap) (g0 next : Generation) (consumed : list TermWithTempIds) : Prop :=
  map (subst_term m) (pending next ++ settled next)
  ≡ₚ map (subst_term m) (pending g0 ++ settled g0 ++ consumed).

Lemma evolves_push m g0 next next' consumed x :
  evolves m g0 next consumed →
  (∃ y, pending next' ++ settled next' ≡ₚ y :: pending next ++ settled next
        ∧ subst_term m y = subst_term m x) →
  evolves m g0 next' (consumed ++ [x]).
Proof.
  unfold evolves. intros IH (y & -> & Hy). cbn [map]. rewrite Hy, IH.
  rewrite !map_app. cbn [map]. solve_Permutation.
Qed.

Lemma pushes g :
  (∀ u, pending (push_e g u) ++ settled (push_e g u) ≡ₚ term_e u :: pending g ++ settled g)
  ∧ (∀ u, pending (push_ev g u) ++ settled (push_ev g u) ≡ₚ term_ev u :: pending g ++ settled g)
  ∧ (∀ t, pending (push_alloc g t) ++ settled (push_alloc g t) ≡ₚ t :: pending g ++ settled g)
  ∧ (∀ t, pending (push_upserted g t) ++ settled (push_upserted g t)
          ≡ₚ rewrap t :: pending g ++ settled g)
  ∧ (∀ t, pending (push_resolved g t) ++ settled (push_resolved g t)
          ≡ₚ rewrap t :: pending g ++ settled g).
Proof.
  unfold pending, settled. destruct g as [e ev al up re].
  cbn [upserts_e upserts_ev allocations upserted resolved push_e push_ev push_alloc push_upserted
       push_resolved].
  repeat split; intros; rewrite ?map_app; cbn [map]; solve_Permutation.
Qed.

(** A term that the map leaves as it is, and that still has a tempid. *)
Definition stuck (m : TempIdMap) (t : TermWithTempIds) : Prop :=
  has_tempid t = true ∧ subst_term m t = t.

(** What becomes of a simple upsert and of a complex one. *)
Definition upserts (m : TempIdMap) (u : UpsertE) : option TermWithoutTempIds :=
  n ← m !! e_temp u; Some (AddOrRetract Add n (e_attr u) (e_val u)).
Definition simplified (m : TempIdMap) (u : UpsertEV) : option UpsertE :=
  n ← m !! ev_other u; Some (mkUpsertE (ev_temp u) (ev_attr u) (Ref n)).
Definition unknown (m : TempIdMap) (u : UpsertEV) : Prop :=
  m !! ev_temp u = None ∧ m !! ev_other u = None.
#[export] Instance unknown_dec m u : Decision (unknown m u).
Proof. unfold unknown. apply _. Defined.

(** What holds of [next] at every point of [evolve_one_step]. *)
Definition evolving (m : TempIdMap) (g0 next : Generation) (consumed : list TermWithTempIds) : Prop :=
  evolves m g0 next consumed ∧ Forall (stuck m) (allocations next)
  ∧ resolved g0 `prefix_of` resolved next.

Lemma evolving_push m g0 next next' consumed x y :
  evolving m g0 next consumed →
  (next' = push_alloc next y ∧ stuck m y ∨ (∃ r, next' = push_resolved next r ∧ y = rewrap r)
   ∨ (∃ r, next' = push_upserted next r ∧ y = rewrap r) ∨ (∃ u, next' = push_e next u ∧ y = term_e u)
   ∨ ∃ u, next' = push_ev next u ∧ y = term_ev u) →
  subst_term m y = subst_term m x →
  evolving m g0 next' (consumed ++ [x]).
Proof.
  intros (He & Hs & Hr) Hn Hy. destruct (pushes next) as (Pe & Pv & Pa & Pu & Pr).
  split; [eapply evolves_push; [done|]; exists y; split; [|done]|].
  { destruct Hn as [[-> _]|[(r & -> & ->)|[(r & -> & ->)|[(u & -> & ->)|(u & -> & ->)]]]]; auto. }
  destruct Hn as [[-> ?]|[(r & -> & ->)|[(r & -> & ->)|[(u & -> & ->)|(u & -> & ->)]]]];
    split_and!; cbn; auto; [by apply Forall_app_2; [|constructor]|by apply prefix_app_r].
Qed.

(** One arm of the matches, by the shape of the push. *)
Ltac step_arm :=
  eapply evolving_push;
    [done
    |first [by right; left; eexists; split; reflexivity
           |by right; right; left; eexists; split; reflexivity
           |by right; right; right; left; eexists; split; reflexivity
           |by right; right; right; right; eexists; split; reflexivity
           |left; split; [reflexivity|split; [done|cbn; by simplify_option_eq]]]
    |cbn; by simplify_option_eq].

Lemma evolve_e_step m g0 next u c : evolving m g0 next c →
  ∃ next', evolve_e m next u = Ret next' ∧ evolving m g0 next' (c ++ [term_e u])
    ∧ upserts_e next' = upserts_e next ∧ upserts_ev next' = upserts_ev next
    ∧ upserted next' = upserted next ++ omap (upserts m) [u].
Proof.
  destruct u as [t a v]. cbn. unfold upserts. cbn. intros He.
  destruct (m !! t) eqn:E; cbn; eexists; (split; [done|]); split_and!; cbn;
    rewrite ?app_nil_r; try done; step_arm.
Qed.

Lemma evolve_ev_step m g0 next u c : evolving m g0 next c →
  ∃ next', evolve_ev m next u = Ret next' ∧ evolving m g0 next' (c ++ [term_ev u])
    ∧ upserts_e next' = upserts_e next ++ omap (simplified m) [u]
    ∧ upserts_ev next' = upserts_ev next ++ filter (unknown m) [u]
    ∧ upserted next' = upserted next.
Proof.
  intros He. rewrite filter_cons, filter_nil. destruct u as [t1 a t2].
  cbn [evolve_ev omap list_omap]. unfold simplified. cbn [ev_temp ev_attr ev_other].
  case_decide as Hu; unfold unknown in Hu; cbn [ev_temp ev_other] in Hu;
    destruct (m !! t1) eqn:E1, (m !! t2) eqn:E2; cbn;
    try (by destruct Hu; simplify_eq); try (by exfalso; apply Hu);
    eexists; (split; [done|]); split_and!; cbn; rewrite ?app_nil_r; try done; step_arm.
Qed.

Lemma evolve_alloc_step m g0 next t c : has_tempid t = true → evolving m g0 next c →
  ∃ next', evolve_alloc m next t = Ret next' ∧ evolving m g0 next' (c ++ [t])
    ∧ upserts_e next' = upserts_e next ∧ upserts_ev next' = upserts_ev next
    ∧ upserted next' = upserted next.
Proof.
  intros Ht He. destruct t as [op [e|t1] a [v|t2]]; [done|..]; cbn.
  - destruct (m !! t2) eqn:E; eexists; (split; [done|]); (split; [step_arm|done]).
  - destruct (m !! t1) eqn:E; eexists; (split; [done|]); (split; [step_arm|done]).
  - destruct (m !! t1) eqn:E1, (m !! t2) eqn:E2;
      eexists; (split; [done|]); (split; [step_arm|done]).
Qed.

(** The loops, with what each adds to the populations. *)
Lemma loop_e m g0 l : ∀ next c, evolving m g0 next c →
  ∃ next', foldO (evolve_e m) next l = Ret next' ∧ evolving m g0 next' (c ++ map term_e l)
    ∧ upserts_e next' = upserts_e next ∧ upserts_ev next' = upserts_ev next
    ∧ upserted next' = upserted next ++ omap (upserts m) l.
Proof.
  induction l as [|u l IH]; intros next c He; cbn [foldO map].
  { eexists. rewrite !app_nil_r. done. }
  destruct (evolve_e_step m g0 next u c He) as (n1 & -> & H1 & E1 & V1 & U1). bindr.
  destruct (IH _ _ H1) as (n2 & -> & H2 & E2 & V2 & U2). eexists. split; [done|].
  rewrite cons_middle, app_assoc. split; [done|]. split_and!; try congruence.
  rewrite U2, U1, <- app_assoc. f_equal. symmetry. apply (omap_app _ [u] l).
Qed.

Lemma loop_ev m g0 l : ∀ next c, evolving m g0 next c →
  ∃ next', foldO (evolve_ev m) next l = Ret next' ∧ evolving m g0 next' (c ++ map term_ev l)
    ∧ upserts_e next' = upserts_e next ++ omap (simplified m) l
    ∧ upserts_ev next' = upserts_ev next ++ filter (unknown m) l
    ∧ upserted next' = upserted next.
Proof.
  induction l as [|u l IH]; intros next c He; cbn [foldO map].
  { eexists. rewrite !app_nil_r. done. }
  destruct (evolve_ev_step m g0 next u c He) as (n1 & -> & H1 & E1 & V1 & U1). bindr.
  destruct (IH _ _ H1) as (n2 & -> & H2 & E2 & V2 & U2). eexists. split; [done|].
  rewrite cons_middle, app_assoc. split; [done|]. split_and!; try congruence.
  - rewrite E2, E1, <- app_assoc. f_equal. symmetry. apply (omap_app _ [u] l).
  - rewrite V2, V1, <- app_assoc. f_equal. symmetry. apply (filter_app _ [u] l).
Qed.

Lemma loop_alloc m g0 l : Forall (λ t, has_tempid t = true) l → ∀ next c, evolving m g0 next c →
  ∃ next', foldO (evolve_alloc m) next l = Ret next' ∧ evolving m g0 next' (c ++ l)
    ∧ upserts_e next' = upserts_e next ∧ upserts_ev next' = upserts_ev next
    ∧ upserted next' = upserted next.
Proof.
  induction 1 as [|t l Ht Hl IH]; intros next c He; cbn [foldO].
  { eexists. rewrite app_nil_r. done. }
  destruct (evolve_alloc_step m g0 next t c Ht He) as (n1 & -> & H1 & E1 & V1 & U1). bindr.
  destruct (IH _ _ H1) as (n2 & -> & H2 & E2 & V2 & U2). eexists. split; [done|].
  rewrite cons_middle, app_assoc. split; [done|]. split_and!; congruence.
Qed.

(** What a step leaves. *)
Definition evolved (m : TempIdMap) (g g' : Generation) : Prop :=
  map (subst_term m) (pending g' ++ settled g')
    ≡ₚ map (subst_term m) (pending g ++ map rewrap (resolved g))
  ∧ upserted g' = omap (upserts m) (upserts_e g)
  ∧ upserts_e g' = omap (simplified m) (upserts_ev g)
  ∧ upserts_ev g' = filter (unknown m) (upserts_ev g)
  ∧ Forall (stuck m) (allocations g') ∧ resolved g `prefix_of` resolved g'.

Lemma evolve_spec g m : gen_wf g → ∃ g', evolve_one_step g m = Ret g' ∧ evolved m g g'.
Proof.
  intros Hwf. unfold evolve_one_step. set (g0 := mkGeneration [] [] [] [] (resolved g)).
  destruct (loop_e m g0 (upserts_e g) g0 []) as (n1 & -> & H1 & E1 & V1 & U1).
  { split; [|by split]. unfold evolves. by rewrite app_nil_r. }
  bindr. destruct (loop_ev m g0 (upserts_ev g) n1 _ H1) as (n2 & -> & H2 & E2 & V2 & U2).
  bindr. destruct (loop_alloc m g0 _ Hwf n2 _ H2) as (n3 & -> & H3 & E3 & V3 & U3).
  exists n3. split; [done|]. destruct H3 as (He & Hs & Hr).
  unfold evolved. rewrite U3, U2, U1, E3, E2, E1, V3, V2, V1. cbn. split_and!; try done.
  rewrite He. unfold pending at 1, settled. cbn. apply Permutation_map.
  unfold pending. solve_Permutation.
Qed.


(** C7. One step of the evolution returns on every generation whose allocations all have
    a tempid (as [Generation::from] makes them), and loses and invents nothing: up to
    the substitution of the tempids the map knows, the assertions of the new generation
    are those that were pending and those already resolved (what upserted before is in
    the store and is dropped).  The upserted terms are the simple upserts whose tempid
    is known, in order; the new simple upserts are the complex ones whose value's tempid
    is known, even when both are; the complex upserts left are those of which neither
    tempid is known.  Every allocation still has a tempid and none that the map knows,
    and what was resolved stays, in front.  The source's matches have no arm for two
    unknown tempids; the statement is of the matches with the arm that keeps the term. *)
Theorem evolve_one_step_conserves g m : gen_wf g →
  ∃ g', evolve_one_step g m = Ret g'
  ∧ map (subst_term m) (pending g' ++ settled g')
      ≡ₚ map (subst_term m) (pending g ++ map rewrap (resolved g))
  ∧ upserted g' = omap (upserts m) (upserts_e g)
  ∧ upserts_e g' = omap (simplified m) (upserts_ev g)
  ∧ upserts_ev g' = filter (unknown m) (upserts_ev g)
  ∧ Forall (stuck m) (allocations g') ∧ resolved g `prefix_of` resolved g'.
Proof. apply evolve_spec. Qed.





(** ** Sorting the terms of a transaction *)

Definition identity (a : Z) : Prop := is_unique a = inr true.

Definition from_inv (g : Generation) (inert done : list TermWithTempIds) : Prop :=
  pending g ++ inert ≡ₚ done ∧ gen_wf g ∧ upserted g = [] ∧ resolved g = []
  ∧ Forall (λ t, has_tempid t = false) inert
  ∧ Forall (λ u, identity (e_attr u)) (upserts_e g)
  ∧ Forall (λ u, identity (ev_attr u)) (upserts_ev g).

Lemma is_upsert_true op a : is_upsert op a = inr true → op = Add ∧ identity a.
Proof. destruct op; done. Qed.

Lemma from_term_inv g inert d term g' inert' :
  from_inv g inert d → from_term g inert term = inr (g', inert') →
  from_inv g' inert' (d ++ [term]).
Proof.
  intros (Hp & Hw & Hu & Hr & Hi & He & Hv) Hl.
  unfold from_inv. rewrite <- Hp. destruct g as [e ev al up re], term as [op [n|t] a [v|t'] ];
    cbn in *; subst; unfold pending, gen_wf in *; cbn in *.
  - injection Hl as <- <-. split_and!; cbn; auto; [solve_Permutation|].
    apply Forall_app_2; auto.
  - injection Hl as <- <-. split_and!; cbn; auto; [solve_Permutation|].
    apply Forall_app_2; auto.
  - destruct (is_upsert op a) as [|[|] ] eqn:E; try done; injection Hl as <- <-; cbn.
    + apply is_upsert_true in E as [-> Ha].
      split_and!; auto; [rewrite map_app; cbn; unfold term_e; cbn; solve_Permutation|].
      apply Forall_app_2; auto.
    + split_and!; auto; [solve_Permutation|]. apply Forall_app_2; auto.
  - destruct (is_upsert op a) as [|[|] ] eqn:E; try done; injection Hl as <- <-; cbn.
    + apply is_upsert_true in E as [-> Ha].
      split_and!; auto; [rewrite map_app; cbn; unfold term_ev; cbn; solve_Permutation|].
      apply Forall_app_2; auto.
    + split_and!; auto; [solve_Permutation|]. apply Forall_app_2; auto.
Qed.

Lemma from_terms_inv terms : ∀ g inert d g' inert',
  from_inv g inert d → from_terms g inert terms = inr (g', inert') →
  from_inv g' inert' (d ++ terms).
Proof.
  induction terms as [|t terms IH]; intros g inert d g' inert' Hi Hl; cbn in Hl.
  - injection Hl as <- <-. by rewrite app_nil_r.
  - destruct (from_term g inert t) as [|[g1 inert1] ] eqn:E; [done|].
    rewrite cons_middle, app_assoc. eapply IH; [|done]. by eapply from_term_inv.
Qed.

(** [Generation::from] partitions the terms: every term is in exactly one
    population, an upsert only for an identity attribute, an allocation only with a
    tempid (so that the [unreachable!] arms are not reached), inert only without. *)
Theorem generation_from_partition terms g inert : generation_from terms = inr (g, inert) →
  from_inv g inert terms.
Proof.
  intros Hl. eapply (from_terms_inv terms _ _ []); [|done].
  unfold from_inv. split_and!; try done; constructor.
Qed.

(** ** The final populations *)

Definition resolved_by (m : TempIdMap) (t : TermWithTempIds) : Prop :=
  has_tempid (subst_term m t) = false.

#[local] Instance resolved_by_dec m t : Decision (resolved_by m t).
Proof. unfold resolved_by. apply _. Defined.

Definition is_add (t : TermWithTempIds) : bool :=
  match t with AddOrRetract Add _ _ _ => true | _ => false end.

Lemma finalize_spec m t : has_tempid t = true →
  (resolved_by m t ∧ ∃ r, finalize m t = Ret (inr r) ∧ rewrap r = subst_term m t)
  ∨ (¬ resolved_by m t ∧ finalize m t = if is_add t then Panic else Ret (inl NotYetImplemented)).
Proof.
  unfold resolved_by. destruct t as [op [e|t1] a [v|t2] ]; cbn; try done; intros _.
  - destruct (m !! t2); cbn; [left; eauto|right]. by destruct op.
  - destruct (m !! t1); cbn; [left; eauto|right]. by destruct op.
  - destruct (m !! t1), (m !! t2); cbn; [left; eauto|right; by destruct op..].
Qed.

Lemma mapE_finalize m ts : Forall (λ t, has_tempid t = true) ts →
  Forall (λ t, is_add t = true → resolved_by m t) ts →
  (Forall (resolved_by m) ts ∧ ∃ rs, mapE (finalize m) ts = Ret (inr rs)
     ∧ map rewrap rs = map (subst_term m) ts)
  ∨ (¬ Forall (resolved_by m) ts ∧ mapE (finalize m) ts = Ret (inl NotYetImplemented)).
Proof.
  induction ts as [|t ts IH]; intros Hw Ha; cbn [mapE]; [left; split; [done|by exists []]|].
  apply Forall_cons_1 in Hw as [Hw Hws], Ha as [Ha Has].
  destruct (finalize_spec m t Hw) as [(Hr & r & -> & Er)|(Hn & ->)]; bindr.
  - destruct (IH Hws Has) as [(Hrs & rs & -> & Ers)|(Hns & ->)]; bindr.
    + left. split; [by constructor|]. exists (r :: rs). cbn. by rewrite Er, Ers.
    + right. split; [|done]. by intros [_ ?]%Forall_cons_1.
  - right. split; [by intros [? _]%Forall_cons_1|].
    destruct (is_add t) eqn:E; [by destruct Hn; auto|done].
Qed.

(** With no upserts left and a map that resolves every asserted allocation,
    [into_final_populations] never panics: it fails exactly when a retraction still
    has an unresolved tempid, and otherwise every allocation is there, in order, with
    its tempids replaced, next to the populations that were settled before. *)
Theorem final_populations_exact g m :
  no_upserts g = true → gen_wf g →
  Forall (λ t, is_add t = true → resolved_by m t) (allocations g) →
  if decide (Forall (resolved_by m) (allocations g)) then
    ∃ p, into_final_populations g m = Ret (inr p) ∧ fp_upserted p = upserted g
         ∧ fp_resolved p = resolved g
         ∧ map rewrap (fp_allocated p) = map (subst_term m) (allocations g)
  else into_final_populations g m = Ret (inl NotYetImplemented).
Proof.
  intros Hu Hw Ha. unfold into_final_populations. rewrite Hu. cbn [guardM]. bindr.
  destruct (mapE_finalize m _ Hw Ha) as [(Hr & rs & -> & Er)|(Hn & ->)]; bindr.
  - rewrite decide_True by done. eexists. split; [reflexivity|]. by cbn.
  - by rewrite decide_False.
Qed.

(** ** The labels *)

Definition term_ids (t : TermWithTempIds) : list TempId :=
  match t with
  | AddOrRetract Add e _ v =>
      (match e with inr t => [t] | inl _ => [] end) ++ (match v with inr t => [t] | inl _ => [] end)
  | AddOrRetract Retract _ _ _ => []
  end.

(** The tempids of the asserted allocations, and those that assert one [a v] of an
    identity attribute. *)
Definition asserted (ts : list TermWithTempIds) (t : TempId) : Prop :=
  ∃ tm, tm ∈ ts ∧ t ∈ term_ids tm.
Definition keyed (ts : list TermWithTempIds) (k : AVKey) (t : TempId) : Prop :=
  AddOrRetract Add (inr t) k.1 k.2 ∈ ts ∧ identity k.1.
Definition linked (ts : list TermWithTempIds) (t1 t2 : TempId) : Prop :=
  ∃ k, keyed ts k t1 ∧ keyed ts k t2.

Definition group (avs : gmap AVKey (list TempId)) (k : AVKey) : list TempId := default [] (avs !! k).

Lemma group_push avs k t k' t' :
  t' ∈ group (push_avs avs k t) k' ↔ t' ∈ group avs k' ∨ (k' = k ∧ t' = t).
Proof.
  unfold group, push_avs. destruct (decide (k = k')) as [->|Hk].
  - rewrite lookup_insert_eq. cbn. rewrite elem_of_app, list_elem_of_singleton. naive_solver.
  - rewrite lookup_insert_ne by done. naive_solver.
Qed.

(** What one allocation adds. *)
Lemma scan_alloc_spec ids avs tm : has_tempid tm = true →
  (∀ op e a v, tm = AddOrRetract op e a v → ∃ b, is_unique a = inr b) →
  ∃ ids' avs', scan_alloc (ids, avs) tm = Ret (inr (ids', avs'))
    ∧ (∀ t, t ∈ ids' ↔ t ∈ ids ∨ t ∈ term_ids tm)
    ∧ (∀ k t, t ∈ group avs' k ↔ t ∈ group avs k
              ∨ (tm = AddOrRetract Add (inr t) k.1 k.2 ∧ identity k.1)).
Proof.
  unfold identity. intros Hw Hs. destruct tm as [op e a v].
  destruct (Hs _ _ _ _ eq_refl) as [b Hb].
  destruct op, e as [e|t1], v as [v|t2]; cbn in Hw |- *; try done;
    rewrite ?Hb; try destruct b; eexists _, _; (split; [reflexivity|]);
    (split; [intros t; cbn; set_solver|]); intros [a' x'] t;
    rewrite ?group_push; cbn; split; intros ?; destruct_or?; destruct_and?;
    simplify_eq; auto; congruence.
Qed.

Lemma scan_allocs_spec ts : ∀ ids avs,
  Forall (λ t, has_tempid t = true) ts →
  (∀ op e a v, AddOrRetract op e a v ∈ ts → ∃ b, is_unique a = inr b) →
  ∃ ids' avs', scan_allocs (ids, avs) ts = Ret (inr (ids', avs'))
    ∧ (∀ t, t ∈ ids' ↔ t ∈ ids ∨ asserted ts t)
    ∧ (∀ k t, t ∈ group avs' k ↔ t ∈ group avs k ∨ keyed ts k t).
Proof.
  induction ts as [|tm ts IH]; intros ids avs Hw Hs; cbn [scan_allocs].
  - exists ids, avs. unfold asserted, keyed. set_solver.
  - apply Forall_cons_1 in Hw as [Hw Hws].
    destruct (scan_alloc_spec ids avs tm) as (ids1 & avs1 & -> & Hi & Ha); [done|set_solver|].
    bindr. destruct (IH ids1 avs1) as (ids2 & avs2 & -> & Hi2 & Ha2); [done|set_solver|].
    exists ids2, avs2. split; [done|]. split.
    + intros t. rewrite Hi2, Hi. unfold asserted. set_solver.
    + intros k t. rewrite Ha2, Ha. unfold keyed. rewrite elem_of_cons. intuition congruence.
Qed.

(** The union-find holds the equivalence closure of the pairs united so far. *)
Definition holds (n : nat) (u : uf) (R : relation nat) : Prop :=
  uf_size u = n ∧ ∀ a b, a < n → b < n → uf_find u a = uf_find u b ↔ rtsc R a b.

Definition with_pair (R : relation nat) (i j : nat) : relation nat :=
  λ x y, R x y ∨ (x = i ∧ y = j).

Lemma rtsc_with_pair R i j a b :
  rtsc (with_pair R i j) a b ↔
  rtsc R a b ∨ (rtsc R a i ∧ rtsc R b j) ∨ (rtsc R a j ∧ rtsc R b i).
Proof.
  assert (Hsub : ∀ x y, rtsc R x y → rtsc (with_pair R i j) x y).
  { intros x y. apply (rtsc_congruence id). by left. }
  assert (Hij : rtsc (with_pair R i j) i j) by (apply rtsc_lr; by right).
  split.
  - intros Hr. induction Hr as [x|x y z Hs _ IH]; [left; reflexivity|].
    assert (Hx : rtsc R x y ∨ (x = i ∧ y = j) ∨ (x = j ∧ y = i)).
    { destruct Hs as [ [?|?]|[?|?] ]; auto using rtsc_lr, rtsc_rl. tauto. }
    destruct Hx as [Hx|[ [-> ->]|[-> ->] ] ].
    + destruct IH as [Hy|[ [H1 H2]|[H1 H2] ] ]; [left|right; left|right; right];
        try split; try done; by etrans.
    + destruct IH as [Hy|[ [H1 H2]|[H1 H2] ] ].
      * right; left. split; [reflexivity|by symmetry].
      * right; left. split; [reflexivity|done].
      * left. by symmetry.
    + destruct IH as [Hy|[ [H1 H2]|[H1 H2] ] ].
      * right; right. split; [reflexivity|by symmetry].
      * left. by symmetry.
      * right; right. split; [reflexivity|done].
  - intros [Hr|[ [H1 H2]|[H1 H2] ] ]; [by apply Hsub|..].
    + etrans; [by apply Hsub|]. etrans; [exact Hij|]. symmetry. by apply Hsub.
    + etrans; [by apply Hsub|]. etrans; [symmetry; exact Hij|]. symmetry. by apply Hsub.
Qed.

Lemma holds_ext n u R R' : (∀ x y, R x y ↔ R' x y) → holds n u R → holds n u R'.
Proof.
  intros HR [Hn Hu]. split; [done|]. intros a b Ha Hb. rewrite Hu by done.
  split; apply (rtsc_congruence id); intros; by apply HR.
Qed.

Lemma holds_new n : holds n (uf_new n) (λ _ _, False).
Proof.
  split; [apply uf_size_new|]. intros a b Ha Hb. rewrite !uf_find_new by done.
  split; [by intros ->|]. intros Hr. destruct Hr as [|x y z [ []|[] ] _]; done.
Qed.

Lemma holds_union n u R i j : i < n → j < n →
  holds n u R → holds n (uf_union u i j) (with_pair R i j).
Proof.
  intros Hi Hj [Hn Hu]. split; [by rewrite uf_size_union|]. intros a b Ha Hb.
  rewrite uf_find_union, rtsc_with_pair, !Hu by lia. done.
Qed.

(** One group of tempids with indices below [n]: all are united with the first. *)
Definition star (index : gmap TempId nat) (vs : list TempId) : relation nat :=
  λ x y, ∃ t t', head vs = Some t ∧ t' ∈ vs ∧ index !! t = Some x ∧ index !! t' = Some y.

Lemma holds_star n (index : gmap TempId nat) fi (vs : list TempId) : ∀ u R,
  (∀ t i, index !! t = Some i → i < n) → fi < n → holds n u R →
  holds n (fold_left (λ u t, match index !! t with Some i => uf_union u fi i | None => u end) vs u)
    (λ x y, R x y ∨ (x = fi ∧ ∃ t, t ∈ vs ∧ index !! t = Some y)).
Proof.
  induction vs as [|t vs IH]; intros u R Hi Hf Hu; cbn [fold_left].
  - eapply holds_ext; [|done]. intros x y. split; [by left|].
    intros [?|(_ & t & ?%not_elem_of_nil & _)]; done.
  - destruct (index !! t) as [i|] eqn:E.
    + eapply holds_ext; [|apply IH; [done..|by apply holds_union; [|by eapply Hi|]]].
      intros x y. unfold with_pair. setoid_rewrite elem_of_cons.
      split; [intros [ [?|[? ->] ]|(? & ? & ? & ?)]|intros [?|(? & ? & [->|?] & ?)]];
        simplify_eq; eauto 8.
    + eapply holds_ext; [|by apply IH]. intros x y. setoid_rewrite elem_of_cons.
      split; [intros [?|(? & ? & ? & ?)]|intros [?|(? & ? & [->|?] & ?)]];
        simplify_eq; eauto 8.
Qed.

Lemma holds_groups n (index : gmap TempId nat) groups : ∀ u R,
  (∀ t i, index !! t = Some i → i < n) → holds n u R →
  holds n (fold_left (union_group index) groups u)
    (λ x y, R x y ∨ ∃ vs, vs ∈ groups ∧ star index vs x y).
Proof.
  unfold star.
  induction groups as [|vs groups IH]; intros u R Hi Hu; cbn [fold_left].
  - eapply holds_ext; [|done]. intros x y. split; [by left|].
    intros [?|(vs & ?%not_elem_of_nil & _)]; done.
  - assert (Hg : holds n (union_group index u vs) (λ x y, R x y ∨ star index vs x y)).
    { unfold union_group, star. destruct vs as [|t vs].
      - eapply holds_ext; [|done]. cbn. naive_solver.
      - destruct (index !! t) as [fi|] eqn:E.
        + eapply holds_ext; [|apply (holds_star n index fi (t :: vs)); eauto].
          intros x y. cbn. split.
          * intros [?|(-> & t' & ? & ?)]; [by left|right; by exists t, t'].
          * intros [?|(t0 & t' & [= <-] & ? & ? & ?)]; [by left|right].
            split; [congruence|]. by exists t'.
        + eapply holds_ext; [|done]. intros x y. cbn. split; [by left|].
          intros [?|(t0 & t' & [= <-] & ? & ? & ?)]; [done|congruence]. }
    eapply holds_ext; [|by apply IH]. intros x y. cbn. unfold star.
    setoid_rewrite elem_of_cons. split.
    + intros [ [?|?]|(vs' & ? & ?)]; eauto 6.
    + intros [?|(vs' & [->|?] & ?)]; eauto 6.
Qed.

Lemma index_insert_spec rep dense : NoDup dense →
  NoDup (index_insert rep dense) ∧ dense `prefix_of` index_insert rep dense
  ∧ (∀ r, r ∈ index_insert rep dense ↔ r ∈ dense ∨ r = rep)
  ∧ ∃ l, index_of rep (index_insert rep dense) = Some l
         ∧ index_insert rep dense !! l = Some rep.
Proof.
  intros Hd. set (d := index_insert rep dense).
  assert (Hin : ∀ r, r ∈ d ↔ r ∈ dense ∨ r = rep).
  { intros r. unfold d, index_insert. case_decide; [naive_solver|].
    rewrite elem_of_app, list_elem_of_singleton. done. }
  split; [|split; [|split; [done|]]].
  - unfold d, index_insert. case_decide; [done|]. apply NoDup_app. split_and!; [done| |].
    + intros x Hx ->%list_elem_of_singleton. done.
    + apply NoDup_singleton.
  - unfold d, index_insert. case_decide; [done|]. by apply prefix_app_r.
  - assert (is_Some (list_find (rep =.) d)) as [ [l r] Hl].
    { apply (list_find_elem_of _ _ rep); [|done]. apply Hin. by right. }
    exists l. unfold index_of. rewrite Hl. split; [done|].
    apply list_find_Some in Hl as (Hl & -> & _). done.
Qed.

(** What the labelling loop has established for the tempids [done], [rep] being the
    representatives of the final partition. *)
Definition labelled (n : nat) (rep : nat → nat) (st : uf * list nat * gmap TempId nat)
    (done : list (TempId * nat)) : Prop :=
  let '(u, dense, labels) := st in
  uf_size u = n ∧ (∀ a, a < n → uf_find u a = rep a) ∧ NoDup dense
  ∧ (∀ t i, (t, i) ∈ done → ∃ l, labels !! t = Some l ∧ dense !! l = Some (rep i))
  ∧ (∀ r, r ∈ dense → ∃ t i, (t, i) ∈ done ∧ rep i = r)
  ∧ (∀ t l, labels !! t = Some l → ∃ i, (t, i) ∈ done).

Lemma label_one_spec n rep st d t i :
  labelled n rep st d → i < n → (∀ j, (t, j) ∈ d → j = i) →
  labelled n rep (label_one st (t, i)) (d ++ [(t, i)]).
Proof.
  destruct st as [ [u dense] labels]. intros (Hn & Hf & Hd & Hl & Hr & Hdom) Hi Ht.
  unfold label_one. cbn [fst snd]. pose proof (uf_find_mut_fst u i ltac:(lia)) as E1.
  pose proof (uf_find_mut_snd u i) as E2. pose proof (uf_size_find_mut u i) as E3.
  destruct (uf_find_mut u i) as [r u']. cbn in *. rewrite Hf in E1 by lia. subst r.
  destruct (index_insert_spec (rep i) dense Hd) as (Hd' & Hpre & Hin & l & Hl1 & Hl2).
  rewrite Hl1. unfold labelled. split_and!; auto.
  - lia.
  - intros a Ha. rewrite E2 by lia. by apply Hf.
  - intros t' j [Hj|Hj]%elem_of_app.
    + destruct (decide (t = t')) as [<-|Hne].
      * rewrite lookup_insert_eq. rewrite (Ht _ Hj). eauto.
      * rewrite lookup_insert_ne by done. destruct (Hl t' j Hj) as (l' & ? & ?).
        exists l'. split; [done|]. by eapply prefix_lookup_Some.
    + apply list_elem_of_singleton in Hj as [= -> ->]. rewrite lookup_insert_eq. eauto.
  - intros r [Hr'| ->]%Hin.
    + destruct (Hr r Hr') as (t' & j & ? & ?). exists t', j. rewrite elem_of_app. auto.
    + exists t, i. rewrite elem_of_app, list_elem_of_singleton. auto.
  - intros t' l' Hl'. setoid_rewrite elem_of_app. destruct (decide (t = t')) as [<-|Hne].
    + exists i. right. by apply list_elem_of_singleton.
    + rewrite lookup_insert_ne in Hl' by done. destruct (Hdom _ _ Hl'). eauto.
Qed.

Lemma label_all_spec n rep ps : ∀ st d,
  labelled n rep st d → (∀ t i, (t, i) ∈ ps → i < n) →
  (∀ t i j, (t, i) ∈ d ++ ps → (t, j) ∈ d ++ ps → i = j) →
  labelled n rep (fold_left label_one ps st) (d ++ ps).
Proof.
  induction ps as [|[t i] ps IH]; intros st d Hst Hlt Hfun; cbn [fold_left].
  - by rewrite app_nil_r.
  - rewrite cons_middle, app_assoc. apply IH.
    + apply label_one_spec; [done|apply (Hlt t); by left|].
      intros j Hj. apply (Hfun t); apply elem_of_app; [by left|right; by left].
    + intros t' j Hj. apply (Hlt t'). by right.
    + rewrite <- app_assoc. done.
Qed.

(** The indices of the tempids. *)
Lemma enumerate_spec l : NoDup l →
  let index : gmap TempId nat := list_to_map (enumerate l) in
  (∀ t i, index !! t = Some i ↔ (t, i) ∈ enumerate l)
  ∧ (∀ t i, (t, i) ∈ enumerate l ↔ l !! i = Some t).
Proof.
  intros Hl index. assert (Hin : ∀ t i, (t, i) ∈ enumerate l ↔ l !! i = Some t).
  { intros t i. unfold enumerate. rewrite list_elem_of_lookup. setoid_rewrite lookup_zip_with_Some.
    split.
    - intros (k & x & y & [= -> ->] & Hx & Hy). apply lookup_seq in Hy as [-> _]. done.
    - intros Hi. exists i, t, i. split_and!; [done..|]. apply lookup_seq.
      apply lookup_lt_Some in Hi. lia. }
  split; [|done]. intros t i. split; [apply elem_of_list_to_map_2|].
  apply elem_of_list_to_map_1. unfold enumerate. rewrite fst_zip; [done|].
  by rewrite length_seq.
Qed.

Lemma sorted_ids_spec (ids : gset TempId) :
  NoDup (sorted_ids ids) ∧ length (sorted_ids ids) = size ids
  ∧ ∀ t, t ∈ sorted_ids ids ↔ t ∈ ids.
Proof.
  pose proof (merge_sort_Permutation tid_le (elements ids)) as Hp. unfold sorted_ids. split_and!.
  - rewrite Hp. apply NoDup_elements.
  - by rewrite Hp.
  - intros t. rewrite Hp. apply elem_of_elements.
Qed.

Lemma groups_spec (avs : gmap AVKey (list TempId)) vs :
  vs ∈ (merge_sort key_le (map_to_list avs)).*2 ↔ ∃ k, avs !! k = Some vs.
Proof.
  rewrite list_elem_of_fmap. setoid_rewrite (merge_sort_Permutation key_le (map_to_list avs)).
  split.
  - intros ([k vs'] & -> & Hk%elem_of_map_to_list). eauto.
  - intros [k Hk]. exists (k, vs). by rewrite elem_of_map_to_list.
Qed.

(** The stars of the groups, on indices, generate the links of the tempids. *)
Lemma stars_links (ts : list TermWithTempIds) (avs : gmap AVKey (list TempId)) (index : gmap TempId nat) t1 t2 (i1 i2 : nat) :
  (∀ k t, t ∈ group avs k ↔ keyed ts k t) →
  (∀ k t, keyed ts k t → is_Some (index !! t)) →
  (∀ t t' i, index !! t = Some i → index !! t' = Some i → t = t') →
  index !! t1 = Some i1 → index !! t2 = Some i2 →
  rtsc (λ x y, ∃ vs, vs ∈ (merge_sort key_le (map_to_list avs)).*2 ∧ star index vs x y) i1 i2
  ↔ rtsc (linked ts) t1 t2.
Proof.
  intros Hg Hidx Hinj H1 H2. set (R := λ x y, _).
  assert (Hstar : ∀ x y, R x y → ∃ t t', index !! t = Some x ∧ index !! t' = Some y ∧ linked ts t t').
  { intros x y (vs & [k Hk]%groups_spec & t & t' & Hh & Hin & Hx & Hy). exists t, t'.
    split_and!; [done..|]. exists k. rewrite <- !Hg. unfold group. rewrite Hk. cbn.
    split; [|done]. destruct vs; [done|]. cbn in Hh. simplify_eq. by left. }
  split.
  - intros Hr. revert t1 H1. induction Hr as [x|x y z Hs _ IH]; intros t1 H1.
    + by rewrite (Hinj t1 t2 x H1 H2).
    + destruct Hs as [Hs|Hs]; destruct (Hstar _ _ Hs) as (t & t' & Hx & Hy & Hl).
      * rewrite (Hinj t1 t x H1 Hx). etrans; [by apply rtsc_lr|]. by apply (IH H2).
      * rewrite (Hinj t1 t' x H1 Hy). etrans; [by apply rtsc_rl|]. by apply (IH H2).
  - assert (Hlink : ∀ t t' i i', linked ts t t' → index !! t = Some i → index !! t' = Some i' →
      rtsc R i i').
    { intros t t' i i' (k & Hk & Hk') Hi Hi'. apply Hg in Hk as Hm, Hk' as Hm'.
      unfold group in Hm, Hm'. destruct (avs !! k) as [vs|] eqn:E; cbn in Hm, Hm';
        [|by apply not_elem_of_nil in Hm].
      destruct vs as [|h vs]; [by apply not_elem_of_nil in Hm|].
      assert (keyed ts k h) as Hh by (apply Hg; unfold group; rewrite E; by left).
      destruct (Hidx k h Hh) as [ih Hih].
      assert (Hs : ∀ u x, u ∈ h :: vs → index !! u = Some x → R ih x).
      { intros u x Hu Hx. exists (h :: vs). split; [apply groups_spec; eauto|].
        by exists h, u. }
      etrans; [apply rtsc_rl, (Hs t); eauto|apply rtsc_lr, (Hs t'); eauto]. }
    intros Hr. revert i1 H1. induction Hr as [x|x y z Hs _ IH]; intros i1 H1.
    + simplify_eq. reflexivity.
    + assert (is_Some (index !! y)) as [iy Hy].
      { destruct Hs as [(k & _ & Hk)|(k & Hk & _)]; by eapply Hidx. }
      etrans; [|by apply (IH H2 iy)].
      destruct Hs as [Hs|Hs]; [by eapply Hlink|]. symmetry. by eapply Hlink.
Qed.

Lemma keyed_asserted ts k t : keyed ts k t → asserted ts t.
Proof.
  intros [Hk _]. eexists. split; [exact Hk|]. cbn. by left.
Qed.

(** When the upserts are done and the schema knows the attributes of the
    allocations, [temp_ids_in_allocations] returns: the labelled tempids are those of
    the asserted allocations, two of them share a label exactly when a chain of common
    identity [a v] pairs links them, and the labels are the integers from 0 on, without
    a gap. *)
Theorem temp_ids_labels_exact g :
  no_upserts g = true → gen_wf g →
  (∀ op e a v, AddOrRetract op e a v ∈ allocations g → ∃ b, is_unique a = inr b) →
  ∃ labels, temp_ids_in_allocations g = Ret (inr labels)
    ∧ (∀ t, is_Some (labels !! t) ↔ asserted (allocations g) t)
    ∧ (∀ t1 t2 l1 l2, labels !! t1 = Some l1 → labels !! t2 = Some l2 →
        l1 = l2 ↔ rtsc (linked (allocations g)) t1 t2)
    ∧ ∃ n, ∀ l, (∃ t, labels !! t = Some l) ↔ l < n.
Proof.
  intros Hu Hw Hs. unfold temp_ids_in_allocations. rewrite Hu. cbn [guardM]. bindr.
  destruct (scan_allocs_spec (allocations g) ∅ ∅ Hw Hs) as (ids & avs & -> & Hids & Havs). bindr.
  destruct (sorted_ids_spec ids) as (Hnd & Hlen & Hmem).
  destruct (enumerate_spec (sorted_ids ids) Hnd) as [Hidx Henum].
  set (ps := enumerate (sorted_ids ids)) in *. set (index := list_to_map ps) in *.
  set (groups := (merge_sort key_le (map_to_list avs)).*2).
  assert (Hlt : ∀ t i, index !! t = Some i → i < size ids).
  { intros t i Hi. rewrite <- Hlen. apply Hidx, Henum in Hi. by eapply lookup_lt_Some. }
  assert (Hinj : ∀ t t' i, index !! t = Some i → index !! t' = Some i → t = t').
  { intros t t' i Hi%Hidx%Henum Hi'%Hidx%Henum. congruence. }
  assert (Hdom : ∀ t, asserted (allocations g) t ↔ ∃ i, (t, i) ∈ ps).
  { intros t. transitivity (t ∈ sorted_ids ids); [rewrite Hmem, Hids; set_solver|].
    setoid_rewrite Henum. apply list_elem_of_lookup. }
  assert (Hkey : ∀ k t, keyed (allocations g) k t → is_Some (index !! t)).
  { intros k t [i Hi]%keyed_asserted%Hdom. exists i. by apply Hidx. }
  assert (Hgrp : ∀ k t, t ∈ group avs k ↔ keyed (allocations g) k t).
  { intros k t. rewrite Havs. unfold group at 1. rewrite lookup_empty. set_solver. }
  set (u := fold_left _ groups _).
  assert (Hholds : holds (size ids) u (λ x y, ∃ vs, vs ∈ groups ∧ star index vs x y)).
  { eapply holds_ext; [|apply holds_groups; [exact Hlt|apply holds_new] ]. naive_solver. }
  destruct Hholds as [Hn Hfind].
  pose proof (label_all_spec (size ids) (uf_find u) ps (u, [], ∅) []) as Hall.
  destruct (fold_left label_one ps (u, [], ∅)) as [ [u' dense] labels].
  destruct Hall as (_ & _ & Hd & Hl & Hr & Hlab).
  { unfold labelled. split_and!; try done; [constructor|..]; set_solver. }
  { intros t i Hi%Hidx. eauto. }
  { intros t i j Hi Hj. apply Hidx in Hi, Hj. congruence. }
  exists labels. split; [done|]. split; [|split].
  - intros t. rewrite Hdom. split; [intros [l Hl']; eauto|].
    intros [i Hi]. destruct (Hl t i Hi) as (l & ? & _). eauto.
  - intros t1 t2 l1 l2 H1 H2. destruct (Hlab _ _ H1) as [i1 Hi1], (Hlab _ _ H2) as [i2 Hi2].
    destruct (Hl _ _ Hi1) as (? & ? & D1), (Hl _ _ Hi2) as (? & ? & D2). simplify_eq.
    apply Hidx in Hi1, Hi2.
    etrans; [|exact (stars_links _ avs index t1 t2 i1 i2 Hgrp Hkey Hinj Hi1 Hi2)].
    etrans; [|apply Hfind; eauto].
    split; [intros ->; congruence|]. intros E. rewrite E in D1. by eapply NoDup_lookup.
  - exists (length dense). intros l. split.
    + intros [t Ht]. destruct (Hlab _ _ Ht) as [i Hi]. destruct (Hl _ _ Hi) as (? & ? & D).
      simplify_eq. by eapply lookup_lt_Some.
    + intros [r Hrl]%lookup_lt_is_Some_2. destruct (Hr r) as (t & i & Hi & Er).
      { by eapply list_elem_of_lookup_2. }
      destruct (Hl _ _ Hi) as (l' & ? & D). exists t. subst r.
      by rewrite (NoDup_lookup _ _ _ _ Hd Hrl D).
Qed.

End Resolution.

(** ** Witnesses: integers as tempids and as values, attribute 1 an identity *)

Definition sample_unique (a : Z) : UpsertError + bool := inr (bool_decide (a = 1%Z)).
Definition sample_le (x y : Z * (Z + Z) * list Z) : Prop := (x.1.1 ≤ y.1.1)%Z.
#[export] Instance sample_le_dec : RelDecision sample_le.
Proof. intros x y. unfold sample_le. apply _. Defined.

Definition sample_terms : list (Term (Z + Z) (Z + Z)) :=
  [AddOrRetract Add (inr 1%Z) 1%Z (inl 7%Z); AddOrRetract Add (inr 2%Z) 1%Z (inr 1%Z);
   AddOrRetract Add (inr 2%Z) 2%Z (inr 3%Z); AddOrRetract Add (inl 5%Z) 2%Z (inl 6%Z)].
Definition sample_gen : @Generation Z Z :=
  mkGeneration [mkUpsertE 1%Z 1%Z 7%Z] [mkUpsertEV 2%Z 1%Z 1%Z]
    [AddOrRetract Add (inr 2%Z) 2%Z (inr 3%Z)] [] [].
Definition sample_map : gmap Z Z := {[1%Z := 100%Z; 3%Z := 300%Z]}.
Definition sample_map2 : gmap Z Z := <[2%Z := 200%Z]> sample_map.
Definition sample_allocs : @Generation Z Z :=
  mkGeneration [] [] [AddOrRetract Add (inr 2%Z) 1%Z (inl 8%Z); AddOrRetract Add (inr 4%Z) 1%Z (inl 8%Z);
    AddOrRetract Add (inr 3%Z) 2%Z (inl 9%Z)] [] [].

(** The complex upsert of [sample_gen] has both ends known in a second map: it becomes a
    simple upsert all the same; with neither known it stays. *)
Lemma evolve_one_step_conserves_witness :
  (∃ g', evolve_one_step id sample_gen sample_map2 = Ret g'
    ∧ upserts_e g' = [mkUpsertE 2%Z 1%Z 100%Z] ∧ upserts_ev g' = [])
  ∧ ∃ g', evolve_one_step id sample_gen ∅ = Ret g' ∧ upserts_ev g' = [mkUpsertEV 2%Z 1%Z 1%Z].
Proof.
  assert (Hw : gen_wf sample_gen) by by repeat constructor. split.
  - destruct (evolve_one_step_conserves id sample_gen sample_map2 Hw)
      as (g' & Hg & _ & _ & He & Hv & _).
    exists g'. split; [exact Hg|]. rewrite He, Hv. split; by vm_compute.
  - destruct (evolve_one_step_conserves id sample_gen ∅ Hw) as (g' & Hg & _ & _ & _ & Hv & _).
    exists g'. split; [exact Hg|]. rewrite Hv. by vm_compute.
Defined.

(** The transaction of [test_resolved_upserts]: attribute 1 for [:test/id], 2 for
    [:test/ref], the tempids "a" to "d" as 1 to 4; the store knows the id "0" of 100 and
    the chain of references 101, 102, 103. *)
Definition chain_unique (a : Z) : UpsertError + bool := inr true.
Definition chain_terms : list (Term (Z + Z) (Z + Z)) :=
  [AddOrRetract Add (inr 1%Z) 1%Z (inl 0%Z);
   AddOrRetract Add (inr 2%Z) 1%Z (inl 1%Z); AddOrRetract Add (inr 2%Z) 2%Z (inr 1%Z);
   AddOrRetract Add (inr 3%Z) 1%Z (inl 2%Z); AddOrRetract Add (inr 3%Z) 2%Z (inr 2%Z);
   AddOrRetract Add (inr 4%Z) 1%Z (inl 3%Z); AddOrRetract Add (inr 4%Z) 2%Z (inr 3%Z)].
Definition chain_store : gmap (Z * Z) Z :=
  {[(1, 0)%Z := 100%Z; (2, 100)%Z := 101%Z; (2, 101)%Z := 102%Z; (2, 102)%Z := 103%Z]}.
Definition chain_answers (round : nat) (avs : list (Z * (Z * Z))) : gmap Z Z :=
  list_to_map (omap (λ p, n ← chain_store !! p.2; Some (p.1, n)) avs).
Definition chain_gen : @Generation Z Z :=
  match generation_from chain_unique chain_terms with inr (g, _) => g | inl _ => empty_generation end.

(** It takes the four rounds: the pairs of tempids not yet known survive them, each new
    identifier resolves the next, and the assertions of the test's last transaction are
    what is resolved. *)
Example chain_evolves :
  (∃ g, evolve_with id chain_answers 3 chain_gen = Ret g ∧ can_evolve g = true)
  ∧ evolve_with id chain_answers 4 chain_gen
    = Ret (mkGeneration [] [] [] [AddOrRetract Add 103%Z 2%Z 102%Z]
        [AddOrRetract Add 101%Z 1%Z 1%Z; AddOrRetract Add 102%Z 1%Z 2%Z;
         AddOrRetract Add 103%Z 1%Z 3%Z]).
Proof. split; [eexists; split; by vm_compute|by vm_compute]. Qed.


Lemma generation_from_partition_witness :
  ∃ g inert, generation_from sample_unique sample_terms = inr (g, inert)
    ∧ pending g ++ inert ≡ₚ sample_terms.
Proof.
  eexists _, _. split; [reflexivity|].
  apply (generation_from_partition sample_unique sample_terms _ _ eq_refl).
Defined.

Definition sample_final : @Generation Z Z :=
  mkGeneration [] [] [AddOrRetract Add (inr 2%Z) 1%Z (inl 8%Z)] [] [].

Lemma final_populations_exact_witness :
  ∃ p, into_final_populations id sample_final sample_map2 = Ret (inr p)
    ∧ map (@rewrap Z Z) (fp_allocated p) = [AddOrRetract Add (inl 200%Z) 1%Z (inl 8%Z)].
Proof.
  assert (Hr : Forall (resolved_by id sample_map2) (allocations sample_final))
    by (repeat constructor; by vm_compute).
  pose proof (final_populations_exact id sample_final sample_map2 eq_refl
    ltac:(by repeat constructor) ltac:(by eapply list.Forall_impl)) as Hf.
  rewrite decide_True in Hf by exact Hr. destruct Hf as (p & Hp & _ & _ & Ha).
  exists p. split; [exact Hp|]. rewrite Ha. by vm_compute.
Defined.

Lemma temp_ids_labels_exact_witness :
  ∃ labels : gmap Z nat,
    temp_ids_in_allocations (UF := uf_fun) Z.le sample_le sample_unique sample_allocs
      = Ret (inr labels)
    ∧ is_Some (labels !! 4%Z) ∧ ¬ is_Some (labels !! 5%Z).
Proof.
  destruct (temp_ids_labels_exact (UF := uf_fun) id Z.le sample_le sample_unique sample_allocs
    eq_refl ltac:(by repeat constructor) ltac:(intros; eexists; reflexivity))
    as (labels & Hl & Hd & _).
  exists labels. split; [exact Hl|]. rewrite !Hd. unfold asserted. cbn. split.
  - eexists. split; [right; left|]. cbn. by left.
  - intros (tm & Htm & Hin). rewrite !elem_of_cons, elem_of_nil in Htm.
    destruct Htm as [->|[->|[->|[]]]]; cbn in Hin; by apply list_elem_of_singleton in Hin.
Defined.
