(* ===== verification/NumPrefix.v ===== *)
(** * NumPrefix: numeric prefixes of strings

    Of [allegro_poset/convert.rs]: [get_valid_float_prefix], the select-statement
    branch of [get_valid_int_prefix], [round_int_str] and [truncate_binary].  A string
    is its UTF-8 bytes; the scans stop at the first character that is not ASCII, so
    their character positions are byte positions. *)
From Stdlib Require Import ZArith Lia.
From stdpp Require Import base list numbers.
From S2P Require Import Prelude Words EvalCtx ToInt.
#[local] Open Scope Z_scope.

(** The characters the scans test. *)
Definition is_sign (c : Z) : bool := (c =? 43) || (c =? 45).
Definition is_dot (c : Z) : bool := c =? 46.
Definition is_e (c : Z) : bool := (c =? 101) || (c =? 69).

(** ** [get_valid_float_prefix] *)

(** The loop, from position [i]: the length of the longest valid prefix seen. *)
Fixpoint float_scan (s : list Z) (i : nat) (saw_dot saw_digit : bool) (valid_len e_idx : nat) : nat :=
  match s with
  | [] => valid_len
  | c :: s =>
      if is_sign c then
        if negb (i =? 0)%nat && ((e_idx =? 0)%nat || negb (i =? e_idx + 1)%nat) then valid_len
        else float_scan s (S i) saw_dot saw_digit valid_len e_idx
      else if is_dot c then
        if saw_dot || (0 <? e_idx)%nat then valid_len
        else float_scan s (S i) true saw_digit (if saw_digit then S i else valid_len) e_idx
      else if is_e c then
        if negb saw_digit then valid_len
        else if negb (e_idx =? 0)%nat then valid_len
        else float_scan s (S i) saw_dot saw_digit valid_len i
      else if negb (is_digit c) then valid_len
      else float_scan s (S i) saw_dot true (S i) e_idx
  end.

Definition get_valid_float_prefix (s : list Z) : evalM (list Z) :=
  let valid_len := float_scan s 0 false false 0 0 in
  _ ← (if (valid_len =? 0)%nat || (valid_len <? length s)%nat
       then handler (fun ctx => handle_truncate_err ctx truncated_wrong_val)
       else mret tt);
  mret (if (valid_len =? 0)%nat then [48] else take valid_len s).

(** ** [get_valid_int_prefix] *)

Fixpoint int_scan (s : list Z) (i valid_len : nat) : nat :=
  match s with
  | [] => valid_len
  | c :: s =>
      if is_sign c && (i =? 0)%nat then int_scan s (S i) valid_len
      else if is_digit c then int_scan s (S i) (S i)
      else valid_len
  end.

(** The other branch goes through [float_str_to_int_string], whose body has no value:
    it is a parameter. *)
Definition get_valid_int_prefix (float_str_to_int_string : list Z → evalM (list Z)) (s : list Z)
  : evalM (list Z) :=
  select ← pure_ctx (fun ctx => has_flag ctx IN_SELECT_STMT);
  if negb (select : bool) then
    vs ← get_valid_float_prefix s;
    float_str_to_int_string vs
  else
    let valid_len := int_scan s 0 0 in
    let valid := take valid_len s in
    let valid := if bool_decide (valid = []) then [48] else valid in
    _ ← (if (valid_len =? 0)%nat || (valid_len <? length s)%nat
         then handler (fun ctx => handle_truncate_err ctx truncated_wrong_val)
         else mret tt);
    mret valid.

(** ** [round_int_str] *)

(** [s.rfind(|c| c != '9' && c != '+' && c != '-')]. *)
Fixpoint rfind_non_nine (s : list Z) (i : nat) : option nat :=
  match s with
  | [] => None
  | c :: s =>
      match rfind_non_nine s (S i) with
      | Some j => Some j
      | None => if negb (c =? 57) && negb (is_sign c) then Some i else None
      end
  end.

Definition round_int_str (num_next_dot : Z) (s : list Z) : outcome (list Z) :=
  if num_next_dot <? 53 then Ret s
  else
    match rfind_non_nine s 0 with
    | Some idx =>
        b ← get s (Z.of_nat idx);
        next_char ← u8 (b + 1);
        Ret (take idx s ++ [next_char] ++ replicate (length s - (idx + 1)) 48)
    | None =>
        Ret (match s with
             | c :: s' =>
                 if is_sign c then c :: 49 :: replicate (length s') 48
                 else 49 :: replicate (length s) 48
             | [] => [49]
             end)
    end.

(** [truncate_binary]: [flen] is an [isize], cast to [usize]. *)
Definition UNSPECIFIED_LENGTH : Z := -1.
Definition truncate_binary (s : list Z) (flen : Z) : list Z :=
  if negb (flen =? UNSPECIFIED_LENGTH) && (as_u64 flen <? Z.of_nat (length s))
  then take (Z.to_nat (as_u64 flen)) s else s.

(** ** Longest prefixes by automaton *)

Section Automaton.
Context {S : Type} (step : S → Z → option S) (acc : S → bool).

Fixpoint run (st : S) (s : list Z) : option S :=
  match s with [] => Some st | c :: s => st ← step st c; run st s end.

Definition accepts (st : S) (s : list Z) : Prop := ∃ st', run st s = Some st' ∧ acc st' = true.

(** The length of the longest accepted prefix read so far. *)
Fixpoint longest (st : S) (s : list Z) (i best : nat) : nat :=
  match s with
  | [] => best
  | c :: s =>
      match step st c with
      | None => best
      | Some st => longest st s (Datatypes.S i) (if acc st then Datatypes.S i else best)
      end
  end.

Lemma accepts_cons st c s k : accepts st (take (Datatypes.S k) (c :: s)) ↔
  ∃ st1, step st c = Some st1 ∧ accepts st1 (take k s).
Proof.
  unfold accepts. cbn [take run]. destruct (step st c) as [st1|]; cbn.
  - split; [intros (st' & ? & ?); exists st1; eauto|]. by intros (? & [= <-] & H).
  - split; [by intros (? & ? & _)|]. by intros (? & ? & _).
Qed.

Lemma accepts_nil st s : accepts st (take 0 s) ↔ acc st = true.
Proof. unfold accepts. cbn. naive_solver. Qed.

Lemma longest_spec s : ∀ st i best,
  (longest st s i best = best ∧ ∀ k, (0 < k <= length s)%nat → ¬ accepts st (take k s))
  ∨ ∃ k, (0 < k <= length s)%nat ∧ longest st s i best = (i + k)%nat ∧ accepts st (take k s)
     ∧ ∀ k', (k' <= length s)%nat → accepts st (take k' s) → (k' <= k)%nat.
Proof.
  induction s as [|c s IH]; intros st i best; cbn [longest length].
  - left. split; [done|]. lia.
  - destruct (step st c) as [st1|] eqn:E.
    + destruct (IH st1 (Datatypes.S i) (if acc st1 then Datatypes.S i else best))
        as [ [-> Hno]|(k & Hk & -> & Ha & Hmax)].
      * destruct (acc st1) eqn:Ea.
        -- right. exists 1%nat. split; [lia|]. split; [lia|]. split.
           ++ apply accepts_cons. exists st1. split; [done|]. by apply accepts_nil.
           ++ intros [|k'] Hk'; [lia|]. rewrite accepts_cons. intros (? & Hs & Ha).
              rewrite E in Hs. injection Hs as <-. destruct (decide (k' = O)); [lia|].
              exfalso. eapply Hno; [|done]. lia.
        -- left. split; [done|]. intros [|k] Hk; [lia|]. rewrite accepts_cons. intros (? & Hs & Ha).
           rewrite E in Hs. injection Hs as <-. destruct (decide (k = O)) as [->|].
           ++ apply accepts_nil in Ha. congruence.
           ++ eapply Hno; [|done]. lia.
      * right. exists (Datatypes.S k). split; [lia|]. split; [lia|]. split.
        -- apply accepts_cons. eauto.
        -- intros [|k'] Hk'; [lia|]. rewrite accepts_cons. intros (? & Hs & Ha').
           rewrite E in Hs. injection Hs as <-. enough (k' <= k)%nat by lia. apply Hmax; [lia|done].
    + left. split; [done|]. intros [|k] Hk; [lia|]. rewrite accepts_cons.
      intros (? & Hs & _). congruence.
Qed.

Lemma run_app st a b : run st (a ++ b) = run st a ≫= λ st', run st' b.
Proof. revert st. induction a as [|c a IH]; intros st; cbn; [done|].
  destruct (step st c); cbn; auto. Qed.
End Automaton.

(** ** The grammars *)

Definition all_digits (ds : list Z) : Prop := Forall (λ c, is_digit c = true) ds.
Definition opt_sign (s : list Z) : Prop := s = [] ∨ s = [43] ∨ s = [45].

(** [sign? digits] *)
Definition int_lit (s : list Z) : Prop :=
  ∃ sgn ds, s = sgn ++ ds ∧ opt_sign sgn ∧ all_digits ds ∧ ds ≠ [].

(** [sign? digits (. digits)? ((e|E) sign? digits)?], with a digit before the exponent
    and one in it. *)
Definition mantissa_lit (s : list Z) : Prop :=
  ∃ sgn ip fp, opt_sign sgn ∧ all_digits ip ∧ all_digits fp ∧ ip ++ fp ≠ []
    ∧ (s = sgn ++ ip ∧ fp = [] ∨ s = sgn ++ ip ++ [46] ++ fp).
Definition float_lit (s : list Z) : Prop :=
  mantissa_lit s
  ∨ ∃ m e sgn ds, s = m ++ [e] ++ sgn ++ ds ∧ mantissa_lit m ∧ is_e e = true
      ∧ opt_sign sgn ∧ all_digits ds ∧ ds ≠ [].

(** The states of the scan. *)
Inductive fstate := FStart | FSigned | FInt | FDot | FFrac | FExp | FExpSign | FExpDigits.

Definition fstep (st : fstate) (c : Z) : option fstate :=
  if is_sign c then match st with FStart => Some FSigned | FExp => Some FExpSign | _ => None end
  else if is_dot c then
    match st with FStart | FSigned => Some FDot | FInt => Some FFrac | _ => None end
  else if is_e c then match st with FInt | FFrac => Some FExp | _ => None end
  else if is_digit c then
    match st with
    | FStart | FSigned | FInt => Some FInt
    | FDot | FFrac => Some FFrac
    | FExp | FExpSign | FExpDigits => Some FExpDigits
    end
  else None.

#[local] Arguments fstep : simpl never.

Definition facc (st : fstate) : bool :=
  match st with FInt | FFrac | FExpDigits => true | _ => false end.

(** The scan's variables in each state. *)
Definition fvars (st : fstate) (i : nat) (saw_dot saw_digit : bool) (e_idx : nat) : Prop :=
  match st with
  | FStart => i = 0%nat ∧ saw_dot = false ∧ saw_digit = false ∧ e_idx = 0%nat
  | FSigned => (0 < i)%nat ∧ saw_dot = false ∧ saw_digit = false ∧ e_idx = 0%nat
  | FInt => (0 < i)%nat ∧ saw_dot = false ∧ saw_digit = true ∧ e_idx = 0%nat
  | FDot => (0 < i)%nat ∧ saw_dot = true ∧ saw_digit = false ∧ e_idx = 0%nat
  | FFrac => (0 < i)%nat ∧ saw_dot = true ∧ saw_digit = true ∧ e_idx = 0%nat
  | FExp => saw_digit = true ∧ (0 < e_idx)%nat ∧ i = (e_idx + 1)%nat
  | FExpSign | FExpDigits => saw_digit = true ∧ (0 < e_idx)%nat ∧ (e_idx + 1 < i)%nat
  end.

Lemma float_scan_longest s : ∀ st i saw_dot saw_digit valid e_idx,
  fvars st i saw_dot saw_digit e_idx →
  float_scan s i saw_dot saw_digit valid e_idx = longest fstep facc st s i valid.
Proof.
  induction s as [|c s IH]; intros st i sd sg v e Hv; [done|]. cbn [float_scan longest].
  unfold fstep at 1. destruct (is_sign c), (is_dot c), (is_e c), (is_digit c); cbn [negb];
    destruct st; cbn in Hv; destruct_and!; subst; cbn [orb negb andb facc];
    repeat (match goal with
     | |- context [Nat.eqb ?a ?b] => destruct (Nat.eqb_spec a b); try lia
     | |- context [Nat.ltb ?a ?b] => destruct (Nat.ltb_spec a b); try lia
     end); rewrite ?orb_true_r; cbn [negb andb orb]; try done;
    (apply IH; cbn; repeat split; lia || done).
Qed.

(** ** The automaton accepts the grammar *)

Lemma char_class c :
  (is_digit c = true → is_sign c = false ∧ is_dot c = false ∧ is_e c = false)
  ∧ (is_e c = true → is_sign c = false ∧ is_dot c = false).
Proof.
  unfold is_digit, is_sign, is_dot, is_e.
  rewrite !andb_true_iff, !orb_true_iff, !orb_false_iff, !Z.leb_le, !Z.eqb_eq, !Z.eqb_neq. lia.
Qed.

(** Where a digit leads. *)
Definition dstate (st : fstate) : fstate :=
  match st with
  | FStart | FSigned | FInt => FInt
  | FDot | FFrac => FFrac
  | FExp | FExpSign | FExpDigits => FExpDigits
  end.

Lemma fstep_digit st c : is_digit c = true → fstep st c = Some (dstate st).
Proof.
  intros Hd. destruct (proj1 (char_class c) Hd) as (E1 & E2 & E3).
  unfold fstep. rewrite E1, E2, E3, Hd. by destruct st.
Qed.

Lemma fstep_sign st c : is_sign c = true →
  fstep st c = match st with FStart => Some FSigned | FExp => Some FExpSign | _ => None end.
Proof. intros E. unfold fstep. by rewrite E. Qed.

Lemma fstep_dot st :
  fstep st 46 = match st with FStart | FSigned => Some FDot | FInt => Some FFrac | _ => None end.
Proof. done. Qed.

Lemma fstep_e st c : is_e c = true →
  fstep st c = match st with FInt | FFrac => Some FExp | _ => None end.
Proof.
  intros E. destruct (proj2 (char_class c) E) as [E1 E2]. unfold fstep. by rewrite E1, E2, E.
Qed.

Lemma run_digits st ds : all_digits ds →
  run fstep st ds = Some (if decide (ds = []) then st else dstate st).
Proof.
  intros H. revert st. induction H as [|c ds Hc _ IH]; intros st; [done|].
  cbn [run]. rewrite fstep_digit by done. cbn. rewrite IH.
  destruct (decide (ds = [])); f_equal; by destruct st.
Qed.

Lemma run_sign sgn st : opt_sign sgn → st = FStart ∨ st = FExp →
  run fstep st sgn = Some (if decide (sgn = []) then st
                           else match st with FStart => FSigned | _ => FExpSign end).
Proof. intros [->|[->| ->]] [->| ->]; done. Qed.

Lemma run_mantissa s : mantissa_lit s →
  run fstep FStart s = Some FInt ∨ run fstep FStart s = Some FFrac.
Proof.
  intros (sgn & ip & fp & Hs & Hi & Hf & Hne & [ [-> ->]| ->]); rewrite !run_app, run_sign by auto; cbn.
  - left. rewrite run_digits by done. rewrite app_nil_r in Hne. rewrite decide_False by done.
    by case_decide.
  - right. rewrite run_app, run_digits by done. cbn.
    assert (∃ st, (if decide (ip = []) then if decide (sgn = []) then FStart else FSigned
                   else dstate (if decide (sgn = []) then FStart else FSigned)) = st
                  ∧ (st = FStart ∨ st = FSigned ∨ st = FInt) ∧ (ip ≠ [] → st = FInt))
      as (st & -> & Hst & Hi') by (eexists; split; [done|]; repeat case_decide; cbn; tauto).
    rewrite fstep_dot. destruct (decide (ip = [])) as [->|Hip].
    + cbn in Hne. destruct Hst as [->|[->| ->]]; cbn; rewrite run_digits by done;
        by rewrite decide_False by done.
    + rewrite Hi' by done. cbn. rewrite run_digits by done. by case_decide.
Qed.

(** What has been read in each state. *)
Definition fdesc (st : fstate) (p : list Z) : Prop :=
  match st with
  | FStart => p = []
  | FSigned => opt_sign p
  | FInt => ∃ sgn ip, opt_sign sgn ∧ all_digits ip ∧ ip ≠ [] ∧ p = sgn ++ ip
  | FDot => ∃ sgn, opt_sign sgn ∧ p = sgn ++ [46]
  | FFrac => ∃ sgn ip fp, opt_sign sgn ∧ all_digits ip ∧ all_digits fp ∧ ip ++ fp ≠ []
      ∧ p = sgn ++ ip ++ [46] ++ fp
  | FExp => ∃ m e, mantissa_lit m ∧ is_e e = true ∧ p = m ++ [e]
  | FExpSign => ∃ m e sgn, mantissa_lit m ∧ is_e e = true ∧ opt_sign sgn ∧ p = m ++ [e] ++ sgn
  | FExpDigits => ∃ m e sgn ds, p = m ++ [e] ++ sgn ++ ds ∧ mantissa_lit m ∧ is_e e = true
      ∧ opt_sign sgn ∧ all_digits ds ∧ ds ≠ []
  end.

Lemma sign_cases c : is_sign c = true → c = 43 ∨ c = 45.
Proof. unfold is_sign. rewrite orb_true_iff, !Z.eqb_eq. done. Qed.

Lemma all_digits_snoc ds c : all_digits ds → is_digit c = true → all_digits (ds ++ [c]).
Proof. intros ? ?. apply Forall_app_2; [done|]. by constructor. Qed.

Lemma fdesc_digit st p c : fdesc st p → is_digit c = true → fdesc (dstate st) (p ++ [c]).
Proof.
  intros Hp Hc. assert (Hone : all_digits [c]) by (by constructor).
  destruct st; cbn in *.
  - subst. exists [], [c]. split_and!; [by left|done..].
  - exists p, [c]. done.
  - destruct Hp as (sgn & ip & ? & ? & ? & ->). exists sgn, (ip ++ [c]). rewrite app_assoc.
    split_and!; auto using all_digits_snoc. by destruct ip.
  - destruct Hp as (sgn & ? & ->). exists sgn, [], [c]. rewrite <- app_assoc.
    split_and!; try done. by constructor.
  - destruct Hp as (sgn & ip & fp & ? & ? & ? & ? & ->). exists sgn, ip, (fp ++ [c]).
    rewrite <- !app_assoc. split_and!; auto using all_digits_snoc.
    rewrite app_assoc. by destruct (ip ++ fp).
  - destruct Hp as (m & e & ? & ? & ->). exists m, e, [], [c]. rewrite <- app_assoc.
    split_and!; try done. by left.
  - destruct Hp as (m & e & sgn & ? & ? & ? & ->). exists m, e, sgn, [c]. rewrite <- !app_assoc. done.
  - destruct Hp as (m & e & sgn & ds & -> & ? & ? & ? & ? & ?). exists m, e, sgn, (ds ++ [c]).
    split_and!; auto using all_digits_snoc; [|by destruct ds].
    rewrite <- app_assoc. cbn [app]. by rewrite <- app_assoc.
Qed.

Lemma run_desc p : ∀ st, run fstep FStart p = Some st → fdesc st p.
Proof.
  induction p as [|c p IH] using rev_ind; intros st Hr; [cbn in Hr; by simplify_eq|].
  rewrite run_app in Hr. destruct (run fstep FStart p) as [st1|]; [|done]. cbn in Hr.
  specialize (IH st1 eq_refl). destruct (fstep st1 c) as [st2|] eqn:E; [|done]. injection Hr as <-.
  destruct (is_digit c) eqn:Ed.
  { rewrite fstep_digit in E by done. injection E as <-. by apply fdesc_digit. }
  assert (Hd0 : all_digits []) by constructor.
  assert (Hs0 : opt_sign []) by (by left).
  unfold fstep in E. rewrite Ed in E. destruct (is_sign c) eqn:Es.
  - apply sign_cases in Es. destruct st1; simplify_eq; cbn in *.
    + subst p. unfold opt_sign. destruct Es as [->| ->]; auto.
    + destruct IH as (m & e & ? & ? & ->). exists m, e, [c]. rewrite <- app_assoc.
      split_and!; try done. unfold opt_sign. destruct Es as [->| ->]; auto.
  - destruct (is_dot c) eqn:Edot.
    + apply Z.eqb_eq in Edot as ->. destruct st1; simplify_eq; cbn in *.
      * subst p. by exists [].
      * by exists p.
      * destruct IH as (sgn & ip & ? & ? & ? & ->). exists sgn, ip, []. rewrite <- app_assoc.
        split_and!; try done. by rewrite app_nil_r.
    + destruct (is_e c) eqn:Ee; [|done].
      assert (mantissa_lit p ∧ st2 = FExp) as [Hm ->].
      { destruct st1; simplify_eq; cbn in *; (split; [|done]).
        - destruct IH as (sgn & ip & ? & ? & ? & ->). exists sgn, ip, []. rewrite app_nil_r.
          split_and!; auto.
        - destruct IH as (sgn & ip & fp & ? & ? & ? & ? & ->). exists sgn, ip, fp. split_and!; auto. }
      by exists p, c.
Qed.

Lemma float_accepts s : accepts fstep facc FStart s ↔ float_lit s.
Proof.
  split.
  - intros (st & Hr & Ha). apply run_desc in Hr. destruct st; try discriminate Ha; cbn in Hr.
    + left. destruct Hr as (sgn & ip & ? & ? & ? & ->). exists sgn, ip, []. rewrite app_nil_r.
      split_and!; auto. constructor.
    + left. destruct Hr as (sgn & ip & fp & ? & ? & ? & ? & ->). exists sgn, ip, fp. split_and!; auto.
    + right. destruct Hr as (m & e & sgn & ds & -> & ?). exists m, e, sgn, ds. tauto.
  - intros [Hm|(m & e & sgn & ds & -> & Hm & He & Hs & Hd & Hne)].
    + destruct (run_mantissa s Hm); eexists; eauto.
    + exists FExpDigits. split; [|done]. rewrite run_app.
      assert (run fstep FStart m ≫= (λ st, run fstep st ([e] ++ sgn ++ ds))
              = run fstep FExp (sgn ++ ds)) as ->.
      { destruct (run_mantissa m Hm) as [-> | ->]; cbn; by rewrite fstep_e. }
      rewrite run_app, run_sign by auto. cbn. rewrite run_digits by done.
      rewrite decide_False by done. by case_decide.
Qed.

(** The integer scan: the same states, without dot and exponent. *)
Definition istep (st : fstate) (c : Z) : option fstate :=
  if is_sign c then match st with FStart => Some FSigned | _ => None end
  else if is_digit c then Some FInt else None.
Definition iacc (st : fstate) : bool := match st with FInt => true | _ => false end.

Lemma int_scan_longest s : ∀ st i valid, (i = 0%nat ↔ st = FStart) →
  int_scan s i valid = longest istep iacc st s i valid.
Proof.
  induction s as [|c s IH]; intros st i v Hi; [done|]. cbn [int_scan longest].
  unfold istep at 1. pose proof (char_class c) as [Hd _].
  destruct (is_sign c) eqn:Es, (is_digit c) eqn:Ed; try (by destruct Hd).
  - destruct (Nat.eqb_spec i 0) as [E|E]; cbn [andb].
    + rewrite (proj1 Hi E). by apply IH.
    + destruct st; try done. destruct (E (proj2 Hi eq_refl)).
  - apply IH. by split.
  - done.
Qed.

Lemma run_int_digits st ds : all_digits ds →
  run istep st ds = Some (if decide (ds = []) then st else FInt).
Proof.
  intros H. revert st. induction H as [|c ds Hc _ IH]; intros st; [done|]. cbn [run].
  assert (istep st c = Some FInt) as ->.
  { unfold istep. rewrite Hc. by destruct (proj1 (char_class c) Hc) as (-> & _). }
  cbn. rewrite IH. by case_decide.
Qed.

Lemma run_int_desc p : ∀ st, run istep FStart p = Some st →
  match st with FStart => p = [] | FSigned => opt_sign p | FInt => int_lit p | _ => False end.
Proof.
  induction p as [|c p IH] using rev_ind; intros st Hr; [cbn in Hr; by simplify_eq|].
  rewrite run_app in Hr. destruct (run istep FStart p) as [st1|]; [|done]. cbn in Hr.
  specialize (IH st1 eq_refl). destruct (istep st1 c) as [st2|] eqn:E; [|done]. injection Hr as <-.
  unfold istep in E. destruct (is_sign c) eqn:Es.
  - apply sign_cases in Es. destruct st1; simplify_eq. destruct Es as [->| ->]; cbn; [right; by left|by right; right].
  - destruct (is_digit c) eqn:Ed; [|done]. injection E as <-.
    assert (Hone : all_digits [c]) by (by constructor).
    destruct st1; try done.
    + subst. exists [], [c]. split_and!; try done. by left.
    + by exists p, [c].
    + destruct IH as (sgn & ds & -> & ? & ? & ?). exists sgn, (ds ++ [c]). rewrite <- app_assoc.
      split_and!; auto using all_digits_snoc. by destruct ds.
Qed.

Lemma int_accepts s : accepts istep iacc FStart s ↔ int_lit s.
Proof.
  split.
  - intros (st & Hr & Ha). apply run_int_desc in Hr. by destruct st.
  - intros (sgn & ds & -> & Hs & Hd & Hne). exists FInt. split; [|done]. rewrite run_app.
    assert (∃ st, run istep FStart sgn = Some st) as [st ->] by (destruct Hs as [->|[->| ->]]; by eexists).
    cbn. rewrite run_int_digits by done. by rewrite decide_False by done.
Qed.

(** ** What the scans return *)

(** [o] is the longest prefix of [s] in the language [L], if there is one. *)
Definition longest_prefix (L : list Z → Prop) (s : list Z) (o : option (list Z)) : Prop :=
  match o with
  | Some p => L p ∧ p `prefix_of` s ∧ ∀ q, q `prefix_of` s → L q → q `prefix_of` p
  | None => ∀ q, q `prefix_of` s → ¬ L q
  end.

Lemma longest_prefix_scan {S} (step : S → Z → option S) acc st L s :
  acc st = false → (∀ s, accepts step acc st s ↔ L s) →
  let n := longest step acc st s 0 0 in
  longest_prefix L s (if (n =? 0)%nat then None else Some (take n s)) ∧ (n <= length s)%nat.
Proof.
  intros Hst HL. destruct (longest_spec step acc s st 0 0) as [ [-> Hno]|(k & Hk & -> & Ha & Hmax)];
    cbn zeta; cbn [Nat.add].
  - cbn. split; [|lia]. intros q [r Hr] Hq%HL.
    destruct (decide (q = [])) as [->|Hne].
    + destruct Hq as (st' & [= <-] & Ha). congruence.
    + apply (Hno (length q)); [subst; rewrite length_app; destruct q; cbn in *; done || lia|].
      by rewrite Hr, take_app_length.
  - destruct (Nat.eqb_spec k 0); [lia|]. cbn. split; [|lia]. split; [by apply HL|].
    split; [apply prefix_take|]. intros q [r ->] Hq%HL.
    assert (length q <= k)%nat.
    { apply Hmax; [rewrite length_app; lia|]. by rewrite take_app_length. }
    exists (take (k - length q) r). rewrite take_app. by rewrite (take_ge q) by lia.
Qed.

(** The result of a scan under the context's truncation flags: the prefix, "0" when
    there is none, and a truncation unless the whole text was read. *)
Definition scanned (s : list Z) (o : option (list Z)) (ctx : EvalContext)
  : outcome (result (list Z) * EvalContext) :=
  let p := default [48] o in
  if decide (o = Some s) then Ret (Ok p, ctx)
  else match handle_truncate_err ctx truncated_wrong_val with
       | (Ok _, ctx) => Ret (Ok p, ctx)
       | (Err e, ctx) => Ret (Err e, ctx)
       end.

Lemma scanned_spec s n ctx : (n <= length s)%nat →
  (_ ← (if (n =? 0)%nat || (n <? length s)%nat
        then handler (fun ctx => handle_truncate_err ctx truncated_wrong_val) else mret tt);
   mret (if (n =? 0)%nat then [48] else take n s)) ctx
  = scanned s (if (n =? 0)%nat then None else Some (take n s)) ctx.
Proof.
  intros Hn. unfold scanned, handler. destruct (Nat.eqb_spec n 0) as [->|]; cbn [orb default].
  - rewrite decide_False by done. unfold mbind, evalM_bind.
    by destruct (handle_truncate_err ctx truncated_wrong_val) as [ [] ?].
  - destruct (Nat.ltb_spec n (length s)).
    + rewrite decide_False.
      * unfold mbind, evalM_bind. by destruct (handle_truncate_err ctx truncated_wrong_val) as [ [] ?].
      * intros [= E]. apply (f_equal length) in E. rewrite length_take in E. lia.
    + rewrite take_ge by lia. by rewrite decide_True by done.
Qed.

(** [get_valid_float_prefix] returns the longest prefix of the text that is a
    float literal of the grammar [sign? digits (. digits)? ((e|E) sign? digits)?]
    (a digit before the exponent, in either part), or "0" when there is none; unless
    the whole text is one, the truncation is raised as the context's flags say. *)
Theorem float_prefix_longest s ctx : ∃ o,
  longest_prefix float_lit s o ∧ get_valid_float_prefix s ctx = scanned s o ctx.
Proof.
  unfold get_valid_float_prefix. cbv zeta. rewrite (float_scan_longest s FStart) by done.
  destruct (longest_prefix_scan fstep facc FStart float_lit s eq_refl float_accepts) as [H1 H2].
  eexists. split; [exact H1|]. by apply scanned_spec.
Qed.

(** In a select statement [get_valid_int_prefix] returns the longest prefix of
    the text that is an optionally signed run of digits, or "0" when there is none,
    with the truncation raised unless the whole text is one. *)
Theorem int_prefix_longest f s ctx : has_flag ctx IN_SELECT_STMT = true → ∃ o,
  longest_prefix int_lit s o ∧ get_valid_int_prefix f s ctx = scanned s o ctx.
Proof.
  intros Hsel. unfold get_valid_int_prefix.
  destruct (longest_prefix_scan istep iacc FStart int_lit s eq_refl int_accepts) as [H1 H2].
  eexists. split; [exact H1|]. rewrite <- scanned_spec by done.
  unfold pure_ctx. unfold mbind at 1, evalM_bind at 1. rewrite Hsel. cbn [negb].
  rewrite (int_scan_longest s FStart) by done. cbv zeta.
  destruct (Nat.eqb_spec (longest istep iacc FStart s 0 0) 0) as [->|Hn]; [done|].
  rewrite bool_decide_eq_false_2; [done|]. destruct s; [by cbn in Hn|].
  by destruct (longest istep iacc FStart (z :: s) 0 0).
Qed.

(** ** Rounding an integer text *)

Lemma rfind_non_nine_spec s : ∀ i,
  match rfind_non_nine s i with
  | None => Forall (λ c, c = 57 ∨ is_sign c = true) s
  | Some j => ∃ a c b, s = a ++ c :: b ∧ j = (i + length a)%nat ∧ c ≠ 57 ∧ is_sign c = false
      ∧ Forall (λ c, c = 57 ∨ is_sign c = true) b
  end.
Proof.
  induction s as [|c s IH]; intros i; cbn; [done|]. specialize (IH (S i)).
  destruct (rfind_non_nine s (S i)) as [j|].
  - destruct IH as (a & c' & b & -> & -> & ?). exists (c :: a), c', b. cbn. split; [done|]. split; [lia|done].
  - destruct (Z.eqb_spec c 57), (is_sign c) eqn:Es; cbn; try (constructor; auto; fail).
    exists [], c, s. cbn. split; [done|]. split; [lia|done].
Qed.

Lemma digits_val_app_ds a b : digits_val (a ++ b) = digits_val a * 10 ^ Z.of_nat (length b) + digits_val b.
Proof. unfold digits_val. rewrite map_app, wval_app, length_map. done. Qed.

Lemma digits_val_zeros n : digits_val (replicate n 48) = 0.
Proof.
  unfold digits_val. rewrite fmap_replicate || rewrite map_replicate. 
  induction n as [|n IH]; [done|]. exact IH.
Qed.

Lemma digits_val_nines n : digits_val (replicate n 57) + 1 = 10 ^ Z.of_nat n.
Proof.
  induction n as [|n IH]; [done|]. rewrite replicate_S_end, digits_val_app_ds.
  rewrite Nat2Z.inj_succ, Z.pow_succ_r by lia. cbn. change (digits_val [57]) with 9. lia.
Qed.

Lemma nines_only ds : all_digits ds → Forall (λ c, c = 57 ∨ is_sign c = true) ds →
  ds = replicate (length ds) 57.
Proof.
  induction 1 as [|c ds Hc _ IH]; intros Hn; [done|]. apply Forall_cons_1 in Hn as [Hn Hn'].
  cbn. f_equal; [|by apply IH]. destruct Hn as [|Hs]; [done|].
  destruct (proj1 (char_class c) Hc) as (E & _). congruence.
Qed.

Lemma all_digits_zeros n : all_digits (replicate n 48).
Proof. by apply Forall_replicate. Qed.

(** [round_int_str] on an integer text keeps its sign and gives digits that denote
    the magnitude unchanged when the digit after the point is below 5, and the next
    magnitude otherwise, carries included ("-999" becomes "-1000"). *)
Theorem round_int_str_exact c sgn ds : opt_sign sgn → all_digits ds → ds ≠ [] →
  ∃ ds', round_int_str c (sgn ++ ds) = Ret (sgn ++ ds') ∧ all_digits ds'
    ∧ digits_val ds' = digits_val ds + (if c <? 53 then 0 else 1).
Proof.
  intros Hs Hd Hne. unfold round_int_str. destruct (Z.ltb_spec c 53).
  { exists ds. by rewrite Z.add_0_r. }
  pose proof (rfind_non_nine_spec (sgn ++ ds) 0) as Hr.
  destruct (rfind_non_nine (sgn ++ ds) 0) as [j|].
  - destruct Hr as (a & x & b & E & -> & Hx & Hxs & Hb). cbn [Nat.add].
    assert (∃ a', a = sgn ++ a' ∧ ds = a' ++ x :: b) as (a' & -> & ->).
    { destruct Hs as [->|[->| ->]]; cbn in E; [by exists a| |];
        (destruct a as [|s0 a]; cbn in E; [injection E as <- _; by cbn in Hxs|];
         injection E as <- ->; by exists a). }
    apply Forall_app in Hd as [Ha [Hxd Hbd]%Forall_cons_1].
    rewrite E, get_mid by done. bindr.
    pose proof Hxd as Hx9. unfold is_digit in Hx9. rewrite andb_true_iff, !Z.leb_le in Hx9.
    rewrite u8_ok by lia. bindr. exists (a' ++ [x + 1] ++ replicate (length b) 48).
    rewrite take_app_length. split.
    { rewrite <- app_assoc. repeat f_equal. rewrite (length_app _ (x :: b)). cbn. lia. }
    split.
    + apply Forall_app_2; [done|]. apply Forall_app_2; [|apply all_digits_zeros].
      constructor; [|done]. unfold is_digit. rewrite andb_true_iff, !Z.leb_le. lia.
    + rewrite (nines_only b) by done. pose proof (digits_val_nines (length b)) as Hn.
      change (x :: replicate (length b) 57) with ([x] ++ replicate (length b) 57).
      rewrite !digits_val_app_ds, digits_val_zeros, !length_app, !length_replicate.
      assert (∀ y, digits_val [y] = y - 48) as Hone by (intros; unfold digits_val, wval; cbn; lia).
      rewrite !Hone. cbn [length]. lia.
  - apply Forall_app in Hr as [_ Hr]. rewrite (nines_only ds) by done.
    exists (49 :: replicate (length ds) 48). split; [|split].
    + destruct Hs as [->|[->| ->]]; cbn [app]; [|by cbn; rewrite length_replicate..].
      destruct ds as [|d ds]; [done|]. cbn. by rewrite length_replicate.
    + constructor; [done|]. apply all_digits_zeros.
    + pose proof (digits_val_nines (length ds)).
      change (49 :: replicate (length ds) 48) with ([49] ++ replicate (length ds) 48).
      rewrite digits_val_app_ds, digits_val_zeros, length_replicate. change (digits_val [49]) with 1. lia.
Qed.

(** ** Witnesses *)

(** "-999": rounding up carries into a new digit. *)
Lemma round_int_str_exact_witness :
  round_int_str 53 ([45] ++ [57; 57; 57]) = Ret [45; 49; 48; 48; 48] ∧
  ∃ ds', round_int_str 53 ([45] ++ [57; 57; 57]) = Ret ([45] ++ ds') ∧ all_digits ds'
    ∧ digits_val ds' = digits_val [57; 57; 57] + 1.
Proof.
  split; [by vm_compute|].
  apply (round_int_str_exact 53 [45] [57; 57; 57]); [by right; right|by repeat constructor|done].
Defined.

(** "+12a" in a select statement. *)
Lemma int_prefix_longest_witness :
  let ctx := EvalContext_new (mkPolicyGradient IN_SELECT_STMT 64 0) in
  has_flag ctx IN_SELECT_STMT = true ∧ ∃ o,
  longest_prefix int_lit [43; 49; 50; 97] o
  ∧ get_valid_int_prefix (λ s, mret s) [43; 49; 50; 97] ctx = scanned [43; 49; 50; 97] o ctx.
Proof.
  intros ctx. assert (H : has_flag ctx IN_SELECT_STMT = true) by (by vm_compute).
  split; [exact H|]. exact (int_prefix_longest (λ s, mret s) [43; 49; 50; 97] ctx H).
Defined.

(** "-1.5e+3x" and "1e" in the default context. *)
Example float_prefix_examples :
  float_scan [45; 49; 46; 53; 101; 43; 51; 120] 0 false false 0 0 = 7%nat
  ∧ float_scan [49; 101] 0 false false 0 0 = 1%nat
  ∧ float_scan [46] 0 false false 0 0 = 0%nat
  ∧ float_scan [46; 53] 0 false false 0 0 = 2%nat.
Proof. by vm_compute. Qed.
