(* ===== verification/Order.v ===== *)
(** * Order: comparison functions

    What [Ord::cmp] promises, value by value, so that the promise can be carried through
    nested containers by induction; the lexicographic comparisons of slices and of
    tuples. *)
From Stdlib Require Import ZArith Lia.
From stdpp Require Import base list numbers.
From S2P Require Import Prelude Slice.
#[local] Open Scope Z_scope.

(** ** Laws *)

Record lawful_at {A} (cmp : A → A → comparison) (x : A) : Prop := {
  at_antisym : ∀ y, cmp y x = CompOpp (cmp x y);
  at_eq_l : ∀ y z, cmp x y = Eq → cmp x z = cmp y z;
  at_eq_r : ∀ y z, cmp y z = Eq → cmp x y = cmp x z;
  at_lt : ∀ y z, cmp x y = Lt → cmp y z = Lt → cmp x z = Lt;
  at_gt : ∀ y z, cmp x y = Gt → cmp y z = Gt → cmp x z = Gt;
}.

(** A total preorder. *)
Class LawfulCmp {A} (cmp : A → A → comparison) : Prop := lawful : ∀ x, lawful_at cmp x.

Lemma lawful_refl {A} (cmp : A → A → comparison) `{!LawfulCmp cmp} x : cmp x x = Eq.
Proof. pose proof (at_antisym _ _ (lawful x) x) as H. by destruct (cmp x x). Qed.

Lemma lawful_trans {A} (cmp : A → A → comparison) `{!LawfulCmp cmp} x y z c :
  cmp x y = c → cmp y z = c → cmp x z = c.
Proof.
  intros H1 H2. destruct c.
  - by rewrite (at_eq_l _ _ (lawful x) y z).
  - by apply (at_lt _ _ (lawful x) y z).
  - by apply (at_gt _ _ (lawful x) y z).
Qed.

(** The laws from antisymmetry, transitivity and the meaning of [Eq]. *)
Lemma lawful_eq {A} (cmp : A → A → comparison) :
  (∀ x y, cmp y x = CompOpp (cmp x y)) → (∀ x y, cmp x y = Eq → x = y) →
  (∀ x y z, cmp x y = Lt → cmp y z = Lt → cmp x z = Lt) → LawfulCmp cmp.
Proof.
  intros Ha He Ht x. split; [auto| | |eauto|].
  - by intros y z ->%He.
  - by intros y z ->%He.
  - intros y z H1 H2. rewrite (Ha z x), (Ht z y x); [done| |]; [by rewrite (Ha y z), H2|by rewrite (Ha x y), H1].
Qed.

(** Opposite comparisons, and comparisons of keys. *)
Lemma lawful_opp {A} (cmp : A → A → comparison) x : lawful_at cmp x → lawful_at (λ a b, CompOpp (cmp a b)) x.
Proof.
  intros [Ha El Er Hl Hg]. split.
  - intros y. by rewrite Ha.
  - intros y z H. apply CompOpp_iff in H. by rewrite (El y z).
  - intros y z H. apply CompOpp_iff in H. by rewrite (Er y z).
  - intros y z. rewrite !CompOpp_iff. apply Hg.
  - intros y z. rewrite !CompOpp_iff. apply Hl.
Qed.

#[export] Instance lawful_key {A B} (f : A → B) (cmp : B → B → comparison) :
  LawfulCmp cmp → LawfulCmp (λ x y, cmp (f x) (f y)).
Proof. intros H x. destruct (H (f x)). split; eauto. Qed.

#[export] Instance lawful_Z : LawfulCmp Z.compare.
Proof.
  apply lawful_eq.
  - apply Z.compare_antisym.
  - apply Z.compare_eq.
  - intros x y z. rewrite !Z.compare_lt_iff. lia.
Qed.

#[export] Instance lawful_bytes : LawfulCmp bytes_cmp.
Proof.
  apply lawful_eq.
  - apply bytes_cmp_antisym.
  - intros x y. apply bytes_cmp_eq.
  - apply bytes_lt_trans.
Qed.

(** ** Booleans *)

Definition bool_cmp (a b : bool) : comparison :=
  match a, b with false, true => Lt | true, false => Gt | _, _ => Eq end.

#[export] Instance lawful_bool : LawfulCmp bool_cmp.
Proof. apply lawful_eq; [by intros [] []|by intros [] []|by intros [] [] []]. Qed.

(** ** Tuples and slices *)

Definition then_cmp (a b : comparison) : comparison := match a with Eq => b | _ => a end.

Definition pair_cmp {A B} (ca : A → A → comparison) (cb : B → B → comparison) (x y : A * B) : comparison :=
  then_cmp (ca x.1 y.1) (cb x.2 y.2).

Fixpoint list_cmp {A} (cmp : A → A → comparison) (l r : list A) : comparison :=
  match l, r with
  | [], [] => Eq
  | [], _ => Lt
  | _, [] => Gt
  | x :: l, y :: r => then_cmp (cmp x y) (list_cmp cmp l r)
  end.

Lemma then_opp a b : CompOpp (then_cmp a b) = then_cmp (CompOpp a) (CompOpp b).
Proof. by destruct a. Qed.

Lemma then_Eq a b : then_cmp a b = Eq ↔ a = Eq ∧ b = Eq.
Proof. destruct a; naive_solver. Qed.

(** The step common to tuples and slices: first one part, then the rest. *)
Lemma then_lawful {A B C} (ca : A → A → comparison) (cb : B → B → comparison) (cc : C → C → comparison)
    (h : A → B → C) a b :
  (∀ a b a' b', cc (h a b) (h a' b') = then_cmp (ca a a') (cb b b')) →
  lawful_at ca a → lawful_at cb b →
  (∀ a' b', cc (h a' b') (h a b) = CompOpp (cc (h a b) (h a' b')))
  ∧ (∀ a1 b1 a2 b2, cc (h a b) (h a1 b1) = Eq → cc (h a b) (h a2 b2) = cc (h a1 b1) (h a2 b2))
  ∧ (∀ a1 b1 a2 b2, cc (h a1 b1) (h a2 b2) = Eq → cc (h a b) (h a1 b1) = cc (h a b) (h a2 b2))
  ∧ (∀ a1 b1 a2 b2, cc (h a b) (h a1 b1) = Lt → cc (h a1 b1) (h a2 b2) = Lt → cc (h a b) (h a2 b2) = Lt)
  ∧ (∀ a1 b1 a2 b2, cc (h a b) (h a1 b1) = Gt → cc (h a1 b1) (h a2 b2) = Gt → cc (h a b) (h a2 b2) = Gt).
Proof.
  intros E [Aa La Ra Ta Ga] [Ab Lb Rb Tb Gb]. split_and!; intros *; rewrite ?E.
  - by rewrite then_opp, Aa, Ab.
  - intros [H1 H2]%then_Eq. by rewrite (La _ a2 H1), (Lb _ b2 H2).
  - intros [H1 H2]%then_Eq. by rewrite (Ra _ _ H1), (Rb _ _ H2).
  - destruct (ca a a1) eqn:E1; cbn; intros H1 H2; try discriminate.
    + rewrite (La _ a2 E1). destruct (ca a1 a2); cbn in *; eauto.
    + destruct (ca a1 a2) eqn:E2; cbn in *; try discriminate.
      * by rewrite <- (Ra _ _ E2), E1.
      * by rewrite (Ta _ _ E1 E2).
  - destruct (ca a a1) eqn:E1; cbn; intros H1 H2; try discriminate.
    + rewrite (La _ a2 E1). destruct (ca a1 a2); cbn in *; eauto.
    + destruct (ca a1 a2) eqn:E2; cbn in *; try discriminate.
      * by rewrite <- (Ra _ _ E2), E1.
      * by rewrite (Ga _ _ E1 E2).
Qed.

Lemma pair_lawful {A B} (ca : A → A → comparison) (cb : B → B → comparison) p :
  lawful_at ca p.1 → lawful_at cb p.2 → lawful_at (pair_cmp ca cb) p.
Proof.
  intros Ha Hb. destruct p as [a b].
  destruct (then_lawful ca cb (pair_cmp ca cb) pair a b ltac:(done) Ha Hb) as (H1 & H2 & H3 & H4 & H5).
  split; repeat intros [? ?]; eauto.
Qed.

#[export] Instance lawful_pair {A B} (ca : A → A → comparison) (cb : B → B → comparison) :
  LawfulCmp ca → LawfulCmp cb → LawfulCmp (pair_cmp ca cb).
Proof. intros Ha Hb p. by apply pair_lawful. Qed.

Lemma list_lawful {A} (cmp : A → A → comparison) l : Forall (lawful_at cmp) l → lawful_at (list_cmp cmp) l.
Proof.
  induction 1 as [|x l Hx _ IH].
  - split; repeat intros [|? ?]; cbn; done.
  - destruct (then_lawful cmp (list_cmp cmp) (list_cmp cmp) cons x l ltac:(done) Hx IH) as (H1 & H2 & H3 & H4 & H5).
    split.
    + intros [|y m]; [done|]. apply H1.
    + intros [|y m] [|z n]; try done. apply H2.
    + intros [|y m] [|z n]; try done. apply H3.
    + intros [|y m] [|z n]; try done. apply H4.
    + intros [|y m] [|z n]; try done. apply H5.
Qed.

#[export] Instance lawful_list {A} (cmp : A → A → comparison) : LawfulCmp cmp → LawfulCmp (list_cmp cmp).
Proof. intros H l. apply list_lawful, Forall_forall. auto. Qed.
