(* ===== verification/Shelling.v ===== *)
(** * Shelling: namespaces, symbols and keywords

    [einstein_ml/isolated_namespace.rs] and [einsteindb-server/src/shellings.rs].  Text
    is its bytes.  The methods of [IsolatedNamespace] read a string [components] and the
    position [boundary] of the slash in it, which is 0 when there is no namespace; the
    struct is declared without the string.  The type below is those two fields, with
    what [boundary] says of the string, and the proof that the order of namespaces never
    slices out of range and is a total order follows from it.  The constructors
    [plain] and [isoliton_namespaceable] and the accessors [name] and
    [isolate_namespace_file] are not written out in the repository: they are the class
    [NamespaceOps], with what the tests of the file say of them as laws. *)
From Stdlib Require Import ZArith Lia.
From stdpp Require Import base list numbers countable.
From S2P Require Import Prelude Slice Order.
#[local] Open Scope Z_scope.

#[local] Notation zlen l := (Z.of_nat (length l)).

Definition UNDERSCORE : Z := 95.
Definition QUESTION : Z := 63.
Definition DOLLAR : Z := 36.
Definition SLASH : Z := 47.
Definition COLON : Z := 58.

(** [str::starts_with(char)], for a character of one byte. *)
Definition starts_with (s : list Z) (c : Z) : bool := match s with [] => false | x :: _ => x =? c end.

(** ** Namespaces *)

Definition valid_namespace (components : list Z) (boundary : Z) : bool :=
  if boundary =? 0 then bool_decide (components ≠ [])
  else (0 <? boundary) && bool_decide (components !! Z.to_nat boundary = Some SLASH)
       && (boundary + 1 <? zlen components).

Record IsolatedNamespace := mkNamespace {
  ns_components : list Z;
  ns_boundary : Z;
  ns_valid : Is_true (valid_namespace ns_components ns_boundary);
}.

Definition is_namespace_isolate (s : IsolatedNamespace) : bool := 0 <? ns_boundary s.

Definition components (s : IsolatedNamespace) : outcome (list Z * list Z) :=
  if 0 <? ns_boundary s then
    a ← slice (ns_components s) 0 (ns_boundary s);
    b ← slice_from (ns_components s) (ns_boundary s + 1);
    Ret (a, b)
  else
    a ← slice (ns_components s) 0 0;
    Ret (a, ns_components s).

Definition ns_partial_cmp (s o : IsolatedNamespace) : outcome (option comparison) :=
  match ns_boundary s, ns_boundary o with
  | 0, 0 => Ret (Some (bytes_cmp (ns_components s) (ns_components o)))
  | 0, _ => Ret (Some Lt)
  | _, 0 => Ret (Some Gt)
  | _, _ => a ← components s; b ← components o; Ret (Some (pair_cmp bytes_cmp bytes_cmp a b))
  end.

(** [Ord::cmp]; [ns_partial_cmp_exact] shows that the last line is never reached. *)
Definition ns_cmp (s o : IsolatedNamespace) : comparison :=
  match ns_partial_cmp s o with
  | Ret (Some c) => c
  | Ret None => Eq
  | Panic => Eq
  end.

Class NamespaceOps := {
  ns_plain : list Z → outcome IsolatedNamespace;
  isoliton_namespaceable : list Z → list Z → outcome IsolatedNamespace;
  ns_name : IsolatedNamespace → list Z;
  isolate_namespace_file : IsolatedNamespace → option (list Z);
}.

Class NamespaceLaws {NO : NamespaceOps} : Prop := {
  plain_empty : ns_plain [] = Panic;
  plain_named : ∀ n, n ≠ [] → ∃ s, ns_plain n = Ret s ∧ ns_components s = n ∧ ns_boundary s = 0;
  namespaceable_empty : ∀ ns n, ns = [] ∨ n = [] → isoliton_namespaceable ns n = Panic;
  namespaceable_named : ∀ ns n, ns ≠ [] → n ≠ [] → ∃ s, isoliton_namespaceable ns n = Ret s
    ∧ ns_components s = ns ++ SLASH :: n ∧ ns_boundary s = zlen ns;
  name_components : ∀ s p, components s = Ret p → ns_name s = p.2;
  file_components : ∀ s p, components s = Ret p →
    isolate_namespace_file s = if 0 <? ns_boundary s then Some p.1 else None;
}.

Section Namespace.
Context {NO : NamespaceOps}.

Definition ns_new (file : option (list Z)) (name : list Z) : outcome IsolatedNamespace :=
  match file with Some ns => isoliton_namespaceable ns name | None => ns_plain name end.

Definition ns_is_spacelike_completion (s : IsolatedNamespace) : bool := starts_with (ns_name s) UNDERSCORE.
Definition ns_is_lightlike_curvature (s : IsolatedNamespace) : bool := starts_with (ns_name s) UNDERSCORE.
Definition is_lightlike_completion (s : IsolatedNamespace) : bool := negb (ns_is_spacelike_completion s).

Definition ns_to_reversed (s : IsolatedNamespace) : outcome IsolatedNamespace :=
  let name := ns_name s in
  if starts_with name UNDERSCORE then
    rest ← slice_from name 1; ns_new (isolate_namespace_file s) rest
  else ns_new (isolate_namespace_file s) (UNDERSCORE :: name).

Definition is_isolated (s : IsolatedNamespace) : bool :=
  match isolate_namespace_file s with Some _ => true | None => false end.
Definition is_isolated_from (s o : IsolatedNamespace) : bool :=
  bool_decide (isolate_namespace_file s = isolate_namespace_file o).

(** [Deserialize]: from the namespace, when there is one, and the name. *)
Definition ns_deserialize (file : option (list Z)) (name : list Z) : outcome (option IsolatedNamespace) :=
  if bool_decide (name = []) then Ret None
  else match file with
       | Some ns =>
           if bool_decide (ns = []) then Ret None
           else s ← isoliton_namespaceable ns name; Ret (Some s)
       | None => s ← ns_plain name; Ret (Some s)
       end.
End Namespace.

(** ** Symbols and keywords *)

Record PlainShelling := mkPlain { plain_text : list Z }.
Record NamespacedShelling := mkNamespaced { namespaced_ns : IsolatedNamespace }.
Record Keyword := mkKeyword { keyword_ns : IsolatedNamespace }.

(** [PlainShelling::plain] *)
Definition shelling_plain (name : list Z) : outcome PlainShelling :=
  _ ← guardM (negb (bool_decide (name = []))); Ret (mkPlain name).

Definition is_var_shelling (s : PlainShelling) : bool := starts_with (plain_text s) QUESTION.
Definition is_src_shelling (s : PlainShelling) : bool := starts_with (plain_text s) DOLLAR.

(** [PlainShelling::name] *)
Definition shelling_name (s : PlainShelling) : outcome (list Z) :=
  if is_src_shelling s || is_var_shelling s then slice_from (plain_text s) 1 else Ret (plain_text s).

Section Keywords.
Context {NO : NamespaceOps}.

Definition namespaced_isolate_namespace (ns name : list Z) : outcome NamespacedShelling :=
  _ ← guardM (negb (bool_decide (ns = []))); s ← isoliton_namespaceable ns name; Ret (mkNamespaced s).

Definition keyword_plain (name : list Z) : outcome Keyword := s ← ns_plain name; Ret (mkKeyword s).
Definition keyword_isolate_namespace (ns name : list Z) : outcome Keyword :=
  _ ← guardM (negb (bool_decide (ns = []))); s ← isoliton_namespaceable ns name; Ret (mkKeyword s).

Definition keyword_name (k : Keyword) : list Z := ns_name (keyword_ns k).
Definition keyword_is_namespace_isolate (k : Keyword) : bool := is_namespace_isolate (keyword_ns k).
Definition is_spacelike_completion (k : Keyword) : bool := ns_is_spacelike_completion (keyword_ns k).
Definition is_lightlike_curvature (k : Keyword) : bool := ns_is_lightlike_curvature (keyword_ns k).
Definition to_reversed (k : Keyword) : outcome Keyword := s ← ns_to_reversed (keyword_ns k); Ret (mkKeyword s).
Definition unreversed (k : Keyword) : outcome (option Keyword) :=
  if is_spacelike_completion k then k' ← to_reversed k; Ret (Some k') else Ret None.
End Keywords.

(** [Display]: a keyword has a colon before it. *)
Definition ns_display (s : IsolatedNamespace) : list Z := ns_components s.
Definition keyword_display (k : Keyword) : list Z := COLON :: ns_display (keyword_ns k).

(** The derived orders. *)
Definition plain_cmp (a b : PlainShelling) : comparison := bytes_cmp (plain_text a) (plain_text b).
Definition namespaced_cmp (a b : NamespacedShelling) : comparison := ns_cmp (namespaced_ns a) (namespaced_ns b).
Definition keyword_cmp (a b : Keyword) : comparison := ns_cmp (keyword_ns a) (keyword_ns b).

(** ** Equality *)

Lemma namespace_eq s o : ns_components s = ns_components o → ns_boundary s = ns_boundary o → s = o.
Proof. destruct s as [c b v], o as [c' b' v']; cbn. intros <- <-. f_equal. apply proof_irrel. Qed.

#[export] Instance IsolatedNamespace_eq_dec : EqDecision IsolatedNamespace.
Proof.
  intros s o. destruct (decide (ns_components s = ns_components o ∧ ns_boundary s = ns_boundary o)) as [[? ?]|H].
  - left. by apply namespace_eq.
  - right. intros ->. by apply H.
Defined.
#[export] Instance PlainShelling_eq_dec : EqDecision PlainShelling.
Proof. solve_decision. Defined.
#[export] Instance NamespacedShelling_eq_dec : EqDecision NamespacedShelling.
Proof. solve_decision. Defined.
#[export] Instance Keyword_eq_dec : EqDecision Keyword.
Proof. solve_decision. Defined.
#[export] Instance PlainShelling_countable : Countable PlainShelling.
Proof. by apply (inj_countable' plain_text mkPlain); intros []. Defined.

(** ** The parts of a namespace *)

(** The namespace, if any, and the name. *)
Definition ns_parts (s : IsolatedNamespace) : list Z * list Z :=
  if ns_boundary s =? 0 then ([], ns_components s)
  else (take (Z.to_nat (ns_boundary s)) (ns_components s), drop (S (Z.to_nat (ns_boundary s))) (ns_components s)).

Lemma ns_shape s :
  (ns_boundary s = 0 ∧ ns_components s ≠ [] ∧ ns_parts s = ([], ns_components s))
  ∨ ∃ a b, ns_parts s = (a, b) ∧ ns_components s = a ++ SLASH :: b ∧ ns_boundary s = zlen a ∧ a ≠ [] ∧ b ≠ [].
Proof.
  destruct s as [c b v]. cbn. pose proof v as H. unfold valid_namespace in H. unfold ns_parts. cbn.
  destruct (Z.eqb_spec b 0) as [->|Hb].
  - left. apply bool_decide_unpack in H. done.
  - right. apply Is_true_true, andb_prop in H as [ [H1 H2]%andb_prop H3]. apply bool_decide_eq_true in H2.
    apply Z.ltb_lt in H1, H3. eexists _, _. split; [done|]. rewrite (take_drop_middle _ _ _ H2).
    pose proof (lookup_lt_Some _ _ _ H2). split_and!; [done|rewrite length_take; lia|..];
      intros E%(f_equal length); rewrite ?length_take, ?length_drop in E; cbn in E; lia.
Qed.

Lemma components_parts s : components s = Ret (ns_parts s).
Proof.
  unfold components. destruct (ns_shape s) as [(Eb & _ & ->)|(a & b & -> & Ec & Eb & Ha & Hb)].
  - rewrite Eb. cbn [Z.ltb Z.compare]. unfold slice. cbn. destruct (0 <=? zlen _) eqn:E; [done|]. apply Z.leb_gt in E. lia.
  - rewrite Eb, Ec. assert (0 < zlen a) by (destruct a; [done|cbn; lia]). rewrite (proj2 (Z.ltb_lt _ _)) by done.
    rewrite (slice_mid [] a (SLASH :: b)) by done. cbn [mbind outcome_bind].
    change (a ++ SLASH :: b) with (a ++ [SLASH] ++ b). rewrite app_assoc, slice_from_mid by (rewrite length_app; cbn [length]; lia). done.
Qed.

Lemma parts_inj s o : ns_parts s = ns_parts o → s = o.
Proof.
  destruct (ns_shape s) as [(Eb & _ & ->)|(a & b & -> & Ec & Eb & Ha & Hb)];
    destruct (ns_shape o) as [(Eb' & _ & ->)|(a' & b' & -> & Ec' & Eb' & Ha' & Hb')]; intros E; simplify_eq;
    apply namespace_eq; congruence.
Qed.

(** ** The order *)

Definition ns_key (s : IsolatedNamespace) : bool * (list Z * list Z) := (is_namespace_isolate s, ns_parts s).

Lemma ns_partial_cmp_exact s o :
  ns_partial_cmp s o = Ret (Some (pair_cmp bool_cmp (pair_cmp bytes_cmp bytes_cmp) (ns_key s) (ns_key o))).
Proof.
  unfold ns_partial_cmp, ns_key, is_namespace_isolate. rewrite !components_parts.
  destruct (ns_shape s) as [(Eb & _ & Ep)|(a & b & Ep & Ec & Eb & Ha & Hb)]; rewrite Ep, Eb;
    destruct (ns_shape o) as [(Eb' & _ & Ep')|(a' & b' & Ep' & Ec' & Eb' & Ha' & Hb')]; rewrite Ep', Eb';
    cbn [mbind outcome_bind]; try (destruct a; [done|]); try (destruct a'; [done|]); done.
Qed.

#[export] Instance lawful_ns : LawfulCmp ns_cmp.
Proof.
  intros s. assert (∀ x y, ns_cmp x y = pair_cmp bool_cmp (pair_cmp bytes_cmp bytes_cmp) (ns_key x) (ns_key y)) as E.
  { intros x y. unfold ns_cmp. by rewrite ns_partial_cmp_exact. }
  pose proof (lawful_key ns_key (pair_cmp bool_cmp (pair_cmp bytes_cmp bytes_cmp)) _ s) as [H1 H2 H3 H4 H5].
  split; intros *; rewrite !E; eauto.
Qed.

Lemma ns_cmp_eq s o : ns_cmp s o = Eq ↔ s = o.
Proof.
  split; [|intros ->; apply lawful_refl; apply _]. unfold ns_cmp. rewrite ns_partial_cmp_exact. unfold pair_cmp, ns_key. cbn.
  intros [_ [H1 H2]%then_Eq]%then_Eq. apply bytes_cmp_eq in H1, H2. apply parts_inj. by apply injective_projections.
Qed.

(** ** Names and reversal *)

Section Laws.
Context {NO : NamespaceOps} {NL : NamespaceLaws}.

Lemma ns_name_parts s : ns_name s = (ns_parts s).2.
Proof. apply name_components, components_parts. Qed.

Lemma ns_file_parts s :
  isolate_namespace_file s = if 0 <? ns_boundary s then Some (ns_parts s).1 else None.
Proof. apply file_components, components_parts. Qed.

Lemma ns_name_nonempty s : ns_name s ≠ [].
Proof.
  rewrite ns_name_parts. by destruct (ns_shape s) as [(_ & ? & ->)|(a & b & -> & _ & _ & _ & ?)].
Qed.

Lemma ns_file_shape s : (isolate_namespace_file s = None ∧ ns_boundary s = 0)
  ∨ ∃ a, isolate_namespace_file s = Some a ∧ a ≠ [] ∧ ns_boundary s = zlen a ∧ (ns_parts s).1 = a.
Proof.
  rewrite ns_file_parts. destruct (ns_shape s) as [(Eb & _ & ->)|(a & b & -> & _ & Eb & Ha & _)]; rewrite Eb.
  - by left.
  - right. exists a. rewrite (proj2 (Z.ltb_lt 0 _)) by (destruct a; [done|cbn; lia]). done.
Qed.

(** A namespace is given by its two parts. *)
Lemma ns_same s o : isolate_namespace_file s = isolate_namespace_file o → ns_name s = ns_name o → s = o.
Proof.
  rewrite !ns_name_parts. intros Hf Hn. apply parts_inj, injective_projections; [|done].
  destruct (ns_file_shape s) as [[E B]|(a & E & _ & _ & P)], (ns_file_shape o) as [[E' B']|(a' & E' & _ & _ & P')];
    try congruence. unfold ns_parts. by rewrite B, B'.
Qed.

Lemma ns_new_parts file n : n ≠ [] → file ≠ Some [] → ∃ s, ns_new file n = Ret s
  ∧ isolate_namespace_file s = file ∧ ns_name s = n.
Proof.
  intros Hn Hf. destruct file as [a|]; cbn [ns_new].
  - assert (a ≠ []) as Ha by congruence.
    destruct (namespaceable_named a n Ha Hn) as (s' & -> & Ec & Eb). exists s'. split; [done|].
    assert (0 < zlen a) as Hlt by (destruct a; [done|cbn; lia]).
    rewrite ns_file_parts, ns_name_parts, Eb, (proj2 (Z.ltb_lt _ _)) by done. unfold ns_parts.
    rewrite Eb, (proj2 (Z.eqb_neq _ _)), Nat2Z.id, Ec by lia. cbn [fst snd]. rewrite take_app_length.
    change (SLASH :: n) with ([SLASH] ++ n). rewrite app_assoc, drop_app_length' by (rewrite length_app; cbn; lia). done.
  - destruct (plain_named n Hn) as (s' & -> & Ec & Eb). exists s'. split; [done|].
    rewrite ns_file_parts, ns_name_parts, Eb. unfold ns_parts. by rewrite Eb, Ec.
Qed.

Lemma ns_file_some s : isolate_namespace_file s ≠ Some [].
Proof. destruct (ns_file_shape s) as [[-> _]|(a & -> & ? & _)]; congruence. Qed.

Lemma ns_new_same s n : n ≠ [] → ∃ s', ns_new (isolate_namespace_file s) n = Ret s'
  ∧ isolate_namespace_file s' = isolate_namespace_file s ∧ ns_name s' = n.
Proof. intros Hn. apply ns_new_parts; [done|apply ns_file_some]. Qed.

Lemma ns_new_empty s : ns_new (isolate_namespace_file s) [] = Panic.
Proof.
  destruct (isolate_namespace_file s); cbn; [apply namespaceable_empty; auto|apply plain_empty].
Qed.

(** What reversal does to a name. *)
Definition flip_name (n : list Z) : list Z :=
  if starts_with n UNDERSCORE then tail n else UNDERSCORE :: n.

Lemma ns_to_reversed_flip s : ns_to_reversed s = ns_new (isolate_namespace_file s) (flip_name (ns_name s)).
Proof.
  unfold ns_to_reversed, flip_name. destruct (ns_name s) as [|x n] eqn:E; [by destruct (ns_name_nonempty s)|].
  destruct (starts_with (x :: n) UNDERSCORE); [|done]. change (x :: n) with ([x] ++ n).
  by rewrite slice_from_mid by done.
Qed.

Lemma ns_to_reversed_ok s : ns_name s ≠ [UNDERSCORE] → ∃ s', ns_to_reversed s = Ret s'
  ∧ isolate_namespace_file s' = isolate_namespace_file s ∧ ns_name s' = flip_name (ns_name s).
Proof.
  intros Hn. rewrite ns_to_reversed_flip. apply ns_new_same. unfold flip_name.
  pose proof (ns_name_nonempty s). destruct (ns_name s) as [|x [|y n]]; [done| |];
    cbn [starts_with]; destruct (Z.eqb_spec x UNDERSCORE) as [->|]; done.
Qed.

Lemma flip_twice n : n ≠ [] → flip_name (flip_name n) = n ↔ starts_with n UNDERSCORE && starts_with (tail n) UNDERSCORE = false.
Proof.
  intros Hn. destruct n as [|x n]; [done|]. unfold flip_name. cbn [starts_with tail].
  destruct (Z.eqb_spec x UNDERSCORE) as [->|Hx]; cbn [andb].
  - destruct (starts_with n UNDERSCORE) eqn:E; [|done].
    destruct n as [|y n]; [done|]. cbn [tail]. split; [|done]. intros E'%(f_equal length). cbn in E'. lia.
  - cbn [starts_with tail]. by rewrite Z.eqb_refl.
Qed.

Lemma to_reversed_ok k : keyword_name k ≠ [UNDERSCORE] → ∃ k', to_reversed k = Ret k'
  ∧ isolate_namespace_file (keyword_ns k') = isolate_namespace_file (keyword_ns k)
  ∧ keyword_name k' = flip_name (keyword_name k).
Proof.
  intros H. destruct (ns_to_reversed_ok (keyword_ns k) H) as (s' & E & Hf & Hn).
  exists (mkKeyword s'). unfold to_reversed. by rewrite E.
Qed.

Lemma keyword_same k o : isolate_namespace_file (keyword_ns k) = isolate_namespace_file (keyword_ns o) →
  keyword_name k = keyword_name o → k = o.
Proof. destruct k, o. cbn. intros Hf Hn. f_equal. by apply ns_same. Qed.

Lemma to_reversed_underscore k : keyword_name k = [UNDERSCORE] → to_reversed k = Panic.
Proof.
  intros H. unfold to_reversed. rewrite ns_to_reversed_flip. unfold keyword_name in H. rewrite H. cbn.
  by rewrite ns_new_empty.
Qed.

Lemma to_reversed_back k k' : to_reversed k = Ret k' →
  to_reversed k' = Ret k ↔ starts_with (keyword_name k) UNDERSCORE && starts_with (tail (keyword_name k)) UNDERSCORE = false.
Proof.
  intros E. destruct (decide (keyword_name k = [UNDERSCORE])) as [Hu|Hu].
  { by rewrite to_reversed_underscore in E. }
  destruct (to_reversed_ok k Hu) as (k1 & E1 & Hf & Hn). rewrite E1 in E. injection E as ->.
  rewrite <- flip_twice by apply ns_name_nonempty. rewrite <- Hn.
  destruct (decide (keyword_name k' = [UNDERSCORE])) as [Hu'|Hu'].
  - rewrite to_reversed_underscore by done. split; [done|]. rewrite Hu'. intros H. cbn in H.
    by destruct (ns_name_nonempty (keyword_ns k)).
  - destruct (to_reversed_ok k' Hu') as (k2 & -> & Hf2 & Hn2). rewrite <- Hn2. split; [by intros [= ->]|].
    intros H. f_equal. apply keyword_same; congruence.
Qed.

(** Deserializing a namespace gives an error exactly when the name, or the namespace
    that is there, is empty; it never panics, and otherwise gives the namespace with
    those parts.  What was serialized, by its parts, is read back. *)
Theorem deserialize_exact file n :
  (n = [] ∨ file = Some [] → ns_deserialize file n = Ret None)
  ∧ (n ≠ [] → file ≠ Some [] → ∃ s, ns_deserialize file n = Ret (Some s)
      ∧ isolate_namespace_file s = file ∧ ns_name s = n)
  ∧ ∀ s, ns_deserialize (isolate_namespace_file s) (ns_name s) = Ret (Some s).
Proof.
  assert (∀ file n, n ≠ [] → file ≠ Some [] → ns_deserialize file n = (s ← ns_new file n; Ret (Some s))) as E.
  { intros f m Hm Hf. unfold ns_deserialize. rewrite bool_decide_eq_false_2 by done. destruct f as [a|]; [|done].
    by rewrite bool_decide_eq_false_2 by congruence. }
  split_and!.
  - intros [->| ->]; [done|]. unfold ns_deserialize. by destruct (bool_decide (n = [])).
  - intros Hn Hf. rewrite E by done. destruct (ns_new_parts file n Hn Hf) as (s & -> & ? & ?). by exists s.
  - intros s. pose proof (ns_name_nonempty s) as Hn.
    pose proof (ns_file_some s) as Hf. rewrite E by done. destruct (ns_new_parts _ _ Hn Hf) as (s' & -> & Hf' & Hn'). cbn. do 2 f_equal. by apply ns_same.
Qed.

(** Reversing a keyword panics exactly on the name ["_"]; otherwise it keeps the
    namespace and takes a leading underscore off the name, or puts one there.
    Reversing again gives the keyword back exactly when its name does not begin with
    two underscores. *)
Theorem reversal_exact k :
  (keyword_name k = [UNDERSCORE] → to_reversed k = Panic)
  ∧ (keyword_name k ≠ [UNDERSCORE] → ∃ k', to_reversed k = Ret k'
      ∧ isolate_namespace_file (keyword_ns k') = isolate_namespace_file (keyword_ns k)
      ∧ keyword_name k' = flip_name (keyword_name k)
      ∧ (to_reversed k' = Ret k
         ↔ starts_with (keyword_name k) UNDERSCORE && starts_with (tail (keyword_name k)) UNDERSCORE = false)).
Proof.
  split; [apply to_reversed_underscore|]. intros H. destruct (to_reversed_ok k H) as (k' & E & Hf & Hn).
  exists k'. split_and!; [done..|]. by apply to_reversed_back.
Qed.
End Laws.
