(* ===== verification/EmlValue.v ===== *)
(** * EmlValue: the values of the query notation

    [allegro_poset/types.rs]: values, values with the positions they were read at, their
    kinds and their order.  One macro defines the methods of [Value] and of
    [kSpannedCausetValue]; here one type stands for both, with what the children carry
    beside their value as a parameter: nothing, or a [Span].  The macros match on
    constructors ([BigInteger], [Vector], ...) some of which the enums declare under
    other names; the ones matched on are modelled.

    Instants, UUIDs and ordered floats are types of other crates: the class
    [EmlAtoms], whose comparisons are total preorders.  A [BTreeSet] is its elements in
    order, a [BTreeMap] its entries. *)
From Stdlib Require Import ZArith Lia.
From stdpp Require Import base list numbers.
From S2P Require Import Prelude Slice Order Shelling.
#[local] Open Scope Z_scope.

#[local] Notation zlen l := (Z.of_nat (length l)).

(** ** What the other crates provide *)

Class EmlAtoms := {
  DateTime : Type;
  Uuid : Type;
  OrderedFloat : Type;
  dt_cmp : DateTime → DateTime → comparison;
  uuid_cmp : Uuid → Uuid → comparison;
  float_cmp : OrderedFloat → OrderedFloat → comparison;
  utc_timestamp : Z → Z → outcome DateTime;
  dt_timestamp : DateTime → Z;
  timestamp_subsec_micros : DateTime → Z;
  timestamp_subsec_millis : DateTime → Z;
}.

(** The seconds within which an instant can be built, on both sides of 1970. *)
Definition CHRONO_SECS : Z := 8000000000000.

Class EmlAtomsLaws {AT : EmlAtoms} : Prop := {
  dt_lawful :: LawfulCmp dt_cmp;
  uuid_lawful :: LawfulCmp uuid_cmp;
  float_lawful :: LawfulCmp float_cmp;
  timestamp_back : ∀ secs nanos, - CHRONO_SECS <= secs <= CHRONO_SECS → 0 <= nanos < 1000000000 →
    ∃ d, utc_timestamp secs nanos = Ret d ∧ dt_timestamp d = secs
         ∧ timestamp_subsec_micros d = nanos / 1000 ∧ timestamp_subsec_millis d = nanos / 1000000;
}.

(** [FromMicros], [ToMicros], [FromMillis], [ToMillis] *)
Section Instants.
Context {AT : EmlAtoms}.

Definition from_micros (ts : Z) : outcome DateTime :=
  nanos ← u32 (as_u32 (Z.abs (Z.rem ts 1000000)) * 1000);
  utc_timestamp (Z.quot ts 1000000) nanos.

Definition to_micros (d : DateTime) : outcome Z :=
  major ← i64 (dt_timestamp d * 1000000);
  i64 (major + timestamp_subsec_micros d).

Definition from_millis (ts : Z) : outcome DateTime :=
  nanos ← u32 (as_u32 (Z.abs (Z.rem ts 1000)) * 1000);
  utc_timestamp (Z.quot ts 1000) nanos.

Definition to_millis (d : DateTime) : outcome Z :=
  major ← i64 (dt_timestamp d * 1000);
  i64 (major + timestamp_subsec_millis d).
End Instants.

(** ** Values *)

Section Values.
Context {AT : EmlAtoms}.

Inductive Val (S : Type) :=
| Nil
| Boolean (b : bool)
| Integer (i : Z)
| Instant (d : DateTime)
| BigInteger (z : Z)
| Float (f : OrderedFloat)
| Text (s : list Z)
| Uuid_ (u : Uuid)
| PlainShelling_ (p : PlainShelling)
| NamespacedShelling_ (n : NamespacedShelling)
| Keyword_ (k : Keyword)
| Vector (l : list (S * Val S))
| List_ (l : list (S * Val S))
| Set_ (l : list (S * Val S))
| Map_ (l : list ((S * Val S) * (S * Val S))).
End Values.

Arguments Nil {AT S}. Arguments Boolean {AT S} b. Arguments Integer {AT S} i. Arguments Instant {AT S} d.
Arguments BigInteger {AT S} z. Arguments Float {AT S} f. Arguments Text {AT S} s. Arguments Uuid_ {AT S} u.
Arguments PlainShelling_ {AT S} p. Arguments NamespacedShelling_ {AT S} n. Arguments Keyword_ {AT S} k.
Arguments Vector {AT S} l. Arguments List_ {AT S} l. Arguments Set_ {AT S} l. Arguments Map_ {AT S} l.

Record Span := mkSpan { span_start : Z; span_end : Z }.

(** [Span::new]: positions are cast to 32 bits. *)
Definition Span_new (start end_ : Z) : Span := mkSpan (as_u32 start) (as_u32 end_).

Definition Value `{EmlAtoms} : Type := Val unit.
Definition kSpannedCausetValue `{EmlAtoms} : Type := Val Span.
Definition ValueAndSpan `{EmlAtoms} : Type := Span * Val Span.

(** [ValueAndSpan::new] *)
Definition ValueAndSpan_new `{EmlAtoms} (v : kSpannedCausetValue) (span : option Span) : ValueAndSpan :=
  (default (mkSpan 0 0) span, v).

Section Methods.
Context {AT : EmlAtoms} {S : Type}.
Implicit Types v : Val S.

Definition is_soliton_idword v : bool := match v with Keyword_ k => negb (keyword_is_namespace_isolate k) | _ => false end.
Definition is_namespace_isolate_soliton_idword v : bool :=
  match v with Keyword_ k => keyword_is_namespace_isolate k | _ => false end.
Definition as_soliton_idword v : option Keyword := match v with Keyword_ k => Some k | _ => None end.
Definition as_plain_soliton_idword v : option Keyword :=
  match v with Keyword_ k => if negb (keyword_is_namespace_isolate k) then Some k else None | _ => None end.
Definition as_isoliton_namespaceable_soliton_idword v : option Keyword :=
  match v with Keyword_ k => if keyword_is_namespace_isolate k then Some k else None | _ => None end.

Definition precedence v : Z :=
  match v with
  | Nil => 0
  | Boolean _ => 1
  | Integer _ => 2
  | BigInteger _ => 3
  | Float _ => 4
  | Instant _ => 5
  | Text _ => 6
  | Uuid_ _ => 7
  | PlainShelling_ _ => 8
  | NamespacedShelling_ _ => 9
  | Keyword_ k => if negb (keyword_is_namespace_isolate k) then 10 else 11
  | Vector _ => 12
  | List_ _ => 13
  | Set_ _ => 14
  | Map_ _ => 15
  end.

Definition is_collection v : bool :=
  match v with
  | Nil | Boolean _ | Integer _ | Instant _ | BigInteger _ | Float _ | Text _ | Uuid_ _
  | PlainShelling_ _ | NamespacedShelling_ _ | Keyword_ _ => false
  | Vector _ | List_ _ | Set_ _ | Map_ _ => true
  end.

Definition is_atom v : bool := negb (is_collection v).
Definition into_atom v : option (Val S) := if is_atom v then Some v else None.
Definition into_text v : option (list Z) := match v with Text s => Some s | _ => None end.

(** [def_common_causet_locale_ord!]: within a kind the other value comes first.
    [rec] compares children, which compare as their values do. *)
Definition ord_body (rec : Val S → Val S → comparison) (x y : Val S) : comparison :=
  let child (p q : S * Val S) := rec p.2 q.2 in
  match x, y with
  | Nil, Nil => Eq
  | Boolean a, Boolean b => bool_cmp b a
  | Integer a, Integer b => b ?= a
  | Instant a, Instant b => dt_cmp b a
  | BigInteger a, BigInteger b => b ?= a
  | Float a, Float b => float_cmp b a
  | Text a, Text b => bytes_cmp b a
  | Uuid_ a, Uuid_ b => uuid_cmp b a
  | PlainShelling_ a, PlainShelling_ b => plain_cmp b a
  | NamespacedShelling_ a, NamespacedShelling_ b => namespaced_cmp b a
  | Keyword_ a, Keyword_ b => keyword_cmp b a
  | Vector a, Vector b => list_cmp child b a
  | List_ a, List_ b => list_cmp child b a
  | Set_ a, Set_ b => list_cmp child b a
  | Map_ a, Map_ b => list_cmp (pair_cmp child child) b a
  | _, _ => precedence x ?= precedence y
  end.

Fixpoint ord_fuel (fuel : nat) (x y : Val S) : comparison :=
  match fuel with O => Eq | Datatypes.S fuel => ord_body (ord_fuel fuel) x y end.

(** How deep a value is: the comparison goes down in both values at once. *)
Fixpoint vdepth v : nat :=
  match v with
  | Vector l | List_ l | Set_ l => Datatypes.S (list_max (map (λ p, vdepth p.2) l))
  | Map_ l => Datatypes.S (list_max (map (λ p, Nat.max (vdepth p.1.2) (vdepth p.2.2)) l))
  | _ => O
  end.

(** [Ord::cmp] *)
Definition val_cmp (x y : Val S) : comparison := ord_fuel (Datatypes.S (Nat.min (vdepth x) (vdepth y))) x y.
End Methods.

(** [Ord for ValueAndSpan] *)
Definition spanned_cmp `{EmlAtoms} (x y : ValueAndSpan) : comparison := val_cmp x.2 y.2.

(** ** Dropping positions *)

(** Collecting into a [BTreeSet] and into a [BTreeMap]: an equal element is kept, an
    equal key keeps its place and takes the new value. *)
Fixpoint set_insert {A} (cmp : A → A → comparison) (x : A) (l : list A) : list A :=
  match l with
  | [] => [x]
  | y :: l' => match cmp x y with Lt => x :: l | Eq => l | Gt => y :: set_insert cmp x l' end
  end.

Fixpoint map_insert {A B} (cmp : A → A → comparison) (k : A) (v : B) (l : list (A * B)) : list (A * B) :=
  match l with
  | [] => [(k, v)]
  | (k', v') :: l' =>
      match cmp k k' with Lt => (k, v) :: l | Eq => (k', v) :: l' | Gt => (k', v') :: map_insert cmp k v l' end
  end.

Definition collect_set {A} (cmp : A → A → comparison) (l : list A) : list A :=
  fold_left (λ s x, set_insert cmp x s) l [].
Definition collect_map {A B} (cmp : A → A → comparison) (l : list (A * B)) : list (A * B) :=
  fold_left (λ s e, map_insert cmp e.1 e.2 s) l [].

Section Spans.
Context {AT : EmlAtoms}.

Definition child_cmp {S} (p q : S * Val S) : comparison := val_cmp p.2 q.2.

(** [From<kSpannedCausetValue> for Value] *)
Fixpoint without_spans (v : Val Span) : Val unit :=
  match v with
  | Nil => Nil
  | Boolean b => Boolean b
  | Integer i => Integer i
  | Instant d => Instant d
  | BigInteger z => BigInteger z
  | Float f => Float f
  | Text s => Text s
  | Uuid_ u => Uuid_ u
  | PlainShelling_ p => PlainShelling_ p
  | NamespacedShelling_ n => NamespacedShelling_ n
  | Keyword_ k => Keyword_ k
  | Vector l => Vector (map (λ p, (tt, without_spans p.2)) l)
  | List_ l => List_ (map (λ p, (tt, without_spans p.2)) l)
  | Set_ l => Set_ (collect_set child_cmp (map (λ p, (tt, without_spans p.2)) l))
  | Map_ l => Map_ (collect_map child_cmp
                (map (λ e, ((tt, without_spans e.1.2), (tt, without_spans e.2.2))) l))
  end.
End Spans.
