(* ===== verification/EmlOrder.v ===== *)
(** * EmlOrder: the order of values

    The comparison of [EmlValue] is a total preorder, nested containers included, which
    is what the ordered sets and maps of values rely on; it does not see positions, so
    that dropping them keeps every set and map as it is.  Microseconds and milliseconds
    around 1970. *)
From Stdlib Require Import ZArith Lia Sorted.
From stdpp Require Import base list numbers sets.
From S2P Require Import Prelude Slice Order Shelling EmlValue.
#[local] Open Scope Z_scope.

(** ** Induction through containers *)

Section Induction.
Context {AT : EmlAtoms} {S : Type}.

Lemma Val_rect' (P : Val S → Prop) :
  (∀ v, is_atom v = true → P v) →
  (∀ l, Forall (λ p, P p.2) l → P (Vector l)) → (∀ l, Forall (λ p, P p.2) l → P (List_ l)) →
  (∀ l, Forall (λ p, P p.2) l → P (Set_ l)) →
  (∀ l, Forall (λ e, P e.1.2 ∧ P e.2.2) l → P (Map_ l)) → ∀ v, P v.
Proof.
  intros Ha Hv Hl Hs Hm. fix IH 1. intros v. destruct v as [| | | | | | | | | | |l|l|l|l]; try (by apply Ha).
  - apply Hv. induction l as [|[s v] l IHl]; constructor; [apply IH|exact IHl].
  - apply Hl. induction l as [|[s v] l IHl]; constructor; [apply IH|exact IHl].
  - apply Hs. induction l as [|[s v] l IHl]; constructor; [apply IH|exact IHl].
  - apply Hm. induction l as [|[[s v] [s' v']] l IHl]; constructor; [split; apply IH|exact IHl].
Qed.

(** ** The fuel is enough *)

Lemma list_cmp_ext {A} (f g : A → A → comparison) l r :
  (∀ x y, x ∈ l → y ∈ r → f x y = g x y) → list_cmp f l r = list_cmp g l r.
Proof.
  revert r. induction l as [|x l IH]; intros [|y r] H; cbn; try done.
  rewrite H by constructor. destruct (g x y); cbn; try done. apply IH. intros. apply H; by constructor.
Qed.

Lemma max_bound {A} (f : A → nat) l x n : x ∈ l → (list_max (map f l) <= n)%nat → (f x <= n)%nat.
Proof.
  intros Hx H. apply list_max_le in H. rewrite List.Forall_map, List.Forall_forall in H. by apply H, list_elem_of_In.
Qed.

Lemma child_depth (l : list (S * Val S)) p n : p ∈ l → (list_max (map (λ p, vdepth p.2) l) <= n)%nat → (vdepth p.2 <= n)%nat.
Proof. apply (max_bound (λ p, vdepth p.2)). Qed.

Lemma entry_depth (l : list ((S * Val S) * (S * Val S))) e n : e ∈ l →
  (list_max (map (λ p, Nat.max (vdepth p.1.2) (vdepth p.2.2)) l) <= n)%nat → (vdepth e.1.2 <= n ∧ vdepth e.2.2 <= n)%nat.
Proof. intros He H. pose proof (max_bound (λ p, Nat.max (vdepth p.1.2) (vdepth p.2.2)) l e n He H). cbn in *. lia. Qed.

(** Only children are compared by the recursive calls. *)
Lemma ord_body_ext (f g : Val S → Val S → comparison) x y :
  (∀ u v, (Nat.min (vdepth u) (vdepth v) < Nat.min (vdepth x) (vdepth y))%nat → f u v = g u v) →
  ord_body f x y = ord_body g x y.
Proof.
  intros H. destruct x as [| | | | | | | | | | |la|la|la|la], y as [| | | | | | | | | | |lb|lb|lb|lb]; try done;
    cbn [ord_body]; apply list_cmp_ext; intros p q Hp Hq; cbn [vdepth] in H.
  1-3: apply H; pose proof (child_depth _ _ _ Hp (le_n _)); pose proof (child_depth _ _ _ Hq (le_n _)); lia.
  unfold pair_cmp. destruct (entry_depth _ _ _ Hp (le_n _)), (entry_depth _ _ _ Hq (le_n _)).
  f_equal; apply H; lia.
Qed.

Lemma ord_fuel_enough n : ∀ m (x y : Val S), (Nat.min (vdepth x) (vdepth y) < n)%nat →
  (Nat.min (vdepth x) (vdepth y) < m)%nat → ord_fuel n x y = ord_fuel m x y.
Proof.
  induction n as [|n IH]; intros [|m] x y Hn Hm; try lia. cbn [ord_fuel].
  apply ord_body_ext. intros u v Huv. apply IH; lia.
Qed.

(** The equation of the source. *)
Lemma val_cmp_eq (x y : Val S) : val_cmp x y = ord_body val_cmp x y.
Proof.
  unfold val_cmp at 1. cbn [ord_fuel]. apply ord_body_ext. intros u v Huv. apply ord_fuel_enough; lia.
Qed.
End Induction.

(** ** A total preorder *)

Section Lawful.
Context {AT : EmlAtoms} {AL : EmlAtomsLaws} {S : Type}.

(** The kinds, in the order of their precedence; the two precedences of keywords are one kind. *)
Definition kind (v : Val S) : Z := match v with Keyword_ _ => 10 | _ => precedence v end.

Lemma val_cmp_kinds (x y : Val S) : kind x ≠ kind y → val_cmp x y = (kind x ?= kind y).
Proof.
  intros H. rewrite val_cmp_eq. destruct x, y; try done; cbn;
    repeat match goal with |- context [if ?b then _ else _] => destruct b end; done.
Qed.

Lemma list_opp {A} (f : A → A → comparison) l : Forall (λ x, ∀ y, f y x = CompOpp (f x y)) l →
  ∀ r, list_cmp f r l = CompOpp (list_cmp f l r).
Proof.
  induction 1 as [|x l Hx _ IH]; intros [|y r]; cbn; try done. by rewrite then_opp, Hx, IH.
Qed.

Lemma opp_opp c : CompOpp (CompOpp c) = c.
Proof. by destruct c. Qed.

(** Within a kind: a constructor, and the comparison of what is under it. *)
Inductive arm : ∀ A, (A → Val S) → (A → A → comparison) → Prop :=
| arm_nil : arm unit (λ _, Nil) (λ _ _, Eq)
| arm_bool : arm bool Boolean bool_cmp
| arm_int : arm Z Integer Z.compare
| arm_instant : arm DateTime Instant dt_cmp
| arm_big : arm Z BigInteger Z.compare
| arm_float : arm OrderedFloat Float float_cmp
| arm_text : arm (list Z) Text bytes_cmp
| arm_uuid : arm Uuid Uuid_ uuid_cmp
| arm_plain : arm PlainShelling PlainShelling_ plain_cmp
| arm_namespaced : arm NamespacedShelling NamespacedShelling_ namespaced_cmp
| arm_keyword : arm Keyword Keyword_ keyword_cmp
| arm_vector : arm (list (S * Val S)) Vector (list_cmp child_cmp)
| arm_list : arm (list (S * Val S)) List_ (list_cmp child_cmp)
| arm_set : arm (list (S * Val S)) Set_ (list_cmp child_cmp)
| arm_map : arm (list ((S * Val S) * (S * Val S))) Map_ (list_cmp (pair_cmp child_cmp child_cmp)).

Lemma arm_cmp A C cmp (a b : A) : arm A C cmp → val_cmp (C a) (C b) = cmp b a.
Proof. destruct 1; by rewrite val_cmp_eq. Qed.

Lemma arm_kind A C cmp (a : A) y : arm A C cmp → kind y = kind (C a) → ∃ b, y = C b.
Proof.
  destruct 1; destruct y; cbn; try (by eauto); try (by exists tt);
    repeat match goal with |- context [if ?b then _ else _] => destruct b end; done.
Qed.

(** A property of comparisons that the lawful ones have, and that lists inherit from
    their elements, carries over to all values through their arms. *)
Lemma arm_induction (Q : Val S → Prop) (P : ∀ A, (A → A → comparison) → A → Prop) :
  (∀ A (cmp : A → A → comparison) a, LawfulCmp cmp → P A cmp a) →
  (∀ l : list (S * Val S), Forall (λ p, Q p.2) l → P _ (list_cmp child_cmp) l) →
  (∀ l : list ((S * Val S) * (S * Val S)), Forall (λ e, Q e.1.2 ∧ Q e.2.2) l →
     P _ (list_cmp (pair_cmp child_cmp child_cmp)) l) →
  (∀ A C cmp a, arm A C cmp → P A cmp a → Q (C a)) → ∀ v, Q v.
Proof.
  intros Hl Hlist Hmap HQ v. induction v as [v Hv|l IH|l IH|l IH|l IH] using Val_rect'.
  - destruct v; try done.
    + apply (HQ _ _ _ tt arm_nil), Hl. by split.
    + apply (HQ _ _ _ _ arm_bool), Hl, _.
    + apply (HQ _ _ _ _ arm_int), Hl, _.
    + apply (HQ _ _ _ _ arm_instant), Hl, _.
    + apply (HQ _ _ _ _ arm_big), Hl, _.
    + apply (HQ _ _ _ _ arm_float), Hl, _.
    + apply (HQ _ _ _ _ arm_text), Hl, _.
    + apply (HQ _ _ _ _ arm_uuid), Hl, _.
    + apply (HQ _ _ _ _ arm_plain), Hl, (lawful_key plain_text bytes_cmp _).
    + apply (HQ _ _ _ _ arm_namespaced), Hl, (lawful_key namespaced_ns ns_cmp _).
    + apply (HQ _ _ _ _ arm_keyword), Hl, (lawful_key keyword_ns ns_cmp _).
  - by apply (HQ _ _ _ _ arm_vector), Hlist.
  - by apply (HQ _ _ _ _ arm_list), Hlist.
  - by apply (HQ _ _ _ _ arm_set), Hlist.
  - by apply (HQ _ _ _ _ arm_map), Hmap.
Qed.

Lemma val_cmp_antisym (x : Val S) : ∀ y, val_cmp y x = CompOpp (val_cmp x y).
Proof.
  apply (arm_induction (λ x, ∀ y, val_cmp y x = CompOpp (val_cmp x y)) (λ A cmp a, ∀ b, cmp b a = CompOpp (cmp a b))); clear x.
  - intros A cmp a Hc b. apply at_antisym, Hc.
  - intros l Hl. apply list_opp. eapply Forall_impl; [exact Hl|]. intros [s v] H [s' v']. apply H.
  - intros l Hl. apply list_opp. eapply Forall_impl; [exact Hl|]. intros [p q] [Hp Hq] [p' q'].
    unfold pair_cmp, child_cmp. cbn in *. by rewrite then_opp, Hp, Hq.
  - intros A C cmp a Har Ha y. destruct (decide (kind y = kind (C a))) as [Hk|Hk].
    + destruct (arm_kind A C cmp a y Har Hk) as [b ->]. rewrite !(arm_cmp A C cmp) by done. by rewrite Ha, opp_opp.
    + rewrite !val_cmp_kinds by congruence. apply Z.compare_antisym.
Qed.

Lemma val_kind (x y : Val S) :
  match val_cmp x y with Eq => kind x = kind y | Lt => kind x <= kind y | Gt => kind y <= kind x end.
Proof.
  destruct (decide (kind x = kind y)) as [E|E]; [destruct (val_cmp x y); lia|].
  rewrite val_cmp_kinds by done. destruct (Z.compare_spec (kind x) (kind y)); lia.
Qed.

Lemma arm_at A C cmp (a : A) : arm A C cmp → lawful_at cmp a → lawful_at val_cmp (C a).
Proof.
  intros Har Ha. assert (F : ∀ b c, val_cmp (C b) (C c) = CompOpp (cmp b c)).
  { intros b c. rewrite <- (arm_cmp A C cmp c b) by done. apply val_cmp_antisym. }
  destruct (lawful_opp _ _ Ha) as [_ H2 H3 H4 H5]. split; [intros; apply val_cmp_antisym|..]; intros y z;
    pose proof (val_kind (C a) y); pose proof (val_kind y z);
    (destruct (decide (kind y = kind (C a) ∧ kind z = kind (C a))) as [ [Ky Kz]|K];
     [destruct (arm_kind A C cmp a y Har Ky) as [b ->], (arm_kind A C cmp a z Har Kz) as [c ->]; rewrite !F; by eauto|]).
  - intros E. rewrite E in *. rewrite !val_cmp_kinds by lia. congruence.
  - intros E. rewrite E in *. rewrite !val_cmp_kinds by lia. congruence.
  - intros E1 E2. rewrite E1, E2 in *. rewrite val_cmp_kinds by lia. apply Z.compare_lt_iff. lia.
  - intros E1 E2. rewrite E1, E2 in *. rewrite val_cmp_kinds by lia. apply Z.compare_gt_iff. lia.
Qed.

#[export] Instance lawful_val : LawfulCmp (@val_cmp AT S).
Proof.
  intros x. apply (arm_induction (lawful_at val_cmp) (@lawful_at)); clear x.
  - intros A cmp a Hc. apply Hc.
  - intros l Hl. apply list_lawful. eapply Forall_impl; [exact Hl|]. intros [s v] [H1 H2 H3 H4 H5].
    split; unfold child_cmp; intros *; cbn in *; eauto.
  - intros l Hl. apply list_lawful. eapply Forall_impl; [exact Hl|]. intros [p q] [ [H1 H2 H3 H4 H5] [K1 K2 K3 K4 K5] ].
    apply pair_lawful; split; unfold child_cmp; intros *; cbn in *; eauto.
  - apply arm_at.
Qed.
End Lawful.

(** C35. The order of values is a total preorder, containers inside containers included:
    comparing the other way round gives the opposite, each of [Lt], [Eq] and [Gt] is
    transitive, and values that compare equal compare alike with every other.  Values of
    different kinds compare as their kinds. *)
Theorem value_order `{AL : EmlAtomsLaws} {S} (x y z : Val S) :
  val_cmp y x = CompOpp (val_cmp x y)
  ∧ (∀ c, val_cmp x y = c → val_cmp y z = c → val_cmp x z = c)
  ∧ (val_cmp x y = Eq → val_cmp x z = val_cmp y z)
  ∧ (kind x ≠ kind y → val_cmp x y = (precedence x ?= precedence y)).
Proof.
  split_and!.
  - apply val_cmp_antisym.
  - intros c. apply lawful_trans, _.
  - apply (at_eq_l _ _ (lawful x)).
  - intros H. rewrite val_cmp_eq. destruct x, y; done.
Qed.

(** ** Dropping positions *)

Section Strip.
Context {AT : EmlAtoms} {AL : EmlAtomsLaws}.

(** The value without the positions, containers kept as they are. *)
Fixpoint strip (v : Val Span) : Val unit :=
  match v with
  | Nil => Nil | Boolean b => Boolean b | Integer i => Integer i | Instant d => Instant d
  | BigInteger z => BigInteger z | Float f => Float f | Text s => Text s | Uuid_ u => Uuid_ u
  | PlainShelling_ p => PlainShelling_ p | NamespacedShelling_ n => NamespacedShelling_ n
  | Keyword_ k => Keyword_ k
  | Vector l => Vector (map (λ p, (tt, strip p.2)) l)
  | List_ l => List_ (map (λ p, (tt, strip p.2)) l)
  | Set_ l => Set_ (map (λ p, (tt, strip p.2)) l)
  | Map_ l => Map_ (map (λ e, ((tt, strip e.1.2), (tt, strip e.2.2))) l)
  end.

(** What the ordered containers keep: elements and keys strictly increase. *)
Definition increasing {A} (cmp : A → A → comparison) (l : list A) : Prop :=
  StronglySorted (λ a b, cmp a b = Lt) l.

Inductive ordered {S} : Val S → Prop :=
| ordered_atom v : is_atom v = true → ordered v
| ordered_vector l : Forall (λ p, ordered p.2) l → ordered (Vector l)
| ordered_list l : Forall (λ p, ordered p.2) l → ordered (List_ l)
| ordered_set l : Forall (λ p, ordered p.2) l → increasing child_cmp l → ordered (Set_ l)
| ordered_map l : Forall (λ e, ordered e.1.2 ∧ ordered e.2.2) l → increasing child_cmp l.*1 → ordered (Map_ l).

Lemma list_cmp_map {A B} (f : A → B) (ca : A → A → comparison) (cb : B → B → comparison) l r :
  (∀ x y, x ∈ l → y ∈ r → cb (f x) (f y) = ca x y) → list_cmp cb (map f l) (map f r) = list_cmp ca l r.
Proof.
  revert r. induction l as [|x l IH]; intros [|y r] H; cbn; try done.
  rewrite H by constructor. destruct (ca x y); cbn; try done. apply IH. intros. apply H; by constructor.
Qed.

Lemma ord_strip n : ∀ x y : Val Span, ord_fuel n (strip x) (strip y) = ord_fuel n x y.
Proof.
  induction n as [|n IH]; intros x y; [done|]. cbn [ord_fuel].
  destruct x, y; try done; cbn [strip ord_body]; apply list_cmp_map; intros p q _ _; unfold pair_cmp; cbn; by rewrite ?IH.
Qed.

Lemma map_depth {A B} (f : A → B) (da : A → nat) (db : B → nat) l : Forall (λ x, db (f x) = da x) l →
  list_max (map db (map f l)) = list_max (map da l).
Proof. induction 1 as [|x l Hx _ IH]; [done|]. cbn [map]. change (list_max (?a :: ?l)) with (Nat.max a (list_max l)). congruence. Qed.

Lemma strip_depth (x : Val Span) : vdepth (strip x) = vdepth x.
Proof.
  induction x as [x Hx|l IH|l IH|l IH|l IH] using Val_rect'; [by destruct x|..];
    cbn [strip vdepth]; f_equal; apply map_depth; eapply Forall_impl; try exact IH; cbn; try done.
  intros e [H1 H2]. exact (f_equal2 Nat.max H1 H2).
Qed.

Lemma strip_cmp (x y : Val Span) : val_cmp (strip x) (strip y) = val_cmp x y.
Proof. unfold val_cmp. by rewrite !strip_depth, ord_strip. Qed.

(** Collecting what is in order already changes nothing. *)
Lemma set_insert_last {A} (cmp : A → A → comparison) x l :
  (∀ y, y ∈ l → cmp x y = Gt) → set_insert cmp x l = l ++ [x].
Proof.
  induction l as [|y l IH]; intros H; cbn; [done|]. rewrite (H y) by constructor. f_equal. apply IH.
  intros. apply H. by constructor.
Qed.

Lemma map_insert_last {A B} (cmp : A → A → comparison) k (v : B) l :
  (∀ y, y ∈ l.*1 → cmp k y = Gt) → map_insert cmp k v l = l ++ [(k, v)].
Proof.
  induction l as [|[k' v'] l IH]; intros H; cbn; [done|]. rewrite (H k') by constructor. f_equal. apply IH.
  intros. apply H. by constructor.
Qed.

Lemma increasing_snoc {A} (cmp : A → A → comparison) `{!LawfulCmp cmp} l x : increasing cmp (l ++ [x]) →
  increasing cmp l ∧ ∀ y, y ∈ l → cmp x y = Gt.
Proof.
  induction l as [|z l IH]; intros H; [split; [constructor|by intros y ?%elem_of_nil]|].
  apply StronglySorted_inv in H as [H Hz]. destruct (IH H) as [H1 H2]. apply Forall_app in Hz as [Hz Hx].
  split; [by constructor|]. intros y [->|Hy]%elem_of_cons; [|auto].
  apply Forall_cons_1 in Hx as [Hx _]. by rewrite (at_antisym _ _ (lawful z)), Hx.
Qed.

Lemma collect_set_same {A} (cmp : A → A → comparison) `{!LawfulCmp cmp} l : increasing cmp l → collect_set cmp l = l.
Proof.
  unfold collect_set. induction l as [|x l IH] using rev_ind; intros H; [done|].
  apply increasing_snoc in H as [H Hx]; [|done]. rewrite fold_left_app, IH by done. by apply set_insert_last.
Qed.

Lemma collect_map_same {A B} (cmp : A → A → comparison) `{!LawfulCmp cmp} (l : list (A * B)) :
  increasing cmp l.*1 → collect_map cmp l = l.
Proof.
  unfold collect_map. induction l as [|[k v] l IH] using rev_ind; intros H; [done|]. rewrite fmap_app in H.
  apply increasing_snoc in H as [H Hx]; [|done]. rewrite fold_left_app, IH by done. by apply map_insert_last.
Qed.

#[local] Instance lawful_child S : LawfulCmp (@child_cmp AT S).
Proof. apply (lawful_key snd val_cmp _). Qed.

Lemma increasing_map {A B} (f : A → B) ca cb (l : list A) : (∀ x y, cb (f x) (f y) = ca x y) →
  increasing ca l → increasing cb (map f l).
Proof.
  intros H. induction 1 as [|x l Hl IH Hx]; cbn; constructor; [done|].
  clear -H Hx. induction Hx; cbn; constructor; [by rewrite H|done].
Qed.

Lemma strip_keys (l : list ((Span * Val Span) * (Span * Val Span))) :
  (map (λ e, ((tt, strip e.1.2), (tt, strip e.2.2))) l).*1 = map (λ p : Span * Val Span, (tt, strip p.2)) l.*1.
Proof. induction l as [|e l IH]; [done|]. exact (f_equal (cons _) IH). Qed.

Lemma map_ext_forall {A B} (f g : A → B) l : Forall (λ x, f x = g x) l → map f l = map g l.
Proof. induction 1; cbn; congruence. Qed.

Lemma strip_cmp_child (p q : Span * Val Span) : child_cmp (tt, strip p.2) (tt, strip q.2) = child_cmp p q.
Proof. apply strip_cmp. Qed.

Lemma strip_children (l : list (Span * Val Span)) :
  Forall (λ p, ordered p.2 → without_spans p.2 = strip p.2 ∧ ordered (strip p.2)) l → Forall (λ p, ordered p.2) l →
  map (λ p, (tt, without_spans p.2)) l = map (λ p, (tt, strip p.2)) l
  ∧ Forall (λ p : unit * Val unit, ordered p.2) (map (λ p, (tt, strip p.2)) l).
Proof.
  intros IH Ho. induction IH as [|p l Hp _ IHl]; [done|]. apply Forall_cons_1 in Ho as [Hop Ho].
  destruct (Hp Hop) as [E1 E2], (IHl Ho) as [E3 E4]. cbn. rewrite E1, E3. split; [done|by constructor].
Qed.

Lemma strip_entries (l : list ((Span * Val Span) * (Span * Val Span))) :
  Forall (λ e, (ordered e.1.2 → without_spans e.1.2 = strip e.1.2 ∧ ordered (strip e.1.2))
    ∧ (ordered e.2.2 → without_spans e.2.2 = strip e.2.2 ∧ ordered (strip e.2.2))) l →
  Forall (λ e, ordered e.1.2 ∧ ordered e.2.2) l →
  map (λ e, ((tt, without_spans e.1.2), (tt, without_spans e.2.2))) l = map (λ e, ((tt, strip e.1.2), (tt, strip e.2.2))) l
  ∧ Forall (λ e : (unit * Val unit) * (unit * Val unit), ordered e.1.2 ∧ ordered e.2.2)
      (map (λ e, ((tt, strip e.1.2), (tt, strip e.2.2))) l).
Proof.
  intros IH Ho. induction IH as [|p l [Hp Hq] _ IHl]; [done|]. apply Forall_cons_1 in Ho as [ [Ho1 Ho2] Ho].
  destruct (Hp Ho1) as [E1 ?], (Hq Ho2) as [E2 ?], (IHl Ho) as [E3 E4]. cbn. rewrite E1, E2, E3. split; [done|by constructor].
Qed.

Lemma without_spans_strip (x : Val Span) : ordered x → without_spans x = strip x ∧ ordered (strip x).
Proof.
  induction x as [x Hx|l IH|l IH|l IH|l IH] using Val_rect'; intros Ho.
  - split; [by destruct x|]. constructor. by destruct x.
  - inversion Ho as [?|? Hl| | |]; subst; [done|]. destruct (strip_children l IH Hl) as [E Hs].
    cbn [without_spans strip]. rewrite E. split; [done|by constructor].
  - inversion Ho as [?| |? Hl| |]; subst; [done|]. destruct (strip_children l IH Hl) as [E Hs].
    cbn [without_spans strip]. rewrite E. split; [done|by constructor].
  - inversion Ho as [?| | |? Hl Hi|]; subst; [done|]. destruct (strip_children l IH Hl) as [E Hs].
    cbn [without_spans strip]. rewrite E.
    assert (increasing child_cmp (map (λ p : Span * Val Span, (tt, strip p.2)) l)) as Hi'.
    { by apply (increasing_map _ child_cmp child_cmp); [apply strip_cmp_child|]. }
    rewrite collect_set_same by (done || apply _). split; [done|by constructor].
  - inversion Ho as [?| | | |? Hl Hi]; subst; [done|]. destruct (strip_entries l IH Hl) as [E Hs].
    cbn [without_spans strip]. rewrite E.
    assert (increasing child_cmp (map (λ e : (Span * Val Span) * (Span * Val Span), ((tt, strip e.1.2), (tt, strip e.2.2))) l).*1) as Hi'.
    { rewrite strip_keys. by apply (increasing_map _ child_cmp child_cmp); [apply strip_cmp_child|]. }
    rewrite collect_map_same by (done || apply _). split; [done|by constructor].
Qed.

(** Dropping the positions of a value whose sets and maps are in order only drops
    positions: collecting the sets and maps anew loses and moves nothing, the result is
    in order again, and it compares with others as before. *)
Theorem positions_dropped (x y : Val Span) : ordered x → ordered y →
  without_spans x = strip x ∧ ordered (without_spans x)
  ∧ val_cmp (without_spans x) (without_spans y) = val_cmp x y.
Proof.
  intros Hx Hy. destruct (without_spans_strip x Hx) as [-> ?], (without_spans_strip y Hy) as [-> ?].
  split_and!; [done..|]. apply strip_cmp.
Qed.
End Strip.

(** ** Instants *)

Section Instants.
Context {AT : EmlAtoms} {AL : EmlAtomsLaws}.

Lemma abs_rem ts n : 0 < n → Z.abs (Z.rem ts n) = Z.abs ts mod n ∧ 0 <= Z.abs (Z.rem ts n) < n.
Proof.
  intros Hn. rewrite <- Z.rem_abs, (Z.abs_eq n) by lia.
  pose proof (Z.mod_pos_bound (Z.abs ts) n Hn). rewrite Z.rem_mod_nonneg by lia. lia.
Qed.

Lemma from_parts_ok ts n : 0 < n <= 1000000 → - CHRONO_SECS <= Z.quot ts n <= CHRONO_SECS →
  ∃ d, (nanos ← u32 (as_u32 (Z.abs (Z.rem ts n)) * 1000); utc_timestamp (Z.quot ts n) nanos) = Ret d
    ∧ dt_timestamp d = Z.quot ts n ∧ timestamp_subsec_micros d = Z.abs ts mod n
    ∧ timestamp_subsec_millis d = Z.abs ts mod n * 1000 / 1000000.
Proof.
  intros Hn Hq. destruct (abs_rem ts n ltac:(lia)) as [E Hr]. rewrite as_u32_id by (mach; lia).
  rewrite u32_ok by (mach; lia). cbn [mbind outcome_bind].
  destruct (timestamp_back (Z.quot ts n) (Z.abs (Z.rem ts n) * 1000) Hq ltac:(lia)) as (d & -> & Hs & Hmi & Hm).
  exists d. rewrite Hmi, Hm, E, Z.div_mul by lia. done.
Qed.

(** Microseconds from 1970 on are read back as they were; before 1970 the fraction
    of a second is added to the seconds instead of taken off, so that only whole
    seconds are. *)
Theorem micros_back ts : - 8000000000000000000 <= ts <= 8000000000000000000 →
  (d ← from_micros ts; to_micros d)
  = Ret (if 0 <=? ts then ts else ts + 2 * ((- ts) mod 1000000)).
Proof.
  intros Hts. pose proof (Z.quot_rem ts 1000000 ltac:(lia)) as Hd. unfold from_micros, to_micros.
  assert (- CHRONO_SECS <= Z.quot ts 1000000 <= CHRONO_SECS) as Hq.
  { unfold CHRONO_SECS. pose proof (Z.quot_le_mono ts 8000000000000000000 1000000 ltac:(lia) ltac:(lia)) as H1.
    pose proof (Z.quot_le_mono (- 8000000000000000000) ts 1000000 ltac:(lia) ltac:(lia)) as H2.
    change (Z.quot 8000000000000000000 1000000) with 8000000000000 in H1.
    change (Z.quot (- 8000000000000000000) 1000000) with (- 8000000000000) in H2. lia. }
  destruct (from_parts_ok ts 1000000 ltac:(lia) Hq) as (d & -> & Hs & Hmi & _). cbn [mbind outcome_bind].
  rewrite Hs, Hmi. destruct (abs_rem ts 1000000 ltac:(lia)) as [E Hr]. unfold CHRONO_SECS in Hq.
  rewrite i64_ok by (mach; lia). cbn [mbind outcome_bind]. rewrite i64_ok by (mach; lia). f_equal.
  destruct (Z.leb_spec 0 ts).
  - rewrite (Z.abs_eq ts) in * by lia. pose proof (Z.rem_nonneg ts 1000000 ltac:(lia) ltac:(lia)). lia.
  - rewrite (Z.abs_neq ts) in * by lia. pose proof (Z.rem_nonpos ts 1000000 ltac:(lia) ltac:(lia)). lia.
Qed.

(** Milliseconds are read back rounded to whole seconds, towards 1970: the fraction
    is stored as that many microseconds. *)
Theorem millis_lost ts : - 8000000000000000 <= ts <= 8000000000000000 →
  (d ← from_millis ts; to_millis d) = Ret (ts - Z.rem ts 1000).
Proof.
  intros Hts. pose proof (Z.quot_rem ts 1000 ltac:(lia)) as Hd. unfold from_millis, to_millis.
  assert (- CHRONO_SECS <= Z.quot ts 1000 <= CHRONO_SECS) as Hq.
  { unfold CHRONO_SECS. pose proof (Z.quot_le_mono ts 8000000000000000 1000 ltac:(lia) ltac:(lia)) as H1.
    pose proof (Z.quot_le_mono (- 8000000000000000) ts 1000 ltac:(lia) ltac:(lia)) as H2.
    change (Z.quot 8000000000000000 1000) with 8000000000000 in H1.
    change (Z.quot (- 8000000000000000) 1000) with (- 8000000000000) in H2. lia. }
  destruct (from_parts_ok ts 1000 ltac:(lia) Hq) as (d & -> & Hs & _ & Hm). cbn [mbind outcome_bind].
  rewrite Hs, Hm. unfold CHRONO_SECS in Hq. pose proof (Z.mod_pos_bound (Z.abs ts) 1000 ltac:(lia)).
  rewrite (Z.div_small (_ * 1000)) by lia.
  rewrite i64_ok by (mach; lia). cbn [mbind outcome_bind]. rewrite i64_ok by (mach; lia). f_equal. lia.
Qed.
End Instants.
