(* ===== verification/Query.v ===== *)
(** * Query: parsed queries

    [einstein_ml/query.rs]: the parts of a query, how they are read from values, the
    assembly of a query, and the variables its clauses mention.

    Kept apart from the model: the printing of the parts, and [FnArg::from_causet_locale],
    whose body uses names it does not bind and whose match leaves kinds of values out.
    The implementation of [ContainsVariables] for [WhereClause] matches constructors
    that type does not have; the arms for the ones it has stand at the end of the next
    implementation, and are the ones modelled. *)
From Stdlib Require Import ZArith Lia.
From stdpp Require Import base list numbers countable gmap sets.
From S2P Require Import Prelude Slice Order Shelling EmlValue.
#[local] Open Scope Z_scope.

(** ** Names

    [Var] is the type [Variable] of the source, a word Rocq keeps for itself. *)

Record Var := mkVar { var_shelling : PlainShelling }.

#[export] Instance Var_eq_dec : EqDecision Var.
Proof. solve_decision. Defined.
#[export] Instance Var_countable : Countable Var.
Proof. by apply (inj_countable' var_shelling mkVar); intros []. Defined.

(** The name is asserted to be a variable's. *)
Definition from_valid_name (name : list Z) : outcome Var :=
  s ← shelling_plain name;
  _ ← guardM (is_var_shelling s);
  Ret (mkVar s).

Definition var_from_rc (sym : PlainShelling) : option Var :=
  if is_var_shelling sym then Some (mkVar sym) else None.

Definition var_from_shelling (sym : list Z) : outcome (option Var) :=
  if starts_with sym QUESTION then s ← shelling_plain sym; Ret (Some (mkVar s)) else Ret None.

Record QueryFunction := mkFunction { function_shelling : PlainShelling }.
Definition function_from_shelling (sym : PlainShelling) : option QueryFunction := Some (mkFunction sym).

Inductive Direction := Ascending | Descending.
Record Partition := mkPartition { direction : Direction; order_var : Var }.

Inductive SrcVar := DefaultSrc | NamedSrc (name : list Z).

Definition src_from_shelling (sym : PlainShelling) : outcome (option SrcVar) :=
  if is_src_shelling sym then
    if bool_decide (plain_text sym = [DOLLAR]) then Ret (Some DefaultSrc)
    else n ← shelling_name sym; Ret (Some (NamedSrc n))
  else Ret None.

Section Query.
Context {AT : EmlAtoms} {NO : NamespaceOps}.

(** ** Constants and arguments *)

Inductive NonIntegerConstant :=
| CBoolean (b : bool)
| CBigInteger (z : Z)
| CFloat (f : OrderedFloat)
| CText (s : list Z)
| CInstant (d : DateTime)
| CUuid (u : Uuid).

Definition constant_from_causet_locale (v : ValueAndSpan) : option NonIntegerConstant :=
  match v.2 with
  | Boolean b => Some (CBoolean b)
  | BigInteger i => Some (CBigInteger i)
  | Float f => Some (CFloat f)
  | Text s => Some (CText s)
  | Instant dt => Some (CInstant dt)
  | Uuid_ u => Some (CUuid u)
  | _ => None
  end.

Inductive FnArg :=
| ArgVariable (v : Var)
| ArgSrcVar (s : SrcVar)
| ArgCausetidOrInteger (i : Z)
| ArgSolitonidOrKeyword (k : Keyword)
| ArgConstant (c : NonIntegerConstant)
| ArgVector (l : list FnArg).

Definition as_variable (a : FnArg) : option Var := match a with ArgVariable v => Some v | _ => None end.

(** ** Places of patterns *)

Inductive PatternNonValuePlace :=
| NPlaceholder
| NVariable (v : Var)
| NCausetid (i : Z)
| NSolitonid (k : Keyword).

Inductive PatternValuePlace :=
| VPlaceholder
| VVariable (v : Var)
| VCausetidOrInteger (i : Z)
| VSolitonidOrKeyword (k : Keyword)
| VConstant (c : NonIntegerConstant).

Definition to_pattern_causet_locale_place (p : PatternNonValuePlace) : PatternValuePlace :=
  match p with
  | NPlaceholder => VPlaceholder
  | NVariable x => VVariable x
  | NCausetid x => VCausetidOrInteger x
  | NSolitonid x => VSolitonidOrKeyword x
  end.

Definition to_pattern_non_causet_locale_place (p : PatternValuePlace) : option PatternNonValuePlace :=
  match p with
  | VPlaceholder => Some NPlaceholder
  | VVariable x => Some (NVariable x)
  | VCausetidOrInteger x => if 0 <=? x then Some (NCausetid x) else None
  | VSolitonidOrKeyword x => Some (NSolitonid x)
  | VConstant _ => None
  end.

Definition non_value_from_causet_locale (v : ValueAndSpan) : outcome (option PatternNonValuePlace) :=
  match v.2 with
  | Integer x => Ret (if 0 <=? x then Some (NCausetid x) else None)
  | PlainShelling_ x =>
      if bool_decide (plain_text x = [UNDERSCORE]) then Ret (Some NPlaceholder)
      else v ← var_from_shelling (plain_text x); Ret (option_map NVariable v)
  | Keyword_ x => Ret (Some (NSolitonid x))
  | _ => Ret None
  end.

Definition value_from_causet_locale (v : ValueAndSpan) : outcome (option PatternValuePlace) :=
  match v.2 with
  | Integer x => Ret (Some (VCausetidOrInteger x))
  | PlainShelling_ x =>
      if bool_decide (plain_text x = [UNDERSCORE]) then Ret (Some VPlaceholder)
      else v ← var_from_shelling (plain_text x); Ret (option_map VVariable v)
  | Keyword_ x => Ret (if keyword_is_namespace_isolate x then Some (VSolitonidOrKeyword x) else None)
  | Boolean x => Ret (Some (VConstant (CBoolean x)))
  | Float x => Ret (Some (VConstant (CFloat x)))
  | BigInteger x => Ret (Some (VConstant (CBigInteger x)))
  | Instant x => Ret (Some (VConstant (CInstant x)))
  | Text x => Ret (Some (VConstant (CText x)))
  | Uuid_ u => Ret (Some (VConstant (CUuid u)))
  | Nil | NamespacedShelling_ _ | Map_ _ | List_ _ | Set_ _ | Vector _ => Ret None
  end.

(** ** What a query finds *)

Inductive PullConcreteAttribute := PSolitonid (k : Keyword) | PCausetid (i : Z).
Record NamedPullAttribute := mkPullAttribute { attribute : PullConcreteAttribute; alias : option Keyword }.
Definition pull_attribute_from (a : PullConcreteAttribute) : NamedPullAttribute := mkPullAttribute a None.
Inductive PullAttributeSpec := Wildcard | Attribute (a : NamedPullAttribute).

Record Pull := mkPull { pull_var : Var; pull_patterns : list PullAttributeSpec }.
Record Aggregate := mkAggregate { func : QueryFunction; aggregate_args : list FnArg }.

Inductive Element :=
| EVariable (v : Var)
| EAggregate (a : Aggregate)
| ECorresponding (v : Var)
| EPull (p : Pull).

Definition is_unit (e : Element) : bool :=
  match e with EVariable _ | EPull _ => false | EAggregate _ | ECorresponding _ => true end.

Inductive Limit := LNone | LFixed (n : Z) | LVariable (v : Var).

Inductive FindSpec :=
| FindRel (l : list Element)
| FindColl (e : Element)
| FindTuple (l : list Element)
| FindScalar (e : Element).

Definition is_unit_limited (f : FindSpec) : bool :=
  match f with FindScalar _ | FindTuple _ => true | FindRel _ | FindColl _ => false end.

Definition expected_column_count (f : FindSpec) : nat :=
  match f with FindScalar _ | FindColl _ => 1 | FindTuple l | FindRel l => length l end.

Definition requires_distinct (f : FindSpec) : bool := negb (is_unit_limited f).

Definition columns (f : FindSpec) : list Element :=
  match f with FindScalar e | FindColl e => [e] | FindTuple l | FindRel l => l end.

(** ** Bindings *)

Inductive VariableOrPlaceholder := Placeholder | VarPlace (v : Var).

(** [into_var] and [var] *)
Definition var (p : VariableOrPlaceholder) : option Var :=
  match p with Placeholder => None | VarPlace v => Some v end.

Inductive Binding :=
| BindScalar (v : Var)
| BindColl (v : Var)
| BindRel (l : list VariableOrPlaceholder)
| BindTuple (l : list VariableOrPlaceholder).

Definition variables (b : Binding) : list (option Var) :=
  match b with BindScalar v | BindColl v => [Some v] | BindRel l | BindTuple l => map var l end.

Definition binding_is_empty (b : Binding) : bool :=
  match b with
  | BindScalar _ | BindColl _ => false
  | BindRel l | BindTuple l => forallb (λ x, match var x with None => true | Some _ => false end) l
  end.

(** The loop of [is_valid]: the variables seen, or [None] once one is there twice. *)
Fixpoint distinct_vars (acc : gset Var) (l : list VariableOrPlaceholder) : option (gset Var) :=
  match l with
  | [] => Some acc
  | VarPlace v :: l => if bool_decide (v ∈ acc) then None else distinct_vars ({[v]} ∪ acc) l
  | Placeholder :: l => distinct_vars acc l
  end.

Definition is_valid (b : Binding) : bool :=
  match b with
  | BindScalar _ | BindColl _ => true
  | BindRel l | BindTuple l =>
      match distinct_vars ∅ l with None => false | Some acc => negb (bool_decide (acc = ∅)) end
  end.

(** ** Patterns *)

Record Pattern := mkPattern {
  source : option SrcVar;
  causet : PatternNonValuePlace;
  pattern_attribute : PatternNonValuePlace;
  pattern_value : PatternValuePlace;
  tx : PatternNonValuePlace;
}.

Definition Pattern_new (src : option SrcVar) (e a : PatternNonValuePlace) (v : PatternValuePlace)
    (tx : PatternNonValuePlace) : outcome (option Pattern) :=
  match a with
  | NSolitonid k =>
      if is_spacelike_completion k then
        let e_v := to_pattern_causet_locale_place e in
        match to_pattern_non_causet_locale_place v with
        | Some v_e => k' ← to_reversed k; Ret (Some (mkPattern src v_e (NSolitonid k') e_v tx))
        | None => Ret None
        end
      else Ret (Some (mkPattern src e a v tx))
  | _ => Ret (Some (mkPattern src e a v tx))
  end.

Definition Pattern_simple (e a : PatternNonValuePlace) (v : PatternValuePlace) : outcome (option Pattern) :=
  Pattern_new None e a v NPlaceholder.

(** ** Clauses *)

Record Predicate := mkPredicate { pred_operator : PlainShelling; pred_args : list FnArg }.
Record WhereFn := mkWhereFn { fn_operator : PlainShelling; fn_args : list FnArg; binding : Binding }.
Record TypeAnnotation := mkAnnotation { causet_locale_type : Keyword; annotated : Var }.

Inductive UnifyVars := Implicit_ | Explicit (vars : gset Var).

Inductive WhereClause :=
| WNotJoin (n : NotJoin)
| WOrJoin (o : OrJoin)
| WPred (p : Predicate)
| WFn (f : WhereFn)
| RuleExpr
| WPattern (p : Pattern)
| WTypeAnnotation (a : TypeAnnotation)
with OrWhereClause := Clause (c : WhereClause) | And (l : list WhereClause)
with OrJoin := mkOrJoin (unify_vars : UnifyVars) (clauses : list OrWhereClause)
                 (mentioned_vars : option (gset Var))
with NotJoin := mkNotJoin (unify_vars : UnifyVars) (clauses : list WhereClause).

Definition or_unify_vars (o : OrJoin) : UnifyVars := let 'mkOrJoin u _ _ := o in u.
Definition or_clauses (o : OrJoin) : list OrWhereClause := let 'mkOrJoin _ l _ := o in l.
Definition or_mentioned_vars (o : OrJoin) : option (gset Var) := let 'mkOrJoin _ _ m := o in m.

Definition OrJoin_new (u : UnifyVars) (l : list OrWhereClause) : OrJoin := mkOrJoin u l None.
Definition NotJoin_new (u : UnifyVars) (l : list WhereClause) : NotJoin := mkNotJoin u l.

Definition is_pattern (c : WhereClause) : bool := match c with WPattern _ => true | _ => false end.

Definition is_pattern_or_patterns (c : OrWhereClause) : bool :=
  match c with Clause (WPattern _) => true | And l => forallb is_pattern l | _ => false end.

(** ** The variables a clause mentions *)

Definition acc_ref (acc : gset Var) (v : Var) : gset Var :=
  if bool_decide (v ∈ acc) then acc else {[v]} ∪ acc.

Definition acc_args (acc : gset Var) (args : list FnArg) : gset Var :=
  fold_left (λ acc a, match a with ArgVariable v => acc_ref acc v | _ => acc end) args acc.

Definition acc_binding (acc : gset Var) (b : Binding) : gset Var :=
  match b with
  | BindScalar v | BindColl v => acc_ref acc v
  | BindRel l | BindTuple l =>
      fold_left (λ acc p, match p with VarPlace v => acc_ref acc v | Placeholder => acc end) l acc
  end.

Definition acc_non_value (acc : gset Var) (p : PatternNonValuePlace) : gset Var :=
  match p with NVariable v => acc_ref acc v | _ => acc end.

Definition acc_pattern (acc : gset Var) (p : Pattern) : gset Var :=
  let acc := acc_non_value acc (causet p) in
  let acc := acc_non_value acc (pattern_attribute p) in
  let acc := match pattern_value p with VVariable v => acc_ref acc v | _ => acc end in
  acc_non_value acc (tx p).

Fixpoint acc_clause (c : WhereClause) (acc : gset Var) : gset Var :=
  match c with
  | WOrJoin o => acc_or_join o acc
  | WPred p => acc_args acc (pred_args p)
  | WPattern p => acc_pattern acc p
  | WNotJoin n => acc_not_join n acc
  | WFn f => acc_binding (acc_args acc (fn_args f)) (binding f)
  | WTypeAnnotation a => acc_ref acc (annotated a)
  | RuleExpr => acc
  end
with acc_or_clause (c : OrWhereClause) (acc : gset Var) : gset Var :=
  match c with
  | And l => (fix go l acc := match l with [] => acc | c :: l => go l (acc_clause c acc) end) l acc
  | Clause c => acc_clause c acc
  end
with acc_or_join (o : OrJoin) (acc : gset Var) : gset Var :=
  let 'mkOrJoin _ l _ := o in
  (fix go l acc := match l with [] => acc | c :: l => go l (acc_or_clause c acc) end) l acc
with acc_not_join (n : NotJoin) (acc : gset Var) : gset Var :=
  let 'mkNotJoin _ l := n in
  (fix go l acc := match l with [] => acc | c :: l => go l (acc_clause c acc) end) l acc.

(** [collect_mentioned_variables] of an [OrJoin] *)
Definition collect_mentioned_variables (o : OrJoin) : gset Var := acc_or_join o ∅.

Definition is_fully_unified (o : OrJoin) : bool :=
  match or_unify_vars o with
  | Implicit_ => true
  | Explicit vars =>
      match or_mentioned_vars o with
      | Some mentioned => bool_decide (size vars = size mentioned)
      | None => bool_decide (size vars = size (collect_mentioned_variables o))
      end
  end.

Definition dismember (o : OrJoin) : list OrWhereClause * UnifyVars * gset Var :=
  (or_clauses o, or_unify_vars o,
   match or_mentioned_vars o with Some m => m | None => collect_mentioned_variables o end).

(** The join with its cache filled, and the variables. *)
Definition mentioned_variables (o : OrJoin) : OrJoin * outcome (gset Var) :=
  let o := match or_mentioned_vars o with
           | None => mkOrJoin (or_unify_vars o) (or_clauses o) (Some (collect_mentioned_variables o))
           | Some _ => o
           end in
  (o, match or_mentioned_vars o with Some m => Ret m | None => Panic end).

(** ** Assembling a query *)

Inductive QueryPart :=
| PFindSpec (x : FindSpec)
| PWithVars (x : list Var)
| PInVars (x : list Var)
| PLimit (x : Limit)
| PWhereClauses (x : list WhereClause)
| PPartition (x : list Partition).

Record ParsedQuery := mkParsed {
  find_spec : FindSpec;
  default_source : SrcVar;
  with_ : list Var;
  in_vars : list Var;
  in_sources : list SrcVar;
  limit : Limit;
  where_clauses : list WhereClause;
  order : option (list Partition);
}.

(** The words of a query, and the errors that name them. *)
Inductive PartKind := KFind | KWith | KIn | KLimit | KWhere | KOrder.
Inductive QueryError := Repeated (k : PartKind) | Expected (k : PartKind).

(** The local variables of [from_parts]. *)
Record Parts := mkParts {
  p_find : option FindSpec;
  p_with : option (list Var);
  p_in : option (list Var);
  p_limit : option Limit;
  p_where : option (list WhereClause);
  p_order : option (list Partition);
}.

Definition add_part (s : Parts) (part : QueryPart) : QueryError + Parts :=
  let 'mkParts f w i l c o := s in
  match part with
  | PFindSpec x => match f with Some _ => inl (Repeated KFind) | None => inr (mkParts (Some x) w i l c o) end
  | PWithVars x => match w with Some _ => inl (Repeated KWith) | None => inr (mkParts f (Some x) i l c o) end
  | PInVars x => match i with Some _ => inl (Repeated KIn) | None => inr (mkParts f w (Some x) l c o) end
  | PLimit x => match l with Some _ => inl (Repeated KLimit) | None => inr (mkParts f w i (Some x) c o) end
  | PWhereClauses x => match c with Some _ => inl (Repeated KWhere) | None => inr (mkParts f w i l (Some x) o) end
  | PPartition x => match o with Some _ => inl (Repeated KOrder) | None => inr (mkParts f w i l c (Some x)) end
  end.

Fixpoint add_parts (s : Parts) (parts : list QueryPart) : QueryError + Parts :=
  match parts with
  | [] => inr s
  | p :: parts => match add_part s p with inl e => inl e | inr s => add_parts s parts end
  end.

Definition finish_parts (s : Parts) : QueryError + ParsedQuery :=
  match p_find s with
  | None => inl (Expected KFind)
  | Some f =>
      match p_where s with
      | None => inl (Expected KWhere)
      | Some c => inr (mkParsed f DefaultSrc (default [] (p_with s)) (default [] (p_in s)) []
                         (default LNone (p_limit s)) c (p_order s))
      end
  end.

Definition from_parts (parts : list QueryPart) : QueryError + ParsedQuery :=
  match add_parts (mkParts None None None None None None) parts with
  | inl e => inl e
  | inr s => finish_parts s
  end.
End Query.
