(* ===== verification/QueryLaws.v ===== *)
(** * QueryLaws: what the parts of a query are, and what makes a query

    Patterns and their reversed form, bindings, the variables clauses mention and the
    cache of a join's, and the assembly of a query from its parts. *)
From Stdlib Require Import ZArith Lia Permutation.
From stdpp Require Import base list numbers countable gmap sets.
From S2P Require Import Prelude Slice Order Shelling EmlValue Query.
#[local] Open Scope Z_scope.

Section Vars.
Context {AT : EmlAtoms} {NO : NamespaceOps}.

(** ** What a clause mentions *)

Definition arms (c : OrWhereClause) : list WhereClause := match c with Clause c => [c] | And l => l end.

(** Variables inside vector arguments do not count. *)
Inductive mentions (v : Var) : WhereClause → Prop :=
| in_pred p : ArgVariable v ∈ pred_args p → mentions v (WPred p)
| in_fn_args f : ArgVariable v ∈ fn_args f → mentions v (WFn f)
| in_fn_binding f : Some v ∈ variables (binding f) → mentions v (WFn f)
| in_annotation a : annotated a = v → mentions v (WTypeAnnotation a)
| in_entity p : causet p = NVariable v → mentions v (WPattern p)
| in_attribute p : pattern_attribute p = NVariable v → mentions v (WPattern p)
| in_value p : pattern_value p = VVariable v → mentions v (WPattern p)
| in_tx p : tx p = NVariable v → mentions v (WPattern p)
| in_not u l c : c ∈ l → mentions v c → mentions v (WNotJoin (mkNotJoin u l))
| in_or u l m oc c : oc ∈ l → c ∈ arms oc → mentions v c → mentions v (WOrJoin (mkOrJoin u l m)).

Definition join_mentions (v : Var) (o : OrJoin) : Prop := ∃ oc c, oc ∈ or_clauses o ∧ c ∈ arms oc ∧ mentions v c.

Lemma WhereClause_rect' (P : WhereClause → Prop) :
  (∀ p, P (WPred p)) → (∀ f, P (WFn f)) → P RuleExpr → (∀ p, P (WPattern p)) → (∀ a, P (WTypeAnnotation a)) →
  (∀ u l, Forall P l → P (WNotJoin (mkNotJoin u l))) →
  (∀ u l m, Forall (λ oc, Forall P (arms oc)) l → P (WOrJoin (mkOrJoin u l m))) → ∀ c, P c.
Proof.
  intros H1 H2 H3 H4 H5 H6 H7. fix IH 1.
  intros [ [u l]|[u l m]|p|f| |p|a]; [| |apply H1|apply H2|apply H3|apply H4|apply H5].
  - apply H6. induction l as [|c l IHl]; constructor; [apply IH|exact IHl].
  - apply H7. induction l as [|[c|cs] l IHl]; constructor; try exact IHl.
    + constructor; [apply IH|constructor].
    + cbn. induction cs as [|c cs IHcs]; constructor; [apply IH|exact IHcs].
Qed.

(** ** The collection *)

Lemma acc_ref_spec acc v w : w ∈ acc_ref acc v ↔ w = v ∨ w ∈ acc.
Proof. unfold acc_ref. case_bool_decide; set_solver. Qed.

(** A loop that adds to the set what each element contributes. *)
Lemma fold_acc {A} (f : gset Var → A → gset Var) (M : Var → A → Prop) l w :
  (∀ acc x, x ∈ l → w ∈ f acc x ↔ M w x ∨ w ∈ acc) → ∀ acc, w ∈ fold_left f l acc ↔ (∃ x, x ∈ l ∧ M w x) ∨ w ∈ acc.
Proof.
  induction l as [|x l IH]; intros H acc; cbn; [set_solver|].
  rewrite IH by (intros; apply H; by constructor). rewrite H by constructor. setoid_rewrite elem_of_cons. naive_solver.
Qed.

Lemma acc_args_spec acc l w : w ∈ acc_args acc l ↔ ArgVariable w ∈ l ∨ w ∈ acc.
Proof.
  unfold acc_args. rewrite (fold_acc _ (λ w a, a = ArgVariable w)).
  - split; [intros [(x & Hx & ->)|?]; auto|intros [?|?]; eauto].
  - intros a x _. destruct x; rewrite ?acc_ref_spec; naive_solver.
Qed.

Lemma acc_binding_spec acc b w : w ∈ acc_binding acc b ↔ Some w ∈ variables b ∨ w ∈ acc.
Proof.
  assert (∀ l, w ∈ fold_left (λ acc p, match p with VarPlace v => acc_ref acc v | Placeholder => acc end) l acc
    ↔ Some w ∈ map var l ∨ w ∈ acc) as Hl.
  { intros l. rewrite (fold_acc _ (λ w p, p = VarPlace w)).
    - rewrite list_elem_of_fmap. split.
      + intros [(x & Hx & ->)|?]; [left; by exists (VarPlace w)|auto].
      + intros [([|v] & E & Hx)|?]; [done| |auto]. injection E as <-. left. by exists (VarPlace w).
    - intros a x _. destruct x; rewrite ?acc_ref_spec; naive_solver. }
  destruct b; cbn [acc_binding variables]; rewrite ?Hl, ?acc_ref_spec, ?list_elem_of_singleton; naive_solver.
Qed.

Lemma acc_non_value_spec acc p w : w ∈ acc_non_value acc p ↔ p = NVariable w ∨ w ∈ acc.
Proof. destruct p; cbn; rewrite ?acc_ref_spec; naive_solver. Qed.

Lemma acc_pattern_spec acc p w : w ∈ acc_pattern acc p ↔ mentions w (WPattern p) ∨ w ∈ acc.
Proof.
  unfold acc_pattern. rewrite acc_non_value_spec.
  assert (∀ a, w ∈ match pattern_value p with VVariable v => acc_ref a v | _ => a end ↔ pattern_value p = VVariable w ∨ w ∈ a) as Hv.
  { intros a. destruct (pattern_value p); rewrite ?acc_ref_spec; naive_solver. }
  rewrite Hv, !acc_non_value_spec. split.
  - intros [?|[?|[?|[?|?]]]]; auto; left; by constructor.
  - intros [H|?]; [|auto]. inversion H; subst; auto.
Qed.

(** The loops of the joins, as folds. *)
Lemma acc_clauses_fold l acc :
  (fix go l acc := match l with [] => acc | c :: l => go l (acc_clause c acc) end) l acc
  = fold_left (λ acc c, acc_clause c acc) l acc.
Proof. revert acc. induction l; cbn; done. Qed.

Lemma acc_or_clause_fold oc acc : acc_or_clause oc acc = fold_left (λ acc c, acc_clause c acc) (arms oc) acc.
Proof. destruct oc as [c|l]; [done|]. apply acc_clauses_fold. Qed.

Lemma acc_or_join_fold u l m acc :
  acc_or_join (mkOrJoin u l m) acc = fold_left (λ acc c, acc_or_clause c acc) l acc.
Proof. cbn. revert acc. induction l; cbn; done. Qed.

Lemma acc_clause_spec c : ∀ acc w, w ∈ acc_clause c acc ↔ mentions w c ∨ w ∈ acc.
Proof.
  induction c as [p|f| |p|a|u l IH|u l m IH] using WhereClause_rect'; intros acc w; cbn [acc_clause].
  - rewrite acc_args_spec. split; [intros [?|?]; [left; by constructor|auto]|intros [H|?]; [left; by inversion H|auto] ].
  - rewrite acc_binding_spec, acc_args_spec. split.
    + intros [?|[?|?]]; [left; by apply in_fn_binding|left; by apply in_fn_args|auto].
    + intros [H|?]; [|auto]. inversion H; auto.
  - split; [auto|]. intros [H|?]; [inversion H|done].
  - apply acc_pattern_spec.
  - rewrite acc_ref_spec. split; [intros [->|?]; [left; by constructor|auto]|intros [H|?]; [left; by inversion H|auto] ].
  - change (acc_not_join (mkNotJoin u l) acc) with
      ((fix go l acc := match l with [] => acc | c :: l => go l (acc_clause c acc) end) l acc).
    rewrite acc_clauses_fold, (fold_acc _ mentions).
    + split; [intros [(c & Hc & H)|?]; [left; by eapply in_not|auto]|intros [H|?]; [left; inversion H; eauto|auto] ].
    + intros a c Hc. rewrite Forall_forall in IH. by apply IH.
  - rewrite acc_or_join_fold, (fold_acc _ (λ w oc, ∃ c, c ∈ arms oc ∧ mentions w c)).
    + split; [intros [(oc & Hoc & c & Hc & H)|?]; [left; by eapply in_or|auto]|intros [H|?]; [left; inversion H; eauto|auto] ].
    + intros a oc Hoc. rewrite Forall_forall in IH. rewrite acc_or_clause_fold. apply fold_acc.
      intros a' c Hc. specialize (IH oc Hoc). rewrite Forall_forall in IH. by apply IH.
Qed.

Lemma collect_spec o w : w ∈ collect_mentioned_variables o ↔ join_mentions w o.
Proof.
  destruct o as [u l m]. pose proof (acc_clause_spec (WOrJoin (mkOrJoin u l m)) ∅ w) as H. cbn [acc_clause] in H.
  unfold collect_mentioned_variables. rewrite H. unfold join_mentions. cbn [or_clauses]. split.
  - intros [Hm|?%elem_of_empty]; [|done]. inversion Hm; eauto.
  - intros (oc & c & Hoc & Hc & Hm). left. by eapply in_or.
Qed.


(** ** The cache of a join *)

Definition cache_ok (o : OrJoin) : Prop :=
  match or_mentioned_vars o with None => True | Some m => m = collect_mentioned_variables o end.

Lemma cached o : cache_ok o →
  match or_mentioned_vars o with Some m => m | None => collect_mentioned_variables o end = collect_mentioned_variables o.
Proof. unfold cache_ok. by destruct (or_mentioned_vars o). Qed.

Lemma is_fully_unified_collect o : cache_ok o → is_fully_unified o
  = match or_unify_vars o with
    | Implicit_ => true
    | Explicit vars => bool_decide (size vars = size (collect_mentioned_variables o))
    end.
Proof. unfold is_fully_unified, cache_ok. destruct (or_unify_vars o); [done|]. by destruct (or_mentioned_vars o) as [m|]; [intros ->|]. Qed.

(** Comparing counts is comparing sets: for a join whose listed variables are all
    mentioned, as validation makes sure, [is_fully_unified] holds exactly when there is
    no list, or every variable mentioned is listed. *)
Theorem fully_unified_exact o : cache_ok o →
  match or_unify_vars o with
  | Implicit_ => is_fully_unified o = true
  | Explicit vars => (∀ v, v ∈ vars → join_mentions v o) →
      is_fully_unified o = true ↔ ∀ v, join_mentions v o → v ∈ vars
  end.
Proof.
  intros Hc. rewrite (is_fully_unified_collect o Hc). destruct (or_unify_vars o) as [|vars]; [done|]. intros Hsub.
  rewrite bool_decide_eq_true. setoid_rewrite <- collect_spec. setoid_rewrite <- collect_spec in Hsub. split.
  - intros Hs v Hv. assert (vars = collect_mentioned_variables o) as ->; [|done].
    apply leibniz_equiv, set_subseteq_size_equiv; [done|lia].
  - intros H. f_equal. set_solver.
Qed.

(** The cache is never seen: a new join has none; filling it gives the variables
    the clauses mention, does not panic, and changes neither the answer of
    [is_fully_unified] nor what the join is taken apart into. *)
Theorem cache_transparent o : (∀ u l, cache_ok (OrJoin_new u l)) ∧
  (cache_ok o → let '(o', r) := mentioned_variables o in
    r = Ret (collect_mentioned_variables o) ∧ cache_ok o' ∧ or_mentioned_vars o' = Some (collect_mentioned_variables o)
    ∧ is_fully_unified o' = is_fully_unified o
    ∧ dismember o' = dismember o
    ∧ dismember o = (or_clauses o, or_unify_vars o, collect_mentioned_variables o)).
Proof.
  split; [done|]. intros Hc. unfold mentioned_variables.
  assert (Hd : dismember o = (or_clauses o, or_unify_vars o, collect_mentioned_variables o)).
  { unfold dismember. by rewrite cached. }
  destruct (or_mentioned_vars o) as [m|] eqn:Em.
  - assert (m = collect_mentioned_variables o) as -> by (unfold cache_ok in Hc; by rewrite Em in Hc). rewrite Em. done.
  - set (o' := mkOrJoin _ _ _). assert (Hc' : cache_ok o').
    { unfold cache_ok, o'. cbn [or_mentioned_vars]. by destruct o. }
    assert (Ecol : collect_mentioned_variables o' = collect_mentioned_variables o) by (by destruct o).
    assert (Eun : or_unify_vars o' = or_unify_vars o) by (by destruct o).
    cbv beta iota zeta. split_and!; try done.
    + rewrite !is_fully_unified_collect by done. by rewrite Ecol, Eun.
Qed.
End Vars.

Section Laws.
Context {AT : EmlAtoms} {NO : NamespaceOps} {NL : NamespaceLaws}.

(** ** Places *)

(** Entity identifiers are not negative. *)
Definition place_ok (p : PatternNonValuePlace) : Prop := match p with NCausetid x => 0 <= x | _ => True end.

Lemma place_back p : place_ok p → to_pattern_non_causet_locale_place (to_pattern_causet_locale_place p) = Some p.
Proof. destruct p; try done. cbn. by intros ->%Z.leb_le. Qed.

Lemma place_forth v p : to_pattern_non_causet_locale_place v = Some p → place_ok p ∧ to_pattern_causet_locale_place p = v.
Proof. destruct v; cbn; try (intros [= <-]; done). destruct (Z.leb_spec 0 i); [|done]. by intros [= <-]. Qed.

Lemma var_from_shelling_exact s :
  var_from_shelling s = Ret (if starts_with s QUESTION then Some (mkVar (mkPlain s)) else None).
Proof. unfold var_from_shelling, shelling_plain. by destruct s as [|x s]; [|destruct (starts_with (x :: s) QUESTION)]. Qed.

Lemma non_value_place_ok v p : non_value_from_causet_locale v = Ret (Some p) → place_ok p.
Proof.
  destruct v as [sp v]. unfold non_value_from_causet_locale. destruct v; cbn [snd]; try done.
  - destruct (Z.leb_spec 0 i); [|done]. by intros [= <-].
  - case_bool_decide; [by intros [= <-]|]. rewrite var_from_shelling_exact. cbn [mbind outcome_bind].
    destruct (starts_with _ _); [by intros [= <-]|done].
  - by intros [= <-].
Qed.

(** C38. The places of a pattern are well formed: reading an entity, attribute or
    transaction place never panics and never gives a negative identifier, and building
    a pattern from such places, reversed or not, gives a pattern whose entity,
    attribute and transaction places are again such. *)
Theorem pattern_well_formed :
  (∀ v, ∃ p, non_value_from_causet_locale v = Ret p ∧ ∀ q, p = Some q → place_ok q)
  ∧ ∀ src e a v t p, place_ok e → place_ok a → place_ok t → Pattern_new src e a v t = Ret (Some p) →
      place_ok (causet p) ∧ place_ok (pattern_attribute p) ∧ place_ok (tx p).
Proof.
  split.
  - intros v. assert (∃ p, non_value_from_causet_locale v = Ret p) as [p E].
    { destruct v as [sp v]. unfold non_value_from_causet_locale. destruct v; cbn [snd]; eauto.
      case_bool_decide; [by eauto|]. rewrite var_from_shelling_exact. cbn. eauto. }
    exists p. split; [done|]. intros q ->. by apply (non_value_place_ok v).
  - intros src e a v t p He Ha Ht. unfold Pattern_new. destruct a as [|x|x|k]; try (by intros [= <-]).
    destruct (is_spacelike_completion k); [|by intros [= <-] ].
    destruct (to_pattern_non_causet_locale_place v) as [q|] eqn:Eq; [|done]. destruct (place_forth _ _ Eq) as [Hq _].
    destruct (to_reversed k); [|done]. cbn. by intros [= <-].
Qed.

(** ** Reversed patterns *)

Lemma spacelike_reversed k k' : is_spacelike_completion k = false → to_reversed k = Ret k' →
  is_spacelike_completion k' = true ∧ to_reversed k' = Ret k.
Proof.
  intros Hk E. change (starts_with (keyword_name k) UNDERSCORE = false) in Hk.
  destruct (decide (keyword_name k = [UNDERSCORE])) as [Hu|Hu]; [by rewrite Hu in Hk|].
  destruct (to_reversed_ok k Hu) as (k1 & E1 & _ & Hn). rewrite E1 in E. injection E as ->. split.
  - change (starts_with (keyword_name k') UNDERSCORE = true). rewrite Hn. unfold flip_name. by rewrite Hk.
  - apply (to_reversed_back k k' E1). by rewrite Hk.
Qed.

(** A pattern written with the reversed form of an attribute is the pattern written
    with the attribute and its two ends exchanged, and there is none exactly when the
    value cannot be an entity: when it is a constant or a negative integer. *)
Theorem reversed_pattern src e k k' v t : is_spacelike_completion k = false → to_reversed k = Ret k' →
  (∀ ve, to_pattern_non_causet_locale_place v = Some ve →
     Pattern_new src e (NSolitonid k') v t
     = Pattern_new src ve (NSolitonid k) (to_pattern_causet_locale_place e) t)
  ∧ (Pattern_new src e (NSolitonid k') v t = Ret None
     ↔ match v with VConstant _ => True | VCausetidOrInteger x => x < 0 | _ => False end).
Proof.
  intros Hk E. destruct (spacelike_reversed k k' Hk E) as [Hk' E']. unfold Pattern_new. rewrite Hk, Hk', E'. split.
  - by intros ve ->.
  - destruct v; cbn; try done. destruct (Z.leb_spec 0 i); cbn; split; done || lia.
Qed.

(** An attribute is only left in its reversed form in a pattern when the one it was
    written with begins with two underscores. *)
Theorem pattern_attribute_forward src e a v t p k : Pattern_new src e a v t = Ret (Some p) →
  pattern_attribute p = NSolitonid k → is_spacelike_completion k = true →
  ∃ k0, a = NSolitonid k0 ∧ starts_with (keyword_name k0) UNDERSCORE = true
        ∧ starts_with (tail (keyword_name k0)) UNDERSCORE = true.
Proof.
  unfold Pattern_new. intros Hp Hk Hs. destruct a as [|x|x|k0]; try (by injection Hp as <-).
  exists k0. split; [done|]. destruct (is_spacelike_completion k0) eqn:E0.
  - destruct (to_pattern_non_causet_locale_place v); [|done]. destruct (to_reversed k0) as [k1|] eqn:E1; [|done].
    cbn in Hp. injection Hp as <-. cbn in Hk. injection Hk as ->.
    change (starts_with (keyword_name k0) UNDERSCORE = true) in E0. split; [done|].
    destruct (decide (keyword_name k0 = [UNDERSCORE])) as [Hu|Hu]; [by rewrite to_reversed_underscore in E1|].
    destruct (to_reversed_ok k0 Hu) as (k2 & E2 & _ & Hn). rewrite E2 in E1. injection E1 as ->.
    change (starts_with (keyword_name k) UNDERSCORE = true) in Hs. rewrite Hn in Hs. unfold flip_name in Hs. by rewrite E0 in Hs.
  - injection Hp as <-. cbn in Hk. injection Hk as ->. congruence.
Qed.

(** ** Bindings *)

Definition bound (b : Binding) : list Var := omap id (variables b).

Lemma distinct_vars_exact l : ∀ acc, distinct_vars acc l
  = if bool_decide (NoDup (omap var l) ∧ Forall (λ v, v ∉ acc) (omap var l))
    then Some (list_to_set (omap var l) ∪ acc) else None.
Proof.
  induction l as [|[|v] l IH]; intros acc; cbn [distinct_vars].
  - rewrite bool_decide_eq_true_2; [cbn; f_equal; set_solver|]. split; constructor.
  - apply IH.
  - cbn [omap list_omap var]. case_bool_decide as Hv.
    + rewrite bool_decide_eq_false_2; [done|]. by intros [_ [H _]%Forall_cons_1].
    + rewrite IH. match goal with |- context [bool_decide ?P] => destruct (bool_decide_reflect P) as [ [Hn Hd]|H] end.
      * rewrite bool_decide_eq_true_2; [cbn; f_equal; set_solver|]. rewrite Forall_forall in Hd. split.
        -- constructor; [|done]. intros Hin. apply (Hd v Hin). set_solver.
        -- constructor; [done|]. apply Forall_forall. intros w Hw Ha. apply (Hd w Hw). set_solver.
      * rewrite bool_decide_eq_false_2; [done|]. intros [Hn Hd]. apply H. apply NoDup_cons in Hn as [Hnv Hn].
        split; [done|]. apply Forall_cons_1 in Hd as [_ Hd]. rewrite Forall_forall in Hd |- *.
        intros w Hw. rewrite elem_of_union, elem_of_singleton. intros [->|Ha]; [done|]. by apply (Hd w).
Qed.

Lemma bound_places l : omap id (map var l) = omap var l.
Proof. induction l as [|[|v] l IH]; cbn; congruence. Qed.

(** A binding is valid exactly when it binds some variable and none twice, and empty
    exactly when it binds none. *)
Theorem binding_valid b :
  (is_valid b = true ↔ NoDup (bound b) ∧ bound b ≠ []) ∧ (binding_is_empty b = true ↔ bound b = []).
Proof.
  assert (Hl : ∀ l, match distinct_vars ∅ l with None => false | Some acc => negb (bool_decide (acc = ∅)) end = true
    ↔ NoDup (omap var l) ∧ omap var l ≠ []).
  { intros l. rewrite distinct_vars_exact. match goal with |- context [@bool_decide ?P ?D] => destruct (@bool_decide_reflect P D) as [ [Hn Hd]|H] end.
    - rewrite negb_true_iff, bool_decide_eq_false. split; [intros He; split; [done|]; intros E; rewrite E in He; set_solver|].
      intros [_ He] E. destruct (omap var l) as [|v vs]; [done|]. set_solver.
    - split; [done|]. intros [Hn _]. destruct H. split; [done|]. apply Forall_forall. intros v _. apply not_elem_of_empty. }
  assert (He : ∀ l, forallb (λ x, match var x with None => true | Some _ => false end) l = true ↔ omap var l = []).
  { intros l. induction l as [|[|v] l IH]; cbn; done. }
  assert (H1 : ∀ v : Var, NoDup [v] ∧ [v] ≠ []) by (intros v; split; [apply NoDup_singleton|done]).
  unfold bound. destruct b; cbn [is_valid binding_is_empty variables]; rewrite ?bound_places; cbn;
    try (split; [by split|by split]); by split.
Qed.
End Laws.

(** A query specification has as many columns as it says, and it needs no duplicate
    removal exactly when it gives at most one result. *)
Theorem find_spec_columns `{EmlAtoms} (f : FindSpec) :
  length (columns f) = expected_column_count f ∧ (requires_distinct f = false ↔ is_unit_limited f = true).
Proof. destruct f; done. Qed.

#[export] Instance PartKind_eq_dec : EqDecision PartKind.
Proof. solve_decision. Defined.

Section Parts.
Context {AT : EmlAtoms} {NO : NamespaceOps}.

Definition part_kind (p : QueryPart) : PartKind :=
  match p with
  | PFindSpec _ => KFind | PWithVars _ => KWith | PInVars _ => KIn
  | PLimit _ => KLimit | PWhereClauses _ => KWhere | PPartition _ => KOrder
  end.

Definition as_find (p : QueryPart) := match p with PFindSpec x => Some x | _ => None end.
Definition as_with (p : QueryPart) := match p with PWithVars x => Some x | _ => None end.
Definition as_in (p : QueryPart) := match p with PInVars x => Some x | _ => None end.
Definition as_limit (p : QueryPart) := match p with PLimit x => Some x | _ => None end.
Definition as_where (p : QueryPart) := match p with PWhereClauses x => Some x | _ => None end.
Definition as_order (p : QueryPart) := match p with PPartition x => Some x | _ => None end.

(** The part of a kind, when there is one. *)
Definition pick {A} (f : QueryPart → option A) (parts : list QueryPart) : option A := head (omap f parts).

(** The first part whose kind was there before. *)
Fixpoint repeated_kind (seen : list PartKind) (parts : list QueryPart) : option PartKind :=
  match parts with
  | [] => None
  | p :: parts =>
      if decide (part_kind p ∈ seen) then Some (part_kind p) else repeated_kind (part_kind p :: seen) parts
  end.

(** The kinds gathered so far. *)
Definition filled (s : Parts) (k : PartKind) : bool :=
  match k with
  | KFind => if p_find s then true else false | KWith => if p_with s then true else false
  | KIn => if p_in s then true else false | KLimit => if p_limit s then true else false
  | KWhere => if p_where s then true else false | KOrder => if p_order s then true else false
  end.

Definition or_else {A} (a b : option A) : option A := match a with Some _ => a | None => b end.

Definition gather (s : Parts) (parts : list QueryPart) : Parts :=
  mkParts (or_else (p_find s) (pick as_find parts)) (or_else (p_with s) (pick as_with parts))
    (or_else (p_in s) (pick as_in parts)) (or_else (p_limit s) (pick as_limit parts))
    (or_else (p_where s) (pick as_where parts)) (or_else (p_order s) (pick as_order parts)).

Lemma add_part_exact s p : add_part s p
  = if filled s (part_kind p) then inl (Repeated (part_kind p)) else inr (gather s [p]).
Proof. destruct s as [[] [] [] [] [] []], p; reflexivity. Qed.

Lemma filled_gather s p k : filled s (part_kind p) = false → filled (gather s [p]) k = bool_decide (k = part_kind p) || filled s k.
Proof. destruct s as [[] [] [] [] [] []], p, k; cbn; done. Qed.

Lemma gather_cons s p parts : filled s (part_kind p) = false → gather (gather s [p]) parts = gather s (p :: parts).
Proof. destruct s as [[] [] [] [] [] []], p; cbn; done. Qed.

Lemma add_parts_exact parts : ∀ s seen, (∀ k, filled s k = bool_decide (k ∈ seen)) → add_parts s parts
  = match repeated_kind seen parts with Some k => inl (Repeated k) | None => inr (gather s parts) end.
Proof.
  induction parts as [|p parts IH]; intros s seen Hs; cbn [add_parts repeated_kind].
  - destruct s as [[] [] [] [] [] []]; reflexivity.
  - rewrite add_part_exact, Hs. case_decide as Hp.
    + by rewrite bool_decide_eq_true_2.
    + rewrite bool_decide_eq_false_2 by done. assert (Hf : filled s (part_kind p) = false) by (rewrite Hs; by apply bool_decide_eq_false_2).
      rewrite (IH _ (part_kind p :: seen)), gather_cons; [done|done|]. intros k. rewrite filled_gather, Hs by done.
      apply Bool.eq_iff_eq_true. rewrite orb_true_iff, !bool_decide_eq_true, elem_of_cons. done.
Qed.

Lemma gather_none parts : gather (mkParts None None None None None None) parts
  = mkParts (pick as_find parts) (pick as_with parts) (pick as_in parts) (pick as_limit parts) (pick as_where parts) (pick as_order parts).
Proof. reflexivity. Qed.

Lemma from_parts_spec parts : from_parts parts
  = match repeated_kind [] parts with
    | Some k => inl (Repeated k)
    | None =>
        match pick as_find parts, pick as_where parts with
        | None, _ => inl (Expected KFind)
        | Some _, None => inl (Expected KWhere)
        | Some f, Some c =>
            inr (mkParsed f DefaultSrc (default [] (pick as_with parts)) (default [] (pick as_in parts)) []
                   (default LNone (pick as_limit parts)) c (pick as_order parts))
        end
    end.
Proof.
  unfold from_parts. rewrite (add_parts_exact _ _ []) by (by intros []). destruct (repeated_kind [] parts); [done|].
  rewrite gather_none. unfold finish_parts. cbn. by destruct (pick as_find parts), (pick as_where parts).
Qed.

(** Assembling a query fails with the first part whose kind was there before; without
    one, with the missing [:find], then with the missing [:where]; otherwise it gives
    the query with those parts, the absent ones empty. *)
Theorem from_parts_exact parts : from_parts parts
  = match repeated_kind [] parts with
    | Some k => inl (Repeated k)
    | None =>
        match pick as_find parts, pick as_where parts with
        | None, _ => inl (Expected KFind)
        | Some _, None => inl (Expected KWhere)
        | Some f, Some c =>
            inr (mkParsed f DefaultSrc (default [] (pick as_with parts)) (default [] (pick as_in parts)) []
                   (default LNone (pick as_limit parts)) c (pick as_order parts))
        end
    end.
Proof. apply from_parts_spec. Qed.

(** ** The order of the parts *)

Lemma repeated_none parts : ∀ seen, repeated_kind seen parts = None ↔
  NoDup (map part_kind parts) ∧ ∀ k, k ∈ map part_kind parts → k ∉ seen.
Proof.
  induction parts as [|p parts IH]; intros seen; cbn [repeated_kind map].
  - split; [intros _|done]. split; [constructor|]. by intros k ?%elem_of_nil.
  - case_decide as Hp.
    + split; [done|]. intros [_ H]. destruct (H (part_kind p)); [constructor|done].
    + rewrite IH, NoDup_cons. setoid_rewrite elem_of_cons. split.
      * intros [Hn H]. split; [split; [|done]|].
        -- intros Hk. apply (H _ Hk). auto.
        -- intros k [->|Hk]; [done|]. intros Hs. apply (H k Hk). auto.
      * intros [ [Hk Hn] H]. split; [done|]. intros k Hin [->|Hs]; [done|]. by apply (H k); auto.
Qed.

Lemma pick_at_most {A} (f : QueryPart → option A) k parts : (∀ p x, f p = Some x → part_kind p = k) →
  NoDup (map part_kind parts) → ∀ x, pick f parts = Some x ↔ ∃ p, p ∈ parts ∧ f p = Some x.
Proof.
  intros Hf. induction parts as [|p parts IH]; cbn [map]; intros Hn x; unfold pick in *; cbn.
  - split; [done|]. by intros (p & ?%elem_of_nil & _).
  - apply NoDup_cons in Hn as [Hp Hn]. setoid_rewrite elem_of_cons. destruct (f p) as [y|] eqn:E; cbn.
    + split; [intros [= ->]; eauto|]. intros (q & [->|Hq] & Eq); [congruence|]. destruct Hp.
      rewrite (Hf p y E), <- (Hf q x Eq). apply list_elem_of_fmap. eauto.
    + etransitivity; [exact (IH Hn x)|]. split; [intros (q & ? & ?); eauto|].
      intros (q & [->|?] & ?); [congruence|eauto].
Qed.

Lemma pick_perm {A} (f : QueryPart → option A) k parts parts' : (∀ p x, f p = Some x → part_kind p = k) →
  NoDup (map part_kind parts) → Permutation parts parts' → pick f parts = pick f parts'.
Proof.
  intros Hf Hn Hp. assert (Hn' : NoDup (map part_kind parts')).
  { by rewrite <- (Permutation_map part_kind Hp). }
  apply option_eq. intros x. rewrite !(pick_at_most f k) by done. by setoid_rewrite Hp.
Qed.

(** Parts that make a query make the same query in any order. *)
Theorem from_parts_order parts parts' q : Permutation parts parts' →
  from_parts parts = inr q → from_parts parts' = inr q.
Proof.
  intros Hp. rewrite !from_parts_spec. destruct (repeated_kind [] parts) as [k|] eqn:E; [done|].
  apply repeated_none in E as [Hn _]. assert (repeated_kind [] parts' = None) as ->.
  { apply repeated_none. rewrite <- (Permutation_map part_kind Hp). split; [done|]. intros k _ ?%elem_of_nil. done. }
  rewrite <- (pick_perm as_find KFind parts parts'), <- (pick_perm as_where KWhere parts parts'),
    <- (pick_perm as_with KWith parts parts'), <- (pick_perm as_in KIn parts parts'),
    <- (pick_perm as_limit KLimit parts parts'), <- (pick_perm as_order KOrder parts parts'); try done; by intros [].
Qed.
End Parts.
