(* ===== verification/QuerySample.v ===== *)
(** * QuerySample: concrete names, values and queries

    Constructors of namespaces and a clock that follow the laws of [NamespaceOps] and
    [EmlAtoms], and the theorems on queries and values at concrete inputs. *)
From Stdlib Require Import ZArith Lia Permutation Sorted.
From stdpp Require Import base list numbers countable gmap sets.
From S2P Require Import Prelude Slice Order Shelling EmlValue EmlOrder Query QueryLaws.
#[local] Open Scope Z_scope.

#[local] Notation zlen l := (Z.of_nat (length l)).

(** ** Namespaces *)

Definition make_namespace (c : list Z) (b : Z) : outcome IsolatedNamespace :=
  match decide (Is_true (valid_namespace c b)) with left H => Ret (mkNamespace c b H) | right _ => Panic end.

#[export] Instance sample_namespaces : NamespaceOps := {|
  ns_plain := λ n, make_namespace n 0;
  isoliton_namespaceable := λ ns n,
    match ns, n with [], _ | _, [] => Panic | _, _ => make_namespace (ns ++ SLASH :: n) (zlen ns) end;
  ns_name := λ s, (ns_parts s).2;
  isolate_namespace_file := λ s, if 0 <? ns_boundary s then Some (ns_parts s).1 else None;
|}.

Lemma make_namespace_ok c b : valid_namespace c b = true → ∃ s, make_namespace c b = Ret s ∧ ns_components s = c ∧ ns_boundary s = b.
Proof.
  intros H. unfold make_namespace. destruct (decide (Is_true (valid_namespace c b))) as [Hv|Hv]; [by eexists|].
  destruct Hv. by apply Is_true_true.
Qed.

#[export] Instance sample_namespace_laws : NamespaceLaws.
Proof.
  split; cbn [ns_plain isoliton_namespaceable ns_name isolate_namespace_file sample_namespaces].
  - done.
  - intros n Hn. apply make_namespace_ok. unfold valid_namespace. cbn. by apply bool_decide_eq_true.
  - intros ns n [->| ->]; [done|by destruct ns].
  - intros [|x ns] [|y n] Hns Hn; try done. apply make_namespace_ok. unfold valid_namespace.
    rewrite (proj2 (Z.eqb_neq _ 0)), (proj2 (Z.ltb_lt 0 _)), Nat2Z.id by (cbn [length]; lia).
    rewrite list_lookup_middle, bool_decide_eq_true_2 by done. cbn [andb]. apply Z.ltb_lt.
    rewrite length_app. cbn [length]. lia.
  - intros s p. rewrite components_parts. by intros [= <-].
  - intros s p. rewrite components_parts. by intros [= <-].
Qed.

(** ** Instants, identifiers, floats *)

#[export] Instance sample_atoms : EmlAtoms := {|
  DateTime := Z * Z;
  Uuid := list Z;
  OrderedFloat := Z;
  dt_cmp := pair_cmp Z.compare Z.compare;
  uuid_cmp := bytes_cmp;
  float_cmp := Z.compare;
  utc_timestamp := λ s n, if (Z.abs s <=? CHRONO_SECS) && (0 <=? n) && (n <? 2000000000) then Ret (s, n) else Panic;
  dt_timestamp := λ d, d.1;
  timestamp_subsec_micros := λ d, d.2 / 1000;
  timestamp_subsec_millis := λ d, d.2 / 1000000;
|}.

#[export] Instance sample_atoms_laws : EmlAtomsLaws.
Proof.
  split; try apply _. intros s n Hs Hn. exists (s, n). cbn [utc_timestamp sample_atoms]. split; [|done].
  rewrite (proj2 (Z.leb_le _ _)), (proj2 (Z.leb_le _ _)), (proj2 (Z.ltb_lt _ _)) by lia. done.
Qed.

(** ** Names and their reversal *)

Definition kw (ns name : list Z) : Keyword :=
  match keyword_isolate_namespace ns name with Ret k => k | Panic => mkKeyword (mkNamespace [120] 0 I) end.

(** [:p/f], [:p/_f], [:p/__f], [:p/_] *)
Definition kf : Keyword := kw [112] [102].
Definition kr : Keyword := kw [112] [95; 102].
Definition kr2 : Keyword := kw [112] [95; 95; 102].
Definition ku : Keyword := kw [112] [95].

Example reversal_tests : to_reversed kf = Ret kr ∧ to_reversed kr = Ret kf ∧ to_reversed kr2 = Ret kr ∧ to_reversed ku = Panic
  ∧ keyword_display kr = [58; 112; 47; 95; 102] ∧ unreversed kr = Ret (Some kf) ∧ unreversed kf = Ret None.
Proof. by vm_compute. Qed.

Lemma reversal_exact_witness :
  (keyword_name ku = [UNDERSCORE] → to_reversed ku = Panic)
  ∧ (keyword_name ku ≠ [UNDERSCORE] → ∃ k', to_reversed ku = Ret k'
      ∧ isolate_namespace_file (keyword_ns k') = isolate_namespace_file (keyword_ns ku)
      ∧ keyword_name k' = flip_name (keyword_name ku)
      ∧ (to_reversed k' = Ret ku ↔ starts_with (keyword_name ku) UNDERSCORE && starts_with (tail (keyword_name ku)) UNDERSCORE = false)).
Proof. exact (reversal_exact ku). Defined.

Lemma deserialize_exact_witness : ns_deserialize (Some [112]) [102] = Ret (Some (keyword_ns kf))
  ∧ ∃ s, ns_deserialize (Some [112]) [102] = Ret (Some s) ∧ isolate_namespace_file s = Some [112] ∧ ns_name s = [102].
Proof.
  destruct (deserialize_exact (Some [112]) [102]) as (_ & H & _). split; [by vm_compute|]. by apply H.
Defined.

(** The sorted array of [test_order]: [a/aa], [a/ab], [aa/a], [aa/b], [b/ab], [ba/b], [z/zz]. *)
Example namespace_order_test :
  let ks := map (λ p, keyword_ns (kw p.1 p.2)) [([97], [97; 97]); ([97], [97; 98]); ([97; 97], [97]); ([97; 97], [98]);
    ([98], [97; 98]); ([98; 97], [98]); ([122], [122; 122])] in
  forallb (λ p, match ns_cmp p.1 p.2 with Lt => true | _ => false end) (zip ks (tail ks)) = true.
Proof. by vm_compute. Qed.

(** ** Values *)

Definition at_ (v : Val Span) (n : Z) : Span * Val Span := (mkSpan n (n + 1), v).
Definition v_small : Val Span := Set_ [at_ (Vector [at_ (Integer 1) 4]) 3; at_ (Vector [at_ (Integer 2) 7]) 6].
Definition v_big : Val Span := Map_ [(at_ (Keyword_ kf) 1, at_ v_small 2)].

Example value_order_tests :
  val_cmp (S := unit) (Boolean false) (Boolean true) = Gt ∧ val_cmp (S := unit) (Integer 1) (Integer 2) = Gt
  ∧ val_cmp (S := unit) (Vector []) (Vector []) = Eq ∧ val_cmp v_small v_big = Lt
  ∧ val_cmp (S := unit) (Vector [(tt, Integer 1)]) (Vector [(tt, Integer 2)]) = Lt.
Proof. by vm_compute. Qed.

Lemma value_order_witness :
  val_cmp v_big v_small = CompOpp (val_cmp v_small v_big)
  ∧ (∀ c, val_cmp v_small v_big = c → val_cmp v_big v_small = c → val_cmp v_small v_small = c)
  ∧ (val_cmp v_small v_big = Eq → val_cmp v_small v_small = val_cmp v_big v_small)
  ∧ (kind v_small ≠ kind v_big → val_cmp v_small v_big = (precedence v_small ?= precedence v_big)).
Proof. exact (value_order v_small v_big v_small). Defined.

Lemma v_small_ordered : ordered v_small.
Proof.
  apply ordered_set; [|repeat constructor].
  do 2 (constructor; [apply ordered_vector; repeat constructor|]). constructor.
Qed.

Lemma v_big_ordered : ordered v_big.
Proof.
  apply ordered_map; [|repeat constructor]. constructor; [|constructor].
  split; [by constructor|apply v_small_ordered].
Qed.

Lemma positions_dropped_witness : without_spans v_big = strip v_big ∧ ordered (without_spans v_big)
  ∧ val_cmp (without_spans v_big) (without_spans v_small) = val_cmp v_big v_small.
Proof. exact (positions_dropped v_big v_small v_big_ordered v_small_ordered). Defined.

Lemma micros_back_witness : (d ← from_micros (-1500000); to_micros d) = Ret (-500000).
Proof. exact (micros_back (-1500000) ltac:(lia)). Defined.

Lemma millis_lost_witness : (d ← from_millis 1999; to_millis d) = Ret 1000.
Proof. exact (millis_lost 1999 ltac:(lia)). Defined.

(** ** Patterns *)

Definition vx : Var := mkVar (mkPlain [63; 120]).
Definition vy : Var := mkVar (mkPlain [63; 121]).

Lemma pattern_well_formed_witness :
  Pattern_new None (NVariable vx) (NSolitonid kr) (VCausetidOrInteger 7) NPlaceholder
    = Ret (Some (mkPattern None (NCausetid 7) (NSolitonid kf) (VVariable vx) NPlaceholder))
  ∧ place_ok (NCausetid 7) ∧ place_ok (NSolitonid kf) ∧ place_ok NPlaceholder.
Proof.
  split; [reflexivity|]. destruct pattern_well_formed as [_ H].
  exact (H None (NVariable vx) (NSolitonid kr) (VCausetidOrInteger 7) NPlaceholder
    (mkPattern None (NCausetid 7) (NSolitonid kf) (VVariable vx) NPlaceholder) I I I eq_refl).
Defined.

Lemma reversed_pattern_witness :
  (is_spacelike_completion kf = false ∧ to_reversed kf = Ret kr)
  ∧ (∀ ve, to_pattern_non_causet_locale_place (VCausetidOrInteger (-1)) = Some ve →
       Pattern_new None (NVariable vx) (NSolitonid kr) (VCausetidOrInteger (-1)) NPlaceholder
       = Pattern_new None ve (NSolitonid kf) (VVariable vx) NPlaceholder)
  ∧ (Pattern_new None (NVariable vx) (NSolitonid kr) (VCausetidOrInteger (-1)) NPlaceholder = Ret None ↔ -1 < 0).
Proof.
  split; [repeat split; reflexivity|].
  exact (reversed_pattern None (NVariable vx) kf kr (VCausetidOrInteger (-1)) NPlaceholder eq_refl eq_refl).
Defined.

Lemma pattern_attribute_forward_witness :
  Pattern_new None (NVariable vx) (NSolitonid kr2) (VVariable vy) NPlaceholder
    = Ret (Some (mkPattern None (NVariable vy) (NSolitonid kr) (VVariable vx) NPlaceholder))
  ∧ ∃ k0, NSolitonid kr2 = NSolitonid k0 ∧ starts_with (keyword_name k0) UNDERSCORE = true
          ∧ starts_with (tail (keyword_name k0)) UNDERSCORE = true.
Proof.
  split; [reflexivity|].
  exact (pattern_attribute_forward None (NVariable vx) (NSolitonid kr2) (VVariable vy) NPlaceholder
    (mkPattern None (NVariable vy) (NSolitonid kr) (VVariable vx) NPlaceholder) kr
    eq_refl eq_refl eq_refl).
Defined.

(** ** Joins *)

Definition pat (a b : Var) : WhereClause := WPattern (mkPattern None (NVariable a) (NSolitonid kf) (VVariable b) NPlaceholder).
Definition join (vars : list Var) : OrJoin := OrJoin_new (Explicit (list_to_set vars)) [Clause (pat vx vy); And [pat vy vx]].

Lemma join_listed : ∀ v, v ∈ (list_to_set [vx] : gset Var) → join_mentions v (join [vx]).
Proof.
  intros v Hv. exists (Clause (pat vx vy)), (pat vx vy). split_and!; [constructor|constructor|].
  apply in_entity. cbn. f_equal. set_solver.
Qed.

Lemma fully_unified_exact_witness : cache_ok (join [vx])
  ∧ (is_fully_unified (join [vx]) = true ↔ ∀ v, join_mentions v (join [vx]) → v ∈ (list_to_set [vx] : gset Var)).
Proof. split; [exact I|]. exact (fully_unified_exact (join [vx]) I join_listed). Defined.

Lemma cache_transparent_witness : is_fully_unified (mentioned_variables (join [vx])).1 = is_fully_unified (join [vx]).
Proof.
  destruct (cache_transparent (join [vx])) as [_ H]. specialize (H I).
  destruct (mentioned_variables (join [vx])) as [o' r]. exact (proj1 (proj2 (proj2 (proj2 H)))).
Defined.

(** ** Queries *)

Definition parts : list QueryPart := [PWhereClauses [pat vx vy]; PFindSpec (FindScalar (EVariable vx)); PLimit (LFixed 3)].
Definition query : ParsedQuery := mkParsed (FindScalar (EVariable vx)) DefaultSrc [] [] [] (LFixed 3) [pat vx vy] None.

Example repeated_limit : from_parts (parts ++ [PLimit LNone]) = inl (Repeated KLimit).
Proof. reflexivity. Qed.

Lemma from_parts_order_witness : from_parts parts = inr query ∧ from_parts (rev parts) = inr query.
Proof. split; [reflexivity|]. exact (from_parts_order parts (rev parts) query (Permutation_rev parts) eq_refl). Defined.
