(* ===== verification/TypedValue.v ===== *)
(** * TypedValue: typed values and the two forms they are stored and read in

    [einstein_db/src/einsteindb.rs] (trait [TypedBerolinaSQLValue] and its instance) and
    [fdb_traits/src/schema.rs] ([TopographTypeChecking]).  A typed value goes to the SQL
    store as a column value and a type tag, and to the query notation as a [Value] and a
    [ValueType].

    UUIDs and floats have their byte and machine forms in other crates, and so has the
    function that reads a keyword from text: the class [CausetAtoms]. *)
From Stdlib Require Import ZArith Lia.
From stdpp Require Import base list numbers.
From S2P Require Import Prelude Slice Order Shelling EmlValue.
#[local] Open Scope Z_scope.

Inductive ValueType := VT_Ref | VT_Boolean | VT_Instant | VT_Long | VT_Double | VT_String | VT_Uuid | VT_Keyword.

#[export] Instance ValueType_eq_dec : EqDecision ValueType.
Proof. solve_decision. Defined.

(** Which assertion about an attribute was refused: one constructor for each message. *)
Inductive BadAssertion :=
| UniqueValueNotIndexed | UniqueIdcausetNotIndexed | FulltextNotString | FulltextNotIndexed | ComponentNotRef
| NoValueType | AlteredValueType | AlteredFulltext
| DefiningAttributesWithoutSolitonid
| RetractedWrongIsComponent | RetractedWrongUnique | RetractedUniqueNotRef | RetractNotPermitted
| ExpectedType | ExpectedCardinality | ExpectedIndex | ExpectedUnique | ExpectedFulltext
| UnknownAttribute.

Section Typed.
Context {AT : EmlAtoms}.

Inductive causetq_TV :=
| TV_Ref (x : Z)
| TV_Boolean (b : bool)
| TV_Long (x : Z)
| TV_Double (x : OrderedFloat)
| TV_Instant (x : DateTime)
| TV_String (s : list Z)
| TV_Keyword (k : Keyword)
| TV_Uuid (u : Uuid).
End Typed.

Class CausetAtoms {AT : EmlAtoms} := {
  f64 : Type;
  into_inner : OrderedFloat → f64;
  ordered : f64 → OrderedFloat;
  uuid_as_bytes : Uuid → list Z;
  uuid_from_bytes : list Z → option Uuid;
  to_isoliton_namespaceable_soliton_idword : list Z → option Keyword;
}.

Class CausetAtomsLaws {AT : EmlAtoms} {CA : CausetAtoms} : Prop := {
  ordered_into_inner : ∀ x, ordered (into_inner x) = x;
  uuid_bytes_back : ∀ u, uuid_from_bytes (uuid_as_bytes u) = Some u;
}.

Section Forms.
Context {AT : EmlAtoms} {CA : CausetAtoms}.

(** [rusqlite::types::Value] *)
Inductive SqlValue :=
| SqlNull
| SqlInteger (x : Z)
| SqlReal (x : f64)
| SqlText (s : list Z)
| SqlBlob (b : list Z).

Inductive DbError :=
| BadTopographAssertion (what : BadAssertion)
| UnrecognizedCausetid (e : Z)
| UnrecognizedSolitonid (k : Keyword)
| MissingCausetid (k : Keyword)
| BadValuePair (ty : ValueType)
| BadBerolinaSQLValuePair (v : SqlValue) (tag : Z)
| BadKeyword (text : list Z)
| BootstrapDefinition.

(** [from_berolina_sql_causet_locale_pair] *)
Definition from_berolina_sql_causet_locale_pair (v : SqlValue) (tag : Z) : outcome (DbError + causetq_TV) :=
  match v with
  | SqlInteger x =>
      if tag =? 0 then Ret (inr (TV_Ref x))
      else if tag =? 1 then Ret (inr (TV_Boolean (negb (0 =? x))))
      else if tag =? 4 then d ← from_micros x; Ret (inr (TV_Instant d))
      else if tag =? 5 then Ret (inr (TV_Long x))
      else Ret (inl (BadBerolinaSQLValuePair v tag))
  | SqlReal x => Ret (if tag =? 5 then inr (TV_Double (ordered x)) else inl (BadBerolinaSQLValuePair v tag))
  | SqlText s =>
      Ret (if tag =? 10 then inr (TV_String s)
           else if tag =? 13 then
             match to_isoliton_namespaceable_soliton_idword s with Some k => inr (TV_Keyword k) | None => inl (BadKeyword s) end
           else inl (BadBerolinaSQLValuePair v tag))
  | SqlBlob b =>
      Ret (if tag =? 11 then
             match uuid_from_bytes b with Some u => inr (TV_Uuid u) | None => inl (BadBerolinaSQLValuePair v tag) end
           else inl (BadBerolinaSQLValuePair v tag))
  | SqlNull => Ret (inl (BadBerolinaSQLValuePair v tag))
  end.

(** [to_berolina_sql_causet_locale_pair] *)
Definition to_berolina_sql_causet_locale_pair (v : causetq_TV) : outcome (SqlValue * Z) :=
  match v with
  | TV_Ref x => Ret (SqlInteger x, 0)
  | TV_Boolean x => Ret (SqlInteger (if x then 1 else 0), 1)
  | TV_Instant x => us ← to_micros x; Ret (SqlInteger us, 4)
  | TV_Long x => Ret (SqlInteger x, 5)
  | TV_Double x => Ret (SqlReal (into_inner x), 5)
  | TV_String x => Ret (SqlText x, 10)
  | TV_Uuid u => Ret (SqlBlob (uuid_as_bytes u), 11)
  | TV_Keyword x => Ret (SqlText (keyword_display x), 13)
  end.

(** [from_einstein_ml_causet_locale] *)
Definition from_einstein_ml_causet_locale (v : Value) : option causetq_TV :=
  match v with
  | Boolean x => Some (TV_Boolean x)
  | Instant x => Some (TV_Instant x)
  | Integer x => Some (TV_Long x)
  | Uuid_ x => Some (TV_Uuid x)
  | Float x => Some (TV_Double x)
  | Text x => Some (TV_String x)
  | Keyword_ x => Some (TV_Keyword x)
  | _ => None
  end.

(** [to_einstein_ml_causet_locale_pair] *)
Definition to_einstein_ml_causet_locale_pair (v : causetq_TV) : Value * ValueType :=
  match v with
  | TV_Ref x => (Integer x, VT_Ref)
  | TV_Boolean x => (Boolean x, VT_Boolean)
  | TV_Instant x => (Instant x, VT_Instant)
  | TV_Long x => (Integer x, VT_Long)
  | TV_Double x => (Float x, VT_Double)
  | TV_String x => (Text x, VT_String)
  | TV_Uuid u => (Uuid_ u, VT_Uuid)
  | TV_Keyword x => (Keyword_ x, VT_Keyword)
  end.

(** [TopographTypeChecking::to_typed_causet_locale]; [require_causetid] is the schema's
    lookup of a name. *)
Definition to_typed_causet_locale (require_causetid : Keyword → DbError + Z) (v : ValueAndSpan) (ty : ValueType)
  : DbError + causetq_TV :=
  match from_einstein_ml_causet_locale (without_spans v.2) with
  | None => inl (BadValuePair ty)
  | Some tv =>
      match ty, tv with
      | VT_Boolean, TV_Boolean _ => inr tv
      | VT_Long, TV_Long _ => inr tv
      | VT_Double, TV_Double _ => inr tv
      | VT_String, TV_String _ => inr tv
      | VT_Uuid, TV_Uuid _ => inr tv
      | VT_Instant, TV_Instant _ => inr tv
      | VT_Keyword, TV_Keyword _ => inr tv
      | VT_Ref, TV_Long x => inr (TV_Ref x)
      | VT_Ref, TV_Keyword x => match require_causetid x with inl e => inl e | inr n => inr (TV_Ref n) end
      | _, _ => inl (BadValuePair ty)
      end
  end.

(** [require_causetid] of [TopographBuilding]: the name is looked up in the schema. *)
Definition require_causetid (get : Keyword → option Z) (k : Keyword) : DbError + Z :=
  match get k with Some e => inr e | None => inl (MissingCausetid k) end.
End Forms.

(** ** What is read back *)

Section Laws.
Context {AT : EmlAtoms} {AL : EmlAtomsLaws} {CA : CausetAtoms} {CL : CausetAtomsLaws}.

Definition tv_type (v : causetq_TV) : ValueType := (to_einstein_ml_causet_locale_pair v).2.

(** A typed value as the query notation holds it, at some position. *)
Definition notation (v : causetq_TV) (at_ : Span) : ValueAndSpan :=
  (at_, match v with
        | TV_Ref x | TV_Long x => Integer x
        | TV_Boolean b => Boolean b
        | TV_Instant d => Instant d
        | TV_Double f => Float f
        | TV_String s => Text s
        | TV_Uuid u => Uuid_ u
        | TV_Keyword k => Keyword_ k
        end).

Lemma notation_value v at_ : without_spans (notation v at_).2 = (to_einstein_ml_causet_locale_pair v).1.
Proof. by destruct v. Qed.

(** C39. Type checking is sound and complete.  What it accepts at a type is a value of that
    type; the value is what the notation reads as, except that a reference may also be
    written as a number or as a name the schema knows.  Every typed value, written in the
    notation, is accepted at its type and comes back unchanged. *)
Theorem typing_sound lookup (v : ValueAndSpan) ty tv at_ w :
  (to_typed_causet_locale lookup v ty = inr tv ↔
     (ty ≠ VT_Ref ∧ tv_type tv = ty ∧ from_einstein_ml_causet_locale (without_spans v.2) = Some tv)
     ∨ (ty = VT_Ref ∧ ∃ n, tv = TV_Ref n ∧
          (from_einstein_ml_causet_locale (without_spans v.2) = Some (TV_Long n)
           ∨ ∃ k, from_einstein_ml_causet_locale (without_spans v.2) = Some (TV_Keyword k) ∧ lookup k = inr n)))
  ∧ to_typed_causet_locale lookup (notation w at_) (tv_type w) = inr w.
Proof.
  split; [|by destruct w]. unfold to_typed_causet_locale. split.
  - destruct (from_einstein_ml_causet_locale _) as [t|]; [|done].
    destruct ty, t; try done; intros H; try (injection H as <-); eauto 10.
    destruct (lookup k) eqn:E; [done|]. injection H as <-. eauto 10.
  - intros [(Hty & <- & ->)|(-> & n & -> & [->|(k & -> & ->)])]; [|done..]. by destruct tv.
Qed.

(** A value written to the SQL store with its tag is read back as it was, and its tag
    tells its type (integers and floats share one); a keyword is read back when its text
    is, and an instant as what its microseconds stand for.  Two values stored alike have
    the same type, and are the same unless they are instants or keywords. *)
Theorem sql_read_back v p : to_berolina_sql_causet_locale_pair v = Ret p →
  match v with
  | TV_Instant d => ∃ us, to_micros d = Ret us
      ∧ from_berolina_sql_causet_locale_pair p.1 p.2 = (d' ← from_micros us; Ret (inr (TV_Instant d')))
  | TV_Keyword k =>
      from_berolina_sql_causet_locale_pair p.1 p.2 =
        Ret match to_isoliton_namespaceable_soliton_idword (keyword_display k) with
            | Some k' => inr (TV_Keyword k')
            | None => inl (BadKeyword (keyword_display k))
            end
  | _ => from_berolina_sql_causet_locale_pair p.1 p.2 = Ret (inr v)
  end
  ∧ (∀ w, to_berolina_sql_causet_locale_pair w = Ret p →
       tv_type v = tv_type w ∧ (tv_type v ≠ VT_Instant → tv_type v ≠ VT_Keyword → v = w)).
Proof.
  intros Hp. split.
  - destruct v; cbn in Hp; try (injection Hp as <-; cbn [fst snd]; cbn; try done).
    + by destruct b.
    + by rewrite ordered_into_inner.
    + apply bind_Ret in Hp as (us & Hus & [= <-]). exists us. by split.
    + by rewrite uuid_bytes_back.
  - intros w Hq. destruct v, w; cbn in Hp, Hq; try apply bind_Ret in Hp as (us & _ & Hp);
      try apply bind_Ret in Hq as (us' & _ & Hq); simplify_eq/=; try done.
    + by destruct b, b0.
    + split; [done|]. intros _ _. f_equal. rewrite <- (ordered_into_inner x), <- (ordered_into_inner x0). by f_equal.
    + split; [done|]. intros _ _. f_equal. apply (inj Some). by rewrite <- (uuid_bytes_back u), <- (uuid_bytes_back u0), Hp.
Qed.
End Laws.
