(* ===== verification/Algebrize.v ===== *)
(** * Algebrize: from a parsed query to one that runs

    The algebrizer of [einstein_db/src/lib.rs]: the query's clauses are gathered into a
    set of conditions, then its ordering and its limit are made to fit what they bind.
    The conditions ([ConjoiningClauses]) are a module that is not in the repository: the
    class [ConjoiningClauses], with a variable's constant, its column and its type.  Left
    out: [FindQuery::from_parsed_query] and the two parsers of query texts, whose bodies
    use names they do not bind. *)
From Stdlib Require Import ZArith Lia.
From stdpp Require Import base list numbers countable gmap sets.
From S2P Require Import Prelude Slice Order Shelling EmlValue Query QuerySample TypedValue.
#[local] Open Scope Z_scope.

Section Algebrize.
Context {AT : EmlAtoms}.

Inductive AlgebrizerError := UnboundVariable (v : Var) | InvalidLimit (v : causetq_TV) | OtherError (code : Z).

Record FindQuery := mkFind {
  fq_find_spec : FindSpec;
  fq_default_source : SrcVar;
  fq_with : gset Var;
  fq_in_vars : gset Var;
  fq_in_sources : list SrcVar;
  fq_limit : Limit;
  fq_where_clauses : list WhereClause;
  fq_order : option (list Partition);
}.

Definition FindQuery_simple (spec : FindSpec) (where_clauses : list WhereClause) : FindQuery :=
  mkFind spec DefaultSrc ∅ ∅ [] LNone where_clauses None.

(** The conditions, and the passes over them. *)
Class ConjoiningClauses := {
  CC : Type;
  Known : Type;
  QueryInputs : Type;
  default_inputs : QueryInputs;
  bound_causet_locale : CC → Var → option causetq_TV;
  has_column : CC → Var → bool;
  known_type : CC → Var → option ValueType;
  input_variables : CC → gset Var;
  causet_locale_bound_variable_set : CC → gset Var;
  wheres_is_empty : CC → bool;
  from_parsed : FindQuery → Z → QueryInputs → option AlgebrizerError;
  with_inputs_and_alias_counter : gset Var → QueryInputs → Z → CC;
  derive_types_from_find_spec : CC → FindSpec → CC;
  constrain_var_to_long : CC → Var → CC;
  apply_clauses : CC → Known → list WhereClause → CC + AlgebrizerError;
  expand_column_bindings : CC → CC;
  prune_extracted_types : CC → CC;
  process_required_types : CC → CC + AlgebrizerError;
}.
Context {CJ : ConjoiningClauses}.

Inductive VariableColumn := ColVariable (v : Var) | ColVariableTypeTag (v : Var).
Definition PartitionBy : Type := Direction * VariableColumn.

Record AlgebraicQuery := mkAlgebraic {
  aq_default_source : SrcVar;
  aq_find_spec : FindSpec;
  aq_has_aggregates : bool;
  aq_with : gset Var;
  aq_named_projection : gset Var;
  aq_order : option (list PartitionBy);
  aq_limit : Limit;
  aq_cc : CC;
}.

Definition is_causet_locale_bound (cc : CC) (v : Var) : bool := bool_decide (is_Some (bound_causet_locale cc v)).

Definition is_fully_bound (q : AlgebraicQuery) : bool :=
  forallb (λ e, match e with
    | EPull _ => false
    | EVariable v | ECorresponding v => is_causet_locale_bound (aq_cc q) v
    | EAggregate _ => false
    end) (columns (aq_find_spec q)).
Definition is_fully_unit_bound (q : AlgebraicQuery) : bool := wheres_is_empty (aq_cc q) && is_fully_bound q.
Definition unbound_variables (q : AlgebraicQuery) : gset Var :=
  input_variables (aq_cc q) ∖ causet_locale_bound_variable_set (aq_cc q).

(** The loop of [validate_and_simplify_order]. *)
Fixpoint order_loop (cc : CC) (order : list Partition) (order_bys : list PartitionBy) (vars : gset Var)
  : list PartitionBy * gset Var + AlgebrizerError :=
  match order with
  | [] => inl (order_bys, vars)
  | mkPartition dir v :: order =>
      if is_causet_locale_bound cc v then order_loop cc order order_bys vars
      else if has_column cc v then
        let order_bys := match known_type cc v with None => order_bys ++ [(dir, ColVariableTypeTag v)] | Some _ => order_bys end in
        order_loop cc order (order_bys ++ [(dir, ColVariable v)]) ({[v]} ∪ vars)
      else inr (UnboundVariable v)
  end.
Definition validate_and_simplify_order (cc : CC) (order : option (list Partition)) : option (list PartitionBy) * gset Var + AlgebrizerError :=
  match order with
  | None => inl (None, ∅)
  | Some order =>
      match order_loop cc order [] ∅ with
      | inl (order_bys, vars) => inl (match order_bys with [] => None | _ => Some order_bys end, vars)
      | inr e => inr e
      end
  end.

Definition simplify_limit (q : AlgebraicQuery) : AlgebraicQuery + AlgebrizerError :=
  match aq_limit q with
  | LVariable v =>
      match bound_causet_locale (aq_cc q) v with
      | Some (TV_Long n) =>
          if n <=? 0 then inr (InvalidLimit (TV_Long n))
          else inl (mkAlgebraic (aq_default_source q) (aq_find_spec q) (aq_has_aggregates q) (aq_with q) (aq_named_projection q) (aq_order q)
                      (LFixed (as_u64 n)) (aq_cc q))
      | Some val => inr (InvalidLimit val)
      | None => inl q
      end
  | LNone | LFixed _ => inl q
  end.

Definition algebrize_with_inputs (known : Known) (parsed : FindQuery) (counter : Z) (inputs : QueryInputs) : AlgebraicQuery + AlgebrizerError :=
  match from_parsed parsed counter inputs with
  | Some e => inr e
  | None =>
      let cc := with_inputs_and_alias_counter (fq_in_vars parsed) inputs counter in
      let cc := derive_types_from_find_spec cc (fq_find_spec parsed) in
      let cc := match fq_limit parsed with LVariable v => constrain_var_to_long cc v | _ => cc end in
      match apply_clauses cc known (fq_where_clauses parsed) with
      | inr e => inr e
      | inl cc =>
          let cc := prune_extracted_types (expand_column_bindings cc) in
          match process_required_types cc with
          | inr e => inr e
          | inl cc =>
              match validate_and_simplify_order cc (fq_order parsed) with
              | inr e => inr e
              | inl (order, extra_vars) =>
                  let limit := if is_unit_limited (fq_find_spec parsed) then LFixed 1 else fq_limit parsed in
                  simplify_limit (mkAlgebraic (fq_default_source parsed) (fq_find_spec parsed) false (fq_with parsed) extra_vars order limit cc)
              end
          end
      end
  end.
Definition algebrize_with_counter (known : Known) (parsed : FindQuery) (counter : Z) := algebrize_with_inputs known parsed counter default_inputs.
Definition algebrize (known : Known) (parsed : FindQuery) := algebrize_with_inputs known parsed 0 default_inputs.

(** ** What an algebrized query promises *)

(** The terms an entry of the ordering becomes. *)
Definition ordered_by (cc : CC) (p : Partition) : list PartitionBy :=
  if is_causet_locale_bound cc (order_var p) then []
  else (if known_type cc (order_var p) is None then [(direction p, ColVariableTypeTag (order_var p))] else []) ++ [(direction p, ColVariable (order_var p))].
Definition orderable (cc : CC) (p : Partition) : Prop := is_causet_locale_bound cc (order_var p) = true ∨ has_column cc (order_var p) = true.

Lemma order_loop_exact cc order : ∀ bys vars,
  (Forall (orderable cc) order ∧ order_loop cc order bys vars =
     inl (bys ++ concat (map (ordered_by cc) order), vars ∪ list_to_set (filter (λ v, is_causet_locale_bound cc v = false) (map order_var order))))
  ∨ ∃ before p after, order = before ++ p :: after ∧ Forall (orderable cc) before ∧ ¬ orderable cc p ∧ order_loop cc order bys vars = inr (UnboundVariable (order_var p)).
Proof.
  induction order as [|[dir v] order IH]; intros bys vars.
  { left. split; [constructor|]. cbn. rewrite app_nil_r. by rewrite union_empty_r_L. }
  cbn [order_loop]. destruct (is_causet_locale_bound cc v) eqn:Eb.
  - assert (orderable cc (mkPartition dir v)) as Ho by by left.
    destruct (IH bys vars) as [ [Hf Hr]|(before & p & after & -> & Hf & Hp & Hr)].
    + left. split; [by constructor|]. rewrite Hr. cbn [map concat order_var]. unfold ordered_by at 2. cbn [order_var]. rewrite Eb. 
      rewrite filter_cons_False by (by rewrite Eb). done.
    + right. exists (mkPartition dir v :: before), p, after. split_and!; [done|by constructor|done..].
  - destruct (has_column cc v) eqn:Ec.
    + assert (orderable cc (mkPartition dir v)) as Ho by by right.
      edestruct IH as [ [Hf Hr]|(before & p & after & -> & Hf & Hp & Hr)].
      * left. split; [by constructor|]. rewrite Hr. cbn [map concat order_var]. rewrite filter_cons_True by done.
        unfold ordered_by at 2. cbn [order_var direction]. rewrite Eb. cbn [list_to_set].
        assert ({[v]} ∪ vars = vars ∪ {[v]}) as -> by set_solver. rewrite <- union_assoc_L.
        destruct (known_type cc v); by rewrite <- ?app_assoc.
      * right. exists (mkPartition dir v :: before), p, after. split_and!; [done|by constructor|done..].
    + right. exists [], (mkPartition dir v), order. split_and!; [done|constructor| |done]. intros [H|H]; cbn in H; congruence.
Qed.

(** An ordering is refused for the first variable that has neither a constant nor a column;
    otherwise the query is ordered by the columns of its variables without constants, each
    after its type's where the type is not known, and exactly these variables are to be
    projected. *)
Theorem order_exact cc order :
  (Forall (orderable cc) order → validate_and_simplify_order cc (Some order) =
     inl (match concat (map (ordered_by cc) order) with [] => None | bys => Some bys end,
          list_to_set (filter (λ v, is_causet_locale_bound cc v = false) (map order_var order))))
  ∧ ∀ before p after, order = before ++ p :: after → Forall (orderable cc) before → ¬ orderable cc p →
      validate_and_simplify_order cc (Some order) = inr (UnboundVariable (order_var p)).
Proof.
  cbn [validate_and_simplify_order]. split.
  - intros Hf. destruct (order_loop_exact cc order [] ∅) as [ [_ ->]|(before & p & after & -> & _ & Hp & _)]; [cbn [app]; rewrite union_empty_l_L; by destruct (concat (map (ordered_by cc) order))|].
    rewrite Forall_app in Hf. destruct Hf as [_ Hf]. apply Forall_cons_iff in Hf as [? _]. done.
  - intros before p after -> Hb Hp. destruct (order_loop_exact cc (before ++ p :: after) [] ∅) as [ [Hf _]|(b & p' & a & Heq & Hb' & Hp' & ->)].
    + rewrite Forall_app in Hf. destruct Hf as [_ Hf]. apply Forall_cons_iff in Hf as [? _]. done.
    + do 2 f_equal. clear -Heq Hb Hp Hb' Hp'. revert b Heq Hb'. induction Hb as [|x before Hx Hb IH]; intros [|y b] Heq Hb'; cbn in Heq.
      * by injection Heq as ->.
      * injection Heq as -> _. by apply Forall_cons_iff in Hb' as [? _].
      * injection Heq as -> _. done.
      * injection Heq as -> Heq. apply Forall_cons_iff in Hb' as [_ Hb']. by destruct (IH b Heq Hb').
Qed.

Lemma in_ordered_by cc order dir c : (dir, c) ∈ concat (map (ordered_by cc) order) →
  ∃ p, p ∈ order ∧ direction p = dir ∧ is_causet_locale_bound cc (order_var p) = false
    ∧ (c = ColVariable (order_var p) ∨ c = ColVariableTypeTag (order_var p) ∧ known_type cc (order_var p) = None).
Proof.
  intros (l & Hl & Hin)%list_elem_of_In%in_concat. apply in_map_iff in Hl as (p & <- & Hp). exists p. split; [by apply list_elem_of_In|].
  unfold ordered_by in Hin. destruct (is_causet_locale_bound cc (order_var p)) eqn:Eb; [done|].
  destruct (known_type cc (order_var p)) eqn:Ek; cbn in Hin.
  - destruct Hin as [ [= <- <-]|[]]. by auto.
  - destruct Hin as [ [= <- <-]|[ [= <- <-]|[]] ]; by auto.
Qed.

Lemma simplify_limit_inv q q' : simplify_limit q = inl q' →
  aq_order q' = aq_order q ∧ aq_named_projection q' = aq_named_projection q ∧ aq_cc q' = aq_cc q ∧ aq_find_spec q' = aq_find_spec q
  ∧ (aq_limit q' = aq_limit q ∧ (∀ v, aq_limit q = LVariable v → bound_causet_locale (aq_cc q) v = None)
     ∨ ∃ v n, aq_limit q = LVariable v ∧ bound_causet_locale (aq_cc q) v = Some (TV_Long n) ∧ 0 < n ∧ aq_limit q' = LFixed (as_u64 n)).
Proof.
  unfold simplify_limit. destruct (aq_limit q) as [|n|v] eqn:El; [intros [= <-]; naive_solver..|].
  destruct (bound_causet_locale (aq_cc q) v) as [ [| |n| | | | |]|] eqn:Eb; try done; [|intros [= <-]; naive_solver].
  destruct (Z.leb_spec n 0); [done|]. intros [= <-]. cbn. split_and!; try done. right. by exists v, n.
Qed.

(** C26. A query that is algebrized can run: what it is ordered by is a column, not bound to a
    constant, and projected; a query for one result is limited to one, and another to its
    own limit, which is a positive constant where the variable that gives it has a value. *)
Theorem algebrized_ready known parsed counter inputs q : algebrize_with_inputs known parsed counter inputs = inl q →
  (∀ bys dir c, aq_order q = Some bys → (dir, c) ∈ bys → ∃ v, (c = ColVariable v ∨ c = ColVariableTypeTag v ∧ known_type (aq_cc q) v = None)
     ∧ v ∈ aq_named_projection q ∧ has_column (aq_cc q) v = true ∧ bound_causet_locale (aq_cc q) v = None)
  ∧ (is_unit_limited (fq_find_spec parsed) = true → aq_limit q = LFixed 1)
  ∧ (is_unit_limited (fq_find_spec parsed) = false →
       match fq_limit parsed with
       | LVariable v => match bound_causet_locale (aq_cc q) v with
                        | Some (TV_Long n) => 0 < n ∧ aq_limit q = LFixed (as_u64 n) | Some _ => False | None => aq_limit q = LVariable v end
       | l => aq_limit q = l
       end).
Proof.
  unfold algebrize_with_inputs. destruct (from_parsed parsed counter inputs); [done|].
  destruct (apply_clauses _ known (fq_where_clauses parsed)) as [cc|]; [|done].
  destruct (process_required_types (prune_extracted_types (expand_column_bindings cc))) as [cc'|]; [|done].
  destruct (validate_and_simplify_order cc' (fq_order parsed)) as [ [ord vars]|] eqn:Eo; [|done].
  intros (Ho & Hp & Hc & _ & Hl)%simplify_limit_inv. cbn [aq_order aq_named_projection aq_cc aq_limit] in *. rewrite Hc. split; [|split].
  - intros bys dir c Hb Hin. rewrite Ho in Hb. rewrite Hp. destruct (fq_order parsed) as [order|]; cbn [validate_and_simplify_order] in Eo; [|by injection Eo as <- <-].
    destruct (order_loop_exact cc' order [] ∅) as [ [Hf Hr]|(b & p & a & _ & _ & _ & Hr)]; rewrite Hr in Eo; [|done]. cbn [app] in Eo.
    injection Eo as <- <-. assert ((dir, c) ∈ concat (map (ordered_by cc') order)) as Hin'.
    { destruct (concat (map (ordered_by cc') order)); [done|]. by injection Hb as <-. }
    apply in_ordered_by in Hin' as (p & Hpo & <- & Hb' & Hcol). exists (order_var p). split_and!.
    + done.
    + apply elem_of_union. right. apply elem_of_list_to_set, list_elem_of_filter. split; [done|]. apply list_elem_of_fmap. by exists p.
    + rewrite List.Forall_forall in Hf. apply list_elem_of_In in Hpo. destruct (Hf p Hpo) as [H|H]; [congruence|done].
    + unfold is_causet_locale_bound in Hb'. apply bool_decide_eq_false in Hb'. by apply eq_None_not_Some.
  - intros Hu. rewrite Hu in Hl. destruct Hl as [ [? _]|(v & n & ? & _)]; done.
  - intros Hu. rewrite Hu in Hl. destruct (fq_limit parsed) as [|n|v].
    + by destruct Hl as [ [? _]|(v' & n' & ? & _)].
    + by destruct Hl as [ [? _]|(v' & n' & ? & _)].
    + destruct Hl as [ [Hq Hn]|(v' & n & [= <-] & -> & Hpos & Hq)]; [by rewrite (Hn v eq_refl)|done].
Qed.
End Algebrize.

(** ** Conditions that are lists of what is known *)

Record Known_variables := mkConditions { consts : list (Var * causetq_TV); locales : list Var; types : list (Var * ValueType) }.

#[export] Instance sample_conditions : ConjoiningClauses (AT := sample_atoms) := {|
  CC := Known_variables;
  Known := unit;
  QueryInputs := list (Var * causetq_TV);
  default_inputs := [];
  bound_causet_locale := λ cc v, snd <$> find (λ p, bool_decide (p.1 = v)) (consts cc);
  has_column := λ cc v, bool_decide (v ∈ locales cc);
  known_type := λ cc v, snd <$> find (λ p, bool_decide (p.1 = v)) (types cc);
  input_variables := λ cc, list_to_set (map fst (consts cc));
  causet_locale_bound_variable_set := λ cc, list_to_set (map fst (consts cc));
  wheres_is_empty := λ cc, bool_decide (locales cc = []);
  from_parsed := λ _ _ _, None;
  with_inputs_and_alias_counter := λ _ inputs _, mkConditions inputs [] [];
  derive_types_from_find_spec := λ cc _, cc;
  constrain_var_to_long := λ cc v, mkConditions (consts cc) (locales cc) ((v, VT_Long) :: types cc);
  apply_clauses := λ cc _ ws, match ws with [] => inr (OtherError 1) | _ => inl (mkConditions (consts cc) [vx; vy] (types cc)) end;
  expand_column_bindings := λ cc, cc;
  prune_extracted_types := λ cc, cc;
  process_required_types := λ cc, inl cc;
|}.

(** The query for [?x ?y], in the order of [?n], [?x] and the descending [?y], at most
    [?n] = 3 of them. *)
Definition vn : Var := mkVar (mkPlain [63; 110]).
Definition sample_find : FindQuery :=
  mkFind (FindRel [EVariable vx; EVariable vy]) DefaultSrc ∅ {[vn]} [] (LVariable vn) [RuleExpr]
    (Some [mkPartition Ascending vn; mkPartition Ascending vx; mkPartition Descending vy]).

Definition sample_answer : AlgebraicQuery :=
  mkAlgebraic DefaultSrc (FindRel [EVariable vx; EVariable vy]) false ∅ ({[vy]} ∪ ({[vx]} ∪ ∅))
    (Some [(Ascending, ColVariableTypeTag vx); (Ascending, ColVariable vx); (Descending, ColVariableTypeTag vy); (Descending, ColVariable vy)])
    (LFixed 3) (mkConditions [(vn, TV_Long 3)] [vx; vy] [(vn, VT_Long)]).

Example sample_algebrized : algebrize_with_inputs tt sample_find 0 [(vn, TV_Long 3)] = inl sample_answer.
Proof. reflexivity. Qed.

Lemma algebrized_ready_witness : algebrize_with_inputs tt sample_find 0 [(vn, TV_Long 3)] = inl sample_answer ∧ aq_limit sample_answer = LFixed 3.
Proof.
  split; [exact sample_algebrized|].
  exact (proj2 (proj2 (proj2 (algebrized_ready (CJ := sample_conditions) tt sample_find 0 [(vn, TV_Long 3)] sample_answer sample_algebrized)) eq_refl)).
Defined.
