(* ===== verification/Schema.v ===== *)
(** * Schema: attributes, their builder, and updates of the schema

    [fdb_traits/src/schema.rs] (validation, [AttributeBuilder], [TopographBuilding]),
    [einstein_db/src/causetids.rs] (the ids of the schema's own attributes),
    [allegro_poset/spacetime.rs] (updates from retracted and asserted triples) and
    [allegro_poset/lightlike_upsert.rs] (pairing assertions with retractions).

    An attribute map is a [gmap]; the order in which it is walked is the parameter
    [AttributeMapIter].  The maps the code itself builds are [BTreeMap]s, walked by
    increasing key.  What an attribute is before anything is known of it ([Default]) and
    two ids that [causetids.rs] does not give are parameters. *)
From Stdlib Require Import ZArith Lia.
From stdpp Require Import base list numbers gmap sorting.
From S2P Require Import Prelude Slice Order Shelling EmlValue TypedValue.
#[local] Open Scope Z_scope.

(** ** The ids of the schema's attributes ([causetids.rs]) *)

Definition EINSTEINDB_SOLITONID : Z := 1.
Definition EINSTEINDB_PART_EINSTEINDB : Z := 2.
Definition EINSTEINDB_TX_INSTANT : Z := 3.
Definition EINSTEINDB_INSTALL_PARTITION : Z := 4.
Definition EINSTEINDB_INSTALL_VALUE_TYPE : Z := 5.
Definition EINSTEINDB_INSTALL_ATTRIBUTE : Z := 6.
Definition EINSTEINDB_VALUE_TYPE : Z := 7.
Definition EINSTEINDB_CARDINALITY : Z := 8.
Definition EINSTEINDB_UNIQUE : Z := 9.
Definition EINSTEINDB_IS_COMPONENT : Z := 10.
Definition EINSTEINDB_INDEX : Z := 11.
Definition EINSTEINDB_FULLTEXT : Z := 12.
Definition EINSTEINDB_NO_HISTORY : Z := 13.
Definition EINSTEINDB_ADD : Z := 14.
Definition EINSTEINDB_RETRACT : Z := 15.
Definition EINSTEINDB_PART_USER : Z := 16.
Definition EINSTEINDB_PART_TX : Z := 17.
Definition EINSTEINDB_EXCISE : Z := 18.
Definition EINSTEINDB_EXCISE_ATTRS : Z := 19.
Definition EINSTEINDB_EXCISE_BEFORE_T : Z := 20.
Definition EINSTEINDB_EXCISE_BEFORE : Z := 21.
Definition EINSTEINDB_ALTER_ATTRIBUTE : Z := 22.
Definition EINSTEINDB_TYPE_REF : Z := 23.
Definition EINSTEINDB_TYPE_KEYWORD : Z := 24.
Definition EINSTEINDB_TYPE_LONG : Z := 25.
Definition EINSTEINDB_TYPE_DOUBLE : Z := 26.
Definition EINSTEINDB_TYPE_STRING : Z := 27.
Definition EINSTEINDB_TYPE_UUID : Z := 28.
Definition EINSTEINDB_TYPE_URI : Z := 29.
Definition EINSTEINDB_TYPE_BOOLEAN : Z := 30.
Definition EINSTEINDB_TYPE_INSTANT : Z := 31.
Definition EINSTEINDB_TYPE_BYTES : Z := 32.
Definition EINSTEINDB_CARDINALITY_ONE : Z := 33.
Definition EINSTEINDB_CARDINALITY_MANY : Z := 34.
Definition EINSTEINDB_UNIQUE_VALUE : Z := 35.
Definition EINSTEINDB_UNIQUE_IDcauset : Z := 36.
Definition EINSTEINDB_DOC : Z := 37.
Definition EINSTEINDB_SCHEMA_VERSION : Z := 38.
Definition EINSTEINDB_SCHEMA_ATTRIBUTE : Z := 39.
Definition EINSTEINDB_SCHEMA_CORE : Z := 40.
Definition EINSTEINDB_SCHEMA_CORE_CARDINALITY : Z := 43.

Class IndexIds := { INDEX_FULLTEXT : Z; INDEX_NONE : Z }.

Definition might_update_spacetime (a : Z) : bool :=
  negb (a =? EINSTEINDB_SOLITONID) && negb (a =? EINSTEINDB_PART_EINSTEINDB) && negb (a =? EINSTEINDB_PART_USER)
  && negb (a =? EINSTEINDB_PART_TX) && negb (a =? EINSTEINDB_INSTALL_PARTITION).

Definition is_a_topograph_attribute (a : Z) : bool :=
  (a =? EINSTEINDB_CARDINALITY) || (a =? EINSTEINDB_FULLTEXT) || (a =? EINSTEINDB_INDEX)
  || (a =? EINSTEINDB_PART_EINSTEINDB) || (a =? EINSTEINDB_PART_USER) || (a =? EINSTEINDB_IS_COMPONENT)
  || (a =? EINSTEINDB_UNIQUE) || (a =? EINSTEINDB_VALUE_TYPE).

Inductive CausetidErrorKind := PartitionMapTooSmall | InvalidAttribute.

(** [might_update_spacetime_with_partition_map] (and [..._and_size], the same body):
    indexing past the partition map panics. *)
Definition might_update_spacetime_with_partition_map (a : Z) (partition_map : list Z) (size capacity : Z)
  : outcome (CausetidErrorKind + bool) :=
  if capacity <=? size then Ret (inl PartitionMapTooSmall)
  else p ← get partition_map (as_u64 a); Ret (inr (negb (p =? 0))).

Definition attribute_check (a : Z) : CausetidErrorKind + unit :=
  if (a <? 0) || (EINSTEINDB_SCHEMA_CORE_CARDINALITY <=? a) then inl InvalidAttribute
  else if EINSTEINDB_DOC <=? a then inl InvalidAttribute
  else inr tt.

(** [attribute_check_with_partition_map] (and [..._and_size]) *)
Definition attribute_check_with_partition_map (a : Z) (partition_map : list Z) (size capacity : Z)
  : outcome (CausetidErrorKind + unit) :=
  if (a <? 0) || (EINSTEINDB_SCHEMA_CORE_CARDINALITY <=? a) then Ret (inl InvalidAttribute)
  else if EINSTEINDB_DOC <=? a then Ret (inl InvalidAttribute)
  else if capacity <=? size then Ret (inl PartitionMapTooSmall)
  else p ← get partition_map (as_u64 a);
       Ret (if negb (p =? 0) then inr tt else inl InvalidAttribute).

(** ** Attributes *)

Inductive Unique := Unique_Value | Unique_Idcauset.

#[export] Instance Unique_eq_dec : EqDecision Unique.
Proof. solve_decision. Defined.

Record Attribute := mkAttribute {
  at_index : bool;
  at_value_type : ValueType;
  at_fulltext : bool;
  at_unique : option Unique;
  at_multival : bool;
  at_component : bool;
  at_no_history : bool;
}.

Class AttributeDefault := attribute_default : Attribute.

Notation AttributeMap := (gmap Z Attribute).

(** A loop that stops at the first error. *)
Fixpoint foldE {E A S} (f : S → A → E + S) (s : S) (l : list A) : E + S :=
  match l with
  | [] => inr s
  | x :: l => match f s x with inl e => inl e | inr s => foldE f s l end
  end.

Section Validation.
Context {AT : EmlAtoms} {CA : CausetAtoms}.

(** [AttributeValidation::validate] *)
Definition validate (a : Attribute) : DbError + unit :=
  if bool_decide (at_unique a = Some Unique_Value) && negb (at_index a)
  then inl (BadTopographAssertion UniqueValueNotIndexed)
  else if bool_decide (at_unique a = Some Unique_Idcauset) && negb (at_index a)
  then inl (BadTopographAssertion UniqueIdcausetNotIndexed)
  else if at_fulltext a && negb (bool_decide (at_value_type a = VT_String))
  then inl (BadTopographAssertion FulltextNotString)
  else if at_fulltext a && negb (at_index a)
  then inl (BadTopographAssertion FulltextNotIndexed)
  else if at_component a && negb (bool_decide (at_value_type a = VT_Ref))
  then inl (BadTopographAssertion ComponentNotRef)
  else inr tt.
End Validation.

Class AttributeMapIter := {
  attributes : AttributeMap → list (Z * Attribute);
  attributes_perm : ∀ m, attributes m ≡ₚ map_to_list m;
}.

(** [validate_attribute_map] *)
Definition validate_attribute_map `{EmlAtoms} `{!CausetAtoms} `{AttributeMapIter} (m : AttributeMap) : DbError + unit :=
  foldE (λ _ p, validate p.2) tt (attributes m).

(** ** [AttributeBuilder] *)

Record AttributeBuilder := mkBuilder {
  b_helpful : bool;
  b_value_type : option ValueType;
  b_multival : option bool;
  b_unique : option (option Unique);
  b_index : option bool;
  b_fulltext : option bool;
  b_component : option bool;
  b_no_history : option bool;
}.

(** [Default] *)
Definition builder_default : AttributeBuilder := mkBuilder false None None None None None None None.

(** [helpful] *)
Definition builder_helpful : AttributeBuilder := mkBuilder true None None None None None None None.

Definition to_modify_attribute (a : Attribute) : AttributeBuilder :=
  mkBuilder false None (Some (at_multival a)) (Some (at_unique a)) None None (Some (at_component a)) None.

Definition set_value_type (b : AttributeBuilder) (t : ValueType) : AttributeBuilder :=
  mkBuilder (b_helpful b) (Some t) (b_multival b) (b_unique b) (b_index b) (b_fulltext b) (b_component b) (b_no_history b).
Definition set_multival (b : AttributeBuilder) (x : bool) : AttributeBuilder :=
  mkBuilder (b_helpful b) (b_value_type b) (Some x) (b_unique b) (b_index b) (b_fulltext b) (b_component b) (b_no_history b).
Definition set_index (b : AttributeBuilder) (x : bool) : AttributeBuilder :=
  mkBuilder (b_helpful b) (b_value_type b) (b_multival b) (b_unique b) (Some x) (b_fulltext b) (b_component b) (b_no_history b).
Definition non_unique (b : AttributeBuilder) : AttributeBuilder :=
  mkBuilder (b_helpful b) (b_value_type b) (b_multival b) (Some None) (b_index b) (b_fulltext b) (b_component b) (b_no_history b).
Definition set_unique (b : AttributeBuilder) (u : Unique) : AttributeBuilder :=
  let b := if b_helpful b && bool_decide (u = Unique_Idcauset) then set_index b true else b in
  mkBuilder (b_helpful b) (b_value_type b) (b_multival b) (Some (Some u)) (b_index b) (b_fulltext b) (b_component b) (b_no_history b).
Definition set_fulltext (b : AttributeBuilder) (x : bool) : AttributeBuilder :=
  let b := mkBuilder (b_helpful b) (b_value_type b) (b_multival b) (b_unique b) (b_index b) (Some x) (b_component b) (b_no_history b) in
  if b_helpful b && x then set_index b true else b.
Definition set_component (b : AttributeBuilder) (x : bool) : AttributeBuilder :=
  mkBuilder (b_helpful b) (b_value_type b) (b_multival b) (b_unique b) (b_index b) (b_fulltext b) (Some x) (b_no_history b).
Definition set_no_history (b : AttributeBuilder) (x : bool) : AttributeBuilder :=
  mkBuilder (b_helpful b) (b_value_type b) (b_multival b) (b_unique b) (b_index b) (b_fulltext b) (b_component b) (Some x).

(** [build] *)
Definition build `{AttributeDefault} (b : AttributeBuilder) : Attribute :=
  let a := attribute_default in
  mkAttribute (default (at_index a) (b_index b)) (default (at_value_type a) (b_value_type b))
    (default (at_fulltext a) (b_fulltext b)) (default (at_unique a) (b_unique b))
    (default (at_multival a) (b_multival b)) (default (at_component a) (b_component b))
    (default (at_no_history a) (b_no_history b)).

(** The constructors the code uses, of [AttributeAlteration]. *)
Inductive AttributeAlteration := Alter_Index | Alter_Unique | Alter_Cardinality | Alter_NoHistory | Alter_IsComponent.

#[export] Instance AttributeAlteration_eq_dec : EqDecision AttributeAlteration.
Proof. solve_decision. Defined.

(** [mutate]: one field after the other, each with its alteration. *)
Definition mutate_multival (b : AttributeBuilder) (a : Attribute) : Attribute * list AttributeAlteration :=
  match b_multival b with
  | Some x =>
      if bool_decide (x ≠ at_multival a) then
        (mkAttribute (at_index a) (at_value_type a) (at_fulltext a) (at_unique a) x (at_component a) (at_no_history a),
         [Alter_Cardinality])
      else (a, [])
  | None => (a, [])
  end.

Definition with_unique (a : Attribute) (u : option Unique) : Attribute :=
  mkAttribute (at_index a) (at_value_type a) (at_fulltext a) u (at_multival a) (at_component a) (at_no_history a).

Definition mutate_unique (b : AttributeBuilder) (a : Attribute) : Attribute * list AttributeAlteration :=
  match b_unique b with
  | Some u => if bool_decide (u ≠ at_unique a) then (with_unique a u, [Alter_Unique]) else (a, [])
  | None => if bool_decide (at_unique a ≠ None) then (with_unique a None, [Alter_Unique]) else (a, [])
  end.

Definition mutate_index (b : AttributeBuilder) (a : Attribute) : Attribute * list AttributeAlteration :=
  match b_index b with
  | Some x =>
      if bool_decide (x ≠ at_index a) then
        (mkAttribute x (at_value_type a) (at_fulltext a) (at_unique a) (at_multival a) (at_component a) (at_no_history a),
         [Alter_Index])
      else (a, [])
  | None => (a, [])
  end.

Definition mutate_component (b : AttributeBuilder) (a : Attribute) : Attribute * list AttributeAlteration :=
  match b_component b with
  | Some x =>
      if bool_decide (x ≠ at_component a) then
        (mkAttribute (at_index a) (at_value_type a) (at_fulltext a) (at_unique a) (at_multival a) x (at_no_history a),
         [Alter_IsComponent])
      else (a, [])
  | None => (a, [])
  end.

Definition mutate_no_history (b : AttributeBuilder) (a : Attribute) : Attribute * list AttributeAlteration :=
  match b_no_history b with
  | Some x =>
      if bool_decide (x ≠ at_no_history a) then
        (mkAttribute (at_index a) (at_value_type a) (at_fulltext a) (at_unique a) (at_multival a) (at_component a) x,
         [Alter_NoHistory])
      else (a, [])
  | None => (a, [])
  end.

Definition mutate (b : AttributeBuilder) (a : Attribute) : Attribute * list AttributeAlteration :=
  let (a, m1) := mutate_multival b a in
  let (a, m2) := mutate_unique b a in
  let (a, m3) := mutate_index b a in
  let (a, m4) := mutate_component b a in
  let (a, m5) := mutate_no_history b a in
  (a, m1 ++ m2 ++ m3 ++ m4 ++ m5).
