(* ===== verification/SchemaUpdate.v ===== *)
(** * SchemaUpdate: the schema after retracted and asserted triples

    [allegro_poset/spacetime.rs], the building of a schema in [fdb_traits/src/schema.rs],
    and [LightlikeUpsert] of [allegro_poset/lightlike_upsert.rs]. *)
From Stdlib Require Import ZArith Lia.
From stdpp Require Import base list numbers gmap sorting.
From S2P Require Import Prelude Slice Order Shelling EmlValue TypedValue Schema.
#[local] Open Scope Z_scope.

(** The entries of a [BTreeMap], by increasing key. *)
Definition key_le {A} (x y : Z * A) : Prop := x.1 <= y.1.
#[export] Instance key_le_dec {A} : RelDecision (@key_le A).
Proof. intros x y. apply Z.le_dec. Defined.

Definition bt_entries {A} (m : gmap Z A) : list (Z * A) := merge_sort key_le (map_to_list m).

Record SpacetimeReport := mkReport {
  attributes_installed : gset Z;
  attributes_altered : gmap Z (list AttributeAlteration);
}.

Definition attributes_did_change (r : SpacetimeReport) : bool :=
  negb (bool_decide (attributes_installed r = ∅) && bool_decide (attributes_altered r = ∅)).

Section Update.
Context {AT : EmlAtoms} {CA : CausetAtoms} {AD : AttributeDefault} {II : IndexIds}.

Notation EAV := (Z * Z * causetq_TV)%type.

Definition validate_install_attribute (b : AttributeBuilder) : DbError + unit :=
  match b_value_type b with None => inl (BadTopographAssertion NoValueType) | Some _ => inr tt end.

Definition validate_alter_attribute (b : AttributeBuilder) : DbError + unit :=
  match b_value_type b with
  | Some _ => inl (BadTopographAssertion AlteredValueType)
  | None => match b_fulltext b with Some _ => inl (BadTopographAssertion AlteredFulltext) | None => inr tt end
  end.

(** ** Retracting whole attributes
    ([update_attribute_map_from_topograph_..._retractions]) *)

(** The triples of schema attributes, grouped by entity and kept aside, and the others. *)
Definition split_retractions (retractions : list EAV) : gmap Z (list Z) * list EAV * list EAV :=
  fold_left (λ st t,
    let '(eas, suspect, filtered) := st in
    let '(e, a, v) := t in
    if is_a_topograph_attribute a
    then (<[e := default [] (eas !! e) ++ [a]]> eas, suspect ++ [t], filtered)
    else (eas, suspect, filtered ++ [t])) retractions (∅, [], []).

(** One suspect; [eas.get(&e).unwrap()] panics when the entity has no group. *)
Definition suspect_step (eas : gmap Z (list Z)) (causetid_retractions : gmap Z Keyword)
    (st : AttributeMap * list EAV) (t : EAV) : outcome (DbError + (AttributeMap * list EAV)) :=
  let '(m, filtered) := st in
  let '(e, a, v) := t in
  match eas !! e with
  | None => Panic
  | Some attributes =>
      Ret (if bool_decide (EINSTEINDB_CARDINALITY ∈ attributes) && bool_decide (EINSTEINDB_VALUE_TYPE ∈ attributes) then
             if bool_decide (is_Some (causetid_retractions !! e)) then inr (delete e m, filtered)
             else inl (BadTopographAssertion DefiningAttributesWithoutSolitonid)
           else inr (m, filtered ++ [t]))
  end.

(** The loop gives the map back with the error, as the map was updated in place. *)
Fixpoint suspect_loop (eas : gmap Z (list Z)) (causetid_retractions : gmap Z Keyword)
    (st : AttributeMap * list EAV) (l : list EAV) : outcome ((DbError + list EAV) * AttributeMap) :=
  match l with
  | [] => Ret (inr st.2, st.1)
  | t :: l =>
      r ← suspect_step eas causetid_retractions st t;
      match r with
      | inl e => Ret (inl e, st.1)
      | inr st => suspect_loop eas causetid_retractions st l
      end
  end.

Definition update_attribute_map_from_topograph_retractions (m : AttributeMap) (retractions : list EAV)
    (causetid_retractions : gmap Z Keyword) : outcome ((DbError + list EAV) * AttributeMap) :=
  let '(eas, suspect, filtered) := split_retractions retractions in
  suspect_loop eas causetid_retractions (m, filtered) suspect.

(** ** Changing attributes ([update_attribute_map_from_causetid_triples]) *)

Definition attribute_builder_to_modify (e : Z) (existing : AttributeMap) : AttributeBuilder :=
  match existing !! e with Some a => to_modify_attribute a | None => builder_default end.

(** What a retraction does to the builder of its entity. *)
Definition retract_one (b : AttributeBuilder) (a : Z) (v : causetq_TV) : DbError + AttributeBuilder :=
  if a =? EINSTEINDB_IS_COMPONENT then
    match v with
    | TV_Boolean x =>
        if bool_decide (b_component b = Some x) then inr (set_component b false)
        else inl (BadTopographAssertion RetractedWrongIsComponent)
    | _ => inl (BadTopographAssertion RetractedWrongIsComponent)
    end
  else if a =? EINSTEINDB_UNIQUE then
    match v with
    | TV_Ref u =>
        if (u =? EINSTEINDB_UNIQUE_VALUE) && bool_decide (b_unique b = Some (Some Unique_Value)) then inr (non_unique b)
        else if (u =? EINSTEINDB_UNIQUE_IDcauset) && bool_decide (b_unique b = Some (Some Unique_Idcauset))
        then inr (non_unique b)
        else inl (BadTopographAssertion RetractedWrongUnique)
    | _ => inl (BadTopographAssertion RetractedUniqueNotRef)
    end
  else if (a =? EINSTEINDB_VALUE_TYPE) || (a =? EINSTEINDB_CARDINALITY) || (a =? EINSTEINDB_INDEX)
          || (a =? EINSTEINDB_FULLTEXT) || (a =? EINSTEINDB_NO_HISTORY)
  then inl (BadTopographAssertion RetractNotPermitted)
  else inl (BadTopographAssertion UnknownAttribute).

Definition value_type_of (r : Z) : option ValueType :=
  if r =? EINSTEINDB_TYPE_BOOLEAN then Some VT_Boolean
  else if r =? EINSTEINDB_TYPE_DOUBLE then Some VT_Double
  else if r =? EINSTEINDB_TYPE_INSTANT then Some VT_Instant
  else if r =? EINSTEINDB_TYPE_KEYWORD then Some VT_Keyword
  else if r =? EINSTEINDB_TYPE_LONG then Some VT_Long
  else if r =? EINSTEINDB_TYPE_REF then Some VT_Ref
  else if r =? EINSTEINDB_TYPE_STRING then Some VT_String
  else if r =? EINSTEINDB_TYPE_UUID then Some VT_Uuid
  else None.

(** What an assertion does.  The arms are tried in the order they are written in: the
    second arm for [INDEX], which takes booleans, comes after one that takes references,
    and the arms for [IS_COMPONENT], [NO_HISTORY] and others come after the arm that
    catches everything. *)
Definition assert_one (b : AttributeBuilder) (a : Z) (v : causetq_TV) : DbError + AttributeBuilder :=
  if a =? EINSTEINDB_VALUE_TYPE then
    match v with
    | TV_Ref r => match value_type_of r with Some t => inr (set_value_type b t) | None => inl (BadTopographAssertion ExpectedType) end
    | _ => inl (BadTopographAssertion ExpectedType)
    end
  else if a =? EINSTEINDB_CARDINALITY then
    match v with
    | TV_Ref r =>
        if r =? EINSTEINDB_CARDINALITY_MANY then inr (set_multival b true)
        else if r =? EINSTEINDB_CARDINALITY_ONE then inr (set_multival b false)
        else inl (BadTopographAssertion ExpectedCardinality)
    | _ => inl (BadTopographAssertion ExpectedCardinality)
    end
  else if a =? EINSTEINDB_INDEX then
    match v with
    | TV_Ref r =>
        if r =? INDEX_FULLTEXT then inr (set_index b true)
        else if r =? INDEX_NONE then inr (set_index b false)
        else inl (BadTopographAssertion ExpectedIndex)
    | _ => inl (BadTopographAssertion ExpectedIndex)
    end
  else if a =? EINSTEINDB_UNIQUE then
    match v with
    | TV_Ref r =>
        if r =? EINSTEINDB_UNIQUE_VALUE then inr (set_unique b Unique_Value)
        else if r =? EINSTEINDB_UNIQUE_IDcauset then inr (set_unique b Unique_Idcauset)
        else inl (BadTopographAssertion ExpectedUnique)
    | _ => inl (BadTopographAssertion ExpectedUnique)
    end
  else if a =? EINSTEINDB_FULLTEXT then
    match v with
    | TV_Boolean x => inr (set_fulltext b x)
    | _ => inl (BadTopographAssertion ExpectedFulltext)
    end
  else inl (BadTopographAssertion ExpectedType).

(** The two loops: the builders of the entities met, each started when it is first met. *)
Definition retract_step (m : AttributeMap) (builders : gmap Z AttributeBuilder) (t : EAV) : DbError + gmap Z AttributeBuilder :=
  let '(e, a, v) := t in
  let b := default (attribute_builder_to_modify e m) (builders !! e) in
  match retract_one b a v with inl err => inl err | inr b => inr (<[e := b]> builders) end.

Definition assert_step (builders : gmap Z AttributeBuilder) (t : EAV) : DbError + gmap Z AttributeBuilder :=
  let '(e, a, v) := t in
  let b := default builder_default (builders !! e) in
  match assert_one b a v with inl err => inl err | inr b => inr (<[e := b]> builders) end.

(** One builder against the map: a new attribute is validated twice, an existing one is
    only checked not to change its type. *)
Definition install_attribute (b : AttributeBuilder) : DbError + Attribute :=
  match validate_install_attribute b with
  | inl err => inl err
  | inr _ => let a := build b in match validate a with inl err => inl err | inr _ => inr a end
  end.

Fixpoint apply_builders (m : AttributeMap) (r : SpacetimeReport) (l : list (Z * AttributeBuilder))
  : (DbError + SpacetimeReport) * AttributeMap :=
  match l with
  | [] => (inr r, m)
  | (e, b) :: l =>
      match m !! e with
      | None =>
          match install_attribute b with
          | inl err => (inl err, m)
          | inr a => apply_builders (<[e := a]> m) (mkReport ({[e]} ∪ attributes_installed r) (attributes_altered r)) l
          end
      | Some a =>
          match validate_alter_attribute b with
          | inl err => (inl err, m)
          | inr _ =>
              let '(a', mutations) := mutate b a in
              apply_builders (<[e := a']> m)
                (mkReport (attributes_installed r) (<[e := mutations]> (attributes_altered r))) l
          end
      end
  end.

Definition update_attribute_map_from_causetid_triples (m : AttributeMap) (assertions retractions : list EAV)
  : (DbError + SpacetimeReport) * AttributeMap :=
  match foldE (retract_step m) ∅ retractions with
  | inl err => (inl err, m)
  | inr builders =>
      match foldE assert_step builders assertions with
      | inl err => (inl err, m)
      | inr builders => apply_builders m (mkReport ∅ ∅) (bt_entries builders)
      end
  end.

(** [from_causetid_map_and_triples] of [Topograph], up to the attribute map it holds:
    the names are resolved, and the triples asserted into an empty schema. *)
Fixpoint resolve_triples (causetid_map : Keyword → option Z) (l : list (Keyword * Keyword * causetq_TV))
  : DbError + list EAV :=
  match l with
  | [] => inr []
  | (e, a, v) :: l =>
      match causetid_map e with
      | None => inl (UnrecognizedSolitonid e)
      | Some e' =>
          match causetid_map a with
          | None => inl (UnrecognizedSolitonid a)
          | Some a' => match resolve_triples causetid_map l with inl err => inl err | inr r => inr ((e', a', v) :: r) end
          end
      end
  end.

Definition from_causetid_map_and_triples {AI : AttributeMapIter} (causetid_map : Keyword → option Z)
    (l : list (Keyword * Keyword * causetq_TV)) : DbError + AttributeMap :=
  match validate_attribute_map ∅ with
  | inl err => inl err
  | inr _ =>
      match resolve_triples causetid_map l with
      | inl err => inl err
      | inr triples =>
          match update_attribute_map_from_causetid_triples ∅ triples [] with
          | (inl err, _) => inl err
          | (inr _, m) => inr m
          end
      end
  end.
End Update.

(** ** Pairing assertions with retractions ([LightlikeUpsert::witness]) *)

Section Witness.
Context {K V : Type} `{Countable K}.

Record LightlikeUpsert := mkUpsert {
  lightlike_asserted : gmap K V;
  spacelike_retracted : gmap K V;
  timelike_altered : gmap K (V * V);
}.

Definition upsert_new : LightlikeUpsert := mkUpsert ∅ ∅ ∅.

(** The arms of the match on the two flags; it has none for a call that sets both. *)
Inductive Witnessed := Assertion | Retraction | Neither.

Definition witness_assertion (u : LightlikeUpsert) (k : K) (v : V) : outcome LightlikeUpsert :=
  let asserted := bool_decide (is_Some (lightlike_asserted u !! k)) in
  let retracted := bool_decide (is_Some (spacelike_retracted u !! k)) in
  if negb asserted && negb retracted then
    Ret (mkUpsert (<[k := v]> (lightlike_asserted u)) (spacelike_retracted u) (timelike_altered u))
  else if retracted && negb asserted then
    match spacelike_retracted u !! k with
    | Some v_old =>
        Ret (mkUpsert (lightlike_asserted u) (delete k (spacelike_retracted u)) (<[k := (v_old, v)]> (timelike_altered u)))
    | None => Panic
    end
  else
    match spacelike_retracted u !! k with
    | Some v_old =>
        Ret (mkUpsert (lightlike_asserted u) (delete k (spacelike_retracted u)) (<[k := (v_old, v)]> (timelike_altered u)))
    | None => Panic
    end.

Definition witness_retraction (u : LightlikeUpsert) (k : K) (v : V) : outcome LightlikeUpsert :=
  let asserted := bool_decide (is_Some (lightlike_asserted u !! k)) in
  let retracted := bool_decide (is_Some (spacelike_retracted u !! k)) in
  if negb asserted && negb retracted then
    Ret (mkUpsert (lightlike_asserted u) (<[k := v]> (spacelike_retracted u)) (timelike_altered u))
  else if asserted && negb retracted then
    match lightlike_asserted u !! k with
    | Some v_old =>
        Ret (mkUpsert (delete k (lightlike_asserted u)) (spacelike_retracted u) (<[k := (v_old, v)]> (timelike_altered u)))
    | None => Panic
    end
  else
    match lightlike_asserted u !! k with
    | Some v_old =>
        Ret (mkUpsert (delete k (lightlike_asserted u)) (spacelike_retracted u) (<[k := (v_old, v)]> (timelike_altered u)))
    | None => Panic
    end.

Definition witness (u : LightlikeUpsert) (k : K) (v : V) (w : Witnessed) : outcome LightlikeUpsert :=
  match w with
  | Assertion | Neither => witness_assertion u k v
  | Retraction => witness_retraction u k v
  end.
End Witness.

Arguments LightlikeUpsert K V {_ _}.
