(* ===== verification/SchemaLaws.v ===== *)
(** * SchemaLaws: what updates do to a schema *)
From Stdlib Require Import ZArith Lia Sorted.
From stdpp Require Import base list numbers gmap sets sorting.
From S2P Require Import Prelude Slice Order Shelling EmlValue TypedValue Schema SchemaUpdate.
#[local] Open Scope Z_scope.

(** ** Well-formed attributes *)

(** What validation asks of an attribute. *)
Definition well_formed (a : Attribute) : Prop :=
  (at_unique a ≠ None → at_index a = true)
  ∧ (at_fulltext a = true → at_value_type a = VT_String ∧ at_index a = true)
  ∧ (at_component a = true → at_value_type a = VT_Ref).

Section Validation.
Context {AT : EmlAtoms} {CA : CausetAtoms}.

Lemma validate_well_formed a : validate a = inr tt ↔ well_formed a.
Proof.
  destruct a as [ix ty ft [ [|]|] mv cp nh]; destruct ix, ft, cp, ty; unfold well_formed, validate; cbn;
    (split; [intros H; try discriminate H; naive_solver|intros (H1 & H2 & H3)]); try done;
    exfalso; (discriminate (H1 ltac:(done)) || discriminate (proj1 (H2 eq_refl)) || discriminate (proj2 (H2 eq_refl)) || discriminate (H3 eq_refl)).
Qed.

Lemma validate_error a e : validate a = inl e → ¬ well_formed a.
Proof. rewrite <- validate_well_formed. by intros ->. Qed.

Lemma foldE_check {A} (f : A → DbError + unit) l :
  match foldE (λ _ x, f x) tt l with
  | inr _ => ∀ x, x ∈ l → f x = inr tt
  | inl e => ∃ x, x ∈ l ∧ f x = inl e
  end.
Proof.
  induction l as [|x l IH]; cbn [foldE]; [by intros x ?%elem_of_nil|]. destruct (f x) as [e|[] ] eqn:E.
  - exists x. split; [apply elem_of_cons; by left|done].
  - destruct (foldE _ _ l) as [e|u].
    + destruct IH as (y & Hy & ?). exists y. split; [apply elem_of_cons; by right|done].
    + intros y [->|Hy]%elem_of_cons; [done|by apply IH].
Qed.

Context {AI : AttributeMapIter}.

Lemma elem_of_attributes m e a : (e, a) ∈ attributes m ↔ m !! e = Some a.
Proof. rewrite (attributes_perm m). apply elem_of_map_to_list. Qed.

(** A schema is accepted exactly when every attribute is well formed, and otherwise
    refused with the complaint about one that is not. *)
Theorem validate_attribute_map_exact m :
  match validate_attribute_map m with
  | inr _ => ∀ e a, m !! e = Some a → well_formed a
  | inl err => ∃ e a, m !! e = Some a ∧ validate a = inl err ∧ ¬ well_formed a
  end.
Proof.
  pose proof (foldE_check (λ p : Z * Attribute, validate p.2) (attributes m)) as H. unfold validate_attribute_map.
  destruct (foldE _ _ _) as [err|u].
  - destruct H as ([e a] & Hin & Hv). exists e, a. split; [by apply elem_of_attributes|]. split; [done|by eapply validate_error].
  - intros e a Ha. apply validate_well_formed. by apply (H (e, a)), elem_of_attributes.
Qed.
End Validation.

(** ** Altering an attribute *)

(** The setting of a builder, where it has one. *)
Definition set_or_old {A} (old : A) (o : option A) : A := default old o.

(** Each of the five steps sets its field, and reports it when it has changed. *)
Lemma step_eq {A} `{EqDecision A} (f : A → Attribute) (old : A) (o : option A) (x : AttributeAlteration) a :
  f old = a →
  match o with Some y => if bool_decide (y ≠ old) then (f y, [x]) else (a, []) | None => (a, []) end
  = (f (set_or_old old o), if bool_decide (set_or_old old o ≠ old) then [x] else []).
Proof.
  intros <-. destruct o as [y|]; unfold set_or_old; cbn; case_bool_decide as H; try done.
  by subst.
Qed.

Lemma mutate_unique_eq b a : mutate_unique b a =
  (with_unique a (default None (b_unique b)),
   if bool_decide (default None (b_unique b) ≠ at_unique a) then [Alter_Unique] else []).
Proof.
  destruct a as [ix ty ft u mv cp nh]. unfold mutate_unique, with_unique; cbn.
  destruct (b_unique b) as [u'|]; cbn; repeat case_bool_decide; by subst.
Qed.

Definition altered_fields (a a' : Attribute) : list AttributeAlteration :=
  (if bool_decide (at_multival a' ≠ at_multival a) then [Alter_Cardinality] else [])
  ++ (if bool_decide (at_unique a' ≠ at_unique a) then [Alter_Unique] else [])
  ++ (if bool_decide (at_index a' ≠ at_index a) then [Alter_Index] else [])
  ++ (if bool_decide (at_component a' ≠ at_component a) then [Alter_IsComponent] else [])
  ++ (if bool_decide (at_no_history a' ≠ at_no_history a) then [Alter_NoHistory] else []).

(** [mutate] sets what the builder sets, resets uniqueness where the builder does not say
    otherwise, and reports what has changed. *)
Lemma mutate_eq b a :
  let a' := mkAttribute (set_or_old (at_index a) (b_index b)) (at_value_type a) (at_fulltext a) (default None (b_unique b))
    (set_or_old (at_multival a) (b_multival b)) (set_or_old (at_component a) (b_component b))
    (set_or_old (at_no_history a) (b_no_history b)) in
  mutate b a = (a', altered_fields a a').
Proof.
  destruct a as [ix ty ft u mv cp nh]. unfold mutate, mutate_multival. cbn.
  rewrite (step_eq (λ x, mkAttribute ix ty ft u x cp nh)) by done. rewrite mutate_unique_eq.
  unfold mutate_index, with_unique. cbn.
  rewrite (step_eq (λ x, mkAttribute x ty ft (default None (b_unique b)) (set_or_old mv (b_multival b)) cp nh)) by done.
  unfold mutate_component. cbn.
  rewrite (step_eq (λ x, mkAttribute (set_or_old ix (b_index b)) ty ft (default None (b_unique b)) (set_or_old mv (b_multival b)) x nh)) by done.
  unfold mutate_no_history. cbn.
  rewrite (step_eq (λ x, mkAttribute (set_or_old ix (b_index b)) ty ft (default None (b_unique b)) (set_or_old mv (b_multival b))
    (set_or_old cp (b_component b)) x)) by done.
  done.
Qed.

(** Altering an attribute: the settings given are taken over and the others kept,
    but for uniqueness, which is lost unless it is given again; the type and the
    full-text flag never change; the alterations reported, in a fixed order, are exactly
    the fields that differ, so that none is reported when nothing does. *)
Theorem mutate_exact b a : let '(a', alterations) := mutate b a in
  at_multival a' = default (at_multival a) (b_multival b) ∧ at_index a' = default (at_index a) (b_index b)
  ∧ at_component a' = default (at_component a) (b_component b) ∧ at_no_history a' = default (at_no_history a) (b_no_history b)
  ∧ at_unique a' = default None (b_unique b)
  ∧ at_value_type a' = at_value_type a ∧ at_fulltext a' = at_fulltext a
  ∧ alterations = altered_fields a a' ∧ (alterations = [] ↔ a' = a).
Proof.
  rewrite mutate_eq. cbn. split_and!; try done. destruct a as [ix ty ft u mv cp nh]. unfold altered_fields; cbn.
  split; [|intros E; injection E; intros; repeat case_bool_decide; try done; congruence].
  repeat (case_bool_decide as E; [discriminate|rewrite E; clear E; cbn [app]]). done.
Qed.

(** ** Updates, one entity at a time *)

Section Pointwise.
Context {AT : EmlAtoms} {CA : CausetAtoms} {AD : AttributeDefault} {II : IndexIds}.

Notation EAV := (Z * Z * causetq_TV)%type.
Implicit Types (m : AttributeMap) (B : gmap Z AttributeBuilder) (l : list EAV).

(** The triples of one entity, in order. *)
Definition at_entity (e : Z) (l : list EAV) : list EAV := filter (λ t, t.1.1 = e) l.

(** The builder of one entity after its triples. *)
Fixpoint entity_builder (one : AttributeBuilder → Z → causetq_TV → DbError + AttributeBuilder) (start : AttributeBuilder)
    (o : option AttributeBuilder) (l : list EAV) : DbError + option AttributeBuilder :=
  match l with
  | [] => inr o
  | (_, a, v) :: l => match one (default start o) a v with inl err => inl err | inr b => entity_builder one start (Some b) l end
  end.

Lemma group_pointwise (one : AttributeBuilder → Z → causetq_TV → DbError + AttributeBuilder) (start : Z → AttributeBuilder)
    (step : gmap Z AttributeBuilder → EAV → DbError + gmap Z AttributeBuilder) :
  (∀ B e a v, step B (e, a, v) = match one (default (start e) (B !! e)) a v with inl err => inl err | inr b => inr (<[e := b]> B) end) →
  ∀ l B,
  match foldE step B l with
  | inr B' => ∀ e, entity_builder one (start e) (B !! e) (at_entity e l) = inr (B' !! e)
  | inl err => ∃ e, entity_builder one (start e) (B !! e) (at_entity e l) = inl err
  end.
Proof.
  intros Hstep. induction l as [|[ [e a] v] l IH]; intros B; cbn [foldE]; [done|].
  rewrite Hstep. destruct (one (default (start e) (B !! e)) a v) as [err|b] eqn:E.
  - exists e. unfold at_entity. rewrite filter_cons_True by done. cbn [entity_builder]. by rewrite E.
  - specialize (IH (<[e := b]> B)).
    assert (∀ e', entity_builder one (start e') (B !! e') (at_entity e' ((e, a, v) :: l))
                  = entity_builder one (start e') (<[e := b]> B !! e') (at_entity e' l)) as Heq.
    { intros e'. unfold at_entity. destruct (decide (e = e')) as [<-|Hn].
      - rewrite filter_cons_True, lookup_insert_eq by done. cbn [entity_builder]. by rewrite E.
      - by rewrite filter_cons_False, lookup_insert_ne by done. }
    destruct (foldE step _ l) as [err|B'].
    + destruct IH as [e' He']. exists e'. by rewrite Heq.
    + intros e'. rewrite Heq. apply IH.
Qed.

(** One builder against what the map holds: the attribute, with the alterations reported
    when it was there before. *)
Definition settle (o : option Attribute) (b : AttributeBuilder) : DbError + (Attribute * option (list AttributeAlteration)) :=
  match o with
  | None => match install_attribute b with inl err => inl err | inr a => inr (a, None) end
  | Some a => match validate_alter_attribute b with inl err => inl err | inr _ => inr ((mutate b a).1, Some (mutate b a).2) end
  end.

(** The whole update, for one entity. *)
Definition entity_change m (assertions retractions : list EAV) (e : Z)
  : DbError + option (Attribute * option (list AttributeAlteration)) :=
  match entity_builder retract_one (attribute_builder_to_modify e m) None (at_entity e retractions) with
  | inl err => inl err
  | inr o =>
      match entity_builder assert_one builder_default o (at_entity e assertions) with
      | inl err => inl err
      | inr None => inr None
      | inr (Some b) => match settle (m !! e) b with inl err => inl err | inr c => inr (Some c) end
      end
  end.

(** What the report says of an entity. *)
Definition reported (r : SpacetimeReport) (e : Z) (c : option (Attribute * option (list AttributeAlteration))) : Prop :=
  (e ∈ attributes_installed r ↔ ∃ a, c = Some (a, None))
  ∧ attributes_altered r !! e = (c ≫= snd).

Definition record_change (r : SpacetimeReport) (e : Z) (c : Attribute * option (list AttributeAlteration)) : SpacetimeReport :=
  match c.2 with
  | None => mkReport ({[e]} ∪ attributes_installed r) (attributes_altered r)
  | Some ms => mkReport (attributes_installed r) (<[e := ms]> (attributes_altered r))
  end.

Lemma apply_builders_cons m r e b (l : list (Z * AttributeBuilder)) : apply_builders m r ((e, b) :: l) =
  match settle (m !! e) b with
  | inl err => (inl err, m)
  | inr c => apply_builders (<[e := c.1]> m) (record_change r e c) l
  end.
Proof.
  cbn [apply_builders]. destruct (m !! e) as [a|]; cbn [settle].
  - destruct (validate_alter_attribute b); [done|]. by destruct (mutate b a).
  - by destruct (install_attribute b).
Qed.

Lemma reported_record r e c e' o : reported r e' o → (e' = e → o = None) →
  reported (record_change r e c) e' (if decide (e' = e) then Some c else o).
Proof.
  intros [H1 H2] Hn. unfold reported, record_change. destruct c as [a [ms|] ], (decide (e' = e)) as [->|Hne]; cbn;
    rewrite ?lookup_insert_eq, ?lookup_insert_ne by done; rewrite ?elem_of_union, ?elem_of_singleton, ?H1, ?H2;
    try rewrite (Hn eq_refl); cbn; naive_solver.
Qed.

(** The builders are applied by increasing entity; each sees the map as it was. *)
Lemma apply_builders_pointwise (l : list (Z * AttributeBuilder)) : ∀ m r c0,
  StronglySorted Z.lt l.*1 → (∀ e, e ∈ l.*1 → c0 e = None) → (∀ e, reported r e (c0 e)) →
  match apply_builders m r l with
  | (inr r', m') =>
      (∀ e b, (e, b) ∈ l → ∃ c, settle (m !! e) b = inr c ∧ m' !! e = Some c.1 ∧ reported r' e (Some c))
      ∧ (∀ e, e ∉ l.*1 → m' !! e = m !! e ∧ reported r' e (c0 e))
  | (inl err, m') =>
      ∃ e b, (e, b) ∈ l ∧ settle (m !! e) b = inl err
        ∧ ∀ e', m' !! e' = m !! e' ∨ (e' < e ∧ ∃ b' c, (e', b') ∈ l ∧ settle (m !! e') b' = inr c ∧ m' !! e' = Some c.1)
  end.
Proof.
  induction l as [|[e b] l IH]; intros m r c0 Hs Hc0 Hr.
  { cbn. split; [by intros e b ?%elem_of_nil|done]. }
  rewrite apply_builders_cons. inversion Hs as [|? ? Hs' Hlt]; subst. rewrite Forall_forall in Hlt.
  assert (∀ e', e' ∈ l.*1 → e < e') as Hlt' by (intros; by apply Hlt). clear Hlt.
  assert (∀ e' b', (e', b') ∈ l → e < e') as Hlt by (intros e' b' Hin; apply Hlt', list_elem_of_fmap; by exists (e', b')).
  destruct (settle (m !! e) b) as [err|c] eqn:Ec.
  { exists e, b. split; [apply elem_of_cons; by left|]. split; [done|]. by left. }
  specialize (IH (<[e := c.1]> m) (record_change r e c) (λ e', if decide (e' = e) then Some c else c0 e') Hs').
  ospecialize (IH _ _).
  { intros e' Hin. rewrite decide_False by (specialize (Hlt' e' Hin); lia). apply Hc0. cbn. apply elem_of_cons. by right. }
  { intros e'. apply reported_record; [apply Hr|]. intros ->. apply Hc0. cbn. apply elem_of_cons. by left. }
  destruct (apply_builders _ _ l) as [ [err|r'] m'].
  - destruct IH as (e1 & b1 & Hin & He1 & Hm). pose proof (Hlt e1 b1 Hin). rewrite lookup_insert_ne in He1 by lia.
    exists e1, b1. split; [apply elem_of_cons; by right|]. split; [done|]. intros e'. destruct (Hm e') as [->|(Hl & b' & c' & Hin' & Hc' & Hm')].
    + destruct (decide (e = e')) as [<-|Hn].
      * right. split; [done|]. exists b, c. rewrite lookup_insert_eq. split_and!; [apply elem_of_cons; by left|done..].
      * left. by rewrite lookup_insert_ne.
    + right. split; [done|]. pose proof (Hlt e' b' Hin'). rewrite lookup_insert_ne in Hc' by lia.
      exists b', c'. split_and!; [apply elem_of_cons; by right|done..].
  - destruct IH as [H1 H2]. split.
    + intros e' b' [ [= -> ->]|Hin]%elem_of_cons.
      * exists c. split; [done|]. destruct (H2 e) as [Hm Hre]; [intros Hin; specialize (Hlt' e Hin); lia|].
        rewrite lookup_insert_eq in Hm. rewrite decide_True in Hre by done. done.
      * destruct (H1 e' b' Hin) as (c' & Hc' & ? & ?). pose proof (Hlt e' b' Hin). rewrite lookup_insert_ne in Hc' by lia. by exists c'.
    + cbn. intros e' [Hn Hnl]%not_elem_of_cons. destruct (H2 e' Hnl) as [Hm Hre].
      rewrite lookup_insert_ne in Hm by done. by rewrite decide_False in Hre.
Qed.

Lemma elem_of_bt_entries {A} (x : gmap Z A) e b : (e, b) ∈ bt_entries x ↔ x !! e = Some b.
Proof. unfold bt_entries. rewrite (merge_sort_Permutation key_le (map_to_list x)). apply elem_of_map_to_list. Qed.

Lemma bt_entries_sorted {A} (x : gmap Z A) : StronglySorted Z.lt (bt_entries x).*1.
Proof.
  assert (NoDup (bt_entries x).*1) as Hn.
  { unfold bt_entries. rewrite (fmap_Permutation fst _ _ (merge_sort_Permutation key_le (map_to_list x))).
    apply NoDup_fst_map_to_list. }
  assert (StronglySorted key_le (bt_entries x)) as Hs.
  { apply StronglySorted_merge_sort. intros a b c H1 H2. unfold key_le in *. lia. intros a b. unfold key_le. lia. }
  induction Hs as [|p l Hs IH Hf]; [constructor|]. cbn in Hn. apply NoDup_cons in Hn as [Hp Hn]. cbn. constructor; [by apply IH|].
  rewrite Forall_forall. intros e He. apply list_elem_of_fmap in He as (q & -> & Hq).
  rewrite Forall_forall in Hf. specialize (Hf q Hq). unfold key_le in Hf.
  assert (p.1 ≠ q.1) by (intros Heq; apply Hp; rewrite Heq; apply list_elem_of_fmap; by exists q). lia.
Qed.

Lemma elem_of_bt_keys {A} (x : gmap Z A) e : e ∈ (bt_entries x).*1 ↔ is_Some (x !! e).
Proof.
  rewrite list_elem_of_fmap. split.
  - intros ([e' b] & -> & H%elem_of_bt_entries). by exists b.
  - intros [b H]. exists (e, b). split; [done|by apply elem_of_bt_entries].
Qed.

(** An update does to every entity what its own triples say. *)
Lemma update_pointwise m assertions retractions :
  match update_attribute_map_from_causetid_triples m assertions retractions with
  | (inr r, m') => ∀ e, ∃ c, entity_change m assertions retractions e = inr c
      ∧ m' !! e = (match c with None => m !! e | Some c => Some c.1 end) ∧ reported r e c
  | (inl err, m') => ∃ e, entity_change m assertions retractions e = inl err
      ∧ ∀ e', m' !! e' = m !! e'
              ∨ (e' < e ∧ ∃ c, entity_change m assertions retractions e' = inr (Some c) ∧ m' !! e' = Some c.1)
  end.
Proof.
  unfold update_attribute_map_from_causetid_triples.
  pose proof (group_pointwise retract_one (λ e, attribute_builder_to_modify e m) (retract_step m)
    ltac:(done) retractions ∅) as HR.
  destruct (foldE (retract_step m) ∅ retractions) as [err|B].
  { destruct HR as [e He]. exists e. rewrite lookup_empty in He. unfold entity_change. rewrite He. split; [done|by left]. }
  pose proof (group_pointwise assert_one (λ _, builder_default) assert_step ltac:(done) assertions B) as HA.
  assert (∀ e, entity_builder retract_one (attribute_builder_to_modify e m) None (at_entity e retractions) = inr (B !! e)) as HR'.
  { intros e. specialize (HR e). by rewrite lookup_empty in HR. }
  clear HR. destruct (foldE assert_step B assertions) as [err|B'].
  { destruct HA as [e He]. exists e. unfold entity_change. rewrite HR', He. split; [done|by left]. }
  assert (∀ e, entity_change m assertions retractions e = match B' !! e with
    | None => inr None
    | Some b => match settle (m !! e) b with inl err => inl err | inr c => inr (Some c) end end) as HE.
  { intros e. unfold entity_change. by rewrite HR', HA. }
  clear HR' HA. pose proof (apply_builders_pointwise (bt_entries B') m (mkReport ∅ ∅) (λ _, None)
    (bt_entries_sorted B') ltac:(done)) as H.
  ospecialize (H _). { intros e. unfold reported. cbn. split; [|by rewrite lookup_empty]. rewrite elem_of_empty. naive_solver. }
  destruct (apply_builders _ _ _) as [ [err|r] m'].
  - destruct H as (e & b & Hb%elem_of_bt_entries & Hs & Hm). exists e. rewrite HE, Hb, Hs. split; [done|].
    intros e'. destruct (Hm e') as [?|(? & b' & c & Hb'%elem_of_bt_entries & Hs' & ?)]; [by left|]. right.
    split; [done|]. exists c. by rewrite HE, Hb', Hs'.
  - destruct H as [H1 H2]. intros e. rewrite HE. destruct (B' !! e) as [b|] eqn:Eb.
    + destruct (H1 e b) as (c & -> & ? & ?); [by apply elem_of_bt_entries|]. by exists (Some c).
    + exists None. split; [done|]. apply H2. rewrite elem_of_bt_keys, Eb. by intros [? [=] ].
Qed.

(** C3. Updating the schema from a batch of triples does to each entity what its own
    triples do to it, whatever the order of the others: the batch succeeds exactly when
    every entity's triples are accepted, the new schema and the report are made of each
    entity's outcome, and a refused batch is refused for some entity, only smaller
    entities having been changed. *)
Theorem schema_update_exact m assertions retractions :
  match update_attribute_map_from_causetid_triples m assertions retractions with
  | (inr r, m') => ∀ e, ∃ c, entity_change m assertions retractions e = inr c
      ∧ m' !! e = (match c with None => m !! e | Some c => Some c.1 end) ∧ reported r e c
  | (inl err, m') => ∃ e, entity_change m assertions retractions e = inl err
      ∧ ∀ e', m' !! e' = m !! e'
              ∨ (e' < e ∧ ∃ c, entity_change m assertions retractions e' = inr (Some c) ∧ m' !! e' = Some c.1)
  end.
Proof. apply update_pointwise. Qed.
End Pointwise.
