(* ===== verification/SchemaRetract.v ===== *)
(** * SchemaRetract: what updates keep and refuse, and retracting whole attributes

    The states updates reach and the triples they refuse, the split of the retractions
    of whole attributes, and the pairing of assertions with retractions. *)
From Stdlib Require Import ZArith Lia.
From stdpp Require Import base list numbers gmap sorting sets.
From S2P Require Import Prelude Slice Order Shelling EmlValue TypedValue Schema SchemaUpdate SchemaLaws.
#[local] Open Scope Z_scope.

Section Safe.
Context {AT : EmlAtoms} {CA : CausetAtoms} {AD : AttributeDefault} {II : IndexIds}.

Notation EAV := (Z * Z * causetq_TV)%type.
Implicit Types (m : AttributeMap).

(** ** Outcomes of one entity *)

Lemma entity_builder_inv (P : AttributeBuilder → Prop) one start l : ∀ o b,
  (∀ b b' e a v, (e, a, v) ∈ l → P b → one b a v = inr b' → P b') →
  P start → (∀ b, o = Some b → P b) → entity_builder one start o l = inr (Some b) → P b.
Proof.
  induction l as [|[ [e a] v] l IH]; intros o b Hone Hs Ho; cbn [entity_builder].
  { intros [= ->]. by apply Ho. }
  destruct (one (default start o) a v) as [err|b1] eqn:E; [done|]. apply IH; [|done|].
  - intros b2 b3 e' a' v' Hin. apply (Hone _ _ e'). apply elem_of_cons. by right.
  - intros ? [= <-]. eapply (Hone _ _ e); [apply elem_of_cons; by left| |exact E]. destruct o; [by apply Ho|done].
Qed.

(** The whole update of one entity keeps what each of its triples does. *)
Lemma entity_change_inv (P : AttributeBuilder → Prop) m assertions retractions e c :
  P (attribute_builder_to_modify e m) → P builder_default →
  (∀ b b' a v, P b → (e, a, v) ∈ retractions → retract_one b a v = inr b' → P b') →
  (∀ b b' a v, P b → (e, a, v) ∈ assertions → assert_one b a v = inr b' → P b') →
  entity_change m assertions retractions e = inr (Some c) →
  ∃ b, P b ∧ settle (m !! e) b = inr c.
Proof.
  intros Hm Hd Hr Ha. unfold entity_change.
  destruct (entity_builder retract_one _ None _) as [?|o] eqn:Er; [done|].
  destruct (entity_builder assert_one _ o _) as [?|[b|] ] eqn:Ea; [done| |done].
  destruct (settle (m !! e) b) as [?|c'] eqn:Es; [done|]. intros [= <-]. exists b. split; [|done].
  eapply (entity_builder_inv P assert_one builder_default (at_entity e assertions) o); try done.
  - intros b1 b2 e' a v Hin HP H. apply list_elem_of_filter in Hin as [Heq Hin]. cbn in Heq. subst e'. by eapply Ha.
  - intros b1 ->. apply (entity_builder_inv P retract_one (attribute_builder_to_modify e m) (at_entity e retractions) None); [|done|done|exact Er].
    intros b2 b3 e' a v Hin HP H. apply list_elem_of_filter in Hin as [Heq Hin]. cbn in Heq. subst e'. by eapply Hr.
Qed.

(** What the map holds afterwards is what it held or what the entity's triples made of it,
    whether the update was accepted or not. *)
Lemma updated_entity m assertions retractions e a :
  (update_attribute_map_from_causetid_triples m assertions retractions).2 !! e = Some a →
  m !! e = Some a ∨ ∃ c, entity_change m assertions retractions e = inr (Some c) ∧ c.1 = a.
Proof.
  pose proof (update_pointwise m assertions retractions) as H.
  destruct (update_attribute_map_from_causetid_triples _ _ _) as [ [err|r] m']; cbn [snd].
  - destruct H as (e0 & _ & H). destruct (H e) as [->|(_ & c & Hc & ->)]; [by left|].
    intros [= <-]. right. by exists c.
  - destruct (H e) as ([c|] & Hc & -> & _); [|by left]. intros [= <-]. right. by exists c.
Qed.

Lemma settle_installed b c : settle None b = inr c → well_formed c.1 ∧ b_value_type b = Some (at_value_type c.1).
Proof.
  unfold settle, install_attribute, validate_install_attribute. destruct (b_value_type b) as [ty|] eqn:Et; [|done].
  destruct (validate (build b)) as [?|[] ] eqn:Ev; [done|]. intros [= <-]. cbn [fst].
  split; [by apply validate_well_formed|]. unfold build. cbn. by rewrite Et.
Qed.

Lemma settle_altered a b c : settle (Some a) b = inr c →
  c = ((mutate b a).1, Some (mutate b a).2) ∧ b_value_type b = None ∧ b_fulltext b = None.
Proof.
  unfold settle, validate_alter_attribute. destruct (b_value_type b); [done|]. destruct (b_fulltext b); [done|]. by intros [= <-].
Qed.

(** Whatever an update does, and even when it is refused half-way: no attribute goes
    away, none changes its type or its full-text flag, and one that is new is well
    formed. *)
Theorem update_stable m assertions retractions e :
  let m' := (update_attribute_map_from_causetid_triples m assertions retractions).2 in
  (∀ a, m !! e = Some a → ∃ a', m' !! e = Some a' ∧ at_value_type a' = at_value_type a ∧ at_fulltext a' = at_fulltext a)
  ∧ (∀ a', m !! e = None → m' !! e = Some a' → well_formed a').
Proof.
  pose proof (update_pointwise m assertions retractions) as H. cbn zeta.
  assert (∀ a c, m !! e = Some a → entity_change m assertions retractions e = inr (Some c) →
    at_value_type c.1 = at_value_type a ∧ at_fulltext c.1 = at_fulltext a) as Hkeep.
  { intros a c Ha Hc. apply (entity_change_inv (λ _, True)) in Hc as (b & _ & Hs); [|by intros..].
    rewrite Ha in Hs. apply settle_altered in Hs as (-> & _). rewrite mutate_eq. done. }
  split.
  - intros a Ha. destruct (update_attribute_map_from_causetid_triples _ _ _) as [ [err|r] m']; cbn [snd].
    + destruct H as (e0 & _ & H). destruct (H e) as [->|(_ & c & Hc & ->)]; [by exists a|]. exists c.1. split; [done|by eapply Hkeep].
    + destruct (H e) as ([c|] & Hc & -> & _); [|by exists a]. exists c.1. split; [done|by eapply Hkeep].
  - intros a' Hn Ha'. apply updated_entity in Ha' as [?|(c & Hc & <-)]; [congruence|].
    apply (entity_change_inv (λ _, True)) in Hc as (b & _ & Hs); [|by intros..]. rewrite Hn in Hs. by apply (settle_installed b c).
Qed.

(** ** Well-formedness *)

(** What a builder for the attribute [a] may hold while [a] stays well formed. *)
Definition harmless (a : Attribute) (b : AttributeBuilder) : Prop :=
  b_index b ≠ Some false ∧ (b_component b = Some true → at_component a = true)
  ∧ (∀ u, b_unique b = Some (Some u) → at_index a = true).

Lemma harmless_mutate a b : well_formed a → harmless a b → well_formed (mutate b a).1.
Proof.
  intros (Hu & Hf & Hc) (Hi & Hbc & Hbu). rewrite mutate_eq. destruct a as [ix ty ft u mv cp nh]. unfold well_formed, set_or_old in *; cbn in *.
  assert (ix = true → default ix (b_index b) = true) as Hix by (intros ->; by destruct (b_index b) as [ []|]).
  split_and!.
  - destruct (b_unique b) as [ [u'|]|]; cbn; try done. intros _. by eapply Hix, Hbu.
  - intros Hft. destruct (Hf Hft). auto.
  - destruct (b_component b) as [ []|]; cbn; auto. done.
Qed.

Lemma retract_harmless a b b' at_ v : harmless a b → retract_one b at_ v = inr b' → harmless a b'.
Proof.
  intros (Hi & Hc & Hu). unfold retract_one. repeat case_match; try done; intros [= <-]; by split_and!.
Qed.

Lemma assert_harmless a b b' at_ v : harmless a b → assert_one b at_ v = inr b' →
  (at_ = EINSTEINDB_INDEX → v = TV_Ref INDEX_NONE → INDEX_NONE = INDEX_FULLTEXT) →
  (at_ = EINSTEINDB_UNIQUE → at_index a = true) → harmless a b'.
Proof.
  intros (Hi & Hc & Hu). unfold assert_one, set_unique, set_fulltext. intros H Hin Hun.
  repeat case_match; simplify_eq; repeat match goal with H : (_ =? _) = true |- _ => apply Z.eqb_eq in H; subst end;
    try (unfold harmless; cbn; by auto).
  exfalso. match goal with H : (_ =? _) = false |- _ => apply Z.eqb_neq in H; apply H end. auto.
Qed.

(** C36. A schema whose attributes are all well formed stays so, whether the update is
    accepted or refused, as long as no index is taken away and no attribute without an
    index is made unique: those two the alteration of an attribute does not check. *)
Theorem update_well_formed m assertions retractions :
  (∀ e a, m !! e = Some a → well_formed a) →
  (∀ e, (e, EINSTEINDB_INDEX, TV_Ref INDEX_NONE) ∈ assertions → INDEX_NONE = INDEX_FULLTEXT ∨ m !! e = None) →
  (∀ e v a, (e, EINSTEINDB_UNIQUE, v) ∈ assertions → m !! e = Some a → at_index a = true) →
  ∀ e a, (update_attribute_map_from_causetid_triples m assertions retractions).2 !! e = Some a → well_formed a.
Proof.
  intros Hm Hi Hu e a Ha. apply updated_entity in Ha as [?|(c & Hc & <-)]; [by eapply Hm|].
  destruct (m !! e) as [a|] eqn:E.
  - pose proof (Hm e a E) as (Hwu & _ & _).
    destruct (entity_change_inv (harmless a) m assertions retractions e c) as (b & Hb & Hs); [..|done|].
    + unfold attribute_builder_to_modify. rewrite E. unfold harmless, to_modify_attribute; cbn. split_and!; [done|congruence|].
      intros u [= Hau]. apply Hwu. congruence.
    + by repeat split.
    + intros b b' at_ v Hb _. by apply retract_harmless.
    + intros b b' at_ v Hb Hin Ho. eapply assert_harmless; [done|exact Ho| |].
      * intros -> ->. destruct (Hi e Hin); [done|congruence].
      * intros ->. by eapply Hu.
    + rewrite E in Hs. apply settle_altered in Hs as (-> & _). apply harmless_mutate; [by eapply Hm|done].
  - apply (entity_change_inv (λ _, True)) in Hc as (b & _ & Hs); [|by intros..]. rewrite E in Hs. by apply (settle_installed b c).
Qed.

(** ** Assertions that are refused *)

(** The assertions that some builder accepts. *)
Definition accepted (a : Z) (v : causetq_TV) : Prop :=
  match v with
  | TV_Ref r =>
      (a = EINSTEINDB_VALUE_TYPE ∧ value_type_of r ≠ None)
      ∨ (a = EINSTEINDB_CARDINALITY ∧ (r = EINSTEINDB_CARDINALITY_MANY ∨ r = EINSTEINDB_CARDINALITY_ONE))
      ∨ (a = EINSTEINDB_INDEX ∧ (r = INDEX_FULLTEXT ∨ r = INDEX_NONE))
      ∨ (a = EINSTEINDB_UNIQUE ∧ (r = EINSTEINDB_UNIQUE_VALUE ∨ r = EINSTEINDB_UNIQUE_IDcauset))
  | TV_Boolean _ => a = EINSTEINDB_FULLTEXT
  | _ => False
  end.

Lemma assert_accepted b a v b' : assert_one b a v = inr b' → accepted a v.
Proof.
  unfold assert_one, accepted. intros H. repeat case_match; simplify_eq;
    repeat match goal with H : (_ =? _) = true |- _ => apply Z.eqb_eq in H; subst end; naive_solver.
Qed.

Lemma assert_loop_accepted B l B' : foldE assert_step B l = inr B' → Forall (λ t : EAV, accepted t.1.2 t.2) l.
Proof.
  revert B. induction l as [|[ [e a] v] l IH]; intros B; cbn [foldE]; [constructor|].
  unfold assert_step at 1. destruct (assert_one _ a v) eqn:E; [done|]. intros H. constructor; [by eapply assert_accepted|by eapply IH].
Qed.

(** An update that asserts anything else is refused, and leaves the schema as it was:
    in particular one that makes an attribute a component, turns its history off, or
    gives its index as a boolean, although the code has arms for these. *)
Theorem update_refused m assertions retractions e a v : (e, a, v) ∈ assertions → ¬ accepted a v →
  ∃ err, update_attribute_map_from_causetid_triples m assertions retractions = (inl err, m).
Proof.
  intros Hin Hn. unfold update_attribute_map_from_causetid_triples.
  destruct (foldE (retract_step m) ∅ retractions) as [err|B]; [by exists err|].
  destruct (foldE assert_step B assertions) as [err|B'] eqn:E; [by exists err|].
  apply assert_loop_accepted in E. rewrite Forall_forall in E. by destruct (Hn (E _ Hin)).
Qed.
End Safe.

Section Retract.
Context {AT : EmlAtoms} {CA : CausetAtoms}.

Notation EAV := (Z * Z * causetq_TV)%type.
Implicit Types (m : AttributeMap) (ids : gmap Z Keyword) (l : list EAV).

(** The attributes a batch retracts from an entity; an entity loses its defining
    attributes when its type and its cardinality are among them. *)
Definition retracted_of (e : Z) l : list Z := map (λ t, t.1.2) (filter (λ t, t.1.1 = e) l).
Definition wholly (e : Z) l : bool :=
  bool_decide (EINSTEINDB_CARDINALITY ∈ retracted_of e l) && bool_decide (EINSTEINDB_VALUE_TYPE ∈ retracted_of e l).

Definition schema_triples l : list EAV := filter (λ t, Is_true (is_a_topograph_attribute t.1.2)) l.
Definition other_triples l : list EAV := filter (λ t, ¬ Is_true (is_a_topograph_attribute t.1.2)) l.

Lemma retracted_of_cons e t l : retracted_of e (t :: l) = if decide (t.1.1 = e) then t.1.2 :: retracted_of e l else retracted_of e l.
Proof. unfold retracted_of. destruct (decide (t.1.1 = e)); [by rewrite filter_cons_True|by rewrite filter_cons_False]. Qed.

Lemma split_exact l : ∃ eas, split_retractions l = (eas, schema_triples l, other_triples l)
  ∧ ∀ e, eas !! e = match retracted_of e (schema_triples l) with [] => None | xs => Some xs end.
Proof.
  unfold split_retractions.
  assert (∀ l (eas : gmap Z (list Z)) s f, ∃ eas', fold_left (λ st t,
    let '(eas, suspect, filtered) := st in
    let '(e, a, v) := t in
    if is_a_topograph_attribute a
    then (<[e := default [] (eas !! e) ++ [a]]> eas, suspect ++ [t], filtered)
    else (eas, suspect, filtered ++ [t])) l (eas, s, f) = (eas', s ++ schema_triples l, f ++ other_triples l)
    ∧ ∀ e, eas' !! e = match retracted_of e (schema_triples l) with [] => eas !! e | xs => Some (default [] (eas !! e) ++ xs) end) as H.
  { clear l. induction l as [|[ [e a] v] l IH]; intros eas s f.
    { exists eas. by rewrite !app_nil_r. }
    cbn [fold_left]. unfold schema_triples, other_triples. destruct (is_a_topograph_attribute a) eqn:Ea.
    - rewrite filter_cons_True, filter_cons_False by (cbn; rewrite Ea; cbn; tauto).
      destruct (IH (<[e := default [] (eas !! e) ++ [a]]> eas) (s ++ [(e, a, v)]) f) as (eas' & -> & He).
      exists eas'. split; [by rewrite <- app_assoc|]. intros e'. rewrite He, retracted_of_cons. cbn [fst snd]. fold (schema_triples l).
      destruct (decide (e = e')) as [<-|Hn]; [|by rewrite lookup_insert_ne]. rewrite lookup_insert_eq. cbn.
      destruct (retracted_of e (schema_triples l)); [done|]. by rewrite <- app_assoc.
    - rewrite filter_cons_False, filter_cons_True by (cbn; rewrite Ea; cbn; tauto).
      destruct (IH eas s (f ++ [(e, a, v)])) as (eas' & -> & He). exists eas'. by rewrite <- app_assoc. }
  destruct (H l ∅ [] []) as (eas & -> & He). exists eas. split; [done|]. intros e. rewrite He, lookup_empty. by destruct (retracted_of _ _).
Qed.

Lemma wholly_schema e l : wholly e (schema_triples l) = wholly e l.
Proof.
  assert (∀ a, is_a_topograph_attribute a = true → a ∈ retracted_of e (schema_triples l) ↔ a ∈ retracted_of e l) as H.
  { intros a Ha. unfold retracted_of. rewrite !list_elem_of_fmap. unfold schema_triples. split.
    - intros (t & -> & (? & (? & ?)%list_elem_of_filter)%list_elem_of_filter). exists t. rewrite list_elem_of_filter. done.
    - intros (t & -> & (? & ?)%list_elem_of_filter). exists t. rewrite !list_elem_of_filter. by rewrite Ha. }
  unfold wholly.
  by rewrite (bool_decide_ext _ _ (H EINSTEINDB_CARDINALITY eq_refl)), (bool_decide_ext _ _ (H EINSTEINDB_VALUE_TYPE eq_refl)).
Qed.

Definition one_of e l : bool := bool_decide (e ∈ map (λ t : EAV, t.1.1) l).

Lemma suspect_exact eas ids W : (∀ e attrs, eas !! e = Some attrs →
    bool_decide (EINSTEINDB_CARDINALITY ∈ attrs) && bool_decide (EINSTEINDB_VALUE_TYPE ∈ attrs) = W e) →
  ∀ l m f, (∀ t, t ∈ l → is_Some (eas !! t.1.1)) →
  ∃ res m', suspect_loop eas ids (m, f) l = Ret (res, m')
  ∧ match res with
    | inr rest => (∀ e, one_of e l = true → W e = true → is_Some (ids !! e))
        ∧ rest = f ++ filter (λ t : EAV, W t.1.1 = false) l
        ∧ ∀ e, m' !! e = if one_of e l && W e then None else m !! e
    | inl err => err = BadTopographAssertion DefiningAttributesWithoutSolitonid
        ∧ (∃ e, one_of e l = true ∧ W e = true ∧ ids !! e = None)
        ∧ ∀ e, m' !! e = m !! e ∨ (W e = true ∧ is_Some (ids !! e) ∧ m' !! e = None)
    end.
Proof.
  intros HW. induction l as [|[ [e a] v] l IH]; intros m f Hl.
  { exists (inr f), m. rewrite app_nil_r. split; [done|]. by split_and!. }
  destruct (Hl (e, a, v)) as [attrs Ha]; [apply elem_of_cons; by left|]. cbn [fst] in Ha.
  cbn [suspect_loop suspect_step]. rewrite Ha, (HW e attrs Ha).
  assert (∀ t, t ∈ l → is_Some (eas !! t.1.1)) as Hl' by (intros t Ht; apply Hl, elem_of_cons; by right).
  assert (∀ e', one_of e' ((e, a, v) :: l) = bool_decide (e' = e) || one_of e' l) as Hone.
  { intros e'. unfold one_of. rewrite <- bool_decide_or. apply bool_decide_ext. cbn. by rewrite elem_of_cons. }
  assert (∀ e', one_of e' ((e, a, v) :: l) = true ↔ e' = e ∨ one_of e' l = true) as Hor.
  { intros e'. rewrite Hone, orb_true_iff, bool_decide_eq_true. done. }
  destruct (W e) eqn:We; [case_bool_decide as Hid|]; cbn [mbind outcome_bind].
  - destruct (IH (delete e m) f Hl') as (res & m' & -> & H). exists res, m'. split; [done|].
    destruct res as [err|rest].
    + destruct H as (-> & (e' & ? & ? & ?) & Hm). split_and!; [done|exists e'; rewrite Hor; auto|]. intros e''.
      destruct (decide (e = e'')) as [<-|Hn].
      * right. split_and!; [done..|]. destruct (Hm e) as [->|(_ & _ & ->)]; [by rewrite lookup_delete_eq|done].
      * destruct (Hm e'') as [->|?]; [left; by rewrite lookup_delete_ne|by right].
    + destruct H as (H1 & -> & Hm). split_and!; [by intros e' [->|?]%Hor; auto| |].
      * by rewrite filter_cons_False by (cbn; congruence).
      * intros e'. rewrite Hm, Hone. case_bool_decide as He; cbn [orb].
        -- subst e'. rewrite We, andb_true_r. cbn [andb]. rewrite lookup_delete_eq. by destruct (one_of e l).
        -- by rewrite lookup_delete_ne.
  - exists (inl (BadTopographAssertion DefiningAttributesWithoutSolitonid)), m. split; [done|]. split_and!; [done| |by left].
    exists e. rewrite Hor. split_and!; [by left|done|]. by apply eq_None_not_Some.
  - destruct (IH m (f ++ [(e, a, v)]) Hl') as (res & m' & -> & H). exists res, m'. split; [done|].
    destruct res as [err|rest].
    + destruct H as (-> & (e' & ? & ? & ?) & Hm). split_and!; [done|exists e'; rewrite Hor; auto|done].
    + destruct H as (H1 & -> & Hm). split_and!; [by intros e' [->|?]%Hor; [congruence|auto]| |].
      * by rewrite filter_cons_True, <- app_assoc by done.
      * intros e'. rewrite Hm, Hone. case_bool_decide as He; [|done]. subst e'. by rewrite We, !andb_false_r.
Qed.

(** Retracting a batch: an attribute whose type and cardinality both go is removed
    from the schema, if the entity's name goes too, and a batch where it does not is
    refused, with only such attributes removed; what is left to process is the triples
    that are not the schema's, then the schema's of the entities that keep a defining
    attribute. *)
Theorem retractions_exact m l ids : ∃ res m',
  update_attribute_map_from_topograph_retractions m l ids = Ret (res, m')
  ∧ match res with
    | inr rest => (∀ e, wholly e l = true → is_Some (ids !! e))
        ∧ rest = other_triples l ++ filter (λ t : EAV, wholly t.1.1 l = false) (schema_triples l)
        ∧ ∀ e, m' !! e = if wholly e l then None else m !! e
    | inl err => err = BadTopographAssertion DefiningAttributesWithoutSolitonid
        ∧ (∃ e, wholly e l = true ∧ ids !! e = None)
        ∧ ∀ e, m' !! e = m !! e ∨ (wholly e l = true ∧ is_Some (ids !! e) ∧ m' !! e = None)
    end.
Proof.
  unfold update_attribute_map_from_topograph_retractions. destruct (split_exact l) as (eas & -> & He).
  assert (∀ e, wholly e l = true → one_of e (schema_triples l) = true) as Hw.
  { intros e. rewrite <- wholly_schema. intros [H _]%andb_true_iff. apply bool_decide_eq_true in H. apply bool_decide_eq_true.
    apply list_elem_of_fmap in H as (t & _ & [<- Ht]%list_elem_of_filter). apply list_elem_of_fmap. by exists t. }
  destruct (suspect_exact eas ids (λ e, wholly e l)) with (l := schema_triples l) (m := m) (f := other_triples l)
    as (res & m' & -> & H).
  - intros e attrs Ha. rewrite He in Ha. rewrite <- wholly_schema. unfold wholly. by destruct (retracted_of e (schema_triples l)); simplify_eq.
  - intros t Ht. rewrite He. destruct (retracted_of t.1.1 (schema_triples l)) eqn:E; [|done].
    assert (t.1.2 ∈ retracted_of t.1.1 (schema_triples l)) as Hin; [|by rewrite E in Hin; apply elem_of_nil in Hin].
    apply list_elem_of_fmap. exists t. split; [done|]. by apply list_elem_of_filter.
  - exists res, m'. split; [done|]. destruct res as [err|rest].
    + destruct H as (-> & (e & _ & ? & ?) & Hm). split_and!; [done|by exists e|done].
    + destruct H as (H1 & -> & Hm). split_and!; [by auto|done|]. intros e. rewrite Hm.
      destruct (wholly e l) eqn:E; [by rewrite (Hw e E)|]. by rewrite andb_false_r.
Qed.
End Retract.

(** ** Pairing assertions with retractions *)

Section Pairing.
Context {K V : Type} `{Countable K}.

Notation event := (K * V * Witnessed)%type.
Implicit Types (u : LightlikeUpsert K V) (l : list event).

Definition asserts (w : Witnessed) : bool := match w with Retraction => false | _ => true end.

(** One key: a first event waits for one of the other kind, with which it makes an
    alteration, in the order they come in; one of the same kind panics. *)
Fixpoint key_run (waiting : option (bool * V)) (altered : option (V * V)) l : outcome (option (bool * V) * option (V * V)) :=
  match l with
  | [] => Ret (waiting, altered)
  | (_, v, w) :: l =>
      match waiting with
      | None => key_run (Some (asserts w, v)) altered l
      | Some (b, old) => if Bool.eqb b (asserts w) then Panic else key_run None (Some (old, v)) l
      end
  end.

Definition at_key (k : K) l : list event := filter (λ t, t.1.1 = k) l.

Definition key_state u (k : K) (s : option (bool * V) * option (V * V)) : Prop :=
  lightlike_asserted u !! k = match s.1 with Some (true, v) => Some v | _ => None end
  ∧ spacelike_retracted u !! k = match s.1 with Some (false, v) => Some v | _ => None end
  ∧ timelike_altered u !! k = s.2.

Lemma witness_key u k v w s : key_state u k s →
  match key_run s.1 s.2 [(k, v, w)] with
  | Ret s' => ∃ u', witness u k v w = Ret u' ∧ key_state u' k s' ∧ ∀ k' s'', k' ≠ k → key_state u k' s'' → key_state u' k' s''
  | Panic => witness u k v w = Panic
  end.
Proof.
  intros (Ha & Hr & Ht). destruct s as [ [ [ [] old]|] alt], w; cbn in *;
    unfold witness_assertion, witness_retraction; rewrite ?Ha, ?Hr; cbn; try done;
    (eexists; split; [done|]; unfold key_state; cbn; split;
     [rewrite ?lookup_insert_eq, ?lookup_delete_eq; done
     |intros k' s'' Hn (? & ? & ?); rewrite ?lookup_insert_ne, ?lookup_delete_ne by done; done]).
Qed.

Lemma key_run_cons s1 s2 t l : key_run s1 s2 (t :: l) = (s ← key_run s1 s2 [t]; key_run s.1 s.2 l).
Proof. destruct t as [ [k v] w], s1 as [ [b old]|]; cbn; [|done]. by destruct (Bool.eqb b (asserts w)). Qed.

Lemma witness_run_from l : ∀ u (st : K → option (bool * V) * option (V * V)), (∀ k, key_state u k (st k)) →
  match foldO (λ u (t : event), witness u t.1.1 t.1.2 t.2) u l with
  | Ret u' => ∀ k, ∃ s, key_run (st k).1 (st k).2 (at_key k l) = Ret s ∧ key_state u' k s
  | Panic => ∃ k, key_run (st k).1 (st k).2 (at_key k l) = Panic
  end.
Proof.
  induction l as [|[ [k v] w] l IH]; intros u st Hst; cbn [foldO].
  { intros k. exists (st k). split; [by destruct (st k)|apply Hst]. }
  pose proof (witness_key u k v w (st k) (Hst k)) as Hw. cbn [fst snd].
  destruct (key_run (st k).1 (st k).2 [(k, v, w)]) as [s|] eqn:Ek.
  - destruct Hw as (u' & -> & Hs & Hother). cbn [mbind outcome_bind].
    specialize (IH u' (λ k', if decide (k' = k) then s else st k')). ospecialize (IH _).
    { intros k'. destruct (decide (k' = k)) as [->|Hn]; [done|by apply Hother]. }
    assert (∀ k', key_run (st k').1 (st k').2 (at_key k' ((k, v, w) :: l))
      = let s' := if decide (k' = k) then s else st k' in key_run s'.1 s'.2 (at_key k' l)) as Heq.
    { intros k'. unfold at_key. destruct (decide (k' = k)) as [->|Hn]; [|by rewrite filter_cons_False by naive_solver].
      by rewrite filter_cons_True, key_run_cons, Ek by done. }
    destruct (foldO _ u' l) as [u2|].
    + intros k'. rewrite Heq. apply IH.
    + destruct IH as [k' Hk']. exists k'. by rewrite Heq.
  - rewrite Hw. exists k. unfold at_key. rewrite filter_cons_True by done. by rewrite key_run_cons, Ek.
Qed.

(** A run of witnessed events returns exactly when no key, while it waits for the
    opposite of an event, sees that kind of event again; a key's events do not touch
    another's; an event and its opposite make an alteration, after which the key starts
    afresh, whose values stand in the order they were witnessed in, so that a retraction
    is the old value only when it comes first. *)
Theorem witness_run_exact l :
  match foldO (λ u (t : event), witness u t.1.1 t.1.2 t.2) upsert_new l with
  | Ret u => ∀ k, ∃ s, key_run None None (at_key k l) = Ret s ∧ key_state u k s
  | Panic => ∃ k, key_run None None (at_key k l) = Panic
  end.
Proof. apply (witness_run_from l upsert_new (λ _, (None, None))). intros k. unfold key_state. cbn. by rewrite !lookup_empty. Qed.
End Pairing.
