(* ===== verification/Bootstrap.v ===== *)
(** * Bootstrap: the schema a new store starts from

    [causetq/src/dedup.rs]: the names and ids a store is created with, its partitions, its
    core schema as a text, and what is made of them.  The text is read by the notation's
    parser, which is another crate's; [EINSTEIN_DB__SYMBOLIC_SCHEMA] is the map it
    stands for.  Names are the texts the source writes, turned into keywords as its macro
    does.  The second half computes what the schema becomes, for every lawful constructor
    of names. *)
From Stdlib Require Import ZArith Lia String Ascii Permutation.
From stdpp Require Import base list numbers gmap sets.
From S2P Require Import Prelude Slice Order Shelling EmlValue QuerySample TypedValue Schema SchemaUpdate SchemaLaws SchemaRetract.
#[local] Open Scope Z_scope.
#[local] Open Scope list_scope.

Fixpoint text (s : string) : list Z :=
  match s with EmptyString => [] | String c s => Z.of_N (N_of_ascii c) :: text s end.

Fixpoint mapO {A B} (f : A → outcome B) (l : list A) : outcome (list B) :=
  match l with [] => Ret [] | x :: l => y ← f x; ys ← mapO f l; Ret (y :: ys) end.

(** ** The constants *)

Definition TX0 : Z := 0x10000000.
Definition USER0 : Z := 0x10000.
Definition CORE_SCHEMA_VERSION : Z := 1.

Definition solitonids : list (string * string * Z) := [
  ("einsteindb", "solitonid", EINSTEINDB_SOLITONID);
  ("einsteindb.part", "einsteindb", EINSTEINDB_PART_EINSTEINDB);
  ("einsteindb", "txInstant", EINSTEINDB_TX_INSTANT);
  ("einsteindb.install", "partition", EINSTEINDB_INSTALL_PARTITION);
  ("einsteindb.install", "causet_localeType", EINSTEINDB_INSTALL_VALUE_TYPE);
  ("einsteindb.install", "attribute", EINSTEINDB_INSTALL_ATTRIBUTE);
  ("einsteindb", "causet_localeType", EINSTEINDB_VALUE_TYPE);
  ("einsteindb", "cardinality", EINSTEINDB_CARDINALITY);
  ("einsteindb", "unique", EINSTEINDB_UNIQUE);
  ("einsteindb", "isComponent", EINSTEINDB_IS_COMPONENT);
  ("einsteindb", "Index", EINSTEINDB_INDEX);
  ("einsteindb", "fulltext", EINSTEINDB_FULLTEXT);
  ("einsteindb", "noHistory", EINSTEINDB_NO_HISTORY);
  ("einsteindb", "add", EINSTEINDB_ADD);
  ("einsteindb", "retract", EINSTEINDB_RETRACT);
  ("einsteindb.part", "user", EINSTEINDB_PART_USER);
  ("einsteindb.part", "tx", EINSTEINDB_PART_TX);
  ("einsteindb", "excise", EINSTEINDB_EXCISE);
  ("einsteindb.excise", "attrs", EINSTEINDB_EXCISE_ATTRS);
  ("einsteindb.excise", "beforeT", EINSTEINDB_EXCISE_BEFORE_T);
  ("einsteindb.excise", "before", EINSTEINDB_EXCISE_BEFORE);
  ("einsteindb.alter", "attribute", EINSTEINDB_ALTER_ATTRIBUTE);
  ("einsteindb.type", "ref", EINSTEINDB_TYPE_REF);
  ("einsteindb.type", "soliton_idword", EINSTEINDB_TYPE_KEYWORD);
  ("einsteindb.type", "long", EINSTEINDB_TYPE_LONG);
  ("einsteindb.type", "double", EINSTEINDB_TYPE_DOUBLE);
  ("einsteindb.type", "string", EINSTEINDB_TYPE_STRING);
  ("einsteindb.type", "uuid", EINSTEINDB_TYPE_UUID);
  ("einsteindb.type", "uri", EINSTEINDB_TYPE_URI);
  ("einsteindb.type", "boolean", EINSTEINDB_TYPE_BOOLEAN);
  ("einsteindb.type", "instant", EINSTEINDB_TYPE_INSTANT);
  ("einsteindb.type", "bytes", EINSTEINDB_TYPE_BYTES);
  ("einsteindb.cardinality", "one", EINSTEINDB_CARDINALITY_ONE);
  ("einsteindb.cardinality", "many", EINSTEINDB_CARDINALITY_MANY);
  ("einsteindb.unique", "causet_locale", EINSTEINDB_UNIQUE_VALUE);
  ("einsteindb.unique", "idcauset", EINSTEINDB_UNIQUE_IDcauset);
  ("einsteindb", "doc", EINSTEINDB_DOC);
  ("einsteindb.topograph", "version", EINSTEINDB_SCHEMA_VERSION);
  ("einsteindb.topograph", "attribute", EINSTEINDB_SCHEMA_ATTRIBUTE);
  ("einsteindb.topograph", "core", EINSTEINDB_SCHEMA_CORE)
]%string.

Definition partition_table : list (string * string * Z * Z * Z * bool) := [
  ("einsteindb.part", "einsteindb", 0, USER0 - 1, 1 + Z.of_nat (length solitonids), false);
  ("einsteindb.part", "user", USER0, TX0 - 1, USER0, true);
  ("einsteindb.part", "tx", TX0, I64_MAX, TX0, false)
]%string.

Definition core_schema : list (string * string) := [
   ("einsteindb", "solitonid"); ("einsteindb.install", "partition"); ("einsteindb.install", "causet_localeType");
   ("einsteindb.install", "attribute"); ("einsteindb", "txInstant"); ("einsteindb", "causet_localeType");
   ("einsteindb", "cardinality"); ("einsteindb", "doc"); ("einsteindb", "unique");
   ("einsteindb", "isComponent"); ("einsteindb", "Index"); ("einsteindb", "fulltext");
   ("einsteindb", "noHistory"); ("einsteindb.alter", "attribute"); ("einsteindb.topograph", "version");
   ("einsteindb.topograph", "attribute")
]%string.

(** The values of the symbolic schema. *)
Inductive Sym := SymKeyword (ns name : string) | SymBoolean (b : bool).

#[local] Notation e_ n := ("einsteindb"%string, n%string) (only parsing).

Definition symbolic_schema : list ((string * string) * list ((string * string) * Sym)) := [
  (e_("solitonid"),
    [(e_("causet_localeType"), SymKeyword "einsteindb.type" "soliton_idword");
     (e_("cardinality"), SymKeyword "einsteindb.cardinality" "one");
     (e_("Index"), SymBoolean true);
     (e_("unique"), SymKeyword "einsteindb.unique" "idcauset")]);
  (("einsteindb.install", "partition"),
    [(e_("causet_localeType"), SymKeyword "einsteindb.type" "ref");
     (e_("cardinality"), SymKeyword "einsteindb.cardinality" "many")]);
  (("einsteindb.install", "causet_localeType"),
    [(e_("causet_localeType"), SymKeyword "einsteindb.type" "ref");
     (e_("cardinality"), SymKeyword "einsteindb.cardinality" "many")]);
  (("einsteindb.install", "attribute"),
    [(e_("causet_localeType"), SymKeyword "einsteindb.type" "ref");
     (e_("cardinality"), SymKeyword "einsteindb.cardinality" "many")]);
  (e_("txInstant"),
    [(e_("causet_localeType"), SymKeyword "einsteindb.type" "instant");
     (e_("cardinality"), SymKeyword "einsteindb.cardinality" "one");
     (e_("Index"), SymBoolean true)]);
  (e_("causet_localeType"),
    [(e_("causet_localeType"), SymKeyword "einsteindb.type" "ref");
     (e_("cardinality"), SymKeyword "einsteindb.cardinality" "one")]);
  (e_("cardinality"),
    [(e_("causet_localeType"), SymKeyword "einsteindb.type" "ref");
     (e_("cardinality"), SymKeyword "einsteindb.cardinality" "one")]);
  (e_("doc"),
    [(e_("causet_localeType"), SymKeyword "einsteindb.type" "string");
     (e_("cardinality"), SymKeyword "einsteindb.cardinality" "one")]);
  (e_("unique"),
    [(e_("causet_localeType"), SymKeyword "einsteindb.type" "ref");
     (e_("cardinality"), SymKeyword "einsteindb.cardinality" "one")]);
  (e_("isComponent"),
    [(e_("causet_localeType"), SymKeyword "einsteindb.type" "boolean");
     (e_("cardinality"), SymKeyword "einsteindb.cardinality" "one")]);
  (e_("Index"),
    [(e_("causet_localeType"), SymKeyword "einsteindb.type" "boolean");
     (e_("cardinality"), SymKeyword "einsteindb.cardinality" "one")]);
  (e_("fulltext"),
    [(e_("causet_localeType"), SymKeyword "einsteindb.type" "boolean");
     (e_("cardinality"), SymKeyword "einsteindb.cardinality" "one")]);
  (e_("noHistory"),
    [(e_("causet_localeType"), SymKeyword "einsteindb.type" "boolean");
     (e_("cardinality"), SymKeyword "einsteindb.cardinality" "one")]);
  (("einsteindb.alter", "attribute"),
    [(e_("causet_localeType"), SymKeyword "einsteindb.type" "ref");
     (e_("cardinality"), SymKeyword "einsteindb.cardinality" "many")]);
  (("einsteindb.topograph", "version"),
    [(e_("causet_localeType"), SymKeyword "einsteindb.type" "long");
     (e_("cardinality"), SymKeyword "einsteindb.cardinality" "one")]);
  (("einsteindb.topograph", "attribute"),
    [(e_("causet_localeType"), SymKeyword "einsteindb.type" "ref");
     (e_("Index"), SymBoolean true);
     (e_("unique"), SymKeyword "einsteindb.unique" "causet_locale");
     (e_("cardinality"), SymKeyword "einsteindb.cardinality" "many")])
]%string.

Section Bootstrap.
Context {AT : EmlAtoms} {CA : CausetAtoms} {NO : NamespaceOps}.

Definition ns_soliton_idword (ns name : string) : outcome Keyword := keyword_isolate_namespace (text ns) (text name).

Definition EINSTEIN_DB__solitonidS : outcome (list (Keyword * Z)) :=
  mapO (λ '(ns, n, e), k ← ns_soliton_idword ns n; Ret (k, e)) solitonids.

Definition EINSTEIN_DB__PARTS : outcome (list (Keyword * Z * Z * Z * bool)) :=
  mapO (λ '(ns, n, s, e, i, x), k ← ns_soliton_idword ns n; Ret (k, s, e, i, x)) partition_table.

Definition EINSTEIN_DB__CORE_SCHEMA : outcome (list Keyword) := mapO (λ '(ns, n), ns_soliton_idword ns n) core_schema.

Definition sym_value (x : Sym) : outcome Value :=
  match x with
  | SymKeyword ns n => k ← ns_soliton_idword ns n; Ret (Keyword_ k)
  | SymBoolean b => Ret (Boolean b)
  end.

(** What the parser makes of the text: maps, ordered by their keys. *)
Definition sym_map {A} (f : A → outcome Value) (l : list ((string * string) * A)) : outcome Value :=
  es ← mapO (λ '(ns, n, x), k ← ns_soliton_idword ns n; v ← f x; Ret ((tt, Keyword_ k), (tt, v))) l;
  Ret (Map_ (collect_map child_cmp es)).

Definition EINSTEIN_DB__SYMBOLIC_SCHEMA : outcome Value := sym_map (sym_map sym_value) symbolic_schema.

(** [get] of a map collected from a list: the last entry of a key is kept. *)
Definition map_get {A B} `{EqDecision A} (l : list (A * B)) (k : A) : option B :=
  fold_left (λ o p, if bool_decide (p.1 = k) then Some p.2 else o) l None.

(** ** From the symbolic schema *)

(** [solitonids_to_lightlike_dagger_upsert]; the words [:db/add] and [:db/ident] are
    constants of another crate. *)
Definition solitonids_to_lightlike_dagger_upsert (add_ solitonid_ : Value) (l : list (Keyword * Z)) : list Value :=
  map (λ p, Vector [(tt, add_); (tt, Keyword_ p.1); (tt, solitonid_); (tt, Keyword_ p.1)]) l.

Definition topograph_attrs_to_lightlike_dagger_upsert (add_ : Value) (version : Z) (l : list Keyword) : outcome (list Value) :=
  topograph_core ← ns_soliton_idword "einsteindb.topograph" "core";
  topograph_attr ← ns_soliton_idword "einsteindb.topograph" "attribute";
  topograph_version ← ns_soliton_idword "einsteindb.topograph" "version";
  Ret (map (λ k, Vector [(tt, add_); (tt, Keyword_ topograph_core); (tt, Keyword_ topograph_attr); (tt, Keyword_ k)]) l
       ++ [Vector [(tt, add_); (tt, Keyword_ topograph_core); (tt, Keyword_ topograph_version); (tt, Integer version)]]).

Notation triple := (Keyword * Keyword * causetq_TV)%type.

(** The value of one attribute: a keyword stands for the id it names. *)
Definition symbolic_causet_locale (solitonid_map : Keyword → option Z) (v : Value) : DbError + causetq_TV :=
  match from_einstein_ml_causet_locale v with
  | Some (TV_Keyword k) => match solitonid_map k with Some e => inr (TV_Ref e) | None => inl (UnrecognizedSolitonid k) end
  | Some v => inr v
  | None => inl BootstrapDefinition
  end.

(** [shellingic_topograph_to_triples]: the two loops push onto one vector. *)
Fixpoint attribute_triples (solitonid_map : Keyword → option Z) (solitonid : Keyword) (triples : list triple)
    (mpp : list ((unit * Value) * (unit * Value))) : DbError + list triple :=
  match mpp with
  | [] => inr triples
  | ((_, attr), (_, v)) :: mpp =>
      match attr with
      | Keyword_ attr =>
          match symbolic_causet_locale solitonid_map v with
          | inl err => inl err
          | inr tv => attribute_triples solitonid_map solitonid (triples ++ [(solitonid, attr, tv)]) mpp
          end
      | _ => inl BootstrapDefinition
      end
  end.

Fixpoint solitonid_triples (solitonid_map : Keyword → option Z) (triples : list triple)
    (m : list ((unit * Value) * (unit * Value))) : DbError + list triple :=
  match m with
  | [] => inr triples
  | ((_, solitonid), (_, mp)) :: m =>
      match solitonid with
      | Keyword_ solitonid =>
          match mp with
          | Map_ mpp =>
              match attribute_triples solitonid_map solitonid triples mpp with
              | inl err => inl err
              | inr triples => solitonid_triples solitonid_map triples m
              end
          | _ => inl BootstrapDefinition
          end
      | _ => inl BootstrapDefinition
      end
  end.

Definition shellingic_topograph_to_triples (solitonid_map : Keyword → option Z) (v : Value) : DbError + list triple :=
  match v with
  | Map_ m => solitonid_triples solitonid_map [] m
  | _ => inl BootstrapDefinition
  end.

(** [shellingic_topograph_to_lightlike_dagger_upsert] *)
Fixpoint solitonid_upserts (add_ : Value) (l : list Value) (m : list ((unit * Value) * (unit * Value))) : DbError + list Value :=
  match m with
  | [] => inr l
  | ((_, solitonid), (_, mp)) :: m =>
      match mp with
      | Map_ mpp => solitonid_upserts add_ (l ++ map (λ e, Vector [(tt, add_); (tt, solitonid); e.1; e.2]) mpp) m
      | _ => inl BootstrapDefinition
      end
  end.

Definition shellingic_topograph_to_lightlike_dagger_upsert (add_ : Value) (v : Value) : DbError + list Value :=
  match v with
  | Map_ m => solitonid_upserts add_ [] m
  | _ => inl BootstrapDefinition
  end.

(** [expect] and [unwrap] of a result *)
Definition unwrap_result {E A} (r : E + A) : outcome A := match r with inl _ => Panic | inr a => Ret a end.

Definition bootstrap_solitonid_map : outcome (Keyword → option Z) := l ← EINSTEIN_DB__solitonidS; Ret (map_get l).

Context {AD : AttributeDefault} {II : IndexIds} {AI : AttributeMapIter}.

(** [bootstrap_topograph], up to the attributes the schema holds. *)
Definition bootstrap_topograph : outcome AttributeMap :=
  solitonid_map ← bootstrap_solitonid_map;
  schema ← EINSTEIN_DB__SYMBOLIC_SCHEMA;
  triples ← unwrap_result (shellingic_topograph_to_triples solitonid_map schema);
  unwrap_result (from_causetid_map_and_triples solitonid_map triples).

(** What [bootstrap_causets] gives to the parser: the assertions that make a new store,
    as one vector. *)
Definition bootstrap_lightlike_dagger_upsert (add_ solitonid_ : Value) : outcome Value :=
  schema ← EINSTEIN_DB__SYMBOLIC_SCHEMA;
  l1 ← unwrap_result (shellingic_topograph_to_lightlike_dagger_upsert add_ schema);
  ids ← EINSTEIN_DB__solitonidS;
  core ← EINSTEIN_DB__CORE_SCHEMA;
  l3 ← topograph_attrs_to_lightlike_dagger_upsert add_ CORE_SCHEMA_VERSION core;
  Ret (Vector (map (λ v, (tt, v)) (l1 ++ solitonids_to_lightlike_dagger_upsert add_ solitonid_ ids ++ l3))).
End Bootstrap.

(** ** Reading a symbolic schema *)

Section Triples.
Context {AT : EmlAtoms} {CA : CausetAtoms} {NO : NamespaceOps}.
Implicit Types (ids : Keyword → option Z).

Notation triple := (Keyword * Keyword * causetq_TV)%type.

(** A symbolic schema as names, their attributes, and the values of these. *)
Definition schema_value (l : list (Keyword * list (Keyword * Value))) : Value :=
  Map_ (map (λ p, ((tt, Keyword_ p.1), (tt, Map_ (map (λ q, ((tt, Keyword_ q.1), (tt, q.2))) p.2)))) l).

Definition names_triple ids (s : Keyword * Keyword * Value) (t : triple) : Prop :=
  t.1 = s.1 ∧ symbolic_causet_locale ids s.2 = inr t.2.

Definition flat (l : list (Keyword * list (Keyword * Value))) : list (Keyword * Keyword * Value) :=
  concat (map (λ p, map (λ q, (p.1, q.1, q.2)) p.2) l).

Lemma entries_inj (l1 l2 : list (Keyword * Value)) :
  map (λ q, ((tt, Keyword_ (S := unit) q.1), (tt, q.2))) l1 = map (λ q, ((tt, Keyword_ q.1), (tt, q.2))) l2 → l1 = l2.
Proof. revert l2. induction l1 as [|[k v] l1 IH]; intros [|[k' v'] l2]; [done..|]. cbn. intros [= -> -> H]. f_equal. by apply IH. Qed.

Lemma names_triples_fun ids l ts ts' : Forall2 (names_triple ids) l ts → Forall2 (names_triple ids) l ts' → ts = ts'.
Proof.
  intros H. revert ts'. induction H as [|s [ea v] l ts [H1 H2] _ IH]; intros ts' H'; inversion H' as [|? [ea' v'] ? ? [H3 H4] H5]; subst; [done|].
  cbn in *. f_equal; [congruence|]. by apply IH.
Qed.

Lemma attribute_triples_exact ids e : ∀ mpp acc ts, attribute_triples ids e acc mpp = inr ts ↔
  ∃ es ts', mpp = map (λ q, ((tt, Keyword_ q.1), (tt, q.2))) es ∧ ts = acc ++ ts'
    ∧ Forall2 (names_triple ids) (map (λ q, (e, q.1, q.2)) es) ts'.
Proof.
  induction mpp as [|[ [ [] a] [ [] v] ] mpp IH]; intros acc ts; cbn [attribute_triples].
  { split; [intros [= ->]; exists [], []; rewrite app_nil_r; split_and!; [done..|constructor]|].
    intros ([|] & ts' & Hm & -> & Hf); [|done]. inversion Hf; subst. by rewrite app_nil_r. }
  destruct a; try (split; [done|intros ([|q es] & ts' & [=] & _)]).
  destruct (symbolic_causet_locale ids v) as [err|tv] eqn:Ev.
  - split; [done|]. intros ([|q es] & ts' & [= -> -> ->] & _ & Hf). cbn in Hf. inversion Hf as [|? ? ? ? [_ Hq] ]; subst. cbn in Hq. congruence.
  - rewrite IH. split.
    + intros (es & ts' & -> & -> & Hf). exists ((k, v) :: es), ((e, k, tv) :: ts'). rewrite <- app_assoc. split_and!; [done..|].
      cbn [map]. by constructor.
    + intros ([|q es] & ts' & [= -> -> ->] & -> & Hf). cbn in Hf. inversion Hf as [|? t ? ts2 [Ht Hq] Hf']; subst.
      exists es, ts2. rewrite <- app_assoc. split_and!; [done| |done]. destruct t as [ea v']. cbn in *. subst. do 2 f_equal. congruence.
Qed.

Lemma solitonid_triples_exact ids : ∀ m acc ts, solitonid_triples ids acc m = inr ts ↔
  ∃ es ts', m = map (λ p, ((tt, Keyword_ p.1), (tt, Map_ (map (λ q, ((tt, Keyword_ q.1), (tt, q.2))) p.2)))) es
    ∧ ts = acc ++ ts' ∧ Forall2 (names_triple ids) (flat es) ts'.
Proof.
  induction m as [|[ [ [] e] [ [] mp] ] m IH]; intros acc ts; cbn [solitonid_triples].
  { split; [intros [= ->]; exists [], []; rewrite app_nil_r; split_and!; [done..|constructor]|].
    intros ([|] & ts' & Hm & -> & Hf); [|done]. inversion Hf; subst. by rewrite app_nil_r. }
  destruct e; try (split; [done|intros ([|q es] & ts' & [=] & _)]).
  destruct mp; try (split; [done|intros ([|q es] & ts' & [=] & _)]).
  destruct (attribute_triples ids k acc l) as [err|acc'] eqn:Ea.
  - split; [done|]. intros ([|q es] & ts' & [= -> -> ->] & _ & Hf). exfalso. cbn in Hf.
    apply Forall2_app_inv_l in Hf as (t1 & t2 & H1 & _ & ->).
    assert (attribute_triples ids q.1 acc (map (λ q, ((tt, Keyword_ q.1), (tt, q.2))) q.2) = inr (acc ++ t1)) as H; [|congruence].
    apply attribute_triples_exact. by exists q.2, t1.
  - rewrite IH. apply attribute_triples_exact in Ea as (as_ & t1 & -> & -> & H1). split.
    + intros (es & ts' & -> & -> & Hf). exists ((k, as_) :: es), (t1 ++ ts'). rewrite <- app_assoc. split_and!; [done..|].
      unfold flat. cbn. by apply Forall2_app.
    + intros ([|q es] & ts' & [= -> Hq ->] & -> & Hf). exists es. cbn in Hf. apply Forall2_app_inv_l in Hf as (t1' & t2 & H1' & H2 & ->).
      exists t2. split_and!; [done| |done]. rewrite <- app_assoc. f_equal. f_equal.
      apply entries_inj in Hq as ->. by eapply names_triples_fun.
Qed.

(** Reading a symbolic schema succeeds exactly when it is a map from names to maps
    from names to typed values, in which every name that is a value is known; the triples
    are then its entries in order, names that are values having become references. *)
Theorem symbolic_triples_exact ids v ts : shellingic_topograph_to_triples ids v = inr ts ↔
  ∃ es, v = schema_value es ∧ Forall2 (names_triple ids) (flat es) ts.
Proof.
  unfold shellingic_topograph_to_triples, schema_value. destruct v; try (split; [done|by intros (? & [=] & _)]).
  rewrite solitonid_triples_exact. split.
  - intros (es & ts' & -> & -> & Hf). by exists es.
  - intros (es & [= ->] & Hf). by exists es, ts.
Qed.
End Triples.

(** ** The bootstrap schema *)

Lemma mapO_ext {A B} (f g : A → outcome B) l : (∀ x, f x = g x) → mapO f l = mapO g l.
Proof. intros H. induction l as [|x l IH]; cbn [mapO]; [done|]. by rewrite H, IH. Qed.

(** All lawful constructors of namespaces agree. *)
Lemma idword_lawful {N1 N2 : NamespaceOps} {L1 : @NamespaceLaws N1} {L2 : @NamespaceLaws N2} ns n :
  @ns_soliton_idword N1 ns n = @ns_soliton_idword N2 ns n.
Proof.
  unfold ns_soliton_idword, keyword_isolate_namespace.
  destruct (decide (text ns = [] ∨ text n = [])) as [He|He].
  { by rewrite (@namespaceable_empty N1 L1), (@namespaceable_empty N2 L2). }
  destruct (@namespaceable_named N1 L1 (text ns) (text n)) as (s1 & -> & Hc1 & Hb1); [naive_solver..|].
  destruct (@namespaceable_named N2 L2 (text ns) (text n)) as (s2 & -> & Hc2 & Hb2); [naive_solver..|].
  assert (s1 = s2) as -> by (apply namespace_eq; congruence). done.
Qed.

Section Lawful.
Context {AT : EmlAtoms} {NO : NamespaceOps} {NL : NamespaceLaws}.

Lemma ids_sample : @EINSTEIN_DB__solitonidS NO = @EINSTEIN_DB__solitonidS sample_namespaces.
Proof. apply mapO_ext. intros [ [ns n] e]. by rewrite (idword_lawful (N2 := sample_namespaces)). Qed.

Lemma core_sample : @EINSTEIN_DB__CORE_SCHEMA NO = @EINSTEIN_DB__CORE_SCHEMA sample_namespaces.
Proof. apply mapO_ext. intros [ns n]. by rewrite (idword_lawful (N2 := sample_namespaces)). Qed.

Lemma sym_map_sample {A} f g (l : list ((string * string) * A)) : (∀ x, f x = g x) →
  @sym_map AT NO A f l = @sym_map AT sample_namespaces A g l.
Proof.
  intros H. unfold sym_map. erewrite mapO_ext; [done|]. intros [ [ns n] x].
  by rewrite (idword_lawful (N2 := sample_namespaces)), H.
Qed.

Lemma schema_sample : @EINSTEIN_DB__SYMBOLIC_SCHEMA AT NO = @EINSTEIN_DB__SYMBOLIC_SCHEMA AT sample_namespaces.
Proof.
  apply sym_map_sample. intros x. apply sym_map_sample. intros [ns n|b]; [|done]. unfold sym_value.
  by rewrite (idword_lawful (N2 := sample_namespaces)).
Qed.
End Lawful.

Definition ids0 : list (Keyword * Z) := match @EINSTEIN_DB__solitonidS sample_namespaces with Ret l => l | Panic => [] end.
Definition core0 : list Keyword := match @EINSTEIN_DB__CORE_SCHEMA sample_namespaces with Ret l => l | Panic => [] end.

Lemma ids0_eq : @EINSTEIN_DB__solitonidS sample_namespaces = Ret ids0.
Proof. by vm_compute. Qed.
Lemma core0_eq : @EINSTEIN_DB__CORE_SCHEMA sample_namespaces = Ret core0.
Proof. by vm_compute. Qed.

Lemma ids0_names : bool_decide (NoDup ids0.*1) = true.
Proof. by vm_compute. Qed.
Lemma ids0_range : ids0.*2 = seqZ 1 40.
Proof. by vm_compute. Qed.
Lemma core0_known : forallb (λ k, match map_get ids0 k with Some _ => true | None => false end) core0 = true.
Proof. by vm_compute. Qed.

(** The names a store starts from are forty different ones, with the ids from 1 to 40;
    every name of the core schema is one of them.  The partitions cover the ids from 0 to
    the largest without a gap or an overlap, and each starts handing out ids inside
    itself, the first one after the forty that are taken. *)
Theorem bootstrap_ids `{NL : NamespaceLaws} :
  ∃ ids core ps, EINSTEIN_DB__solitonidS = Ret ids ∧ EINSTEIN_DB__CORE_SCHEMA = Ret core ∧ EINSTEIN_DB__PARTS = Ret ps
  ∧ NoDup ids.*1 ∧ ids.*2 = seqZ 1 40 ∧ (∀ k, k ∈ core → is_Some (map_get ids k))
  ∧ map (λ '(_, start, end_, index, _), (start, end_, index)) ps = [(0, 65535, 41); (65536, 268435455, 65536); (268435456, I64_MAX, 268435456)].
Proof.
  exists ids0, core0. destruct (@EINSTEIN_DB__PARTS sample_namespaces) as [ps|] eqn:Ep; [|by vm_compute in Ep].
  exists ps. rewrite ids_sample, core_sample, ids0_eq, core0_eq. split_and!; [done..| | |exact ids0_range| |].
  - rewrite <- Ep. apply mapO_ext. intros [ [ [ [ [ns n] s] e] i] x]. by rewrite (idword_lawful (N2 := sample_namespaces)).
  - apply (bool_decide_eq_true_1 _ ids0_names).
  - intros k Hk. pose proof core0_known as H. rewrite forallb_forall in H. specialize (H k ltac:(by apply list_elem_of_In)).
    by destruct (map_get ids0 k).
  - vm_compute in Ep. by injection Ep as <-.
Qed.

Section Fails.
Context {AT : EmlAtoms} {CA : CausetAtoms} {NO : NamespaceOps} {NL : NamespaceLaws}.
Context {AD : AttributeDefault} {II : IndexIds} {AI : AttributeMapIter}.

Definition schema0 : Value := match @EINSTEIN_DB__SYMBOLIC_SCHEMA AT sample_namespaces with Ret v => v | Panic => Nil end.
Definition triples0 : list (Keyword * Keyword * causetq_TV) :=
  match shellingic_topograph_to_triples (map_get ids0) schema0 with inr l => l | inl _ => [] end.

Lemma schema0_eq : @EINSTEIN_DB__SYMBOLIC_SCHEMA AT sample_namespaces = Ret schema0.
Proof. by vm_compute. Qed.
Lemma triples0_eq : shellingic_topograph_to_triples (map_get ids0) schema0 = inr triples0.
Proof. by vm_compute. Qed.

Definition eav0 : list (Z * Z * causetq_TV) := match resolve_triples (map_get ids0) triples0 with inr l => l | inl _ => [] end.
Lemma eav0_eq : resolve_triples (map_get ids0) triples0 = inr eav0.
Proof. by vm_compute. Qed.

(** How many of the triples speak of an attribute. *)
Definition count_of (a : Z) (l : list (Z * Z * causetq_TV)) : nat := length (filter (λ t, t.1.2 = a) l).

Lemma eav0_counts : length eav0 = 37%nat
  ∧ map (λ a, count_of a eav0) [EINSTEINDB_VALUE_TYPE; EINSTEINDB_CARDINALITY; EINSTEINDB_INDEX; EINSTEINDB_UNIQUE] = [16; 16; 3; 2]%nat.
Proof. split; by vm_compute. Qed.

Lemma eav0_refused : update_attribute_map_from_causetid_triples ∅ eav0 [] = (inl (BadTopographAssertion ExpectedIndex), ∅).
Proof. by vm_compute. Qed.

Lemma validate_empty : validate_attribute_map ∅ = inr tt.
Proof.
  unfold validate_attribute_map. assert (attributes ∅ = []) as ->; [|done].
  apply Permutation_nil_r. rewrite attributes_perm. by rewrite map_to_list_empty.
Qed.

(** A store cannot be bootstrapped.  The symbolic schema is well formed and all of its
    names are known: it becomes 37 triples, the type and the cardinality of 16
    attributes, the index of three and the uniqueness of two.  But the schema they are
    asserted into takes an index only as a reference, never as the boolean the bootstrap
    schema gives; the update is refused and [bootstrap_topograph] panics. *)
Theorem bootstrap_fails : ∃ ids schema triples eav,
  bootstrap_solitonid_map = Ret ids ∧ EINSTEIN_DB__SYMBOLIC_SCHEMA = Ret schema
  ∧ shellingic_topograph_to_triples ids schema = inr triples ∧ resolve_triples ids triples = inr eav
  ∧ length eav = 37%nat
  ∧ map (λ a, count_of a eav) [EINSTEINDB_VALUE_TYPE; EINSTEINDB_CARDINALITY; EINSTEINDB_INDEX; EINSTEINDB_UNIQUE] = [16; 16; 3; 2]%nat
  ∧ update_attribute_map_from_causetid_triples ∅ eav [] = (inl (BadTopographAssertion ExpectedIndex), ∅)
  ∧ bootstrap_topograph = Panic.
Proof.
  exists (map_get ids0), schema0, triples0, eav0. unfold bootstrap_topograph, bootstrap_solitonid_map.
  rewrite ids_sample, schema_sample, ids0_eq, schema0_eq. cbn [mbind outcome_bind]. rewrite triples0_eq. cbn [unwrap_result mbind outcome_bind].
  destruct eav0_counts as [Hl Hc]. split_and!; [done|done|done|exact eav0_eq|exact Hl|exact Hc|exact eav0_refused|].
  unfold from_causetid_map_and_triples. by rewrite validate_empty, eav0_eq, eav0_refused.
Qed.
End Fails.
