(* ===== verification/SchemaSample.v ===== *)
(** * SchemaSample: concrete schemas, updates and the bootstrap *)
From Stdlib Require Import ZArith Lia String.
From stdpp Require Import base list numbers gmap sets.
From S2P Require Import Prelude Slice Order Shelling EmlValue TypedValue Schema SchemaUpdate SchemaLaws SchemaRetract.
From S2P Require Import Bootstrap QuerySample.
#[local] Open Scope Z_scope.
#[local] Open Scope list_scope.

(** ** What the other crates provide *)

Fixpoint split_slash (s : list Z) : option (list Z * list Z) :=
  match s with
  | [] => None
  | c :: s => if c =? SLASH then Some ([], s) else match split_slash s with Some (a, b) => Some (c :: a, b) | None => None end
  end.

(** Reads [:namespace/name]. *)
Definition read_keyword (s : list Z) : option Keyword :=
  match s with
  | c :: s =>
      if c =? COLON then
        match split_slash s with
        | Some (ns, n) => match keyword_isolate_namespace ns n with Ret k => Some k | Panic => None end
        | None => None
        end
      else None
  | [] => None
  end.

#[export] Instance sample_causet_atoms : @CausetAtoms sample_atoms := {|
  f64 := @OrderedFloat sample_atoms;
  into_inner := λ x, x;
  ordered := λ x, x;
  uuid_as_bytes := λ u, u;
  uuid_from_bytes := λ b, Some b;
  to_isoliton_namespaceable_soliton_idword := read_keyword;
|}.

#[export] Instance sample_causet_atoms_laws : @CausetAtomsLaws sample_atoms sample_causet_atoms.
Proof. done. Qed.

#[export] Instance sample_default : AttributeDefault := mkAttribute false VT_Ref false None false false false.
#[export] Instance sample_index_ids : IndexIds := {| INDEX_FULLTEXT := 101; INDEX_NONE := 102 |}.
#[export] Instance sample_iter : AttributeMapIter := {| attributes := map_to_list; attributes_perm := λ m, reflexivity _ |}.

(** ** Typed values *)

Example sql_tests :
  to_berolina_sql_causet_locale_pair (TV_Keyword kf) = Ret (SqlText [58; 112; 47; 102], 13)
  ∧ from_berolina_sql_causet_locale_pair (SqlText [58; 112; 47; 102]) 13 = Ret (inr (TV_Keyword kf))
  ∧ from_berolina_sql_causet_locale_pair (SqlInteger 7) 1 = Ret (inr (TV_Boolean true))
  ∧ from_berolina_sql_causet_locale_pair (SqlInteger 7) 10 = Ret (inl (BadBerolinaSQLValuePair (SqlInteger 7) 10)).
Proof. split_and!; reflexivity. Qed.

Lemma sql_read_back_witness :
  to_berolina_sql_causet_locale_pair (TV_Long 7) = Ret (SqlInteger 7, 5)
  ∧ from_berolina_sql_causet_locale_pair (SqlInteger 7) 5 = Ret (inr (TV_Long 7))
  ∧ ∀ w, to_berolina_sql_causet_locale_pair w = Ret (SqlInteger 7, 5) → TV_Long 7 = w.
Proof.
  destruct (sql_read_back (TV_Long 7) (SqlInteger 7, 5) eq_refl) as [H1 H2].
  split_and!; [reflexivity|exact H1|]. intros w Hw. by apply (H2 w Hw).
Defined.

(** ** The repository's validation tests *)

Definition attr (ix : bool) (ty : ValueType) (ft : bool) (u : option Unique) (cp : bool) : Attribute :=
  mkAttribute ix ty ft u false cp false.

Example validate_tests :
  validate_attribute_map (list_to_map [(97, attr false VT_Boolean false None false); (98, attr true VT_Long false (Some Unique_Value) false);
    (99, attr true VT_Ref false (Some Unique_Idcauset) false); (100, attr false VT_Ref false None true);
    (101, attr true VT_String true None false)]) = inr tt
  ∧ validate_attribute_map {[99 := attr false VT_Boolean false (Some Unique_Value) false]} = inl (BadTopographAssertion UniqueValueNotIndexed)
  ∧ validate_attribute_map {[99 := attr false VT_Long false (Some Unique_Idcauset) false]} = inl (BadTopographAssertion UniqueIdcausetNotIndexed)
  ∧ validate_attribute_map {[99 := attr false VT_Boolean false None true]} = inl (BadTopographAssertion ComponentNotRef)
  ∧ validate_attribute_map {[99 := attr false VT_String true None false]} = inl (BadTopographAssertion FulltextNotIndexed)
  ∧ validate_attribute_map {[99 := attr true VT_Long true None false]} = inl (BadTopographAssertion FulltextNotString).
Proof. split_and!; reflexivity. Qed.

(** ** Updates *)

(** A unique attribute and a full-text one. *)
Definition schema1 : AttributeMap :=
  list_to_map [(70, attr true VT_Long false (Some Unique_Value) false); (71, attr true VT_String true None false)].

(** A third is installed, and the first becomes many-valued, which costs its uniqueness. *)
Definition update1 : list (Z * Z * causetq_TV) :=
  [(72, EINSTEINDB_VALUE_TYPE, TV_Ref EINSTEINDB_TYPE_REF); (70, EINSTEINDB_CARDINALITY, TV_Ref EINSTEINDB_CARDINALITY_MANY);
   (72, EINSTEINDB_CARDINALITY, TV_Ref EINSTEINDB_CARDINALITY_ONE)].

Example update_test :
  update_attribute_map_from_causetid_triples schema1 update1 []
  = (inr (mkReport {[72]} {[70 := [Alter_Cardinality; Alter_Unique]]}),
     list_to_map [(70, mkAttribute true VT_Long false None true false false); (71, attr true VT_String true None false);
                  (72, attr false VT_Ref false None false)]).
Proof. reflexivity. Qed.

(** Without its index the full-text attribute is no longer well formed, and nothing
    complains; nor when an attribute without an index is made unique. *)
Example unchecked_alterations :
  update_attribute_map_from_causetid_triples schema1 [(71, EINSTEINDB_INDEX, TV_Ref INDEX_NONE)] []
  = (inr (mkReport ∅ {[71 := [Alter_Index]]}), <[71 := attr false VT_String true None false]> schema1)
  ∧ validate (attr false VT_String true None false) = inl (BadTopographAssertion FulltextNotIndexed)
  ∧ update_attribute_map_from_causetid_triples {[73 := attr false VT_Long false None false]}
      [(73, EINSTEINDB_UNIQUE, TV_Ref EINSTEINDB_UNIQUE_VALUE)] []
    = (inr (mkReport ∅ {[73 := [Alter_Unique]]}), {[73 := attr false VT_Long false (Some Unique_Value) false]})
  ∧ validate (attr false VT_Long false (Some Unique_Value) false) = inl (BadTopographAssertion UniqueValueNotIndexed).
Proof. split_and!; reflexivity. Qed.

Lemma schema1_well_formed e a : schema1 !! e = Some a → well_formed a.
Proof.
  assert (map_Forall (λ _ a, validate a = inr tt) schema1) as H.
  { unfold schema1. repeat apply map_Forall_insert_2; try done. }
  intros Ha. apply validate_well_formed, (H e a Ha).
Qed.

Lemma update_well_formed_witness :
  (update_attribute_map_from_causetid_triples schema1 update1 []).2 !! 70 = Some (mkAttribute true VT_Long false None true false false)
  ∧ well_formed (mkAttribute true VT_Long false None true false false).
Proof.
  split; [reflexivity|]. apply (update_well_formed schema1 update1 []) with (e := 70).
  - exact schema1_well_formed.
  - intros e He. unfold update1 in He. rewrite !elem_of_cons, elem_of_nil in He. naive_solver.
  - intros e v a He. unfold update1 in He. rewrite !elem_of_cons, elem_of_nil in He. naive_solver.
  - reflexivity.
Defined.

Lemma update_refused_witness :
  ¬ accepted EINSTEINDB_IS_COMPONENT (TV_Boolean true)
  ∧ ∃ err, update_attribute_map_from_causetid_triples schema1 [(70, EINSTEINDB_IS_COMPONENT, TV_Boolean true)] [] = (inl err, schema1).
Proof.
  split; [done|]. apply (update_refused schema1 _ [] 70 EINSTEINDB_IS_COMPONENT (TV_Boolean true)); [|done].
  apply elem_of_cons. by left.
Defined.

(** Retracting a whole attribute needs its name retracted too. *)
Example retract_test :
  let l := [(70, EINSTEINDB_CARDINALITY, TV_Ref EINSTEINDB_CARDINALITY_ONE); (71, EINSTEINDB_INDEX, TV_Boolean true);
            (70, EINSTEINDB_VALUE_TYPE, TV_Ref EINSTEINDB_TYPE_LONG); (70, EINSTEINDB_DOC, TV_Boolean true)] in
  update_attribute_map_from_topograph_retractions schema1 l {[70 := kf]}
  = Ret (inr [(70, EINSTEINDB_DOC, TV_Boolean true); (71, EINSTEINDB_INDEX, TV_Boolean true)], delete 70 schema1)
  ∧ update_attribute_map_from_topograph_retractions schema1 l ∅
    = Ret (inl (BadTopographAssertion DefiningAttributesWithoutSolitonid), schema1).
Proof. cbv zeta. split_and!; reflexivity. Qed.

(** The repository's test expects a second assertion to replace the first, and a
    retraction after an assertion to stay among the retractions: the first panics, the
    second is only an alteration. *)
Example witness_tests :
  let run l := foldO (λ u (t : Z * Z * Witnessed), witness u t.1.1 t.1.2 t.2) upsert_new l in
  run [(1, 2, Assertion); (1, 3, Assertion)] = Panic
  ∧ run [(1, 2, Assertion); (1, 4, Retraction)] = Ret (mkUpsert ∅ ∅ {[1 := (2, 4)]})
  ∧ run [(1, 4, Retraction); (1, 2, Assertion)] = Ret (mkUpsert ∅ ∅ {[1 := (4, 2)]}).
Proof. cbv zeta. split_and!; reflexivity. Qed.

(** ** The bootstrap *)

Lemma bootstrap_ids_witness : ∃ ids, EINSTEIN_DB__solitonidS = Ret ids ∧ ids.*2 = seqZ 1 40.
Proof. destruct bootstrap_ids as (ids & _ & _ & H1 & _ & _ & _ & H2 & _). exists ids. exact (conj H1 H2). Defined.

Lemma bootstrap_fails_witness : bootstrap_topograph = Panic.
Proof. destruct bootstrap_fails as (_ & _ & _ & _ & _ & _ & _ & _ & _ & _ & _ & H). exact H. Defined.
