(* ===== verification/Float.v ===== *)
(** * Float: the [f64] operations the datum code uses

    IEEE 754 binary64 through the Standard Library's [SpecFloat]: one NaN, exact
    rounding to nearest even.  Rust's [f64] is this format; its NaN payloads are not
    distinguished. *)
From Stdlib Require Import ZArith Lia SpecFloat.
From stdpp Require Import base list numbers.
From S2P Require Import Prelude.
#[local] Open Scope Z_scope.

Definition f64 : Type := spec_float.
Definition F64_PREC : Z := 53.
Definition F64_EMAX : Z := 1024.

(** [i as f64], for an integer. *)
Definition f64_of_Z (z : Z) : f64 := binary_normalize F64_PREC F64_EMAX z 0 false.

Definition f64_add : f64 → f64 → f64 := SFadd F64_PREC F64_EMAX.
Definition f64_sub : f64 → f64 → f64 := SFsub F64_PREC F64_EMAX.
Definition f64_mul : f64 → f64 → f64 := SFmul F64_PREC F64_EMAX.
Definition f64_div : f64 → f64 → f64 := SFdiv F64_PREC F64_EMAX.

(** [x % y]: the exact remainder of the quotient rounded towards zero, with the sign
    of [x]. *)
Definition f64_rem (x y : f64) : f64 :=
  match x, y with
  | S754_nan, _ | _, S754_nan | S754_infinity _, _ | _, S754_zero _ => S754_nan
  | S754_zero _, _ | _, S754_infinity _ => x
  | S754_finite sx mx ex, S754_finite _ my ey =>
      let e := Z.min ex ey in
      let r := (Zpos mx * 2 ^ (ex - e)) mod (Zpos my * 2 ^ (ey - e)) in
      binary_normalize F64_PREC F64_EMAX (if sx then - r else r) e sx
  end.

(** [partial_cmp], [== 0.0], [is_finite]. *)
Definition f64_partial_cmp : f64 → f64 → option comparison := SFcompare.
Definition f64_is_zero (x : f64) : bool := match x with S754_zero _ => true | _ => false end.
Definition f64_is_finite (x : f64) : bool :=
  match x with S754_zero _ | S754_finite _ _ _ => true | _ => false end.

(** [round]: to the nearest integer, halves away from zero. *)
Definition f64_round (x : f64) : f64 :=
  match x with
  | S754_finite s m e =>
      if 0 <=? e then x
      else
        let q := (Zpos m + 2 ^ (- e - 1)) / 2 ^ (- e) in
        binary_normalize F64_PREC F64_EMAX (if s then - q else q) 0 s
  | _ => x
  end.

(** [abs], [<], [f64::EPSILON]; the values a [binary64] can hold. *)
Definition f64_abs : f64 → f64 := SFabs.
Definition f64_ltb : f64 → f64 → bool := SFltb.
Definition F64_EPSILON : f64 := S754_finite false (2 ^ 52)%positive (-104).
Definition f64_ok (x : f64) : bool := valid_binary F64_PREC F64_EMAX x.

(** [to_bits] and [from_bits]. *)
Definition f64_bits (f : f64) : Z :=
  let sign (s : bool) := if s then 2 ^ 63 else 0 in
  match f with
  | S754_zero s => sign s
  | S754_infinity s => sign s + 2047 * 2 ^ 52
  | S754_nan => 2047 * 2 ^ 52 + 2 ^ 51
  | S754_finite s m e => sign s + (if Zpos m <? 2 ^ 52 then Zpos m else (e + 1075) * 2 ^ 52 + (Zpos m - 2 ^ 52))
  end.

Definition f64_from_bits (b : Z) : f64 :=
  let s := 2 ^ 63 <=? b in
  let ex := (b / 2 ^ 52) mod 2048 in
  let ma := b mod 2 ^ 52 in
  if ex =? 2047 then (if ma =? 0 then S754_infinity s else S754_nan)
  else match (if ex =? 0 then ma else ma + 2 ^ 52) with
       | Zpos m => S754_finite s m (if ex =? 0 then -1074 else ex - 1075)
       | _ => S754_zero s
       end.

(** [f64::from(x as f32)]: rounded to 24 bits of mantissa. *)
Definition f64_as_f32 (x : f64) : f64 :=
  let widen y := match y with
    | S754_finite s m e => binary_normalize F64_PREC F64_EMAX (if s then Zneg m else Zpos m) e s
    | _ => y
    end in
  match x with
  | S754_finite s m e => widen (binary_normalize 24 128 (if s then Zneg m else Zpos m) e s)
  | _ => x
  end.

(** Rounding does not look at the sign. *)
Lemma abs_round_aux s1 s2 m e l :
  SFabs (binary_round_aux F64_PREC F64_EMAX s1 m e l) = SFabs (binary_round_aux F64_PREC F64_EMAX s2 m e l).
Proof.
  unfold binary_round_aux. destruct (shr_fexp _ _ m e l) as [mrs' e'].
  destruct (shr_fexp _ _ (round_nearest_even _ _) e' loc_Exact) as [mrs'' e''].
  destruct (shr_m mrs''); [done| |done]. by destruct (Z.leb e'' _).
Qed.

Lemma abs_normalize_opp m e s : SFabs (binary_normalize F64_PREC F64_EMAX (- m) e s)
  = SFabs (binary_normalize F64_PREC F64_EMAX m e s).
Proof.
  destruct m as [|m|m]; [done| |].
  - change (- Z.pos m) with (Z.neg m). cbn [binary_normalize]. unfold binary_round.
    destruct (shl_align _ _ _) as [mz ez]. apply abs_round_aux.
  - change (- Z.neg m) with (Z.pos m). cbn [binary_normalize]. unfold binary_round.
    destruct (shl_align _ _ _) as [mz ez]. apply abs_round_aux.
Qed.

Lemma f64_abs_sub_sym x y : f64_abs (f64_sub x y) = f64_abs (f64_sub y x).
Proof.
  unfold f64_abs, f64_sub. destruct x as [ [] | [] | |sx mx ex], y as [ [] | [] | |sy my ey]; try done.
  cbn [SFsub]. cbv zeta. rewrite (Z.min_comm ey ex), <- abs_normalize_opp. do 2 f_equal. lia.
Qed.

Lemma f64_partial_cmp_antisym x y :
  f64_partial_cmp y x = CompOpp <$> f64_partial_cmp x y.
Proof.
  unfold f64_partial_cmp, SFcompare. destruct x as [ [] | [] | | [] m e], y as [ [] | [] | | [] n f];
    try done; cbn; rewrite (Z.compare_antisym e f); destruct (e ?= f); try done; cbn; f_equal;
    rewrite (Pos.compare_cont_antisym m n Eq) || idtac; cbn; try done.
Qed.

(** A finite number has 53 bits, or fewer at the smallest exponent. *)
Lemma f64_ok_finite s m e : f64_ok (S754_finite s m e) = true →
  (2 ^ 52 <= Zpos m < 2 ^ 53 ∧ -1074 <= e <= 971) ∨ (Zpos m < 2 ^ 52 ∧ e = -1074).
Proof.
  unfold f64_ok, valid_binary, bounded, canonical_mantissa. intros [H1%Z.eqb_eq H2%Z.leb_le]%andb_prop.
  assert (Hd : 2 ^ (Zpos (digits2_pos m) - 1) <= Zpos m < 2 ^ Zpos (digits2_pos m)).
  { clear. induction m as [m IH|m IH|]; cbn [digits2_pos]; [| |done];
      rewrite Pos2Z.inj_succ; replace (Z.succ (Z.pos (digits2_pos m)) - 1) with (Z.succ (Z.pos (digits2_pos m) - 1)) by lia;
      rewrite !Z.pow_succ_r by lia; lia. }
  unfold fexp, emin, F64_PREC, F64_EMAX in *. set (d := Zpos (digits2_pos m)) in *.
  destruct (Z.max_spec (d + e - 53) (3 - 1024 - 53)) as [[? E]|[? E]]; rewrite E in H1.
  - right. split; [|lia]. eapply Z.lt_le_trans; [apply Hd|]. apply Z.pow_le_mono_r; lia.
  - left. assert (d = 53) as Ed by lia. rewrite Ed in Hd. change (53 - 1) with 52 in Hd. lia.
Qed.

Lemma f64_bits_back f : f64_ok f = true → 0 <= f64_bits f < 2 ^ 64 ∧ f64_from_bits (f64_bits f) = f.
Proof.
  destruct f as [[]|[]| |s m e]; [intros _; vm_compute; split_and!; congruence..|].
  intros Hok. apply f64_ok_finite in Hok.
  assert (Hs : 0 <= (if s then 2 ^ 63 else 0) ∧ (if s then 2 ^ 63 else 0) = (if s then 1 else 0) * 2 ^ 63) by (by destruct s).
  set (ex := if Zpos m <? 2 ^ 52 then 0 else e + 1075). set (ma := if Zpos m <? 2 ^ 52 then Zpos m else Zpos m - 2 ^ 52).
  assert (Hb : f64_bits (S754_finite s m e) = ((if s then 1 else 0) * 2048 + ex) * 2 ^ 52 + ma).
  { unfold f64_bits, ex, ma. destruct s, (Zpos m <? 2 ^ 52); lia. }
  assert (Hex : 0 <= ex < 2047 ∧ 0 <= ma < 2 ^ 52).
  { unfold ex, ma. destruct (Z.ltb_spec (Zpos m) (2 ^ 52)); lia. }
  rewrite Hb. split; [destruct s; lia|]. unfold f64_from_bits. cbv zeta. clear Hb Hs.
  set (b := ((if s then 1 else 0) * 2048 + ex) * 2 ^ 52 + ma).
  assert (Hhi : b / 2 ^ 52 = (if s then 1 else 0) * 2048 + ex) by (unfold b; rewrite Z.div_add_l, (Z.div_small ma) by lia; lia).
  assert (Hlo : b mod 2 ^ 52 = ma) by (unfold b; rewrite Z.add_comm, Z_mod_plus_full, Z.mod_small by lia; done).
  assert (Hsg : (2 ^ 63 <=? b) = s) by (unfold b; destruct s; [apply Z.leb_le|apply Z.leb_gt]; lia).
  rewrite Hhi, Hlo, Hsg. replace (((if s then 1 else 0) * 2048 + ex) mod 2048) with ex
    by (rewrite Z.add_comm, Z_mod_plus_full, Z.mod_small by lia; done).
  rewrite (proj2 (Z.eqb_neq ex 2047)) by lia. clear b Hhi Hlo Hsg.
  unfold ex, ma in *. destruct (Z.ltb_spec (Zpos m) (2 ^ 52)) as [Hlt|Hge].
  - cbn [Z.eqb]. by replace e with (-1074) by lia.
  - rewrite (proj2 (Z.eqb_neq (e + 1075) 0)) by lia. replace (Z.pos m - 2 ^ 52 + 2 ^ 52) with (Z.pos m) by lia.
    f_equal. lia.
Qed.

Example f64_examples :
  f64_rem (f64_of_Z (-7)) (f64_of_Z 3) = f64_of_Z (-1)
  ∧ f64_round (f64_div (f64_of_Z (-5)) (f64_of_Z 2)) = f64_of_Z (-3)
  ∧ f64_partial_cmp (f64_of_Z 9007199254740993) (f64_of_Z 9007199254740992) = Some Eq
  ∧ f64_is_finite (f64_div (f64_of_Z 1) (f64_of_Z 0)) = false.
Proof. by vm_compute. Qed.
