(* ===== verification/JsonBinary.v ===== *)
(** * JsonBinary: the binary form of JSON values

    [constants.rs], [mod.rs], [binary.rs] and [jcodec.rs] of [berolinasql/src]: a JSON
    value is a type and its bytes; arrays and objects are a table of entries that point
    at the members' bytes.  A [JsonRef] is a slice of a document: it has the address of
    its first byte, here its offset in the document, which [modifier.rs] compares.

    The number codec is a crate that is not in the repository: the class
    [NumberCodec], whose laws are the little-endian forms the format's description in
    [mod.rs] fixes.  [jcodec.rs] calls writers it does not define
    ([write_causet_locale_causet], [write_json_ref_array], [write_json_array],
    [write_json_obj], [write_json_str]): they are
    the class [JsonWriter], with the layout the same description gives as laws.

    The enum [JsonType] is declared with other constructors than those the code
    matches on; the ones matched on are modelled, with the codes of the description. *)
From Stdlib Require Import ZArith Lia.
From stdpp Require Import base list numbers.
From S2P Require Import Prelude EvalCtx Slice Float.
#[local] Open Scope Z_scope.
#[local] Open Scope rM_scope.

#[local] Notation zlen l := (Z.of_nat (length l)).

(** ** Constants *)

Definition JSON_LITERAL_NIL : Z := 0.
Definition JSON_LITERAL_TRUE : Z := 1.
Definition JSON_LITERAL_FALSE : Z := 2.
Definition TYPE_LEN : Z := 1.
Definition LITERAL_LEN : Z := 1.
Definition U16_LEN : Z := 2.
Definition U32_LEN : Z := 4.
Definition NUMBER_LEN : Z := 8.
Definition ELEMENT_COUNT_LEN : Z := U32_LEN.
Definition SIZE_LEN : Z := U32_LEN.
Definition HEADER_LEN : Z := ELEMENT_COUNT_LEN + SIZE_LEN.
Definition KEY_OFFSET_LEN : Z := U32_LEN.
Definition KEY_LEN_LEN : Z := U16_LEN.
Definition KEY_ENTRY_LEN : Z := KEY_OFFSET_LEN + KEY_LEN_LEN.
Definition VALUE_ENTRY_LEN : Z := TYPE_LEN + U32_LEN.

(** ** Types and values *)

Inductive JsonType := Object | Array | Literal | I64 | U64 | Double | String.

#[export] Instance JsonType_eq_dec : EqDecision JsonType.
Proof. solve_decision. Defined.

(** [as u8] and [TryFrom<u8>]. *)
Definition type_code (t : JsonType) : Z :=
  match t with
  | Object => 1 | Array => 3 | Literal => 4 | I64 => 9 | U64 => 10 | Double => 11 | String => 12
  end.

Definition type_from_u8 (src : Z) : result JsonType :=
  if src =? 1 then Ok Object
  else if src =? 3 then Ok Array
  else if src =? 4 then Ok Literal
  else if src =? 9 then Ok I64
  else if src =? 10 then Ok U64
  else if src =? 11 then Ok Double
  else if src =? 12 then Ok String
  else Err InvalidDataType.

Record JsonRef := mkRef { get_type : JsonType; as_ptr : Z; causet_locale : list Z }.
Record Json := mkJson { json_type : JsonType; json_bytes : list Z }.

Definition to_owned (j : JsonRef) : Json := mkJson (get_type j) (causet_locale j).
Definition as_ref (j : Json) : JsonRef := mkRef (json_type j) 0 (json_bytes j).

(** ** The external codec *)

Class NumberCodec := {
  decode_u16_le : list Z → outcome Z;
  decode_u32_le : list Z → outcome Z;
  decode_u64_le : list Z → outcome Z;
  decode_i64_le : list Z → outcome Z;
  decode_f64_le : list Z → outcome f64;
  encode_u16_le : Z → list Z;
  encode_u32_le : Z → list Z;
  encode_u64_le : Z → list Z;
  encode_i64_le : Z → list Z;
  encode_f64_le : f64 → list Z;
  try_decode_var_u64 : list Z → result (Z * Z);
  encode_var_u64 : Z → list Z;
}.

Class NumberCodecLaws {N : NumberCodec} : Prop := {
  u16_le : ∀ v, encode_u16_le v = le_bytes 2 v;
  u32_le : ∀ v, encode_u32_le v = le_bytes 4 v;
  u16_back : ∀ v rest, 0 <= v <= U16_MAX → decode_u16_le (le_bytes 2 v ++ rest) = Ret v;
  u32_back : ∀ v rest, 0 <= v <= U32_MAX → decode_u32_le (le_bytes 4 v ++ rest) = Ret v;
  u64_size : ∀ v, length (encode_u64_le v) = 8%nat;
  i64_size : ∀ v, length (encode_i64_le v) = 8%nat;
  f64_size : ∀ v, length (encode_f64_le v) = 8%nat;
  u64_back : ∀ v, is_u64 v → decode_u64_le (encode_u64_le v) = Ret v;
  i64_back : ∀ v, is_i64 v → decode_i64_le (encode_i64_le v) = Ret v;
  f64_back : ∀ f, f64_ok f = true → decode_f64_le (encode_f64_le f) = Ret f;
  var_u64_back : ∀ v rest, is_u64 v →
    try_decode_var_u64 (encode_var_u64 v ++ rest) = Ok (v, zlen (encode_var_u64 v));
}.

Section Binary.
Context {N : NumberCodec}.

(** [assert_eq!(self.type_code, ..)] *)
Definition assert_type (j : JsonRef) (ok : JsonType → bool) : outcome unit := guardM (ok (get_type j)).

Definition get_u64 (j : JsonRef) : outcome Z :=
  _ ← assert_type j (λ t, bool_decide (t = U64)); decode_u64_le (causet_locale j).
Definition get_i64 (j : JsonRef) : outcome Z :=
  _ ← assert_type j (λ t, bool_decide (t = I64)); decode_i64_le (causet_locale j).
Definition get_double (j : JsonRef) : outcome f64 :=
  _ ← assert_type j (λ t, bool_decide (t = Double)); decode_f64_le (causet_locale j).

Definition get_elem_count (j : JsonRef) : outcome Z :=
  _ ← assert_type j (λ t, bool_decide (t = Object) || bool_decide (t = Array));
  decode_u32_le (causet_locale j).

Definition get_literal (j : JsonRef) : outcome (option bool) :=
  _ ← assert_type j (λ t, bool_decide (t = Literal));
  b ← get (causet_locale j) 0;
  Ret (if b =? JSON_LITERAL_FALSE then Some false
       else if b =? JSON_LITERAL_TRUE then Some true else None).

Definition get_str_bytes (j : JsonRef) : rM (list Z) :=
  match assert_type j (λ t, bool_decide (t = String)) with
  | Panic => Panic
  | Ret _ =>
      match try_decode_var_u64 (causet_locale j) with
      | Err e => errR e
      | Ok (str_len, len_len) => liftR (slice (causet_locale j) len_len (len_len + str_len))
      end
  end.

(** ** Members *)

(** [val_causet_get]: the value of the entry at [off]; an offset past the end panics. *)
Definition val_causet_get (j : JsonRef) (off : Z) : rM JsonRef :=
  let v := causet_locale j in
  let sub tp a b := s ←? liftR (slice v a b); okR (mkRef tp (as_ptr j + a) s) in
  code ←? liftR (get v off);
  match type_from_u8 code with
  | Err e => errR e
  | Ok val_type =>
      e ←? liftR (slice_from v (off + TYPE_LEN));
      val_offset ←? liftR (decode_u32_le e);
      match val_type with
      | Literal => sub Literal (off + TYPE_LEN) (off + TYPE_LEN + LITERAL_LEN)
      | U64 | I64 | Double => sub val_type val_offset (val_offset + NUMBER_LEN)
      | String =>
          s ←? liftR (slice_from v val_offset);
          match try_decode_var_u64 s with
          | Err e => errR e
          | Ok (str_len, len_len) => sub String val_offset (val_offset + str_len + len_len)
          end
      | Object | Array =>
          s ←? liftR (slice_from v (val_offset + ELEMENT_COUNT_LEN));
          data_size ←? liftR (decode_u32_le s);
          sub val_type val_offset (val_offset + data_size)
      end
  end.

Definition array_get_elem (j : JsonRef) (idx : Z) : rM JsonRef :=
  val_causet_get j (HEADER_LEN + idx * VALUE_ENTRY_LEN).

Definition object_get_soliton_id (j : JsonRef) (i : Z) : outcome (list Z) :=
  let v := causet_locale j in
  let start := HEADER_LEN + i * KEY_ENTRY_LEN in
  a ← slice_from v start;
  soliton_id_off ← decode_u32_le a;
  b ← slice_from v (start + KEY_OFFSET_LEN);
  soliton_id_len ← decode_u16_le b;
  slice v soliton_id_off (soliton_id_off + soliton_id_len).

Definition object_get_val (j : JsonRef) (i : Z) : rM JsonRef :=
  ele_count ←? liftR (get_elem_count j);
  val_causet_get j (HEADER_LEN + ele_count * KEY_ENTRY_LEN + i * VALUE_ENTRY_LEN).

(** [while i < j] of [object_search_soliton_id]; the interval shrinks at each step. *)
Fixpoint search_loop (fuel : nat) (o : JsonRef) (soliton_id : list Z) (i j : Z) : outcome Z :=
  if i <? j then
    match fuel with
    | O => Panic
    | S fuel =>
        let mid := Z.shiftr (i + j) 1 in
        k ← object_get_soliton_id o mid;
        if bytes_ltb k soliton_id then search_loop fuel o soliton_id (mid + 1) j
        else search_loop fuel o soliton_id i mid
    end
  else Ret i.

Definition object_search_soliton_id (o : JsonRef) (soliton_id : list Z) : outcome (option Z) :=
  len ← get_elem_count o;
  i ← search_loop (Z.to_nat len) o soliton_id 0 len;
  if i <? len then
    k ← object_get_soliton_id o i;
    Ret (if bytes_eqb k soliton_id then Some i else None)
  else Ret None.

(** [as_literal], [binary_len], [encoded_len] (its final match: a literal is inlined). *)
Definition as_literal (j : JsonRef) : rM Z :=
  match get_type j with
  | Literal => liftR (get (causet_locale j) 0)
  | _ => errR InvalidDataType
  end.

Definition binary_len (j : JsonRef) : Z := TYPE_LEN + zlen (causet_locale j).

Definition encoded_len (j : JsonRef) : Z :=
  match get_type j with Literal => 0 | _ => zlen (causet_locale j) end.

End Binary.

(** ** Writing *)

(** The writers that are not defined in the repository. *)
Class JsonWriter {N : NumberCodec} := {
  write_causet_locale_causet : list Z → Z → JsonRef → list Z * Z;
  write_json_ref_array : list JsonRef → rM (list Z);
  write_json_array : list Json → rM (list Z);
  write_json_obj : list (list Z * Json) → rM (list Z);
  write_json_str : list Z → rM (list Z);
}.

Section Write.
Context {N : NumberCodec} {JW : JsonWriter}.

(** [entries.sort_by(|a, b| a.0.cmp(b.0))]: a stable sort. *)
Fixpoint insert_entry (e : list Z * JsonRef) (l : list (list Z * JsonRef)) :=
  match l with
  | [] => [e]
  | e' :: l' => if bytes_ltb e'.1 e.1 || bytes_eqb e'.1 e.1 then e' :: insert_entry e l' else e :: l
  end.

Definition sort_entries (l : list (list Z * JsonRef)) : list (list Z * JsonRef) :=
  fold_left (λ acc e, insert_entry e acc) l [].

(** The entries of the names: offset and length, with their casts. *)
Fixpoint write_soliton_id_entries (off : Z) (ids : list (list Z)) : list Z :=
  match ids with
  | [] => []
  | k :: ids => encode_u32_le (as_u32 off) ++ encode_u16_le (zlen k mod 65536)
                ++ write_soliton_id_entries (off + zlen k) ids
  end.

Fixpoint write_val_entries (buf : list Z) (off : Z) (vs : list JsonRef) : list Z * Z :=
  match vs with
  | [] => (buf, off)
  | v :: vs => let '(buf, off) := write_causet_locale_causet buf off v in write_val_entries buf off vs
  end.

(** [write_json_obj_from_soliton_ids_causet_locales] *)
Definition write_json_obj_from_soliton_ids_causet_locales (buf : list Z)
    (entries : list (list Z * JsonRef)) : list Z :=
  let entries := sort_entries entries in
  let element_count := zlen entries in
  let soliton_id_entries_len := KEY_ENTRY_LEN * element_count in
  let causet_locale_entries_len := VALUE_ENTRY_LEN * element_count in
  let kv_encoded_len := fold_left (λ acc e, acc + zlen e.1 + encoded_len e.2) entries 0 in
  let start := ELEMENT_COUNT_LEN + SIZE_LEN + soliton_id_entries_len + causet_locale_entries_len in
  let size := start + kv_encoded_len in
  let buf := buf ++ encode_u32_le (as_u32 element_count) ++ encode_u32_le (as_u32 size) in
  let buf := buf ++ write_soliton_id_entries start entries.*1 in
  let off := fold_left (λ acc e, acc + zlen e.1) entries start in
  let '(buf, _) := write_val_entries buf (as_u32 off) entries.*2 in
  let buf := buf ++ concat entries.*1 in
  buf ++ concat (map (λ e, match get_type e.2 with Literal => [] | _ => causet_locale e.2 end) entries).

(** The constructors of [Json]. *)
Definition from_kv_pairs (entries : list (list Z * JsonRef)) : rM Json :=
  okR (mkJson Object (write_json_obj_from_soliton_ids_causet_locales [] entries)).
Definition from_ref_array (l : list JsonRef) : rM Json :=
  b ←? write_json_ref_array l; okR (mkJson Array b).
Definition from_array (l : list Json) : rM Json :=
  b ←? write_json_array l; okR (mkJson Array b).
(** A [BTreeMap<String, Json>] is its entries, in the order of the names. *)
Definition from_object (map : list (list Z * Json)) : rM Json :=
  b ←? write_json_obj map; okR (mkJson Object b).
Definition from_str_val (s : list Z) : rM Json := b ←? write_json_str s; okR (mkJson String b).

End Write.
