(* ===== verification/JsonTree.v ===== *)
(** * JsonTree: JSON values as trees, and the documents that encode them

    The abstract values the binary form stands for, their layout, and the reading
    lemmas of [JsonBinary]: on the layout of a tree every access finds the member it
    is meant to find, at a known offset.  Then the accessors of [JsonBinary] on the
    documents of well-formed trees: the number of members, each member and each name,
    and the binary search among the names. *)
From Stdlib Require Import ZArith Lia Sorted.
From stdpp Require Import base list numbers sorting.
From S2P Require Import Prelude Words EvalCtx Slice Float JsonBinary.
#[local] Open Scope Z_scope.
#[local] Open Scope rM_scope.

#[local] Notation zlen l := (Z.of_nat (length l)).

(** ** Trees *)

Inductive jtree :=
| JNull
| JBool (b : bool)
| JI64 (i : Z)
| JU64 (u : Z)
| JDouble (f : f64)
| JString (s : list Z)
| JArray (ts : list jtree)
| JObject (ks : list (list Z)) (ts : list jtree).

(** Induction with the hypothesis for all members. *)
Lemma jtree_rect' (P : jtree → Prop) :
  P JNull → (∀ b, P (JBool b)) → (∀ i, P (JI64 i)) → (∀ u, P (JU64 u)) → (∀ f, P (JDouble f)) →
  (∀ s, P (JString s)) → (∀ ts, Forall P ts → P (JArray ts)) →
  (∀ ks ts, Forall P ts → P (JObject ks ts)) → ∀ t, P t.
Proof.
  intros H1 H2 H3 H4 H5 H6 H7 H8. fix IH 1. intros [| | | | | |ts|ks ts];
    [exact H1|apply H2|apply H3|apply H4|apply H5|apply H6| |].
  - apply H7. induction ts as [|t ts IHts]; constructor; [apply IH|exact IHts].
  - apply H8. induction ts as [|t ts IHts]; constructor; [apply IH|exact IHts].
Qed.

Definition ttype (t : jtree) : JsonType :=
  match t with
  | JNull | JBool _ => Literal
  | JI64 _ => I64 | JU64 _ => U64 | JDouble _ => Double | JString _ => String
  | JArray _ => Array | JObject _ _ => Object
  end.

Definition children (t : jtree) : list jtree :=
  match t with JArray ts | JObject _ ts => ts | _ => [] end.
Definition names (t : jtree) : list (list Z) := match t with JObject ks _ => ks | _ => [] end.

(** ** Layout

    A cell is a member as its entry sees it: its type and bytes.  Arrays are laid out
    as objects without names. *)
Definition cell : Type := JsonType * list Z.

Definition body (c : cell) : list Z := match c.1 with Literal => [] | _ => c.2 end.
Definition bodies (cs : list cell) : list Z := concat (map body cs).

Fixpoint kentries (off : Z) (ks : list (list Z)) : list Z :=
  match ks with
  | [] => []
  | k :: ks => le_bytes 4 off ++ le_bytes 2 (zlen k) ++ kentries (off + zlen k) ks
  end.

Definition ventry (off : Z) (c : cell) : list Z :=
  type_code c.1 :: le_bytes 4 (match c.1 with Literal => default 0 (head c.2) | _ => off end).

Fixpoint ventries (off : Z) (cs : list cell) : list Z :=
  match cs with
  | [] => []
  | c :: cs => ventry off c ++ ventries (off + zlen (body c)) cs
  end.

Definition start (ks : list (list Z)) (cs : list cell) : Z := 8 + 6 * zlen ks + 5 * zlen cs.
Definition lsize (ks : list (list Z)) (cs : list cell) : Z :=
  start ks cs + zlen (concat ks) + zlen (bodies cs).

Definition layout (ks : list (list Z)) (cs : list cell) : list Z :=
  le_bytes 4 (zlen cs) ++ le_bytes 4 (lsize ks cs) ++ kentries (start ks cs) ks
  ++ ventries (start ks cs + zlen (concat ks)) cs ++ concat ks ++ bodies cs.

Section Tree.
Context {N : NumberCodec}.

Fixpoint enc (t : jtree) : list Z :=
  match t with
  | JNull => [0]
  | JBool true => [1]
  | JBool false => [2]
  | JI64 i => encode_i64_le i
  | JU64 u => encode_u64_le u
  | JDouble f => encode_f64_le f
  | JString s => encode_var_u64 (zlen s) ++ s
  | JArray ts => layout [] (map (λ t, (ttype t, enc t)) ts)
  | JObject ks ts => layout ks (map (λ t, (ttype t, enc t)) ts)
  end.

Definition tcell (t : jtree) : cell := (ttype t, enc t).

(** A document of a tree, found at [p]. *)
Definition tref (p : Z) (t : jtree) : JsonRef := mkRef (ttype t) p (enc t).

(** A value of its own. *)
Definition tjson (t : jtree) : Json := mkJson (ttype t) (enc t).

(** What the writers that are not in the repository write, from the description of
    the format: an entry, an array, an object, a string. *)
Definition ref_cell (j : JsonRef) : cell := (get_type j, causet_locale j).
Definition json_cell (j : Json) : cell := (json_type j, json_bytes j).

Class JsonWriterLaws {JW : JsonWriter} : Prop := {
  write_entry : ∀ buf off j, 0 <= off <= U32_MAX →
    write_causet_locale_causet buf off j
    = (buf ++ ventry off (ref_cell j), off + zlen (body (ref_cell j)));
  write_refs : ∀ l, zlen (layout [] (map ref_cell l)) <= U32_MAX →
    write_json_ref_array l = okR (layout [] (map ref_cell l));
  write_jsons : ∀ l, zlen (layout [] (map json_cell l)) <= U32_MAX →
    write_json_array l = okR (layout [] (map json_cell l));
  write_object : ∀ l, StronglySorted bytes_lt l.*1 →
    zlen (layout l.*1 (map json_cell l.*2)) <= U32_MAX →
    write_json_obj l = okR (layout l.*1 (map json_cell l.*2));
  write_string : ∀ s, is_u64 (zlen s) → write_json_str s = okR (encode_var_u64 (zlen s) ++ s);
}.

(** Trees that have a document: numbers in range, names ordered and short, and sizes
    that fit their 32 bits. *)
Inductive jok : jtree → Prop :=
| ok_null : jok JNull
| ok_bool b : jok (JBool b)
| ok_i64 i : is_i64 i → jok (JI64 i)
| ok_u64 u : is_u64 u → jok (JU64 u)
| ok_double f : f64_ok f = true → jok (JDouble f)
| ok_string s : zlen s <= U64_MAX → jok (JString s)
| ok_array ts : Forall jok ts → zlen (enc (JArray ts)) <= U32_MAX → jok (JArray ts)
| ok_object ks ts : Forall jok ts → length ks = length ts → StronglySorted bytes_lt ks →
    Forall (λ k, zlen k <= U16_MAX) ks → zlen (enc (JObject ks ts)) <= U32_MAX → jok (JObject ks ts).

End Tree.

(** ** Lengths *)

Lemma kentries_length ks : ∀ off, zlen (kentries off ks) = 6 * zlen ks.
Proof.
  induction ks as [|k ks IH]; intros off; cbn [kentries length]; [done|].
  rewrite !length_app, !le_bytes_length. specialize (IH (off + zlen k)). lia.
Qed.

Lemma ventries_length cs : ∀ off, zlen (ventries off cs) = 5 * zlen cs.
Proof.
  induction cs as [|c cs IH]; intros off; cbn [ventries]; [done|].
  unfold ventry. rewrite length_app. cbn [length]. rewrite le_bytes_length.
  specialize (IH (off + zlen (body c))). lia.
Qed.

Lemma layout_length ks cs : zlen (layout ks cs) = lsize ks cs.
Proof.
  unfold layout, lsize, start. rewrite !length_app, !le_bytes_length, !Nat2Z.inj_add,
    kentries_length, ventries_length. lia.
Qed.

Lemma bodies_cons c cs : bodies (c :: cs) = body c ++ bodies cs.
Proof. reflexivity. Qed.

Lemma bodies_app a b : bodies (a ++ b) = bodies a ++ bodies b.
Proof. unfold bodies. by rewrite map_app, concat_app. Qed.

Lemma kentries_app a b off :
  kentries off (a ++ b) = kentries off a ++ kentries (off + zlen (concat a)) b.
Proof.
  revert off. induction a as [|k a IH]; intros off; cbn [app kentries concat]; [f_equal; cbn; lia|].
  rewrite IH, length_app, <- !app_assoc. do 3 f_equal. f_equal. lia.
Qed.

Lemma ventries_app a b off :
  ventries off (a ++ b) = ventries off a ++ ventries (off + zlen (bodies a)) b.
Proof.
  revert off. induction a as [|c a IH]; intros off; cbn [app ventries]; [f_equal; cbn; lia|].
  rewrite IH, <- !app_assoc. do 2 f_equal. f_equal. unfold bodies. cbn [map concat]. rewrite length_app. lia.
Qed.

Lemma type_code_back t : type_from_u8 (type_code t) = Ok t.
Proof. by destruct t. Qed.

(** ** Finding a member *)

(** Where the bytes of the [i]-th member start. *)
Definition child_off (ks : list (list Z)) (cs : list cell) (i : nat) : Z :=
  match cs !! i with
  | Some (Literal, _) => 8 + 6 * zlen ks + 5 * Z.of_nat i + 1
  | _ => start ks cs + zlen (concat ks) + zlen (bodies (take i cs))
  end.

(** The entry and the bytes of a member, in the layout. *)
Lemma layout_entry ks c1 c c2 : ∃ pre post,
  layout ks (c1 ++ c :: c2)
  = pre ++ ventry (start ks (c1 ++ c :: c2) + zlen (concat ks) + zlen (bodies c1)) c ++ post
  ∧ zlen pre = 8 + 6 * zlen ks + 5 * zlen c1.
Proof.
  unfold layout. rewrite ventries_app. cbn [ventries].
  eexists (le_bytes 4 _ ++ le_bytes 4 _ ++ kentries _ ks ++ ventries _ c1), _.
  split; [by rewrite <- !app_assoc|].
  rewrite !length_app, !le_bytes_length, !Nat2Z.inj_add, kentries_length, ventries_length. lia.
Qed.

Lemma layout_body ks c1 c c2 : ∃ pre post, layout ks (c1 ++ c :: c2) = pre ++ body c ++ post
  ∧ zlen pre = start ks (c1 ++ c :: c2) + zlen (concat ks) + zlen (bodies c1).
Proof.
  unfold layout. rewrite bodies_app. change (bodies (c :: c2)) with (body c ++ bodies c2).
  eexists (le_bytes 4 _ ++ le_bytes 4 _ ++ kentries _ ks ++ ventries _ _ ++ concat ks ++ bodies c1), _.
  split; [by rewrite <- !app_assoc|].
  rewrite !length_app, !le_bytes_length, !Nat2Z.inj_add, kentries_length, ventries_length. unfold start. lia.
Qed.

Section Read.
Context {N : NumberCodec} {NL : NumberCodecLaws}.

(** What the type says about the bytes of a cell. *)
Definition sized (c : cell) : Prop :=
  match c.1 with
  | Literal => ∃ v, c.2 = [v] ∧ 0 <= v <= 255
  | I64 | U64 | Double => length c.2 = 8%nat
  | String => ∃ s, c.2 = encode_var_u64 (zlen s) ++ s ∧ is_u64 (zlen s)
  | Object | Array =>
      ∃ a rest, c.2 = a ++ le_bytes 4 (zlen c.2) ++ rest ∧ length a = 4%nat ∧ zlen c.2 <= U32_MAX
  end.

Lemma layout_sized tp ks cs : tp = Object ∨ tp = Array → zlen (layout ks cs) <= U32_MAX →
  sized (tp, layout ks cs).
Proof.
  intros Htp Hl. assert (∃ a rest, layout ks cs = a ++ le_bytes 4 (zlen (layout ks cs)) ++ rest
    ∧ length a = 4%nat ∧ zlen (layout ks cs) <= U32_MAX).
  { eexists (le_bytes 4 (zlen cs)), _. split; [|done]. rewrite layout_length. reflexivity. }
  destruct Htp as [->| ->]; done.
Qed.

Lemma tcell_sized t : jok t → sized (tcell t).
Proof.
  intros [|[]|i|u|f|s Hs|ts Hts Hl|ks ts Hts Hk Hsort Hshort Hl]; unfold tcell; cbn [ttype]; cbn [enc] in *;
    try apply layout_sized; auto.
  - by exists 0.
  - by exists 1.
  - by exists 2.
  - apply i64_size.
  - apply u64_size.
  - apply f64_size.
  - exists s. split; [done|]. unfold is_u64. lia.
Qed.

(** Reading the bytes a member's entry points at. *)
Lemma read_number (doc pre b post : list Z) : doc = pre ++ b ++ post → length b = 8%nat →
  slice doc (zlen pre) (zlen pre + NUMBER_LEN) = Ret b.
Proof. intros -> Lb. apply slice_mid; unfold NUMBER_LEN; lia. Qed.

Lemma read_string (doc pre s b post : list Z) : doc = pre ++ b ++ post →
  b = encode_var_u64 (zlen s) ++ s → is_u64 (zlen s) → ∃ n,
  slice_from doc (zlen pre) = Ret (b ++ post) ∧ try_decode_var_u64 (b ++ post) = Ok (zlen s, n)
  ∧ slice doc (zlen pre) (zlen pre + zlen s + n) = Ret b.
Proof.
  intros -> Eb Hs. exists (zlen (encode_var_u64 (zlen s))). split_and!.
  - by apply slice_from_mid.
  - rewrite Eb, <- app_assoc. by apply var_u64_back.
  - apply slice_mid; [done|]. rewrite Eb, length_app. lia.
Qed.

Lemma read_box (doc pre b post a rest : list Z) : doc = pre ++ b ++ post →
  b = a ++ le_bytes 4 (zlen b) ++ rest → length a = 4%nat → zlen b <= U32_MAX → ∃ s,
  slice_from doc (zlen pre + ELEMENT_COUNT_LEN) = Ret s ∧ decode_u32_le s = Ret (zlen b)
  ∧ slice doc (zlen pre) (zlen pre + zlen b) = Ret b.
Proof.
  intros -> Eb La Lb. exists (le_bytes 4 (zlen b) ++ rest ++ post). split_and!.
  - rewrite Eb at 1. rewrite <- !app_assoc, (app_assoc pre).
    apply slice_from_mid. rewrite length_app. unfold ELEMENT_COUNT_LEN, U32_LEN. lia.
  - apply u32_back. lia.
  - by apply slice_mid.
Qed.

(** What [val_causet_get] does once it has read the entry. *)
Lemma val_causet_get_entry T p doc o v pre post tp : doc = pre ++ (type_code tp :: le_bytes 4 v) ++ post →
  o = zlen pre → 0 <= v <= U32_MAX →
  val_causet_get (mkRef T p doc) o
  = let sub tp a b := s ←? liftR (slice doc a b); okR (mkRef tp (p + a) s) in
    match tp with
    | Literal => sub Literal (o + TYPE_LEN) (o + TYPE_LEN + LITERAL_LEN)
    | U64 | I64 | Double => sub tp v (v + NUMBER_LEN)
    | String =>
        s ←? liftR (slice_from doc v);
        match try_decode_var_u64 s with
        | Err e => errR e
        | Ok (str_len, len_len) => sub String v (v + str_len + len_len)
        end
    | Object | Array =>
        s ←? liftR (slice_from doc (v + ELEMENT_COUNT_LEN));
        data_size ←? liftR (decode_u32_le s);
        sub tp v (v + data_size)
    end.
Proof.
  intros E -> Hv. unfold val_causet_get. cbn [causet_locale as_ptr]. cbv zeta.
  assert (get doc (zlen pre) = Ret (type_code tp)) as -> by (rewrite E; cbn [app]; by rewrite get_mid).
  assert (slice_from doc (zlen pre + TYPE_LEN) = Ret (le_bytes 4 v ++ post)) as ->.
  { rewrite E. cbn [app]. rewrite app_cons_l. apply slice_from_mid. rewrite length_app. cbn. unfold TYPE_LEN. lia. }
  cbn [liftR]. rewrite rbind_ok, type_code_back, rbind_ok, u32_back by done. cbn [liftR]. rewrite rbind_ok. by destruct tp.
Qed.

(** The offset an entry holds fits its 32 bits. *)
Lemma entry_value_ok off c : 0 <= off <= U32_MAX → sized c →
  0 <= match c.1 with Literal => default 0 (head c.2) | _ => off end <= U32_MAX.
Proof.
  intros Ho Hc. unfold sized in Hc. destruct (c.1); try done.
  destruct Hc as (v & -> & ?). cbn. mach. lia.
Qed.

(** Reading the entry of a member gives its cell, at its offset in the document. *)
Lemma val_causet_get_spec T p ks c1 c c2 : Forall sized (c1 ++ c :: c2) →
  zlen (layout ks (c1 ++ c :: c2)) <= U32_MAX →
  val_causet_get (mkRef T p (layout ks (c1 ++ c :: c2))) (8 + 6 * zlen ks + 5 * zlen c1)
  = okR (mkRef c.1 (p + child_off ks (c1 ++ c :: c2) (length c1)) c.2).
Proof.
  intros Hs Hl. apply Forall_app in Hs as [_ [Hc _]%Forall_cons_1].
  destruct (layout_entry ks c1 c c2) as (pre & post & E & Lp).
  destruct (layout_body ks c1 c c2) as (pre2 & post2 & E2 & Lp2).
  unfold child_off. rewrite list_lookup_middle, take_app_length by done.
  rewrite <- Lp. rewrite <- Lp2 in E |- *.
  assert (Hoff : 0 <= zlen pre2 <= U32_MAX).
  { rewrite E2, length_app in Hl. lia. }
  rewrite (val_causet_get_entry _ _ _ _ _ _ _ _ E eq_refl (entry_value_ok _ _ Hoff Hc)).
  set (doc := layout ks (c1 ++ c :: c2)) in *. clearbody doc.
  destruct c as [tp b]. unfold sized in Hc. unfold body in E2. unfold ventry in E. cbn [fst snd] in *. cbv zeta.
  destruct tp; cbn [fst snd] in *;
    try (by rewrite (read_number _ _ _ _ E2 Hc));
    try (destruct Hc as (a & rest & Eb & La & Lb);
         destruct (read_box _ _ _ _ _ _ E2 Eb La Lb) as (s & -> & H2 & H3);
         cbn [liftR]; rewrite rbind_ok, H2; cbn [liftR]; rewrite rbind_ok, H3; done).
  - destruct Hc as (v & -> & Hv). change (default 0 (head [v])) with v in E. cbn [app le_bytes] in E. rewrite (Z.mod_small v 256) in E by lia.
    rewrite E, app_cons_l. unfold TYPE_LEN.
    match goal with |- context [?q ++ v :: ?l] => change (q ++ v :: l) with (q ++ [v] ++ l) end.
    rewrite slice_mid by (rewrite length_app; unfold LITERAL_LEN; cbn [length]; lia). cbn [liftR]. rewrite rbind_ok.
    done.
  - destruct Hc as (s & Eb & Hs'). destruct (read_string _ _ _ _ _ E2 Eb Hs') as (n & -> & H2 & H3).
    cbn [liftR]. rewrite rbind_ok, H2, H3. done.
Qed.
End Read.


(** ** Names in a layout *)

Lemma layout_soliton_id k1 k k2 cs : ∃ pre post post2 pre2,
  layout (k1 ++ k :: k2) cs
    = pre ++ le_bytes 4 (start (k1 ++ k :: k2) cs + zlen (concat k1)) ++ le_bytes 2 (zlen k) ++ post
  ∧ zlen pre = 8 + 6 * zlen k1
  ∧ layout (k1 ++ k :: k2) cs = pre2 ++ k ++ post2
  ∧ zlen pre2 = start (k1 ++ k :: k2) cs + zlen (concat k1).
Proof.
  unfold layout. rewrite kentries_app, concat_app. cbn [kentries concat].
  eexists (le_bytes 4 _ ++ le_bytes 4 _ ++ kentries _ k1), _, _,
    (le_bytes 4 _ ++ le_bytes 4 _ ++ (kentries _ k1 ++ le_bytes 4 _ ++ le_bytes 2 _ ++ kentries _ k2)
     ++ ventries _ cs ++ concat k1).
  split; [by rewrite <- !app_assoc|]. split.
  { rewrite !length_app, !le_bytes_length, !Nat2Z.inj_add, kentries_length. lia. }
  split; [by rewrite <- !app_assoc|].
  rewrite !length_app, !le_bytes_length, !Nat2Z.inj_add, !kentries_length, ventries_length.
  unfold start. rewrite length_app. cbn [length]. lia.
Qed.

(** Where the entries of the members start, and how many there are. *)
Definition coff (t : jtree) `{N : NumberCodec} (i : nat) : Z :=
  child_off (names t) (map tcell (children t)) i.

Definition container (t : jtree) : bool :=
  match t with JArray _ | JObject _ _ => true | _ => false end.

Section Access.
Context {N : NumberCodec} {NL : NumberCodecLaws}.

Lemma enc_layout t : container t = true → enc t = layout (names t) (map tcell (children t)).
Proof. by destruct t. Qed.

Lemma jok_children t : jok t → Forall jok (children t).
Proof. intros Ht. by destruct Ht; cbn. Qed.

Lemma jok_size t : container t = true → jok t → zlen (enc t) <= U32_MAX.
Proof. intros Hc Ht. by destruct Ht. Qed.

Lemma jok_names t : jok t → ttype t = Object → length (names t) = length (children t).
Proof. intros Ht. by destruct Ht. Qed.

Lemma container_type t : container t = bool_decide (ttype t = Object) || bool_decide (ttype t = Array).
Proof. by destruct t. Qed.

(** The entries fit the size. *)
Lemma layout_ge ks cs : 8 + 6 * zlen ks + 5 * zlen cs <= zlen (layout ks cs).
Proof. rewrite layout_length. unfold lsize, start. lia. Qed.

Lemma elem_count_tree p t : jok t → container t = true →
  get_elem_count (tref p t) = Ret (zlen (children t)).
Proof.
  intros Ht Hc. pose proof (jok_size t Hc Ht) as Hs. unfold get_elem_count, assert_type, tref.
  cbn [get_type causet_locale]. rewrite <- container_type, Hc. cbn [guardM]. bindr.
  rewrite (enc_layout _ Hc) in *. pose proof (layout_ge (names t) (map tcell (children t))).
  unfold layout. rewrite u32_back; rewrite ?length_map in *; [done|lia].
Qed.

Lemma val_causet_get_tree p t i c : jok t → container t = true → children t !! i = Some c →
  val_causet_get (tref p t) (8 + 6 * zlen (names t) + 5 * Z.of_nat i) = okR (tref (p + coff t i) c).
Proof.
  intros Ht Hc Hi. pose proof (jok_size t Hc Ht) as Hs. pose proof (jok_children t Ht) as Hk.
  unfold tref. rewrite (enc_layout _ Hc) in *. unfold coff.
  assert (Hall : Forall sized (map tcell (children t))).
  { apply Forall_map. eapply Forall_impl; [exact Hk|]. intros. by apply tcell_sized. }
  apply list_elem_of_split_length in Hi as (l1 & l2 & El & ->).
  rewrite El, map_app in *. cbn [map] in *.
  replace (length l1) with (length (map tcell l1)) by apply length_map.
  by rewrite val_causet_get_spec.
Qed.

Lemma array_get_elem_tree p ts i c : jok (JArray ts) → ts !! i = Some c →
  array_get_elem (tref p (JArray ts)) (Z.of_nat i) = okR (tref (p + coff (JArray ts) i) c).
Proof.
  intros Ht Hi. rewrite <- (val_causet_get_tree p (JArray ts) i c) by done.
  unfold array_get_elem. f_equal. cbn. unfold HEADER_LEN, ELEMENT_COUNT_LEN, SIZE_LEN, VALUE_ENTRY_LEN, TYPE_LEN, U32_LEN. lia.
Qed.

Lemma object_get_val_tree p ks ts i c : jok (JObject ks ts) → ts !! i = Some c →
  object_get_val (tref p (JObject ks ts)) (Z.of_nat i) = okR (tref (p + coff (JObject ks ts) i) c).
Proof.
  intros Ht Hi. rewrite <- (val_causet_get_tree p (JObject ks ts) i c) by done.
  unfold object_get_val. rewrite elem_count_tree by done. cbn [liftR]. rewrite rbind_ok. f_equal.
  pose proof (jok_names _ Ht eq_refl) as Hl. cbn [names children] in *. rewrite Hl.
  unfold HEADER_LEN, ELEMENT_COUNT_LEN, SIZE_LEN, KEY_ENTRY_LEN, VALUE_ENTRY_LEN, KEY_OFFSET_LEN, KEY_LEN_LEN, TYPE_LEN, U32_LEN, U16_LEN. lia.
Qed.

Lemma object_get_soliton_id_tree p ks ts i k : jok (JObject ks ts) → ks !! i = Some k →
  object_get_soliton_id (tref p (JObject ks ts)) (Z.of_nat i) = Ret k.
Proof.
  intros Ht Hi. pose proof (jok_size (JObject ks ts) eq_refl Ht) as Hs. inversion Ht as [| | | | | | |? ? _ _ _ Hshort _]; subst.
  assert (zlen k <= U16_MAX) by (rewrite Forall_lookup in Hshort; eauto).
  apply list_elem_of_split_length in Hi as (k1 & k2 & -> & ->).
  unfold object_get_soliton_id, tref. cbn [causet_locale].
  change (enc (JObject (k1 ++ k :: k2) ts)) with (layout (k1 ++ k :: k2) (map tcell ts)) in *.
  destruct (layout_soliton_id k1 k k2 (map tcell ts)) as (pre & post & post2 & pre2 & E & Lp & E2 & Lp2).
  rewrite <- Lp2 in E.
  set (doc := layout (k1 ++ k :: k2) (map tcell ts)) in *. clearbody doc.
  rewrite E2, length_app in Hs. unfold KEY_OFFSET_LEN, U32_LEN.
  replace (HEADER_LEN + zlen k1 * KEY_ENTRY_LEN) with (zlen pre)
    by (rewrite Lp; unfold HEADER_LEN, ELEMENT_COUNT_LEN, SIZE_LEN, KEY_ENTRY_LEN, KEY_OFFSET_LEN, KEY_LEN_LEN, U32_LEN, U16_LEN; lia).
  rewrite E at 1. rewrite slice_from_mid by done. bindr. rewrite u32_back by lia. bindr.
  rewrite E at 1. rewrite app_assoc, slice_from_mid by (rewrite length_app, le_bytes_length; lia). bindr.
  rewrite u16_back by lia. bindr. rewrite E2. by apply slice_mid.
Qed.

(** ** Searching a name *)

(** The linear search the binary search stands for. *)
Definition find_name (k : list Z) (ks : list (list Z)) : option nat := fst <$> list_find (k =.) ks.

Lemma sorted_lookup_lt {A} (R : A → A → Prop) l : StronglySorted R l → ∀ i j x y,
  l !! i = Some x → l !! j = Some y → (i < j)%nat → R x y.
Proof.
  induction 1 as [|z l _ IH Hz]; intros [|i] [|j] x y Hi Hj Hlt; cbn in *; simplify_eq; try lia.
  - rewrite Forall_lookup in Hz. eauto.
  - eapply IH; eauto. lia.
Qed.

Lemma find_name_Some k ks i : StronglySorted bytes_lt ks → find_name k ks = Some i ↔ ks !! i = Some k.
Proof.
  intros Hs. unfold find_name. rewrite fmap_Some. split.
  - intros ([j x] & Hf & ->). apply list_find_Some in Hf as (Hj & <- & _). done.
  - intros Hi. exists (i, k). split; [|done]. apply list_find_Some. split_and!; [done..|].
    intros j y Hj Hlt <-. by apply (bytes_lt_irrefl k), (sorted_lookup_lt _ _ Hs j i).
Qed.

(** The names below [k] are a prefix. *)
Definition below (ks : list (list Z)) (k : list Z) (r : Z) : Prop :=
  ∀ m k', ks !! m = Some k' → (Z.of_nat m < r ↔ bytes_lt k' k).

Lemma search_loop_tree p ks ts k fuel : ∀ i j, jok (JObject ks ts) →
  0 <= i <= j → j <= zlen ks → j - i <= Z.of_nat fuel →
  (∀ m k', ks !! m = Some k' → Z.of_nat m < i → bytes_lt k' k) →
  (∀ m k', ks !! m = Some k' → j <= Z.of_nat m → ¬ bytes_lt k' k) →
  ∃ r, search_loop fuel (tref p (JObject ks ts)) k i j = Ret r ∧ i <= r <= j ∧ below ks k r.
Proof.
  induction fuel as [|fuel IH]; intros i j Ht Hij Hj Hf Hlo Hhi; cbn [search_loop]; destruct (Z.ltb_spec i j) as [Hlt|Hge].
  1: lia.
  1, 3: assert (i = j) as -> by lia; exists j; split_and!; [done|lia..|];
    intros m k' Hm; split; [by apply Hlo|]; intros Hk; destruct (decide (Z.of_nat m < j)); [done|];
    destruct (Hhi m k' Hm); [lia|done].
  set (mid := Z.shiftr (i + j) 1). assert (Hmid : i <= mid < j).
  { unfold mid. rewrite Z.shiftr_div_pow2 by lia. zdiv. }
  assert (Hs : StronglySorted bytes_lt ks) by (by inversion Ht).
  destruct (lookup_lt_is_Some_2 ks (Z.to_nat mid)) as [km Hm]; [lia|].
  pose proof (object_get_soliton_id_tree p ks ts (Z.to_nat mid) km Ht Hm) as E.
  rewrite Z2Nat.id in E by lia. rewrite E. bindr.
  pose proof (bytes_ltb_lt km k) as Hb. destruct (bytes_ltb km k).
  - destruct (IH (mid + 1) j) as (r & Er & ? & ?); try lia; [done| |done|exists r; split_and!; auto; lia].
    intros m k' Hm' Hlt'. destruct (decide (m = Z.to_nat mid)) as [->|]; [simplify_eq; tauto|].
    eapply bytes_lt_trans; [|apply Hb; done]. eapply (sorted_lookup_lt _ _ Hs); [exact Hm'|exact Hm|lia].
  - destruct (IH i mid) as (r & Er & ? & ?); try lia; [done|done| |exists r; split_and!; auto; lia].
    intros m k' Hm' Hge' Hk. destruct (decide (m = Z.to_nat mid)) as [->|]; [simplify_eq; by apply Hb in Hk|].
    assert (bytes_lt km k'); [|destruct Hb as [_ Hb]; discriminate Hb; by eapply bytes_lt_trans].
    eapply (sorted_lookup_lt _ _ Hs); [exact Hm|exact Hm'|lia].
Qed.

Lemma search_tree p ks ts k : jok (JObject ks ts) →
  object_search_soliton_id (tref p (JObject ks ts)) k = Ret (Z.of_nat <$> find_name k ks).
Proof.
  intros Ht. unfold object_search_soliton_id. rewrite elem_count_tree by done. bindr. cbn [children].
  pose proof (jok_names _ Ht eq_refl) as Hl. cbn [names children] in Hl. rewrite <- Hl.
  assert (Hs : StronglySorted bytes_lt ks) by (by inversion Ht).
  destruct (search_loop_tree p ks ts k (Z.to_nat (zlen ks)) 0 (zlen ks)) as (r & -> & Hr & Hb); try lia; try done.
  { intros m k' Hm ?. apply lookup_lt_Some in Hm. lia. }
  bindr. assert (Hnone : ks !! Z.to_nat r ≠ Some k → find_name k ks = None).
  { intros Hne. destruct (find_name k ks) as [i|] eqn:E; [|done]. apply find_name_Some in E; [|done].
    destruct (Hb i k E) as [_ Hlt]. destruct (Z.lt_trichotomy (Z.of_nat i) r) as [Hl1|[Hl1|Hl1]].
    - apply Hb in E. destruct (bytes_lt_irrefl k). tauto.
    - destruct Hne. rewrite <- Hl1. by rewrite Nat2Z.id.
    - exfalso. destruct (lookup_lt_is_Some_2 ks (Z.to_nat r)) as [kr Hkr]; [apply lookup_lt_Some in E; lia|].
      destruct (Hb _ _ Hkr) as [_ Hk]. destruct (decide (Z.of_nat (Z.to_nat r) < r)); [lia|].
      assert (bytes_lt kr k); [|tauto]. eapply (sorted_lookup_lt _ _ Hs); [exact Hkr|exact E|lia]. }
  destruct (Z.ltb_spec r (zlen ks)).
  - destruct (lookup_lt_is_Some_2 ks (Z.to_nat r)) as [kr Hkr]; [lia|].
    pose proof (object_get_soliton_id_tree p ks ts (Z.to_nat r) kr Ht Hkr) as E.
    rewrite Z2Nat.id in E by lia. rewrite E. bindr. f_equal. pose proof (bytes_eqb_eq kr k) as Hq.
    destruct (bytes_eqb kr k).
    + assert (kr = k) as -> by by apply Hq. apply (find_name_Some _ _ _ Hs) in Hkr. rewrite Hkr. cbn. f_equal. lia.
    + rewrite Hnone; [done|]. intros ?. simplify_eq. destruct Hq as [_ Hq]. by specialize (Hq eq_refl).
  - rewrite Hnone; [done|]. by rewrite lookup_ge_None_2 by lia.
Qed.
End Access.
