(* ===== verification/JsonExtract.v ===== *)
(** * JsonExtract: paths, extraction, depth, length and names

    [path_expr.rs] (the legs), [json_extract.rs], [json_depth.rs], [json_length.rs],
    [json_keys.rs] and [json_type.rs] of [berolinasql/src], and what they mean on trees. *)
From Stdlib Require Import ZArith Lia Sorted.
From stdpp Require Import base list numbers.
From S2P Require Import Prelude EvalCtx Slice JsonBinary JsonTree.
#[local] Open Scope Z_scope.
#[local] Open Scope rM_scope.

#[local] Notation zlen l := (Z.of_nat (length l)).

(** ** Path expressions *)

Definition LOCAL_PATH_EXPR_ASTERISK : list Z := [42].
Definition LOCAL_PATH_EXPR_ARRAY_INDEX_ASTERISK : Z := -1.
Definition LOCAL_PATH_EXPRESSION_CONTAINS_ASTERISK : Z := 1.
Definition LOCAL_PATH_EXPRESSION_CONTAINS_DOUBLE_ASTERISK : Z := 2.

Inductive local_pathLeg := Index (i : Z) | Key (soliton_id : list Z) | DoubleAsterisk.

Record local_pathExpression := mkPath { legs : list local_pathLeg; flags : Z }.

Definition contains_any_asterisk (e : local_pathExpression) : bool :=
  negb (Z.land (flags e) (Z.lor LOCAL_PATH_EXPRESSION_CONTAINS_ASTERISK
                                LOCAL_PATH_EXPRESSION_CONTAINS_DOUBLE_ASTERISK) =? 0).

(** ** The code *)

(** [str::from_utf8]: the byte sequences of RFC 3629. *)
Definition is_cont (b : Z) : bool := (128 <=? b) && (b <=? 191).

Fixpoint utf8_valid (s : list Z) : bool :=
  match s with
  | [] => true
  | a :: s1 =>
      if (0 <=? a) && (a <=? 127) then utf8_valid s1
      else match s1 with
      | [] => false
      | b :: s2 =>
          if (194 <=? a) && (a <=? 223) then is_cont b && utf8_valid s2
          else match s2 with
          | [] => false
          | c :: s3 =>
              if (224 <=? a) && (a <=? 239) then
                ((if a =? 224 then 160 else 128) <=? b) && (b <=? (if a =? 237 then 159 else 191))
                && is_cont c && utf8_valid s3
              else match s3 with
              | [] => false
              | d :: s4 =>
                  (240 <=? a) && (a <=? 244)
                  && ((if a =? 240 then 144 else 128) <=? b) && (b <=? (if a =? 244 then 143 else 191))
                  && is_cont c && is_cont d && utf8_valid s4
              end
          end
      end
  end.

Definition str_from_utf8 (s : list Z) : result (list Z) := if utf8_valid s then Ok s else Err Encoding.

Section Code.
Context {N : NumberCodec} {JW : JsonWriter}.

(** [extract_json]; [i as usize] turns a negative index into a huge one. *)
Fixpoint extract_json (local_path_legs : list local_pathLeg) (j : JsonRef) : rM (list JsonRef) :=
  match local_path_legs with
  | [] => okR [j]
  | Index i :: sub =>
      match get_type j with
      | Array =>
          elem_count ←? liftR (get_elem_count j);
          if i =? LOCAL_PATH_EXPR_ARRAY_INDEX_ASTERISK then
            flatR (λ k, e ←? array_get_elem j k; extract_json sub e) (range elem_count)
          else if as_u64 i <? elem_count then
            e ←? array_get_elem j (as_u64 i); extract_json sub e
          else okR []
      | _ => if as_u64 i =? 0 then extract_json sub j else okR []
      end
  | Key soliton_id :: sub =>
      match get_type j with
      | Object =>
          if bytes_eqb soliton_id LOCAL_PATH_EXPR_ASTERISK then
            elem_count ←? liftR (get_elem_count j);
            flatR (λ i, e ←? object_get_val j i; extract_json sub e) (range elem_count)
          else
            found ←? liftR (object_search_soliton_id j soliton_id);
            match found with
            | Some idx => val ←? object_get_val j idx; extract_json sub val
            | None => okR []
            end
      | _ => okR []
      end
  | DoubleAsterisk :: sub =>
      self ←? extract_json sub j;
      members ←? match get_type j with
        | Array =>
            elem_count ←? liftR (get_elem_count j);
            flatR (λ k, e ←? array_get_elem j k; extract_json sub e) (range elem_count)
        | Object =>
            elem_count ←? liftR (get_elem_count j);
            flatR (λ i, e ←? object_get_val j i; extract_json sub e) (range elem_count)
        | _ => okR []
        end;
      okR (self ++ members)
  end.

Definition extract (j : JsonRef) (local_path_expr_list : list local_pathExpression) : rM (option Json) :=
  elem_list ←? flatR (λ e, extract_json (legs e) j) local_path_expr_list;
  match elem_list with
  | [] => okR None
  | e :: _ =>
      if (zlen local_path_expr_list =? 1) && (zlen elem_list =? 1) then okR (Some (to_owned e))
      else a ←? from_array (map to_owned elem_list); okR (Some a)
  end.

(** [for i in 0..length { let depth = depth_json(&val(i)?)?; if depth > max { .. } }] *)
Definition max_of (f : Z → rM Z) (n : Z) : rM Z :=
  fold_left (λ acc i, max_depth ←? acc; depth ←? f i;
               okR (if max_depth <? depth then depth else max_depth)) (range n) (okR 0).

Fixpoint depth_json (fuel : nat) (j : JsonRef) : rM Z :=
  match fuel with
  | O => Panic
  | S fuel =>
      d ←? match get_type j with
        | Object =>
            length ←? liftR (get_elem_count j);
            max_of (λ i, val ←? object_get_val j i; depth_json fuel val) length
        | Array =>
            length ←? liftR (get_elem_count j);
            max_of (λ i, val ←? array_get_elem j i; depth_json fuel val) length
        | _ => okR 0
        end;
      liftR (i64 (d + 1))
  end.

Definition depth (j : JsonRef) : rM Z := depth_json (S (length (causet_locale j))) j.

Definition len (j : JsonRef) : outcome (option Z) :=
  match get_type j with
  | Array | Object => n ← get_elem_count j; Ret (Some (as_i64 n))
  | _ => Ret (Some 1)
  end.

Definition json_length (j : JsonRef) (local_path_expr_list : list local_pathExpression) : rM (option Z) :=
  match local_path_expr_list with
  | [] => liftR (len j)
  | e :: rest =>
      if (zlen (e :: rest) =? 1) && contains_any_asterisk e then okR None
      else
        o ←? extract j (e :: rest);
        match o with Some r => liftR (len (as_ref r)) | None => okR None end
  end.

Definition json_soliton_ids (j : JsonRef) : rM (option Json) :=
  match get_type j with
  | Object =>
      elem_count ←? liftR (get_elem_count j);
      ret ←? mapR (λ i, k ←? liftR (object_get_soliton_id j i);
                        s ←? Ret (str_from_utf8 k); from_str_val s) (range elem_count);
      a ←? from_array ret;
      okR (Some a)
  | _ => okR None
  end.

Definition soliton_ids (j : JsonRef) (local_path_expr_list : list local_pathExpression) : rM (option Json) :=
  match local_path_expr_list with
  | [] => json_soliton_ids j
  | _ =>
      if 1 <? zlen local_path_expr_list then errR Other
      else if existsb contains_any_asterisk local_path_expr_list then errR Other
      else
        o ←? extract j local_path_expr_list;
        match o with Some r => json_soliton_ids (as_ref r) | None => okR None end
  end.

(** The names of [json_type]. *)
Inductive type_name := BOOLEAN | NONE | INTEGER | UNSIGNED_INTEGER | DOUBLE | STRING | OBJECT | ARRAY.

Definition json_type_name (j : JsonRef) : outcome type_name :=
  match get_type j with
  | Object => Ret OBJECT
  | Array => Ret ARRAY
  | I64 => Ret INTEGER
  | U64 => Ret UNSIGNED_INTEGER
  | Double => Ret DOUBLE
  | String => Ret STRING
  | Literal => l ← get_literal j; Ret (match l with Some _ => BOOLEAN | None => NONE end)
  end.
End Code.

(** ** What the paths find in a tree *)

(** A member of a tree and the indices that lead to it. *)
Definition located : Type := list nat * jtree.

Definition under (i : nat) (l : list located) : list located := map (λ x, (i :: x.1, x.2)) l.
Definition members (f : jtree → list located) (ts : list jtree) : list located :=
  concat (imap (λ i c, under i (f c)) ts).
Definition member (f : jtree → list located) (ts : list jtree) (i : nat) : list located :=
  match ts !! i with Some c => under i (f c) | None => [] end.

Fixpoint tfind (ls : list local_pathLeg) (t : jtree) : list located :=
  match ls with
  | [] => [([], t)]
  | Index i :: sub =>
      match t with
      | JArray ts =>
          if i =? -1 then members (tfind sub) ts
          else if 0 <=? i then member (tfind sub) ts (Z.to_nat i) else []
      | _ => if i =? 0 then tfind sub t else []
      end
  | Key k :: sub =>
      match t with
      | JObject ks ts =>
          if bytes_eqb k LOCAL_PATH_EXPR_ASTERISK then members (tfind sub) ts
          else match find_name k ks with Some i => member (tfind sub) ts i | None => [] end
      | _ => []
      end
  | DoubleAsterisk :: sub => tfind sub t ++ members (tfind sub) (children t)
  end.

(** An index is an [i32]. *)
Definition leg_ok (l : local_pathLeg) : Prop :=
  match l with Index i => I32_MIN <= i <= I32_MAX | _ => True end.

Section Spec.
Context {N : NumberCodec}.

(** Where the bytes of a member start, and the slice it is. *)
Fixpoint addr (t : jtree) (π : list nat) : Z :=
  match π with
  | [] => 0
  | i :: π => coff t i + match children t !! i with Some c => addr c π | None => 0 end
  end.

Definition at_ (p : Z) (t : jtree) (x : located) : JsonRef := tref (p + addr t x.1) x.2.

Fixpoint tdepth (t : jtree) : nat :=
  match t with
  | JArray ts | JObject _ ts => S (list_max (map tdepth ts))
  | _ => 1
  end.

(** What [extract] returns. *)
Definition textract (t : jtree) (es : list local_pathExpression) : option jtree :=
  match concat (map (λ e, (tfind (legs e) t).*2) es) with
  | [] => None
  | c :: cs => Some (if (zlen es =? 1) && (zlen (c :: cs) =? 1) then c else JArray (c :: cs))
  end.
End Spec.

Section Refine.
Context {N : NumberCodec} {NL : NumberCodecLaws} {JW : JsonWriter} {WL : JsonWriterLaws}.

Lemma mapR_range {A B} (f : Z → rM B) (g : nat → A → B) ts :
  (∀ i c, ts !! i = Some c → f (Z.of_nat i) = okR (g i c)) →
  mapR f (range (zlen ts)) = okR (imap g ts).
Proof.
  intros H. unfold range. rewrite Nat2Z.id. revert f g H. induction ts as [|c ts IH]; intros f g H; [done|].
  cbn [length seq map mapR imap]. rewrite (H 0%nat c) by done. rewrite rbind_ok.
  rewrite <- seq_shift, map_map.
  pose proof (IH (λ z, f (z + 1)) (λ i, g (S i))) as IH'.
  assert (∀ l, mapR f (map (λ x, Z.of_nat (S x)) l) = mapR (λ z, f (z + 1)) (map Z.of_nat l)) as ->.
  { induction l as [|x l IHl]; cbn [map mapR]; [done|]. rewrite IHl.
    by replace (Z.of_nat (S x)) with (Z.of_nat x + 1) by lia. }
  rewrite IH'; [by rewrite rbind_ok|].
  intros i c' Hi. replace (Z.of_nat i + 1) with (Z.of_nat (S i)) by lia. by apply H.
Qed.

Lemma flatR_range {A B} (f : Z → rM (list B)) (g : nat → A → list B) ts :
  (∀ i c, ts !! i = Some c → f (Z.of_nat i) = okR (g i c)) →
  flatR f (range (zlen ts)) = okR (concat (imap g ts)).
Proof. intros H. unfold flatR. by rewrite (mapR_range f g), rbind_ok. Qed.

Lemma at_under p t i c l : children t !! i = Some c →
  map (at_ p t) (under i l) = map (at_ (p + coff t i) c) l.
Proof.
  intros Hi. unfold under. rewrite map_map. apply map_ext. intros [π d]. unfold at_. cbn. rewrite Hi.
  f_equal. lia.
Qed.

(** Going through the members, whatever reads them. *)
Lemma members_tree p t acc f (f' : jtree → list located) :
  (∀ i c, children t !! i = Some c → acc (Z.of_nat i) = okR (tref (p + coff t i) c)) →
  (∀ q c, c ∈ children t → f (tref q c) = okR (map (at_ q c) (f' c))) →
  flatR (λ k, e ←? acc k; f e) (range (zlen (children t))) = okR (map (at_ p t) (members f' (children t))).
Proof.
  intros Hacc Hf. rewrite (flatR_range _ (λ i c, map (at_ (p + coff t i) c) (f' c)) (children t)).
  - f_equal. f_equal. unfold members. rewrite concat_map. f_equal.
    change (map ?f ?l) with (f <$> l). rewrite fmap_imap. apply imap_ext. intros i c Hi. cbn. by rewrite (at_under p t i c).
  - intros i c Hi. rewrite (Hacc i c Hi), rbind_ok, Hf; [done|]. by eapply list_elem_of_lookup_2.
Qed.

Lemma member_tree p t acc f (f' : jtree → list located) i c :
  (∀ i c, children t !! i = Some c → acc (Z.of_nat i) = okR (tref (p + coff t i) c)) →
  (∀ q c, c ∈ children t → f (tref q c) = okR (map (at_ q c) (f' c))) → children t !! i = Some c →
  (e ←? acc (Z.of_nat i); f e) = okR (map (at_ p t) (member f' (children t) i)).
Proof.
  intros Hacc Hf Hi. rewrite (Hacc i c Hi), rbind_ok.
  rewrite Hf by (eapply list_elem_of_lookup_2; exact Hi).
  unfold member. by rewrite Hi, (at_under p t i c).
Qed.

Lemma array_acc p ts : jok (JArray ts) → ∀ i c, children (JArray ts) !! i = Some c →
  array_get_elem (tref p (JArray ts)) (Z.of_nat i) = okR (tref (p + coff (JArray ts) i) c).
Proof. intros. by apply array_get_elem_tree. Qed.

Lemma object_acc p ks ts : jok (JObject ks ts) → ∀ i c, children (JObject ks ts) !! i = Some c →
  object_get_val (tref p (JObject ks ts)) (Z.of_nat i) = okR (tref (p + coff (JObject ks ts) i) c).
Proof. intros. by apply object_get_val_tree. Qed.

Lemma as_u64_index i n : I32_MIN <= i <= I32_MAX → n <= U32_MAX →
  as_u64 i <? n = (0 <=? i) && (i <? n).
Proof.
  mach. intros Hi Hn. unfold as_u64. destruct (Z.leb_spec 0 i); cbn [andb].
  - by rewrite Z.mod_small by lia.
  - apply Z.ltb_ge. replace i with ((i + 18446744073709551616) + (-1) * 18446744073709551616) by lia.
    rewrite Z_mod_plus_full, Z.mod_small by lia. lia.
Qed.

Lemma as_u64_zero i : I32_MIN <= i <= I32_MAX → as_u64 i =? 0 = (i =? 0).
Proof.
  intros Hi. pose proof (as_u64_index i 1 Hi ltac:(mach; lia)) as H. unfold as_u64 in *.
  assert (0 <= i mod 18446744073709551616) by (apply Z.mod_pos_bound; lia).
  destruct (Z.ltb_spec (i mod 18446744073709551616) 1), (Z.leb_spec 0 i), (Z.ltb_spec i 1);
    cbn in H; try discriminate; destruct (Z.eqb_spec (i mod 18446744073709551616) 0), (Z.eqb_spec i 0); lia.
Qed.

Lemma children_count t : jok t → container t = true → zlen (children t) <= U32_MAX.
Proof.
  intros Ht Hc. pose proof (jok_size t Hc Ht) as Hs. rewrite (enc_layout _ Hc) in Hs.
  pose proof (layout_ge (names t) (map tcell (children t))) as Hg. rewrite length_map in Hg. lia.
Qed.

(** [extract_json] finds the members the path leads to, in order. *)
Lemma extract_json_tree ls : Forall leg_ok ls → ∀ p t, jok t →
  extract_json ls (tref p t) = okR (map (at_ p t) (tfind ls t)).
Proof.
  induction 1 as [|leg ls Hleg _ IH]; intros p t Ht; cbn [extract_json tfind map].
  { unfold at_. cbn. by rewrite Z.add_0_r. }
  assert (Hm : ∀ q c, c ∈ children t → extract_json ls (tref q c) = okR (map (at_ q c) (tfind ls c))).
  { intros q c Hc. apply IH. pose proof (jok_children _ Ht) as Hk. apply list_elem_of_lookup in Hc as [i Hi]. by eapply Forall_lookup_1. }
  assert (Hself := IH p t Ht).
  destruct leg as [i|k|]; cbn [leg_ok] in Hleg.
  - destruct t as [| | | | | |ts|ks ts]; cbn [get_type tref ttype];
      try (rewrite as_u64_zero by done; by destruct (i =? 0)).
    rewrite (elem_count_tree p (JArray ts)) by done. cbn [liftR]. rewrite rbind_ok.
    unfold LOCAL_PATH_EXPR_ARRAY_INDEX_ASTERISK. destruct (i =? -1).
    { apply (members_tree p (JArray ts)); [by apply array_acc|done]. }
    rewrite as_u64_index by (done || by apply (children_count (JArray ts))).
    destruct (Z.leb_spec 0 i); cbn [andb]; [|done]. cbn [children]. destruct (Z.ltb_spec i (zlen ts)).
    + destruct (lookup_lt_is_Some_2 ts (Z.to_nat i)) as [c Hc]; [lia|].
      rewrite as_u64_id by (mach; lia). rewrite <- (Z2Nat.id i) at 1 by lia.
      by apply (member_tree p (JArray ts) _ _ _ _ c (array_acc p ts Ht)).
    + unfold member. by rewrite lookup_ge_None_2 by lia.
  - destruct t as [| | | | | | |ks ts]; cbn [get_type tref ttype]; try done.
    destruct (bytes_eqb k LOCAL_PATH_EXPR_ASTERISK).
    { rewrite (elem_count_tree p (JObject ks ts)) by done. cbn [liftR]. rewrite rbind_ok.
      apply (members_tree p (JObject ks ts)); [by apply object_acc|done]. }
    rewrite search_tree by done. cbn [liftR]. rewrite rbind_ok.
    destruct (find_name k ks) as [i|] eqn:Ef; cbn; [|done].
    assert (Hs : StronglySorted bytes_lt ks) by (by inversion Ht).
    apply (find_name_Some _ _ _ Hs) in Ef. apply lookup_lt_Some in Ef. pose proof (jok_names _ Ht eq_refl) as Hl. cbn in Hl. rewrite Hl in Ef.
    destruct (lookup_lt_is_Some_2 ts i) as [c Hc]; [done|].
    by apply (member_tree p (JObject ks ts) _ _ _ _ c (object_acc p ks ts Ht)).
  - rewrite Hself, rbind_ok, map_app. destruct (container t) eqn:Hc; [|by destruct t].
    destruct t; try done; cbn [get_type tref ttype]; rewrite elem_count_tree by done;
      cbn [liftR]; rewrite rbind_ok.
    + by rewrite (members_tree p _ _ _ _ (array_acc p _ Ht) Hm), rbind_ok.
    + by rewrite (members_tree p _ _ _ _ (object_acc p _ _ Ht) Hm), rbind_ok.
Qed.

(** ** Extraction *)

Lemma find_ok ls : ∀ t x, jok t → x ∈ tfind ls t → jok x.2.
Proof.
  assert (Hmem : ∀ (f : jtree → list located) ts x, Forall jok ts →
    (∀ t x, jok t → x ∈ f t → jok x.2) → x ∈ members f ts → jok x.2).
  { intros f ts x Hts Hf Hx. apply list_elem_of_In, List.in_concat in Hx as (l & Hl%list_elem_of_In & Hx%list_elem_of_In).
    apply elem_of_lookup_imap in Hl as (i & c & -> & Hc). apply list_elem_of_fmap in Hx as (y & -> & Hy).
    eapply (Hf c y); [|done]. by eapply Forall_lookup_1. }
  assert (Hone : ∀ (f : jtree → list located) ts i x, Forall jok ts →
    (∀ t x, jok t → x ∈ f t → jok x.2) → x ∈ member f ts i → jok x.2).
  { intros f ts i x Hts Hf Hx. unfold member in Hx. destruct (ts !! i) as [c|] eqn:Hc; [|by apply elem_of_nil in Hx].
    apply list_elem_of_fmap in Hx as (y & -> & Hy). eapply (Hf c y); [|done]. by eapply Forall_lookup_1. }
  induction ls as [|[i|k|] ls IH]; intros t x Ht Hx; pose proof (jok_children t Ht) as Hk; cbn [tfind] in Hx.
  - by apply list_elem_of_singleton in Hx as ->.
  - destruct t; cbn [children] in Hk;
      repeat match type of Hx with context [if ?b then _ else _] => destruct b end; eauto; by apply elem_of_nil in Hx.
  - destruct t; cbn [children] in Hk; try (by apply elem_of_nil in Hx).
    destruct (bytes_eqb k LOCAL_PATH_EXPR_ASTERISK); [eauto|].
    destruct (find_name k ks); [eauto|by apply elem_of_nil in Hx].
  - apply elem_of_app in Hx as [Hx|Hx]; eauto.
Qed.

Lemma extract_list p t es : jok t → Forall (λ e, Forall leg_ok (legs e)) es →
  flatR (λ e, extract_json (legs e) (tref p t)) es = okR (map (at_ p t) (concat (map (λ e, tfind (legs e) t) es))).
Proof.
  intros Ht Hes. unfold flatR. rewrite (mapR_ok _ (λ e, map (at_ p t) (tfind (legs e) t))).
  - rewrite rbind_ok. f_equal. f_equal. rewrite concat_map, map_map. done.
  - intros e He. apply extract_json_tree; [|done]. apply list_elem_of_lookup in He as [i Hi]. by eapply (Forall_lookup_1 _ _ _ _ Hes).
Qed.

Lemma snd_find t es :
  (concat (map (λ e, tfind (legs e) t) es)).*2 = concat (map (λ e, (tfind (legs e) t).*2) es).
Proof. change (map snd (concat (map (λ e, tfind (legs e) t) es)) = concat (map (λ e, map snd (tfind (legs e) t)) es)).
  by rewrite concat_map, map_map. Qed.

Lemma extract_tree p t es : jok t → Forall (λ e, Forall leg_ok (legs e)) es →
  (∀ cs, textract t es = Some (JArray cs) → zlen (enc (JArray cs)) <= U32_MAX) →
  extract (tref p t) es = okR (tjson <$> textract t es).
Proof.
  intros Ht Hes Hsize. unfold extract. rewrite extract_list, rbind_ok by done.
  unfold textract in *. rewrite <- snd_find in *.
  destruct (concat (map (λ e, tfind (legs e) t) es)) as [|[π c] l] eqn:E; [done|].
  cbn [map fmap list_fmap snd] in *. change (at_ p t (π, c)) with (tref (p + addr t π) c).
  assert (zlen (tref (p + addr t π) c :: map (at_ p t) l) = zlen (c :: l.*2)) as ->.
  { cbn [length]. by rewrite length_map, length_fmap. }
  destruct ((zlen es =? 1) && (zlen (c :: l.*2) =? 1)) eqn:Eb; [done|].
  specialize (Hsize _ eq_refl). unfold from_array.
  assert (map json_cell (to_owned (tref (p + addr t π) c) :: map to_owned (map (at_ p t) l)) = map tcell (c :: l.*2)) as Ec.
  { cbn [map]. f_equal. rewrite !map_map. done. }
  rewrite write_jsons; rewrite Ec; [done|done].
Qed.

(** ** Depth *)

Lemma max_of_range f d n : (∀ i, (i < n)%nat → f (Z.of_nat i) = okR (Z.of_nat (d i))) →
  max_of f (Z.of_nat n) = okR (Z.of_nat (list_max (map d (seq 0 n)))).
Proof.
  unfold max_of, range. rewrite Nat2Z.id. induction n as [|n IH]; intros H; [done|].
  rewrite seq_S, !map_app, fold_left_app, IH by (intros; apply H; lia). cbn [map fold_left].
  rewrite rbind_ok, Nat.add_0_l, H, rbind_ok by lia. f_equal. f_equal. rewrite list_max_app. cbn.
  destruct (Z.ltb_spec (Z.of_nat (list_max (map d (seq 0 n)))) (Z.of_nat (d n))); lia.
Qed.

Lemma max_members f ts (acc : Z → rM JsonRef) p t : children t = ts →
  (∀ i c, ts !! i = Some c → acc (Z.of_nat i) = okR (tref (p + coff t i) c)) →
  (∀ q c, c ∈ ts → f (tref q c) = okR (Z.of_nat (tdepth c))) →
  max_of (λ i, e ←? acc i; f e) (zlen ts) = okR (Z.of_nat (list_max (map tdepth ts))).
Proof.
  intros Et Hacc Hf. rewrite (max_of_range _ (λ i, default 0%nat (tdepth <$> ts !! i))).
  - do 4 f_equal. apply list_eq. intros i. change (map ?g ?l) with (g <$> l). rewrite !list_lookup_fmap.
    destruct (ts !! i) as [c|] eqn:Ec.
    + rewrite lookup_seq_lt by (by eapply lookup_lt_Some). cbn. by rewrite Ec.
    + rewrite lookup_seq_ge by (by apply lookup_ge_None). done.
  - intros i Hi. destruct (lookup_lt_is_Some_2 ts i Hi) as [c Hc].
    rewrite (Hacc i c Hc), rbind_ok, Hf, Hc by (by eapply list_elem_of_lookup_2). done.
Qed.

(** A member's bytes are part of the document: the document is deeper than its tree. *)
Lemma bodies_ge cs c : c ∈ cs → zlen (body c) <= zlen (bodies cs).
Proof.
  intros Hc. apply list_elem_of_split in Hc as (c1 & c2 & ->). rewrite bodies_app.
  change (bodies (c :: c2)) with (body c ++ bodies c2). rewrite !length_app. lia.
Qed.

Lemma list_max_bound l n : (∀ x, x ∈ l → x <= n)%nat → (list_max l <= n)%nat.
Proof.
  intros H. apply list_max_le, List.Forall_forall. intros x Hx. apply H. by apply list_elem_of_In.
Qed.

Lemma depth_bound t : Z.of_nat (tdepth t) <= 1 + zlen (body (tcell t)).
Proof.
  assert (Hc : ∀ ks ts, Forall (λ t, Z.of_nat (tdepth t) <= 1 + zlen (body (tcell t))) ts →
    Z.of_nat (S (list_max (map tdepth ts))) <= 1 + zlen (layout ks (map tcell ts))).
  { intros ks ts IH. assert (list_max (map tdepth ts) <= Z.to_nat (1 + zlen (bodies (map tcell ts))))%nat as Hm.
    { apply list_max_bound. intros x Hx. apply list_elem_of_fmap in Hx as (c & -> & Hc).
      apply list_elem_of_lookup in Hc as [i Hi]. pose proof (Forall_lookup_1 _ _ _ _ IH Hi) as H. cbn in H.
      assert (tcell c ∈ map tcell ts) by (apply list_elem_of_fmap; exists c; split; [done|by eapply list_elem_of_lookup_2]).
      pose proof (bodies_ge (map tcell ts) (tcell c) ltac:(done)). lia. }
    rewrite layout_length. unfold lsize, start. lia. }
  induction t using jtree_rect'; try (cbn; lia).
  - apply (Hc [] ts). done.
  - apply (Hc ks ts). done.
Qed.

Lemma depth_child t i c : container t = true → children t !! i = Some c → (tdepth c < tdepth t)%nat.
Proof.
  intros Hc Hi. assert (tdepth t = S (list_max (map tdepth (children t)))) as -> by (by destruct t).
  assert (list_max (map tdepth (children t)) <= list_max (map tdepth (children t)))%nat as H by done.
  apply list_max_le in H. rewrite List.Forall_map in H. pose proof (Forall_lookup_1 _ _ _ _ H Hi) as H'. cbn in H'. lia.
Qed.

Lemma fuel_enough t : (tdepth t <= S (length (enc t)))%nat.
Proof.
  pose proof (depth_bound t) as Hb. assert (zlen (body (tcell t)) <= zlen (enc t)) by (destruct t; cbn; lia). lia.
Qed.

Lemma depth_small t : jok t → Z.of_nat (tdepth t) <= I64_MAX.
Proof.
  intros Ht. destruct (container t) eqn:Hc; [|destruct t; try done; cbn; mach; lia].
  pose proof (jok_size t Hc Ht) as Hs. pose proof (depth_bound t) as Hb.
  assert (body (tcell t) = enc t) as E by (by destruct t). rewrite E in Hb. mach. lia.
Qed.

Lemma depth_json_tree t : jok t → ∀ p fuel, (tdepth t <= fuel)%nat →
  depth_json fuel (tref p t) = okR (Z.of_nat (tdepth t)).
Proof.
  assert (Hmem : ∀ ts fuel, Forall (λ t, jok t → ∀ p fuel, (tdepth t <= fuel)%nat →
    depth_json fuel (tref p t) = okR (Z.of_nat (tdepth t))) ts → Forall jok ts →
    (list_max (map tdepth ts) <= fuel)%nat →
    ∀ q c, c ∈ ts → depth_json fuel (tref q c) = okR (Z.of_nat (tdepth c))).
  { intros ts fuel IH Hk Hf q c Hc. apply list_elem_of_lookup in Hc as [i Hi].
    apply (Forall_lookup_1 _ _ _ _ IH Hi); [by eapply Forall_lookup_1|].
    apply list_max_le in Hf. rewrite List.Forall_map in Hf. by apply (Forall_lookup_1 _ _ _ _ Hf Hi). }
  induction t as [| | | | | |ts IH|ks ts IH] using jtree_rect'; intros Ht p [|fuel] Hf;
    try (cbn in Hf; lia); try done; cbn [tdepth] in Hf; pose proof (jok_children _ Ht) as Hk;
    pose proof (depth_small _ Ht) as Hd; cbn [tdepth] in Hd; cbn [depth_json get_type tref ttype];
    fold (tref p (JArray ts)) in *; rewrite elem_count_tree by done; cbn [liftR]; rewrite rbind_ok.
  - rewrite (max_members _ ts _ p (JArray ts) eq_refl (array_acc p ts Ht)) by (apply Hmem; auto; lia).
    rewrite rbind_ok, i64_ok by (mach; lia). cbn [liftR tdepth]. f_equal. f_equal. lia.
  - rewrite (max_members _ ts _ p (JObject ks ts) eq_refl (object_acc p ks ts Ht)) by (apply Hmem; auto; lia).
    rewrite rbind_ok, i64_ok by (mach; lia). cbn [liftR tdepth]. f_equal. f_equal. lia.
Qed.

(** [depth] returns, and returns the depth of the value: one for a scalar or an
    empty container, one more than the deepest member otherwise. *)
Theorem depth_exact p t : jok t → depth (tref p t) = okR (Z.of_nat (tdepth t)).
Proof.
  intros Ht. apply depth_json_tree; [done|apply fuel_enough].
Qed.

(** C6. [extract] returns what the paths find in the value: nothing, the only
    member one path leads to, or the array of the members, in order. *)
Theorem extract_exact p t es : jok t → Forall (λ e, Forall leg_ok (legs e)) es →
  (∀ cs, textract t es = Some (JArray cs) → zlen (enc (JArray cs)) <= U32_MAX) →
  extract (tref p t) es = okR (tjson <$> textract t es).
Proof. apply extract_tree. Qed.
End Refine.
