(* ===== verification/JsonModify.v ===== *)
(** * JsonModify: changing a document in place of a member

    [BinaryModifier] of [modifier.rs], [modify] of [json_modify.rs] and [remove] of
    [json_remove.rs] ([berolinasql/src]).  The member to change is remembered by its
    address, here its offset in the document; the document is then copied, with the new
    bytes in place of that member and the entries and sizes around it rewritten. *)
From Stdlib Require Import ZArith Lia.
From stdpp Require Import base list numbers.
From S2P Require Import Prelude EvalCtx Slice JsonBinary JsonExtract.
#[local] Open Scope Z_scope.
#[local] Open Scope rM_scope.

#[local] Notation zlen l := (Z.of_nat (length l)).

(** The fields of the modifier the code uses; a null pointer is [None]. *)
Record BinaryModifier := mkModifier {
  old : JsonRef;
  to_be_modified_ptr : option Z;
  new_causet_locale : option Json;
}.

Definition BinaryModifier_new (j : JsonRef) : BinaryModifier := mkModifier j None None.
Definition with_old (m : BinaryModifier) (j : JsonRef) : BinaryModifier :=
  mkModifier j (to_be_modified_ptr m) (new_causet_locale m).
Definition with_change (m : BinaryModifier) (ptr : Z) (n : Json) : BinaryModifier :=
  mkModifier (old m) (Some ptr) (Some n).

Inductive ModifyType := UnCausetLocaleNucleon | Insert | Replace | Set_.

Section Modify.
Context {N : NumberCodec} {JW : JsonWriter}.

(** ** Copying *)

Definition rebuilt : Type := JsonType * BinaryModifier * list Z.

(** What is copied before the members: the header, the entries and the names; with
    the position of the members' entries. *)
Definition rebuild_head (current : JsonRef) (elem_count : Z) : rM (Z * list Z) :=
  let v := causet_locale current in
  match get_type current with
  | Array =>
      hd ←? liftR (slice v 0 (HEADER_LEN + elem_count * VALUE_ENTRY_LEN));
      okR (HEADER_LEN, hd)
  | Object =>
      hd ←? liftR (slice v 0 (HEADER_LEN + elem_count * (KEY_ENTRY_LEN + VALUE_ENTRY_LEN)));
      ids ←? (if 0 <? elem_count then
        let last := HEADER_LEN + (elem_count - 1) * KEY_ENTRY_LEN in
        a ←? liftR (slice_from v HEADER_LEN);
        first_soliton_id_offset ←? liftR (decode_u32_le a);
        b ←? liftR (slice_from v last);
        last_soliton_id_offset ←? liftR (decode_u32_le b);
        c ←? liftR (slice_from v (last + U32_LEN));
        last_soliton_id_len ←? liftR (decode_u16_le c);
        liftR (slice v first_soliton_id_offset (last_soliton_id_offset + last_soliton_id_len))
      else okR []);
      okR (HEADER_LEN + elem_count * KEY_ENTRY_LEN, hd ++ ids)
  | _ => errR Other
  end.

(** One turn of the loop over the members: [rec] copies the member. *)
Definition rebuild_member (rec : BinaryModifier → list Z → rM rebuilt) (current : JsonRef)
    (doc_off val_causet_start : Z) (st : BinaryModifier * list Z) (i : Z) : rM (BinaryModifier * list Z) :=
  let '(m, buf) := st in
  let val_causet_offset := val_causet_start + i * VALUE_ENTRY_LEN in
  child ←? val_causet_get current val_causet_offset;
  let val_offset := zlen buf - doc_off in
  '(new_tp, m, buf) ←? rec (with_old m child) buf;
  buf ←? liftR (put_at buf (doc_off + val_causet_offset) [type_code new_tp]);
  match new_tp with
  | Literal =>
      let last_idx := zlen buf - 1 in
      val ←? liftR (get buf last_idx);
      buf ←? liftR (put_at buf (doc_off + val_causet_offset + TYPE_LEN) (encode_u32_le val));
      okR (m, take (Z.to_nat last_idx) buf)
  | _ =>
      buf ←? liftR (put_at buf (doc_off + val_causet_offset + TYPE_LEN) (encode_u32_le (as_u32 val_offset)));
      okR (m, buf)
  end.

Fixpoint rebuild_to (fuel : nat) (m : BinaryModifier) (buf : list Z) : rM rebuilt :=
  match fuel with
  | O => Panic
  | S fuel =>
      if bool_decide (to_be_modified_ptr m = Some (as_ptr (old m))) then
        match new_causet_locale m with
        | None => Panic
        | Some n => okR (json_type n, mkModifier (old m) None (Some n), buf ++ json_bytes n)
        end
      else if bool_decide (to_be_modified_ptr m = None) then
        okR (get_type (old m), m, buf ++ causet_locale (old m))
      else
        let tp := get_type (old m) in
        match tp with
        | Literal | I64 | U64 | Double | String => okR (tp, m, buf ++ causet_locale (old m))
        | Object | Array =>
            let doc_off := zlen buf in
            let current := old m in
            elem_count ←? liftR (get_elem_count current);
            '(val_causet_start, hd) ←? rebuild_head current elem_count;
            '(m, buf) ←? foldR (rebuild_member (rebuild_to fuel) current doc_off val_causet_start)
                           (m, buf ++ hd) (range elem_count);
            let data_len := zlen buf - doc_off in
            buf ←? liftR (put_at buf (doc_off + ELEMENT_COUNT_LEN) (encode_u32_le (as_u32 data_len)));
            okR (tp, m, buf)
        end
  end.

(** A document is nested less deep than it is long. *)
Definition rebuild (m : BinaryModifier) : rM Json :=
  '(new_tp, _, buf) ←? rebuild_to (S (length (causet_locale (old m)))) m [];
  okR (mkJson new_tp buf).

(** ** Choosing the change *)

(** [for i in 0..n { elems.push(node.array_get_elem(i)?) }] and its like for objects. *)
Definition array_elems (node : JsonRef) (n : Z) : rM (list JsonRef) :=
  mapR (array_get_elem node) (range n).

Definition object_entry (node : JsonRef) (i : Z) : rM (list Z * JsonRef) :=
  k ←? liftR (object_get_soliton_id node i);
  v ←? object_get_val node i;
  okR (k, v).

(** The last leg of a path and the legs before it. *)
Definition split_last (l : list local_pathLeg) : option (list local_pathLeg * local_pathLeg) :=
  match reverse l with [] => None | x :: r => Some (reverse r, x) end.

Definition do_insert (m : BinaryModifier) (local_path_legs : list local_pathLeg) (new : Json) : rM BinaryModifier :=
  match split_last local_path_legs with
  | None => okR m
  | Some (parent_legs, last_leg) =>
      result ←? extract_json parent_legs (old m);
      match result with
      | [] => okR m
      | parent_node :: _ =>
          match last_leg with
          | Index _ =>
              match get_type parent_node with
              | Array =>
                  elem_count ←? liftR (get_elem_count parent_node);
                  elems ←? array_elems parent_node elem_count;
                  a ←? from_ref_array (elems ++ [as_ref new]);
                  okR (with_change m (as_ptr parent_node) a)
              | _ =>
                  a ←? from_ref_array [parent_node; as_ref new];
                  okR (with_change m (as_ptr parent_node) a)
              end
          | Key insert_soliton_id =>
              match get_type parent_node with
              | Object =>
                  elem_count ←? liftR (get_elem_count parent_node);
                  found ←? liftR (object_search_soliton_id parent_node insert_soliton_id);
                  entries ←? match found with
                    | Some insert_idx =>
                        flatR (λ i, e ←? object_entry parent_node i;
                          okR ((if insert_idx =? i then [(insert_soliton_id, as_ref new)] else []) ++ [e]))
                          (range elem_count)
                    | None =>
                        es ←? mapR (object_entry parent_node) (range elem_count);
                        okR (es ++ [(insert_soliton_id, as_ref new)])
                    end;
                  o ←? from_kv_pairs entries;
                  okR (with_change m (as_ptr parent_node) o)
              | _ => okR m
              end
          | DoubleAsterisk => okR m
          end
      end
  end.

Definition do_remove (m : BinaryModifier) (local_path_legs : list local_pathLeg) : rM BinaryModifier :=
  match split_last local_path_legs with
  | None => okR m
  | Some (parent_legs, last_leg) =>
      result ←? extract_json parent_legs (old m);
      match result with
      | [] => okR m
      | parent_node :: _ =>
          match last_leg, get_type parent_node with
          | Index remove_idx, Array =>
              elems_count ←? liftR (get_elem_count parent_node);
              _ ←? liftR (usize (elems_count - 1));
              elems ←? flatR (λ i, if i =? as_u64 remove_idx then okR []
                                   else e ←? array_get_elem parent_node i; okR [e]) (range elems_count);
              a ←? from_ref_array elems;
              okR (with_change m (as_ptr parent_node) a)
          | Key remove_soliton_id, Object =>
              elem_count ←? liftR (get_elem_count parent_node);
              _ ←? liftR (usize (elem_count - 1));
              entries ←? flatR (λ i, k ←? liftR (object_get_soliton_id parent_node i);
                  if bytes_eqb k remove_soliton_id then okR []
                  else v ←? object_get_val parent_node i; okR [(k, v)]) (range elem_count);
              o ←? from_kv_pairs entries;
              okR (with_change m (as_ptr parent_node) o)
          | _, _ => okR m
          end
      end
  end.

(** ** The operations *)

Definition set (m : BinaryModifier) (local_path : local_pathExpression) (new : Json) : rM Json :=
  result ←? extract_json (legs local_path) (old m);
  match result with
  | j :: _ => rebuild (with_change m (as_ptr j) new)
  | [] => m ←? do_insert m (legs local_path) new; rebuild m
  end.

Definition replace (m : BinaryModifier) (local_path : local_pathExpression) (new : Json) : rM Json :=
  result ←? extract_json (legs local_path) (old m);
  match result with
  | [] => okR (to_owned (old m))
  | j :: _ => rebuild (with_change m (as_ptr j) new)
  end.

Definition insert (m : BinaryModifier) (local_path : local_pathExpression) (new : Json) : rM Json :=
  result ←? extract_json (legs local_path) (old m);
  match result with
  | _ :: _ => okR (to_owned (old m))
  | [] => m ←? do_insert m (legs local_path) new; rebuild m
  end.

Definition remove_legs (m : BinaryModifier) (local_path_legs : list local_pathLeg) : rM Json :=
  result ←? extract_json local_path_legs (old m);
  match result with
  | [] => okR (to_owned (old m))
  | _ :: _ => m ←? do_remove m local_path_legs; rebuild m
  end.

(** The type [UnCausetLocaleNucleon] has no arm: the modelled call is with one that has. *)
Definition modify_one (mt : ModifyType) (res : Json) (e : local_pathExpression) (v : Json) : rM Json :=
  let modifier := BinaryModifier_new (as_ref res) in
  match mt with
  | Insert => insert modifier e v
  | Replace => replace modifier e v
  | Set_ => set modifier e v
  | UnCausetLocaleNucleon => Panic
  end.

Definition modify (j : JsonRef) (local_path_expr_list : list local_pathExpression)
    (causet_locales : list Json) (mt : ModifyType) : rM Json :=
  if negb (zlen local_path_expr_list =? zlen causet_locales) then errR Other
  else if existsb contains_any_asterisk local_path_expr_list then errR Other
  else foldR (λ res '(e, v), modify_one mt res e v) (to_owned j)
         (zip local_path_expr_list causet_locales).

Definition remove (j : JsonRef) (local_path_expr_list : list local_pathExpression) : rM Json :=
  if existsb (λ e, bool_decide (legs e = []) || contains_any_asterisk e) local_path_expr_list then errR Other
  else foldR (λ res e, remove_legs (BinaryModifier_new (as_ref res)) (legs e)) (to_owned j)
         local_path_expr_list.

End Modify.
