(* ===== verification/JsonRebuild.v ===== *)
(** * JsonRebuild: the writers produce the documents of trees, and the copy replaces a member

    [write_json_obj_from_soliton_ids_causet_locales] sorts its entries and lays them
    out: from references to members of trees it writes the document of the object, as
    the array writer does for arrays.  Positions of members in a document, and what
    [rebuild_to] of [JsonModify] writes: the document itself when the remembered address
    is elsewhere, the document of the updated tree when it is that of a member. *)
From Stdlib Require Import ZArith Lia Sorted.
From stdpp Require Import base list numbers.
From S2P Require Import Prelude EvalCtx Slice JsonBinary JsonTree JsonExtract JsonModify.
#[local] Open Scope Z_scope.
#[local] Open Scope rM_scope.

#[local] Notation zlen l := (Z.of_nat (length l)).

Section Write.
Context {N : NumberCodec} {NL : NumberCodecLaws} {JW : JsonWriter} {WL : JsonWriterLaws}.

Lemma write_soliton_id_entries_spec ks : ∀ off, 0 <= off → off + zlen (concat ks) <= U32_MAX →
  Forall (λ k, zlen k <= U16_MAX) ks → write_soliton_id_entries off ks = kentries off ks.
Proof.
  induction ks as [|k ks IH]; intros off Ho Hoff Hk; cbn [write_soliton_id_entries kentries]; [done|].
  apply Forall_cons_1 in Hk as [Hk Hks]. cbn [concat] in Hoff. rewrite length_app in Hoff.
  rewrite u32_le, u16_le, as_u32_id, IH by (done || lia).
  rewrite Z.mod_small; [done|]. unfold U16_MAX in Hk. lia.
Qed.

Lemma write_val_entries_spec vs : ∀ buf off, 0 <= off →
  off + zlen (bodies (map ref_cell vs)) <= U32_MAX →
  write_val_entries buf off vs
  = (buf ++ ventries off (map ref_cell vs), off + zlen (bodies (map ref_cell vs))).
Proof.
  induction vs as [|v vs IH]; intros buf off Ho Hoff; cbn [write_val_entries map ventries].
  { rewrite app_nil_r. f_equal. cbn. lia. }

  change (map ref_cell (v :: vs)) with (ref_cell v :: map ref_cell vs) in Hoff.
  rewrite bodies_cons, length_app in *. rewrite write_entry by lia. rewrite IH by lia.
  rewrite <- app_assoc. f_equal. lia.
Qed.

Lemma sum_lengths {A} (g : A → Z) (l : list A) : ∀ a, fold_left (λ acc e, acc + g e) l a = a + foldr Z.add 0 (map g l).
Proof. induction l as [|x l IH]; intros a; cbn; [lia|]. rewrite IH. lia. Qed.

Lemma sum_concat {A} (f : A → list Z) (l : list A) : foldr Z.add 0 (map (λ e, zlen (f e)) l) = zlen (concat (map f l)).
Proof. induction l as [|x l IH]; cbn; [done|]. rewrite length_app, IH. lia. Qed.

Lemma encoded_len_body j : encoded_len j = zlen (body (ref_cell j)).
Proof. unfold encoded_len, body, ref_cell. cbn. by destruct (get_type j). Qed.

(** Laying out sorted entries. *)
Lemma write_sorted es : sort_entries es = es → Forall (λ k, zlen k <= U16_MAX) es.*1 →
  zlen (layout es.*1 (map ref_cell es.*2)) <= U32_MAX →
  write_json_obj_from_soliton_ids_causet_locales [] es = layout es.*1 (map ref_cell es.*2).
Proof.
  intros Hs Hk Hl. unfold write_json_obj_from_soliton_ids_causet_locales. rewrite Hs. cbv zeta.
  set (ks := es.*1) in *. set (cs := map ref_cell es.*2) in *.
  assert (L1 : zlen es = zlen ks) by (unfold ks; by rewrite length_fmap).
  assert (L2 : zlen es = zlen cs) by (unfold cs; by rewrite length_map, length_fmap).
  pose proof Hl as Hl'. rewrite layout_length in Hl'. unfold lsize in Hl'.
  assert (Est : ELEMENT_COUNT_LEN + SIZE_LEN + KEY_ENTRY_LEN * zlen es + VALUE_ENTRY_LEN * zlen es = start ks cs)
    by (unfold start, ELEMENT_COUNT_LEN, SIZE_LEN, KEY_ENTRY_LEN, VALUE_ENTRY_LEN, KEY_OFFSET_LEN, KEY_LEN_LEN,
        TYPE_LEN, U32_LEN, U16_LEN; lia).
  rewrite !Est. assert (0 <= start ks cs) by (unfold start; lia).
  assert (Ekv : fold_left (λ acc (e : list Z * JsonRef), acc + zlen e.1 + encoded_len e.2) es 0
                = zlen (concat ks) + zlen (bodies cs)).
  { assert (∀ a, fold_left (λ acc (e : list Z * JsonRef), acc + zlen e.1 + encoded_len e.2) es a
              = a + (zlen (concat ks) + zlen (bodies cs))) as ->; [|lia].
    unfold ks, cs. clear. induction es as [|[k v] es IH]; intros a; cbn [fold_left fmap list_fmap fst snd map concat].
    - cbn. lia.
    - rewrite IH, encoded_len_body.
      change (bodies (ref_cell v :: map ref_cell es.*2)) with (body (ref_cell v) ++ bodies (map ref_cell es.*2)).
      rewrite !length_app. lia. }
  rewrite Ekv, (sum_lengths (λ e, zlen e.1)), (sum_concat fst). change (map fst es) with ks.
  rewrite write_soliton_id_entries_spec by (done || lia).
  rewrite (as_u32_id (start ks cs + zlen (concat ks))) by lia.
  rewrite write_val_entries_spec; fold cs; [|lia..].
  rewrite !u32_le, !as_u32_id by (unfold start in *; lia).
  unfold layout, lsize. rewrite L2. cbn [app]. rewrite <- !app_assoc, Z.add_assoc. repeat f_equal.
  unfold bodies, cs. change (es.*2) with (map snd es). by rewrite !map_map.
Qed.

(** ** Sorting *)

Lemma insert_entry_last e l : (∀ x, x ∈ l → bytes_lt x.1 e.1) → insert_entry e l = l ++ [e].
Proof.
  induction l as [|x l IH]; intros H; cbn; [done|].
  rewrite (proj2 (bytes_ltb_lt x.1 e.1)) by (apply H; constructor). cbn. f_equal. apply IH. intros. apply H. by constructor.
Qed.

Lemma sort_entries_snoc l e : sort_entries (l ++ [e]) = insert_entry e (sort_entries l).
Proof. unfold sort_entries. by rewrite fold_left_app. Qed.

Lemma sorted_snoc (l : list (list Z * JsonRef)) e : StronglySorted bytes_lt (l ++ [e]).*1 →
  StronglySorted bytes_lt l.*1 ∧ ∀ x, x ∈ l → bytes_lt x.1 e.1.
Proof.
  rewrite fmap_app. induction l as [|x l IH]; intros H; [split; [constructor|intros x Hx; by apply elem_of_nil in Hx]|].
  inversion H as [|? ? Hl Hx]; subst. destruct (IH Hl) as [Hs He].
  change (Forall (bytes_lt x.1) (l.*1 ++ [e].*1)) in Hx. apply Forall_app in Hx as [Hx1 Hx2%Forall_inv].
  split; [constructor; done|]. intros y [->|Hy]%elem_of_cons; [done|auto].
Qed.

Lemma sort_entries_sorted l : StronglySorted bytes_lt l.*1 → sort_entries l = l.
Proof.
  induction l as [|e l IH] using rev_ind; intros H; [done|].
  apply sorted_snoc in H as [Hs He]. rewrite sort_entries_snoc, IH by done. by apply insert_entry_last.
Qed.

(** ** Members of trees *)

(** Values laid out as trees. *)
Definition stands (js : list JsonRef) (ts : list jtree) : Prop := map ref_cell js = map tcell ts.

Lemma from_ref_array_tree js ts : stands js ts → jok (JArray ts) → from_ref_array js = okR (tjson (JArray ts)).
Proof.
  intros Hs Ht. unfold from_ref_array. pose proof (jok_size (JArray ts) eq_refl Ht) as Hl.
  change (enc (JArray ts)) with (layout [] (map tcell ts)) in Hl. rewrite <- Hs in Hl.
  rewrite write_refs, rbind_ok by done. unfold stands in Hs. by rewrite Hs.
Qed.

Lemma from_kv_pairs_tree es es' ks ts : sort_entries es = es' → es'.*1 = ks → stands es'.*2 ts →
  jok (JObject ks ts) → from_kv_pairs es = okR (tjson (JObject ks ts)).
Proof.
  intros Hsort Hk Hs Ht. pose proof (jok_size (JObject ks ts) eq_refl Ht) as Hl. unfold stands in Hs.
  assert (Hss : StronglySorted bytes_lt es'.*1) by (subst ks; by inversion Ht).
  assert (Hsh : Forall (λ k, zlen k <= U16_MAX) es'.*1) by (subst ks; by inversion Ht).
  change (enc (JObject ks ts)) with (layout ks (map tcell ts)) in Hl. rewrite <- Hk, <- Hs in Hl.
  pose proof (write_sorted es' (sort_entries_sorted _ Hss) Hsh Hl) as E.
  unfold from_kv_pairs, tjson. cbn [ttype]. do 3 f_equal.
  change (enc (JObject ks ts)) with (layout ks (map tcell ts)). rewrite <- Hk, <- Hs, <- E.
  unfold write_json_obj_from_soliton_ids_causet_locales. by rewrite Hsort, (sort_entries_sorted _ Hss).
Qed.
End Write.


(** ** One member, then all of them *)

Section Copy.
Context {N : NumberCodec} {NL : NumberCodecLaws}.

Definition literal_ok (c : cell) : Prop := c.1 = Literal → ∃ v, c.2 = [v] ∧ 0 <= v <= 255.

(** The bytes of an entry are written over, whatever they were. *)
Lemma put_code (b0 pre e tail : list Z) x code :
  put_at (b0 ++ pre ++ (x :: e) ++ tail) (zlen b0 + zlen pre) [code] = Ret (b0 ++ pre ++ (code :: e) ++ tail).
Proof.
  rewrite (app_assoc b0). change ((x :: e) ++ tail) with ([x] ++ e ++ tail).
  rewrite put_at_mid by (rewrite ?length_app; done || lia). by rewrite <- !app_assoc.
Qed.

Lemma put_value (b0 pre e tail : list Z) code v : length e = 4%nat →
  put_at (b0 ++ pre ++ (code :: e) ++ tail) (zlen b0 + zlen pre + TYPE_LEN) (encode_u32_le v)
  = Ret (b0 ++ pre ++ (code :: le_bytes 4 v) ++ tail).
Proof.
  intros He. rewrite u32_le, (app_assoc b0). change ((code :: e) ++ tail) with ([code] ++ e ++ tail).
  rewrite (app_assoc (b0 ++ pre)), put_at_mid
    by (rewrite ?length_app, ?le_bytes_length; cbn [length]; unfold TYPE_LEN; lia).
  by rewrite <- !app_assoc.
Qed.

Lemma get_final (l : list Z) v : get (l ++ [v]) (zlen (l ++ [v]) - 1) = Ret v.
Proof.
  rewrite length_app. cbn [length]. apply get_ok; [|lia].
  replace (Z.to_nat _) with (length l) by lia. by apply list_lookup_middle.
Qed.

Lemma take_last (l l' : list Z) v : length l' = length l → take (Z.to_nat (zlen (l ++ [v]) - 1)) (l' ++ [v]) = l'.
Proof.
  intros E. rewrite length_app. cbn [length]. replace (Z.to_nat _) with (length l') by lia. by rewrite take_app_length.
Qed.

Lemma rebuild_member_spec rec cur b0 m m' pre e rest i vs child c :
  val_causet_get cur (vs + i * VALUE_ENTRY_LEN) = okR child →
  rec (with_old m child) (b0 ++ pre ++ e ++ rest) = okR (c.1, m', (b0 ++ pre ++ e ++ rest) ++ c.2) →
  zlen pre = vs + i * VALUE_ENTRY_LEN → length e = 5%nat → literal_ok c → zlen (pre ++ e ++ rest) <= U32_MAX →
  rebuild_member rec cur (zlen b0) vs (m, b0 ++ pre ++ e ++ rest) i
  = okR (m', b0 ++ pre ++ ventry (zlen (pre ++ e ++ rest)) c ++ rest ++ body c).
Proof.
  intros Hget Hrec Hpre He Hlit Hsz. unfold rebuild_member. rewrite Hget, rbind_ok, Hrec, rbind_ok, <- Hpre.
  replace (zlen (b0 ++ pre ++ e ++ rest) - zlen b0) with (zlen (pre ++ e ++ rest)) by (rewrite (length_app b0); lia).
  rewrite <- !app_assoc. unfold ventry. set (off := zlen (pre ++ e ++ rest)) in *.
  assert (Hoff : 0 <= off) by (unfold off; lia). clearbody off.
  destruct c as [tp b]. unfold literal_ok in Hlit. cbn [fst snd] in *.
  destruct e as [|x e]; [done|]. injection He as He. rewrite put_code. cbn [liftR]. rewrite rbind_ok.
  destruct (decide (tp = Literal)) as [->|Ht].
  - destruct (Hlit eq_refl) as (v & -> & Hv). cbv zeta.
    assert (Eb : ∀ f : list Z, b0 ++ pre ++ (type_code Literal :: f) ++ rest ++ [v]
      = (b0 ++ pre ++ (type_code Literal :: f) ++ rest) ++ [v]) by (intros; by rewrite <- !app_assoc).
    rewrite (Eb e) at 1 2. rewrite get_final. cbn [liftR]. rewrite rbind_ok, put_value by done. cbn [liftR]. rewrite rbind_ok.
    unfold body. cbn [fst snd default head from_option]. rewrite app_nil_r, !Eb, take_last; [done|].
    rewrite !length_app. cbn [length]. rewrite le_bytes_length. lia.
  - rewrite as_u32_id by lia. unfold body. cbn [fst snd].
    destruct tp; try done; rewrite put_value by done; cbn [liftR]; by rewrite rbind_ok.
Qed.

(** The turns of the loop over the members from the [i]-th, from one modifier to another. *)
Inductive copies (rec : BinaryModifier → list Z → rM rebuilt) (cur : JsonRef) (vs : Z) :
    nat → BinaryModifier → list cell → BinaryModifier → Prop :=
| copies_nil i m : copies rec cur vs i m [] m
| copies_cons i m child c m1 cs m2 :
    val_causet_get cur (vs + Z.of_nat i * VALUE_ENTRY_LEN) = okR child →
    (∀ buf, rec (with_old m child) buf = okR (c.1, m1, buf ++ c.2)) → literal_ok c →
    copies rec cur vs (S i) m1 cs m2 → copies rec cur vs i m (c :: cs) m2.

Lemma rebuild_loop rec cur b0 vs i m cs m' : copies rec cur vs i m cs m' → ∀ pre es rest,
  zlen pre = vs + Z.of_nat i * VALUE_ENTRY_LEN → zlen es = 5 * zlen cs →
  zlen (pre ++ es ++ rest) + zlen (bodies cs) <= U32_MAX →
  foldR (rebuild_member rec cur (zlen b0) vs) (m, b0 ++ pre ++ es ++ rest) (map Z.of_nat (seq i (length cs)))
  = okR (m', b0 ++ pre ++ ventries (zlen (pre ++ es ++ rest)) cs ++ rest ++ bodies cs).
Proof.
  induction 1 as [i m|i m child c m1 cs m2 Hget Hrec Hlit _ IH]; intros pre es rest Hpre Hes Hsz.
  { destruct es as [|? ?]; [|cbn [length] in Hes; lia]. cbn. by rewrite app_nil_r. }
  cbn [length seq map foldR]. cbn [length] in Hes. rewrite bodies_cons, (length_app (body c)) in Hsz.
  assert (∃ e es', es = e ++ es' ∧ length e = 5%nat ∧ zlen es' = 5 * zlen cs) as (e & es' & -> & He & Hes').
  { exists (take 5 es), (drop 5 es). rewrite take_drop, length_take, length_drop. split_and!; [done|lia|lia]. }
  rewrite <- (app_assoc e) in *.
  rewrite (rebuild_member_spec rec cur b0 m m1 pre e (es' ++ rest) _ vs child c) by (auto; lia).
  rewrite rbind_ok. set (off := zlen (pre ++ e ++ es' ++ rest)) in *.
  assert (Hv : length (ventry off c) = 5%nat) by (unfold ventry; cbn [length]; by rewrite le_bytes_length).
  assert (Eoff : zlen ((pre ++ ventry off c) ++ es' ++ rest ++ body c) = off + zlen (body c)).
  { rewrite !length_app, Hv. unfold off. rewrite !length_app. lia. }
  pose proof (IH (pre ++ ventry off c) es' (rest ++ body c)) as IH'. rewrite Eoff in IH'.
  rewrite <- !app_assoc in IH'. rewrite <- !app_assoc. rewrite IH'.
  - rewrite bodies_cons. cbn [ventries]. by rewrite <- !app_assoc.
  - rewrite length_app. unfold VALUE_ENTRY_LEN, TYPE_LEN, U32_LEN in *. lia.
  - done.
  - lia.
Qed.
(** ** A container *)

Definition header (ks : list (list Z)) (cs : list cell) : list Z :=
  le_bytes 4 (zlen cs) ++ le_bytes 4 (lsize ks cs) ++ kentries (start ks cs) ks.

Lemma header_length ks cs : zlen (header ks cs) = 8 + 6 * zlen ks.
Proof. unfold header. rewrite !length_app, !le_bytes_length, !Nat2Z.inj_add, kentries_length. lia. Qed.

Lemma layout_header ks cs : layout ks cs
  = (header ks cs ++ ventries (start ks cs + zlen (concat ks)) cs) ++ concat ks ++ bodies cs.
Proof. unfold layout, header. by rewrite <- !app_assoc. Qed.

(** The names, as the copy finds them: from the first offset to the end of the last. *)
Lemma names_slice ks cs : ks ≠ [] → zlen (layout ks cs) <= U32_MAX → Forall (λ k, zlen k <= U16_MAX) ks →
  (a ←? liftR (slice_from (layout ks cs) HEADER_LEN);
   first ←? liftR (decode_u32_le a);
   b ←? liftR (slice_from (layout ks cs) (HEADER_LEN + (zlen ks - 1) * KEY_ENTRY_LEN));
   last ←? liftR (decode_u32_le b);
   c ←? liftR (slice_from (layout ks cs) (HEADER_LEN + (zlen ks - 1) * KEY_ENTRY_LEN + U32_LEN));
   len ←? liftR (decode_u16_le c);
   liftR (slice (layout ks cs) first (last + len))) = okR (concat ks).
Proof.
  intros Hks Hsz Hsh. destruct (exists_last Hks) as (l & k & ->).
  assert (zlen k <= U16_MAX) by (by apply Forall_app in Hsh as [_ Hsh%Forall_inv]).
  assert (∃ k0 kr, l ++ [k] = k0 :: kr) as (k0 & kr & E0) by (destruct l; eauto).
  destruct (layout_soliton_id [] k0 kr cs) as (pre0 & post0 & _ & _ & F1 & F2 & _ & _). cbn [app] in F1, F2. rewrite <- E0 in F1.
  destruct (layout_soliton_id l k [] cs) as (pre & post & post2 & pre2 & E & Lp & E2 & Lp2).
  cbn [concat length] in F1, F2. rewrite Z.add_0_r in F1.
  pose proof Hsz as Hsz'. rewrite layout_length in Hsz'. unfold lsize in Hsz'. rewrite concat_app in Hsz'. cbn [concat] in Hsz'.
  rewrite app_nil_r, length_app in Hsz'.
  assert (0 <= start (l ++ [k]) cs) by (unfold start; lia).
  assert (Ec : slice (layout (l ++ [k]) cs) (start (l ++ [k]) cs)
                (start (l ++ [k]) cs + zlen (concat l) + zlen k) = Ret (concat (l ++ [k]))).
  { rewrite layout_header. apply slice_mid; rewrite ?length_app, ?concat_app, ?Nat2Z.inj_add, header_length, ventries_length;
      unfold start; rewrite ?length_app; cbn; rewrite ?app_nil_r, ?length_app; lia. }
  set (doc := layout (l ++ [k]) cs) in *. clearbody doc.
  rewrite F1 at 1. rewrite slice_from_mid by (rewrite F2; done). cbn [liftR]. rewrite rbind_ok, u32_back by lia.
  cbn [liftR]. rewrite rbind_ok.
  assert (HEADER_LEN + (zlen (l ++ [k]) - 1) * KEY_ENTRY_LEN = zlen pre) as ->.
  { rewrite Lp, length_app. cbn [length]. unfold HEADER_LEN, ELEMENT_COUNT_LEN, SIZE_LEN, KEY_ENTRY_LEN, KEY_OFFSET_LEN, KEY_LEN_LEN, U32_LEN, U16_LEN. lia. }
  rewrite E at 1. rewrite slice_from_mid by done. cbn [liftR]. rewrite rbind_ok, u32_back by lia.
  cbn [liftR]. rewrite rbind_ok, E at 1. rewrite (app_assoc pre), slice_from_mid by (rewrite length_app, le_bytes_length; unfold U32_LEN; lia).
  cbn [liftR]. rewrite rbind_ok, u16_back by lia. cbn [liftR]. rewrite rbind_ok, Ec. done.
Qed.

Lemma rebuild_head_tree p t : jok t → container t = true →
  rebuild_head (tref p t) (zlen (children t))
  = okR (8 + 6 * zlen (names t),
         header (names t) (map tcell (children t))
         ++ ventries (start (names t) (map tcell (children t)) + zlen (concat (names t))) (map tcell (children t))
         ++ concat (names t)).
Proof.
  intros Ht Hc. pose proof (jok_size t Hc Ht) as Hsz. rewrite (enc_layout _ Hc) in Hsz.
  unfold rebuild_head, tref. cbn [causet_locale get_type]. rewrite (enc_layout _ Hc).
  assert (Hhd : ∀ n, n = 8 + 6 * zlen (names t) + 5 * zlen (children t) →
    slice (layout (names t) (map tcell (children t))) 0 n
    = Ret (header (names t) (map tcell (children t))
           ++ ventries (start (names t) (map tcell (children t)) + zlen (concat (names t))) (map tcell (children t)))).
  { intros n ->. rewrite layout_header. apply (slice_mid []); [done|].
    rewrite length_app, Nat2Z.inj_add, header_length, ventries_length, length_map. cbn. lia. }
  destruct t as [| | | | | |ts|ks ts]; try done; cbn [ttype names children] in *.
  - rewrite Hhd; [cbn [liftR]; rewrite rbind_ok; cbn [concat]; by rewrite app_nil_r|].
    unfold HEADER_LEN, ELEMENT_COUNT_LEN, SIZE_LEN, VALUE_ENTRY_LEN, TYPE_LEN, U32_LEN. cbn. lia.
  - pose proof (jok_names _ Ht eq_refl) as Hl. cbn in Hl.
    rewrite Hhd by (rewrite Hl; unfold HEADER_LEN, ELEMENT_COUNT_LEN, SIZE_LEN, KEY_ENTRY_LEN, KEY_OFFSET_LEN, KEY_LEN_LEN, VALUE_ENTRY_LEN, TYPE_LEN, U32_LEN, U16_LEN; lia).
    cbn [liftR]. rewrite rbind_ok. cbv zeta. rewrite <- Hl. destruct ks as [|k ks].
    + change (0 <? zlen []) with false. cbv iota. rewrite rbind_ok. cbn [concat]. by rewrite !app_nil_r.
    + rewrite (proj2 (Z.ltb_lt _ _)) by (cbn [length]; lia). inversion Ht as [| | | | | | |? ? _ _ _ Hsh _]; subst.
      rewrite names_slice by done. rewrite rbind_ok, <- app_assoc. f_equal. f_equal.
      unfold HEADER_LEN, ELEMENT_COUNT_LEN, SIZE_LEN, KEY_ENTRY_LEN, KEY_OFFSET_LEN, KEY_LEN_LEN, U32_LEN, U16_LEN. lia.
Qed.

(** A container is copied with the new members in the place of the old ones. *)
Lemma rebuild_container fuel p t q new cs m' buf : jok t → container t = true →
  Some p ≠ q → q ≠ None →
  copies (rebuild_to fuel) (tref p t) (8 + 6 * zlen (names t)) 0 (mkModifier (tref p t) q new) cs m' →
  length cs = length (children t) → zlen (layout (names t) cs) <= U32_MAX →
  rebuild_to (S fuel) (mkModifier (tref p t) q new) buf
  = okR (ttype t, m', buf ++ layout (names t) cs).
Proof.
  intros Ht Hc Hq Hq' Hcopies Hlen Hsz. cbn [rebuild_to to_be_modified_ptr old].
  rewrite (bool_decide_eq_false_2 (q = Some (as_ptr (tref p t)))) by (intros ->; by apply Hq).
  rewrite bool_decide_eq_false_2 by done. rewrite (elem_count_tree p t Ht Hc). cbn [liftR]. rewrite !rbind_ok.
  rewrite (rebuild_head_tree p t Ht Hc), !rbind_ok. cbv zeta.
  set (ks := names t) in *. set (cs0 := map tcell (children t)) in *.
  assert (L0 : zlen cs0 = zlen cs) by (unfold cs0; rewrite length_map; lia).
  assert (Est : start ks cs0 = start ks cs) by (unfold start; by rewrite L0).
  pose proof Hsz as Hsz'. rewrite layout_length in Hsz'. unfold lsize in Hsz'.
  assert (Lpre : zlen (header ks cs0 ++ ventries (start ks cs0 + zlen (concat ks)) cs0 ++ concat ks)
                 = start ks cs + zlen (concat ks)).
  { rewrite !length_app, !Nat2Z.inj_add, header_length, ventries_length, L0. unfold start. lia. }
  assert (range (zlen (children t)) = map Z.of_nat (seq 0 (length cs))) as ->.
  { unfold range. by rewrite Nat2Z.id, Hlen. }
  rewrite (rebuild_loop _ _ buf _ 0 _ cs m' Hcopies).
  2: rewrite header_length; lia. 2: rewrite ventries_length, L0; done. 2: rewrite Lpre; lia.
  rewrite Lpre, !rbind_ok.
  assert (El : layout ks cs = header ks cs ++ ventries (start ks cs + zlen (concat ks)) cs ++ concat ks ++ bodies cs)
    by (rewrite layout_header; by rewrite <- app_assoc).
  replace (zlen (buf ++ header ks cs0 ++ ventries (start ks cs + zlen (concat ks)) cs ++ concat ks ++ bodies cs) - zlen buf)
    with (lsize ks cs).
  2: { rewrite !length_app, !Nat2Z.inj_add, header_length, ventries_length. unfold lsize, start. lia. }
  assert (put_at (buf ++ header ks cs0 ++ ventries (start ks cs + zlen (concat ks)) cs ++ concat ks ++ bodies cs)
            (zlen buf + ELEMENT_COUNT_LEN) (encode_u32_le (as_u32 (lsize ks cs))) = Ret (buf ++ layout ks cs)) as ->.
  { rewrite u32_le, as_u32_id by (split; [unfold lsize, start; lia|unfold lsize; lia]). rewrite El. unfold header. rewrite Est, L0.
    rewrite <- !app_assoc, (app_assoc buf), put_at_mid by (rewrite ?length_app, !le_bytes_length; unfold ELEMENT_COUNT_LEN, U32_LEN; lia).
    by rewrite <- !app_assoc. }
  cbn [liftR get_type tref]. destruct t; done.
Qed.
End Copy.
