(* ===== verification/JsonUpdate.v ===== *)
(** * JsonUpdate: where members are, the copy that replaces one, and what modifications do

    Members of a document have disjoint ranges of bytes inside it, so that an address
    designates one of them; [rebuild] then writes the document of the updated tree.

    Setting, inserting, replacing and removing members at a path, on trees, and the
    proof that [modify] and [remove] write the documents of the trees so obtained:
    [do_insert] and [do_remove] build the new parent of the member, [rebuild] puts it in
    its place. *)
From Stdlib Require Import ZArith Lia Sorted.
From stdpp Require Import base list numbers.
From S2P Require Import Prelude EvalCtx Slice JsonBinary JsonTree JsonExtract JsonModify JsonRebuild.
#[local] Open Scope Z_scope.
#[local] Open Scope rM_scope.

#[local] Notation zlen l := (Z.of_nat (length l)).

(** ** Members by their indices *)

Fixpoint node (t : jtree) (π : list nat) : option jtree :=
  match π with
  | [] => Some t
  | i :: π => match children t !! i with Some c => node c π | None => None end
  end.

Fixpoint upd (t : jtree) (π : list nat) (n : jtree) {struct π} : jtree :=
  match π with
  | [] => n
  | i :: π =>
      match t with
      | JArray ts => JArray (alter (λ c, upd c π n) i ts)
      | JObject ks ts => JObject ks (alter (λ c, upd c π n) i ts)
      | _ => t
      end
  end.

Lemma upd_container t i π n : container t = true →
  ttype (upd t (i :: π) n) = ttype t ∧ names (upd t (i :: π) n) = names t
  ∧ children (upd t (i :: π) n) = alter (λ c, upd c π n) i (children t).
Proof. by destruct t. Qed.

Lemma node_container t i π c : node t (i :: π) = Some c → container t = true.
Proof. by destruct t. Qed.

Section Place.
Context {N : NumberCodec} {NL : NumberCodecLaws}.

(** ** Ranges *)

Lemma enc_nonempty t : jok t → 0 < zlen (enc t).
Proof.
  assert (Hvar : ∀ v, is_u64 v → encode_var_u64 v ≠ []).
  { intros v Hv E. pose proof (λ r, var_u64_back v r Hv) as H1. rewrite E in H1. cbn in H1.
    set (w := if v =? 0 then 1 else 0).
    assert (Hw : is_u64 w ∧ w ≠ v) by (unfold w; mach; destruct (Z.eqb_spec v 0); lia). destruct Hw as [Hw Hne].
    pose proof (var_u64_back w [] Hw) as H2. rewrite H1 in H2. injection H2 as H2 _. done. }
  intros Ht. destruct t as [|[]|i|u|f|s|ts|ks ts]; cbn [enc].
  1-3: done.
  - rewrite i64_size. lia.
  - rewrite u64_size. lia.
  - rewrite f64_size. lia.
  - rewrite length_app. assert (is_u64 (zlen s)) as Hs by (inversion Ht; unfold is_u64; lia).
    pose proof (Hvar _ Hs). destruct (encode_var_u64 (zlen s)); [done|]. cbn [length]. lia.
  - pose proof (layout_ge [] (map (λ t, (ttype t, enc t)) ts)). lia.
  - pose proof (layout_ge ks (map (λ t, (ttype t, enc t)) ts)). lia.
Qed.

Lemma bodies_mono cs i j : (i <= j)%nat → zlen (bodies (take i cs)) <= zlen (bodies (take j cs)).
Proof.
  intros Hij. rewrite <- (take_drop i (take j cs)), bodies_app, length_app, take_take, Nat.min_l by done. lia.
Qed.

Lemma bodies_step cs i j c : cs !! i = Some c → (i < j)%nat →
  zlen (bodies (take i cs)) + zlen (body c) <= zlen (bodies (take j cs)).
Proof.
  intros Hc Hij. pose proof (bodies_mono cs (S i) j Hij) as H. erewrite take_S_r in H by done.
  rewrite bodies_app, bodies_cons, !length_app in H. lia.
Qed.

(** The offset of a member: in the table of entries for a literal, after it otherwise. *)
Lemma coff_cases t i c : children t !! i = Some c →
  let ks := names t in let cs := map tcell (children t) in
  (ttype c = Literal ∧ coff t i = 8 + 6 * zlen ks + 5 * Z.of_nat i + 1 ∧ zlen (enc c) = 1)
  ∨ (body (tcell c) = enc c ∧ coff t i = start ks cs + zlen (concat ks) + zlen (bodies (take i cs))).
Proof.
  intros Hi. cbv zeta. unfold coff, child_off. change (map tcell ?l) with (tcell <$> l). rewrite list_lookup_fmap, Hi. cbn.
  unfold body, tcell. cbn. destruct c as [|[]| | | | | |]; cbn [ttype]; auto.
Qed.

Lemma coff_range t i c : container t = true → children t !! i = Some c →
  0 < coff t i ∧ coff t i + zlen (enc c) <= zlen (enc t).
Proof.
  intros Hc Hi. rewrite (enc_layout t Hc), layout_length. unfold lsize.
  pose proof (lookup_lt_Some _ _ _ Hi) as Hlt.
  assert (E : map tcell (children t) !! i = Some (tcell c)).
  { change (map tcell ?l) with (tcell <$> l). by rewrite list_lookup_fmap, Hi. }
  pose proof (bodies_step _ i (length (map tcell (children t))) _ E ltac:(rewrite length_map; lia)) as H.
  rewrite (take_ge _ (length _)) in H by lia. unfold start in *. rewrite length_map.
  destruct (coff_cases t i c Hi) as [(_ & E1 & E2)|(E1 & E2)]; [lia|].
  rewrite E2, <- E1. unfold start. rewrite length_map. lia.
Qed.

Lemma coff_disjoint_lt t i j ci cj : children t !! i = Some ci → children t !! j = Some cj → (i < j)%nat →
  coff t i + zlen (enc ci) <= coff t j ∨ coff t j + zlen (enc cj) <= coff t i.
Proof.
  intros Hi Hj Hlt. pose proof (lookup_lt_Some _ _ _ Hi). pose proof (lookup_lt_Some _ _ _ Hj).
  assert (E : map tcell (children t) !! i = Some (tcell ci)).
  { change (map tcell ?l) with (tcell <$> l). by rewrite list_lookup_fmap, Hi. }
  pose proof (bodies_step _ i j _ E Hlt) as Hb.
  destruct (coff_cases t i ci Hi) as [(_ & E1 & E2)|(E1 & E2)],
    (coff_cases t j cj Hj) as [(_ & E3 & E4)|(E3 & E4)]; unfold start in *; rewrite ?length_map in *;
    rewrite ?E1 in Hb; lia.
Qed.

Lemma coff_disjoint t i j ci cj : children t !! i = Some ci → children t !! j = Some cj → i ≠ j →
  coff t i + zlen (enc ci) <= coff t j ∨ coff t j + zlen (enc cj) <= coff t i.
Proof.
  intros Hi Hj Hne. destruct (decide (i < j)%nat); [by eapply coff_disjoint_lt|].
  destruct (coff_disjoint_lt t j i cj ci); [done..|lia| |]; auto.
Qed.

Lemma addr_range π : ∀ t c, node t π = Some c →
  0 <= addr t π ∧ addr t π + zlen (enc c) <= zlen (enc t).
Proof.
  induction π as [|i π IH]; intros t c Hn; cbn [addr].
  - injection Hn as ->. lia.
  - pose proof (node_container _ _ _ _ Hn) as Hc. cbn [node] in Hn.
    destruct (children t !! i) as [d|] eqn:Hd; [|done]. destruct (IH d c Hn). destruct (coff_range t i d Hc Hd). lia.
Qed.

(** ** The copy *)

(** What the copy of a slice into a buffer does: it appends [c] and turns the
    remembered address [q] into [q']. *)
Definition copied fuel (j : JsonRef) (q : option Z) (new : option Json) (c : cell) (q' : option Z) : Prop :=
  ∃ o, ∀ buf, rebuild_to fuel (mkModifier j q new) buf = okR (c.1, mkModifier o q' new, buf ++ c.2).

(** The members one after the other, the address being [qs i] before the [i]-th. *)
Lemma copies_all fuel p t (qs : nat → option Z) new cs : jok t → container t = true →
  length cs = length (children t) →
  (∀ i c c', children t !! i = Some c → cs !! i = Some c' →
     copied fuel (tref (p + coff t i) c) (qs i) new c' (qs (S i)) ∧ literal_ok c') →
  ∀ o i, (i <= length cs)%nat → ∃ o',
  copies (rebuild_to fuel) (tref p t) (8 + 6 * zlen (names t)) i (mkModifier o (qs i) new) (drop i cs)
    (mkModifier o' (qs (length cs)) new).
Proof.
  intros Ht Hc Hlen H o i Hi. remember (length cs - i)%nat as n eqn:En. revert o i Hi En.
  induction n as [|n IH]; intros o i Hi En.
  { rewrite drop_ge by lia. replace i with (length cs) by lia. exists o. constructor. }
  destruct (lookup_lt_is_Some_2 cs i) as [c' Hc']; [lia|].
  destruct (lookup_lt_is_Some_2 (children t) i) as [c Hci]; [lia|].
  destruct (H i c c' Hci Hc') as [[o1 Hrec] Hlit]. rewrite (drop_S _ _ _ Hc').
  destruct (IH o1 (S i)) as [o2 Hcs]; [lia..|]. exists o2. econstructor; [|exact Hrec|exact Hlit|exact Hcs].
  pose proof (val_causet_get_tree p t i c Ht Hc Hci) as E. unfold VALUE_ENTRY_LEN, TYPE_LEN, U32_LEN.
  rewrite <- E. f_equal. lia.
Qed.

Lemma tcell_literal_ok t : jok t → literal_ok (tcell t).
Proof. intros Ht Hl. pose proof (tcell_sized t Ht) as Hs. unfold sized in Hs. by rewrite Hl in Hs. Qed.

Lemma rebuild_scalar fuel p t q new buf : container t = false → Some p ≠ q →
  rebuild_to (S fuel) (mkModifier (tref p t) q new) buf = okR (ttype t, mkModifier (tref p t) q new, buf ++ enc t).
Proof.
  intros Hc Hq. cbn [rebuild_to to_be_modified_ptr old as_ptr tref].
  rewrite bool_decide_eq_false_2 by (intros ->; by apply Hq). destruct (bool_decide (q = None)); [done|].
  by destruct t.
Qed.

(** Copying a container whose members are copied to [cs], and the address is neither
    null nor that of the container. *)
Lemma copied_container fuel p t (qs : nat → option Z) new cs : jok t → container t = true →
  Some p ≠ qs 0%nat → qs 0%nat ≠ None → length cs = length (children t) → zlen (layout (names t) cs) <= U32_MAX →
  (∀ i c c', children t !! i = Some c → cs !! i = Some c' →
     copied fuel (tref (p + coff t i) c) (qs i) new c' (qs (S i)) ∧ literal_ok c') →
  copied (S fuel) (tref p t) (qs 0%nat) new (ttype t, layout (names t) cs) (qs (length cs)).
Proof.
  intros Ht Hc Hp Hn Hlen Hsz H.
  destruct (copies_all fuel p t qs new cs Ht Hc Hlen H (tref p t) 0%nat ltac:(lia)) as [o' Hcs].
  exists o'. intros buf. cbn [fst snd]. by apply rebuild_container.
Qed.

(** When the address is outside the bytes of the tree the copy is the document. *)
Definition outside (q : option Z) (p : Z) (t : jtree) : Prop :=
  match q with Some a => a < p ∨ p + zlen (enc t) <= a | None => True end.

Lemma rebuild_miss t : jok t → ∀ p q new fuel, (tdepth t <= fuel)%nat → outside q p t →
  copied fuel (tref p t) q new (tcell t) q.
Proof.
  assert (Hbox : ∀ t, container t = true → Forall (λ t, jok t → ∀ p q new fuel, (tdepth t <= fuel)%nat → outside q p t →
      copied fuel (tref p t) q new (tcell t) q) (children t) → jok t → ∀ p q new fuel,
      (list_max (map tdepth (children t)) <= fuel)%nat → outside q p t → copied (S fuel) (tref p t) q new (tcell t) q).
  { intros t' Hc IH Ht p q new fuel Hf Ho. destruct q as [a|].
    2: { exists (tref p t'). intros buf. cbn. reflexivity. }
    pose proof (jok_children _ Ht) as Hk. pose proof (enc_nonempty _ Ht) as Hpos. cbn [outside] in Ho.
    unfold tcell. rewrite (enc_layout t' Hc).
    apply (copied_container fuel p t' (λ _, Some a) new (map tcell (children t'))); try done.
    - intros [= ->]. lia.
    - apply length_map.
    - rewrite <- (enc_layout t' Hc). by apply jok_size.
    - intros i c c' Hi Hc'. change (map tcell ?l) with (tcell <$> l) in Hc'. rewrite list_lookup_fmap, Hi in Hc'.
      injection Hc' as <-. pose proof (Forall_lookup_1 _ _ _ _ Hk Hi) as Hok.
      split; [|by apply tcell_literal_ok].
      apply (Forall_lookup_1 _ _ _ _ IH Hi); [done| |cbn; destruct (coff_range t' i c Hc Hi); lia].
      apply list_max_le in Hf. rewrite List.Forall_map in Hf. by apply (Forall_lookup_1 _ _ _ _ Hf Hi). }
  assert (Hsc : ∀ t, container t = false → jok t → ∀ p q new fuel, (1 <= fuel)%nat → outside q p t →
      copied fuel (tref p t) q new (tcell t) q).
  { intros t' Hc Ht p q new [|fuel] Hf Ho; [lia|]. exists (tref p t'). intros buf. apply rebuild_scalar; [done|].
    intros <-. pose proof (enc_nonempty _ Ht). cbn in Ho. lia. }
  induction t as [| | | | | |ts IH|ks ts IH] using jtree_rect'; intros Ht p q new fuel Hf Ho;
    try (by apply Hsc); destruct fuel as [|fuel]; cbn [tdepth] in Hf; try lia; apply Hbox; done || (cbn [children]; lia).
Qed.

(** A member of a well-formed tree is well-formed. *)
Lemma node_ok π : ∀ t c, jok t → node t π = Some c → jok c.
Proof.
  induction π as [|i π IH]; intros t c Ht Hn; [by injection Hn as <-|]. cbn [node] in Hn.
  destruct (children t !! i) as [d|] eqn:Hd; [|done]. eapply IH; [|done].
  exact (Forall_lookup_1 _ _ _ _ (jok_children t Ht) Hd).
Qed.

(** When the address is that of a member the copy is the document of the updated tree,
    and the address is forgotten. *)
Lemma rebuild_hit π : ∀ t n c p fuel, jok t → node t π = Some c → jok (upd t π n) → (tdepth t <= fuel)%nat →
  copied fuel (tref p t) (Some (p + addr t π)) (Some (tjson n)) (tcell (upd t π n)) None.
Proof.
  induction π as [|i π IH]; intros t n c p fuel Ht Hn Hu Hf.
  { destruct fuel as [|fuel]; [destruct t; cbn in Hf; lia|]. exists (tref p t). intros buf. cbn [addr upd].
    cbn [rebuild_to to_be_modified_ptr old as_ptr tref]. by rewrite Z.add_0_r, bool_decide_eq_true_2. }
  pose proof (node_container _ _ _ _ Hn) as Hc. cbn [node] in Hn. destruct (children t !! i) as [d|] eqn:Hd; [|done].
  destruct (upd_container t i π n Hc) as (Et & En & Ec).
  assert (Hcu : container (upd t (i :: π) n) = true) by (by destruct t).
  pose proof (jok_children _ Ht) as Hk. pose proof (jok_children _ Hu) as Hku. pose proof (jok_size _ Hcu Hu) as Hsz.
  rewrite (enc_layout _ Hcu), En, Ec in Hsz.
  destruct fuel as [|fuel]; [destruct t; cbn in Hf; lia|].
  set (cs := map tcell (alter (λ c, upd c π n) i (children t))) in *.
  assert (tcell (upd t (i :: π) n) = (ttype t, layout (names t) cs)) as ->.
  { unfold tcell. by rewrite (enc_layout _ Hcu), Et, En, Ec. }
  assert (Lcs : length cs = length (children t)) by (unfold cs; by rewrite length_map, length_alter).
  destruct (coff_range t i d Hc Hd) as [Hp1 Hp2]. destruct (addr_range π d c Hn) as [Ha1 Ha2].
  pose proof (enc_nonempty c (node_ok π d c (Forall_lookup_1 _ _ _ _ Hk Hd) Hn)) as Hpos.
  set (a := p + addr t (i :: π)). assert (Ea : a = p + coff t i + addr d π) by (unfold a; cbn; rewrite Hd; lia).
  set (qs := λ j : nat, if decide (j <= i)%nat then Some a else None).
  pose proof (lookup_lt_Some _ _ _ Hd) as Hi. rewrite <- Lcs in Hi.
  assert (Some a = qs 0%nat) as -> by (unfold qs; by rewrite decide_True by lia).
  assert (None = qs (length cs)) as -> by (unfold qs; by rewrite decide_False by lia).
  apply copied_container; try done; [unfold qs; rewrite decide_True by lia; intros [= E]; lia|].
  intros j x c' Hj Hc'. unfold cs in Hc'. change (map tcell ?l) with (tcell <$> l) in Hc'. rewrite list_lookup_fmap in Hc'.
  assert (Hx : jok x) by (exact (Forall_lookup_1 _ _ _ _ Hk Hj)).
  pose proof (depth_child _ _ _ Hc Hj) as Hdx. destruct (decide (j = i)) as [->|Hne].
  - rewrite Hd in Hj. injection Hj as <-. rewrite list_lookup_alter_eq, Hd in Hc'. cbn in Hc'. injection Hc' as <-.
    assert (Hok : jok (upd d π n)).
    { apply (Forall_lookup_1 _ _ i _ Hku). by rewrite Ec, list_lookup_alter_eq, Hd. }
    split; [|by apply tcell_literal_ok]. unfold qs. rewrite decide_True, decide_False by lia. rewrite Ea.
    eapply IH; [done..|lia].
  - rewrite list_lookup_alter_ne, Hj in Hc' by done. cbn in Hc'. injection Hc' as <-. split; [|by apply tcell_literal_ok].
    assert (qs (S j) = qs j) as -> by (unfold qs; repeat case_decide; done || lia).
    apply rebuild_miss; [done|lia|]. unfold qs, outside. case_decide; [|done]. rewrite Ea.
    destruct (coff_disjoint t i j d x Hd Hj); [done|lia|lia].
Qed.
End Place.


(** ** On trees *)

(** A new member, in the order of the names. *)
Fixpoint kinsert (k : list Z) (n : jtree) (l : list (list Z * jtree)) : list (list Z * jtree) :=
  match l with
  | [] => [(k, n)]
  | (k', c) :: l' => if bytes_ltb k' k then (k', c) :: kinsert k n l' else (k, n) :: l
  end.

(** A member that is not there: at the end of an array (a value that is not an array
    counts as an array of one), under its name in an object. *)
Definition tgrow (c : jtree) (leg : local_pathLeg) (n : jtree) : option jtree :=
  match leg, c with
  | Index _, JArray ts => Some (JArray (ts ++ [n]))
  | Index _, _ => Some (JArray [c; n])
  | Key k, JObject ks ts => Some (JObject (kinsert k n (zip ks ts)).*1 (kinsert k n (zip ks ts)).*2)
  | _, _ => None
  end.

Definition tinsert (t : jtree) (ls : list local_pathLeg) (n : jtree) : jtree :=
  match split_last ls with
  | None => t
  | Some (parent, leg) =>
      match tfind parent t with
      | [] => t
      | (π, c) :: _ => match tgrow c leg n with Some c' => upd t π c' | None => t end
      end
  end.

Definition tmodify_one (mt : ModifyType) (t : jtree) (ls : list local_pathLeg) (n : jtree) : jtree :=
  match mt, tfind ls t with
  | Set_, (π, _) :: _ | Replace, (π, _) :: _ => upd t π n
  | Set_, [] | Insert, [] => tinsert t ls n
  | _, _ => t
  end.

Definition tmodify (mt : ModifyType) (t : jtree) (l : list (local_pathExpression * jtree)) : jtree :=
  fold_left (λ t x, tmodify_one mt t (legs x.1) x.2) l t.

Definition tshrink (c : jtree) (leg : local_pathLeg) : option jtree :=
  match leg, c with
  | Index i, JArray ts => Some (JArray (delete (Z.to_nat i) ts))
  | Key k, JObject ks ts =>
      match find_name k ks with Some i => Some (JObject (delete i ks) (delete i ts)) | None => None end
  | _, _ => None
  end.

Definition tremove_one (t : jtree) (ls : list local_pathLeg) : jtree :=
  match tfind ls t, split_last ls with
  | _ :: _, Some (parent, leg) =>
      match tfind parent t with
      | [] => t
      | (π, c) :: _ => match tshrink c leg with Some c' => upd t π c' | None => t end
      end
  | _, _ => t
  end.

Definition tremove (t : jtree) (l : list local_pathExpression) : jtree :=
  fold_left (λ t e, tremove_one t (legs e)) l t.

(** Legs without wildcards; an expression's flags say whether it has some. *)
Definition plain (l : local_pathLeg) : Prop :=
  match l with
  | Index i => 0 <= i <= I32_MAX
  | Key k => k ≠ LOCAL_PATH_EXPR_ASTERISK
  | DoubleAsterisk => False
  end.

Definition path_ok (e : local_pathExpression) : Prop :=
  contains_any_asterisk e = false → Forall plain (legs e).

(** ** Paths *)

Lemma plain_ok l : plain l → leg_ok l.
Proof. destruct l; cbn; mach; lia || done. Qed.

Lemma plain_all_ok ls : Forall plain ls → Forall leg_ok ls.
Proof. induction 1; constructor; auto using plain_ok. Qed.

Lemma split_last_Some ls parent leg : split_last ls = Some (parent, leg) → ls = parent ++ [leg].
Proof.
  unfold split_last. destruct (reverse ls) as [|x r] eqn:E; [done|]. intros [= <- <-].
  apply (f_equal reverse) in E. rewrite reverse_involutive, reverse_cons in E. done.
Qed.

Definition below_ (x : located) (l : list located) : list located := map (λ y, (x.1 ++ y.1, y.2)) l.

Lemma below_under i π c l : below_ (i :: π, c) l = under i (below_ (π, c) l).
Proof. unfold below_, under. by rewrite map_map. Qed.

Definition chain (ls2 : list local_pathLeg) (l : list located) : list located :=
  concat (map (λ x, below_ x (tfind ls2 x.2)) l).

Lemma chain_under ls2 i l : chain ls2 (under i l) = under i (chain ls2 l).
Proof.
  unfold chain, under. rewrite !concat_map, !map_map. f_equal. apply map_ext. intros [π c].
  cbn. apply below_under.
Qed.

Lemma chain_concat ls2 ls : chain ls2 (concat ls) = concat (map (chain ls2) ls).
Proof. induction ls as [|l ls IH]; [done|]. unfold chain in *. cbn. by rewrite map_app, concat_app, IH. Qed.

Lemma members_chain ls2 (f g : jtree → list located) ts : (∀ t, g t = chain ls2 (f t)) →
  members g ts = chain ls2 (members f ts).
Proof.
  intros H. unfold members. rewrite chain_concat. f_equal. change (map ?h ?l) with (h <$> l).
  rewrite fmap_imap. apply imap_ext. intros i c _. unfold compose. by rewrite H, chain_under.
Qed.

Lemma member_chain ls2 (f g : jtree → list located) ts i : (∀ t, g t = chain ls2 (f t)) →
  member g ts i = chain ls2 (member f ts i).
Proof. intros H. unfold member. destruct (ts !! i); [|done]. by rewrite H, chain_under. Qed.

(** A path in two parts. *)
Lemma tfind_app ls1 ls2 : ∀ t, tfind (ls1 ++ ls2) t = chain ls2 (tfind ls1 t).
Proof.
  induction ls1 as [|leg ls1 IH]; intros t; cbn [app tfind].
  { unfold chain, below_. cbn. rewrite app_nil_r. erewrite map_ext; [by rewrite map_id|]. by intros []. }
  destruct leg as [i|k|].
  - destruct t; repeat match goal with |- context [if ?b then _ else _] => destruct b end;
      auto using members_chain, member_chain.
  - destruct t; auto. destruct (bytes_eqb k LOCAL_PATH_EXPR_ASTERISK); [by apply members_chain|].
    destruct (find_name k ks); [by apply member_chain|done].
  - rewrite IH, (members_chain ls2 (tfind ls1)) by done. unfold chain. by rewrite map_app, concat_app.
Qed.

Lemma plain_unique ls : Forall plain ls → ∀ t, (length (tfind ls t) <= 1)%nat.
Proof.
  assert (Hm : ∀ f ts i, (∀ t, length (f t) <= 1)%nat → (length (member f ts i) <= 1)%nat).
  { intros f ts i Hf. unfold member, under. destruct (ts !! i); [by rewrite length_map|cbn; lia]. }
  induction 1 as [|[i|k|] ls Hl _ IH]; intros t; cbn [tfind]; [cbn; lia| | |done].
  - cbn in Hl. destruct t; try (destruct (i =? 0); [auto|cbn; lia]).
    destruct (Z.eqb_spec i (-1)); [lia|]. destruct (0 <=? i); [auto|cbn; lia].
  - cbn in Hl. destruct t; cbn; try lia. destruct (bytes_eqb k LOCAL_PATH_EXPR_ASTERISK) eqn:E; [by apply bytes_eqb_eq in E|].
    destruct (find_name k ks); [auto|cbn; lia].
Qed.

Lemma find_node ls : ∀ t x, x ∈ tfind ls t → node t x.1 = Some x.2.
Proof.
  assert (Hm : ∀ (f : jtree → list located) t i c x, (∀ t x, x ∈ f t → node t x.1 = Some x.2) →
    children t !! i = Some c → x ∈ under i (f c) → node t x.1 = Some x.2).
  { intros f t i c x Hf Hi Hx. apply list_elem_of_fmap in Hx as (y & -> & Hy). cbn. rewrite Hi. by apply Hf. }
  assert (Hms : ∀ (f : jtree → list located) t x, (∀ t x, x ∈ f t → node t x.1 = Some x.2) →
    x ∈ members f (children t) → node t x.1 = Some x.2).
  { intros f t x Hf Hx. apply list_elem_of_In, List.in_concat in Hx as (l & Hl%list_elem_of_In & Hx%list_elem_of_In).
    apply elem_of_lookup_imap in Hl as (i & c & -> & Hc). eauto. }
  assert (Hone : ∀ (f : jtree → list located) t i x, (∀ t x, x ∈ f t → node t x.1 = Some x.2) →
    x ∈ member f (children t) i → node t x.1 = Some x.2).
  { intros f t i x Hf Hx. unfold member in Hx. destruct (children t !! i) eqn:E; [eauto|by apply elem_of_nil in Hx]. }
  induction ls as [|[i|k|] ls IH]; intros t x Hx; cbn [tfind] in Hx.
  - by apply list_elem_of_singleton in Hx as ->.
  - destruct t; repeat match type of Hx with context [if ?b then _ else _] => destruct b end; try (by apply elem_of_nil in Hx); eauto.
  - destruct t; try (by apply elem_of_nil in Hx).
    destruct (bytes_eqb k LOCAL_PATH_EXPR_ASTERISK); [by apply (Hms (tfind ls) (JObject ks ts))|].
    destruct (find_name k ks) as [i|]; [by apply (Hone (tfind ls) (JObject ks ts) i)|by apply elem_of_nil in Hx].
  - apply elem_of_app in Hx as [Hx|Hx]; eauto.
Qed.


Section Edit.
Context {N : NumberCodec} {NL : NumberCodecLaws} {JW : JsonWriter} {WL : JsonWriterLaws}.

(** ** Rebuilding from a tree *)

Lemma get_type_tref p t : get_type (tref p t) = ttype t.
Proof. reflexivity. Qed.

Lemma rebuild_tree t π c n : jok t → node t π = Some c → jok (upd t π n) →
  rebuild (with_change (BinaryModifier_new (tref 0 t)) (0 + addr t π) (tjson n)) = okR (tjson (upd t π n)).
Proof.
  intros Ht Hn Hu. unfold rebuild, with_change. cbn [old BinaryModifier_new].
  destruct (rebuild_hit π t n c 0 _ Ht Hn Hu (fuel_enough t)) as [o E]. cbn [tref causet_locale] in *.
  by rewrite E.
Qed.

Lemma rebuild_same t : jok t → rebuild (BinaryModifier_new (tref 0 t)) = okR (tjson t).
Proof.
  intros Ht. destruct (rebuild_miss t Ht 0 None None _ (fuel_enough t) I) as [o E].
  unfold rebuild, BinaryModifier_new. cbn [old tref causet_locale]. cbn [tref] in E. by rewrite E.
Qed.

(** ** Members and the tree *)

Definition matches : list (list Z * JsonRef) → list (list Z * jtree) → Prop :=
  Forall2 (λ e x, e.1 = x.1 ∧ ref_cell e.2 = tcell x.2).

Lemma matches_names es l : matches es l → es.*1 = l.*1.
Proof. induction 1 as [|e x es l [E _] _ IH]; [done|]. cbn. by rewrite E, IH. Qed.

Lemma matches_stands es l : matches es l → stands es.*2 l.*2.
Proof. induction 1 as [|e x es l [_ E] _ IH]; [done|]. unfold stands in *. cbn. by rewrite E, IH. Qed.

Lemma from_kv_pairs_matches es es' l : sort_entries es = es' → matches es' l → jok (JObject l.*1 l.*2) →
  from_kv_pairs es = okR (tjson (JObject l.*1 l.*2)).
Proof. intros Hs Hm Ht. eapply from_kv_pairs_tree; [exact Hs|by apply matches_names|by apply matches_stands|done]. Qed.

Lemma insert_matches k n r es l : ref_cell r = tcell n → matches es l → (∀ x, x ∈ l → x.1 ≠ k) →
  matches (insert_entry (k, r) es) (kinsert k n l).
Proof.
  intros Hr Hm. induction Hm as [|e x es l [E1 E2] Hm IH]; intros Hk; cbn [insert_entry kinsert].
  { by repeat constructor. }
  destruct x as [k' c]. cbn [fst snd] in *. rewrite E1. assert (k' ≠ k) as Hne by (apply (Hk (k', c)); constructor).
  destruct (bytes_eqb k' k) eqn:Eq; [by apply bytes_eqb_eq in Eq|]. rewrite orb_false_r.
  destruct (bytes_ltb k' k).
  - constructor; [done|]. apply IH. intros y Hy. apply Hk. by constructor.
  - repeat constructor; done.
Qed.

(** The entries of an object, read one by one. *)
Definition oentry (p : Z) ks ts (i : nat) (c : jtree) : list Z * JsonRef :=
  (default [] (ks !! i), tref (p + coff (JObject ks ts) i) c).

Lemma object_entry_tree p ks ts i c : jok (JObject ks ts) → ts !! i = Some c →
  object_entry (tref p (JObject ks ts)) (Z.of_nat i) = okR (oentry p ks ts i c)
  ∧ ks !! i = Some (default [] (ks !! i)).
Proof.
  intros Ht Hi. pose proof (jok_names _ Ht eq_refl) as Hl. cbn in Hl.
  destruct (lookup_lt_is_Some_2 ks i) as [k Hk]; [apply lookup_lt_Some in Hi; lia|].
  unfold object_entry, oentry. rewrite (object_get_soliton_id_tree p ks ts i k Ht Hk).
  cbn [liftR]. rewrite rbind_ok, (object_get_val_tree p ks ts i c Ht Hi), rbind_ok, Hk. done.
Qed.

Lemma imap_matches p ks ts ks0 ts0 (q : nat) : length ks = length ts →
  (∀ i, ks0 !! (q + i)%nat = ks !! i) →
  matches (imap (λ i c, oentry p ks0 ts0 (q + i) c) ts) (zip ks ts).
Proof.
  revert q ks. induction ts as [|c ts IH]; intros q [|k ks] Hl H; try done; [constructor|].
  cbn [imap zip zip_with]. constructor.
  - cbn. unfold oentry. rewrite (H 0%nat). done.
  - assert (imap ((λ i c0, oentry p ks0 ts0 (q + i) c0) ∘ S) ts = imap (λ i c0, oentry p ks0 ts0 (S q + i) c0) ts) as ->.
    { apply imap_ext. intros i x _. unfold compose. f_equal. lia. }
    apply IH; [by injection Hl|]. intros i. replace (S q + i)%nat with (q + S i)%nat by lia. apply (H (S i)).
Qed.

Lemma object_entries_tree p ks ts : jok (JObject ks ts) →
  mapR (object_entry (tref p (JObject ks ts))) (range (zlen ts)) = okR (imap (oentry p ks ts) ts)
  ∧ matches (imap (oentry p ks ts) ts) (zip ks ts).
Proof.
  intros Ht. split.
  - apply mapR_range. intros i c Hi. by apply object_entry_tree.
  - pose proof (jok_names _ Ht eq_refl) as Hl. cbn in Hl. by apply (imap_matches p ks ts ks ts 0).
Qed.

Lemma zip_names (ks : list (list Z)) (ts : list jtree) : length ks = length ts → (zip ks ts).*1 = ks ∧ (zip ks ts).*2 = ts.
Proof. intros H. by rewrite fst_zip, snd_zip by lia. Qed.

Lemma array_elems_tree p ts : jok (JArray ts) →
  ∃ js, array_elems (tref p (JArray ts)) (zlen ts) = okR js ∧ stands js ts.
Proof.
  intros Ht. exists (imap (λ i c, tref (p + coff (JArray ts) i) c) ts). split.
  - apply mapR_range. intros i c Hi. by apply array_get_elem_tree.
  - unfold stands. change (map ?f ?l) with (f <$> l). rewrite fmap_imap.
    apply list_eq. intros i. rewrite list_lookup_imap, list_lookup_fmap. by destruct (ts !! i).
Qed.

Lemma stands_app a b ts us : stands a ts → stands b us → stands (a ++ b) (ts ++ us).
Proof. unfold stands. rewrite !map_app. by intros -> ->. Qed.

(** ** Insertion *)

Lemma find_name_absent ks k i : StronglySorted bytes_lt ks → find_name k ks = None → ks !! i ≠ Some k.
Proof. intros Hs Hf Hi. apply (find_name_Some k ks i Hs) in Hi. congruence. Qed.

Lemma grow_object p ks ts k n : jok (JObject ks ts) → find_name k ks = None →
  jok (JObject (kinsert k n (zip ks ts)).*1 (kinsert k n (zip ks ts)).*2) →
  from_kv_pairs (imap (oentry p ks ts) ts ++ [(k, as_ref (tjson n))])
  = okR (tjson (JObject (kinsert k n (zip ks ts)).*1 (kinsert k n (zip ks ts)).*2)).
Proof.
  intros Ht Hf Hn. destruct (object_entries_tree p ks ts Ht) as [_ Hm].
  pose proof (jok_names _ Ht eq_refl) as Hl. cbn in Hl. destruct (zip_names ks ts Hl) as [Ek _].
  assert (Hs : StronglySorted bytes_lt ks) by (by inversion Ht).
  eapply from_kv_pairs_matches; [|apply insert_matches; [|exact Hm|]|exact Hn].
  - rewrite sort_entries_snoc, sort_entries_sorted; [done|]. by rewrite (matches_names _ _ Hm), Ek.
  - done.
  - intros [k' c] Hx. cbn. intros ->. apply (list_elem_of_fmap_2 fst) in Hx. rewrite Ek in Hx.
    apply list_elem_of_lookup in Hx as [i Hi]. by apply (find_name_absent ks k i Hs Hf).
Qed.

(** The parent with the new member, or nothing to do. *)
Lemma do_insert_tree t ls n parent leg π c l : jok t → Forall plain ls → tfind ls t = [] →
  split_last ls = Some (parent, leg) → tfind parent t = (π, c) :: l →
  (∀ c', tgrow c leg n = Some c' → jok c') →
  do_insert (BinaryModifier_new (tref 0 t)) ls (tjson n)
  = okR (match tgrow c leg n with
         | Some c' => with_change (BinaryModifier_new (tref 0 t)) (0 + addr t π) (tjson c')
         | None => BinaryModifier_new (tref 0 t)
         end).
Proof.
  intros Ht Hp Hnone Hsp Hpar Hok. pose proof (split_last_Some _ _ _ Hsp) as El. rewrite El in Hp, Hnone.
  apply Forall_app in Hp as [Hp Hleg%Forall_inv]. unfold do_insert. rewrite Hsp. cbn [old BinaryModifier_new].
  rewrite (extract_json_tree parent (plain_all_ok _ Hp) 0 t Ht), rbind_ok, Hpar. cbn [map].
  assert (Hc : jok c). { apply (node_ok π t c Ht). apply (find_node parent t (π, c)). rewrite Hpar. constructor. }
  change (at_ 0 t (π, c)) with (tref (0 + addr t π) c). set (q := 0 + addr t π).
  assert (Hwrap : jok (JArray [c; n]) → from_ref_array [tref q c; as_ref (tjson n)] = okR (tjson (JArray [c; n])))
    by (intros; by apply from_ref_array_tree).
  destruct leg as [i|k|]; [| |done].
  - destruct c as [| | | | | |ts|ks ts]; rewrite get_type_tref; cbn [tgrow ttype] in *;
      try (rewrite Hwrap by (by apply Hok); done).
    rewrite (elem_count_tree q (JArray ts) Hc eq_refl). cbn [liftR children]. rewrite rbind_ok.
    destruct (array_elems_tree q ts Hc) as (js & -> & Hs). rewrite rbind_ok.
    rewrite (from_ref_array_tree _ (ts ++ [n])); [by rewrite rbind_ok|by apply stands_app|by apply Hok].
  - destruct c as [| | | | | | |ks ts]; rewrite get_type_tref; cbn [tgrow ttype] in *; try done.
    rewrite (elem_count_tree q (JObject ks ts) Hc eq_refl). cbn [liftR children]. rewrite rbind_ok.
    assert (Hf : find_name k ks = None).
    { rewrite tfind_app, Hpar in Hnone. cbn [plain] in Hleg. destruct (find_name k ks) as [i|] eqn:Ef; [exfalso|done].
      assert (Hs : StronglySorted bytes_lt ks) by (by inversion Hc).
      pose proof Ef as Hi. apply (find_name_Some _ _ _ Hs), lookup_lt_Some in Hi.
      pose proof (jok_names _ Hc eq_refl) as Hl. cbn in Hl. rewrite Hl in Hi. apply lookup_lt_is_Some_2 in Hi as [d Hd].
      unfold chain in Hnone. cbn [map concat snd tfind] in Hnone.
      destruct (bytes_eqb k LOCAL_PATH_EXPR_ASTERISK) eqn:Ea; [by apply bytes_eqb_eq in Ea|].
      rewrite Ef in Hnone. unfold member in Hnone. rewrite Hd in Hnone. done. }
    rewrite (search_tree q ks ts k Hc), Hf. cbn [liftR fmap option_fmap option_map]. rewrite rbind_ok.
    destruct (object_entries_tree q ks ts Hc) as [E _]. rewrite E, !rbind_ok.
    rewrite (grow_object q ks ts k n Hc Hf (Hok _ eq_refl)). by rewrite rbind_ok.
Qed.
End Edit.
