(* ===== verification/JsonOps.v ===== *)
(** * JsonOps: [modify] and [remove] refine the changes of trees

    The theorems on [json_modify.rs] and [json_remove.rs]: on the document of a tree
    the operations give the document of the changed tree, or the error the code gives;
    and what was set is what [extract] then finds. *)
From Stdlib Require Import ZArith Lia Sorted.
From stdpp Require Import base list numbers.
From S2P Require Import Prelude EvalCtx Slice JsonBinary JsonTree JsonExtract JsonModify JsonRebuild JsonUpdate.
#[local] Open Scope Z_scope.
#[local] Open Scope rM_scope.

#[local] Notation zlen l := (Z.of_nat (length l)).

Section Ops.
Context {N : NumberCodec} {NL : NumberCodecLaws} {JW : JsonWriter} {WL : JsonWriterLaws}.

(** ** Removal *)

(** Skipping one element of a loop deletes it. *)
Lemma concat_skip {A B} (h : nat → A → B) (g : nat → A → bool) ts : (∀ j c, ts !! j = Some c → g j c = false) →
  concat (imap (λ j c, if g j c then [] else [h j c]) ts) = imap h ts.
Proof.
  revert h g. induction ts as [|c ts IH]; intros h g H; [done|].
  cbn [imap concat]. rewrite (H 0%nat c eq_refl). cbn [app]. f_equal.
  apply (IH (λ j, h (S j)) (λ j, g (S j))). intros j d Hj. by apply (H (S j)).
Qed.

Lemma concat_delete {A B} (h : nat → A → B) (g : nat → A → bool) ts : ∀ i, (i < length ts)%nat →
  (∀ j c, ts !! j = Some c → g j c = true ↔ j = i) →
  concat (imap (λ j c, if g j c then [] else [h j c]) ts) = delete i (imap h ts).
Proof.
  revert h g. induction ts as [|c ts IH]; intros h g i Hi H; cbn [length] in Hi; [lia|].
  cbn [imap concat]. pose proof (H 0%nat c eq_refl) as H0. destruct i as [|i].
  - rewrite (proj2 H0) by done. cbn [app delete list_delete].
    apply (concat_skip (λ j, h (S j)) (λ j, g (S j))). intros j y Hj.
    destruct (g (S j) y) eqn:E; [|done]. by apply (H (S j) y Hj) in E.
  - destruct (g 0%nat c) eqn:E0; [destruct H0 as [H0 _]; by specialize (H0 eq_refl)|].
    cbn [app delete list_delete]. f_equal. apply (IH (λ j, h (S j)) (λ j, g (S j))); [lia|].
    intros j y Hj. rewrite (H (S j) y Hj). split; [by intros [= ->]|by intros ->].
Qed.

Lemma stands_delete js ts i : stands js ts → stands (delete i js) (delete i ts).
Proof.
  unfold stands. change (map ?f ?l) with (f <$> l). rewrite !list_fmap_delete. by intros ->.
Qed.

Lemma shrink_array q ts i : jok (JArray ts) → 0 <= i <= I32_MAX → (Z.to_nat i < length ts)%nat →
  jok (JArray (delete (Z.to_nat i) ts)) →
  (elems ←? flatR (λ j, if j =? as_u64 i then okR [] else e ←? array_get_elem (tref q (JArray ts)) j; okR [e]) (range (zlen ts));
   from_ref_array elems) = okR (tjson (JArray (delete (Z.to_nat i) ts))).
Proof.
  intros Ht Hi Hlt Hok. rewrite as_u64_id by (mach; lia).
  rewrite (flatR_range _ (λ j c, if Z.of_nat j =? i then [] else [tref (q + coff (JArray ts) j) c]) ts).
  - rewrite rbind_ok. apply from_ref_array_tree; [|done].
    rewrite (concat_delete (λ j c, tref (q + coff (JArray ts) j) c) (λ j _, Z.of_nat j =? i) ts (Z.to_nat i) Hlt)
      by (intros j c _; rewrite Z.eqb_eq; lia).
    apply stands_delete. unfold stands. change (map ?f ?l) with (f <$> l). rewrite fmap_imap.
    apply list_eq. intros j. rewrite list_lookup_imap, list_lookup_fmap. by destruct (ts !! j).
  - intros j c Hc. destruct (Z.of_nat j =? i); [done|]. by rewrite (array_get_elem_tree q ts j c Ht Hc), rbind_ok.
Qed.

Lemma delete_zip (ks : list (list Z)) (ts : list jtree) i : length ks = length ts →
  delete i (zip ks ts) = zip (delete i ks) (delete i ts).
Proof.
  revert ts i. induction ks as [|k ks IH]; intros [|t ts] [|i] H; try done. cbn. f_equal. apply IH. by injection H.
Qed.

Lemma matches_delete es l i : matches es l → matches (delete i es) (delete i l).
Proof. apply Forall2_delete. Qed.

Lemma delete_sorted (l : list (list Z)) i : StronglySorted bytes_lt l → StronglySorted bytes_lt (delete i l).
Proof.
  revert i. induction l as [|x l IH]; intros [|i] H; inversion H as [|? ? Hl Hx]; subst; cbn; try done.
  constructor; [by apply IH|by apply Forall_delete].
Qed.

Lemma shrink_object q ks ts k i : jok (JObject ks ts) → find_name k ks = Some i →
  jok (JObject (delete i ks) (delete i ts)) →
  (entries ←? flatR (λ j, n ←? liftR (object_get_soliton_id (tref q (JObject ks ts)) j);
       if bytes_eqb n k then okR [] else v ←? object_get_val (tref q (JObject ks ts)) j; okR [(n, v)]) (range (zlen ts));
   from_kv_pairs entries) = okR (tjson (JObject (delete i ks) (delete i ts))).
Proof.
  intros Ht Hf Hok. assert (Hs : StronglySorted bytes_lt ks) by (by inversion Ht).
  pose proof (jok_names _ Ht eq_refl) as Hl. cbn in Hl. apply (find_name_Some _ _ _ Hs) in Hf.
  pose proof (lookup_lt_Some _ _ _ Hf) as Hlt.
  rewrite (flatR_range _ (λ j c, if bytes_eqb (default [] (ks !! j)) k then [] else [oentry q ks ts j c]) ts).
  - rewrite rbind_ok, (concat_delete (oentry q ks ts) (λ j _, bytes_eqb (default [] (ks !! j)) k) ts i); [|lia|].
    + destruct (object_entries_tree q ks ts Ht) as [_ Hm]. apply (matches_delete _ _ i) in Hm.
      rewrite delete_zip in Hm by done.
      destruct (zip_names (delete i ks) (delete i ts)) as [E1 E2]; [rewrite !length_delete by (apply lookup_lt_is_Some; lia); lia|].
      rewrite (from_kv_pairs_matches _ _ _ (sort_entries_sorted _ ltac:(rewrite (matches_names _ _ Hm), E1; by apply delete_sorted)) Hm);
        rewrite E1, E2; done.
    + intros j c Hc. destruct (object_entry_tree q ks ts j c Ht Hc) as [_ Hk]. rewrite bytes_eqb_eq. split.
      * intros E. rewrite E in Hk. destruct (Nat.lt_trichotomy j i) as [H|[H|H]]; [|done|];
          exfalso; eapply (bytes_lt_irrefl k), (sorted_lookup_lt _ _ Hs); [exact Hk|exact Hf|done|exact Hf|exact Hk|done].
      * intros ->. by rewrite Hf.
  - intros j c Hc. destruct (object_entry_tree q ks ts j c Ht Hc) as [_ Hk].
    rewrite (object_get_soliton_id_tree q ks ts j _ Ht Hk). cbn [liftR]. rewrite rbind_ok.
    destruct (bytes_eqb _ k); [done|]. by rewrite (object_get_val_tree q ks ts j c Ht Hc), rbind_ok.
Qed.

(** What the last leg of a path designates is in the parent. *)
Lemma last_found ls parent leg t : Forall plain ls → tfind ls t ≠ [] → split_last ls = Some (parent, leg) →
  plain leg ∧ Forall plain parent ∧ ∃ π c, tfind parent t = [(π, c)] ∧ tfind [leg] c ≠ [].
Proof.
  intros Hp Hne Hsp. apply split_last_Some in Hsp as ->. apply Forall_app in Hp as [Hp Hleg%Forall_inv].
  rewrite tfind_app in Hne. pose proof (plain_unique parent Hp t) as Hu.
  destruct (tfind parent t) as [|[π c] [|x l]]; cbn [length] in Hu; [done| |lia].
  split_and!; [done..|]. exists π, c. split; [done|]. intros E. apply Hne. unfold chain. cbn [map concat snd]. by rewrite E.
Qed.

Lemma found_index i ts : 0 <= i → tfind [Index i] (JArray ts) ≠ [] → (Z.to_nat i < length ts)%nat.
Proof.
  intros Hi H. cbn in H. destruct (Z.eqb_spec i (-1)); [lia|]. rewrite (proj2 (Z.leb_le 0 i)) in H by done.
  unfold member in H. destruct (ts !! Z.to_nat i) eqn:E; [by eapply lookup_lt_Some|done].
Qed.

Lemma found_key k ks ts : k ≠ LOCAL_PATH_EXPR_ASTERISK → tfind [Key k] (JObject ks ts) ≠ [] →
  ∃ i, find_name k ks = Some i.
Proof.
  intros Hk H. cbn in H. destruct (bytes_eqb k LOCAL_PATH_EXPR_ASTERISK) eqn:E; [by apply bytes_eqb_eq in E|].
  destruct (find_name k ks); [eauto|done].
Qed.

Lemma usize_pred (n : nat) : (0 < n)%nat → Z.of_nat n <= U32_MAX → usize (Z.of_nat n - 1) = Ret (Z.of_nat n - 1).
Proof. intros. apply usize_ok. mach. lia. Qed.

Lemma do_remove_tree t ls parent leg : jok t → Forall plain ls → tfind ls t ≠ [] →
  split_last ls = Some (parent, leg) → ∃ π c, tfind parent t = [(π, c)]
  ∧ ((∀ c', tshrink c leg = Some c' → jok c') → do_remove (BinaryModifier_new (tref 0 t)) ls
     = okR (match tshrink c leg with
            | Some c' => with_change (BinaryModifier_new (tref 0 t)) (0 + addr t π) (tjson c')
            | None => BinaryModifier_new (tref 0 t)
            end)).
Proof.
  intros Ht Hp Hne Hsp. destruct (last_found _ _ _ _ Hp Hne Hsp) as (Hleg & Hpp & π & c & Ef & Hfound).
  exists π, c. split; [done|]. intros Hok. unfold do_remove. rewrite Hsp. cbn [old BinaryModifier_new].
  rewrite (extract_json_tree parent (plain_all_ok _ Hpp) 0 t Ht), rbind_ok, Ef. cbn [map].
  assert (Hc : jok c). { apply (node_ok π t c Ht). apply (find_node parent t (π, c)). rewrite Ef. constructor. }
  change (at_ 0 t (π, c)) with (tref (0 + addr t π) c). set (q := 0 + addr t π).
  destruct leg as [i|k|]; [| |done].
  - destruct c as [| | | | | |ts|ks ts]; rewrite get_type_tref; cbn [tshrink ttype] in *; try done.
    pose proof (found_index i ts (proj1 Hleg) Hfound) as Hi.
    rewrite (elem_count_tree q (JArray ts) Hc eq_refl). cbn [liftR children]. rewrite rbind_ok.
    rewrite usize_pred by (lia || by apply (children_count (JArray ts))). cbn [liftR]. rewrite rbind_ok.
    pose proof (shrink_array q ts i Hc Hleg Hi (Hok _ eq_refl)) as E. apply rbind_inv in E as (elems & -> & E).
    by rewrite rbind_ok, E.
  - destruct c as [| | | | | | |ks ts]; rewrite get_type_tref; cbn [tshrink ttype] in *; try done.
    destruct (found_key k ks ts Hleg Hfound) as [i Hi]. rewrite Hi in *.
    pose proof (jok_names _ Hc eq_refl) as Hl. cbn in Hl.
    assert (0 < length ts)%nat.
    { apply (find_name_Some _ _ _ ltac:(by inversion Hc)), lookup_lt_Some in Hi. lia. }
    rewrite (elem_count_tree q (JObject ks ts) Hc eq_refl). cbn [liftR children]. rewrite rbind_ok.
    rewrite usize_pred by (lia || by apply (children_count (JObject ks ts))). cbn [liftR]. rewrite rbind_ok.
    pose proof (shrink_object q ks ts k i Hc Hi (Hok _ eq_refl)) as E. apply rbind_inv in E as (es & -> & E).
    by rewrite rbind_ok, E.
Qed.

(** ** Removal keeps documents well-formed *)

Lemma bodies_delete cs i : zlen (bodies (delete i cs)) <= zlen (bodies cs).
Proof.
  rewrite delete_take_drop. destruct (cs !! i) as [c|] eqn:E.
  - rewrite <- (take_drop_middle cs i c E) at 3. rewrite !bodies_app, bodies_cons, !length_app. lia.
  - apply lookup_ge_None in E. rewrite take_ge, drop_ge, app_nil_r by lia. lia.
Qed.

Lemma concat_delete_le (ks : list (list Z)) i : zlen (concat (delete i ks)) <= zlen (concat ks).
Proof.
  rewrite delete_take_drop. destruct (ks !! i) as [c|] eqn:E.
  - rewrite <- (take_drop_middle ks i c E) at 3. rewrite !concat_app. cbn [concat]. rewrite !length_app. lia.
  - apply lookup_ge_None in E. rewrite take_ge, drop_ge, app_nil_r by lia. lia.
Qed.

Lemma delete_length_le {A} (l : list A) i : (length (delete i l) <= length l)%nat.
Proof. rewrite delete_take_drop, length_app, length_take, length_drop. lia. Qed.

Lemma tshrink_ok c leg c' : jok c → tshrink c leg = Some c' →
  jok c' ∧ zlen (body (tcell c')) <= zlen (body (tcell c)).
Proof.
  intros Hc E. pose proof (jok_children _ Hc) as Hk. destruct leg as [i|k|], c as [| | | | | |ts|ks ts]; try done; cbn in E.
  - injection E as <-. assert (zlen (enc (JArray (delete (Z.to_nat i) ts))) <= zlen (enc (JArray ts))) as Hle.
    { change (zlen (layout [] (map tcell (delete (Z.to_nat i) ts))) <= zlen (layout [] (map tcell ts))).
      rewrite !layout_length. unfold lsize, start. rewrite !length_map.
      change (map tcell ?l) with (tcell <$> l). rewrite list_fmap_delete.
      pose proof (bodies_delete (tcell <$> ts) (Z.to_nat i)). pose proof (delete_length_le ts (Z.to_nat i)). lia. }
    split; [|exact Hle]. pose proof (jok_size (JArray ts) eq_refl Hc). constructor; [by apply Forall_delete|lia].
  - destruct (find_name k ks) as [i|]; [|done]. injection E as <-. inversion Hc as [| | | | | | |? ? _ Hl Hs Hsh Hsz]; subst.
    assert (zlen (enc (JObject (delete i ks) (delete i ts))) <= zlen (enc (JObject ks ts))) as Hle.
    { change (zlen (layout (delete i ks) (map tcell (delete i ts))) <= zlen (layout ks (map tcell ts))).
      rewrite !layout_length. unfold lsize, start. rewrite !length_map.
      change (map tcell ?l) with (tcell <$> l). rewrite list_fmap_delete.
      pose proof (bodies_delete (tcell <$> ts) i). pose proof (delete_length_le ts i).
      pose proof (delete_length_le ks i). pose proof (concat_delete_le ks i). lia. }
    split; [|exact Hle]. constructor; [by apply Forall_delete| |by apply delete_sorted|by apply Forall_delete|lia].
    rewrite !delete_take_drop, !length_app, !length_take, !length_drop. lia.
Qed.

Lemma bodies_alter cs i (c c' : cell) : cs !! i = Some c → zlen (body c') <= zlen (body c) →
  zlen (bodies (<[i := c']> cs)) <= zlen (bodies cs).
Proof.
  intros Hi Hle. rewrite insert_take_drop by (by eapply lookup_lt_Some).
  rewrite <- (take_drop_middle cs i c Hi) at 3. rewrite !bodies_app, !bodies_cons, !length_app. lia.
Qed.

(** Putting a smaller value in the place of a member. *)
Lemma upd_ok π : ∀ t c c', jok t → node t π = Some c → jok c' → zlen (body (tcell c')) <= zlen (body (tcell c)) →
  jok (upd t π c') ∧ zlen (body (tcell (upd t π c'))) <= zlen (body (tcell t)).
Proof.
  induction π as [|i π IH]; intros t c c' Ht Hn Hc' Hle; [by injection Hn as ->|].
  pose proof (node_container _ _ _ _ Hn) as Hc. pose proof (jok_children _ Ht) as Hk. cbn [node] in Hn.
  destruct (children t !! i) as [d|] eqn:Hd; [|done].
  destruct (IH d c c' (Forall_lookup_1 _ _ _ _ Hk Hd) Hn Hc' Hle) as [Hu Hul].
  assert (Ea : alter (λ c, upd c π c') i (children t) = <[i := upd d π c']> (children t)).
  { apply list_eq. intros j. destruct (decide (i = j)) as [<-|Hne].
    - rewrite list_lookup_alter_eq, list_lookup_insert_eq, Hd by (by eapply lookup_lt_Some). done.
    - by rewrite list_lookup_alter_ne, list_lookup_insert_ne by done. }
  assert (Hks : Forall jok (<[i := upd d π c']> (children t))) by (by apply Forall_insert).
  assert (Hsz : ∀ ks, zlen (layout ks (map tcell (<[i := upd d π c']> (children t)))) <= zlen (layout ks (map tcell (children t)))).
  { intros ks. rewrite !layout_length. unfold lsize, start. rewrite !length_map, length_insert.
    change (map tcell ?l) with (tcell <$> l). rewrite list_fmap_insert.
    assert (zlen (bodies (<[i:=tcell (upd d π c')]> (tcell <$> children t))) <= zlen (bodies (tcell <$> children t))); [|lia].
    apply (bodies_alter _ _ (tcell d)); [by rewrite list_lookup_fmap, Hd|done]. }
  destruct t as [| | | | | |ts|ks ts]; try done; cbn [upd children] in *; rewrite Ea; cbn [tcell ttype body fst snd].
  - specialize (Hsz []). split; [|exact Hsz]. pose proof (jok_size (JArray ts) eq_refl Ht) as Hl. constructor; [done|].
    etransitivity; [exact Hsz|exact Hl].
  - specialize (Hsz ks). split; [|exact Hsz]. inversion Ht as [| | | | | | |? ? _ Hln Hs Hsh Hl]; subst.
    constructor; [done|by rewrite length_insert|done..|]. etransitivity; [exact Hsz|exact Hl].
Qed.
(** ** The operations *)

Lemma as_ref_tjson t : as_ref (tjson t) = tref 0 t.
Proof. reflexivity. Qed.

Lemma remove_legs_tree t ls : jok t → Forall plain ls →
  remove_legs (BinaryModifier_new (tref 0 t)) ls = okR (tjson (tremove_one t ls)) ∧ jok (tremove_one t ls).
Proof.
  intros Ht Hp. unfold remove_legs, tremove_one. cbn [old BinaryModifier_new].
  rewrite (extract_json_tree ls (plain_all_ok _ Hp) 0 t Ht), rbind_ok.
  destruct (tfind ls t) as [|x l] eqn:Ef; [done|]. cbn [map].
  destruct (split_last ls) as [[parent leg]|] eqn:Es.
  2: { unfold do_remove. rewrite Es, rbind_ok, rebuild_same by done. done. }
  destruct (do_remove_tree t ls parent leg Ht Hp ltac:(by rewrite Ef) Es) as (π & c & Epar & Hdo).
  assert (Hn : node t π = Some c) by (apply (find_node parent t (π, c)); rewrite Epar; constructor).
  assert (Hc : jok c) by (by apply (node_ok π t c)).
  rewrite Hdo, rbind_ok, Epar by (intros c' E; by apply (tshrink_ok c leg c' Hc E)).
  destruct (tshrink c leg) as [c'|] eqn:Esh; [|by rewrite rebuild_same].
  destruct (tshrink_ok c leg c' Hc Esh) as [Hc' Hle]. destruct (upd_ok π t c c' Ht Hn Hc' Hle) as [Hu _].
  by rewrite (rebuild_tree t π c c').
Qed.

Lemma any_asterisk_cons (e : local_pathExpression) es : existsb contains_any_asterisk (e :: es) = false →
  path_ok e → Forall plain (legs e) ∧ existsb contains_any_asterisk es = false.
Proof. cbn. intros [H1 H2]%orb_false_iff He. auto. Qed.

(** [remove] fails exactly when a path is empty or has a wildcard; otherwise it
    returns the document of the value without the members the paths designate, one
    after the other, and never panics: the result of each step is well-formed. *)
Theorem remove_exact p t es : jok t → Forall path_ok es →
  remove (tref p t) es
  = if existsb (λ e, bool_decide (legs e = []) || contains_any_asterisk e) es then errR Other
    else okR (tjson (tremove t es)).
Proof.
  intros Ht Hes. unfold remove. destruct (existsb _ es) eqn:Eb; [done|].
  change (to_owned (tref p t)) with (tjson t). clear p. revert t Ht.
  induction es as [|e es IH]; intros t Ht; [done|]. apply Forall_cons_1 in Hes as [He Hes].
  cbn [existsb] in Eb. apply orb_false_iff in Eb as [[_ E1]%orb_false_iff E2].
  destruct (remove_legs_tree t (legs e) Ht (He E1)) as [E Hok]. cbn [foldR]. rewrite as_ref_tjson, E, rbind_ok.
  by rewrite IH.
Qed.

(** Inserting, when nothing is found at the path. *)
Lemma insert_tree t ls n : jok t → Forall plain ls → tfind ls t = [] → jok (tinsert t ls n) →
  (m ←? do_insert (BinaryModifier_new (tref 0 t)) ls (tjson n); rebuild m) = okR (tjson (tinsert t ls n)).
Proof.
  intros Ht Hp Hnone Hok. unfold tinsert in *. destruct (split_last ls) as [[parent leg]|] eqn:Es.
  2: { unfold do_insert. by rewrite Es, rbind_ok, rebuild_same. }
  destruct (tfind parent t) as [|[π c] l] eqn:Ef.
  { unfold do_insert. rewrite Es. cbn [old BinaryModifier_new].
    pose proof (split_last_Some _ _ _ Es) as ->. apply Forall_app in Hp as [Hp _].
    rewrite (extract_json_tree parent (plain_all_ok _ Hp) 0 t Ht), Ef. cbn [map]. by rewrite !rbind_ok, rebuild_same. }
  assert (Hn : node t π = Some c) by (apply (find_node parent t (π, c)); rewrite Ef; constructor).
  assert (Hupd : ∀ c', node (upd t π c') π = Some c').
  { intros c'. clear -Hn. revert t Hn. induction π as [|i π IH]; intros t Hn; [done|].
    pose proof (node_container _ _ _ _ Hn) as Hc. destruct (upd_container t i π c' Hc) as (_ & _ & Ec).
    cbn [node] in *. rewrite Ec, list_lookup_alter_eq. destruct (children t !! i) as [d|]; [|done]. cbn. by apply IH. }
  rewrite (do_insert_tree t ls n parent leg π c l Ht Hp Hnone Es Ef).
  - rewrite rbind_ok. destruct (tgrow c leg n) as [c'|]; [by apply (rebuild_tree t π c c')|by apply rebuild_same].
  - intros c' E. rewrite E in Hok. by apply (node_ok π _ c' Hok).
Qed.

Lemma modify_one_tree mt t e n : mt ≠ UnCausetLocaleNucleon → jok t → Forall plain (legs e) →
  jok (tmodify_one mt t (legs e) n) →
  modify_one mt (tjson t) e (tjson n) = okR (tjson (tmodify_one mt t (legs e) n)).
Proof.
  intros Hmt Ht Hp Hok. unfold modify_one, tmodify_one in *. rewrite as_ref_tjson.
  assert (Ex := extract_json_tree (legs e) (plain_all_ok _ Hp) 0 t Ht).
  destruct (tfind (legs e) t) as [|[π c] l] eqn:Ef; cbn [map] in Ex.
  - destruct mt; try done; unfold insert, replace, set; cbn [old BinaryModifier_new]; rewrite Ex, rbind_ok;
      try done; by apply insert_tree.
  - assert (Hn : node t π = Some c) by (apply (find_node (legs e) t (π, c)); rewrite Ef; constructor).
    destruct mt; try done; unfold insert, replace, set; cbn [old BinaryModifier_new]; rewrite Ex, rbind_ok;
      try done; by apply (rebuild_tree t π c n).
Qed.

(** C2. [modify] fails exactly when the paths and the values are not as many, or a
    path has a wildcard; otherwise it sets, inserts or replaces the values at the paths
    one after the other, and returns the document of the value so obtained. *)
Theorem modify_exact mt p t es ns : mt ≠ UnCausetLocaleNucleon → Forall path_ok es →
  (∀ k, jok (tmodify mt t (take k (zip es ns)))) →
  modify (tref p t) es (map tjson ns) mt
  = if negb (zlen es =? zlen ns) then errR Other
    else if existsb contains_any_asterisk es then errR Other
    else okR (tjson (tmodify mt t (zip es ns))).
Proof.
  intros Hmt Hes Hok. unfold modify. rewrite length_map. destruct (negb (zlen es =? zlen ns)); [done|].
  destruct (existsb contains_any_asterisk es) eqn:Eb; [done|].
  change (to_owned (tref p t)) with (tjson t). clear p. revert t ns Hok.
  induction es as [|e es IH]; intros t ns Hok; [done|]. apply Forall_cons_1 in Hes as [He Hes].
  destruct (any_asterisk_cons e es Eb He) as [Hp Eb']. destruct ns as [|n ns]; [done|].
  cbn [map zip zip_with foldR]. pose proof (Hok 0%nat) as H0. pose proof (Hok 1%nat) as H1. cbn in H0, H1.
  rewrite (modify_one_tree mt t e n Hmt H0 Hp H1), rbind_ok.
  apply (IH Hes Eb' (tmodify_one mt t (legs e) n) ns). intros k. apply (Hok (S k)).
Qed.
End Ops.


(** The path leads to a member, an index always meeting an array. *)
Fixpoint direct (ls : list local_pathLeg) (t : jtree) : bool :=
  match ls with
  | [] => true
  | Index i :: sub =>
      match t with
      | JArray ts => match ts !! Z.to_nat i with Some c => direct sub c | None => false end
      | _ => false
      end
  | Key k :: sub =>
      match t with
      | JObject ks ts =>
          match find_name k ks with
          | Some i => match ts !! i with Some c => direct sub c | None => false end
          | None => false
          end
      | _ => false
      end
  | DoubleAsterisk :: _ => false
  end.

Lemma direct_find ls : Forall plain ls → ∀ t, direct ls t = true →
  ∃ π c, tfind ls t = [(π, c)] ∧ ∀ n, tfind ls (upd t π n) = [(π, n)].
Proof.
  induction 1 as [|[i|k|] ls Hl _ IH]; intros t Hd; [by exists [], t| | |done].
  - destruct t as [| | | | | |ts|]; try done. cbn [direct] in Hd. cbn [plain] in Hl.
    destruct (ts !! Z.to_nat i) as [c|] eqn:Hc; [|done]. destruct (IH c Hd) as (π & d & E & Hu).
    exists (Z.to_nat i :: π), d. cbn [tfind upd]. rewrite (proj2 (Z.eqb_neq i (-1))), (proj2 (Z.leb_le 0 i)) by lia.
    unfold member. rewrite Hc. split; [by rewrite E|]. intros n. rewrite list_lookup_alter_eq, Hc. cbn. by rewrite Hu.
  - destruct t as [| | | | | | |ks ts]; try done. cbn [direct] in Hd. cbn [plain] in Hl.
    destruct (find_name k ks) as [i|] eqn:Ek; [|done].
    destruct (ts !! i) as [c|] eqn:Hc; [|done]. destruct (IH c Hd) as (π & d & E & Hu).
    exists (i :: π), d. cbn [tfind upd]. destruct (bytes_eqb k LOCAL_PATH_EXPR_ASTERISK) eqn:Ea; [by apply bytes_eqb_eq in Ea|].
    rewrite Ek. unfold member. rewrite Hc. split; [by rewrite E|]. intros n. rewrite list_lookup_alter_eq, Hc. cbn. by rewrite Hu.
Qed.

Lemma direct_app ls1 ls2 : ∀ t, direct (ls1 ++ ls2) t = true → direct ls1 t = true.
Proof.
  induction ls1 as [|[i|k|] ls1 IH]; intros t H; cbn in *; try done; destruct t; try done.
  - destruct (ts !! Z.to_nat i); auto.
  - destruct (find_name k ks) as [i|]; [|done]. destruct (ts !! i); auto.
Qed.

(** A name that was deleted is no longer found. *)
Lemma find_name_deleted k ks i : StronglySorted bytes_lt ks → find_name k ks = Some i →
  find_name k (delete i ks) = None.
Proof.
  intros Hs Hf. pose proof Hf as Hi. apply (find_name_Some _ _ _ Hs) in Hi.
  destruct (find_name k (delete i ks)) as [j|] eqn:E; [exfalso|done].
  apply (find_name_Some _ _ _ (delete_sorted ks i Hs)) in E. rewrite list_lookup_delete in E.
  destruct (decide (j < i)%nat).
  - eapply (bytes_lt_irrefl k), (sorted_lookup_lt _ _ Hs j i); done.
  - eapply (bytes_lt_irrefl k), (sorted_lookup_lt _ _ Hs i (S j)); [done|done|lia].
Qed.

Section Laws.
Context {N : NumberCodec} {NL : NumberCodecLaws} {JW : JsonWriter} {WL : JsonWriterLaws}.

Lemma extract_one t e c π : jok t → Forall plain (legs e) → tfind (legs e) t = [(π, c)] →
  extract (tref 0 t) [e] = okR (Some (tjson c)).
Proof.
  intros Ht Hp Hf. pose proof (extract_tree 0 t [e] Ht) as E. unfold textract in E. cbn [map legs concat] in E.
  rewrite Hf in E. apply E; [by repeat constructor; apply plain_all_ok|].
  intros cs Hcs. injection Hcs as Hcs. apply (jok_size (JArray cs) eq_refl). rewrite <- Hcs.
  apply (find_ok (legs e) t (π, c) Ht). rewrite Hf. constructor.
Qed.

Lemma extract_none t e : jok t → Forall plain (legs e) → tfind (legs e) t = [] →
  extract (tref 0 t) [e] = okR None.
Proof.
  intros Ht Hp Hf. pose proof (extract_tree 0 t [e] Ht) as E. unfold textract in E. cbn [map legs concat] in E.
  rewrite Hf in E. apply E; [by repeat constructor; apply plain_all_ok|done].
Qed.

(** Setting or replacing the value of an existing member succeeds, and the path
    then finds in the new document the value that was set. *)
Theorem set_then_extract mt p t e n : mt = Set_ ∨ mt = Replace → jok t →
  contains_any_asterisk e = false → Forall plain (legs e) → direct (legs e) t = true →
  jok (tmodify_one mt t (legs e) n) →
  ∃ d, modify (tref p t) [e] [tjson n] mt = okR d ∧ extract (as_ref d) [e] = okR (Some (tjson n)).
Proof.
  intros Hmt Ht Ha Hp Hd Hok. destruct (direct_find _ Hp t Hd) as (π & c & Hf & Hu).
  exists (tjson (tmodify_one mt t (legs e) n)). split.
  - unfold modify. cbn [length existsb]. rewrite Ha. cbn [Z.eqb negb orb zip zip_with foldR].
    change (to_owned (tref p t)) with (tjson t). cbn. rewrite (modify_one_tree mt t e n); [done| |done..].
    by destruct Hmt as [->| ->].
  - rewrite as_ref_tjson. assert (E : tmodify_one mt t (legs e) n = upd t π n).
    { unfold tmodify_one. rewrite Hf. by destruct Hmt as [->| ->]. }
    rewrite E in *. by apply (extract_one _ e n π).
Qed.

(** After a member of an object was removed, its path finds nothing. *)
Theorem remove_then_extract p t e parent k : jok t → legs e = parent ++ [Key k] →
  contains_any_asterisk e = false → Forall plain (legs e) → direct (legs e) t = true →
  ∃ d, remove (tref p t) [e] = okR d ∧ extract (as_ref d) [e] = okR None.
Proof.
  intros Ht El Ha Hp Hd. destruct (remove_legs_tree t (legs e) Ht Hp) as [Erem Hok].
  exists (tjson (tremove_one t (legs e))). split.
  - unfold remove. cbn [existsb]. rewrite Ha, (bool_decide_eq_false_2 (legs e = [])) by (rewrite El; by destruct parent).
    cbn [orb foldR]. change (to_owned (tref p t)) with (tjson t). by rewrite as_ref_tjson, Erem.
  - rewrite as_ref_tjson. apply extract_none; [done..|]. destruct (direct_find _ Hp t Hd) as (ρ & x & Hf & _).
    unfold tremove_one. rewrite Hf, El in *. pose proof (direct_app _ _ _ Hd) as Hdp.
    apply Forall_app in Hp as [Hpp Hk%Forall_inv]. destruct (direct_find _ Hpp t Hdp) as (π & c & Hpar & Hu).
    assert (split_last (parent ++ [Key k]) = Some (parent, Key k)) as ->.
    { unfold split_last. by rewrite reverse_snoc, reverse_involutive. }
    rewrite Hpar. rewrite tfind_app, Hpar in Hf. unfold chain in Hf. cbn [map concat snd] in Hf. rewrite app_nil_r in Hf.
    destruct c as [| | | | | | |ks ts]; try done. cbn [plain] in Hk.
    destruct (found_key k ks ts Hk) as [i Hi]; [by intros E; rewrite E in Hf|].
    cbn [tshrink]. rewrite Hi, tfind_app, Hu. unfold chain. cbn [map concat snd tfind].
    destruct (bytes_eqb k LOCAL_PATH_EXPR_ASTERISK) eqn:Ea; [by apply bytes_eqb_eq in Ea|].
    assert (Hc : jok (JObject ks ts)).
    { apply (node_ok π t _ Ht). apply (find_node parent t (π, JObject ks ts)). rewrite Hpar. constructor. }
    rewrite (find_name_deleted k ks i); [done|by inversion Hc|done].
Qed.
End Laws.
