(* ===== verification/JsonCmp.v ===== *)
(** * JsonCmp: the order of JSON values

    [comparison.rs] of [berolinasql/src]: the comparison of documents, what it compares
    on the trees they encode, its symmetry, and a cycle in it. *)
From Stdlib Require Import ZArith Lia Sorted SpecFloat.
From stdpp Require Import base list numbers.
From S2P Require Import Prelude EvalCtx Slice Float JsonBinary JsonTree JsonExtract.
#[local] Open Scope Z_scope.

#[local] Notation zlen l := (Z.of_nat (length l)).

(** ** The code *)

Definition PRECEDENCE_BOOLEAN : Z := -7.
Definition PRECEDENCE_ARRAY : Z := -8.
Definition PRECEDENCE_OBJECT : Z := -9.
Definition PRECEDENCE_STRING : Z := -10.
Definition PRECEDENCE_NUMBER : Z := -11.
Definition PRECEDENCE_NULL : Z := -12.

Definition compare_i64_u64 (x y : Z) : comparison := if x <? 0 then Lt else as_u64 x ?= y.

Definition compare_f64_with_epsilon (x y : f64) : option comparison :=
  if f64_ltb (f64_abs (f64_sub x y)) F64_EPSILON then Some Eq else f64_partial_cmp x y.

(** [Option<bool>]'s order. *)
Definition bool_rank (b : option bool) : Z :=
  match b with None => 0 | Some false => 1 | Some true => 2 end.

Section Code.
Context {N : NumberCodec}.

Definition get_precedence (j : JsonRef) : outcome Z :=
  match get_type j with
  | Object => Ret PRECEDENCE_OBJECT
  | Array => Ret PRECEDENCE_ARRAY
  | Literal => l ← get_literal j; Ret (match l with None => PRECEDENCE_NULL | Some _ => PRECEDENCE_BOOLEAN end)
  | I64 | U64 | Double => Ret PRECEDENCE_NUMBER
  | String => Ret PRECEDENCE_STRING
  end.

Definition as_f64 (j : JsonRef) : rM f64 :=
  match get_type j with
  | I64 => liftR (v ← get_i64 j; Ret (f64_of_Z v))
  | U64 => liftR (v ← get_u64 j; Ret (f64_of_Z v))
  | Double => liftR (get_double j)
  | Literal =>
      match as_literal j with
      | Ret (Ok v) => okR (f64_of_Z v)
      | _ => Panic
      end
  | _ => errR Other
  end.

(** [unwrap] *)
Definition unwrapR {A} (c : rM A) : outcome A := match c with Ret (Ok a) => Ret a | _ => Panic end.

(** The loop on the elements of two arrays, [n] elements from the end. *)
Fixpoint array_loop (rec : JsonRef → JsonRef → outcome (option comparison)) (l r : JsonRef)
    (at_end : comparison) (n : nat) (i : Z) : outcome (option comparison) :=
  match n with
  | O => Ret (Some at_end)
  | S n =>
      match array_get_elem l i, array_get_elem r i with
      | Ret (Ok left_ele), Ret (Ok right_ele) =>
          o ← rec left_ele right_ele;
          match o with Some Eq => array_loop rec l r at_end n (i + 1) | order => Ret order end
      | Panic, _ | _, Panic => Panic
      | _, _ => Ret None
      end
  end.

(** [partial_cmp]: the element loop of the arrays ends with the shorter one. *)
Fixpoint json_partial_cmp (fuel : nat) (l r : JsonRef) : outcome (option comparison) :=
  match fuel with
  | O => Panic
  | S fuel =>
      pl ← get_precedence l;
      pr ← get_precedence r;
      let precedence_diff := pl - pr in
      if precedence_diff =? 0 then
        if pl =? PRECEDENCE_NULL then Ret (Some Eq)
        else match get_type l with
        | I64 =>
            match get_type r with
            | I64 => a ← get_i64 l; b ← get_i64 r; Ret (Some (a ?= b))
            | U64 => a ← get_i64 l; b ← get_u64 r; Ret (Some (compare_i64_u64 a b))
            | Double => a ← get_i64 l; b ← unwrapR (as_f64 r); Ret (compare_f64_with_epsilon (f64_of_Z a) b)
            | _ => Panic
            end
        | U64 =>
            match get_type r with
            | I64 => a ← get_i64 r; b ← get_u64 l; Ret (Some (CompOpp (compare_i64_u64 a b)))
            | U64 => a ← get_u64 l; b ← get_u64 r; Ret (Some (a ?= b))
            | Double => a ← get_u64 l; b ← unwrapR (as_f64 r); Ret (compare_f64_with_epsilon (f64_of_Z a) b)
            | _ => Panic
            end
        | Double => a ← unwrapR (as_f64 l); b ← unwrapR (as_f64 r); Ret (compare_f64_with_epsilon a b)
        | Literal => a ← get_literal l; b ← get_literal r; Ret (Some (bool_rank a ?= bool_rank b))
        | Object => Ret (Some (bytes_cmp (causet_locale l) (causet_locale r)))
        | String =>
            match get_str_bytes l, get_str_bytes r with
            | Ret (Ok a), Ret (Ok b) => Ret (Some (bytes_cmp a b))
            | Panic, _ | _, Panic => Panic
            | _, _ => Ret None
            end
        | Array =>
            left_count ← get_elem_count l;
            right_count ← get_elem_count r;
            array_loop (json_partial_cmp fuel) l r (left_count ?= right_count)
              (Z.to_nat (Z.min left_count right_count)) 0
        end
      else
        match as_f64 l, as_f64 r with
        | Ret (Ok ld), Ret (Ok rd) => Ret (f64_partial_cmp ld rd)
        | Panic, _ | _, Panic => Panic
        | _, _ => Ret (Some (if 0 <? precedence_diff then Gt else Lt))
        end
  end.

Definition partial_cmp (l r : JsonRef) : outcome (option comparison) :=
  json_partial_cmp (S (length (causet_locale l))) l r.

(** [Ord::cmp], [PartialEq::eq]. *)
Definition cmp (l r : JsonRef) : outcome comparison :=
  o ← partial_cmp l r; match o with Some c => Ret c | None => Panic end.
Definition eq (l r : JsonRef) : outcome bool :=
  o ← partial_cmp l r; Ret (match o with Some Eq => true | _ => false end).
End Code.

(** ** On trees *)

Definition tprec (t : jtree) : Z :=
  match t with
  | JNull => PRECEDENCE_NULL
  | JBool _ => PRECEDENCE_BOOLEAN
  | JI64 _ | JU64 _ | JDouble _ => PRECEDENCE_NUMBER
  | JString _ => PRECEDENCE_STRING
  | JArray _ => PRECEDENCE_ARRAY
  | JObject _ _ => PRECEDENCE_OBJECT
  end.

(** The number a value counts as beside a value of another kind. *)
Definition tnum (t : jtree) : option f64 :=
  match t with
  | JNull => Some (f64_of_Z 0)
  | JBool b => Some (f64_of_Z (if b then 1 else 2))
  | JI64 i => Some (f64_of_Z i)
  | JU64 u => Some (f64_of_Z u)
  | JDouble f => Some f
  | _ => None
  end.

Section Spec.
Context {N : NumberCodec}.

Fixpoint tcmp (t u : jtree) : option comparison :=
  match t, u with
  | JNull, JNull => Some Eq
  | JBool a, JBool b => Some (bool_rank (Some a) ?= bool_rank (Some b))
  | JI64 a, JI64 b | JU64 a, JU64 b | JI64 a, JU64 b | JU64 a, JI64 b => Some (a ?= b)
  | (JI64 a | JU64 a), JDouble b => compare_f64_with_epsilon (f64_of_Z a) b
  | JDouble a, (JI64 b | JU64 b) => compare_f64_with_epsilon a (f64_of_Z b)
  | JDouble a, JDouble b => compare_f64_with_epsilon a b
  | JString a, JString b => Some (bytes_cmp a b)
  | JArray ts, JArray us =>
      (fix go (ts us : list jtree) : option comparison :=
         match ts, us with
         | [], [] => Some Eq
         | [], _ :: _ => Some Lt
         | _ :: _, [] => Some Gt
         | t :: ts, u :: us => match tcmp t u with Some Eq => go ts us | o => o end
         end) ts us
  | JObject _ _, JObject _ _ => Some (bytes_cmp (enc t) (enc u))
  | _, _ =>
      match tnum t, tnum u with
      | Some a, Some b => f64_partial_cmp a b
      | _, _ => Some (if 0 <? tprec t - tprec u then Gt else Lt)
      end
  end.

(** The loop on its own. *)
Fixpoint tcmps (ts us : list jtree) : option comparison :=
  match ts, us with
  | [], [] => Some Eq
  | [], _ :: _ => Some Lt
  | _ :: _, [] => Some Gt
  | t :: ts, u :: us => match tcmp t u with Some Eq => tcmps ts us | o => o end
  end.

Lemma tcmp_arrays ts us : tcmp (JArray ts) (JArray us) = tcmps ts us.
Proof. reflexivity. Qed.

(** ** Symmetry *)

Lemma epsilon_antisym x y : compare_f64_with_epsilon y x = CompOpp <$> compare_f64_with_epsilon x y.
Proof.
  unfold compare_f64_with_epsilon. rewrite f64_abs_sub_sym. destruct (f64_ltb _ _); [done|]. apply f64_partial_cmp_antisym.
Qed.

Lemma tcmps_antisym ts : Forall (λ t, ∀ u, tcmp u t = CompOpp <$> tcmp t u) ts → ∀ us,
  tcmps us ts = CompOpp <$> tcmps ts us.
Proof.
  induction 1 as [|t ts Ht _ IH]; intros [|u us]; try done. cbn [tcmps]. rewrite Ht.
  destruct (tcmp t u) as [[]|]; cbn; auto.
Qed.

Lemma tcmp_antisym t : ∀ u, tcmp u t = CompOpp <$> tcmp t u.
Proof.
  assert (Hz : ∀ a b, Some (b ?= a) = CompOpp <$> Some (a ?= b)) by (intros; cbn; by rewrite Z.compare_antisym).
  assert (Hb : ∀ a b, Some (bytes_cmp b a) = CompOpp <$> Some (bytes_cmp a b)) by (intros a b; by rewrite (bytes_cmp_antisym a b)).
  assert (Hf := f64_partial_cmp_antisym). assert (He := epsilon_antisym).
  induction t as [|b|i|n|f|s|ts IH|ks ts IH] using jtree_rect'; intros [|b'|i'|n'|f'|s'|us|ks' us];
    first [reflexivity|apply Hz|apply Hf|apply He|apply Hb|rewrite !tcmp_arrays; by apply tcmps_antisym].
Qed.
End Spec.

(** ** The code compares the trees *)

Section Exact.
Context {N : NumberCodec} {NL : NumberCodecLaws}.

Lemma get_precedence_tree p t : get_precedence (tref p t) = Ret (tprec t).
Proof. by destruct t as [|[]| | | | | |]. Qed.

Lemma get_i64_tree p i : is_i64 i → get_i64 (tref p (JI64 i)) = Ret i.
Proof. apply i64_back. Qed.
Lemma get_u64_tree p u : is_u64 u → get_u64 (tref p (JU64 u)) = Ret u.
Proof. apply u64_back. Qed.
Lemma get_double_tree p f : f64_ok f = true → get_double (tref p (JDouble f)) = Ret f.
Proof. apply f64_back. Qed.

Lemma get_str_bytes_tree p s : is_u64 (zlen s) → get_str_bytes (tref p (JString s)) = okR s.
Proof.
  intros Hs. unfold get_str_bytes, assert_type, tref. cbn [get_type ttype guardM bool_decide causet_locale enc].
  rewrite bool_decide_eq_true_2 by done. cbn [guardM].
  rewrite var_u64_back by done. rewrite <- (app_nil_r s) at 2. by rewrite slice_mid.
Qed.

Lemma as_f64_tree p t : jok t → as_f64 (tref p t) = match tnum t with Some f => okR f | None => errR Other end.
Proof.
  intros Ht. unfold as_f64. destruct t as [|[]|i|u|f|s|ts|ks ts]; try done; cbn [get_type tref ttype tnum];
    inversion Ht; subst.
  - fold (tref p (JI64 i)). by rewrite get_i64_tree.
  - fold (tref p (JU64 u)). by rewrite get_u64_tree.
  - fold (tref p (JDouble f)). by rewrite get_double_tree.
Qed.

Lemma compare_i64_u64_exact i u : is_i64 i → is_u64 u → compare_i64_u64 i u = (i ?= u).
Proof.
  intros Hi Hu. unfold compare_i64_u64. destruct (Z.ltb_spec i 0).
  - symmetry. apply Z.compare_lt_iff. mach. lia.
  - rewrite as_u64_id; [done|]. mach. lia.
Qed.

Lemma array_loop_tree fuel p q ts us : jok (JArray ts) → jok (JArray us) →
  (∀ i t u p q, ts !! i = Some t → us !! i = Some u →
     json_partial_cmp fuel (tref p t) (tref q u) = Ret (tcmp t u)) → ∀ n i,
  (n + i = length ts `min` length us)%nat →
  array_loop (json_partial_cmp fuel) (tref p (JArray ts)) (tref q (JArray us)) (zlen ts ?= zlen us) n (Z.of_nat i)
  = Ret (tcmps (drop i ts) (drop i us)).
Proof.
  intros Ht Hu Hrec n. induction n as [|n IH]; intros i Hi; cbn [array_loop].
  - f_equal. destruct (drop i ts) as [|t l] eqn:E1, (drop i us) as [|u l'] eqn:E2; cbn [tcmps].
    all: apply (f_equal length) in E1, E2; rewrite length_drop in E1, E2; cbn [length] in E1, E2.
    + by rewrite (proj2 (Z.compare_eq_iff _ _)) by lia.
    + by rewrite (proj2 (Z.compare_lt_iff _ _)) by lia.
    + by rewrite (proj2 (Z.compare_gt_iff _ _)) by lia.
    + lia.
  - destruct (lookup_lt_is_Some_2 ts i) as [t Hti]; [lia|]. destruct (lookup_lt_is_Some_2 us i) as [u Hui]; [lia|].
    rewrite (array_get_elem_tree p ts i t Ht Hti), (array_get_elem_tree q us i u Hu Hui). cbn [okR].
    unfold okR. rewrite (Hrec i t u _ _ Hti Hui). bindr. rewrite (drop_S _ _ _ Hti), (drop_S _ _ _ Hui). cbn [tcmps].
    destruct (tcmp t u) as [[]|]; try done. replace (Z.of_nat i + 1) with (Z.of_nat (S i)) by lia. apply IH. lia.
Qed.

(** Values of different kinds are compared as numbers, or by kind. *)
Lemma tcmp_kinds t u : tprec t ≠ tprec u →
  tcmp t u = match tnum t, tnum u with
             | Some a, Some b => f64_partial_cmp a b
             | _, _ => Some (if 0 <? tprec t - tprec u then Gt else Lt)
             end.
Proof. destruct t, u; done. Qed.

Lemma json_partial_cmp_kinds fuel p q t u : jok t → jok u → tprec t ≠ tprec u →
  json_partial_cmp (S fuel) (tref p t) (tref q u) = Ret (tcmp t u).
Proof.
  intros Ht Hu Hne. cbn [json_partial_cmp]. rewrite !get_precedence_tree. bindr. cbv zeta.
  rewrite (proj2 (Z.eqb_neq _ 0)) by lia. rewrite !as_f64_tree, tcmp_kinds by done. unfold okR, errR.
  by destruct (tnum t), (tnum u).
Qed.

Lemma json_partial_cmp_numbers fuel p q t u : jok t → jok u →
  tprec t = PRECEDENCE_NUMBER → tprec u = PRECEDENCE_NUMBER →
  json_partial_cmp (S fuel) (tref p t) (tref q u) = Ret (tcmp t u).
Proof.
  intros Ht Hu E1 E2. cbn [json_partial_cmp]. rewrite !get_precedence_tree, E1, E2. bindr. cbv zeta iota beta.
  change (PRECEDENCE_NUMBER - PRECEDENCE_NUMBER =? 0) with true. change (PRECEDENCE_NUMBER =? PRECEDENCE_NULL) with false.
  cbv iota. pose proof (as_f64_tree p t Ht) as Ft. pose proof (as_f64_tree q u Hu) as Fu.
  inversion Ht; subst; try done; inversion Hu; subst; try done; cbn [get_type tref ttype tnum tcmp] in *;
    rewrite ?Ft, ?Fu; unfold unwrapR, okR;
    rewrite ?(get_i64_tree p), ?(get_u64_tree p), ?(get_i64_tree q), ?(get_u64_tree q) by done; bindr;
    rewrite ?compare_i64_u64_exact by done; try done.
  by rewrite Z.compare_antisym, CompOpp_involutive.
Qed.

Lemma json_partial_cmp_tree t : jok t → ∀ u p q fuel, jok u → (tdepth t <= fuel)%nat →
  json_partial_cmp fuel (tref p t) (tref q u) = Ret (tcmp t u).
Proof.
  induction t as [|b|i|n|f|s|ts IH|ks ts IH] using jtree_rect'; intros Ht u p q [|fuel] Hu Hf; try (cbn in Hf; lia);
    (destruct (Z.eq_dec (tprec u) PRECEDENCE_NUMBER) as [E|E];
       [first [by apply json_partial_cmp_numbers|apply json_partial_cmp_kinds; [done|done|by rewrite E]]|]);
    destruct u as [|b'|i'|n'|f'|s'|us|ks' us]; try done; try (by apply json_partial_cmp_kinds).
  - by destruct b, b'.
  - cbn [json_partial_cmp]. rewrite !get_precedence_tree. bindr. cbn. inversion Ht; inversion Hu; subst.
    fold (tref p (JString s)) (tref q (JString s')). rewrite !get_str_bytes_tree by (unfold is_u64; lia). done.
  - cbn [json_partial_cmp]. rewrite !get_precedence_tree. bindr. cbn [tprec]. cbv zeta.
    change (PRECEDENCE_ARRAY - PRECEDENCE_ARRAY =? 0) with true. change (PRECEDENCE_ARRAY =? PRECEDENCE_NULL) with false.
    cbv iota. cbn [get_type tref ttype]. fold (tref p (JArray ts)) (tref q (JArray us)).
    rewrite !elem_count_tree by done. bindr. cbn [children].
    rewrite <- Nat2Z.inj_min, Nat2Z.id. change 0 with (Z.of_nat 0).
    apply (array_loop_tree fuel p q ts us Ht Hu); [|lia].
    intros j t u p' q' Hj Hj'. apply (Forall_lookup_1 _ _ _ _ IH Hj).
    + exact (Forall_lookup_1 _ _ _ _ (jok_children _ Ht) Hj).
    + exact (Forall_lookup_1 _ _ _ _ (jok_children _ Hu) Hj').
    + pose proof (depth_child (JArray ts) j t eq_refl Hj). lia.
Qed.

(** C37. Comparing two documents never panics, and returns the comparison of the
    values they encode. *)
Theorem partial_cmp_exact p q t u : jok t → jok u →
  partial_cmp (tref p t) (tref q u) = Ret (tcmp t u).
Proof.
  intros Ht Hu. apply json_partial_cmp_tree; [done..|apply fuel_enough].
Qed.

(** Comparing in the other direction gives the opposite answer. *)
Theorem json_partial_cmp_antisym p q t u : jok t → jok u →
  partial_cmp (tref q u) (tref p t) = (o ← partial_cmp (tref p t) (tref q u); Ret (option_map CompOpp o)).
Proof.
  intros Ht Hu. unfold partial_cmp. rewrite !json_partial_cmp_tree by (done || apply fuel_enough).
  bindr. by rewrite (tcmp_antisym t u).
Qed.
(** ** Documents determine values *)

Lemma map_tcell_inj ts us : Forall (λ t, ∀ u, jok t → jok u → tcell t = tcell u → t = u) ts →
  Forall jok ts → Forall jok us → length ts = length us →
  (∀ i t u, ts !! i = Some t → us !! i = Some u → tcell t = tcell u) → ts = us.
Proof.
  intros IH Hts Hus Hl H. apply list_eq. intros i. destruct (ts !! i) as [t|] eqn:Et.
  - destruct (lookup_lt_is_Some_2 us i) as [u Eu]; [rewrite <- Hl; by eapply lookup_lt_Some|]. rewrite Eu. f_equal.
    apply (Forall_lookup_1 _ _ _ _ IH Et);
      [exact (Forall_lookup_1 _ _ _ _ Hts Et)|exact (Forall_lookup_1 _ _ _ _ Hus Eu)|by apply (H i)].
  - symmetry. apply lookup_ge_None. apply lookup_ge_None in Et. lia.
Qed.

(** Equal containers have as many members, and the same ones. *)
Lemma container_inj t u : jok t → jok u → container t = true → container u = true → tcell t = tcell u →
  length (children t) = length (children u) ∧
  (∀ i c d, names t = names u → children t !! i = Some c → children u !! i = Some d → tcell c = tcell d).
Proof.
  intros Ht Hu Hc Hd E. injection E as E1 E2. assert (Er : tref 0 t = tref 0 u) by (unfold tref; by rewrite E1, E2).
  split.
  - pose proof (elem_count_tree 0 t Ht Hc) as H1. rewrite Er, (elem_count_tree 0 u Hu Hd) in H1. injection H1. lia.
  - intros i c d En Hi Hj. pose proof (val_causet_get_tree 0 t i c Ht Hc Hi) as H1.
    rewrite Er, En, (val_causet_get_tree 0 u i d Hu Hd Hj) in H1. injection H1 as H1 _ H2. unfold tcell. by rewrite H1, H2.
Qed.

Lemma cell_inj t : ∀ u, jok t → jok u → tcell t = tcell u → t = u.
Proof.
  induction t as [|b|i|n|f|s|ts IH|ks ts IH] using jtree_rect'; intros u Ht Hu E; pose proof E as E';
    injection E' as E1 E2; destruct u as [|b'|i'|n'|f'|s'|us|ks' us]; try done;
    try (destruct b); try (destruct b'); try done; inversion Ht; inversion Hu; subst; cbn [enc] in E2.
  - pose proof (i64_back i H0) as H. rewrite E2, i64_back in H by done. by injection H as ->.
  - pose proof (u64_back n H0) as H. rewrite E2, u64_back in H by done. by injection H as ->.
  - pose proof (f64_back f H0) as H. rewrite E2, f64_back in H by done. by injection H as ->.
  - assert (tref 0 (JString s) = tref 0 (JString s')) as Er by (unfold tref; cbn; by rewrite E2).
    pose proof (get_str_bytes_tree 0 s ltac:(unfold is_u64; lia)) as H. rewrite Er, get_str_bytes_tree in H by (unfold is_u64; lia).
    by injection H as ->.
  - destruct (container_inj _ _ Ht Hu eq_refl eq_refl E) as [Hl Hm]. f_equal.
    apply map_tcell_inj; [done..|]. intros i t u. by apply (Hm i t u).
  - destruct (container_inj _ _ Ht Hu eq_refl eq_refl E) as [Hl Hm]. cbn in Hl.
    assert (tref 0 (JObject ks ts) = tref 0 (JObject ks' us)) as Er by (unfold tref; cbn [ttype enc]; by rewrite E2).
    assert (ks = ks') as ->.
    { apply list_eq. intros i. destruct (ks !! i) as [k|] eqn:Ek.
      - destruct (lookup_lt_is_Some_2 ks' i) as [k' Ek']; [apply lookup_lt_Some in Ek; lia|]. rewrite Ek'. f_equal.
        pose proof (object_get_soliton_id_tree 0 ks ts i k Ht Ek) as H. rewrite Er in H.
        rewrite (object_get_soliton_id_tree 0 ks' us i k' Hu Ek') in H. by injection H.
      - symmetry. apply lookup_ge_None. apply lookup_ge_None in Ek. lia. }
    f_equal. apply map_tcell_inj; [done..|]. intros i t u. by apply (Hm i t u).
Qed.

(** A document stands for one value: equal documents encode equal values, so that
    two objects, whose documents are compared as bytes, are equal exactly when they
    have the same members. *)
Theorem object_eq_exact p q ks ts ks' us : jok (JObject ks ts) → jok (JObject ks' us) →
  eq (tref p (JObject ks ts)) (tref q (JObject ks' us))
  = Ret (bool_decide (enc (JObject ks ts) = enc (JObject ks' us)))
  ∧ (enc (JObject ks ts) = enc (JObject ks' us) ↔ ks = ks' ∧ ts = us).
Proof.
  intros Ht Hu. split.
  - unfold eq, partial_cmp. rewrite json_partial_cmp_tree by (done || apply fuel_enough). bindr. f_equal.
    cbn [tcmp]. pose proof (bytes_cmp_eq (enc (JObject ks ts)) (enc (JObject ks' us))) as H.
    destruct (bytes_cmp (enc (JObject ks ts)) (enc (JObject ks' us))); symmetry;
      [apply bool_decide_eq_true_2; tauto|apply bool_decide_eq_false_2; intros E; apply H in E; done..].
  - split; [|by intros [-> ->]]. intros E.
    assert (JObject ks ts = JObject ks' us) as E' by (apply cell_inj; [done..|by unfold tcell; rewrite E]).
    by injection E' as -> ->.
Qed.
(** 1.5 *)
Definition three_halves : f64 := S754_finite false 6755399441055744 (-52).

(** The order has a cycle, so that [Ord] is not a total order on JSON values and
    sorting by it has no meaning: false is less than true, true, which counts as 1
    beside a number, is less than 1.5, and 1.5 is less than false, which counts as 2. *)
Theorem json_order_cycle p q r :
  partial_cmp (tref p (JBool false)) (tref q (JBool true)) = Ret (Some Lt)
  ∧ partial_cmp (tref q (JBool true)) (tref r (JDouble three_halves)) = Ret (Some Lt)
  ∧ partial_cmp (tref r (JDouble three_halves)) (tref p (JBool false)) = Ret (Some Lt).
Proof.
  assert (Hf : jok (JBool false)) by constructor. assert (Ht : jok (JBool true)) by constructor.
  assert (Hd : jok (JDouble three_halves)) by (constructor; by vm_compute).
  unfold partial_cmp. rewrite !json_partial_cmp_tree by (done || apply fuel_enough). split_and!; by vm_compute.
Qed.
End Exact.
