(* ===== verification/JsonMerge.v ===== *)
(** * JsonMerge: merging JSON values

    [berolinasql/src/json_merge.rs]: [Json::merge] with its two helpers, and what
    merging is on trees.  [merge] and [merge_binary_object] call each other; the
    recursion goes into the members of the documents, so that a fuel above the size of
    the documents is enough ([JsonMerging]); a document whose entries point back at
    themselves would exhaust the stack of the program, and exhausts the fuel here.

    What [join_entry] keeps: order and form of the names, the sizes (a merged value is
    never smaller than the value it was merged into, so that the parts of a document
    that fits its 32 bits fit too), and the depth of objects in objects. *)
From Stdlib Require Import ZArith Lia Sorted.
From stdpp Require Import base list numbers sets.
From S2P Require Import Prelude EvalCtx Slice JsonBinary JsonTree JsonExtract.
#[local] Open Scope Z_scope.
#[local] Open Scope rM_scope.

#[local] Notation zlen l := (Z.of_nat (length l)).

(** ** The map of the members: [BTreeMap<String, Json>], in the order of the names *)

Fixpoint btree_remove {V} (k : list Z) (m : list (list Z * V)) : option (V * list (list Z * V)) :=
  match m with
  | [] => None
  | (k', v) :: m' =>
      if bytes_eqb k' k then Some (v, m')
      else match btree_remove k m' with Some (o, r) => Some (o, (k', v) :: r) | None => None end
  end.

Fixpoint btree_insert {V} (k : list Z) (v : V) (m : list (list Z * V)) : list (list Z * V) :=
  match m with
  | [] => [(k, v)]
  | (k', v') :: m' =>
      if bytes_ltb k' k then (k', v') :: btree_insert k v m'
      else if bytes_eqb k' k then (k', v) :: m' else (k, v) :: m
  end.

(** ** The code *)

Section Code.
Context {N : NumberCodec} {JW : JsonWriter}.

Inductive MergeUnit := Ref (r : JsonRef) | Owned (o : Json).

Definition unit_as_ref (u : MergeUnit) : JsonRef := match u with Ref r => r | Owned o => as_ref o end.
Definition into_owned (u : MergeUnit) : Json := match u with Ref r => to_owned r | Owned o => o end.

Definition merge_binary_array (elems : list MergeUnit) : rM Json :=
  buf ←? flatR (λ u, let j := unit_as_ref u in
                     match get_type j with
                     | Array =>
                         child_count ←? liftR (get_elem_count j);
                         mapR (array_get_elem j) (range child_count)
                     | _ => okR [j]
                     end) elems;
  from_ref_array buf.

(** One member of one object; [rec] is [Json::merge]. *)
Definition merge_member (rec : list JsonRef → rM Json) (j : JsonRef)
    (kv_map : list (list Z * Json)) (i : Z) : rM (list (list Z * Json)) :=
  soliton_id ←? liftR (object_get_soliton_id j i);
  val ←? object_get_val j i;
  match str_from_utf8 soliton_id with
  | Err e => errR e
  | Ok soliton_id =>
      match btree_remove soliton_id kv_map with
      | Some (old, kv_map) =>
          new ←? rec [as_ref old; val];
          okR (btree_insert soliton_id new kv_map)
      | None => okR (btree_insert soliton_id (to_owned val) kv_map)
      end
  end.

Definition merge_binary_object (rec : list JsonRef → rM Json) (objects : list JsonRef) : rM Json :=
  kv_map ←? foldR (λ m j, elem_count ←? liftR (get_elem_count j);
                          foldR (merge_member rec j) m (range elem_count)) [] objects;
  from_object kv_map.

(** The loop of [merge]: [result] and [objects]. *)
Definition merge_step (rec : list JsonRef → rM Json) (s : list MergeUnit * list JsonRef) (j : JsonRef)
  : rM (list MergeUnit * list JsonRef) :=
  let '(result, objects) := s in
  match get_type j with
  | Object => okR (result, objects ++ [j])
  | _ =>
      result ←? match objects with
                | [] => okR result
                | [o] => okR (result ++ [Ref o])
                | _ => o ←? merge_binary_object rec objects; okR (result ++ [Owned o])
                end;
      okR (result ++ [Ref j], [])
  end.

Definition merge_rest (rec : list JsonRef → rM Json) (s : list MergeUnit * list JsonRef) : rM (list MergeUnit) :=
  match s.2 with
  | [] => okR s.1
  | objects => o ←? merge_binary_object rec objects; okR (s.1 ++ [Owned o])
  end.

Fixpoint merge_fuel (fuel : nat) (bjs : list JsonRef) : rM Json :=
  match fuel with
  | O => Panic
  | S fuel =>
      s ←? foldR (merge_step (merge_fuel fuel)) ([], []) bjs;
      result ←? merge_rest (merge_fuel fuel) s;
      match result with
      | [u] => okR (into_owned u)
      | _ => merge_binary_array result
      end
  end.

(** [Json::merge] *)
Definition merge (bjs : list JsonRef) : rM Json :=
  merge_fuel (2 + list_max (map (λ j, length (causet_locale j)) bjs)) bjs.
End Code.

(** ** On trees *)

(** What a value is as a part of an array. *)
Definition elems (t : jtree) : list jtree := match t with JArray ts => ts | _ => [t] end.

Definition is_object (t : jtree) : bool := match t with JObject _ _ => true | _ => false end.

(** A member under its name, or [f] applied to the one that is there. *)
Fixpoint kadd (f : jtree → jtree) (k : list Z) (n : jtree) (l : list (list Z * jtree)) : list (list Z * jtree) :=
  match l with
  | [] => [(k, n)]
  | (k', c) :: l' =>
      if bytes_ltb k' k then (k', c) :: kadd f k n l'
      else if bytes_eqb k' k then (k', f c) :: l' else (k, n) :: l
  end.

Definition entries (t : jtree) : list (list Z * jtree) := zip (names t) (children t).
Definition object (l : list (list Z * jtree)) : jtree := JObject l.*1 l.*2.

(** [tjoin c o]: [c] merged into [o].  Two objects are merged member by member; other
    values are put one after the other in an array. *)
Fixpoint tjoin (c o : jtree) : jtree :=
  match c, o with
  | JObject ks ts, JObject ks' ts' =>
      object ((fix go ks ts l {struct ts} :=
        match ks, ts with
        | k :: ks, t :: ts => go ks ts (kadd (tjoin t) k t l)
        | _, _ => l
        end) ks ts (zip ks' ts'))
  | _, _ => JArray (elems o ++ elems c)
  end.

Definition join_entry (l : list (list Z * jtree)) (e : list Z * jtree) : list (list Z * jtree) :=
  kadd (tjoin e.2) e.1 e.2 l.

(** Objects next to each other are merged first, from the left. *)
Fixpoint runs (pend : option jtree) (ts : list jtree) : list jtree :=
  match ts with
  | [] => option_list pend
  | t :: ts =>
      if is_object t then runs (Some (match pend with Some o => tjoin t o | None => t end)) ts
      else option_list pend ++ t :: runs None ts
  end.

Definition tmerge (ts : list jtree) : jtree :=
  match runs None ts with
  | [t] => t
  | us => JArray (concat (map elems us))
  end.

(** How deep objects are in objects: what the recursion of [merge] goes through. *)
Fixpoint odepth (t : jtree) : nat :=
  match t with JObject _ ts => S (list_max (map odepth ts)) | _ => O end.

(** Values whose names are everywhere in order, short and text. *)
Definition name_ok (k : list Z) : Prop := zlen k <= U16_MAX ∧ utf8_valid k = true.

Inductive named : jtree → Prop :=
| named_leaf t : container t = false → named t
| named_array ts : Forall named ts → named (JArray ts)
| named_object ks ts : Forall named ts → length ks = length ts → StronglySorted bytes_lt ks →
    Forall name_ok ks → named (JObject ks ts).

(** ** Joining, entry by entry *)

Lemma tjoin_objects ks ts ks' ts' :
  tjoin (JObject ks ts) (JObject ks' ts') = object (fold_left join_entry (zip ks ts) (zip ks' ts')).
Proof.
  cbn [tjoin]. f_equal. generalize (zip ks' ts'). revert ks.
  induction ts as [|t ts IH]; intros [|k ks] l; cbn [zip zip_with fold_left]; done.
Qed.

Lemma tjoin_array c o : is_object c && is_object o = false → tjoin c o = JArray (elems o ++ elems c).
Proof. by destruct c, o. Qed.

Lemma tmerge_pair o c : tmerge [o; c] = tjoin c o.
Proof.
  destruct (is_object c && is_object o) eqn:E.
  - apply andb_prop in E as [Ec Eo]. unfold tmerge. cbn [runs]. by rewrite Eo, Ec.
  - rewrite tjoin_array by done. unfold tmerge. cbn [runs].
    destruct (is_object o), (is_object c); try done; cbn; by rewrite app_nil_r.
Qed.

Lemma entries_object l : entries (object l) = l.
Proof. unfold entries, object. cbn. apply zip_fst_snd. Qed.

Lemma object_entries t : is_object t = true → length (names t) = length (children t) → object (entries t) = t.
Proof.
  destruct t; try done. cbn. intros _ H. unfold object, entries. cbn. by rewrite fst_zip, snd_zip by lia.
Qed.

Lemma tjoin_entries c o : is_object c = true → is_object o = true →
  tjoin c o = object (fold_left join_entry (entries c) (entries o)).
Proof. destruct c, o; try done. intros _ _. apply tjoin_objects. Qed.


(** ** Names *)

Lemma kadd_names f k n l x : x ∈ (kadd f k n l).*1 ↔ x = k ∨ x ∈ l.*1.
Proof.
  induction l as [|[k' c] l IH]; cbn; [by rewrite list_elem_of_singleton; set_solver|].
  destruct (bytes_ltb k' k) eqn:E1; cbn; rewrite ?elem_of_cons; [rewrite IH; tauto|].
  destruct (bytes_eqb k' k) eqn:E2; cbn; rewrite ?elem_of_cons; [|tauto].
  apply bytes_eqb_eq in E2 as ->. tauto.
Qed.

Lemma kadd_sorted f k n l : StronglySorted bytes_lt l.*1 → StronglySorted bytes_lt (kadd f k n l).*1.
Proof.
  induction l as [|[k' c] l IH]; intros Hs; cbn; [repeat constructor|].
  cbn in Hs. apply StronglySorted_inv in Hs as [Hs Hk].
  destruct (bytes_ltb k' k) eqn:E1; cbn.
  - constructor; [by apply IH|]. apply bytes_ltb_lt in E1. rewrite Forall_forall in Hk |- *.
    intros x [->|Hx]%kadd_names; auto.
  - destruct (bytes_eqb k' k) eqn:E2; cbn; [by constructor|].
    assert (bytes_lt k k') as Hlt.
    { destruct (bytes_lt_total k k') as [?|[->|H]]; [done| |].
      - by rewrite (proj2 (bytes_eqb_eq k' k') eq_refl) in E2.
      - apply bytes_ltb_lt in H. congruence. }
    constructor; [by constructor|]. constructor; [done|].
    eapply Forall_impl; [exact Hk|]. intros x Hx. by eapply bytes_lt_trans.
Qed.

(** A predicate on the values that joining keeps. *)
Lemma kadd_values (P : jtree → Prop) f k n l : Forall P l.*2 → P n → (∀ c, P c → P (f c)) → Forall P (kadd f k n l).*2.
Proof.
  intros Hl Hn Hf. induction l as [|[k' c] l IH]; cbn; [by repeat constructor|].
  cbn in Hl. apply Forall_cons_1 in Hl as [Hc Hl].
  destruct (bytes_ltb k' k); cbn; [by constructor; auto|].
  destruct (bytes_eqb k' k); cbn; constructor; auto.
Qed.

Lemma fold_values (P : jtree → Prop) es : ∀ l, Forall P l.*2 → Forall P es.*2 →
  Forall (λ c, ∀ o, P o → P (tjoin c o)) es.*2 → Forall P (fold_left join_entry es l).*2.
Proof.
  induction es as [|[k c] es IH]; intros l Hl He Hj; cbn; [done|].
  cbn in He, Hj. apply Forall_cons_1 in He as [Hc He]. apply Forall_cons_1 in Hj as [Hcj Hj].
  apply IH; auto. by apply kadd_values.
Qed.

(** A member behind all others goes to the end: merging into an empty object copies. *)
Lemma kadd_end f k n l : (∀ x, x ∈ l.*1 → bytes_lt x k) → kadd f k n l = l ++ [(k, n)].
Proof.
  induction l as [|[k' c] l IH]; intros H; cbn; [done|].
  rewrite (proj2 (bytes_ltb_lt k' k)) by (apply H; constructor). f_equal. apply IH. intros x Hx. apply H. by constructor.
Qed.

Lemma fold_empty es : StronglySorted bytes_lt es.*1 → fold_left join_entry es [] = es.
Proof.
  induction es as [|[k c] es IH] using rev_ind; intros Hs; [done|].
  rewrite fold_left_app. rewrite fmap_app in Hs. cbn in *.
  assert (StronglySorted bytes_lt es.*1 ∧ ∀ x, x ∈ es.*1 → bytes_lt x k) as [Hs' Hk].
  { clear IH. induction (es.*1) as [|y ys IHy]; cbn in Hs; [split; [constructor|set_solver]|].
    apply StronglySorted_inv in Hs as [Hs Hf]. destruct (IHy Hs) as [H1 H2].
    apply Forall_app in Hf as [Hf Hl]. split; [by constructor|].
    intros x [->|Hx]%elem_of_cons; [by inversion Hl|auto]. }
  rewrite IH by done. by apply kadd_end.
Qed.

(** ** Well-named values *)

Definition well (l : list (list Z * jtree)) : Prop :=
  StronglySorted bytes_lt l.*1 ∧ Forall name_ok l.*1 ∧ Forall named l.*2.

Lemma named_children t : named t → Forall named (children t).
Proof. destruct 1 as [t H| |]; try done. by destruct t. Qed.

Lemma named_entries t : is_object t = true → named t → well (entries t) ∧ object (entries t) = t.
Proof.
  intros Ho Ht. destruct t as [| | | | | | |ks ts]; try done. inversion Ht as [t H| |? ? Hts Hl Hs Hn]; subst; [done|].
  split; [|by apply object_entries]. unfold well, entries. cbn. by rewrite fst_zip, snd_zip by lia.
Qed.

Lemma well_object l : well l → named (object l).
Proof. intros (Hs & Hn & Hv). constructor; [done|by rewrite !length_fmap|done..]. Qed.

Lemma well_join l k c : well l → name_ok k → named c → (∀ o, named o → named (tjoin c o)) →
  well (join_entry l (k, c)).
Proof.
  intros (Hs & Hn & Hv) Hk Hc Hj. unfold join_entry. cbn. split_and!.
  - by apply kadd_sorted.
  - rewrite Forall_forall in Hn |- *. intros x [->|Hx]%kadd_names; auto.
  - by apply kadd_values.
Qed.

Lemma well_fold es : ∀ l, well l → Forall name_ok es.*1 → Forall named es.*2 →
  Forall (λ c, ∀ o, named o → named (tjoin c o)) es.*2 → well (fold_left join_entry es l).
Proof.
  induction es as [|[k c] es IH]; intros l Hl Hk Hc Hj; cbn; [done|]. cbn in *.
  apply Forall_cons_1 in Hk as [? ?], Hc as [? ?], Hj as [? ?]. apply IH; auto. by apply well_join.
Qed.

Lemma elems_named t : named t → Forall named (elems t).
Proof. intros Ht. destruct t; cbn; try (by constructor). by apply (named_children _ Ht). Qed.

Lemma tjoin_named c : named c → ∀ o, named o → named (tjoin c o).
Proof.
  induction c as [| | | | | |ts IH|ks ts IH] using jtree_rect'; intros Hc o Ho;
    try (rewrite tjoin_array by done; apply named_array, Forall_app; split; by apply elems_named).
  destruct (is_object o) eqn:Eo;
    [|rewrite tjoin_array by (by rewrite Eo, andb_false_r); apply named_array, Forall_app; split; by apply elems_named].
  destruct (named_entries o Eo Ho) as [Hw _]. rewrite (tjoin_entries (JObject ks ts) o) by done.
  destruct (named_entries (JObject ks ts) eq_refl Hc) as [(_ & Hn & Hv) E].
  apply well_object, well_fold; try done. injection E as _ E. rewrite E in Hv |- *.
  rewrite Forall_forall in IH, Hv |- *. intros x Hx. by apply IH, Hv.
Qed.

Lemma well_entries es l : well l → Forall name_ok es.*1 → Forall named es.*2 → well (fold_left join_entry es l).
Proof.
  intros Hl Hk Hc. apply well_fold; try done. eapply Forall_impl; [exact Hc|]. intros. by apply tjoin_named.
Qed.

(** ** Depth *)

Lemma odepth_member l c n : (odepth (object l) < S n)%nat → c ∈ l.*2 → (odepth c < n)%nat.
Proof.
  intros H Hc. cbn in H. destruct n as [|n]; [lia|]. assert (list_max (map odepth l.*2) <= n)%nat as Hm by lia.
  apply list_max_le in Hm. rewrite List.Forall_map, List.Forall_forall in Hm. apply Nat.lt_succ_r, Hm. by apply list_elem_of_In.
Qed.

Lemma odepth_object l n : Forall (λ c, odepth c <= n)%nat l.*2 → (odepth (object l) <= S n)%nat.
Proof.
  intros H. cbn. apply le_n_S, list_max_bound. intros x (c & -> & Hc)%list_elem_of_fmap.
  rewrite Forall_forall in H. by apply H.
Qed.

Lemma odepth_le t : (odepth t <= tdepth t)%nat.
Proof.
  induction t as [| | | | | | |ks ts IH] using jtree_rect'; cbn; try lia.
  apply le_n_S, list_max_bound. intros x (c & -> & Hc)%list_elem_of_fmap.
  rewrite Forall_forall in IH. specialize (IH c Hc).
  assert (list_max (map tdepth ts) <= list_max (map tdepth ts))%nat as H by done.
  apply list_max_le in H. rewrite List.Forall_map, List.Forall_forall in H.
  specialize (H c (proj1 (list_elem_of_In _ _) Hc)). lia.
Qed.

Lemma tjoin_depth c : ∀ o n, (odepth c <= n)%nat → (odepth o <= n)%nat → (odepth (tjoin c o) <= n)%nat.
Proof.
  induction c as [| | | | | |ts IH|ks ts IH] using jtree_rect'; intros o n Hc Ho;
    try (rewrite tjoin_array by done; cbn; lia).
  destruct (is_object o) eqn:Eo; [|rewrite tjoin_array by (by rewrite Eo, andb_false_r); apply Nat.le_0_l].
  destruct o as [| | | | | | |ks' ts']; try done. rewrite tjoin_objects.
  destruct n as [|n]; [cbn in Hc; lia|]. cbn [odepth] in Hc, Ho.
  assert (∀ us, (S (list_max (map odepth us)) <= S n)%nat → Forall (λ c, odepth c <= n)%nat us) as Hm.
  { intros us H. apply le_S_n, list_max_le in H. by rewrite List.Forall_map in H. }
  assert (∀ (ks : list (list Z)) us, Forall (λ c, odepth c <= n)%nat us → Forall (λ c, odepth c <= n)%nat (zip ks us).*2) as Hz.
  { intros ks0 us. revert ks0. induction us as [|u us IHu]; intros [|k0 ks0] H; cbn; try constructor;
      apply Forall_cons_1 in H as [? ?]; auto. }
  apply odepth_object, fold_values; [by apply Hz, Hm..|].
  specialize (Hm ts Hc). clear -IH Hm. revert ks. induction ts as [|t ts IHt]; intros [|k ks]; cbn; try constructor.
  - apply Forall_cons_1 in IH as [IH _], Hm as [? _]. intros. by apply IH.
  - apply Forall_cons_1 in IH as [_ ?], Hm as [? ?]. by apply IHt.
Qed.

Lemma tjoin_shallow c o n : (odepth c < n)%nat → (odepth o < n)%nat → (odepth (tjoin c o) < n)%nat.
Proof. intros Hc Ho. destruct n as [|n]; [lia|]. apply Nat.lt_succ_r. apply tjoin_depth; lia. Qed.

(** ** Sizes *)

Section Sizes.
Context {N : NumberCodec}.

(** What a value takes behind its entry, and the members of an object with theirs. *)
Definition bsize (t : jtree) : Z := zlen (body (tcell t)).
Definition esize (l : list (list Z * jtree)) : Z := foldr (λ e a, 11 + zlen e.1 + bsize e.2 + a) 0 l.
Definition fits (l : list (list Z * jtree)) : Prop := Forall jok l.*2 ∧ 8 + esize l <= U32_MAX.

Lemma esize_cons k c l : esize ((k, c) :: l) = 11 + zlen k + bsize c + esize l.
Proof. reflexivity. Qed.

Lemma object_size l : zlen (enc (object l)) = 8 + esize l.
Proof.
  unfold object. cbn [enc]. fold tcell. rewrite layout_length. unfold lsize, start.
  rewrite !length_map. change (map ?f l) with (f <$> l). rewrite ?length_fmap.
  induction l as [|[k c] l IH]; [done|].
  rewrite esize_cons. cbn [fst snd fmap list_fmap map length concat] in *.
  fold tcell in *. rewrite bodies_cons, !length_app. unfold bsize, tcell in *. lia.
Qed.

Lemma array_size ts : zlen (enc (JArray ts)) = 8 + 5 * zlen ts + zlen (bodies (map tcell ts)).
Proof.
  change (enc (JArray ts)) with (layout [] (map tcell ts)). rewrite layout_length. unfold lsize, start.
  rewrite length_map. cbn [length concat]. lia.
Qed.

Lemma jok_fits l : well l → jok (object l) ↔ fits l.
Proof.
  intros (Hs & Hn & Hv). unfold fits. rewrite <- object_size. split.
  - intros H. inversion H; subst. done.
  - intros [Hk Hsz]. constructor; [done|by rewrite !length_fmap|done| |done].
    eapply Forall_impl; [exact Hn|]. by intros k [? _].
Qed.

(** [f] makes no value smaller, and what it yields is only a document if its argument is. *)
Definition grows (f : jtree → jtree) : Prop :=
  ∀ o, named o → bsize o <= bsize (f o) ∧ (jok (f o) → jok o).

Lemma kadd_back f k n l : grows f → Forall named l.*2 →
  esize l <= esize (kadd f k n l) ∧ (Forall jok (kadd f k n l).*2 → Forall jok l.*2).
Proof.
  intros Hf. induction l as [|[k' c] l IH]; intros Hv; cbn [kadd].
  { split; [cbn; unfold bsize; lia|constructor]. }
  cbn in Hv. apply Forall_cons_1 in Hv as [Hc Hv]. destruct (IH Hv) as [IH1 IH2].
  destruct (bytes_ltb k' k); [|destruct (bytes_eqb k' k)].
  - split; [rewrite !esize_cons; lia|].
    intros [? ?]%Forall_cons_1. constructor; auto.
  - destruct (Hf c Hc) as [H1 H2]. split; [rewrite !esize_cons; lia|].
    intros [? ?]%Forall_cons_1. constructor; auto.
  - split; [rewrite !esize_cons; unfold bsize; lia|]. by intros [_ ?]%Forall_cons_1.
Qed.

Lemma fold_back es : ∀ l, well l → Forall name_ok es.*1 → Forall named es.*2 →
  Forall (λ c, grows (tjoin c)) es.*2 →
  esize l <= esize (fold_left join_entry es l) ∧ (Forall jok (fold_left join_entry es l).*2 → Forall jok l.*2).
Proof.
  induction es as [|[k c] es IH]; intros l Hl Hk Hc Hg; cbn; [done|]. cbn in *.
  apply Forall_cons_1 in Hk as [Hk1 Hk], Hc as [Hc1 Hc], Hg as [Hg1 Hg].
  destruct (kadd_back (tjoin c) k c l Hg1) as [H1 H2]; [apply Hl|].
  assert (well (join_entry l (k, c))) as Hw by (apply well_join; try done; by apply tjoin_named).
  destruct (IH (join_entry l (k, c)) Hw Hk Hc Hg) as [H3 H4].
  split; [exact (Z.le_trans _ _ _ H1 H3)|]. auto.
Qed.

Lemma array_back o c : (bsize o <= bsize (JArray (elems o ++ elems c)))
  ∧ (jok (JArray (elems o ++ elems c)) → jok o).
Proof.
  unfold bsize at 2. change (body (tcell (JArray (elems o ++ elems c)))) with (enc (JArray (elems o ++ elems c))).
  rewrite array_size, map_app, bodies_app, !length_app.
  assert (bsize o <= 8 + 5 * zlen (elems o) + zlen (bodies (map tcell (elems o)))) as Hs.
  { destruct o; cbn [elems map length]; rewrite ?bodies_cons, ?length_app; try (unfold bsize; lia).
    unfold bsize. change (body (tcell (JArray ts))) with (enc (JArray ts)). by rewrite array_size. }
  split; [lia|]. intros H. pose proof (jok_size (JArray (elems o ++ elems c)) eq_refl H) as Hl.
  apply jok_children, Forall_app in H as [Ho _].
  destruct o; try (by apply Forall_cons_1 in Ho as [? _]). constructor; [done|].
  rewrite array_size, map_app, bodies_app, !length_app in Hl. cbn [elems] in Hl. rewrite array_size. lia.
Qed.

Lemma tjoin_grows c : named c → grows (tjoin c).
Proof.
  induction c as [| | | | | |ts IH|ks ts IH] using jtree_rect'; intros Hc o Ho;
    try (rewrite tjoin_array by done; apply array_back).
  destruct (is_object o) eqn:Eo; [|rewrite tjoin_array by (by rewrite Eo, andb_false_r); apply array_back].
  destruct (named_entries o Eo Ho) as [Hw Eobj]. rewrite (tjoin_entries (JObject ks ts) o) by done.
  destruct (named_entries (JObject ks ts) eq_refl Hc) as [(_ & Hn & Hv) E].
  assert (Forall (λ c, grows (tjoin c)) (entries (JObject ks ts)).*2) as Hg.
  { injection E as _ E. rewrite E in Hv |- *. rewrite Forall_forall in IH, Hv |- *. intros x Hx. by apply IH, Hv. }
  destruct (fold_back (entries (JObject ks ts)) (entries o) Hw Hn Hv Hg) as [H1 H2].
  pose proof (well_entries _ _ Hw Hn Hv) as Hw'.
  set (F := fold_left _ _ _) in *. rewrite <- Eobj. set (L := entries o) in *. clearbody F L.
  rewrite (jok_fits _ Hw'), (jok_fits _ Hw). split; [|intros [Hj Hs]; split; [auto|lia]].
  unfold bsize. change (body (tcell (object ?l))) with (enc (object l)). rewrite !object_size. lia.
Qed.

(** The values reached on the way to a result that fits, fit. *)
Lemma fits_prefix es1 es2 l : well l → Forall name_ok (es1 ++ es2).*1 → Forall named (es1 ++ es2).*2 →
  fits (fold_left join_entry (es1 ++ es2) l) → fits (fold_left join_entry es1 l).
Proof.
  intros Hl Hk Hc. rewrite fold_left_app. rewrite fmap_app, Forall_app in Hk. rewrite fmap_app, Forall_app in Hc.
  destruct (fold_back es2 (fold_left join_entry es1 l)) as [H1 H2]; try tauto.
  - apply well_entries; tauto.
  - eapply Forall_impl; [apply Hc|]. intros. by apply tjoin_grows.
  - intros [Hj Hs]. split; [auto|lia].
Qed.
End Sizes.
