(* ===== verification/JsonMerging.v ===== *)
(** * JsonMerging: [merge] writes the document of the merged value

    The code of [JsonMerge] against the merging of trees, from the map of the members up
    to the loop over the arguments. *)
From Stdlib Require Import ZArith Lia Sorted.
From stdpp Require Import base list numbers sets.
From S2P Require Import Prelude EvalCtx Slice JsonBinary JsonTree JsonExtract JsonModify JsonMerge JsonRebuild JsonUpdate.
#[local] Open Scope Z_scope.
#[local] Open Scope rM_scope.

#[local] Notation zlen l := (Z.of_nat (length l)).

(** ** Loops *)

Lemma foldR_app {A B} (f : B → A → rM B) l1 l2 : ∀ a, foldR f a (l1 ++ l2) = (x ←? foldR f a l1; foldR f x l2).
Proof.
  induction l1 as [|x l1 IH]; intros a; cbn [app foldR]; [done|].
  destruct (f a x) as [[b|e]|]; [|done..]. cbn [rbind]. apply IH.
Qed.

(** A loop over the positions of a list, seen as the loop over the list. *)
Lemma foldR_range {A B E} (f : B → Z → rM B) (g : A → E → A) (h : A → B) es a :
  (∀ i e, es !! i = Some e →
    f (h (fold_left g (take i es) a)) (Z.of_nat i) = okR (h (g (fold_left g (take i es) a) e))) →
  foldR f (h a) (range (zlen es)) = okR (h (fold_left g es a)).
Proof.
  induction es as [|e es IH] using rev_ind; intros H; [done|]. unfold range in *.
  rewrite length_app, Nat2Z.id in *. cbn [length]. rewrite Nat.add_1_r, seq_S, map_app, foldR_app, Nat.add_0_l.
  rewrite IH.
  - rewrite rbind_ok. cbn [map foldR]. pose proof (H (length es) e) as H'.
    rewrite list_lookup_middle, take_app_length in H' by done. rewrite H' by done.
    rewrite rbind_ok. by rewrite fold_left_app.
  - intros i x Hi. pose proof (lookup_lt_Some _ _ _ Hi). pose proof (H i x) as H'.
    rewrite lookup_app_l, take_app_le in H' by lia. by apply H'.
Qed.

(** ** The map of the members *)

Section Merging.
Context {N : NumberCodec} {NL : NumberCodecLaws} {JW : JsonWriter} {WL : JsonWriterLaws}.

Definition tentry (e : list Z * jtree) : list Z * Json := (e.1, tjson e.2).

Lemma btree_insert_front {V} k (v : V) m : Forall (bytes_lt k) m.*1 → btree_insert k v m = (k, v) :: m.
Proof.
  destruct m as [|[k' v'] m]; [done|]. intros [Hk _]%Forall_cons_1. cbn in *.
  destruct (bytes_ltb k' k) eqn:E1.
  { apply bytes_ltb_lt in E1. destruct (bytes_lt_irrefl k). by eapply bytes_lt_trans. }
  destruct (bytes_eqb k' k) eqn:E2; [|done]. apply bytes_eqb_eq in E2 as ->. by destruct (bytes_lt_irrefl k).
Qed.

Lemma tentry_names l : (map tentry l).*1 = l.*1.
Proof. induction l; cbn; congruence. Qed.

(** Removing and inserting is [kadd]. *)
Lemma btree_tree k l : StronglySorted bytes_lt l.*1 →
  match btree_remove k (map tentry l) with
  | Some (old, m) => ∃ o, old = tjson o ∧ o ∈ l.*2 ∧ k ∈ l.*1
      ∧ (∀ f, (∀ n, btree_insert k (tjson (f o)) m = map tentry (kadd f k n l))
              ∧ ∀ n, f o ∈ (kadd f k n l).*2)
  | None => ∀ f n, btree_insert k (tjson n) (map tentry l) = map tentry (kadd f k n l)
  end.
Proof.
  induction l as [|[k' c] l IH]; intros Hs; [done|]. cbn in Hs. apply StronglySorted_inv in Hs as [Hs Hk].
  cbn [map btree_remove tentry fst snd]. destruct (bytes_eqb k' k) eqn:E2.
  - pose proof (proj1 (bytes_eqb_eq _ _) E2) as ->. exists c.
    assert (bytes_ltb k k = false) as El.
    { apply not_true_is_false. rewrite bytes_ltb_lt. apply bytes_lt_irrefl. }
    split_and!; [done|constructor..|]. intros f. cbn [kadd]. rewrite El, E2. split; intros n; [|constructor].
    rewrite btree_insert_front by (by rewrite tentry_names). done.
  - specialize (IH Hs). fold tentry. destruct (btree_remove k (map tentry l)) as [[old m]|] eqn:Er.
    + destruct IH as (o & -> & Ho & Hin & Hf). exists o. split_and!; [done|by constructor|by constructor|].
      assert (bytes_ltb k' k = true) as El.
      { apply bytes_ltb_lt. apply (proj1 (Forall_forall _ _) Hk _ Hin). }
      intros f. destruct (Hf f) as [H1 H2]. cbn [kadd btree_insert]. rewrite El.
      split; intros n; cbn; [by rewrite (H1 n)|by constructor].
    + intros f n. cbn [kadd map btree_insert tentry fst snd]. rewrite E2.
      destruct (bytes_ltb k' k); cbn [map]; [by rewrite <- (IH f n)|done].
Qed.

Lemma from_object_tree l : well l → fits l → from_object (map tentry l) = okR (tjson (object l)).
Proof.
  intros Hw Hf. assert (map json_cell (map tentry l).*2 = map tcell l.*2) as Ec.
  { clear. induction l as [|[k c] l IH]; [done|]. cbn in *. by rewrite IH. }
  unfold from_object. rewrite write_object; rewrite tentry_names, ?Ec.
  - by rewrite rbind_ok.
  - apply Hw.
  - change (layout l.*1 (map tcell l.*2)) with (enc (object l)). rewrite object_size. apply Hf.
Qed.

(** ** Merging objects *)

Definition ref_of (j : JsonRef) (t : jtree) : Prop := ∃ p, j = tref p t.

(** A value that [merge] can be given, with objects in objects less than [d] deep. *)
Definition input (d : nat) (t : jtree) : Prop := jok t ∧ named t ∧ (odepth t < d)%nat.

(** What the recursive call does. *)
Definition merges_pairs (rec : list JsonRef → rM Json) (d : nat) : Prop :=
  ∀ p q o c, input d o → input d c → jok (tjoin c o) → rec [tref p o; tref q c] = okR (tjson (tjoin c o)).

(** The members gathered so far. *)
Definition gathered (d : nat) (l : list (list Z * jtree)) : Prop :=
  well l ∧ fits l ∧ Forall (λ c, odepth c < d)%nat l.*2.

Lemma gathered_input d l c : gathered d l → c ∈ l.*2 → input d c.
Proof.
  intros ((_ & _ & Hn) & [Hj _] & Hd) Hc. rewrite Forall_forall in Hn, Hj, Hd. split_and!; auto.
Qed.

Lemma object_gathered d t : is_object t = true → input (S d) t → gathered d (entries t).
Proof.
  intros Ho (Hj & Hn & Hd). destruct (named_entries t Ho Hn) as [Hw E]. split_and!; [done|..].
  - apply (jok_fits _ Hw). by rewrite E.
  - rewrite Forall_forall. intros c Hc. rewrite <- E in Hd. by eapply odepth_member.
Qed.

Lemma gathered_join d l k c : gathered d l → name_ok k → named c → (odepth c < d)%nat →
  fits (join_entry l (k, c)) → gathered d (join_entry l (k, c)).
Proof.
  intros (Hw & _ & Hd) Hk Hc Hdc Hf. split_and!; [|done|].
  - apply well_join; try done. by apply tjoin_named.
  - unfold join_entry. cbn. apply kadd_values; [done..|]. intros. by apply tjoin_shallow.
Qed.

Lemma merge_member_tree rec d p t l i k c : merges_pairs rec d → is_object t = true → input (S d) t →
  entries t !! i = Some (k, c) → gathered d l → fits (join_entry l (k, c)) →
  merge_member rec (tref p t) (map tentry l) (Z.of_nat i) = okR (map tentry (join_entry l (k, c))).
Proof.
  intros Hrec Ho Ht Hi Hl Hf. pose proof (object_gathered d t Ho Ht) as Hg.
  assert (c ∈ (entries t).*2) as Hc by (apply (list_elem_of_lookup_2 _ i); by rewrite list_lookup_fmap, Hi).
  assert (name_ok k) as [_ Hutf].
  { destruct Hg as ((_ & Hn & _) & _). rewrite Forall_forall in Hn. apply Hn, (list_elem_of_lookup_2 _ i).
    by rewrite list_lookup_fmap, Hi. }
  destruct Ht as (Hj & _). destruct t as [| | | | | | |ks ts]; try done.
  unfold entries in Hi. cbn in Hi. apply lookup_zip_with_Some in Hi as (k' & c' & [= <- <-] & Hk & Hct).
  unfold merge_member. rewrite (object_get_soliton_id_tree p ks ts i k Hj Hk). cbn [liftR]. rewrite rbind_ok.
  rewrite (object_get_val_tree p ks ts i c Hj Hct), rbind_ok. unfold str_from_utf8. rewrite Hutf.
  assert (StronglySorted bytes_lt l.*1) as Hs by (by destruct Hl as [ [? ?] ?]).
  pose proof (btree_tree k l Hs) as Hb. unfold join_entry. cbn [fst snd].
  change (to_owned (tref _ c)) with (tjson c).
  destruct (btree_remove k (map tentry l)) as [[old m]|]; [|by rewrite (Hb (tjoin c) c)].
  destruct Hb as (o & -> & Hov & _ & Hins). destruct (Hins (tjoin c)) as [E Hin].
  change (as_ref (tjson o)) with (tref 0 o).
  rewrite Hrec; [by rewrite rbind_ok, (E c)|exact (gathered_input d l o Hl Hov)|exact (gathered_input d _ c Hg Hc)|].
  destruct Hf as [Hf _]. rewrite Forall_forall in Hf. apply Hf, Hin.
Qed.

(** The entries of a valid object: what [fits_prefix] asks of the members to come. *)
Lemma entries_ok d os : Forall (λ o, is_object o = true) os → Forall (input (S d)) os →
  let es := concat (map entries os) in
  Forall name_ok es.*1 ∧ Forall named es.*2 ∧ Forall (λ c, odepth c < d)%nat es.*2.
Proof.
  intros Ho Hi. induction os as [|o os IH]; cbn; [by repeat constructor|].
  apply Forall_cons_1 in Ho as [Ho1 Ho], Hi as [Hi1 Hi]. rewrite !fmap_app, !Forall_app.
  destruct (object_gathered d o Ho1 Hi1) as ((_ & ? & ?) & _ & ?). destruct (IH Ho Hi) as (? & ? & ?). done.
Qed.

Lemma gathered_fold d es : ∀ l, gathered d l → Forall name_ok es.*1 → Forall named es.*2 →
  Forall (λ c, odepth c < d)%nat es.*2 → fits (fold_left join_entry es l) → gathered d (fold_left join_entry es l).
Proof.
  induction es as [|[k c] es IH]; intros l Hl Hk Hc Hd Hf; [done|]. cbn in Hk, Hc, Hd.
  pose proof (fits_prefix [(k, c)] es l (proj1 Hl) Hk Hc Hf) as Hf1.
  apply Forall_cons_1 in Hk as [? ?], Hc as [? ?], Hd as [? ?]. cbn [fold_left] in *.
  apply IH; try done. by apply gathered_join.
Qed.

Lemma merge_one_object rec d p t l : merges_pairs rec d → is_object t = true → input (S d) t → gathered d l →
  fits (fold_left join_entry (entries t) l) →
  (elem_count ←? liftR (get_elem_count (tref p t));
   foldR (merge_member rec (tref p t)) (map tentry l) (range elem_count))
  = okR (map tentry (fold_left join_entry (entries t) l)).
Proof.
  intros Hrec Ho Ht Hl Hf. pose proof (object_gathered d t Ho Ht) as ((_ & Hn & Hv) & _ & Hd).
  assert (zlen (children t) = zlen (entries t)) as Ec.
  { destruct Ht as (Hj & _). destruct t; try done. unfold entries. rewrite length_zip_with.
    pose proof (jok_names _ Hj eq_refl). cbn in *. lia. }
  rewrite elem_count_tree; [|apply Ht|by destruct t]. cbn [liftR]. rewrite rbind_ok, Ec.
  apply (foldR_range (merge_member rec (tref p t)) join_entry (map tentry)).
  intros i [k c] Hi. assert (fits (fold_left join_entry (take (S i) (entries t)) l)) as Hfi.
  { apply (fits_prefix _ (drop (S i) (entries t))); rewrite ?take_drop; try done. apply Hl. }
  assert (∀ (P : list Z → Prop), Forall P (entries t).*1 → Forall P (take i (entries t)).*1) as H1.
  { intros P HP. rewrite fmap_take. by apply Forall_take. }
  assert (∀ (P : jtree → Prop), Forall P (entries t).*2 → Forall P (take i (entries t)).*2) as H2.
  { intros P HP. rewrite fmap_take. by apply Forall_take. }
  rewrite (take_S_r _ _ _ Hi), fold_left_app in Hfi. cbn [fold_left] in Hfi.
  apply (merge_member_tree rec d); try done. apply gathered_fold; auto.
  apply (fits_prefix _ (drop i (entries t))); rewrite ?take_drop; try done. apply Hl.
Qed.

Lemma merge_objects rec d objs os : merges_pairs rec d → Forall2 ref_of objs os →
  Forall (λ o, is_object o = true) os → Forall (input (S d)) os → ∀ l, gathered d l →
  fits (fold_left join_entry (concat (map entries os)) l) →
  foldR (λ m j, elem_count ←? liftR (get_elem_count j); foldR (merge_member rec j) m (range elem_count))
    (map tentry l) objs = okR (map tentry (fold_left join_entry (concat (map entries os)) l)).
Proof.
  intros Hrec. induction 1 as [|j o objs os [p ->] _ IH]; intros Ho Hi l Hl Hf; [done|].
  apply Forall_cons_1 in Ho as [Ho1 Ho], Hi as [Hi1 Hi].
  pose proof (object_gathered d o Ho1 Hi1) as ((_ & Hn & Hv) & _ & Hd). destruct (entries_ok d os Ho Hi) as (Hn' & Hv' & _).
  cbn [map concat foldR] in Hf |- *. assert (fits (fold_left join_entry (entries o) l)) as Hf1.
  { eapply fits_prefix; [apply Hl| | |exact Hf]; rewrite fmap_app, Forall_app; done. }
  rewrite (merge_one_object rec d), rbind_ok by done. rewrite fold_left_app in Hf |- *.
  apply IH; try done. by apply gathered_fold.
Qed.

(** ** The runs *)

(** Objects waiting to be merged, as one value. *)
Definition pend_of (os : list jtree) : option jtree :=
  match os with [] => None | o :: os => Some (fold_left (λ a b, tjoin b a) os o) end.

Lemma pend_snoc os t : pend_of (os ++ [t]) = Some (match pend_of os with Some o => tjoin t o | None => t end).
Proof. destruct os as [|o os]; cbn; [done|]. by rewrite fold_left_app. Qed.

Lemma fold_object os : Forall (λ o, is_object o = true) os → ∀ l,
  fold_left (λ a b, tjoin b a) os (object l) = object (fold_left join_entry (concat (map entries os)) l).
Proof.
  induction 1 as [|o os Ho _ IH]; intros l; [done|]. cbn [fold_left map concat].
  rewrite tjoin_entries, entries_object, IH by done. by rewrite fold_left_app.
Qed.

Lemma pend_object d os t : Forall (λ o, is_object o = true) os → Forall (input (S d)) os → pend_of os = Some t →
  t = object (fold_left join_entry (concat (map entries os)) []).
Proof.
  destruct os as [|o os]; [done|]. intros [Ho1 Ho]%Forall_cons_1 [Hi1 _]%Forall_cons_1 [= <-].
  destruct (named_entries o Ho1 ltac:(apply Hi1)) as [(Hs & _) E]. rewrite <- E at 1. rewrite fold_object by done.
  cbn [map concat]. by rewrite fold_left_app, (fold_empty (entries o)).
Qed.

Lemma merge_binary_object_tree rec d objs os t : merges_pairs rec d → Forall2 ref_of objs os →
  Forall (λ o, is_object o = true) os → Forall (input (S d)) os → pend_of os = Some t → jok t →
  merge_binary_object rec objs = okR (tjson t).
Proof.
  intros Hrec Hr Ho Hi Hp Ht. pose proof (pend_object d os t Ho Hi Hp) as ->.
  destruct (entries_ok d os Ho Hi) as (Hn & Hv & _).
  assert (gathered d []) as Hg.
  { split_and!; [|split; [constructor|cbn; mach; lia]|constructor]. split_and!; constructor. }
  assert (well (fold_left join_entry (concat (map entries os)) [])) as Hw by (apply well_entries; try done; apply Hg).
  apply (jok_fits _ Hw) in Ht as Hf. unfold merge_binary_object. change [] with (map tentry []) at 1.
  rewrite (merge_objects rec d objs os Hrec Hr Ho Hi [] Hg Hf), rbind_ok. by apply from_object_tree.
Qed.

(** A unit that holds a value. *)
Definition unit_of (u : MergeUnit) (t : jtree) : Prop := (∃ p, u = Ref (tref p t)) ∨ u = Owned (tjson t).

Lemma unit_ref u t : unit_of u t → ∃ p, unit_as_ref u = tref p t.
Proof. intros [[p ->]| ->]; [by exists p|by exists 0]. Qed.

Lemma unit_owned u t : unit_of u t → into_owned u = tjson t.
Proof. by intros [[p ->]| ->]. Qed.

Lemma merge_binary_array_tree us ts : Forall2 unit_of us ts → Forall jok ts →
  jok (JArray (concat (map elems ts))) → merge_binary_array us = okR (tjson (JArray (concat (map elems ts)))).
Proof.
  intros Hu Hts Hj. unfold merge_binary_array, flatR.
  match goal with |- context [mapR ?f us] =>
    destruct (mapR_Forall2 f (λ t js, stands js (elems t)) us ts) as (bs & E & Hbs) end.
  - clear Hj. induction Hu as [|u t us ts Hut _ IH]; [constructor|]. apply Forall_cons_1 in Hts as [Ht Hts].
    constructor; [|by apply IH]. destruct (unit_ref u t Hut) as [p ->]. cbv zeta. rewrite get_type_tref.
    destruct t as [| | | | | |us'|ks us']; cbn [ttype elems];
      try (match goal with |- context [okR [tref p ?t]] => exists [tref p t] end; done).
    rewrite elem_count_tree by done. cbn [liftR]. rewrite rbind_ok. by apply (array_elems_tree p us').
  - rewrite E, !rbind_ok. apply from_ref_array_tree; [|done]. clear E Hu Hts Hj.
    induction Hbs as [|t b ts bs Hb _ IH]; [done|]. by apply stands_app.
Qed.

(** ** The loop *)

Lemma runs_jok ts : Forall jok ts → ∀ pend, (∀ o, pend = Some o → is_object o = true) →
  (∀ t, t ∈ runs pend ts → is_object t = true → jok t) → Forall jok (runs pend ts).
Proof.
  induction 1 as [|t ts Ht _ IH]; intros pend Hp H; cbn [runs] in *.
  - destruct pend as [o|]; cbn in *; [|constructor]. constructor; [|constructor]. apply H; [constructor|auto].
  - destruct (is_object t) eqn:Et.
    + apply IH; [|done]. intros o [= <-]. destruct pend as [o|]; [|done].
      rewrite tjoin_entries; [done|done|by apply Hp].
    + apply Forall_app. split; [|constructor; [done|]].
      * destruct pend as [o|]; cbn in *; [|constructor]. constructor; [|constructor]. apply H; [constructor|auto].
      * apply IH; [done|]. intros u Hu. apply H. rewrite elem_of_app, elem_of_cons. auto.
Qed.

Lemma tmerge_parts ts : jok (tmerge ts) → ∀ t, t ∈ runs None ts → is_object t = true → jok t.
Proof.
  unfold tmerge. intros Hj t Ht Ho. destruct (runs None ts) as [|u [|u' us]] eqn:E; [by apply elem_of_nil in Ht|..].
  - apply list_elem_of_singleton in Ht as ->. done.
  - apply jok_children in Hj. cbn [children] in Hj. rewrite Forall_forall in Hj. apply Hj.
    apply list_elem_of_In, in_concat. exists (elems t).
    split; [by apply in_map, list_elem_of_In|]. destruct t; try done. by left.
Qed.

Lemma merge_flush rec d objs os units us : merges_pairs rec d → Forall2 ref_of objs os →
  Forall (λ o, is_object o = true) os → Forall (input (S d)) os → Forall2 unit_of units us →
  (∀ t, pend_of os = Some t → jok t) → ∃ units',
  match objs with
  | [] => okR units
  | [o] => okR (units ++ [Ref o])
  | _ => o ←? merge_binary_object rec objs; okR (units ++ [Owned o])
  end = okR units' ∧ Forall2 unit_of units' (us ++ option_list (pend_of os)).
Proof.
  intros Hrec Hr Ho Hi Hu Hp. destruct Hr as [|j o objs os Hj Hr].
  { exists units. by rewrite app_nil_r. }
  pose proof (Hp _ eq_refl) as Hj'. destruct Hr as [|j' o' objs os Hj2 Hr].
  - exists (units ++ [Ref j]). split; [done|]. destruct Hj as [p ->]. apply Forall2_app; [done|].
    constructor; [by (exists p) || (left; by exists p)|constructor].
  - rewrite (merge_binary_object_tree rec d _ (o :: o' :: os) _ Hrec ltac:(by repeat constructor) Ho Hi eq_refl Hj'), rbind_ok.
    eexists. split; [done|]. apply Forall2_app; [done|]. constructor; [by right|constructor].
Qed.

Lemma merge_loop rec d : merges_pairs rec d → ∀ bjs ts, Forall2 ref_of bjs ts → Forall (input (S d)) ts →
  ∀ units us objs os, Forall2 unit_of units us → Forall2 ref_of objs os →
  Forall (λ o, is_object o = true) os → Forall (input (S d)) os →
  (∀ t, t ∈ runs (pend_of os) ts → is_object t = true → jok t) →
  ∃ units', (s ←? foldR (merge_step rec) (units, objs) bjs; merge_rest rec s) = okR units'
    ∧ Forall2 unit_of units' (us ++ runs (pend_of os) ts).
Proof.
  intros Hrec. assert (∀ os t, Forall (λ o, is_object o = true) os → Forall (input (S d)) os →
    pend_of os = Some t → is_object t = true) as Hpo by (intros os t Ho Hi Hp; by rewrite (pend_object d os t Ho Hi Hp)).
  induction 1 as [|j t bjs ts [p ->] Hr IH]; intros Hi units us objs os Hu Ho Hos His Hj.
  - cbn [foldR runs] in *. rewrite rbind_ok. unfold merge_rest. cbn [fst snd].
    destruct Ho as [|j o objs os Hjo Ho]; [exists units; by rewrite app_nil_r|].
    rewrite (merge_binary_object_tree rec d _ (o :: os) _ Hrec ltac:(by constructor) Hos His eq_refl), rbind_ok.
    + eexists. split; [done|]. apply Forall2_app; [done|]. constructor; [by right|constructor].
    + apply Hj; [constructor|]. by apply (Hpo (o :: os)).
  - apply Forall_cons_1 in Hi as [Hi1 Hi]. cbn [foldR runs]. cbn [runs] in Hj.
    destruct (is_object t) eqn:Et.
    + assert (merge_step rec (units, objs) (tref p t) = okR (units, objs ++ [tref p t])) as -> by (by destruct t).
      rewrite rbind_ok, <- pend_snoc. rewrite <- pend_snoc in Hj.
      apply IH; try done; [|apply Forall_app; split; [done|by constructor]..].
      apply Forall2_app; [done|]. constructor; [by (exists p) || (left; by exists p)|constructor].
    + destruct (merge_flush rec d objs os units us Hrec Ho Hos His Hu) as (units1 & E & Hu1).
      { intros o Hp. apply Hj; [rewrite Hp; constructor|]. by apply (Hpo os). }
      assert (merge_step rec (units, objs) (tref p t) = okR (units1 ++ [Ref (tref p t)], [])) as ->.
      { unfold merge_step. rewrite get_type_tref, E. by destruct t. }
      rewrite rbind_ok. destruct (IH Hi (units1 ++ [Ref (tref p t)]) (us ++ option_list (pend_of os) ++ [t]) [] [])
        as (units' & E' & Hu'); try constructor.
      * rewrite app_assoc. apply Forall2_app; [done|]. constructor; [left; by exists p|constructor].
      * intros u Hu'. apply Hj. rewrite elem_of_app, elem_of_cons. auto.
      * exists units'. split; [done|]. by rewrite <- !app_assoc in Hu'.
Qed.

(** ** The function *)

Lemma merge_fuel_tree fuel : ∀ bjs ts, Forall2 ref_of bjs ts → Forall (input fuel) ts → (0 < fuel)%nat →
  jok (tmerge ts) → merge_fuel fuel bjs = okR (tjson (tmerge ts)).
Proof.
  induction fuel as [|fuel IH]; intros bjs ts Hr Hts Hf Hj; [lia|]. cbn [merge_fuel].
  assert (Hrec : merges_pairs (merge_fuel fuel) fuel).
  { intros p q o c Ho Hc Hoc. rewrite <- tmerge_pair in Hoc |- *.
    apply IH; [|constructor; [done|constructor; [done|constructor]]|destruct Ho as (_ & _ & ?); lia|done].
    do 2 (constructor; [by eexists|]). constructor. }
  destruct (merge_loop _ _ Hrec bjs ts Hr Hts [] [] [] []) as (units & E & Hu); try constructor.
  { by apply tmerge_parts. }
  cbn [app pend_of] in Hu. pose proof (tmerge_parts ts Hj) as Hp.
  destruct (foldR _ _ _) as [[s|e]|]; [|done..]. cbn [rbind] in *. rewrite E, rbind_ok.
  assert (Forall jok (runs None ts)) as Hrj.
  { apply runs_jok; [|done|done]. eapply Forall_impl; [exact Hts|]. by intros t (? & _). }
  unfold tmerge in *. destruct Hu as [|u t units us Hut Hu]; [by apply (merge_binary_array_tree [] [])|].
  destruct Hu as [|u' t' units us Hut' Hu]; [by rewrite (unit_owned u t)|].
  apply merge_binary_array_tree; [|done|done]. do 2 (constructor; [done|]). done.
Qed.

(** C19. [merge] ends, and returns the document of the merged values: the values of a
    run of objects are merged into one object, member by member; one value that is left
    is the result, several ones are put in an array, the members of the arrays among
    them in their place.  The values are documents, and so is the result, whose size
    fits its 32 bits; all names are text. *)
Theorem json_merge_exact bjs ts : Forall2 ref_of bjs ts → Forall jok ts → Forall named ts → jok (tmerge ts) →
  merge bjs = okR (tjson (tmerge ts)).
Proof.
  intros Hr Hj Hn Hm. apply merge_fuel_tree; [done| |lia|done].
  assert (∀ j, j ∈ bjs → (length (causet_locale j) <= list_max (map (λ j, length (causet_locale j)) bjs))%nat) as Hle.
  { intros j Hin. assert (list_max (map (λ j, length (causet_locale j)) bjs) <= list_max (map (λ j, length (causet_locale j)) bjs))%nat as H by done.
    apply list_max_le in H. rewrite List.Forall_map, List.Forall_forall in H. apply H. by apply list_elem_of_In. }
  revert Hle. generalize (list_max (map (λ j, length (causet_locale j)) bjs)) as m. intros m. clear Hm.
  induction Hr as [|j t bjs ts [p ->] _ IH]; intros Hle; [constructor|].
  apply Forall_cons_1 in Hj as [? ?], Hn as [? ?]. constructor; [|apply IH; auto; intros; apply Hle; by constructor].
  split_and!; [done..|]. pose proof (odepth_le t). pose proof (fuel_enough t).
  pose proof (Hle (tref p t) ltac:(constructor)) as Hl. cbn in Hl. lia.
Qed.
End Merging.
