(* ===== verification/JsonSample.v ===== *)
(** * JsonSample: a codec and writers, and the theorems on concrete documents

    A little-endian codec with LEB128 lengths and writers that follow the description
    of the format: they satisfy the laws, so that the theorems on JSON documents apply
    to concrete bytes, the ones of the repository's own tests among them, those of
    merging last. *)
From Stdlib Require Import ZArith Lia Sorted.
From stdpp Require Import base list numbers.
From S2P Require Import Prelude EvalCtx Slice Float JsonBinary JsonTree JsonExtract JsonModify JsonUpdate JsonOps JsonCmp JsonMerging JsonMerge.
#[local] Open Scope Z_scope.

#[local] Notation zlen l := (Z.of_nat (length l)).

(** ** The codec *)

Fixpoint le_int (l : list Z) : Z := match l with [] => 0 | b :: l => b + 256 * le_int l end.

Definition read_le (n : nat) (l : list Z) : outcome Z :=
  if (length l <? n)%nat then Panic else Ret (le_int (take n l)).

Lemma le_int_bytes n : ∀ v, 0 <= v < 256 ^ Z.of_nat n → le_int (le_bytes n v) = v.
Proof.
  induction n as [|n IH]; intros v Hv; [cbn in *; lia|].
  cbn [le_bytes le_int]. rewrite Nat2Z.inj_succ, Z.pow_succ_r in Hv by lia.
  rewrite IH; [pose proof (Z.div_mod v 256 ltac:(lia)); lia|].
  split; [apply Z.div_pos; lia|]. apply Z.div_lt_upper_bound; lia.
Qed.

Lemma read_le_bytes n v rest : 0 <= v < 256 ^ Z.of_nat n → read_le n (le_bytes n v ++ rest) = Ret v.
Proof.
  intros Hv. unfold read_le. rewrite length_app, le_bytes_length, (proj2 (Nat.ltb_ge _ _)) by lia.
  rewrite <- (le_bytes_length n v) at 1. rewrite take_app_length, le_int_bytes by done. done.
Qed.

(** LEB128. *)
Fixpoint put_var (n : nat) (v : Z) : list Z :=
  match n with
  | O => []
  | S n => if v <? 128 then [v] else (v mod 128 + 128) :: put_var n (v / 128)
  end.

Fixpoint get_var (n : nat) (l : list Z) : option (Z * Z) :=
  match n, l with
  | S n, b :: l =>
      if b <? 128 then Some (b, 1)
      else match get_var n l with Some (v, k) => Some (b - 128 + 128 * v, k + 1) | None => None end
  | _, _ => None
  end.

Lemma get_put_var n : ∀ v rest, (0 < n)%nat → 0 <= v < 128 ^ Z.of_nat n →
  get_var n (put_var n v ++ rest) = Some (v, zlen (put_var n v)).
Proof.
  induction n as [|n IH]; intros v rest Hn Hv; [lia|]. cbn [put_var]. destruct (Z.ltb_spec v 128) as [Hlt|Hge].
  { cbn. by rewrite (proj2 (Z.ltb_lt v 128)). }
  rewrite Nat2Z.inj_succ, Z.pow_succ_r in Hv by lia. cbn [app get_var length].
  pose proof (Z.mod_pos_bound v 128 ltac:(lia)). rewrite (proj2 (Z.ltb_ge _ 128)) by lia.
  destruct n as [|n]; [cbn in Hv; lia|]. rewrite IH; [|lia|].
  - f_equal. f_equal; [pose proof (Z.div_mod v 128 ltac:(lia)); lia|lia].
  - split; [apply Z.div_pos; lia|]. apply Z.div_lt_upper_bound; lia.
Qed.

#[export] Instance sample_number_codec : NumberCodec := {|
  decode_u16_le := read_le 2;
  decode_u32_le := read_le 4;
  decode_u64_le := read_le 8;
  decode_i64_le := λ l, v ← read_le 8 l; Ret (as_i64 v);
  decode_f64_le := λ l, v ← read_le 8 l; Ret (f64_from_bits v);
  encode_u16_le := le_bytes 2;
  encode_u32_le := le_bytes 4;
  encode_u64_le := le_bytes 8;
  encode_i64_le := λ v, le_bytes 8 (as_u64 v);
  encode_f64_le := λ f, le_bytes 8 (f64_bits f);
  try_decode_var_u64 := λ l, match get_var 10 l with Some r => Ok r | None => Err Encoding end;
  encode_var_u64 := put_var 10;
|}.

#[export] Instance sample_number_laws : NumberCodecLaws.
Proof.
  split; cbn [encode_u16_le encode_u32_le decode_u16_le decode_u32_le encode_u64_le encode_i64_le encode_f64_le
    decode_u64_le decode_i64_le decode_f64_le try_decode_var_u64 encode_var_u64 sample_number_codec]; intros;
    try done; try (apply le_bytes_length); try (rename H into Hok).
  - apply read_le_bytes. mach. lia.
  - apply read_le_bytes. mach. lia.
  - rewrite <- (app_nil_r (le_bytes 8 v)). apply read_le_bytes. mach. lia.
  - rewrite <- (app_nil_r (le_bytes 8 _)), read_le_bytes.
    + cbn. f_equal. unfold as_i64, as_u64. mach.
      rewrite Zplus_mod_idemp_l, Z.mod_small by lia. lia.
    + unfold as_u64. cbn. apply Z.mod_pos_bound. lia.
  - destruct (f64_bits_back f Hok) as [Hr Hb]. rewrite <- (app_nil_r (le_bytes 8 (f64_bits f))).
    rewrite (read_le_bytes 8 (f64_bits f) [] Hr). bindr. by rewrite Hb.
  - rewrite get_put_var; [done|lia|]. mach. cbn. lia.
Qed.

(** ** The writers *)

#[export] Instance sample_writer : JsonWriter := {|
  write_causet_locale_causet := λ buf off j, (buf ++ ventry off (ref_cell j), off + zlen (body (ref_cell j)));
  write_json_ref_array := λ l, okR (layout [] (map ref_cell l));
  write_json_array := λ l, okR (layout [] (map json_cell l));
  write_json_obj := λ l, okR (layout l.*1 (map json_cell l.*2));
  write_json_str := λ s, okR (encode_var_u64 (zlen s) ++ s);
|}.

#[export] Instance sample_writer_laws : JsonWriterLaws.
Proof. by split. Qed.

(** ** Well-formedness, decided *)

Definition sortedb (ks : list (list Z)) : bool :=
  forallb (λ p, bytes_ltb p.1 p.2) (zip ks (tail ks)).

Lemma sortedb_spec ks : sortedb ks = true → StronglySorted bytes_lt ks.
Proof.
  intros H. apply Sorted_StronglySorted; [intros x y z; apply bytes_lt_trans|].
  unfold sortedb in H. induction ks as [|k [|k' ks] IH]; [constructor|by repeat constructor|].
  cbn [tail zip zip_with forallb fst snd] in H. apply andb_prop in H as [H1 H2].
  constructor; [by apply IH|]. constructor. by apply bytes_ltb_lt.
Qed.

Fixpoint jokb (t : jtree) : bool :=
  match t with
  | JNull | JBool _ => true
  | JDouble f => f64_ok f
  | JI64 i => (I64_MIN <=? i) && (i <=? I64_MAX)
  | JU64 u => (0 <=? u) && (u <=? U64_MAX)
  | JString s => zlen s <=? U64_MAX
  | JArray ts => forallb jokb ts && (zlen (enc (JArray ts)) <=? U32_MAX)
  | JObject ks ts =>
      forallb jokb ts && bool_decide (length ks = length ts) && sortedb ks
      && forallb (λ k, zlen k <=? U16_MAX) ks && (zlen (enc (JObject ks ts)) <=? U32_MAX)
  end.

Lemma jokb_spec t : jokb t = true → jok t.
Proof.
  assert (Hall : ∀ ts, Forall (λ t, jokb t = true → jok t) ts → forallb jokb ts = true → Forall jok ts).
  { induction 1 as [|x ts Hx _ IH]; cbn; [constructor|]. intros [? ?]%andb_prop. constructor; auto. }
  induction t as [|b|i|u|f|s|ts IH|ks ts IH] using jtree_rect'; cbn [jokb]; intros H; try constructor;
    repeat match goal with H : _ && _ = true |- _ => apply andb_prop in H as [? ?] end;
    repeat match goal with H : (_ <=? _) = true |- _ => apply Z.leb_le in H end; auto; try (mach; lia).
  - by apply bool_decide_eq_true in H3.
  - by apply sortedb_spec.
  - apply List.Forall_forall. intros k Hk. rewrite forallb_forall in H1. by apply Z.leb_le, H1.
Qed.

(** ** Witnesses *)

(** [{"a": [1, 2, {"b": "xx"}], "c": false}] and paths into it. *)
Definition inner : jtree := JObject [[98]] [JString [120; 120]].
Definition doc : jtree := JObject [[97]; [99]] [JArray [JI64 1; JI64 2; inner]; JBool false].
Definition path_b : local_pathExpression := mkPath [Key [97]; Index 2; Key [98]] 0.
Definition path_1 : local_pathExpression := mkPath [Key [97]; Index 1] 0.

Lemma doc_ok : jok doc.
Proof. by apply jokb_spec; vm_compute. Qed.

Lemma sample_legs_ok : Forall (λ e, Forall leg_ok (legs e)) [path_1; path_b].
Proof. repeat constructor; mach; lia. Qed.

Lemma sample_path_ok : Forall path_ok [path_b; path_1].
Proof. repeat constructor; try done; mach; lia. Qed.

Lemma path_b_plain : Forall plain (legs path_b).
Proof. repeat constructor; try done; mach; lia. Qed.

Lemma depth_exact_witness : jok doc ∧ depth (tref 7 doc) = okR 4.
Proof. split; [exact doc_ok|]. exact (depth_exact 7 doc doc_ok). Defined.

Lemma extract_exact_witness :
  jok doc ∧ extract (tref 7 doc) [path_1; path_b] = okR (Some (tjson (JArray [JI64 2; JString [120; 120]]))).
Proof.
  split; [exact doc_ok|]. refine (extract_exact 7 doc [path_1; path_b] doc_ok sample_legs_ok _).
  intros cs Hcs. vm_compute in Hcs. injection Hcs as <-. vm_compute. done.
Defined.

Lemma remove_exact_witness :
  jok doc ∧ remove (tref 7 doc) [path_b; path_1]
    = okR (tjson (JObject [[97]; [99]] [JArray [JI64 1; JObject [] []]; JBool false])).
Proof. split; [exact doc_ok|]. exact (remove_exact 7 doc [path_b; path_1] doc_ok sample_path_ok). Defined.

Lemma modify_exact_witness :
  modify (tref 7 doc) [path_b; path_1] (map tjson [JNull; JI64 9]) Set_
  = okR (tjson (JObject [[97]; [99]] [JArray [JI64 1; JI64 9; JObject [[98]] [JNull]]; JBool false])).
Proof.
  refine (modify_exact Set_ 7 doc [path_b; path_1] [JNull; JI64 9] _ sample_path_ok _); [done|].
  intros [|[|[|k]]]; by apply jokb_spec; vm_compute.
Defined.

Lemma set_then_extract_witness :
  jok doc ∧ ∃ d, modify (tref 7 doc) [path_b] [tjson (JI64 5)] Replace = okR d
    ∧ extract (as_ref d) [path_b] = okR (Some (tjson (JI64 5))).
Proof.
  split; [exact doc_ok|].
  refine (set_then_extract Replace 7 doc path_b (JI64 5) _ doc_ok _ path_b_plain _ _); [by right|done|done|].
  by apply jokb_spec; vm_compute.
Defined.

Lemma remove_then_extract_witness :
  jok doc ∧ ∃ d, remove (tref 7 doc) [path_b] = okR d ∧ extract (as_ref d) [path_b] = okR None.
Proof.
  split; [exact doc_ok|].
  exact (remove_then_extract 7 doc path_b [Key [97]; Index 2] [98] doc_ok eq_refl eq_refl path_b_plain eq_refl).
Defined.

(** An array sorts before the longer array it begins. *)
Definition arr_short : jtree := JArray [JI64 1; JString [97]].
Definition arr_long : jtree := JArray [JU64 1; JString [97]; JNull].

Lemma arr_ok : jok arr_short ∧ jok arr_long.
Proof. by split; apply jokb_spec; vm_compute. Qed.

Lemma partial_cmp_exact_witness :
  (jok arr_short ∧ jok arr_long) ∧ partial_cmp (tref 7 arr_short) (tref 9 arr_long) = Ret (Some Lt).
Proof.
  split; [exact arr_ok|]. exact (partial_cmp_exact 7 9 arr_short arr_long (proj1 arr_ok) (proj2 arr_ok)).
Defined.

Lemma json_partial_cmp_antisym_witness :
  (jok arr_short ∧ jok arr_long) ∧ partial_cmp (tref 9 arr_long) (tref 7 arr_short)
    = (o ← partial_cmp (tref 7 arr_short) (tref 9 arr_long); Ret (option_map CompOpp o)).
Proof.
  split; [exact arr_ok|]. exact (json_partial_cmp_antisym 7 9 arr_short arr_long (proj1 arr_ok) (proj2 arr_ok)).
Defined.

Lemma object_eq_exact_witness :
  (jok doc ∧ jok inner) ∧ eq (tref 7 doc) (tref 9 inner) = Ret false
  ∧ (enc doc = enc inner ↔ [[97]; [99]] = [[98]] ∧ [JArray [JI64 1; JI64 2; inner]; JBool false] = [JString [120; 120]]).
Proof.
  assert (Hi : jok inner) by (by apply jokb_spec; vm_compute). split; [exact (conj doc_ok Hi)|].
  exact (object_eq_exact 7 9 _ _ _ _ doc_ok Hi).
Defined.

Lemma json_order_cycle_witness :
  partial_cmp (tref 0 (JBool false)) (tref 1 (JBool true)) = Ret (Some Lt)
  ∧ partial_cmp (tref 1 (JBool true)) (tref 2 (JDouble three_halves)) = Ret (Some Lt)
  ∧ partial_cmp (tref 2 (JDouble three_halves)) (tref 0 (JBool false)) = Ret (Some Lt).
Proof. exact (json_order_cycle 0 1 2). Defined.


(** The cases of [test_merge] in [json_merge.rs]: the values, and what is expected. *)
Definition merge_cases : list (list jtree * jtree) := [
  ([JObject [[97]] [JI64 1]; JObject [[98]] [JI64 2]], JObject [[97]; [98]] [JI64 1; JI64 2]);
  ([JObject [[97]] [JI64 1]; JObject [[97]] [JI64 2]], JObject [[97]] [JArray [JI64 1; JI64 2]]);
  ([JObject [[97]] [JI64 1]; JObject [[97]] [JArray [JI64 2; JI64 3]]], JObject [[97]] [JArray [JI64 1; JI64 2; JI64 3]]);
  ([JObject [[97]] [JI64 1]; JObject [[97]] [JObject [[98]] [JArray [JI64 2; JI64 3]]]], JObject [[97]] [JArray [JI64 1; JObject [[98]] [JArray [JI64 2; JI64 3]]]]);
  ([JObject [[97]] [JObject [[98]] [JArray [JI64 2; JI64 3]]]; JObject [[97]] [JI64 1]], JObject [[97]] [JArray [JObject [[98]] [JArray [JI64 2; JI64 3]]; JI64 1]]);
  ([JObject [[97]] [JArray [JI64 1; JI64 2]]; JObject [[97]] [JObject [[98]] [JArray [JI64 3; JI64 4]]]], JObject [[97]] [JArray [JI64 1; JI64 2; JObject [[98]] [JArray [JI64 3; JI64 4]]]]);
  ([JObject [[98]] [JObject [[99]] [JI64 2]]; JObject [[97]; [98]] [JI64 1; JObject [[100]] [JI64 1]]], JObject [[97]; [98]] [JI64 1; JObject [[99]; [100]] [JI64 2; JI64 1]]);
  ([JArray [JI64 1]; JArray [JI64 2]], JArray [JI64 1; JI64 2]);
  ([JObject [[97]] [JI64 1]; JArray [JI64 1]], JArray [JObject [[97]] [JI64 1]; JI64 1]);
  ([JArray [JI64 1]; JObject [[97]] [JI64 1]], JArray [JI64 1; JObject [[97]] [JI64 1]]);
  ([JObject [[97]] [JI64 1]; JI64 4], JArray [JObject [[97]] [JI64 1]; JI64 4]);
  ([JArray [JI64 1]; JI64 4], JArray [JI64 1; JI64 4]);
  ([JI64 4; JObject [[97]] [JI64 1]], JArray [JI64 4; JObject [[97]] [JI64 1]]);
  ([JI64 1; JArray [JI64 4]], JArray [JI64 1; JI64 4]);
  ([JI64 4; JI64 1], JArray [JI64 4; JI64 1]);
  ([JI64 1; JI64 2; JI64 3], JArray [JI64 1; JI64 2; JI64 3]);
  ([JArray [JI64 1; JI64 2]; JI64 3; JArray [JI64 4; JI64 5; JI64 6]], JArray [JI64 1; JI64 2; JI64 3; JI64 4; JI64 5; JI64 6]);
  ([JObject [[97]; [98]; [101]] [JI64 1; JObject [[99]; [100]] [JI64 3; JI64 4]; JArray [JI64 5; JI64 6]]; JObject [[98]; [99]; [102]] [JObject [[97]; [99]] [JI64 8; JI64 9]; JI64 7; JArray [JI64 1; JI64 2]]; JObject [[98]; [100]; [101]] [JObject [[98]; [99]] [JI64 10; JI64 11]; JI64 9; JI64 8]], JObject [[97]; [98]; [99]; [100]; [101]; [102]] [JI64 1; JObject [[97]; [98]; [99]; [100]] [JI64 8; JI64 10; JArray [JI64 3; JI64 9; JI64 11]; JI64 4]; JI64 7; JI64 9; JArray [JI64 5; JI64 6; JI64 8]; JArray [JI64 1; JI64 2]])
].

Definition bytes_of (r : rM Json) : option (list Z) := match r with Ret (Ok j) => Some (json_bytes j) | _ => None end.

Example merge_tests :
  forallb (λ c, bool_decide (bytes_of (merge (map (tref 0) c.1)) = Some (enc c.2))) merge_cases = true.
Proof. vm_compute. reflexivity. Qed.

(** ** Names, decided *)

Fixpoint namedb (t : jtree) : bool :=
  match t with
  | JArray ts => forallb namedb ts
  | JObject ks ts =>
      forallb namedb ts && bool_decide (length ks = length ts) && sortedb ks
      && forallb (λ k, (zlen k <=? U16_MAX) && utf8_valid k) ks
  | _ => true
  end.

Lemma namedb_spec t : namedb t = true → named t.
Proof.
  assert (Hall : ∀ ts, Forall (λ t, namedb t = true → named t) ts → forallb namedb ts = true → Forall named ts).
  { induction 1 as [|x ts Hx _ IH]; cbn; [constructor|]. intros [? ?]%andb_prop. constructor; auto. }
  induction t as [| | | | | |ts IH|ks ts IH] using jtree_rect'; cbn [namedb]; intros H; try (by apply named_leaf).
  - apply named_array. auto.
  - repeat match goal with H : _ && _ = true |- _ => apply andb_prop in H as [? ?] end.
    apply named_object; [by apply Hall|by apply bool_decide_eq_true in H2|by apply sortedb_spec|].
    apply List.Forall_forall. intros k Hk. rewrite forallb_forall in H0. specialize (H0 k Hk).
    apply andb_prop in H0 as [Hl Hu]. apply Z.leb_le in Hl. done.
Qed.

(** [{"a": 1, "b": {"c": 3}}] and [{"b": {"c": 4}}], then [5]. *)
Definition left_doc : jtree := JObject [[97]; [98]] [JI64 1; JObject [[99]] [JI64 3]].
Definition right_doc : jtree := JObject [[98]] [JObject [[99]] [JI64 4]].
Definition merged_doc : jtree :=
  JArray [JObject [[97]; [98]] [JI64 1; JObject [[99]] [JArray [JI64 3; JI64 4]]]; JI64 5].

Lemma json_merge_exact_witness :
  merge [tref 7 left_doc; tref 9 right_doc; tref 0 (JI64 5)] = okR (tjson merged_doc).
Proof.
  refine (json_merge_exact [tref 7 left_doc; tref 9 right_doc; tref 0 (JI64 5)] [left_doc; right_doc; JI64 5] _ _ _ _).
  - repeat (apply Forall2_cons; [by eexists|]). constructor.
  - repeat (apply Forall_cons; [by apply jokb_spec; vm_compute|]). constructor.
  - repeat (apply Forall_cons; [by apply namedb_spec; vm_compute|]). constructor.
  - by apply jokb_spec; vm_compute.
Defined.
