(* ===== verification/Cache.v ===== *)
(** * Cache: the attribute caches

    [soliton/cache.rs]: for each attribute that is cached, the values of an entity
    (forward, called lightlike) and the entities of a value (reverse), in four kinds of
    maps by the attribute's cardinality and uniqueness; a cache in progress, an overlay
    on the caches it was taken from; and the watcher that collects a transaction's
    assertions and retractions and updates the caches.

    A [BTreeMap] is a finite map; where its order shows, it is by key.  A mutable
    reference to an entry is its value, written back.  The database is a function from
    the queries of the file to rows; interning strings gives equal values and is left
    out, and so are the messages to standard error.

    The file uses functions and methods it does not define: they are the class
    [CacheExternals], with what their names and the comments say of them as laws in
    [CacheAgree].  Of the conflicting implementations of a trait for one type, the one
    that has a body and type-checks is modelled. *)
From Stdlib Require Import ZArith Lia.
From stdpp Require Import base list numbers gmap sorting.
From S2P Require Import Prelude Upsert.
#[local] Open Scope Z_scope.

(** What the caches read of an attribute, and the topograph that maps identifiers to
    attributes. *)
Record Attribute := mkAttribute { multival : bool; unique : bool; fulltext : bool }.
Definition Topograph : Type := gmap Z Attribute.
Definition attribute_for_causetid (topograph : Topograph) (a : Z) : option Attribute := topograph !! a.

Inductive CacheError := CacheUpdateFailed | SqlError | UnCausetLocaleNucleonAttribute (a : Z).

(** ** Absorbing maps *)

(** A map takes over the entries of another; [f] says what is left of an entry, [None]
    for the sentinels of deleted ones. *)
Definition absorb_with `{Countable K} {A} (f : A → option A) (self other : gmap K A) : gmap K A :=
  fold_left (λ m x, match f x.2 with None => delete x.1 m | Some y => <[x.1 := y]> m end)
    (map_to_list other) self.

Class Absorb (C : Type) := absorb : C → C → outcome C.
Class RemoveFromCache (V C : Type) := remove_from : C → Z → V → C.
Class ClearCache (C : Type) := clear : C → C.

(** [plug_play] and [extend_by_absorbing] of a map of caches.  Their loops use a value
    after moving it: here it is copied. *)
Definition plug_play {C} `{Absorb C} (self other : gmap Z C) : outcome (gmap Z C) :=
  foldO (λ m x, match m !! x.1 with
                | Some v => v' ← absorb v v; Ret (<[x.1 := v']> m)
                | None => Ret (<[x.1 := x.2]> m)
                end) self (map_to_list other).

Definition extend_by_absorbing {C} `{Absorb C} (self other : gmap Z C) : outcome (gmap Z C) :=
  m ← plug_play self other;
  foldO (λ m x,
    let m := <[x.1 := x.2]> m in
    match m !! x.1 with
    | Some entry => v ← absorb entry x.2; Ret (<[x.1 := v]> m)
    | None => Ret (<[x.1 := x.2]> m)
    end) m (map_to_list other).

Section Caches.
Context {V : Type} `{Countable V}.

(** An attribute, an entity and a value. *)
Definition Aev : Type := Z * Z * V.

Record SingleValAttributeCache := mkSV { sv_attr : Z; e_v : gmap Z (option V) }.
Record MultiValAttributeCache := mkMV { mv_attr : Z; e_vs : gmap Z (list V) }.
Record UniqueReverseAttributeCache := mkUR { ur_attr : Z; v_e : gmap V (option Z) }.
Record NonUniqueReverseAttributeCache := mkNR { nr_attr : Z; v_es : gmap V (gset Z) }.

(** [remove_every] *)
Definition remove_every (self : list V) (item : V) : list V * Z :=
  let left := filter (λ v, v ≠ item) self in (left, Z.of_nat (length self) - Z.of_nat (length left)).

(** *** Forward, cardinality one *)

Definition absorb_sv : Absorb SingleValAttributeCache := λ self other,
  _ ← guardM (sv_attr self =? sv_attr other);
  Ret (mkSV (sv_attr self) (absorb_with (option_map Some) (e_v self) (e_v other))).
#[global] Existing Instance absorb_sv.
Definition clear_sv : ClearCache SingleValAttributeCache := λ c, mkSV (sv_attr c) ∅.
#[global] Existing Instance clear_sv.
(** Removal leaves a sentinel, whatever the value was. *)
Definition remove_sv : RemoveFromCache V SingleValAttributeCache := λ c e _,
  mkSV (sv_attr c) (<[e := None]> (e_v c)).
#[global] Existing Instance remove_sv.
Definition sv_has_e (c : SingleValAttributeCache) (e : Z) : bool := bool_decide (is_Some (e_v c !! e)).

(** *** Forward, cardinality many *)

Definition absorb_mv : Absorb MultiValAttributeCache := λ self other,
  _ ← guardM (mv_attr self =? mv_attr other);
  Ret (mkMV (mv_attr self)
         (absorb_with (λ vs, match vs with [] => None | _ => Some vs end) (e_vs self) (e_vs other))).
#[global] Existing Instance absorb_mv.
Definition clear_mv : ClearCache MultiValAttributeCache := λ c, mkMV (mv_attr c) ∅.
#[global] Existing Instance clear_mv.
Definition remove_mv : RemoveFromCache V MultiValAttributeCache := λ c e v,
  match e_vs c !! e with
  | Some vec => mkMV (mv_attr c) (<[e := (remove_every vec v).1]> (e_vs c))
  | None => c
  end.
#[global] Existing Instance remove_mv.
Definition mv_has_e (c : MultiValAttributeCache) (e : Z) : bool := bool_decide (is_Some (e_vs c !! e)).

(** *** Reverse, unique *)

Definition absorb_ur : Absorb UniqueReverseAttributeCache := λ self other,
  _ ← guardM (ur_attr self =? ur_attr other);
  Ret (mkUR (ur_attr self) (absorb_with (option_map Some) (v_e self) (v_e other))).
#[global] Existing Instance absorb_ur.
Definition clear_ur : ClearCache UniqueReverseAttributeCache := λ c, mkUR (ur_attr c) ∅.
#[global] Existing Instance clear_ur.
Definition remove_ur : RemoveFromCache V UniqueReverseAttributeCache := λ c _ v,
  mkUR (ur_attr c) (<[v := None]> (v_e c)).
#[global] Existing Instance remove_ur.
Definition ur_set (c : UniqueReverseAttributeCache) (e : Z) (v : V) : UniqueReverseAttributeCache :=
  mkUR (ur_attr c) (<[v := Some e]> (v_e c)).
Definition get_e (c : UniqueReverseAttributeCache) (v : V) : option Z := e ← v_e c !! v; e.
Definition lookup_v (c : UniqueReverseAttributeCache) (v : V) : option (option Z) := v_e c !! v.

(** *** Reverse, not unique *)

Definition absorb_nr : Absorb NonUniqueReverseAttributeCache := λ self other,
  _ ← guardM (nr_attr self =? nr_attr other);
  Ret (mkNR (nr_attr self)
         (absorb_with (λ es, if bool_decide (es = ∅) then None else Some es) (v_es self) (v_es other))).
#[global] Existing Instance absorb_nr.
Definition clear_nr : ClearCache NonUniqueReverseAttributeCache := λ c, mkNR (nr_attr c) ∅.
#[global] Existing Instance clear_nr.
Definition remove_nr : RemoveFromCache V NonUniqueReverseAttributeCache := λ c e v,
  match v_es c !! v with
  | Some es => mkNR (nr_attr c) (<[v := es ∖ {[e]}]> (v_es c))
  | None => c
  end.
#[global] Existing Instance remove_nr.
Definition nr_acc (c : NonUniqueReverseAttributeCache) (e : Z) (v : V) : NonUniqueReverseAttributeCache :=
  mkNR (nr_attr c) (<[v := default ∅ (v_es c !! v) ∪ {[e]}]> (v_es c)).
Definition get_es (c : NonUniqueReverseAttributeCache) (v : V) : option (gset Z) := v_es c !! v.

(** ** Accumulating rows *)

(** What the file calls and does not define: the walk over the rows of one attribute,
    [set] of the single-valued cache, and the accumulation of multi-valued rows. *)
Class CacheExternals := {
  with_aev_iter : ∀ {S : Type}, Z → (Z → V → S → S) → list Aev → S → S * list Aev;
  sv_set : SingleValAttributeCache → Z → V → SingleValAttributeCache;
  accumulate_multi_val_evs_lightlike : Z → list Aev → MultiValAttributeCache → MultiValAttributeCache * list Aev;
  accumulate_multi_val_unique_evs_both : Z → list Aev →
    MultiValAttributeCache * UniqueReverseAttributeCache →
    (MultiValAttributeCache * UniqueReverseAttributeCache) * list Aev;
  accumulate_multi_val_non_unique_evs_both : Z → list Aev →
    MultiValAttributeCache * NonUniqueReverseAttributeCache →
    (MultiValAttributeCache * NonUniqueReverseAttributeCache) * list Aev;
}.
Context {CX : CacheExternals}.

Definition accumulate_single_val_evs_lightlike (a : Z) (rows : list Aev) (f : SingleValAttributeCache) :=
  with_aev_iter a (λ e v f, sv_set f e v) rows f.
Definition accumulate_unique_evs_reverse (a : Z) (rows : list Aev) (r : UniqueReverseAttributeCache) :=
  with_aev_iter a (λ e v r, ur_set r e v) rows r.
Definition accumulate_non_unique_evs_reverse (a : Z) (rows : list Aev) (r : NonUniqueReverseAttributeCache) :=
  with_aev_iter a (λ e v r, nr_acc r e v) rows r.
Definition accumulate_single_val_unique_evs_both (a : Z) (rows : list Aev)
    (s : SingleValAttributeCache * UniqueReverseAttributeCache) :=
  with_aev_iter a (λ e v s, (sv_set s.1 e v, ur_set s.2 e v)) rows s.
Definition accumulate_single_val_non_unique_evs_both (a : Z) (rows : list Aev)
    (s : SingleValAttributeCache * NonUniqueReverseAttributeCache) :=
  with_aev_iter a (λ e v s, (sv_set s.1 e v, nr_acc s.2 e v)) rows s.
Definition accumulate_removal_one {C} `{RemoveFromCache V C} (a : Z) (rows : list Aev) (c : C) :=
  with_aev_iter a (λ e v c, remove_from c e v) rows c.
Definition accumulate_removal_both {F R} `{RemoveFromCache V F} `{RemoveFromCache V R} (a : Z)
    (rows : list Aev) (s : F * R) :=
  with_aev_iter a (λ e v s, (remove_from s.1 e v, remove_from s.2 e v)) rows s.

Inductive AccumulationBehavior := Add (replacing : bool) | Remove.

Definition is_replacing (b : AccumulationBehavior) : bool :=
  match b with Add replacing => replacing | Remove => false end.

(** [match behavior { Add { replacing } => { if replacing { clear } accumulate }, Remove => .. }] *)
Definition by_behavior {S} (b : AccumulationBehavior) (clear_s : S → S)
    (add remove : S → S * list Aev) (s : S) : S * list Aev :=
  match b with
  | Add replacing => add (if replacing then clear_s s else s)
  | Remove => remove s
  end.

(** ** The four kinds of caches together *)

Record AttributeCaches := mkCaches {
  reverse_cached_attributes : gset Z;
  lightlike_cached_attributes : gset Z;
  single_vals : gmap Z SingleValAttributeCache;
  multi_vals : gmap Z MultiValAttributeCache;
  unique_reverse : gmap Z UniqueReverseAttributeCache;
  non_unique_reverse : gmap Z NonUniqueReverseAttributeCache;
}.

Definition caches_default : AttributeCaches := mkCaches ∅ ∅ ∅ ∅ ∅ ∅.

Definition is_attribute_cached_reverse (c : AttributeCaches) (a : Z) : bool :=
  bool_decide (a ∈ reverse_cached_attributes c).
Definition is_attribute_cached_lightlike (c : AttributeCaches) (a : Z) : bool :=
  bool_decide (a ∈ lightlike_cached_attributes c).
Definition caches_has_cached_attributes (c : AttributeCaches) : bool :=
  negb (bool_decide (reverse_cached_attributes c = ∅)) || negb (bool_decide (lightlike_cached_attributes c = ∅)).

(** [entry(a).or_insert_with(..)]: the entry, copied from the fallback or made. *)
Definition entry_or {C} (own : gmap Z C) (a : Z) (fallback : option (gmap Z C)) (d : C) : C :=
  match own !! a with
  | Some c => c
  | None => default d (fallback ≫= λ m, m !! a)
  end.

Definition fsc (self : AttributeCaches) (a : Z) (fallback : option AttributeCaches) : SingleValAttributeCache :=
  entry_or (single_vals self) a (single_vals <$> fallback) (mkSV 0 ∅).
Definition fmc (self : AttributeCaches) (a : Z) (fallback : option AttributeCaches) : MultiValAttributeCache :=
  entry_or (multi_vals self) a (multi_vals <$> fallback) (mkMV 0 ∅).
Definition ruc (self : AttributeCaches) (a : Z) (fallback : option AttributeCaches) : UniqueReverseAttributeCache :=
  entry_or (unique_reverse self) a (unique_reverse <$> fallback) (mkUR 0 ∅).
Definition rnuc (self : AttributeCaches) (a : Z) (fallback : option AttributeCaches) : NonUniqueReverseAttributeCache :=
  entry_or (non_unique_reverse self) a (non_unique_reverse <$> fallback) (mkNR 0 ∅).

Definition put_sv (self : AttributeCaches) (a : Z) (f : SingleValAttributeCache) : AttributeCaches :=
  mkCaches (reverse_cached_attributes self) (lightlike_cached_attributes self)
    (<[a := f]> (single_vals self)) (multi_vals self) (unique_reverse self) (non_unique_reverse self).
Definition put_mv (self : AttributeCaches) (a : Z) (f : MultiValAttributeCache) : AttributeCaches :=
  mkCaches (reverse_cached_attributes self) (lightlike_cached_attributes self)
    (single_vals self) (<[a := f]> (multi_vals self)) (unique_reverse self) (non_unique_reverse self).
Definition put_ur (self : AttributeCaches) (a : Z) (r : UniqueReverseAttributeCache) : AttributeCaches :=
  mkCaches (reverse_cached_attributes self) (lightlike_cached_attributes self)
    (single_vals self) (multi_vals self) (<[a := r]> (unique_reverse self)) (non_unique_reverse self).
Definition put_nr (self : AttributeCaches) (a : Z) (r : NonUniqueReverseAttributeCache) : AttributeCaches :=
  mkCaches (reverse_cached_attributes self) (lightlike_cached_attributes self)
    (single_vals self) (multi_vals self) (unique_reverse self) (<[a := r]> (non_unique_reverse self)).

Definition clear_both {F R} `{ClearCache F} `{ClearCache R} (s : F * R) : F * R := (clear s.1, clear s.2).

(** [accumulate_evs]: the rows of the first row's attribute; nothing is done, and no
    row consumed, when there is no row or its attribute is not known. *)
Definition accumulate_evs (self : AttributeCaches) (fallback : option AttributeCaches)
    (topograph : Topograph) (rows : list Aev) (behavior : AccumulationBehavior)
    : outcome (AttributeCaches * list Aev) :=
  match rows with
  | [] => Ret (self, rows)
  | (a, _, _) :: _ =>
      match attribute_for_causetid topograph a with
      | None => Ret (self, rows)
      | Some attribute =>
          let fallback_cached_lightlike := match fallback with Some c => is_attribute_cached_lightlike c a | None => false end in
          let fallback_cached_reverse := match fallback with Some c => is_attribute_cached_reverse c a | None => false end in
          let now_cached_lightlike := is_attribute_cached_lightlike self a in
          let now_cached_reverse := is_attribute_cached_reverse self a in
          let replace_a := is_replacing behavior in
          let lightlike_fallback :=
            if now_cached_lightlike && fallback_cached_lightlike && negb replace_a then fallback else None in
          let reverse_fallback :=
            if now_cached_reverse && fallback_cached_reverse && negb replace_a then fallback else None in
          match now_cached_lightlike, now_cached_reverse, multival attribute, unique attribute with
          | true, true, true, true =>
              let '(s, rows) := by_behavior behavior clear_both (accumulate_multi_val_unique_evs_both a rows)
                (accumulate_removal_both a rows) (fmc self a lightlike_fallback, ruc self a reverse_fallback) in
              Ret (put_ur (put_mv self a s.1) a s.2, rows)
          | true, true, true, false =>
              let '(s, rows) := by_behavior behavior clear_both (accumulate_multi_val_non_unique_evs_both a rows)
                (accumulate_removal_both a rows) (fmc self a lightlike_fallback, rnuc self a reverse_fallback) in
              Ret (put_nr (put_mv self a s.1) a s.2, rows)
          | true, true, false, true =>
              let '(s, rows) := by_behavior behavior clear_both (accumulate_single_val_unique_evs_both a rows)
                (accumulate_removal_both a rows) (fsc self a lightlike_fallback, ruc self a reverse_fallback) in
              Ret (put_ur (put_sv self a s.1) a s.2, rows)
          | true, true, false, false =>
              let '(s, rows) := by_behavior behavior clear_both (accumulate_single_val_non_unique_evs_both a rows)
                (accumulate_removal_both a rows) (fsc self a lightlike_fallback, rnuc self a reverse_fallback) in
              Ret (put_nr (put_sv self a s.1) a s.2, rows)
          | true, false, true, _ =>
              let '(f, rows) := by_behavior behavior clear (accumulate_multi_val_evs_lightlike a rows)
                (accumulate_removal_one a rows) (fmc self a lightlike_fallback) in
              Ret (put_mv self a f, rows)
          | true, false, false, _ =>
              let '(f, rows) := by_behavior behavior clear (accumulate_single_val_evs_lightlike a rows)
                (accumulate_removal_one a rows) (fsc self a lightlike_fallback) in
              Ret (put_sv self a f, rows)
          | false, true, _, true =>
              let '(r, rows) := by_behavior behavior clear (accumulate_unique_evs_reverse a rows)
                (accumulate_removal_one a rows) (ruc self a reverse_fallback) in
              Ret (put_ur self a r, rows)
          | false, true, _, false =>
              let '(r, rows) := by_behavior behavior clear (accumulate_non_unique_evs_reverse a rows)
                (accumulate_removal_one a rows) (rnuc self a reverse_fallback) in
              Ret (put_nr self a r, rows)
          | false, false, _, _ => Panic
          end
      end
  end.

(** [while iter.peek().is_some()]: every turn on a known attribute consumes a row; on an
    unknown one the loop does not end. *)
Fixpoint accumulate_loop (fuel : nat) (self : AttributeCaches) (fallback : option AttributeCaches)
    (topograph : Topograph) (rows : list Aev) (behavior : AccumulationBehavior) : outcome AttributeCaches :=
  match rows with
  | [] => Ret self
  | _ :: _ =>
      match fuel with
      | O => Panic
      | S fuel =>
          r ← accumulate_evs self fallback topograph rows behavior;
          accumulate_loop fuel r.1 fallback topograph r.2 behavior
      end
  end.

Definition accumulate_into_cache (self : AttributeCaches) (fallback : option AttributeCaches)
    (topograph : Topograph) (rows : list Aev) (behavior : AccumulationBehavior) : outcome AttributeCaches :=
  accumulate_loop (length rows) self fallback topograph rows behavior.

Definition clear_cache (c : AttributeCaches) : AttributeCaches :=
  mkCaches (reverse_cached_attributes c) (lightlike_cached_attributes c) ∅ ∅ ∅ ∅.
Definition unregister_all_attributes (c : AttributeCaches) : AttributeCaches :=
  clear_cache (mkCaches ∅ ∅ (single_vals c) (multi_vals c) (unique_reverse c) (non_unique_reverse c)).
Definition unregister_attribute (c : AttributeCaches) (a : Z) : AttributeCaches :=
  mkCaches (reverse_cached_attributes c ∖ {[a]}) (lightlike_cached_attributes c ∖ {[a]})
    (delete a (single_vals c)) (delete a (multi_vals c)) (delete a (unique_reverse c))
    (delete a (non_unique_reverse c)).

(** ** Reading *)

Definition causet_locales_pairs (c : AttributeCaches) (topograph : Topograph) (attribute : Z) : option (gmap Z (list V)) :=
  attr ← attribute_for_causetid topograph attribute;
  if multival attr then e_vs <$> multi_vals c !! attribute else None.
Definition causet_locale_pairs (c : AttributeCaches) (topograph : Topograph) (attribute : Z) : option (gmap Z (option V)) :=
  attr ← attribute_for_causetid topograph attribute;
  if multival attr then None else e_v <$> single_vals c !! attribute.

Definition get_causetid_for_causet_locale_if_present (c : AttributeCaches) (attribute : Z) (v : V) : option (option Z) :=
  if is_attribute_cached_reverse c attribute then u ← unique_reverse c !! attribute; lookup_v u v else None.
Definition get_causet_locale_for_causetid_if_present (c : AttributeCaches) (topograph : Topograph)
    (attribute causetid : Z) : option (option V) :=
  match m ← causet_locale_pairs c topograph attribute; m !! causetid with
  | Some (Some tv) => Some (Some tv)
  | _ => None
  end.

Definition get_causet_locales_for_causetid (c : AttributeCaches) (topograph : Topograph) (attribute causetid : Z) : option (list V) :=
  m ← causet_locales_pairs c topograph attribute; m !! causetid.
Definition get_causet_locale_for_causetid (c : AttributeCaches) (topograph : Topograph) (attribute causetid : Z) : option V :=
  match m ← causet_locale_pairs c topograph attribute; m !! causetid with
  | Some (Some tv) => Some tv
  | _ => None
  end.
Definition get_causetid_for_causet_locale (c : AttributeCaches) (attribute : Z) (v : V) : option Z :=
  if is_attribute_cached_reverse c attribute then u ← unique_reverse c !! attribute; get_e u v else None.
Definition get_causetids_for_causet_locale (c : AttributeCaches) (attribute : Z) (v : V) : option (gset Z) :=
  if is_attribute_cached_reverse c attribute then u ← non_unique_reverse c !! attribute; get_es u v else None.

(** ** Updating *)

Definition update_with_fallback (self : AttributeCaches) (fallback : option AttributeCaches) (topograph : Topograph)
    (retractions upserts : list Aev) : outcome AttributeCaches :=
  self ← accumulate_into_cache self fallback topograph retractions Remove;
  accumulate_into_cache self fallback topograph upserts (Add false).
Definition update (self : AttributeCaches) (topograph : Topograph) (retractions upserts : list Aev) : outcome AttributeCaches :=
  update_with_fallback self None topograph retractions upserts.

Definition caches_absorb (self other : AttributeCaches) : outcome AttributeCaches :=
  s ← extend_by_absorbing (single_vals self) (single_vals other);
  m ← extend_by_absorbing (multi_vals self) (multi_vals other);
  u ← extend_by_absorbing (unique_reverse self) (unique_reverse other);
  n ← extend_by_absorbing (non_unique_reverse self) (non_unique_reverse other);
  Ret (mkCaches (reverse_cached_attributes self ∪ reverse_cached_attributes other)
         (lightlike_cached_attributes self ∪ lightlike_cached_attributes other) s m u n).

(** ** The database *)

(** The queries of the file; the rows come ordered by attribute and entity. *)
Inductive CacheQuery :=
| SelectAttribute (fulltext_table : bool) (a : Z)
| SelectCausets (causets : list Z)
| SelectSpecified (non_fts fts causets : list Z).
Inductive QueryResult := PrepareFailed | QueryFailed | Rows (rows : list Aev).
Definition Connection : Type := CacheQuery → QueryResult.

Definition repopulate_from_aevt (self : AttributeCaches) (topograph : Topograph) (rows : list Aev) (replacing : bool)
    : outcome AttributeCaches :=
  accumulate_into_cache self None topograph rows (Add replacing).

Definition run_query (sqlite : Connection) (q : CacheQuery) (prepare_failed : CacheError) : CacheError + list Aev :=
  match sqlite q with
  | PrepareFailed => inl prepare_failed
  | QueryFailed => inl SqlError
  | Rows rows => inr rows
  end.

(** A [Result<()>] of a method on [&mut self] is the state after and the error, if any:
    what was changed before an error stays. *)
Definition fallible (S : Type) : Type := outcome (S * option CacheError).

Definition run_and_repopulate (self : AttributeCaches) (topograph : Topograph) (sqlite : Connection)
    (q : CacheQuery) (prepare_failed : CacheError) (replacing : bool) : fallible AttributeCaches :=
  match run_query sqlite q prepare_failed with
  | inl e => Ret (self, Some e)
  | inr rows => c ← repopulate_from_aevt self topograph rows replacing; Ret (c, None)
  end.

Definition repopulate (self : AttributeCaches) (topograph : Topograph) (sqlite : Connection) (attribute : Z)
    : fallible AttributeCaches :=
  let is_fulltext := match attribute_for_causetid topograph attribute with Some s => fulltext s | None => false end in
  run_and_repopulate self topograph sqlite (SelectAttribute is_fulltext attribute) CacheUpdateFailed true.

(** [AttributeSpec] *)
Inductive AttributeSpec := All | Specified (fts non_fts : list Z).

Definition specified (attrs : gset Z) (topograph : Topograph) : AttributeSpec :=
  let pick (b : bool) := List.filter (λ a, match attribute_for_causetid topograph a with
                                     | Some s => eqb (fulltext s) b | None => false end)
                                (merge_sort Z.le (elements attrs)) in
  Specified (pick true) (pick false).

Definition with_lightlike (c : AttributeCaches) (s : gset Z) : AttributeCaches :=
  mkCaches (reverse_cached_attributes c) (lightlike_cached_attributes c ∪ s) (single_vals c) (multi_vals c)
    (unique_reverse c) (non_unique_reverse c).

Definition populate_cache_for_causets_and_attributes (self : AttributeCaches) (topograph : Topograph)
    (sqlite : Connection) (attrs : AttributeSpec) (causets : list Z) : fallible AttributeCaches :=
  match attrs with
  | All =>
      run_and_repopulate (with_lightlike self (dom topograph)) topograph sqlite (SelectCausets causets) SqlError false
  | Specified [] [] => Ret (self, None)
  | Specified fts non_fts =>
      run_and_repopulate (with_lightlike self (list_to_set (non_fts ++ fts))) topograph sqlite
        (SelectSpecified non_fts fts causets) SqlError false
  end.

(** The attributes of [extend_cache_for_causets_and_attributes] left to fetch. *)
Definition exclude_missing (self : AttributeCaches) (topograph : Topograph) (causets attrs : list Z) : list Z :=
  List.filter (λ a,
    match attribute_for_causetid topograph a with
    | Some attr =>
        if negb (is_attribute_cached_lightlike self a) then true
        else if multival attr then
          match multi_vals self !! a with
          | Some cache => existsb (λ e, negb (mv_has_e cache e)) causets
          | None => true
          end
        else
          match single_vals self !! a with
          | Some cache => existsb (λ e, negb (sv_has_e cache e)) causets
          | None => true
          end
    | None => false
    end) attrs.

Definition extend_cache_for_causets_and_attributes (self : AttributeCaches) (topograph : Topograph)
    (sqlite : Connection) (attrs : AttributeSpec) (causets : list Z) : fallible AttributeCaches :=
  let attrs := match attrs with
    | All => All
    | Specified fts non_fts =>
        Specified (exclude_missing self topograph causets fts) (exclude_missing self topograph causets non_fts)
    end in
  populate_cache_for_causets_and_attributes self topograph sqlite attrs causets.

Definition make_cache_for_causets_and_attributes (topograph : Topograph) (sqlite : Connection)
    (attrs : AttributeSpec) (causets : list Z) : outcome (CacheError + AttributeCaches) :=
  r ← populate_cache_for_causets_and_attributes caches_default topograph sqlite attrs causets;
  Ret match r with (_, Some e) => inl e | (cache, None) => inr cache end.

(** ** The committed cache: [Arc::make_mut] copies when it must, so that it is a value *)

Record SQLiteAttributeCache := mkSQLite { inner : AttributeCaches }.

Definition make_override (c : SQLiteAttributeCache) : AttributeCaches :=
  mkCaches (reverse_cached_attributes (inner c)) (lightlike_cached_attributes (inner c)) ∅ ∅ ∅ ∅.

Definition with_reverse (c : AttributeCaches) (s : gset Z) : AttributeCaches :=
  mkCaches (reverse_cached_attributes c ∪ s) (lightlike_cached_attributes c) (single_vals c) (multi_vals c)
    (unique_reverse c) (non_unique_reverse c).

Definition repopulated (r : fallible AttributeCaches) : fallible SQLiteAttributeCache :=
  r ← r; Ret (mkSQLite r.1, r.2).

Definition sqlite_register_lightlike (c : SQLiteAttributeCache) (topograph : Topograph) (sqlite : Connection) (a : Z)
    : fallible SQLiteAttributeCache :=
  match attribute_for_causetid topograph a with
  | None => Ret (c, Some (UnCausetLocaleNucleonAttribute a))
  | Some _ => repopulated (repopulate (with_lightlike (inner c) {[a]}) topograph sqlite a)
  end.
Definition sqlite_register_reverse (c : SQLiteAttributeCache) (topograph : Topograph) (sqlite : Connection) (a : Z)
    : fallible SQLiteAttributeCache :=
  match attribute_for_causetid topograph a with
  | None => Ret (c, Some (UnCausetLocaleNucleonAttribute a))
  | Some _ => repopulated (repopulate (with_reverse (inner c) {[a]}) topograph sqlite a)
  end.
Definition sqlite_register (c : SQLiteAttributeCache) (topograph : Topograph) (sqlite : Connection) (a : Z)
    : fallible SQLiteAttributeCache :=
  repopulated (repopulate (with_reverse (with_lightlike (inner c) {[a]}) {[a]}) topograph sqlite a).
Definition sqlite_unregister (c : SQLiteAttributeCache) (a : Z) : SQLiteAttributeCache :=
  mkSQLite (unregister_attribute (inner c) a).
Definition sqlite_unregister_all (c : SQLiteAttributeCache) : SQLiteAttributeCache :=
  mkSQLite (unregister_all_attributes (inner c)).
Definition sqlite_update (c : SQLiteAttributeCache) (topograph : Topograph) (retractions upserts : list Aev)
    : outcome SQLiteAttributeCache :=
  i ← update (inner c) topograph retractions upserts; Ret (mkSQLite i).
Definition sqlite_has_cached_attributes (c : SQLiteAttributeCache) : bool :=
  negb (bool_decide (lightlike_cached_attributes (inner c) = ∅))
  || negb (bool_decide (reverse_cached_attributes (inner c) = ∅)).

(** ** The cache of a transaction in progress *)

Record InProgressSQLiteAttributeCache := mkInProgress {
  p_inner : AttributeCaches;
  overlay : AttributeCaches;
  unregistered_lightlike : gset Z;
  unregistered_reverse : gset Z;
}.

Definition from_cache (c : SQLiteAttributeCache) : InProgressSQLiteAttributeCache :=
  mkInProgress (inner c) (make_override c) ∅ ∅.

Definition p_is_attribute_cached_reverse (p : InProgressSQLiteAttributeCache) (a : Z) : bool :=
  negb (bool_decide (a ∈ unregistered_reverse p))
  && (is_attribute_cached_reverse (p_inner p) a || is_attribute_cached_reverse (overlay p) a).
Definition p_is_attribute_cached_lightlike (p : InProgressSQLiteAttributeCache) (a : Z) : bool :=
  negb (bool_decide (a ∈ unregistered_lightlike p))
  && (is_attribute_cached_lightlike (p_inner p) a || is_attribute_cached_lightlike (overlay p) a).

Definition repopulate_overlay (p : InProgressSQLiteAttributeCache) (topograph : Topograph) (sqlite : Connection) (a : Z)
    : fallible InProgressSQLiteAttributeCache :=
  r ← repopulate (overlay p) topograph sqlite a;
  Ret (mkInProgress (p_inner p) r.1 (unregistered_lightlike p) (unregistered_reverse p), r.2).

Definition p_register_lightlike (p : InProgressSQLiteAttributeCache) (topograph : Topograph) (sqlite : Connection) (a : Z)
    : fallible InProgressSQLiteAttributeCache :=
  match attribute_for_causetid topograph a with
  | None => Ret (p, Some (UnCausetLocaleNucleonAttribute a))
  | Some _ =>
      if p_is_attribute_cached_lightlike p a then Ret (p, None)
      else repopulate_overlay (mkInProgress (p_inner p) (with_lightlike (overlay p) {[a]})
             (unregistered_lightlike p ∖ {[a]}) (unregistered_reverse p)) topograph sqlite a
  end.
Definition p_register_reverse (p : InProgressSQLiteAttributeCache) (topograph : Topograph) (sqlite : Connection) (a : Z)
    : fallible InProgressSQLiteAttributeCache :=
  match attribute_for_causetid topograph a with
  | None => Ret (p, Some (UnCausetLocaleNucleonAttribute a))
  | Some _ =>
      if p_is_attribute_cached_reverse p a then Ret (p, None)
      else repopulate_overlay (mkInProgress (p_inner p) (with_reverse (overlay p) {[a]})
             (unregistered_lightlike p) (unregistered_reverse p ∖ {[a]})) topograph sqlite a
  end.
Definition p_register (p : InProgressSQLiteAttributeCache) (topograph : Topograph) (sqlite : Connection) (a : Z)
    : fallible InProgressSQLiteAttributeCache :=
  match attribute_for_causetid topograph a with
  | None => Ret (p, Some (UnCausetLocaleNucleonAttribute a))
  | Some _ =>
      let reverse_done := p_is_attribute_cached_reverse p a in
      let lightlike_done := p_is_attribute_cached_lightlike p a in
      if lightlike_done && reverse_done then Ret (p, None)
      else
        let o := if reverse_done then overlay p else with_reverse (overlay p) {[a]} in
        let o := if lightlike_done then o else with_lightlike o {[a]} in
        repopulate_overlay (mkInProgress (p_inner p) o (unregistered_lightlike p ∖ {[a]})
          (unregistered_reverse p ∖ {[a]})) topograph sqlite a
  end.

Definition p_unregister (p : InProgressSQLiteAttributeCache) (a : Z) : InProgressSQLiteAttributeCache :=
  mkInProgress (p_inner p) (unregister_attribute (overlay p) a) (unregistered_lightlike p ∪ {[a]})
    (unregistered_reverse p ∪ {[a]}).
Definition p_unregister_all (p : InProgressSQLiteAttributeCache) : InProgressSQLiteAttributeCache :=
  mkInProgress (p_inner p) (unregister_all_attributes (overlay p))
    (unregistered_lightlike p ∪ lightlike_cached_attributes (p_inner p))
    (unregistered_reverse p ∪ reverse_cached_attributes (p_inner p)).

Definition p_update (p : InProgressSQLiteAttributeCache) (topograph : Topograph) (retractions upserts : list Aev)
    : outcome InProgressSQLiteAttributeCache :=
  o ← update_with_fallback (overlay p) (Some (p_inner p)) topograph retractions upserts;
  Ret (mkInProgress (p_inner p) o (unregistered_lightlike p) (unregistered_reverse p)).

(** [or_else] *)
Definition or_else {A} (o o' : option A) : option A := match o with Some a => Some a | None => o' end.

Definition p_get_causet_locales_for_causetid (p : InProgressSQLiteAttributeCache) (topograph : Topograph)
    (attribute causetid : Z) : option (list V) :=
  if bool_decide (attribute ∈ unregistered_lightlike p) then None
  else or_else (get_causet_locales_for_causetid (overlay p) topograph attribute causetid)
         (get_causet_locales_for_causetid (p_inner p) topograph attribute causetid).
Definition p_get_causet_locale_for_causetid (p : InProgressSQLiteAttributeCache) (topograph : Topograph)
    (attribute causetid : Z) : option V :=
  if bool_decide (attribute ∈ unregistered_lightlike p) then None
  else match get_causet_locale_for_causetid_if_present (overlay p) topograph attribute causetid with
       | Some present => present
       | None => get_causet_locale_for_causetid (p_inner p) topograph attribute causetid
       end.
Definition p_get_causetids_for_causet_locale (p : InProgressSQLiteAttributeCache) (attribute : Z) (v : V) : option (gset Z) :=
  if bool_decide (attribute ∈ unregistered_reverse p) then None
  else or_else (get_causetids_for_causet_locale (overlay p) attribute v)
         (get_causetids_for_causet_locale (p_inner p) attribute v).
Definition p_get_causetid_for_causet_locale (p : InProgressSQLiteAttributeCache) (attribute : Z) (v : V) : option Z :=
  if bool_decide (attribute ∈ unregistered_reverse p) then None
  else match get_causetid_for_causet_locale_if_present (overlay p) attribute v with
       | Some present => present
       | None => get_causetid_for_causet_locale (p_inner p) attribute v
       end.

Definition p_causet_locales_pairs (p : InProgressSQLiteAttributeCache) (topograph : Topograph) (a : Z)
    : option (gmap Z (list V)) :=
  or_else (causet_locales_pairs (overlay p) topograph a) (causet_locales_pairs (p_inner p) topograph a).
Definition p_causet_locale_pairs (p : InProgressSQLiteAttributeCache) (topograph : Topograph) (a : Z)
    : option (gmap Z (option V)) :=
  or_else (causet_locale_pairs (overlay p) topograph a) (causet_locale_pairs (p_inner p) topograph a).

Definition p_has_cached_attributes (p : InProgressSQLiteAttributeCache) : bool :=
  if caches_has_cached_attributes (overlay p) then true
  else if bool_decide (unregistered_lightlike p = ∅) && bool_decide (unregistered_reverse p = ∅)
  then caches_has_cached_attributes (p_inner p)
  else negb (bool_decide (lightlike_cached_attributes (p_inner p) ∖ unregistered_lightlike p = ∅))
       || negb (bool_decide (reverse_cached_attributes (p_inner p) ∖ unregistered_reverse p = ∅)).

(** [commit_to]; [exclusive] says whether [Arc::get_mut] succeeds, that is whether the
    destination is the only owner left. *)
Definition commit_to (p : InProgressSQLiteAttributeCache) (destination : SQLiteAttributeCache) (exclusive : bool)
    : outcome SQLiteAttributeCache :=
  if negb (sqlite_has_cached_attributes destination) then Ret (mkSQLite (overlay p))
  else if exclusive then
    let dest := fold_left unregister_attribute
                  (merge_sort Z.le (elements (unregistered_lightlike p ∪ unregistered_reverse p)))
                  (inner destination) in
    c ← caches_absorb dest (overlay p);
    Ret (mkSQLite c)
  else Panic.

(** ** The watcher of a transaction *)

(** [Either<(), Vec<..>>]: [None] marks an attribute that is not cached. *)
Definition Collected : Type := gmap Z (option (list (Z * V))).

Record InProgressCacheTransactWatcher := mkWatcher {
  collected_lightlike_dagger_upsert : Collected;
  collected_retractions : Collected;
  w_cache : InProgressSQLiteAttributeCache;
  active : bool;
}.

Definition transact_watcher (p : InProgressSQLiteAttributeCache) : InProgressCacheTransactWatcher :=
  mkWatcher ∅ ∅ p (p_has_cached_attributes p).

Definition collect (p : InProgressSQLiteAttributeCache) (target : Collected) (e a : Z) (v : V) : Collected :=
  match target !! a with
  | None =>
      let is_cached := p_is_attribute_cached_lightlike p a || p_is_attribute_cached_reverse p a in
      <[a := if is_cached then Some [(e, v)] else None]> target
  | Some None => target
  | Some (Some vec) => <[a := Some (vec ++ [(e, v)])]> target
  end.

Definition causet (w : InProgressCacheTransactWatcher) (op : OpType) (e a : Z) (v : V) : InProgressCacheTransactWatcher :=
  if negb (active w) then w
  else match op with
  | Upsert.Add =>
      mkWatcher (collect (w_cache w) (collected_lightlike_dagger_upsert w) e a v) (collected_retractions w)
        (w_cache w) (active w)
  | Retract =>
      mkWatcher (collected_lightlike_dagger_upsert w) (collect (w_cache w) (collected_retractions w) e a v)
        (w_cache w) (active w)
  end.

(** The entries of a map, by key. *)
#[global] Instance entry_le_dec : RelDecision (λ x y : Z * option (list (Z * V)), x.1 <= y.1).
Proof. intros x y. apply _. Defined.
Definition by_key (m : Collected) : list (Z * option (list (Z * V))) :=
  merge_sort (λ x y, x.1 <= y.1) (map_to_list m).

Definition expand (m : Collected) : list Aev :=
  concat (map (λ x, match x.2 with None => [] | Some evs => map (λ ev, (x.1, ev.1, ev.2)) evs end) (by_key m)).

Definition done (w : InProgressCacheTransactWatcher) (topograph : Topograph) : outcome InProgressCacheTransactWatcher :=
  p ← p_update (w_cache w) topograph (expand (collected_retractions w)) (expand (collected_lightlike_dagger_upsert w));
  Ret (mkWatcher ∅ ∅ p (active w)).
End Caches.
