(* ===== verification/CacheAgree.v ===== *)
(** * CacheAgree: the caches follow the store

    The specification of the caches is the store, a set of attribute, entity and value:
    the caches agree with it when each cached attribute's maps hold exactly its pairs of
    entity and value.  The four kinds of caches are one interface, [CacheKind]; a pair
    of a forward and a reverse cache is one more.  Updating keeps the agreement. *)
From Stdlib Require Import ZArith Lia.
From stdpp Require Import base list numbers gmap.
From S2P Require Import Prelude Cache.
#[local] Open Scope Z_scope.

Section Laws.
Context {V : Type} `{Countable V}.

(** The accumulation of a multi-valued row. *)
Definition mv_acc (c : MultiValAttributeCache) (e : Z) (v : V) : MultiValAttributeCache :=
  mkMV (mv_attr c) (<[e := default [] (e_vs c !! e) ++ [v]]> (e_vs c)).

(** The functions that the file calls and does not define do what their names and the
    comments say: the walk takes the first rows as long as the attribute is the one
    given and leaves the others; [set] replaces; the multi-valued walks accumulate. *)
Class CacheLaws {CX : CacheExternals (V := V)} : Prop := {
  with_aev_nil : ∀ S a f (s : S), with_aev_iter a f [] s = (s, []);
  with_aev_cons : ∀ S a f b e v rows (s : S), with_aev_iter a f ((b, e, v) :: rows) s
    = if b =? a then with_aev_iter a f rows (f e v s) else (s, (b, e, v) :: rows);
  sv_set_eq : ∀ c e v, sv_set c e v = mkSV (sv_attr c) (<[e := Some v]> (e_v c));
  multi_lightlike : ∀ a rows f,
    accumulate_multi_val_evs_lightlike a rows f = with_aev_iter a (λ e v f, mv_acc f e v) rows f;
  multi_unique : ∀ a rows s, accumulate_multi_val_unique_evs_both a rows s
    = with_aev_iter a (λ e v s, (mv_acc s.1 e v, ur_set s.2 e v)) rows s;
  multi_non_unique : ∀ a rows s, accumulate_multi_val_non_unique_evs_both a rows s
    = with_aev_iter a (λ e v s, (mv_acc s.1 e v, nr_acc s.2 e v)) rows s;
}.
End Laws.

Section Kinds.
Context {V : Type} `{Countable V}.

(** ** The four kinds of caches as one *)

Definition pairs : Type := Z → V → Prop.

Class CacheKind (C : Type) `{RemoveFromCache V C} `{ClearCache C} := {
  holds : C → pairs;
  acc : C → Z → V → C;
  (** The pairs that such a cache can hold. *)
  fits : pairs → Prop;
  holds_clear : ∀ c e v, ¬ holds (clear c) e v;
  holds_remove : ∀ (P : pairs) c e v, fits P → (∀ e v, holds c e v → P e v) → P e v →
    ∀ e' v', holds (remove_from c e v) e' v' ↔ holds c e' v' ∧ ¬ (e' = e ∧ v' = v);
  holds_acc : ∀ (P : pairs) c e v, fits P → (∀ e v, holds c e v → P e v) → P e v →
    ∀ e' v', holds (acc c e v) e' v' ↔ holds c e' v' ∨ (e' = e ∧ v' = v);
}.

Definition one_value (P : pairs) : Prop := ∀ e v v', P e v → P e v' → v = v'.
Definition one_entity (P : pairs) : Prop := ∀ e e' v, P e v → P e' v → e = e'.

Lemma remove_every_elem (l : list V) (v v' : V) : v' ∈ (remove_every l v).1 ↔ v' ∈ l ∧ v' ≠ v.
Proof. unfold remove_every. cbn. rewrite list_elem_of_filter. tauto. Qed.

#[global] Program Instance kind_mv : CacheKind (MultiValAttributeCache (V := V)) := {|
  holds c e v := ∃ vs, e_vs c !! e = Some vs ∧ v ∈ vs;
  acc := mv_acc;
  fits _ := True;
|}.
Next Obligation. intros c e v (vs & E & _). cbn in E. by rewrite lookup_empty in E. Qed.
Next Obligation.
  intros P c e v _ _ _ e' v'. unfold remove_from, remove_mv.
  destruct (e_vs c !! e) as [vs|] eqn:E.
  - cbn [e_vs]. destruct (decide (e' = e)) as [->|Hne].
    + rewrite lookup_insert_eq, E. split.
      * intros (l & [= <-] & [Hv Hn]%remove_every_elem). split; [by eauto|tauto].
      * intros [(l & [= <-] & Hv) Hn]. eexists. split; [done|]. apply remove_every_elem. split; [done|tauto].
    + rewrite lookup_insert_ne by done. split; [intros Hh; split; [done|tauto]|tauto].
  - split; [|tauto]. intros (l & El & Hv). split; [by eauto|]. intros [-> ->]. congruence.
Qed.
Next Obligation.
  intros P c e v _ _ _ e' v'. unfold mv_acc. cbn [e_vs]. destruct (decide (e' = e)) as [->|Hne].
  - rewrite lookup_insert_eq. split.
    + intros (l & [= <-] & Hv). apply elem_of_app in Hv as [Hv| ->%list_elem_of_singleton]; [|by right].
      destruct (e_vs c !! e) as [vs|]; [by eauto|]. by apply elem_of_nil in Hv.
    + intros [(l & E & Hv)|[_ ->]]; eexists; (split; [done|]); apply elem_of_app; [left|right; by left].
      by rewrite E.
  - rewrite lookup_insert_ne by done. split; [by left|]. intros [Hh|[-> _]]; done.
Qed.

#[global] Program Instance kind_nr : CacheKind (NonUniqueReverseAttributeCache (V := V)) := {|
  holds c e v := ∃ es, v_es c !! v = Some es ∧ e ∈ es;
  acc := nr_acc;
  fits _ := True;
|}.
Next Obligation. intros c e v (es & E & _). cbn in E. by rewrite lookup_empty in E. Qed.
Next Obligation.
  intros P c e v _ _ _ e' v'. unfold remove_from, remove_nr.
  destruct (v_es c !! v) as [es|] eqn:E.
  - cbn [v_es]. destruct (decide (v' = v)) as [->|Hne].
    + rewrite lookup_insert_eq, E. split.
      * intros (l & [= <-] & Hv). split; [exists es; set_solver|set_solver].
      * intros [(l & [= <-] & Hv) Hn]. eexists. split; [done|]. set_solver.
    + rewrite lookup_insert_ne by done. split; [intros Hh; split; [done|tauto]|tauto].
  - split; [|tauto]. intros (l & El & Hv). split; [by eauto|]. intros [-> ->]. congruence.
Qed.
Next Obligation.
  intros P c e v _ _ _ e' v'. unfold nr_acc. cbn [v_es]. destruct (decide (v' = v)) as [->|Hne].
  - rewrite lookup_insert_eq. split.
    + intros (l & [= <-] & Hv). apply elem_of_union in Hv as [Hv| ->%elem_of_singleton]; [|by right].
      destruct (v_es c !! v) as [es|]; [by eauto|]. by apply elem_of_empty in Hv.
    + intros [(l & E & Hv)|[-> _]]; eexists; (split; [done|]); apply elem_of_union; [left|right; by apply elem_of_singleton].
      by rewrite E.
  - rewrite lookup_insert_ne by done. split; [by left|]. intros [Hh|[_ ->]]; done.
Qed.

#[global] Program Instance kind_ur : CacheKind (UniqueReverseAttributeCache (V := V)) := {|
  holds c e v := v_e c !! v = Some (Some e);
  acc := ur_set;
  fits := one_entity;
|}.
Next Obligation. intros c e v E. cbn in E. by rewrite lookup_empty in E. Qed.
Next Obligation.
  intros P c e v HP Hc Hev e' v'. unfold remove_from, remove_ur. cbn [v_e]. destruct (decide (v' = v)) as [->|Hne].
  - rewrite lookup_insert_eq. split; [done|]. intros [Hh Hn]. exfalso. apply Hn. split; [|done].
    by apply (HP e' e v); [apply Hc|].
  - rewrite lookup_insert_ne by done. split; [intros Hh; split; [done|tauto]|tauto].
Qed.
Next Obligation.
  intros P c e v HP Hc Hev e' v'. unfold ur_set. cbn [v_e]. destruct (decide (v' = v)) as [->|Hne].
  - rewrite lookup_insert_eq. split; [intros [= ->]; by right|].
    intros [Hh|[-> _]]; [|done]. do 2 f_equal. by apply (HP e e' v); [|apply Hc].
  - rewrite lookup_insert_ne by done. split; [by left|]. intros [Hh|[_ ->]]; done.
Qed.
End Kinds.

Section Single.
Context {V : Type} `{Countable V} {CX : CacheExternals (V := V)} {CL : CacheLaws (V := V)}.

#[global] Program Instance kind_sv : CacheKind (SingleValAttributeCache (V := V)) := {|
  holds c e v := e_v c !! e = Some (Some v);
  acc := sv_set;
  fits := one_value;
|}.
Next Obligation. intros c e v E. cbn in E. by rewrite lookup_empty in E. Qed.
Next Obligation.
  intros P c e v HP Hc Hev e' v'. unfold remove_from, remove_sv. cbn [e_v]. destruct (decide (e' = e)) as [->|Hne].
  - rewrite lookup_insert_eq. split; [done|]. intros [Hh Hn]. exfalso. apply Hn. split; [done|].
    by apply (HP e v' v); [apply Hc|].
  - rewrite lookup_insert_ne by done. split; [intros Hh; split; [done|tauto]|tauto].
Qed.
Next Obligation.
  intros P c e v HP Hc Hev e' v'. rewrite sv_set_eq. cbn [e_v]. destruct (decide (e' = e)) as [->|Hne].
  - rewrite lookup_insert_eq. split; [intros [= ->]; by right|].
    intros [Hh|[_ ->]]; [|done]. do 2 f_equal. by apply (HP e v v'); [|apply Hc].
  - rewrite lookup_insert_ne by done. split; [by left|]. intros [Hh|[-> _]]; done.
Qed.
End Single.

(** ** A forward and a reverse cache together *)

Section Rows.
Context {V : Type} `{Countable V}.

(** What represents a set of pairs. *)
Definition repr {C} `{CacheKind (V := V) C} (c : C) (P : pairs (V := V)) : Prop := ∀ e v, holds c e v ↔ P e v.

(** The rows of an attribute at the front, and the rest. *)
Fixpoint taken (a : Z) (rows : list Aev) : list (Z * V) :=
  match rows with (b, e, v) :: rows => if b =? a then (e, v) :: taken a rows else [] | [] => [] end.
Fixpoint dropped (a : Z) (rows : list Aev) : list (Aev (V := V)) :=
  match rows with (b, e, v) :: rest => if b =? a then dropped a rest else rows | [] => [] end.

Lemma taken_dropped a rows : rows = map (λ x, (a, x.1, x.2)) (taken a rows) ++ dropped a rows.
Proof.
  induction rows as [|[ [b e] v] rows IH]; [done|]. cbn [taken dropped].
  destruct (Z.eqb_spec b a) as [->|]; [|done]. cbn. by rewrite IH at 1.
Qed.

Context {CX : CacheExternals (V := V)} {CL : CacheLaws (V := V)}.

Lemma with_aev_iter_fold {S} a f rows : ∀ s : S,
  with_aev_iter a f rows s = (fold_left (λ s x, f x.1 x.2 s) (taken a rows) s, dropped a rows).
Proof.
  induction rows as [|[ [b e] v] rows IH]; intros s; cbn [taken dropped].
  - by rewrite with_aev_nil.
  - rewrite with_aev_cons. by destruct (b =? a).
Qed.

(** The pairs after the rows of an attribute were processed. *)
Definition after (b : AccumulationBehavior) (P : pairs) (l : list (Z * V)) : pairs := λ e v,
  match b with
  | Remove => P e v ∧ (e, v) ∉ l
  | Add replacing => (replacing = false ∧ P e v) ∨ (e, v) ∈ l
  end.

Section Kind.
Context {C} `{CacheKind (V := V) C}.

Lemma removals (P0 : pairs) l : fits P0 → (∀ x, x ∈ l → P0 x.1 x.2) → ∀ c (P : pairs),
  (∀ e v, P e v → P0 e v) → repr c P →
  repr (fold_left (λ c x, remove_from c x.1 x.2) l c) (λ e v, P e v ∧ (e, v) ∉ l).
Proof.
  intros HP0. induction l as [|[e0 v0] l IH]; intros Hl c P HP Hc; cbn [fold_left].
  - intros e v. rewrite (Hc e v). split; [intros Hp; split; [done|]|by intros [? _]]. apply not_elem_of_nil.
  - assert (Hr : repr (remove_from c e0 v0) (λ e v, P e v ∧ ¬ (e = e0 ∧ v = v0))).
    { intros e v. rewrite (holds_remove P0), (Hc e v); [done|done| |exact (Hl (e0, v0) ltac:(by left))].
      intros e' v' Hh. by apply HP, Hc. }
    assert (Hl' : ∀ x, x ∈ l → P0 x.1 x.2) by (intros x Hx; apply Hl; by right).
    assert (HP' : ∀ e v, P e v ∧ ¬ (e = e0 ∧ v = v0) → P0 e v) by (intros e v [Hp _]; by apply HP).
    intros e v. rewrite (IH Hl' _ _ HP' Hr e v), not_elem_of_cons. split.
    + intros [ [Hp Hn] Hnl]. split_and!; [done| |done]. intros [= -> ->]. by apply Hn.
    + intros (Hp & Hn & Hnl). split_and!; [done| |done]. intros [-> ->]. by apply Hn.
Qed.

Lemma additions (P0 : pairs) l : fits P0 → (∀ x, x ∈ l → P0 x.1 x.2) → ∀ c (P : pairs),
  (∀ e v, P e v → P0 e v) → repr c P →
  repr (fold_left (λ c x, acc c x.1 x.2) l c) (λ e v, P e v ∨ (e, v) ∈ l).
Proof.
  intros HP0. induction l as [|[e0 v0] l IH]; intros Hl c P HP Hc; cbn [fold_left].
  - intros e v. rewrite (Hc e v). split; [by left|]. intros [Hp|Hn]; [done|]. by apply elem_of_nil in Hn.
  - pose proof (Hl (e0, v0) ltac:(by left)) as H00. cbn in H00.
    assert (Hr : repr (acc c e0 v0) (λ e v, P e v ∨ (e = e0 ∧ v = v0))).
    { intros e v. rewrite (holds_acc P0), (Hc e v); [done|done| |done]. intros e' v' Hh. by apply HP, Hc. }
    assert (Hl' : ∀ x, x ∈ l → P0 x.1 x.2) by (intros x Hx; apply Hl; by right).
    assert (HP' : ∀ e v, P e v ∨ (e = e0 ∧ v = v0) → P0 e v) by (intros e v [Hp|[-> ->] ]; [by apply HP|done]).
    intros e v. rewrite (IH Hl' _ _ HP' Hr e v), elem_of_cons.
    split; [intros [ [Hp|[-> ->] ]|Hn]|intros [Hp|[ [= -> ->]|Hn] ]]; auto.
Qed.

(** Processing the rows of an attribute under a behaviour; what the cache holds before
    does not matter when it is replaced. *)
Lemma by_behavior_spec b a rows (add remove : C → C * list Aev) (P0 P : pairs) c :
  (∀ c, add c = with_aev_iter a (λ e v c, acc c e v) rows c) →
  (∀ c, remove c = with_aev_iter a (λ e v c, remove_from c e v) rows c) →
  fits P0 → (∀ x, x ∈ taken a rows → P0 x.1 x.2) →
  (is_replacing b = false → (∀ e v, P e v → P0 e v) ∧ repr c P) →
  ∃ c', by_behavior b clear add remove c = (c', dropped a rows) ∧ repr c' (after b P (taken a rows)).
Proof.
  intros Ha Hr HP0 Hl Hc. destruct b as [ [|]|]; cbn [by_behavior is_replacing] in *.
  - rewrite Ha, with_aev_iter_fold. eexists. split; [done|].
    assert (He : repr (clear c) (λ _ _, False)) by (intros e v; split; [apply holds_clear|done]).
    intros e v. rewrite (additions P0 _ HP0 Hl _ (λ _ _, False) ltac:(done) He e v). cbn.
    split; [intros [[]|Hin]; by right|intros [ [ [=] _]|Hin]; by right].
  - destruct (Hc eq_refl) as [HP Hc']. rewrite Ha, with_aev_iter_fold. eexists. split; [done|].
    intros e v. rewrite (additions P0 _ HP0 Hl _ _ HP Hc' e v). cbn. tauto.
  - destruct (Hc eq_refl) as [HP Hc']. rewrite Hr, with_aev_iter_fold. eexists. split; [done|].
    exact (removals P0 _ HP0 Hl c P HP Hc').
Qed.

Lemma repr_ext c (P Q : pairs) : (∀ e v, P e v ↔ Q e v) → repr c P → repr c Q.
Proof. intros HPQ Hc e v. rewrite (Hc e v). apply HPQ. Qed.
End Kind.

(** Two caches side by side. *)
Lemma fold_both {F R} (f : F → Z * V → F) (r : R → Z * V → R) l : ∀ s,
  fold_left (λ s x, (f s.1 x, r s.2 x)) l s = (fold_left f l s.1, fold_left r l s.2).
Proof. induction l as [|x l IH]; intros [a b]; cbn; [done|]. by rewrite IH. Qed.

Lemma by_behavior_both {F R} `{CacheKind (V := V) F} `{CacheKind (V := V) R} b a rows
    (add remove : F * R → (F * R) * list Aev) (P0 P : pairs) f r :
  (∀ s, add s = with_aev_iter a (λ e v s, (acc s.1 e v, acc s.2 e v)) rows s) →
  (∀ s, remove s = with_aev_iter a (λ e v s, (remove_from s.1 e v, remove_from s.2 e v)) rows s) →
  fits (C := F) P0 → fits (C := R) P0 → (∀ x, x ∈ taken a rows → P0 x.1 x.2) →
  (is_replacing b = false → (∀ e v, P e v → P0 e v) ∧ repr f P ∧ repr r P) →
  ∃ s', by_behavior b clear_both add remove (f, r) = (s', dropped a rows)
    ∧ repr s'.1 (after b P (taken a rows)) ∧ repr s'.2 (after b P (taken a rows)).
Proof.
  intros Ha Hr HF HR Hl Hs.
  assert (Hf : is_replacing b = false → (∀ e v, P e v → P0 e v) ∧ repr f P) by (intros E; by destruct (Hs E) as (?&?&?)).
  assert (Hg : is_replacing b = false → (∀ e v, P e v → P0 e v) ∧ repr r P) by (intros E; by destruct (Hs E) as (?&?&?)).
  destruct (by_behavior_spec b a rows _ _ P0 P f (λ _, eq_refl) (λ _, eq_refl) HF Hl Hf) as (f' & Ef & Rf).
  destruct (by_behavior_spec b a rows _ _ P0 P r (λ _, eq_refl) (λ _, eq_refl) HR Hl Hg) as (r' & Er & Rr).
  exists (f', r'). split; [|done]. unfold by_behavior in *.
  destruct b as [replacing|]; [rewrite Ha|rewrite Hr]; rewrite !with_aev_iter_fold in *; injection Ef as <-;
    injection Er as <-; f_equal.
  - rewrite (fold_both (λ f x, acc f x.1 x.2) (λ r x, acc r x.1 x.2)). by destruct replacing.
  - by rewrite (fold_both (λ f x, remove_from f x.1 x.2) (λ r x, remove_from r x.1 x.2)).
Qed.
End Rows.
