(* ===== verification/CacheUpdate.v ===== *)
(** * CacheUpdate: updating and committing keep the caches in agreement with the store

    The caches, read through their fallback, agree with a store when each attribute they
    cache holds the store's pairs for it ([agree]).  [accumulate_evs] processes the rows
    of one attribute, the loop those of all, and [update_with_fallback] takes the caches
    from the store before to the store after.  [absorb] of the caches replaces the entries
    of the destination by those of the overlay, each without the sentinels of deleted
    entries. *)
From Stdlib Require Import ZArith Lia.
From stdpp Require Import base list numbers gmap.
From S2P Require Import Prelude Upsert Cache CacheAgree.
#[local] Open Scope Z_scope.

Section Update.
Context {V : Type} `{Countable V} {CX : CacheExternals (V := V)} {CL : CacheLaws (V := V)}.
Implicit Types (self : AttributeCaches (V := V)) (fb : option (AttributeCaches (V := V))) (P Q : pairs (V := V)).

(** The fallback that an attribute's entry is copied from. *)
Definition fb_lightlike fb (a : Z) :=
  if (match fb with Some c => is_attribute_cached_lightlike c a | None => false end) then fb else None.
Definition fb_reverse fb (a : Z) :=
  if (match fb with Some c => is_attribute_cached_reverse c a | None => false end) then fb else None.

(** The entries of an attribute, with their fallback, hold the pairs. *)
Definition lightlike_ok (at_ : Attribute) self fb a P : Prop :=
  is_attribute_cached_lightlike self a = true →
  if multival at_ then repr (fmc self a (fb_lightlike fb a)) P else repr (fsc self a (fb_lightlike fb a)) P.
Definition reverse_ok (at_ : Attribute) self fb a P : Prop :=
  is_attribute_cached_reverse self a = true →
  if unique at_ then repr (ruc self a (fb_reverse fb a)) P else repr (rnuc self a (fb_reverse fb a)) P.

Definition pairs_ok (at_ : Attribute) self fb a P : Prop :=
  lightlike_ok at_ self fb a P ∧ reverse_ok at_ self fb a P.

(** The pairs that an attribute admits. *)
Definition valid (at_ : Attribute) P : Prop :=
  (multival at_ = false → one_value P) ∧ (unique at_ = true → one_entity P).

(** Only the entries of [a] differ. *)
Definition same_elsewhere (a : Z) self self' : Prop :=
  reverse_cached_attributes self' = reverse_cached_attributes self
  ∧ lightlike_cached_attributes self' = lightlike_cached_attributes self
  ∧ ∀ a', a' ≠ a →
      single_vals self' !! a' = single_vals self !! a' ∧ multi_vals self' !! a' = multi_vals self !! a'
      ∧ unique_reverse self' !! a' = unique_reverse self !! a'
      ∧ non_unique_reverse self' !! a' = non_unique_reverse self !! a'.

Lemma entry_or_ext {C} (own own' : gmap Z C) a f d : own !! a = own' !! a → entry_or own a f d = entry_or own' a f d.
Proof. intros E. unfold entry_or. by rewrite E. Qed.

Lemma entry_or_insert {C} (own : gmap Z C) a c f d : entry_or (<[a := c]> own) a f d = c.
Proof. unfold entry_or. by rewrite lookup_insert_eq. Qed.

Lemma pairs_ok_elsewhere a self self' at_ fb a' P :
  same_elsewhere a self self' → a' ≠ a → pairs_ok at_ self fb a' P → pairs_ok at_ self' fb a' P.
Proof.
  intros (Er & El & Hs) Hne [Hl Hr]. destruct (Hs a' Hne) as (E1 & E2 & E3 & E4).
  unfold pairs_ok, lightlike_ok, reverse_ok, is_attribute_cached_lightlike, is_attribute_cached_reverse,
    fmc, fsc, ruc, rnuc in *.
  rewrite Er, El, (entry_or_ext _ _ _ _ _ E1), (entry_or_ext _ _ _ _ _ E2), (entry_or_ext _ _ _ _ _ E3),
    (entry_or_ext _ _ _ _ _ E4). done.
Qed.

(** What [accumulate_evs] needs of the entries and leaves, for the rows at the front. *)
Definition ready (b : AccumulationBehavior) (at_ : Attribute) self fb a (P0 P : pairs) : Prop :=
  is_replacing b = false → (∀ e v, P e v → P0 e v) ∧ pairs_ok at_ self fb a P.

Definition updated (b : AccumulationBehavior) (at_ : Attribute) a P (rows : list Aev) self self' : Prop :=
  same_elsewhere a self self' ∧ ∀ fb, pairs_ok at_ self' fb a (after b P (taken a rows)).

Lemma put_elsewhere_sv self a f : same_elsewhere a self (put_sv self a f).
Proof. split_and!; [done..|]. intros a' Hne. cbn. by rewrite lookup_insert_ne. Qed.
Lemma put_elsewhere_mv self a f : same_elsewhere a self (put_mv self a f).
Proof. split_and!; [done..|]. intros a' Hne. cbn. by rewrite lookup_insert_ne. Qed.
Lemma put_elsewhere_ur self a f : same_elsewhere a self (put_ur self a f).
Proof. split_and!; [done..|]. intros a' Hne. cbn. by rewrite lookup_insert_ne. Qed.
Lemma put_elsewhere_nr self a f : same_elsewhere a self (put_nr self a f).
Proof. split_and!; [done..|]. intros a' Hne. cbn. by rewrite lookup_insert_ne. Qed.

Lemma elsewhere_trans a self1 self2 self3 :
  same_elsewhere a self1 self2 → same_elsewhere a self2 self3 → same_elsewhere a self1 self3.
Proof.
  intros (R1 & L1 & E1) (R2 & L2 & E2). split_and!; [congruence..|]. intros a' Hne.
  destruct (E1 a' Hne) as (?&?&?&?), (E2 a' Hne) as (?&?&?&?). split_and!; congruence.
Qed.
End Update.

(** The entries of an attribute were written: elsewhere nothing changed, and reading
    them gives what was written. *)
Create HintDb cache.
#[export] Hint Resolve put_elsewhere_sv put_elsewhere_mv put_elsewhere_ur put_elsewhere_nr elsewhere_trans : cache.

(** The accumulations are walks over the rows. *)
Ltac walks := intros c; try destruct c;
  first [apply multi_unique|apply multi_non_unique|apply multi_lightlike|done].

Section Evs.
Context {V : Type} `{Countable V} {CX : CacheExternals (V := V)} {CL : CacheLaws (V := V)}.
Implicit Types (self : AttributeCaches (V := V)) (fb : option (AttributeCaches (V := V))) (P Q : pairs (V := V)).

(** The case analysis of [accumulate_evs]: the caches of the branch are processed, side
    by side or alone; what is left is that they fit, that they held the pairs before, and
    that they hold the pairs after once written. *)
Ltac process_branch P0 P :=
  match goal with
  | |- context [by_behavior ?b clear_both ?add ?remove (?f, ?r)] =>
      match goal with |- context [dropped ?a ?rows] =>
        destruct (by_behavior_both b a rows add remove P0 P f r) as ([f' r'] & -> & Hf & Hg)
      end
  | |- context [by_behavior ?b clear ?add ?remove ?f] =>
      match goal with |- context [dropped ?a ?rows] =>
        destruct (by_behavior_spec b a rows add remove P0 P f) as (f' & -> & Hf)
      end
  end.
Ltac held_before Hr := intros E; rewrite E, ?andb_true_r; destruct (Hr E) as (HP & Hl' & Hr'); auto.
Ltac written := eexists; split; [reflexivity|]; split; [eauto with cache|]; intros fb';
  unfold fmc, fsc, ruc, rnuc, is_attribute_cached_lightlike, is_attribute_cached_reverse in *; cbn;
  rewrite ?entry_or_insert; split; [auto|try by intros ?]; congruence.

Lemma accumulate_evs_ok self fb topograph a e v rows b at_ P0 P :
  topograph !! a = Some at_ →
  is_attribute_cached_lightlike self a || is_attribute_cached_reverse self a = true →
  valid at_ P0 → (∀ x, x ∈ taken a ((a, e, v) :: rows) → P0 x.1 x.2) → ready b at_ self fb a P0 P →
  ∃ self', accumulate_evs self fb topograph ((a, e, v) :: rows) b = Ret (self', dropped a ((a, e, v) :: rows))
    ∧ updated b at_ a P ((a, e, v) :: rows) self self'.
Proof.
  intros Ea Hc [Hsv Hun] Hl Hr. unfold accumulate_evs, attribute_for_causetid. rewrite Ea.
  unfold ready, pairs_ok, lightlike_ok, reverse_ok, fb_lightlike, fb_reverse in Hr.
  unfold updated, pairs_ok, lightlike_ok, reverse_ok.
  destruct (is_attribute_cached_lightlike self a) eqn:El, (is_attribute_cached_reverse self a) eqn:Er; [| | |done];
    cbn [andb]; destruct (multival at_) eqn:Em, (unique at_) eqn:Eu.
  all: process_branch P0 P.
  all: try (walks || held_before Hr || by auto).
  all: try (by apply Hsv). all: try (by apply Hun).
  all: written.
Qed.
End Evs.

Section Loop.
Context {V : Type} `{Countable V} {CX : CacheExternals (V := V)} {CL : CacheLaws (V := V)}.
Implicit Types (self : AttributeCaches (V := V)) (fb : option (AttributeCaches (V := V))) (P Q : pairs (V := V)).
Implicit Types (rows : list (Aev (V := V))) (S : Z → pairs (V := V)).

(** ** All the rows *)

(** The rows of an attribute, wherever they are. *)
Definition rows_of (a : Z) rows : list (Z * V) :=
  map (λ x, (x.1.2, x.2)) (List.filter (λ x, x.1.1 =? a) rows).

Lemma rows_of_app a rows rows' : rows_of a (rows ++ rows') = rows_of a rows ++ rows_of a rows'.
Proof. unfold rows_of. by rewrite List.filter_app, map_app. Qed.

Lemma rows_of_in a rows e v : (e, v) ∈ rows_of a rows ↔ (a, e, v) ∈ rows.
Proof.
  unfold rows_of. rewrite !list_elem_of_In, in_map_iff. split.
  - intros ([ [b e'] v'] & [= -> ->] & [Hin Hb]%filter_In). cbn in Hb. by apply Z.eqb_eq in Hb as ->.
  - intros Hin. exists (a, e, v). split; [done|]. apply filter_In. split; [done|apply Z.eqb_refl].
Qed.

Lemma rows_of_taken a b rows :
  rows_of a (map (λ x, (b, x.1, x.2)) (taken b rows)) = if b =? a then taken b rows else [].
Proof.
  unfold rows_of. induction (taken b rows) as [|[e v] l IH]; cbn; [by destruct (b =? a)|].
  destruct (b =? a); cbn; [by rewrite IH|done].
Qed.

Lemma rows_of_front a rows : rows_of a rows = taken a rows ++ rows_of a (dropped a rows).
Proof. rewrite (taken_dropped a rows) at 1. by rewrite rows_of_app, rows_of_taken, Z.eqb_refl. Qed.

Lemma rows_of_other a b rows : b ≠ a → rows_of a rows = rows_of a (dropped b rows).
Proof.
  intros Hne. rewrite (taken_dropped b rows) at 1. rewrite rows_of_app, rows_of_taken.
  by rewrite (proj2 (Z.eqb_neq b a)).
Qed.

Lemma dropped_in a rows x : x ∈ dropped a rows → x ∈ rows.
Proof. rewrite (taken_dropped a rows) at 2. intros Hx. apply elem_of_app. by right. Qed.

Lemma taken_in a rows x : x ∈ taken a rows → (a, x.1, x.2) ∈ rows.
Proof. destruct x as [e v]. intros Hx. apply rows_of_in. rewrite rows_of_front. apply elem_of_app. by left. Qed.

Lemma dropped_length a rows : (length (dropped a rows) ≤ length rows)%nat.
Proof.
  rewrite (taken_dropped a rows) at 2. rewrite length_app. apply Nat.le_add_l.
Qed.

(** The rows that the caches can process. *)
Definition cached_row (topograph : Topograph) self (x : Aev (V := V)) : Prop :=
  is_Some (topograph !! x.1.1)
  ∧ is_attribute_cached_lightlike self x.1.1 || is_attribute_cached_reverse self x.1.1 = true.

(** The caches agree with the store [S]: every attribute they cache holds its pairs. *)
Definition agrees (topograph : Topograph) self fb S : Prop :=
  ∀ a at_, topograph !! a = Some at_ → pairs_ok at_ self fb a (S a).
Definition valid_store (topograph : Topograph) S : Prop :=
  ∀ a at_, topograph !! a = Some at_ → valid at_ (S a).

Lemma pairs_ok_ext at_ self fb a P Q :
  (∀ e v, P e v ↔ Q e v) → pairs_ok at_ self fb a P → pairs_ok at_ self fb a Q.
Proof.
  intros HPQ [Hl Hr]. unfold pairs_ok, lightlike_ok, reverse_ok in *.
  split; intros E; [specialize (Hl E); destruct (multival at_)|specialize (Hr E); destruct (unique at_)];
    by eapply repr_ext.
Qed.

(** Rows in two parts, without replacing. *)
Lemma after_app b P l l' : is_replacing b = false →
  ∀ e v, after b (after b P l) l' e v ↔ after b P (l ++ l') e v.
Proof. intros Hb e v. destruct b as [ [|]|]; [done|cbn..]; rewrite elem_of_app; naive_solver. Qed.

Lemma cached_row_same topograph self self' a x : same_elsewhere a self self' →
  cached_row topograph self x → cached_row topograph self' x.
Proof.
  intros (Er & El & _). unfold cached_row, is_attribute_cached_lightlike, is_attribute_cached_reverse.
  by rewrite Er, El.
Qed.

(** Whatever fallback the caches agree with a store through, they agree with the other
    store afterwards. *)
Definition carries (topograph : Topograph) self self' S S' : Prop := ∀ fb a at_,
  topograph !! a = Some at_ → pairs_ok at_ self fb a (S a) → pairs_ok at_ self' fb a (S' a).

Lemma accumulate_loop_ok topograph fb b S0 : is_replacing b = false → valid_store topograph S0 →
  ∀ fuel self rows S, (length rows ≤ fuel)%nat →
  (∀ x, x ∈ rows → cached_row topograph self x ∧ S0 x.1.1 x.1.2 x.2) →
  (∀ a e v, S a e v → S0 a e v) → agrees topograph self fb S →
  ∃ self', accumulate_loop fuel self fb topograph rows b = Ret self'
    ∧ lightlike_cached_attributes self' = lightlike_cached_attributes self
    ∧ reverse_cached_attributes self' = reverse_cached_attributes self
    ∧ carries topograph self self' S (λ a, after b (S a) (rows_of a rows)).
Proof.
  intros Hb Hv fuel. induction fuel as [|fuel IH]; intros self [|[ [a e] v] rows] S Hf Hrows HS Ha; cbn in Hf; try lia.
  1,2: eexists; split_and!; [done..|]; intros fb' a at_ Ea Hp; eapply pairs_ok_ext; [|exact Hp];
    intros e v; destruct b as [ [|]|]; cbn; [done|rewrite elem_of_nil; tauto..].
  destruct (Hrows (a, e, v) ltac:(by left)) as [ [ [at_ Ea] Hc] _]. cbn in Ea, Hc. cbn [accumulate_loop].
  set (all := @cons (Aev (V := V)) (a, e, v) rows) in *.
  assert (Hev : ∃ self1, accumulate_evs self fb topograph all b = Ret (self1, dropped a all)
    ∧ updated b at_ a (S a) all self self1).
  { apply (accumulate_evs_ok self fb topograph a e v rows b at_ (S0 a) (S a)); [done|done|by apply Hv| |].
    - intros x Hx%taken_in. by apply (Hrows _ Hx).
    - intros _. split; [apply HS|by apply Ha]. }
  destruct Hev as (self1 & Ev & He & Hu). rewrite Ev. cbn [mbind outcome_bind].
  destruct (IH self1 (dropped a all) (λ a', if a' =? a then after b (S a) (taken a all) else S a'))
    as (self2 & E2 & El2 & Er2 & A2).
  - unfold all. cbn [dropped]. rewrite Z.eqb_refl. pose proof (dropped_length a rows). lia.
  - intros x Hx%dropped_in. destruct (Hrows x Hx) as [Hx1 Hx2]. split; [|done]. by eapply cached_row_same.
  - intros a' e' v'. destruct (Z.eqb_spec a' a) as [->|]; [|apply HS]. unfold after.
    destruct b as [ [|]|]; [done| |intros [Hp _]; by apply HS].
    intros [ [_ Hp]|Hin%taken_in]; [by apply HS|exact (proj2 (Hrows _ Hin))].
  - intros a' at' Ea'. destruct (Z.eqb_spec a' a) as [->|Hne].
    + rewrite Ea in Ea'. injection Ea' as <-. apply Hu.
    + by eapply pairs_ok_elsewhere, Ha.
  - exists self2. split; [exact E2|]. rewrite El2, Er2. pose proof He as (-> & -> & _). split_and!; [done..|].
    intros fb' a' at' Ea' Hp. destruct (decide (a' = a)) as [->|Hne].
    + rewrite Ea in Ea'. injection Ea' as <-. eapply pairs_ok_ext; [|apply (A2 fb' a at_ Ea)].
      * intros e' v'. cbn beta. by rewrite Z.eqb_refl, after_app, <- rows_of_front.
      * cbn beta. rewrite Z.eqb_refl. apply Hu.
    + eapply pairs_ok_ext; [|apply (A2 fb' a' at' Ea')].
      * intros e' v'. cbn beta. rewrite (proj2 (Z.eqb_neq a' a) Hne). by rewrite <- (rows_of_other a' a all).
      * cbn beta. rewrite (proj2 (Z.eqb_neq a' a) Hne). by eapply pairs_ok_elsewhere.
Qed.

(** [update_with_fallback]: the retractions are in the store and the store after is
    valid; then the caches, which agreed with the store before, agree with it after. *)
Lemma update_agrees topograph fb self retractions upserts S S' :
  valid_store topograph S → valid_store topograph S' → agrees topograph self fb S →
  (∀ x, x ∈ retractions ++ upserts → cached_row topograph self x) →
  (∀ a e v, (a, e, v) ∈ retractions → S a e v) →
  (∀ a, is_attribute_cached_lightlike self a || is_attribute_cached_reverse self a = true →
    ∀ e v, S' a e v ↔ (S a e v ∧ (a, e, v) ∉ retractions) ∨ (a, e, v) ∈ upserts) →
  ∃ self', update_with_fallback self fb topograph retractions upserts = Ret self'
    ∧ lightlike_cached_attributes self' = lightlike_cached_attributes self
    ∧ reverse_cached_attributes self' = reverse_cached_attributes self
    ∧ carries topograph self self' S S'.
Proof.
  intros Hv Hv' Ha Hrows HR HS'. unfold update_with_fallback, accumulate_into_cache.
  destruct (accumulate_loop_ok topograph fb Remove S eq_refl Hv (length retractions) self retractions S)
    as (self1 & E1 & El1 & Er1 & A1); [lia| |done|done|].
  { intros [ [a e] v] Hx. split; [apply Hrows, elem_of_app; by left|by apply HR]. }
  rewrite E1. cbn [mbind outcome_bind].
  set (cached a := is_attribute_cached_lightlike self a || is_attribute_cached_reverse self a).
  assert (Hc : ∀ a, is_attribute_cached_lightlike self1 a || is_attribute_cached_reverse self1 a = cached a).
  { intros a. unfold cached, is_attribute_cached_lightlike, is_attribute_cached_reverse. by rewrite El1, Er1. }
  assert (Hmid : ∀ fb a at_, topograph !! a = Some at_ →
    pairs_ok at_ self1 fb a (after Remove (S a) (rows_of a retractions)) →
    pairs_ok at_ self1 fb a (if cached a then after Remove (S a) (rows_of a retractions) else S' a)).
  { intros fb' a at_ Ea Hp. destruct (cached a) eqn:Ec; [done|]. rewrite <- Hc in Ec.
    apply orb_false_iff in Ec as [Ec1 Ec2].
    split; [intros E; by rewrite Ec1 in E|intros E; by rewrite Ec2 in E]. }
  destruct (accumulate_loop_ok topograph fb (Add false) S' eq_refl Hv' (length upserts) self1 upserts
    (λ a, if cached a then after Remove (S a) (rows_of a retractions) else S' a)) as (self2 & E2 & El2 & Er2 & A2).
  - lia.
  - intros [ [a e] v] Hx. assert (Hx' := Hrows _ (proj2 (elem_of_app _ _ _) (or_intror Hx))). split.
    + destruct Hx' as [Hk Hx']. split; [done|]. by rewrite Hc.
    + apply HS'; [by apply Hx'|by right].
  - intros a e v. destruct (cached a) eqn:Ec; [|done]. cbn. rewrite rows_of_in. intros Hp. apply HS'; [done|by left].
  - intros a at_ Ea. apply Hmid; [done|]. by apply A1, Ha.
  - exists self2. split; [exact E2|]. rewrite El2, Er2. split_and!; [done..|]. intros fb' a at_ Ea Hp.
    eapply pairs_ok_ext; [|exact (A2 fb' a at_ Ea (Hmid fb' a at_ Ea (A1 fb' a at_ Ea Hp)))]. intros e v. cbn beta.
    destruct (cached a) eqn:Ec.
    + rewrite (HS' a Ec). cbn. rewrite !rows_of_in. tauto.
    + unfold after. rewrite rows_of_in. split; [intros [ [_ Hs]|Hin]; [done|]|tauto].
      pose proof (Hrows _ (proj2 (elem_of_app _ _ _) (or_intror Hin))) as [_ Hx]. cbn in Hx.
      unfold cached in Ec. by rewrite Hx in Ec.
Qed.
End Loop.

(** ** Maps that absorb each other *)

Lemma fold_entries `{Countable K} {A B} (f : A → option B) l : NoDup l.*1 → ∀ (m : gmap K B) k,
  fold_left (λ m x, match f x.2 with None => delete x.1 m | Some y => <[x.1 := y]> m end) l m !! k
  = match (list_to_map l : gmap K A) !! k with Some x => f x | None => m !! k end.
Proof.
  induction l as [|[k0 x] l IH]; intros Hl m k; cbn; [by rewrite lookup_empty|].
  apply NoDup_cons in Hl as [Hk0 Hl]. rewrite IH by done. destruct (decide (k = k0)) as [->|Hne].
  - rewrite lookup_insert_eq, not_elem_of_list_to_map_1 by done.
    destruct (f x); [by rewrite lookup_insert_eq|by rewrite lookup_delete_eq].
  - rewrite lookup_insert_ne by done. destruct (_ !! k); [done|].
    destruct (f x); [by rewrite lookup_insert_ne|by rewrite lookup_delete_ne].
Qed.

Lemma absorb_with_lookup `{Countable K} {A} (f : A → option A) (self other : gmap K A) k :
  absorb_with f self other !! k = match other !! k with Some x => f x | None => self !! k end.
Proof.
  unfold absorb_with. rewrite fold_entries by apply NoDup_fst_map_to_list. by rewrite list_to_map_to_list.
Qed.

Lemma absorb_with_self `{Countable K} {A} (f : A → option A) (m : gmap K A) k :
  absorb_with f m m !! k = m !! k ≫= f.
Proof. rewrite absorb_with_lookup. by destruct (m !! k). Qed.

(** ** A cache that absorbs itself *)

(** It returns, and holds what it held. *)
Class SelfAbsorb {V C : Type} `{CacheKind V C} `{Absorb C} : Prop :=
  self_absorb : ∀ c : C, ∃ c', absorb c c = Ret c' ∧ ∀ e v, holds c' e v ↔ holds c e v.

Section Self.
Context {V : Type} `{Countable V}.

#[global] Instance self_absorb_mv : SelfAbsorb (C := MultiValAttributeCache (V := V)).
Proof.
  intros c. unfold absorb, absorb_mv. rewrite Z.eqb_refl. eexists. split; [reflexivity|]. intros e v. cbn.
  rewrite absorb_with_self. destruct (e_vs c !! e) as [ [|v0 vs]|]; cbn; [|done|naive_solver].
  split; [naive_solver|]. intros (vs & [= <-] & Hv). by apply elem_of_nil in Hv.
Qed.

#[global] Instance self_absorb_nr : SelfAbsorb (C := NonUniqueReverseAttributeCache (V := V)).
Proof.
  intros c. unfold absorb, absorb_nr. rewrite Z.eqb_refl. eexists. split; [reflexivity|]. intros e v. cbn.
  rewrite absorb_with_self. destruct (v_es c !! v) as [es|]; cbn; [|naive_solver]. case_bool_decide as He; [|done].
  split; [naive_solver|]. intros (es' & [= <-] & Hv). set_solver.
Qed.

#[global] Instance self_absorb_ur : SelfAbsorb (C := UniqueReverseAttributeCache (V := V)).
Proof.
  intros c. unfold absorb, absorb_ur. rewrite Z.eqb_refl. eexists. split; [reflexivity|]. intros e v. cbn.
  rewrite absorb_with_self. by destruct (v_e c !! v) as [ [e'|]|].
Qed.

#[global] Instance self_absorb_sv `{CL : CacheLaws V} : SelfAbsorb (C := SingleValAttributeCache (V := V)).
Proof.
  intros c. unfold absorb, absorb_sv. rewrite Z.eqb_refl. eexists. split; [reflexivity|]. intros e v. cbn.
  rewrite absorb_with_self. by destruct (e_v c !! e) as [ [v'|]|].
Qed.
End Self.

(** ** Maps of caches *)

Section Extend.
Context {V C : Type} `{Countable V} `{SelfAbsorb V C}.
Implicit Types (m self other : gmap Z C).

(** What an entry of the result is: that of the other map, absorbed, or else the own. *)
Definition extends (own other : gmap Z C) (m : gmap Z C) : Prop := ∀ a,
  match other !! a with
  | Some c => ∃ c', m !! a = Some c' ∧ ∀ e v, holds c' e v ↔ holds c e v
  | None => m !! a = own !! a
  end.

Lemma plug_play_returns l : NoDup l.*1 → ∀ m, ∃ m',
  foldO (λ m x, match m !! x.1 with
                | Some v => v' ← absorb v v; Ret (<[x.1 := v']> m)
                | None => Ret (<[x.1 := x.2]> m)
                end) m l = Ret m'
  ∧ ∀ a, a ∉ l.*1 → m' !! a = m !! a.
Proof.
  induction l as [|[k x] l IH]; intros Hl m; cbn; [by eexists|]. apply NoDup_cons in Hl as [Hk Hl].
  assert (Hs : ∃ y, match m !! k with
                    | Some v => v' ← absorb v v; Ret (<[k := v']> m)
                    | None => Ret (<[k := x]> m)
                    end = Ret (<[k := y]> m)).
  { destruct (m !! k) as [v|]; [|by eexists]. destruct (self_absorb v) as (v' & -> & _). by eexists. }
  destruct Hs as (y & ->). destruct (IH Hl (<[k := y]> m)) as (m' & E & Hm'). exists m'. split; [exact E|].
  intros a [Hne Ha]%not_elem_of_cons. by rewrite Hm', lookup_insert_ne.
Qed.

Lemma extend_loop l : NoDup l.*1 → ∀ m, ∃ m',
  foldO (λ m x,
    let m := <[x.1 := x.2]> m in
    match m !! x.1 with
    | Some entry => v ← absorb entry x.2; Ret (<[x.1 := v]> m)
    | None => Ret (<[x.1 := x.2]> m)
    end) m l = Ret m' ∧ extends m (list_to_map l) m'.
Proof.
  induction l as [|[k x] l IH]; intros Hl m; cbn; [eexists; split; [done|]; intros a; by rewrite lookup_empty|].
  apply NoDup_cons in Hl as [Hk Hl]. rewrite lookup_insert_eq.
  destruct (self_absorb x) as (x' & -> & Hx'). cbn [mbind outcome_bind].
  destruct (IH Hl (<[k := x']> (<[k := x]> m))) as (m' & E & Hm'). exists m'. split; [exact E|]. intros a.
  specialize (Hm' a). destruct (decide (a = k)) as [->|Hne].
  - rewrite lookup_insert_eq. rewrite not_elem_of_list_to_map_1, lookup_insert_eq in Hm' by done. by exists x'.
  - rewrite lookup_insert_ne by done. by rewrite !lookup_insert_ne in Hm' by done.
Qed.

Lemma extend_by_absorbing_ok self other :
  ∃ m, extend_by_absorbing self other = Ret m ∧ extends self other m.
Proof.
  unfold extend_by_absorbing, plug_play. set (l := map_to_list other).
  assert (Hl : NoDup l.*1) by apply NoDup_fst_map_to_list.
  destruct (plug_play_returns l Hl self) as (m1 & -> & Hm1). cbn [mbind outcome_bind].
  destruct (extend_loop l Hl m1) as (m & Em & Hm). exists m. split; [exact Em|]. intros a. specialize (Hm a).
  unfold l in Hm. rewrite list_to_map_to_list in Hm. destruct (other !! a) eqn:E; [done|].
  rewrite Hm. apply Hm1. unfold l. intros [ [a' c] [Ea Hin] ]%list_elem_of_fmap. cbn in Ea. subst a'.
  apply elem_of_map_to_list in Hin. congruence.
Qed.
End Extend.

(** ** The caches *)

Section Caches.
Context {V : Type} `{Countable V} {CX : CacheExternals (V := V)} {CL : CacheLaws (V := V)}.
Implicit Types (self : AttributeCaches (V := V)) (fb : option (AttributeCaches (V := V))) (S : Z → pairs (V := V)).

(** Only attributes that are cached have entries. *)
Definition entries_cached self : Prop := ∀ a,
  (is_attribute_cached_lightlike self a = false → single_vals self !! a = None ∧ multi_vals self !! a = None)
  ∧ (is_attribute_cached_reverse self a = false → unique_reverse self !! a = None ∧ non_unique_reverse self !! a = None).

Lemma put_sv_entries self a f : is_attribute_cached_lightlike self a = true →
  entries_cached self → entries_cached (put_sv self a f).
Proof.
  intros Hc He b. destruct (He b) as [Hl Hr]. split; [|done]. intros Hb. destruct (Hl Hb) as [E1 E2].
  split; [|done]. cbn. rewrite lookup_insert_ne; [done|]. intros ->.
  unfold is_attribute_cached_lightlike in *. cbn in Hb. by rewrite Hc in Hb.
Qed.
Lemma put_mv_entries self a f : is_attribute_cached_lightlike self a = true →
  entries_cached self → entries_cached (put_mv self a f).
Proof.
  intros Hc He b. destruct (He b) as [Hl Hr]. split; [|done]. intros Hb. destruct (Hl Hb) as [E1 E2].
  split; [done|]. cbn. rewrite lookup_insert_ne; [done|]. intros ->.
  unfold is_attribute_cached_lightlike in *. cbn in Hb. by rewrite Hc in Hb.
Qed.
Lemma put_ur_entries self a f : is_attribute_cached_reverse self a = true →
  entries_cached self → entries_cached (put_ur self a f).
Proof.
  intros Hc He b. destruct (He b) as [Hl Hr]. split; [done|]. intros Hb. destruct (Hr Hb) as [E1 E2].
  split; [|done]. cbn. rewrite lookup_insert_ne; [done|]. intros ->.
  unfold is_attribute_cached_reverse in *. cbn in Hb. by rewrite Hc in Hb.
Qed.
Lemma put_nr_entries self a f : is_attribute_cached_reverse self a = true →
  entries_cached self → entries_cached (put_nr self a f).
Proof.
  intros Hc He b. destruct (He b) as [Hl Hr]. split; [done|]. intros Hb. destruct (Hr Hb) as [E1 E2].
  split; [done|]. cbn. rewrite lookup_insert_ne; [done|]. intros ->.
  unfold is_attribute_cached_reverse in *. cbn in Hb. by rewrite Hc in Hb.
Qed.

Lemma accumulate_evs_entries self fb topograph rows b self' rows' :
  accumulate_evs self fb topograph rows b = Ret (self', rows') → entries_cached self → entries_cached self'.
Proof.
  intros E He. unfold accumulate_evs in E. destruct rows as [|[ [a e] v] rows]; [by injection E as <- _|].
  destruct (attribute_for_causetid topograph a) as [at_|]; [|by injection E as <- _].
  destruct (is_attribute_cached_lightlike self a) eqn:El, (is_attribute_cached_reverse self a) eqn:Er; [| | |done];
    destruct (multival at_), (unique at_); cbn beta iota zeta in E;
    repeat match type of E with context [by_behavior ?b ?c ?add ?remove ?s] =>
      destruct (by_behavior b c add remove s) as [s' rs] end; injection E as <- _;
    first [apply put_ur_entries; [exact Er|] | apply put_nr_entries; [exact Er|] | idtac];
    first [apply put_sv_entries | apply put_mv_entries | idtac]; done.
Qed.

Lemma accumulate_loop_entries fb topograph b fuel : ∀ self rows self',
  accumulate_loop fuel self fb topograph rows b = Ret self' → entries_cached self → entries_cached self'.
Proof.
  induction fuel as [|fuel IH]; intros self [|r rows] self' E He; cbn [accumulate_loop] in E; try done.
  1,2: by injection E as <-.
  apply bind_Ret in E as ([self1 rows1] & E1 & E). by eapply IH, accumulate_evs_entries.
Qed.

Lemma update_entries self fb topograph r u self' :
  update_with_fallback self fb topograph r u = Ret self' → entries_cached self → entries_cached self'.
Proof.
  intros (self1 & E1 & E2)%bind_Ret He. by eapply accumulate_loop_entries, accumulate_loop_entries.
Qed.

(** [absorb]: the entries of the overlay, absorbed, or else those of the destination. *)
Lemma caches_absorb_ok self other : ∃ c, caches_absorb self other = Ret c
  ∧ reverse_cached_attributes c = reverse_cached_attributes self ∪ reverse_cached_attributes other
  ∧ lightlike_cached_attributes c = lightlike_cached_attributes self ∪ lightlike_cached_attributes other
  ∧ extends (single_vals self) (single_vals other) (single_vals c)
  ∧ extends (multi_vals self) (multi_vals other) (multi_vals c)
  ∧ extends (unique_reverse self) (unique_reverse other) (unique_reverse c)
  ∧ extends (non_unique_reverse self) (non_unique_reverse other) (non_unique_reverse c).
Proof.
  unfold caches_absorb.
  destruct (extend_by_absorbing_ok (single_vals self) (single_vals other)) as (s & -> & Hs).
  destruct (extend_by_absorbing_ok (multi_vals self) (multi_vals other)) as (m & -> & Hm).
  destruct (extend_by_absorbing_ok (unique_reverse self) (unique_reverse other)) as (u & -> & Hu).
  destruct (extend_by_absorbing_ok (non_unique_reverse self) (non_unique_reverse other)) as (n & -> & Hn).
  eexists. split; [reflexivity|]. done.
Qed.
End Caches.
