(* ===== verification/CacheTransact.v ===== *)
(** * CacheTransact: a transaction over the caches

    A committed cache agrees with a store.  The cache in progress made from it agrees
    with the store of its transaction: it keeps doing so when attributes are registered
    and unregistered and when the watcher is done with a transaction's assertions and
    retractions; committing it gives a cache that agrees with the last store.  The
    watcher collects, per attribute, what is asserted and retracted of the attributes
    that are cached. *)
From Stdlib Require Import ZArith Lia.
From stdpp Require Import base list numbers gmap sorting.
From S2P Require Import Prelude Upsert Cache CacheAgree CacheUpdate.
#[local] Open Scope Z_scope.

Section Transact.
Context {V : Type} `{Countable V} {CX : CacheExternals (V := V)} {CL : CacheLaws (V := V)}.
Implicit Types (self : AttributeCaches (V := V)) (p : InProgressSQLiteAttributeCache (V := V)).
Implicit Types (S : Z → pairs (V := V)) (rows : list (Aev (V := V))).
Variable topograph : Topograph.

Definition cached self (a : Z) : bool := is_attribute_cached_lightlike self a || is_attribute_cached_reverse self a.
Definition known self : Prop := ∀ a, cached self a = true → is_Some (topograph !! a).

Record committed self S : Prop := {
  c_known : known self;
  c_agrees : agrees topograph self None S;
  c_entries : entries_cached self;
}.

Record in_progress p S : Prop := {
  ip_known : known (overlay p);
  ip_agrees : agrees topograph (overlay p) (Some (p_inner p)) S;
  ip_lightlike : ∀ a, p_is_attribute_cached_lightlike p a = is_attribute_cached_lightlike (overlay p) a;
  ip_reverse : ∀ a, p_is_attribute_cached_reverse p a = is_attribute_cached_reverse (overlay p) a;
  ip_overlay : entries_cached (overlay p);
  ip_inner : entries_cached (p_inner p);
  (** An attribute that was unregistered, and perhaps registered again, has nothing to
      take from the caches below. *)
  ip_fresh : ∀ a at_, topograph !! a = Some at_ → a ∈ unregistered_lightlike p ∪ unregistered_reverse p →
    pairs_ok at_ (overlay p) None a (S a);
}.

(** ** Beginning *)

Lemma entry_or_none {C} (own : gmap Z C) a d : entry_or own a None d = default d (own !! a).
Proof. unfold entry_or. by destruct (own !! a). Qed.

Lemma entry_or_empty {C} a (m : gmap Z C) d : entry_or ∅ a (Some m) d = default d (m !! a).
Proof. unfold entry_or. by rewrite lookup_empty. Qed.

Lemma from_cache_ok c S : committed (inner c) S → in_progress (from_cache c) S.
Proof.
  intros [Hk Ha He]. split; cbn; [exact Hk| | | | |done|].
  - intros a at_ Ea. destruct (Ha a at_ Ea) as [Hl Hr].
    split; intros Ec; [specialize (Hl Ec)|specialize (Hr Ec)]; unfold fb_lightlike, fb_reverse, fmc, fsc, ruc, rnuc in *;
      cbn in *; unfold is_attribute_cached_lightlike, is_attribute_cached_reverse in *; cbn in *; rewrite Ec;
      rewrite !entry_or_none in *; cbn; by rewrite !entry_or_empty.
  - intros a. unfold p_is_attribute_cached_lightlike. cbn.
    rewrite bool_decide_eq_false_2 by set_solver. cbn. unfold is_attribute_cached_lightlike. cbn. apply orb_diag.
  - intros a. unfold p_is_attribute_cached_reverse. cbn.
    rewrite bool_decide_eq_false_2 by set_solver. cbn. unfold is_attribute_cached_reverse. cbn. apply orb_diag.
  - intros a. cbn. by rewrite !lookup_empty.
  - intros a at_ _ Hin. set_solver.
Qed.

(** ** Unregistering *)

Lemma pairs_ok_uncached at_ self fb a (P : pairs (V := V)) : cached self a = false → pairs_ok at_ self fb a P.
Proof. intros [El Er]%orb_false_iff. split; intros E; [by rewrite El in E|by rewrite Er in E]. Qed.

Lemma unregister_elsewhere self a b : b ≠ a →
  is_attribute_cached_lightlike (unregister_attribute self a) b = is_attribute_cached_lightlike self b
  ∧ is_attribute_cached_reverse (unregister_attribute self a) b = is_attribute_cached_reverse self b
  ∧ ∀ at_ fb (P : pairs (V := V)), pairs_ok at_ self fb b P → pairs_ok at_ (unregister_attribute self a) fb b P.
Proof.
  intros Hne.
  assert (El : is_attribute_cached_lightlike (unregister_attribute self a) b = is_attribute_cached_lightlike self b)
    by (apply bool_decide_ext; cbn; set_solver).
  assert (Er : is_attribute_cached_reverse (unregister_attribute self a) b = is_attribute_cached_reverse self b)
    by (apply bool_decide_ext; cbn; set_solver).
  split_and!; [done..|]. intros at_ fb P [Hl Hr].
  unfold pairs_ok, lightlike_ok, reverse_ok in *. rewrite El, Er. unfold fmc, fsc, ruc, rnuc, entry_or in *. cbn.
  by rewrite !lookup_delete_ne.
Qed.

Lemma unregister_uncached self a : cached (unregister_attribute self a) a = false.
Proof.
  unfold cached, is_attribute_cached_lightlike, is_attribute_cached_reverse. cbn.
  by rewrite !bool_decide_eq_false_2 by set_solver.
Qed.

Lemma unregister_entries self a : entries_cached self → entries_cached (unregister_attribute self a).
Proof.
  intros He b. destruct (decide (b = a)) as [->|Hne].
  - cbn. by rewrite !lookup_delete_eq.
  - destruct (unregister_elsewhere self a b Hne) as (-> & -> & _). cbn. rewrite !lookup_delete_ne by done. apply He.
Qed.

Lemma unregister_known self a : known self → known (unregister_attribute self a).
Proof.
  intros Hk b. destruct (decide (b = a)) as [->|Hne]; [by rewrite unregister_uncached|].
  unfold cached. destruct (unregister_elsewhere self a b Hne) as (-> & -> & _). apply Hk.
Qed.

Lemma p_unregister_ok p a S : in_progress p S → in_progress (p_unregister p a) S.
Proof.
  intros [Hk Ha Hl Hr Ho Hi Hf].
  assert (Hpl : ∀ b, p_is_attribute_cached_lightlike (p_unregister p a) b
      = negb (bool_decide (b = a)) && p_is_attribute_cached_lightlike p b).
  { intros b. unfold p_is_attribute_cached_lightlike, is_attribute_cached_lightlike. cbn.
    repeat case_bool_decide; try done; set_solver. }
  assert (Hpr : ∀ b, p_is_attribute_cached_reverse (p_unregister p a) b
      = negb (bool_decide (b = a)) && p_is_attribute_cached_reverse p b).
  { intros b. unfold p_is_attribute_cached_reverse, is_attribute_cached_reverse. cbn.
    repeat case_bool_decide; try done; set_solver. }
  pose proof (unregister_uncached (overlay p) a) as [Ul Ur]%orb_false_iff.
  split; cbn -[unregister_attribute]; [by apply unregister_known| | | |by apply unregister_entries|done|].
  - intros b at_ Eb. destruct (decide (b = a)) as [->|Hne]; [by apply pairs_ok_uncached, unregister_uncached|].
    by apply unregister_elsewhere, Ha.
  - intros b. rewrite Hpl. case_bool_decide as Hb; [by subst b|]. rewrite Hl. cbn.
    by destruct (unregister_elsewhere (overlay p) a b Hb) as (-> & _).
  - intros b. rewrite Hpr. case_bool_decide as Hb; [by subst b|]. rewrite Hr. cbn.
    by destruct (unregister_elsewhere (overlay p) a b Hb) as (_ & -> & _).
  - intros b at_ Eb Hin. destruct (decide (b = a)) as [->|Hne]; [by apply pairs_ok_uncached, unregister_uncached|].
    apply unregister_elsewhere; [done|]. apply Hf; [done|set_solver].
Qed.

Lemma p_unregister_all_ok p S : in_progress p S → in_progress (p_unregister_all p) S.
Proof.
  intros [_ _ _ _ _ Hi _].
  assert (Hu : ∀ a, cached (unregister_all_attributes (overlay p)) a = false) by done.
  split; cbn -[unregister_all_attributes].
  - intros a E. by rewrite Hu in E.
  - intros a at_ _. by apply pairs_ok_uncached.
  - intros a. unfold p_is_attribute_cached_lightlike, is_attribute_cached_lightlike. cbn.
    repeat case_bool_decide; try done; set_solver.
  - intros a. unfold p_is_attribute_cached_reverse, is_attribute_cached_reverse. cbn.
    repeat case_bool_decide; try done; set_solver.
  - intros a. cbn. by rewrite !lookup_empty.
  - done.
  - intros a at_ _ _. by apply pairs_ok_uncached.
Qed.

(** ** Updating *)

Lemma p_update_ok p S S' retractions upserts :
  in_progress p S → valid_store topograph S → valid_store topograph S' →
  (∀ x, x ∈ retractions ++ upserts → cached (overlay p) x.1.1 = true) →
  (∀ a e v, (a, e, v) ∈ retractions → S a e v) →
  (∀ a, cached (overlay p) a = true →
    ∀ e v, S' a e v ↔ (S a e v ∧ (a, e, v) ∉ retractions) ∨ (a, e, v) ∈ upserts) →
  ∃ p', p_update p topograph retractions upserts = Ret p' ∧ in_progress p' S'.
Proof.
  intros [Hk Ha Hl Hr Ho Hi Hf] Hv Hv' Hrows HR HS'.
  assert (Hrows' : ∀ x, x ∈ retractions ++ upserts → cached_row topograph (overlay p) x).
  { intros x Hx. split; [apply Hk|]; by apply Hrows. }
  destruct (update_agrees topograph (Some (p_inner p)) (overlay p) retractions upserts S S' Hv Hv' Ha Hrows' HR HS')
    as (o & Eo & El & Er & Hc).
  unfold p_update. rewrite Eo. eexists. split; [reflexivity|].
  split; cbn; [| | | | |done|].
  - intros a. unfold cached, is_attribute_cached_lightlike, is_attribute_cached_reverse. rewrite El, Er. apply Hk.
  - intros a at_ Ea. by apply Hc, Ha.
  - intros a. specialize (Hl a). unfold p_is_attribute_cached_lightlike, is_attribute_cached_lightlike in *.
    cbn. by rewrite El.
  - intros a. specialize (Hr a). unfold p_is_attribute_cached_reverse, is_attribute_cached_reverse in *.
    cbn. by rewrite Er.
  - by eapply update_entries.
  - intros a at_ Ea Hin. by apply Hc, Hf.
Qed.
End Transact.

Section Watch.
Context {V : Type} `{Countable V} {CX : CacheExternals (V := V)} {CL : CacheLaws (V := V)}.
Implicit Types (p : InProgressSQLiteAttributeCache (V := V)) (w : InProgressCacheTransactWatcher (V := V)).
Implicit Types (S : Z → pairs (V := V)) (rows : list (Aev (V := V))) (m : gmap Z (option (list (Z * V)))).

Definition p_cached p (a : Z) : bool := p_is_attribute_cached_lightlike p a || p_is_attribute_cached_reverse p a.

(** The terms of a transaction, and those asserted or retracted. *)
Definition WatchedTerm : Type := OpType * Aev (V := V).
Definition asserted (ts : list WatchedTerm) : list Aev := omap (λ t, match t.1 with Upsert.Add => Some t.2 | Retract => None end) ts.
Definition retracted (ts : list WatchedTerm) : list Aev := omap (λ t, match t.1 with Upsert.Add => None | Retract => Some t.2 end) ts.

Definition watch w (ts : list WatchedTerm) : InProgressCacheTransactWatcher :=
  fold_left (λ w t, causet w t.1 t.2.1.2 t.2.1.1 t.2.2) ts w.

(** What was collected from some rows. *)
Definition collects p m rows : Prop := ∀ a,
  m !! a = match rows_of a rows with [] => None | l => Some (if p_cached p a then Some l else None) end.

Lemma rows_of_snoc a b e (v : V) rows :
  rows_of a (rows ++ [(b, e, v)]) = if b =? a then rows_of a rows ++ [(e, v)] else rows_of a rows.
Proof. rewrite rows_of_app. unfold rows_of at 2. cbn. destruct (b =? a); cbn; [done|by rewrite app_nil_r]. Qed.

Lemma collect_ok p m rows e a v : collects p m rows → collects p (collect p m e a v) (rows ++ [(a, e, v)]).
Proof.
  unfold collects, collect, Collected. intros Hm b. rewrite rows_of_snoc. pose proof (Hm a) as Ea. fold (p_cached p a).
  destruct (Z.eqb_spec a b) as [<-|Hne].
  - destruct (rows_of a rows) as [|x l]; rewrite Ea.
    + cbv beta iota zeta. rewrite lookup_insert_eq. cbn. by destruct (p_cached p a).
    + destruct (p_cached p a) eqn:Ec; cbv beta iota zeta; [by rewrite lookup_insert_eq|exact Ea].
  - rewrite <- (Hm b). destruct (m !! a) as [ [l|]|]; cbv beta iota zeta; [by rewrite lookup_insert_ne|done|by rewrite lookup_insert_ne].
Qed.

Lemma watch_ok ts : ∀ w rr ru, active w = true →
  collects (w_cache w) (collected_retractions w) rr →
  collects (w_cache w) (collected_lightlike_dagger_upsert w) ru →
  let w' := watch w ts in
  active w' = true ∧ w_cache w' = w_cache w
  ∧ collects (w_cache w) (collected_retractions w') (rr ++ retracted ts)
  ∧ collects (w_cache w) (collected_lightlike_dagger_upsert w') (ru ++ asserted ts).
Proof.
  induction ts as [|[op [ [a e] v] ] ts IH]; intros w rr ru Ha Hr Hu; cbn zeta; [cbn; by rewrite !app_nil_r|].
  change (watch w ((op, (a, e, v)) :: ts)) with (watch (causet w op e a v) ts).
  assert (Hc : active (causet w op e a v) = true ∧ w_cache (causet w op e a v) = w_cache w).
  { unfold causet. rewrite Ha. by destruct op. }
  destruct Hc as [Hc Hw]. destruct op.
  - destruct (IH (causet w Upsert.Add e a v) rr (ru ++ [(a, e, v)]) Hc) as (A & E & R & U).
    + rewrite Hw. unfold causet. by rewrite Ha.
    + rewrite Hw. unfold causet. rewrite Ha. by apply collect_ok.
    + rewrite Hw in *. rewrite <- app_assoc in U. done.
  - destruct (IH (causet w Retract e a v) (rr ++ [(a, e, v)]) ru Hc) as (A & E & R & U).
    + rewrite Hw. unfold causet. rewrite Ha. by apply collect_ok.
    + rewrite Hw. unfold causet. by rewrite Ha.
    + rewrite Hw in *. rewrite <- app_assoc in R. done.
Qed.

Lemma watch_inactive ts : ∀ w, active w = false → watch w ts = w.
Proof.
  induction ts as [|t ts IH]; intros w Hw; [done|].
  change (watch w (t :: ts)) with (watch (causet w t.1 t.2.1.2 t.2.1.1 t.2.2) ts). unfold causet. rewrite Hw. by apply IH.
Qed.

Lemma expand_in p m rows a e v : collects p m rows →
  (a, e, v) ∈ expand m ↔ (a, e, v) ∈ rows ∧ p_cached p a = true.
Proof.
  intros Hm. unfold expand. rewrite list_elem_of_In, in_concat. rewrite <- rows_of_in.
  assert (Hk : ∀ x, In x (by_key m) ↔ m !! x.1 = Some x.2).
  { intros [k o]. unfold by_key. rewrite <- list_elem_of_In, merge_sort_Permutation.
    exact (elem_of_map_to_list (M := gmap Z) m k o). }
  split.
  - intros (l & ([k o] & <- & Hx%Hk)%in_map_iff & Hin). cbn in Hx, Hin. rewrite (Hm k) in Hx.
    destruct (rows_of k rows) as [|x l] eqn:El; [done|]. injection Hx as <-.
    destruct (p_cached p k) eqn:Ec; [|done]. rewrite <- El in Hin.
    apply in_map_iff in Hin as ([e' v'] & [= <- <- <-] & Hin). split; [|done]. by apply list_elem_of_In.
  - intros [Hin Hc]. exists (map (λ ev, (a, ev.1, ev.2)) (rows_of a rows)). split.
    + apply in_map_iff. exists (a, Some (rows_of a rows)). split; [done|]. apply Hk. cbn. rewrite (Hm a), Hc.
      destruct (rows_of a rows); [by apply elem_of_nil in Hin|done].
    + apply in_map_iff. exists (e, v). split; [done|]. by apply list_elem_of_In.
Qed.
End Watch.

Section Done.
Context {V : Type} `{Countable V} {CX : CacheExternals (V := V)} {CL : CacheLaws (V := V)}.
Implicit Types (p : InProgressSQLiteAttributeCache (V := V)).
Implicit Types (S : Z → pairs (V := V)) (rows : list (Aev (V := V))).
Variable topograph : Topograph.

(** The store after a transaction. *)
Definition transacts (ts : list (WatchedTerm (V := V))) S S' : Prop := ∀ a e v,
  S' a e v ↔ (S a e v ∧ (a, e, v) ∉ retracted ts) ∨ (a, e, v) ∈ asserted ts.

Lemma p_cached_overlay p S a : in_progress topograph p S → p_cached p a = cached (overlay p) a.
Proof. intros Hp. unfold p_cached, cached. by rewrite (ip_lightlike _ _ _ Hp), (ip_reverse _ _ _ Hp). Qed.

Lemma collects_nil p : collects p ∅ [].
Proof. intros a. by rewrite lookup_empty. Qed.

Lemma watch_cache p (ts : list (WatchedTerm (V := V))) : w_cache (watch (transact_watcher p) ts) = p.
Proof.
  destruct (p_has_cached_attributes p) eqn:Ea.
  - by destruct (watch_ok ts (transact_watcher p) [] [] Ea (collects_nil p) (collects_nil p)) as (_ & -> & _).
  - by rewrite (watch_inactive ts (transact_watcher p) Ea).
Qed.

(** Only the overlay changes. *)
Lemma done_below p ts w : done (watch (transact_watcher p) ts) topograph = Ret w →
  ∃ o, update_with_fallback (overlay p) (Some (p_inner p)) topograph
         (expand (collected_retractions (watch (transact_watcher p) ts)))
         (expand (collected_lightlike_dagger_upsert (watch (transact_watcher p) ts))) = Ret o
    ∧ w_cache w = mkInProgress (p_inner p) o (unregistered_lightlike p) (unregistered_reverse p).
Proof.
  intros E. unfold done in E. rewrite watch_cache in E. apply bind_Ret in E as (p' & E & [= <-]).
  unfold p_update in E. apply bind_Ret in E as (o & E & [= <-]). by exists o.
Qed.

Lemma watched_ok p S S' ts : in_progress topograph p S → valid_store topograph S → valid_store topograph S' →
  (∀ a e v, (a, e, v) ∈ retracted ts → S a e v) → transacts ts S S' →
  ∃ w, done (watch (transact_watcher p) ts) topograph = Ret w ∧ in_progress topograph (w_cache w) S'.
Proof.
  intros Hp Hv Hv' HR HS'. destruct (p_has_cached_attributes p) eqn:Eact.
  - destruct (watch_ok ts (transact_watcher p) [] [] Eact (collects_nil p) (collects_nil p)) as (Ea & Ew & Cr & Cu).
    set (w := watch (transact_watcher p) ts) in *. cbn [app] in Cr, Cu. cbn in Ew, Cr, Cu.
    unfold done. rewrite Ew.
    destruct (p_update_ok topograph p S S' (expand (collected_retractions w))
      (expand (collected_lightlike_dagger_upsert w))) as (p' & E & Hp'); [done..| | | |].
    + intros [ [a e] v] [Hx|Hx]%elem_of_app; (eapply expand_in in Hx as [_ Hx]; [|eassumption]);
        cbn; by rewrite <- (p_cached_overlay p S).
    + intros a e v [Hx _]%(expand_in p _ _ a e v Cr). by apply HR.
    + intros a Hc e v. rewrite (expand_in p _ _ a e v Cr), (expand_in p _ _ a e v Cu), (HS' a e v).
      rewrite <- (p_cached_overlay p S) in Hc by done. rewrite Hc. tauto.
    + rewrite E. eexists. split; [reflexivity|done].
  - rewrite (watch_inactive ts (transact_watcher p) Eact). unfold done, transact_watcher. cbn [w_cache collected_retractions collected_lightlike_dagger_upsert].
    assert (Hn : ∀ a, cached (overlay p) a = false).
    { unfold p_has_cached_attributes in Eact. destruct (caches_has_cached_attributes (overlay p)) eqn:Eo; [done|].
      apply orb_false_iff in Eo as [Er%negb_false_iff%bool_decide_eq_true El%negb_false_iff%bool_decide_eq_true].
      intros a. unfold cached, is_attribute_cached_lightlike, is_attribute_cached_reverse. rewrite Er, El.
      by rewrite !bool_decide_eq_false_2 by set_solver. }
    destruct (p_update_ok topograph p S S' (expand ∅) (expand ∅)) as (p' & E & Hp'); [done..| | | |].
    + intros x [Hx|Hx]%elem_of_app; by apply elem_of_nil in Hx.
    + intros a e v Hx. by apply elem_of_nil in Hx.
    + intros a Hc. by rewrite Hn in Hc.
    + rewrite E. eexists. split; [reflexivity|done].
Qed.
End Done.
