(* ===== verification/CacheRegister.v ===== *)
(** * CacheRegister: registering attributes, committing and reading

    An attribute that is registered is filled from the database, whose rows for it are
    the store's.  [commit_to] gives a committed cache.  A session of operations on a cache
    in progress is a sequence of steps ([p_step]); whatever the steps, what is committed
    agrees with the store, and reads of a committed cache are reads of the store. *)
From Stdlib Require Import ZArith Lia.
From stdpp Require Import base list numbers gmap sorting relations.
From S2P Require Import Prelude Upsert Cache CacheAgree CacheUpdate CacheTransact.
#[local] Open Scope Z_scope.

Section Register.
Context {V : Type} `{Countable V} {CX : CacheExternals (V := V)} {CL : CacheLaws (V := V)}.
Implicit Types (self : AttributeCaches (V := V)) (p : InProgressSQLiteAttributeCache (V := V)).
Implicit Types (S : Z → pairs (V := V)) (rows : list (Aev (V := V))) (sqlite : Connection (V := V)).
Variable topograph : Topograph.

(** The database answers the query for an attribute's rows with the store's. *)
Definition reads_attribute sqlite (at_ : Attribute) (a : Z) S : Prop :=
  ∃ rows, sqlite (SelectAttribute (fulltext at_) a) = Rows rows ∧ (∀ x, x ∈ rows → x.1.1 = a)
    ∧ ∀ e v, (a, e, v) ∈ rows ↔ S a e v.

Lemma all_taken a rows : (∀ x, x ∈ rows → x.1.1 = a) → dropped a rows = [] ∧ ∀ e v, (e, v) ∈ taken a rows ↔ (a, e, v) ∈ rows.
Proof.
  intros Hr. assert (Hd : dropped a rows = []).
  { clear H CX CL. induction rows as [|[ [b e] v] rows IH]; [done|]. cbn.
    pose proof (Hr (b, e, v) ltac:(by left)) as Hb. cbn in Hb. subst b. rewrite Z.eqb_refl. apply IH.
    intros x Hx. apply Hr. by right. }
  split; [done|]. intros e v. rewrite <- rows_of_in, rows_of_front, Hd. cbn. by rewrite app_nil_r.
Qed.

(** [repopulate]: the entries of the attribute are the store's pairs, or there are none
    and nothing is done. *)
Lemma repopulate_ok self sqlite a at_ S :
  topograph !! a = Some at_ → cached self a = true → valid at_ (S a) → reads_attribute sqlite at_ a S →
  ∃ self', repopulate self topograph sqlite a = Ret (self', None) ∧ same_elsewhere a self self'
    ∧ (entries_cached self → entries_cached self')
    ∧ ((self' = self ∧ ∀ e v, ¬ S a e v) ∨ ∀ fb, pairs_ok at_ self' fb a (S a)).
Proof.
  intros Ea Hc Hv (rows & Eq & Hr & HS). destruct (all_taken a rows Hr) as [Hd Ht].
  unfold repopulate, run_and_repopulate, run_query, attribute_for_causetid. rewrite Ea, Eq.
  unfold repopulate_from_aevt, accumulate_into_cache. destruct rows as [|[ [b e] v] rows].
  - exists self. split; [done|]. split; [by split_and!|]. split; [done|]. left. split; [done|].
    intros e v Hs%HS. by apply elem_of_nil in Hs.
  - pose proof (Hr (b, e, v) ltac:(by left)) as Hb. cbn in Hb. subst b.
    set (all := @cons (Aev (V := V)) (a, e, v) rows) in *.
    assert (Hev : ∃ self', accumulate_evs self None topograph all (Add true) = Ret (self', [])
      ∧ updated (Add true) at_ a (S a) all self self').
    { rewrite <- Hd. apply (accumulate_evs_ok self None topograph a e v rows (Add true) at_ (S a) (S a)); try done.
      intros [e' v'] Hx%Ht. by apply HS. }
    destruct Hev as (self' & Ev & He & Hp). exists self'. change (length all) with (Datatypes.S (length rows)).
    cbn [accumulate_loop]. fold all. rewrite Ev.
    cbn [mbind outcome_bind]. split_and!; [by destruct (length rows)|done|by eapply accumulate_evs_entries|].
    right. intros fb. eapply pairs_ok_ext; [|apply Hp]. intros e' v'. cbn beta. unfold after. rewrite Ht, HS.
    split; [by intros [ [? _]|?]|by right].
Qed.

(** The three registrations, by the directions asked for. *)
Definition grown p (a : Z) (gl gr : bool) : InProgressSQLiteAttributeCache (V := V) :=
  let o := if gr then with_reverse (overlay p) {[a]} else overlay p in
  mkInProgress (p_inner p) (if gl then with_lightlike o {[a]} else o)
    (if gl then unregistered_lightlike p ∖ {[a]} else unregistered_lightlike p)
    (if gr then unregistered_reverse p ∖ {[a]} else unregistered_reverse p).

Lemma grown_lightlike p a gl gr b : is_attribute_cached_lightlike (overlay (grown p a gl gr)) b
  = is_attribute_cached_lightlike (overlay p) b || gl && (b =? a).
Proof.
  unfold is_attribute_cached_lightlike. destruct gl, gr; cbn; rewrite ?orb_false_r; try done;
    destruct (Z.eqb_spec b a) as [->|]; rewrite ?orb_true_r, ?orb_false_r; repeat case_bool_decide; set_solver.
Qed.
Lemma grown_reverse p a gl gr b : is_attribute_cached_reverse (overlay (grown p a gl gr)) b
  = is_attribute_cached_reverse (overlay p) b || gr && (b =? a).
Proof.
  unfold is_attribute_cached_reverse. destruct gl, gr; cbn; rewrite ?orb_false_r; try done;
    destruct (Z.eqb_spec b a) as [->|]; rewrite ?orb_true_r, ?orb_false_r; repeat case_bool_decide; set_solver.
Qed.

Lemma grown_entries p a gl gr :
  single_vals (overlay (grown p a gl gr)) = single_vals (overlay p)
  ∧ multi_vals (overlay (grown p a gl gr)) = multi_vals (overlay p)
  ∧ unique_reverse (overlay (grown p a gl gr)) = unique_reverse (overlay p)
  ∧ non_unique_reverse (overlay (grown p a gl gr)) = non_unique_reverse (overlay p).
Proof. by destruct gl, gr. Qed.

(** What is not yet cached in a direction, and not below, holds nothing. *)
Lemma grown_ok p a gl gr fb at_ (P : pairs (V := V)) b :
  entries_cached (overlay p) →
  (gl = true → is_attribute_cached_lightlike (overlay p) a = false ∧ fb_lightlike fb a = None) →
  (gr = true → is_attribute_cached_reverse (overlay p) a = false ∧ fb_reverse fb a = None) →
  (b = a → (∀ e v, ¬ P e v)) →
  pairs_ok at_ (overlay p) fb b P → pairs_ok at_ (overlay (grown p a gl gr)) fb b P.
Proof.
  intros He Hl Hr HP [Pl Pr]. destruct (grown_entries p a gl gr) as (E1 & E2 & E3 & E4).
  assert (Hempty : ∀ (C : Type) `{CacheKind V C} (c : C), (∀ e v, ¬ holds c e v) → b = a → repr c P)
    by (intros C ??? c Hn Hb e v; split; [by intros ?%Hn|by intros ?%HP]).
  split; intros Ec.
  - rewrite grown_lightlike in Ec. unfold lightlike_ok, fmc, fsc in *. rewrite E1, E2.
    apply orb_true_iff in Ec as [Ec|[Hg ->%Z.eqb_eq]%andb_true_iff]; [exact (Pl Ec)|].
    destruct (Hl Hg) as [Hu ->]. destruct (proj1 (He a) Hu) as [H1 H2]. unfold entry_or. rewrite H1, H2. cbn.
    destruct (multival at_); (apply Hempty; [|done]); intros e v; cbn; rewrite lookup_empty; naive_solver.
  - rewrite grown_reverse in Ec. unfold reverse_ok, ruc, rnuc in *. rewrite E3, E4.
    apply orb_true_iff in Ec as [Ec|[Hg ->%Z.eqb_eq]%andb_true_iff]; [exact (Pr Ec)|].
    destruct (Hr Hg) as [Hu ->]. destruct (proj2 (He a) Hu) as [H1 H2]. unfold entry_or. rewrite H1, H2. cbn.
    destruct (unique at_); (apply Hempty; [|done]); intros e v; cbn; rewrite lookup_empty; naive_solver.
Qed.

(** What registering in the given directions needs: the attribute is not cached in them;
    when the database has no row of it, nor is it cached below. *)
Definition may_register p (a : Z) (gl gr : bool) S : Prop :=
  (gl = true → p_is_attribute_cached_lightlike p a = false)
  ∧ (gr = true → p_is_attribute_cached_reverse p a = false)
  ∧ ((∃ e v, S a e v) ∨ cached (p_inner p) a = false).

Lemma grown_lightlike_iff p S a gl gr : in_progress topograph p S → ∀ b,
  p_is_attribute_cached_lightlike (grown p a gl gr) b = is_attribute_cached_lightlike (overlay (grown p a gl gr)) b.
Proof.
  intros [_ _ Hl _ _ _ _] b. specialize (Hl b). rewrite grown_lightlike. unfold p_is_attribute_cached_lightlike in *.
  rewrite grown_lightlike. destruct gl; [|destruct gr; cbn in *; by rewrite !orb_false_r].
  destruct (Z.eqb_spec b a) as [->|Hne].
  - rewrite bool_decide_eq_false_2 by (destruct gr; cbn; set_solver). by rewrite !orb_true_r.
  - rewrite !andb_false_r, !orb_false_r. rewrite <- Hl at 2. f_equal.
    f_equal. apply bool_decide_ext. destruct gr; cbn; set_solver.
Qed.

Lemma grown_reverse_iff p S a gl gr : in_progress topograph p S → ∀ b,
  p_is_attribute_cached_reverse (grown p a gl gr) b = is_attribute_cached_reverse (overlay (grown p a gl gr)) b.
Proof.
  intros [_ _ _ Hl _ _ _] b. specialize (Hl b). rewrite grown_reverse. unfold p_is_attribute_cached_reverse in *.
  rewrite grown_reverse. destruct gr; [|destruct gl; cbn in *; by rewrite !orb_false_r].
  destruct (Z.eqb_spec b a) as [->|Hne].
  - rewrite bool_decide_eq_false_2 by (destruct gl; cbn; set_solver). by rewrite !orb_true_r.
  - rewrite !andb_false_r, !orb_false_r. rewrite <- Hl at 2. f_equal.
    f_equal. apply bool_decide_ext. destruct gl; cbn; set_solver.
Qed.

Lemma grown_entries_cached p a gl gr : entries_cached (overlay p) → entries_cached (overlay (grown p a gl gr)).
Proof.
  intros He b. destruct (He b) as [Hl Hr]. rewrite grown_lightlike, grown_reverse.
  destruct (grown_entries p a gl gr) as (-> & -> & -> & ->).
  split; intros [Ec _]%orb_false_iff; auto.
Qed.

(** The attribute itself, when there is no row to fill it with. *)
Lemma grown_none_ok p S a at_ gl gr fb : in_progress topograph p S → topograph !! a = Some at_ →
  may_register p a gl gr S → (∀ e v, ¬ S a e v) → fb = None ∨ fb = Some (p_inner p) →
  ∀ b at_', (b = a → at_' = at_) → pairs_ok at_' (overlay p) fb b (S b) →
  pairs_ok at_' (overlay (grown p a gl gr)) fb b (S b).
Proof.
  intros [_ _ Hl Hr Ho _ _] Ea (Ml & Mr & Mi) HS Hfb b at_' _ Hp.
  destruct Mi as [(e & v & Hin)|[Il Ir]%orb_false_iff]; [by apply HS in Hin|].
  apply grown_ok; [done| | |by intros ->|done].
  - intros Hg. rewrite <- Hl. split; [by apply Ml|]. unfold fb_lightlike. destruct Hfb as [->| ->]; [done|by rewrite Il].
  - intros Hg. rewrite <- Hr. split; [by apply Mr|]. unfold fb_reverse. destruct Hfb as [->| ->]; [done|by rewrite Ir].
Qed.

(** Elsewhere nothing changes. *)
Lemma grown_other_ok p a gl gr fb at_ (P : pairs (V := V)) b : b ≠ a →
  pairs_ok at_ (overlay p) fb b P → pairs_ok at_ (overlay (grown p a gl gr)) fb b P.
Proof.
  intros Hne [Pl Pr]. destruct (grown_entries p a gl gr) as (E1 & E2 & E3 & E4).
  unfold pairs_ok, lightlike_ok, reverse_ok, fmc, fsc, ruc, rnuc in *. rewrite grown_lightlike, grown_reverse.
  rewrite (proj2 (Z.eqb_neq b a) Hne), !andb_false_r, !orb_false_r, E1, E2, E3, E4. done.
Qed.

(** The caches in progress with another overlay that caches the same attributes. *)
Definition with_overlay p o : InProgressSQLiteAttributeCache :=
  mkInProgress (p_inner p) o (unregistered_lightlike p) (unregistered_reverse p).

Lemma same_p_lightlike p o a b : same_elsewhere a (overlay p) o →
  p_is_attribute_cached_lightlike (with_overlay p o) b = p_is_attribute_cached_lightlike p b.
Proof.
  intros (_ & El & _). unfold p_is_attribute_cached_lightlike, is_attribute_cached_lightlike. cbn. by rewrite El.
Qed.
Lemma same_p_reverse p o a b : same_elsewhere a (overlay p) o →
  p_is_attribute_cached_reverse (with_overlay p o) b = p_is_attribute_cached_reverse p b.
Proof.
  intros (Er & _). unfold p_is_attribute_cached_reverse, is_attribute_cached_reverse. cbn. by rewrite Er.
Qed.

(** The overlay grown and filled keeps the invariant. *)
Lemma filled_ok p S a at_ gl gr o : in_progress topograph p S → topograph !! a = Some at_ →
  same_elsewhere a (overlay (grown p a gl gr)) o → entries_cached o →
  (∀ fb b at_', fb = None ∨ fb = Some (p_inner p) → topograph !! b = Some at_' →
    pairs_ok at_' (overlay p) fb b (S b) → pairs_ok at_' o fb b (S b)) →
  in_progress topograph (with_overlay (grown p a gl gr) o) S.
Proof.
  intros Hp Ea He Hoe Hall. pose proof He as (Er & El & _). set (g := grown p a gl gr) in *.
  assert (Hl : ∀ b, is_attribute_cached_lightlike o b = is_attribute_cached_lightlike (overlay g) b)
    by (intros b; unfold is_attribute_cached_lightlike; by rewrite El).
  assert (Hr : ∀ b, is_attribute_cached_reverse o b = is_attribute_cached_reverse (overlay g) b)
    by (intros b; unfold is_attribute_cached_reverse; by rewrite Er).
  split; cbn [overlay with_overlay p_inner].
  - intros b. unfold cached. rewrite Hl, Hr. unfold g. rewrite grown_lightlike, grown_reverse.
    destruct (Z.eqb_spec b a) as [->|Hne]; [by rewrite Ea|]. rewrite !andb_false_r, !orb_false_r.
    apply (ip_known _ _ _ Hp).
  - intros b at_' Eb. apply Hall; [by right|done|]. by apply (ip_agrees _ _ _ Hp).
  - intros b. rewrite Hl, (same_p_lightlike g o a b He). apply (grown_lightlike_iff p S a gl gr Hp).
  - intros b. rewrite Hr, (same_p_reverse g o a b He). apply (grown_reverse_iff p S a gl gr Hp).
  - exact Hoe.
  - apply (ip_inner _ _ _ Hp).
  - intros b at_' Eb Hin. apply Hall; [by left|done|]. apply (ip_fresh _ _ _ Hp); [done|].
    unfold g in Hin. destruct gl, gr; cbn in Hin; set_solver.
Qed.

Lemma register_ok sqlite p S a at_ gl gr :
  in_progress topograph p S → topograph !! a = Some at_ → valid at_ (S a) → reads_attribute sqlite at_ a S →
  gl || gr = true → may_register p a gl gr S →
  ∃ p', repopulate_overlay (grown p a gl gr) topograph sqlite a = Ret (p', None) ∧ in_progress topograph p' S
    ∧ p_is_attribute_cached_lightlike p' a = p_is_attribute_cached_lightlike p a || gl
    ∧ p_is_attribute_cached_reverse p' a = p_is_attribute_cached_reverse p a || gr.
Proof.
  intros Hp Ea Hv Hrd Hg Hm. set (g := grown p a gl gr).
  assert (Hc : cached (overlay g) a = true).
  { unfold cached, g. rewrite grown_lightlike, grown_reverse, Z.eqb_refl, !andb_true_r.
    destruct gl, gr; rewrite ?orb_true_r; done. }
  destruct (repopulate_ok (overlay g) sqlite a at_ S Ea Hc Hv Hrd) as (o & Eo & He & Hoe & Ho).
  unfold repopulate_overlay. rewrite Eo. exists (with_overlay g o). split; [reflexivity|].
  assert (Hall : ∀ fb b at_', fb = None ∨ fb = Some (p_inner p) → topograph !! b = Some at_' →
    pairs_ok at_' (overlay p) fb b (S b) → pairs_ok at_' o fb b (S b)).
  { intros fb b at_' Hfb Eb Hb. destruct (decide (b = a)) as [->|Hne].
    - rewrite Ea in Eb. injection Eb as <-. destruct Ho as [ [-> HS]|Ho]; [|apply Ho].
      by apply (grown_none_ok p S a at_).
    - eapply pairs_ok_elsewhere; [exact He|done|]. by apply grown_other_ok. }
  assert (Hoc : entries_cached o) by (apply Hoe, grown_entries_cached, (ip_overlay _ _ _ Hp)).
  split; [|split].
  - by eapply filled_ok.
  - rewrite (same_p_lightlike g o a a He). unfold g. rewrite (grown_lightlike_iff p S a gl gr Hp a).
    by rewrite grown_lightlike, (ip_lightlike _ _ _ Hp), Z.eqb_refl, andb_true_r.
  - rewrite (same_p_reverse g o a a He). unfold g. rewrite (grown_reverse_iff p S a gl gr Hp a).
    by rewrite grown_reverse, (ip_reverse _ _ _ Hp), Z.eqb_refl, andb_true_r.
Qed.
End Register.

Section Commit.
Context {V : Type} `{Countable V} {CX : CacheExternals (V := V)} {CL : CacheLaws (V := V)}.
Implicit Types (self c : AttributeCaches (V := V)) (p : InProgressSQLiteAttributeCache (V := V)).
Implicit Types (S : Z → pairs (V := V)) (rows : list (Aev (V := V))).
Variable topograph : Topograph.

(** The entry of an attribute, committed. *)
Lemma commit_entry {C} `{SelfAbsorb V C} (own dst res : gmap Z C) a d (fbm : option (gmap Z C)) (P : pairs) :
  extends dst own res → repr (entry_or own a fbm d) P →
  (own !! a = None → default d (fbm ≫= λ m, m !! a) = default d (dst !! a)) →
  repr (entry_or res a None d) P.
Proof.
  intros He Hr Hd. rewrite entry_or_none. specialize (He a). unfold entry_or in Hr.
  destruct (own !! a) as [c|].
  - destruct He as (c' & -> & Hc). intros e v. cbn. by rewrite Hc.
  - rewrite He, <- Hd by done. exact Hr.
Qed.

Lemma fold_unregister l : ∀ c a, let c' := fold_left unregister_attribute l c in
  if bool_decide (a ∈ l)
  then cached c' a = false ∧ single_vals c' !! a = None ∧ multi_vals c' !! a = None
    ∧ unique_reverse c' !! a = None ∧ non_unique_reverse c' !! a = None
  else is_attribute_cached_lightlike c' a = is_attribute_cached_lightlike c a
    ∧ is_attribute_cached_reverse c' a = is_attribute_cached_reverse c a
    ∧ single_vals c' !! a = single_vals c !! a ∧ multi_vals c' !! a = multi_vals c !! a
    ∧ unique_reverse c' !! a = unique_reverse c !! a ∧ non_unique_reverse c' !! a = non_unique_reverse c !! a.
Proof.
  induction l as [|b l IH]; intros c a; cbn zeta; [by rewrite bool_decide_eq_false_2 by apply not_elem_of_nil|].
  cbn [fold_left]. specialize (IH (unregister_attribute c b) a). cbn zeta in IH.
  destruct (bool_decide_reflect (a ∈ l)) as [Hl|Hl]; [by rewrite bool_decide_eq_true_2 by by right|].
  destruct IH as (El & Er & -> & -> & -> & ->). destruct (decide (a = b)) as [->|Hne].
  - rewrite bool_decide_eq_true_2 by by left. unfold cached. rewrite El, Er.
    pose proof (unregister_uncached (V := V) c b) as Hu. unfold cached in Hu. rewrite Hu. cbn.
    by rewrite !lookup_delete_eq.
  - rewrite bool_decide_eq_false_2 by by rewrite not_elem_of_cons.
    destruct (unregister_elsewhere c b a Hne) as (Ul & Ur & _). rewrite El, Er, Ul, Ur. cbn.
    by rewrite !lookup_delete_ne.
Qed.

(** The attributes that [commit_to] unregisters. *)
Definition dropped_attributes p : list Z :=
  merge_sort Z.le (elements (unregistered_lightlike p ∪ unregistered_reverse p)).

Lemma dropped_attributes_in p a : a ∈ dropped_attributes p ↔ a ∈ unregistered_lightlike p ∪ unregistered_reverse p.
Proof. unfold dropped_attributes. rewrite merge_sort_Permutation. apply elem_of_elements. Qed.

Lemma inner_cached_overlay p S a : in_progress topograph p S → a ∉ unregistered_lightlike p ∪ unregistered_reverse p →
  (is_attribute_cached_lightlike (p_inner p) a = true → is_attribute_cached_lightlike (overlay p) a = true)
  ∧ (is_attribute_cached_reverse (p_inner p) a = true → is_attribute_cached_reverse (overlay p) a = true).
Proof.
  intros Hp Hn. split; intros E.
  - rewrite <- (ip_lightlike _ _ _ Hp). unfold p_is_attribute_cached_lightlike. rewrite E.
    rewrite bool_decide_eq_false_2 by set_solver. done.
  - rewrite <- (ip_reverse _ _ _ Hp). unfold p_is_attribute_cached_reverse. rewrite E.
    rewrite bool_decide_eq_false_2 by set_solver. done.
Qed.

(** What the entry of the overlay would be copied from is what the destination has. *)
Definition below p S a : option (AttributeCaches (V := V)) :=
  if bool_decide (a ∈ dropped_attributes p) then None else Some (p_inner p).

Lemma agrees_below p S a at_ : in_progress topograph p S → topograph !! a = Some at_ →
  pairs_ok at_ (overlay p) (below p S a) a (S a).
Proof.
  intros Hp Ea. unfold below. case_bool_decide as Hd.
  - apply (ip_fresh _ _ _ Hp); [done|]. by apply dropped_attributes_in.
  - by apply (ip_agrees _ _ _ Hp).
Qed.

Lemma committed_known p S c : in_progress topograph p S →
  (∀ a, is_attribute_cached_lightlike c a = is_attribute_cached_lightlike (overlay p) a
    ∧ is_attribute_cached_reverse c a = is_attribute_cached_reverse (overlay p) a) → known topograph c.
Proof. intros Hp Hc a. unfold cached. destruct (Hc a) as [-> ->]. apply (ip_known _ _ _ Hp). Qed.

(** A destination that caches nothing takes the overlay. *)
Lemma overlay_committed p S : in_progress topograph p S →
  (∀ a, cached (p_inner p) a = false) → committed topograph (overlay p) S.
Proof.
  intros Hp Hn. split; [apply (ip_known _ _ _ Hp)| |apply (ip_overlay _ _ _ Hp)].
  intros a at_ Ea. destruct (ip_agrees _ _ _ Hp a at_ Ea) as [Hl Hr].
  destruct (proj1 (orb_false_iff _ _) (Hn a)) as [Nl Nr].
  unfold pairs_ok, lightlike_ok, reverse_ok, fb_lightlike, fb_reverse in *. rewrite Nl in Hl. rewrite Nr in Hr. done.
Qed.

Definition destination p : AttributeCaches := fold_left unregister_attribute (dropped_attributes p) (p_inner p).

(** The cached attributes of what is committed are those of the overlay. *)
Lemma absorbed_cached p S c : in_progress topograph p S →
  reverse_cached_attributes c = reverse_cached_attributes (destination p) ∪ reverse_cached_attributes (overlay p) →
  lightlike_cached_attributes c = lightlike_cached_attributes (destination p) ∪ lightlike_cached_attributes (overlay p) →
  ∀ a, is_attribute_cached_lightlike c a = is_attribute_cached_lightlike (overlay p) a
    ∧ is_attribute_cached_reverse c a = is_attribute_cached_reverse (overlay p) a.
Proof.
  intros Hp Er El a. pose proof (fold_unregister (dropped_attributes p) (p_inner p) a) as Hd.
  cbn zeta in Hd. fold (destination p) in Hd.
  assert (Hin : (is_attribute_cached_lightlike (destination p) a = true → is_attribute_cached_lightlike (overlay p) a = true)
    ∧ (is_attribute_cached_reverse (destination p) a = true → is_attribute_cached_reverse (overlay p) a = true)).
  { destruct (bool_decide_reflect (a ∈ dropped_attributes p)) as [Hi|Hi].
    - destruct Hd as ([Dl Dr]%orb_false_iff & _). by rewrite Dl, Dr.
    - destruct Hd as (-> & -> & _). apply (inner_cached_overlay p S); [done|]. by rewrite <- dropped_attributes_in. }
  unfold is_attribute_cached_lightlike, is_attribute_cached_reverse in *. rewrite El, Er.
  destruct Hin as [Hl Hr]. rewrite !bool_decide_eq_true in Hl, Hr.
  split; apply bool_decide_ext; rewrite elem_of_union; tauto.
Qed.

Lemma absorbed_entries p S c : in_progress topograph p S →
  extends (single_vals (destination p)) (single_vals (overlay p)) (single_vals c) →
  extends (multi_vals (destination p)) (multi_vals (overlay p)) (multi_vals c) →
  extends (unique_reverse (destination p)) (unique_reverse (overlay p)) (unique_reverse c) →
  extends (non_unique_reverse (destination p)) (non_unique_reverse (overlay p)) (non_unique_reverse c) →
  (∀ a, is_attribute_cached_lightlike c a = is_attribute_cached_lightlike (overlay p) a
    ∧ is_attribute_cached_reverse c a = is_attribute_cached_reverse (overlay p) a) → entries_cached c.
Proof.
  intros Hp Es Em Eu En Hc a. destruct (Hc a) as [-> ->].
  destruct (ip_overlay _ _ _ Hp a) as [Ol Or]. destruct (ip_inner _ _ _ Hp a) as [Il Ir].
  pose proof (fold_unregister (dropped_attributes p) (p_inner p) a) as Hd. cbn zeta in Hd. fold (destination p) in Hd.
  specialize (Es a). specialize (Em a). specialize (Eu a). specialize (En a).
  destruct (bool_decide_reflect (a ∈ dropped_attributes p)) as [Hi|Hi].
  - destruct Hd as (_ & D1 & D2 & D3 & D4).
    split; intros E; [destruct (Ol E) as [O1 O2]|destruct (Or E) as [O1 O2]];
      rewrite O1, O2 in *; rewrite ?Es, ?Em, ?Eu, ?En; done.
  - destruct Hd as (_ & _ & D1 & D2 & D3 & D4).
    destruct (inner_cached_overlay p S a Hp) as [Hl Hr]; [by rewrite <- dropped_attributes_in|].
    split; intros E; [destruct (Ol E) as [O1 O2]|destruct (Or E) as [O1 O2]]; rewrite O1, O2 in *.
    + destruct Il as [I1 I2]; [|by rewrite Es, Em, D1, D2].
      apply not_true_iff_false. intros Hi'%Hl. by rewrite E in Hi'.
    + destruct Ir as [I1 I2]; [|by rewrite Eu, En, D3, D4].
      apply not_true_iff_false. intros Hi'%Hr. by rewrite E in Hi'.
Qed.

Lemma absorbed_committed p S c : in_progress topograph p S → caches_absorb (destination p) (overlay p) = Ret c →
  committed topograph c S.
Proof.
  intros Hp E. destruct (caches_absorb_ok (destination p) (overlay p)) as (c' & E' & Er & El & Es & Em & Eu & En).
  rewrite E in E'. injection E' as <-. pose proof (absorbed_cached p S c Hp Er El) as Hc.
  split; [by eapply committed_known| |by eapply absorbed_entries].
  intros a at_ Ea. destruct (agrees_below p S a at_ Hp Ea) as [Bl Br]. destruct (Hc a) as [Cl Cr].
  pose proof (fold_unregister (dropped_attributes p) (p_inner p) a) as Hd. cbn zeta in Hd. fold (destination p) in Hd.
  destruct (ip_inner _ _ _ Hp a) as [Il Ir].
  unfold pairs_ok, lightlike_ok, reverse_ok, fmc, fsc, ruc, rnuc in *. rewrite Cl, Cr.
  unfold below in *. split; intros Hx; [specialize (Bl Hx)|specialize (Br Hx)].
  - destruct (multival at_); (eapply commit_entry; [eassumption|exact Bl|]); intros _; case_bool_decide.
    1,3: destruct Hd as (_ & D1 & D2 & _); by rewrite ?D1, ?D2.
    all: destruct Hd as (_ & _ & D1 & D2 & _); rewrite ?D1, ?D2; cbn; unfold fb_lightlike;
      destruct (is_attribute_cached_lightlike (p_inner p) a); [done|]; destruct (Il eq_refl) as [I1 I2]; by rewrite ?I1, ?I2.
  - destruct (unique at_); (eapply commit_entry; [eassumption|exact Br|]); intros _; case_bool_decide.
    1,3: destruct Hd as (_ & _ & _ & D1 & D2); by rewrite ?D1, ?D2.
    all: destruct Hd as (_ & _ & _ & _ & D1 & D2); rewrite ?D1, ?D2; cbn; unfold fb_reverse;
      destruct (is_attribute_cached_reverse (p_inner p) a); [done|]; destruct (Ir eq_refl) as [I1 I2]; by rewrite ?I1, ?I2.
Qed.

Lemma commit_ok p S dest exclusive : in_progress topograph p S → inner dest = p_inner p →
  sqlite_has_cached_attributes dest = false ∨ exclusive = true →
  ∃ dest', commit_to p dest exclusive = Ret dest' ∧ committed topograph (inner dest') S
    ∧ ∀ a, is_attribute_cached_lightlike (inner dest') a = is_attribute_cached_lightlike (overlay p) a
      ∧ is_attribute_cached_reverse (inner dest') a = is_attribute_cached_reverse (overlay p) a.
Proof.
  intros Hp Ed Hx. unfold commit_to. destruct (sqlite_has_cached_attributes dest) eqn:Eh; cbn [negb].
  - destruct Hx as [|Hx]; [done|]. rewrite Ed. subst exclusive. change (fold_left _ _ (p_inner p)) with (destination p).
    destruct (caches_absorb_ok (destination p) (overlay p)) as (c & E & Er & El & _). rewrite E.
    eexists. split; [reflexivity|]. split; [exact (absorbed_committed p S c Hp E)|]. exact (absorbed_cached p S c Hp Er El).
  - eexists. split; [reflexivity|]. split; [|done]. apply overlay_committed; [done|].
    apply orb_false_iff in Eh as [El%negb_false_iff%bool_decide_eq_true Er%negb_false_iff%bool_decide_eq_true].
    intros a. rewrite <- Ed. unfold cached, is_attribute_cached_lightlike, is_attribute_cached_reverse.
    rewrite El, Er. by rewrite !bool_decide_eq_false_2 by set_solver.
Qed.
End Commit.
