(* ===== verification/CacheReads.v ===== *)
(** * CacheReads: reading the caches

    Reads of a committed cache are reads of the store.  Reads of a cache in progress look
    in the overlay and then below; they are exact as long as every key below that an
    overlay's entry was made from is a key of the entry ([reads_through]), but for
    single values, where a retracted value is still read from below. *)
From Stdlib Require Import ZArith Lia.
From stdpp Require Import base list numbers gmap sorting.
From S2P Require Import Prelude Upsert Cache CacheAgree CacheUpdate CacheTransact.
#[local] Open Scope Z_scope.

(** ** Keys *)

(** The keys of a cache, by the entity or the value; no operation but clearing loses one. *)
Class KeyedCache {V C : Type} `{CacheKind V C} := {
  mentions : C → Z → V → Prop;
  mentions_remove : ∀ c e v e' v', mentions c e' v' → mentions (remove_from c e v) e' v';
  mentions_acc : ∀ c e v e' v', mentions c e' v' → mentions (acc c e v) e' v';
}.

Section Keyed.
Context {V : Type} `{Countable V}.

Lemma insert_some `{Countable K} {A} (m : gmap K A) k k' (x : A) : is_Some (m !! k') → is_Some (<[k := x]> m !! k').
Proof. intros Hk. destruct (decide (k' = k)) as [->|]; [by rewrite lookup_insert_eq|by rewrite lookup_insert_ne]. Qed.

#[global] Program Instance keyed_mv : KeyedCache (C := MultiValAttributeCache (V := V)) :=
  {| mentions c e _ := is_Some (e_vs c !! e) |}.
Next Obligation.
  intros c e v e' v' Hk. unfold remove_from, remove_mv. destruct (e_vs c !! e); [by apply insert_some|done].
Qed.
Next Obligation. intros c e v e' v' Hk. by apply insert_some. Qed.

#[global] Program Instance keyed_nr : KeyedCache (C := NonUniqueReverseAttributeCache (V := V)) :=
  {| mentions c _ v := is_Some (v_es c !! v) |}.
Next Obligation.
  intros c e v e' v' Hk. unfold remove_from, remove_nr. destruct (v_es c !! v); [by apply insert_some|done].
Qed.
Next Obligation. intros c e v e' v' Hk. by apply insert_some. Qed.

#[global] Program Instance keyed_ur : KeyedCache (C := UniqueReverseAttributeCache (V := V)) :=
  {| mentions c _ v := is_Some (v_e c !! v) |}.
Next Obligation. intros c e v e' v' Hk. by apply insert_some. Qed.
Next Obligation. intros c e v e' v' Hk. by apply insert_some. Qed.

#[global] Program Instance keyed_sv {CX : CacheExternals (V := V)} {CL : CacheLaws (V := V)} :
  KeyedCache (C := SingleValAttributeCache (V := V)) := {| mentions c e _ := is_Some (e_v c !! e) |}.
Next Obligation. intros CX CL c e v e' v' Hk. by apply insert_some. Qed.
Next Obligation. intros CX CL c e v e' v' Hk. unfold acc, kind_sv. rewrite sv_set_eq. by apply insert_some. Qed.
End Keyed.

Section Through.
Context {V : Type} `{Countable V} {CX : CacheExternals (V := V)} {CL : CacheLaws (V := V)}.
Implicit Types (self inn : AttributeCaches (V := V)) (rows : list (Aev (V := V))).

(** Processing rows without replacing keeps what each row keeps. *)
Lemma by_behavior_keeps {S} (Q : S → Prop) b a rows (clear_s : S → S) (add remove : S → S * list Aev) f g s s' rows' :
  is_replacing b = false → (∀ s, add s = with_aev_iter a f rows s) → (∀ s, remove s = with_aev_iter a g rows s) →
  (∀ e v s, Q s → Q (f e v s)) → (∀ e v s, Q s → Q (g e v s)) →
  by_behavior b clear_s add remove s = (s', rows') → Q s → Q s'.
Proof.
  intros Hb Ha Hr Hf Hg E Hs.
  assert (Hfold : ∀ (h : S → Z * V → S) l, (∀ s x, Q s → Q (h s x)) → ∀ s, Q s → Q (fold_left h l s)).
  { intros h l Hh. induction l as [|x l IH]; intros s0 Hs0; cbn; auto. }
  destruct b as [ [|]|]; [done|..]; cbn in E; [rewrite Ha in E|rewrite Hr in E];
    rewrite with_aev_iter_fold in E; injection E as <- _; apply Hfold; auto.
Qed.

Lemma one_mentions {C} `{KeyedCache V C} b a rows (add remove : C → C * list Aev) c c' rows' :
  is_replacing b = false → (∀ c, add c = with_aev_iter a (λ e v c, acc c e v) rows c) →
  (∀ c, remove c = with_aev_iter a (λ e v c, remove_from c e v) rows c) →
  by_behavior b clear add remove c = (c', rows') → ∀ e v, mentions c e v → mentions c' e v.
Proof.
  intros Hb Ha Hr E e v. apply (by_behavior_keeps (λ c, mentions c e v) b a rows clear _ _ _ _ c c' rows' Hb Ha Hr); [..|done].
  - intros e' v' c0. apply mentions_acc.
  - intros e' v' c0. apply mentions_remove.
Qed.

Lemma both_mentions {F R} `{KeyedCache V F} `{KeyedCache V R} b a rows
    (add remove : F * R → (F * R) * list Aev) s s' rows' : is_replacing b = false →
  (∀ s, add s = with_aev_iter a (λ e v s, (acc s.1 e v, acc s.2 e v)) rows s) →
  (∀ s, remove s = with_aev_iter a (λ e v s, (remove_from s.1 e v, remove_from s.2 e v)) rows s) →
  by_behavior b clear_both add remove s = (s', rows') →
  ∀ e v, (mentions s.1 e v → mentions s'.1 e v) ∧ (mentions s.2 e v → mentions s'.2 e v).
Proof.
  intros Hb Ha Hr E e v. split.
  - apply (by_behavior_keeps (λ s, mentions s.1 e v) b a rows clear_both _ _ _ _ s s' rows' Hb Ha Hr); [..|done].
    + intros e' v' c0 Hm. cbn. by apply mentions_acc.
    + intros e' v' c0 Hm. cbn. by apply mentions_remove.
  - apply (by_behavior_keeps (λ s, mentions s.2 e v) b a rows clear_both _ _ _ _ s s' rows' Hb Ha Hr); [..|done].
    + intros e' v' c0 Hm. cbn. by apply mentions_acc.
    + intros e' v' c0 Hm. cbn. by apply mentions_remove.
Qed.

Definition entry_covers {C} `{KeyedCache V C} (own inn : gmap Z C) : Prop := ∀ a c c0,
  own !! a = Some c → inn !! a = Some c0 → ∀ e v, mentions c0 e v → mentions c e v.

Definition reads_through self inn : Prop :=
  entry_covers (single_vals self) (single_vals inn) ∧ entry_covers (multi_vals self) (multi_vals inn)
  ∧ entry_covers (unique_reverse self) (unique_reverse inn)
  ∧ entry_covers (non_unique_reverse self) (non_unique_reverse inn).

Lemma put_covers {C} `{KeyedCache V C} (own inn : gmap Z C) a fbm d c' :
  entry_covers own inn → (inn !! a = None ∨ fbm = Some inn) →
  (∀ e v, mentions (entry_or own a fbm d) e v → mentions c' e v) → entry_covers (<[a := c']> own) inn.
Proof.
  intros Ho Hf Hm b c c0 Eb Ei e v Hc. destruct (decide (b = a)) as [->|Hne].
  - rewrite lookup_insert_eq in Eb. injection Eb as <-. apply Hm. unfold entry_or.
    destruct (own !! a) as [c|] eqn:Eo; [by apply (Ho a c c0)|].
    destruct Hf as [Hf| ->]; [congruence|]. cbn. by rewrite Ei.
  - rewrite lookup_insert_ne in Eb by done. by apply (Ho b c c0).
Qed.

Lemma lightlike_covered inn a (b : bool) : entries_cached inn → b = true → let fb := if b && is_attribute_cached_lightlike inn a && true then Some inn else None in
  (single_vals inn !! a = None ∨ (single_vals <$> fb) = Some (single_vals inn))
  ∧ (multi_vals inn !! a = None ∨ (multi_vals <$> fb) = Some (multi_vals inn)).
Proof.
  intros He ->. cbn. destruct (is_attribute_cached_lightlike inn a) eqn:E; [by split; right|].
  destruct (proj1 (He a) E). by split; left.
Qed.
Lemma reverse_covered inn a (b : bool) : entries_cached inn → b = true → let fb := if b && is_attribute_cached_reverse inn a && true then Some inn else None in
  (unique_reverse inn !! a = None ∨ (unique_reverse <$> fb) = Some (unique_reverse inn))
  ∧ (non_unique_reverse inn !! a = None ∨ (non_unique_reverse <$> fb) = Some (non_unique_reverse inn)).
Proof.
  intros He ->. cbn. destruct (is_attribute_cached_reverse inn a) eqn:E; [by split; right|].
  destruct (proj2 (He a) E). by split; left.
Qed.

Lemma accumulate_evs_through self inn topograph rows b self' rows' :
  is_replacing b = false → entries_cached inn →
  accumulate_evs self (Some inn) topograph rows b = Ret (self', rows') →
  reads_through self inn → reads_through self' inn.
Proof.
  intros Hb He E Hthr. unfold accumulate_evs in E. rewrite Hb in E.
  destruct rows as [|[ [a e] v] rows]; [by injection E as <- _|].
  destruct (attribute_for_causetid topograph a) as [at_|]; [|by injection E as <- _].
  destruct (lightlike_covered inn a true He eq_refl) as [Ls Lm].
  destruct (reverse_covered inn a true He eq_refl) as [Ru Rn].
  destruct Hthr as (T1 & T2 & T3 & T4).
  destruct (is_attribute_cached_lightlike self a), (is_attribute_cached_reverse self a); [| | |done];
    destruct (multival at_), (unique at_); cbn beta iota zeta in E; cbn [negb andb] in *;
    match type of E with context [by_behavior ?b ?c ?add ?remove ?s] =>
      destruct (by_behavior b c add remove s) as [s' rs] eqn:Es end; injection E as <- _;
    unfold reads_through; cbn; split_and!; try done; (eapply put_covers; [done|eassumption|]); intros e' v' Hm.
  all: first [eapply one_mentions; [exact Hb| | |exact Es|exact Hm]; walks
             |refine (proj1 (both_mentions _ a _ _ _ _ _ _ Hb _ _ Es e' v') Hm); walks
             |refine (proj2 (both_mentions _ a _ _ _ _ _ _ Hb _ _ Es e' v') Hm); walks].
Qed.

Lemma accumulate_loop_through inn topograph b fuel : is_replacing b = false → entries_cached inn →
  ∀ self rows self', accumulate_loop fuel self (Some inn) topograph rows b = Ret self' →
  reads_through self inn → reads_through self' inn.
Proof.
  intros Hb He. induction fuel as [|fuel IH]; intros self [|r rows] self' E Hr; cbn [accumulate_loop] in E; try done.
  1,2: by injection E as <-.
  apply bind_Ret in E as ([self1 rows1] & E1 & E). by eapply IH, accumulate_evs_through.
Qed.

Lemma update_through self inn topograph r u self' : entries_cached inn →
  update_with_fallback self (Some inn) topograph r u = Ret self' → reads_through self inn → reads_through self' inn.
Proof.
  intros He (self1 & E1 & E2)%bind_Ret Hr.
  eapply accumulate_loop_through; [..|exact E2|]; [done|done|].
  by eapply accumulate_loop_through; [..|exact E1|].
Qed.

Lemma done_through p ts topograph w : entries_cached (p_inner p) → reads_through (overlay p) (p_inner p) →
  done (watch (transact_watcher p) ts) topograph = Ret w →
  reads_through (overlay (w_cache w)) (p_inner p).
Proof.
  intros He Hr (o & E & ->)%done_below. by eapply update_through.
Qed.
End Through.

(** ** Reading *)

Section Reading.
Context {V : Type} `{Countable V} {CX : CacheExternals (V := V)} {CL : CacheLaws (V := V)}.
Implicit Types (c : AttributeCaches (V := V)) (p : InProgressSQLiteAttributeCache (V := V)).
Implicit Types (S : Z → pairs (V := V)).
Variable topograph : Topograph.

(** A read of values or entities gives those of the store. *)
Definition exact_reads (at_ : Attribute) (a : Z) (P : pairs (V := V)) (lightlike reverse : bool)
    (locales : Z → option (list V)) (locale : Z → option V)
    (causetid : V → option Z) (causetids : V → option (gset Z)) : Prop :=
  (lightlike = true → if multival at_ then ∀ e v, v ∈ default [] (locales e) ↔ P e v
                      else ∀ e v, locale e = Some v ↔ P e v)
  ∧ (reverse = true → if unique at_ then ∀ e v, causetid v = Some e ↔ P e v
                      else ∀ e v, e ∈ default ∅ (causetids v) ↔ P e v).

Lemma repr_mv (c : MultiValAttributeCache (V := V)) (P : pairs) e v :
  repr c P → v ∈ default [] (e_vs c !! e) ↔ P e v.
Proof.
  intros Hc. rewrite <- (Hc e v). cbn. destruct (e_vs c !! e) as [vs|]; cbn; [naive_solver|].
  rewrite elem_of_nil. naive_solver.
Qed.
Lemma repr_nr (c : NonUniqueReverseAttributeCache (V := V)) (P : pairs) e v :
  repr c P → e ∈ default ∅ (v_es c !! v) ↔ P e v.
Proof.
  intros Hc. rewrite <- (Hc e v). cbn. destruct (v_es c !! v) as [es|]; cbn; [naive_solver|].
  rewrite elem_of_empty. naive_solver.
Qed.

(** What a committed cache answers: the entry's values. *)
Lemma read_locales c a at_ e : topograph !! a = Some at_ → multival at_ = true →
  get_causet_locales_for_causetid c topograph a e = (multi_vals c !! a ≫= λ m, e_vs m !! e).
Proof.
  intros Ea Em. unfold get_causet_locales_for_causetid, causet_locales_pairs, attribute_for_causetid.
  rewrite Ea. cbn. rewrite Em. by destruct (multi_vals c !! a).
Qed.
Lemma read_locale c a at_ e : topograph !! a = Some at_ → multival at_ = false →
  get_causet_locale_for_causetid c topograph a e = (m ← single_vals c !! a; o ← e_v m !! e; o).
Proof.
  intros Ea Em. unfold get_causet_locale_for_causetid, causet_locale_pairs, attribute_for_causetid.
  rewrite Ea. cbn. rewrite Em. destruct (single_vals c !! a) as [m|]; cbn; [|done]. by destruct (e_v m !! e) as [ [v|]|].
Qed.

Lemma committed_reads c S a at_ : committed topograph c S → topograph !! a = Some at_ →
  exact_reads at_ a (S a) (is_attribute_cached_lightlike c a) (is_attribute_cached_reverse c a)
    (get_causet_locales_for_causetid c topograph a) (get_causet_locale_for_causetid c topograph a)
    (get_causetid_for_causet_locale c a) (get_causetids_for_causet_locale c a).
Proof.
  intros [_ Ha _] Ea. destruct (Ha a at_ Ea) as [Hl Hr]. split; intros Hc; [specialize (Hl Hc)|specialize (Hr Hc)].
  - unfold fmc, fsc in Hl. cbn in Hl. destruct (multival at_) eqn:Em; intros e v; rewrite entry_or_none in Hl.
    + rewrite (read_locales c a at_ e Ea Em), <- (repr_mv _ _ e v Hl). by destruct (multi_vals c !! a).
    + rewrite (read_locale c a at_ e Ea Em), <- (Hl e v). cbn. destruct (single_vals c !! a) as [m|]; cbn; [|done].
      destruct (e_v m !! e) as [ [v'|]|]; cbn; naive_solver.
  - unfold ruc, rnuc in Hr. cbn in Hr. unfold get_causetid_for_causet_locale, get_causetids_for_causet_locale. rewrite Hc.
    destruct (unique at_) eqn:Eu; intros e v; rewrite entry_or_none in Hr.
    + rewrite <- (Hr e v). cbn. unfold get_e. destruct (unique_reverse c !! a) as [u|]; cbn; [|done].
      destruct (v_e u !! v) as [ [e'|]|]; cbn; naive_solver.
    + rewrite <- (repr_nr _ _ e v Hr). unfold get_es. by destruct (non_unique_reverse c !! a).
Qed.

(** The entry of the overlay, with all the keys below it, or the entry below. *)
Lemma layered {C} `{KeyedCache V C} (own inn : gmap Z C) (a : Z) (d : C) (fbm : option (gmap Z C)) (P : pairs (V := V)) :
  entry_covers own inn → repr (entry_or own a fbm d) P → (inn !! a = None ∧ fbm = None ∨ fbm = Some inn) →
  (∃ c : C, own !! a = Some c ∧ repr c P ∧ ∀ c0 : C, inn !! a = Some c0 → ∀ e v, mentions c0 e v → mentions c e v)
  ∨ own !! a = None ∧ repr (default d (inn !! a)) P.
Proof.
  intros Hc Hr Hf. unfold entry_or in Hr. destruct (own !! a) as [c|] eqn:Eo.
  - left. exists c. split_and!; [done..|]. intros c0 E0. by apply (Hc a).
  - right. split; [done|]. by destruct Hf as [ [-> ->]| ->].
Qed.

Lemma below_entries p S a : in_progress topograph p S →
  (single_vals (p_inner p) !! a = None ∧ single_vals <$> fb_lightlike (Some (p_inner p)) a = None
    ∨ single_vals <$> fb_lightlike (Some (p_inner p)) a = Some (single_vals (p_inner p)))
  ∧ (multi_vals (p_inner p) !! a = None ∧ multi_vals <$> fb_lightlike (Some (p_inner p)) a = None
    ∨ multi_vals <$> fb_lightlike (Some (p_inner p)) a = Some (multi_vals (p_inner p)))
  ∧ (unique_reverse (p_inner p) !! a = None ∧ unique_reverse <$> fb_reverse (Some (p_inner p)) a = None
    ∨ unique_reverse <$> fb_reverse (Some (p_inner p)) a = Some (unique_reverse (p_inner p)))
  ∧ (non_unique_reverse (p_inner p) !! a = None ∧ non_unique_reverse <$> fb_reverse (Some (p_inner p)) a = None
    ∨ non_unique_reverse <$> fb_reverse (Some (p_inner p)) a = Some (non_unique_reverse (p_inner p))).
Proof.
  intros Hp. destruct (ip_inner _ _ _ Hp a) as [Il Ir]. unfold fb_lightlike, fb_reverse.
  destruct (is_attribute_cached_lightlike (p_inner p) a); [|destruct (Il eq_refl)];
    (destruct (is_attribute_cached_reverse (p_inner p) a); [|destruct (Ir eq_refl)]); cbn; tauto.
Qed.

(** An attribute that is cached is not unregistered. *)
Lemma not_unregistered p a :
  (p_is_attribute_cached_lightlike p a = true → bool_decide (a ∈ unregistered_lightlike p) = false)
  ∧ (p_is_attribute_cached_reverse p a = true → bool_decide (a ∈ unregistered_reverse p) = false).
Proof. by split; intros [?%negb_true_iff _]%andb_true_iff. Qed.

Lemma inner_reverse p S a : in_progress topograph p S → is_attribute_cached_reverse (p_inner p) a = false →
  unique_reverse (p_inner p) !! a = None ∧ non_unique_reverse (p_inner p) !! a = None.
Proof. intros Hp. apply (ip_inner _ _ _ Hp a). Qed.

Lemma read_multi p S a at_ e v : in_progress topograph p S → reads_through (overlay p) (p_inner p) →
  topograph !! a = Some at_ → p_is_attribute_cached_lightlike p a = true → multival at_ = true →
  v ∈ default [] (p_get_causet_locales_for_causetid p topograph a e) ↔ S a e v.
Proof.
  intros Hp (_ & T2 & _) Ea Hc Em. destruct (ip_agrees _ _ _ Hp a at_ Ea) as [Hl _].
  unfold p_get_causet_locales_for_causetid. rewrite (proj1 (not_unregistered p a) Hc).
  rewrite !(read_locales _ a at_ e Ea Em). rewrite (ip_lightlike _ _ _ Hp) in Hc. specialize (Hl Hc). rewrite Em in Hl.
  destruct (below_entries p S a Hp) as (_ & Hb & _).
  destruct (layered _ _ a _ _ _ T2 Hl Hb) as [(c & -> & Hr & Hk)|[-> Hr] ].
  - rewrite <- (repr_mv c _ e v Hr). cbn. destruct (e_vs c !! e) as [vs|] eqn:Ee; [done|]. cbn.
    destruct (multi_vals (p_inner p) !! a) as [c0|]; cbn; [|done].
    destruct (e_vs c0 !! e) as [vs0|] eqn:E0; cbn; [|done].
    destruct (Hk c0 eq_refl e v) as [x Ex]; [cbn; by rewrite E0|]. congruence.
  - rewrite <- (repr_mv _ _ e v Hr). cbn. by destruct (multi_vals (p_inner p) !! a).
Qed.

Lemma read_unique p S a at_ e v : in_progress topograph p S → reads_through (overlay p) (p_inner p) →
  topograph !! a = Some at_ → p_is_attribute_cached_reverse p a = true → unique at_ = true →
  p_get_causetid_for_causet_locale p a v = Some e ↔ S a e v.
Proof.
  intros Hp (_ & _ & T3 & _) Ea Hc Eu. destruct (ip_agrees _ _ _ Hp a at_ Ea) as [_ Hl].
  unfold p_get_causetid_for_causet_locale. rewrite (proj2 (not_unregistered p a) Hc).
  rewrite (ip_reverse _ _ _ Hp) in Hc. specialize (Hl Hc). rewrite Eu in Hl.
  unfold get_causetid_for_causet_locale_if_present, get_causetid_for_causet_locale, lookup_v, get_e. rewrite Hc.
  assert (Hi : (if is_attribute_cached_reverse (p_inner p) a
                then u ← unique_reverse (p_inner p) !! a; o ← v_e u !! v; o else None)
               = (u ← unique_reverse (p_inner p) !! a; o ← v_e u !! v; o)).
  { destruct (is_attribute_cached_reverse (p_inner p) a) eqn:E; [done|].
    by destruct (inner_reverse p S a Hp E) as [-> _]. }
  rewrite Hi. clear Hi. destruct (below_entries p S a Hp) as (_ & _ & Hb & _).
  destruct (layered _ _ a _ _ _ T3 Hl Hb) as [(c & -> & Hr & Hk)|[-> Hr] ]; rewrite <- (Hr e v); cbn.
  - destruct (v_e c !! v) as [ [e'|]|] eqn:Ee; [naive_solver..|].
    destruct (unique_reverse (p_inner p) !! a) as [c0|]; cbn; [|done].
    destruct (v_e c0 !! v) as [o|] eqn:E0; cbn; [|done].
    destruct (Hk c0 eq_refl e v) as [x Ex]; [cbn; by rewrite E0|]. congruence.
  - destruct (unique_reverse (p_inner p) !! a) as [c0|]; cbn; [|by rewrite lookup_empty].
    destruct (v_e c0 !! v) as [ [e'|]|]; cbn; naive_solver.
Qed.

Lemma read_non_unique p S a at_ e v : in_progress topograph p S → reads_through (overlay p) (p_inner p) →
  topograph !! a = Some at_ → p_is_attribute_cached_reverse p a = true → unique at_ = false →
  e ∈ default ∅ (p_get_causetids_for_causet_locale p a v) ↔ S a e v.
Proof.
  intros Hp (_ & _ & _ & T4) Ea Hc Eu. destruct (ip_agrees _ _ _ Hp a at_ Ea) as [_ Hl].
  unfold p_get_causetids_for_causet_locale. rewrite (proj2 (not_unregistered p a) Hc).
  rewrite (ip_reverse _ _ _ Hp) in Hc. specialize (Hl Hc). rewrite Eu in Hl.
  unfold get_causetids_for_causet_locale, get_es. rewrite Hc.
  assert (Hi : (if is_attribute_cached_reverse (p_inner p) a
                then u ← non_unique_reverse (p_inner p) !! a; v_es u !! v else None)
               = (u ← non_unique_reverse (p_inner p) !! a; v_es u !! v)).
  { destruct (is_attribute_cached_reverse (p_inner p) a) eqn:E; [done|].
    by destruct (inner_reverse p S a Hp E) as [_ ->]. }
  rewrite Hi. clear Hi. destruct (below_entries p S a Hp) as (_ & _ & _ & Hb).
  destruct (layered _ _ a _ _ _ T4 Hl Hb) as [(c & -> & Hr & Hk)|[-> Hr] ]; rewrite <- (repr_nr _ _ e v Hr); cbn.
  - destruct (v_es c !! v) as [es|] eqn:Ee; cbn; [done|].
    destruct (non_unique_reverse (p_inner p) !! a) as [c0|]; cbn; [|done].
    destruct (v_es c0 !! v) as [o|] eqn:E0; cbn; [|done].
    destruct (Hk c0 eq_refl e v) as [x Ex]; [cbn; by rewrite E0|]. congruence.
  - by destruct (non_unique_reverse (p_inner p) !! a).
Qed.

(** A single value: the overlay's, or what is below, also when the overlay knows that
    there is none any more. *)
Lemma read_single p S a at_ e : in_progress topograph p S →
  topograph !! a = Some at_ → p_is_attribute_cached_lightlike p a = true → multival at_ = false →
  (∀ v, S a e v → p_get_causet_locale_for_causetid p topograph a e = Some v)
  ∧ ((∀ v, ¬ S a e v) → p_get_causet_locale_for_causetid p topograph a e
      = get_causet_locale_for_causetid (p_inner p) topograph a e).
Proof.
  intros Hp Ea Hc Em. destruct (ip_agrees _ _ _ Hp a at_ Ea) as [Hl _].
  unfold p_get_causet_locale_for_causetid. rewrite (proj1 (not_unregistered p a) Hc).
  rewrite (ip_lightlike _ _ _ Hp) in Hc. specialize (Hl Hc). rewrite Em in Hl.
  destruct (below_entries p S a Hp) as (Hb & _).
  unfold get_causet_locale_for_causetid_if_present, causet_locale_pairs, attribute_for_causetid.
  rewrite !(read_locale _ a at_ e Ea Em), Ea. cbn. rewrite Em. unfold fsc, entry_or in Hl.
  destruct (single_vals (overlay p) !! a) as [c|]; cbn in *.
  - split; [intros v Hs%Hl; cbn in Hs; by rewrite Hs|]. intros Hn.
    destruct (e_v c !! e) as [ [v|]|] eqn:Ev; [|done..]. exfalso. apply (Hn v), Hl. exact Ev.
  - split; [|done]. intros v Hs%Hl. destruct Hb as [ [E0 Ef]|Ef]; rewrite Ef in Hs; cbn in Hs.
    + by rewrite lookup_empty in Hs.
    + destruct (single_vals (p_inner p) !! a) as [c0|]; cbn in *; [by rewrite Hs|by rewrite lookup_empty in Hs].
Qed.
End Reading.
