(* ===== verification/CacheSession.v ===== *)
(** * CacheSession: what the caches promise

    A session takes the committed caches, runs transactions, registers and unregisters
    attributes, and commits.  The theorems: no operation of a session panics; what is
    committed agrees with the store of the last transaction; what is read is what is
    stored; and the one read that is not.  One kind of session is left out of them, by
    [registrable]: an attribute that the committed caches hold is unregistered, loses its
    last row, and is registered again.  [stale_reregistration] shows that such a session
    commits the lost row. *)
From Stdlib Require Import ZArith Lia.
From stdpp Require Import base list numbers gmap relations.
From S2P Require Import Prelude Upsert Cache CacheAgree CacheUpdate CacheTransact CacheRegister CacheReads.
#[local] Open Scope Z_scope.

Section Session.
Context {V : Type} `{Countable V} {CX : CacheExternals (V := V)} {CL : CacheLaws (V := V)}.
Implicit Types (c : SQLiteAttributeCache (V := V)) (p : InProgressSQLiteAttributeCache (V := V)).
Implicit Types (S : Z → pairs (V := V)).

(** The state of a session: the caches in progress and the store. *)
Definition session : Type := InProgressSQLiteAttributeCache (V := V) * (Z → pairs (V := V)).

(** A transaction retracts what is stored and leaves a store that the schema admits. *)
Definition transaction (topograph : Topograph) (ts : list (WatchedTerm (V := V))) S S' : Prop :=
  (∀ a e v, (a, e, v) ∈ retracted ts → S a e v) ∧ transacts ts S S' ∧ valid_store topograph S'.

Inductive transact_step (topograph : Topograph) : session → session → Prop :=
| step_transact p S S' ts w :
    transaction topograph ts S S' → done (watch (transact_watcher p) ts) topograph = Ret w →
    transact_step topograph (p, S) (w_cache w, S').

(** An attribute is registered: the schema knows it and the database answers with its rows.
    There is at least one, or the committed caches do not hold the attribute, or it is
    cached as it is, in both directions, and there is nothing to do.  This excludes an
    attribute that the committed caches hold, that the session does not have cached in
    both directions (it was unregistered, say) and that has no row in the store: the
    registration then leaves nothing in the overlay, and the committed values, which the
    store need not have any more, are read again ([stale_reregistration]). *)
Definition registrable (topograph : Topograph) (sqlite : Connection) p S (a : Z) : Prop :=
  ∃ at_, topograph !! a = Some at_ ∧ reads_attribute sqlite at_ a S
    ∧ ((∃ e v, S a e v) ∨ cached (p_inner p) a = false
       ∨ p_is_attribute_cached_lightlike p a && p_is_attribute_cached_reverse p a = true).

Inductive p_step (topograph : Topograph) : session → session → Prop :=
| p_transact s s' : transact_step topograph s s' → p_step topograph s s'
| step_register_lightlike sqlite p p' S a : registrable topograph sqlite p S a →
    p_register_lightlike p topograph sqlite a = Ret (p', None) → p_step topograph (p, S) (p', S)
| step_register_reverse sqlite p p' S a : registrable topograph sqlite p S a →
    p_register_reverse p topograph sqlite a = Ret (p', None) → p_step topograph (p, S) (p', S)
| step_register sqlite p p' S a : registrable topograph sqlite p S a →
    p_register p topograph sqlite a = Ret (p', None) → p_step topograph (p, S) (p', S)
| step_unregister p S a : p_step topograph (p, S) (p_unregister p a, S)
| step_unregister_all p S : p_step topograph (p, S) (p_unregister_all p, S).

Definition session_ok (topograph : Topograph) (s : session) : Prop :=
  in_progress topograph s.1 s.2 ∧ valid_store topograph s.2.

Lemma transact_returns topograph p S S' ts : session_ok topograph (p, S) → transaction topograph ts S S' →
  ∃ w, done (watch (transact_watcher p) ts) topograph = Ret w ∧ session_ok topograph (w_cache w, S').
Proof.
  intros [Hp Hv] (HR & HS' & Hv'). destruct (watched_ok topograph p S S' ts) as (w & E & Hw); [done..|].
  by exists w.
Qed.

(** [register], by the directions that are left, is a growth of the overlay. *)
Lemma p_register_grown topograph sqlite p S a at_ : in_progress topograph p S → topograph !! a = Some at_ →
  let gl := negb (p_is_attribute_cached_lightlike p a) in let gr := negb (p_is_attribute_cached_reverse p a) in
  p_register p topograph sqlite a
  = if gl || gr then repopulate_overlay (grown p a gl gr) topograph sqlite a else Ret (p, None).
Proof.
  intros Hp Ea. unfold p_register, attribute_for_causetid. rewrite Ea.
  destruct (not_unregistered p a) as [Nl Nr].
  destruct (p_is_attribute_cached_lightlike p a) eqn:El, (p_is_attribute_cached_reverse p a) eqn:Er; cbn; [done|..];
    unfold grown; repeat f_equal; apply difference_disjoint_L;
    [specialize (Nl eq_refl); apply bool_decide_eq_false in Nl; set_solver
    |specialize (Nr eq_refl); apply bool_decide_eq_false in Nr; set_solver].
Qed.

Lemma register_grown_ok topograph sqlite p S a gl gr : session_ok topograph (p, S) → registrable topograph sqlite p S a →
  (gl = true → p_is_attribute_cached_lightlike p a = false) →
  (gr = true → p_is_attribute_cached_reverse p a = false) →
  ∃ p', (if gl || gr then repopulate_overlay (grown p a gl gr) topograph sqlite a else Ret (p, None)) = Ret (p', None)
    ∧ p_inner p' = p_inner p ∧ in_progress topograph p' S
    ∧ p_is_attribute_cached_lightlike p' a = p_is_attribute_cached_lightlike p a || gl
    ∧ p_is_attribute_cached_reverse p' a = p_is_attribute_cached_reverse p a || gr.
Proof.
  intros [Hp Hv] (at_ & Ea & Hrd & Hb) Hl Hr. cbn in Hp, Hv. destruct (gl || gr) eqn:Eg.
  - assert ((∃ e v, S a e v) ∨ cached (p_inner p) a = false) as Hb'.
    { destruct Hb as [?|[?|[Cl Cr]%andb_true_iff] ]; [by left|by right|]. exfalso.
      destruct gl; [by rewrite (Hl eq_refl) in Cl|]. by rewrite (Hr Eg) in Cr. }
    destruct (register_ok topograph sqlite p S a at_ gl gr) as (p' & E & Hp' & Hrest); [done..|by apply Hv|done|done|done|].
    exists p'. split; [exact E|]. split; [|done].
    unfold repopulate_overlay in E. apply bind_Ret in E as ([o e] & _ & E). by injection E as <- _.
  - apply orb_false_iff in Eg as [-> ->]. exists p. by rewrite !orb_false_r.
Qed.

Lemma register_returns topograph sqlite p S a : session_ok topograph (p, S) → registrable topograph sqlite p S a →
  (∃ p', p_register_lightlike p topograph sqlite a = Ret (p', None) ∧ p_inner p' = p_inner p
    ∧ in_progress topograph p' S ∧ p_is_attribute_cached_lightlike p' a = true)
  ∧ (∃ p', p_register_reverse p topograph sqlite a = Ret (p', None) ∧ p_inner p' = p_inner p
    ∧ in_progress topograph p' S ∧ p_is_attribute_cached_reverse p' a = true)
  ∧ (∃ p', p_register p topograph sqlite a = Ret (p', None) ∧ p_inner p' = p_inner p ∧ in_progress topograph p' S
    ∧ p_is_attribute_cached_lightlike p' a = true ∧ p_is_attribute_cached_reverse p' a = true).
Proof.
  intros Hs Hreg. assert (Hg := λ gl gr, register_grown_ok topograph sqlite p S a gl gr Hs Hreg).
  destruct Hs as [Hp _], Hreg as (at_ & Ea & _). cbn in Hp. split_and!.
  - unfold p_register_lightlike, attribute_for_causetid. rewrite Ea.
    destruct (p_is_attribute_cached_lightlike p a) eqn:El; [by exists p|].
    destruct (Hg true false) as (p' & E & Hi & Hp' & Hl & _); [done..|]. by exists p'.
  - unfold p_register_reverse, attribute_for_causetid. rewrite Ea.
    destruct (p_is_attribute_cached_reverse p a) eqn:El; [by exists p|].
    destruct (Hg false true) as (p' & E & Hi & Hp' & _ & Hr); [done..|]. by exists p'.
  - rewrite (p_register_grown topograph sqlite p S a at_ Hp Ea).
    destruct (Hg (negb (p_is_attribute_cached_lightlike p a)) (negb (p_is_attribute_cached_reverse p a)))
      as (p' & E & Hi & Hp' & Hl & Hr); [by intros ?%negb_true_iff..|].
    exists p'. rewrite Hl, Hr, !orb_negb_r. by split_and!.
Qed.

Lemma p_step_ok topograph s s' : p_step topograph s s' → session_ok topograph s →
  session_ok topograph s' ∧ p_inner s'.1 = p_inner s.1.
Proof.
  intros Hstep Hs. destruct Hstep as [s s' [p S S' ts w Ht E] | sqlite p p' S a Hr E | sqlite p p' S a Hr E
    | sqlite p p' S a Hr E | p S a | p S].
  - destruct (transact_returns topograph p S S' ts Hs Ht) as (w' & E' & Hw). rewrite E in E'. injection E' as <-.
    split; [done|]. cbn.
    by destruct (done_below topograph p ts w E) as (o & _ & ->).
  - destruct (register_returns topograph sqlite p S a Hs Hr) as ((p1 & E' & Hi & Hp' & _) & _).
    rewrite E in E'. injection E' as <-. split; [|done]. split; [done|apply Hs].
  - destruct (register_returns topograph sqlite p S a Hs Hr) as (_ & (p1 & E' & Hi & Hp' & _) & _).
    rewrite E in E'. injection E' as <-. split; [|done]. split; [done|apply Hs].
  - destruct (register_returns topograph sqlite p S a Hs Hr) as (_ & _ & (p1 & E' & Hi & Hp' & _)).
    rewrite E in E'. injection E' as <-. split; [|done]. split; [done|apply Hs].
  - split; [|done]. split; [|apply Hs]. apply p_unregister_ok, Hs.
  - split; [|done]. split; [|apply Hs]. apply p_unregister_all_ok, Hs.
Qed.

Lemma session_invariant topograph s s' : rtc (p_step topograph) s s' → session_ok topograph s →
  session_ok topograph s' ∧ p_inner s'.1 = p_inner s.1.
Proof.
  induction 1 as [s|s s1 s2 H1 _ IH]; intros Hs; [done|].
  destruct (p_step_ok topograph s s1 H1 Hs) as [Hs1 <-]. by apply IH.
Qed.

Lemma from_cache_through c : reads_through (overlay (from_cache c)) (p_inner (from_cache c)).
Proof. split_and!; intros a m m0 E; cbn in E; by rewrite lookup_empty in E. Qed.

Lemma transact_invariant topograph s s' : rtc (transact_step topograph) s s' →
  in_progress topograph s.1 s.2 → valid_store topograph s.2 → reads_through (overlay s.1) (p_inner s.1) →
  in_progress topograph s'.1 s'.2 ∧ p_inner s'.1 = p_inner s.1
  ∧ unregistered_lightlike s'.1 = unregistered_lightlike s.1 ∧ reads_through (overlay s'.1) (p_inner s'.1).
Proof.
  induction 1 as [s|s s1 s2 [p S S' ts w Ht E] _ IH]; intros Hp Hv Hr; [done|]. cbn in Hp, Hv, Hr.
  destruct (transact_returns topograph p S S' ts) as (w' & E' & [Hp' Hv']); [done..|].
  rewrite E in E'. injection E' as <-.
  pose proof (done_through p ts topograph w (ip_inner _ _ _ Hp) Hr E) as Hr'.
  destruct (done_below topograph p ts w E) as (o & _ & Ew). rewrite Ew in *. by apply IH.
Qed.

(** ** The promises *)

(** In a session no transaction and no registration of a [registrable] attribute panics or
    fails, and an attribute that was registered is cached. *)
Theorem session_never_panics topograph s : session_ok topograph s →
  (∀ ts S', transaction topograph ts s.2 S' → ∃ w, done (watch (transact_watcher s.1) ts) topograph = Ret w)
  ∧ ∀ sqlite a, registrable topograph sqlite s.1 s.2 a →
    (∃ p', p_register_lightlike s.1 topograph sqlite a = Ret (p', None) ∧ p_is_attribute_cached_lightlike p' a = true)
    ∧ (∃ p', p_register_reverse s.1 topograph sqlite a = Ret (p', None) ∧ p_is_attribute_cached_reverse p' a = true)
    ∧ (∃ p', p_register s.1 topograph sqlite a = Ret (p', None)
        ∧ p_is_attribute_cached_lightlike p' a = true ∧ p_is_attribute_cached_reverse p' a = true).
Proof.
  destruct s as [p S]. intros Hs. split.
  - intros ts S' Ht. destruct (transact_returns topograph p S S' ts Hs Ht) as (w & E & _). by exists w.
  - intros sqlite a Hr. destruct (register_returns topograph sqlite p S a Hs Hr) as
      ((p1 & E1 & _ & _ & H1) & (p2 & E2 & _ & _ & H2) & (p3 & E3 & _ & _ & H3)). split_and!; eauto.
Qed.

(** C13. What a session commits agrees with the store of its last transaction, and every
    read of an attribute that was cached at the end is a read of that store.  The session
    transacts, unregisters what it likes, and registers attributes of which the store has a
    row, or which the committed caches do not hold, or which are cached in both directions
    already.  A session that registers any other attribute, one without rows that the
    committed caches hold and the session has unregistered, is not covered: it may commit
    values that the store has lost ([stale_reregistration]). *)
Theorem session_commits topograph c S0 p S exclusive :
  committed topograph (inner c) S0 → valid_store topograph S0 →
  rtc (p_step topograph) (from_cache c, S0) (p, S) →
  sqlite_has_cached_attributes c = false ∨ exclusive = true →
  ∃ c', commit_to p c exclusive = Ret c' ∧ committed topograph (inner c') S
    ∧ ∀ a at_, topograph !! a = Some at_ →
        exact_reads at_ a (S a) (p_is_attribute_cached_lightlike p a) (p_is_attribute_cached_reverse p a)
          (get_causet_locales_for_causetid (inner c') topograph a) (get_causet_locale_for_causetid (inner c') topograph a)
          (get_causetid_for_causet_locale (inner c') a) (get_causetids_for_causet_locale (inner c') a).
Proof.
  intros Hc Hv Hsteps Hx. destruct (session_invariant topograph _ _ Hsteps) as [ [Hp _] Hi];
    [split; [by apply from_cache_ok|done]|]. cbn in Hp, Hi.
  destruct (commit_ok topograph p S c exclusive Hp (eq_sym Hi) Hx) as (c' & E & Hc' & Hcached).
  exists c'. split_and!; [done..|]. intros a at_ Ea. rewrite (ip_lightlike _ _ _ Hp), (ip_reverse _ _ _ Hp).
  destruct (Hcached a) as [<- <-]. by apply committed_reads.
Qed.

(** Between transactions, the caches in progress answer with the last store: multiple
    values, unique and other entities exactly, single values when there is one. *)
Theorem session_reads_exact topograph c S0 p S a at_ :
  committed topograph (inner c) S0 → valid_store topograph S0 →
  rtc (transact_step topograph) (from_cache c, S0) (p, S) → topograph !! a = Some at_ →
  (p_is_attribute_cached_lightlike p a = true → ∀ e v,
    if multival at_ then v ∈ default [] (p_get_causet_locales_for_causetid p topograph a e) ↔ S a e v
    else S a e v → p_get_causet_locale_for_causetid p topograph a e = Some v)
  ∧ (p_is_attribute_cached_reverse p a = true → ∀ e v,
      if unique at_ then p_get_causetid_for_causet_locale p a v = Some e ↔ S a e v
      else e ∈ default ∅ (p_get_causetids_for_causet_locale p a v) ↔ S a e v).
Proof.
  intros Hc Hv Hsteps Ea. destruct (transact_invariant topograph _ _ Hsteps) as (Hp & _ & _ & Ht).
  { by apply from_cache_ok. } { done. } { apply from_cache_through. }
  cbn in Hp, Ht. split; intros Hl e v.
  - destruct (multival at_) eqn:Em; [by eapply read_multi|]. by apply (read_single topograph p S a at_ e).
  - destruct (unique at_) eqn:Eu; [by eapply read_unique|by eapply read_non_unique].
Qed.

(** A single value that a transaction of the session retracts, and does not replace,
    is still read until the session commits. *)
Theorem retracted_value_still_read topograph c S0 p S a at_ e v :
  committed topograph (inner c) S0 → valid_store topograph S0 →
  rtc (transact_step topograph) (from_cache c, S0) (p, S) → topograph !! a = Some at_ →
  multival at_ = false → is_attribute_cached_lightlike (inner c) a = true →
  S0 a e v → (∀ v', ¬ S a e v') →
  p_get_causet_locale_for_causetid p topograph a e = Some v.
Proof.
  intros Hc Hv Hsteps Ea Em Hl Hs Hn. destruct (transact_invariant topograph _ _ Hsteps) as (Hp & Hi & Hu & _).
  { by apply from_cache_ok. } { done. } { apply from_cache_through. }
  cbn in Hp, Hi, Hu. assert (Hcached : p_is_attribute_cached_lightlike p a = true).
  { unfold p_is_attribute_cached_lightlike. rewrite Hu, Hi, Hl. by rewrite bool_decide_eq_false_2 by set_solver. }
  destruct (read_single topograph p S a at_ e Hp Ea Hcached Em) as [_ Hread]. rewrite (Hread Hn), Hi.
  destruct (committed_reads topograph (inner c) S0 a at_ Hc Ea) as [Hex _]. rewrite Em in Hex. by apply Hex.
Qed.

(** Updating caches on their own, with a transaction's rows for the attributes they
    cache, takes them from the store before to the store after. *)
Theorem update_exact topograph self retractions upserts S S' :
  committed topograph self S → valid_store topograph S → valid_store topograph S' →
  (∀ x, x ∈ retractions ++ upserts → cached self x.1.1 = true) →
  (∀ a e v, (a, e, v) ∈ retractions → S a e v) →
  (∀ a, cached self a = true →
    ∀ e v, S' a e v ↔ (S a e v ∧ (a, e, v) ∉ retractions) ∨ (a, e, v) ∈ upserts) →
  ∃ self', update self topograph retractions upserts = Ret self' ∧ committed topograph self' S'.
Proof.
  intros [Hk Ha He] Hv Hv' Hrows HR HS'.
  assert (Hrows' : ∀ x, x ∈ retractions ++ upserts → cached_row topograph self x).
  { intros x Hx. split; [apply Hk|]; by apply Hrows. }
  destruct (update_agrees topograph None self retractions upserts S S' Hv Hv' Ha Hrows' HR HS')
    as (o & Eo & El & Er & Hc).
  exists o. split; [exact Eo|]. split; [|intros a at_ Ea; by apply Hc, Ha|by eapply update_entries].
  intros a. unfold cached, is_attribute_cached_lightlike, is_attribute_cached_reverse. rewrite El, Er. apply Hk.
Qed.

Lemma unknown_never_consumed topograph fb b a e (v : V) rows fuel : topograph !! a = None →
  ∀ self, accumulate_loop fuel self fb topograph ((a, e, v) :: rows) b = Panic.
Proof.
  intros Ea. induction fuel as [|fuel IH]; intros self; [done|]. cbn [accumulate_loop].
  unfold accumulate_evs, attribute_for_causetid. rewrite Ea. apply IH.
Qed.

(** [register] of the committed caches does not ask whether the attribute is known; if it
    is not and the database has a row of it, the loop over the rows never ends, however
    many turns it is given. *)
Theorem register_unknown_never_returns topograph sqlite c a e v rows : topograph !! a = None →
  sqlite (SelectAttribute false a) = Rows ((a, e, v) :: rows) →
  (∀ fuel self, accumulate_loop fuel self None topograph ((a, e, v) :: rows) (Add true) = Panic)
  ∧ sqlite_register c topograph sqlite a = Panic.
Proof.
  intros Ea Eq. split; [intros fuel self; by apply unknown_never_consumed|].
  unfold sqlite_register, repopulated, repopulate, run_and_repopulate, run_query, attribute_for_causetid.
  rewrite Ea, Eq. unfold repopulate_from_aevt, accumulate_into_cache. by rewrite unknown_never_consumed.
Qed.
End Session.

Definition walk {V S : Type} (a : Z) (f : Z → V → S → S) (rows : list (Aev (V := V))) (s : S) : S * list (Aev (V := V)) :=
  (fold_left (λ s x, f x.1 x.2 s) (taken a rows) s, dropped a rows).

#[export] Instance sample_cache_externals {V} `{Countable V} : CacheExternals (V := V) := {|
  with_aev_iter := @walk V;
  sv_set c e v := mkSV (sv_attr c) (<[e := Some v]> (e_v c));
  accumulate_multi_val_evs_lightlike a rows f := walk a (λ e v f, mv_acc f e v) rows f;
  accumulate_multi_val_unique_evs_both a rows s := walk a (λ e v s, (mv_acc s.1 e v, ur_set s.2 e v)) rows s;
  accumulate_multi_val_non_unique_evs_both a rows s := walk a (λ e v s, (mv_acc s.1 e v, nr_acc s.2 e v)) rows s;
|}.

#[export] Instance sample_cache_laws {V} `{Countable V} : CacheLaws (V := V).
Proof. split; try done. intros S a f b e v rows s. cbn. unfold walk. cbn. by destruct (b =? a). Qed.

(** Attribute 1 has many values, each of one entity; attribute 2 has one value. *)
Definition sample_topograph : Topograph := {[1 := mkAttribute true true false; 2 := mkAttribute false false false]}.
Definition sample_rows : list (Aev (V := Z)) := [(1, 10, 100); (1, 10, 101); (2, 10, 7)].
Definition sample_rows' : list (Aev (V := Z)) := [(1, 10, 100); (1, 11, 102); (1, 10, 101)].
Definition sample_terms : list (WatchedTerm (V := Z)) := [(Retract, (2, 10, 7)); (Upsert.Add, (1, 11, 102))].
Definition store_of (rows : list (Aev (V := Z))) : Z → pairs (V := Z) := λ a e v, (a, e, v) ∈ rows.
Definition sample_sqlite : Connection (V := Z) := λ q,
  match q with SelectAttribute _ a => Rows (List.filter (λ x, x.1.1 =? a) sample_rows) | _ => QueryFailed end.

Definition got {A} (d : A) (o : outcome A) : A := match o with Ret a => a | Panic => d end.
Definition empty_cache : SQLiteAttributeCache (V := Z) := mkSQLite caches_default.
Definition sample_register (p : InProgressSQLiteAttributeCache (V := Z)) (a : Z) : InProgressSQLiteAttributeCache :=
  (got (p, None) (p_register p sample_topograph sample_sqlite a)).1.
Definition sample_p1 := sample_register (from_cache empty_cache) 1.
Definition sample_p2 := sample_register sample_p1 2.
Definition sample_cache := got empty_cache (commit_to sample_p2 empty_cache false).
Definition sample_done := got (transact_watcher sample_p2)
  (done (watch (transact_watcher sample_p2) sample_terms) sample_topograph).
Definition sample_done' := got (transact_watcher (from_cache sample_cache))
  (done (watch (transact_watcher (from_cache sample_cache)) sample_terms) sample_topograph).

Lemma sample_attributes a at_ : sample_topograph !! a = Some at_ →
  a = 1 ∧ at_ = mkAttribute true true false ∨ a = 2 ∧ at_ = mkAttribute false false false.
Proof.
  unfold sample_topograph. intros E. apply (lookup_insert_Some (M := gmap Z)) in E as [ [<- <-]|[_ E] ]; [by left|].
  apply (lookup_singleton_Some (M := gmap Z)) in E as [<- <-]. by right.
Qed.

Lemma store_of_in rows a e v : store_of rows a e v ↔ (a, e, v) ∈ rows.
Proof. done. Qed.

Ltac in_rows := unfold store_of, sample_rows, sample_rows' in *; rewrite ?elem_of_cons, ?elem_of_nil in *.

Lemma sample_valid : valid_store sample_topograph (store_of sample_rows).
Proof.
  intros a at_ [ [-> ->]|[-> ->] ]%sample_attributes; split; try done; intros _ e e' v; in_rows; naive_solver.
Qed.
Lemma sample_valid' : valid_store sample_topograph (store_of sample_rows').
Proof.
  intros a at_ [ [-> ->]|[-> ->] ]%sample_attributes; split; try done; intros _ e e' v; in_rows; naive_solver.
Qed.

Lemma sample_transaction : transaction sample_topograph sample_terms (store_of sample_rows) (store_of sample_rows').
Proof.
  split_and!; [| |apply sample_valid'].
  - intros a e v. cbn. in_rows. naive_solver.
  - intros a e v. cbn. in_rows. naive_solver.
Qed.

Lemma empty_committed S : committed sample_topograph (inner empty_cache) S.
Proof.
  split; [done| |].
  - intros a at_ _. by apply pairs_ok_uncached.
  - intros a. cbn. by rewrite !lookup_empty.
Qed.

Lemma sample_ok : session_ok sample_topograph (from_cache empty_cache, store_of sample_rows).
Proof. split; [apply from_cache_ok, empty_committed|apply sample_valid]. Qed.

Lemma sample_registrable p a at_ : sample_topograph !! a = Some at_ → p_inner p = caches_default →
  registrable sample_topograph sample_sqlite p (store_of sample_rows) a.
Proof.
  intros Ea Hp. exists at_. split; [done|]. split; [|right; left; by rewrite Hp].
  exists (List.filter (λ x, x.1.1 =? a) sample_rows). split; [done|]. split.
  - intros x [_ Hx%Z.eqb_eq]%list_elem_of_In%filter_In. done.
  - intros e v. rewrite list_elem_of_In, filter_In, <- list_elem_of_In, Z.eqb_refl. unfold store_of. tauto.
Qed.

Lemma sample_steps : rtc (p_step sample_topograph) (from_cache empty_cache, store_of sample_rows)
  (w_cache sample_done, store_of sample_rows').
Proof.
  eapply rtc_l; [eapply (step_register _ sample_sqlite _ sample_p1 _ 1)|];
    [by eapply sample_registrable|vm_compute; reflexivity|].
  eapply rtc_l; [eapply (step_register _ sample_sqlite _ sample_p2 _ 2)|];
    [by eapply sample_registrable|vm_compute; reflexivity|].
  apply rtc_once, p_transact, step_transact with sample_terms; [apply sample_transaction|vm_compute; reflexivity].
Qed.

(** A session from the cache that was committed. *)
Lemma sample_commits : committed sample_topograph (inner sample_cache) (store_of sample_rows)
  ∧ is_attribute_cached_lightlike (inner sample_cache) 2 = true.
Proof.
  assert (Hs : rtc (p_step sample_topograph) (from_cache empty_cache, store_of sample_rows) (sample_p2, store_of sample_rows)).
  { eapply rtc_l; [eapply (step_register _ sample_sqlite _ sample_p1 _ 1)|];
      [by eapply sample_registrable|vm_compute; reflexivity|].
    eapply rtc_once, (step_register _ sample_sqlite _ sample_p2 _ 2); [by eapply sample_registrable|vm_compute; reflexivity]. }
  destruct (session_invariant sample_topograph _ _ Hs sample_ok) as [ [Hp _] Hi].
  destruct (commit_ok sample_topograph sample_p2 (store_of sample_rows) empty_cache false Hp eq_refl) as (c' & E & Hc & _);
    [by left|].
  assert (E' : commit_to sample_p2 empty_cache false = Ret sample_cache) by (vm_compute; reflexivity).
  rewrite E' in E. injection E as <-. split; [done|]. vm_compute. reflexivity.
Qed.

Lemma sample_transacts : rtc (transact_step sample_topograph) (from_cache sample_cache, store_of sample_rows)
  (w_cache sample_done', store_of sample_rows').
Proof. apply rtc_once, step_transact with sample_terms; [apply sample_transaction|vm_compute; reflexivity]. Qed.

(** The session that [registrable] leaves out: attribute 2, committed with the value 7 for
    entity 10, is unregistered, its only value is retracted, and it is registered again while
    the store has no row of it.  No row comes from the database, so nothing covers the
    committed caches, and what is committed still reads 7. *)
Definition stale_sqlite : Connection (V := Z) := λ q,
  match q with SelectAttribute _ _ => Rows [] | _ => QueryFailed end.
Definition stale_unregistered := p_unregister (from_cache sample_cache) 2.
Definition stale_transacted := got (transact_watcher stale_unregistered)
  (done (watch (transact_watcher stale_unregistered) [(Retract, (2, 10, 7))]) sample_topograph).
Example stale_reregistration :
  ∃ p c', p_register (w_cache stale_transacted) sample_topograph stale_sqlite 2 = Ret (p, None)
    ∧ p_is_attribute_cached_lightlike p 2 = true ∧ commit_to p sample_cache true = Ret c'
    ∧ get_causet_locale_for_causetid (inner c') sample_topograph 2 10 = Some 7.
Proof. eexists _, _. split_and!; vm_compute; reflexivity. Qed.

Lemma session_never_panics_witness :
  (∃ w, done (watch (transact_watcher (from_cache empty_cache)) sample_terms) sample_topograph = Ret w)
  ∧ ∃ p', p_register (from_cache empty_cache) sample_topograph sample_sqlite 1 = Ret (p', None)
      ∧ p_is_attribute_cached_lightlike p' 1 = true ∧ p_is_attribute_cached_reverse p' 1 = true.
Proof.
  destruct (session_never_panics sample_topograph _ sample_ok) as [Ht Hr]. split.
  - exact (Ht sample_terms _ sample_transaction).
  - exact (proj2 (proj2 (Hr sample_sqlite 1 (sample_registrable (from_cache empty_cache) 1 _ eq_refl eq_refl)))).
Defined.

Lemma session_commits_witness : ∃ c', commit_to (w_cache sample_done) empty_cache false = Ret c'
  ∧ get_causet_locales_for_causetid (inner c') sample_topograph 1 11 = Some [102]
  ∧ committed sample_topograph (inner c') (store_of sample_rows').
Proof.
  destruct (session_commits sample_topograph empty_cache (store_of sample_rows) (w_cache sample_done)
    (store_of sample_rows') false (empty_committed _) sample_valid sample_steps (or_introl eq_refl)) as (c' & E & Hc & _).
  exists c'. split; [exact E|]. split; [|exact Hc].
  assert (E' : Ret c' = commit_to (w_cache sample_done) empty_cache false) by (symmetry; exact E).
  assert (Eg : got empty_cache (Ret c') = got empty_cache (commit_to (w_cache sample_done) empty_cache false)) by (by rewrite E').
  cbn [got] in Eg. rewrite Eg. vm_compute. reflexivity.
Defined.

Lemma session_reads_exact_witness :
  (102 ∈ default [] (p_get_causet_locales_for_causetid (w_cache sample_done') sample_topograph 1 11)
    ↔ store_of sample_rows' 1 11 102)
  ∧ (p_get_causetid_for_causet_locale (w_cache sample_done') 1 102 = Some 11 ↔ store_of sample_rows' 1 11 102).
Proof.
  destruct (session_reads_exact sample_topograph sample_cache (store_of sample_rows) (w_cache sample_done')
    (store_of sample_rows') 1 (mkAttribute true true false) (proj1 sample_commits) sample_valid sample_transacts eq_refl)
    as [Hl Hr].
  split; [apply (Hl ltac:(vm_compute; reflexivity) 11 102)|apply (Hr ltac:(vm_compute; reflexivity) 11 102)].
Defined.

Lemma retracted_value_still_read_witness :
  p_get_causet_locale_for_causetid (w_cache sample_done') sample_topograph 2 10 = Some 7.
Proof.
  apply (retracted_value_still_read sample_topograph sample_cache (store_of sample_rows) (w_cache sample_done')
    (store_of sample_rows') 2 (mkAttribute false false false) 10 7 (proj1 sample_commits) sample_valid sample_transacts
    eq_refl eq_refl (proj2 sample_commits)).
  - in_rows. naive_solver.
  - intros v. in_rows. naive_solver.
Defined.

Lemma update_exact_witness : ∃ self', update (inner sample_cache) sample_topograph [(2, 10, 7)] [(1, 11, 102)] = Ret self'
  ∧ committed sample_topograph self' (store_of sample_rows').
Proof.
  apply (update_exact sample_topograph (inner sample_cache) [(2, 10, 7)] [(1, 11, 102)] (store_of sample_rows)
    (store_of sample_rows') (proj1 sample_commits) sample_valid sample_valid').
  - intros x [-> |[-> |Hx%elem_of_nil]%elem_of_cons]%elem_of_cons; [vm_compute; reflexivity..|done].
  - intros a e v. in_rows. naive_solver.
  - intros a _ e v. in_rows. naive_solver.
Defined.

Lemma register_unknown_never_returns_witness : sqlite_register empty_cache ∅ sample_sqlite 2 = Panic.
Proof.
  exact (proj2 (register_unknown_never_returns ∅ sample_sqlite empty_cache 2 10 7 [] eq_refl eq_refl)).
Defined.
