(* ===== verification/Datum.v ===== *)
(** * Datum: dynamically typed values

    [DatumType] of [allegro_poset/datum.rs]: comparison across types, coercion and the
    checked arithmetic.  The time and JSON values, and the conversions of strings and
    floats, belong to parts that are not modelled here: they are the interface
    [Externals], which the definitions use and the laws below constrain where a
    theorem needs it.

    The enum is declared with constructors no match names ([CompactBytes], [Int],
    [UInt], [Rpc], [Blob]): a match without a default has no arm for them, and is
    [Panic] there. *)
From Stdlib Require Import ZArith Lia.
From stdpp Require Import base list numbers.
From S2P Require Import Prelude Words EvalCtx Slice DecimalBase DecimalAddSub DecimalMulDiv.
From S2P Require Import DecimalConv Duration ToInt Float.
#[local] Open Scope Z_scope.

(** ** The interface to strings, floats, times and JSON *)

Class Externals := {
  Time : Type;
  Json : Type;
  from_utf8 : list Z → result (list Z);
  parse_datetime : list Z → evalM Time;
  dur_parse : list Z → evalM Duration;
  bytes_to_f64 : list Z → evalM f64;
  bytes_to_int : list Z → FieldTypeTp → evalM Z;
  bytes_to_dec : list Z → evalM Decimal;
  dec_to_f64 : Decimal → result f64;
  dec_to_int : Decimal → FieldTypeTp → evalM Z;
  dur_to_f64 : Duration → result f64;
  dur_to_dec : Duration → result Decimal;
  dur_to_int : Duration → FieldTypeTp → evalM Z;
  f64_to_dec : f64 → evalM Decimal;
  f64_to_int : f64 → FieldTypeTp → evalM Z;
  f64_text : f64 → list Z;
  time_cmp : Time → Time → comparison;
  time_is_zero : Time → bool;
  time_fsp : Time → Z;
  time_to_dec : Time → evalM Decimal;
  time_to_f64 : Time → evalM f64;
  time_to_int : Time → FieldTypeTp → evalM Z;
  time_text : Time → list Z;
  json_cmp : Json → Json → comparison;
  json_none : result Json;
  json_from_i64 : Z → result Json;
  json_from_u64 : Z → result Json;
  json_from_f64 : f64 → result Json;
  json_from_string : list Z → result Json;
  json_parse : list Z → result Json;
  json_to_f64 : Json → evalM f64;
  json_to_int : Json → FieldTypeTp → evalM Z;
  json_text : Json → list Z;
}.

Section Datum.
Context {TP : TenPow} {X : Externals}.

Inductive DatumType : Type :=
| Null | CompactBytes | Int | UInt
| I64 (i : Z)
| U64 (u : Z)
| F64 (f : f64)
| Dur (d : Duration)
| Bytes (bs : list Z)
| Dec (d : Decimal)
| DTime (t : Time)
| Rpc (bs : list Z)
| Blob (bs : list Z)
| DJson (j : Json)
| Min
| Max.

(** ** Views *)

Definition as_int (v : DatumType) : result (option Z) :=
  match v with
  | Null => Ok None
  | I64 i => Ok (Some i)
  | U64 u => Ok (Some (as_i64 u))
  | _ => Err Other
  end.
Definition as_real (v : DatumType) : result (option f64) :=
  match v with Null => Ok None | F64 f => Ok (Some f) | _ => Err Other end.
Definition as_decimal (v : DatumType) : result (option Decimal) :=
  match v with Null => Ok None | Dec d => Ok (Some d) | _ => Err Other end.
Definition as_string (v : DatumType) : result (option (list Z)) :=
  match v with Null => Ok None | Bytes bs => Ok (Some bs) | _ => Err Other end.
Definition as_time (v : DatumType) : result (option Time) :=
  match v with Null => Ok None | DTime t => Ok (Some t) | _ => Err Other end.
Definition as_duration (v : DatumType) : result (option Duration) :=
  match v with Null => Ok None | Dur d => Ok (Some d) | _ => Err Other end.
Definition as_json (v : DatumType) : result (option Json) :=
  match v with Null => Ok None | DJson j => Ok (Some j) | _ => Err Other end.

(** [u as f64], [d.to_secs_f64()]. *)
Definition to_secs_f64 (d : Duration) : f64 := f64_div (f64_of_Z (nanos d)) (f64_of_Z NANOS_PER_SEC).

(** [to_string] *)
Definition int_display (z : Z) : list Z :=
  if z <? 0 then 45 :: pad_digits 20 1 (- z) [] else pad_digits 20 1 z [].

Definition datum_to_string (v : DatumType) : outcome (result (list Z)) :=
  match v with
  | I64 i => Ret (Ok (int_display i))
  | U64 u => Ret (Ok (int_display u))
  | F64 f => Ret (Ok (f64_text f))
  | Bytes bs => Ret (from_utf8 bs)
  | DTime t => Ret (Ok (time_text t))
  | Dur d => s ← dur_fmt d; Ret (Ok s)
  | Dec d => s ← dec_display d; Ret (Ok s)
  | DJson j => Ret (Ok (json_text j))
  | _ => Ret (Err InvalidDataType)
  end.

Definition into_string (v : DatumType) : outcome (result (list Z)) :=
  match v with
  | Bytes bs => Ret (from_utf8 bs)
  | _ => datum_to_string v
  end.

(** ** Comparison *)

(** [cmp_f64]: a NaN compares with nothing. *)
Definition cmp_f64 (l r : f64) : evalM comparison :=
  match f64_partial_cmp l r with
  | Some o => mret o
  | None => fail InvalidDataType
  end.

Definition self_cmp_f64 (v : DatumType) (f : f64) : evalM comparison :=
  match v with
  | Null | Min => mret Lt
  | Max => mret Gt
  | I64 i => cmp_f64 (f64_of_Z i) f
  | U64 u => cmp_f64 (f64_of_Z u) f
  | F64 ff => cmp_f64 ff f
  | Bytes bs => g ← bytes_to_f64 bs; cmp_f64 g f
  | Dec d => g ← lift_res (dec_to_f64 d); cmp_f64 g f
  | Dur d => cmp_f64 (to_secs_f64 d) f
  | DTime t => g ← time_to_f64 t; cmp_f64 g f
  | DJson _ => mret Lt
  | CompactBytes | Int | UInt | Rpc _ | Blob _ => lift_out Panic
  end.

Definition cmp_i64 (v : DatumType) (i : Z) : evalM comparison :=
  match v with
  | I64 ii => mret (ii ?= i)
  | U64 u => if (i <? 0) || (I64_MAX <? u) then mret Gt else mret (u ?= as_u64 i)
  | _ => self_cmp_f64 v (f64_of_Z i)
  end.

Definition cmp_u64 (v : DatumType) (u : Z) : evalM comparison :=
  match v with
  | I64 i => if (i <? 0) || (I64_MAX <? u) then mret Lt else mret (i ?= as_i64 u)
  | U64 uu => mret (uu ?= u)
  | _ => self_cmp_f64 v (f64_of_Z u)
  end.

(** [str::from_utf8(bs)?.parse::<Decimal>()?] *)
Definition parse_dec_text (bs : list Z) : evalM Decimal :=
  s ← lift_res (from_utf8 bs);
  r ← lift_out (from_str s);
  lift_res r.

Definition parse_time_text (bs : list Z) : evalM Time :=
  s ← lift_res (from_utf8 bs); parse_datetime s.

Definition cmp_bytes (v : DatumType) (bs : list Z) : evalM comparison :=
  match v with
  | Null | Min => mret Lt
  | Max => mret Gt
  | Bytes bss => mret (bytes_cmp bss bs)
  | Dec d => d2 ← parse_dec_text bs; lift_out (dec_cmp d d2)
  | DTime t => t2 ← parse_time_text bs; mret (time_cmp t t2)
  | Dur d => d2 ← dur_parse bs; mret (dur_cmp d d2)
  | _ => f ← bytes_to_f64 bs; self_cmp_f64 v f
  end.

Definition cmp_dec (v : DatumType) (dec : Decimal) : evalM comparison :=
  match v with
  | Dec d => lift_out (dec_cmp d dec)
  | Bytes bs => d ← parse_dec_text bs; lift_out (dec_cmp d dec)
  | _ => f ← lift_res (dec_to_f64 dec); self_cmp_f64 v f
  end.

Definition cmp_dur (v : DatumType) (d : Duration) : evalM comparison :=
  match v with
  | Dur d2 => mret (dur_cmp d2 d)
  | Bytes bs => d2 ← dur_parse bs; mret (dur_cmp d2 d)
  | _ => self_cmp_f64 v (to_secs_f64 d)
  end.

Definition cmp_time (v : DatumType) (time : Time) : evalM comparison :=
  match v with
  | Bytes bs => t ← parse_time_text bs; mret (time_cmp t time)
  | DTime t => mret (time_cmp t time)
  | _ => d ← time_to_dec time; f ← lift_res (dec_to_f64 d); self_cmp_f64 v f
  end.

Definition cmp_json (v : DatumType) (json : Json) : evalM comparison :=
  match v with
  | DJson j => mret (json_cmp j json)
  | I64 d => j ← lift_res (json_from_i64 d); mret (json_cmp j json)
  | U64 d => j ← lift_res (json_from_u64 d); mret (json_cmp j json)
  | F64 d => j ← lift_res (json_from_f64 d); mret (json_cmp j json)
  | Dec d => ff ← lift_res (dec_to_f64 d); j ← lift_res (json_from_f64 ff); mret (json_cmp j json)
  | Bytes d =>
      data ← lift_res (from_utf8 d); j ← lift_res (json_from_string data); mret (json_cmp j json)
  | _ =>
      r ← lift_out (datum_to_string v);
      j ← lift_res (json_from_string (match r with Ok s => s | Err _ => [] end));
      mret (json_cmp j json)
  end.

(** The match of [cmp] on the other datum. *)
Definition cmp_match (self datum : DatumType) : evalM comparison :=
  match datum with
  | Null => match self with Null => mret Eq | _ => mret Gt end
  | Min => match self with Null => mret Lt | Min => mret Eq | _ => mret Gt end
  | Max => match self with Max => mret Eq | _ => mret Lt end
  | I64 i => cmp_i64 self i
  | U64 u => cmp_u64 self u
  | F64 f => self_cmp_f64 self f
  | Bytes bs => cmp_bytes self bs
  | Dur d => cmp_dur self d
  | Dec d => cmp_dec self d
  | DTime t => cmp_time self t
  | DJson j => cmp_json self j
  | CompactBytes | Int | UInt | Rpc _ | Blob _ => lift_out Panic
  end.

(** [cmp]: JSON on the left is compared from the right. *)
Definition datum_cmp (self datum : DatumType) : evalM comparison :=
  match self, datum with
  | DJson _, DJson _ => cmp_match self datum
  | DJson _, _ => order ← cmp_match datum self; mret (CompOpp order)
  | _, _ => cmp_match self datum
  end.

(** ** Conversion and coercion *)

(** Work on a fresh default context, which is then dropped. *)
Definition in_default {A} (m : evalM A) : evalM A :=
  fun ctx => '(r, _) ← m (EvalContext_new PolicyGradient_new); Ret (r, ctx).

Definition into_bool (v : DatumType) : evalM (option bool) :=
  match v with
  | I64 i => mret (Some (negb (i =? 0)))
  | U64 u => mret (Some (negb (u =? 0)))
  | F64 f => mret (Some (negb (f64_is_zero (f64_round f))))
  | Bytes bs =>
      if bool_decide (bs = []) then mret (Some false)
      else i ← bytes_to_int bs TpLongLong; mret (Some (negb (i =? 0)))
  | DTime t => mret (Some (negb (time_is_zero t)))
  | Dur d => mret (Some (negb (dur_is_zero d)))
  | Dec d => f ← lift_res (dec_to_f64 d); mret (Some (negb (f64_is_zero (f64_round f))))
  | Null => mret None
  | _ => fail InvalidDataType
  end.

Definition into_f64 (v : DatumType) : evalM f64 :=
  match v with
  | I64 i => mret (f64_of_Z i)
  | U64 u => mret (f64_of_Z u)
  | F64 f => mret f
  | Bytes bs => bytes_to_f64 bs
  | DTime t => time_to_f64 t
  | Dur d => lift_res (dur_to_f64 d)
  | Dec d => lift_res (dec_to_f64 d)
  | DJson j => json_to_f64 j
  | _ => fail Other
  end.

Definition into_i64 (v : DatumType) : evalM Z :=
  let tp := TpLongLong in
  match v with
  | I64 i => mret i
  | U64 u => u64_to_int u tp
  | F64 f => f64_to_int f tp
  | Bytes bs => bytes_to_int bs tp
  | DTime t => time_to_int t tp
  | Dur d => dur_to_int d tp
  | Dec d => dec_to_int d tp
  | DJson j => json_to_int j tp
  | _ => fail Other
  end.

Definition into_arith (v : DatumType) : evalM DatumType :=
  match v with
  | Bytes bs => f ← bytes_to_f64 bs; mret (F64 f)
  | DTime t =>
      dec ← time_to_dec t;
      if time_fsp t =? 0 then r ← lift_out (dec_as_i64 dec); mret (I64 (res_val r)) else mret (Dec dec)
  | Dur d =>
      dec ← lift_res (dur_to_dec d);
      if fsp d =? 0 then r ← lift_out (dec_as_i64 dec); mret (I64 (res_val r)) else mret (Dec dec)
  | a => mret a
  end.

Definition coerce_to_dec (v : DatumType) : evalM DatumType :=
  match v with
  | I64 i => d ← lift_out (dec_from_i64 i); mret (Dec d)
  | U64 u => d ← lift_out (dec_from_u64 u); mret (Dec d)
  | F64 f => d ← in_default (f64_to_dec f); mret (Dec d)
  | Bytes bs => d ← in_default (bytes_to_dec bs); mret (Dec d)
  | Dec _ => mret v
  | _ => fail Other
  end.

Definition into_dec (v : DatumType) : evalM Decimal :=
  match v with
  | DTime t => in_default (time_to_dec t)
  | Dur d => lift_res (dur_to_dec d)
  | _ => d ← coerce_to_dec v; match d with Dec d => mret d | _ => fail Other end
  end.

Definition coerce_to_f64 (v : DatumType) : evalM DatumType :=
  match v with
  | I64 i => mret (F64 (f64_of_Z i))
  | U64 u => mret (F64 (f64_of_Z u))
  | Dec d => f ← lift_res (dec_to_f64 d); mret (F64 f)
  | a => mret a
  end.

Definition coerce (left right : DatumType) : evalM (DatumType * DatumType) :=
  match left, right with
  | Dec _, Dec _ | F64 _, F64 _ => mret (left, right)
  | F64 _, r => r ← coerce_to_f64 r; mret (left, r)
  | l, F64 _ => l ← coerce_to_f64 l; mret (l, right)
  | Dec _, r => r ← coerce_to_dec r; mret (left, r)
  | l, Dec _ => l ← coerce_to_dec l; mret (l, right)
  | _, _ => mret (left, right)
  end.

Definition cast_as_json (v : DatumType) : evalM Json :=
  match v with
  | Bytes bs => s ← lift_res (from_utf8 bs); lift_res (json_parse s)
  | I64 d => lift_res (json_from_i64 d)
  | U64 d => lift_res (json_from_u64 d)
  | F64 d => lift_res (json_from_f64 d)
  | Dec d => ff ← lift_res (dec_to_f64 d); lift_res (json_from_f64 ff)
  | DJson d => mret d
  | _ => r ← lift_out (into_string v); s ← lift_res r; lift_res (json_from_string s)
  end.

Definition into_json (v : DatumType) : evalM Json :=
  match v with
  | Null => lift_res json_none
  | Bytes bs => s ← lift_res (from_utf8 bs); lift_res (json_from_string s)
  | _ => cast_as_json v
  end.

(** ** Checked arithmetic *)

(** [From<Option<T>>]. *)
Definition opt_datum (f : Z → DatumType) (o : option Z) : DatumType :=
  match o with Some z => f z | None => Null end.

(** The magnitude of a negative [i64] as [u64]: [overCausetxctxing_neg().0 as u64]. *)
Definition neg_u64 (i : Z) : Z := as_u64 (as_i64 (- i)).

Definition checked_add_i64 (l r : Z) : outcome (option Z) :=
  if 0 <=? r then s ← u64 (l + r); Ret (Some s)
  else Ret (checked 0 U64_MAX (l - neg_u64 r)).

(** A [Null] result is an overflow. *)
Definition null_is_overflow (res : DatumType) : evalM DatumType :=
  match res with Null => fail Other | _ => mret res end.

Definition checked_div (v d : DatumType) : evalM DatumType :=
  match v with
  | F64 f =>
      f2 ← into_f64 d;
      if f64_is_zero f2 then mret Null else mret (F64 (f64_div f f2))
  | _ =>
      a ← into_dec v;
      b ← into_dec d;
      q ← lift_out (dec_div_op a b);
      match q with
      | None => mret Null
      | Some res => r ← lift_res (res_into res); mret (Dec r)
      end
  end.

Definition checked_add (v d : DatumType) : evalM DatumType :=
  match v, d with
  | I64 l, I64 r => null_is_overflow (opt_datum I64 (checked I64_MIN I64_MAX (l + r)))
  | I64 l, U64 r | U64 r, I64 l => o ← lift_out (checked_add_i64 r l); null_is_overflow (opt_datum U64 o)
  | U64 l, U64 r => null_is_overflow (opt_datum U64 (checked 0 U64_MAX (l + r)))
  | F64 l, F64 r =>
      let res := f64_add l r in
      null_is_overflow (if negb (f64_is_finite res) then Null else F64 res)
  | Dec l, Dec r => s ← lift_out (dec_add l r); dec ← lift_res (res_into s); mret (Dec dec)
  | _, _ => fail InvalidDataType
  end.

Definition checked_minus (v d : DatumType) : evalM DatumType :=
  match v, d with
  | I64 l, I64 r => null_is_overflow (opt_datum I64 (checked I64_MIN I64_MAX (l - r)))
  | I64 l, U64 r =>
      null_is_overflow (if l <? 0 then Null else opt_datum U64 (checked 0 U64_MAX (as_u64 l - r)))
  | U64 l, I64 r =>
      null_is_overflow (opt_datum U64 (if r <? 0 then checked 0 U64_MAX (l + neg_u64 r)
                                       else checked 0 U64_MAX (l - as_u64 r)))
  | U64 l, U64 r => null_is_overflow (opt_datum U64 (checked 0 U64_MAX (l - r)))
  | F64 l, F64 r => mret (F64 (f64_sub l r))
  | Dec l, Dec r => s ← lift_out (dec_sub l r); dec ← lift_res (res_into s); mret (Dec dec)
  | _, _ => fail InvalidDataType
  end.

Definition checked_mul (v d : DatumType) : evalM DatumType :=
  match v, d with
  | I64 l, I64 r => null_is_overflow (opt_datum I64 (checked I64_MIN I64_MAX (l * r)))
  | I64 l, U64 r | U64 r, I64 l =>
      if l <? 0 then fail Other
      else null_is_overflow (opt_datum U64 (checked 0 U64_MAX (r * as_u64 l)))
  | U64 l, U64 r => null_is_overflow (opt_datum U64 (checked 0 U64_MAX (l * r)))
  | F64 l, F64 r => mret (F64 (f64_mul l r))
  | Dec l, Dec r => p ← lift_out (dec_mul l r); mret (Dec (res_val p))
  | _, _ => fail InvalidDataType
  end.

(** [l % r] on [i64]: the quotient's overflow panics. *)
Definition i64_rem (l r : Z) : outcome Z :=
  if (r =? 0) || ((l =? I64_MIN) && (r =? -1)) then Panic else Ret (Z.rem l r).

(** [overCausetxctxing_abs().0]. *)
Definition wrapping_abs (i : Z) : Z := if i <? 0 then as_i64 (- i) else i.

Definition zero_divisor (d : DatumType) : bool :=
  match d with I64 i => i =? 0 | U64 u => u =? 0 | _ => false end.

Definition checked_rem (v d : DatumType) : evalM DatumType :=
  if zero_divisor d || match d with F64 f => f64_is_zero f | _ => false end then mret Null
  else
    match v, d with
    | I64 l, I64 r => m ← lift_out (i64_rem l r); mret (I64 m)
    | I64 l, U64 r =>
        if l <? 0 then m ← lift_out (i64 (- as_i64 (neg_u64 l mod r))); mret (I64 m)
        else mret (I64 (as_i64 (as_u64 l mod r)))
    | U64 l, I64 r => mret (U64 (l mod as_u64 (wrapping_abs r)))
    | U64 l, U64 r => mret (U64 (l mod r))
    | F64 l, F64 r => mret (F64 (f64_rem l r))
    | Dec l, Dec r =>
        q ← lift_out (dec_rem l r);
        match q with
        | None => mret Null
        | Some res => d ← lift_res (res_into res); mret (Dec d)
        end
    | _, _ => fail InvalidDataType
    end.

Definition checked_int_div (v datum : DatumType) : evalM DatumType :=
  if zero_divisor datum then mret Null
  else
    match v, datum with
    | I64 l, I64 r =>
        match checked I64_MIN I64_MAX (Z.quot l r) with
        | None => fail Other
        | Some res => mret (I64 res)
        end
    | I64 l, U64 r =>
        if l <? 0 then (if r <=? neg_u64 l then fail Other else mret (U64 0))
        else mret (U64 (as_u64 l / r))
    | U64 l, I64 r =>
        if r <? 0 then
          (if negb (l =? 0) && (neg_u64 r <=? l) then fail Other else mret (U64 0))
        else mret (U64 (l / as_u64 r))
    | U64 l, U64 r => mret (U64 (l / r))
    | _, _ =>
        a ← into_dec v;
        b ← into_dec datum;
        q ← lift_out (dec_div_op a b);
        match q with
        | None => mret Null
        | Some res => i ← lift_out (dec_as_i64 (res_val res)); mret (I64 (res_val i))
        end
    end.
End Datum.

(** ** Laws of the interface

    The orders of times and JSON values are antisymmetric; a time's decimal form does
    not depend on the context, and its float form is read off it. *)
Class ExternalLaws {X : Externals} := {
  time_cmp_antisym : ∀ t1 t2, time_cmp t2 t1 = CompOpp (time_cmp t1 t2);
  json_cmp_antisym : ∀ j1 j2, json_cmp j2 j1 = CompOpp (json_cmp j1 j2);
  time_dec : Time → result Decimal;
  time_to_dec_pure : ∀ t, time_to_dec t = lift_res (time_dec t);
  time_to_f64_dec : ∀ t, time_to_f64 t = (d ← time_to_dec t; lift_res (dec_to_f64 d));
}.

(** A concrete interface, for evaluation: times are integers, JSON values texts, and
    only integers convert. *)
Definition sample_externals : Externals := {|
  Time := Z;
  Json := list Z;
  from_utf8 := Ok;
  parse_datetime := fun _ => fail Other;
  dur_parse := fun _ => fail Other;
  bytes_to_f64 := fun _ => mret (f64_of_Z 0);
  bytes_to_int := fun _ _ => mret 0;
  bytes_to_dec := fun _ => mret dec_zero;
  dec_to_f64 := fun d => Ok (f64_of_Z (coeff d));
  dec_to_int := fun _ _ => fail Other;
  dur_to_f64 := fun d => Ok (f64_of_Z (nanos d));
  dur_to_dec := fun _ => Ok dec_zero;
  dur_to_int := fun _ _ => fail Other;
  f64_to_dec := fun _ => fail Other;
  f64_to_int := fun _ _ => fail Other;
  f64_text := fun _ => [];
  time_cmp := Z.compare;
  time_is_zero := Z.eqb 0;
  time_fsp := fun _ => 0;
  time_to_dec := fun _ => mret dec_zero;
  time_to_f64 := fun _ => mret (f64_of_Z 0);
  time_to_int := fun t _ => mret t;
  time_text := fun _ => [];
  json_cmp := bytes_cmp;
  json_none := Err Other;
  json_from_i64 := fun i => Ok [i];
  json_from_u64 := fun u => Ok [u];
  json_from_f64 := fun _ => Ok [];
  json_from_string := Ok;
  json_parse := Ok;
  json_to_f64 := fun _ => fail Other;
  json_to_int := fun _ _ => fail Other;
  json_text := fun j => j;
|}.

Definition sample_laws : @ExternalLaws sample_externals.
Proof.
  refine (@Build_ExternalLaws sample_externals _ _ (fun _ => Ok dec_zero) _ _); try done.
  - intros. apply Z.compare_antisym.
  - intros. apply bytes_cmp_antisym.
Defined.
