(* ===== verification/DatumArith.v ===== *)
(** * DatumArith: integer arithmetic and comparison of datums are exact

    The branches of [checked_add], [checked_minus], [checked_mul], [checked_rem],
    [checked_int_div] and [cmp] on signed and unsigned integers, in any mixture.
    Comparison, which goes through the type of its right operand, is antisymmetric across
    types. *)
From Stdlib Require Import ZArith Lia.
From stdpp Require Import base list numbers.
From S2P Require Import Prelude EvalCtx Slice DecimalBase DecimalAddSub DecimalCmp DecimalConv Duration ToInt Float Datum DecimalLoops.
#[local] Open Scope Z_scope.

Section Arith.
Context {TP : TenPow} {X : Externals}.

(** An integer datum: whether it is unsigned, and its value. *)
Definition num (v : DatumType) : option (bool * Z) :=
  match v with I64 i => Some (false, i) | U64 u => Some (true, u) | _ => None end.

Definition of_num (n : bool * Z) : DatumType := if n.1 then U64 n.2 else I64 n.2.
Definition num_wf (n : bool * Z) : Prop := if n.1 then is_u64 n.2 else is_i64 n.2.

#[export] Instance num_wf_dec n : Decision (num_wf n).
Proof. unfold num_wf, is_u64, is_i64. destruct n.1; apply _. Defined.

(** The result type of an operation: signed when both operands are, unsigned
    otherwise; a value that does not fit it is an overflow. *)
Definition fit (l r : bool * Z) (z : Z) : result DatumType :=
  let u := l.1 || r.1 in
  if decide (num_wf (u, z)) then Ok (of_num (u, z)) else Err Other.

Lemma neg_u64_eq i : I64_MIN <= i < 0 → neg_u64 i = - i.
Proof.
  unfold neg_u64, as_u64, as_i64. mach. intros Hi.
  destruct (Z.eq_dec i (-9223372036854775808)) as [->|]; [done|].
  rewrite (Z.mod_small (- i + _)) by lia. rewrite Z.add_simpl_r. by apply Z.mod_small; lia.
Qed.

Lemma wrapping_abs_u64 i : is_i64 i → as_u64 (wrapping_abs i) = Z.abs i.
Proof.
  unfold wrapping_abs. mach. intros Hi. destruct (Z.ltb_spec i 0).
  - rewrite Z.abs_neq by lia. apply neg_u64_eq. mach. lia.
  - rewrite as_u64_id by (mach; lia). lia.
Qed.

(** A checked machine operation is the fitted exact one. *)
Lemma checked_fit (u : bool) lo hi l r z ctx :
  l.1 || r.1 = u → (lo, hi) = (if u then (0, U64_MAX) else (I64_MIN, I64_MAX)) →
  null_is_overflow (opt_datum (if u then U64 else I64) (checked lo hi z)) ctx = Ret (fit l r z, ctx).
Proof.
  intros Hu Eb. unfold fit, num_wf. rewrite Hu. cbn [fst snd].
  destruct (checked lo hi z) as [z'|] eqn:E.
  - apply checked_Some in E as [-> Hz]. destruct u; injection Eb as -> ->;
      (rewrite decide_True by exact Hz); done.
  - apply checked_None in E. destruct u; injection Eb as -> ->;
      (rewrite decide_False by (mach; lia)); done.
Qed.

(** [checked_add] panics instead of reporting an overflow on a mixed pair. *)
Definition add_panics (l r : bool * Z) : bool := xorb l.1 r.1 && (U64_MAX <? l.2 + r.2).

(** Addition, subtraction and multiplication of integer datums, signed or
    unsigned in any mixture, give the exact result in the common type (signed only
    when both are), and an error when it does not fit.  Exceptions on mixed pairs:
    [checked_add] panics when the sum exceeds [u64], its helper adding unchecked, and
    [checked_mul] refuses every negative operand, even against zero. *)
Theorem int_ring_exact a b x y ctx : num a = Some x → num b = Some y → num_wf x → num_wf y →
  checked_add a b ctx = (if add_panics x y then Panic else Ret (fit x y (x.2 + y.2), ctx))
  ∧ checked_minus a b ctx = Ret (fit x y (x.2 - y.2), ctx)
  ∧ checked_mul a b ctx
    = Ret (if xorb x.1 y.1 && ((x.2 <? 0) || (y.2 <? 0)) then Err Other else fit x y (x.2 * y.2), ctx).
Proof.
  intros Ha Hb Hx Hy.
  assert (Hadd : ∀ u i, is_u64 u → is_i64 i → ∀ l r, l.1 || r.1 = true →
    (o ← lift_out (checked_add_i64 u i); null_is_overflow (opt_datum U64 o)) ctx
    = (if U64_MAX <? u + i then Panic else Ret (fit l r (u + i), ctx))).
  { intros u i Hu Hi l r Hlr. unfold checked_add_i64. destruct (Z.leb_spec 0 i).
    - destruct (Z.ltb_spec U64_MAX (u + i)).
      + unfold u64. by rewrite chk_panic by lia.
      + rewrite u64_ok by (mach; lia). cbn -[fit null_is_overflow]. rewrite <- (checked_fit true 0 U64_MAX l r (u + i)) by done.
        by rewrite (proj2 (checked_Some 0 U64_MAX (u + i) (u + i))) by (split; [done|mach; lia]).
    - rewrite neg_u64_eq by (mach; lia). rewrite (proj2 (Z.ltb_ge _ _)) by (mach; lia).
      replace (u - - i) with (u + i) by lia. by apply (checked_fit true). }
  destruct a; try discriminate Ha; injection Ha as <-; destruct b; try discriminate Hb; injection Hb as <-;
    unfold num_wf in Hx, Hy; cbn [fst snd] in *; unfold add_panics; cbn [fst snd xorb andb];
    unfold checked_add, checked_minus, checked_mul; (split; [|split]).
  - by apply (checked_fit false).
  - by apply (checked_fit false).
  - by apply (checked_fit false).
  - rewrite Z.add_comm. by apply Hadd.
  - destruct (Z.ltb_spec i 0).
    + rewrite <- (checked_fit true 0 U64_MAX) by done.
      by rewrite (proj2 (checked_None 0 U64_MAX _)) by (mach; lia).
    + rewrite as_u64_id by (mach; lia). by apply (checked_fit true).
  - rewrite (proj2 (Z.ltb_ge u 0)), orb_false_r by (mach; lia).
    destruct (Z.ltb_spec i 0); [done|]. rewrite as_u64_id, Z.mul_comm by (mach; lia).
    by apply (checked_fit true).
  - by apply Hadd.
  - destruct (Z.ltb_spec i 0).
    + rewrite neg_u64_eq by (mach; lia). replace (u + - i) with (u - i) by lia. by apply (checked_fit true).
    + rewrite as_u64_id by (mach; lia). by apply (checked_fit true).
  - rewrite (proj2 (Z.ltb_ge u 0)) by (mach; lia). cbn [orb].
    destruct (Z.ltb_spec i 0); [done|]. rewrite as_u64_id by (mach; lia).
    by apply (checked_fit true).
  - by apply (checked_fit true).
  - by apply (checked_fit true).
  - by apply (checked_fit true).
Qed.

(** The two remainders that overflow: [i64::MIN % -1], and [i64::MIN] by an unsigned
    divisor above 2^63, whose remainder cannot be negated. *)
Definition rem_panics (l r : bool * Z) : bool :=
  negb l.1 && (l.2 =? I64_MIN) && (if r.1 then 2 ^ 63 <? r.2 else r.2 =? -1).

Lemma rem_opp_mod l r : 0 <= l → 0 < r → Z.rem (- l) r = - (l mod r).
Proof. intros. rewrite Z.rem_opp_l by lia. by rewrite Z.rem_mod_nonneg by lia. Qed.

Lemma quot_opp_div l r : 0 <= l → 0 < r → Z.quot (- l) r = - (l / r).
Proof. intros. rewrite Z.quot_opp_l by lia. by rewrite Z.quot_div_nonneg by lia. Qed.

Lemma fit_in l r z : l.1 || r.1 = true → is_u64 z → fit l r z = Ok (U64 z).
Proof. intros E Hz. unfold fit. rewrite E. by rewrite decide_True by exact Hz. Qed.

Lemma fit_neg l r z : l.1 || r.1 = true → z < 0 → fit l r z = Err Other.
Proof.
  intros E Hz. unfold fit. rewrite E. rewrite decide_False; [done|].
  unfold num_wf. cbn. mach. lia.
Qed.

(** The quotient of two unsigned values is one. *)
Lemma div_u64 l r : is_u64 l → 0 < r → is_u64 (l / r).
Proof.
  mach. intros. split; [apply Z.div_pos; lia|].
  apply Z.le_trans with l; [apply Z.div_le_upper_bound; nia|lia].
Qed.

(** A signed value, divided or reduced by a positive one. *)
Lemma signed_rem i u : is_i64 i → is_u64 u → 0 < u →
  (if i <? 0 then i64 (- as_i64 (neg_u64 i mod u)) else Ret (as_i64 (as_u64 i mod u)))
  = (if (i =? I64_MIN) && (2 ^ 63 <? u) then Panic else Ret (Z.rem i u)).
Proof.
  intros Hi Hu Hp. destruct (Z.ltb_spec i 0).
  - rewrite neg_u64_eq by (mach; lia).
    pose proof (Z.mod_pos_bound (- i) u ltac:(lia)). pose proof (Z.mod_le (- i) u ltac:(lia) ltac:(lia)).
    replace (Z.rem i u) with (- (- i mod u)) by (rewrite <- rem_opp_mod by lia; f_equal; lia).
    destruct (Z.eqb_spec i I64_MIN) as [->|]; cbn [andb].
    + destruct (Z.ltb_spec (2 ^ 63) u).
      * rewrite Z.mod_small by (mach; lia). done.
      * rewrite as_i64_id by (mach; lia). by rewrite i64_ok by (mach; lia).
    + rewrite as_i64_id by (mach; lia). by rewrite i64_ok by (mach; lia).
  - rewrite (proj2 (Z.eqb_neq i I64_MIN)) by (mach; lia). cbn [andb].
    rewrite as_u64_id by (mach; lia). rewrite Z.rem_mod_nonneg by lia.
    pose proof (Z.mod_pos_bound i u ltac:(lia)). pose proof (Z.mod_le i u ltac:(lia) ltac:(lia)).
    by rewrite as_i64_id by (mach; lia).
Qed.

(** The remainder of integer datums: [Null] by zero; otherwise the exact remainder
    of the truncating division, in the dividend's type.  It panics on the operand
    pairs whose remainder overflows the machine operation, [i64::MIN % -1] and
    [i64::MIN] by an unsigned divisor above 2^63, and on no other. *)
Theorem int_rem_exact a b x y ctx : num a = Some x → num b = Some y → num_wf x → num_wf y →
  checked_rem a b ctx
  = (if y.2 =? 0 then Ret (Ok Null, ctx)
     else if rem_panics x y then Panic
     else Ret (Ok (of_num (x.1, Z.rem x.2 y.2)), ctx)).
Proof.
  intros Ha Hb Hx Hy.
  destruct a; try discriminate Ha; injection Ha as <-; destruct b; try discriminate Hb; injection Hb as <-;
    unfold num_wf in Hx, Hy; cbn [fst snd] in *; unfold rem_panics; cbn [fst snd negb andb];
    unfold checked_rem; cbn [zero_divisor]; rewrite ?orb_false_r;
    (match goal with |- context [?d =? 0] => destruct (Z.eqb_spec d 0) as [->|Hnz]; [done|] end).
  - unfold i64_rem. rewrite (proj2 (Z.eqb_neq _ _)) by done. cbn [orb].
    by destruct ((i =? I64_MIN) && (i0 =? -1)).
  - pose proof (signed_rem i u Hx Hy ltac:(mach; lia)) as Hr. destruct (i <? 0).
    + rewrite Hr. by destruct ((i =? I64_MIN) && (2 ^ 63 <? u)).
    + by destruct ((i =? I64_MIN) && (2 ^ 63 <? u)); [|injection Hr as ->].
  - rewrite wrapping_abs_u64 by done. rewrite <- Z.rem_mod_nonneg by (mach; lia).
    by rewrite Z.rem_abs_r by lia.
  - by rewrite Z.rem_mod_nonneg by (mach; lia).
Qed.

(** Integer division of integer datums: [Null] by zero; otherwise the exact
    truncated quotient in the common type, or an error when it does not fit. *)
Theorem int_div_datum_exact a b x y ctx : num a = Some x → num b = Some y → num_wf x → num_wf y →
  checked_int_div a b ctx
  = Ret (if y.2 =? 0 then Ok Null else fit x y (Z.quot x.2 y.2), ctx).
Proof.
  intros Ha Hb Hx Hy.
  destruct a; try discriminate Ha; injection Ha as <-; destruct b; try discriminate Hb; injection Hb as <-;
    unfold num_wf in Hx, Hy; cbn [fst snd] in *; unfold checked_int_div; cbn [zero_divisor];
    (match goal with |- context [?d =? 0] => destruct (Z.eqb_spec d 0) as [->|Hnz]; [done|] end).
  - rewrite <- (checked_fit false I64_MIN I64_MAX (false, i) (false, i0)) by done.
    by destruct (checked I64_MIN I64_MAX (Z.quot i i0)).
  - assert (0 < u) by (mach; lia). destruct (Z.ltb_spec i 0).
    + rewrite neg_u64_eq by (mach; lia). replace (Z.quot i u) with (- (- i / u))
        by (rewrite <- quot_opp_div by lia; f_equal; lia).
      destruct (Z.leb_spec u (- i)).
      * rewrite fit_neg; [done|done|]. pose proof (Z.div_str_pos (- i) u). lia.
      * rewrite Z.div_small by lia. by rewrite fit_in by (done || (mach; lia)).
    + rewrite as_u64_id by (mach; lia). rewrite Z.quot_div_nonneg by lia.
      rewrite fit_in; [done|done|]. apply div_u64; [mach; lia|lia].
  - destruct (Z.ltb_spec i 0).
    + rewrite neg_u64_eq by (mach; lia). replace (Z.quot u i) with (- (u / - i))
        by (rewrite <- Z.quot_div_nonneg by (mach; lia); rewrite Z.quot_opp_r by lia; lia).
      destruct (Z.eqb_spec u 0) as [->|]; cbn [negb andb].
      * rewrite Z.div_0_l by lia. by rewrite fit_in by (done || (mach; lia)).
      * destruct (Z.leb_spec (- i) u).
        -- rewrite fit_neg; [done|done|]. pose proof (Z.div_str_pos u (- i)). mach. lia.
        -- rewrite Z.div_small by (mach; lia). by rewrite fit_in by (done || (mach; lia)).
    + rewrite as_u64_id by (mach; lia). rewrite Z.quot_div_nonneg by (mach; lia).
      rewrite fit_in; [done|done|]. apply div_u64; [done|lia].
  - rewrite Z.quot_div_nonneg by (mach; lia). rewrite fit_in; [done|done|].
    apply div_u64; [done|mach; lia].
Qed.

(** Integer datums compare by value across signedness: a [u64] above [i64::MAX]
    is above every [i64], a negative [i64] below every [u64]. *)
Theorem int_cmp_exact a b x y ctx : num a = Some x → num b = Some y → num_wf x → num_wf y →
  datum_cmp a b ctx = Ret (Ok (x.2 ?= y.2), ctx).
Proof.
  intros Ha Hb Hx Hy.
  destruct a; try discriminate Ha; injection Ha as <-; destruct b; try discriminate Hb; injection Hb as <-;
    unfold num_wf in Hx, Hy; cbn [fst snd] in *; unfold datum_cmp, cmp_match, cmp_i64, cmp_u64;
    try reflexivity; mach;
    (destruct (Z.ltb_spec i 0); cbn [orb];
       [|destruct (Z.ltb_spec 9223372036854775807 u)]).
  - symmetry. rewrite (proj2 (Z.compare_lt_iff i u)) by lia. done.
  - symmetry. rewrite (proj2 (Z.compare_lt_iff i u)) by lia. done.
  - rewrite as_i64_id by (mach; lia). done.
  - symmetry. rewrite (proj2 (Z.compare_gt_iff u i)) by lia. done.
  - symmetry. rewrite (proj2 (Z.compare_gt_iff u i)) by lia. done.
  - rewrite as_u64_id by (mach; lia). done.
Qed.
End Arith.

(** ** Witnesses *)

#[local] Existing Instance ten_pow_table.
#[local] Existing Instance sample_externals.

Lemma int_ring_exact_witness :
  let ctx := EvalContext_new PolicyGradient_new in
  let a := U64 U64_MAX in let b := I64 (-1) in
  let x := (true, U64_MAX) in let y := (false, -1) in
  num a = Some x ∧ num b = Some y ∧ num_wf x ∧ num_wf y ∧
  (checked_add a b ctx = (if add_panics x y then Panic else Ret (fit x y (x.2 + y.2), ctx))
   ∧ checked_minus a b ctx = Ret (fit x y (x.2 - y.2), ctx)
   ∧ checked_mul a b ctx
     = Ret (if xorb x.1 y.1 && ((x.2 <? 0) || (y.2 <? 0)) then Err Other else fit x y (x.2 * y.2), ctx)).
Proof.
  intros ctx a b x y. assert (Hx : num_wf x) by (mach; cbn; mach; lia).
  assert (Hy : num_wf y) by (mach; cbn; mach; lia).
  split; [done|]. split; [done|]. split; [exact Hx|]. split; [exact Hy|].
  exact (int_ring_exact a b x y ctx eq_refl eq_refl Hx Hy).
Defined.

Lemma int_rem_exact_witness :
  let ctx := EvalContext_new PolicyGradient_new in
  let a := I64 (-7) in let b := U64 3 in
  let x := (false, -7) in let y := (true, 3) in
  num a = Some x ∧ num b = Some y ∧ num_wf x ∧ num_wf y ∧
  checked_rem a b ctx = (if y.2 =? 0 then Ret (Ok Null, ctx)
     else if rem_panics x y then Panic
     else Ret (Ok (of_num (x.1, Z.rem x.2 y.2)), ctx)).
Proof.
  intros ctx a b x y. assert (Hx : num_wf x) by (mach; cbn; mach; lia).
  assert (Hy : num_wf y) by (mach; cbn; mach; lia).
  split; [done|]. split; [done|]. split; [exact Hx|]. split; [exact Hy|].
  exact (int_rem_exact a b x y ctx eq_refl eq_refl Hx Hy).
Defined.

Lemma int_div_datum_exact_witness :
  let ctx := EvalContext_new PolicyGradient_new in
  let a := U64 7 in let b := I64 (-8) in
  let x := (true, 7) in let y := (false, -8) in
  num a = Some x ∧ num b = Some y ∧ num_wf x ∧ num_wf y ∧
  checked_int_div a b ctx = Ret (if y.2 =? 0 then Ok Null else fit x y (Z.quot x.2 y.2), ctx).
Proof.
  intros ctx a b x y. assert (Hx : num_wf x) by (mach; cbn; mach; lia).
  assert (Hy : num_wf y) by (mach; cbn; mach; lia).
  split; [done|]. split; [done|]. split; [exact Hx|]. split; [exact Hy|].
  exact (int_div_datum_exact a b x y ctx eq_refl eq_refl Hx Hy).
Defined.

Lemma int_cmp_exact_witness :
  let ctx := EvalContext_new PolicyGradient_new in
  let a := U64 U64_MAX in let b := I64 (-1) in
  let x := (true, U64_MAX) in let y := (false, -1) in
  num a = Some x ∧ num b = Some y ∧ num_wf x ∧ num_wf y ∧
  datum_cmp a b ctx = Ret (Ok (x.2 ?= y.2), ctx).
Proof.
  intros ctx a b x y. assert (Hx : num_wf x) by (mach; cbn; mach; lia).
  assert (Hy : num_wf y) by (mach; cbn; mach; lia).
  split; [done|]. split; [done|]. split; [exact Hx|]. split; [exact Hy|].
  exact (int_cmp_exact a b x y ctx eq_refl eq_refl Hx Hy).
Defined.

(** The panics exist. *)
Example int_panics :
  let ctx := EvalContext_new PolicyGradient_new in
  checked_add (U64 U64_MAX) (I64 1) ctx = Panic
  ∧ checked_rem (I64 I64_MIN) (I64 (-1)) ctx = Panic
  ∧ checked_rem (I64 I64_MIN) (U64 U64_MAX) ctx = Panic
  ∧ checked_mul (I64 (-1)) (U64 0) ctx = Ret (Err Other, ctx).
Proof. split; [reflexivity|]. split; [reflexivity|]. split; reflexivity. Qed.

Section Order.
Context {TP : TenPow} {X : Externals} {L : ExternalLaws}.

(** Two runs that both return give opposite answers. *)
Definition opposite (m n : evalM comparison) : Prop := ∀ ctx o1 c1 o2 c2,
  m ctx = Ret (Ok o1, c1) → n ctx = Ret (Ok o2, c2) → o2 = CompOpp o1.

Lemma opposite_sym m n : opposite m n → opposite n m.
Proof. intros H ctx o1 c1 o2 c2 E1 E2. rewrite (H ctx o2 c2 o1 c1 E2 E1). by rewrite CompOpp_involutive. Qed.

Lemma opposite_ret o1 o2 : o2 = CompOpp o1 → opposite (mret o1) (mret o2).
Proof. intros -> ctx ? ? ? ? [= <- <-] [= <- <-]. done. Qed.

(** The same first step on both sides. *)
Lemma opposite_bind {A} (m : evalM A) f g : (∀ a, opposite (f a) (g a)) → opposite (m ≫= f) (m ≫= g).
Proof.
  intros H ctx o1 c1 o2 c2. unfold mbind, evalM_bind. destruct (m ctx) as [ [ [a|e] c]|]; try done.
  apply H.
Qed.

(** A pure step on one side only. *)
Lemma opposite_lift_l {A} (r : result A) f n : (∀ a, r = Ok a → opposite (f a) n) →
  opposite (lift_res r ≫= f) n.
Proof.
  intros H ctx o1 c1 o2 c2. unfold mbind, evalM_bind, lift_res. destruct r as [a|e]; try done.
  by apply H.
Qed.
Lemma opposite_lift_r {A} (r : result A) m g : (∀ a, r = Ok a → opposite m (g a)) →
  opposite m (lift_res r ≫= g).
Proof. intros H. apply opposite_sym, opposite_lift_l. intros a E. by apply opposite_sym, H. Qed.

Lemma opposite_rev m : opposite m (o ← m; mret (CompOpp o)).
Proof.
  intros ctx o1 c1 o2 c2 E. unfold mbind, evalM_bind. rewrite E. by intros [= <- <-].
Qed.

Lemma opposite_f64 f g : opposite (cmp_f64 f g) (cmp_f64 g f).
Proof.
  unfold cmp_f64. rewrite (f64_partial_cmp_antisym f g).
  destruct (f64_partial_cmp f g); cbn; [by apply opposite_ret|].
  intros ctx ? ? ? ? E. discriminate E.
Qed.

Lemma dec_cmp_antisym d1 d2 : wf d1 → wf d2 →
  ∃ o, dec_cmp d1 d2 = Ret o ∧ dec_cmp d2 d1 = Ret (CompOpp o).
Proof.
  intros H1 H2. set (k := Z.max (frac_words d1) (frac_words d2)).
  rewrite (dec_cmp_at d1 d2 k), (dec_cmp_at d2 d1 k) by (done || lia).
  eexists. split; [done|]. f_equal. destruct (negative d1), (negative d2); cbn; try done;
    apply Z.compare_antisym.
Qed.

(** Payloads in their types' ranges, for the pairs where it matters; a decimal against
    a byte string, which is parsed as a decimal, is left out. *)
Definition comparable (a b : DatumType) : Prop :=
  match a, b with
  | Dec d1, Dec d2 => wf d1 ∧ wf d2
  | I64 i, U64 u | U64 u, I64 i => is_i64 i ∧ is_u64 u
  | Dec _, Bytes _ | Bytes _, Dec _ => False
  | _, _ => True
  end.

Lemma opposite_nested {A B} (r : result A) (h : A → evalM B) f n :
  (∀ a, r = Ok a → opposite (h a ≫= f) n) → opposite ((lift_res r ≫= h) ≫= f) n.
Proof.
  intros H ctx o1 c1 o2 c2 E. destruct r as [a|e]; [|discriminate E].
  exact (H a eq_refl ctx o1 c1 o2 c2 E).
Qed.

Lemma opposite_panic n : opposite (lift_out Panic) n.
Proof. intros ctx ? ? ? ? E. discriminate E. Qed.

(** Runs the two sides: the pure conversions of either, then the shared step. *)
Ltac run_sides :=
  rewrite ?time_to_f64_dec, ?time_to_dec_pure;
  repeat first
    [ apply opposite_panic | apply opposite_sym, opposite_panic
    | apply opposite_bind; intros ?
    | apply opposite_nested; intros ? ?
    | apply opposite_lift_l; intros ? ? | apply opposite_lift_r; intros ? ?
    | apply opposite_sym, opposite_nested; intros ? ? ];
  repeat match goal with
  | H1 : ?r = Ok _, H2 : ?r = Ok _ |- _ => rewrite H1 in H2; injection H2 as <-
  end;
  first
    [ apply opposite_f64
    | by apply opposite_ret
    | apply opposite_ret, Z.compare_antisym
    | apply opposite_ret, bytes_cmp_antisym
    | apply opposite_ret, time_cmp_antisym
    | apply opposite_ret, json_cmp_antisym
    | idtac ].

Lemma opposite_ints i u : is_i64 i ∧ is_u64 u →
  opposite (if (i <? 0) || (I64_MAX <? u) then mret Lt else mret (i ?= as_i64 u))
           (if (i <? 0) || (I64_MAX <? u) then mret Gt else mret (u ?= as_u64 i)).
Proof.
  mach. intros [Hi Hu]. destruct (Z.ltb_spec i 0); cbn [orb]; [by apply opposite_ret|].
  destruct (Z.ltb_spec 9223372036854775807 u); [by apply opposite_ret|].
  rewrite as_u64_id by (mach; lia). unfold as_i64. rewrite Z.mod_small, Z.add_simpl_r by lia.
  apply opposite_ret, Z.compare_antisym.
Qed.

(** Whatever the types of two datums, if comparing them returns and comparing them
    the other way round returns, the answers are opposite: the conversion [cmp] picks
    for a pair does not depend on the side.  (Decimals are well formed; a decimal
    against a byte string is left out, the string being parsed as a decimal.) *)
Theorem datum_cmp_antisym a b : comparable a b → opposite (datum_cmp a b) (datum_cmp b a).
Proof.
  intros Hp.
  destruct a, b; try done; unfold datum_cmp, cmp_match, cmp_i64, cmp_u64, cmp_bytes, cmp_dec,
    cmp_dur, cmp_time, self_cmp_f64; try apply opposite_rev; try (apply opposite_sym, opposite_rev);
    run_sides.
  - by apply opposite_ints.
  - apply opposite_sym. by apply opposite_ints.
  - destruct Hp as [H1 H2]. destruct (dec_cmp_antisym d d0 H1 H2) as (o & -> & ->).
    by apply opposite_ret.
Qed.
End Order.

(** A time against a decimal: two conversions, in either order. *)
Lemma datum_cmp_antisym_witness :
  let cmp := @datum_cmp ten_pow_table sample_externals in
  let t := @DTime sample_externals 5 in
  let d := @Dec sample_externals dec_a in
  comparable t d ∧ opposite (cmp t d) (cmp d t).
Proof.
  intros cmp t d. split; [exact I|].
  exact (@datum_cmp_antisym ten_pow_table sample_externals sample_laws t d I).
Defined.
