(* ===== verification/DatumCodec.v ===== *)
(** * DatumCodec: the encoding of datums

    [write_datum], [read_datum], [decode], [encode], [approximate_size] and
    [split_datum] of [allegro_poset/datum.rs].  The number and byte-string codecs they
    call are a crate that is not in the repository: the class [Codec], with the laws
    its documentation gives (what is written is read back, and its length is known
    from its first bytes). *)
From Stdlib Require Import ZArith Lia.
From stdpp Require Import base list numbers.
From S2P Require Import Prelude Words EvalCtx DecimalBase DecimalCodec.
From S2P Require Import Duration ToInt Float Datum.
#[local] Open Scope Z_scope.

(** ** The codec crate *)

Class Codec {X : Externals} := {
  put_i64 : Z → list Z;              get_i64 : list Z → result (Z * list Z);
  put_u64 : Z → list Z;              get_u64 : list Z → result (Z * list Z);
  put_f64 : f64 → list Z;            get_f64 : list Z → result (f64 * list Z);
  put_var_i64 : Z → list Z;          get_var_i64 : list Z → result (Z * list Z);
  put_var_u64 : Z → list Z;          get_var_u64 : list Z → result (Z * list Z);
  put_comparable : list Z → list Z;  get_comparable : list Z → result (list Z * list Z);
  put_compact : list Z → list Z;     get_compact : list Z → result (list Z * list Z);
  put_json : Json → list Z;          get_json : list Z → result (Json * list Z);
  to_packed_u64 : Time → evalM Z;
  first_len_comparable : list Z → Z;
  first_len_comparable_desc : list Z → Z;
  first_len_compact : list Z → Z;
  first_var_int_len : list Z → Z;
  comparable_len : Z → Z;
  json_binary_len : Json → Z;
  I64_SIZE : Z;
  U64_SIZE : Z;
  F64_SIZE : Z;
  MAX_VARINT64_LENGTH : Z;
}.

Definition NIL_FLAG : Z := 0.
Definition BYTES_FLAG : Z := 1.
Definition COMPACT_BYTES_FLAG : Z := 2.
Definition INT_FLAG : Z := 3.
Definition UINT_FLAG : Z := 4.
Definition FLOAT_FLAG : Z := 5.
Definition DECIMAL_FLAG : Z := 6.
Definition DURATION_FLAG : Z := 7.
Definition VAR_INT_FLAG : Z := 8.
Definition VAR_UINT_FLAG : Z := 9.
Definition JSON_FLAG : Z := 10.
Definition MAX_FLAG : Z := 250.
Definition DATUM_DATA_NULL : list Z := [NIL_FLAG].

Section Codec.
Context {TP : TenPow} {FS : Fsp} {X : Externals} {C : Codec}.

(** [read_x().map(f)?]: the value and the bytes left. *)
Definition read_as {A} (r : result (A * list Z)) (f : A → DatumType) : outcome (result (DatumType * list Z)) :=
  Ret match r with Ok (a, rest) => Ok (f a, rest) | Err e => Err e end.

(** [read_datum] *)
Definition read_datum (data : list Z) : outcome (result (DatumType * list Z)) :=
  match data with
  | [] => Ret (Err Other)
  | flag :: data =>
      if flag =? INT_FLAG then read_as (get_i64 data) I64
      else if flag =? UINT_FLAG then read_as (get_u64 data) U64
      else if flag =? BYTES_FLAG then read_as (get_comparable data) Bytes
      else if flag =? COMPACT_BYTES_FLAG then read_as (get_compact data) Bytes
      else if flag =? NIL_FLAG then Ret (Ok (Null, data))
      else if flag =? FLOAT_FLAG then read_as (get_f64 data) F64
      else if flag =? DURATION_FLAG then
        match get_i64 data with
        | Err e => Ret (Err e)
        | Ok (nanos, data) =>
            dur ← from_nanos nanos MAX_FSP;
            Ret match dur with Ok d => Ok (Dur d, data) | Err e => Err e end
        end
      else if flag =? DECIMAL_FLAG then r ← read_decimal data; read_as r Dec
      else if flag =? VAR_INT_FLAG then read_as (get_var_i64 data) I64
      else if flag =? VAR_UINT_FLAG then read_as (get_var_u64 data) U64
      else if flag =? JSON_FLAG then read_as (get_json data) DJson
      else Ret (Err InvalidDataType)
  end.

(** [decode]: until the data is empty; each datum takes at least its flag, so the
    length of the data is enough fuel. *)
Fixpoint decode_loop (fuel : nat) (data : list Z) (res : list DatumType)
  : outcome (result (list DatumType)) :=
  match data with
  | [] => Ret (Ok res)
  | _ =>
      match fuel with
      | O => Panic
      | S fuel =>
          v ← read_datum data;
          match v with
          | Ok (v, data) => decode_loop fuel data (res ++ [v])
          | Err e => Ret (Err e)
          end
      end
  end.

Definition decode (data : list Z) : outcome (result (list DatumType)) :=
  decode_loop (length data) data [].

(** One datum of [write_datum]: the buffer, whatever the outcome, and whether a
    minimum was written. *)
Definition write_one (buf : list Z) (v : DatumType) (comparable : bool) (ctx : EvalContext)
  : outcome (result bool * list Z * EvalContext) :=
  let ok bs := Ret (Ok false, buf ++ bs, ctx) in
  match v with
  | I64 i => if comparable then ok (INT_FLAG :: put_i64 i) else ok (VAR_INT_FLAG :: put_var_i64 i)
  | U64 u => if comparable then ok (UINT_FLAG :: put_u64 u) else ok (VAR_UINT_FLAG :: put_var_u64 u)
  | Bytes bs =>
      if comparable then ok (BYTES_FLAG :: put_comparable bs)
      else ok (COMPACT_BYTES_FLAG :: put_compact bs)
  | F64 f => ok (FLOAT_FLAG :: put_f64 f)
  | Null => ok [NIL_FLAG]
  | Min => Ret (Ok true, buf ++ [BYTES_FLAG], ctx)
  | Max => ok [MAX_FLAG]
  | DTime t =>
      '(r, ctx') ← to_packed_u64 t ctx;
      Ret match r with
          | Ok u => (Ok false, buf ++ UINT_FLAG :: put_u64 u, ctx')
          | Err e => (Err e, buf ++ [UINT_FLAG], ctx')
          end
  | Dur d => ok (DURATION_FLAG :: put_i64 (to_nanos d))
  | Dec d =>
      '(prec, frac) ← prec_and_frac d;
      '(buf, _) ← write_decimal (buf ++ [DECIMAL_FLAG]) d prec frac;
      Ret (Ok false, buf, ctx)
  | DJson j => ok (JSON_FLAG :: put_json j)
  | CompactBytes | Int | UInt | Rpc _ | Blob _ => Panic
  end.

(** The loop of [write_datum]. *)
Fixpoint write_loop (buf : list Z) (vs : list DatumType) (find_min comparable : bool)
    (ctx : EvalContext) : outcome (result unit * list Z * EvalContext) :=
  match vs with
  | [] => Ret (Ok tt, buf, ctx)
  | v :: vs =>
      if find_min then Ret (Err InvalidDataType, buf, ctx)
      else
        '(r, buf, ctx) ← write_one buf v comparable ctx;
        match r with
        | Ok min => write_loop buf vs min comparable ctx
        | Err e => Ret (Err e, buf, ctx)
        end
  end.

Definition write_datum (buf : list Z) (vs : list DatumType) (comparable : bool) (ctx : EvalContext) :=
  write_loop buf vs false comparable ctx.

(** [approximate_size] *)
Definition approximate_one (v : DatumType) (comparable : bool) : outcome Z :=
  n ← match v with
      | I64 _ => Ret (if comparable then I64_SIZE else MAX_VARINT64_LENGTH)
      | U64 _ => Ret (if comparable then U64_SIZE else MAX_VARINT64_LENGTH)
      | F64 _ => Ret F64_SIZE
      | DTime _ => Ret U64_SIZE
      | Dur _ => Ret I64_SIZE
      | Bytes bs =>
          if comparable then Ret (comparable_len (Z.of_nat (length bs)))
          else usize (Z.of_nat (length bs) + MAX_VARINT64_LENGTH)
      | Dec d => approximate_encoded_size d
      | DJson d => Ret (json_binary_len d)
      | Null | Min | Max => Ret 0
      | CompactBytes | Int | UInt | Rpc _ | Blob _ => Panic
      end;
  usize (1 + n).

Fixpoint approximate_size (vs : list DatumType) (comparable : bool) : outcome Z :=
  match vs with
  | [] => Ret 0
  | v :: vs =>
      n ← approximate_one v comparable;
      m ← approximate_size vs comparable;
      usize (n + m)
  end.

(** [encode_to]: the reserve computes the approximate size. *)
Definition encode_to (buf : list Z) (vs : list DatumType) (comparable : bool) (ctx : EvalContext)
  : outcome (result unit * list Z * EvalContext) :=
  _ ← approximate_size vs comparable;
  write_datum buf vs comparable ctx.

Definition encode (vs : list DatumType) (comparable : bool) : evalM (list Z) := fun ctx =>
  '(r, buf, ctx) ← encode_to [] vs comparable ctx;
  Ret (match r with Ok _ => Ok buf | Err e => Err e end, ctx).

Definition encode_soliton_id (vs : list DatumType) : evalM (list Z) := encode vs true.
Definition encode_causet_locale (vs : list DatumType) : evalM (list Z) := encode vs false.

(** The length [split_datum] finds for the payload of a datum. *)
Definition payload_len (flag : Z) (data : list Z) (desc : bool) : outcome (result Z) :=
  if flag =? INT_FLAG then Ret (Ok I64_SIZE)
  else if flag =? UINT_FLAG then Ret (Ok U64_SIZE)
  else if flag =? BYTES_FLAG then
    Ret (Ok (if desc then first_len_comparable_desc data else first_len_comparable data))
  else if flag =? COMPACT_BYTES_FLAG then Ret (Ok (first_len_compact data))
  else if flag =? NIL_FLAG then Ret (Ok 0)
  else if flag =? FLOAT_FLAG then Ret (Ok F64_SIZE)
  else if flag =? DURATION_FLAG then Ret (Ok I64_SIZE)
  else if flag =? DECIMAL_FLAG then dec_encoded_len data
  else if (flag =? VAR_INT_FLAG) || (flag =? VAR_UINT_FLAG) then Ret (Ok (first_var_int_len data))
  else if flag =? JSON_FLAG then
    match get_json data with
    | Ok (_, rest) => n ← usize (Z.of_nat (length data) - Z.of_nat (length rest)); Ret (Ok n)
    | Err e => Ret (Err e)
    end
  else Ret (Err InvalidDataType).

(** [split_datum] *)
Definition split_datum (buf : list Z) (desc : bool) : outcome (result (list Z * list Z)) :=
  match buf with
  | [] => Ret (Err Other)
  | flag :: data =>
      r ← payload_len flag data desc;
      match r with
      | Err e => Ret (Err e)
      | Ok pos =>
          n ← usize (pos + 1);
          if Z.of_nat (length buf) <? n then Ret (Err Other)
          else Ret (Ok (take (Z.to_nat (1 + pos)) buf, drop (Z.to_nat (1 + pos)) buf))
      end
  end.
End Codec.
