(* ===== verification/DatumWire.v ===== *)
(** * DatumWire: encoded datums are read back, split off and fit their estimate *)
From Stdlib Require Import ZArith Lia SpecFloat.
From stdpp Require Import base list numbers.
From S2P Require Import Prelude Words EvalCtx DecimalBase DecimalCodec DecimalWire DecimalLoops.
From S2P Require Import Duration ToInt Float Datum DatumCodec.
#[local] Open Scope Z_scope.

#[local] Notation zlen l := (Z.of_nat (length l)).

(** ** The codec crate's contract *)

(** A pair of a writer and a reader, on a domain of values. *)
Definition inverse {A} (D : A → Prop) (put : A → list Z) (get : list Z → result (A * list Z)) : Prop :=
  ∀ a rest, D a → get (put a ++ rest) = Ok (a, rest).

Definition bytes_ok (bs : list Z) : Prop := Forall is_u8 bs ∧ zlen bs <= I32_MAX.

(** A float of the binary64 format. *)
Definition valid_f64 (f : f64) : Prop := SpecFloat.valid_binary F64_PREC F64_EMAX f = true.

Class CodecLaws {X : Externals} {C : Codec} : Prop := {
  i64_inverse : inverse is_i64 put_i64 get_i64;
  u64_inverse : inverse is_u64 put_u64 get_u64;
  f64_inverse : inverse valid_f64 put_f64 get_f64;
  var_i64_inverse : inverse is_i64 put_var_i64 get_var_i64;
  var_u64_inverse : inverse is_u64 put_var_u64 get_var_u64;
  comparable_inverse : inverse bytes_ok put_comparable get_comparable;
  compact_inverse : inverse bytes_ok put_compact get_compact;
  json_inverse : inverse (λ j, zlen (put_json j) <= I64_MAX) put_json get_json;
  i64_len : ∀ i, zlen (put_i64 i) = I64_SIZE;
  u64_len : ∀ u, zlen (put_u64 u) = U64_SIZE;
  f64_len : ∀ f, zlen (put_f64 f) = F64_SIZE;
  sizes : I64_SIZE = 8 ∧ U64_SIZE = 8 ∧ F64_SIZE = 8 ∧ MAX_VARINT64_LENGTH = 10;
  var_i64_len : ∀ i rest, is_i64 i →
    first_var_int_len (put_var_i64 i ++ rest) = zlen (put_var_i64 i) ∧ zlen (put_var_i64 i) <= MAX_VARINT64_LENGTH;
  var_u64_len : ∀ u rest, is_u64 u →
    first_var_int_len (put_var_u64 u ++ rest) = zlen (put_var_u64 u) ∧ zlen (put_var_u64 u) <= MAX_VARINT64_LENGTH;
  comparable_first : ∀ bs rest, bytes_ok bs →
    first_len_comparable (put_comparable bs ++ rest) = zlen (put_comparable bs)
    ∧ zlen (put_comparable bs) = comparable_len (zlen bs) ∧ zlen (put_comparable bs) <= I64_MAX;
  compact_first : ∀ bs rest, bytes_ok bs →
    first_len_compact (put_compact bs ++ rest) = zlen (put_compact bs)
    ∧ zlen (put_compact bs) <= zlen bs + MAX_VARINT64_LENGTH;
  json_len : ∀ j, json_binary_len j = zlen (put_json j);
}.

Section Wire.
Context {TP : TenPow} {FS : Fsp} {X : Externals} {C : Codec} {L : CodecLaws}.

(** The datums that encode without loss: payloads in their types' ranges, durations of
    whole microseconds, tight decimals, and neither bound. *)
Definition codable (v : DatumType) : Prop :=
  match v with
  | Null => True
  | F64 f => valid_f64 f
  | I64 i => is_i64 i
  | U64 u => is_u64 u
  | Bytes bs => bytes_ok bs
  | Dur d => dur_wf d ∧ (1000 | nanos d)
  | Dec d => wf d ∧ tight d
  | DTime t => ∃ p, is_u64 p ∧ ∀ ctx, to_packed_u64 t ctx = Ret (Ok p, ctx)
  | DJson j => zlen (put_json j) <= I64_MAX
  | _ => False
  end.

(** What is read back: the datum, except that a time is its packed integer, a duration
    has the greatest precision and a decimal lost its leading zeros. *)
Definition decoded (v v' : DatumType) : Prop :=
  match v with
  | DTime t => ∃ p, v' = U64 p ∧ ∀ ctx, to_packed_u64 t ctx = Ret (Ok p, ctx)
  | Dur d => ∃ d', v' = Dur d' ∧ nanos d' = nanos d ∧ fsp d' = MAX_FSP
  | Dec d => ∃ d', v' = Dec d' ∧ wf d' ∧ frac_cnt d' = frac_cnt d ∧ ∀ k, scaled d' k = scaled d k
  | _ => v' = v
  end.

(** The bytes [bs] of one datum [v]: written whatever the buffer, read back, split off
    what follows and within the estimate. *)
Record encodes (comparable : bool) (v v' : DatumType) (bs : list Z) : Prop := {
  enc_write : ∀ buf ctx, write_one buf v comparable ctx = Ret (Ok false, buf ++ bs, ctx);
  enc_read : ∀ rest, read_datum (bs ++ rest) = Ret (Ok (v', rest));
  enc_split : ∀ rest, split_datum (bs ++ rest) false = Ret (Ok (bs, rest));
  enc_size : ∀ n, approximate_one v comparable = Ret n → zlen bs <= n;
  enc_pos : bs ≠ [];
}.

(** A payload of known length splits off. *)
Lemma split_payload flag payload rest desc : zlen payload <= I64_MAX →
  payload_len flag (payload ++ rest) desc = Ret (Ok (zlen payload)) →
  split_datum ((flag :: payload) ++ rest) desc = Ret (Ok (flag :: payload, rest)).
Proof.
  intros Hl E. unfold split_datum. cbn [app]. rewrite E. bindr. mach.
  rewrite usize_ok by (mach; lia). bindr.
  rewrite (proj2 (Z.ltb_ge _ _)) by (cbn [length]; rewrite length_app; lia).
  replace (Z.to_nat (1 + zlen payload)) with (length (flag :: payload)) by (cbn; lia).
  change (flag :: payload ++ rest) with ((flag :: payload) ++ rest).
  by rewrite take_app_length, drop_app_length.
Qed.

(** The common case: a flag and a payload. *)
Lemma encodes_flag comparable v v' flag payload k :
  (∀ buf ctx, write_one buf v comparable ctx = Ret (Ok false, buf ++ flag :: payload, ctx)) →
  (∀ rest, read_datum (flag :: payload ++ rest) = Ret (Ok (v', rest))) →
  (∀ rest, payload_len flag (payload ++ rest) false = Ret (Ok (zlen payload))) →
  zlen payload <= I64_MAX →
  (∀ n, approximate_one v comparable = Ret n → n = 1 + k) → zlen payload <= k →
  encodes comparable v v' (flag :: payload).
Proof.
  intros Hw Hr Hs Hl Ha Hk. split; auto.
  - intros rest. by apply split_payload.
  - intros n E%Ha. cbn [length]. lia.
Qed.

Lemma approx_const v comparable k n :
  approximate_one v comparable = (usize (1 + k)) → approximate_one v comparable = Ret n → n = 1 + k.
Proof. intros ->. by intros (-> & _)%chk_Ret. Qed.

Lemma dur_read n : - MAX_NANOS <= n <= MAX_NANOS → (1000 | n) →
  from_nanos n MAX_FSP = Ret (Ok (mkDuration 0 n MAX_FSP)).
Proof.
  intros Hn Hd. unfold from_nanos. pose proof MAX_FSP_law as Hm.
  rewrite check_fsp_id by lia. cbn [try_res]. unfold rounded.
  rewrite checked_round_spec by lia. rewrite decide_True by done. bindr.
  rewrite round_half_away_fix; [|destruct (step_bounds MAX_FSP); lia|by rewrite Hm].
  by rewrite (proj2 (check_nanos_Ok n)).
Qed.

Lemma max_len : I64_SIZE <= I64_MAX ∧ U64_SIZE <= I64_MAX ∧ F64_SIZE <= I64_MAX
  ∧ MAX_VARINT64_LENGTH <= I64_MAX.
Proof. destruct sizes as (-> & -> & -> & ->). mach. lia. Qed.

Lemma encodes_i64 comparable i : is_i64 i → ∃ bs, encodes comparable (I64 i) (I64 i) bs.
Proof.
  intros Hi. destruct max_len as (? & ? & ? & ?). destruct comparable.
  - eexists. apply (encodes_flag true _ _ INT_FLAG (put_i64 i) I64_SIZE); try done.
    + intros rest. cbn. by rewrite i64_inverse.
    + intros rest. cbn. by rewrite i64_len.
    + by rewrite i64_len.
    + intros n. by apply approx_const.
    + by rewrite i64_len.
  - assert (Hv := λ rest, var_i64_len i rest Hi). destruct (Hv []) as [_ ?].
    eexists. apply (encodes_flag false _ _ VAR_INT_FLAG (put_var_i64 i) MAX_VARINT64_LENGTH); try done.
    + intros rest. cbn. by rewrite var_i64_inverse.
    + intros rest. cbn. by rewrite (proj1 (Hv rest)).
    + lia.
    + intros n. by apply approx_const.
Qed.

Lemma encodes_u64 comparable u : is_u64 u → ∃ bs, encodes comparable (U64 u) (U64 u) bs.
Proof.
  intros Hu. destruct max_len as (? & ? & ? & ?). destruct comparable.
  - eexists. apply (encodes_flag true _ _ UINT_FLAG (put_u64 u) U64_SIZE); try done.
    + intros rest. cbn. by rewrite u64_inverse.
    + intros rest. cbn. by rewrite u64_len.
    + by rewrite u64_len.
    + intros n. by apply approx_const.
    + by rewrite u64_len.
  - assert (Hv := λ rest, var_u64_len u rest Hu). destruct (Hv []) as [_ ?].
    eexists. apply (encodes_flag false _ _ VAR_UINT_FLAG (put_var_u64 u) MAX_VARINT64_LENGTH); try done.
    + intros rest. cbn. by rewrite var_u64_inverse.
    + intros rest. cbn. by rewrite (proj1 (Hv rest)).
    + lia.
    + intros n. by apply approx_const.
Qed.

Lemma encodes_bytes comparable bs : bytes_ok bs → ∃ out, encodes comparable (Bytes bs) (Bytes bs) out.
Proof.
  intros Hb. destruct max_len as (? & ? & ? & ?). destruct comparable.
  - assert (Hv := λ rest, comparable_first bs rest Hb). destruct (Hv []) as (_ & ? & ?).
    eexists. apply (encodes_flag true _ _ BYTES_FLAG (put_comparable bs) (comparable_len (zlen bs))); try done.
    + intros rest. cbn. by rewrite comparable_inverse.
    + intros rest. cbn. by rewrite (proj1 (Hv rest)).
    + intros n. by apply approx_const.
    + lia.
  - assert (Hv := λ rest, compact_first bs rest Hb). destruct (Hv []) as (_ & ?).
    pose proof (proj2 Hb) as Hl. destruct sizes as (_ & _ & _ & E10). mach.
    eexists. apply (encodes_flag false _ _ COMPACT_BYTES_FLAG (put_compact bs)
                      (zlen bs + MAX_VARINT64_LENGTH)); try done.
    + intros rest. cbn. by rewrite compact_inverse.
    + intros rest. cbn. by rewrite (proj1 (Hv rest)).
    + mach. lia.
    + intros n. unfold approximate_one. rewrite usize_ok by (mach; lia). bindr. by intros (-> & _)%chk_Ret.
Qed.

Lemma encodes_dec comparable d : wf d → tight d →
  ∃ d' bs, encodes comparable (Dec d) (Dec d') bs ∧ decoded (Dec d) (Dec d').
Proof.
  intros Hd Ht.
  destruct (codec_roundtrip d Hd Ht) as (prec & frac & out & d' & Hp & Hw & Hl0 & Hl & Hl2 & Hr & Hd' & Hf & Hs).
  exists d', (DECIMAL_FLAG :: out). split; [|by exists d'].
  assert (Hlen : zlen out <= I64_MAX).
  { revert Hl2. unfold dec_encoded_len. cbn [length Nat.ltb Nat.leb]. intros H.
    apply bind_Ret in H as (p & _ & H). apply bind_Ret in H as (f & _ & H).
    destruct (p <? f); [discriminate|]. apply bind_Ret in H as (ib & _ & H).
    apply bind_Ret in H as (il & Hil & H). apply bind_Ret in H as (fb & _ & H).
    apply bind_Ret in H as (fl & Hfl & H). apply chk_Ret in Hil as [-> ?], Hfl as [-> ?].
    injection H as H. mach. lia. }
  apply (encodes_flag comparable _ _ DECIMAL_FLAG out (zlen out)); try done.
  - intros buf ctx. unfold write_one. rewrite Hp. bindr. rewrite Hw. bindr. by rewrite <- app_assoc.
  - intros rest. cbn. by rewrite Hr.
  - intros n. unfold approximate_one, approximate_encoded_size. rewrite Hp. bindr. rewrite Hl2. bindr.
    by intros (-> & _)%chk_Ret.
Qed.

Lemma encodes_codable comparable v : codable v → ∃ v' bs, encodes comparable v v' bs ∧ decoded v v'.
Proof.
  intros Hv. destruct max_len as (? & ? & ? & ?). destruct v; try done; cbn in Hv.
  - exists Null, [NIL_FLAG]. split; [|done].
    apply (encodes_flag comparable _ _ NIL_FLAG [] 0); try done. intros n. by apply approx_const.
  - destruct (encodes_i64 comparable i Hv) as [bs Hb]. by exists (I64 i), bs.
  - destruct (encodes_u64 comparable u Hv) as [bs Hb]. by exists (U64 u), bs.
  - exists (F64 f), (FLOAT_FLAG :: put_f64 f). split; [|done].
    apply (encodes_flag comparable _ _ FLOAT_FLAG (put_f64 f) F64_SIZE); try done.
    + intros rest. cbn. by rewrite f64_inverse.
    + intros rest. cbn. by rewrite f64_len.
    + by rewrite f64_len.
    + intros n. by apply approx_const.
    + by rewrite f64_len.
  - destruct Hv as [ [Hn Hf] Hk]. exists (Dur (mkDuration 0 (nanos d) MAX_FSP)), (DURATION_FLAG :: put_i64 (nanos d)).
    split; [|by eexists]. rewrite MAX_NANOS_eq in Hn.
    apply (encodes_flag comparable _ _ DURATION_FLAG (put_i64 (nanos d)) I64_SIZE); try done.
    + intros rest. cbn. rewrite i64_inverse by (mach; lia).
      by rewrite dur_read by (rewrite ?MAX_NANOS_eq; done || lia).
    + intros rest. cbn. by rewrite i64_len.
    + by rewrite i64_len.
    + intros n. by apply approx_const.
    + by rewrite i64_len.
  - destruct (encodes_bytes comparable bs Hv) as [out Hb]. by exists (Bytes bs), out.
  - destruct Hv as [Hd Ht]. destruct (encodes_dec comparable d Hd Ht) as (d' & bs & ?). by exists (Dec d'), bs.
  - destruct Hv as (p & Hp & Ht). exists (U64 p), (UINT_FLAG :: put_u64 p). split; [|by exists p].
    apply (encodes_flag comparable _ _ UINT_FLAG (put_u64 p) U64_SIZE); try done.
    + intros buf ctx. unfold write_one. by rewrite Ht.
    + intros rest. cbn. by rewrite u64_inverse.
    + intros rest. cbn. by rewrite u64_len.
    + by rewrite u64_len.
    + intros n. by apply approx_const.
    + by rewrite u64_len.
  - exists (DJson j), (JSON_FLAG :: put_json j). split; [|done]. mach.
    apply (encodes_flag comparable _ _ JSON_FLAG (put_json j) (json_binary_len j)); try done.
    + intros rest. cbn. by rewrite json_inverse by (mach; lia).
    + intros rest. unfold payload_len. cbn. rewrite json_inverse by (mach; lia).
      rewrite length_app. rewrite usize_ok by (mach; lia). bindr. do 2 f_equal. lia.
    + intros n. by apply approx_const.
    + by rewrite json_len.
Qed.

(** ** Sequences *)

Lemma decode_loop_app (vs : list DatumType) comparable : ∀ bss vs' fuel res rest,
  Forall3 (λ v v' bs, encodes comparable v v' bs) vs vs' bss → (length (concat bss ++ rest) <= fuel)%nat →
  ∃ fuel', (length rest <= fuel')%nat ∧
  decode_loop fuel (concat bss ++ rest) res = decode_loop fuel' rest (res ++ vs').
Proof.
  intros bss vs' fuel res rest H. revert fuel res.
  induction H as [|v v' bs vs vs' bss He H IH]; intros fuel res Hf.
  - exists fuel. by rewrite app_nil_r.
  - cbn [concat] in *. rewrite <- app_assoc in *. pose proof (enc_pos _ _ _ _ He) as Hpos.
    rewrite length_app in Hf. destruct bs as [|b bs]; [done|]. cbn [length] in Hf.
    destruct fuel as [|fuel]; [lia|]. cbn [decode_loop app].
    change (b :: bs ++ concat bss ++ rest) with ((b :: bs) ++ concat bss ++ rest).
    rewrite (enc_read _ _ _ _ He). bindr.
    destruct (IH fuel (res ++ [v'])) as (fuel' & ? & ->); [lia|].
    exists fuel'. by rewrite <- app_assoc.
Qed.

Lemma write_loop_app (vs ws : list DatumType) comparable ctx : ∀ bss vs' buf,
  Forall3 (λ v v' bs, encodes comparable v v' bs) vs vs' bss →
  write_loop buf (vs ++ ws) false comparable ctx
  = write_loop (buf ++ concat bss) ws false comparable ctx.
Proof.
  intros bss vs' buf H. revert buf.
  induction H as [|v v' bs vs vs' bss He H IH]; intros buf; cbn [app concat write_loop].
  - by rewrite app_nil_r.
  - rewrite (enc_write _ _ _ _ He). bindr. by rewrite IH, <- app_assoc.
Qed.

Lemma approximate_size_ge comparable vs vs' bss : Forall3 (λ v v' bs, encodes comparable v v' bs) vs vs' bss →
  ∀ n, approximate_size vs comparable = Ret n → zlen (concat bss) <= n.
Proof.
  induction 1 as [|v v' bs vs vs' bss He H IH]; intros n; cbn [approximate_size concat].
  - by intros [= <-].
  - intros (k & Hk & (m & Hm & (-> & _)%chk_Ret)%bind_Ret)%bind_Ret.
    apply (enc_size _ _ _ _ He) in Hk. apply IH in Hm. rewrite length_app. lia.
Qed.

Lemma codable_all comparable vs : Forall codable vs → ∃ vs' bss,
  Forall3 (λ v v' bs, encodes comparable v v' bs) vs vs' bss ∧ Forall2 decoded vs vs'.
Proof.
  induction 1 as [|v vs Hv _ (vs' & bss & IH & Hd)].
  - exists [], []. split; constructor.
  - destruct (encodes_codable comparable v Hv) as (v' & bs & He & Hd').
    exists (v' :: vs'), (bs :: bss). split; by constructor.
Qed.

(** C31. Encoding a list of datums in either mode, when they are in the ranges of their types
    (durations of whole microseconds, none of the two bounds) and the estimate of its size is
    computed, succeeds, fits the estimate and decodes to the list: every datum comes
    back, a time as its packed integer, a duration at the greatest precision, a
    decimal with the same value. *)
Theorem datum_codec_roundtrip vs comparable n ctx :
  Forall codable vs → approximate_size vs comparable = Ret n → ∃ bs vs',
  encode vs comparable ctx = Ret (Ok bs, ctx)
  ∧ zlen bs <= n ∧ decode bs = Ret (Ok vs') ∧ Forall2 decoded vs vs'.
Proof.
  intros Hv Hn. destruct (codable_all comparable vs Hv) as (vs' & bss & He & Hd).
  exists (concat bss), vs'. split_and!; [| | |done].
  - unfold encode, encode_to, write_datum. rewrite Hn. bindr.
    rewrite <- (app_nil_r vs). by rewrite (write_loop_app vs [] comparable ctx bss vs') by done.
  - by apply (approximate_size_ge comparable vs vs').
  - unfold decode. destruct (decode_loop_app vs comparable bss vs' (length (concat bss)) [] [])
      as (fuel & _ & E); [done|by rewrite app_nil_r|].
    rewrite app_nil_r in E. rewrite E. by destruct fuel.
Qed.

(** [split_datum] cuts an encoded sequence after its first datum, in either mode:
    the first part is the encoding of that datum and the second is what follows. *)
Theorem split_datum_exact v comparable n ctx :
  codable v → approximate_size [v] comparable = Ret n → ∃ bs,
  encode [v] comparable ctx = Ret (Ok bs, ctx)
  ∧ ∀ rest, split_datum (bs ++ rest) false = Ret (Ok (bs, rest)).
Proof.
  intros Hv Hn. destruct (encodes_codable comparable v Hv) as (v' & bs & He & _).
  exists bs. split; [|apply (enc_split _ _ _ _ He)].
  unfold encode, encode_to, write_datum. rewrite Hn. bindr. cbn [write_loop].
  by rewrite (enc_write _ _ _ _ He).
Qed.

(** A [Min] ends the sequence: anything after it is an error, with the datums
    before it and its flag left in the buffer. *)
Theorem min_is_last vs ws comparable buf ctx : Forall codable vs → ws ≠ [] → ∃ bs,
  write_datum buf (vs ++ [Min]) comparable ctx = Ret (Ok tt, buf ++ bs ++ [BYTES_FLAG], ctx)
  ∧ write_datum buf (vs ++ Min :: ws) comparable ctx
    = Ret (Err InvalidDataType, buf ++ bs ++ [BYTES_FLAG], ctx).
Proof.
  intros Hv Hw. destruct (codable_all comparable vs Hv) as (vs' & bss & He & _).
  exists (concat bss). unfold write_datum.
  rewrite !(write_loop_app vs _ comparable ctx bss vs') by done. cbn [write_loop write_one]. bindr.
  rewrite <- app_assoc. split; [done|]. by destruct ws.
Qed.
End Wire.

(** ** A concrete codec

    Eight big-endian bytes for an integer, a length before a byte string, and a tag
    before the parts of a float. *)

Fixpoint be (n : nat) (z : Z) (acc : list Z) : list Z :=
  match n with O => acc | S n => be n (z / 256) (z mod 256 :: acc) end.

Lemma be_spec n : ∀ z acc, wval 256 (be n z acc)
  = (z mod 256 ^ Z.of_nat n) * 256 ^ zlen acc + wval 256 acc
  ∧ length (be n z acc) = (n + length acc)%nat.
Proof.
  induction n as [|n IH]; intros z acc; cbn [be].
  - rewrite Z.pow_0_r, Z.mod_1_r. split; [lia|done].
  - destruct (IH (z / 256) (z mod 256 :: acc)) as [-> ->]. cbn [length]. split; [|lia].
    rewrite wval_cons by lia. rewrite !Nat2Z.inj_succ, !Z.pow_succ_r by lia.
    rewrite (Z.rem_mul_r z 256) by lia. ring.
Qed.

Definition put8 (z : Z) : list Z := be 8 z [].
Definition get8 (bs : list Z) : result (Z * list Z) :=
  if (length bs <? 8)%nat then Err Other else Ok (wval 256 (take 8 bs), drop 8 bs).

Lemma put8_len z : length (put8 z) = 8%nat.
Proof. apply (be_spec 8 z []). Qed.

Lemma get8_put8 z rest : 0 <= z < 2 ^ 64 → get8 (put8 z ++ rest) = Ok (z, rest).
Proof.
  intros Hz. unfold get8. pose proof (put8_len z) as Hl.
  rewrite length_app, Hl. cbn [Nat.add Nat.ltb Nat.leb]. rewrite <- Hl.
  rewrite take_app_length, drop_app_length. do 2 f_equal.
  destruct (be_spec 8 z []) as [E _]. unfold put8. rewrite E. cbn [length].
  change (Z.of_nat 0) with 0. change (wval 256 []) with 0. rewrite Z.pow_0_r, Z.mul_1_r, Z.add_0_r.
  by apply Z.mod_small.
Qed.

(** A length and the bytes. *)
Definition put_sized (bs : list Z) : list Z := put8 (zlen bs) ++ bs.
Definition get_sized (bs : list Z) : result (list Z * list Z) :=
  match get8 bs with
  | Ok (n, bs) => Ok (take (Z.to_nat n) bs, drop (Z.to_nat n) bs)
  | Err e => Err e
  end.
Definition sized_len (bs : list Z) : Z :=
  match get8 bs with Ok (n, _) => n + 8 | Err _ => 0 end.

Lemma put_sized_len bs : zlen (put_sized bs) = zlen bs + 8.
Proof. unfold put_sized. rewrite length_app, put8_len. lia. Qed.

Lemma get_put_sized bs rest : zlen bs <= I64_MAX →
  get_sized (put_sized bs ++ rest) = Ok (bs, rest) ∧ sized_len (put_sized bs ++ rest) = zlen bs + 8.
Proof.
  mach. intros Hl. unfold get_sized, sized_len, put_sized. rewrite <- app_assoc.
  rewrite get8_put8 by lia. rewrite Nat2Z.id. by rewrite take_app_length, drop_app_length.
Qed.

Definition put_float (f : f64) : list Z :=
  match f with
  | S754_zero s => [0; Z.b2z s; 0; 0; 0; 0; 0; 0]
  | S754_infinity s => [1; Z.b2z s; 0; 0; 0; 0; 0; 0]
  | S754_nan => [2; 0; 0; 0; 0; 0; 0; 0]
  | S754_finite s m e => [3; Z.b2z s; Zpos m; e; 0; 0; 0; 0]
  end.
Definition get_float (bs : list Z) : result (f64 * list Z) :=
  match bs with
  | k :: s :: m :: e :: _ :: _ :: _ :: _ :: rest =>
      let s := s =? 1 in
      Ok (if k =? 0 then S754_zero s else if k =? 1 then S754_infinity s
          else if k =? 2 then S754_nan else S754_finite s (Z.to_pos m) e, rest)
  | _ => Err Other
  end.

Definition sample_codec : @Codec sample_externals := {|
  put_i64 := fun i => put8 (i + 2 ^ 63);
  get_i64 := fun bs => match get8 bs with Ok (v, r) => Ok (v - 2 ^ 63, r) | Err e => Err e end;
  put_u64 := put8;
  get_u64 := get8;
  put_f64 := put_float;
  get_f64 := get_float;
  put_var_i64 := fun i => put8 (i + 2 ^ 63);
  get_var_i64 := fun bs => match get8 bs with Ok (v, r) => Ok (v - 2 ^ 63, r) | Err e => Err e end;
  put_var_u64 := put8;
  get_var_u64 := get8;
  put_comparable := put_sized;
  get_comparable := get_sized;
  put_compact := put_sized;
  get_compact := get_sized;
  put_json := (put_sized : @Json sample_externals → list Z);
  get_json := (get_sized : list Z → result (@Json sample_externals * list Z));
  to_packed_u64 := fun t => mret t;
  first_len_comparable := sized_len;
  first_len_comparable_desc := sized_len;
  first_len_compact := sized_len;
  first_var_int_len := fun _ => 8;
  comparable_len := fun n => n + 8;
  json_binary_len := fun j => zlen (put_sized j);
  I64_SIZE := 8;
  U64_SIZE := 8;
  F64_SIZE := 8;
  MAX_VARINT64_LENGTH := 10;
|}.

Lemma sample_codec_laws : @CodecLaws sample_externals sample_codec.
Proof.
  assert (Hs : ∀ bs, bytes_ok bs → zlen bs <= I64_MAX) by (intros bs [_ H]; mach; lia).
  split; cbn -[put8 get8 put_sized get_sized sized_len].
  all: try (intros a rest Ha; cbn -[put8 get8 Z.pow]; rewrite get8_put8 by (mach; lia);
            by rewrite ?Z.add_simpl_r).
  all: try (intros; rewrite ?put8_len; done).
  all: try (intros; rewrite ?put8_len; split; [done|lia]).
  - by intros [ [] | [] | | [] m e] rest _.
  - intros bs rest Hb. apply get_put_sized. auto.
  - intros bs rest Hb. apply get_put_sized. auto.
  - intros j rest Hj. apply get_put_sized. rewrite put_sized_len in Hj. lia.
  - by intros [].
  - intros bs rest Hb. rewrite put_sized_len. destruct Hb as [? Hl].
    split; [apply get_put_sized; mach; lia|]. mach. lia.
  - intros bs rest Hb. rewrite put_sized_len. destruct Hb as [? Hl].
    split; [apply get_put_sized; mach; lia|]. lia.
Qed.

(** ** Witnesses *)

#[local] Existing Instance ten_pow_table.
#[local] Existing Instance fsp_table.
#[local] Existing Instance sample_externals.
#[local] Existing Instance sample_codec.
#[local] Existing Instance sample_codec_laws.

Definition sample_datums : list DatumType :=
  [I64 (-5); Null; Dec (mkDecimal 10 3 3 true [1; 234567890; 500000000; 0; 0; 0; 0; 0; 0]);
   Dur (mkDuration 0 (-45296999500000) 6); Bytes [104; 105]; U64 U64_MAX; F64 (f64_of_Z 3)].

Lemma sample_codable : Forall codable sample_datums.
Proof.
  unfold sample_datums. repeat (apply Forall_cons_2; [|]); [..|by apply Forall_nil];
    cbn [codable].
  - mach. lia.
  - done.
  - split; [by split; repeat constructor|]. split.
    + intros w [= <-] _. done.
    + intros v [= <-] _. by exists 500.
  - split; [split; rewrite ?MAX_NANOS_eq; cbn; lia|]. by exists (-45296999500).
  - split; [|mach; cbn; lia]. repeat constructor; mach; lia.
  - mach. lia.
  - done.
Qed.

Lemma sample_size : approximate_size sample_datums false = Ret 64.
Proof. reflexivity. Qed.

Lemma datum_codec_roundtrip_witness :
  let ctx := EvalContext_new PolicyGradient_new in
  Forall codable sample_datums ∧ approximate_size sample_datums false = Ret 64 ∧ ∃ bs vs',
  encode sample_datums false ctx = Ret (Ok bs, ctx)
  ∧ zlen bs <= 64 ∧ decode bs = Ret (Ok vs') ∧ Forall2 decoded sample_datums vs'.
Proof.
  intros ctx. split; [exact sample_codable|]. split; [exact sample_size|].
  exact (datum_codec_roundtrip sample_datums false 64 ctx sample_codable sample_size).
Defined.

Lemma split_datum_exact_witness :
  let ctx := EvalContext_new PolicyGradient_new in let v := U64 258 in
  codable v ∧ approximate_size [v] true = Ret 9 ∧ ∃ bs,
  encode [v] true ctx = Ret (Ok bs, ctx)
  ∧ ∀ rest, split_datum (bs ++ rest) false = Ret (Ok (bs, rest)).
Proof.
  intros ctx v. assert (Hv : codable v) by (cbn; mach; lia).
  split; [exact Hv|]. split; [reflexivity|]. exact (split_datum_exact v true 9 ctx Hv eq_refl).
Defined.

Lemma min_is_last_witness :
  let ctx := EvalContext_new PolicyGradient_new in
  Forall codable sample_datums ∧ [Null] ≠ [] ∧ ∃ bs,
  write_datum [7] (sample_datums ++ [Min]) false ctx = Ret (Ok tt, [7] ++ bs ++ [BYTES_FLAG], ctx)
  ∧ write_datum [7] (sample_datums ++ Min :: [Null]) false ctx
    = Ret (Err InvalidDataType, [7] ++ bs ++ [BYTES_FLAG], ctx).
Proof.
  intros ctx. assert (H : [Null] ≠ []) by done. split; [exact sample_codable|]. split; [exact H|].
  exact (min_is_last sample_datums [Null] false [7] ctx sample_codable H).
Defined.
