(* ===== verification/DatumPayload.v ===== *)
(** * DatumPayload: typed values to and from datum bytes

    [allegro_poset/datum_codec.rs], with the readers of durations of
    [berolinasql/src/duration.rs]: the payload of a datum by its type, the flag and the
    payload, the seven types of values the evaluation knows, and the decoders that expect
    a value of one type.  The codec is that of [DatumCodec]; the readers of times and the
    two functions the integer decoder names and no file defines are [PayloadExternals].
    A buffer in memory never refuses a write. *)
From Stdlib Require Import ZArith Lia SpecFloat.
From stdpp Require Import base list numbers.
From S2P Require Import Prelude Words EvalCtx DecimalBase DecimalCodec DecimalWire DecimalLoops.
From S2P Require Import Duration ToInt Float Datum DatumCodec DatumWire.
#[local] Open Scope Z_scope.

#[local] Notation zlen l := (Z.of_nat (length l)).

Class PayloadExternals {X : Externals} := {
  decode_payload_i64 : list Z → result Z;
  int_from_i64 : Z → result Z;
  (** The time, of the field type's kind and with its precision. *)
  read_time_int : list Z → FieldTypeTp → Z → evalM Time;
  read_time_varint : list Z → FieldTypeTp → Z → evalM Time;
  time_fits : Time → FieldTypeTp → Z → Prop;
}.

Section Payload.
Context {TP : TenPow} {FS : Fsp} {X : Externals} {C : Codec} {P : PayloadExternals}.

(** ** Reading *)

(** [map_err]: whatever the error, it is that of the data's type. *)
Definition invalid {A} (r : result A) : result A := match r with Ok a => Ok a | Err _ => Err InvalidDataType end.
(** The value that was read; the reader is dropped with what it has left. *)
Definition value_of {A} (r : result (A * list Z)) : result A := match r with Ok (a, _) => Ok a | Err e => Err e end.
Definition some_of {A} (r : result A) : result (option A) := match r with Ok a => Ok (Some a) | Err e => Err e end.

Definition read_datum_payload_i64 (data : list Z) : result (Z * list Z) := invalid (get_i64 data).
Definition read_datum_payload_u64 (data : list Z) : result (Z * list Z) := invalid (get_u64 data).
Definition read_datum_payload_var_i64 (data : list Z) : result (Z * list Z) := invalid (get_var_i64 data).
Definition read_datum_payload_var_u64 (data : list Z) : result (Z * list Z) := invalid (get_var_u64 data).
Definition read_datum_payload_f64 (data : list Z) : result (f64 * list Z) := invalid (get_f64 data).
Definition read_datum_payload_decimal (data : list Z) : outcome (result (Decimal * list Z)) :=
  r ← read_decimal data; Ret (invalid r).
Definition read_datum_payload_bytes (data : list Z) : result (list Z * list Z) := invalid (get_comparable data).
Definition read_datum_payload_compact_bytes (data : list Z) : result (list Z * list Z) := invalid (get_compact data).
Definition read_datum_payload_json (data : list Z) : result (Json * list Z) := invalid (get_json data).
Definition read_datum_payload_datetime_int (data : list Z) (tp : FieldTypeTp) (decimal : Z) : evalM Time := λ ctx,
  '(r, ctx) ← read_time_int data tp decimal ctx; Ret (invalid r, ctx).
Definition read_datum_payload_datetime_varint (data : list Z) (tp : FieldTypeTp) (decimal : Z) : evalM Time := λ ctx,
  '(r, ctx) ← read_time_varint data tp decimal ctx; Ret (invalid r, ctx).

(** [DurationDecoder] *)
Definition read_duration_int (data : list Z) (decimal : Z) : outcome (result Duration) :=
  try nanos ← value_of (get_i64 data); from_nanos nanos (as_i8 decimal).
Definition read_duration_variant (data : list Z) (decimal : Z) : outcome (result Duration) :=
  try nanos ← value_of (get_var_i64 data); from_nanos nanos (as_i8 decimal).
Definition read_datum_payload_duration_int (data : list Z) (decimal : Z) : outcome (result Duration) :=
  r ← read_duration_int data decimal; Ret (invalid r).
Definition read_datum_payload_duration_varint (data : list Z) (decimal : Z) : outcome (result Duration) :=
  r ← read_duration_variant data decimal; Ret (invalid r).

(** [decode_int_datum]: the first of its two arms for the flag of an integer is taken. *)
Definition decode_int_datum (datum : list Z) : result (option Z) :=
  match datum with
  | [] => Err InvalidDataType
  | flag :: data =>
      if flag =? NIL_FLAG then Ok None
      else if flag =? INT_FLAG then
        match decode_payload_i64 data with Ok v => some_of (int_from_i64 v) | Err e => Err e end
      else if flag =? UINT_FLAG then
        match read_datum_payload_u64 data with Ok (v, _) => Ok (Some (as_i64 v)) | Err e => Err e end
      else if flag =? VAR_INT_FLAG then some_of (value_of (read_datum_payload_var_i64 data))
      else if flag =? VAR_UINT_FLAG then
        match read_datum_payload_var_u64 data with Ok (v, _) => Ok (Some (as_i64 v)) | Err e => Err e end
      else Err InvalidDataType
  end.

(** [Real::new(v).ok()]: what is not a number is no value. *)
Definition real_new (v : f64) : option f64 := match v with S754_nan => None | _ => Some v end.
Definition as_field (tp : FieldTypeTp) (v : f64) : f64 := if decide (tp = TpFloat) then f64_as_f32 v else v.
Definition decode_real_datum (datum : list Z) (tp : FieldTypeTp) : result (option f64) :=
  match datum with
  | [] => Err InvalidDataType
  | flag :: data =>
      if flag =? NIL_FLAG then Ok None
      else if flag =? FLOAT_FLAG then
        match read_datum_payload_f64 data with Ok (v, _) => Ok (real_new (as_field tp v)) | Err e => Err e end
      else Err InvalidDataType
  end.

Definition decode_decimal_datum (datum : list Z) : outcome (result (option Decimal)) :=
  match datum with
  | [] => Ret (Err InvalidDataType)
  | flag :: data =>
      if flag =? NIL_FLAG then Ret (Ok None)
      else if flag =? DECIMAL_FLAG then r ← read_datum_payload_decimal data; Ret (some_of (value_of r))
      else Ret (Err InvalidDataType)
  end.

Definition decode_bytes_datum (datum : list Z) : result (option (list Z)) :=
  match datum with
  | [] => Err InvalidDataType
  | flag :: data =>
      if flag =? NIL_FLAG then Ok None
      else if flag =? BYTES_FLAG then some_of (value_of (read_datum_payload_bytes data))
      else if flag =? COMPACT_BYTES_FLAG then some_of (value_of (read_datum_payload_compact_bytes data))
      else Err InvalidDataType
  end.

Definition decode_date_time_datum (datum : list Z) (tp : FieldTypeTp) (decimal : Z) : evalM (option Time) := λ ctx,
  match datum with
  | [] => Ret (Err InvalidDataType, ctx)
  | flag :: data =>
      if flag =? NIL_FLAG then Ret (Ok None, ctx)
      else if flag =? UINT_FLAG then
        '(r, ctx) ← read_datum_payload_datetime_int data tp decimal ctx; Ret (some_of r, ctx)
      else if flag =? VAR_UINT_FLAG then
        '(r, ctx) ← read_datum_payload_datetime_varint data tp decimal ctx; Ret (some_of r, ctx)
      else Ret (Err InvalidDataType, ctx)
  end.

Definition decode_duration_datum (datum : list Z) (decimal : Z) : outcome (result (option Duration)) :=
  match datum with
  | [] => Ret (Err InvalidDataType)
  | flag :: data =>
      if flag =? NIL_FLAG then Ret (Ok None)
      else if flag =? DURATION_FLAG then r ← read_datum_payload_duration_int data decimal; Ret (some_of r)
      else if flag =? VAR_INT_FLAG then r ← read_datum_payload_duration_varint data decimal; Ret (some_of r)
      else Ret (Err InvalidDataType)
  end.

Definition decode_json_datum (datum : list Z) : result (option Json) :=
  match datum with
  | [] => Err InvalidDataType
  | flag :: data =>
      if flag =? NIL_FLAG then Ok None
      else if flag =? JSON_FLAG then some_of (value_of (read_datum_payload_json data))
      else Err InvalidDataType
  end.

(** [Primitive_CausetDatumTypeDecoder]: one decoder for each type. *)
Inductive Evaluable := EInt | EReal | EDecimal | EBytes | EDateTime | EDuration | EJson.
Definition typed {A} (f : A → DatumType) (r : result (option A)) : result (option DatumType) :=
  match r with Ok o => Ok (f <$> o) | Err e => Err e end.
Definition decode_as (t : Evaluable) (tp : FieldTypeTp) (decimal : Z) (datum : list Z) : evalM (option DatumType) := λ ctx,
  match t with
  | EInt => Ret (typed I64 (decode_int_datum datum), ctx)
  | EReal => Ret (typed F64 (decode_real_datum datum tp), ctx)
  | EDecimal => r ← decode_decimal_datum datum; Ret (typed Dec r, ctx)
  | EBytes => Ret (typed Bytes (decode_bytes_datum datum), ctx)
  | EDateTime => '(r, ctx) ← decode_date_time_datum datum tp decimal ctx; Ret (typed DTime r, ctx)
  | EDuration => r ← decode_duration_datum datum decimal; Ret (typed Dur r, ctx)
  | EJson => Ret (typed DJson (decode_json_datum datum), ctx)
  end.

(** ** Writing *)

Definition write_datum_payload_i64 (buf : list Z) (v : Z) : list Z := buf ++ put_i64 v.
Definition write_datum_payload_u64 (buf : list Z) (v : Z) : list Z := buf ++ put_u64 v.
Definition write_datum_payload_var_i64 (buf : list Z) (v : Z) : list Z := buf ++ put_var_i64 v.
Definition write_datum_payload_f64 (buf : list Z) (v : f64) : list Z := buf ++ put_f64 v.
Definition write_datum_payload_decimal (buf : list Z) (v : Decimal) (prec frac : Z) : outcome (list Z) :=
  '(buf, _) ← write_decimal buf v prec frac; Ret buf.
Definition write_datum_payload_compact_bytes (buf v : list Z) : list Z := buf ++ put_compact v.
Definition write_datum_payload_json (buf : list Z) (v : Json) : list Z := buf ++ put_json v.

Definition write_datum_null (buf : list Z) : list Z := buf ++ [NIL_FLAG].
Definition write_datum_u64 (buf : list Z) (val : Z) : list Z := write_datum_payload_u64 (buf ++ [UINT_FLAG]) val.
Definition write_datum_i64 (buf : list Z) (val : Z) : list Z := write_datum_payload_i64 (buf ++ [INT_FLAG]) val.
Definition write_datum_var_i64 (buf : list Z) (val : Z) : list Z := write_datum_payload_var_i64 (buf ++ [VAR_INT_FLAG]) val.
Definition write_datum_f64 (buf : list Z) (val : f64) : list Z := write_datum_payload_f64 (buf ++ [FLOAT_FLAG]) val.
Definition write_datum_decimal (buf : list Z) (val : Decimal) : outcome (list Z) :=
  '(prec, frac) ← prec_and_frac val; write_datum_payload_decimal (buf ++ [DECIMAL_FLAG]) val prec frac.
Definition write_datum_compact_bytes (buf val : list Z) : list Z := write_datum_payload_compact_bytes (buf ++ [COMPACT_BYTES_FLAG]) val.
Definition write_datum_duration_int (buf : list Z) (val : Duration) : list Z :=
  write_datum_payload_i64 (buf ++ [DURATION_FLAG]) (to_nanos val).
(** The packed form comes first: when it fails nothing is written. *)
Definition write_datum_datetime_int (buf : list Z) (val : Time) (ctx : EvalContext) : outcome (result unit * list Z * EvalContext) :=
  '(r, ctx) ← to_packed_u64 val ctx;
  Ret match r with Ok u => (Ok tt, write_datum_u64 buf u, ctx) | Err e => (Err e, buf, ctx) end.
Definition write_datum_json (buf : list Z) (val : Json) : list Z := write_datum_payload_json (buf ++ [JSON_FLAG]) val.

(** [EvaluableDatumTypeEncoder] *)
Definition write_evaluable_datum_null := write_datum_null.
Definition write_evaluable_datum_int (buf : list Z) (val : Z) (is_unsigned : bool) : list Z :=
  if is_unsigned then write_datum_u64 buf (as_u64 val) else write_datum_i64 buf val.
Definition write_evaluable_datum_real := write_datum_f64.
Definition write_evaluable_datum_decimal := write_datum_decimal.
Definition write_evaluable_datum_bytes := write_datum_compact_bytes.
Definition write_evaluable_datum_date_time := write_datum_datetime_int.
Definition write_evaluable_datum_duration := write_datum_duration_int.
Definition write_evaluable_datum_json := write_datum_json.

(** The writer for the value's type; the bounds have none. *)
Definition write_evaluable (buf : list Z) (v : DatumType) (is_unsigned : bool) (ctx : EvalContext)
  : outcome (result unit * list Z * EvalContext) :=
  let ok buf := Ret (Ok tt, buf, ctx) in
  match v with
  | Null => ok (write_evaluable_datum_null buf)
  | I64 i => ok (write_evaluable_datum_int buf i is_unsigned)
  | F64 f => ok (write_evaluable_datum_real buf f)
  | Dec d => b ← write_evaluable_datum_decimal buf d; ok b
  | Bytes bs => ok (write_evaluable_datum_bytes buf bs)
  | DTime t => write_evaluable_datum_date_time buf t ctx
  | Dur d => ok (write_evaluable_datum_duration buf d)
  | DJson j => ok (write_evaluable_datum_json buf j)
  | _ => Panic
  end.

Definition write_column_id_datum (buf : list Z) (col_id : Z) : list Z := write_datum_var_i64 buf col_id.

(** ** What is written is read back *)

Class PayloadLaws : Prop := {
  decode_payload_law data : decode_payload_i64 data = value_of (get_i64 data);
  int_from_law i : int_from_i64 i = Ok i;
  time_int_law t tp decimal p rest ctx : time_fits t tp decimal → is_u64 p → (∀ ctx, to_packed_u64 t ctx = Ret (Ok p, ctx)) →
    read_time_int (put_u64 p ++ rest) tp decimal ctx = Ret (Ok t, ctx);
}.

Context {L : CodecLaws} {PL : PayloadLaws}.

(** The values of a type that a field of the given type and precision can hold. *)
Definition storable (t : Evaluable) (tp : FieldTypeTp) (decimal : Z) (v : DatumType) : Prop :=
  match t, v with
  | EInt, I64 i => is_i64 i
  | EReal, F64 f => valid_f64 f
  | EDecimal, Dec d => wf d ∧ tight d
  | EBytes, Bytes bs => bytes_ok bs
  | EDateTime, DTime tm => time_fits tm tp decimal ∧ ∃ p, is_u64 p ∧ ∀ ctx, to_packed_u64 tm ctx = Ret (Ok p, ctx)
  | EDuration, Dur d => dur_wf d ∧ 0 <= decimal <= 6 ∧ (step decimal | nanos d)
  | EJson, DJson j => zlen (put_json j) <= I64_MAX
  | _, _ => False
  end.

(** What comes back: the value, a real number as precise as the field and nothing when
    it is not a number, a decimal without its leading zeros, a duration with the
    precision of the field. *)
Definition comes_back (tp : FieldTypeTp) (decimal : Z) (v : DatumType) (o : option DatumType) : Prop :=
  match v with
  | F64 f => o = F64 <$> real_new (as_field tp f)
  | Dec d => ∃ d', o = Some (Dec d') ∧ wf d' ∧ frac_cnt d' = frac_cnt d ∧ ∀ k, scaled d' k = scaled d k
  | Dur d => o = Some (Dur (mkDuration 0 (nanos d) decimal))
  | _ => o = Some v
  end.

Lemma from_nanos_exact n f : 0 <= f <= 6 → - MAX_NANOS <= n <= MAX_NANOS → (step f | n) →
  from_nanos n f = Ret (Ok (mkDuration 0 n f)).
Proof.
  intros Hf Hn Hd. unfold from_nanos. rewrite check_fsp_id by (rewrite MAX_FSP_law; lia). cbn [try_res]. unfold rounded.
  rewrite checked_round_spec by lia. rewrite decide_True by done. bindr.
  rewrite round_half_away_fix; [|destruct (step_bounds f); lia|done]. by rewrite (proj2 (check_nanos_Ok n)).
Qed.

Lemma as_i64_as_u64 i : is_i64 i → is_u64 (as_u64 i) ∧ as_i64 (as_u64 i) = i.
Proof. mach. unfold as_u64, as_i64. intros Hi. split; zdiv. Qed.

(** C12. A value written for evaluation, after anything and before anything, is read by the
    decoder of its type, whatever the column's sign: what comes back is the value, at the
    precision of the field; and the absence of a value is read as such by every decoder. *)
Theorem evaluable_roundtrip t tp decimal v unsigned buf rest ctx : storable t tp decimal v →
  (∃ bs o, write_evaluable buf v unsigned ctx = Ret (Ok tt, buf ++ bs, ctx)
    ∧ decode_as t tp decimal (bs ++ rest) ctx = Ret (Ok o, ctx) ∧ comes_back tp decimal v o)
  ∧ ∃ bs, write_evaluable buf Null unsigned ctx = Ret (Ok tt, buf ++ bs, ctx)
    ∧ ∀ t', decode_as t' tp decimal (bs ++ rest) ctx = Ret (Ok None, ctx).
Proof.
  intros Hv. split; [|exists [NIL_FLAG]; split; [done|by intros []] ].
  destruct t, v; try done; cbn [storable] in Hv.
  - destruct (as_i64_as_u64 i Hv) as [Hu Hi]. destruct unsigned.
    + exists (UINT_FLAG :: put_u64 (as_u64 i)), (Some (I64 i)).
      split; [cbn; unfold write_datum_u64, write_datum_payload_u64; by rewrite <- app_assoc|]. split; [|done].
      cbn. unfold read_datum_payload_u64. rewrite u64_inverse by done. cbn. by rewrite Hi.
    + exists (INT_FLAG :: put_i64 i), (Some (I64 i)).
      split; [cbn; unfold write_datum_i64, write_datum_payload_i64; by rewrite <- app_assoc|]. split; [|done].
      cbn. rewrite decode_payload_law, i64_inverse by done. cbn. by rewrite int_from_law.
  - exists (FLOAT_FLAG :: put_f64 f), (F64 <$> real_new (as_field tp f)).
    split; [cbn; unfold write_evaluable_datum_real, write_datum_f64, write_datum_payload_f64; by rewrite <- app_assoc|]. split; [|done].
    cbn. unfold read_datum_payload_f64. by rewrite f64_inverse.
  - destruct Hv as [Hd Ht]. destruct (codec_roundtrip d Hd Ht) as (prec & frac & out & d' & Hp & Hw & _ & _ & _ & Hr & Hd' & Hf & Hs).
    exists (DECIMAL_FLAG :: out), (Some (Dec d')). split.
    { cbn. unfold write_evaluable_datum_decimal, write_datum_decimal, write_datum_payload_decimal.
      rewrite Hp. bindr. rewrite Hw. bindr. by rewrite <- app_assoc. }
    split; [|by exists d']. cbn. unfold read_datum_payload_decimal. by rewrite Hr.
  - exists (COMPACT_BYTES_FLAG :: put_compact bs), (Some (Bytes bs)).
    split; [cbn; unfold write_evaluable_datum_bytes, write_datum_compact_bytes, write_datum_payload_compact_bytes; by rewrite <- app_assoc|]. split; [|done].
    cbn. unfold read_datum_payload_compact_bytes. by rewrite compact_inverse.
  - destruct Hv as (Hf & p & Hp & Ht). exists (UINT_FLAG :: put_u64 p), (Some (DTime t)). split.
    { cbn. unfold write_evaluable_datum_date_time, write_datum_datetime_int, write_datum_u64, write_datum_payload_u64.
      rewrite Ht. bindr. by rewrite <- app_assoc. }
    split; [|done]. cbn. unfold read_datum_payload_datetime_int. by rewrite (time_int_law t tp decimal p).
  - destruct Hv as ([Hn _] & Hd & Hk). exists (DURATION_FLAG :: put_i64 (nanos d)), (Some (Dur (mkDuration 0 (nanos d) decimal))).
    split; [cbn; unfold write_evaluable_datum_duration, write_datum_duration_int, write_datum_payload_i64, to_nanos; by rewrite <- app_assoc|]. split; [|done].
    cbn. unfold read_datum_payload_duration_int, read_duration_int.
    rewrite i64_inverse by (rewrite MAX_NANOS_eq in Hn; mach; lia). cbn [value_of try_res].
    rewrite as_i8_id by (mach; lia). by rewrite from_nanos_exact.
  - exists (JSON_FLAG :: put_json j), (Some (DJson j)).
    split; [cbn; unfold write_evaluable_datum_json, write_datum_json, write_datum_payload_json; by rewrite <- app_assoc|]. split; [|done].
    cbn. unfold read_datum_payload_json. by rewrite json_inverse.
Qed.

(** ** Two decoders of the same bytes *)

(** What [read_datum] makes of the bytes, seen as a value of one type. *)
Definition reads_as {A} (datum : list Z) (view : DatumType → result A) (o : A) : Prop :=
  ∃ v rest, read_datum datum = Ret (Ok (v, rest)) ∧ view v = Ok o.

Lemma reads_as_nil {A} (view : DatumType → result A) o : ¬ reads_as [] view o.
Proof. by intros (v & rest & ? & _). Qed.
(** A payload that [read_datum] reads as one constructor, and the decoder in its own way. *)
Lemma reads_as_payload {A B} flag data (view : DatumType → result B) (con : A → DatumType) (r : result (A * list Z)) (D : Prop) o :
  read_datum (flag :: data) = read_as r con → (D ↔ ∃ a rest, r = Ok (a, rest) ∧ view (con a) = Ok o) →
  D ↔ reads_as (flag :: data) view o.
Proof.
  intros Hr ->. unfold reads_as. rewrite Hr. unfold read_as. split.
  - intros (a & rest & -> & ?). by eexists _, _.
  - intros (v & rest & H & ?). destruct r as [ [a r]|]; [|done]. injection H as <- <-. by eexists _, _.
Qed.
(** No value. *)
Lemma reads_as_null {A} data (view : DatumType → result A) (D : Prop) o :
  (D ↔ view Null = Ok o) → D ↔ reads_as (NIL_FLAG :: data) view o.
Proof.
  intros ->. unfold reads_as. split; [intros; by exists Null, data|]. by intros (v & rest & [= <- <-] & ?).
Qed.
(** Bytes [read_datum] makes nothing of the decoder's type from. *)
Lemma reads_as_other {A} datum (view : DatumType → result A) (D : Prop) o : ¬ D →
  (∀ v rest, read_datum datum = Ret (Ok (v, rest)) → view v ≠ Ok o) → D ↔ reads_as datum view o.
Proof. intros Hd Hv. split; [done|]. intros (v & rest & H1 & H2). by destruct (Hv v rest). Qed.

Lemma read_datum_inv flag data v rest : read_datum (flag :: data) = Ret (Ok (v, rest)) →
  match v with
  | I64 _ => flag = INT_FLAG ∨ flag = VAR_INT_FLAG
  | U64 _ => flag = UINT_FLAG ∨ flag = VAR_UINT_FLAG
  | Bytes _ => flag = BYTES_FLAG ∨ flag = COMPACT_BYTES_FLAG
  | Null => flag = NIL_FLAG | F64 _ => flag = FLOAT_FLAG | Dec _ => flag = DECIMAL_FLAG
  | DJson _ => flag = JSON_FLAG | Dur _ => flag = DURATION_FLAG | _ => False
  end.
Proof.
  assert (∀ A (r : result (A * list Z)) con, read_as r con = Ret (Ok (v, rest)) → ∃ a, v = con a) as Hr
    by (intros A [ [a ?]|] con; unfold read_as; intros [=]; by eexists).
  unfold read_datum. repeat match goal with |- context [flag =? ?F] => destruct (Z.eqb_spec flag F) as [->|_] end.
  all: try (intros (a & ->)%Hr; by auto).
  - by intros [= <- <-].
  - destruct (get_i64 data) as [ [n r]|e]; [|done]. intros (dur & _ & H)%bind_Ret. destruct dur; [|done]. by injection H as <- <-.
  - intros (r & _ & (a & ->)%Hr)%bind_Ret. done.
  - done.
Qed.
(** A real number of a field of the type: rounded to single precision in a Float field, and no
    value when it is not a number. *)
Definition real_view (tp : FieldTypeTp) (v : DatumType) : result (option f64) :=
  match as_real v with Ok o => Ok (f ← o; real_new (as_field tp f)) | Err e => Err e end.

#[local] Ltac other := apply reads_as_other; [done|]; intros v rest Hr; apply read_datum_inv in Hr;
  destruct v; try done; naive_solver.

(** C24. The decoders of integers, reals, decimals, byte strings and JSON accept exactly the
    bytes that the general decoder reads as a value of their type (or as no value), and
    give that value; a real number is rounded to single precision when the field is a Float,
    and one that is not a number is given as no value. *)
Theorem decoders_agree datum tp o_int o_real o_dec o_bytes o_json :
  (decode_int_datum datum = Ok o_int ↔ reads_as datum as_int o_int)
  ∧ (decode_real_datum datum tp = Ok o_real ↔ reads_as datum (real_view tp) o_real)
  ∧ (decode_decimal_datum datum = Ret (Ok o_dec) ↔ reads_as datum as_decimal o_dec)
  ∧ (decode_bytes_datum datum = Ok o_bytes ↔ reads_as datum as_string o_bytes)
  ∧ (decode_json_datum datum = Ok o_json ↔ reads_as datum as_json o_json).
Proof.
  destruct datum as [|flag data]; [split_and!; (split; [done|by intros ?%reads_as_nil])|]. split_and!.
  - unfold decode_int_datum. destruct (Z.eqb_spec flag NIL_FLAG) as [->|H1]; [by apply reads_as_null|].
    destruct (Z.eqb_spec flag INT_FLAG) as [->|H2].
    { apply (reads_as_payload _ _ _ I64 (get_i64 data)); [done|]. rewrite decode_payload_law.
      destruct (get_i64 data) as [ [a r]|]; cbn; [rewrite int_from_law|]; naive_solver. }
    destruct (Z.eqb_spec flag UINT_FLAG) as [->|H3].
    { apply (reads_as_payload _ _ _ U64 (get_u64 data)); [done|]. unfold read_datum_payload_u64. destruct (get_u64 data) as [ [a r]|]; naive_solver. }
    destruct (Z.eqb_spec flag VAR_INT_FLAG) as [->|H4].
    { apply (reads_as_payload _ _ _ I64 (get_var_i64 data)); [done|]. unfold read_datum_payload_var_i64. destruct (get_var_i64 data) as [ [a r]|]; naive_solver. }
    destruct (Z.eqb_spec flag VAR_UINT_FLAG) as [->|H5]; [|other].
    apply (reads_as_payload _ _ _ U64 (get_var_u64 data)); [done|]. unfold read_datum_payload_var_u64. destruct (get_var_u64 data) as [ [a r]|]; naive_solver.
  - unfold decode_real_datum. destruct (Z.eqb_spec flag NIL_FLAG) as [->|H1]; [by apply reads_as_null|].
    destruct (Z.eqb_spec flag FLOAT_FLAG) as [->|H2]; [|other].
    apply (reads_as_payload _ _ _ F64 (get_f64 data)); [done|]. unfold read_datum_payload_f64.
    destruct (get_f64 data) as [ [a r]|]; cbn; naive_solver.
  - unfold decode_decimal_datum. destruct (Z.eqb_spec flag NIL_FLAG) as [->|H1].
    { apply reads_as_null. cbn. naive_solver. }
    destruct (Z.eqb_spec flag DECIMAL_FLAG) as [->|H2]; [|other]. unfold read_datum_payload_decimal.
    destruct (read_decimal data) as [r|] eqn:E.
    + bindr. apply (reads_as_payload _ _ _ Dec r); [unfold read_datum; cbn; by rewrite E|]. destruct r as [ [a r]|]; cbn; naive_solver.
    + bindr. split; [done|]. intros (v & rest & H & _). unfold read_datum in H. cbn in H. by rewrite E in H.
  - unfold decode_bytes_datum. destruct (Z.eqb_spec flag NIL_FLAG) as [->|H1]; [by apply reads_as_null|].
    destruct (Z.eqb_spec flag BYTES_FLAG) as [->|H2].
    { apply (reads_as_payload _ _ _ Bytes (get_comparable data)); [done|]. unfold read_datum_payload_bytes. destruct (get_comparable data) as [ [a r]|]; naive_solver. }
    destruct (Z.eqb_spec flag COMPACT_BYTES_FLAG) as [->|H3]; [|other].
    apply (reads_as_payload _ _ _ Bytes (get_compact data)); [done|]. unfold read_datum_payload_compact_bytes. destruct (get_compact data) as [ [a r]|]; naive_solver.
  - unfold decode_json_datum. destruct (Z.eqb_spec flag NIL_FLAG) as [->|H1]; [by apply reads_as_null|].
    destruct (Z.eqb_spec flag JSON_FLAG) as [->|H2]; [|other].
    apply (reads_as_payload _ _ _ DJson (get_json data)); [done|]. unfold read_datum_payload_json. destruct (get_json data) as [ [a r]|]; naive_solver.
Qed.
End Payload.

(** ** Witnesses *)

#[local] Existing Instance ten_pow_table.
#[local] Existing Instance fsp_table.
#[local] Existing Instance sample_externals.
#[local] Existing Instance sample_codec.
#[local] Existing Instance sample_codec_laws.

Definition sample_payload : @PayloadExternals sample_externals := {|
  decode_payload_i64 := λ data, value_of (get_i64 data);
  int_from_i64 := Ok;
  read_time_int := λ data _ _ ctx, Ret (value_of (get_u64 data), ctx);
  read_time_varint := λ data _ _ ctx, Ret (value_of (get_var_u64 data), ctx);
  time_fits := λ _ _ _, True;
|}.
#[local] Existing Instance sample_payload.
Lemma sample_payload_laws : PayloadLaws.
Proof.
  split; [done..|]. intros t tp decimal p rest ctx _ Hp Ht. specialize (Ht ctx). injection Ht as ->.
  cbn -[put8 get8]. by rewrite get8_put8 by (mach; lia).
Qed.
#[local] Existing Instance sample_payload_laws.

Definition sample_decimal : DatumType := Dec (mkDecimal 10 3 3 true [1; 234567890; 500000000; 0; 0; 0; 0; 0; 0]).

Lemma evaluable_roundtrip_witness : let ctx := EvalContext_new PolicyGradient_new in
  storable EDuration TpDuration 3 (Dur (mkDuration 0 (-45296999000000) 6))
  ∧ ((∃ bs o, write_evaluable [7] (Dur (mkDuration 0 (-45296999000000) 6)) true ctx = Ret (Ok tt, [7] ++ bs, ctx)
      ∧ decode_as EDuration TpDuration 3 (bs ++ [9]) ctx = Ret (Ok o, ctx)
      ∧ comes_back TpDuration 3 (Dur (mkDuration 0 (-45296999000000) 6)) o)
     ∧ ∃ bs, write_evaluable [7] Null true ctx = Ret (Ok tt, [7] ++ bs, ctx)
       ∧ ∀ t', decode_as t' TpDuration 3 (bs ++ [9]) ctx = Ret (Ok None, ctx)).
Proof.
  intros ctx. assert (storable EDuration TpDuration 3 (Dur (mkDuration 0 (-45296999000000) 6))) as Hv.
  { split; [split; rewrite ?MAX_NANOS_eq; cbn; lia|]. split; [lia|]. by exists (-45296999). }
  split; [exact Hv|]. exact (evaluable_roundtrip _ _ _ _ true [7] [9] ctx Hv).
Defined.

(** A Float field: 16777217 is read by the general decoder and given in single precision. *)
Lemma decoders_agree_witness :
  decode_int_datum (VAR_UINT_FLAG :: put8 5) = Ok (Some 5)
  ∧ (decode_real_datum (FLOAT_FLAG :: put_float (f64_of_Z 16777217)) TpFloat = Ok (Some (f64_of_Z 16777216))
     ↔ reads_as (FLOAT_FLAG :: put_float (f64_of_Z 16777217)) (real_view TpFloat) (Some (f64_of_Z 16777216))).
Proof.
  split.
  - apply (decoders_agree (VAR_UINT_FLAG :: put8 5) TpLong (Some 5) None None None None).
    exists (U64 5), []. split; reflexivity.
  - exact (proj1 (proj2 (decoders_agree (FLOAT_FLAG :: put_float (f64_of_Z 16777217)) TpFloat None (Some (f64_of_Z 16777216)) None None None))).
Defined.

(** A real number that is not one is read as the absence of a value; a single precision
    field rounds. *)
Example real_tests :
  decode_real_datum (FLOAT_FLAG :: put_float S754_nan) TpDouble = Ok None
  ∧ decode_real_datum (FLOAT_FLAG :: put_float (f64_of_Z 16777217)) TpFloat = Ok (Some (f64_of_Z 16777216)).
Proof. by vm_compute. Qed.
