(* ===== verification/Table.v ===== *)
(** * Table: keys of records and indexes, and rows

    [berolinasql/src/table.rs]: record and index keys, the checks on them, the cutting
    of an encoded row into its columns, and the decoding of rows and index keys, over
    the datum encoding of [DatumCodec].  A [HashMap] is a finite map; where the code
    iterates over one, the order is a parameter.

    The file uses constants it does not declare ([INDEX_PREFIX_KEY_LEN],
    [RECORD_PREFIX_KEY_LEN], [TABLE_PREFIX_SEP]), and the other row format, whose
    reader is elsewhere: they are the class [TableExternals]. *)
From Stdlib Require Import ZArith Lia.
From stdpp Require Import base list numbers gmap.
From S2P Require Import Prelude Words EvalCtx Slice DecimalBase.
From S2P Require Import Duration ToInt Float Datum DatumCodec.
#[local] Open Scope Z_scope.

#[local] Notation zlen l := (Z.of_nat (length l)).

(** ** Constants *)

Definition ID_LEN : Z := 8.
Definition SEP_LEN : Z := 2.
Definition TABLE_PREFIX_LEN : Z := 1.
Definition PREFIX_LEN : Z := TABLE_PREFIX_LEN + ID_LEN + SEP_LEN.
Definition RECORD_ROW_KEY_LEN : Z := PREFIX_LEN + ID_LEN.
Definition TABLE_PREFIX_KEY_LEN : Z := TABLE_PREFIX_LEN + ID_LEN.
Definition TABLE_PREFIX : list Z := [116].            (* t *)
Definition RECORD_PREFIX_SEP : list Z := [95; 114].   (* _r *)
Definition INDEX_PREFIX_SEP : list Z := [95; 105].    (* _i *)

Record ColumnInfo := mkColumn { column_id : Z; col_tp : FieldTypeTp; col_decimal : Z }.

Class TableExternals {X : Externals} := {
  INDEX_PREFIX_KEY_LEN : Z;
  RECORD_PREFIX_KEY_LEN : Z;
  TABLE_PREFIX_SEP : Z;
  from_packed_u64 : Z → FieldTypeTp → Z → evalM Time;
  CODEC_VERSION : Z;
  RowSlice : Type;
  row_from_bytes : list Z → result RowSlice;
  search_in_non_null_ids : RowSlice → Z → result (option (Z * Z));
  search_in_null_ids : RowSlice → Z → bool;
  row_causet_locales : RowSlice → list Z;
  write_column_id_datum : list Z → Z → result (list Z);
  write_causet_record_as_datum : list Z → list Z → ColumnInfo → result (list Z);
  write_evaluable_datum_null : list Z → result (list Z);
}.

(** [datum.i64()], [datum.u64()], [datum.f64()]: the bits of the value, 0 for what has
    none. *)
Section Views.
Context {TP : TenPow} {X : Externals}.

Definition datum_i64 (v : DatumType) : outcome Z :=
  match v with
  | I64 i => Ret i
  | U64 u => Ret (as_i64 u)
  | F64 f => Ret (as_i64 (f64_bits f))
  | Dur d => Ret (to_nanos d)
  | DTime _ | Bytes _ | Dec _ | DJson _ | Max | Min | Null => Ret 0
  | CompactBytes | Int | UInt | Rpc _ | Blob _ => Panic
  end.
Definition datum_u64 (v : DatumType) : outcome Z := i ← datum_i64 v; Ret (as_u64 i).
Definition datum_f64 (v : DatumType) : outcome f64 := i ← datum_i64 v; Ret (f64_from_bits (as_u64 i)).
End Views.

(** [starts_with] *)
Fixpoint starts_with (l p : list Z) {struct p} : bool :=
  match p, l with
  | [], _ => true
  | b :: p, a :: l => (a =? b) && starts_with l p
  | _ :: _, [] => false
  end.

Section Keys.
Context {TP : TenPow} {FS : Fsp} {X : Externals} {C : Codec} {TX : TableExternals}.

(** ** Keys *)

Definition append_table_record_prefix (buf : list Z) (table_id : Z) : list Z :=
  buf ++ TABLE_PREFIX ++ put_i64 table_id ++ RECORD_PREFIX_SEP.
Definition append_table_index_prefix (buf : list Z) (table_id : Z) : list Z :=
  buf ++ TABLE_PREFIX ++ put_i64 table_id ++ INDEX_PREFIX_SEP.

Definition encode_row_soliton_id (table_id handle : Z) : list Z :=
  append_table_record_prefix [] table_id ++ put_i64 handle.
Definition encode_common_handle_for_test (table_id : Z) (handle : list Z) : list Z :=
  append_table_record_prefix [] table_id ++ handle.
Definition encode_column_soliton_id (table_id handle column_id : Z) : list Z :=
  append_table_record_prefix [] table_id ++ put_i64 handle ++ put_i64 column_id.
Definition encode_index_seek_soliton_id (table_id idx_id : Z) (encoded : list Z) : list Z :=
  append_table_index_prefix [] table_id ++ put_i64 idx_id ++ encoded.

Definition extract_table_prefix (soliton_id : list Z) : rM (list Z) :=
  if negb (starts_with soliton_id TABLE_PREFIX) || (zlen soliton_id <? TABLE_PREFIX_KEY_LEN)
  then errR InvalidDataType
  else liftR (slice soliton_id 0 TABLE_PREFIX_KEY_LEN).

(** A range is its two ends. *)
Fixpoint check_table_ranges (ranges : list (list Z * list Z)) : rM unit :=
  match ranges with
  | [] => okR tt
  | (range_start, range_end) :: ranges =>
      rbind (λ _, rbind (λ _,
        if bytes_ltb range_start range_end then check_table_ranges ranges else errR InvalidDataType)
        (extract_table_prefix range_end)) (extract_table_prefix range_start)
  end.

(** The callers pass a whole separator. *)
Definition check_soliton_id_type (soliton_id prefix_sep : list Z) : result unit :=
  if negb (starts_with soliton_id prefix_sep) then Err InvalidDataType else Ok tt.

Definition check_index_soliton_id (soliton_id : list Z) : result unit :=
  if zlen soliton_id <? INDEX_PREFIX_KEY_LEN then Err InvalidDataType
  else check_soliton_id_type soliton_id INDEX_PREFIX_SEP.

Definition check_record_soliton_id (soliton_id : list Z) : result unit :=
  if zlen soliton_id <? RECORD_PREFIX_KEY_LEN then Err InvalidDataType
  else check_soliton_id_type soliton_id RECORD_PREFIX_SEP.

Definition check_table_soliton_id (soliton_id : list Z) : rM unit :=
  if negb (starts_with soliton_id TABLE_PREFIX) || (zlen soliton_id <? TABLE_PREFIX_KEY_LEN)
  then errR InvalidDataType
  else rbind (λ b, if negb (b =? TABLE_PREFIX_SEP) then errR InvalidDataType else okR tt)
         (liftR (get soliton_id TABLE_PREFIX_KEY_LEN)).

Definition check_record_soliton_id_with_table_id (soliton_id table_id : list Z) : result unit :=
  check_soliton_id_type soliton_id INDEX_PREFIX_SEP.

(** [read_bytes], which fails on a short buffer. *)
Definition read_bytes (buf : list Z) (n : Z) : result (list Z * list Z) :=
  if zlen buf <? n then Err Other else Ok (take (Z.to_nat n) buf, drop (Z.to_nat n) buf).

Definition decode_table_id (soliton_id : list Z) : result Z :=
  match read_bytes soliton_id TABLE_PREFIX_LEN with
  | Err e => Err e
  | Ok (p, buf) =>
      if negb (bytes_eqb p TABLE_PREFIX) then Err InvalidDataType
      else match get_i64 buf with Ok (i, _) => Ok i | Err e => Err e end
  end.

Definition decode_int_handle (soliton_id : list Z) : rM Z :=
  match check_record_soliton_id soliton_id with
  | Err e => errR e
  | Ok _ =>
      rbind (λ s, match get_i64 s with Ok (i, _) => okR i | Err e => errR e end)
        (liftR (slice_from soliton_id PREFIX_LEN))
  end.

Definition decode_common_handle (soliton_id : list Z) : rM (list Z) :=
  match check_record_soliton_id soliton_id with
  | Err e => errR e
  | Ok _ => liftR (slice_from soliton_id PREFIX_LEN)
  end.

(** ** Values *)

Definition flatten (data : DatumType) : evalM DatumType :=
  match data with
  | Dur d => mret (I64 (to_nanos d))
  | DTime t => u ← to_packed_u64 t; mret (U64 u)
  | _ => mret data
  end.

Definition plain_type (t : FieldTypeTp) : bool :=
  match t with
  | TpTiny | TpShort | TpYear | TpInt24 | TpLong | TpLongLong | TpDouble | TpTinyBlob
  | TpMediumBlob | TpBlob | TpLongBlob | TpVarChar | TpString | TpNewDecimal | TpJSON => true
  | _ => false
  end.

(** The [debug_assert] panics on any other type, as a debug build does. *)
Definition unflatten (datum : DatumType) (field_type : ColumnInfo) : evalM DatumType :=
  match datum with
  | Null => mret datum
  | _ =>
      match col_tp field_type with
      | TpFloat => f ← lift_out (datum_f64 datum); mret (F64 (f64_as_f32 f))
      | TpDate | TpDateTime | TpTimestamp =>
          u ← lift_out (datum_u64 datum);
          t ← from_packed_u64 u (col_tp field_type) (as_i8 (col_decimal field_type));
          mret (DTime t)
      | TpDuration =>
          i ← lift_out (datum_i64 datum);
          r ← lift_out (from_nanos i (as_i8 (col_decimal field_type)));
          d ← lift_res r; mret (Dur d)
      | TpEnum | TpSet | TpBit => fail Other
      | t => if plain_type t then mret datum else λ _, Panic
      end
  end.

Definition decode_col_causet_locale (data : list Z) (col : ColumnInfo) : evalM DatumType :=
  r ← lift_out (read_datum data); r ← lift_res r; unflatten r.1 col.

(** [decode_index_soliton_id] *)
Fixpoint decode_index_loop (buf : list Z) (infos : list ColumnInfo) : evalM (list DatumType) :=
  match infos with
  | [] => mret []
  | info :: infos =>
      match buf with
      | [] => fail Other
      | _ =>
          r ← lift_out (read_datum buf); r ← lift_res r;
          v ← unflatten r.1 info;
          vs ← decode_index_loop r.2 infos;
          mret (v :: vs)
      end
  end.

Definition decode_index_soliton_id (encoded : list Z) (infos : list ColumnInfo) : evalM (list DatumType) :=
  buf ← lift_out (slice_from encoded (PREFIX_LEN + ID_LEN)); decode_index_loop buf infos.

(** ** Rows *)

(** The loop of [decode_row] over the identifiers and values. *)
Fixpoint decode_pairs (cols : gmap Z ColumnInfo) (l : list DatumType) (event : gmap Z DatumType)
    : evalM (gmap Z DatumType) :=
  match l with
  | [] => mret event
  | [_] => λ _, Panic
  | id :: v :: l =>
      id ← lift_out (datum_i64 id);
      match cols !! id with
      | Some ci => v ← unflatten v ci; decode_pairs cols l (<[id := v]> event)
      | None => decode_pairs cols l event
      end
  end.

Definition decode_row (data : list Z) (cols : gmap Z ColumnInfo) : evalM (gmap Z DatumType) :=
  r ← lift_out (decode data);
  causet_locales ← lift_res r;
  match causet_locales with
  | [] | Null :: _ => mret ∅
  | _ =>
      if Z.land (zlen causet_locales) 1 =? 1 then fail Other
      else decode_pairs cols causet_locales ∅
  end.

Record RowColMeta := mkMeta { offset : Z; meta_length : Z }.
Record RowColsDict := mkDict { dict_locale : list Z; dict_cols : gmap Z RowColMeta }.

Definition dict_len (d : RowColsDict) : Z := Z.of_nat (size (dict_cols d)).
Definition dict_is_empty (d : RowColsDict) : bool := dict_len d =? 0.

Definition dict_get (d : RowColsDict) (soliton_id : Z) : outcome (option (list Z)) :=
  match dict_cols d !! soliton_id with
  | Some meta => s ← slice (dict_locale d) (offset meta) (offset meta + meta_length meta); Ret (Some s)
  | None => Ret None
  end.

Definition dict_append (d : RowColsDict) (cid : Z) (causet_locale : list Z) : RowColsDict :=
  mkDict (dict_locale d ++ causet_locale)
    (<[cid := mkMeta (zlen (dict_locale d)) (zlen causet_locale)]> (dict_cols d)).

(** [get_column_causet_locales_and_end_offsets]: [metas] are the values of the map in
    the order the iterator gives them. *)
Definition column_ends (d : RowColsDict) (metas : list RowColMeta) : outcome (list Z * list Z) :=
  let start := fold_left (λ s m, if offset m <? s then offset m else s) metas (zlen (dict_locale d)) in
  let length := fold_left (λ l m, l + meta_length m) metas 0 in
  end_offsets ← mapM (λ m, usize (offset m + meta_length m - start)) metas;
  s ← slice (dict_locale d) start (start + length);
  Ret (s, end_offsets).

(** [cut_row_einstein_db]: each turn reads at least a byte. *)
Fixpoint cut_loop (fuel : nat) (length : Z) (cols : gset Z) (tmp_data : list Z)
    (meta_map : gmap Z RowColMeta) : rM (gmap Z RowColMeta) :=
  if bool_decide (tmp_data = []) || (Z.of_nat (size cols) <=? Z.of_nat (size meta_map)) then okR meta_map
  else
    match fuel with
    | O => Panic
    | S fuel =>
        rbind (λ r : DatumType * list Z,
        rbind (λ id,
        rbind (λ s : list Z * list Z,
          let offset := length - zlen r.2 in
          let meta_map :=
            if bool_decide (id ∈ cols) then <[id := mkMeta offset (zlen s.1)]> meta_map else meta_map in
          cut_loop fuel length cols s.2 meta_map)
          (split_datum r.2 false)) (liftR (datum_i64 r.1))) (read_datum tmp_data)
    end.

Definition cut_row_einstein_db (data : list Z) (cols : gset Z) : rM RowColsDict :=
  rbind (λ meta_map, okR (mkDict data meta_map)) (cut_loop (length data) (zlen data) cols data ∅).

(** [cut_row_causet_record]: the columns found, re-encoded one after the other. *)
Definition cut_record_step (row_slice : RowSlice) (st : list Z * gmap Z RowColMeta) (col : ColumnInfo)
    : rM (list Z * gmap Z RowColMeta) :=
  let '(buf, meta_map) := st in
  let id := column_id col in
  let record (buf buf' : list Z) :=
    okR (buf', <[id := mkMeta (zlen buf) (zlen buf' - zlen buf)]> meta_map) in
  rbind (λ found,
    match found with
    | Some (start, offset) =>
        rbind (λ buf, rbind (λ datum, rbind (λ buf', record buf buf')
          (Ret (write_causet_record_as_datum buf datum col)))
          (liftR (slice (row_causet_locales row_slice) start offset)))
          (Ret (write_column_id_datum buf id))
    | None =>
        if search_in_null_ids row_slice id then
          rbind (λ buf, rbind (λ buf', record buf buf') (Ret (write_evaluable_datum_null buf)))
            (Ret (write_column_id_datum buf id))
        else okR st
    end) (Ret (search_in_non_null_ids row_slice id)).

Definition cut_row_causet_record (data : list Z) (cols : list ColumnInfo) : rM RowColsDict :=
  rbind (λ row_slice,
  rbind (λ st : list Z * gmap Z RowColMeta, okR (mkDict st.1 st.2))
    (foldR (cut_record_step row_slice) ([], ∅) cols)) (Ret (row_from_bytes data)).

Definition cut_row (data : list Z) (col_ids : gset Z) (cols : list ColumnInfo) : rM RowColsDict :=
  match cols, data with
  | [], _ | _, [] => okR (mkDict data ∅)
  | _, b :: rest =>
      if bool_decide (rest = []) && (b =? NIL_FLAG) then okR (mkDict data ∅)
      else if b =? CODEC_VERSION then cut_row_causet_record data cols
      else cut_row_einstein_db data col_ids
  end.

(** [cut_idx_soliton_id] *)
Fixpoint cut_idx_loop (length : Z) (col_ids : list Z) (tmp_data : list Z) (meta_map : gmap Z RowColMeta)
    : rM (gmap Z RowColMeta * list Z) :=
  match col_ids with
  | [] => okR (meta_map, tmp_data)
  | id :: col_ids =>
      let offset := length - zlen tmp_data in
      rbind (λ s : list Z * list Z,
        cut_idx_loop length col_ids s.2 (<[id := mkMeta offset (zlen s.1)]> meta_map))
        (split_datum tmp_data false)
  end.

Definition cut_idx_soliton_id (soliton_id : list Z) (col_ids : list Z) : rM (RowColsDict * option Z) :=
  rbind (λ tmp_data,
  rbind (λ r : gmap Z RowColMeta * list Z,
    match r.2 with
    | [] => okR (mkDict soliton_id r.1, None)
    | rest =>
        rbind (λ d : DatumType * list Z,
          rbind (λ h, okR (mkDict soliton_id r.1, Some h)) (liftR (datum_i64 d.1))) (read_datum rest)
    end) (cut_idx_loop (zlen soliton_id) col_ids tmp_data ∅))
    (liftR (slice_from soliton_id (PREFIX_LEN + ID_LEN))).
End Keys.
