(* ===== verification/TableRows.v ===== *)
(** * TableRows: keys and rows of tables

    What the keys carry and their order, first; then cutting a row and decoding it agree,
    whatever the types of the columns, and index keys give back their values. *)
From Stdlib Require Import ZArith Lia.
From stdpp Require Import base list numbers gmap.
From S2P Require Import Prelude Words EvalCtx Slice DecimalBase Duration ToInt Float Datum DatumCodec DatumWire Table.
#[local] Open Scope Z_scope.

#[local] Notation zlen l := (Z.of_nat (length l)).

(** The integers of keys are written so that the bytes are ordered as the integers. *)
Class KeyOrder {X : Externals} {C : Codec} : Prop := {
  i64_comparable : ∀ i j, is_i64 i → is_i64 j → bytes_cmp (put_i64 i) (put_i64 j) = (i ?= j);
}.

Lemma bytes_cmp_app a b c d : length a = length b →
  bytes_cmp (a ++ c) (b ++ d) = match bytes_cmp a b with Eq => bytes_cmp c d | o => o end.
Proof.
  revert b. induction a as [|x a IH]; intros [|y b] Hl; try done. cbn. injection Hl as Hl.
  destruct (x ?= y); [by apply IH|done..].
Qed.

Section Keys.
Context {TP : TenPow} {FS : Fsp} {X : Externals} {C : Codec} {L : CodecLaws} {O : KeyOrder} {TX : TableExternals}.

Lemma put_i64_len i : length (put_i64 i) = 8%nat.
Proof. pose proof (i64_len i) as H. destruct sizes as (E & _). rewrite E in H. lia. Qed.

(** The parts of a record or index key. *)
Lemma key_shape table_id sep id rest : length sep = 2%nat →
  let k := TABLE_PREFIX ++ put_i64 table_id ++ sep ++ put_i64 id ++ rest in
  extract_table_prefix k = okR (TABLE_PREFIX ++ put_i64 table_id)
  ∧ slice_from k PREFIX_LEN = Ret (put_i64 id ++ rest)
  ∧ slice_from k (PREFIX_LEN + ID_LEN) = Ret rest
  ∧ zlen k = RECORD_ROW_KEY_LEN + zlen rest.
Proof.
  intros Hs k. pose proof (put_i64_len table_id) as H1. pose proof (put_i64_len id) as H2.
  assert (Hl : zlen k = RECORD_ROW_KEY_LEN + zlen rest).
  { unfold k. rewrite !length_app. cbn [length TABLE_PREFIX]. unfold RECORD_ROW_KEY_LEN, PREFIX_LEN, TABLE_PREFIX_LEN, ID_LEN, SEP_LEN. lia. }
  split_and!; [| | |exact Hl].
  - assert (Hst : starts_with k TABLE_PREFIX = true) by reflexivity.
    unfold extract_table_prefix. rewrite Hl, Hst. cbn [negb orb].
    rewrite (proj2 (Z.ltb_ge _ _)) by (unfold RECORD_ROW_KEY_LEN, PREFIX_LEN, TABLE_PREFIX_KEY_LEN, TABLE_PREFIX_LEN, ID_LEN, SEP_LEN; lia).
    unfold k. rewrite (app_assoc TABLE_PREFIX).
    assert (slice ((TABLE_PREFIX ++ put_i64 table_id) ++ sep ++ put_i64 id ++ rest) 0 TABLE_PREFIX_KEY_LEN
      = Ret (TABLE_PREFIX ++ put_i64 table_id)) as ->; [|done].
    apply (slice_mid []); [done|]. rewrite length_app. cbn [length TABLE_PREFIX]. unfold TABLE_PREFIX_KEY_LEN, TABLE_PREFIX_LEN, ID_LEN. lia.
  - unfold k. rewrite !app_assoc. rewrite <- (app_assoc _ (put_i64 id)). apply slice_from_mid.
    rewrite !length_app. cbn [length TABLE_PREFIX]. unfold PREFIX_LEN, TABLE_PREFIX_LEN, ID_LEN, SEP_LEN. lia.
  - unfold k. rewrite !app_assoc. apply slice_from_mid.
    rewrite !length_app. cbn [length TABLE_PREFIX]. unfold PREFIX_LEN, TABLE_PREFIX_LEN, ID_LEN, SEP_LEN. lia.
Qed.

Lemma decode_table_id_key table_id rest : is_i64 table_id →
  decode_table_id (TABLE_PREFIX ++ put_i64 table_id ++ rest) = Ok table_id.
Proof.
  intros Ht. unfold decode_table_id, read_bytes. rewrite length_app. cbn [length TABLE_PREFIX].
  rewrite (proj2 (Z.ltb_ge _ _)) by (unfold TABLE_PREFIX_LEN; lia).
  change (take _ (TABLE_PREFIX ++ put_i64 table_id ++ rest)) with TABLE_PREFIX.
  change (drop _ (TABLE_PREFIX ++ put_i64 table_id ++ rest)) with (put_i64 table_id ++ rest).
  change (bytes_eqb TABLE_PREFIX TABLE_PREFIX) with true. cbn [negb]. by rewrite i64_inverse.
Qed.

Lemma row_key_eq table_id handle :
  encode_row_soliton_id table_id handle = TABLE_PREFIX ++ put_i64 table_id ++ RECORD_PREFIX_SEP ++ put_i64 handle ++ [].
Proof. unfold encode_row_soliton_id, append_table_record_prefix. cbn [app]. by rewrite app_nil_r, <- !app_assoc. Qed.

Lemma index_key_eq table_id idx encoded :
  encode_index_seek_soliton_id table_id idx encoded = TABLE_PREFIX ++ put_i64 table_id ++ INDEX_PREFIX_SEP ++ put_i64 idx ++ encoded.
Proof. unfold encode_index_seek_soliton_id, append_table_index_prefix. cbn [app]. by rewrite <- !app_assoc. Qed.

(** A record key carries its table and its handle, and an index key its table,
    its index and the encoded values, each found at its place. *)
Theorem keys_readback table_id id encoded : is_i64 table_id → is_i64 id →
  let r := encode_row_soliton_id table_id id in
  let i := encode_index_seek_soliton_id table_id id encoded in
  (zlen r = RECORD_ROW_KEY_LEN ∧ decode_table_id r = Ok table_id
   ∧ extract_table_prefix r = okR (TABLE_PREFIX ++ put_i64 table_id)
   ∧ ∃ s, slice_from r PREFIX_LEN = Ret s ∧ get_i64 s = Ok (id, []))
  ∧ decode_table_id i = Ok table_id ∧ extract_table_prefix i = okR (TABLE_PREFIX ++ put_i64 table_id)
  ∧ (∃ s, slice_from i PREFIX_LEN = Ret s ∧ get_i64 s = Ok (id, encoded))
  ∧ slice_from i (PREFIX_LEN + ID_LEN) = Ret encoded.
Proof.
  intros Ht Hi r i. unfold r, i. rewrite row_key_eq, index_key_eq.
  destruct (key_shape table_id RECORD_PREFIX_SEP id [] eq_refl) as (E1 & E2 & _ & E3).
  destruct (key_shape table_id INDEX_PREFIX_SEP id encoded eq_refl) as (F1 & F2 & F3 & _).
  split_and!; try done; try (by apply decode_table_id_key).
  - exists (put_i64 id ++ []). by rewrite E2, i64_inverse.
  - exists (put_i64 id ++ encoded). by rewrite F2, i64_inverse.
Qed.

(** The checks look for the separator at the start of the key, which is the table
    prefix: no record key passes as a record key, no index key as an index key, and no
    handle is ever decoded. *)
Theorem key_checks_reject table_id id encoded :
  let r := encode_row_soliton_id table_id id in
  let i := encode_index_seek_soliton_id table_id id encoded in
  check_record_soliton_id r = Err InvalidDataType ∧ check_index_soliton_id i = Err InvalidDataType
  ∧ decode_int_handle r = errR InvalidDataType ∧ decode_common_handle r = errR InvalidDataType.
Proof.
  intros r i. assert (Hr : check_record_soliton_id r = Err InvalidDataType).
  { unfold check_record_soliton_id, r. rewrite row_key_eq. destruct (_ <? _); done. }
  assert (Hi : check_index_soliton_id i = Err InvalidDataType).
  { unfold check_index_soliton_id, i. rewrite index_key_eq. destruct (_ <? _); done. }
  split_and!; [done|done|unfold decode_int_handle; by rewrite Hr|unfold decode_common_handle; by rewrite Hr].
Qed.

(** Keys are ordered by table, then index keys before record keys, record keys by
    handle, and index keys by index and then by the encoded values. *)
Theorem key_order t t' h h' e e' : is_i64 t → is_i64 t' → is_i64 h → is_i64 h' →
  bytes_cmp (encode_row_soliton_id t h) (encode_row_soliton_id t' h')
    = match t ?= t' with Eq => h ?= h' | o => o end
  ∧ bytes_cmp (encode_index_seek_soliton_id t h e) (encode_index_seek_soliton_id t' h' e')
    = match t ?= t' with Eq => match h ?= h' with Eq => bytes_cmp e e' | o => o end | o => o end
  ∧ bytes_cmp (encode_index_seek_soliton_id t h e) (encode_row_soliton_id t' h')
    = match t ?= t' with Eq => Lt | o => o end.
Proof.
  intros Ht Ht' Hh Hh'. rewrite !row_key_eq, !index_key_eq.
  assert (Hid : ∀ a b x y, is_i64 a → is_i64 b →
    bytes_cmp (put_i64 a ++ x) (put_i64 b ++ y) = match a ?= b with Eq => bytes_cmp x y | o => o end).
  { intros a b x y Ha Hb. by rewrite bytes_cmp_app, i64_comparable by (done || by rewrite !put_i64_len). }
  split_and!; rewrite (bytes_cmp_app TABLE_PREFIX), Hid by done;
    change (bytes_cmp TABLE_PREFIX TABLE_PREFIX) with Eq; destruct (t ?= t'); try done.
  - rewrite (bytes_cmp_app RECORD_PREFIX_SEP), Hid by done. cbn. by destruct (h ?= h').
  - by rewrite (bytes_cmp_app INDEX_PREFIX_SEP), Hid by done.
Qed.
End Keys.


Section Rows.
Context {TP : TenPow} {FS : Fsp} {X : Externals} {C : Codec} {L : CodecLaws} {TX : TableExternals}.

(** A column of an encoded row: its identifier, its value, what is read back, and the
    bytes of both. *)
Record column := mkCol { cid : Z; cval : DatumType; cback : DatumType; cidb : list Z; cvb : list Z }.

Definition col_encodes (c : column) : Prop :=
  is_i64 (cid c) ∧ encodes false (I64 (cid c)) (I64 (cid c)) (cidb c)
  ∧ encodes false (cval c) (cback c) (cvb c) ∧ decoded (cval c) (cback c).

Definition row_bytes (l : list column) : list Z := concat (map (λ c, cidb c ++ cvb c) l).

(** The datums of a row: identifiers and values in turn. *)
Definition row_datums (row : list (Z * DatumType)) : list DatumType :=
  concat (map (λ x, [I64 x.1; x.2]) row).

(** ** The dictionary of a row *)

(** What [cut_row_einstein_db] records of the columns, the first one at [off]. *)
Fixpoint metas (cols : gset Z) (off : Z) (l : list column) (m : gmap Z RowColMeta) : gmap Z RowColMeta :=
  match l with
  | [] => m
  | c :: l =>
      metas cols (off + zlen (cidb c) + zlen (cvb c)) l
        (if bool_decide (cid c ∈ cols) then <[cid c := mkMeta (off + zlen (cidb c)) (zlen (cvb c))]> m else m)
  end.

Lemma metas_notin cols l : ∀ off m id, id ∉ map cid l ∨ id ∉ cols → metas cols off l m !! id = m !! id.
Proof.
  induction l as [|c l IH]; intros off m id H; cbn [metas]; [done|]. cbn in H.
  rewrite IH by (destruct H as [H|H]; [left; set_solver|by right]).
  case_bool_decide; [|done]. rewrite lookup_insert_ne; [done|]. intros <-. destruct H as [H|H]; [set_solver|done].
Qed.

Lemma metas_in cols l : NoDup (map cid l) → ∀ l1 c l2 off m, l = l1 ++ c :: l2 → cid c ∈ cols →
  metas cols off l m !! cid c
  = Some (mkMeta (off + zlen (row_bytes l1) + zlen (cidb c)) (zlen (cvb c))).
Proof.
  intros Hnd l1. revert l Hnd. induction l1 as [|d l1 IH]; intros l Hnd c l2 off m -> Hc; cbn [app metas].
  - rewrite bool_decide_eq_true_2 by done. cbn in Hnd. apply NoDup_cons in Hnd as [Hni _].
    rewrite metas_notin by (by left). rewrite lookup_insert_eq. cbn. do 2 f_equal. lia.
  - cbn in Hnd. apply NoDup_cons in Hnd as [_ Hnd].
    rewrite (IH (l1 ++ c :: l2) Hnd c l2) by done. unfold row_bytes. cbn [map concat]. rewrite !length_app. do 2 f_equal. lia.
Qed.

(** Once every wanted column is known the rest of the row is not looked at. *)
Lemma metas_full cols l : ∀ off m, dom m ⊆ cols → (size cols <= size m)%nat →
  (∀ id, id ∈ map cid l → id ∉ dom m) → metas cols off l m = m.
Proof.
  induction l as [|c l IH]; intros off m Hd Hsz Hn; cbn [metas]; [done|].
  assert (Hc : cid c ∉ cols).
  { assert (Hdc : dom m ≡ cols).
    { apply set_subseteq_size_equiv; [done|]. by rewrite size_dom. }
    rewrite <- Hdc. apply Hn. cbn. set_solver. }
  rewrite bool_decide_eq_false_2 by done. apply IH; [done|done|]. intros id Hid. apply Hn. cbn. set_solver.
Qed.

Lemma cut_loop_spec cols total l : Forall col_encodes l → NoDup (map cid l) → ∀ fuel off m,
  (length (row_bytes l) <= fuel)%nat → total = off + zlen (row_bytes l) → dom m ⊆ cols →
  (∀ id, id ∈ map cid l → id ∉ dom m) →
  cut_loop fuel total cols (row_bytes l) m = okR (metas cols off l m).
Proof.
  induction 1 as [|c l Hc Hl IH]; intros Hnd fuel off m Hf Htot Hd Hn.
  { unfold row_bytes. cbn [map concat]. destruct fuel; cbn [cut_loop]; done. }
  destruct (Z.leb_spec (Z.of_nat (size cols)) (Z.of_nat (size m))) as [Hfull|Hmore].
  { rewrite metas_full by (done || lia).
    destruct fuel; cbn [cut_loop]; rewrite (proj2 (Z.leb_le _ _) Hfull), orb_true_r; done. }
  destruct Hc as (Hid & Ei & Ev & _). unfold row_bytes in *. cbn [map concat] in *. fold (row_bytes l) in *.
  rewrite <- app_assoc in *.
  assert (Hi1 : (0 < length (cidb c))%nat).
  { pose proof (enc_pos _ _ _ _ Ei). destruct (cidb c); [done|cbn; lia]. }
  destruct fuel as [|fuel]; [rewrite length_app in Hf; lia|]. cbn [cut_loop].
  rewrite bool_decide_eq_false_2 by (destruct (cidb c); [cbn in Hi1; lia|done]).
  rewrite (proj2 (Z.leb_gt _ _) Hmore). cbn [orb].
  rewrite (enc_read _ _ _ _ Ei). cbn [rbind fst snd datum_i64 liftR okR].
  rewrite (enc_split _ _ _ _ Ev). cbn [rbind fst snd]. cbv zeta.
  replace (total - zlen (cvb c ++ row_bytes l)) with (off + zlen (cidb c)) by (rewrite Htot, !length_app; lia).
  cbn in Hnd. apply NoDup_cons in Hnd as [Hni Hnd]. cbn [metas].
  apply IH; [done|rewrite !length_app in Hf; lia|rewrite Htot, !length_app; lia| |].
  - case_bool_decide; [rewrite dom_insert_L|]; set_solver.
  - intros id Hin. assert (id ≠ cid c) by set_solver. assert (id ∉ dom m) by (apply Hn; cbn; set_solver).
    case_bool_decide; [rewrite dom_insert_L|]; set_solver.
Qed.

(** The dictionary of a row: each wanted column is found with its bytes. *)
Lemma cut_row_spec cols l : Forall col_encodes l → NoDup (map cid l) → ∃ d,
  cut_row_einstein_db (row_bytes l) cols = okR d ∧ dict_locale d = row_bytes l
  ∧ (∀ c, c ∈ l → cid c ∈ cols → dict_get d (cid c) = Ret (Some (cvb c)))
  ∧ (∀ id, id ∉ map cid l ∨ id ∉ cols → dict_get d id = Ret None).
Proof.
  intros Hl Hnd. exists (mkDict (row_bytes l) (metas cols 0 l ∅)). split_and!; [| done| |].
  - unfold cut_row_einstein_db. rewrite (cut_loop_spec cols _ l Hl Hnd _ 0); [done|done|lia|set_solver|set_solver].
  - intros c Hc Hcol. apply list_elem_of_split in Hc as (l1 & l2 & El). unfold dict_get. cbn [dict_cols dict_locale].
    rewrite (metas_in cols l Hnd l1 c l2 0 ∅ El Hcol). cbn [offset meta_length].
    assert (row_bytes l = (row_bytes l1 ++ cidb c) ++ cvb c ++ row_bytes l2) as ->.
    { rewrite El. unfold row_bytes. rewrite map_app, concat_app. cbn [map concat]. by rewrite <- !app_assoc. }
    rewrite slice_mid; [done|rewrite length_app; lia|rewrite length_app; lia].
  - intros id Hid. unfold dict_get. cbn [dict_cols]. by rewrite metas_notin.
Qed.

(** ** From the datums of a row to its columns *)

Definition pairs (l : list column) : list (Z * DatumType) := map (λ c, (cid c, cval c)) l.

Lemma row_columns row : Forall is_i64 row.*1 → Forall codable row.*2 →
  ∃ l, row = pairs l ∧ Forall col_encodes l.
Proof.
  induction row as [|[id v] row IH]; intros Hi Hv; [by exists []|].
  apply Forall_cons_1 in Hi as [Hi His]. apply Forall_cons_1 in Hv as [Hv Hvs]. cbn in Hi, Hv.
  destruct (IH His Hvs) as (l & -> & Hl). destruct (encodes_i64 false id Hi) as [ib Ei].
  destruct (encodes_codable false v Hv) as (v' & vb & Ev & Hd).
  exists (mkCol id v v' ib vb :: l). split; [done|]. by constructor.
Qed.

Lemma row_encodes l : Forall col_encodes l → ∃ vs' bss,
  Forall3 (λ v v' bs, encodes false v v' bs) (row_datums (pairs l)) vs' bss
  ∧ vs' = concat (map (λ c, [I64 (cid c); cback c]) l) ∧ concat bss = row_bytes l.
Proof.
  induction 1 as [|c l (_ & Ei & Ev & _) _ (vs' & bss & H & -> & E)]; [exists [], []; split_and!; constructor|].
  eexists (I64 (cid c) :: cback c :: _), (cidb c :: cvb c :: bss). split_and!; [apply Forall3_cons; [exact Ei|apply Forall3_cons; [exact Ev|exact H]]|done|].
  unfold row_bytes in *. cbn [concat map]. by rewrite E, app_assoc.
Qed.

(** Writing the row writes the columns one after the other. *)
Lemma encode_row_bytes l n ctx : Forall col_encodes l → approximate_size (row_datums (pairs l)) false = Ret n →
  encode (row_datums (pairs l)) false ctx = Ret (Ok (row_bytes l), ctx).
Proof.
  intros Hl Hn. destruct (row_encodes l Hl) as (vs' & bss & H & _ & E).
  unfold encode, encode_to, write_datum. rewrite Hn. bindr.
  rewrite <- (app_nil_r (row_datums _)), (write_loop_app _ [] false ctx bss vs') by done. cbn. by rewrite E.
Qed.

Lemma approximate_elem vs comparable n v : approximate_size vs comparable = Ret n → v ∈ vs →
  ∃ k, approximate_size [v] comparable = Ret k.
Proof.
  intros Hn Hv. revert n Hn. induction Hv as [v vs|v w vs Hv IH]; intros n Hn; cbn [approximate_size] in *;
    apply bind_Ret in Hn as (k & Hk & Hn); apply bind_Ret in Hn as (m & Hm & _); [|by eapply IH].
  exists k. rewrite Hk. bindr. unfold approximate_one in Hk. apply bind_Ret in Hk as (j & _ & Hk).
  apply chk_Ret in Hk as [-> Hr]. rewrite Z.add_0_r. by apply chk_ok.
Qed.

Lemma value_bytes l n c ctx : Forall col_encodes l → approximate_size (row_datums (pairs l)) false = Ret n → c ∈ l →
  encode_causet_locale [cval c] ctx = Ret (Ok (cvb c), ctx).
Proof.
  intros Hl Hn Hc. destruct (approximate_elem _ _ _ (cval c) Hn) as [k Hk].
  { unfold row_datums, pairs. rewrite map_map. apply list_elem_of_In, List.in_concat.
    exists [I64 (cid c); cval c]. split; [|by right; left].
    apply in_map_iff. exists c. split; [done|]. by apply list_elem_of_In. }
  apply list_elem_of_lookup in Hc as [i Hi]. destruct (Forall_lookup_1 _ _ _ _ Hl Hi) as (_ & _ & Ev & _).
  unfold encode_causet_locale, encode, encode_to, write_datum. rewrite Hk. bindr. cbn [write_loop].
  rewrite (enc_write _ _ _ _ Ev). done.
Qed.

Lemma pairs_ids l : (pairs l).*1 = map cid l.
Proof. unfold pairs. induction l as [|c l IH]; cbn; [done|]. by f_equal. Qed.

Lemma pairs_elem l id v : (id, v) ∈ pairs l → ∃ c, c ∈ l ∧ cid c = id ∧ cval c = v.
Proof. intros (c & [= -> ->] & Hc)%list_elem_of_fmap. eauto. Qed.

(** Cutting an encoded row gives, for every wanted column the row has, the bytes
    its value is encoded to, and nothing for any other column. *)
Theorem cut_row_exact cols row n ctx : NoDup row.*1 → Forall is_i64 row.*1 → Forall codable row.*2 →
  approximate_size (row_datums row) false = Ret n → ∃ bs d,
  encode (row_datums row) false ctx = Ret (Ok bs, ctx)
  ∧ cut_row_einstein_db bs cols = okR d ∧ dict_locale d = bs
  ∧ (∀ id v, (id, v) ∈ row → id ∈ cols → ∃ vb,
       encode_causet_locale [v] ctx = Ret (Ok vb, ctx) ∧ dict_get d id = Ret (Some vb))
  ∧ (∀ id, id ∉ row.*1 ∨ id ∉ cols → dict_get d id = Ret None).
Proof.
  intros Hnd Hi Hv Hn. destruct (row_columns row Hi Hv) as (l & -> & Hl). rewrite pairs_ids in *.
  destruct (cut_row_spec cols l Hl Hnd) as (d & E & Ed & Hin & Hout).
  exists (row_bytes l), d. split_and!; [by eapply encode_row_bytes|done|done| |done].
  intros id v (c & Hc & <- & <-)%pairs_elem Hcol. exists (cvb c). split; [by eapply value_bytes|by apply Hin].
Qed.

(** ** Decoding the row *)

Lemma unflatten_plain v ci : plain_type (col_tp ci) = true → unflatten v ci = mret v.
Proof. intros H. unfold unflatten. by destruct v, (col_tp ci). Qed.

(** Decoding by way of the cut row: the bytes kept for each wanted column, in the order of the
    row, are decoded one after the other in one context, and the first failure is the answer. *)
Fixpoint decode_columns (d : RowColsDict) (infos : gmap Z ColumnInfo) (ids : list Z)
    (event : gmap Z DatumType) : evalM (gmap Z DatumType) :=
  match ids with
  | [] => mret event
  | id :: ids =>
      match infos !! id with
      | None => decode_columns d infos ids event
      | Some ci =>
          data ← lift_out (dict_get d id);
          match data with
          | None => decode_columns d infos ids event
          | Some vb => v ← decode_col_causet_locale vb ci; decode_columns d infos ids (<[id := v]> event)
          end
      end
  end.

Definition back_pairs (l : list column) : list DatumType := concat (map (λ c, [I64 (cid c); cback c]) l).

(** The bytes of a value alone are decoded to what is read back, made a value of the column. *)
Lemma decode_col_spec c ci ctx : col_encodes c →
  decode_col_causet_locale (cvb c) ci ctx = unflatten (cback c) ci ctx.
Proof.
  intros (_ & _ & Ev & _). unfold decode_col_causet_locale, mbind, evalM_bind. cbn [lift_out].
  pose proof (enc_read _ _ _ _ Ev []) as Hr. rewrite app_nil_r in Hr. by rewrite Hr.
Qed.

Lemma decode_pairs_cut d infos l : Forall col_encodes l →
  (∀ c, c ∈ l → cid c ∈ dom infos → dict_get d (cid c) = Ret (Some (cvb c))) → ∀ event ctx,
  decode_pairs infos (back_pairs l) event ctx = decode_columns d infos (map cid l) event ctx.
Proof.
  induction 1 as [|c l Hc _ IH]; intros Hd event ctx; [done|].
  unfold back_pairs in *. cbn [map concat app decode_pairs decode_columns].
  assert (∀ c', c' ∈ l → cid c' ∈ dom infos → dict_get d (cid c') = Ret (Some (cvb c'))) as Hd'
    by (intros c' Hc'; apply Hd; by right).
  specialize (IH Hd'). unfold mbind, evalM_bind. cbn [datum_i64 lift_out].
  destruct (infos !! cid c) as [ci|] eqn:Eci; cbn; rewrite ?Eci; [|apply IH].
  rewrite (Hd c ltac:(by left) ltac:(by eapply elem_of_dom_2)). cbn. rewrite decode_col_spec by done.
  destruct (unflatten (cback c) ci ctx) as [ [ [v|e] ctx'] |]; [apply IH|done..].
Qed.

(** A loop that succeeds: every wanted column has the value made of what is read back. *)
Lemma decode_pairs_Ok infos l : NoDup (map cid l) → ∀ event ctx m ctx',
  decode_pairs infos (back_pairs l) event ctx = Ret (Ok m, ctx') →
  (∀ c ci, c ∈ l → infos !! cid c = Some ci →
     ∃ w c1 c2, m !! cid c = Some w ∧ unflatten (cback c) ci c1 = Ret (Ok w, c2))
  ∧ ∀ id, id ∉ map cid l ∨ id ∉ dom infos → m !! id = event !! id.
Proof.
  unfold back_pairs. induction l as [|c l IH]; intros Hnd event ctx m ctx' H; cbn [map concat app decode_pairs] in H.
  { injection H as <- _. split; [|done]. intros c ci []%elem_of_nil. }
  cbn in Hnd. apply NoDup_cons in Hnd as [Hni Hnd]. unfold mbind, evalM_bind in H. cbn [datum_i64 lift_out] in H.
  destruct (infos !! cid c) as [ci|] eqn:Eci; cbn in H; rewrite ?Eci in H.
  - destruct (unflatten (cback c) ci ctx) as [ [ [w|e] ctx1] |] eqn:Eu; [|done..]. cbn in H.
    destruct (IH Hnd _ _ _ _ H) as [Hin Hout]. split.
    + intros c' ci' [->|Hc']%elem_of_cons Hci'; [|by apply Hin]. simplify_eq.
      exists w, ctx, ctx1. split; [|done]. rewrite Hout by (by left). by rewrite lookup_insert_eq.
    + intros id Hid. rewrite Hout by (destruct Hid as [Hid|Hid]; [left; set_solver|by right]).
      rewrite lookup_insert_ne; [done|]. intros <-. destruct Hid as [Hid|Hid]; [set_solver|].
      apply Hid. by apply elem_of_dom_2 in Eci.
  - destruct (IH Hnd _ _ _ _ H) as [Hin Hout]. split.
    + intros c' ci' [->|Hc']%elem_of_cons Hci'; [congruence|by apply Hin].
    + intros id Hid. apply Hout. destruct Hid as [Hid|Hid]; [left; set_solver|by right].
Qed.

(** A loop over columns all of which have a value: it succeeds, and leaves the context. *)
Lemma decode_pairs_total infos l :
  (∀ c ci, c ∈ l → infos !! cid c = Some ci → ∃ w, ∀ ctx, unflatten (cback c) ci ctx = Ret (Ok w, ctx)) →
  ∀ event ctx, ∃ m, decode_pairs infos (back_pairs l) event ctx = Ret (Ok m, ctx).
Proof.
  unfold back_pairs. induction l as [|c l IH]; intros Hw event ctx; [by exists event|].
  cbn [map concat app decode_pairs]. unfold mbind, evalM_bind. cbn [datum_i64 lift_out].
  assert (IH' := IH (λ c' ci Hc', Hw c' ci (proj2 (elem_of_cons _ _ _) (or_intror Hc')))).
  destruct (infos !! cid c) as [ci|] eqn:Eci; cbn; rewrite ?Eci; [|apply IH'].
  destruct (Hw c ci ltac:(by left) Eci) as [w Ew]. rewrite Ew. cbn. apply IH'.
Qed.

Lemma row_even l : Z.land (zlen (concat (map (λ c, [I64 (cid c); cback c]) l))) 1 = 0.
Proof.
  change 1 with (Z.ones 1). rewrite Z.land_ones by lia. change (2 ^ 1) with 2.
  assert (zlen (concat (map (λ c, [I64 (cid c); cback c]) l)) = 2 * zlen l) as ->; [|zdiv].
  induction l as [|c l IH]; [done|]. cbn [map concat]. rewrite length_app. cbn [length]. lia.
Qed.

Lemma decode_row_spec infos l ctx : Forall col_encodes l →
  decode_row (row_bytes l) infos ctx = decode_pairs infos (back_pairs l) ∅ ctx.
Proof.
  intros Hl. destruct (row_encodes l Hl) as (vs' & bss & H & Evs & Eb).
  assert (Ed : decode (row_bytes l) = Ret (Ok vs')).
  { unfold decode. rewrite <- Eb. destruct (decode_loop_app _ false bss vs' (length (concat bss)) [] [] H) as (fuel & _ & Ed);
      [by rewrite app_nil_r|]. rewrite app_nil_r in Ed. rewrite Ed. by destruct fuel. }
  unfold decode_row. unfold mbind, evalM_bind. cbn [lift_out]. rewrite Ed. cbn. rewrite Evs in *.
  pose proof (row_even l) as Hev. unfold back_pairs. destruct l as [|c l]; [done|].
  cbn [map concat app] in *. rewrite Hev. done.
Qed.

Lemma as_u64_as_i64 u : is_u64 u → as_u64 (as_i64 u) = u.
Proof. mach. unfold as_u64, as_i64. intros Hu. zdiv. Qed.

(** What the types make of what is read back: those of the list keep it, Float rounds a number
    to single precision, the types of times and Duration read it, the last three fail; no value
    stays no value. *)
Lemma unflatten_cases v ci ctx : v ≠ Null →
  (plain_type (col_tp ci) = true → unflatten v ci ctx = Ret (Ok v, ctx))
  ∧ (∀ f, col_tp ci = TpFloat → v = F64 f → f64_ok f = true → unflatten v ci ctx = Ret (Ok (F64 (f64_as_f32 f)), ctx))
  ∧ (∀ i d, col_tp ci = TpDuration → v = I64 i → from_nanos i (as_i8 (col_decimal ci)) = Ret (Ok d) →
       unflatten v ci ctx = Ret (Ok (Dur d), ctx))
  ∧ (∀ u t ctx', is_u64 u → col_tp ci = TpDate ∨ col_tp ci = TpDateTime ∨ col_tp ci = TpTimestamp → v = U64 u →
       from_packed_u64 u (col_tp ci) (as_i8 (col_decimal ci)) ctx = Ret (Ok t, ctx') →
       unflatten v ci ctx = Ret (Ok (DTime t), ctx'))
  ∧ (col_tp ci = TpEnum ∨ col_tp ci = TpSet ∨ col_tp ci = TpBit → unflatten v ci ctx = Ret (Err Other, ctx)).
Proof.
  intros Hv. split_and!.
  - intros H. by rewrite unflatten_plain.
  - intros f E -> [Hr Hb]%f64_bits_back. unfold unflatten, mbind, evalM_bind. rewrite E.
    cbn -[f64_bits f64_from_bits]. by rewrite as_u64_as_i64, Hb by (mach; lia).
  - intros i d E -> Hd. unfold unflatten, mbind, evalM_bind. rewrite E. cbn [datum_i64 lift_out]. cbn. by rewrite Hd.
  - intros u t ctx' Hu E -> Ht. unfold unflatten, mbind, evalM_bind.
    destruct E as [E|[E|E] ]; rewrite E in *; cbn; rewrite as_u64_as_i64 by done; by rewrite Ht.
  - intros E. unfold unflatten. destruct E as [E|[E|E] ]; rewrite E; by destruct v.
Qed.

(** C33. Cutting a row and decoding it agree.  Cutting an encoded row always succeeds, and keeps for
    each wanted column the row has the bytes of its value, and nothing else.  Decoding the row
    gives what decoding those bytes column by column gives, whatever the types of the columns:
    the same values, or the failure of the first column that has one (an Enum, Set or Bit
    column always has, unless its value is null), the same panics, the same warnings.  The bytes
    of one column are decoded to what is read back of its value, converted to the type of the
    column; a row that is decoded has exactly the wanted columns the row has, with those values;
    and it is decoded when each of them can be converted. *)
Theorem decode_cut_agree infos row n ctx : NoDup row.*1 → Forall is_i64 row.*1 → Forall codable row.*2 →
  approximate_size (row_datums row) false = Ret n → ∃ bs d (back : Z → DatumType),
  encode (row_datums row) false ctx = Ret (Ok bs, ctx)
  ∧ cut_row_einstein_db bs (dom infos) = okR d
  ∧ (∀ c, decode_row bs infos c = decode_columns d infos row.*1 ∅ c)
  ∧ (∀ id v ci, (id, v) ∈ row → infos !! id = Some ci → ∃ vb,
       encode_causet_locale [v] ctx = Ret (Ok vb, ctx) ∧ dict_get d id = Ret (Some vb)
       ∧ decoded v (back id) ∧ ∀ c, decode_col_causet_locale vb ci c = unflatten (back id) ci c)
  ∧ (∀ id, id ∉ row.*1 ∨ id ∉ dom infos → dict_get d id = Ret None)
  ∧ (∀ c m c', decode_row bs infos c = Ret (Ok m, c') →
       (∀ id ci, id ∈ row.*1 → infos !! id = Some ci →
          ∃ w c1 c2, m !! id = Some w ∧ unflatten (back id) ci c1 = Ret (Ok w, c2))
       ∧ ∀ id, id ∉ row.*1 ∨ id ∉ dom infos → m !! id = None)
  ∧ ((∀ id ci, id ∈ row.*1 → infos !! id = Some ci → ∃ w, ∀ c, unflatten (back id) ci c = Ret (Ok w, c)) →
       ∀ c, ∃ m, decode_row bs infos c = Ret (Ok m, c)).
Proof.
  intros Hnd Hi Hv Hn. destruct (row_columns row Hi Hv) as (l & -> & Hl). rewrite pairs_ids in *.
  destruct (cut_row_spec (dom infos) l Hl Hnd) as (d & E & Ed & Hin & Hout).
  set (back := λ id, default Null ((list_to_map (map (λ c, (cid c, cback c)) l) : gmap Z DatumType) !! id)).
  assert (∀ c, c ∈ l → back (cid c) = cback c) as Hback.
  { intros c Hc. unfold back. rewrite (elem_of_list_to_map_1 _ (cid c) (cback c)); [done| |].
    - by rewrite <- list_fmap_compose.
    - apply list_elem_of_fmap. by exists c. }
  assert (∀ id, id ∈ map cid l → ∃ c, c ∈ l ∧ id = cid c) as Hid
    by (intros id (c & -> & Hc)%list_elem_of_fmap; eauto).
  exists (row_bytes l), d, back. split_and!; [by eapply encode_row_bytes|done| | |auto| |].
  - intros c. rewrite decode_row_spec by done. by apply decode_pairs_cut.
  - intros id v ci (c & Hc & <- & <-)%pairs_elem Hci. exists (cvb c). rewrite Hback by done.
    pose proof (proj1 (Forall_forall _ _) Hl c Hc) as Hcol.
    split_and!; [by eapply value_bytes|by eapply Hin, elem_of_dom_2|by destruct Hcol as (_ & _ & _ & ?)|].
    intros c'. by apply decode_col_spec.
  - intros c m c' H. rewrite decode_row_spec in H by done.
    destruct (decode_pairs_Ok infos l Hnd _ _ _ _ H) as [H1 H2]. split; [|by intros id ?%H2].
    intros id ci (x & Hx & ->)%Hid Hci. rewrite Hback by done. by apply H1.
  - intros Hw c. rewrite decode_row_spec by done. apply decode_pairs_total.
    intros x ci Hx Hci. rewrite <- Hback by done. apply Hw; [|done]. apply list_elem_of_fmap. by exists x.
Qed.
End Rows.


Section Index.
Context {TP : TenPow} {FS : Fsp} {X : Externals} {C : Codec} {L : CodecLaws} {O : KeyOrder} {TX : TableExternals}.

(** A value of an index key: its column, what it is read back as, its bytes. *)
Definition enc_all (vs vs' : list DatumType) (bss : list (list Z)) : Prop :=
  Forall3 (λ v v' bs, encodes true v v' bs) vs vs' bss.

Lemma enc_all_length vs vs' bss : enc_all vs vs' bss → length vs = length bss ∧ length vs' = length bss.
Proof. induction 1 as [|? ? ? ? ? ? _ _ [IH1 IH2]]; cbn; lia. Qed.

(** The loop keeps what is known of other columns, and puts each value at its place. *)
Lemma cut_idx_loop_spec total rest vs vs' bss : enc_all vs vs' bss → ∀ ids m,
  length ids = length bss → NoDup ids → ∃ m',
  cut_idx_loop total ids (concat bss ++ rest) m = okR (m', rest)
  ∧ (∀ id, id ∉ ids → m' !! id = m !! id)
  ∧ ∀ i id bs, ids !! i = Some id → bss !! i = Some bs →
      m' !! id = Some (mkMeta (total - zlen (concat (drop i bss) ++ rest)) (zlen bs)).
Proof.
  induction 1 as [|v v' b vs vs' bss He H IH]; intros [|id ids] m Hl Hnd; try done.
  { exists m. split_and!; done. }
  apply NoDup_cons in Hnd as [Hni Hnd]. injection Hl as Hl.
  destruct (IH ids (<[id := mkMeta (total - zlen (concat (b :: bss) ++ rest)) (zlen b)]> m) Hl Hnd) as (m' & E & Hout & Hin).
  exists m'. split_and!.
  - cbn [cut_idx_loop concat]. rewrite <- app_assoc. rewrite (enc_split _ _ _ _ He). cbn [rbind fst snd].
    cbn [concat] in E. rewrite <- app_assoc in E. exact E.
  - intros j Hj. rewrite Hout by set_solver. apply lookup_insert_ne. set_solver.
  - intros [|i] j bs Hj Hb.
    + injection Hj as <-. injection Hb as <-. rewrite Hout by done. by rewrite lookup_insert_eq.
    + by apply (Hin i).
Qed.

Lemma encode_all vs vs' bss n ctx : enc_all vs vs' bss → approximate_size vs true = Ret n →
  encode_soliton_id vs ctx = Ret (Ok (concat bss), ctx).
Proof.
  intros H Hn. unfold encode_soliton_id, encode, encode_to, write_datum. rewrite Hn. bindr.
  rewrite <- (app_nil_r vs). by rewrite (write_loop_app vs [] true ctx bss vs') by done.
Qed.

Lemma decode_index_spec ctx rest vs vs' bss : enc_all vs vs' bss → ∀ infos, length infos = length vs →
  Forall (λ ci, plain_type (col_tp ci) = true) infos →
  decode_index_loop (concat bss ++ rest) infos ctx = Ret (Ok vs', ctx).
Proof.
  induction 1 as [|v v' b vs vs' bss He H IH]; intros [|ci infos] Hl Hp; try done.
  apply Forall_cons_1 in Hp as [Hp Hps]. injection Hl as Hl. cbn [decode_index_loop concat]. rewrite <- app_assoc.
  pose proof (enc_pos _ _ _ _ He) as Hpos. destruct b as [|x b]; [done|]. cbn [app].
  change (x :: b ++ concat bss ++ rest) with ((x :: b) ++ concat bss ++ rest).
  unfold mbind, evalM_bind. cbn [lift_out]. rewrite (enc_read _ _ _ _ He). cbn.
  rewrite (unflatten_plain _ _ Hp). cbn. by rewrite (IH infos Hl Hps).
Qed.

(** Each value alone is encoded to its bytes. *)
Lemma value_soliton_id vs ws vs' bss n i v vb ctx : enc_all vs vs' bss → approximate_size (vs ++ ws) true = Ret n →
  vs !! i = Some v → bss !! i = Some vb → encode_soliton_id [v] ctx = Ret (Ok vb, ctx).
Proof.
  intros H Hn Hv Hb. destruct (approximate_elem _ _ _ v Hn) as [k Hk].
  { apply elem_of_app. left. by eapply list_elem_of_lookup_2. }
  destruct (lookup_lt_is_Some_2 vs' i) as [v' Hv'].
  { destruct (enc_all_length _ _ _ H) as [_ ->]. by eapply lookup_lt_Some. }
  pose proof (Forall3_lookup_lmr _ _ _ _ _ _ _ _ H Hv Hv' Hb) as Ev. cbn in Ev.
  rewrite (encode_all [v] [v'] [vb] k ctx); [cbn; by rewrite app_nil_r| |done]. by apply Forall3_cons; [|constructor].
Qed.

(** The place of the [i]th value in an index key. *)
Lemma index_slice table_id idx bss rest i vb key : bss !! i = Some vb →
  key = encode_index_seek_soliton_id table_id idx (concat bss ++ rest) →
  slice key (zlen key - zlen (concat (drop i bss) ++ rest))
    (zlen key - zlen (concat (drop i bss) ++ rest) + zlen vb) = Ret vb.
Proof.
  intros Hb ->. set (hd := concat (take i bss)). set (tl := concat (drop (S i) bss) ++ rest).
  assert (concat (drop i bss) ++ rest = vb ++ tl) as ->.
  { rewrite (drop_S _ _ _ Hb). cbn [concat]. unfold tl. by rewrite <- app_assoc. }
  assert (encode_index_seek_soliton_id table_id idx (concat bss ++ rest)
    = (TABLE_PREFIX ++ put_i64 table_id ++ INDEX_PREFIX_SEP ++ put_i64 idx ++ hd) ++ vb ++ tl) as ->.
  { rewrite index_key_eq. rewrite <- (take_drop_middle bss i vb Hb) at 1. rewrite concat_app. cbn [concat].
    unfold tl. fold hd. by rewrite <- !app_assoc. }
  apply slice_mid; rewrite !length_app; lia.
Qed.

(** An index key made of a table, an index, values and possibly a handle, encoded
    in key order: cutting it gives each column the bytes of its value, and the handle
    when there is one; decoding it gives the values back. *)
Theorem index_key_exact table_id idx ids infos vals handle n ctx :
  is_i64 table_id → is_i64 idx → Forall codable vals → NoDup ids → length ids = length vals →
  length infos = length vals → Forall (λ ci, plain_type (col_tp ci) = true) infos →
  (∀ h, handle = Some h → is_i64 h) →
  approximate_size (vals ++ match handle with Some h => [I64 h] | None => [] end) true = Ret n →
  ∃ bs d vals',
  encode_soliton_id (vals ++ match handle with Some h => [I64 h] | None => [] end) ctx = Ret (Ok bs, ctx)
  ∧ cut_idx_soliton_id (encode_index_seek_soliton_id table_id idx bs) ids = okR (d, handle)
  ∧ (∀ i id v, ids !! i = Some id → vals !! i = Some v → ∃ vb,
       encode_soliton_id [v] ctx = Ret (Ok vb, ctx) ∧ dict_get d id = Ret (Some vb))
  ∧ decode_index_soliton_id (encode_index_seek_soliton_id table_id idx bs) infos ctx = Ret (Ok vals', ctx)
  ∧ Forall2 decoded vals vals'.
Proof.
  intros Ht Hix Hv Hnd Hl Hli Hp Hh Hn.
  destruct (codable_all true vals Hv) as (vs' & bss & He & Hd). destruct (enc_all_length _ _ _ He) as [L1 L2].
  assert (∃ hv hb, enc_all (match handle with Some h => [I64 h] | None => [] end) hv hb
    ∧ (handle = None → hb = []) ∧ (∀ h, handle = Some h → concat hb ≠ [] ∧ read_datum (concat hb) = Ret (Ok (I64 h, []))))
    as (hv & hb & Hhe & Hnone & Hsome).
  { destruct handle as [h|]; [|exists [], []; split_and!; [by constructor|done|done]].
    destruct (encodes_i64 true h (Hh h eq_refl)) as [b Eb]. exists [I64 h], [b]. split_and!; [by apply Forall3_cons; [|constructor]|done|].
    intros h' [= <-]. cbn. rewrite app_nil_r. split; [by apply (enc_pos _ _ _ _ Eb)|].
    rewrite <- (app_nil_r b). apply (enc_read _ _ _ _ Eb). }
  assert (Hall : enc_all (vals ++ match handle with Some h => [I64 h] | None => [] end) (vs' ++ hv) (bss ++ hb)).
  { clear -He Hhe. induction He; cbn; [done|]. by apply Forall3_cons. }
  set (key := encode_index_seek_soliton_id table_id idx (concat (bss ++ hb))).
  assert (Ekey : slice_from key (PREFIX_LEN + ID_LEN) = Ret (concat bss ++ concat hb)).
  { unfold key. rewrite index_key_eq, concat_app. apply (key_shape table_id INDEX_PREFIX_SEP idx _ eq_refl). }
  destruct (cut_idx_loop_spec (zlen key) (concat hb) vals vs' bss He ids ∅ ltac:(lia) Hnd) as (m & Em & _ & Hm).
  exists (concat (bss ++ hb)), (mkDict key m), vs'. split_and!; [by eapply encode_all| | | |done].
  - unfold cut_idx_soliton_id. fold key. rewrite Ekey. cbn [liftR]. rewrite !rbind_ok, Em, rbind_ok. cbn [fst snd].
    destruct handle as [h|]; [|by rewrite (Hnone eq_refl)].
    destruct (Hsome h eq_refl) as [Hne Er]. destruct (concat hb) as [|x l]; [done|]. rewrite Er. done.
  - intros i id v Hi Hvi. destruct (lookup_lt_is_Some_2 bss i) as [vb Hb]; [rewrite <- L1; by eapply lookup_lt_Some|].
    exists vb. split; [exact (value_soliton_id _ _ _ _ _ _ _ _ ctx He Hn Hvi Hb)|].
    unfold dict_get. cbn [dict_cols dict_locale]. rewrite (Hm i id vb Hi Hb). cbn [offset meta_length].
    rewrite (index_slice table_id idx bss (concat hb) i vb key Hb); [done|]. unfold key. by rewrite concat_app.
  - unfold decode_index_soliton_id, mbind, evalM_bind. cbn [lift_out]. fold key. rewrite Ekey.
    by eapply decode_index_spec.
Qed.
End Index.


#[local] Existing Instance ten_pow_table.
#[local] Existing Instance fsp_table.
#[local] Existing Instance sample_externals.
#[local] Existing Instance sample_codec.
#[local] Existing Instance sample_codec_laws.

(** A key's prefix is as long as a record key, and the separator is an underscore; no
    row is in the other format. *)
#[export] Instance sample_table : @TableExternals sample_externals := {|
  INDEX_PREFIX_KEY_LEN := PREFIX_LEN;
  RECORD_PREFIX_KEY_LEN := PREFIX_LEN;
  TABLE_PREFIX_SEP := 95;
  from_packed_u64 := λ u _ _, (mret u : evalM (@Time sample_externals));
  CODEC_VERSION := 128;
  RowSlice := unit;
  row_from_bytes := λ _, Err Other;
  search_in_non_null_ids := λ _ _, Ok None;
  search_in_null_ids := λ _ _, false;
  row_causet_locales := λ _, [];
  write_column_id_datum := λ _ _, Err Other;
  write_causet_record_as_datum := λ _ _ _, Err Other;
  write_evaluable_datum_null := λ _, Err Other;
|}.

Lemma be_words n : ∀ z acc, Forall (word 256) acc → Forall (word 256) (be n z acc).
Proof.
  induction n as [|n IH]; intros z acc H; cbn [be]; [done|]. apply IH. constructor; [|done].
  unfold word. apply Z.mod_pos_bound. lia.
Qed.

(** Byte strings of one length are ordered as the numbers they write. *)
Lemma bytes_cmp_wval a : ∀ b, Forall (word 256) a → Forall (word 256) b → length a = length b →
  bytes_cmp a b = (wval 256 a ?= wval 256 b).
Proof.
  induction a as [|x a IH]; intros [|y b] Ha Hb Hl; try done. cbn [bytes_cmp].
  apply Forall_cons_1 in Ha as [Hx Ha]. apply Forall_cons_1 in Hb as [Hy Hb]. injection Hl as Hl.
  rewrite IH by done. destruct (Z.compare_spec x y) as [->|Hlt|Hgt].
  - rewrite !wval_cons, Hl by lia. symmetry. apply Z.add_compare_mono_l.
  - symmetry. apply Z.compare_lt_iff. by apply (wval_first_diff 256 ltac:(lia) []).
  - symmetry. apply Z.compare_gt_iff. by apply (wval_first_diff 256 ltac:(lia) []).
Qed.

#[export] Instance sample_key_order : @KeyOrder sample_externals sample_codec.
Proof.
  split. intros i j Hi Hj. cbn -[put8 bytes_cmp Z.pow]. unfold put8.
  rewrite bytes_cmp_wval by (apply be_words; done) || by rewrite !(proj2 (be_spec 8 _ [])).
  rewrite !(proj1 (be_spec 8 _ [])). rewrite (wval_nil 256). cbn [length]. change (Z.of_nat 0) with 0. rewrite Z.pow_0_r, !Z.mul_1_r, !Z.add_0_r.
  rewrite !Z.mod_small by (mach; lia). by rewrite !(Z.add_comm _ (2 ^ 63)), Z.add_compare_mono_l.
Qed.

(** ** Witnesses *)

Lemma keys_readback_witness :
  (is_i64 45 ∧ is_i64 (-7)) ∧
  let r := encode_row_soliton_id 45 (-7) in
  let i := encode_index_seek_soliton_id 45 (-7) [8; 1] in
  (zlen r = RECORD_ROW_KEY_LEN ∧ decode_table_id r = Ok 45
   ∧ extract_table_prefix r = okR (TABLE_PREFIX ++ put_i64 45)
   ∧ ∃ s, slice_from r PREFIX_LEN = Ret s ∧ get_i64 s = Ok (-7, []))
  ∧ decode_table_id i = Ok 45 ∧ extract_table_prefix i = okR (TABLE_PREFIX ++ put_i64 45)
  ∧ (∃ s, slice_from i PREFIX_LEN = Ret s ∧ get_i64 s = Ok (-7, [8; 1]))
  ∧ slice_from i (PREFIX_LEN + ID_LEN) = Ret [8; 1].
Proof.
  assert (H1 : is_i64 45) by (mach; lia). assert (H2 : is_i64 (-7)) by (mach; lia).
  split; [exact (conj H1 H2)|]. exact (keys_readback 45 (-7) [8; 1] H1 H2).
Defined.

Lemma key_order_witness :
  (is_i64 45 ∧ is_i64 (-7) ∧ is_i64 3) ∧
  bytes_cmp (encode_row_soliton_id 45 (-7)) (encode_row_soliton_id 45 3) = Lt
  ∧ bytes_cmp (encode_index_seek_soliton_id 45 (-7) [1]) (encode_index_seek_soliton_id 45 3 [0]) = Lt
  ∧ bytes_cmp (encode_index_seek_soliton_id 45 (-7) [1]) (encode_row_soliton_id 45 3) = Lt.
Proof.
  assert (H1 : is_i64 45) by (mach; lia). assert (H2 : is_i64 (-7)) by (mach; lia).
  assert (H3 : is_i64 3) by (mach; lia). split; [exact (conj H1 (conj H2 H3))|].
  exact (key_order 45 45 (-7) 3 [1] [0] H1 H1 H2 H3).
Defined.

(** A row of three columns. *)
Definition sample_row : list (Z * DatumType) := [(1, I64 (-5)); (2, Bytes [104; 105]); (3, Null)].

Lemma sample_row_ids : NoDup sample_row.*1.
Proof. by apply (bool_decide_unpack _). Qed.
Lemma sample_row_i64 : Forall is_i64 sample_row.*1.
Proof. unfold sample_row. cbn. repeat (apply Forall_cons_2; [mach; lia|]). by apply Forall_nil. Qed.
Lemma sample_row_codable : Forall codable sample_row.*2.
Proof.
  unfold sample_row. cbn. apply Forall_cons_2; [cbn [codable]; mach; lia|]. apply Forall_cons_2; [|by repeat constructor].
  split; [|mach; cbn; lia]. repeat constructor; mach; lia.
Qed.
Lemma sample_row_size : approximate_size (row_datums sample_row) false = Ret 58.
Proof. reflexivity. Qed.

Lemma cut_row_exact_witness :
  let ctx := EvalContext_new PolicyGradient_new in let cols : gset Z := {[2; 7]} in
  approximate_size (row_datums sample_row) false = Ret 58 ∧ ∃ bs d,
  encode (row_datums sample_row) false ctx = Ret (Ok bs, ctx)
  ∧ cut_row_einstein_db bs cols = okR d ∧ dict_locale d = bs
  ∧ (∀ id v, (id, v) ∈ sample_row → id ∈ cols → ∃ vb,
       encode_causet_locale [v] ctx = Ret (Ok vb, ctx) ∧ dict_get d id = Ret (Some vb))
  ∧ (∀ id, id ∉ sample_row.*1 ∨ id ∉ cols → dict_get d id = Ret None).
Proof.
  intros ctx cols. split; [exact sample_row_size|].
  exact (cut_row_exact cols sample_row 58 ctx sample_row_ids sample_row_i64 sample_row_codable sample_row_size).
Defined.

(** Columns of types that convert: a Float, a duration, a null of an Enum column; and a row
    whose Enum column has a value, which is cut and cannot be decoded. *)
Definition typed_infos : gmap Z ColumnInfo :=
  {[1 := mkColumn 1 TpFloat 0; 2 := mkColumn 2 TpDuration 2; 3 := mkColumn 3 TpEnum 0]}.
Definition typed_row : list (Z * DatumType) := [(1, F64 (f64_of_Z 16777217)); (2, I64 84203670000000); (3, Null)].
Definition enum_row : list (Z * DatumType) := [(2, I64 84203670000000); (3, U64 1)].
Definition sample_encode (row : list (Z * DatumType)) : list Z :=
  match encode (row_datums row) false (EvalContext_new PolicyGradient_new) with Ret (Ok bs, _) => bs | _ => [] end.
Definition shown (o : option DatumType) : option (Z * Z) :=
  v ← o;
  match v with
  | F64 f => Some (1, f64_bits f) | Dur d => Some (2 + fsp d, nanos d) | Null => Some (0, 0) | _ => None
  end.
Definition sample_decoded (row : list (Z * DatumType)) : outcome (list (option (Z * Z)) + bool) :=
  match decode_row (sample_encode row) typed_infos (EvalContext_new PolicyGradient_new) with
  | Ret (Ok m, _) => Ret (inl (map (λ id, shown (m !! id)) [1; 2; 3]))
  | Ret (Err e, _) => Ret (inr match e with Other => true | _ => false end)
  | Panic => Panic
  end.
Definition sample_cut (row : list (Z * DatumType)) (id : Z) : option (list Z) :=
  match cut_row_einstein_db (sample_encode row) (dom typed_infos) with
  | Ret (Ok d) => match dict_get d id with Ret o => o | Panic => None end
  | _ => None
  end.
Example typed_rows :
  sample_decoded typed_row = Ret (inl [Some (1, f64_bits (f64_of_Z 16777216)); Some (4, 84203670000000); Some (0, 0)])
  ∧ sample_decoded enum_row = Ret (inr true)
  ∧ sample_cut enum_row 3 = Some [9; 0; 0; 0; 0; 0; 0; 0; 1].
Proof. by vm_compute. Qed.

Lemma typed_row_codable : NoDup typed_row.*1 ∧ Forall is_i64 typed_row.*1 ∧ Forall codable typed_row.*2.
Proof.
  split; [by apply (bool_decide_unpack _)|]. unfold typed_row. cbn [fmap list_fmap fst snd]. split.
  - repeat (apply Forall_cons_2; [mach; lia|]). by apply Forall_nil.
  - repeat (apply Forall_cons_2; [cbn [codable]; first [done|mach; lia|by vm_compute]|]). by apply Forall_nil.
Qed.

(** The duration of the row, decoded and cut. *)
Lemma decode_cut_agree_witness :
  let ctx := EvalContext_new PolicyGradient_new in
  ∃ bs d vb, encode (row_datums typed_row) false ctx = Ret (Ok bs, ctx)
  ∧ cut_row_einstein_db bs (dom typed_infos) = okR d
  ∧ (∀ c, decode_row bs typed_infos c = decode_columns d typed_infos [1; 2; 3] ∅ c)
  ∧ dict_get d 2 = Ret (Some vb)
  ∧ decode_col_causet_locale vb (mkColumn 2 TpDuration 2) ctx = Ret (Ok (Dur (mkDuration 0 84203670000000 2)), ctx).
Proof.
  intros ctx. destruct typed_row_codable as (H1 & H2 & H3).
  destruct (decode_cut_agree typed_infos typed_row _ ctx H1 H2 H3 eq_refl) as (bs & d & back & E & Ec & Er & Hcol & _).
  destruct (Hcol 2 (I64 84203670000000) (mkColumn 2 TpDuration 2) ltac:(right; left) eq_refl) as (vb & _ & Ed & Hb & Hv).
  exists bs, d, vb. split; [exact E|]. split; [exact Ec|]. split; [exact Er|]. split; [exact Ed|].
  rewrite Hv. cbn [decoded] in Hb. rewrite Hb.
  apply (proj1 (proj2 (proj2 (unflatten_cases (I64 84203670000000) (mkColumn 2 TpDuration 2) ctx ltac:(done))))
    84203670000000 _ eq_refl eq_refl). by vm_compute.
Defined.

(** An index over two columns, with a handle. *)
Definition sample_index : list DatumType := [I64 (-5); Null].
Definition sample_index_infos : list ColumnInfo := [mkColumn 4 TpLongLong 0; mkColumn 6 TpVarChar 0].

Lemma sample_index_codable : Forall codable sample_index.
Proof. repeat constructor; cbn [codable]; mach; lia. Qed.

Lemma index_key_exact_witness :
  let ctx := EvalContext_new PolicyGradient_new in
  approximate_size (sample_index ++ [I64 9]) true = Ret 19 ∧ ∃ bs d vals',
  encode_soliton_id (sample_index ++ [I64 9]) ctx = Ret (Ok bs, ctx)
  ∧ cut_idx_soliton_id (encode_index_seek_soliton_id 45 2 bs) [4; 6] = okR (d, Some 9)
  ∧ (∀ i id v, [4; 6] !! i = Some id → sample_index !! i = Some v → ∃ vb,
       encode_soliton_id [v] ctx = Ret (Ok vb, ctx) ∧ dict_get d id = Ret (Some vb))
  ∧ decode_index_soliton_id (encode_index_seek_soliton_id 45 2 bs) sample_index_infos ctx = Ret (Ok vals', ctx)
  ∧ Forall2 decoded sample_index vals'.
Proof.
  intros ctx. split; [reflexivity|].
  assert (Hnd : NoDup [4; 6]) by by apply (bool_decide_unpack _).
  refine (index_key_exact 45 2 [4; 6] sample_index_infos sample_index (Some 9) 19 ctx _ _
    sample_index_codable Hnd eq_refl eq_refl _ _ eq_refl); [mach; lia|mach; lia|by repeat constructor|].
  intros h [= <-]. mach. lia.
Defined.
