(* ===== verification/Tests.v ===== *)
(** * Tests: the repository's own decimal tests, run on the model

    The tables of the unit tests at the end of [berolinasql/src/decimal.rs],
    transcribed, with the test's assertion as a boolean the kernel evaluates. *)
From Stdlib Require Import ZArith Lia String Ascii.
From stdpp Require Import base list numbers.
From S2P Require Import Prelude Words EvalCtx DecimalBase DecimalAddSub DecimalMulDiv DecimalLoops.
From S2P Require Import DecimalRound DecimalConv DecimalCodec ToInt.
#[local] Open Scope Z_scope.

Definition bytes : Type := list Z.

(** The bytes of an ASCII literal. *)
Fixpoint B (s : string) : bytes :=
  match s with EmptyString => [] | String a s => Z.of_nat (nat_of_ascii a) :: B s end.

#[local] Existing Instance ten_pow_table.

Definition ok {A} (r : result A) : outcome A := match r with Ok a => Ret a | Err _ => Panic end.

Definition parse (s : bytes) : outcome Decimal := r ← from_str s; ok r.
Definition parse_with (s : bytes) (len : Z) : outcome Decimal :=
  r ← from_bytes_with_word_buf s len; r ← ok r; Ret (res_val r).

Definition same_text (d : outcome Decimal) (exp : bytes) : bool :=
  match (d ← d; to_string d) with Ret s => bool_decide (s = exp) | Panic => false end.

Definition same_mark {A B} (r : Res A) (e : Res B) : bool :=
  match r, e with
  | ROk _, ROk _ | RTruncated _, RTruncated _ | ROverCausetxctx _, ROverCausetxctx _ => true
  | _, _ => false
  end.

Definition same_res (r : outcome (Res Decimal)) (exp : Res bytes) : bool :=
  match r with
  | Ret r => same_mark r exp && same_text (Ret (res_val r)) (res_val exp)
  | Panic => false
  end.

Definition same_opt (r : outcome (option (Res Decimal))) (exp : option bytes) : bool :=
  match r, exp with
  | Ret (Some r), Some e => same_text (Ret (res_val r)) e
  | Ret None, None => true
  | _, _ => false
  end.

Definition same_codec (s : bytes) (prec frac : Z) (exp : Res bytes) : bool :=
  match (d ← parse s; write_decimal [] d prec frac) with
  | Ret (bs, res) =>
      same_mark res exp
      && match read_decimal bs with
         | Ret (Ok (d, [])) => same_text (Ret d) (res_val exp)
         | _ => false
         end
  | Panic => false
  end.

(** [test_shift] *)
Definition test_shift_cases : list (Z * bytes * Z * Res bytes) :=
  [(9, (B "123.123"), 1, (ROk (B "1231.23")));
   (9, (B "123457189.123123456789000"), 1, (ROk (B "1234571891.23123456789")));
   (9, (B "123457189.123123456789000"), 8, (ROk (B "12345718912312345.6789")));
   (9, (B "123457189.123123456789000"), 9, (ROk (B "123457189123123456.789")));
   (9, (B "123457189.123123456789000"), 10, (ROk (B "1234571891231234567.89")));
   (9, (B "123457189.123123456789000"), 17, (ROk (B "12345718912312345678900000")));
   (9, (B "123457189.123123456789000"), 18, (ROk (B "123457189123123456789000000")));
   (9, (B "123457189.123123456789000"), 19, (ROk (B "1234571891231234567890000000")));
   (9, (B "123457189.123123456789000"), 26, (ROk (B "12345718912312345678900000000000000")));
   (9, (B "123457189.123123456789000"), 27, (ROk (B "123457189123123456789000000000000000")));
   (9, (B "123457189.123123456789000"), 28, (ROk (B "1234571891231234567890000000000000000")));
   (9, (B "000000000000000000000000123457189.123123456789000"), 26, (ROk (B "12345718912312345678900000000000000")));
   (9, (B "00000000123457189.123123456789000"), 27, (ROk (B "123457189123123456789000000000000000")));
   (9, (B "00000000000000000123457189.123123456789000"), 28, (ROk (B "1234571891231234567890000000000000000")));
   (9, (B "123"), 1, (ROk (B "1230")));
   (9, (B "123"), 10, (ROk (B "1230000000000")));
   (9, (B ".123"), 1, (ROk (B "1.23")));
   (9, (B ".123"), 10, (ROk (B "1230000000")));
   (9, (B ".123"), 14, (ROk (B "12300000000000")));
   (9, (B "000.000"), 1000, (ROk (B "0")));
   (9, (B "000."), 1000, (ROk (B "0")));
   (9, (B ".000"), 1000, (ROk (B "0")));
   (9, (B "1"), 1000, (ROverCausetxctx (B "1")));
   (9, (B "123.123"), (-1), (ROk (B "12.3123")));
   (9, (B "123987654321.123456789000"), (-1), (ROk (B "12398765432.1123456789")));
   (9, (B "123987654321.123456789000"), (-2), (ROk (B "1239876543.21123456789")));
   (9, (B "123987654321.123456789000"), (-3), (ROk (B "123987654.321123456789")));
   (9, (B "123987654321.123456789000"), (-8), (ROk (B "1239.87654321123456789")));
   (9, (B "123987654321.123456789000"), (-9), (ROk (B "123.987654321123456789")));
   (9, (B "123987654321.123456789000"), (-10), (ROk (B "12.3987654321123456789")));
   (9, (B "123987654321.123456789000"), (-11), (ROk (B "1.23987654321123456789")));
   (9, (B "123987654321.123456789000"), (-12), (ROk (B "0.123987654321123456789")));
   (9, (B "123987654321.123456789000"), (-13), (ROk (B "0.0123987654321123456789")));
   (9, (B "123987654321.123456789000"), (-14), (ROk (B "0.00123987654321123456789")));
   (9, (B "00000087654321.123456789000"), (-14), (ROk (B "0.00000087654321123456789")));
   (2, (B "123.123"), (-2), (ROk (B "1.23123")));
   (2, (B "123.123"), (-3), (ROk (B "0.123123")));
   (2, (B "123.123"), (-6), (ROk (B "0.000123123")));
   (2, (B "123.123"), (-7), (ROk (B "0.0000123123")));
   (2, (B "123.123"), (-15), (ROk (B "0.000000000000123123")));
   (2, (B "123.123"), (-16), (RTruncated (B "0.000000000000012312")));
   (2, (B "123.123"), (-17), (RTruncated (B "0.000000000000001231")));
   (2, (B "123.123"), (-18), (RTruncated (B "0.000000000000000123")));
   (2, (B "123.123"), (-19), (RTruncated (B "0.000000000000000012")));
   (2, (B "123.123"), (-20), (RTruncated (B "0.000000000000000001")));
   (2, (B "123.123"), (-21), (RTruncated (B "0")));
   (2, (B ".000000000123"), (-1), (ROk (B "0.0000000000123")));
   (2, (B ".000000000123"), (-6), (ROk (B "0.000000000000000123")));
   (2, (B ".000000000123"), (-7), (RTruncated (B "0.000000000000000012")));
   (2, (B ".000000000123"), (-8), (RTruncated (B "0.000000000000000001")));
   (2, (B ".000000000123"), (-9), (RTruncated (B "0")));
   (2, (B ".000000000123"), 1, (ROk (B "0.00000000123")));
   (2, (B ".000000000123"), 8, (ROk (B "0.0123")));
   (2, (B ".000000000123"), 9, (ROk (B "0.123")));
   (2, (B ".000000000123"), 10, (ROk (B "1.23")));
   (2, (B ".000000000123"), 17, (ROk (B "12300000")));
   (2, (B ".000000000123"), 18, (ROk (B "123000000")));
   (2, (B ".000000000123"), 19, (ROk (B "1230000000")));
   (2, (B ".000000000123"), 20, (ROk (B "12300000000")));
   (2, (B ".000000000123"), 21, (ROk (B "123000000000")));
   (2, (B ".000000000123"), 22, (ROk (B "1230000000000")));
   (2, (B ".000000000123"), 23, (ROk (B "12300000000000")));
   (2, (B ".000000000123"), 24, (ROk (B "123000000000000")));
   (2, (B ".000000000123"), 25, (ROk (B "1230000000000000")));
   (2, (B ".000000000123"), 26, (ROk (B "12300000000000000")));
   (2, (B ".000000000123"), 27, (ROk (B "123000000000000000")));
   (2, (B ".000000000123"), 28, (ROverCausetxctx (B "0.000000000123")));
   (2, (B "123456789.987654321"), (-1), (RTruncated (B "12345678.998765432")));
   (2, (B "123456789.987654321"), (-2), (RTruncated (B "1234567.899876543")));
   (2, (B "123456789.987654321"), (-8), (RTruncated (B "1.234567900")));
   (2, (B "123456789.987654321"), (-9), (ROk (B "0.123456789987654321")));
   (2, (B "123456789.987654321"), (-10), (RTruncated (B "0.012345678998765432")));
   (2, (B "123456789.987654321"), (-17), (RTruncated (B "0.000000001234567900")));
   (2, (B "123456789.987654321"), (-18), (RTruncated (B "0.000000000123456790")));
   (2, (B "123456789.987654321"), (-19), (RTruncated (B "0.000000000012345679")));
   (2, (B "123456789.987654321"), (-26), (RTruncated (B "0.000000000000000001")));
   (2, (B "123456789.987654321"), (-27), (RTruncated (B "0")));
   (2, (B "123456789.987654321"), 1, (RTruncated (B "1234567900")));
   (2, (B "123456789.987654321"), 2, (RTruncated (B "12345678999")));
   (2, (B "123456789.987654321"), 4, (RTruncated (B "1234567899877")));
   (2, (B "123456789.987654321"), 8, (RTruncated (B "12345678998765432")));
   (2, (B "123456789.987654321"), 9, (ROk (B "123456789987654321")));
   (2, (B "123456789.987654321"), 10, (ROverCausetxctx (B "123456789.987654321")));
   (2, (B "123456789.987654321"), 0, (ROk (B "123456789.987654321")));
   (9, (B "0.0000000070415291131966574"), (-9223372036854775808), (RTruncated (B "0")));
   (9, (B "0.0000000070415291131966574"), 9223372036854775807, (ROverCausetxctx (B "0.0000000070415291131966574")))].
Lemma test_shift_pass : forallb (fun '(len, s, n, exp) => same_res (d ← parse_with s len; shift_with_word_buf_len d n len) exp) test_shift_cases = true.
Proof. by vm_compute. Qed.

(** [test_round], in the three modes *)
Definition test_round_cases : list (bytes * Z * Res bytes * Res bytes * Res bytes) :=
  [((B "123456789.987654321"), 1, (ROk (B "123456790.0")), (ROk (B "123456789.9")), (ROk (B "123456790.0")));
   ((B "15.1"), 0, (ROk (B "15")), (ROk (B "15")), (ROk (B "16")));
   ((B "15.5"), 0, (ROk (B "16")), (ROk (B "15")), (ROk (B "16")));
   ((B "15.9"), 0, (ROk (B "16")), (ROk (B "15")), (ROk (B "16")));
   ((B "-15.1"), 0, (ROk (B "-15")), (ROk (B "-15")), (ROk (B "-16")));
   ((B "-15.5"), 0, (ROk (B "-16")), (ROk (B "-15")), (ROk (B "-16")));
   ((B "-15.9"), 0, (ROk (B "-16")), (ROk (B "-15")), (ROk (B "-16")));
   ((B "15.1"), 1, (ROk (B "15.1")), (ROk (B "15.1")), (ROk (B "15.1")));
   ((B "-15.1"), 1, (ROk (B "-15.1")), (ROk (B "-15.1")), (ROk (B "-15.1")));
   ((B "15.17"), 1, (ROk (B "15.2")), (ROk (B "15.1")), (ROk (B "15.2")));
   ((B "15.4"), (-1), (ROk (B "20")), (ROk (B "10")), (ROk (B "20")));
   ((B "-15.4"), (-1), (ROk (B "-20")), (ROk (B "-10")), (ROk (B "-20")));
   ((B "5.4"), (-1), (ROk (B "10")), (ROk (B "0")), (ROk (B "10")));
   ((B ".999"), 0, (ROk (B "1")), (ROk (B "0")), (ROk (B "1")));
   ((B "999999999"), (-9), (ROk (B "1000000000")), (ROk (B "0")), (ROk (B "1000000000")))].
Lemma test_round_pass : forallb (fun '(s, n, e1, e2, e3) => same_res (d ← parse s; round d n HalfEven) e1
    && same_res (d ← parse s; round d n Truncate) e2 && same_res (d ← parse s; round d n Ceiling) e3) test_round_cases = true.
Proof. by vm_compute. Qed.

(** [test_string] *)
Definition test_string_cases : list (Z * bytes * Res bytes) :=
  [(9, (B "12345"), (ROk (B "12345")));
   (9, (B "12345."), (ROk (B "12345")));
   (9, (B "123.45."), (ROk (B "123.45")));
   (9, (B "-123.45."), (ROk (B "-123.45")));
   (9, (B ".00012345000098765"), (ROk (B "0.00012345000098765")));
   (9, (B ".12345000098765"), (ROk (B "0.12345000098765")));
   (9, (B "-.000000012345000098765"), (ROk (B "-0.000000012345000098765")));
   (9, (B "1234500009876.5"), (ROk (B "1234500009876.5")));
   (9, (B "123E5"), (ROk (B "12300000")));
   (9, (B "123E-2"), (ROk (B "1.23")));
   (1, (B "123450000098765"), (ROverCausetxctx (B "98765")));
   (1, (B "123450.000098765"), (RTruncated (B "123450")));
   (9, (B "123.123"), (ROk (B "123.123")));
   (9, (B "123.1230"), (ROk (B "123.1230")));
   (9, (B "00123.123"), (ROk (B "123.123")));
   (9, (B "1.21"), (ROk (B "1.21")));
   (9, (B ".21"), (ROk (B "0.21")));
   (9, (B "1.00"), (ROk (B "1.00")));
   (9, (B "100"), (ROk (B "100")));
   (9, (B "-100"), (ROk (B "-100")));
   (9, (B "100.00"), (ROk (B "100.00")));
   (9, (B "00100.00"), (ROk (B "100.00")));
   (9, (B "-100.00"), (ROk (B "-100.00")));
   (9, (B "-0.00"), (ROk (B "0.00")));
   (9, (B "00.00"), (ROk (B "0.00")));
   (9, (B "0.00"), (ROk (B "0.00")));
   (9, (B "-2.010"), (ROk (B "-2.010")));
   (9, (B "12345"), (ROk (B "12345")));
   (9, (B "-12345"), (ROk (B "-12345")));
   (9, (B "-3."), (ROk (B "-3")));
   (9, (B "1.456e3"), (ROk (B "1456")));
   (9, (B "3."), (ROk (B "3")));
   (9, (B "314e-2"), (ROk (B "3.14")));
   (9, (B "1e2"), (ROk (B "100")));
   (9, (B "2E-1"), (ROk (B "0.2")));
   (9, (B "2E0"), (ROk (B "2")));
   (9, (B "2.2E-1"), (ROk (B "0.22")));
   (9, (B "2.23E2"), (ROk (B "223")));
   (9, (B "2.23E2abc"), (ROk (B "223")));
   (9, (B "2.23a2"), (ROk (B "2.23")));
   (9, (B "223" ++ [224; 128; 128]), (ROk (B "223")));
   (9, (B "1e -1"), (ROk (B "0.1")));
   (9, (B "1e001"), (ROk (B "10")));
   (9, (B "1e00"), (ROk (B "1")));
   (9, (B "1e1073741823"), (ROverCausetxctx (B "999999999999999999999999999999999999999999999999999999999999999999999999999999999")));
   (9, (B "-1e1073741823"), (ROverCausetxctx (B "-999999999999999999999999999999999999999999999999999999999999999999999999999999999")));
   (9, (B "135999696916777530000000000000000000000000000000000000000000000000000000000000000000000000000000000000000000000000000000000000000000000000000000000000000000000000000000000000000000000000000000000000000000000000000000000000000000000000000000000000000"), (ROverCausetxctx (B "0")));
   (9, (B "-0.000000000000000000000000000000000000000000000000000000000000000000000000000000000000000000000000000000000000000000000000000000000000000000000000000000000000000000000000000000000000000000000000000000000000000000000000000000000000000000000002932935661422768"), (RTruncated (B "0.000000000000000000000000000000000000000000000000000000000000000000000000")));
   (9, (B "1eabc"), (ROk (B "1")));
   (9, (B "1e"), (ROk (B "1")));
   (9, (B "1e 1ddd"), (ROk (B "10")));
   (9, (B "1e - 1"), (ROk (B "1")));
   (1, (B "123450000098765"), (ROverCausetxctx (B "98765")));
   (1, (B "123450.000098765"), (RTruncated (B "123450")))].
Lemma test_string_pass : forallb (fun '(len, s, exp) => same_res (r ← from_bytes_with_word_buf s len; ok r) exp) test_string_cases = true.
Proof. by vm_compute. Qed.

(** [test_codec] *)
Definition test_codec_cases : list (bytes * Z * Z * Res bytes) :=
  [((B "-10.55"), 4, 2, (ROk (B "-10.55")));
   ((B "0.0123456789012345678912345"), 30, 25, (ROk (B "0.0123456789012345678912345")));
   ((B "12345"), 5, 0, (ROk (B "12345")));
   ((B "12345"), 10, 3, (ROk (B "12345.000")));
   ((B "123.45"), 10, 3, (ROk (B "123.450")));
   ((B "-123.45"), 20, 10, (ROk (B "-123.4500000000")));
   ((B ".00012345000098765"), 15, 14, (RTruncated (B "0.00012345000098")));
   ((B ".00012345000098765"), 22, 20, (ROk (B "0.00012345000098765000")));
   ((B ".12345000098765"), 30, 20, (ROk (B "0.12345000098765000000")));
   ((B "-.000000012345000098765"), 30, 20, (RTruncated (B "-0.00000001234500009876")));
   ((B "1234500009876.5"), 30, 5, (ROk (B "1234500009876.50000")));
   ((B "111111111.11"), 10, 2, (ROverCausetxctx (B "11111111.11")));
   ((B "000000000.01"), 7, 3, (ROk (B "0.010")));
   ((B "123.4"), 10, 2, (ROk (B "123.40")));
   ((B "1000"), 3, 0, (ROverCausetxctx (B "0")));
   ((B "10000000000000000000.23"), 23, 2, (ROk (B "10000000000000000000.23")))].
Lemma test_codec_pass : forallb (fun '(s, prec, frac, exp) => same_codec s prec frac exp) test_codec_cases = true.
Proof. by vm_compute. Qed.

(** [test_cmp] *)
Definition test_cmp_cases : list (bytes * bytes * comparison) :=
  [((B "12"), (B "13"), Lt);
   ((B "13"), (B "12"), Gt);
   ((B "-10"), (B "10"), Lt);
   ((B "10"), (B "-10"), Gt);
   ((B "-12"), (B "-13"), Gt);
   ((B "0"), (B "12"), Lt);
   ((B "-10"), (B "0"), Lt);
   ((B "4"), (B "4"), Eq);
   ((B "4"), (B "4.00"), Eq);
   ((B "-1.1"), (B "-1.2"), Gt);
   ((B "1.2"), (B "1.1"), Gt);
   ((B "1.1"), (B "1.2"), Lt)].
Lemma test_cmp_pass : forallb (fun '(l, r, exp) => match (l ← parse l; r ← parse r; dec_cmp l r) with
    | Ret o => bool_decide (o = exp) | Panic => false end) test_cmp_cases = true.
Proof. by vm_compute. Qed.

(** [test_hash] *)
Definition test_hash_cases : list (bytes * bytes) :=
  [((B "1.00"), (B "1"));
   ((B "-1.11"), (B "-1.11000000"));
   ((B "30.20"), (B "30.2"));
   ((B "0"), (B "-0"));
   ((B "0.001"), (B "0.001000"))].
Lemma test_hash_pass : forallb (fun '(l, r) => match (l ← parse l; dec_hash l), (r ← parse r; dec_hash r) with
    | Ret a, Ret b => bool_decide (a = b) | _, _ => false end) test_hash_cases = true.
Proof. by vm_compute. Qed.

(** [test_max_decimal] *)
Definition test_max_decimal_cases : list (Z * Z * bytes) :=
  [(1, 1, (B "0.9"));
   (1, 0, (B "9"));
   (2, 1, (B "9.9"));
   (4, 2, (B "99.99"));
   (6, 3, (B "999.999"));
   (8, 4, (B "9999.9999"));
   (10, 5, (B "99999.99999"));
   (12, 6, (B "999999.999999"));
   (14, 7, (B "9999999.9999999"));
   (16, 8, (B "99999999.99999999"));
   (18, 9, (B "999999999.999999999"));
   (20, 10, (B "9999999999.9999999999"));
   (20, 20, (B "0.99999999999999999999"));
   (20, 0, (B "99999999999999999999"));
   (40, 20, (B "99999999999999999999.99999999999999999999"))].
Lemma test_max_decimal_pass : forallb (fun '(p, f, exp) => same_text (max_decimal p f) exp) test_max_decimal_cases = true.
Proof. by vm_compute. Qed.

(** [test_add], in both orders *)
Definition test_add_cases : list (bytes * bytes * Res bytes) :=
  [((B ".00012345000098765"), (B "123.45"), (ROk (B "123.45012345000098765")));
   ((B ".1"), (B ".45"), (ROk (B "0.55")));
   ((B "1234500009876.5"), (B ".00012345000098765"), (ROk (B "1234500009876.50012345000098765")));
   ((B "9999909999999.5"), (B ".555"), (ROk (B "9999910000000.055")));
   ((B "99999999"), (B "1"), (ROk (B "100000000")));
   ((B "989999999"), (B "1"), (ROk (B "990000000")));
   ((B "999999999"), (B "1"), (ROk (B "1000000000")));
   ((B "12345"), (B "123.45"), (ROk (B "12468.45")));
   ((B "-12345"), (B "-123.45"), (ROk (B "-12468.45")));
   ((B "-12345"), (B "123.45"), (ROk (B "-12221.55")));
   ((B "12345"), (B "-123.45"), (ROk (B "12221.55")));
   ((B "123.45"), (B "-12345"), (ROk (B "-12221.55")));
   ((B "-123.45"), (B "12345"), (ROk (B "12221.55")));
   ((B "5"), (B "-6.0"), (ROk (B "-1.0")));
   ((B "2"), (B "3"), (ROk (B "5")));
   ((B "2454495034"), (B "3451204593"), (ROk (B "5905699627")));
   ((B "24544.95034"), (B ".3451204593"), (ROk (B "24545.2954604593")));
   ((B ".1"), (B ".1"), (ROk (B "0.2")));
   ((B ".1"), (B "-.1"), (ROk (B "0")));
   ((B "0"), (B "1.001"), (ROk (B "1.001")));
   ((B "211111111111111111111111111111111111111111111111111111111111111111111111"), (B "888888888888888888888888888888888888888888888888888888888888888888888888888888888"), (ROk (B "888888889099999999999999999999999999999999999999999999999999999999999999999999999")))].
Lemma test_add_pass : forallb (fun '(l, r, exp) => same_res (l ← parse l; r ← parse r; dec_add l r) exp
    && same_res (l ← parse l; r ← parse r; dec_add r l) exp) test_add_cases = true.
Proof. by vm_compute. Qed.

(** [test_sub] *)
Definition test_sub_cases : list (bytes * bytes * Res bytes) :=
  [((B ".00012345000098765"), (B "123.45"), (ROk (B "-123.44987654999901235")));
   ((B "1234500009876.5"), (B ".00012345000098765"), (ROk (B "1234500009876.49987654999901235")));
   ((B "9999900000000.5"), (B ".555"), (ROk (B "9999899999999.945")));
   ((B "1111.5551"), (B "1111.555"), (ROk (B "0.0001")));
   ((B ".555"), (B ".555"), (ROk (B "0")));
   ((B "10000000"), (B "1"), (ROk (B "9999999")));
   ((B "1000001000"), (B ".1"), (ROk (B "1000000999.9")));
   ((B "1000000000"), (B ".1"), (ROk (B "999999999.9")));
   ((B "12345"), (B "123.45"), (ROk (B "12221.55")));
   ((B "-12345"), (B "-123.45"), (ROk (B "-12221.55")));
   ((B "123.45"), (B "12345"), (ROk (B "-12221.55")));
   ((B "-123.45"), (B "-12345"), (ROk (B "12221.55")));
   ((B "-12345"), (B "123.45"), (ROk (B "-12468.45")));
   ((B "12345"), (B "-123.45"), (ROk (B "12468.45")));
   ((B "3.10000000000"), (B "2.00"), (ROk (B "1.10000000000")));
   ((B "3.00"), (B "2.0000000000000"), (ROk (B "1.0000000000000")));
   ((B "-20048271934704078000000000000000000000000000000000000"), (B "-20048271934734512000000000000000000000000000000000000"), (ROk (B "30434000000000000000000000000000000000000")))].
Lemma test_sub_pass : forallb (fun '(l, r, exp) => same_res (l ← parse l; r ← parse r; dec_sub l r) exp) test_sub_cases = true.
Proof. by vm_compute. Qed.

(** [test_mul], in both orders *)
Definition test_mul_cases : list (bytes * bytes * Res bytes) :=
  [((B "12"), (B "10"), (ROk (B "120")));
   ((B "0"), (B "-1.1"), (ROk (B "0")));
   ((B "-123.456"), (B "98765.4321"), (ROk (B "-12193185.1853376")));
   ((B "-123456000000"), (B "98765432100000"), (ROk (B "-12193185185337600000000000")));
   ((B "123456"), (B "987654321"), (ROk (B "121931851853376")));
   ((B "123456"), (B "9876543210"), (ROk (B "1219318518533760")));
   ((B "123"), (B "0.01"), (ROk (B "1.23")));
   ((B "123"), (B "0"), (ROk (B "0")));
   ((B "1000000000000000000000000000000000000000000000000000000000000"), (B "1000000000000000000000000000000000000000000000000000000000000"), (ROverCausetxctx (B "0")));
   ((B "0.00000000000000"), (B "0.000000000000000000000000000000000000000000000000000000000000000"), (RTruncated (B "0.0000000000000000000000000000000")))].
Lemma test_mul_pass : forallb (fun '(l, r, exp) => same_res (l ← parse l; r ← parse r; dec_mul l r) exp
    && same_res (l ← parse l; r ← parse r; dec_mul r l) exp) test_mul_cases = true.
Proof. by vm_compute. Qed.

(** [test_div_mod] *)
Definition test_div_mod_cases : list (Z * bytes * bytes * option bytes * option bytes) :=
  [(5, (B "120"), (B "10"), (Some (B "12.000000000")), (Some (B "0")));
   (5, (B "123"), (B "0.01"), (Some (B "12300.000000000")), (Some (B "0.00")));
   (5, (B "120"), (B "100000000000.00000"), (Some (B "0.000000001200000000")), (Some (B "120.00000")));
   (5, (B "123"), (B "0"), None, None);
   (5, (B "123"), (B "0.0"), None, None);
   (5, (B "123"), (B "00.0000000000"), None, None);
   (5, (B "0"), (B "0"), None, None);
   (5, (B "0.0"), (B "0.0"), None, None);
   (5, (B "0.0000000000"), (B "00.0000000000"), None, None);
   (5, (B "-12193185.1853376"), (B "98765.4321"), (Some (B "-123.456000000000000000")), (Some (B "-45037.0370376")));
   (5, (B "121931851853376"), (B "987654321"), (Some (B "123456.000000000")), (Some (B "0")));
   (5, (B "0"), (B "987"), (Some (B "0")), (Some (B "0")));
   (5, (B "0.0"), (B "987"), (Some (B "0")), (Some (B "0")));
   (5, (B "0.0000000000"), (B "987"), (Some (B "0")), (Some (B "0")));
   (5, (B "1"), (B "3"), (Some (B "0.333333333")), (Some (B "1")));
   (5, (B "1.000000000000"), (B "3"), (Some (B "0.333333333333333333")), (Some (B "1.000000000000")));
   (5, (B "1"), (B "1"), (Some (B "1.000000000")), (Some (B "0")));
   (5, (B "0.0123456789012345678912345"), (B "9999999999"), (Some (B "0.000000000001234567890246913578148141")), (Some (B "0.0123456789012345678912345")));
   (5, (B "10.333000000"), (B "12.34500"), (Some (B "0.837019036046982584042122316")), (Some (B "10.333000000")));
   (5, (B "10.000000000060"), (B "2"), (Some (B "5.000000000030000000")), (Some (B "0.000000000060")));
   (0, (B "234"), (B "10"), (Some (B "23")), (Some (B "4")));
   (0, (B "234.567"), (B "10.555"), (Some (B "22.223306489815253434")), (Some (B "2.357")));
   (0, (B "-234.567"), (B "10.555"), (Some (B "-22.223306489815253434")), (Some (B "-2.357")));
   (0, (B "234.567"), (B "-10.555"), (Some (B "-22.223306489815253434")), (Some (B "2.357")));
   (0, (B "99999999999999999999999999999999999999"), (B "3"), (Some (B "33333333333333333333333333333333333333")), (Some (B "0")));
   (4, (B "1"), (B "1"), (Some (B "1.000000000")), (Some (B "0")));
   (4, (B "1.00"), (B "1"), (Some (B "1.000000000")), (Some (B "0.00")));
   (4, (B "1"), (B "1.000"), (Some (B "1.000000000")), (Some (B "0.000")));
   (4, (B "0.0000000001"), (B "1.0"), (Some (B "0.000000000100000000000000000")), (Some (B "0.0000000001")));
   (4, (B "2"), (B "3"), (Some (B "0.666666666")), (Some (B "2")));
   (0, (B "1"), (B "2.0"), (Some (B "0.500000000")), (Some (B "1.0")));
   (0, (B "1.0"), (B "2"), (Some (B "0.500000000")), (Some (B "1.0")));
   (0, (B "2.23"), (B "3"), (Some (B "0.743333333")), (Some (B "2.23")));
   (4, (B "51"), (B "0.003430"), (Some (B "14868.804664723032069970")), (Some (B "0.002760")));
   (5, (B "51"), (B "0.003430"), (Some (B "14868.804664723032069970")), (Some (B "0.002760")));
   (0, (B "51"), (B "0.003430"), (Some (B "14868.804664723")), (Some (B "0.002760")));
   (5, (B "3428138243708624600000000000000000000000000000000000"), (B "0.000000000000000000000000000000000000000000010962196522059515"), (Some (B "312723662343590746587750435944686855597018456899102054479447138416084646758822")), (Some (B "0.000000000000000000000000000000000003564345362392880000000000")));
   (0, (B "-0.000000000000000000000000000000000000000000004078816115216077"), (B "770994069125765500000000000000000000000000000"), (Some (B "-0.000000000000000000000000000000000000000000000000000000000000000")), (Some (B "-0.000000000000000000000000000000000000000000004078816115216077")))].
Lemma test_div_mod_pass : forallb (fun '(k, l, r, d, m) => same_opt (l ← parse l; r ← parse r; do_div_mod l r k false) d
    && same_opt (l ← parse l; r ← parse r; do_div_mod l r k true) m) test_div_mod_cases = true.
Proof. by vm_compute. Qed.

(** [test_ceil] *)
Definition test_ceil_cases : list (bytes * bytes) :=
  [((B "12345"), (B "12345"));
   ((B "0.99999"), (B "1"));
   ((B "-0.99999"), (B "0"));
   ((B "18446744073709551615"), (B "18446744073709551615"));
   ((B "18446744073709551616"), (B "18446744073709551616"));
   ((B "-18446744073709551615"), (B "-18446744073709551615"));
   ((B "-18446744073709551616"), (B "-18446744073709551616"));
   ((B "-1"), (B "-1"));
   ((B "1.23"), (B "2"));
   ((B "-1.23"), (B "-1"));
   ((B "1.00000"), (B "1"));
   ((B "-1.00000"), (B "-1"));
   ((B "9999999999999999999999999.001"), (B "10000000000000000000000000"))].
Lemma test_ceil_pass : forallb (fun '(i, e) => match (d ← parse i; r ← ceil d; e ← parse e; dec_eq (res_val r) e) with
    | Ret b => b | Panic => false end) test_ceil_cases = true.
Proof. by vm_compute. Qed.

(** [test_floor] *)
Definition test_floor_cases : list (bytes * bytes) :=
  [((B "12345"), (B "12345"));
   ((B "0.99999"), (B "0"));
   ((B "-0.99999"), (B "-1"));
   ((B "18446744073709551615"), (B "18446744073709551615"));
   ((B "18446744073709551616"), (B "18446744073709551616"));
   ((B "-18446744073709551615"), (B "-18446744073709551615"));
   ((B "-18446744073709551616"), (B "-18446744073709551616"));
   ((B "-1"), (B "-1"));
   ((B "1.23"), (B "1"));
   ((B "-1.23"), (B "-2"));
   ((B "00001.00000"), (B "1"));
   ((B "-00001.00000"), (B "-1"));
   ((B "9999999999999999999999999.001"), (B "9999999999999999999999999"))].
Lemma test_floor_pass : forallb (fun '(i, e) => match (d ← parse i; r ← floor d; e ← parse e; dec_eq (res_val r) e) with
    | Ret b => b | Panic => false end) test_floor_cases = true.
Proof. by vm_compute. Qed.
