(* ===== verification/ConfigPools.v ===== *)
(** * ConfigPools: sizes, background jobs and read pools of the configuration

    [soliton/config.rs]: the limits derived from the machine (memory for a column family,
    background jobs), the thread pools with their defaults and validation, and the
    sections that only check their own fields.  Sizes ([ReadableSize]) are numbers of
    bytes; the units, and what the machine has, are parameters.  The text of a complaint
    is not modelled: an error names the setting. *)
From Stdlib Require Import ZArith Lia SpecFloat String.
From stdpp Require Import base list numbers.
From S2P Require Import Prelude Float.
#[local] Open Scope Z_scope.

(** ** What the machine and the utilities give *)

Class SizeUnits := { MIB : Z; GIB : Z; size_kb : Z → Z; size_mb : Z → Z; size_gb : Z → Z; as_mb : Z → Z }.

Class SizeUnitsLaws {SU : SizeUnits} : Prop := {
  MIB_value : MIB = 2 ^ 20;
  GIB_value : GIB = 2 ^ 30;
  size_kb_value n : size_kb n = n * 2 ^ 10;
  size_mb_value n : size_mb n = n * 2 ^ 20;
  size_gb_value n : size_gb n = n * 2 ^ 30;
  as_mb_value n : as_mb n = n / 2 ^ 20;
}.

Class SysQuota := { cpu_cores_quota : f64; memory_limit_in_bytes : Z }.

(** [as u32], [as i32], [as usize] of a float: towards zero, clamped, 0 for NaN. *)
Definition f64_trunc (x : f64) : Z :=
  match x with
  | S754_finite s m e => (if s then -1 else 1) * (if 0 <=? e then Zpos m * 2 ^ e else Zpos m / 2 ^ (- e))
  | _ => 0
  end.
Definition f64_as (lo hi : Z) (x : f64) : Z :=
  match x with
  | S754_infinity s => if s then lo else hi
  | _ => Z.max lo (Z.min hi (f64_trunc x))
  end.
Definition f64_as_u32 : f64 → Z := f64_as 0 U32_MAX.
Definition f64_as_i32 : f64 → Z := f64_as I32_MIN I32_MAX.
Definition f64_as_usize : f64 → Z := f64_as 0 U64_MAX.

(** The literal [n / d]: the nearest float. *)
Definition f64_lit (n d : Z) : f64 := f64_div (f64_of_Z n) (f64_of_Z d).

Inductive ConfigError :=
| BlockSizeTooLarge | UnorderedWithFoundationDB | UnorderedWithPipelined
| BackgroundJobs | BackgroundFlushes
| PoolThreads (name : string) | PoolStack (name : string) | PoolTasks (name : string)
| BackupThreads | BackupBatch | BackupPart
| CdcInterval | CdcThreads | CdcConcurrency | CdcRatio
| ResolvedInterval | ResolvedPool
| LogFileSize
| DataDirEmpty | DataDirAbsolute | DataDirSlash | DataDirDouble | DataDirParent
| Keepalive | MemoryLimit | External (code : Z)
| CriticalWalDir | CriticalRaftWalDir | CriticalDataDir | CriticalRaftPath | CriticalEngineDir | DisableTtl | EnableTtl
| UnexpectedField | NotChangeable | ParseFailed | NoField | InvalidNamespaced | SharedCache | AutoTuned.

Notation verdict := (ConfigError + unit)%type.
Notation refuse_if b e := (if b then inl e else inr tt).

(** Checks in a row: the first complaint stops. *)
Definition andthen {E A} (c : E + unit) (k : E + A) : E + A := match c with inl e => inl e | inr _ => k end.
Notation "a ;? b" := (andthen a b) (at level 100, right associativity).

Section Pools.
Context {SU : SizeUnits} {SQ : SysQuota}.

(** ** Memory of a column family *)

Inductive Namespaced := NS_default | NS_lock | NS_write | NS_violetabft.

Definition VIOLETABFT_MIN_MEM : Z := 256 * MIB.
Definition VIOLETABFT_MAX_MEM : Z := GIB.

Definition memory_limit_for_namespaced (is_violetabft_db : bool) (namespaced : Namespaced) (total_mem : Z) : outcome Z :=
  '(ratio, min, max) ← match is_violetabft_db, namespaced with
    | true, NS_default => Ret (f64_lit 2 100, VIOLETABFT_MIN_MEM, VIOLETABFT_MAX_MEM)
    | false, NS_default => Ret (f64_lit 25 100, 0, U64_MAX)
    | _, _ => Panic
    end;
  let size := f64_as_usize (f64_mul (f64_of_Z total_mem) ratio) in
  let size := if size <? min then min else if max <? size then max else size in
  Ret (size_mb (size / MIB)).

(** ** Background jobs *)

Record BackgroundJobLimits := mkLimits {
  max_background_jobs : Z;
  max_background_flushes : Z;
  max_sub_jet_bundles : Z;
  max_foundation_db_background_gc : Z;
}.

Definition SOLITON_DEFAULT_BACKGROUND_JOB_LIMITS : BackgroundJobLimits := mkLimits 9 3 3 4.
Definition VIOLETABFT_DEFAULT_BACKGROUND_JOB_LIMITS : BackgroundJobLimits := mkLimits 4 1 2 4.

Definition get_background_job_limits_impl (cpu_num : Z) (defaults : BackgroundJobLimits) : outcome BackgroundJobLimits :=
  spare ← u32 (cpu_num - 1);
  let jobs := Z.max 2 (Z.min (max_background_jobs defaults) spare) in
  up ← u32 (jobs + 3);
  let flushes := Z.min (up / 4) (max_background_flushes defaults) in
  max_jet_bundles ← u32 (jobs - flushes);
  rest ← u32 (max_jet_bundles - 1);
  let sub := Z.max 1 (Z.min (max_sub_jet_bundles defaults) rest) in
  let gc := Z.min (max_foundation_db_background_gc defaults) cpu_num in
  Ret (mkLimits jobs flushes sub gc).

Definition get_background_job_limits (defaults : BackgroundJobLimits) : outcome BackgroundJobLimits :=
  get_background_job_limits_impl (Z.max (f64_as_u32 cpu_cores_quota) 1) defaults.

(** The checks of [DbConfig::validate] on the two job counts. *)
Definition validate_jobs (jobs flushes : Z) : outcome verdict :=
  limit ← i32 (f64_as_i32 cpu_cores_quota * 10);
  Ret (refuse_if ((jobs <=? 0) || (limit <? jobs)) BackgroundJobs ;?
       refuse_if ((flushes <=? 0) || (limit <? flushes)) BackgroundFlushes).

(** ** The read pools *)

Definition UNIFIED_READPOOL_MIN_CONCURRENCY : Z := 4.
Definition DEFAULT_STORAGE_READPOOL_MIN_CONCURRENCY : Z := 4.
Definition DEFAULT_STORAGE_READPOOL_MAX_CONCURRENCY : Z := 8.
Definition DEFAULT_READPOOL_MAX_TASKS_PER_WORKER : Z := 2 * 1000.
Definition MIN_READPOOL_STACK_SIZE_MB : Z := 2.
Definition DEFAULT_READPOOL_STACK_SIZE_MB : Z := 10.
Definition DEFAULT_InterDagger_READPOOL_MIN_CONCURRENCY : Z := 2.

Record UnifiedReadPoolConfig := mkUnified {
  u_min_thread_count : Z;
  u_max_thread_count : Z;
  u_stack_size : Z;
  u_max_tasks_per_worker : Z;
}.

Definition validate_unified (c : UnifiedReadPoolConfig) : verdict :=
  refuse_if (u_min_thread_count c =? 0) (PoolThreads "unified") ;?
  refuse_if (u_max_thread_count c <? u_min_thread_count c) (PoolThreads "unified") ;?
  refuse_if (u_stack_size c <? size_mb 2) (PoolStack "unified") ;?
  refuse_if (u_max_tasks_per_worker c <=? 1) (PoolTasks "unified").

Definition default_unified : UnifiedReadPoolConfig :=
  mkUnified 1 (Z.max UNIFIED_READPOOL_MIN_CONCURRENCY (f64_as_usize (f64_mul cpu_cores_quota (f64_lit 8 10))))
    (size_mb DEFAULT_READPOOL_STACK_SIZE_MB) DEFAULT_READPOOL_MAX_TASKS_PER_WORKER.

(** [readpool_config!]: one record for the two pools; [which] names the pool. *)
Record ReadPool := mkPool {
  use_unified_pool : option bool;
  high_concurrency : Z;
  normal_concurrency : Z;
  low_concurrency : Z;
  max_tasks_per_worker_high : Z;
  max_tasks_per_worker_normal : Z;
  max_tasks_per_worker_low : Z;
  stack_size : Z;
}.

#[export] Instance ReadPool_eq_dec : EqDecision ReadPool.
Proof. solve_decision. Defined.

Inductive PoolKind := StoragePool | CoprPool.
Definition pool_name (k : PoolKind) : string := match k with StoragePool => "timelike_storage" | CoprPool => "InterDagger" end.

Definition default_pool_of (concurrency : Z) : ReadPool :=
  mkPool None concurrency concurrency concurrency DEFAULT_READPOOL_MAX_TASKS_PER_WORKER
    DEFAULT_READPOOL_MAX_TASKS_PER_WORKER DEFAULT_READPOOL_MAX_TASKS_PER_WORKER
    (size_mb DEFAULT_READPOOL_STACK_SIZE_MB).

Definition default_storage_pool : ReadPool :=
  let c := f64_as_usize (f64_mul cpu_cores_quota (f64_lit 5 10)) in
  default_pool_of (Z.min DEFAULT_STORAGE_READPOOL_MAX_CONCURRENCY (Z.max DEFAULT_STORAGE_READPOOL_MIN_CONCURRENCY c)).

Definition default_copr_pool : ReadPool :=
  let c := f64_as_usize (f64_mul cpu_cores_quota (f64_lit 8 10)) in
  default_pool_of (Z.max DEFAULT_InterDagger_READPOOL_MIN_CONCURRENCY c).

Definition default_pool (k : PoolKind) : ReadPool :=
  match k with StoragePool => default_storage_pool | CoprPool => default_copr_pool end.

Record YatpConfig := mkYatp { yatp_workers : Z; yatp_max_tasks : Z; yatp_stack : Z }.

Definition to_yatp_pool_configs (c : ReadPool) : list YatpConfig :=
  [ mkYatp (low_concurrency c) (max_tasks_per_worker_low c) (stack_size c);
    mkYatp (normal_concurrency c) (max_tasks_per_worker_normal c) (stack_size c);
    mkYatp (high_concurrency c) (max_tasks_per_worker_high c) (stack_size c) ].

Definition default_for_test : ReadPool := mkPool None 2 2 2 2000 2000 2000 (size_mb 1).

(** [use_unified_pool(&self)] *)
Definition uses_unified_pool (k : PoolKind) (c : ReadPool) : bool :=
  match use_unified_pool c with Some b => b | None => bool_decide (c = default_pool k) end.

Definition with_unified (c : ReadPool) (b : option bool) : ReadPool :=
  mkPool b (high_concurrency c) (normal_concurrency c) (low_concurrency c) (max_tasks_per_worker_high c)
    (max_tasks_per_worker_normal c) (max_tasks_per_worker_low c) (stack_size c).

(** [adjust_use_unified_pool] of one pool *)
Definition adjust_pool (k : PoolKind) (c : ReadPool) : ReadPool :=
  match use_unified_pool c with
  | Some _ => c
  | None => if bool_decide (c = default_pool k) then with_unified c (Some true) else with_unified c (Some false)
  end.

Definition validate_pool (k : PoolKind) (c : ReadPool) : verdict :=
  if uses_unified_pool k c then inr tt else
  refuse_if (high_concurrency c =? 0) (PoolThreads (pool_name k)) ;?
  refuse_if (normal_concurrency c =? 0) (PoolThreads (pool_name k)) ;?
  refuse_if (low_concurrency c =? 0) (PoolThreads (pool_name k)) ;?
  refuse_if (stack_size c <? size_mb MIN_READPOOL_STACK_SIZE_MB) (PoolStack (pool_name k)) ;?
  refuse_if (max_tasks_per_worker_high c <=? 1) (PoolTasks (pool_name k)) ;?
  refuse_if (max_tasks_per_worker_normal c <=? 1) (PoolTasks (pool_name k)) ;?
  refuse_if (max_tasks_per_worker_low c <=? 1) (PoolTasks (pool_name k)).

Record ReadPoolConfig := mkReadPools {
  rp_unified : UnifiedReadPoolConfig;
  rp_storage : ReadPool;
  rp_copr : ReadPool;
}.

Definition default_readpools : ReadPoolConfig := mkReadPools default_unified default_storage_pool default_copr_pool.

Definition is_unified_pool_enabled (c : ReadPoolConfig) : bool :=
  uses_unified_pool StoragePool (rp_storage c) || uses_unified_pool CoprPool (rp_copr c).

Definition adjust_use_unified_pool (c : ReadPoolConfig) : ReadPoolConfig :=
  mkReadPools (rp_unified c) (adjust_pool StoragePool (rp_storage c)) (adjust_pool CoprPool (rp_copr c)).

Definition validate_readpools (c : ReadPoolConfig) : verdict :=
  (if is_unified_pool_enabled c then validate_unified (rp_unified c) else inr tt) ;?
  validate_pool StoragePool (rp_storage c) ;?
  validate_pool CoprPool (rp_copr c).

(** ** Sections that check their own fields *)

Record BackupConfig := mkBackup {
  bk_num_threads : Z;
  bk_alexandrov_poset_process_size : Z;
  bk_sst_max_size : Z;
  bk_enable_auto_tune : bool;
  bk_auto_tune_remain_threads : Z;
  bk_auto_tune_refresh_interval : Z;
  bk_io_thread_size : Z;
  bk_s3_multi_part_size : Z;
  bk_hadoop : string * string;
}.

Definition validate_backup (c : BackupConfig) : verdict :=
  refuse_if (bk_num_threads c =? 0) BackupThreads ;?
  refuse_if (bk_alexandrov_poset_process_size c =? 0) BackupBatch ;?
  refuse_if (size_gb 5 <? bk_s3_multi_part_size c) BackupPart.

(** [clamp(1.0, 8.0)] *)
Definition f64_clamp (lo hi x : f64) : f64 := if f64_ltb x lo then lo else if f64_ltb hi x then hi else x.

(** [BackupConfig::default]; the coprocessor's region size is given. *)
Definition default_backup (region_max_size : Z) (secs : Z → Z) : BackupConfig :=
  mkBackup (f64_as_usize (f64_clamp (f64_of_Z 1) (f64_of_Z 8) (f64_mul cpu_cores_quota (f64_lit 5 10)))) 8
    region_max_size true (f64_as_usize (f64_round (f64_mul cpu_cores_quota (f64_lit 2 10)))) (secs 60) 2 (size_mb 5) (EmptyString, EmptyString).

(** Durations are numbers of milliseconds or whatever the utility counts in: only zero matters. *)
Record CdcConfig := mkCdc {
  cdc_min_ts_interval : Z;
  cdc_hibernate_regions_compatible : bool;
  cdc_incremental_scan_threads : Z;
  cdc_incremental_scan_concurrency : Z;
  cdc_incremental_scan_speed_limit : Z;
  cdc_incremental_scan_ts_filter_ratio : f64;
  cdc_sink_memory_quota : Z;
  cdc_old_cache_memory_quota : Z;
  cdc_old_cache_size : Z;
}.

Definition default_cdc (secs : Z → Z) : CdcConfig :=
  mkCdc (secs 1) true 4 6 (size_mb 128) (f64_lit 2 10) (size_mb 512) (size_mb 512) 0.

Definition validate_cdc (c : CdcConfig) : verdict :=
  refuse_if (cdc_min_ts_interval c =? 0) CdcInterval ;?
  refuse_if (cdc_incremental_scan_threads c =? 0) CdcThreads ;?
  refuse_if (cdc_incremental_scan_concurrency c <? cdc_incremental_scan_threads c) CdcConcurrency ;?
  refuse_if (f64_ltb (cdc_incremental_scan_ts_filter_ratio c) (f64_of_Z 0)
             || f64_ltb (f64_of_Z 1) (cdc_incremental_scan_ts_filter_ratio c)) CdcRatio.

Record ResolvedTsConfig := mkResolved { rt_enable : bool; rt_advance_ts_interval : Z; rt_scan_lock_pool_size : Z }.

Definition default_resolved (secs : Z → Z) : ResolvedTsConfig := mkResolved true (secs 1) 2.

Definition validate_resolved (c : ResolvedTsConfig) : verdict :=
  refuse_if (rt_advance_ts_interval c =? 0) ResolvedInterval ;?
  refuse_if (rt_scan_lock_pool_size c =? 0) ResolvedPool.

End Pools.

(** ** Background jobs *)

Lemma inr_andthen {E} (c : E + unit) (k : E + unit) : (c ;? k) = inr tt ↔ c = inr tt ∧ k = inr tt.
Proof. destruct c as [e|[] ]; cbn; naive_solver. Qed.

Lemma inr_refuse {E} (b : bool) (e : E) : refuse_if b e = inr tt ↔ b = false.
Proof. destruct b; naive_solver. Qed.

(** Reads a run of checks that succeeds. *)
Ltac checks := repeat first [setoid_rewrite inr_andthen | setoid_rewrite inr_refuse | setoid_rewrite orb_false_iff
  | setoid_rewrite Z.eqb_neq | setoid_rewrite Z.ltb_ge | setoid_rewrite Z.leb_gt].

Record sane_limits (cpu : Z) (d l : BackgroundJobLimits) : Prop := {
  sane_jobs : max_background_jobs l = 2 ∨ 2 < max_background_jobs l ∧ max_background_jobs l = Z.min (max_background_jobs d) (cpu - 1);
  sane_jobs_two : max_background_jobs d <= 2 ∨ cpu <= 3 → max_background_jobs l = 2;
  sane_flushes : max_background_flushes l = Z.min (max_background_flushes d) ((max_background_jobs l + 3) / 4);
  sane_room : max_background_flushes l < max_background_jobs l;
  sane_sub : 1 <= max_sub_jet_bundles l ∧ (max_sub_jet_bundles l = 1
    ∨ max_sub_jet_bundles l = Z.min (max_sub_jet_bundles d) (max_background_jobs l - max_background_flushes l - 1));
  sane_gc : max_foundation_db_background_gc l = Z.min (max_foundation_db_background_gc d) cpu;
}.

Lemma job_limits_impl cpu d : is_u32 cpu → is_u32 (max_background_jobs d) → is_u32 (max_background_flushes d) →
  match get_background_job_limits_impl cpu d with
  | Panic => cpu = 0 ∨ U32_MAX - 3 < Z.min (max_background_jobs d) (cpu - 1)
  | Ret l => cpu ≠ 0 ∧ Z.min (max_background_jobs d) (cpu - 1) <= U32_MAX - 3 ∧ sane_limits cpu d l
  end.
Proof.
  unfold is_u32. intros Hc Hj Hf. unfold get_background_job_limits_impl.
  destruct (decide (cpu = 0)) as [->|]; [by left|]. rewrite u32_ok by (unfold U32_MAX in *; lia). bindr.
  set (j := Z.max 2 _). assert (2 <= j ∧ (j = 2 ∨ j = Z.min (max_background_jobs d) (cpu - 1))) as [Hj2 Hjj] by lia.
  destruct (decide (j + 3 <= U32_MAX)) as [Hle|]; cycle 1.
  { unfold u32. rewrite (chk_panic 0 _ (j + 3)) by lia. right. unfold U32_MAX in *. lia. }
  rewrite (u32_ok (j + 3)) by lia. bindr. set (f := Z.min ((j + 3) / 4) _).
  assert (0 <= f < j) as Hfj by (split; [apply Z.min_glb; [apply Z.div_pos|]; lia|];
    eapply Z.le_lt_trans; [apply Z.le_min_l|]; apply Z.div_lt_upper_bound; lia).
  rewrite !u32_ok by lia. bindr. rewrite u32_ok by lia. bindr.
  split_and!; [done|unfold U32_MAX in *; lia|]. split; cbn [max_background_jobs max_background_flushes
    max_sub_jet_bundles max_foundation_db_background_gc]; try (subst j f; lia).
Qed.

Section Jobs.
Context {SQ : SysQuota}.

(** The limits on background jobs.  The computation panics exactly without a processor (or when
    the default and the processors are next to the largest 32-bit number); otherwise the jobs are
    two, or the smaller of the default and the processors but one; flushes are a quarter of
    them (rounded up) at most the default, and always leave another job; sub-compactions are
    at least one and leave room for a second compaction when there is; collection threads
    are at most the default and the processors.  With the defaults of either engine the
    limits of this machine are accepted by the check the database makes of its own
    configuration exactly when it has at least one whole core: with less, the default
    configuration is refused. *)
Theorem background_jobs_exact : (∀ cpu d, is_u32 cpu → is_u32 (max_background_jobs d) → is_u32 (max_background_flushes d) →
    match get_background_job_limits_impl cpu d with
    | Panic => cpu = 0 ∨ U32_MAX - 3 < Z.min (max_background_jobs d) (cpu - 1)
    | Ret l => cpu ≠ 0 ∧ Z.min (max_background_jobs d) (cpu - 1) <= U32_MAX - 3 ∧ sane_limits cpu d l
    end)
  ∧ ∀ d, d = SOLITON_DEFAULT_BACKGROUND_JOB_LIMITS ∨ d = VIOLETABFT_DEFAULT_BACKGROUND_JOB_LIMITS →
    ∃ l, get_background_job_limits d = Ret l ∧ validate_jobs (max_background_jobs l) (max_background_flushes l)
      = if bool_decide (-214748364 <= f64_as_i32 cpu_cores_quota <= 214748364)
        then Ret (if f64_as_i32 cpu_cores_quota <=? 0 then inl BackgroundJobs else inr tt) else Panic.
Proof.
  split; [apply job_limits_impl|]. intros d Hd. unfold get_background_job_limits.
  assert (is_u32 (Z.max (f64_as_u32 cpu_cores_quota) 1) ∧ (0 < f64_as_i32 cpu_cores_quota →
    f64_as_i32 cpu_cores_quota <= Z.max (f64_as_u32 cpu_cores_quota) 1 ∧
    (f64_as_i32 cpu_cores_quota < I32_MAX → f64_as_i32 cpu_cores_quota = f64_as_u32 cpu_cores_quota))) as [Hu Hi].
  { unfold is_u32, f64_as_u32, f64_as_i32, f64_as, U32_MAX, I32_MAX, I32_MIN.
    destruct cpu_cores_quota as [|[]| |]; cbn [f64_trunc]; lia. }
  pose proof (job_limits_impl _ d Hu) as Hl.
  ospecialize (Hl _ _); [unfold is_u32, U32_MAX; by destruct Hd as [->| ->]..|].
  destruct (get_background_job_limits_impl _ _) as [l|]; cycle 1.
  { exfalso. unfold U32_MAX in *. destruct Hd as [-> | ->]; cbn in Hl; lia. }
  exists l. split; [done|]. destruct Hl as (_ & _ & [Hj H2 Hf Hr _ _]). unfold validate_jobs.
  set (q := f64_as_i32 cpu_cores_quota) in *. case_bool_decide as Hq; cycle 1.
  { unfold i32. rewrite chk_panic; [done|]. unfold I32_MIN, I32_MAX. lia. }
  rewrite i32_ok by (unfold I32_MIN, I32_MAX; lia). bindr. f_equal.
  assert (max_background_jobs l <= 10 ∧ max_background_jobs l <= Z.max 2 (Z.max (f64_as_u32 cpu_cores_quota) 1 - 1)
    ∧ 1 <= max_background_flushes l) as (B1 & B2 & B3).
  { destruct Hd as [-> | ->]; cbn in Hj, Hf; split_and!; try lia.
    all: rewrite Hf; apply Z.min_glb; [lia|]; apply Z.div_le_lower_bound; lia. }
  unfold I32_MAX in Hi. repeat case_Z; cbn; try done; try lia.
Qed.
End Jobs.

Lemma background_jobs_exact_witness : let SQ := {| cpu_cores_quota := f64_lit 1 2; memory_limit_in_bytes := 2 ^ 34 |} in
  get_background_job_limits SOLITON_DEFAULT_BACKGROUND_JOB_LIMITS = Ret (mkLimits 2 1 1 1)
  ∧ (∃ l, get_background_job_limits SOLITON_DEFAULT_BACKGROUND_JOB_LIMITS = Ret l ∧ validate_jobs (max_background_jobs l) (max_background_flushes l)
      = if bool_decide (-214748364 <= f64_as_i32 cpu_cores_quota <= 214748364)
        then Ret (if f64_as_i32 cpu_cores_quota <=? 0 then inl BackgroundJobs else inr tt) else Panic)
  ∧ f64_as_i32 cpu_cores_quota = 0.
Proof.
  cbv zeta. split; [by vm_compute|]. split; [|by vm_compute].
  apply (proj2 (background_jobs_exact (SQ := {| cpu_cores_quota := f64_lit 1 2; memory_limit_in_bytes := 2 ^ 34 |}))). by left.
Defined.

(** ** Read pools *)

Section ReadPools.
Context {SU : SizeUnits} {SQ : SysQuota}.

(** A pool that runs its own threads is in order. *)
Record pool_ok (c : ReadPool) : Prop := {
  ok_high : high_concurrency c ≠ 0;
  ok_normal : normal_concurrency c ≠ 0;
  ok_low : low_concurrency c ≠ 0;
  ok_stack : size_mb MIN_READPOOL_STACK_SIZE_MB <= stack_size c;
  ok_tasks : 1 < max_tasks_per_worker_high c ∧ 1 < max_tasks_per_worker_normal c ∧ 1 < max_tasks_per_worker_low c;
}.

Record unified_ok (c : UnifiedReadPoolConfig) : Prop := {
  ok_min : u_min_thread_count c ≠ 0;
  ok_max : u_min_thread_count c <= u_max_thread_count c;
  ok_ustack : size_mb 2 <= u_stack_size c;
  ok_utasks : 1 < u_max_tasks_per_worker c;
}.

Lemma validate_pool_ok k c : validate_pool k c = inr tt ↔ uses_unified_pool k c = true ∨ pool_ok c.
Proof.
  unfold validate_pool. destruct (uses_unified_pool k c); [naive_solver|]. checks.
  split; [intros (?&?&?&?&?&?&?); right; by split|]. intros [|[????(?&?&?)] ]; [done|split_and!; auto].
Qed.

Lemma validate_unified_ok c : validate_unified c = inr tt ↔ unified_ok c.
Proof. unfold validate_unified. checks. split; [intros (?&?&?&?); by split|]. intros [????]. auto. Qed.

Lemma adjust_uses k c : uses_unified_pool k (adjust_pool k c) = uses_unified_pool k c.
Proof.
  unfold adjust_pool, uses_unified_pool. destruct (use_unified_pool c) as [b|] eqn:E; [by rewrite E|].
  by destruct (bool_decide (c = default_pool k)).
Qed.

Lemma adjust_fields k c : ∃ b, adjust_pool k c = with_unified c (Some b).
Proof.
  unfold adjust_pool. destruct (use_unified_pool c) as [b|] eqn:E.
  - exists b. destruct c; cbn in *. by subst.
  - destruct (bool_decide _); eauto.
Qed.

Lemma pool_adjust k c : validate_pool k (adjust_pool k c) = validate_pool k c.
Proof.
  pose proof (adjust_uses k c) as H. destruct (adjust_fields k c) as [b Hb].
  unfold validate_pool. rewrite H, Hb. reflexivity.
Qed.

Lemma adjust_idem k c : adjust_pool k (adjust_pool k c) = adjust_pool k c.
Proof. destruct (adjust_fields k c) as [b ->]. reflexivity. Qed.

Lemma readpools_adjust_idem c : adjust_use_unified_pool (adjust_use_unified_pool c) = adjust_use_unified_pool c.
Proof. unfold adjust_use_unified_pool. cbn. by rewrite !adjust_idem. Qed.

Lemma readpools_adjust_valid c : validate_readpools (adjust_use_unified_pool c) = validate_readpools c.
Proof.
  unfold validate_readpools, is_unified_pool_enabled, adjust_use_unified_pool. cbn.
  by rewrite !adjust_uses, !pool_adjust.
Qed.

(** The read pools are accepted exactly when the shared pool is in order, if one of the two pools
    uses it, and each pool that does not use it is in order itself (a pool that does may hold
    anything).  A pool that does not say uses the shared one exactly when it is the default.
    Making the choice explicit changes neither the choices nor what is accepted, leaves every
    number alone, and doing it twice is doing it once. *)
Theorem readpool_exact c :
  (validate_readpools c = inr tt ↔
    (uses_unified_pool StoragePool (rp_storage c) = true ∨ uses_unified_pool CoprPool (rp_copr c) = true → unified_ok (rp_unified c))
    ∧ (uses_unified_pool StoragePool (rp_storage c) = true ∨ pool_ok (rp_storage c))
    ∧ (uses_unified_pool CoprPool (rp_copr c) = true ∨ pool_ok (rp_copr c)))
  ∧ (∀ k p, use_unified_pool p = None → uses_unified_pool k p = true ↔ p = default_pool k)
  ∧ let c' := adjust_use_unified_pool c in
    validate_readpools c' = validate_readpools c ∧ is_unified_pool_enabled c' = is_unified_pool_enabled c
    ∧ adjust_use_unified_pool c' = c' ∧ rp_unified c' = rp_unified c
    ∧ rp_storage c' = with_unified (rp_storage c) (Some (uses_unified_pool StoragePool (rp_storage c)))
    ∧ rp_copr c' = with_unified (rp_copr c) (Some (uses_unified_pool CoprPool (rp_copr c))).
Proof.
  split; [|split].
  - unfold validate_readpools, is_unified_pool_enabled. setoid_rewrite inr_andthen. setoid_rewrite inr_andthen.
    rewrite !validate_pool_ok. destruct (uses_unified_pool StoragePool _), (uses_unified_pool CoprPool _); cbn;
      rewrite ?validate_unified_ok; naive_solver.
  - intros k p Hp. unfold uses_unified_pool. rewrite Hp. apply bool_decide_eq_true.
  - cbv zeta. split_and!; [apply readpools_adjust_valid| |apply readpools_adjust_idem|done| |].
    + unfold is_unified_pool_enabled, adjust_use_unified_pool. cbn. by rewrite !adjust_uses.
    + destruct (adjust_fields StoragePool (rp_storage c)) as [b Hb]. pose proof (adjust_uses StoragePool (rp_storage c)) as Hu.
      cbn. rewrite <- Hu, Hb. reflexivity.
    + destruct (adjust_fields CoprPool (rp_copr c)) as [b Hb]. pose proof (adjust_uses CoprPool (rp_copr c)) as Hu.
      cbn. rewrite <- Hu, Hb. reflexivity.
Qed.

(** The defaults are accepted, and with the units of the utilities they are in order as own pools too. *)
Lemma default_readpools_ok {SL : SizeUnitsLaws} : validate_readpools default_readpools = inr tt
  ∧ ∀ k, pool_ok (default_pool k).
Proof.
  assert (∀ k, pool_ok (default_pool k)) as H.
  { intros []; split; cbn; rewrite ?size_mb_value; unfold DEFAULT_STORAGE_READPOOL_MAX_CONCURRENCY,
      DEFAULT_STORAGE_READPOOL_MIN_CONCURRENCY, DEFAULT_InterDagger_READPOOL_MIN_CONCURRENCY,
      DEFAULT_READPOOL_MAX_TASKS_PER_WORKER, MIN_READPOOL_STACK_SIZE_MB, DEFAULT_READPOOL_STACK_SIZE_MB; try lia. }
  split; [|done]. unfold validate_readpools. rewrite !inr_andthen. split_and!.
  - destruct (is_unified_pool_enabled _); [|done]. apply validate_unified_ok. split; cbn; rewrite ?size_mb_value;
      unfold UNIFIED_READPOOL_MIN_CONCURRENCY, DEFAULT_READPOOL_MAX_TASKS_PER_WORKER, DEFAULT_READPOOL_STACK_SIZE_MB; lia.
  - apply validate_pool_ok. right. apply (H StoragePool).
  - apply validate_pool_ok. right. apply (H CoprPool).
Qed.

(** The block cache of the default family of the raft store is between 256 MB and 1 GB; that of the
    main store is a quarter of the memory; no other family has a limit: asking for one panics. *)
Lemma memory_limit_exact {SL : SizeUnitsLaws} : 
  (∀ n m, ∃ s, memory_limit_for_namespaced true NS_default m = Ret s ∧ size_mb 256 <= s <= size_gb 1 ∧
     memory_limit_for_namespaced true n m = match n with NS_default => Ret s | _ => Panic end)
  ∧ ∀ n m, memory_limit_for_namespaced false n m = match n with
    | NS_default => Ret (size_mb (f64_as_usize (f64_mul (f64_of_Z m) (f64_lit 25 100)) / MIB))
    | _ => Panic
    end.
Proof.
  split.
  - intros n m. unfold memory_limit_for_namespaced. cbn [mbind outcome_bind].
    set (s := f64_as_usize _). eexists. split; [done|]. split; [|by destruct n].
    unfold VIOLETABFT_MIN_MEM, VIOLETABFT_MAX_MEM. rewrite !size_mb_value, size_gb_value, MIB_value, GIB_value.
    set (x := if s <? _ then _ else _). assert (2 ^ 28 <= x <= 2 ^ 30) as Hx by (subst x; repeat case_Z; lia).
    assert (256 <= x / 2 ^ 20 <= 1024) by (split; [apply Z.div_le_lower_bound|apply Z.div_le_upper_bound]; lia). lia.
  - intros [] m; [|done..]. unfold memory_limit_for_namespaced. cbn [mbind outcome_bind].
    assert (0 <= f64_as_usize (f64_mul (f64_of_Z m) (f64_lit 25 100)) <= U64_MAX) as Hb.
    { unfold f64_as_usize, f64_as, U64_MAX. destruct (f64_mul _ _) as [|[]| |]; lia. }
    rewrite (proj2 (Z.ltb_ge _ _)), (proj2 (Z.ltb_ge _ _)) by lia. done.
Qed.
End ReadPools.
