(* ===== verification/ConfigDb.v ===== *)
(** * ConfigDb: the configuration of the two databases

    [soliton/config.rs]: the column families ([namespaced_config!], one record for the
    five types the macro makes), the main database and the raft database, with their
    defaults, their validation and the options built from them.  The options are objects
    of the engine: building them is the list of the calls made on them, in order.  The
    engine's enumerations, its cache and region objects, the section of a family that
    configures blobs, and the units of durations are parameters. *)
From Stdlib Require Import ZArith Lia SpecFloat String.
From stdpp Require Import base list numbers.
From S2P Require Import Prelude Float ConfigPools.
#[local] Open Scope Z_scope.

Class DurationUnits := {
  dur_millis : Z → Z; dur_secs : Z → Z; dur_minutes : Z → Z; dur_hours : Z → Z;
  as_secs : Z → Z; as_millis : Z → Z;
}.

Class EngineTypes := {
  Compression : Type; C_No : Compression; C_Lz4 : Compression; C_Zstd : Compression; C_Disable : Compression;
  Priority : Type; P_MinOverlappingRatio : Priority; P_ByCompensatedSize : Priority;
  Style : Type; S_Level : Style;
  LogLevel : Type; L_Info : LogLevel;
  RecoveryMode : Type; R_PointInTime : RecoveryMode;
  RateLimiterMode : Type; M_WriteOnly : RateLimiterMode;
  FoundationNs : Type; fns_default : FoundationNs;
  Cache : Type;
  Provider : Type;
  DEFAULT_PROP_SIZE_INDEX_DISTANCE : Z;
  DEFAULT_PROP_CAUSET_KEYS_INDEX_DISTANCE : Z;
  region_violetabft_prefix_len : Z;
  (** [CompactionGuardGeneratorFactory::new] succeeds *)
  guard_factory : Namespaced → Provider → Z → bool;
  (** [set_prefix_extractor], [set_jet_bundle_filter_factory] and the like succeed *)
  engine_takes : string → bool;
}.

Definition namespaced_name (n : Namespaced) : string :=
  (match n with NS_default => "default" | NS_lock => "lock" | NS_write => "write" | NS_violetabft => "violetabft" end)%string.

Definition MAX_BLOCK_SIZE `{SizeUnits} : Z := 32 * MIB.

Section Db.
Context {SU : SizeUnits} {SQ : SysQuota} {DU : DurationUnits} {ET : EngineTypes}.

(** ** Data *)

Record NamespacedConfig := mkNamespacedConfig {
  nc_block_size : Z;
  nc_block_cache_size : Z;
  nc_disable_block_cache : bool;
  nc_cache_index_and_filter_blocks : bool;
  nc_pin_l0_filter_and_index_blocks : bool;
  nc_use_bloom_filter : bool;
  nc_optimize_filters_for_hits : bool;
  nc_whole_soliton_id_filtering : bool;
  nc_bloom_filter_bits_per_soliton_id : Z;
  nc_block_based_bloom_filter : bool;
  nc_read_amp_bytes_per_bit : Z;
  nc_compression_per_l_naught : list Compression;
  nc_write_buffer_size : Z;
  nc_max_write_buffer_number : Z;
  nc_min_write_buffer_number_to_merge : Z;
  nc_max_bytes_for_l_naught_base : Z;
  nc_target_file_size_base : Z;
  nc_l_naught0_file_num_jet_bundle_trigger : Z;
  nc_l_naught0_slowdown_writes_trigger : Z;
  nc_l_naught0_stop_writes_trigger : Z;
  nc_max_jet_bundle_bytes : Z;
  nc_jet_bundle_pri : Priority;
  nc_dynamic_l_naught_bytes : bool;
  nc_num_l_naughts : Z;
  nc_max_bytes_for_l_naught_multiplier : Z;
  nc_jet_bundle_style : Style;
  nc_disable_auto_jet_bundles : bool;
  nc_disable_write_stall : bool;
  nc_soft_pending_jet_bundle_bytes_limit : Z;
  nc_hard_pending_jet_bundle_bytes_limit : Z;
  nc_force_consistency_checks : bool;
  nc_prop_size_index_distance : Z;
  nc_prop_soliton_ids_index_distance : Z;
  nc_enable_doubly_skiplist : bool;
  nc_enable_jet_bundle_guard : bool;
  nc_jet_bundle_guard_min_output_file_size : Z;
  nc_jet_bundle_guard_max_output_file_size : Z;
  nc_bottommost_l_naught_compression : Compression;
  nc_bottommost_zstd_compression_dict_size : Z;
  nc_bottommost_zstd_compression_sample_size : Z;
  nc_FoundationDB : FoundationNs;
}.

Record FoundationDBDBConfig := mkFoundationDb {
  fd_enabled : bool;
  fd_dirname : string;
  fd_disable_gc : bool;
  fd_max_background_gc : Z;
  fd_purge_obsolete_files_period : Z;
}.

Record DbConfig := mkDb {
  db_info_log_l_naught : LogLevel;
  db_wal_recovery_mode : RecoveryMode;
  db_wal_dir : string;
  db_wal_ttl_seconds : Z;
  db_wal_size_limit : Z;
  db_max_total_wal_size : Z;
  db_max_background_jobs : Z;
  db_max_background_flushes : Z;
  db_max_manifest_file_size : Z;
  db_create_if_missing : bool;
  db_max_open_files : Z;
  db_enable_statistics : bool;
  db_stats_dump_period : Z;
  db_jet_bundle_readahead_size : Z;
  db_info_log_max_size : Z;
  db_info_log_roll_time : Z;
  db_info_log_keep_log_file_num : Z;
  db_info_log_dir : string;
  db_rate_bytes_per_sec : Z;
  db_rate_limiter_refill_period : Z;
  db_rate_limiter_mode : RateLimiterMode;
  db_auto_tuned : option bool;
  db_rate_limiter_auto_tuned : bool;
  db_bytes_per_sync : Z;
  db_wal_bytes_per_sync : Z;
  db_max_sub_jet_bundles : Z;
  db_writable_file_max_buffer_size : Z;
  db_use_direct_io_for_flush_and_jet_bundle : bool;
  db_enable_pipelined_write : bool;
  db_enable_multi_alexandrov_poset_process_write : bool;
  db_enable_unordered_write : bool;
  db_defaultnamespaced : NamespacedConfig;
  db_writenamespaced : NamespacedConfig;
  db_locknamespaced : NamespacedConfig;
  db_violetabftnamespaced : NamespacedConfig;
  db_FoundationDB : FoundationDBDBConfig;
}.

Record VioletaBFTDbConfig := mkRaftDb {
  rdb_wal_recovery_mode : RecoveryMode;
  rdb_wal_dir : string;
  rdb_wal_ttl_seconds : Z;
  rdb_wal_size_limit : Z;
  rdb_max_total_wal_size : Z;
  rdb_max_background_jobs : Z;
  rdb_max_background_flushes : Z;
  rdb_max_manifest_file_size : Z;
  rdb_create_if_missing : bool;
  rdb_max_open_files : Z;
  rdb_enable_statistics : bool;
  rdb_stats_dump_period : Z;
  rdb_jet_bundle_readahead_size : Z;
  rdb_info_log_max_size : Z;
  rdb_info_log_roll_time : Z;
  rdb_info_log_keep_log_file_num : Z;
  rdb_info_log_dir : string;
  rdb_info_log_l_naught : LogLevel;
  rdb_max_sub_jet_bundles : Z;
  rdb_writable_file_max_buffer_size : Z;
  rdb_use_direct_io_for_flush_and_jet_bundle : bool;
  rdb_enable_pipelined_write : bool;
  rdb_enable_unordered_write : bool;
  rdb_allow_concurrent_memtable_write : bool;
  rdb_bytes_per_sync : Z;
  rdb_wal_bytes_per_sync : Z;
  rdb_defaultnamespaced : NamespacedConfig;
  rdb_FoundationDB : FoundationDBDBConfig;
}.

(** ** Defaults

    A family whose default asks for a cache no limit is given for panics.  [fdb] is the
    blob section of the two families whose default writes one of another type, [total_mem]
    the size the lock family reads without asking for it. *)

Definition default_namespaced : outcome NamespacedConfig :=
  cache ← memory_limit_for_namespaced false NS_default memory_limit_in_bytes;
  Ret {|
    nc_block_size := size_kb 64;
    nc_block_cache_size := cache;
    nc_disable_block_cache := false;
    nc_cache_index_and_filter_blocks := true;
    nc_pin_l0_filter_and_index_blocks := true;
    nc_use_bloom_filter := true;
    nc_optimize_filters_for_hits := true;
    nc_whole_soliton_id_filtering := true;
    nc_bloom_filter_bits_per_soliton_id := 10;
    nc_block_based_bloom_filter := false;
    nc_read_amp_bytes_per_bit := 0;
    nc_compression_per_l_naught := [C_No; C_No; C_Lz4; C_Lz4; C_Lz4; C_Zstd; C_Zstd];
    nc_write_buffer_size := size_mb 128;
    nc_max_write_buffer_number := 5;
    nc_min_write_buffer_number_to_merge := 1;
    nc_max_bytes_for_l_naught_base := size_mb 512;
    nc_target_file_size_base := size_mb 8;
    nc_l_naught0_file_num_jet_bundle_trigger := 4;
    nc_l_naught0_slowdown_writes_trigger := 20;
    nc_l_naught0_stop_writes_trigger := 36;
    nc_max_jet_bundle_bytes := size_gb 2;
    nc_jet_bundle_pri := P_MinOverlappingRatio;
    nc_dynamic_l_naught_bytes := true;
    nc_num_l_naughts := 7;
    nc_max_bytes_for_l_naught_multiplier := 10;
    nc_jet_bundle_style := S_Level;
    nc_disable_auto_jet_bundles := false;
    nc_disable_write_stall := false;
    nc_soft_pending_jet_bundle_bytes_limit := size_gb 192;
    nc_hard_pending_jet_bundle_bytes_limit := size_gb 256;
    nc_force_consistency_checks := false;
    nc_prop_size_index_distance := DEFAULT_PROP_SIZE_INDEX_DISTANCE;
    nc_prop_soliton_ids_index_distance := DEFAULT_PROP_CAUSET_KEYS_INDEX_DISTANCE;
    nc_enable_doubly_skiplist := true;
    nc_enable_jet_bundle_guard := true;
    nc_jet_bundle_guard_min_output_file_size := size_mb 8;
    nc_jet_bundle_guard_max_output_file_size := size_mb 128;
    nc_FoundationDB := fns_default;
    nc_bottommost_l_naught_compression := C_Zstd;
    nc_bottommost_zstd_compression_dict_size := 0;
    nc_bottommost_zstd_compression_sample_size := 0;
  |}.

Definition write_namespaced (fdb : FoundationNs) : outcome NamespacedConfig :=
  cache ← memory_limit_for_namespaced false NS_write memory_limit_in_bytes;
  Ret {|
    nc_block_size := size_kb 64;
    nc_block_cache_size := cache;
    nc_disable_block_cache := false;
    nc_cache_index_and_filter_blocks := true;
    nc_pin_l0_filter_and_index_blocks := true;
    nc_use_bloom_filter := true;
    nc_optimize_filters_for_hits := false;
    nc_whole_soliton_id_filtering := false;
    nc_bloom_filter_bits_per_soliton_id := 10;
    nc_block_based_bloom_filter := false;
    nc_read_amp_bytes_per_bit := 0;
    nc_compression_per_l_naught := [C_No; C_No; C_Lz4; C_Lz4; C_Lz4; C_Zstd; C_Zstd];
    nc_write_buffer_size := size_mb 128;
    nc_max_write_buffer_number := 5;
    nc_min_write_buffer_number_to_merge := 1;
    nc_max_bytes_for_l_naught_base := size_mb 512;
    nc_target_file_size_base := size_mb 8;
    nc_l_naught0_file_num_jet_bundle_trigger := 4;
    nc_l_naught0_slowdown_writes_trigger := 20;
    nc_l_naught0_stop_writes_trigger := 36;
    nc_max_jet_bundle_bytes := size_gb 2;
    nc_jet_bundle_pri := P_MinOverlappingRatio;
    nc_dynamic_l_naught_bytes := true;
    nc_num_l_naughts := 7;
    nc_max_bytes_for_l_naught_multiplier := 10;
    nc_jet_bundle_style := S_Level;
    nc_disable_auto_jet_bundles := false;
    nc_disable_write_stall := false;
    nc_soft_pending_jet_bundle_bytes_limit := size_gb 192;
    nc_hard_pending_jet_bundle_bytes_limit := size_gb 256;
    nc_force_consistency_checks := false;
    nc_prop_size_index_distance := DEFAULT_PROP_SIZE_INDEX_DISTANCE;
    nc_prop_soliton_ids_index_distance := DEFAULT_PROP_CAUSET_KEYS_INDEX_DISTANCE;
    nc_enable_doubly_skiplist := true;
    nc_enable_jet_bundle_guard := true;
    nc_jet_bundle_guard_min_output_file_size := size_mb 8;
    nc_jet_bundle_guard_max_output_file_size := size_mb 128;
    nc_FoundationDB := fdb;
    nc_bottommost_l_naught_compression := C_Zstd;
    nc_bottommost_zstd_compression_dict_size := 0;
    nc_bottommost_zstd_compression_sample_size := 0;
  |}.

Definition lock_namespaced (fdb : FoundationNs) (total_mem : Z) : outcome NamespacedConfig :=
  cache ← memory_limit_for_namespaced false NS_lock total_mem;
  Ret {|
    nc_block_size := size_kb 16;
    nc_block_cache_size := cache;
    nc_disable_block_cache := false;
    nc_cache_index_and_filter_blocks := true;
    nc_pin_l0_filter_and_index_blocks := true;
    nc_use_bloom_filter := true;
    nc_optimize_filters_for_hits := false;
    nc_whole_soliton_id_filtering := true;
    nc_bloom_filter_bits_per_soliton_id := 10;
    nc_block_based_bloom_filter := false;
    nc_read_amp_bytes_per_bit := 0;
    nc_compression_per_l_naught := replicate 7 C_No;
    nc_write_buffer_size := size_mb 32;
    nc_max_write_buffer_number := 5;
    nc_min_write_buffer_number_to_merge := 1;
    nc_max_bytes_for_l_naught_base := size_mb 128;
    nc_target_file_size_base := size_mb 8;
    nc_l_naught0_file_num_jet_bundle_trigger := 1;
    nc_l_naught0_slowdown_writes_trigger := 20;
    nc_l_naught0_stop_writes_trigger := 36;
    nc_max_jet_bundle_bytes := size_gb 2;
    nc_jet_bundle_pri := P_ByCompensatedSize;
    nc_dynamic_l_naught_bytes := true;
    nc_num_l_naughts := 7;
    nc_max_bytes_for_l_naught_multiplier := 10;
    nc_jet_bundle_style := S_Level;
    nc_disable_auto_jet_bundles := false;
    nc_disable_write_stall := false;
    nc_soft_pending_jet_bundle_bytes_limit := size_gb 192;
    nc_hard_pending_jet_bundle_bytes_limit := size_gb 256;
    nc_force_consistency_checks := false;
    nc_prop_size_index_distance := DEFAULT_PROP_SIZE_INDEX_DISTANCE;
    nc_prop_soliton_ids_index_distance := DEFAULT_PROP_CAUSET_KEYS_INDEX_DISTANCE;
    nc_enable_doubly_skiplist := true;
    nc_enable_jet_bundle_guard := false;
    nc_jet_bundle_guard_min_output_file_size := size_mb 8;
    nc_jet_bundle_guard_max_output_file_size := size_mb 128;
    nc_FoundationDB := fdb;
    nc_bottommost_l_naught_compression := C_Disable;
    nc_bottommost_zstd_compression_dict_size := 0;
    nc_bottommost_zstd_compression_sample_size := 0;
  |}.

Definition violetabft_namespaced : NamespacedConfig :=
  {|
    nc_block_size := size_kb 16;
    nc_block_cache_size := size_mb 128;
    nc_disable_block_cache := false;
    nc_cache_index_and_filter_blocks := true;
    nc_pin_l0_filter_and_index_blocks := true;
    nc_use_bloom_filter := true;
    nc_optimize_filters_for_hits := true;
    nc_whole_soliton_id_filtering := true;
    nc_bloom_filter_bits_per_soliton_id := 10;
    nc_block_based_bloom_filter := false;
    nc_read_amp_bytes_per_bit := 0;
    nc_compression_per_l_naught := replicate 7 C_No;
    nc_write_buffer_size := size_mb 128;
    nc_max_write_buffer_number := 5;
    nc_min_write_buffer_number_to_merge := 1;
    nc_max_bytes_for_l_naught_base := size_mb 128;
    nc_target_file_size_base := size_mb 8;
    nc_l_naught0_file_num_jet_bundle_trigger := 1;
    nc_l_naught0_slowdown_writes_trigger := 20;
    nc_l_naught0_stop_writes_trigger := 36;
    nc_max_jet_bundle_bytes := size_gb 2;
    nc_jet_bundle_pri := P_ByCompensatedSize;
    nc_dynamic_l_naught_bytes := true;
    nc_num_l_naughts := 7;
    nc_max_bytes_for_l_naught_multiplier := 10;
    nc_jet_bundle_style := S_Level;
    nc_disable_auto_jet_bundles := false;
    nc_disable_write_stall := false;
    nc_soft_pending_jet_bundle_bytes_limit := size_gb 192;
    nc_hard_pending_jet_bundle_bytes_limit := size_gb 256;
    nc_force_consistency_checks := false;
    nc_prop_size_index_distance := DEFAULT_PROP_SIZE_INDEX_DISTANCE;
    nc_prop_soliton_ids_index_distance := DEFAULT_PROP_CAUSET_KEYS_INDEX_DISTANCE;
    nc_enable_doubly_skiplist := true;
    nc_enable_jet_bundle_guard := false;
    nc_jet_bundle_guard_min_output_file_size := size_mb 8;
    nc_jet_bundle_guard_max_output_file_size := size_mb 128;
    nc_FoundationDB := fns_default;
    nc_bottommost_l_naught_compression := C_Disable;
    nc_bottommost_zstd_compression_dict_size := 0;
    nc_bottommost_zstd_compression_sample_size := 0;
  |}.

Definition violetabft_default_namespaced : outcome NamespacedConfig :=
  cache ← memory_limit_for_namespaced true NS_default memory_limit_in_bytes;
  Ret {|
    nc_block_size := size_kb 64;
    nc_block_cache_size := cache;
    nc_disable_block_cache := false;
    nc_cache_index_and_filter_blocks := true;
    nc_pin_l0_filter_and_index_blocks := true;
    nc_use_bloom_filter := false;
    nc_optimize_filters_for_hits := true;
    nc_whole_soliton_id_filtering := true;
    nc_bloom_filter_bits_per_soliton_id := 10;
    nc_block_based_bloom_filter := false;
    nc_read_amp_bytes_per_bit := 0;
    nc_compression_per_l_naught := [C_No; C_No; C_Lz4; C_Lz4; C_Lz4; C_Zstd; C_Zstd];
    nc_write_buffer_size := size_mb 128;
    nc_max_write_buffer_number := 5;
    nc_min_write_buffer_number_to_merge := 1;
    nc_max_bytes_for_l_naught_base := size_mb 512;
    nc_target_file_size_base := size_mb 8;
    nc_l_naught0_file_num_jet_bundle_trigger := 4;
    nc_l_naught0_slowdown_writes_trigger := 20;
    nc_l_naught0_stop_writes_trigger := 36;
    nc_max_jet_bundle_bytes := size_gb 2;
    nc_jet_bundle_pri := P_ByCompensatedSize;
    nc_dynamic_l_naught_bytes := true;
    nc_num_l_naughts := 7;
    nc_max_bytes_for_l_naught_multiplier := 10;
    nc_jet_bundle_style := S_Level;
    nc_disable_auto_jet_bundles := false;
    nc_disable_write_stall := false;
    nc_soft_pending_jet_bundle_bytes_limit := size_gb 192;
    nc_hard_pending_jet_bundle_bytes_limit := size_gb 256;
    nc_force_consistency_checks := false;
    nc_prop_size_index_distance := DEFAULT_PROP_SIZE_INDEX_DISTANCE;
    nc_prop_soliton_ids_index_distance := DEFAULT_PROP_CAUSET_KEYS_INDEX_DISTANCE;
    nc_enable_doubly_skiplist := true;
    nc_enable_jet_bundle_guard := false;
    nc_jet_bundle_guard_min_output_file_size := size_mb 8;
    nc_jet_bundle_guard_max_output_file_size := size_mb 128;
    nc_FoundationDB := fns_default;
    nc_bottommost_l_naught_compression := C_Disable;
    nc_bottommost_zstd_compression_dict_size := 0;
    nc_bottommost_zstd_compression_sample_size := 0;
  |}.

Definition default_db (fdb : FoundationNs) (total_mem : Z) : outcome DbConfig :=
  l ← get_background_job_limits SOLITON_DEFAULT_BACKGROUND_JOB_LIMITS;
  dns ← default_namespaced; wns ← write_namespaced fdb; lns ← lock_namespaced fdb total_mem;
  Ret {|
    db_wal_recovery_mode := R_PointInTime;
    db_wal_dir := EmptyString;
    db_wal_ttl_seconds := 0;
    db_wal_size_limit := size_kb 0;
    db_max_total_wal_size := size_gb 4;
    db_max_background_jobs := as_i32 (max_background_jobs l);
    db_max_background_flushes := as_i32 (max_background_flushes l);
    db_max_manifest_file_size := size_mb 128;
    db_create_if_missing := true;
    db_max_open_files := 40960;
    db_enable_statistics := true;
    db_stats_dump_period := dur_minutes 10;
    db_jet_bundle_readahead_size := size_kb 0;
    db_info_log_max_size := size_gb 1;
    db_info_log_roll_time := dur_secs 0;
    db_info_log_keep_log_file_num := 10;
    db_info_log_dir := EmptyString;
    db_info_log_l_naught := L_Info;
    db_rate_bytes_per_sec := size_gb 10;
    db_rate_limiter_refill_period := dur_millis 100;
    db_rate_limiter_mode := M_WriteOnly;
    db_auto_tuned := None;
    db_rate_limiter_auto_tuned := true;
    db_bytes_per_sync := size_mb 1;
    db_wal_bytes_per_sync := size_kb 512;
    db_max_sub_jet_bundles := max_sub_jet_bundles l;
    db_writable_file_max_buffer_size := size_mb 1;
    db_use_direct_io_for_flush_and_jet_bundle := false;
    db_enable_pipelined_write := true;
    db_enable_multi_alexandrov_poset_process_write := true;
    db_enable_unordered_write := false;
    db_defaultnamespaced := dns;
    db_writenamespaced := wns;
    db_locknamespaced := lns;
    db_violetabftnamespaced := violetabft_namespaced;
    db_FoundationDB := mkFoundationDb false EmptyString false (as_i32 (max_foundation_db_background_gc l)) (dur_secs 10);
  |}.

Definition default_raft_db : outcome VioletaBFTDbConfig :=
  l ← get_background_job_limits VIOLETABFT_DEFAULT_BACKGROUND_JOB_LIMITS;
  dns ← violetabft_default_namespaced;
  Ret {|
    rdb_wal_recovery_mode := R_PointInTime;
    rdb_wal_dir := EmptyString;
    rdb_wal_ttl_seconds := 0;
    rdb_wal_size_limit := size_kb 0;
    rdb_max_total_wal_size := size_gb 4;
    rdb_max_background_jobs := as_i32 (max_background_jobs l);
    rdb_max_background_flushes := as_i32 (max_background_flushes l);
    rdb_max_manifest_file_size := size_mb 20;
    rdb_create_if_missing := true;
    rdb_max_open_files := 40960;
    rdb_enable_statistics := true;
    rdb_stats_dump_period := dur_minutes 10;
    rdb_jet_bundle_readahead_size := size_kb 0;
    rdb_info_log_max_size := size_gb 1;
    rdb_info_log_roll_time := dur_secs 0;
    rdb_info_log_keep_log_file_num := 10;
    rdb_info_log_dir := EmptyString;
    rdb_info_log_l_naught := L_Info;
    rdb_max_sub_jet_bundles := max_sub_jet_bundles l;
    rdb_writable_file_max_buffer_size := size_mb 1;
    rdb_use_direct_io_for_flush_and_jet_bundle := false;
    rdb_enable_pipelined_write := true;
    rdb_enable_unordered_write := false;
    rdb_allow_concurrent_memtable_write := true;
    rdb_bytes_per_sync := size_mb 1;
    rdb_wal_bytes_per_sync := size_kb 512;
    rdb_defaultnamespaced := dns;
    rdb_FoundationDB := mkFoundationDb false EmptyString false (as_i32 (max_foundation_db_background_gc l)) (dur_secs 10);
  |}.

(** ** Validation *)

Definition validate_namespaced_config (c : NamespacedConfig) : verdict :=
  refuse_if (MAX_BLOCK_SIZE <? as_u64 (nc_block_size c)) BlockSizeTooLarge.

(** [FoundationDBDBConfig::validate] *)
Definition validate_foundation (c : FoundationDBDBConfig) : verdict := inr tt.

(** [DbConfig::validate] *)
Definition validate_db (c : DbConfig) : outcome verdict :=
  match
    validate_namespaced_config (db_defaultnamespaced c) ;?
    validate_namespaced_config (db_locknamespaced c) ;?
    validate_namespaced_config (db_writenamespaced c) ;?
    validate_namespaced_config (db_violetabftnamespaced c) ;?
    validate_foundation (db_FoundationDB c) ;?
    (if db_enable_unordered_write c
     then refuse_if (fd_enabled (db_FoundationDB c)) UnorderedWithFoundationDB ;?
          refuse_if (db_enable_pipelined_write c || db_enable_multi_alexandrov_poset_process_write c) UnorderedWithPipelined
     else inr tt)
  with
  | inl e => Ret (inl e)
  | inr _ => validate_jobs (db_max_background_jobs c) (db_max_background_flushes c)
  end.

(** [VioletaBFTDbConfig::validate] *)
Definition validate_raft_db (c : VioletaBFTDbConfig) : verdict :=
  validate_namespaced_config (rdb_defaultnamespaced c) ;?
  (if rdb_enable_unordered_write c
   then refuse_if (fd_enabled (rdb_FoundationDB c)) UnorderedWithFoundationDB ;?
        refuse_if (rdb_enable_pipelined_write c) UnorderedWithPipelined
   else inr tt).

(** ** Options: the calls made on the engine's objects *)

Inductive OptArg :=
| AZ (z : Z) | AB (b : bool) | AS (s : string) | AF (f : f64)
| ACompression (c : Compression) | ACompressions (l : list Compression)
| APriority (p : Priority) | AStyle (s : Style) | ALog (l : LogLevel) | ARecovery (r : RecoveryMode)
| ALimiter (m : RateLimiterMode) | AFns (f : FoundationNs) | ACache (c : Cache) | AProvider (p : Provider).

Record OptCall := Call { call_name : string; call_args : list OptArg }.

Definition unwrap_call (method : string) (args : list OptArg) : outcome (list OptCall) :=
  if engine_takes method then Ret [Call method args] else Panic.

(** The block table's part of [build_namespaced_opt!]. *)
Definition block_base_calls (o : NamespacedConfig) (cache : option Cache) : list OptCall :=
  [ Call "set_block_size" [AZ (nc_block_size o)];
    Call "set_no_block_cache" [AB (nc_disable_block_cache o)] ]
  ++ match cache with
     | Some c => [Call "set_block_cache" [ACache c]]
     | None => [Call "set_capacity" [AZ (nc_block_cache_size o)]; Call "set_block_cache" []]
     end
  ++ [ Call "set_cache_index_and_filter_blocks" [AB (nc_cache_index_and_filter_blocks o)];
       Call "set_pin_l0_filter_and_index_blocks_in_cache" [AB (nc_pin_l0_filter_and_index_blocks o)] ]
  ++ (if nc_use_bloom_filter o
      then [ Call "set_bloom_filter" [AZ (nc_bloom_filter_bits_per_soliton_id o); AB (nc_block_based_bloom_filter o)];
             Call "set_whole_soliton_id_filtering" [AB (nc_whole_soliton_id_filtering o)] ]
      else [])
  ++ [ Call "set_read_amp_bytes_per_bit" [AZ (nc_read_amp_bytes_per_bit o)] ].

(** The calls from the write buffer to the doubly linked skip list. *)
Definition family_calls (o : NamespacedConfig) : list OptCall :=
  [ Call "bottommost_compression" [ACompression (nc_bottommost_l_naught_compression o)];
    Call "set_bottommost_l_naught_compression_options" [AZ (-14); AZ 32767; AZ 0;
      AZ (nc_bottommost_zstd_compression_dict_size o); AZ (nc_bottommost_zstd_compression_sample_size o)];
    Call "set_write_buffer_size" [AZ (nc_write_buffer_size o)];
    Call "set_max_write_buffer_number" [AZ (nc_max_write_buffer_number o)];
    Call "set_min_write_buffer_number_to_merge" [AZ (nc_min_write_buffer_number_to_merge o)];
    Call "set_max_bytes_for_l_naught_base" [AZ (nc_max_bytes_for_l_naught_base o)];
    Call "set_target_file_size_base" [AZ (nc_target_file_size_base o)];
    Call "set_l_naught_zero_file_num_jet_bundle_trigger" [AZ (nc_l_naught0_file_num_jet_bundle_trigger o)];
    Call "set_l_naught_zero_slowdown_writes_trigger" [AZ (nc_l_naught0_slowdown_writes_trigger o)];
    Call "set_l_naught_zero_stop_writes_trigger" [AZ (nc_l_naught0_stop_writes_trigger o)];
    Call "set_max_jet_bundle_bytes" [AZ (nc_max_jet_bundle_bytes o)];
    Call "jet_bundle_priority" [APriority (nc_jet_bundle_pri o)];
    Call "set_l_naught_jet_bundle_dynamic_l_naught_bytes" [AB (nc_dynamic_l_naught_bytes o)];
    Call "set_max_bytes_for_l_naught_multiplier" [AZ (nc_max_bytes_for_l_naught_multiplier o)];
    Call "set_jet_bundle_style" [AStyle (nc_jet_bundle_style o)];
    Call "set_disable_auto_jet_bundles" [AB (nc_disable_auto_jet_bundles o)];
    Call "set_disable_write_stall" [AB (nc_disable_write_stall o)];
    Call "set_soft_pending_jet_bundle_bytes_limit" [AZ (nc_soft_pending_jet_bundle_bytes_limit o)];
    Call "set_hard_pending_jet_bundle_bytes_limit" [AZ (nc_hard_pending_jet_bundle_bytes_limit o)];
    Call "set_optimize_filters_for_hits" [AB (nc_optimize_filters_for_hits o)];
    Call "set_force_consistency_checks" [AB (nc_force_consistency_checks o)] ]
  ++ (if nc_enable_doubly_skiplist o then [Call "set_doubly_skiplist" []] else []).

(** The guard that cuts files at regions: it replaces the target size. *)
Definition guard_calls (o : NamespacedConfig) (n : Namespaced) (provider : option Provider) : outcome (list OptCall) :=
  match nc_enable_jet_bundle_guard o, provider with
  | true, Some p =>
      if guard_factory n p (nc_jet_bundle_guard_min_output_file_size o)
      then Ret [ Call "set_sst_partitioner_factory" [AProvider p; AZ (nc_jet_bundle_guard_min_output_file_size o)];
                 Call "set_target_file_size_base" [AZ (nc_jet_bundle_guard_max_output_file_size o)] ]
      else Panic
  | _, _ => Ret []
  end.

(** [build_namespaced_opt!] *)
Definition build_namespaced_opt (o : NamespacedConfig) (n : Namespaced) (cache : option Cache) (provider : option Provider)
  : outcome (list OptCall) :=
  _ ← guardM (as_u64 (nc_num_l_naughts o) <=? Z.of_nat (length (nc_compression_per_l_naught o)));
  let per_level := take (Z.to_nat (as_u64 (nc_num_l_naughts o))) (nc_compression_per_l_naught o) in
  guard ← guard_calls o n provider;
  Ret (block_base_calls o cache
       ++ [ Call "set_block_based_table_factory" []; Call "set_num_l_naughts" [AZ (nc_num_l_naughts o)];
            Call "compression_per_l_naught" [ACompressions per_level] ]
       ++ family_calls o ++ guard).

Definition range_properties (o : NamespacedConfig) : OptCall :=
  Call "add_table_properties_collector_factory" [AS "einsteindb.range-properties-collector";
    AZ (nc_prop_size_index_distance o); AZ (nc_prop_soliton_ids_index_distance o)].

(** [DefaultNamespacedConfig::build_opt]; [ttl] is the API's [IS_TTL_ENABLED]. *)
Definition build_default (o : NamespacedConfig) (cache : option Cache) (provider : option Provider) (ttl : bool)
  : outcome (list OptCall) :=
  base ← build_namespaced_opt o NS_default cache provider;
  more ← (if ttl then
            filter_ ← unwrap_call "set_jet_bundle_filter_factory" [AS "ttl_jet_bundle_filter_factory"];
            Ret (Call "add_table_properties_collector_factory" [AS "einsteindb.ttl-properties-collector"] :: filter_)
          else Ret []);
  Ret (base ++ [range_properties o] ++ more ++ [Call "set_FoundationDBdb_options" [AFns (nc_FoundationDB o)]]).

(** [WriteNamespacedConfig::build_opt] *)
Definition build_write (o : NamespacedConfig) (cache : option Cache) (provider : option Provider) : outcome (list OptCall) :=
  base ← build_namespaced_opt o NS_write cache provider;
  prefix ← unwrap_call "set_prefix_extractor" [AS "FixedSuffixSliceTransform"; AZ 8];
  filter_ ← unwrap_call "set_jet_bundle_filter_factory" [AS "write_jet_bundle_filter_factory"];
  Ret (base ++ prefix
       ++ [ Call "set_memtable_prefix_bloom_size_ratio" [AF (f64_lit 1 10)];
            Call "add_table_properties_collector_factory" [AS "einsteindb.causet_model-properties-collector"];
            range_properties o ]
       ++ filter_ ++ [Call "set_FoundationDBdb_options" [AFns (nc_FoundationDB o)]]).

(** [DaggerNamespacedConfig::build_opt] *)
Definition build_lock (o : NamespacedConfig) (cache : option Cache) : outcome (list OptCall) :=
  base ← build_namespaced_opt o NS_lock cache None;
  prefix ← unwrap_call "set_prefix_extractor" [AS "NoopSliceTransform"];
  Ret (base ++ prefix ++ [ range_properties o; Call "set_memtable_prefix_bloom_size_ratio" [AF (f64_lit 1 10)];
                           Call "set_FoundationDBdb_options" [AFns (nc_FoundationDB o)] ]).

(** [VioletaBFTNamespacedConfig::build_opt] *)
Definition build_violetabft (o : NamespacedConfig) (cache : option Cache) : outcome (list OptCall) :=
  base ← build_namespaced_opt o NS_violetabft cache None;
  prefix ← unwrap_call "set_prefix_extractor" [AS "NoopSliceTransform"];
  Ret (base ++ prefix ++ [ Call "set_memtable_prefix_bloom_size_ratio" [AF (f64_lit 1 10)];
                           Call "set_FoundationDBdb_options" [AFns (nc_FoundationDB o)] ]).

(** [VioletaBFTDefaultNamespacedConfig::build_opt] *)
Definition build_violetabft_default (o : NamespacedConfig) (cache : option Cache) : outcome (list OptCall) :=
  base ← build_namespaced_opt o NS_default cache None;
  prefix ← unwrap_call "set_memtable_insert_hint_prefix_extractor" [AS "VioletaBFTPrefixSliceTransform"; AZ region_violetabft_prefix_len];
  Ret (base ++ prefix ++ [Call "set_FoundationDBdb_options" [AFns (nc_FoundationDB o)]]).

(** [DbConfig::build_namespaced_opts] *)
Definition build_namespaced_opts (c : DbConfig) (cache : option Cache) (provider : option Provider) (ttl : bool)
  : outcome (list (Namespaced * list OptCall)) :=
  d ← build_default (db_defaultnamespaced c) cache provider ttl;
  l ← build_lock (db_locknamespaced c) cache;
  w ← build_write (db_writenamespaced c) cache provider;
  v ← build_violetabft (db_violetabftnamespaced c) cache;
  Ret [(NS_default, d); (NS_lock, l); (NS_write, w); (NS_violetabft, v)].

(** [FoundationDBDBConfig::build_opts] *)
Definition foundation_calls (c : FoundationDBDBConfig) : list OptCall :=
  [ Call "set_dirname" [AS (fd_dirname c)]; Call "set_disable_background_gc" [AB (fd_disable_gc c)];
    Call "set_max_background_gc" [AZ (fd_max_background_gc c)];
    Call "set_purge_obsolete_files_period" [AZ (as_secs (fd_purge_obsolete_files_period c))] ].

Definition dir_call (method dir : string) : list OptCall := if String.eqb dir EmptyString then [] else [Call method [AS dir]].

(** [DbConfig::build_opt]. *)
Definition build_db_opt (c : DbConfig) : outcome (list OptCall) :=
  bundles ← i32 (db_max_background_jobs c - db_max_background_flushes c);
  limiter ← (if 0 <? db_rate_bytes_per_sec c then
      period ← u64 (as_millis (db_rate_limiter_refill_period c) * 1000);
      Ret [ Call (if db_rate_limiter_auto_tuned c then "set_writeampbasedratelimiter_with_auto_tuned"%string
                  else "set_ratelimiter_with_auto_tuned"%string)
              [AZ (as_i64 (db_rate_bytes_per_sec c)); AZ (as_i64 period); ALimiter (db_rate_limiter_mode c);
               AB (db_rate_limiter_auto_tuned c)] ]
    else Ret []);
  Ret ([ Call "set_wal_recovery_mode" [ARecovery (db_wal_recovery_mode c)] ]
    ++ dir_call "set_wal_dir" (db_wal_dir c)
    ++ [ Call "set_wal_ttl_seconds" [AZ (db_wal_ttl_seconds c)];
         Call "set_wal_size_limit_mb" [AZ (as_mb (db_wal_size_limit c))];
         Call "set_max_total_wal_size" [AZ (db_max_total_wal_size c)];
         Call "set_max_background_jobs" [AZ (db_max_background_jobs c)];
         Call "set_max_background_flushes" [AZ (db_max_background_flushes c)];
         Call "set_max_background_jet_bundles" [AZ bundles];
         Call "set_max_manifest_file_size" [AZ (db_max_manifest_file_size c)];
         Call "create_if_missing" [AB (db_create_if_missing c)];
         Call "set_max_open_files" [AZ (db_max_open_files c)];
         Call "enable_statistics" [AB (db_enable_statistics c)];
         Call "set_stats_dump_period_sec" [AZ (as_secs (db_stats_dump_period c))];
         Call "set_jet_bundle_readahead_size" [AZ (db_jet_bundle_readahead_size c)];
         Call "set_max_log_file_size" [AZ (db_info_log_max_size c)];
         Call "set_log_file_time_to_roll" [AZ (as_secs (db_info_log_roll_time c))];
         Call "set_keep_log_file_num" [AZ (db_info_log_keep_log_file_num c)] ]
    ++ limiter
    ++ [ Call "set_bytes_per_sync" [AZ (db_bytes_per_sync c)];
         Call "set_wal_bytes_per_sync" [AZ (db_wal_bytes_per_sync c)];
         Call "set_max_subjet_bundles" [AZ (db_max_sub_jet_bundles c)];
         Call "set_writable_file_max_buffer_size" [AZ (as_i32 (db_writable_file_max_buffer_size c))];
         Call "set_use_direct_io_for_flush_and_jet_bundle" [AB (db_use_direct_io_for_flush_and_jet_bundle c)];
         Call "enable_pipelined_write" [AB ((db_enable_pipelined_write c || db_enable_multi_alexandrov_poset_process_write c)
                                           && negb (db_enable_unordered_write c))];
         Call "enable_multi_alexandrov_poset_process_write" [AB (db_enable_multi_alexandrov_poset_process_write c)];
         Call "enable_unordered_write" [AB (db_enable_unordered_write c)];
         Call "add_event_listener" [AS "kv"];
         Call "set_info_log" [];
         Call "set_info_log_l_naught" [ALog (db_info_log_l_naught c)] ]
    ++ (if fd_enabled (db_FoundationDB c)
        then foundation_calls (db_FoundationDB c) ++ [Call "set_FoundationDBdb_options" []] else [])).

(** [VioletaBFTDbConfig::build_opt] *)
Definition build_raft_opt (c : VioletaBFTDbConfig) : outcome (list OptCall) :=
  bundles ← i32 (rdb_max_background_jobs c - rdb_max_background_flushes c);
  Ret ([ Call "set_wal_recovery_mode" [ARecovery (rdb_wal_recovery_mode c)] ]
    ++ dir_call "set_wal_dir" (rdb_wal_dir c)
    ++ [ Call "set_wal_ttl_seconds" [AZ (rdb_wal_ttl_seconds c)];
         Call "set_wal_size_limit_mb" [AZ (as_mb (rdb_wal_size_limit c))];
         Call "set_max_background_jobs" [AZ (rdb_max_background_jobs c)];
         Call "set_max_background_flushes" [AZ (rdb_max_background_flushes c)];
         Call "set_max_background_jet_bundles" [AZ bundles];
         Call "set_max_total_wal_size" [AZ (rdb_max_total_wal_size c)];
         Call "set_max_manifest_file_size" [AZ (rdb_max_manifest_file_size c)];
         Call "create_if_missing" [AB (rdb_create_if_missing c)];
         Call "set_max_open_files" [AZ (rdb_max_open_files c)];
         Call "enable_statistics" [AB (rdb_enable_statistics c)];
         Call "set_stats_dump_period_sec" [AZ (as_secs (rdb_stats_dump_period c))];
         Call "set_jet_bundle_readahead_size" [AZ (rdb_jet_bundle_readahead_size c)];
         Call "set_max_log_file_size" [AZ (rdb_info_log_max_size c)];
         Call "set_log_file_time_to_roll" [AZ (as_secs (rdb_info_log_roll_time c))];
         Call "set_keep_log_file_num" [AZ (rdb_info_log_keep_log_file_num c)];
         Call "set_info_log" [];
         Call "set_info_log_l_naught" [ALog (rdb_info_log_l_naught c)];
         Call "set_max_subjet_bundles" [AZ (rdb_max_sub_jet_bundles c)];
         Call "set_writable_file_max_buffer_size" [AZ (as_i32 (rdb_writable_file_max_buffer_size c))];
         Call "set_use_direct_io_for_flush_and_jet_bundle" [AB (rdb_use_direct_io_for_flush_and_jet_bundle c)];
         Call "enable_pipelined_write" [AB (rdb_enable_pipelined_write c)];
         Call "enable_unordered_write" [AB (rdb_enable_unordered_write c)];
         Call "allow_concurrent_memtable_write" [AB (rdb_allow_concurrent_memtable_write c)];
         Call "add_event_listener" [AS "violetabft"];
         Call "set_bytes_per_sync" [AZ (rdb_bytes_per_sync c)];
         Call "set_wal_bytes_per_sync" [AZ (rdb_wal_bytes_per_sync c)] ]
    ++ (if fd_enabled (rdb_FoundationDB c)
        then foundation_calls (rdb_FoundationDB c) ++ [Call "set_FoundationDBdb_options" []] else [])).

(** [VioletaBFTDbConfig::build_namespaced_opts] *)
Definition build_raft_namespaced_opts (c : VioletaBFTDbConfig) (cache : option Cache) : outcome (list (Namespaced * list OptCall)) :=
  d ← build_violetabft_default (rdb_defaultnamespaced c) cache; Ret [(NS_default, d)].

End Db.

(** ** What the options are in the end: the last call of a method counts *)

Section DbLaws.
Context {SU : SizeUnits} {SQ : SysQuota} {DU : DurationUnits} {ET : EngineTypes}.

Definition last_call (m : string) (l : list OptCall) : option (list OptArg) :=
  foldl (λ r c, if String.eqb (call_name c) m then Some (call_args c) else r) None l.

Lemma last_call_app m l1 l2 : last_call m (l1 ++ l2) = match last_call m l2 with Some a => Some a | None => last_call m l1 end.
Proof.
  unfold last_call. rewrite foldl_app. generalize (foldl (λ r c, if String.eqb (call_name c) m then Some (call_args c) else r) None l1).
  intros o. induction l2 as [|c l2 IH] using rev_ind; [done|]. rewrite !foldl_app. cbn.
  destruct (String.eqb (call_name c) m); [done|]. apply IH.
Qed.

Definition levels_ok (o : NamespacedConfig) : Prop := 0 <= nc_num_l_naughts o <= Z.of_nat (length (nc_compression_per_l_naught o)).
Definition guard_ok (o : NamespacedConfig) (n : Namespaced) (p : option Provider) : Prop :=
  nc_enable_jet_bundle_guard o = true → ∀ q, p = Some q → guard_factory n q (nc_jet_bundle_guard_min_output_file_size o) = true.

Lemma levels_guard o : I32_MIN <= nc_num_l_naughts o <= I32_MAX → Z.of_nat (length (nc_compression_per_l_naught o)) <= I32_MAX →
  as_u64 (nc_num_l_naughts o) <= Z.of_nat (length (nc_compression_per_l_naught o)) ↔ levels_ok o.
Proof.
  unfold I32_MIN, I32_MAX, levels_ok. intros H1 H2. destruct (decide (0 <= nc_num_l_naughts o)).
  - rewrite as_u64_id by (unfold U64_MAX; lia). lia.
  - split; [|lia]. unfold as_u64. intros H.
    rewrite <- (Z.mod_add (nc_num_l_naughts o) 1) in H by lia. rewrite Z.mod_small in H; lia.
Qed.

(** The options of a column family.  They are built exactly when the number of levels is between
    zero and the number of compressions given (seven) and, if the compaction guard is on and
    there is a region provider, the guard can be made: otherwise building them panics, also
    when validation accepts the family, since it only looks at the block size.  The target
    file size is the guard's largest size when the guard is on and has its provider, and the
    configured one otherwise; the bloom filter is set up exactly when it is on; the cache is
    the shared one if there is one, and otherwise a new one of the configured size; there is
    one compression for each level. *)
Theorem family_options_exact o n cache p : I32_MIN <= nc_num_l_naughts o <= I32_MAX →
  Z.of_nat (length (nc_compression_per_l_naught o)) <= I32_MAX →
  match build_namespaced_opt o n cache p with
  | Panic => ¬ levels_ok o ∨ ¬ guard_ok o n p
  | Ret l => levels_ok o ∧ guard_ok o n p
    ∧ last_call "set_target_file_size_base" l = Some [AZ
        (if nc_enable_jet_bundle_guard o && bool_decide (is_Some p) then nc_jet_bundle_guard_max_output_file_size o
         else nc_target_file_size_base o)]
    ∧ last_call "set_bloom_filter" l = (if nc_use_bloom_filter o
        then Some [AZ (nc_bloom_filter_bits_per_soliton_id o); AB (nc_block_based_bloom_filter o)] else None)
    ∧ last_call "set_block_cache" l = Some (match cache with Some c => [ACache c] | None => [] end)
    ∧ last_call "set_capacity" l = match cache with Some _ => None | None => Some [AZ (nc_block_cache_size o)] end
    ∧ last_call "set_block_size" l = Some [AZ (nc_block_size o)]
    ∧ ∃ cs, last_call "compression_per_l_naught" l = Some [ACompressions cs]
        ∧ Z.of_nat (length cs) = nc_num_l_naughts o ∧ cs `prefix_of` nc_compression_per_l_naught o
  end
  ∧ (validate_namespaced_config o = inr tt ↔ as_u64 (nc_block_size o) <= MAX_BLOCK_SIZE).
Proof.
  intros Hn Hl. split; [|unfold validate_namespaced_config; checks; done].
  unfold build_namespaced_opt, guardM. pose proof (levels_guard o Hn Hl) as Hg.
  destruct (Z.leb_spec (as_u64 (nc_num_l_naughts o)) (Z.of_nat (length (nc_compression_per_l_naught o)))) as [Hle|Hlt];
    bindr; [|left; rewrite <- Hg; lia].
  apply Hg in Hle as Hlev. destruct (guard_calls o n p) as [g|] eqn:Eg; bindr; cycle 1.
  { right. unfold guard_calls, guard_ok in *. destruct (nc_enable_jet_bundle_guard o), p as [q|]; try done.
    destruct (guard_factory n q _) eqn:E; [done|]. intros H. rewrite (H eq_refl q eq_refl) in E. done. }
  assert (as_u64 (nc_num_l_naughts o) = nc_num_l_naughts o) as Eu by (apply as_u64_id; unfold levels_ok, U64_MAX, I32_MAX in *; lia).
  split; [done|]. split; [|split].
  - unfold guard_calls, guard_ok in *. intros He q ->. rewrite He in Eg. by destruct (guard_factory n q _).
  - rewrite !last_call_app. unfold guard_calls in Eg.
    destruct (nc_enable_jet_bundle_guard o), p as [q|]; try destruct (guard_factory _ _ _); simplify_eq; cbn;
      unfold family_calls; destruct (nc_enable_doubly_skiplist o); reflexivity.
  - assert (last_call "set_bloom_filter" g = None ∧ last_call "set_block_cache" g = None ∧ last_call "set_capacity" g = None
      ∧ last_call "set_block_size" g = None ∧ last_call "compression_per_l_naught" g = None) as (G1 & G2 & G3 & G4 & G5).
    { unfold guard_calls in Eg. destruct (nc_enable_jet_bundle_guard o), p as [q|]; try destruct (guard_factory _ _ _);
        simplify_eq; done. }
    rewrite !last_call_app, G1, G2, G3, G4, G5. unfold family_calls, block_base_calls.
    split_and!; [destruct (nc_enable_doubly_skiplist o), (nc_use_bloom_filter o), cache; reflexivity..|].
    eexists. split; [destruct (nc_enable_doubly_skiplist o); reflexivity|]. rewrite Eu. unfold levels_ok in Hlev.
    split; [rewrite length_take; lia|apply prefix_take].
Qed.

(** ** The two databases *)

Lemma unordered_ok (u f p : bool) :
  (if u then refuse_if f UnorderedWithFoundationDB ;? refuse_if p UnorderedWithPipelined else inr tt) = inr tt
  ↔ (u = true → f = false ∧ p = false).
Proof. destruct u, f, p; naive_solver. Qed.

Definition block_ok (o : NamespacedConfig) : Prop := as_u64 (nc_block_size o) <= MAX_BLOCK_SIZE.

Lemma validate_namespaced_ok o : validate_namespaced_config o = inr tt ↔ block_ok o.
Proof. unfold validate_namespaced_config. by checks. Qed.

Lemma validate_jobs_ok jobs flushes : validate_jobs jobs flushes = Ret (inr tt) ↔
  ∃ limit, i32 (f64_as_i32 cpu_cores_quota * 10) = Ret limit ∧ 0 < jobs <= limit ∧ 0 < flushes <= limit.
Proof.
  unfold validate_jobs. rewrite bind_Ret. split; intros (limit & Hl & H); exists limit; (split; [done|]).
  - injection H. clear H. checks. lia.
  - f_equal. checks. lia.
Qed.

Lemma validate_db_ok c : validate_db c = Ret (inr tt) ↔
  (block_ok (db_defaultnamespaced c) ∧ block_ok (db_locknamespaced c) ∧ block_ok (db_writenamespaced c)
   ∧ block_ok (db_violetabftnamespaced c)
   ∧ (db_enable_unordered_write c = true → fd_enabled (db_FoundationDB c) = false
      ∧ db_enable_pipelined_write c || db_enable_multi_alexandrov_poset_process_write c = false))
  ∧ ∃ limit, i32 (f64_as_i32 cpu_cores_quota * 10) = Ret limit
    ∧ 0 < db_max_background_jobs c <= limit ∧ 0 < db_max_background_flushes c <= limit.
Proof.
  rewrite <- validate_jobs_ok, <- unordered_ok, <- !validate_namespaced_ok. unfold validate_db, validate_foundation.
  match goal with |- context [match ?x with inl _ => _ | inr _ => _ end = _] => set (v := x) end.
  assert (v = inr tt ↔ validate_namespaced_config (db_defaultnamespaced c) = inr tt
    ∧ validate_namespaced_config (db_locknamespaced c) = inr tt ∧ validate_namespaced_config (db_writenamespaced c) = inr tt
    ∧ validate_namespaced_config (db_violetabftnamespaced c) = inr tt
    ∧ (if db_enable_unordered_write c then refuse_if (fd_enabled (db_FoundationDB c)) UnorderedWithFoundationDB ;?
       refuse_if (db_enable_pipelined_write c || db_enable_multi_alexandrov_poset_process_write c) UnorderedWithPipelined
       else inr tt) = inr tt) as Hv.
  { subst v. do 5 setoid_rewrite inr_andthen. naive_solver. }
  rewrite <- Hv. destruct v as [e|[] ]; naive_solver.
Qed.

Lemma Ret_inj {A} (a b : A) : Ret a = Ret b → a = b.
Proof. congruence. Qed.

Lemma build_db_calls c l : build_db_opt c = Ret l →
  last_call "set_max_background_jet_bundles" l = Some [AZ (db_max_background_jobs c - db_max_background_flushes c)]
  ∧ last_call "enable_unordered_write" l = Some [AB (db_enable_unordered_write c)]
  ∧ last_call "enable_pipelined_write" l = Some [AB ((db_enable_pipelined_write c
      || db_enable_multi_alexandrov_poset_process_write c) && negb (db_enable_unordered_write c))].
Proof.
  unfold build_db_opt. intros H. apply bind_Ret in H as (b & [-> _]%chk_Ret & H). apply bind_Ret in H as (lim & Hlim & H).
  assert (∀ m, String.eqb "set_writeampbasedratelimiter_with_auto_tuned" m = false →
    String.eqb "set_ratelimiter_with_auto_tuned" m = false → last_call m lim = None) as Hm.
  { intros m H1 H2. destruct (0 <? db_rate_bytes_per_sec c); inv_out; [|done].
    unfold last_call. cbn [foldl call_name]. destruct (db_rate_limiter_auto_tuned c); by rewrite ?H1, ?H2. }
  cbn beta in H. apply Ret_inj in H as <-. rewrite !last_call_app, !Hm by reflexivity. unfold dir_call, foundation_calls.
  destruct (fd_enabled _), (String.eqb (db_wal_dir c) EmptyString); split_and!; reflexivity.
Qed.

Lemma build_raft_calls c l : build_raft_opt c = Ret l →
  last_call "set_max_background_jet_bundles" l = Some [AZ (rdb_max_background_jobs c - rdb_max_background_flushes c)]
  ∧ last_call "enable_unordered_write" l = Some [AB (rdb_enable_unordered_write c)]
  ∧ last_call "enable_pipelined_write" l = Some [AB (rdb_enable_pipelined_write c)].
Proof.
  unfold build_raft_opt. intros H. apply bind_Ret in H as (b & [-> _]%chk_Ret & H). cbn beta in H. apply Ret_inj in H as <-.
  rewrite !last_call_app. unfold dir_call, foundation_calls.
  destruct (fd_enabled _), (String.eqb (rdb_wal_dir c) EmptyString); split_and!; reflexivity.
Qed.

Lemma build_db_total c : validate_db c = Ret (inr tt) → is_u64 (as_millis (db_rate_limiter_refill_period c) * 1000) →
  ∃ l, build_db_opt c = Ret l.
Proof.
  intros [_ (limit & [-> Hl]%chk_Ret & Hj & Hf)]%validate_db_ok Hp. unfold build_db_opt.
  unfold I32_MIN, I32_MAX in *. rewrite i32_ok by (unfold I32_MIN, I32_MAX; lia). bindr. unfold is_u64 in Hp. destruct (0 <? _); [rewrite u64_ok by lia|]; bindr; eauto.
Qed.

Lemma default_raft_ok {SL : SizeUnitsLaws} : ∃ d, default_raft_db = Ret d ∧ validate_raft_db d = inr tt.
Proof.
  destruct (background_jobs_exact) as [_ H]. destruct (H _ (or_intror eq_refl)) as (l & Hl & _). clear H.
  destruct (proj1 memory_limit_exact NS_default memory_limit_in_bytes) as (s & Hs & _).
  unfold default_raft_db, violetabft_default_namespaced. rewrite Hl, Hs. bindr. eexists. split; [done|].
  unfold validate_raft_db, validate_namespaced_config. cbn. unfold MAX_BLOCK_SIZE.
  rewrite size_kb_value, MIB_value. vm_compute. done.
Qed.

(** The databases' configurations.  The main one is accepted exactly when its four families have
    blocks of at most 32 MB, unordered writes are not combined with blobs, pipelined or batched
    writes, and both job counts are between one and ten for each core; the raft one likewise,
    without looking at its job counts.  The options of an accepted main configuration are
    always built (the period of the limiter in range), and never turn pipelined and unordered
    writes on together, nor do those of an accepted raft one; compactions get the jobs that
    are not flushes.  There is no default main configuration: asking for it panics, as no
    memory limit is given for the write family; the raft default is accepted. *)
Theorem databases_exact {SL : SizeUnitsLaws} c r :
  (∀ limit, i32 (f64_as_i32 cpu_cores_quota * 10) = Ret limit → validate_db c = Ret (inr tt) ↔
     block_ok (db_defaultnamespaced c) ∧ block_ok (db_locknamespaced c) ∧ block_ok (db_writenamespaced c)
     ∧ block_ok (db_violetabftnamespaced c)
     ∧ (db_enable_unordered_write c = true → fd_enabled (db_FoundationDB c) = false
        ∧ db_enable_pipelined_write c || db_enable_multi_alexandrov_poset_process_write c = false)
     ∧ 0 < db_max_background_jobs c <= limit ∧ 0 < db_max_background_flushes c <= limit)
  ∧ (validate_raft_db r = inr tt ↔ block_ok (rdb_defaultnamespaced r)
     ∧ (rdb_enable_unordered_write r = true → fd_enabled (rdb_FoundationDB r) = false ∧ rdb_enable_pipelined_write r = false))
  ∧ (validate_db c = Ret (inr tt) → is_u64 (as_millis (db_rate_limiter_refill_period c) * 1000) →
     ∃ l, build_db_opt c = Ret l
       ∧ last_call "set_max_background_jet_bundles" l = Some [AZ (db_max_background_jobs c - db_max_background_flushes c)]
       ∧ ¬ (last_call "enable_pipelined_write" l = Some [AB true] ∧ last_call "enable_unordered_write" l = Some [AB true]))
  ∧ (∀ l, validate_raft_db r = inr tt → build_raft_opt r = Ret l →
     last_call "set_max_background_jet_bundles" l = Some [AZ (rdb_max_background_jobs r - rdb_max_background_flushes r)]
     ∧ ¬ (last_call "enable_pipelined_write" l = Some [AB true] ∧ last_call "enable_unordered_write" l = Some [AB true]))
  ∧ (∀ fdb m, default_db fdb m = Panic)
  ∧ ∃ d, default_raft_db = Ret d ∧ validate_raft_db d = inr tt.
Proof.
  split; [|split]; [|unfold validate_raft_db; rewrite inr_andthen, unordered_ok, validate_namespaced_ok; done|].
  { intros limit Hl. rewrite validate_db_ok, Hl. split; [|naive_solver].
    intros [(?&?&?&?&?) (l & [= <-] & ? & ?)]. auto 10. }
  split; [|split]; [| |split; [|apply default_raft_ok] ].
  - intros Hv Hp. destruct (build_db_total c Hv Hp) as [l Hl]. exists l. split; [done|].
    destruct (build_db_calls c l Hl) as (H1 & H2 & H3). split; [done|]. rewrite H2, H3.
    intros [[= Hpw] [= Hu] ]. by rewrite Hu, andb_false_r in Hpw.
  - intros l Hv Hl. destruct (build_raft_calls r l Hl) as (H1 & H2 & H3). split; [done|]. rewrite H2, H3.
    intros [[= Hpw] [= Hu] ]. unfold validate_raft_db in Hv. rewrite inr_andthen, unordered_ok in Hv.
    destruct Hv as [_ Hv]. rewrite Hpw in Hv. naive_solver.
  - intros fdb m. unfold default_db. destruct (get_background_job_limits _); [|done]. bindr.
    destruct default_namespaced; done.
Qed.
End DbLaws.
