(* ===== verification/Config.v ===== *)
(** * Config: the configuration as a whole

    [soliton/config.rs], [EinsteinDbConfig]: its sections, its default, validation, the
    adjustments for settings that were renamed, the memory limit, and the comparison
    with the configuration of the last start.  The sections that other crates define are
    records of the fields this file touches; their own validation and defaults are
    parameters ([Sections]).  The sections that nothing here reads are one field. *)
From Stdlib Require Import ZArith Lia SpecFloat String Ascii.
From stdpp Require Import base list numbers strings.
From S2P Require Import Prelude Float ConfigPools ConfigDb.
#[local] Open Scope Z_scope.

(** ** Strings and paths of the standard library *)

Definition str_starts_with (p s : string) : bool := String.prefix p s.
Definition str_ends_with (p s : string) : bool :=
  Nat.leb (String.length p) (String.length s)
  && String.eqb (String.substring (String.length s - String.length p) (String.length p) s) p.
Definition str_contains (p s : string) : bool := match String.index 0 p s with Some _ => true | None => false end.
Definition str_is_empty (s : string) : bool := String.eqb s EmptyString.

(** [Path::join] of a relative path *)
Definition path_join (base p : string) : string :=
  (if str_is_empty base then p else if str_ends_with "/" base then base +:+ p else base +:+ "/" +:+ p)%string.

(** [LAST_CONFIG_FILE], [BLOCK_CACHE_RATE] and [MEMORY_USAGE_LIMIT_RATE] *)
Definition LAST_CONFIG_FILE : string := "last_einsteindb.toml".
Definition BLOCK_CACHE_RATE : f64 := f64_lit 45 100.
Definition MEMORY_USAGE_LIMIT_RATE : f64 := f64_lit 75 100.

(** The largest [Duration], in nanoseconds. *)
Definition DURATION_MAX : Z := U64_MAX * 1000000000 + 999999999.

(** ** Data *)

Record ServerConfig := mkServer {
  sv_grpc_keepalive_time : Z;
  sv_end_point_concurrency : option Z;
  sv_end_point_stack_size : option Z;
  sv_end_point_max_tasks : option Z;
}.

Record BlockCacheConfig := mkBlockCache { bc_shared : bool; bc_capacity : option Z }.

Record StorageConfig := mkStorage {
  st_data_dir : string;
  st_enable_ttl : bool;
  st_block_cache : BlockCacheConfig;
}.

Record RaftStoreConfig := mkRaftStore {
  rs_violetabftdb_path : string;
  rs_region_max_size : Z;
  rs_region_split_size : Z;
  rs_clean_stale_peer_delay : Z;
  rs_hibernate_regions : bool;
}.

Record CopConfig := mkCop { cop_region_max_size : Z; cop_region_split_size : Z }.
Record RaftEngineConfig := mkRaftEngine { re_enable : bool; re_dir : string }.

Class Sections := {
  Format : Type;
  Format_eq : EqDecision Format;
  Rest : Type;
  format_text : Format;
  default_server : ServerConfig;
  default_storage : StorageConfig;
  default_raft_store : RaftStoreConfig;
  default_cop : CopConfig;
  default_raft_engine : RaftEngineConfig;
  default_rest : Rest;
  DEFAULT_DATA_DIR : string;
  (** [StorageConfig::validate(&mut self)] *)
  storage_validate : StorageConfig → StorageConfig * (ConfigError + unit);
  (** [violetabft_heartbeat_interval] *)
  heartbeat_interval : RaftStoreConfig → Z;
  (** [config::canonicalize_path], [canonicalize_sub_path] *)
  canonicalize_path : string → ConfigError + string;
  canonicalize_sub_path : string → string → ConfigError + string;
}.
#[export] Existing Instance Format_eq.

Section Whole.
Context {SU : SizeUnits} {SQ : SysQuota} {DU : DurationUnits} {ET : EngineTypes} {SE : Sections}.

Record File := mkFile { fl_filename : string; fl_max_size : Z; fl_max_days : Z; fl_max_backups : Z }.
Record LogConfig := mkLog { lg_l_naught : LogLevel; lg_format : Format; lg_enable_timestamp : bool; lg_file : File }.
Record MetricConfig := mkMetric { mt_job : string; mt_interval : Z; mt_address : string }.

Record EinsteinDbConfig := mkConfig {
  cf_path : string;
  cf_log_l_naught : LogLevel;
  cf_log_file : string;
  cf_log_format : Format;
  cf_log_rotation_timespan : Z;
  cf_log_rotation_size : Z;
  cf_slow_log_file : string;
  cf_slow_log_threshold : Z;
  cf_panic_when_unexpected : bool;
  cf_enable_io_snoop : bool;
  cf_abort_on_panic : bool;
  cf_memory_usage_limit : option Z;
  cf_memory_usage_high_water : f64;
  cf_log : LogConfig;
  cf_readpool : ReadPoolConfig;
  cf_server : ServerConfig;
  cf_storage : StorageConfig;
  cf_metric : MetricConfig;
  cf_raft_store : RaftStoreConfig;
  cf_cop : CopConfig;
  cf_db : DbConfig;
  cf_raftdb : VioletaBFTDbConfig;
  cf_raft_engine : RaftEngineConfig;
  cf_backup : BackupConfig;
  cf_soliton : CdcConfig;
  cf_resolved_ts : ResolvedTsConfig;
  cf_rest : Rest;
}.

(** ** Defaults *)

Definition default_file : File := mkFile EmptyString 300 0 0.
Definition default_log : LogConfig := mkLog L_Info format_text true default_file.
Definition default_metric : MetricConfig := mkMetric "einsteindb" (dur_secs 15) EmptyString.

(** [EinsteinDbConfig::default]; [fdb] and [m] as for [default_db]. *)
Definition default_config (fdb : FoundationNs) (m : Z) : outcome EinsteinDbConfig :=
  db ← default_db fdb m;
  raft ← default_raft_db;
  Ret {|
    cf_path := EmptyString;
    cf_log_l_naught := L_Info;
    cf_log_file := EmptyString;
    cf_log_format := format_text;
    cf_log_rotation_timespan := dur_hours 0;
    cf_log_rotation_size := size_mb 300;
    cf_slow_log_file := EmptyString;
    cf_slow_log_threshold := dur_secs 1;
    cf_panic_when_unexpected := false;
    cf_enable_io_snoop := true;
    cf_abort_on_panic := false;
    cf_memory_usage_limit := None;
    cf_memory_usage_high_water := f64_lit 9 10;
    cf_log := default_log;
    cf_readpool := default_readpools;
    cf_server := default_server;
    cf_metric := default_metric;
    cf_raft_store := default_raft_store;
    cf_cop := default_cop;
    cf_db := db;
    cf_raftdb := raft;
    cf_raft_engine := default_raft_engine;
    cf_storage := default_storage;
    cf_backup := default_backup (cop_region_max_size default_cop) dur_secs;
    cf_soliton := default_cdc dur_secs;
    cf_resolved_ts := default_resolved dur_secs;
    cf_rest := default_rest;
  |}.

(** ** Updating one field *)

Definition with_path (x : string) (c : EinsteinDbConfig) : EinsteinDbConfig :=
  mkConfig x (cf_log_l_naught c) (cf_log_file c) (cf_log_format c) (cf_log_rotation_timespan c)
    (cf_log_rotation_size c) (cf_slow_log_file c) (cf_slow_log_threshold c) (cf_panic_when_unexpected c)
    (cf_enable_io_snoop c) (cf_abort_on_panic c) (cf_memory_usage_limit c) (cf_memory_usage_high_water c) (cf_log c)
    (cf_readpool c) (cf_server c) (cf_storage c) (cf_metric c) (cf_raft_store c) (cf_cop c) (cf_db c) (cf_raftdb c)
    (cf_raft_engine c) (cf_backup c) (cf_soliton c) (cf_resolved_ts c) (cf_rest c).
Definition with_log_file (x : string) (c : EinsteinDbConfig) : EinsteinDbConfig :=
  mkConfig (cf_path c) (cf_log_l_naught c) x (cf_log_format c) (cf_log_rotation_timespan c) (cf_log_rotation_size c)
    (cf_slow_log_file c) (cf_slow_log_threshold c) (cf_panic_when_unexpected c) (cf_enable_io_snoop c)
    (cf_abort_on_panic c) (cf_memory_usage_limit c) (cf_memory_usage_high_water c) (cf_log c) (cf_readpool c)
    (cf_server c) (cf_storage c) (cf_metric c) (cf_raft_store c) (cf_cop c) (cf_db c) (cf_raftdb c) (cf_raft_engine c)
    (cf_backup c) (cf_soliton c) (cf_resolved_ts c) (cf_rest c).
Definition with_log_format (x : Format) (c : EinsteinDbConfig) : EinsteinDbConfig :=
  mkConfig (cf_path c) (cf_log_l_naught c) (cf_log_file c) x (cf_log_rotation_timespan c) (cf_log_rotation_size c)
    (cf_slow_log_file c) (cf_slow_log_threshold c) (cf_panic_when_unexpected c) (cf_enable_io_snoop c)
    (cf_abort_on_panic c) (cf_memory_usage_limit c) (cf_memory_usage_high_water c) (cf_log c) (cf_readpool c)
    (cf_server c) (cf_storage c) (cf_metric c) (cf_raft_store c) (cf_cop c) (cf_db c) (cf_raftdb c) (cf_raft_engine c)
    (cf_backup c) (cf_soliton c) (cf_resolved_ts c) (cf_rest c).
Definition with_rotation_size (x : Z) (c : EinsteinDbConfig) : EinsteinDbConfig :=
  mkConfig (cf_path c) (cf_log_l_naught c) (cf_log_file c) (cf_log_format c) (cf_log_rotation_timespan c) x
    (cf_slow_log_file c) (cf_slow_log_threshold c) (cf_panic_when_unexpected c) (cf_enable_io_snoop c)
    (cf_abort_on_panic c) (cf_memory_usage_limit c) (cf_memory_usage_high_water c) (cf_log c) (cf_readpool c)
    (cf_server c) (cf_storage c) (cf_metric c) (cf_raft_store c) (cf_cop c) (cf_db c) (cf_raftdb c) (cf_raft_engine c)
    (cf_backup c) (cf_soliton c) (cf_resolved_ts c) (cf_rest c).
Definition with_memory_limit (x : option Z) (c : EinsteinDbConfig) : EinsteinDbConfig :=
  mkConfig (cf_path c) (cf_log_l_naught c) (cf_log_file c) (cf_log_format c) (cf_log_rotation_timespan c)
    (cf_log_rotation_size c) (cf_slow_log_file c) (cf_slow_log_threshold c) (cf_panic_when_unexpected c)
    (cf_enable_io_snoop c) (cf_abort_on_panic c) x (cf_memory_usage_high_water c) (cf_log c) (cf_readpool c)
    (cf_server c) (cf_storage c) (cf_metric c) (cf_raft_store c) (cf_cop c) (cf_db c) (cf_raftdb c) (cf_raft_engine c)
    (cf_backup c) (cf_soliton c) (cf_resolved_ts c) (cf_rest c).
Definition with_log (x : LogConfig) (c : EinsteinDbConfig) : EinsteinDbConfig :=
  mkConfig (cf_path c) (cf_log_l_naught c) (cf_log_file c) (cf_log_format c) (cf_log_rotation_timespan c)
    (cf_log_rotation_size c) (cf_slow_log_file c) (cf_slow_log_threshold c) (cf_panic_when_unexpected c)
    (cf_enable_io_snoop c) (cf_abort_on_panic c) (cf_memory_usage_limit c) (cf_memory_usage_high_water c) x
    (cf_readpool c) (cf_server c) (cf_storage c) (cf_metric c) (cf_raft_store c) (cf_cop c) (cf_db c) (cf_raftdb c)
    (cf_raft_engine c) (cf_backup c) (cf_soliton c) (cf_resolved_ts c) (cf_rest c).
Definition with_readpool (x : ReadPoolConfig) (c : EinsteinDbConfig) : EinsteinDbConfig :=
  mkConfig (cf_path c) (cf_log_l_naught c) (cf_log_file c) (cf_log_format c) (cf_log_rotation_timespan c)
    (cf_log_rotation_size c) (cf_slow_log_file c) (cf_slow_log_threshold c) (cf_panic_when_unexpected c)
    (cf_enable_io_snoop c) (cf_abort_on_panic c) (cf_memory_usage_limit c) (cf_memory_usage_high_water c) (cf_log c) x
    (cf_server c) (cf_storage c) (cf_metric c) (cf_raft_store c) (cf_cop c) (cf_db c) (cf_raftdb c) (cf_raft_engine c)
    (cf_backup c) (cf_soliton c) (cf_resolved_ts c) (cf_rest c).
Definition with_server (x : ServerConfig) (c : EinsteinDbConfig) : EinsteinDbConfig :=
  mkConfig (cf_path c) (cf_log_l_naught c) (cf_log_file c) (cf_log_format c) (cf_log_rotation_timespan c)
    (cf_log_rotation_size c) (cf_slow_log_file c) (cf_slow_log_threshold c) (cf_panic_when_unexpected c)
    (cf_enable_io_snoop c) (cf_abort_on_panic c) (cf_memory_usage_limit c) (cf_memory_usage_high_water c) (cf_log c)
    (cf_readpool c) x (cf_storage c) (cf_metric c) (cf_raft_store c) (cf_cop c) (cf_db c) (cf_raftdb c)
    (cf_raft_engine c) (cf_backup c) (cf_soliton c) (cf_resolved_ts c) (cf_rest c).
Definition with_storage (x : StorageConfig) (c : EinsteinDbConfig) : EinsteinDbConfig :=
  mkConfig (cf_path c) (cf_log_l_naught c) (cf_log_file c) (cf_log_format c) (cf_log_rotation_timespan c)
    (cf_log_rotation_size c) (cf_slow_log_file c) (cf_slow_log_threshold c) (cf_panic_when_unexpected c)
    (cf_enable_io_snoop c) (cf_abort_on_panic c) (cf_memory_usage_limit c) (cf_memory_usage_high_water c) (cf_log c)
    (cf_readpool c) (cf_server c) x (cf_metric c) (cf_raft_store c) (cf_cop c) (cf_db c) (cf_raftdb c)
    (cf_raft_engine c) (cf_backup c) (cf_soliton c) (cf_resolved_ts c) (cf_rest c).
Definition with_raft_store (x : RaftStoreConfig) (c : EinsteinDbConfig) : EinsteinDbConfig :=
  mkConfig (cf_path c) (cf_log_l_naught c) (cf_log_file c) (cf_log_format c) (cf_log_rotation_timespan c)
    (cf_log_rotation_size c) (cf_slow_log_file c) (cf_slow_log_threshold c) (cf_panic_when_unexpected c)
    (cf_enable_io_snoop c) (cf_abort_on_panic c) (cf_memory_usage_limit c) (cf_memory_usage_high_water c) (cf_log c)
    (cf_readpool c) (cf_server c) (cf_storage c) (cf_metric c) x (cf_cop c) (cf_db c) (cf_raftdb c) (cf_raft_engine c)
    (cf_backup c) (cf_soliton c) (cf_resolved_ts c) (cf_rest c).
Definition with_cop (x : CopConfig) (c : EinsteinDbConfig) : EinsteinDbConfig :=
  mkConfig (cf_path c) (cf_log_l_naught c) (cf_log_file c) (cf_log_format c) (cf_log_rotation_timespan c)
    (cf_log_rotation_size c) (cf_slow_log_file c) (cf_slow_log_threshold c) (cf_panic_when_unexpected c)
    (cf_enable_io_snoop c) (cf_abort_on_panic c) (cf_memory_usage_limit c) (cf_memory_usage_high_water c) (cf_log c)
    (cf_readpool c) (cf_server c) (cf_storage c) (cf_metric c) (cf_raft_store c) x (cf_db c) (cf_raftdb c)
    (cf_raft_engine c) (cf_backup c) (cf_soliton c) (cf_resolved_ts c) (cf_rest c).
Definition with_db (x : DbConfig) (c : EinsteinDbConfig) : EinsteinDbConfig :=
  mkConfig (cf_path c) (cf_log_l_naught c) (cf_log_file c) (cf_log_format c) (cf_log_rotation_timespan c)
    (cf_log_rotation_size c) (cf_slow_log_file c) (cf_slow_log_threshold c) (cf_panic_when_unexpected c)
    (cf_enable_io_snoop c) (cf_abort_on_panic c) (cf_memory_usage_limit c) (cf_memory_usage_high_water c) (cf_log c)
    (cf_readpool c) (cf_server c) (cf_storage c) (cf_metric c) (cf_raft_store c) (cf_cop c) x (cf_raftdb c)
    (cf_raft_engine c) (cf_backup c) (cf_soliton c) (cf_resolved_ts c) (cf_rest c).
Definition with_backup (x : BackupConfig) (c : EinsteinDbConfig) : EinsteinDbConfig :=
  mkConfig (cf_path c) (cf_log_l_naught c) (cf_log_file c) (cf_log_format c) (cf_log_rotation_timespan c)
    (cf_log_rotation_size c) (cf_slow_log_file c) (cf_slow_log_threshold c) (cf_panic_when_unexpected c)
    (cf_enable_io_snoop c) (cf_abort_on_panic c) (cf_memory_usage_limit c) (cf_memory_usage_high_water c) (cf_log c)
    (cf_readpool c) (cf_server c) (cf_storage c) (cf_metric c) (cf_raft_store c) (cf_cop c) (cf_db c) (cf_raftdb c)
    (cf_raft_engine c) x (cf_soliton c) (cf_resolved_ts c) (cf_rest c).
Definition with_auto_tuned (x : option bool) (c : DbConfig) : DbConfig :=
  mkDb (db_info_log_l_naught c) (db_wal_recovery_mode c) (db_wal_dir c) (db_wal_ttl_seconds c) (db_wal_size_limit c)
    (db_max_total_wal_size c) (db_max_background_jobs c) (db_max_background_flushes c) (db_max_manifest_file_size c)
    (db_create_if_missing c) (db_max_open_files c) (db_enable_statistics c) (db_stats_dump_period c)
    (db_jet_bundle_readahead_size c) (db_info_log_max_size c) (db_info_log_roll_time c)
    (db_info_log_keep_log_file_num c) (db_info_log_dir c) (db_rate_bytes_per_sec c) (db_rate_limiter_refill_period c)
    (db_rate_limiter_mode c) x (db_rate_limiter_auto_tuned c) (db_bytes_per_sync c) (db_wal_bytes_per_sync c)
    (db_max_sub_jet_bundles c) (db_writable_file_max_buffer_size c) (db_use_direct_io_for_flush_and_jet_bundle c)
    (db_enable_pipelined_write c) (db_enable_multi_alexandrov_poset_process_write c) (db_enable_unordered_write c)
    (db_defaultnamespaced c) (db_writenamespaced c) (db_locknamespaced c) (db_violetabftnamespaced c)
    (db_FoundationDB c).

(** ** Paths *)

Definition infer_violetabft_db_path (c : EinsteinDbConfig) (data_dir : option string) : ConfigError + string :=
  if str_is_empty (rs_violetabftdb_path (cf_raft_store c))
  then canonicalize_sub_path (default (st_data_dir (cf_storage c)) data_dir) "violetabft"
  else canonicalize_path (rs_violetabftdb_path (cf_raft_store c)).

Definition infer_violetabft_interlocking_directorate_path (c : EinsteinDbConfig) (data_dir : option string) : ConfigError + string :=
  if str_is_empty (re_dir (cf_raft_engine c))
  then canonicalize_sub_path (default (st_data_dir (cf_storage c)) data_dir) "violetabft-InterlockingDirectorate"
  else canonicalize_path (re_dir (cf_raft_engine c)).

Definition infer_kv_interlocking_directorate_path (c : EinsteinDbConfig) (data_dir : option string) : ConfigError + string :=
  canonicalize_sub_path (default (st_data_dir (cf_storage c)) data_dir) "einsteindb".

(** ** Validation: the configuration as the checks leave it, and the verdict *)

Definition validate_log (c : LogConfig) : verdict := refuse_if (4096 <? fl_max_size (lg_file c)) LogFileSize.

Definition validate_data_dir (d : string) : verdict :=
  refuse_if (str_is_empty d) DataDirEmpty ;?
  refuse_if (str_starts_with "/" d) DataDirAbsolute ;?
  refuse_if (str_ends_with "/" d) DataDirSlash ;?
  refuse_if (str_contains "//" d) DataDirDouble ;?
  refuse_if (str_contains "/../" d) DataDirParent.

(** [validate] *)
Definition validate_config (c : EinsteinDbConfig) : outcome (EinsteinDbConfig * verdict) :=
  match validate_log (cf_log c) ;? validate_readpools (cf_readpool c) with
  | inl e => Ret (c, inl e)
  | inr _ =>
      let '(st, v) := storage_validate (cf_storage c) in
      let c := with_storage st c in
      match v with
      | inl e => Ret (c, inl e)
      | inr _ =>
          let c := if str_is_empty (cf_path c) then with_path (path_join (st_data_dir st) LAST_CONFIG_FILE) c else c in
          match validate_data_dir (st_data_dir st) with
          | inl e => Ret (c, inl e)
          | inr _ =>
              expect ← chk 0 DURATION_MAX (heartbeat_interval (cf_raft_store c) * 2);
              Ret (c, refuse_if (sv_grpc_keepalive_time (cf_server c) <? expect) Keepalive)
          end
      end
  end.

(** [suggested_memory_usage_limit]: 80% of the default's [memory_limit]. *)
Definition suggested_memory_usage_limit (fdb : FoundationNs) (m : Z) (memory_limit : DbConfig → Z) : outcome Z :=
  d ← default_config fdb m;
  Ret (f64_as_usize (f64_mul (f64_of_Z (memory_limit (cf_db d))) (f64_lit 8 10))).

(** The sum of the four block caches: [u64] additions. *)
Definition block_caches (c : EinsteinDbConfig) : outcome Z :=
  s ← u64 (nc_block_cache_size (db_defaultnamespaced (cf_db c)) + nc_block_cache_size (db_writenamespaced (cf_db c)));
  s ← u64 (s + nc_block_cache_size (db_locknamespaced (cf_db c)));
  u64 (s + nc_block_cache_size (rdb_defaultnamespaced (cf_raftdb c))).

Definition limit_for_cache (cap : Z) : Z :=
  f64_as_usize (f64_mul (f64_div (f64_of_Z cap) BLOCK_CACHE_RATE) MEMORY_USAGE_LIMIT_RATE).

(** The second half of [validate_and_infer_path]: the limit on memory. *)
Definition adjust_memory_limit (suggested : outcome Z) (c : EinsteinDbConfig) : outcome (EinsteinDbConfig * verdict) :=
  match cf_memory_usage_limit c with
  | Some limit => Ret (c, refuse_if (memory_limit_in_bytes <? limit) MemoryLimit)
  | None =>
      limit ← (if bc_shared (st_block_cache (cf_storage c)) then
                 match bc_capacity (st_block_cache (cf_storage c)) with
                 | Some cap => Ret (limit_for_cache cap)
                 | None => suggested
                 end
               else cap ← block_caches c; Ret (limit_for_cache cap));
      Ret (with_memory_limit (Some limit) c, inr tt)
  end.

(** [validate_and_infer_path]; [infer_path] is not in the file. *)
Definition validate_and_infer_path (infer_path : EinsteinDbConfig → EinsteinDbConfig * verdict) (suggested : outcome Z)
  (c : EinsteinDbConfig) : outcome (EinsteinDbConfig * verdict) :=
  '(c, v) ← validate_config c;
  match v with
  | inl e => Ret (c, inl e)
  | inr _ => let '(c, v) := infer_path c in
      match v with inl e => Ret (c, inl e) | inr _ => adjust_memory_limit suggested c end
  end.

(** [validate_and_infer_path_with_custom_data_dir]: the limit is not above what there is. *)
Definition clamp_memory_limit (suggested : outcome Z) (c : EinsteinDbConfig) : outcome EinsteinDbConfig :=
  match cf_memory_usage_limit c with
  | None => Panic
  | Some limit =>
      let c := if memory_limit_in_bytes <? limit then with_memory_limit (Some memory_limit_in_bytes) c else c in
      _ ← suggested; Ret c
  end.

(** ** Settings that moved *)

(** [logger_compatible_adjust], with the default configuration [d]. *)
Definition logger_adjust (d c : EinsteinDbConfig) : EinsteinDbConfig :=
  let c := if negb (String.eqb (cf_log_file c) (cf_log_file d)) then
      let f := lg_file (cf_log c) in
      let c := if String.eqb (fl_filename f) (fl_filename (lg_file default_log))
        then with_log (mkLog (lg_l_naught (cf_log c)) (lg_format (cf_log c)) (lg_enable_timestamp (cf_log c))
               (mkFile (cf_log_file c) (fl_max_size f) (fl_max_days f) (fl_max_backups f))) c
        else c in
      with_log_file (cf_log_file d) c
    else c in
  let c := if negb (bool_decide (cf_log_format c = cf_log_format d)) then
      let c := if bool_decide (lg_format (cf_log c) = lg_format default_log)
        then with_log (mkLog (lg_l_naught (cf_log c)) (cf_log_format c) (lg_enable_timestamp (cf_log c)) (lg_file (cf_log c))) c
        else c in
      with_log_format (cf_log_format d) c
    else c in
  if negb (cf_log_rotation_size c =? cf_log_rotation_size d) then
    let f := lg_file (cf_log c) in
    let c := if fl_max_size f =? fl_max_size (lg_file default_log)
      then with_log (mkLog (lg_l_naught (cf_log c)) (lg_format (cf_log c)) (lg_enable_timestamp (cf_log c))
             (mkFile (fl_filename f) (as_mb (cf_log_rotation_size c)) (fl_max_days f) (fl_max_backups f))) c
      else c in
    with_rotation_size (cf_log_rotation_size d) c
  else c.

Definition logger_compatible_adjust (fdb : FoundationNs) (m : Z) (c : EinsteinDbConfig) : outcome EinsteinDbConfig :=
  d ← default_config fdb m; Ret (logger_adjust d c).

(** [compatible_adjust], section by section. *)
Definition adjust_region (old new_ default_old default_new : Z) : Z * Z :=
  if negb (old =? default_old) then (default_old, if new_ =? default_new then old else new_) else (old, new_).

Definition adjust_regions (c : EinsteinDbConfig) : EinsteinDbConfig :=
  let r := cf_raft_store c in let p := cf_cop c in
  let '(omax, nmax) := adjust_region (rs_region_max_size r) (cop_region_max_size p)
    (rs_region_max_size default_raft_store) (cop_region_max_size default_cop) in
  let '(osplit, nsplit) := adjust_region (rs_region_split_size r) (cop_region_split_size p)
    (rs_region_split_size default_raft_store) (cop_region_split_size default_cop) in
  with_cop (mkCop nmax nsplit)
    (with_raft_store (mkRaftStore (rs_violetabftdb_path r) omax osplit (rs_clean_stale_peer_delay r) (rs_hibernate_regions r)) c).

Definition adjust_end_point (s : ServerConfig) (p : ReadPool) : ServerConfig * ReadPool :=
  let p := match sv_end_point_concurrency s with
    | Some n => mkPool (use_unified_pool p) n n n (max_tasks_per_worker_high p) (max_tasks_per_worker_normal p)
                  (max_tasks_per_worker_low p) (stack_size p)
    | None => p
    end in
  let p := match sv_end_point_stack_size s with
    | Some z => mkPool (use_unified_pool p) (high_concurrency p) (normal_concurrency p) (low_concurrency p)
                  (max_tasks_per_worker_high p) (max_tasks_per_worker_normal p) (max_tasks_per_worker_low p) z
    | None => p
    end in
  (mkServer (sv_grpc_keepalive_time s) None None None, p).

Definition adjust_cache (b : BlockCacheConfig) (sum : outcome Z) : outcome BlockCacheConfig :=
  match bc_shared b, bc_capacity b with
  | true, None => s ← sum; Ret (mkBlockCache true (Some s))
  | _, _ => Ret b
  end.

Definition adjust_sst (size region : Z) : outcome Z :=
  if size <? region / 10 then Ret (region / 10)
  else twice ← u64 (region * 2); if twice <? size then Ret twice else Ret size.

Definition with_sst (z : Z) (b : BackupConfig) : BackupConfig :=
  mkBackup (bk_num_threads b) (bk_alexandrov_poset_process_size b) z (bk_enable_auto_tune b) (bk_auto_tune_remain_threads b)
    (bk_auto_tune_refresh_interval b) (bk_io_thread_size b) (bk_s3_multi_part_size b) (bk_hadoop b).

Definition compatible_adjust (c : EinsteinDbConfig) : outcome EinsteinDbConfig :=
  let c := adjust_regions c in
  let '(sv, copr) := adjust_end_point (cf_server c) (rp_copr (cf_readpool c)) in
  let c := with_readpool (mkReadPools (rp_unified (cf_readpool c)) (rp_storage (cf_readpool c)) copr) (with_server sv c) in
  let c := with_db (with_auto_tuned None (cf_db c)) c in
  bc ← adjust_cache (st_block_cache (cf_storage c)) (block_caches c);
  let c := with_storage (mkStorage (st_data_dir (cf_storage c)) (st_enable_ttl (cf_storage c)) bc) c in
  sst ← adjust_sst (bk_sst_max_size (cf_backup c)) (cop_region_max_size default_cop);
  let c := with_backup (with_sst sst (cf_backup c)) c in
  Ret (with_readpool (adjust_use_unified_pool (cf_readpool c)) c).

(** ** The configuration of the last start *)

(** [check_critical_APPEND_LOG_g_with] *)
Definition check_critical_with (self last : EinsteinDbConfig) : verdict :=
  let differ a b := negb (String.eqb a b) in
  refuse_if (differ (db_wal_dir (cf_db last)) (db_wal_dir (cf_db self))) CriticalWalDir ;?
  refuse_if (differ (rdb_wal_dir (cf_raftdb last)) (rdb_wal_dir (cf_raftdb self))) CriticalRaftWalDir ;?
  refuse_if (differ (st_data_dir (cf_storage last)) (st_data_dir (cf_storage self))
             && negb (str_is_empty (st_data_dir (cf_storage last)) && String.eqb (st_data_dir (cf_storage self)) DEFAULT_DATA_DIR))
    CriticalDataDir ;?
  refuse_if (differ (rs_violetabftdb_path (cf_raft_store last)) (rs_violetabftdb_path (cf_raft_store self))
             && negb (re_enable (cf_raft_engine last))) CriticalRaftPath ;?
  refuse_if (differ (rdb_wal_dir (cf_raftdb last)) (rdb_wal_dir (cf_raftdb self)) && negb (re_enable (cf_raft_engine last)))
    CriticalRaftWalDir ;?
  refuse_if (differ (re_dir (cf_raft_engine last)) (re_dir (cf_raft_engine self)) && re_enable (cf_raft_engine last))
    CriticalEngineDir ;?
  (if st_enable_ttl (cf_storage last) && negb (st_enable_ttl (cf_storage self)) then inl DisableTtl
   else if negb (st_enable_ttl (cf_storage last)) && st_enable_ttl (cf_storage self) then inl EnableTtl
   else inr tt).

(** [check_critical_config]; [last] is the configuration read from the data directory. *)
Definition check_critical_config (self : EinsteinDbConfig) (last : option EinsteinDbConfig) : outcome verdict :=
  match last with
  | None => Ret (inr tt)
  | Some l => l ← compatible_adjust l; '(l, _) ← validate_config l; Ret (check_critical_with self l)
  end.

End Whole.

(** ** What validation accepts *)

Section WholeLaws.
Context {SU : SizeUnits} {SQ : SysQuota} {DU : DurationUnits} {ET : EngineTypes} {SE : Sections}.

(** The directory of the data as validation wants it. *)
Record data_dir_ok (d : string) : Prop := {
  dir_some : d ≠ EmptyString;
  dir_relative : str_starts_with "/" d = false;
  dir_no_slash : str_ends_with "/" d = false;
  dir_single : str_contains "//" d = false;
  dir_inside : str_contains "/../" d = false;
}.

Lemma validate_data_dir_ok d : validate_data_dir d = inr tt ↔ data_dir_ok d.
Proof.
  unfold validate_data_dir, str_is_empty. checks. rewrite String.eqb_neq.
  split; [intros (?&?&?&?&?); by split|]. intros [?????]. auto.
Qed.

Definition same_but_storage (c c' : EinsteinDbConfig) : Prop :=
  c' = with_storage (cf_storage c') (with_path (cf_path c') c).

Lemma same_refl c : same_but_storage c c.
Proof. by destruct c. Qed.

Lemma validate_config_steps c : validate_config c =
  match validate_log (cf_log c) ;? validate_readpools (cf_readpool c) with
  | inl e => Ret (c, inl e)
  | inr _ =>
      let st := (storage_validate (cf_storage c)).1 in
      match (storage_validate (cf_storage c)).2 with
      | inl e => Ret (with_storage st c, inl e)
      | inr _ =>
          let c' := with_storage st (with_path (if str_is_empty (cf_path c) then path_join (st_data_dir st) LAST_CONFIG_FILE
                                                else cf_path c) c) in
          match validate_data_dir (st_data_dir st) with
          | inl e => Ret (c', inl e)
          | inr _ => expect ← chk 0 DURATION_MAX (heartbeat_interval (cf_raft_store c) * 2);
              Ret (c', refuse_if (sv_grpc_keepalive_time (cf_server c) <? expect) Keepalive)
          end
      end
  end.
Proof.
  unfold validate_config. destruct (_ ;? _); [done|]. destruct (storage_validate _) as [st [e|] ]; [done|]. cbv zeta. cbn [fst snd].
  change (cf_path (with_storage st c)) with (cf_path c).
  by destruct (str_is_empty (cf_path c)), c.
Qed.

Lemma log_pools_ok c : (validate_log (cf_log c) ;? validate_readpools (cf_readpool c)) = inr tt
  ↔ fl_max_size (lg_file (cf_log c)) <= 4096 ∧ validate_readpools (cf_readpool c) = inr tt.
Proof. unfold validate_log. rewrite inr_andthen. by checks. Qed.

Lemma verdict_cases (v : verdict) : v = inr tt ∨ ∃ e, v = inl e.
Proof. destruct v as [e|[] ]; eauto. Qed.

Lemma validate_config_runs c c' v : validate_config c = Ret (c', v) → same_but_storage c c'
  ∧ (v = inr tt ↔ fl_max_size (lg_file (cf_log c)) <= 4096 ∧ validate_readpools (cf_readpool c) = inr tt
      ∧ storage_validate (cf_storage c) = (cf_storage c', inr tt) ∧ data_dir_ok (st_data_dir (cf_storage c'))
      ∧ heartbeat_interval (cf_raft_store c) * 2 <= sv_grpc_keepalive_time (cf_server c))
  ∧ (v = inr tt → cf_path c' = if str_is_empty (cf_path c) then path_join (st_data_dir (cf_storage c')) LAST_CONFIG_FILE
                              else cf_path c).
Proof.
  rewrite validate_config_steps. pose proof (log_pools_ok c) as Hl.
  destruct (verdict_cases (validate_log (cf_log c) ;? validate_readpools (cf_readpool c))) as [E|[e E] ]; rewrite E in *; cycle 1.
  { intros [= <- <-]. split; [apply same_refl|]. split; [|done]. split; [done|]. intros (?&?&_). naive_solver. }
  destruct (storage_validate (cf_storage c)) as [st w] eqn:Es. cbn [fst snd].
  destruct (verdict_cases w) as [->|[e ->] ]; cycle 1.
  { intros [= <- <-]. split; [by destruct c|]. split; [|done]. split; [done|]. naive_solver. }
  cbv zeta. set (c1 := with_storage _ _). pose proof (validate_data_dir_ok (st_data_dir st)) as Hd.
  destruct (verdict_cases (validate_data_dir (st_data_dir st))) as [Ed|[e Ed] ]; rewrite Ed in *; cycle 1.
  { intros [= <- <-]. split; [by destruct c|]. split; [|done]. split; [done|]. cbn. naive_solver. }
  intros H. apply bind_Ret in H as (x & [-> Hx]%chk_Ret & H). injection H as <- <-.
  split; [by destruct c|]. split; [|by destruct c]. rewrite inr_refuse, Z.ltb_ge. cbn. naive_solver.
Qed.

Lemma validate_config_panics c : validate_config c = Panic ↔ fl_max_size (lg_file (cf_log c)) <= 4096
  ∧ validate_readpools (cf_readpool c) = inr tt ∧ (storage_validate (cf_storage c)).2 = inr tt
  ∧ data_dir_ok (st_data_dir (storage_validate (cf_storage c)).1) ∧ ¬ 0 <= heartbeat_interval (cf_raft_store c) * 2 <= DURATION_MAX.
Proof.
  rewrite validate_config_steps, <- validate_data_dir_ok. pose proof (log_pools_ok c) as Hl.
  destruct (verdict_cases (validate_log (cf_log c) ;? validate_readpools (cf_readpool c))) as [E|[e E] ]; rewrite E in *; [|naive_solver].
  destruct (storage_validate (cf_storage c)) as [st w] eqn:Es. cbn [fst snd].
  destruct (verdict_cases w) as [->|[e ->] ]; [|naive_solver].
  destruct (verdict_cases (validate_data_dir (st_data_dir st))) as [Ed|[e Ed] ]; rewrite Ed in *; [|naive_solver].
  destruct (decide (0 <= heartbeat_interval (cf_raft_store c) * 2 <= DURATION_MAX)) as [Hd|Hd].
  - rewrite chk_ok by done. bindr. naive_solver.
  - rewrite chk_panic by lia. bindr. naive_solver.
Qed.

(** Validating the whole configuration.  It panics exactly when the sections it gets to before are
    in order and twice the heartbeat interval is no duration; otherwise it changes nothing but
    the storage section, as that section's own validation does, and the path of the
    configuration, which it sets next to the data if it is empty.  The configuration is
    accepted exactly when the log file is at most 4096 MB, the read pools and the storage are
    in order, the directory of the data is neither empty nor absolute, does not end in a
    slash and has no empty and no parent part, and the server waits at least two heartbeats.
    So the two databases, the backup, the memory limit and the other sections are not
    looked at: whatever they hold, the verdict is the same. *)
Theorem validate_config_exact c :
  (∀ c' v, validate_config c = Ret (c', v) → same_but_storage c c'
    ∧ (v = inr tt ↔ fl_max_size (lg_file (cf_log c)) <= 4096 ∧ validate_readpools (cf_readpool c) = inr tt
        ∧ storage_validate (cf_storage c) = (cf_storage c', inr tt) ∧ data_dir_ok (st_data_dir (cf_storage c'))
        ∧ heartbeat_interval (cf_raft_store c) * 2 <= sv_grpc_keepalive_time (cf_server c))
    ∧ (v = inr tt → cf_path c' = if str_is_empty (cf_path c) then path_join (st_data_dir (cf_storage c')) LAST_CONFIG_FILE
                                else cf_path c))
  ∧ (validate_config c = Panic ↔ fl_max_size (lg_file (cf_log c)) <= 4096 ∧ validate_readpools (cf_readpool c) = inr tt
      ∧ (storage_validate (cf_storage c)).2 = inr tt ∧ data_dir_ok (st_data_dir (storage_validate (cf_storage c)).1)
      ∧ ¬ 0 <= heartbeat_interval (cf_raft_store c) * 2 <= DURATION_MAX)
  ∧ ∀ db bk m, snd <$> validate_config (with_db db (with_backup bk (with_memory_limit m c))) = snd <$> validate_config c.
Proof.
  split; [intros c' v; apply validate_config_runs|]. split; [apply validate_config_panics|].
  intros db bk m. rewrite !validate_config_steps. cbn [with_db with_backup with_memory_limit cf_log cf_readpool cf_storage cf_path
    cf_raft_store cf_server].
  destruct (_ ;? _); [done|]. destruct (storage_validate _) as [st [e|] ]; [done|]. cbn.
  destruct (validate_data_dir _); [done|]. by destruct (chk _ _ _).
Qed.

(** ** Settings that moved *)

(** What is promised of the storage section's own validation: once it has accepted a section, it
    accepts the result as it is, and it does not touch the block cache. *)
Class StorageLaws : Prop := {
  storage_again s s' : storage_validate s = (s', inr tt) → storage_validate s' = (s', inr tt);
  storage_keeps_cache s s' : storage_validate s = (s', inr tt) → st_block_cache s' = st_block_cache s;
}.

(** The value of a setting that moved: the new one wins where it is set. *)
Definition moved (old new_ default_old default_new : Z) : Z :=
  if (old =? default_old) || negb (new_ =? default_new) then new_ else old.

Lemma adjust_region_moved old new_ do dn : adjust_region old new_ do dn = (do, moved old new_ do dn).
Proof.
  unfold adjust_region, moved. destruct (Z.eqb_spec old do) as [->|]; cbn; [done|]. by destruct (Z.eqb_spec new_ dn).
Qed.

Definition adjusted_pool (s : ServerConfig) (p : ReadPool) : ReadPool := (adjust_end_point s p).2.

(** What [compatible_adjust] makes of a configuration, given the block cache and the size of the backup's files. *)
Definition adjusted (c : EinsteinDbConfig) (bc : BlockCacheConfig) (sst : Z) : EinsteinDbConfig :=
  let r := cf_raft_store c in let p := cf_cop c in
  let r' := mkRaftStore (rs_violetabftdb_path r) (rs_region_max_size default_raft_store) (rs_region_split_size default_raft_store)
    (rs_clean_stale_peer_delay r) (rs_hibernate_regions r) in
  let p' := mkCop
    (moved (rs_region_max_size r) (cop_region_max_size p) (rs_region_max_size default_raft_store) (cop_region_max_size default_cop))
    (moved (rs_region_split_size r) (cop_region_split_size p) (rs_region_split_size default_raft_store) (cop_region_split_size default_cop)) in
  let pools := mkReadPools (rp_unified (cf_readpool c)) (rp_storage (cf_readpool c)) (adjusted_pool (cf_server c) (rp_copr (cf_readpool c))) in
  with_readpool (adjust_use_unified_pool pools) (with_backup (with_sst sst (cf_backup c))
    (with_storage (mkStorage (st_data_dir (cf_storage c)) (st_enable_ttl (cf_storage c)) bc)
      (with_db (with_auto_tuned None (cf_db c)) (with_server (mkServer (sv_grpc_keepalive_time (cf_server c)) None None None)
        (with_cop p' (with_raft_store r' c)))))).

Lemma compatible_adjust_steps c : compatible_adjust c =
  bc ← adjust_cache (st_block_cache (cf_storage c)) (block_caches c);
  sst ← adjust_sst (bk_sst_max_size (cf_backup c)) (cop_region_max_size default_cop);
  Ret (adjusted c bc sst).
Proof.
  unfold compatible_adjust, adjust_regions. rewrite !adjust_region_moved. cbv zeta.
  unfold adjusted, adjusted_pool. destruct c; cbn. destruct (adjust_cache _ _) as [bc|]; [|done]. cbn.
  by destruct (adjust_sst _ _).
Qed.

Lemma adjust_cache_idem b sum sum' b' : adjust_cache b sum = Ret b' → adjust_cache b' sum' = Ret b'.
Proof. unfold adjust_cache. destruct b as [[] [z|] ]; cbn; intros; inv_out; done. Qed.

Lemma adjust_sst_bounds z r z' : 0 <= r → adjust_sst z r = Ret z' → r / 10 <= z' ∧ (z' <= r * 2 ∨ U64_MAX < r * 2)
  ∧ (r / 10 <= z <= r * 2 → z' = z).
Proof.
  intros Hr. assert (r / 10 <= r) by (apply Z.div_le_upper_bound; lia). unfold adjust_sst.
  destruct (Z.ltb_spec z (r / 10)); [intros [= <-]; lia|]. intros Hq. apply bind_Ret in Hq as (t & [-> Ht]%chk_Ret & Hq).
  destruct (Z.ltb_spec (r * 2) z); inv_out; lia.
Qed.

Lemma adjust_sst_idem z r z' : 0 <= r → adjust_sst z r = Ret z' → r * 2 <= U64_MAX → adjust_sst z' r = Ret z'.
Proof.
  intros Hr H Hu. destruct (adjust_sst_bounds z r z' Hr H) as (H1 & H2 & _). unfold adjust_sst.
  rewrite (proj2 (Z.ltb_ge _ _)) by lia. rewrite u64_ok by lia. bindr. by rewrite (proj2 (Z.ltb_ge _ _)) by lia.
Qed.

Lemma moved_idem o n do dn : moved do (moved o n do dn) do dn = moved o n do dn.
Proof. unfold moved at 1. by rewrite Z.eqb_refl. Qed.

Lemma adjusted_idem c bc sst : adjusted (adjusted c bc sst) bc sst = adjusted c bc sst.
Proof.
  assert (∀ p s, adjusted_pool (mkServer s None None None) p = p) as Ep by done. unfold adjusted.
  destruct c; lazy -[adjust_pool moved adjusted_pool with_sst with_auto_tuned].
  rewrite Ep, !moved_idem, !adjust_idem. reflexivity.
Qed.

Lemma adjusted_validated c bc sst st p : st_block_cache st = bc →
  adjusted (with_storage st (with_path p (adjusted c bc sst))) bc sst = with_storage st (with_path p (adjusted c bc sst)).
Proof.
  assert (∀ p s, adjusted_pool (mkServer s None None None) p = p) as Ep by done. intros <-. unfold adjusted.
  destruct c, st; lazy -[adjust_pool moved adjusted_pool with_sst with_auto_tuned].
  rewrite Ep, !moved_idem, !adjust_idem. reflexivity.
Qed.

Lemma adjusted_parts c bc z : st_block_cache (cf_storage (adjusted c bc z)) = bc ∧ bk_sst_max_size (cf_backup (adjusted c bc z)) = z.
Proof. unfold adjusted. destruct c; lazy -[adjust_pool moved adjusted_pool with_auto_tuned]. done. Qed.

Lemma backup_untouched st p c : cf_backup (with_storage st (with_path p c)) = cf_backup c.
Proof. by destruct c. Qed.

Lemma path_join_some d : str_is_empty (path_join d LAST_CONFIG_FILE) = false.
Proof. unfold path_join. destruct (str_is_empty d) eqn:E; [done|]. by destruct d; [|destruct (str_ends_with _ _)]. Qed.

(** Accepting a second time what was accepted changes nothing more. *)
Lemma validate_again {SL : StorageLaws} c c' : validate_config c = Ret (c', inr tt) → validate_config c' = Ret (c', inr tt)
  ∧ st_block_cache (cf_storage c') = st_block_cache (cf_storage c).
Proof.
  intros H. destruct (validate_config_runs c c' (inr tt) H) as (Hs & [Hv _] & Hp). destruct (Hv eq_refl) as (H1 & H2 & H3 & H4 & H5).
  specialize (Hp eq_refl). split; [|by eapply storage_keeps_cache].
  assert (validate_config c ≠ Panic) as Hn by (by rewrite H). rewrite validate_config_panics in Hn.
  rewrite validate_config_steps. unfold same_but_storage in Hs.
  assert (cf_log c' = cf_log c ∧ cf_readpool c' = cf_readpool c ∧ cf_raft_store c' = cf_raft_store c ∧ cf_server c' = cf_server c)
    as (-> & -> & -> & ->) by (rewrite Hs; by destruct c).
  rewrite (proj2 (log_pools_ok c)) by done. rewrite (storage_again _ _ H3). cbn [fst snd]. cbv zeta.
  rewrite (proj2 (validate_data_dir_ok _) H4). rewrite H3 in Hn. cbn in Hn.
  rewrite chk_ok by (apply dec_stable; naive_solver). bindr. rewrite (proj2 (Z.ltb_ge _ _)) by lia. do 2 f_equal.
  assert (str_is_empty (cf_path c') = false) as ->.
  { rewrite Hp. destruct (str_is_empty (cf_path c)) eqn:E; [apply path_join_some|done]. }
  by destruct c'.
Qed.

Lemma compatible_adjust_inv c c' : compatible_adjust c = Ret c' → ∃ bc sst,
  adjust_cache (st_block_cache (cf_storage c)) (block_caches c) = Ret bc
  ∧ adjust_sst (bk_sst_max_size (cf_backup c)) (cop_region_max_size default_cop) = Ret sst ∧ c' = adjusted c bc sst.
Proof. rewrite compatible_adjust_steps. intros H. inv_out. eauto. Qed.

Lemma compatible_adjust_panics c : compatible_adjust c = Panic ↔
  (bc_shared (st_block_cache (cf_storage c)) = true ∧ bc_capacity (st_block_cache (cf_storage c)) = None ∧ block_caches c = Panic)
  ∨ (cop_region_max_size default_cop / 10 <= bk_sst_max_size (cf_backup c)
     ∧ ¬ 0 <= cop_region_max_size default_cop * 2 <= U64_MAX).
Proof.
  rewrite compatible_adjust_steps. unfold adjust_cache, adjust_sst.
  set (r := cop_region_max_size default_cop).
  assert ((if bk_sst_max_size (cf_backup c) <? r / 10 then Ret (r / 10)
    else twice ← u64 (r * 2); if twice <? bk_sst_max_size (cf_backup c) then Ret twice else Ret (bk_sst_max_size (cf_backup c))) = Panic
    ↔ r / 10 <= bk_sst_max_size (cf_backup c) ∧ ¬ 0 <= r * 2 <= U64_MAX) as Hs.
  { destruct (Z.ltb_spec (bk_sst_max_size (cf_backup c)) (r / 10)); [split; [done|lia]|].
    destruct (decide (0 <= r * 2 <= U64_MAX)).
    - rewrite u64_ok by done. bindr. destruct (_ <? _); split; try done; tauto.
    - unfold u64. rewrite chk_panic by lia. done. }
  rewrite <- Hs. clear Hs. destruct (if _ <? _ then _ else _) as [sst|].
  - destruct (bc_shared _), (bc_capacity _); bindr; try naive_solver. destruct (block_caches c); bindr; naive_solver.
  - destruct (bc_shared _), (bc_capacity _); bindr; try naive_solver; destruct (block_caches c); bindr; naive_solver.
Qed.

Lemma adjusted_limit c bc z : cf_memory_usage_limit (adjusted c bc z) = cf_memory_usage_limit c.
Proof. unfold adjusted. destruct c; lazy -[adjust_pool moved adjusted_pool with_sst with_auto_tuned]. done. Qed.

Lemma compatible_adjust_stable {SL : StorageLaws} c c' c'' : is_u64 (cop_region_max_size default_cop * 2) →
  compatible_adjust c = Ret c' → validate_config c' = Ret (c'', inr tt) →
  compatible_adjust c'' = Ret c'' ∧ validate_config c'' = Ret (c'', inr tt).
Proof.
  unfold is_u64. intros Hr H Hv. assert (0 <= cop_region_max_size default_cop) as Hr0 by lia.
  destruct (compatible_adjust_inv c c' H) as (bc & z & Hbc & Hz & ->).
  destruct (validate_again _ _ Hv) as [Hv2 Hcache]. split; [|done].
  destruct (validate_config_runs _ _ _ Hv) as (Hs & _). unfold same_but_storage in Hs.
  pose proof (f_equal cf_backup Hs) as Eb. rewrite backup_untouched in Eb.
  destruct (adjusted_parts c bc z) as [P1 P2]. rewrite compatible_adjust_steps, Hcache, Eb, P1, P2.
  rewrite (adjust_cache_idem _ _ _ _ Hbc). bindr. rewrite (adjust_sst_idem _ _ _ Hr0 Hz) by lia. bindr.
  assert (st_block_cache (cf_storage c'') = bc) as Hst by (by rewrite Hcache).
  pose proof (adjusted_validated c bc z _ (cf_path c'') Hst) as Ea. rewrite <- Hs in Ea. exact (f_equal Ret Ea).
Qed.

(** C30. The adjustment of settings that moved.  It panics only when the block caches or twice a region
    overflow.  Otherwise the old settings are gone; each new one keeps its value if it was set,
    and takes the old one's if not (the threads and stack of the end point always do); the
    backup's files are between a tenth of a region and two; a shared cache has a capacity, the
    one set or the sum of the four; each read pool says which threads it uses, as it did.  What
    the next start compares is untouched.  Adjusting again changes nothing, and, if the storage
    section promises as much for itself, neither do adjusting and validating again after a
    validation that accepts: any number of rounds is one. *)
Theorem compatible_adjust_exact {SL : StorageLaws} c (Hr : is_u64 (cop_region_max_size default_cop * 2)) :
  (compatible_adjust c = Panic ↔ bc_shared (st_block_cache (cf_storage c)) = true
     ∧ bc_capacity (st_block_cache (cf_storage c)) = None ∧ block_caches c = Panic)
  ∧ ∀ c', compatible_adjust c = Ret c' →
    let r := cop_region_max_size default_cop in let sst := bk_sst_max_size (cf_backup c') in
    cf_server c' = mkServer (sv_grpc_keepalive_time (cf_server c)) None None None
    ∧ db_auto_tuned (cf_db c') = None
    ∧ rs_region_max_size (cf_raft_store c') = rs_region_max_size default_raft_store
    ∧ cop_region_max_size (cf_cop c') = moved (rs_region_max_size (cf_raft_store c)) (cop_region_max_size (cf_cop c))
        (rs_region_max_size default_raft_store) (cop_region_max_size default_cop)
    ∧ cop_region_split_size (cf_cop c') = moved (rs_region_split_size (cf_raft_store c)) (cop_region_split_size (cf_cop c))
        (rs_region_split_size default_raft_store) (cop_region_split_size default_cop)
    ∧ cf_readpool c' = adjust_use_unified_pool (mkReadPools (rp_unified (cf_readpool c)) (rp_storage (cf_readpool c))
        (adjusted_pool (cf_server c) (rp_copr (cf_readpool c))))
    ∧ r / 10 <= sst <= r * 2 ∧ (r / 10 <= bk_sst_max_size (cf_backup c) <= r * 2 → cf_backup c' = cf_backup c)
    ∧ adjust_cache (st_block_cache (cf_storage c)) (block_caches c) = Ret (st_block_cache (cf_storage c'))
    ∧ (∀ x, check_critical_with c' x = check_critical_with c x ∧ check_critical_with x c' = check_critical_with x c)
    ∧ compatible_adjust c' = Ret c'
    ∧ ∀ c'', validate_config c' = Ret (c'', inr tt) → compatible_adjust c'' = Ret c'' ∧ validate_config c'' = Ret (c'', inr tt).
Proof.
  unfold is_u64 in Hr. split; [rewrite compatible_adjust_panics; tauto|].
  intros c' H r sst. destruct (compatible_adjust_inv c c' H) as (bc & z & Hbc & Hz & ->).
  assert (0 <= cop_region_max_size default_cop) as Hr0 by lia.
  destruct (adjust_sst_bounds _ _ _ Hr0 Hz) as (B1 & B2 & B3).
  assert (compatible_adjust (adjusted c bc z) = Ret (adjusted c bc z)) as Hagain.
  { rewrite compatible_adjust_steps. destruct (adjusted_parts c bc z) as [-> ->].
    rewrite (adjust_cache_idem _ _ _ _ Hbc). bindr. rewrite (adjust_sst_idem _ _ _ Hr0 Hz) by lia. bindr. by rewrite adjusted_idem. }
  split_and!; try done; try lia.
  - subst sst r. cbn. lia.
  - intros Hs. specialize (B3 Hs). subst z. cbn. by destruct (cf_backup c).
  - intros c'' Hv. by apply (compatible_adjust_stable c (adjusted c bc z)).
Qed.

(** ** The last start *)

Lemma differ_false a b : negb (String.eqb a b) = false ↔ a = b.
Proof. rewrite negb_false_iff. apply String.eqb_eq. Qed.

Record critical_same (self last : EinsteinDbConfig) : Prop := {
  same_wal : db_wal_dir (cf_db last) = db_wal_dir (cf_db self);
  same_raft_wal : rdb_wal_dir (cf_raftdb last) = rdb_wal_dir (cf_raftdb self);
  same_data_dir : st_data_dir (cf_storage last) = st_data_dir (cf_storage self)
    ∨ st_data_dir (cf_storage last) = EmptyString ∧ st_data_dir (cf_storage self) = DEFAULT_DATA_DIR;
  same_raft_path : re_enable (cf_raft_engine last) = false → rs_violetabftdb_path (cf_raft_store last) = rs_violetabftdb_path (cf_raft_store self);
  same_engine_dir : re_enable (cf_raft_engine last) = true → re_dir (cf_raft_engine last) = re_dir (cf_raft_engine self);
  same_ttl : st_enable_ttl (cf_storage last) = st_enable_ttl (cf_storage self);
}.

Lemma check_critical_ok self last : check_critical_with self last = inr tt ↔ critical_same self last.
Proof.
  unfold check_critical_with, str_is_empty. cbv zeta. repeat setoid_rewrite inr_andthen. repeat setoid_rewrite inr_refuse.
  repeat setoid_rewrite andb_false_iff. repeat setoid_rewrite negb_false_iff. repeat setoid_rewrite andb_true_iff.
  repeat setoid_rewrite String.eqb_eq. split.
  - intros (H1 & H2 & H3 & H4 & H5 & H6 & H7). split; try done.
    + intros He. destruct H4 as [|H4]; [done|congruence].
    + intros He. destruct H6 as [|H6]; [done|congruence].
    + by destruct (st_enable_ttl (cf_storage last)), (st_enable_ttl (cf_storage self)).
  - intros [H1 H2 H3 H4 H5 H6]. rewrite H6. split_and!; try done; try tauto.
    + destruct (re_enable (cf_raft_engine last)); auto.
    + destruct (re_enable (cf_raft_engine last)); auto.
    + by destruct (st_enable_ttl (cf_storage self)).
Qed.

(** Starting again.  The comparison with the last configuration accepts exactly when the two log
    directories and the setting for expiry are the same, the directory of the data is (or was
    empty and is now the default one), and so is the raft store's directory, its path or its
    engine's directory according to which one the last configuration used; the second look at
    the raft log directory never decides.  A first start is accepted, and so is a start with
    the very configuration that the last one adjusted, validated and wrote. *)
Theorem check_critical_exact {SL : StorageLaws} self last :
  (check_critical_with self last = inr tt ↔ critical_same self last)
  ∧ (check_critical_with self last = inl CriticalRaftWalDir →
     db_wal_dir (cf_db last) = db_wal_dir (cf_db self) ∧ rdb_wal_dir (cf_raftdb last) ≠ rdb_wal_dir (cf_raftdb self))
  ∧ check_critical_config self None = Ret (inr tt)
  ∧ ∀ c c' c'', is_u64 (cop_region_max_size default_cop * 2) → compatible_adjust c = Ret c' →
      validate_config c' = Ret (c'', inr tt) → check_critical_config c'' (Some c'') = Ret (inr tt).
Proof.
  split; [apply check_critical_ok|]. split; [|split; [done|] ].
  - unfold check_critical_with. cbv zeta. intros H.
    destruct (String.eqb_spec (db_wal_dir (cf_db last)) (db_wal_dir (cf_db self))) as [Ew|]; [|done].
    destruct (String.eqb_spec (rdb_wal_dir (cf_raftdb last)) (rdb_wal_dir (cf_raftdb self))) as [Er|]; [|done]. exfalso.
    cbn in H. destruct (_ && _); [done|]. cbn in H. destruct (_ && _); [done|]. cbn in H. destruct (_ && _); [done|]. cbn in H.
    destruct (_ && _); [done|]. by destruct (_ && _).
  - intros c c' c'' Hr Ha Hv. destruct (compatible_adjust_stable c c' c'' Hr Ha Hv) as [H1 H2].
    unfold check_critical_config. rewrite H1. bindr. rewrite H2. bindr. f_equal. apply check_critical_ok. split; auto.
Qed.

(** ** Defaults and the limit on memory *)

Lemma default_config_panics fdb m : default_config fdb m = Panic.
Proof.
  unfold default_config, default_db. destruct (get_background_job_limits _) as [l|]; [|done]. bindr.
  by destruct default_namespaced.
Qed.

(** Whatever asks for the default configuration panics, since none can be made: moving the settings
    of the log, and suggesting a limit on memory (so also lowering a limit to what there is).
    Setting the limit needs no suggestion once the moved settings are adjusted: a limit that is
    set is accepted exactly when the machine has as much and is kept; otherwise it follows
    from the shared cache or the sum of the four, whatever the machine has. *)
Theorem memory_limit_set fdb m f c :
  logger_compatible_adjust fdb m c = Panic ∧ suggested_memory_usage_limit fdb m f = Panic
  ∧ clamp_memory_limit (suggested_memory_usage_limit fdb m f) c = Panic
  ∧ (∀ limit, cf_memory_usage_limit c = Some limit → adjust_memory_limit (suggested_memory_usage_limit fdb m f) c
       = Ret (c, if bool_decide (limit <= memory_limit_in_bytes) then inr tt else inl MemoryLimit))
  ∧ (∀ c', compatible_adjust c = Ret c' → cf_memory_usage_limit c = None →
       adjust_memory_limit (suggested_memory_usage_limit fdb m f) c'
       = match (if bc_shared (st_block_cache (cf_storage c')) then Ret (default 0 (bc_capacity (st_block_cache (cf_storage c'))))
                else block_caches c') with
         | Ret cap => Ret (with_memory_limit (Some (limit_for_cache cap)) c', inr tt)
         | Panic => Panic
         end).
Proof.
  assert (suggested_memory_usage_limit fdb m f = Panic) as Hs by (unfold suggested_memory_usage_limit; by rewrite default_config_panics).
  split; [unfold logger_compatible_adjust; by rewrite default_config_panics|]. split; [done|]. rewrite Hs. split; [|split].
  - unfold clamp_memory_limit. by destruct (cf_memory_usage_limit c).
  - intros limit Hl. unfold adjust_memory_limit. rewrite Hl. do 2 f_equal. case_bool_decide; case_Z; done || lia.
  - intros c' H Hn. destruct (compatible_adjust_inv c c' H) as (bc & z & Hbc & _ & ->).
    destruct (adjusted_parts c bc z) as [P _]. unfold adjust_memory_limit. rewrite adjusted_limit, Hn, P.
    unfold adjust_cache in Hbc. destruct (st_block_cache (cf_storage c)) as [[] [w|] ]; cbn in Hbc; inv_out; cbn; try done.
    all: by destruct (block_caches (adjusted c _ z)).
Qed.
End WholeLaws.
