(* ===== verification/ConfigChange.v ===== *)
(** * ConfigChange: changing the configuration of a running server

    [soliton/config.rs], from [DBConfigManger] on: turning named texts into a tree of
    typed changes and into the lines of the file ([to_config_change], [to_toml_encode]),
    applying a change to a database ([dispatch]), and the controller that validates,
    dispatches and writes it ([ConfigController]).

    A change is a map from names to values, nested by section.  The values the derive
    macro makes, their parsing and printing ([ConfigLeaves]), the order in which a
    [HashMap] is walked ([HashIter]), the engine, the file system, the writer of TOML and
    the generated [fidelate] are parameters.  Metrics are left out. *)
From Stdlib Require Import ZArith Lia String Ascii.
From stdpp Require Import base list numbers gmap strings pretty.
From S2P Require Import Prelude ConfigPools ConfigDb Config.
#[local] Open Scope Z_scope.

(** ** Text *)

Fixpoint split_on (c : ascii) (s : string) : list string :=
  match s with
  | EmptyString => [EmptyString]
  | String a s => if Ascii.eqb a c then EmptyString :: split_on c s
                  else match split_on c s with h :: t => String a h :: t | [] => [String a EmptyString] end
  end.

Fixpoint replace_char (a b : ascii) (s : string) : string :=
  match s with EmptyString => EmptyString | String x s => String (if Ascii.eqb x a then b else x) (replace_char a b s) end.

(** [str::replace] of a pattern that is not empty; [skip] characters are part of the last match. *)
Fixpoint replace_from (pat rep : string) (skip : nat) (s : string) : string :=
  match s with
  | EmptyString => EmptyString
  | String a s' =>
      match skip with
      | S k => replace_from pat rep k s'
      | O => if String.prefix pat s then rep +:+ replace_from pat rep (String.length pat - 1) s'
             else String a (replace_from pat rep 0 s')
      end
  end.
Definition str_replace (pat rep s : string) : string := replace_from pat rep 0 s.

Definition QUOTE : ascii := ascii_of_nat 34.
Fixpoint trim_start (c : ascii) (s : string) : string :=
  match s with String a s' => if Ascii.eqb a c then trim_start c s' else s | EmptyString => EmptyString end.
Definition trim_matches (c : ascii) (s : string) : string := String.rev (trim_start c (String.rev (trim_start c s))).

Definition quoted (s : string) : string := String QUOTE (s +:+ String QUOTE EmptyString).

(** ** Values *)

Inductive LeafKind := K_Duration | K_Size | K_OptionSize | K_U64 | K_F64 | K_U32 | K_I32 | K_Usize | K_Bool
  | K_BlobRunMode | K_IOPriority | K_String | K_Other.
#[export] Instance LeafKind_eq_dec : EqDecision LeafKind.
Proof. solve_decision. Defined.

Class ConfigLeaves := {
  leaf : Type;
  leaf_kind : leaf → LeafKind;
  (** [v.parse::<T>()], made a value again *)
  leaf_parse : LeafKind → string → option leaf;
  leaf_of_string : string → leaf;
  leaf_seconds : leaf → Z;
  leaf_bytes : leaf → Z;
  leaf_option_bytes : leaf → option Z;
  leaf_i32 : leaf → Z;
  leaf_bool : leaf → bool;
  leaf_display : leaf → string;
  skip_display : string;
}.

(** A parsed value is one of the type it was parsed as. *)
Class ConfigLeavesLaws {CL : ConfigLeaves} : Prop := {
  parse_kind k s v : leaf_parse k s = Some v → leaf_kind v = k;
  string_kind s : leaf_kind (leaf_of_string s) = K_String;
}.

Inductive ConfigValue `{ConfigLeaves} :=
| CV_Leaf (v : leaf)
| CV_Module (m : gmap string ConfigValue)
| CV_Skip.

Notation ConfigChange := (gmap string ConfigValue).

Class HashIter := {
  iter_map : ∀ {A}, gmap string A → list (string * A);
  iter_map_perm : ∀ {A} (m : gmap string A), iter_map m ≡ₚ map_to_list m;
}.

Section Change.
Context {CL : ConfigLeaves}.

(** ** Names of settings *)

Definition serde_to_online_config (name : string) : string :=
  if String.eqb name "violetabfttimelike_store.timelike_store-pool-size"
  then str_replace "violetabfttimelike_store.timelike_store-pool-size"
         "violetabft_timelike_store.timelike_store_alexandrov_poset_process_system.pool_size" name
  else if String.eqb name "violetabfttimelike_store.apply-pool-size"
  then str_replace "violetabfttimelike_store.apply-pool-size"
         "violetabft_timelike_store.apply_alexandrov_poset_process_system.pool_size" name
  else if String.eqb name "violetabfttimelike_store.timelike_store_pool_size"
  then str_replace "violetabfttimelike_store.timelike_store_pool_size"
         "violetabft_timelike_store.timelike_store_alexandrov_poset_process_system.pool_size" name
  else if String.eqb name "violetabfttimelike_store.apply_pool_size"
  then str_replace "violetabfttimelike_store.apply_pool_size"
         "violetabft_timelike_store.apply_alexandrov_poset_process_system.pool_size" name
  else replace_char "-" "_" (str_replace "violetabfttimelike_store" "violetabft_timelike_store" name).

(** The fields of a name; the code reverses them and pops from the end. *)
Definition fields_of (name : string) : list string := split_on "." (serde_to_online_config name).

(** [to_change_causet_locale] *)
Definition to_change_value (v : string) (typed : leaf) : outcome (option leaf) :=
  let v := trim_matches QUOTE v in
  match leaf_kind typed with
  | K_Other => Panic
  | K_String => Ret (Some (leaf_of_string v))
  | k => Ret (leaf_parse k v)
  end.

(** [to_config_change]'s [helper]: the change [dst] with the value put where the fields lead. *)
Fixpoint change_helper (fields : list string) (dst typed : ConfigChange) (value : string) : outcome (ConfigError + ConfigChange) :=
  match fields with
  | [] => Ret (inr dst)
  | field :: rest =>
      match typed !! field with
      | None => Ret (inl UnexpectedField)
      | Some CV_Skip => Ret (inl NotChangeable)
      | Some (CV_Module m) =>
          match default (CV_Module ∅) (dst !! field) with
          | CV_Module n =>
              r ← change_helper rest n m value;
              Ret (match r with inl e => inl e | inr n => inr (<[field := CV_Module n]> dst) end)
          | _ => Panic
          end
      | Some (CV_Leaf t) =>
          match rest with
          | [] => r ← to_change_value value t;
              Ret (match r with None => inl ParseFailed | Some v => inr (<[field := CV_Leaf v]> dst) end)
          | _ => Ret (inl UnexpectedField)
          end
      end
  end.

(** The names and texts of a change, in the order the map is walked. *)
Fixpoint change_loop (typed res : ConfigChange) (change : list (string * string)) : outcome (ConfigError + ConfigChange) :=
  match change with
  | [] => Ret (inr res)
  | (name, value) :: change =>
      r ← change_helper (fields_of name) res typed value;
      match r with inl e => Ret (inl e) | inr res => change_loop typed res change end
  end.

Definition to_config_change (typed : ConfigChange) (change : list (string * string)) : outcome (ConfigError + ConfigChange) :=
  change_loop typed ∅ change.

(** [to_toml_encode]'s [helper]: is the value written in quotes? *)
Fixpoint toml_helper (fields : list string) (typed : ConfigChange) : ConfigError + bool :=
  match fields with
  | [] => inl NoField
  | field :: rest =>
      match typed !! field with
      | None | Some CV_Skip => inl NoField
      | Some (CV_Module m) => toml_helper rest m
      | Some (CV_Leaf t) =>
          match rest with
          | [] => inr (bool_decide (leaf_kind t ∈ [K_Duration; K_Size; K_OptionSize; K_String; K_BlobRunMode; K_IOPriority]))
          | _ => inl UnexpectedField
          end
      end
  end.

Fixpoint toml_loop (typed : ConfigChange) (dst : gmap string string) (change : list (string * string))
  : ConfigError + gmap string string :=
  match change with
  | [] => inr dst
  | (name, value) :: change =>
      match toml_helper (fields_of name) typed with
      | inl e => inl e
      | inr b => toml_loop typed (<[replace_char "_" "-" name := if b then quoted value else value]> dst) change
      end
  end.

Definition to_toml_encode (typed : ConfigChange) (change : list (string * string)) : ConfigError + gmap string string :=
  toml_loop typed ∅ change.

(** ** A change applied to a database *)

(** [config_causet_locale_to_string] *)
Fixpoint config_to_strings (change : list (string * ConfigValue)) : outcome (list (string * string)) :=
  match change with
  | [] => Ret []
  | (name, v) :: change =>
      s ← match v with
          | CV_Leaf l => Ret (match leaf_kind l with
              | K_Duration => Some (pretty (leaf_seconds l))
              | K_Size => Some (pretty (leaf_bytes l))
              | K_OptionSize => pretty <$> leaf_option_bytes l
              | _ => Some (leaf_display l)
              end)
          | CV_Module _ => Panic
          | CV_Skip => Ret (Some skip_display)
          end;
      rest ← config_to_strings change;
      Ret (match s with Some s => (name, s) :: rest | None => rest end)
  end.
End Change.

Class DbEngine := {
  Eng : Type;
  set_db_options : list (string * string) → Eng → Eng * (ConfigError + unit);
  set_options_namespaced : string → list (string * string) → Eng → Eng * (ConfigError + unit);
  (** [get_options_namespaced] and [set_block_cache_capacity] *)
  set_cache_capacity : string → Z → Eng → Eng * (ConfigError + unit);
  set_rate : Z → Eng → Eng * (ConfigError + unit);
  set_tuned : bool → Eng → Eng * (ConfigError + unit);
  get_tuned : Eng → option bool;
}.

Inductive DBType := DB_Kv | DB_VioletaBFT.

Section Dispatch.
Context {CL : ConfigLeaves} {HI : HashIter} {DE : DbEngine}.

(** Code that may panic, or fail and leave the engine as it is then. *)
Definition engM (A : Type) : Type := Eng → outcome (Eng * (ConfigError + A)).
Definition eret {A} (a : A) : engM A := λ e, Ret (e, inr a).
Definition efail {A} (x : ConfigError) : engM A := λ e, Ret (e, inl x).
Definition ebind {A B} (c : engM A) (f : A → engM B) : engM B := λ e,
  '(e, r) ← c e; match r with inl x => Ret (e, inl x) | inr a => f a e end.
Definition elift {A} (c : outcome A) : engM A := λ e, a ← c; Ret (e, inr a).
Definition eop (f : Eng → Eng * (ConfigError + unit)) : engM unit := λ e, Ret (f e).

Notation "'let*' x := c 'in' k" := (ebind c (λ x, k)) (at level 200, x name, c at level 100, k at level 200).

Definition validate_namespaced (t : DBType) (name : string) : engM unit :=
  match t with
  | DB_Kv => if bool_decide (name ∈ map namespaced_name [NS_default; NS_write; NS_lock; NS_violetabft])
             then eret tt else efail InvalidNamespaced
  | DB_VioletaBFT => if String.eqb name (namespaced_name NS_default) then eret tt else efail InvalidNamespaced
  end.

Definition set_namespaced_config (t : DBType) (name : string) (opts : list (string * string)) : engM unit :=
  let* _ := validate_namespaced t name in eop (set_options_namespaced name opts).

Definition set_block_cache_size (t : DBType) (shared : bool) (name : string) (size : Z) : engM unit :=
  let* _ := validate_namespaced t name in
  if shared then efail SharedCache else eop (set_cache_capacity name size).

Definition set_rate_limiter_auto_tuned (b : bool) : engM unit :=
  let* _ := eop (set_tuned b) in
  λ e, if bool_decide (get_tuned e = Some b) then Ret (e, inr tt) else Ret (e, inl AutoTuned).

(** The conversions of a value into the type a setting has: another type panics. *)
Definition into_size (v : ConfigValue) : outcome Z :=
  match v with CV_Leaf l => if bool_decide (leaf_kind l = K_Size) then Ret (leaf_bytes l) else Panic | _ => Panic end.
Definition into_bool (v : ConfigValue) : outcome bool :=
  match v with CV_Leaf l => if bool_decide (leaf_kind l = K_Bool) then Ret (leaf_bool l) else Panic | _ => Panic end.
Definition into_i32 (v : ConfigValue) : outcome Z :=
  match v with CV_Leaf l => if bool_decide (leaf_kind l = K_I32) then Ret (leaf_i32 l) else Panic | _ => Panic end.

(** [&namespaced_name[..(namespaced_name.len() - 2)]] *)
Definition strip_two (name : string) : string := String.substring 0 (String.length name - 2) name.

(** The part of [dispatch] for one column family. *)
Definition dispatch_family (t : DBType) (shared : bool) (name : string) (change : ConfigChange) : engM unit :=
  let name := strip_two name in
  let* _ := match change !! "block_cache_size" with
            | Some v => let* size := elift (into_size v) in set_block_cache_size t shared name size
            | None => eret tt
            end in
  let change := delete "block_cache_size" change in
  let change := match change !! "FoundationDB" with
                | Some (CV_Module m) => m ∪ delete "FoundationDB" change
                | _ => delete "FoundationDB" change
                end in
  if bool_decide (change = ∅ :> ConfigChange) then eret tt
  else let* opts := elift (config_to_strings (iter_map change)) in set_namespaced_config t name opts.

Fixpoint dispatch_families (t : DBType) (shared : bool) (l : list (string * ConfigValue)) : engM unit :=
  match l with
  | [] => eret tt
  | (name, CV_Module m) :: l => let* _ := dispatch_family t shared name m in dispatch_families t shared l
  | _ :: l => dispatch_families t shared l
  end.

(** One named setting taken out of the rest. *)
Definition dispatch_named (name : string) (l : list (string * ConfigValue)) (f : ConfigValue → engM unit) : engM unit :=
  match filter (λ p, p.1 = name) l with p :: _ => f p.2 | [] => eret tt end.

(** [DBConfigManger::dispatch] *)
Definition dispatch (t : DBType) (shared : bool) (change : ConfigChange) : engM unit :=
  let l := iter_map change in
  let families := filter (λ p, Is_true (str_ends_with "namespaced" p.1)) l in
  let l := filter (λ p, ¬ Is_true (str_ends_with "namespaced" p.1)) l in
  let* _ := dispatch_families t shared families in
  let* _ := dispatch_named "rate_bytes_per_sec" l (λ v, let* z := elift (into_size v) in eop (set_rate (as_i64 z))) in
  let* _ := dispatch_named "rate_limiter_auto_tuned" l (λ v, let* b := elift (into_bool v) in set_rate_limiter_auto_tuned b) in
  let* _ := dispatch_named "max_background_jobs" l
              (λ v, let* z := elift (into_i32 v) in eop (set_db_options [("max_background_jobs"%string, pretty z)])) in
  let* _ := dispatch_named "max_background_flushes" l
              (λ v, let* z := elift (into_i32 v) in eop (set_db_options [("max_background_flushes"%string, pretty z)])) in
  let l := filter (λ p, p.1 ∉ ["rate_bytes_per_sec"; "rate_limiter_auto_tuned"; "max_background_jobs"; "max_background_flushes"]%string) l in
  match l with
  | [] => eret tt
  | _ => let* opts := elift (config_to_strings l) in eop (set_db_options opts)
  end.
End Dispatch.

(** ** The controller *)

Inductive ModuleName := MN_Readpool | MN_Server | MN_Metric | MN_RaftStore | MN_InterDagger | MN_fidel | MN_Fdbdb | MN_RaftDb
  | MN_RaftEngine | MN_TimelikeStorage | MN_Security | MN_Encryption | MN_Import | MN_Backup | MN_Pessimistic | MN_Gc | MN_Split
  | MN_CDC | MN_ResolvedTs | MN_ResourceMetering | MN_Other (name : string).
#[export] Instance ModuleName_eq_dec : EqDecision ModuleName.
Proof. solve_decision. Defined.

Definition module_table : list (string * ModuleName) := [
  ("readpool", MN_Readpool); ("server", MN_Server); ("metric", MN_Metric); ("violetabft_timelike_store", MN_RaftStore);
  ("InterDagger", MN_InterDagger); ("fidel", MN_fidel); ("split", MN_Split); ("foundationdb", MN_Fdbdb); ("violetabftdb", MN_RaftDb);
  ("violetabft_interlocking_directorate", MN_RaftEngine); ("timelike_storage", MN_TimelikeStorage); ("security", MN_Security);
  ("import", MN_Import); ("backup", MN_Backup); ("pessimistic_causet_chains", MN_Pessimistic); ("gc", MN_Gc); ("soliton", MN_CDC);
  ("resolved_ts", MN_ResolvedTs); ("resource_metering", MN_ResourceMetering) ]%string.

(** [From<&str> for Module] *)
Definition module_of (name : string) : ModuleName :=
  match find (λ p, String.eqb p.1 name) module_table with Some p => p.2 | None => MN_Other name end.

(** The managers a controller calls, the generated code, the files, the writer of TOML. *)
Class Host {SU : SizeUnits} {SQ : SysQuota} {DU : DurationUnits} {ET : EngineTypes} {SE : Sections} {CL : ConfigLeaves} := {
  Mgr : Type;
  mgr_dispatch : Mgr → ConfigChange → Mgr * (ConfigError + unit);
  cfg_fidelate : EinsteinDbConfig → ConfigChange → EinsteinDbConfig;
  cfg_diff : EinsteinDbConfig → EinsteinDbConfig → ConfigChange;
  cfg_typed : ConfigChange;
  (** [EinsteinDbConfig::from_file]: reading and parsing *)
  Files : Type;
  from_file : Files → string → ConfigError + EinsteinDbConfig;
  file_exists : Files → string → bool;
  file_read : Files → string → ConfigError + string;
  (** create, [write_all] and [sync_all] *)
  file_write : Files → string → string → Files * (ConfigError + unit);
  file_rename : Files → string → string → Files * (ConfigError + unit);
  path_parent : string → option string;
  toml_writer : string → gmap string string → string;
}.

Definition TMP_CONFIG_FILE : string := "tmp_einsteindb.toml".

Section Controller.
Context {SU : SizeUnits} {SQ : SysQuota} {DU : DurationUnits} {ET : EngineTypes} {SE : Sections} {CL : ConfigLeaves}
  {HI : HashIter} {HO : Host}.

Record ConfigController := mkController {
  ct_current : EinsteinDbConfig;
  ct_mgrs : list (ModuleName * Mgr);
  ct_files : Files;
}.

Definition mgr_get (l : list (ModuleName * Mgr)) (m : ModuleName) : option Mgr := snd <$> find (λ p, bool_decide (p.1 = m)) l.
Definition mgr_set (l : list (ModuleName * Mgr)) (m : ModuleName) (x : Mgr) : list (ModuleName * Mgr) :=
  (m, x) :: filter (λ p, p.1 ≠ m) l.

(** [register] *)
Definition register (c : ConfigController) (m : ModuleName) (x : Mgr) : ConfigController :=
  mkController (ct_current c) (mgr_set (ct_mgrs c) m x) (ct_files c).

(** [write_config] *)
Definition write_config (fs : Files) (path content : string) : Files * verdict :=
  match path_parent path with
  | None => (fs, inl (External 0))
  | Some p =>
      let tmp := path_join p TMP_CONFIG_FILE in
      let '(fs, r) := file_write fs tmp content in
      match r with inl e => (fs, inl e) | inr _ => file_rename fs tmp path end
  end.

(** The loop over the sections: the managers, what was dispatched, and the complaint that stopped it. *)
Fixpoint dispatch_loop (mgrs : list (ModuleName * Mgr)) (done_ : ConfigChange) (l : list (string * ConfigValue))
  : list (ModuleName * Mgr) * ConfigChange * verdict :=
  match l with
  | [] => (mgrs, done_, inr tt)
  | (name, CV_Module ch) :: l =>
      match mgr_get mgrs (module_of name) with
      | Some m =>
          let '(m, r) := mgr_dispatch m ch in
          let mgrs := mgr_set mgrs (module_of name) m in
          match r with
          | inl e => (mgrs, done_, inl e)
          | inr _ => dispatch_loop mgrs (<[name := CV_Module ch]> done_) l
          end
      | None => dispatch_loop mgrs (<[name := CV_Module ch]> done_) l
      end
  | (name, v) :: l => dispatch_loop mgrs (<[name := v]> done_) l
  end.

(** What is written to the file. *)
Definition write_change (c : ConfigController) (change : list (string * string)) : Files * verdict :=
  match to_toml_encode cfg_typed change with
  | inl e => (ct_files c, inl e)
  | inr change =>
      let path := cf_path (ct_current c) in
      match (if file_exists (ct_files c) path then file_read (ct_files c) path else inr EmptyString) with
      | inl e => (ct_files c, inl e)
      | inr src => write_config (ct_files c) path (toml_writer src change)
      end
  end.

(** [fidelate_impl] *)
Definition fidelate_impl (c : ConfigController) (diff : ConfigChange) (change : option (list (string * string)))
  : outcome (ConfigController * verdict) :=
  '(_, v) ← validate_config (cfg_fidelate (ct_current c) diff);
  match v with
  | inl e => Ret (c, inl e)
  | inr _ =>
      let '(mgrs, done_, r) := dispatch_loop (ct_mgrs c) ∅ (iter_map diff) in
      let c := mkController (cfg_fidelate (ct_current c) done_) mgrs (ct_files c) in
      match r with
      | inl e => Ret (c, inl e)
      | inr _ =>
          match change with
          | None => Ret (c, inr tt)
          | Some change => let '(fs, r) := write_change c change in Ret (mkController (ct_current c) (ct_mgrs c) fs, r)
          end
      end
  end.

(** [fidelate], [fidelate_config] and [fidelate_from_toml_file]; a change is given in the order its map is walked. *)
Definition fidelate (c : ConfigController) (change : list (string * string)) : outcome (ConfigController * verdict) :=
  r ← to_config_change cfg_typed change;
  match r with inl e => Ret (c, inl e) | inr diff => fidelate_impl c diff (Some change) end.

Definition fidelate_config (c : ConfigController) (name value : string) : outcome (ConfigController * verdict) :=
  fidelate c [(name, value)].

Definition fidelate_from_toml_file (c : ConfigController) : outcome (ConfigController * verdict) :=
  match from_file (ct_files c) (cf_path (ct_current c)) with
  | inl e => Ret (c, inl e)
  | inr incoming => fidelate_impl c (cfg_diff (ct_current c) incoming) None
  end.
End Controller.
