(* ===== verification/ConfigLaws.v ===== *)
(** * ConfigLaws: what changing the configuration does

    The theorems on [ConfigChange]: a tree of changes is what its names and texts say, and
    has the types of the configuration; which names reach the file; what a database
    refuses; and what the controller keeps when a manager refuses its part. *)
From Stdlib Require Import ZArith Lia String Ascii.
From stdpp Require Import base list numbers gmap strings pretty.
From S2P Require Import Prelude ConfigPools ConfigDb Config ConfigChange.
#[local] Open Scope Z_scope.

Section Tree.
Context {CL : ConfigLeaves} {CLL : ConfigLeavesLaws}.

(** ** Paths in a tree *)

Fixpoint tget (m : ConfigChange) (p : list string) : option ConfigValue :=
  match p with
  | [] => None
  | f :: r => match m !! f with
              | None => None
              | Some v => match r with [] => Some v | _ => match v with CV_Module n => tget n r | _ => None end end
              end
  end.

Definition tleaf (m : ConfigChange) (p : list string) : option leaf :=
  match tget m p with Some (CV_Leaf v) => Some v | _ => None end.

(** A change has the sections and the types of [typed], and nothing that may not change. *)
Definition conforms (dst typed : ConfigChange) : Prop := ∀ p v, tget dst p = Some v →
  match v with
  | CV_Leaf l => ∃ t, tget typed p = Some (CV_Leaf t) ∧ leaf_kind l = leaf_kind t
  | CV_Module _ => ∃ m, tget typed p = Some (CV_Module m)
  | CV_Skip => False
  end.

(** Where a path leads in the configuration: a complaint, a section, or a setting. *)
Fixpoint look (typed : ConfigChange) (p : list string) : ConfigError + option leaf :=
  match p with
  | [] => inr None
  | f :: r => match typed !! f with
              | None => inl UnexpectedField
              | Some CV_Skip => inl NotChangeable
              | Some (CV_Module m) => look m r
              | Some (CV_Leaf t) => match r with [] => inr (Some t) | _ => inl UnexpectedField end
              end
  end.

Lemma tget_under m f r : r ≠ [] → tget m (f :: r) = match m !! f with Some (CV_Module n) => tget n r | _ => None end.
Proof. destruct r; [done|]. intros _. cbn. destruct (m !! f) as [[]|]; done. Qed.

Lemma tget_insert_ne m f v g r : g ≠ f → tget (<[f := v]> m) (g :: r) = tget m (g :: r).
Proof. intros Hg. cbn. by rewrite lookup_insert_ne. Qed.

Lemma conforms_empty typed : conforms ∅ typed.
Proof. intros [|f r] v; cbn; [done|]. by rewrite lookup_empty. Qed.

Lemma conforms_under dst typed f n m : conforms dst typed → dst !! f = Some (CV_Module n) → typed !! f = Some (CV_Module m) →
  conforms n m.
Proof.
  intros H Hd Ht [|g r] v; [done|]. intros Hv. specialize (H (f :: g :: r) v).
  rewrite !tget_under, Hd, Ht in H by done. exact (H Hv).
Qed.

Lemma conforms_module dst typed f n m : conforms dst typed → typed !! f = Some (CV_Module m) → conforms n m →
  conforms (<[f := CV_Module n]> dst) typed.
Proof.
  intros H Ht Hn [|g r] v; [done|]. destruct (decide (g = f)) as [->|]; [|rewrite tget_insert_ne by done; apply H].
  destruct r as [|h r]; [cbn; rewrite lookup_insert_eq, Ht; intros [= <-]; eauto|].
  rewrite !tget_under, lookup_insert_eq, Ht by done. apply Hn.
Qed.

Lemma conforms_leaf dst typed f l t : conforms dst typed → typed !! f = Some (CV_Leaf t) → leaf_kind l = leaf_kind t →
  conforms (<[f := CV_Leaf l]> dst) typed.
Proof.
  intros H Ht Hk [|g r] v; [done|]. destruct (decide (g = f)) as [->|]; [|rewrite tget_insert_ne by done; apply H].
  destruct r as [|h r]; [cbn; rewrite lookup_insert_eq, Ht; intros [= <-]; eauto|].
  rewrite !tget_under, lookup_insert_eq by done. done.
Qed.

(** ** One name *)

Lemma to_change_kind value t v : to_change_value value t = Ret (Some v) → leaf_kind v = leaf_kind t.
Proof.
  unfold to_change_value. destruct (leaf_kind t) eqn:E; intros; inv_out; simplify_eq; try apply string_kind;
    by (eapply parse_kind).
Qed.

Lemma tleaf_module dst f n q : tleaf (<[f := CV_Module n]> dst) (f :: q) = match q with [] => None | _ => tleaf n q end.
Proof. unfold tleaf. destruct q; [cbn; by rewrite lookup_insert_eq|]. by rewrite tget_under, lookup_insert_eq. Qed.

(** Replacing a section by one with other settings changes those settings. *)
Lemma tleaf_section dst f n n' (u : list string → option leaf → option leaf) :
  default (CV_Module ∅) (dst !! f) = CV_Module n → (∀ q, tleaf n' q = u q (tleaf n q)) →
  ∀ q, tleaf (<[f := CV_Module n']> dst) q = match q with
    | g :: r => if decide (g = f) then match r with [] => None | _ => u r (tleaf n r) end else tleaf dst q
    | [] => None end.
Proof.
  intros Hd Hu [|g r]; [done|]. destruct (decide (g = f)) as [->|Hg].
  - rewrite tleaf_module. destruct r; [done|]. apply Hu.
  - unfold tleaf. by rewrite tget_insert_ne.
Qed.

Lemma tleaf_old dst f n r : default (CV_Module ∅) (dst !! f) = CV_Module n → tleaf dst (f :: r) = match r with [] => None | _ => tleaf n r end.
Proof.
  unfold tleaf. intros Hd. destruct (dst !! f) as [x|] eqn:E; cbn in Hd; simplify_eq.
  - destruct r; [cbn; by rewrite E|]. by rewrite tget_under, E.
  - destruct r; [cbn; by rewrite E|]. rewrite tget_under, E by done. cbn. by rewrite lookup_empty.
Qed.

Lemma section_of dst typed f m : conforms dst typed → typed !! f = Some (CV_Module m) →
  ∃ n, default (CV_Module ∅) (dst !! f) = CV_Module n ∧ conforms n m.
Proof.
  intros H Ht. destruct (dst !! f) as [v|] eqn:E; cbn; [|exists ∅; split; [done|apply conforms_empty] ].
  pose proof (H [f] v) as Hv. cbn in Hv. rewrite E, Ht in Hv. specialize (Hv eq_refl).
  destruct v as [l|n|]; [by destruct Hv as (t & ? & _)| |done]. exists n. split; [done|]. by eapply conforms_under.
Qed.

Definition put (p : list string) (v : leaf) (q : list string) (o : option leaf) : option leaf := if decide (q = p) then Some v else o.

Lemma change_helper_exact value : ∀ p dst typed, conforms dst typed →
  match look typed p with
  | inl e => change_helper p dst typed value = Ret (inl e)
  | inr None => ∃ dst', change_helper p dst typed value = Ret (inr dst') ∧ conforms dst' typed ∧ ∀ q, tleaf dst' q = tleaf dst q
  | inr (Some t) => match to_change_value value t with
    | Panic => change_helper p dst typed value = Panic
    | Ret None => change_helper p dst typed value = Ret (inl ParseFailed)
    | Ret (Some v) => ∃ dst', change_helper p dst typed value = Ret (inr dst') ∧ conforms dst' typed
        ∧ ∀ q, tleaf dst' q = put p v q (tleaf dst q)
    end
  end.
Proof.
  induction p as [|f r IH]; intros dst typed Hc; cbn [look change_helper]; [eauto|].
  destruct (typed !! f) as [[t|m|]|] eqn:Et; [| |done|done].
  - destruct r as [|g r]; [|done]. destruct (to_change_value value t) as [[v|]|] eqn:Ev; bindr; [|done|done].
    eexists. split; [done|]. split; [eapply conforms_leaf; eauto using to_change_kind|].
    intros [|g q]; [done|]. unfold put, tleaf. destruct (decide (g = f)) as [->|Hg].
    + destruct q as [|h q]; cbn [tget]; rewrite lookup_insert_eq.
      * by rewrite decide_True.
      * rewrite decide_False by done. pose proof (Hc (f :: h :: q)) as Hq. rewrite !tget_under, Et in Hq by done.
        destruct (dst !! f) as [[l|n|]|] eqn:Ed; [done| |done|done].
        pose proof (Hc [f] (CV_Module n)) as Hm. cbn in Hm. rewrite Ed, Et in Hm. by destruct (Hm eq_refl).
    + rewrite tget_insert_ne by done. rewrite decide_False; [done|]. congruence.
  - destruct (section_of dst typed f m Hc Et) as (n & Hn & Hcn). rewrite Hn. specialize (IH n m Hcn).
    destruct (look m r) as [e|[t|] ] eqn:El; [by rewrite IH| |].
    + assert (r ≠ []) as Hr by (intros ->; done). destruct (to_change_value value t) as [[v|]|]; [|by rewrite IH..].
      destruct IH as (n' & -> & Hc' & Hl). bindr. eexists. split; [done|]. split; [by eapply conforms_module|].
      intros q. rewrite (tleaf_section dst f n n' (put r v) Hn Hl). destruct q as [|g q]; [done|]. unfold put.
      destruct (decide (g = f)) as [->|]; [|by rewrite decide_False by congruence].
      rewrite (tleaf_old dst f n q Hn). destruct q as [|h q]; [by rewrite decide_False by congruence|].
      destruct (decide (h :: q = r)); [subst; by rewrite decide_True|]. by rewrite decide_False by congruence.
    + destruct IH as (n' & -> & Hc' & Hl). bindr. eexists. split; [done|]. split; [by eapply conforms_module|].
      intros q. rewrite (tleaf_section dst f n n' (λ _ o, o) Hn Hl). destruct q as [|g q]; [done|].
      destruct (decide (g = f)) as [->|]; [|done]. by rewrite (tleaf_old dst f n q Hn).
Qed.

(** ** A whole change *)

(** What one name and its text mean: a complaint, nothing to set, or a setting and its value. *)
Definition effect (typed : ConfigChange) (name value : string) : outcome (ConfigError + option (list string * leaf)) :=
  match look typed (fields_of name) with
  | inl e => Ret (inl e)
  | inr None => Ret (inr None)
  | inr (Some t) =>
      r ← to_change_value value t;
      Ret (match r with None => inl ParseFailed | Some v => inr (Some (fields_of name, v)) end)
  end.

(** What a list of them means: the first complaint, or the settings in order. *)
Fixpoint effects (typed : ConfigChange) (l : list (string * string)) : outcome (ConfigError + list (list string * leaf)) :=
  match l with
  | [] => Ret (inr [])
  | (name, value) :: l =>
      r ← effect typed name value;
      match r with
      | inl e => Ret (inl e)
      | inr o => rs ← effects typed l;
          Ret (match rs with inl e => inl e | inr es => inr (match o with Some e => e :: es | None => es end) end)
      end
  end.

(** The last value a list of settings gives to a path. *)
Definition last_value (es : list (list string * leaf)) (q : list string) (o : option leaf) : option leaf :=
  foldl (λ o e, put e.1 e.2 q o) o es.

Lemma change_loop_exact typed l : ∀ res, conforms res typed →
  match effects typed l with
  | Panic => change_loop typed res l = Panic
  | Ret (inl e) => change_loop typed res l = Ret (inl e)
  | Ret (inr es) => ∃ res', change_loop typed res l = Ret (inr res') ∧ conforms res' typed
      ∧ ∀ q, tleaf res' q = last_value es q (tleaf res q)
  end.
Proof.
  induction l as [|[name value] l IH]; intros res Hc; cbn [effects change_loop]; [eauto|].
  pose proof (change_helper_exact value (fields_of name) res typed Hc) as H. unfold effect.
  destruct (look typed (fields_of name)) as [e|[t|] ]; [by rewrite H| |].
  - destruct (to_change_value value t) as [[v|]|]; bindr; [|by rewrite H|by rewrite H].
    destruct H as (r & -> & Hr & Hl). bindr. specialize (IH r Hr). destruct (effects typed l) as [[e|es]|]; bindr; try done.
    destruct IH as (r' & -> & Hr' & Hl'). exists r'. split; [done|]. split; [done|]. intros q. by rewrite Hl', Hl.
  - destruct H as (r & -> & Hr & Hl). bindr. specialize (IH r Hr). destruct (effects typed l) as [[e|es]|]; bindr; try done.
    destruct IH as (r' & -> & Hr' & Hl'). exists r'. split; [done|]. split; [done|]. intros q. by rewrite Hl', Hl.
Qed.

(** ** The lines of the file *)

Definition toml_ok (typed : ConfigChange) (name : string) : option bool :=
  match look typed (fields_of name) with
  | inr (Some t) => Some (bool_decide (leaf_kind t ∈ [K_Duration; K_Size; K_OptionSize; K_String; K_BlobRunMode; K_IOPriority]))
  | _ => None
  end.

Lemma toml_helper_exact : ∀ p typed, match look typed p with
  | inr (Some t) => toml_helper p typed = inr (bool_decide (leaf_kind t ∈ [K_Duration; K_Size; K_OptionSize; K_String; K_BlobRunMode; K_IOPriority]))
  | _ => ∃ e, toml_helper p typed = inl e
  end.
Proof.
  induction p as [|f r IH]; intros typed; cbn [look toml_helper]; [eauto|].
  destruct (typed !! f) as [[t|m|]|]; [destruct r; eauto|apply IH|eauto..].
Qed.

Lemma toml_loop_exact typed l : ∀ dst,
  (is_Some (mapM (λ p, toml_ok typed p.1) l) ↔ ∃ d, toml_loop typed dst l = inr d)
  ∧ ∀ d, toml_loop typed dst l = inr d → ∀ k v, d !! k = Some v → dst !! k = Some v
      ∨ ∃ name value b, (name, value) ∈ l ∧ toml_ok typed name = Some b ∧ k = replace_char "_" "-" name
          ∧ v = if b then quoted value else value.
Proof.
  induction l as [|[name value] l IH]; intros dst; cbn [toml_loop mapM].
  { split; [split; eauto|]. intros d [= <-] k v. auto. }
  pose proof (toml_helper_exact (fields_of name) typed) as H.
  destruct (look typed (fields_of name)) as [e|[t|] ] eqn:El.
  - assert (toml_ok typed name = None) as Ht by (unfold toml_ok; by rewrite El). destruct H as [e' ->].
    split; [|naive_solver]. cbn. rewrite Ht. cbn. split; [intros [? Hx]; discriminate Hx|naive_solver].
  - rewrite H. set (b := bool_decide _). specialize (IH (<[replace_char "_" "-" name := if b then quoted value else value]> dst)).
    destruct IH as [IH1 IH2]. split.
    + assert (toml_ok typed name = Some b) as Ht by (unfold toml_ok; by rewrite El).
      rewrite <- IH1. cbn. rewrite Ht. cbn. destruct (mapM _ l); cbn; split; intros [x Hx]; simplify_eq; eauto.
    + intros d Hd k v Hk. destruct (IH2 d Hd k v Hk) as [Hk'|(n' & v' & b' & Hin & Hb & -> & ->)].
      * destruct (decide (k = replace_char "_" "-" name)) as [->|Hne].
        -- rewrite lookup_insert_eq in Hk'. simplify_eq. right. exists name, value, b. split; [by left|].
           unfold toml_ok. rewrite El. done.
        -- rewrite lookup_insert_ne in Hk' by done. by left.
      * right. exists n', v', b'. split; [by right|done].
  - assert (toml_ok typed name = None) as Ht by (unfold toml_ok; by rewrite El). destruct H as [e' ->].
    split; [|naive_solver]. cbn. rewrite Ht. cbn. split; [intros [? Hx]; discriminate Hx|naive_solver].
Qed.

Lemma replace_char_gone a b s : a ≠ b → ∀ n, String.get n (replace_char a b s) ≠ Some a.
Proof.
  intros Hab. induction s as [|x s IH]; intros n; cbn; [by destruct n|]. destruct n as [|n]; [|apply IH].
  destruct (Ascii.eqb_spec x a); congruence.
Qed.

Lemma look_leaf : ∀ p typed t, look typed p = inr (Some t) → tget typed p = Some (CV_Leaf t).
Proof.
  induction p as [|f r IH]; intros typed t; cbn [look]; [done|].
  destruct (typed !! f) as [[l|m|]|] eqn:E; try done.
  - destruct r; [|done]. intros [= ->]. cbn. by rewrite E.
  - intros H. destruct r as [|g r]; [done|]. rewrite tget_under, E by done. by apply IH.
Qed.

(** C15. Online changes.  Turning names and texts into a change fails exactly with the complaint of the
    first that is wrong (no such setting, one that may not change, a text that does not parse);
    otherwise the change has the sections and the types of the configuration, never one that may
    not change, and holds for each setting the last value it is given and nothing else.  It
    never panics on settings of the known types.  The lines for the file exist exactly when each
    name is a setting: a name that is a section is accepted as a change (of nothing) and refused
    here. *)
Theorem to_config_change_exact typed l :
  match effects typed l with
  | Panic => to_config_change typed l = Panic
  | Ret (inl e) => to_config_change typed l = Ret (inl e)
  | Ret (inr es) => ∃ res, to_config_change typed l = Ret (inr res) ∧ conforms res typed
      ∧ ∀ q, tleaf res q = last_value es q None
  end
  ∧ ((∀ p t, tget typed p = Some (CV_Leaf t) → leaf_kind t ≠ K_Other) → effects typed l ≠ Panic)
  ∧ ((∃ d, to_toml_encode typed l = inr d) ↔ Forall (λ p, ∃ t, look typed (fields_of p.1) = inr (Some t)) l).
Proof.
  split; [|split].
  - pose proof (change_loop_exact typed l ∅ (conforms_empty typed)) as H. unfold to_config_change.
    destruct (effects typed l) as [[e|es]|]; [done| |done]. destruct H as (res & H & Hc & Hl). exists res. split; [done|].
    split; [done|]. intros q. rewrite Hl. f_equal. unfold tleaf. by destruct q as [|f [|g r] ]; cbn; rewrite ?lookup_empty.
  - intros Hk. induction l as [|[name value] l IH]; [done|]. cbn [effects]. unfold effect.
    pose proof (look_leaf (fields_of name) typed) as Ht.
    destruct (look typed (fields_of name)) as [e|[t|] ]; bindr; [done| |].
    + assert (∃ o, to_change_value value t = Ret o) as [o ->].
      { specialize (Hk _ _ (Ht t eq_refl)). unfold to_change_value. destruct (leaf_kind t); eauto. done. }
      bindr. destruct o; [|done]. destruct (effects typed l); done.
    + by destruct (effects typed l).
  - unfold to_toml_encode. rewrite <- (proj1 (toml_loop_exact typed l ∅)), mapM_is_Some. apply Forall_proper; [|done].
    intros [name value]. unfold toml_ok. cbn. destruct (look typed (fields_of name)) as [e|[t|] ]; split; try naive_solver.
    all: intros [? Hx]; discriminate Hx.
Qed.

(** The lines for the file: each value is that of a name of the change, in quotes where the type
    asks for them.  As the code stands the key is the name with every underscore made a dash, in
    the names of sections too: [test_to_toml_encode] expects the sections' underscores to stay,
    and its keys of [violetabfttimelike_store] are not found. *)
Lemma toml_lines typed l d k v : to_toml_encode typed l = inr d → d !! k = Some v →
  (∃ name value b, (name, value) ∈ l ∧ toml_ok typed name = Some b ∧ k = replace_char "_" "-" name
     ∧ v = if b then quoted value else value)
  ∧ ∀ n, String.get n k ≠ Some "_"%char.
Proof.
  intros Hd Hk. destruct (proj2 (toml_loop_exact typed l ∅) d Hd k v Hk) as [H|H]; [by rewrite lookup_empty in H|].
  split; [done|]. destruct H as (name & value & b & _ & _ & -> & _). by apply replace_char_gone.
Qed.

End Tree.

(** ** A database refuses every change to a column family *)

Lemma length_substring_0 m : ∀ s, String.length (String.substring 0 m s) = Nat.min m (String.length s).
Proof. induction m as [|m IH]; intros [|a s]; cbn; try done. by rewrite IH. Qed.

(** A name that ends in "namespaced" is ten characters at least; two fewer never name a family. *)
Lemma strip_two_no_family name n : str_ends_with "namespaced" name = true → strip_two name ≠ namespaced_name n.
Proof.
  unfold str_ends_with, strip_two. intros [Hl%Nat.leb_le Hs%String.eqb_eq]%andb_prop Hn.
  pose proof (f_equal String.length Hn) as Hlen. rewrite length_substring_0 in Hlen.
  change (String.length "namespaced") with 10%nat in *.
  destruct n; cbn [namespaced_name String.length] in Hlen; try lia.
  assert (String.length name = 12%nat) as E by lia. rewrite E in *.
  pose proof (String.substring_correct1 name 0 10 2 ltac:(lia)) as H1. pose proof (String.substring_correct1 name (12 - 10) 10 0 ltac:(lia)) as H2.
  change (12 - 2)%nat with 10%nat in Hn. rewrite Hn in H1. rewrite Hs in H2. cbn in H1, H2. congruence.
Qed.

Section Dispatching.
Context {CL : ConfigLeaves} {HI : HashIter} {DE : DbEngine}.

(** The change of a family asks for something: a cache, or another setting once blobs are merged in. *)
Definition family_rest (m : ConfigChange) : ConfigChange :=
  let m := delete "block_cache_size" m in
  match m !! "FoundationDB" with
  | Some (CV_Module b) => b ∪ delete "FoundationDB" m
  | _ => delete "FoundationDB" m
  end.
Definition touches (m : ConfigChange) : Prop := is_Some (m !! "block_cache_size") ∨ family_rest m ≠ ∅.
#[local] Instance touches_dec m : Decision (touches m).
Proof. unfold touches. apply _. Defined.

(** Neither panicking nor refusing touches the engine. *)
Definition refused {A} (c : engM A) (e : Eng) : Prop := c e = Panic ∨ c e = Ret (e, inl InvalidNamespaced).

Lemma validate_refused t name e : str_ends_with "namespaced" name = true →
  validate_namespaced t (strip_two name) e = Ret (e, inl InvalidNamespaced).
Proof.
  intros H. unfold validate_namespaced. destruct t.
  - rewrite bool_decide_false; [done|]. cbn [map]. intros Hin. repeat (apply elem_of_cons in Hin as [Hin|Hin]; [by eapply (strip_two_no_family name) in H|]).
    by apply elem_of_nil in Hin.
  - destruct (String.eqb_spec (strip_two name) (namespaced_name NS_default)); [by eapply (strip_two_no_family name) in H|done].
Qed.

Lemma family_refused t shared name m e : str_ends_with "namespaced" name = true →
  (touches m → refused (dispatch_family t shared name m) e) ∧ (¬ touches m → dispatch_family t shared name m e = Ret (e, inr tt)).
Proof.
  intros Hn. unfold touches, dispatch_family, set_block_cache_size, set_namespaced_config. cbv zeta. fold (family_rest m).
  destruct (m !! "block_cache_size") as [v|] eqn:Eb.
  - split; [|intros H; destruct H; left; eauto]. intros _. unfold refused, ebind, elift.
    destruct (into_size v) as [z|]; bindr; [|by left]. rewrite validate_refused by done. by right.
  - case_bool_decide as Hr.
    + split; [intros [ [? ?]|?]; done|done].
    + split; [|intros H; destruct H; by right]. intros _. unfold refused, ebind, elift, eret.
      destruct (config_to_strings _) as [o|]; bindr; [|by left]. rewrite validate_refused by done. by right.
Qed.

Lemma families_refused t shared e l : Forall (λ p, str_ends_with "namespaced" p.1 = true) l →
  ((∃ name m, (name, CV_Module m) ∈ l ∧ touches m) → refused (dispatch_families t shared l) e)
  ∧ ((∀ name m, (name, CV_Module m) ∈ l → ¬ touches m) → dispatch_families t shared l e = Ret (e, inr tt)).
Proof.
  induction l as [|[name v] l IH]; intros Hl; [split; [intros (?&?&H%elem_of_nil&_); done|done]|].
  apply Forall_cons_1 in Hl as [Hn Hl]. specialize (IH Hl). destruct IH as [IH1 IH2]. destruct v as [x|m|].
  1, 3: cbn [dispatch_families]; split; [intros (n & m & [?|Hin]%elem_of_cons & Ht); [done|]; eauto|
    intros H; apply IH2; intros n m Hin; apply (H n); by right].
  cbn [dispatch_families]. destruct (family_refused t shared name m e Hn) as [F1 F2].
  destruct (decide (touches m)) as [Ht|Ht].
  - specialize (F1 Ht). split; [|intros H; destruct (H name m); [by left|done] ]. intros _. unfold refused, ebind in *.
    destruct F1 as [-> | ->]; bindr; auto.
  - specialize (F2 Ht). unfold refused, ebind in *. rewrite F2. bindr. split.
    + intros (n & m' & [ [= <- <-]|Hin]%elem_of_cons & Ht'); [done|]. eauto.
    + intros H. apply IH2. intros n m' Hin. apply (H n). by right.
Qed.

(** What one setting of a database asks of the engine. *)
Definition one_setting (k : string) (v : leaf) : outcome (Eng → Eng * (ConfigError + unit)) :=
  if String.eqb k "rate_bytes_per_sec" then z ← into_size (CV_Leaf v); Ret (set_rate (as_i64 z))
  else if String.eqb k "max_background_jobs" || String.eqb k "max_background_flushes"
  then z ← into_i32 (CV_Leaf v); Ret (set_db_options [(k, pretty z)])
  else l ← config_to_strings [(k, CV_Leaf v)]; Ret (set_db_options l).

Lemma iter_singleton {A} k (v : A) : iter_map {[k := v]} = [(k, v)].
Proof. apply Permutation_singleton_r. rewrite iter_map_perm. by rewrite map_to_list_singleton. Qed.

Lemma refused_bind {A B} (c : engM A) (f : A → engM B) e : refused c e → refused (ebind c f) e.
Proof. unfold refused, ebind. intros [-> | ->]; bindr; auto. Qed.

Lemma named_hit k v (f : ConfigValue → engM unit) : dispatch_named k [(k, v)] f = f v.
Proof. unfold dispatch_named. by rewrite filter_cons, decide_True. Qed.

Lemma named_miss n k v (f : ConfigValue → engM unit) : k ≠ n → dispatch_named n [(k, v)] f = eret tt.
Proof. intros H. unfold dispatch_named. by rewrite filter_cons, decide_False. Qed.

(** No change of a column family reaches a database.  A change that asks anything of a family (a
    section whose name ends as theirs do) is refused, or panics on a value of the wrong type, and
    the engine is left alone: the name is cut by two letters, which never leaves the name of a
    family.  Sections that ask for nothing are skipped.  Any other single setting is one call
    on the engine: the rate and the two job counts by their own call, after converting the
    value (another type panics), the rest as an option with its text. *)
Theorem family_changes_refused t shared (change : ConfigChange) e :
  ((∃ name m, change !! name = Some (CV_Module m) ∧ str_ends_with "namespaced" name = true ∧ touches m) →
     refused (dispatch t shared change) e)
  ∧ ((∀ name v, change !! name = Some v → str_ends_with "namespaced" name = true ∧ ∀ m, v = CV_Module m → ¬ touches m) →
     dispatch t shared change e = Ret (e, inr tt))
  ∧ ∀ k v, str_ends_with "namespaced" k = false → k ≠ "rate_limiter_auto_tuned"%string →
     dispatch t shared {[k := CV_Leaf v]} e = f ← one_setting k v; Ret (f e).
Proof.
  set (fam := λ m, filter (λ p : string * ConfigValue, Is_true (str_ends_with "namespaced" p.1)) (iter_map m)).
  assert (∀ m, Forall (λ p, str_ends_with "namespaced" p.1 = true) (fam m)) as Hf.
  { intros m. apply Forall_forall. intros p [Hp _]%list_elem_of_filter. by apply Is_true_true. }
  assert (∀ m name v, (name, v) ∈ fam m ↔ m !! name = Some v ∧ str_ends_with "namespaced" name = true) as Hin.
  { intros m name v. unfold fam. rewrite list_elem_of_filter, iter_map_perm, elem_of_map_to_list. cbn. rewrite Is_true_true. tauto. }
  destruct (families_refused t shared e (fam change) (Hf change)) as [F1 F2]. split; [|split].
  - intros (name & m & H1 & H2 & H3). unfold dispatch. cbv zeta. fold (fam change). apply refused_bind, F1.
    exists name, m. by rewrite Hin.
  - intros H. unfold dispatch. cbv zeta. fold (fam change).
    assert (filter (λ p, ¬ Is_true (str_ends_with "namespaced" p.1)) (iter_map change) = []) as ->.
    { apply elem_of_nil_inv. intros [k v] [Hk Hin']%list_elem_of_filter. rewrite iter_map_perm, elem_of_map_to_list in Hin'.
      apply Hk. cbn. apply Is_true_true. by eapply H. }
    unfold ebind at 1. rewrite F2; [done|]. intros name m [Hm _]%Hin. by eapply H.
  - intros k v Hk Ht. unfold dispatch. cbv zeta. rewrite iter_singleton.
    rewrite !filter_cons, decide_False, decide_True, !filter_nil by (cbn; rewrite ?Is_true_true; congruence).
    unfold one_setting. cbn [dispatch_families].
    destruct (String.eqb_spec k "rate_bytes_per_sec") as [->|H1]; [|destruct (String.eqb_spec k "max_background_jobs") as [->|H2];
      [|destruct (String.eqb_spec k "max_background_flushes") as [->|H3] ] ].
    + rewrite named_hit, !named_miss by done. rewrite filter_cons, decide_False, filter_nil by (cbn; set_solver).
      unfold ebind, elift, eop, eret.
      destruct (into_size _) as [z|]; bindr; [|done]. by destruct (set_rate _ e) as [e' [x|[] ] ].
    + rewrite named_hit, !named_miss by done. rewrite filter_cons, decide_False, filter_nil by (cbn; set_solver).
      unfold ebind, elift, eop, eret. cbn [orb].
      destruct (into_i32 _) as [z|]; bindr; [|done]. by destruct (set_db_options _ e) as [e' [x|[] ] ].
    + rewrite named_hit, !named_miss by done. rewrite filter_cons, decide_False, filter_nil by (cbn; set_solver).
      unfold ebind, elift, eop, eret. cbn [orb].
      destruct (into_i32 _) as [z|]; bindr; [|done]. by destruct (set_db_options _ e) as [e' [x|[] ] ].
    + rewrite !named_miss by done. rewrite filter_cons, decide_True, filter_nil by (cbn; set_solver). cbn [orb].
      unfold ebind, elift, eop, eret. bindr. by destruct (config_to_strings _).
Qed.
End Dispatching.

(** ** The controller *)

Lemma module_of_other name n : module_of name = MN_Other n → n = name.
Proof.
  unfold module_of. destruct (find _ module_table) as [p|] eqn:E; [|by intros [= ->] ].
  apply find_some in E as [Hp _]. intros H. exfalso. cbn in Hp.
  repeat (destruct Hp as [<-|Hp]; [done|]). done.
Qed.

(** Two sections have two managers. *)
Lemma module_of_inj a b : module_of a = module_of b → a = b.
Proof.
  intros H. destruct (find (λ p, String.eqb p.1 a) module_table) as [p|] eqn:Ea.
  - destruct (find (λ p, String.eqb p.1 b) module_table) as [q|] eqn:Eb.
    + assert (p.2 = q.2) as Hpq by (unfold module_of in H; by rewrite Ea, Eb in H).
      apply find_some in Ea as [Hp Ha%String.eqb_eq]. apply find_some in Eb as [Hq Hb%String.eqb_eq]. subst a b.
      clear H. cbn in Hp, Hq. repeat (destruct Hp as [<-|Hp]; [repeat (destruct Hq as [<-|Hq]; [done|]); done|]). done.
    + symmetry. eapply module_of_other. unfold module_of in *. by rewrite Ea, Eb in *.
  - eapply module_of_other. unfold module_of in H |- *. by rewrite Ea in *.
Qed.

Section Controlling.
Context {SU : SizeUnits} {SQ : SysQuota} {DU : DurationUnits} {ET : EngineTypes} {SE : Sections} {CL : ConfigLeaves}
  {HI : HashIter} {HO : Host}.

Lemma mgr_get_set l m x n : mgr_get (mgr_set l m x) n = if decide (n = m) then Some x else mgr_get l n.
Proof.
  unfold mgr_get, mgr_set. cbn [find fst]. case_bool_decide as E; [by rewrite decide_True by done|].
  rewrite decide_False by congruence. f_equal. induction l as [|[k y] l IH]; [done|]. rewrite filter_cons. cbn.
  destruct (decide (k ≠ m)) as [Hk|Hk]; cbn; [by rewrite IH|].
  assert (k = m) as -> by (by apply dec_stable). by rewrite bool_decide_false.
Qed.

(** What one section's change does to its manager. *)
Definition after_dispatch (mgrs : list (ModuleName * Mgr)) (name : string) (v : ConfigValue) : option Mgr :=
  match v, mgr_get mgrs (module_of name) with
  | CV_Module ch, Some m => Some (mgr_dispatch m ch).1
  | _, o => o
  end.
Definition accepts (mgrs : list (ModuleName * Mgr)) (name : string) (v : ConfigValue) : Prop :=
  ∀ ch m, v = CV_Module ch → mgr_get mgrs (module_of name) = Some m → (mgr_dispatch m ch).2 = inr tt.

(** A run of the loop: the sections passed, the one that refused if any, and the managers after it. *)
Record loop_run (mgrs : list (ModuleName * Mgr)) (d : ConfigChange) (l : list (string * ConfigValue))
  (mgrs' : list (ModuleName * Mgr)) (d' : ConfigChange) (v : verdict) (pre post : list (string * ConfigValue)) : Prop := {
  run_split : l = pre ++ post;
  run_done : d' = list_to_map pre ∪ d;
  run_accepts : ∀ name x, (name, x) ∈ pre → accepts mgrs name x;
  run_stops : v = inr tt ∧ post = [] ∨ ∃ name ch m e tl, post = (name, CV_Module ch) :: tl
    ∧ mgr_get mgrs (module_of name) = Some m ∧ (mgr_dispatch m ch).2 = inl e ∧ v = inl e;
  run_called : ∀ name x, (name, x) ∈ pre ++ take 1 post → mgr_get mgrs' (module_of name) = after_dispatch mgrs name x;
  run_others : ∀ m, (∀ name x, (name, x) ∈ pre ++ take 1 post → module_of name ≠ m) → mgr_get mgrs' m = mgr_get mgrs m;
}.

Lemma loop_pass mgrs mgrs1 d name x l mgrs' d' v pre post : name ∉ l.*1 →
  accepts mgrs name x → mgr_get mgrs1 (module_of name) = after_dispatch mgrs name x →
  (∀ m, m ≠ module_of name → mgr_get mgrs1 m = mgr_get mgrs m) →
  loop_run mgrs1 (<[name := x]> d) l mgrs' d' v pre post → loop_run mgrs d ((name, x) :: l) mgrs' d' v ((name, x) :: pre) post.
Proof.
  intros Hn Ha Hc Ho [Hs Hd Hacc Hst Hca Hot].
  assert (∀ n y, (n, y) ∈ pre ++ post → module_of n ≠ module_of name) as Hne.
  { intros n y Hin E%module_of_inj. subst n l. apply Hn. apply list_elem_of_fmap. by exists (name, y). }
  assert (∀ n y, (n, y) ∈ pre ++ take 1 post → (n, y) ∈ pre ++ post) as Htk.
  { intros n y [Hin|Hin]%elem_of_app; apply elem_of_app; [by left|right]. destruct post; [done|]. cbn in Hin.
    apply list_elem_of_singleton in Hin as <-. by left. }
  assert (∀ n y, (n, y) ∈ pre ++ post → mgr_get mgrs1 (module_of n) = mgr_get mgrs (module_of n)) as Hsame by eauto.
  split.
  - by rewrite Hs.
  - rewrite Hd. cbn. rewrite <- insert_union_l, insert_union_r; [done|]. apply not_elem_of_list_to_map_1.
    intros Hin. apply Hn. rewrite Hs, fmap_app. apply elem_of_app. by left.
  - intros n y [ [= -> ->]|Hin]%elem_of_cons; [done|]. intros ch m -> Hm. eapply Hacc; [done..|].
    by rewrite (Hsame n (CV_Module ch)) by (apply elem_of_app; by left).
  - destruct Hst as [|(n & ch & m & e & tl & -> & Hm & He & ->)]; [by left|right]. exists n, ch, m, e, tl. split_and!; try done.
    by rewrite <- (Hsame n (CV_Module ch)) by (apply elem_of_app; right; by left).
  - intros n y. cbn. intros [ [= -> ->]|Hin]%elem_of_cons.
    + rewrite <- Hc. apply Hot. intros n' y' Hin' E. by eapply Hne; [apply Htk|].
    + rewrite (Hca n y Hin). unfold after_dispatch. rewrite (Hsame n y) by auto. done.
  - intros m Hm. rewrite Hot; [apply Ho; intros ->; eapply (Hm name x); [by left|done]|].
    intros n y Hin. apply (Hm n y). by right.
Qed.

(** The loop goes through the longest run of sections whose managers accept; it calls each of them
    once, and the one that refuses, and no other. *)
Lemma dispatch_loop_exact l : ∀ mgrs d, NoDup l.*1 → ∃ pre post,
  loop_run mgrs d l (dispatch_loop mgrs d l).1.1 (dispatch_loop mgrs d l).1.2 (dispatch_loop mgrs d l).2 pre post.
Proof.
  induction l as [|[name x] l IH]; intros mgrs d Hnd.
  { exists [], []. split; cbn; try done; [by rewrite map_empty_union|by intros ?? ?%elem_of_nil|by left|by intros ?? ?%elem_of_nil]. }
  cbn in Hnd. apply NoDup_cons in Hnd as [Hn Hnd].
  destruct x as [w|ch|]; cbn [dispatch_loop].
  1: destruct (IH mgrs (<[name := CV_Leaf w]> d) Hnd) as (pre & post & Hr).
  3: destruct (IH mgrs (<[name := CV_Skip]> d) Hnd) as (pre & post & Hr).
  1, 3: eexists (_ :: pre), post; eapply loop_pass; eauto; done.
  destruct (mgr_get mgrs (module_of name)) as [m|] eqn:Em; cycle 1.
  { destruct (IH mgrs (<[name := CV_Module ch]> d) Hnd) as (pre & post & Hr). exists ((name, CV_Module ch) :: pre), post.
    eapply loop_pass; eauto; [intros ? ? _ ?; congruence|]. unfold after_dispatch. by rewrite Em. }
  destruct (mgr_dispatch m ch) as [m' r] eqn:Ed. destruct (verdict_cases r) as [->|[e ->] ].
  - destruct (IH (mgr_set mgrs (module_of name) m') (<[name := CV_Module ch]> d) Hnd) as (pre & post & Hr).
    exists ((name, CV_Module ch) :: pre), post. eapply loop_pass; [done| | | |exact Hr].
    + intros ch' m0 [= <-] Hm0. by rewrite Em in Hm0; simplify_eq; rewrite Ed.
    + rewrite mgr_get_set, decide_True by done. unfold after_dispatch. by rewrite Em, Ed.
    + intros n Hne. by rewrite mgr_get_set, decide_False.
  - exists [], ((name, CV_Module ch) :: l). split; cbn [fst snd app take].
    + done.
    + cbn. by rewrite map_empty_union.
    + by intros ?? ?%elem_of_nil.
    + right. exists name, ch, m, e, l. by rewrite Ed.
    + intros n y [= -> ->]%list_elem_of_singleton. rewrite mgr_get_set, decide_True by done. unfold after_dispatch. by rewrite Em, Ed.
    + intros n Hne. rewrite mgr_get_set, decide_False; [done|]. intros ->. eapply Hne; [by apply list_elem_of_singleton|done].
Qed.

(** C16. Updating a running configuration.  If the configuration with the change is not accepted,
    nothing happens.  Otherwise the sections of the change are gone through in the order their map
    is walked: each that has a manager is handed to it, once, until one refuses; no other manager
    is called.  The configuration then has exactly the part of the change before that section,
    and all of it when none refused, which is the configuration that was accepted.  When one
    refused, its complaint is returned and the file is left alone; otherwise the file is
    written, and whatever becomes of that the configuration stays. *)
Theorem fidelate_exact c diff change c' v : fidelate_impl c diff change = Ret (c', v) →
  (∃ x e, validate_config (cfg_fidelate (ct_current c) diff) = Ret (x, inl e) ∧ c' = c ∧ v = inl e)
  ∨ ∃ x pre post, validate_config (cfg_fidelate (ct_current c) diff) = Ret (x, inr tt) ∧ iter_map diff = pre ++ post
    ∧ ct_current c' = cfg_fidelate (ct_current c) (list_to_map pre)
    ∧ (∀ name y, (name, y) ∈ pre → accepts (ct_mgrs c) name y)
    ∧ (∀ name y, (name, y) ∈ pre ++ take 1 post → mgr_get (ct_mgrs c') (module_of name) = after_dispatch (ct_mgrs c) name y)
    ∧ (∀ m, (∀ name y, (name, y) ∈ pre ++ take 1 post → module_of name ≠ m) → mgr_get (ct_mgrs c') m = mgr_get (ct_mgrs c) m)
    ∧ (post = [] ∧ ct_current c' = cfg_fidelate (ct_current c) diff
         ∧ (ct_files c', v) = match change with
             | None => (ct_files c, inr tt)
             | Some l => write_change (mkController (ct_current c') (ct_mgrs c') (ct_files c)) l end
       ∨ ∃ name ch m e tl, post = (name, CV_Module ch) :: tl ∧ mgr_get (ct_mgrs c) (module_of name) = Some m
         ∧ (mgr_dispatch m ch).2 = inl e ∧ v = inl e ∧ ct_files c' = ct_files c).
Proof.
  unfold fidelate_impl. intros H. apply bind_Ret in H as ([x r] & Hv & H).
  destruct (verdict_cases r) as [->|[e ->] ]; [|left; exists x, e; by simplify_eq]. right.
  assert (NoDup (iter_map diff).*1) as Hnd by (rewrite iter_map_perm; apply NoDup_fst_map_to_list).
  destruct (dispatch_loop_exact (iter_map diff) (ct_mgrs c) ∅ Hnd) as (pre & post & [R1 R2 R3 R4 R5 R6]).
  destruct (dispatch_loop (ct_mgrs c) ∅ (iter_map diff)) as [ [mgrs d] w]. cbn [fst snd] in *.
  rewrite map_union_empty in R2. subst d. exists x, pre, post.
  destruct R4 as [[-> ->]|(name & ch & m & e & tl & -> & Hm & He & ->)].
  - rewrite app_nil_r in R1. assert (list_to_map pre = diff) as Epre.
    { rewrite <- R1. rewrite <- (list_to_map_to_list diff) at 2. apply list_to_map_proper; [done|apply iter_map_perm]. }
    assert (ct_current c' = cfg_fidelate (ct_current c) (list_to_map pre) ∧ ct_mgrs c' = mgrs
      ∧ (ct_files c', v) = match change with None => (ct_files c, inr tt)
         | Some l => write_change (mkController (cfg_fidelate (ct_current c) (list_to_map pre)) mgrs (ct_files c)) l end) as (E1 & E2 & E3).
    { destruct change as [l|]; [|by simplify_eq]. destruct (write_change _ l) as [fs z]. by simplify_eq. }
    rewrite E1, E2. split_and!; try done; [by rewrite app_nil_r|]. left. rewrite Epre in E3 |- *. done.
  - simplify_eq. cbn. split_and!; try done. right. eauto 10.
Qed.
End Controlling.
