(* ===== verification/ConfigSample.v ===== *)
(** * ConfigSample: a machine, an engine and configurations to run the model on

    Instances of what the configuration takes from elsewhere, the witnesses of its
    theorems, and the unit tests of [soliton/config.rs] that the model can run. *)
From Stdlib Require Import ZArith Lia SpecFloat String Ascii.
From stdpp Require Import base list numbers gmap strings pretty.
From S2P Require Import Prelude Float ConfigPools ConfigDb Config ConfigChange ConfigLaws.
#[local] Open Scope Z_scope.

(** ** Instances *)

#[export] Instance sample_units : SizeUnits := {|
  MIB := 2 ^ 20; GIB := 2 ^ 30; size_kb n := n * 2 ^ 10; size_mb n := n * 2 ^ 20; size_gb n := n * 2 ^ 30; as_mb n := n / 2 ^ 20 |}.
#[export] Instance sample_units_laws : SizeUnitsLaws.
Proof. by split. Qed.

(** Eight cores and 16 GB. *)
#[export] Instance sample_quota : SysQuota := {| cpu_cores_quota := f64_of_Z 8; memory_limit_in_bytes := 2 ^ 34 |}.

(** Durations in milliseconds. *)
#[export] Instance sample_durations : DurationUnits := {|
  dur_millis n := n; dur_secs n := n * 1000; dur_minutes n := n * 60000; dur_hours n := n * 3600000;
  as_secs n := n / 1000; as_millis n := n |}.

#[export] Instance sample_engine : EngineTypes := {|
  Compression := nat; C_No := 0%nat; C_Lz4 := 1%nat; C_Zstd := 2%nat; C_Disable := 3%nat;
  Priority := nat; P_MinOverlappingRatio := 0%nat; P_ByCompensatedSize := 1%nat;
  Style := nat; S_Level := 0%nat; LogLevel := nat; L_Info := 0%nat; RecoveryMode := nat; R_PointInTime := 0%nat;
  RateLimiterMode := nat; M_WriteOnly := 0%nat; FoundationNs := unit; fns_default := tt; Cache := unit; Provider := unit;
  DEFAULT_PROP_SIZE_INDEX_DISTANCE := 4194304; DEFAULT_PROP_CAUSET_KEYS_INDEX_DISTANCE := 40960;
  region_violetabft_prefix_len := 11; guard_factory _ _ _ := true; engine_takes _ := true |}.

#[export] Instance sample_sections : Sections := {|
  Format := bool; Rest := unit; format_text := false;
  default_server := mkServer 10000000000 None None None;
  default_storage := mkStorage "data" false (mkBlockCache true None);
  default_raft_store := mkRaftStore EmptyString (144 * 2 ^ 20) (96 * 2 ^ 20) 0 true;
  default_cop := mkCop (144 * 2 ^ 20) (96 * 2 ^ 20);
  default_raft_engine := mkRaftEngine false EmptyString; default_rest := tt; DEFAULT_DATA_DIR := "./";
  storage_validate s := (s, inr tt); heartbeat_interval _ := 2000000000;
  canonicalize_path p := inr p; canonicalize_sub_path d p := inr (path_join d p) |}.
#[export] Instance sample_storage_laws : StorageLaws.
Proof. split; cbn; congruence. Qed.

(** A family, the two databases and a whole configuration. *)
Definition sample_family (block : Z) : NamespacedConfig := {|
  nc_block_size := block; nc_block_cache_size := 2 ^ 30; nc_disable_block_cache := false; nc_cache_index_and_filter_blocks := true;
  nc_pin_l0_filter_and_index_blocks := true; nc_use_bloom_filter := true; nc_optimize_filters_for_hits := true;
  nc_whole_soliton_id_filtering := true; nc_bloom_filter_bits_per_soliton_id := 10; nc_block_based_bloom_filter := false;
  nc_read_amp_bytes_per_bit := 0; nc_compression_per_l_naught := replicate 7 C_No; nc_write_buffer_size := size_mb 128;
  nc_max_write_buffer_number := 5; nc_min_write_buffer_number_to_merge := 1; nc_max_bytes_for_l_naught_base := size_mb 512;
  nc_target_file_size_base := size_mb 16; nc_l_naught0_file_num_jet_bundle_trigger := 4; nc_l_naught0_slowdown_writes_trigger := 20;
  nc_l_naught0_stop_writes_trigger := 36; nc_max_jet_bundle_bytes := size_gb 2; nc_jet_bundle_pri := P_MinOverlappingRatio;
  nc_dynamic_l_naught_bytes := true; nc_num_l_naughts := 7; nc_max_bytes_for_l_naught_multiplier := 10; nc_jet_bundle_style := S_Level;
  nc_disable_auto_jet_bundles := false; nc_disable_write_stall := false; nc_soft_pending_jet_bundle_bytes_limit := size_gb 192;
  nc_hard_pending_jet_bundle_bytes_limit := size_gb 256; nc_force_consistency_checks := false; nc_prop_size_index_distance := 1;
  nc_prop_soliton_ids_index_distance := 1; nc_enable_doubly_skiplist := true; nc_enable_jet_bundle_guard := true;
  nc_jet_bundle_guard_min_output_file_size := size_mb 4; nc_jet_bundle_guard_max_output_file_size := size_mb 64;
  nc_bottommost_l_naught_compression := C_Zstd; nc_bottommost_zstd_compression_dict_size := 0;
  nc_bottommost_zstd_compression_sample_size := 0; nc_FoundationDB := tt |}.

Definition sample_db (block : Z) (unordered : bool) : DbConfig := {|
  db_info_log_l_naught := L_Info; db_wal_recovery_mode := R_PointInTime; db_wal_dir := EmptyString; db_wal_ttl_seconds := 0;
  db_wal_size_limit := 0; db_max_total_wal_size := size_gb 4; db_max_background_jobs := 7; db_max_background_flushes := 2;
  db_max_manifest_file_size := size_mb 128; db_create_if_missing := true; db_max_open_files := 40960; db_enable_statistics := true;
  db_stats_dump_period := dur_minutes 10; db_jet_bundle_readahead_size := 0; db_info_log_max_size := size_gb 1;
  db_info_log_roll_time := 0; db_info_log_keep_log_file_num := 10; db_info_log_dir := EmptyString; db_rate_bytes_per_sec := size_gb 10;
  db_rate_limiter_refill_period := dur_millis 100; db_rate_limiter_mode := M_WriteOnly; db_auto_tuned := Some true;
  db_rate_limiter_auto_tuned := true; db_bytes_per_sync := size_mb 1; db_wal_bytes_per_sync := size_kb 512; db_max_sub_jet_bundles := 3;
  db_writable_file_max_buffer_size := size_mb 1; db_use_direct_io_for_flush_and_jet_bundle := false; db_enable_pipelined_write := false;
  db_enable_multi_alexandrov_poset_process_write := false; db_enable_unordered_write := unordered;
  db_defaultnamespaced := sample_family block; db_writenamespaced := sample_family block; db_locknamespaced := sample_family block;
  db_violetabftnamespaced := sample_family block; db_FoundationDB := mkFoundationDb false EmptyString false 4 (dur_secs 10) |}.

Definition sample_raft : VioletaBFTDbConfig := {|
  rdb_wal_recovery_mode := R_PointInTime; rdb_wal_dir := EmptyString; rdb_wal_ttl_seconds := 0; rdb_wal_size_limit := 0;
  rdb_max_total_wal_size := size_gb 4; rdb_max_background_jobs := 4; rdb_max_background_flushes := 1; rdb_max_manifest_file_size := size_mb 20;
  rdb_create_if_missing := true; rdb_max_open_files := 40960; rdb_enable_statistics := true; rdb_stats_dump_period := 0;
  rdb_jet_bundle_readahead_size := 0; rdb_info_log_max_size := size_gb 1; rdb_info_log_roll_time := 0; rdb_info_log_keep_log_file_num := 10;
  rdb_info_log_dir := EmptyString; rdb_info_log_l_naught := L_Info; rdb_max_sub_jet_bundles := 2; rdb_writable_file_max_buffer_size := size_mb 1;
  rdb_use_direct_io_for_flush_and_jet_bundle := false; rdb_enable_pipelined_write := true; rdb_enable_unordered_write := false;
  rdb_allow_concurrent_memtable_write := true; rdb_bytes_per_sync := size_mb 1; rdb_wal_bytes_per_sync := size_kb 512;
  rdb_defaultnamespaced := sample_family (size_kb 64); rdb_FoundationDB := mkFoundationDb false EmptyString false 4 (dur_secs 10) |}.

(** With settings that moved: a region size, the end point's threads, a large backup file. *)
Definition sample_config (db : DbConfig) : EinsteinDbConfig := {|
  cf_path := EmptyString; cf_log_l_naught := L_Info; cf_log_file := EmptyString; cf_log_format := format_text;
  cf_log_rotation_timespan := 0; cf_log_rotation_size := size_mb 300; cf_slow_log_file := EmptyString; cf_slow_log_threshold := dur_secs 1;
  cf_panic_when_unexpected := false; cf_enable_io_snoop := true; cf_abort_on_panic := false; cf_memory_usage_limit := None;
  cf_memory_usage_high_water := f64_lit 9 10; cf_log := default_log; cf_readpool := default_readpools;
  cf_server := mkServer 10000000000 (Some 5) None (Some 3); cf_storage := default_storage; cf_metric := default_metric;
  cf_raft_store := mkRaftStore EmptyString (200 * 2 ^ 20) (96 * 2 ^ 20) 0 true; cf_cop := default_cop; cf_db := db;
  cf_raftdb := sample_raft; cf_raft_engine := default_raft_engine;
  cf_backup := with_sst (size_gb 1) (default_backup (cop_region_max_size default_cop) dur_secs); cf_soliton := default_cdc dur_secs;
  cf_resolved_ts := default_resolved dur_secs; cf_rest := tt |}.

Definition sample : EinsteinDbConfig := sample_config (sample_db (size_kb 64) true).

(** What adjusting and validating make of it. *)
Definition adjusted_sample : EinsteinDbConfig := match compatible_adjust sample with Ret c => c | Panic => sample end.
Definition started_sample : EinsteinDbConfig :=
  match validate_config adjusted_sample with Ret (c, _) => c | Panic => sample end.

(** ** Witnesses *)

Lemma sample_region : is_u64 (cop_region_max_size default_cop * 2).
Proof. vm_compute. split; discriminate. Qed.

Lemma family_options_exact_witness :
  (∃ l, build_namespaced_opt (sample_family (size_kb 64)) NS_default None (Some tt) = Ret l
     ∧ last_call "set_target_file_size_base" l = Some [AZ (size_mb 64)])
  ∧ match build_namespaced_opt (sample_family (size_kb 64)) NS_default None (Some tt) with
    | Panic => False
    | Ret l => levels_ok (sample_family (size_kb 64)) ∧ guard_ok (sample_family (size_kb 64)) NS_default (Some tt)
    end.
Proof.
  pose proof (family_options_exact (sample_family (size_kb 64)) NS_default None (Some tt) ltac:(by vm_compute) ltac:(by vm_compute)) as [H _].
  destruct (build_namespaced_opt _ _ _ _) as [l|] eqn:E.
  - destruct H as (H1 & H2 & H3 & _). split; [exists l; split; [done|exact H3]|done].
  - by vm_compute in E.
Defined.

Lemma databases_exact_witness : validate_db (sample_db (size_kb 64) true) = Ret (inr tt)
  ∧ ∃ l, build_db_opt (sample_db (size_kb 64) true) = Ret l ∧ last_call "enable_unordered_write" l = Some [AB true].
Proof.
  pose proof (databases_exact (sample_db (size_kb 64) true) sample_raft) as (H1 & _ & H3 & _).
  assert (validate_db (sample_db (size_kb 64) true) = Ret (inr tt)) as Hv by (by vm_compute). split; [done|].
  destruct (H3 Hv ltac:(by vm_compute)) as (l & Hl & _). exists l. split; [done|]. vm_compute in Hl. injection Hl as <-. by vm_compute.
Defined.

Lemma compatible_adjust_exact_witness : compatible_adjust sample = Ret adjusted_sample
  ∧ cop_region_max_size (cf_cop adjusted_sample) = 200 * 2 ^ 20 ∧ bk_sst_max_size (cf_backup adjusted_sample) = 288 * 2 ^ 20
  ∧ compatible_adjust adjusted_sample = Ret adjusted_sample.
Proof.
  assert (compatible_adjust sample = Ret adjusted_sample) as Ha by (by vm_compute). split; [exact Ha|].
  pose proof (proj2 (compatible_adjust_exact sample sample_region) _ Ha) as H.
  split; [by vm_compute|]. split; [by vm_compute|]. destruct H as (_ & _ & _ & _ & _ & _ & _ & _ & _ & _ & Hi & _). exact Hi.
Defined.

Lemma check_critical_exact_witness : validate_config adjusted_sample = Ret (started_sample, inr tt)
  ∧ check_critical_config started_sample (Some started_sample) = Ret (inr tt)
  ∧ check_critical_with sample (sample_config (sample_db (size_kb 32) false)) = inr tt.
Proof.
  assert (compatible_adjust sample = Ret adjusted_sample) as Ha by (by vm_compute).
  assert (validate_config adjusted_sample = Ret (started_sample, inr tt)) as Hv by (by vm_compute). split; [exact Hv|].
  destruct (check_critical_exact sample (sample_config (sample_db (size_kb 32) false))) as (H1 & _ & _ & H4).
  split; [exact (H4 _ _ _ sample_region Ha Hv)|]. apply H1.
  split; [vm_compute; reflexivity|vm_compute; reflexivity|left; vm_compute; reflexivity|intros _; vm_compute; reflexivity|
    intros _; vm_compute; reflexivity|vm_compute; reflexivity].
Defined.

(** ** Online changes: leaves are a kind, a number and a text *)

#[export] Instance sample_leaves : ConfigLeaves := {|
  leaf := LeafKind * Z * string;
  leaf_kind l := l.1.1;
  leaf_parse k s := match k, s with
    | K_Size, "100MB" => Some (K_Size, 104857600, s) | K_I32, "8" => Some (K_I32, 8, s) | K_U64, "10000" => Some (K_U64, 10000, s)
    | _, _ => None end%string;
  leaf_of_string s := (K_String, 0, s);
  leaf_seconds l := l.1.2; leaf_bytes l := l.1.2; leaf_option_bytes l := Some l.1.2; leaf_i32 l := l.1.2;
  leaf_bool l := negb (l.1.2 =? 0); leaf_display l := l.2; skip_display := EmptyString |}.
#[export] Instance sample_leaves_laws : ConfigLeavesLaws.
Proof.
  split; [|done]. intros k s v. cbn. destruct k; try done.
  all: repeat (first [destruct s as [|a s]; [done|]; destruct a as [[] [] [] [] [] [] [] []]; try done | idtac]).
  all: destruct s; try done; by intros [= <-].
Qed.

#[export] Instance sample_iter : HashIter := {| iter_map _ m := map_to_list m; iter_map_perm _ m := reflexivity _ |}.

Definition a_leaf (k : LeafKind) : ConfigValue := CV_Leaf (k, 0, EmptyString).

(** Part of the typed configuration. *)
Definition sample_typed : ConfigChange := list_to_map [
  ("gc", CV_Module (list_to_map [("max_write_bytes_per_sec", a_leaf K_Size); ("batch_keys", CV_Skip)]));
  ("InterDagger", CV_Module {["region_split_soliton_ids" := a_leaf K_U64]});
  ("foundationdb", CV_Module (list_to_map [("max_background_jobs", a_leaf K_I32);
     ("defaultnamespaced", CV_Module {["block_cache_size" := a_leaf K_Size]})])) ]%string.

(** [test_to_config_change], [test_to_toml_encode] on what this part has.  The key of the raft store
    that the second test looks up is not the one that is written. *)
Example config_change_tests :
  match to_config_change sample_typed [("InterDagger.region-split-soliton_ids", "10000"); ("gc.max-write-bytes-per-sec", "100MB");
      ("foundationdb.defaultnamespaced.block-cache-size", "100MB")]%string with
  | Ret (inr r) => tleaf r ["InterDagger"; "region_split_soliton_ids"]%string = Some (K_U64, 10000, "10000"%string)
      ∧ tleaf r ["gc"; "max_write_bytes_per_sec"]%string = Some (K_Size, 104857600, "100MB"%string)
      ∧ tleaf r ["foundationdb"; "max_background_jobs"]%string = None
  | _ => False
  end
  ∧ Forall (λ n, match to_config_change sample_typed [n] with Ret (inl _) => True | _ => False end)
      [("gc.max-write-bytes-per-sec", "10s"); ("xxx.yyy", "12"); ("foundationdb.defaultnamespaced.block-cache-size.xxx", "50MB");
       ("foundationdb.xxx.block-cache-size", "50MB"); ("foundationdb.block-cache-size", "50MB"); ("gc.batch-keys", "1")]%string
  ∧ to_toml_encode sample_typed [("gc.max-write-bytes-per-sec", "100MB"); ("InterDagger.region-split-soliton_ids", "10000")]%string
    = inr (list_to_map [("gc.max-write-bytes-per-sec", quoted "100MB"); ("InterDagger.region-split-soliton-ids", "10000")]%string)
  ∧ serde_to_online_config "violetabfttimelike_store.apply_pool_size"
    = "violetabft_timelike_store.apply_alexandrov_poset_process_system.pool_size"%string
  ∧ replace_char "_" "-" "violetabfttimelike_store.apply_pool_size" = "violetabfttimelike-store.apply-pool-size"%string
  ∧ to_config_change sample_typed [("gc", "x")]%string = Ret (inr {["gc" := CV_Module ∅]})
  ∧ to_toml_encode sample_typed [("gc", "x")]%string = inl NoField.
Proof.
  split; [by vm_compute|]. split; [repeat constructor|]. split; [|by vm_compute]. vm_compute. reflexivity.
Qed.

Lemma to_config_change_exact_witness : ∃ r,
  to_config_change sample_typed [("gc.max-write-bytes-per-sec", "100MB"); ("foundationdb.max-background-jobs", "8")]%string = Ret (inr r)
  ∧ conforms r sample_typed ∧ tleaf r ["gc"; "max_write_bytes_per_sec"]%string = Some (K_Size, 104857600, "100MB"%string).
Proof.
  pose proof (to_config_change_exact sample_typed
    [("gc.max-write-bytes-per-sec", "100MB"); ("foundationdb.max-background-jobs", "8")]%string) as [H _].
  assert (effects sample_typed [("gc.max-write-bytes-per-sec", "100MB"); ("foundationdb.max-background-jobs", "8")]%string
    = Ret (inr [(["gc"; "max_write_bytes_per_sec"], (K_Size, 104857600, "100MB")); (["foundationdb"; "max_background_jobs"], (K_I32, 8, "8"))]%string))
    as E by (by vm_compute).
  rewrite E in H. destruct H as (r & Hr & Hc & Hl). exists r. split; [exact Hr|]. split; [exact Hc|]. rewrite Hl. by vm_compute.
Defined.

(** ** A controller with two managers: the one of the databases takes changes, the one of the collector refuses them *)

#[export] Instance sample_host : Host := {|
  Mgr := nat * bool;
  mgr_dispatch m _ := ((S m.1, m.2), if m.2 then inr tt else inl NotChangeable);
  cfg_fidelate c ch := with_memory_limit (Some (Z.of_nat (size ch))) c;
  cfg_diff _ _ := ∅; cfg_typed := sample_typed;
  Files := list (string * string);
  from_file _ _ := inl (External 1);
  file_exists fs p := existsb (λ f, String.eqb f.1 p) fs;
  file_read fs p := match find (λ f, String.eqb f.1 p) fs with Some f => inr f.2 | None => inl (External 2) end;
  file_write fs p t := ((p, t) :: fs, inr tt);
  file_rename fs p q := (map (λ f, if String.eqb f.1 p then (q, f.2) else f) fs, inr tt);
  path_parent p := Some "data"%string;
  toml_writer _ m := match map_to_list m with (k, v) :: _ => (k +:+ " = " +:+ v)%string | [] => EmptyString end |}.

Definition sample_controller : ConfigController :=
  register (register (mkController started_sample [] []) MN_Gc (0%nat, false)) MN_Fdbdb (0%nat, true).

(** A change of the database reaches its manager and the file; one of the collector is refused. *)
Example controller_runs :
  match fidelate_config sample_controller "foundationdb.max-background-jobs" "8" with
  | Ret (c, v) => v = inr tt ∧ mgr_get (ct_mgrs c) MN_Fdbdb = Some (1%nat, true) ∧ mgr_get (ct_mgrs c) MN_Gc = Some (0%nat, false)
      ∧ ct_files c = [("data/last_einsteindb.toml", "foundationdb.max-background-jobs = 8")]%string
      ∧ cf_memory_usage_limit (ct_current c) = Some 1
  | Panic => False
  end
  ∧ match fidelate_config sample_controller "gc.max-write-bytes-per-sec" "100MB" with
    | Ret (c, v) => v = inl NotChangeable ∧ mgr_get (ct_mgrs c) MN_Gc = Some (1%nat, false) ∧ ct_files c = []
    | Panic => False
    end.
Proof. vm_compute. split_and!; reflexivity. Qed.

Definition sample_diff : ConfigChange := {["foundationdb" := CV_Module {["max_background_jobs" := CV_Leaf (K_I32, 8, "8"%string)]}]}.
Definition after_sample : ConfigController :=
  match fidelate_impl sample_controller sample_diff None with Ret (c, _) => c | Panic => sample_controller end.

Lemma fidelate_exact_witness : fidelate_impl sample_controller sample_diff None = Ret (after_sample, inr tt)
  ∧ ∃ pre post, iter_map sample_diff = pre ++ post
      ∧ ct_current after_sample = cfg_fidelate (ct_current sample_controller) (list_to_map pre).
Proof.
  assert (fidelate_impl sample_controller sample_diff None = Ret (after_sample, inr tt)) as H.
  { assert ((snd <$> fidelate_impl sample_controller sample_diff None) = Ret (inr tt)) as Hv by (vm_compute; reflexivity).
    unfold after_sample. destruct (fidelate_impl sample_controller sample_diff None) as [ [c v]|]; [|discriminate Hv].
    injection Hv as ->. exact eq_refl. }
  split; [exact H|]. generalize (fidelate_exact sample_controller sample_diff None after_sample (inr tt) H).
  generalize (validate_config (cfg_fidelate (ct_current sample_controller) sample_diff)). generalize after_sample. clear H.
  intros c o [(x & e & _ & _ & E)|(x & pre & post & _ & E & Ec & _)]; [discriminate E|].
  exists pre, post. split; [exact E|exact Ec].
Defined.

(** ** Unit tests of the repository *)

Example test_background_job_limits :
  map (λ n, get_background_job_limits_impl n SOLITON_DEFAULT_BACKGROUND_JOB_LIMITS) [1; 2; 4; 8; 16]
  = [Ret (mkLimits 2 1 1 1); Ret (mkLimits 2 1 1 2); Ret (mkLimits 3 1 1 4); Ret (mkLimits 7 2 3 4); Ret SOLITON_DEFAULT_BACKGROUND_JOB_LIMITS]
  ∧ map (λ n, get_background_job_limits_impl n VIOLETABFT_DEFAULT_BACKGROUND_JOB_LIMITS) [1; 2; 4; 8; 16]
  = [Ret (mkLimits 2 1 1 1); Ret (mkLimits 2 1 1 2); Ret (mkLimits 3 1 1 4); Ret VIOLETABFT_DEFAULT_BACKGROUND_JOB_LIMITS;
     Ret VIOLETABFT_DEFAULT_BACKGROUND_JOB_LIMITS].
Proof. split; vm_compute; reflexivity. Qed.

(** [test_unified_disabled], [test_unified_enabled], [test_is_unified], [test_partially_unified] *)
Definition storage_with (u : option bool) (low : Z) : ReadPool :=
  let d := default_storage_pool in
  mkPool u (high_concurrency d) (normal_concurrency d) low (max_tasks_per_worker_high d) (max_tasks_per_worker_normal d)
    (max_tasks_per_worker_low d) (stack_size d).
Definition copr_with (u : option bool) (low : Z) : ReadPool :=
  let d := default_copr_pool in
  mkPool u (high_concurrency d) (normal_concurrency d) low (max_tasks_per_worker_high d) (max_tasks_per_worker_normal d)
    (max_tasks_per_worker_low d) (stack_size d).
Definition accepted (c : ReadPoolConfig) : bool := match validate_readpools c with inr _ => true | inl _ => false end.

Example readpool_tests :
  let off := mkUnified 0 0 0 0 in
  accepted (mkReadPools off (storage_with (Some false) 4) (copr_with (Some false) 6)) = true
  ∧ accepted (mkReadPools default_unified (storage_with (Some false) 0) (copr_with (Some false) 6)) = false
  ∧ accepted (adjust_use_unified_pool (mkReadPools off (storage_with (Some true) 4) default_copr_pool)) = false
  ∧ is_unified_pool_enabled (mkReadPools default_unified (storage_with (Some false) 4) default_copr_pool) = true
  ∧ accepted (mkReadPools default_unified (storage_with (Some false) 0) (copr_with (Some true) 6)) = false
  ∧ accepted (mkReadPools default_unified (storage_with (Some false) 1) (copr_with (Some true) 6)) = true
  ∧ accepted (mkReadPools default_unified (storage_with (Some true) 4) (copr_with (Some false) 0)) = false
  ∧ accepted default_readpools = true.
Proof. vm_compute. split_and!; reflexivity. Qed.

(** [test_block_size] expects blocks of 10 GB to be refused: the database's own check refuses them, the
    whole configuration's does not.  The default directory of the data is refused, and so are
    the absolute ones the other tests use. *)
Example test_block_size :
  validate_db (sample_db (size_gb 10) true) = Ret (inl BlockSizeTooLarge)
  ∧ (snd <$> validate_config (sample_config (sample_db (size_gb 10) true))) = Ret (inr tt)
  ∧ validate_data_dir DEFAULT_DATA_DIR = inl DataDirSlash ∧ validate_data_dir "/tmp/data" = inl DataDirAbsolute.
Proof. vm_compute. split_and!; reflexivity. Qed.
