(* ===== verification/Literals.v ===== *)
(** * Literals: binary literals

    [berolinasql/src/binary_literal.rs].  A literal is a string of bytes; the struct declares eight of
    them, and most operations make or read as many as there are.  Texts are lists of bytes
    in UTF-8; [from_str_radix] is the standard library's. *)
From Stdlib Require Import ZArith Lia.
From stdpp Require Import base list numbers.
From S2P Require Import Prelude EvalCtx Slice Order.
#[local] Open Scope Z_scope.

#[local] Notation bytes := (list Z).
#[local] Notation zlen l := (Z.of_nat (length l)).

(** ** Numbers in a text *)

Definition radix_digit (radix c : Z) : option Z :=
  let d := if (48 <=? c) && (c <=? 57) then c - 48
           else if (97 <=? c) && (c <=? 122) then c - 87
           else if (65 <=? c) && (c <=? 90) then c - 55 else radix in
  if d <? radix then Some d else None.

(** [from_str_radix] of an unsigned type: one leading plus is allowed. *)
Fixpoint radix_digits (radix hi v : Z) (s : bytes) : result Z :=
  match s with
  | [] => Ok v
  | c :: s =>
      match radix_digit radix c with
      | None => Err Other
      | Some d => if v * radix + d <=? hi then radix_digits radix hi (v * radix + d) s else Err Other
      end
  end.
Definition from_str_radix (radix hi : Z) (s : bytes) : result Z :=
  match s with
  | [] => Err Other
  | 43 :: [] => Err Other
  | 43 :: s => radix_digits radix hi 0 s
  | s => radix_digits radix hi 0 s
  end.

(** ** Binary literals *)

Definition BinaryLiteral : Type := bytes.

Fixpoint trim_leading_zero_bytes (b : bytes) : bytes :=
  match b with 0 :: b => trim_leading_zero_bytes b | _ => b end.

(** The free function: sums the shifted bytes, from the last one on. *)
Fixpoint sum_bytes (l : bytes) (i result : Z) : outcome Z :=
  match l with
  | [] => Ret result
  | byte :: l =>
      _ ← guardM (i * 8 <? 64);
      result ← u64 (result + as_u64 (Z.shiftl byte (i * 8)));
      sum_bytes l (i + 1) result
  end.
Definition to_uint (literal : BinaryLiteral) : outcome Z := sum_bytes (rev literal) 0 0.

Fixpoint fill_bytes (fuel : nat) (val byte_size i : Z) (b : bytes) : outcome bytes :=
  match fuel with
  | O => Ret b
  | S fuel =>
      if (i <? byte_size) && (i <? 8) then
        b ← set b i (as_u8 (Z.shiftr val (i * 8)));
        fill_bytes fuel val byte_size (i + 1) b
      else Ret b
  end.
Definition from_u64 (val byte_size : Z) : outcome BinaryLiteral :=
  b ← fill_bytes 9 val byte_size 0 (replicate 8 0);
  Ret (if byte_size =? -1 then trim_leading_zero_bytes b else b).

Definition hex_digit (c : Z) : option Z := radix_digit 16 c.
Fixpoint hex_loop (j i : Z) (s b : bytes) : outcome (result bytes) :=
  match s with
  | [] => Ret (Ok b)
  | c :: s =>
      if 8 <=? j then Ret (Err Other) else
      match hex_digit c with
      | None => Ret (Err Other)
      | Some val => b ← set b i (as_u8 (Z.shiftl val 4)); hex_loop (j + 1) (i + 1) s b
      end
  end.
Definition from_hex_str (s : bytes) : outcome (result BinaryLiteral) := hex_loop 0 0 s (replicate 8 0).

(** [trim_start_matches] and [trim_end_matches] of a character, and of the two of a prefix. *)
Fixpoint trim_start_char (c : Z) (s : bytes) : bytes :=
  match s with x :: s' => if x =? c then trim_start_char c s' else s | [] => [] end.
Definition trim_end_char (c : Z) (s : bytes) : bytes := rev (trim_start_char c (rev s)).
Fixpoint trim_start_two (a b : Z) (s : bytes) : bytes :=
  match s with
  | x :: (y :: s') as t => if (x =? a) && (y =? b) then trim_start_two a b s' else x :: t
  | _ => s
  end.

(** Slicing a text panics inside a character. *)
Definition is_char_boundary (s : bytes) (i : Z) : bool :=
  (i =? zlen s) || match s !! Z.to_nat i with Some b => negb ((128 <=? b) && (b <=? 191)) | None => false end.
Definition str_slice (s : bytes) (a b : Z) : outcome bytes :=
  _ ← guardM (is_char_boundary s a && is_char_boundary s b);
  slice s a b.

Definition DIGIT_0 : Z := 48.
Definition APOSTROPHE : Z := 39.

(** The groups of eight digits, [i] of [len] read. *)
Fixpoint bit_groups (n : nat) (substr : bytes) (i : Z) (buf : bytes) : outcome (result bytes) :=
  match n with
  | O => Ret (Ok buf)
  | S n =>
      let pos := Z.shiftl i 3 in
      g ← str_slice substr pos (pos + 8);
      match from_str_radix 2 U64_MAX g with
      | Err e => Ret (Err e)
      | Ok val => bit_groups n substr (i + 1) (buf ++ [as_u8 val])
      end
  end.

Definition bit_body (trimed : bytes) : outcome (result BinaryLiteral) :=
  match trimed with
  | [] => Ret (Ok [])
  | _ =>
      let aligned_len := Z.land (zlen trimed + 7) (Z.lnot 7) in
      let padding_str := replicate 8 DIGIT_0 ++ trimed in
      let start := zlen trimed + 8 - aligned_len in
      substr ← str_slice padding_str start (zlen padding_str);
      let len := Z.shiftr (zlen substr) 3 in
      bit_groups (Z.to_nat len) substr 0 []
  end.

(** [b] is 98, [B] 66. *)
Definition from_bit_str (s : bytes) : outcome (result BinaryLiteral) :=
  match s with
  | [] => Ret (Err Other)
  | c :: s' =>
      if (c =? 98) || (c =? 66) then bit_body (trim_end_char APOSTROPHE (trim_start_char APOSTROPHE s'))
      else match s with
           | 48 :: 98 :: _ => bit_body (trim_start_two 48 98 s)
           | _ => Ret (Err Other)
           end
  end.

(** [{:08b}] *)
Definition bits_of (b : Z) : bytes := map (λ i, DIGIT_0 + (if Z.testbit b i then 1 else 0)) [7; 6; 5; 4; 3; 2; 1; 0].

Definition to_bit_string (l : BinaryLiteral) (trim_zero : bool) : bytes :=
  match l with
  | [] => [98; APOSTROPHE; APOSTROPHE]
  | _ =>
      let s := concat (map bits_of l) in
      if trim_zero then
        match trim_start_char DIGIT_0 s with
        | [] => [98; APOSTROPHE; DIGIT_0; APOSTROPHE]
        | trimed => [98; APOSTROPHE] ++ trimed ++ [APOSTROPHE]
        end
      else [98; APOSTROPHE] ++ s ++ [APOSTROPHE]
  end.

(** The method of the same name: [checked_shl] fails for a shift of the width or more. *)
Definition checked_shl (x n : Z) : option Z := if n <? 64 then Some (as_u64 (Z.shiftl x n)) else None.
Fixpoint lit_to_uint_loop (l : bytes) (ret : Z) : result Z :=
  match l with
  | [] => Ok ret
  | b :: l =>
      match checked_shl ret 8 ≫= λ ret, checked 0 U64_MAX (ret + b) with
      | None => Err over_causetxctx
      | Some ret => lit_to_uint_loop l ret
      end
  end.
Definition lit_to_uint (l : BinaryLiteral) : result Z := lit_to_uint_loop l 0.

Definition hex_of (b : Z) : bytes :=
  map (λ d, if d <? 10 then d + 48 else d + 87) [Z.shiftr b 4; Z.land b 15].
Definition lit_to_string (l : BinaryLiteral) : bytes :=
  match l with [] => [] | _ => [48; 120] ++ concat (map hex_of l) end.

Definition lit_eq (l r : BinaryLiteral) : bool := bytes_eqb l r.
Definition lit_cmp (l r : BinaryLiteral) : comparison :=
  let l := trim_leading_zero_bytes l in
  let r := trim_leading_zero_bytes r in
  if zlen r <? zlen l then Gt else if zlen l <? zlen r then Lt else bytes_cmp l r.

(** The tables of the repository's tests: bit strings, and what is written of a literal. *)
Definition bits (s : list Z) : bytes := map (λ d, DIGIT_0 + d) s.
Example bit_tests :
  from_bit_str [] = Ret (Err Other) ∧ from_bit_str [98; 39; 39] = Ret (Ok []) ∧ from_bit_str ([48; 66] ++ bits [0]) = Ret (Err Other)
  ∧ from_bit_str ([48; 98] ++ bits [1; 2; 3]) = Ret (Err Other) ∧ from_bit_str [48; 98; 39; 39] = Ret (Err Other)
  ∧ from_bit_str ([66; 39] ++ bits [0; 0; 0; 0; 0; 0; 0; 0; 0] ++ [39]) = Ret (Ok [0; 0])
  ∧ from_bit_str ([48; 98] ++ bits [1; 1; 1; 1; 1; 1; 1; 1; 1]) = Ret (Ok [1; 255])
  ∧ to_bit_string [0] true = [98; 39] ++ bits [0] ++ [39] ∧ to_bit_string [0; 255; 1] true = [98; 39] ++ bits [1;1;1;1;1;1;1;1;0;0;0;0;0;0;0;1] ++ [39]
  ∧ lit_to_uint [16; 255] = Ok 0x10ff ∧ lit_to_string [255; 1] = [48; 120; 102; 102; 48; 49]
  ∧ lit_cmp [0; 0; 1] [2] = Lt ∧ lit_cmp [0; 1] [1] = Eq ∧ lit_cmp [0; 2; 1] [1; 2] = Gt.
Proof. split_and!; reflexivity. Qed.

(** A plus sign counts as a digit at the start of a group of eight; a character of two bytes across
    the end of a group panics; and numbers are written with their low byte first, if at all. *)
Example literal_quirks :
  from_bit_str ([98; 39; 43] ++ bits [1; 0; 1; 0; 1; 0; 1] ++ [39]) = Ret (Ok [85])
  ∧ from_bit_str ([98] ++ bits [1; 0; 1; 0; 1; 0; 1] ++ [195; 169] ++ bits [1; 1; 1; 1; 1; 1; 1]) = Panic
  ∧ from_u64 0x123 8 = Ret [0x23; 1; 0; 0; 0; 0; 0; 0] ∧ from_u64 0x123 (-1) = Ret []
  ∧ from_hex_str [49; 97] = Ret (Ok [16; 160; 0; 0; 0; 0; 0; 0]).
Proof. split_and!; reflexivity. Qed.

(** ** Values *)

(** The number that the bytes are, the first one on top. *)
Definition value (l : bytes) : Z := foldl (λ v b, v * 256 + b) 0 l.
Definition byte (b : Z) : Prop := 0 <= b < 256.

Lemma value_from l : ∀ v, foldl (λ v b, v * 256 + b) v l = v * 256 ^ zlen l + value l.
Proof.
  unfold value. induction l as [|b l IH]; intros v; cbn [foldl length]; [change (256 ^ Z.of_nat 0) with 1; lia|].
  rewrite IH, (IH (0 * 256 + b)), Nat2Z.inj_succ, Z.pow_succ_r by lia. lia.
Qed.
Lemma value_cons b l : value (b :: l) = b * 256 ^ zlen l + value l.
Proof. unfold value at 1. cbn [foldl]. by rewrite value_from. Qed.
Lemma value_bound l : Forall byte l → 0 <= value l < 256 ^ zlen l.
Proof.
  induction 1 as [|b l Hb _ IH]; [done|]. rewrite value_cons. cbn [length]. rewrite Nat2Z.inj_succ, Z.pow_succ_r by lia.
  unfold byte in Hb. nia.
Qed.

Lemma to_uint_loop_spec l : Forall byte l → ∀ ret v, 0 <= ret <= U64_MAX → ret = v mod 2 ^ 64 →
  lit_to_uint_loop l ret = Ok ((foldl (λ v b, v * 256 + b) v l) mod 2 ^ 64).
Proof.
  induction 1 as [|b l Hb _ IH]; intros ret v Hr Hv; cbn [lit_to_uint_loop foldl]; [by rewrite Hv|].
  unfold checked_shl, as_u64. rewrite Z.shiftl_mul_pow2 by lia. change (8 <? 64) with true. cbn [mbind option_bind]. unfold byte in Hb. unfold U64_MAX in *.
  change 18446744073709551616 with (2 ^ 64). change (2 ^ 8) with 256.
  assert ((ret * 256) mod 2 ^ 64 = 256 * (ret mod 2 ^ 56)) as Hm.
  { rewrite Z.mul_comm. change (2 ^ 64) with (256 * 2 ^ 56). by rewrite Z.mul_mod_distr_l. }
  assert (0 <= ret mod 2 ^ 56 < 2 ^ 56) as Hlt by (apply Z.mod_pos_bound; lia).
  assert (checked 0 18446744073709551615 ((ret * 256) mod 2 ^ 64 + b) = Some ((v * 256 + b) mod 2 ^ 64)) as ->.
  { apply checked_Some. split; [|rewrite Hm; lia]. rewrite Hv, Z.mul_mod_idemp_l by lia.
    rewrite <- (Z.add_mod_idemp_l (v * 256)) by lia. apply Z.mod_small.
    replace ((v * 256) mod 2 ^ 64) with ((ret * 256) mod 2 ^ 64) by (by rewrite Hv, Z.mul_mod_idemp_l by lia). lia. }
  apply IH; [|done]. pose proof (Z.mod_pos_bound (v * 256 + b) (2 ^ 64)). lia.
Qed.

(** The integer of a literal is the number of its bytes, the first one on top, modulo 2^64: it
    is never an error, however many bytes there are. *)
Theorem to_uint_exact l : Forall byte l → lit_to_uint l = Ok (value l mod 2 ^ 64).
Proof. intros Hl. apply to_uint_loop_spec; [done|unfold U64_MAX; lia|done]. Qed.

Lemma trim_value l : value (trim_leading_zero_bytes l) = value l.
Proof. induction l as [|b l IH]; [done|]. destruct b; [|done..]. cbn [trim_leading_zero_bytes]. rewrite IH. by rewrite value_cons. Qed.
Lemma trim_bytes l : Forall byte l → Forall byte (trim_leading_zero_bytes l).
Proof. induction 1 as [|b l Hb Hl IH]; [done|]. destruct b; [done| |]; by constructor. Qed.
Lemma trim_head l : match trim_leading_zero_bytes l with [] => True | b :: _ => b ≠ 0 end.
Proof. induction l as [|b l IH]; [done|]. by destruct b. Qed.

(** Without a leading zero a longer literal is a larger number; of the same length the bytes decide. *)
Lemma value_longer l r : Forall byte l → Forall byte r → match l with [] => True | b :: _ => b ≠ 0 end → zlen r < zlen l → value r < value l.
Proof.
  intros Hl Hr Hh Hlt. destruct l as [|b l]; [cbn in Hlt; lia|]. inversion Hl as [|? ? Hb Hl']; subst. apply value_bound in Hr, Hl'.
  rewrite value_cons. cbn [length] in Hlt. unfold byte in Hb.
  assert (256 ^ zlen r <= 256 ^ zlen l) by (apply Z.pow_le_mono_r; lia). nia.
Qed.
Lemma value_bytes_cmp l : ∀ r, Forall byte l → Forall byte r → length l = length r → bytes_cmp l r = (value l ?= value r).
Proof.
  induction l as [|b l IH]; intros [|c r] Hl Hr Hlen; try done. cbn [bytes_cmp]. cbn [length] in Hlen.
  inversion Hl as [|? ? Hb Hl']; inversion Hr as [|? ? Hc Hr']; subst. rewrite !value_cons.
  pose proof (value_bound l Hl'). pose proof (value_bound r Hr'). replace (zlen r) with (zlen l) in * by lia. unfold byte in *.
  destruct (Z.compare_spec b c) as [->|H1|H1].
  - rewrite (IH r) by (done || lia). destruct (Z.compare_spec (value l) (value r)), (Z.compare_spec (c * 256 ^ zlen l + value l) (c * 256 ^ zlen l + value r)); lia || done.
  - symmetry. apply Z.compare_lt_iff. nia.
  - symmetry. apply Z.compare_gt_iff. nia.
Qed.

Lemma lit_cmp_value l r : Forall byte l → Forall byte r → lit_cmp l r = (value l ?= value r).
Proof.
  intros Hl Hr. unfold lit_cmp. rewrite <- (trim_value l), <- (trim_value r). pose proof (trim_bytes l Hl) as Hl'. pose proof (trim_bytes r Hr) as Hr'.
  pose proof (trim_head l) as Hhl. pose proof (trim_head r) as Hhr. revert Hl' Hr' Hhl Hhr.
  generalize (trim_leading_zero_bytes l) (trim_leading_zero_bytes r). intros l' r' Hl' Hr' Hhl Hhr.
  destruct (Z.ltb_spec (zlen r') (zlen l')) as [H1|H1].
  { symmetry. apply Z.compare_gt_iff. by apply value_longer. }
  destruct (Z.ltb_spec (zlen l') (zlen r')) as [H2|H2].
  { symmetry. apply Z.compare_lt_iff. by apply value_longer. }
  apply value_bytes_cmp; [done..|lia].
Qed.

(** Two literals compare as the numbers their bytes are; they can compare as equal and be different. *)
Theorem lit_cmp_exact l r : Forall byte l → Forall byte r →
  lit_cmp l r = (value l ?= value r) ∧ (lit_eq l r = true → lit_cmp l r = Eq) ∧ (lit_cmp l r = Eq → length l = length r → lit_eq l r = true).
Proof.
  intros Hl Hr. pose proof (lit_cmp_value l r Hl Hr) as H.
  split; [done|]. split.
  - unfold lit_eq. intros ->%bytes_eqb_eq. rewrite H. apply Z.compare_refl.
  - rewrite H. intros Hc Hlen. unfold lit_eq. apply bytes_eqb_eq. rewrite <- (value_bytes_cmp l r) in Hc by done. by apply bytes_cmp_eq.
Qed.

(** ** Bit strings *)

Definition ascii (b : Z) : Prop := 0 <= b < 128.

Lemma boundary_ascii s i : Forall ascii s → 0 <= i <= zlen s → is_char_boundary s i = true.
Proof.
  intros Hs Hi. unfold is_char_boundary. destruct (Z.eqb_spec i (zlen s)); [done|]. cbn [orb].
  destruct (lookup_lt_is_Some_2 s (Z.to_nat i)) as [b Hb]; [lia|]. rewrite Hb.
  eapply Forall_lookup_1 in Hb; [|done]. unfold ascii in Hb. cbn beta in Hb. destruct (Z.leb_spec 128 b); [lia|done].
Qed.
Lemma str_slice_ascii s a b : Forall ascii s → 0 <= a <= b → b <= zlen s →
  str_slice s a b = Ret (take (Z.to_nat (b - a)) (drop (Z.to_nat a) s)).
Proof.
  intros Hs Ha Hb. unfold str_slice, slice. rewrite !boundary_ascii by (done || lia). cbn [andb guardM mbind outcome_bind].
  rewrite (proj2 (Z.leb_le 0 a)), (proj2 (Z.leb_le a b)), (proj2 (Z.leb_le b _)) by lia. done.
Qed.

Lemma bits_of_byte b : byte b → from_str_radix 2 U64_MAX (bits_of b) = Ok b ∧ Forall (λ c, c = 48 ∨ c = 49) (bits_of b)
  ∧ length (bits_of b) = 8%nat ∧ (b ≠ 0 → trim_start_char DIGIT_0 (bits_of b) ≠ []
      ∧ ∃ p, (p < 8)%nat ∧ replicate p DIGIT_0 ++ trim_start_char DIGIT_0 (bits_of b) = bits_of b) ∧ (b = 0 → bits_of b = replicate 8 DIGIT_0).
Proof.
  intros Hb. set (P := λ b, match from_str_radix 2 U64_MAX (bits_of b) with Ok v => v =? b | Err _ => false end
    && forallb (λ c, (c =? 48) || (c =? 49)) (bits_of b)
    && ((b =? 0) || match trim_start_char DIGIT_0 (bits_of b) with [] => false | _ => true end
        && existsb (λ p, bytes_eqb (replicate p DIGIT_0 ++ trim_start_char DIGIT_0 (bits_of b)) (bits_of b)) (seq 0 8))).
  assert (P b = true) as H.
  { assert (forallb P (map Z.of_nat (seq 0 256)) = true) as Hall by (vm_compute; reflexivity). rewrite forallb_forall in Hall.
    apply Hall. apply in_map_iff. exists (Z.to_nat b). unfold byte in Hb. split; [lia|]. apply in_seq. lia. }
  unfold P in H. apply andb_true_iff in H as [ [H1 H2]%andb_true_iff H3]. split_and!.
  - destruct (from_str_radix _ _ _) as [v|]; [|done]. apply Z.eqb_eq in H1. by subst.
  - apply List.Forall_forall. intros c Hc. rewrite forallb_forall in H2. apply H2 in Hc. apply orb_true_iff in Hc as [?%Z.eqb_eq|?%Z.eqb_eq]; auto.
  - done.
  - intros Hz. apply orb_true_iff in H3 as [?%Z.eqb_eq|[H3 H4]%andb_true_iff]; [done|]. split; [by destruct (trim_start_char _ _)|].
    apply existsb_exists in H4 as (p & Hp%in_seq & H4%bytes_eqb_eq). exists p. split; [lia|done].
  - by intros ->.
Qed.

Lemma bits_all l : Forall byte l → Forall (λ c, c = 48 ∨ c = 49) (concat (map bits_of l)) ∧ length (concat (map bits_of l)) = (8 * length l)%nat.
Proof.
  induction 1 as [|b l Hb _ [IH1 IH2] ]; [done|]. cbn [map concat]. destruct (bits_of_byte b Hb) as (_ & H1 & H2 & _). split.
  - by apply Forall_app.
  - rewrite length_app, IH2, H2. cbn [length]. lia.
Qed.
Lemma digits_ascii s : Forall (λ c, c = 48 ∨ c = 49) s → Forall ascii s.
Proof. intros H. eapply Forall_impl; [|exact H]. unfold ascii. cbn. lia. Qed.

Lemma bit_groups_spec l : Forall byte l → ∀ pre i buf, Forall ascii pre → 0 <= i → zlen pre = 8 * i →
  bit_groups (length l) (pre ++ concat (map bits_of l)) i buf = Ret (Ok (buf ++ l)).
Proof.
  induction 1 as [|b l Hb Hl IH]; intros pre i buf Hpre Hi Hlen; cbn [length bit_groups map concat]; [by rewrite app_nil_r|].
  destruct (bits_of_byte b Hb) as (H1 & H2 & H3 & _). destruct (bits_all l Hl) as [H4 H5].
  rewrite Z.shiftl_mul_pow2 by lia. change (2 ^ 3) with 8.
  rewrite str_slice_ascii; [| |lia|].
  2:{ apply Forall_app. split; [done|]. apply Forall_app. split; by apply digits_ascii. }
  2:{ rewrite !length_app, H3. lia. }
  cbn [mbind outcome_bind]. replace (Z.to_nat (i * 8)) with (length pre) by lia. replace (Z.to_nat (i * 8 + 8 - i * 8)) with (length (bits_of b)) by lia.
  rewrite drop_app_length, take_app_length, H1. unfold byte in Hb.
  rewrite app_assoc, IH; [|apply Forall_app; split; [done|by apply digits_ascii]|lia|rewrite length_app, H3; lia].
  unfold as_u8. rewrite Z.mod_small by lia. by rewrite <- app_assoc.
Qed.

Lemma align8 n : 0 <= n → Z.land n (Z.lnot 7) = 8 * (n / 8).
Proof.
  intros Hn. rewrite <- Z.ldiff_land. change 7 with (Z.ones 3). rewrite Z.ldiff_ones_r by lia.
  rewrite Z.shiftr_div_pow2, Z.shiftl_mul_pow2 by lia. change (2 ^ 3) with 8. lia.
Qed.

(** Digits that are padded to the bits of some bytes are read as these bytes. *)
Lemma bit_body_padded d p l : Forall byte l → d ≠ [] → (p < 8)%nat → replicate p DIGIT_0 ++ d = concat (map bits_of l) → bit_body d = Ret (Ok l).
Proof.
  intros Hl Hd Hp Heq. destruct (bits_all l Hl) as [Hall Hlen]. assert (p + length d = 8 * length l)%nat as Hlen'.
  { rewrite <- Hlen, <- Heq, length_app, length_replicate. done. }
  unfold bit_body. destruct d as [|c d]; [done|]. set (dd := c :: d) in *. rewrite align8 by lia.
  assert ((zlen dd + 7) / 8 = zlen l) as Hdiv by (symmetry; apply Z.div_unique with (7 - Z.of_nat p); lia).
  rewrite Hdiv. assert (Forall ascii dd) as Hasc.
  { apply digits_ascii. rewrite <- Heq in Hall. by apply Forall_app in Hall as [_ ?]. }
  rewrite str_slice_ascii; [|apply Forall_app; split; [by repeat (constructor; [unfold ascii, DIGIT_0; lia|])|done]| |done].
  2:{ rewrite length_app, length_replicate. lia. }
  cbn [mbind outcome_bind].
  replace (take _ _) with (concat (map bits_of l)).
  - rewrite Z.shiftr_div_pow2 by lia. change (2 ^ 3) with 8. rewrite Hlen.
    replace (Z.to_nat (Z.of_nat (8 * length l) / 8)) with (length l) by (rewrite Nat2Z.inj_mul, Z.mul_comm, Z.div_mul by lia; lia).
    pose proof (bit_groups_spec l Hl [] 0 [] ltac:(done) ltac:(lia) ltac:(done)) as H. done.
  - rewrite <- Heq. replace (Z.to_nat (zlen dd + 8 - 8 * zlen l)) with (8 - p)%nat by lia.
    rewrite drop_app_le by (rewrite length_replicate; lia). rewrite drop_replicate. replace (8 - (8 - p))%nat with p by lia.
    rewrite take_ge; [done|]. rewrite length_app, length_replicate. rewrite length_app, length_replicate. lia.
Qed.

Lemma trim_start_digits s : Forall (λ c, c = 48 ∨ c = 49) s → trim_start_char APOSTROPHE s = s.
Proof. by intros [|c s' [->| ->] _]. Qed.
Lemma trim_quotes s : Forall (λ c, c = 48 ∨ c = 49) s →
  trim_end_char APOSTROPHE (trim_start_char APOSTROPHE ([APOSTROPHE] ++ s ++ [APOSTROPHE])) = s.
Proof.
  intros Hs. destruct s as [|c s]; [done|].
  change (trim_start_char APOSTROPHE ([APOSTROPHE] ++ (c :: s) ++ [APOSTROPHE])) with (trim_start_char APOSTROPHE (c :: s ++ [APOSTROPHE])).
  assert (trim_start_char APOSTROPHE (c :: s ++ [APOSTROPHE]) = (c :: s) ++ [APOSTROPHE]) as ->
    by (inversion Hs as [|? ? [->| ->] ?]; subst; done).
  unfold trim_end_char. rewrite rev_app_distr. change (rev [APOSTROPHE] ++ rev (c :: s)) with (APOSTROPHE :: rev (c :: s)).
  change (trim_start_char APOSTROPHE (APOSTROPHE :: rev (c :: s))) with (trim_start_char APOSTROPHE (rev (c :: s))).
  rewrite trim_start_digits; [apply rev_involutive|].
  apply List.Forall_rev. done.
Qed.

(** The digits without leading zeros stand for the bytes without leading zeros. *)
Lemma trimmed_bits l : Forall byte l → trim_start_char DIGIT_0 (concat (map bits_of l)) = [] ∧ trim_leading_zero_bytes l = []
  ∨ trim_start_char DIGIT_0 (concat (map bits_of l)) ≠ [] ∧ ∃ p, (p < 8)%nat
    ∧ replicate p DIGIT_0 ++ trim_start_char DIGIT_0 (concat (map bits_of l)) = concat (map bits_of (trim_leading_zero_bytes l)).
Proof.
  induction 1 as [|b l Hb Hl IH]; [by left|]. cbn [map concat]. destruct (bits_of_byte b Hb) as (_ & H2 & H3 & H4 & H5).
  destruct (decide (b = 0)) as [->|Hz].
  - rewrite H5 by done. exact IH.
  - assert (trim_leading_zero_bytes (b :: l) = b :: l) as -> by by destruct b.
    right. destruct (H4 Hz) as (Hne & p & Hp & Heq).
    assert (∀ s t, trim_start_char DIGIT_0 s ≠ [] → trim_start_char DIGIT_0 (s ++ t) = trim_start_char DIGIT_0 s ++ t) as Happ.
    { induction s as [|c s IHs]; intros t Hs; [done|]. cbn [app trim_start_char] in *. destruct (c =? DIGIT_0); [by apply IHs|done]. }
    rewrite Happ by done. split; [by destruct (trim_start_char DIGIT_0 (bits_of b))|]. exists p. split; [done|]. cbn [map concat].
    by rewrite app_assoc, Heq.
Qed.

Lemma from_bit_str_quoted s : Forall (λ c, c = 48 ∨ c = 49) s → from_bit_str ([98; APOSTROPHE] ++ s ++ [APOSTROPHE]) = bit_body s.
Proof. intros Hs. unfold from_bit_str. cbn [app]. change ((98 =? 98) || (98 =? 66)) with true. cbv iota. by rewrite <- (trim_quotes s Hs) at 2. Qed.

(** What is written of a literal as bits is read back: as the literal itself when it is
    written in full, and without the leading zeros as a literal of the same number. *)
Theorem bit_string_roundtrip l : Forall byte l →
  from_bit_str (to_bit_string l false) = Ret (Ok l)
  ∧ ∃ l', from_bit_str (to_bit_string l true) = Ret (Ok l') ∧ value l' = value l ∧ lit_cmp l' l = Eq.
Proof.
  intros Hl. destruct l as [|b l]; [by split; [|exists []]|]. destruct (bits_all _ Hl) as [Hall Hlen]. unfold to_bit_string.
  assert (∀ l', Forall byte l' → value l' = value (b :: l) → value l' = value (b :: l) ∧ lit_cmp l' (b :: l) = Eq) as Hv.
  { intros l' Hl' H. split; [done|]. rewrite lit_cmp_value, H by done. apply Z.compare_refl. }
  split.
  - rewrite from_bit_str_quoted by done. apply bit_body_padded with 0%nat; [done| |lia|done].
    intros He. rewrite He in Hlen. cbn in Hlen. lia.
  - destruct (trimmed_bits (b :: l) Hl) as [ [-> Ht]|(Hne & p & Hp & Heq)].
    + exists [0]. split; [done|]. apply Hv; [by repeat constructor|]. rewrite <- (trim_value (b :: l)), Ht. done.
    + exists (trim_leading_zero_bytes (b :: l)). destruct (trim_start_char DIGIT_0 _) as [|c d] eqn:E; [done|]. split.
      * transitivity (bit_body (c :: d)); [|by apply bit_body_padded with p; [apply trim_bytes| | |] ].
        apply (from_bit_str_quoted (c :: d)). pose proof (trim_bytes _ Hl) as Htb. destruct (bits_all _ Htb) as [H _]. rewrite <- Heq in H.
        by apply Forall_app in H as [_ H].
      * apply Hv; [by apply trim_bytes|apply trim_value].
Qed.

(** ** Concrete literals *)

Definition nine_bytes : BinaryLiteral := [16; 16; 255; 255; 128; 128; 255; 18; 255].
Lemma nine_bytes_ok : Forall byte nine_bytes.
Proof. repeat (constructor; [unfold byte; lia|]). constructor. Qed.

(** The last case of the repository's test, which expects an error. *)
Lemma to_uint_exact_witness : Forall byte nine_bytes ∧ lit_to_uint nine_bytes = Ok 0x10ffff8080ff12ff.
Proof. split; [exact nine_bytes_ok|exact (to_uint_exact nine_bytes nine_bytes_ok)]. Defined.

Lemma zero_one_ok : Forall byte [0; 1] ∧ Forall byte [1].
Proof. split; repeat (constructor; [unfold byte; lia|]); constructor. Qed.
Lemma lit_cmp_exact_witness : Forall byte [0; 1] ∧ Forall byte [1] ∧ lit_cmp [0; 1] [1] = (value [0; 1] ?= value [1]) ∧ lit_eq [0; 1] [1] = false.
Proof. destruct zero_one_ok as [H1 H2]. split; [done|]. split; [done|]. split; [exact (proj1 (lit_cmp_exact [0; 1] [1] H1 H2))|reflexivity]. Defined.

Lemma bit_string_roundtrip_witness : Forall byte nine_bytes ∧ from_bit_str (to_bit_string nine_bytes false) = Ret (Ok nine_bytes)
  ∧ ∃ l', from_bit_str (to_bit_string nine_bytes true) = Ret (Ok l') ∧ value l' = value nine_bytes ∧ lit_cmp l' nine_bytes = Eq.
Proof. split; [exact nine_bytes_ok|exact (bit_string_roundtrip nine_bytes nine_bytes_ok)]. Defined.
