(* ===== verification/Paths.v ===== *)
(** * Paths: escapes of JSON strings, and path expressions

    [unquote_string] of [berolinasql/src/json_unquote.rs] and [parse_json_local_path_expr] of
    [berolinasql/src/path_expr.rs], whose result is what [JsonExtract] follows.  Texts are
    lists of characters here, as the code walks characters, and what is kept of a name is
    its UTF-8.  The engine of regular expressions is another crate's: the class [LegRegex] is its
    iterator over the matches of the pattern of a leg, as positions, and [LegRegexLaws] says
    of the matches what the pattern does. *)
From Stdlib Require Import ZArith Lia String Ascii.
From stdpp Require Import base list numbers.
From S2P Require Import Prelude EvalCtx Slice JsonBinary JsonTree JsonExtract Literals.
#[local] Open Scope Z_scope.

#[local] Notation zlen l := (Z.of_nat (length l)).
#[local] Notation chars := (list Z).

(** ** Characters *)

Definition is_char (c : Z) : bool := (0 <=? c) && (c <? 0xD800) || (0xE000 <=? c) && (c <=? 0x10FFFF).
Definition from_u32 (u : Z) : option Z := if is_char u then Some u else None.
Definition utf8 (c : Z) : list Z :=
  if c <? 0x80 then [c]
  else if c <? 0x800 then [192 + Z.shiftr c 6; 128 + Z.land c 63]
  else if c <? 0x10000 then [224 + Z.shiftr c 12; 128 + Z.land (Z.shiftr c 6) 63; 128 + Z.land c 63]
  else [240 + Z.shiftr c 18; 128 + Z.land (Z.shiftr c 12) 63; 128 + Z.land (Z.shiftr c 6) 63; 128 + Z.land c 63].
Definition into_bytes (s : chars) : list Z := concat (map utf8 s).

(** The characters that the first [n] bytes are: none when there are fewer, or a character is cut. *)
Fixpoint whole_chars (n : Z) (s : chars) : option chars :=
  if n =? 0 then Some [] else
  match s with
  | [] => None
  | c :: s => if zlen (utf8 c) <=? n then cons c <$> whole_chars (n - zlen (utf8 c)) s else None
  end.

(** ** Escapes *)

Definition ESCAPED_UNICODE_BYTES_SIZE : Z := 4.
Definition CHAR_BACKSPACE : Z := 8.
Definition CHAR_HORIZONTAL_TAB : Z := 9.
Definition CHAR_LINEFEED : Z := 10.
Definition CHAR_FORMFEED : Z := 12.
Definition CHAR_CARRIAGE_RETURN : Z := 13.
Definition BACKSLASH : Z := 92.

Definition decode_escaped_unicode (s : chars) : result Z :=
  match from_str_radix 16 U32_MAX s with
  | Err e => Err e
  | Ok u => match from_u32 u with Some c => Ok c | None => Err Other end
  end.

(** What a character after a backslash stands for, [u] apart. *)
Definition unescape (c : Z) : Z :=
  if c =? 98 then CHAR_BACKSPACE else if c =? 102 then CHAR_FORMFEED else if c =? 110 then CHAR_LINEFEED
  else if c =? 114 then CHAR_CARRIAGE_RETURN else if c =? 116 then CHAR_HORIZONTAL_TAB else c.

(** [skip] characters are passed over: the four digits of an escape. *)
Fixpoint unquote_loop (s : chars) (skip : nat) (ret : chars) : result chars :=
  match s with
  | [] => Ok ret
  | ch :: s =>
      match skip with
      | S skip => unquote_loop s skip ret
      | O =>
          if ch =? BACKSLASH then
            match s with
            | [] => Err Other
            | c :: s =>
                if c =? 117 then
                  match whole_chars ESCAPED_UNICODE_BYTES_SIZE s with
                  | None => Err Other
                  | Some unicode =>
                      match decode_escaped_unicode unicode with
                      | Err e => Err e
                      | Ok utf8 => unquote_loop s 4 (ret ++ [utf8])
                      end
                  end
                else unquote_loop s 0 (ret ++ [unescape c])
            end
          else unquote_loop s 0 (ret ++ [ch])
      end
  end.
Definition unquote_string (s : chars) : result chars := unquote_loop s 0 [].

(** ** Path expressions *)

(** [char::is_whitespace] and [is_ascii_whitespace]. *)
Definition is_whitespace (c : Z) : bool :=
  (9 <=? c) && (c <=? 13) || (c =? 32) || (c =? 0x85) || (c =? 0xA0) || (c =? 0x1680) || (0x2000 <=? c) && (c <=? 0x200A)
  || (c =? 0x2028) || (c =? 0x2029) || (c =? 0x202F) || (c =? 0x205F) || (c =? 0x3000).
Definition is_ascii_whitespace (c : Z) : bool := (c =? 9) || (c =? 10) || (c =? 12) || (c =? 13) || (c =? 32).

Fixpoint trim_start_ws (s : chars) : chars := match s with c :: s' => if is_whitespace c then trim_start_ws s' else s | [] => [] end.
Definition trim (s : chars) : chars := rev (trim_start_ws (rev (trim_start_ws s))).

(** [str::parse::<i32>] *)
Definition parse_i32 (s : chars) : result Z :=
  match s with
  | [] | [43] | [45] => Err Other
  | 43 :: s => radix_digits 10 I32_MAX 0 s
  | 45 :: s => match radix_digits 10 (- I32_MIN) 0 s with Ok v => Ok (- v) | Err e => Err e end
  | s => radix_digits 10 I32_MAX 0 s
  end.

(** Cutting the last byte off; inside a character this panics. *)
Definition cut_last (s : chars) : outcome chars :=
  match rev s with [] => Panic | c :: r => if c <? 128 then Ret (rev r) else Panic end.

Class LegRegex := find_iter : chars → list (Z * Z).

Section Parse.
Context {RE : LegRegex}.

Definition parse_index (leg : chars) : outcome (result (local_pathLeg * Z)) :=
  index_str ← cut_last leg;
  let index_str := trim index_str in
  if bytes_eqb index_str LOCAL_PATH_EXPR_ASTERISK then
    Ret (Ok (Index LOCAL_PATH_EXPR_ARRAY_INDEX_ASTERISK, LOCAL_PATH_EXPRESSION_CONTAINS_ASTERISK))
  else Ret (match parse_i32 index_str with Ok i => Ok (Index i, 0) | Err e => Err e end).

Definition parse_key (soliton_id : chars) : outcome (result (local_pathLeg * Z)) :=
  if bytes_eqb soliton_id LOCAL_PATH_EXPR_ASTERISK then Ret (Ok (Key (into_bytes soliton_id), LOCAL_PATH_EXPRESSION_CONTAINS_ASTERISK))
  else match soliton_id with
       | 34 :: quoted =>
           quoted ← cut_last quoted;
           Ret (match unquote_string quoted with Ok k => Ok (Key (into_bytes k), 0) | Err e => Err e end)
       | _ => Ret (Ok (Key (into_bytes soliton_id), 0))
       end.

(** A leg and the flag it sets, from the text of a match. *)
Definition parse_leg (text : chars) : outcome (result (local_pathLeg * Z)) :=
  match text with
  | [] => Panic
  | 91 :: rest => parse_index (trim rest)
  | 46 :: rest => parse_key (trim rest)
  | _ => Ret (Ok (DoubleAsterisk, LOCAL_PATH_EXPRESSION_CONTAINS_DOUBLE_ASTERISK))
  end.

Definition blank (s : chars) : bool := forallb is_ascii_whitespace s.

Fixpoint parse_legs (expr : chars) (spans : list (Z * Z)) (legs : list local_pathLeg) (flags last_end : Z)
  : outcome (result (list local_pathLeg * Z * Z)) :=
  match spans with
  | [] => Ret (Ok (legs, flags, last_end))
  | (start, end_) :: spans =>
      gap ← slice expr last_end start;
      if negb (blank gap) then Ret (Err Other) else
      text ← slice expr start end_;
      r ← parse_leg text;
      match r with
      | Err e => Ret (Err e)
      | Ok (leg, flag) => parse_legs expr spans (legs ++ [leg]) (Z.lor flags flag) end_
      end
  end.

(** The text before the first dollar sign and after it. *)
Fixpoint split_dollar (s : chars) : option (chars * chars) :=
  match s with
  | [] => None
  | c :: s => if c =? 36 then Some ([], s) else prod_map (cons c) id <$> split_dollar s
  end.

Definition parse_json_local_path_expr (s : chars) : outcome (result local_pathExpression) :=
  match split_dollar s with
  | None => Ret (Err Other)
  | Some (before, after) =>
      if negb (blank before) then Ret (Err Other) else
      let expr := trim_start_ws after in
      r ← parse_legs expr (find_iter expr) [] 0 0;
      match r with
      | Err e => Ret (Err e)
      | Ok (legs, flags, last_end) =>
          if (last_end =? 0) && negb (bool_decide (expr = [])) then Ret (Err Other)
          else match rev legs with
               | DoubleAsterisk :: _ => Ret (Err Other)
               | _ => Ret (Ok (mkPath legs flags))
               end
      end
  end.
End Parse.

(** ** Escaped texts *)

(** [Escaped s t]: the text [s], escapes and all, stands for [t]. *)
Inductive Escaped : chars → chars → Prop :=
| esc_nil : Escaped [] []
| esc_plain c s t : c ≠ BACKSLASH → Escaped s t → Escaped (c :: s) (c :: t)
| esc_char c s t : c ≠ 117 → Escaped s t → Escaped (BACKSLASH :: c :: s) (unescape c :: t)
| esc_unicode h u s t : length h = 4%nat → from_str_radix 16 U32_MAX h = Ok u → is_char u = true → Escaped s t →
    Escaped (BACKSLASH :: 117 :: h ++ s) (u :: t).

Lemma radix_digit_ascii radix c d : radix_digit radix c = Some d → radix <= 36 → 43 < c < 128.
Proof.
  unfold radix_digit. intros H Hr. destruct (decide (43 < c < 128)); [done|]. exfalso. revert H.
  replace ((48 <=? c) && (c <=? 57)) with false by (symmetry; apply andb_false_iff; rewrite !Z.leb_gt; lia).
  replace ((97 <=? c) && (c <=? 122)) with false by (symmetry; apply andb_false_iff; rewrite !Z.leb_gt; lia).
  replace ((65 <=? c) && (c <=? 90)) with false by (symmetry; apply andb_false_iff; rewrite !Z.leb_gt; lia).
  cbv zeta. by rewrite Z.ltb_irrefl.
Qed.

Lemma radix_digits_ascii radix hi s : ∀ v v', radix <= 36 → radix_digits radix hi v s = Ok v' → Forall (λ c, 0 <= c < 128) s.
Proof.
  induction s as [|c s IH]; intros v v' Hr H; [done|]. cbn [radix_digits] in H. destruct (radix_digit radix c) as [d|] eqn:E; [|done].
  destruct (_ <=? hi); [|done]. apply radix_digit_ascii in E; [|done]. constructor; [lia|by eapply IH].
Qed.
Lemma from_str_radix_ascii radix hi s v : radix <= 36 → from_str_radix radix hi s = Ok v → Forall (λ c, 0 <= c < 128) s.
Proof.
  intros Hr H. unfold from_str_radix in H.
  assert (∀ t, radix_digits radix hi 0 t = Ok v → Forall (λ c, 0 <= c < 128) t) as Hd by (intros; by eapply radix_digits_ascii).
  repeat case_match; try done; try (by apply Hd); (constructor; [lia|by apply Hd]).
Qed.

Lemma whole_chars_ascii n s : Forall (λ c, 0 <= c < 128) s → length s = n → ∀ t, whole_chars (Z.of_nat n) (s ++ t) = Some s.
Proof.
  revert s. induction n as [|n IH]; intros [|c s] Hs Hl t; try done; [by destruct t|].
  cbn [app whole_chars]. rewrite (proj2 (Z.eqb_neq _ 0)) by lia. inversion Hs as [|? ? Hc Hs']; subst.
  assert (zlen (utf8 c) = 1) as -> by (unfold utf8; by rewrite (proj2 (Z.ltb_lt c 0x80)) by lia).
  rewrite (proj2 (Z.leb_le _ _)) by lia. replace (Z.of_nat (S n) - 1) with (Z.of_nat n) by lia. rewrite IH; [done|done|]. cbn in Hl. lia.
Qed.
Lemma whole_chars_prefix s : ∀ n p, 0 <= n → whole_chars n s = Some p → ∃ t, s = p ++ t ∧ zlen (concat (map utf8 p)) = n.
Proof.
  induction s as [|c s IH]; intros n p Hn; cbn [whole_chars]; destruct (Z.eqb_spec n 0) as [->|Hz]; try done.
  - intros [= <-]. by exists [].
  - intros [= <-]. by exists (c :: s).
  - destruct (Z.leb_spec (zlen (utf8 c)) n) as [Hle|]; [|done]. destruct (whole_chars _ s) as [q|] eqn:E; [|done]. intros [= <-].
    apply IH in E as (t & -> & Hq); [|lia]. exists t. split; [done|]. cbn [map concat]. rewrite length_app. lia.
Qed.
Lemma ascii_bytes p : Forall (λ c, 0 <= c < 128) p → zlen (concat (map utf8 p)) = zlen p.
Proof.
  induction 1 as [|c p Hc _ IH]; [done|]. cbn [map concat length]. rewrite length_app.
  assert (length (utf8 c) = 1%nat) as -> by (unfold utf8; by rewrite (proj2 (Z.ltb_lt c 0x80)) by lia). lia.
Qed.

Lemma unquote_skip k : ∀ s ret, (k <= length s)%nat → unquote_loop s k ret = unquote_loop (drop k s) 0 ret.
Proof.
  induction k as [|k IH]; intros s ret Hk; [by rewrite drop_0|]. destruct s as [|c s]; [cbn in Hk; lia|]. cbn [unquote_loop drop].
  apply IH. cbn in Hk. lia.
Qed.

Lemma unquote_complete s t : Escaped s t → ∀ ret, unquote_loop s 0 ret = Ok (ret ++ t).
Proof.
  induction 1 as [|c s t Hc _ IH|c s t Hc _ IH|h u s t Hh Hu Hc _ IH]; intros ret; cbn [unquote_loop].
  - by rewrite app_nil_r.
  - rewrite (proj2 (Z.eqb_neq c BACKSLASH)) by done. rewrite IH. by rewrite <- app_assoc.
  - change (BACKSLASH =? BACKSLASH) with true. cbv iota. rewrite (proj2 (Z.eqb_neq c 117)) by done. rewrite IH. by rewrite <- app_assoc.
  - change (BACKSLASH =? BACKSLASH) with true. change (117 =? 117) with true. cbv iota.
    assert (Forall (λ c, 0 <= c < 128) h) as Hasc by (eapply from_str_radix_ascii; [|exact Hu]; lia).
    change ESCAPED_UNICODE_BYTES_SIZE with (Z.of_nat 4). rewrite (whole_chars_ascii 4 h) by done.
    unfold decode_escaped_unicode, from_u32. rewrite Hu, Hc. rewrite unquote_skip by (rewrite length_app; lia).
    rewrite <- Hh, drop_app_length, IH. by rewrite <- app_assoc.
Qed.

Lemma unquote_sound n : ∀ s ret t, (length s <= n)%nat → unquote_loop s 0 ret = Ok t → ∃ u, t = ret ++ u ∧ Escaped s u.
Proof.
  induction n as [|n IH]; intros [|ch s] ret t Hn H; cbn [unquote_loop length] in *; try lia;
    [injection H as <-; exists []; rewrite app_nil_r; split; [done|constructor]..|].
  destruct (Z.eqb_spec ch BACKSLASH) as [->|Hch].
  2:{ apply IH in H as (u & -> & H); [|lia]. exists (ch :: u). rewrite <- app_assoc. split; [done|by constructor]. }
  destruct s as [|c s]; [done|]. destruct (Z.eqb_spec c 117) as [->|Hc].
  - destruct (whole_chars _ s) as [h|] eqn:Hw; [|done]. unfold decode_escaped_unicode in H.
    destruct (from_str_radix 16 U32_MAX h) as [u|] eqn:Hu; [|done]. unfold from_u32 in H. destruct (is_char u) eqn:Hch; [|done].
    apply whole_chars_prefix in Hw as (s' & -> & Hlen); [|done]. rewrite ascii_bytes in Hlen by (eapply from_str_radix_ascii; [|exact Hu]; lia).
    unfold ESCAPED_UNICODE_BYTES_SIZE in Hlen.
    rewrite unquote_skip in H by (rewrite length_app; lia). replace 4%nat with (length h) in H by lia. rewrite drop_app_length in H.
    cbn [length] in Hn. rewrite length_app in Hn. apply IH in H as (v & -> & H); [|lia]. exists (u :: v). rewrite <- app_assoc.
    split; [done|]. constructor; [lia|done..].
  - cbn [length] in Hn. apply IH in H as (u & -> & H); [|lia]. exists (unescape c :: u). rewrite <- app_assoc. split; [done|by constructor].
Qed.

(** Decoding the escapes of a text gives [t] exactly when the text stands for [t]: a character
    that is not a backslash for itself, a backslash and another than [u] for what they are,
    and [\u] with four characters that read as a number of a character for that character;
    and what is not of this form is an error. *)
Theorem unquote_exact s t :
  (unquote_string s = Ok t ↔ Escaped s t) ∧ ((∀ t', ¬ Escaped s t') → ∃ e, unquote_string s = Err e).
Proof.
  assert (∀ t, unquote_string s = Ok t ↔ Escaped s t) as H.
  { intros t'. unfold unquote_string. split.
    - intros H. by apply unquote_sound with (n := length s) in H as (u & -> & H).
    - intros H. by apply unquote_complete with (ret := []) in H. }
  split; [apply H|]. intros Hn. destruct (unquote_string s) as [t'|e]; [|by exists e]. destruct (Hn t'). by apply H.
Qed.

Definition texts (s : string) : chars := map (λ a, Z.of_N (N_of_ascii a)) (list_ascii_of_string s).

(** The escapes of the test of [decode_escaped_unicode]; a character outside the first plane, which
    takes two escapes in JSON, is an error; and a plus sign counts as a digit. *)
Example unquote_tests :
  map (λ s, decode_escaped_unicode (texts s)) ["5e8a"; "524d"; "660e"; "6708"; "5149"]%string
    = map Ok [0x5e8a; 0x524d; 0x660e; 0x6708; 0x5149]
  ∧ unquote_string (texts "\b\n\q\\x\u5e8a!") = Ok ([8; 10; 113; 92; 120; 0x5e8a; 33])
  ∧ unquote_string (texts "\u33") = Err Other ∧ unquote_string (texts "a\") = Err Other
  ∧ unquote_string (texts "\ud83d\ude00") = Err Other ∧ unquote_string (texts "\u+041") = Ok [65].
Proof. split_and!; reflexivity. Qed.

(** ** The grammar of legs, and what they mean *)

Definition ident_start (c : Z) : Prop := 65 <= c <= 90 ∨ 97 <= c <= 122 ∨ c = 95.
Definition digit (c : Z) : Prop := 48 <= c <= 57.
Definition spaces (s : chars) : Prop := Forall (λ c, is_whitespace c = true) s.

(** A quoted body: no quote and no backslash outside of pairs of a backslash and a character. *)
Inductive QuotedBody : chars → Prop :=
| qb_nil : QuotedBody []
| qb_char c s : c ≠ 34 → c ≠ BACKSLASH → QuotedBody s → QuotedBody (c :: s)
| qb_pair c s : c ≠ CHAR_LINEFEED → QuotedBody s → QuotedBody (BACKSLASH :: c :: s).

(** The text of a leg, and what it is between its brackets or after its dot. *)
Inductive LegText : chars → Prop :=
| lt_index w1 ds w2 : spaces w1 → spaces w2 → ds ≠ [] → Forall digit ds → LegText (91 :: w1 ++ ds ++ w2 ++ [93])
| lt_any_index w1 w2 : spaces w1 → spaces w2 → LegText (91 :: w1 ++ [42] ++ w2 ++ [93])
| lt_key w c id : spaces w → ident_start c → Forall (λ c, ident_start c ∨ digit c) id → LegText (46 :: w ++ c :: id)
| lt_any_key w : spaces w → LegText (46 :: w ++ [42])
| lt_quoted w body : spaces w → QuotedBody body → LegText (46 :: w ++ 34 :: body ++ [34])
| lt_deep : LegText [42; 42].

(** The number that digits are in base ten. *)
Definition decimal (ds : chars) : Z := foldl (λ v c, v * 10 + (c - 48)) 0 ds.

Inductive Means : chars → local_pathLeg → Z → Prop :=
| m_index w1 ds w2 : spaces w1 → spaces w2 → ds ≠ [] → Forall digit ds → decimal ds <= I32_MAX →
    Means (91 :: w1 ++ ds ++ w2 ++ [93]) (Index (decimal ds)) 0
| m_any_index w1 w2 : spaces w1 → spaces w2 →
    Means (91 :: w1 ++ [42] ++ w2 ++ [93]) (Index LOCAL_PATH_EXPR_ARRAY_INDEX_ASTERISK) LOCAL_PATH_EXPRESSION_CONTAINS_ASTERISK
| m_key w c id : spaces w → ident_start c → Forall (λ c, ident_start c ∨ digit c) id → Means (46 :: w ++ c :: id) (Key (c :: id)) 0
| m_any_key w : spaces w → Means (46 :: w ++ [42]) (Key LOCAL_PATH_EXPR_ASTERISK) LOCAL_PATH_EXPRESSION_CONTAINS_ASTERISK
| m_quoted w body k : spaces w → QuotedBody body → Escaped body k → Means (46 :: w ++ 34 :: body ++ [34]) (Key (into_bytes k)) 0
| m_deep : Means [42; 42] DoubleAsterisk LOCAL_PATH_EXPRESSION_CONTAINS_DOUBLE_ASTERISK.

(** Matches are in order, do not overlap, and have the text of a leg. *)
Fixpoint spans_ok (from : Z) (expr : chars) (l : list (Z * Z)) : Prop :=
  match l with
  | [] => True
  | (a, b) :: l => from <= a <= b ∧ b <= zlen expr ∧ LegText (take (Z.to_nat (b - a)) (drop (Z.to_nat a) expr)) ∧ spans_ok b expr l
  end.
Class LegRegexLaws {RE : LegRegex} : Prop := find_iter_ok expr : spans_ok 0 expr (find_iter expr).

(** *** Trimming *)

Definition no_space (o : option Z) : Prop := match o with Some c => is_whitespace c = false | None => False end.

Lemma trim_start_spaces w s : spaces w → trim_start_ws (w ++ s) = trim_start_ws s.
Proof. induction 1 as [|c w Hc _ IH]; [done|]. cbn [app trim_start_ws]. by rewrite Hc. Qed.
Lemma trim_start_stop s : no_space (head s) → trim_start_ws s = s.
Proof. destruct s as [|c s]; [done|]. cbn. by intros ->. Qed.
Lemma trim_around w1 s w2 : spaces w1 → spaces w2 → no_space (head s) → no_space (head (rev s)) → trim (w1 ++ s ++ w2) = s.
Proof.
  intros H1 H2 Hh Ht. unfold trim. rewrite trim_start_spaces by done.
  rewrite (trim_start_stop (s ++ w2)) by (by destruct s). rewrite rev_app_distr, trim_start_spaces by by apply List.Forall_rev.
  rewrite (trim_start_stop (rev s)) by done. apply rev_involutive.
Qed.
Lemma trim_before w s : spaces w → no_space (head s) → no_space (head (rev s)) → trim (w ++ s) = s.
Proof. intros H1 Hh Ht. rewrite <- (app_nil_r s) at 1. apply trim_around; [done|constructor|done..]. Qed.

Lemma cut_last_app s c : c < 128 → cut_last (s ++ [c]) = Ret s.
Proof. intros Hc. unfold cut_last. rewrite rev_app_distr. cbn [rev app]. rewrite (proj2 (Z.ltb_lt _ _)) by done. by rewrite rev_involutive. Qed.

Lemma word_no_space c : ident_start c ∨ digit c → is_whitespace c = false.
Proof.
  unfold ident_start, digit, is_whitespace. intros H.
  repeat (rewrite orb_false_iff || rewrite andb_false_iff || rewrite Z.leb_gt || rewrite Z.eqb_neq). lia.
Qed.
Lemma head_rev_app {A} (s : list A) c : head (rev (s ++ [c])) = Some c.
Proof. by rewrite rev_app_distr. Qed.
Lemma head_rev_words s : s ≠ [] → Forall (λ c, ident_start c ∨ digit c) s → no_space (head (rev s)).
Proof.
  intros Hn Hs. apply List.Forall_rev in Hs. destruct (rev s) as [|c r] eqn:E.
  - destruct Hn. rewrite <- (rev_involutive s), E. done.
  - inversion Hs; subst. cbn. by apply word_no_space.
Qed.

Lemma radix_digits_decimal ds : Forall digit ds → ∀ v, 0 <= v <= I32_MAX →
  match radix_digits 10 I32_MAX v ds with
  | Ok i => i = foldl (λ v c, v * 10 + (c - 48)) v ds ∧ i <= I32_MAX
  | Err _ => I32_MAX < foldl (λ v c, v * 10 + (c - 48)) v ds
  end.
Proof.
  induction 1 as [|c ds Hc Hds IH]; intros v Hv; cbn [radix_digits foldl]; [split; [done|lia]|]. unfold digit in Hc.
  assert (radix_digit 10 c = Some (c - 48)) as ->.
  { unfold radix_digit. rewrite (proj2 (Z.leb_le 48 c)), (proj2 (Z.leb_le c 57)) by lia. cbn [andb].
    by rewrite (proj2 (Z.ltb_lt _ _)) by lia. }
  destruct (Z.leb_spec (v * 10 + (c - 48)) I32_MAX) as [Hle|Hgt]; [apply IH; lia|].
  assert (∀ u, I32_MAX < u → I32_MAX < foldl (λ v c, v * 10 + (c - 48)) u ds) as Hmono; [|by apply Hmono].
  clear -Hds. induction Hds as [|d ds Hd _ IH]; intros u Hu; [done|]. cbn [foldl]. apply IH. unfold digit, I32_MAX in *. lia.
Qed.
Lemma parse_digits ds : ds ≠ [] → Forall digit ds →
  match parse_i32 ds with Ok i => i = decimal ds ∧ i <= I32_MAX | Err _ => I32_MAX < decimal ds end.
Proof.
  intros Hn Hds. pose proof (radix_digits_decimal ds Hds 0) as H. unfold I32_MAX in H at 1. specialize (H ltac:(lia)).
  destruct ds as [|c ds]; [done|]. inversion Hds as [|? ? Hc _]; subst. unfold digit in Hc.
  assert (parse_i32 (c :: ds) = radix_digits 10 I32_MAX 0 (c :: ds)) as ->; [|exact H].
  unfold parse_i32. repeat case_match; subst; try done; lia.
Qed.

(** ** Parsing *)

Lemma unquote_Escaped s t : unquote_string s = Ok t ↔ Escaped s t.
Proof.
  unfold unquote_string. split.
  - intros H. by apply unquote_sound with (n := length s) in H as (u & -> & H).
  - intros H. by apply unquote_complete with (ret := []) in H.
Qed.

Lemma into_bytes_ascii s : Forall (λ c, 0 <= c < 128) s → into_bytes s = s.
Proof.
  unfold into_bytes. induction 1 as [|c s Hc _ IH]; [done|]. cbn [map concat]. rewrite IH. unfold utf8.
  by rewrite (proj2 (Z.ltb_lt c 0x80)) by lia.
Qed.
Lemma not_star s : s ≠ [42] → bytes_eqb s LOCAL_PATH_EXPR_ASTERISK = false.
Proof. intros H. destruct (bytes_eqb _ _) eqn:E; [|done]. by apply bytes_eqb_eq in E. Qed.

Lemma index_text w1 s w2 : spaces w1 → spaces w2 → no_space (head s) → no_space (head (rev s)) →
  ∃ u, cut_last (trim (w1 ++ s ++ w2 ++ [93])) = Ret u ∧ trim u = s.
Proof.
  intros H1 H2 Hh Ht. exists (s ++ w2). split.
  - rewrite trim_before; [rewrite app_assoc; by apply cut_last_app|done|by destruct s|].
    rewrite app_assoc, head_rev_app. done.
  - apply (trim_around [] s w2); [constructor|done..].
Qed.

(** What a leg means is what parsing its text gives. *)
Lemma means_parse text leg flag : Means text leg flag → parse_leg text = Ret (Ok (leg, flag)).
Proof.
  destruct 1 as [w1 ds w2 H1 H2 Hn Hds Hm|w1 w2 H1 H2|w c id Hw Hc Hid|w Hw|w body k Hw Hb He|]; cbn [parse_leg]; [| | | | |done].
  - assert (Forall (λ c, ident_start c ∨ digit c) ds) as Hwd by (eapply Forall_impl; [|exact Hds]; by right).
    destruct (index_text w1 ds w2) as (u & Hu & Ht); [done..| |by apply head_rev_words|].
    { destruct ds as [|d ds]; [done|]. inversion Hwd; subst. by apply word_no_space. }
    unfold parse_index. rewrite Hu. cbn [mbind outcome_bind]. rewrite Ht, not_star.
    + pose proof (parse_digits ds Hn Hds) as Hp. destruct (parse_i32 ds) as [i|]; [|lia]. by destruct Hp as [-> _].
    + intros ->. inversion Hds as [|? ? Hd _]; subst. unfold digit in Hd. lia.
  - destruct (index_text w1 [42] w2) as (u & Hu & Ht); [done..|]. unfold parse_index. rewrite Hu. cbn [mbind outcome_bind]. by rewrite Ht.
  - assert (Forall (λ c, ident_start c ∨ digit c) (c :: id)) as Hwd by (constructor; [by left|done]).
    rewrite trim_before; [|done|cbn; apply word_no_space; by left|by apply head_rev_words]. unfold parse_key.
    unfold ident_start in Hc. rewrite not_star by (intros [= -> _]; lia).
    rewrite into_bytes_ascii by (eapply Forall_impl; [|exact Hwd]; unfold ident_start, digit; cbn; lia).
    repeat case_match; subst; try done; lia.
  - rewrite trim_before by done. done.
  - rewrite trim_before; [|done..|]. 2:{ change (34 :: body ++ [34]) with ((34 :: body) ++ [34]). by rewrite head_rev_app. }
    unfold parse_key. rewrite not_star by done. rewrite cut_last_app by lia. cbn [mbind outcome_bind].
    by rewrite (proj2 (unquote_Escaped body k) He).
Qed.

Lemma leg_parses text : LegText text → (∃ leg flag, Means text leg flag) ∨ ∃ e, parse_leg text = Ret (Err e).
Proof.
  destruct 1 as [w1 ds w2 H1 H2 Hn Hds|w1 w2 H1 H2|w c id Hw Hc Hid|w Hw|w body Hw Hb|].
  - destruct (Z.leb_spec (decimal ds) I32_MAX) as [Hle|Hgt]; [left; by eexists _, _; constructor|right].
    assert (Forall (λ c, ident_start c ∨ digit c) ds) as Hwd by (eapply Forall_impl; [|exact Hds]; by right).
    destruct (index_text w1 ds w2) as (u & Hu & Ht); [done..| |by apply head_rev_words|].
    { destruct ds as [|d ds]; [done|]. inversion Hwd; subst. by apply word_no_space. }
    cbn [parse_leg]. unfold parse_index. rewrite Hu. cbn [mbind outcome_bind]. rewrite Ht, not_star.
    + pose proof (parse_digits ds Hn Hds) as Hp. destruct (parse_i32 ds) as [i|e]; [lia|by exists e].
    + intros ->. inversion Hds as [|? ? Hd _]; subst. unfold digit in Hd. lia.
  - left. by eexists _, _; constructor.
  - left. by eexists _, _; constructor.
  - left. by eexists _, _; constructor.
  - destruct (unquote_string body) as [k|e] eqn:E.
    + left. apply unquote_Escaped in E. by eexists _, _; constructor.
    + right. exists e. cbn [parse_leg]. rewrite trim_before; [|done..|].
      2:{ change (34 :: body ++ [34]) with ((34 :: body) ++ [34]). by rewrite head_rev_app. }
      unfold parse_key. rewrite not_star by done. rewrite cut_last_app by lia. cbn [mbind outcome_bind]. by rewrite E.
  - left. by eexists _, _; constructor.
Qed.

(** The matches of the legs of a path, with blanks between them. *)
Inductive LegsMean (expr : chars) : Z → list (Z * Z) → list local_pathLeg → Z → Prop :=
| lm_nil from : LegsMean expr from [] [] 0
| lm_cons from a b spans leg legs flag flags :
    blank (take (Z.to_nat (a - from)) (drop (Z.to_nat from) expr)) = true →
    Means (take (Z.to_nat (b - a)) (drop (Z.to_nat a) expr)) leg flag →
    LegsMean expr b spans legs flags →
    LegsMean expr from ((a, b) :: spans) (leg :: legs) (Z.lor flag flags).

Definition end_of (from : Z) (spans : list (Z * Z)) : Z := match rev spans with [] => from | (_, b) :: _ => b end.

Lemma end_of_cons from a b spans : end_of from ((a, b) :: spans) = end_of b spans.
Proof. unfold end_of. cbn [rev]. destruct (rev spans) as [|[x y] l]; done. Qed.

Section Legs.
Context {RE : LegRegex}.

Lemma slice_in {A} (l : list A) a b : 0 <= a <= b → b <= zlen l → slice l a b = Ret (take (Z.to_nat (b - a)) (drop (Z.to_nat a) l)).
Proof. intros Ha Hb. unfold slice. by rewrite (proj2 (Z.leb_le 0 a)), (proj2 (Z.leb_le a b)), (proj2 (Z.leb_le b _)) by lia. Qed.

Lemma parse_legs_spec expr spans : ∀ from acc flags, 0 <= from → spans_ok from expr spans →
  (∃ legs fl, LegsMean expr from spans legs fl
     ∧ parse_legs expr spans acc flags from = Ret (Ok (acc ++ legs, Z.lor flags fl, end_of from spans)))
  ∨ ((∀ legs fl, ¬ LegsMean expr from spans legs fl) ∧ ∃ e, parse_legs expr spans acc flags from = Ret (Err e)).
Proof.
  induction spans as [|[a b] spans IH]; intros from acc flags Hf Hs.
  { left. exists [], 0. split; [constructor|]. cbn. by rewrite app_nil_r, Z.lor_0_r. }
  destruct Hs as (Hab & Hb & Htext & Hs). cbn [parse_legs]. rewrite !slice_in by lia. cbn [mbind outcome_bind].
  destruct (blank (take _ (drop (Z.to_nat from) expr))) eqn:Hblank; cbn [negb].
  2:{ right. split; [intros legs fl H; inversion H; subst; congruence|by eexists]. }
  destruct (leg_parses _ Htext) as [(leg & flag & Hm)|[e He] ].
  - rewrite (means_parse _ _ _ Hm). cbn [mbind outcome_bind].
    destruct (IH b (acc ++ [leg]) (Z.lor flags flag)) as [(legs & fl & Hl & ->)|[Hn He] ]; [lia|done| |].
    + left. exists (leg :: legs), (Z.lor flag fl). split; [by constructor|]. by rewrite <- app_assoc, Z.lor_assoc, end_of_cons.
    + right. split; [|done]. intros legs fl H. inversion H; subst. by eapply Hn.
  - right. rewrite He. cbn [mbind outcome_bind]. split; [|by exists e]. intros legs fl H. inversion H as [|? ? ? ? ? ? ? ? _ Hm]; subst.
    apply means_parse in Hm. congruence.
Qed.

Lemma legs_mean_unique expr from spans legs fl legs' fl' :
  LegsMean expr from spans legs fl → LegsMean expr from spans legs' fl' → legs = legs' ∧ fl = fl'.
Proof.
  intros H. revert legs' fl'. induction H as [|from a b spans leg legs flag flags _ Hm _ IH]; intros legs' fl' H'; inversion H' as [|? ? ? ? ? ? ? ? _ Hm']; subst; [done|].
  apply means_parse in Hm, Hm'. destruct (IH legs0 flags0) as [-> ->]; [done|]. split; congruence.
Qed.

Lemma legs_mean_length expr from spans legs fl : LegsMean expr from spans legs fl → length legs = length spans.
Proof. induction 1; cbn; lia. Qed.
Lemma leg_text_nonempty text : LegText text → text ≠ [].
Proof. by destruct 1. Qed.
Lemma end_positive expr spans : ∀ from, 0 <= from → spans_ok from expr spans → spans ≠ [] → 0 < end_of from spans.
Proof.
  induction spans as [|[a b] spans IH]; intros from Hf Hs Hn; [done|]. destruct Hs as (Hab & Hb & Ht & Hs). rewrite end_of_cons.
  assert (0 < b) as Hb0. { apply leg_text_nonempty in Ht. destruct (decide (b = a)) as [->|]; [|lia]. by rewrite Z.sub_diag in Ht. }
  destruct spans as [|p spans]; [done|]. apply IH; [lia|done..].
Qed.
End Legs.

Lemma split_dollar_spec s : match split_dollar s with Some (b, a) => s = b ++ 36 :: a ∧ 36 ∉ b | None => 36 ∉ s end.
Proof.
  induction s as [|c s IH]; cbn [split_dollar]; [by intros ?%elem_of_nil|]. destruct (Z.eqb_spec c 36) as [->|Hc].
  - split; [done|by intros ?%elem_of_nil].
  - destruct (split_dollar s) as [ [b a]|]; cbn [fmap option_fmap option_map prod_map fst snd id].
    + destruct IH as [-> Hb]. split; [done|]. intros [?|?]%elem_of_cons; [congruence|done].
    + intros [?|?]%elem_of_cons; [congruence|done].
Qed.
Lemma blank_no_dollar s : blank s = true → 36 ∉ s.
Proof. unfold blank. rewrite forallb_forall. intros H Hin. apply list_elem_of_In in Hin. by apply H in Hin. Qed.
Lemma split_dollar_at b a : 36 ∉ b → split_dollar (b ++ 36 :: a) = Some (b, a).
Proof.
  induction b as [|c b IH]; intros Hb; [done|]. apply not_elem_of_cons in Hb as [Hc Hb]. cbn [app split_dollar].
  rewrite (proj2 (Z.eqb_neq c 36)) by congruence. by rewrite IH.
Qed.

Section Paths.
Context {RE : LegRegex}.

(** What a path expression stands for: blanks, a dollar sign and its legs, at least one if there is
    more than blanks, and the last of them another than [**]. *)
Definition PathMeans (s : chars) (e : local_pathExpression) : Prop :=
  ∃ before after, s = before ++ 36 :: after ∧ blank before = true
  ∧ LegsMean (trim_start_ws after) 0 (find_iter (trim_start_ws after)) (legs e) (flags e)
  ∧ (trim_start_ws after = [] ∨ legs e ≠ []) ∧ ¬ (∃ ls, legs e = ls ++ [DoubleAsterisk]).

Lemma parse_path {L : LegRegexLaws} s :
  (∃ e, PathMeans s e ∧ parse_json_local_path_expr s = Ret (Ok e))
  ∨ (∀ e, ¬ PathMeans s e) ∧ ∃ err, parse_json_local_path_expr s = Ret (Err err).
Proof.
  unfold parse_json_local_path_expr. pose proof (split_dollar_spec s) as Hd. destruct (split_dollar s) as [ [before after]|].
  2:{ right. split; [|by eexists]. intros e (b & a & -> & _). destruct Hd. apply elem_of_app. right. left. }
  destruct Hd as [-> Hd]. assert (∀ e, PathMeans (before ++ 36 :: after) e → blank before = true
    ∧ LegsMean (trim_start_ws after) 0 (find_iter (trim_start_ws after)) (legs e) (flags e)
    ∧ (trim_start_ws after = [] ∨ legs e ≠ []) ∧ ¬ (∃ ls, legs e = ls ++ [DoubleAsterisk])) as Hinv.
  { intros e (b & a & Heq & Hb & H). apply (f_equal split_dollar) in Heq. pose proof (blank_no_dollar b Hb) as Hb'.
    rewrite !split_dollar_at in Heq by done. injection Heq as -> ->. done. }
  destruct (blank before) eqn:Hb; cbn [negb].
  2:{ right. split; [|by eexists]. intros e [? _]%Hinv. done. }
  set (expr := trim_start_ws after) in *. pose proof (L expr) as Hs.
  destruct (parse_legs_spec expr (find_iter expr) 0 [] 0 ltac:(lia) Hs) as [(ls & fl & Hl & ->)|[Hn [err ->] ] ].
  2:{ right. split; [|by eexists]. intros e (_ & Hl & _)%Hinv. by eapply Hn. }
  cbn [mbind outcome_bind app]. change (Z.lor 0 fl) with fl.
  assert ((end_of 0 (find_iter expr) =? 0) = bool_decide (ls = [])) as ->.
  { pose proof (legs_mean_length _ _ _ _ _ Hl) as Hlen. destruct (decide (find_iter expr = [])) as [He|He].
    - rewrite He in *. destruct ls; [done|done].
    - pose proof (end_positive expr _ 0 ltac:(lia) Hs He). rewrite (proj2 (Z.eqb_neq _ _)) by lia.
      rewrite bool_decide_eq_false_2; [done|]. intros ->. destruct (find_iter expr); done. }
  destruct (bool_decide (ls = []) && negb (bool_decide (expr = []))) eqn:Hc.
  { apply andb_true_iff in Hc as [H1 H2]. apply bool_decide_eq_true in H1. apply negb_true_iff, bool_decide_eq_false in H2.
    right. split; [|by eexists]. intros e (_ & Hl' & Hne & _)%Hinv. destruct (legs_mean_unique _ _ _ _ _ _ _ Hl Hl') as [Hls _]. destruct Hne; congruence. }
  assert (expr = [] ∨ ls ≠ []) as Hne.
  { apply andb_false_iff in Hc as [Hc|Hc]; [right; by apply bool_decide_eq_false in Hc|left; by apply negb_false_iff, bool_decide_eq_true in Hc]. }
  assert ((∃ ls', ls = ls' ++ [DoubleAsterisk]) ∨ ((¬ ∃ ls', ls = ls' ++ [DoubleAsterisk])
    ∧ match rev ls with DoubleAsterisk :: _ => Ret (Err Other) | _ => Ret (Ok (mkPath ls fl)) end = Ret (Ok (mkPath ls fl)))) as [ [ls' ->]|[Hlast ->] ].
  { destruct (rev ls) as [|x r] eqn:Hr.
    - right. split; [|done]. intros [ls' ->]. rewrite rev_app_distr in Hr. done.
    - assert (ls = rev r ++ [x]) as -> by by rewrite <- (rev_involutive ls), Hr.
      destruct x; [right|right|left; by eexists]; (split; [|done]); intros [ls' Hls]; apply app_inj_tail in Hls as [_ Hls]; done. }
  - right. rewrite rev_app_distr. split; [|by eexists]. intros e (_ & Hl' & _ & Hlast)%Hinv.
    destruct (legs_mean_unique _ _ _ _ _ _ _ Hl Hl') as [Hls _]. destruct Hlast. by exists ls'.
  - left. exists (mkPath ls fl). split; [|done]. exists before, after. by split_and!.
Qed.

(** C21. Parsing a path expression always ends with a result: it is a path exactly when the expression
    stands for that path, and an error otherwise. *)
Theorem parse_path_exact {L : LegRegexLaws} s :
  ∃ r, parse_json_local_path_expr s = Ret r ∧ ∀ e, r = Ok e ↔ PathMeans s e.
Proof.
  destruct (parse_path s) as [(e & He & ->)|[Hn [err ->] ] ].
  - eexists. split; [done|]. intros e'. split; [by intros [= <-]|]. intros He'. f_equal.
    destruct He as (b & a & -> & Hb & Hl & _), He' as (b' & a' & Heq & Hb' & Hl' & _). apply (f_equal split_dollar) in Heq.
    rewrite !split_dollar_at in Heq by by apply blank_no_dollar. injection Heq as -> ->.
    destruct (legs_mean_unique _ _ _ _ _ _ _ Hl Hl') as [Hls Hfl]. destruct e, e'. cbn in *. by subst.
  - eexists. split; [done|]. intros e. split; [done|]. by intros He%Hn.
Qed.

(** What marks a leg as one that stands for several places. *)
Definition wild (l : local_pathLeg) : Prop := l = Index LOCAL_PATH_EXPR_ARRAY_INDEX_ASTERISK ∨ l = Key LOCAL_PATH_EXPR_ASTERISK ∨ l = DoubleAsterisk.

Lemma decimal_nonneg ds : Forall digit ds → 0 <= decimal ds.
Proof.
  unfold decimal. intros Hds. assert (∀ v, 0 <= v → 0 <= foldl (λ v c, v * 10 + (c - 48)) v ds) as H; [|by apply H].
  induction Hds as [|c ds Hc _ IH]; intros v Hv; [done|]. cbn [foldl]. apply IH. unfold digit in Hc. lia.
Qed.
Lemma means_flag text leg flag : Means text leg flag →
  (flag = 0 ∧ leg ≠ Index LOCAL_PATH_EXPR_ARRAY_INDEX_ASTERISK ∧ leg ≠ DoubleAsterisk) ∨ (wild leg ∧ (flag = 1 ∨ flag = 2)).
Proof.
  destruct 1 as [w1 ds w2 _ _ _ Hds _| | | | |].
  - left. split_and!; [done| |done]. intros [= H]. apply decimal_nonneg in Hds. unfold LOCAL_PATH_EXPR_ARRAY_INDEX_ASTERISK in H. lia.
  - right. split; [by left|by left].
  - left. done.
  - right. split; [right; by left|by left].
  - left. done.
  - right. split; [right; by right|by right].
Qed.

Lemma flags_mean expr from spans legs flags : LegsMean expr from spans legs flags →
  0 <= flags < 4 ∧ (flags ≠ 0 → Exists wild legs)
  ∧ (Exists (λ l, l = Index LOCAL_PATH_EXPR_ARRAY_INDEX_ASTERISK ∨ l = DoubleAsterisk) legs → flags ≠ 0).
Proof.
  induction 1 as [|from a b spans leg legs flag flags _ Hm _ (IH1 & IH2 & IH3)]; [split_and!; try done; by intros ?%Exists_nil|].
  assert (flags = 0 ∨ flags = 1 ∨ flags = 2 ∨ flags = 3) as Hf by lia.
  destruct (means_flag _ _ _ Hm) as [(-> & H1 & H2)|[Hw Hfl] ].
  - rewrite Z.lor_0_l. split_and!; [lia..| |].
    + intros H. apply Exists_cons. right. by apply IH2.
    + intros [ [?|?]|H]%Exists_cons; [done..|by apply IH3].
  - assert (0 <= Z.lor flag flags < 4 ∧ Z.lor flag flags ≠ 0) as [Hb Hn]
      by (destruct Hfl as [->| ->], Hf as [->|[->|[->| ->] ] ]; vm_compute; intuition discriminate).
    split_and!; [lia..| |done]. intros _. apply Exists_cons. by left.
Qed.

(** A path that is said to contain asterisks has a leg that stands for several places, and a path
    with an asterisk in brackets or with [**] is said to contain one. *)
Theorem asterisks_said {L : LegRegexLaws} s e :
  parse_json_local_path_expr s = Ret (Ok e) →
  (contains_any_asterisk e = true → Exists wild (legs e))
  ∧ (Exists (λ l, l = Index LOCAL_PATH_EXPR_ARRAY_INDEX_ASTERISK ∨ l = DoubleAsterisk) (legs e) → contains_any_asterisk e = true).
Proof.
  intros Hp. destruct (parse_path s) as [(e' & He & Hp')|[_ [err Hp'] ] ]; [|congruence]. assert (e' = e) as -> by congruence.
  destruct He as (b & a & _ & _ & Hl & _). apply flags_mean in Hl as (H1 & H2 & H3). unfold contains_any_asterisk.
  assert (flags e = 0 ∨ flags e = 1 ∨ flags e = 2 ∨ flags e = 3) as Hf by lia.
  destruct Hf as [Hf|[Hf|[Hf|Hf] ] ]; rewrite Hf in *; (split; [|intros H; try done; by apply H3 in H]); cbn; intros H; try done; by apply H2.
Qed.
End Paths.

(** ** A matcher *)

Fixpoint span_while (p : Z → bool) (s : chars) : chars * chars :=
  match s with
  | c :: s' => if p c then prod_map (cons c) id (span_while p s') else ([], s)
  | [] => ([], [])
  end.
Lemma span_while_spec p s : s = (span_while p s).1 ++ (span_while p s).2 ∧ Forall (λ c, p c = true) (span_while p s).1.
Proof.
  induction s as [|c s [IH1 IH2] ]; [done|]. cbn [span_while]. destruct (p c) eqn:E; [|done]. cbn [prod_map fst snd id].
  split; [|by constructor]. change (c :: s = c :: ((span_while p s).1 ++ (span_while p s).2)). f_equal. exact IH1.
Qed.

Definition digitb (c : Z) : bool := (48 <=? c) && (c <=? 57).
Definition ident_startb (c : Z) : bool := (65 <=? c) && (c <=? 90) || (97 <=? c) && (c <=? 122) || (c =? 95).
Fixpoint quoted_body (s : chars) : option chars :=
  match s with
  | [] => None
  | c :: s =>
      if c =? 34 then Some []
      else if c =? BACKSLASH then
        match s with [] => None | d :: s => if d =? CHAR_LINEFEED then None else (λ t, BACKSLASH :: d :: t) <$> quoted_body s end
      else cons c <$> quoted_body s
  end.
Definition span_index (s : chars) : chars * chars :=
  match s with c :: s' => if c =? 42 then ([42], s') else span_while digitb s | [] => ([], []) end.
Definition match_brackets (s : chars) : option chars :=
  let '(w1, s1) := span_while is_whitespace s in
  let '(ds, s2) := span_index s1 in
  let '(w2, s3) := span_while is_whitespace s2 in
  match ds, s3 with d :: ds, c :: _ => if c =? 93 then Some (91 :: w1 ++ (d :: ds) ++ w2 ++ [93]) else None | _, _ => None end.
Definition match_member (s : chars) : option chars :=
  let '(w, s1) := span_while is_whitespace s in
  match s1 with
  | c :: s2 =>
      if c =? 42 then Some (46 :: w ++ [42])
      else if c =? 34 then (λ body, 46 :: w ++ 34 :: body ++ [34]) <$> quoted_body s2
      else if ident_startb c then Some (46 :: w ++ c :: (span_while (λ c, ident_startb c || digitb c) s2).1) else None
  | [] => None
  end.
Definition match_leg (s : chars) : option chars :=
  match s with
  | c :: s =>
      if c =? 91 then match_brackets s
      else if c =? 46 then match_member s
      else match s with d :: _ => if (c =? 42) && (d =? 42) then Some [42; 42] else None | [] => None end
  | [] => None
  end.
Fixpoint scan (s : chars) (pos : Z) (skip : nat) : list (Z * Z) :=
  match s with
  | [] => []
  | _ :: s' =>
      match skip with
      | S skip => scan s' (pos + 1) skip
      | O =>
          match match_leg s with
          | Some t => (pos, pos + zlen t) :: scan s' (pos + 1) (pred (length t))
          | None => scan s' (pos + 1) 0
          end
      end
  end.
#[export] Instance sample_regex : LegRegex := λ expr, scan expr 0 0.

Lemma quoted_body_spec n : ∀ s body, (length s <= n)%nat → quoted_body s = Some body → QuotedBody body ∧ ∃ r, s = body ++ 34 :: r.
Proof.
  induction n as [|n IH]; intros [|c s] body Hn; cbn [quoted_body length] in *; try done; [lia|].
  destruct (Z.eqb_spec c 34) as [->|Hc]; [intros [= <-]; split; [constructor|by exists s]|].
  destruct (Z.eqb_spec c BACKSLASH) as [->|Hb].
  - destruct s as [|d s]; [done|]. cbn [length] in Hn. destruct (Z.eqb_spec d CHAR_LINEFEED) as [|Hd]; [done|].
    destruct (quoted_body s) as [t|] eqn:E; [|done]. intros [= <-]. apply IH in E as (Hq & r & ->); [|lia]. split; [by constructor|by exists r].
  - destruct (quoted_body s) as [t|] eqn:E; [|done]. intros [= <-]. apply IH in E as (Hq & r & ->); [|lia]. split; [by constructor|by exists r].
Qed.

Lemma digitb_spec c : digitb c = true → digit c.
Proof. unfold digitb, digit. rewrite andb_true_iff, !Z.leb_le. done. Qed.
Lemma ident_startb_spec c : ident_startb c = true → ident_start c.
Proof. unfold ident_startb, ident_start. rewrite !orb_true_iff, !andb_true_iff, !Z.leb_le, Z.eqb_eq. lia. Qed.

Lemma match_brackets_spec s t : match_brackets s = Some t → LegText t ∧ ∃ r, 91 :: s = t ++ r.
Proof.
  unfold match_brackets. intros H. destruct (span_while_spec is_whitespace s) as [Hs Hw1]. destruct (span_while is_whitespace s) as [w1 s1]. cbn [fst snd] in *. subst s.
  assert (s1 = (span_index s1).1 ++ (span_index s1).2 ∧ ((span_index s1).1 = [42] ∨ Forall digit (span_index s1).1)) as [Hs1 Hds].
  { destruct s1 as [|c s1]; [split; [done|by right]|]. cbn [span_index]. destruct (Z.eqb_spec c 42) as [->|_]; [by auto|].
    destruct (span_while_spec digitb (c :: s1)) as [H1 H2]. split; [done|]. right. eapply Forall_impl; [|exact H2]. apply digitb_spec. }
  destruct (span_index s1) as [ds s2]. cbn [fst snd] in *. subst s1.
  destruct (span_while_spec is_whitespace s2) as [Hs2 Hw2]. destruct (span_while is_whitespace s2) as [w2 s3]. cbn [fst snd] in *. subst s2.
  destruct ds as [|d ds], s3 as [|c s3]; try done. destruct (Z.eqb_spec c 93) as [->|_]; [|done]. injection H as <-.
  split; [change (LegText (91 :: w1 ++ (d :: ds) ++ w2 ++ [93])); destruct Hds as [Hds|Hds]; [rewrite Hds|]; by constructor|]. exists s3. cbn [app]. rewrite <- !app_assoc. cbn [app]. by rewrite <- !app_assoc.
Qed.

Lemma match_member_spec s t : match_member s = Some t → LegText t ∧ ∃ r, 46 :: s = t ++ r.
Proof.
  unfold match_member. intros H. destruct (span_while_spec is_whitespace s) as [Hs Hw]. destruct (span_while is_whitespace s) as [w s1]. cbn [fst snd] in *. subst s.
  destruct s1 as [|c s2]; [done|]. destruct (Z.eqb_spec c 42) as [->|_].
  { injection H as <-. split; [by constructor|]. exists s2. cbn [app]. by rewrite <- app_assoc. }
  destruct (Z.eqb_spec c 34) as [->|_].
  { destruct (quoted_body s2) as [body|] eqn:E; [|done]. injection H as <-. apply (quoted_body_spec (length s2)) in E as (Hq & r & ->); [|done].
    split; [by constructor|]. exists r. cbn [app]. rewrite <- app_assoc. cbn [app]. by rewrite <- app_assoc. }
  destruct (ident_startb c) eqn:Hc; [|done]. injection H as <-. destruct (span_while_spec (λ c, ident_startb c || digitb c) s2) as [Hs2 Hid]. split.
  - constructor; [done|by apply ident_startb_spec|]. eapply Forall_impl; [|exact Hid]. cbn. intros x Hx. apply orb_true_iff in Hx as [Hx|Hx];
      [left; by apply ident_startb_spec|right; by apply digitb_spec].
  - eexists. cbn [app]. rewrite <- app_assoc. cbn [app]. by rewrite <- Hs2.
Qed.

Lemma match_leg_spec s t : match_leg s = Some t → LegText t ∧ ∃ r, s = t ++ r.
Proof.
  destruct s as [|c s]; [done|]. cbn [match_leg]. destruct (Z.eqb_spec c 91) as [->|_]; [apply match_brackets_spec|].
  destruct (Z.eqb_spec c 46) as [->|_]; [apply match_member_spec|]. destruct s as [|d s]; [done|].
  destruct (Z.eqb_spec c 42) as [->|_]; [|done]. destruct (Z.eqb_spec d 42) as [->|_]; [|done]. intros [= <-]. split; [constructor|by exists s].
Qed.

#[export] Instance sample_regex_laws : LegRegexLaws.
Proof.
  intros expr. unfold find_iter, sample_regex. assert (∀ s pos skip from, 0 <= from <= pos + Z.of_nat skip → 0 <= pos → drop (Z.to_nat pos) expr = s →
    spans_ok from expr (scan s pos skip)) as H; [|by apply H].
  intros s. induction s as [|c s IH]; intros pos skip from Hf Hp Hd; [done|].
  assert (drop (Z.to_nat (pos + 1)) expr = s) as Hd'. { replace (Z.to_nat (pos + 1)) with (Z.to_nat pos + 1)%nat by lia. by rewrite <- drop_drop, Hd. }
  assert (length s + 1 + Z.to_nat pos = length expr)%nat as Hl by (apply (f_equal length) in Hd; rewrite length_drop in Hd; cbn in Hd; lia).
  cbn [scan]. destruct skip as [|skip]; [|apply IH; [lia..|done] ]. destruct (match_leg (c :: s)) as [t|] eqn:E; [|apply IH; [lia..|done] ].
  apply match_leg_spec in E as (Ht & r & Hr). assert (length t + length r = S (length s))%nat as Hlen by (apply (f_equal length) in Hr; rewrite length_app in Hr; cbn in Hr; lia).
  pose proof (leg_text_nonempty t Ht) as Hn. cbn [spans_ok]. split_and!; [lia|lia|lia| |].
  - rewrite Hd, Hr. replace (Z.to_nat (pos + zlen t - pos)) with (length t) by lia. by rewrite take_app_length.
  - apply IH; [|lia|done]. destruct t; [done|]. cbn [length pred] in *. lia.
Qed.

(** The tables of the repository's tests. *)
Definition parsed (s : string) : outcome (result local_pathExpression) := parse_json_local_path_expr (texts s).
Definition quote (s : string) : string := String.String (ascii_of_N 34) (s ++ String.String (ascii_of_N 34) EmptyString).
Example path_tests :
  parsed "$" = Ret (Ok (mkPath [] 0)) ∧ parsed "$.a" = Ret (Ok (mkPath [Key (texts "a")] 0))
  ∧ parsed ("$." ++ quote "hello world") = Ret (Ok (mkPath [Key (texts "hello world")] 0))
  ∧ parsed "$[0]" = Ret (Ok (mkPath [Index 0] 0)) ∧ parsed "$**.a" = Ret (Ok (mkPath [DoubleAsterisk; Key (texts "a")] 2))
  ∧ map (λ s, match parsed s with Ret (Err Other) => true | _ => false end) [".a"; "xx$[1]"; "$.a xx .b"; "$[a]"; "$." ++ quote "\u33"; "$**"]%string
    = [true; true; true; true; true; true]
  ∧ map (λ s, match parsed s with Ret (Ok e) => contains_any_asterisk e | _ => false end) ["$.a[b]"; "$.a[*]"; "$.*[b]"; "$**.a[b]"]%string
    = [false; true; true; true].
Proof. vm_compute. repeat split. Qed.

(** What comes after the last leg is not looked at; an index above the largest [i32] is an error; and
    a quoted asterisk is the name that extraction takes for all names, without the flag. *)
Example path_quirks :
  parsed "$.a xx" = Ret (Ok (mkPath [Key (texts "a")] 0)) ∧ parsed "$[2147483648]" = Ret (Err Other)
  ∧ parsed ("$." ++ quote "*") = Ret (Ok (mkPath [Key LOCAL_PATH_EXPR_ASTERISK] 0)).
Proof. vm_compute. repeat split. Qed.

Lemma parse_path_exact_witness : ∃ r, parse_json_local_path_expr (texts "$.a[*]") = Ret r ∧ ∀ e, r = Ok e ↔ PathMeans (texts "$.a[*]") e.
Proof. exact (parse_path_exact (texts "$.a[*]")). Defined.

Lemma asterisks_said_witness : parse_json_local_path_expr (texts "$.a[*]") = Ret (Ok (mkPath [Key (texts "a"); Index (-1)] 1))
  ∧ (contains_any_asterisk (mkPath [Key (texts "a"); Index (-1)] 1) = true → Exists wild [Key (texts "a"); Index (-1)]).
Proof.
  assert (parse_json_local_path_expr (texts "$.a[*]") = Ret (Ok (mkPath [Key (texts "a"); Index (-1)] 1))) as H by (vm_compute; reflexivity).
  split; [exact H|exact (proj1 (asterisks_said _ _ H))].
Defined.
