(* ===== verification/DurationText.v ===== *)
(** * DurationText: reading a duration from a text

    [Duration::parse] and the parser module of [berolinasql/src/duration.rs].  A text is bytes
    that must be UTF-8, then characters ([Paths]).  The combinators of the parser are those of an
    external crate: the class [NomParsers], with what is documented of them as [NomLaws].
    Dates, which a text may also hold, are of a type that no file defines: the class
    [DateTimes]. *)
From Stdlib Require Import ZArith Lia String Ascii.
From stdpp Require Import base list numbers.
From S2P Require Import Prelude Words EvalCtx DecimalBase ToInt Duration Literals Paths.
#[local] Open Scope Z_scope.

#[local] Notation zlen l := (Z.of_nat (length l)).
#[local] Notation chars := (list Z).

(** ** Text *)

(** The character that some bytes begin with, and how many bytes it takes. *)
Definition lead (b : list Z) : Z * nat :=
  let cont i := Z.land (nth i b 0) 63 in
  match b with
  | b0 :: _ =>
      if b0 <? 0x80 then (b0, 1%nat)
      else if b0 <? 0xE0 then (Z.shiftl (Z.land b0 31) 6 + cont 1%nat, 2%nat)
      else if b0 <? 0xF0 then (Z.shiftl (Z.land b0 15) 12 + Z.shiftl (cont 1%nat) 6 + cont 2%nat, 3%nat)
      else (Z.shiftl (Z.land b0 7) 18 + Z.shiftl (cont 1%nat) 12 + Z.shiftl (cont 2%nat) 6 + cont 3%nat, 4%nat)
  | [] => (0, 0%nat)
  end.

(** [str::from_utf8]: each character, whose bytes must be those of its one encoding. *)
Fixpoint utf8_chars (fuel : nat) (b : list Z) : option chars :=
  match b, fuel with
  | [], _ => Some []
  | _, O => None
  | _, S fuel =>
      let '(c, n) := lead b in
      if is_char c && bool_decide (take n b = utf8 c) then cons c <$> utf8_chars fuel (drop n b) else None
  end.
Definition from_utf8 (b : list Z) : option chars := utf8_chars (length b) b.

Definition is_ascii_punctuation (c : Z) : bool :=
  (33 <=? c) && (c <=? 47) || (58 <=? c) && (c <=? 64) || (91 <=? c) && (c <=? 96) || (123 <=? c) && (c <=? 126).
Definition is_space (c : Z) : bool := (c =? 32) || (c =? 9).

(** The combinators: what is left of the input and what was read; [None] is an error. *)
Class NomParsers := {
  digit0 : chars → option (chars * chars);
  digit1 : chars → option (chars * chars);
  space0 : chars → option (chars * chars);
  space1 : chars → option (chars * chars);
  nom_char : Z → chars → option (chars * Z);
  anychar : chars → option (chars * Z);
  opt : (chars → option (chars * Z)) → chars → option (chars * option Z);
}.

Class DateTimes := {
  DateTime : Type;
  parse_datetime : chars → Z → bool → evalM DateTime;
  dt_to_duration : DateTime → evalM Duration;
}.

(** ** The parser *)

Section Parser.
Context {TP : TenPow} {FS : Fsp} {NP : NomParsers} {DT : DateTimes}.

Definition number (input : chars) : option (chars * Z) :=
  '(rest, num) ← digit1 input;
  match from_str_radix 10 U32_MAX num with Ok n => Some (rest, n) | Err _ => None end.

(** [-] is 45, [:] 58, [.] 46, [T] 84. *)
Definition negative (input : chars) : option (chars * bool) :=
  '(rest, dash) ← opt (nom_char 45) input; Some (rest, bool_decide (is_Some dash)).

Definition colon (input : chars) : option chars :=
  '(rest, _) ← space0 input;
  '(rest, _) ← nom_char 58 rest;
  '(rest, _) ← space0 rest;
  Some rest.

(** The loop of [hhmmss_delimited] from [i] on. *)
Fixpoint delimited_loop (n : nat) (i : nat) (require_colon : bool) (rest : chars) (hhmmss : list Z) : option (chars * list Z) :=
  match n with
  | O => Some (rest, hhmmss)
  | S n =>
      match colon rest with
      | Some remain =>
          '(remain, num) ← number remain;
          delimited_loop n (S i) require_colon remain (<[i := num]> hhmmss)
      | None => if bool_decide (i = 1%nat) && require_colon then None else Some (rest, hhmmss)
      end
  end.
Definition hhmmss_delimited (input : chars) (require_colon : bool) : option (chars * list Z) :=
  '(rest, hour) ← number input;
  delimited_loop 2 1 require_colon rest [hour; 0; 0].

Definition day_hhmmss (input : chars) : option (chars * (Z * list Z)) :=
  '(rest, day) ← number input;
  '(rest, _) ← space1 rest;
  '(rest, hhmmss) ← hhmmss_delimited rest false;
  Some (rest, (day, hhmmss)).

Definition hhmmss_compact (input : chars) : option (chars * list Z) :=
  '(rest, num) ← number input;
  Some (rest, [num / 10000; (num / 100) mod 100; num mod 100]).

Definition anysep (input : chars) : option (chars * Z) :=
  '(rest, sep) ← anychar input;
  if is_ascii_punctuation sep then Some (rest, sep) else None.

(** A date and its time of day: the duration, or nothing. *)
Definition datetime (input : chars) (fsp : Z) (ctx : EvalContext) : outcome (option Duration * EvalContext) :=
  '(r, ctx) ← parse_datetime input (as_i8 fsp) true ctx;
  match r with
  | Err _ => Ret (None, ctx)
  | Ok dt => '(r, ctx) ← dt_to_duration dt ctx; Ret (match r with Ok d => Some d | Err _ => None end, ctx)
  end.
Definition hhmmss_datetime (input : chars) (fsp : Z) (ctx : EvalContext) : outcome (option Duration * EvalContext) :=
  match digit1 input with
  | None => Ret (None, ctx)
  | Some (rest, digits) =>
      if (zlen digits =? 12) || (zlen digits =? 14) then datetime input fsp ctx
      else
        let rest := '(rest, _) ← anysep rest; '(rest, _) ← digit1 rest;
                    '(rest, _) ← anysep rest; '(rest, _) ← digit1 rest; Some rest in
        match rest with
        | Some (c :: _) => if (c =? 84) || (c =? 32) then datetime input fsp ctx else Ret (None, ctx)
        | _ => Ret (None, ctx)
        end
  end.

Definition fraction (input : chars) (fsp : Z) : outcome (option (chars * Z)) :=
  match opt (nom_char 46) input with
  | None => Ret None
  | Some (rest, None) => Ret (Some (rest, 0))
  | Some (rest, Some _) =>
      match digit0 rest with
      | None => Ret None
      | Some (rest, digits) =>
          let '(num, len) := if zlen digits <=? fsp then (number digits, zlen digits)
                             else (number (take (Z.to_nat (fsp + 1)) digits), fsp + 1) in
          match num with
          | None => Ret None
          | Some (_, frac) =>
              t ← get TEN_POW (Z.max 0 (NANO_WIDTH - len));
              f ← u32 (frac * t);
              Ret (Some (rest, f))
          end
      end
  end.

(** The three forms of a time of day, in the order they are tried. *)
Definition hhmmss_any (rest : chars) : option (chars * list Z) :=
  let with_days :=
    '(rest, (day, hhmmss)) ← day_hhmmss rest;
    match hhmmss with
    | [hh; mm; ss] =>
        hours ← checked 0 U32_MAX (day * 24); hours ← checked 0 U32_MAX (hours + hh);
        Some (rest, [hours; mm; ss])
    | _ => None
    end in
  match with_days with
  | Some r => Some r
  | None => match hhmmss_delimited rest true with Some r => Some r | None => hhmmss_compact rest end
  end.

(** The fraction, the end of the text, and the duration made of the parts. *)
Definition with_fraction (neg : bool) (rest : chars) (hhmmss : list Z) (fsp : Z) : outcome (option (result Duration)) :=
  match space0 rest with
  | None => Ret None
  | Some (rest, _) =>
      r ← fraction rest fsp;
      match r, hhmmss with
      | Some ([], frac), [hh; mm; ss] => d ← new_from_parts neg hh mm ss frac (as_i8 fsp); Ret (Some d)
      | _, _ => Ret None
      end
  end.

(** The sign, and what comes after the spaces. *)
Definition signed (input : chars) : option (chars * bool) :=
  '(rest, neg) ← negative input; '(rest, _) ← space0 rest; Some (rest, neg).

Definition parse (input : chars) (fsp : Z) (ctx : EvalContext) : outcome (option Duration * EvalContext) :=
  match input with
  | [] => Ret (Some dur_zero, ctx)
  | _ =>
      match signed input with
      | None => Ret (None, ctx)
      | Some (rest, neg) =>
          first ← match hhmmss_any rest with
                  | Some (rest, hhmmss) => with_fraction neg rest hhmmss fsp
                  | None => Ret None
                  end;
          match first with
          | None => hhmmss_datetime rest fsp ctx
          | Some (Ok d) => Ret (Some d, ctx)
          | Some (Err err) =>
              if is_over_causetxctx err then
                match handle_overCausetxctx_err ctx truncated_wrong_val with
                | (Ok _, ctx) => Ret (Some (mkDuration 0 (if neg then - MAX_NANOS else MAX_NANOS) fsp), ctx)
                | (Err _, ctx) => Ret (None, ctx)
                end
              else Ret (None, ctx)
          end
      end
  end.

(** [ok_or_else] *)
Definition ok_or {A} (o : option A) (e : Error) : result A := match o with Some a => Ok a | None => Err e end.

Definition dur_parse (input : list Z) (fsp : Z) : evalM Duration := λ ctx,
  match from_utf8 input with
  | None => Ret (Err Other, ctx)
  | Some input =>
      match check_fsp fsp with
      | Err e => Ret (Err e, ctx)
      | Ok fsp =>
          '(o, ctx) ← parse (trim input) fsp ctx;
          Ret (ok_or o truncated_wrong_val, ctx)
      end
  end.
End Parser.

(** ** UTF-8 *)

Lemma lead_utf8 c b : is_char c = true → lead (utf8 c ++ b) = (c, length (utf8 c)).
Proof.
  intros Hc. assert (0 <= c <= 0x10FFFF) as Hr by (unfold is_char in Hc; repeat case_Z; cbn in Hc; lia).
  assert (∀ x, Z.land x 63 = x mod 64) as H6 by (intros; apply (Z.land_ones _ 6); lia).
  assert (∀ x, Z.land x 31 = x mod 32) as H5 by (intros; apply (Z.land_ones _ 5); lia).
  assert (∀ x, Z.land x 15 = x mod 16) as H4 by (intros; apply (Z.land_ones _ 4); lia).
  assert (∀ x, Z.land x 7 = x mod 8) as H3 by (intros; apply (Z.land_ones _ 3); lia).
  unfold utf8. destruct (Z.ltb_spec c 0x80); [|destruct (Z.ltb_spec c 0x800); [|destruct (Z.ltb_spec c 0x10000)] ]; cbn [app lead nth length].
  all: rewrite ?Z.shiftr_div_pow2, ?H6, ?H5, ?H4, ?H3, ?Z.shiftl_mul_pow2 by lia.
  - by rewrite (proj2 (Z.ltb_lt _ _)).
  - rewrite (proj2 (Z.ltb_ge _ _)), (proj2 (Z.ltb_lt _ _)) by zdiv. f_equal. zdiv.
  - rewrite (proj2 (Z.ltb_ge _ _)), (proj2 (Z.ltb_ge _ _)), (proj2 (Z.ltb_lt _ _)) by zdiv. f_equal. zdiv.
  - rewrite (proj2 (Z.ltb_ge _ _)), (proj2 (Z.ltb_ge _ _)), (proj2 (Z.ltb_ge _ _)) by zdiv. f_equal. zdiv.
Qed.

(** What is written in UTF-8 is read back. *)
Lemma from_utf8_into_bytes s : Forall (λ c, is_char c = true) s → from_utf8 (into_bytes s) = Some s.
Proof.
  intros Hs. unfold from_utf8. assert (∀ fuel, (length (into_bytes s) <= fuel)%nat → utf8_chars fuel (into_bytes s) = Some s) as H; [|by apply H].
  unfold into_bytes. induction Hs as [|c s Hc _ IH]; intros fuel Hf; [by destruct fuel|]. cbn [map concat] in *.
  assert (∃ x l, utf8 c = x :: l) as (x & l & Hx) by (unfold utf8; repeat case_match; eauto).
  rewrite length_app in Hf. pose proof (lead_utf8 c (concat (map utf8 s)) Hc) as Hl. rewrite Hx in *. cbn [app length] in *.
  destruct fuel as [|fuel]; [lia|]. cbn [utf8_chars]. rewrite Hl, Hc. cbn [take drop andb].
  rewrite take_app_length, bool_decide_eq_true_2, drop_app_length, IH by (done || lia). done.
Qed.

Lemma ascii_utf8 s : Forall (λ c, 0 <= c < 128) s → from_utf8 s = Some s.
Proof.
  intros Hs. assert (into_bytes s = s) as Hb.
  { unfold into_bytes. induction Hs as [|c s Hc _ IH]; [done|]. cbn [map concat]. rewrite IH. unfold utf8. by rewrite (proj2 (Z.ltb_lt _ _)) by lia. }
  rewrite <- Hb at 1. apply from_utf8_into_bytes. eapply List.Forall_impl; [|exact Hs]. intros c Hc. cbv beta in Hc. unfold is_char.
  rewrite (proj2 (Z.leb_le _ _)), (proj2 (Z.ltb_lt _ _)) by lia. done.
Qed.

(** ** What the combinators do *)

Definition stops (p : Z → bool) (s : chars) : Prop := match s with c :: _ => p c = false | [] => True end.
Lemma span_at p d r : Forall (λ c, p c = true) d → stops p r → span_while p (d ++ r) = (d, r).
Proof.
  induction 1 as [|c d Hc _ IH]; intros Hr.
  - destruct r as [|c r]; [done|]. cbn in *. by rewrite Hr.
  - cbn [app span_while]. by rewrite Hc, IH.
Qed.
Lemma span_split p s : ∃ d r, s = d ++ r ∧ Forall (λ c, p c = true) d ∧ stops p r.
Proof.
  induction s as [|c s (d & r & -> & Hd & Hr)]; [by exists [], []|]. destruct (p c) eqn:E.
  - exists (c :: d), r. by repeat constructor.
  - exists [], (c :: d ++ r). by repeat constructor.
Qed.

Class NomLaws {NP : NomParsers} : Prop := {
  digit0_law s : digit0 s = Some ((span_while is_digit s).2, (span_while is_digit s).1);
  digit1_law s : digit1 s = match span_while is_digit s with ([], _) => None | (d, r) => Some (r, d) end;
  space0_law s : space0 s = Some ((span_while is_space s).2, (span_while is_space s).1);
  space1_law s : space1 s = match span_while is_space s with ([], _) => None | (d, r) => Some (r, d) end;
  nom_char_law c s : nom_char c s = match s with x :: r => if x =? c then Some (r, x) else None | [] => None end;
  anychar_law s : anychar s = match s with x :: r => Some (r, x) | [] => None end;
  opt_law p s : opt p s = Some match p s with Some (r, x) => (r, Some x) | None => (s, None) end;
}.

(** ** The grammar of a duration *)

(** Digits that spell a number of 32 bits; spaces. *)
Definition num (ds : chars) (n : Z) : Prop := ds ≠ [] ∧ Forall (λ c, is_digit c = true) ds ∧ digits_val ds = n ∧ n <= U32_MAX.
Definition gap (s : chars) : Prop := Forall (λ c, is_space c = true) s.

(** A time of day, with or without a colon: hours, and minutes and seconds. *)
Inductive Clock : bool → chars → list Z → Prop :=
| clock_h ds h : num ds h → Clock false ds [h; 0; 0]
| clock_hm ds h g1 g2 ms m : num ds h → gap g1 → gap g2 → num ms m → Clock true (ds ++ g1 ++ 58 :: g2 ++ ms) [h; m; 0]
| clock_hms ds h g1 g2 ms m g3 g4 ss s : num ds h → gap g1 → gap g2 → num ms m → gap g3 → gap g4 → num ss s →
    Clock true (ds ++ g1 ++ 58 :: g2 ++ ms ++ g3 ++ 58 :: g4 ++ ss) [h; m; s].

(** Days and a time of day, a time of day with a colon, or the digits of HHMMSS. *)
Inductive TimeText : chars → list Z → Prop :=
| parts_day ds d g b c h m s : num ds d → gap g → g ≠ [] → Clock b c [h; m; s] → d * 24 + h <= U32_MAX → TimeText (ds ++ g ++ c) [d * 24 + h; m; s]
| parts_clock c p : Clock true c p → TimeText c p
| parts_compact ds n : num ds n → TimeText ds [n / 10000; (n / 100) mod 100; n mod 100].

(** A fraction counts with one digit more than the precision, in nanoseconds. *)
Inductive Fraction (fsp : Z) : chars → Z → Prop :=
| no_fraction : Fraction fsp [] 0
| some_fraction ds : ds ≠ [] → Forall (λ c, is_digit c = true) ds →
    Fraction fsp (46 :: ds) (let ds := take (Z.to_nat (fsp + 1)) ds in digits_val ds * 10 ^ (9 - zlen ds)).

Definition DurationText (fsp : Z) (t : chars) (neg : bool) (p : list Z) (n : Z) : Prop :=
  ∃ g0 c g f, t = (if neg then [45] else []) ++ g0 ++ c ++ g ++ f ∧ gap g0 ∧ gap g ∧ TimeText c p ∧ Fraction fsp f n.

(** ** The parser follows the grammar *)

Lemma radix_digits_val hi ds : Forall (λ c, is_digit c = true) ds → ∀ v, 0 <= v →
  let x := wval_acc 10 v (map (λ c, c - 48) ds) in
  v <= x ∧ radix_digits 10 hi v ds = if (x <=? hi) || bool_decide (ds = []) then Ok x else Err Other.
Proof.
  induction 1 as [|c ds Hc _ IH]; intros v Hv.
  { cbv zeta. split; [cbn; lia|]. rewrite bool_decide_eq_true_2, orb_true_r by done. done. }
  cbn [map wval_acc radix_digits].
  assert (48 <= c <= 57) as Hr by (unfold is_digit in Hc; repeat case_Z; cbn in Hc; lia).
  unfold radix_digit. rewrite (proj2 (Z.leb_le _ _)), (proj2 (Z.leb_le _ _)) by lia. cbn [andb]. rewrite (proj2 (Z.ltb_lt _ _)) by lia.
  destruct (IH (v * 10 + (c - 48)) ltac:(lia)) as [Hle ->]. cbv zeta. split; [lia|]. rewrite (bool_decide_eq_false_2 (c :: ds = [])) by done. rewrite orb_false_r.
  destruct (Z.leb_spec (v * 10 + (c - 48)) hi).
  - destruct (Z.leb_spec (wval_acc 10 (v * 10 + (c - 48)) (map (λ c, c - 48) ds)) hi); [done|].
    destruct ds; [cbn in *; lia|]. done.
  - by rewrite (proj2 (Z.leb_gt _ _)) by lia.
Qed.
Lemma from_str_radix_val hi ds : ds ≠ [] → Forall (λ c, is_digit c = true) ds →
  from_str_radix 10 hi ds = if digits_val ds <=? hi then Ok (digits_val ds) else Err Other.
Proof.
  intros Hne Hd. destruct (radix_digits_val hi ds Hd 0 ltac:(lia)) as [_ H]. rewrite (bool_decide_eq_false_2 (ds = [])), orb_false_r in H by done.
  unfold digits_val, wval. rewrite <- H. destruct ds as [|c ds]; [done|]. apply Forall_cons_iff in Hd as [Hc _]. unfold is_digit in Hc. unfold from_str_radix.
  destruct (Z.eqb_spec c 43) as [->|Hn]; [done|]. destruct c as [|p|p]; try done. do 6 (destruct p; try done).
Qed.

Section Grammar.
Context {TP : TenPow} {FS : Fsp} {NP : NomParsers} {NL : NomLaws} {DT : DateTimes}.

Lemma number_at ds n r : num ds n → stops is_digit r → number (ds ++ r) = Some (r, n).
Proof.
  intros (Hne & Hd & <- & Hn) Hr. unfold number. rewrite digit1_law, span_at by done. destruct ds as [|c ds]; [done|].
  cbn [mbind option_bind]. rewrite from_str_radix_val by done. by rewrite (proj2 (Z.leb_le _ _)).
Qed.
Lemma number_inv s r n : number s = Some (r, n) → ∃ ds, s = ds ++ r ∧ num ds n ∧ stops is_digit r.
Proof.
  destruct (span_split is_digit s) as (d & r' & -> & Hd & Hr). unfold number. rewrite digit1_law, span_at by done.
  destruct d as [|c d]; [done|]. cbn [mbind option_bind]. rewrite from_str_radix_val by done.
  destruct (Z.leb_spec (digits_val (c :: d)) U32_MAX); [|done]. intros [= <- <-]. by exists (c :: d).
Qed.
Lemma number_none r : stops is_digit r → number r = None.
Proof. intros Hr. unfold number. rewrite digit1_law. pose proof (span_at is_digit [] r ltac:(constructor) Hr) as H. cbn [app] in H. by rewrite H. Qed.

Lemma space0_at g r : gap g → stops is_space r → space0 (g ++ r) = Some (r, g).
Proof. intros Hg Hr. rewrite space0_law. by rewrite span_at. Qed.
Lemma space1_at g r : gap g → g ≠ [] → stops is_space r → space1 (g ++ r) = Some (r, g).
Proof. intros Hg Hn Hr. rewrite space1_law, span_at by done. by destruct g. Qed.

Lemma colon_at g1 g2 r : gap g1 → gap g2 → stops is_space r → colon (g1 ++ 58 :: g2 ++ r) = Some r.
Proof.
  intros H1 H2 Hr. unfold colon. rewrite space0_at by done. cbn [mbind option_bind]. rewrite nom_char_law, Z.eqb_refl. cbn [mbind option_bind].
  by rewrite space0_at.
Qed.
Lemma colon_inv s r : colon s = Some r → ∃ g1 g2, s = g1 ++ 58 :: g2 ++ r ∧ gap g1 ∧ gap g2 ∧ stops is_space r.
Proof.
  destruct (span_split is_space s) as (g1 & s1 & -> & H1 & Hs1). unfold colon. rewrite space0_at by done. cbn [mbind option_bind]. rewrite nom_char_law.
  destruct s1 as [|c s1]; [done|]. destruct (Z.eqb_spec c 58) as [->|]; [|done]. cbn [mbind option_bind].
  destruct (span_split is_space s1) as (g2 & s2 & -> & H2 & Hs2). rewrite space0_at by done. intros [= <-]. by exists g1, g2.
Qed.

(** The end of a time of day: spaces, and the fraction or nothing. *)
Definition ending (r : chars) : Prop := ∃ g f, r = g ++ f ∧ gap g ∧ (f = [] ∨ ∃ ds, f = 46 :: ds).
Lemma ending_stops r : ending r → stops is_digit r ∧ colon r = None.
Proof.
  intros (g & f & -> & Hg & Hf). assert (stops is_space f) as Hsp by by destruct Hf as [->|[ds ->] ]. split.
  - destruct Hg as [|c g Hc _]; [by destruct Hf as [->|[ds ->] ]|]. cbn. unfold is_space in Hc. unfold is_digit. by repeat case_Z; cbn in *; lia.
  - unfold colon. rewrite space0_at by done. cbn [mbind option_bind]. rewrite nom_char_law. by destruct Hf as [->|[ds ->] ].
Qed.

(** *** The time of day *)

Lemma delimited_inv s req r p : hhmmss_delimited s req = Some (r, p) →
  ∃ b c, s = c ++ r ∧ Clock b c p ∧ (req = true → b = true) ∧ stops is_digit r ∧ length p = 3%nat.
Proof.
  unfold hhmmss_delimited. destruct (number s) as [ [r1 h]|] eqn:E1; [|done]. apply number_inv in E1 as (ds & -> & Hh & Hr1).
  cbn [mbind option_bind delimited_loop]. destruct (colon r1) as [r2|] eqn:C1.
  2:{ destruct (_ && req) eqn:Er; [done|]. intros [= <- <-]. exists false, ds. split_and!; [done|by constructor| |done..]. by destruct req. }
  apply colon_inv in C1 as (g1 & g2 & -> & H1 & H2 & _). destruct (number r2) as [ [r3 m]|] eqn:E2; [|done].
  apply number_inv in E2 as (ms & -> & Hm & Hr3). cbn [mbind option_bind]. destruct (colon r3) as [r4|] eqn:C2.
  2:{ intros [= <- <-]. exists true, (ds ++ g1 ++ 58 :: g2 ++ ms). split_and!; [by rewrite <- !app_assoc; cbn [app]; rewrite <- !app_assoc|by constructor|done..]. }
  apply colon_inv in C2 as (g3 & g4 & -> & H3 & H4 & _). destruct (number r4) as [ [r5 sec]|] eqn:E3; [|done].
  apply number_inv in E3 as (ss & -> & Hs & Hr5). intros [= <- <-].
  exists true, (ds ++ g1 ++ 58 :: g2 ++ ms ++ g3 ++ 58 :: g4 ++ ss). split_and!; [|by constructor|done..].
  repeat (rewrite <- ?app_assoc; cbn [app]). done.
Qed.

Lemma num_stops_space ds n r : num ds n → stops is_space (ds ++ r).
Proof.
  intros (Hne & Hd & _). destruct ds as [|c ds]; [done|]. apply Forall_cons_iff in Hd as [Hc _]. cbn.
  unfold is_digit in Hc. unfold is_space. by repeat case_Z; cbn in *; lia.
Qed.
Lemma gap_not_digit g r : gap g → g ≠ [] → stops is_digit (g ++ r).
Proof. intros Hg Hn. destruct Hg as [|c g Hc _]; [done|]. cbn. unfold is_space in Hc. unfold is_digit. by repeat case_Z; cbn in *; lia. Qed.
Lemma gap_stops_digit g r : gap g → stops is_digit r → stops is_digit (g ++ r).
Proof. intros Hg Hr. destruct g; [done|]. by apply gap_not_digit. Qed.

Lemma delimited_at b c p req r : Clock b c p → (req = true → b = true) → stops is_digit r → colon r = None →
  hhmmss_delimited (c ++ r) req = Some (r, p).
Proof.
  intros Hc Hreq Hr Hn. unfold hhmmss_delimited. destruct Hc as [ds h Hh|ds h g1 g2 ms m Hh H1 H2 Hm|ds h g1 g2 ms m g3 g4 ss s Hh H1 H2 Hm H3 H4 Hs].
  - rewrite (number_at ds h r) by done. cbn [mbind option_bind delimited_loop]. rewrite Hn. by destruct req; [specialize (Hreq eq_refl)|].
  - repeat (rewrite <- ?app_assoc; cbn [app]). rewrite (number_at ds h) by (try apply gap_stops_digit; done).
    cbn [mbind option_bind delimited_loop]. rewrite colon_at by (try eapply num_stops_space; done).
    rewrite (number_at ms m) by done. cbn [mbind option_bind]. by rewrite Hn.
  - repeat (rewrite <- ?app_assoc; cbn [app]). rewrite (number_at ds h) by (try apply gap_stops_digit; done).
    cbn [mbind option_bind delimited_loop]. rewrite colon_at by (try eapply num_stops_space; done).
    rewrite (number_at ms m) by (try apply gap_stops_digit; done). cbn [mbind option_bind].
    rewrite colon_at by (try eapply num_stops_space; done). by rewrite (number_at ss s) by done.
Qed.

(** *** The three forms *)

Lemma num_nonneg ds n : num ds n → 0 <= n.
Proof. intros (_ & Hd & <- & _). by apply digits_val_bound. Qed.
Lemma clock_nonneg b c h m s : Clock b c [h; m; s] → 0 <= h ∧ 0 <= m ∧ 0 <= s.
Proof. intros H. inversion H; subst; repeat match goal with Hn : num _ _ |- _ => apply num_nonneg in Hn end; lia. Qed.
Lemma parts_nonneg c h m s : TimeText c [h; m; s] → 0 <= h ∧ 0 <= m ∧ 0 <= s.
Proof.
  intros H. inversion H as [ds d g b c' h' m' s' Hd _ _ Hc _|c' p Hc|ds n Hn]; subst.
  - apply num_nonneg in Hd. apply clock_nonneg in Hc. lia.
  - by apply clock_nonneg in Hc.
  - apply num_nonneg in Hn. zdiv.
Qed.

Lemma day_inv s r d p : day_hhmmss s = Some (r, (d, p)) →
  ∃ ds g b c, s = (ds ++ g ++ c) ++ r ∧ num ds d ∧ gap g ∧ g ≠ [] ∧ Clock b c p.
Proof.
  unfold day_hhmmss. destruct (number s) as [ [r1 n]|] eqn:E1; [|done]. apply number_inv in E1 as (ds & -> & Hd & _). cbn [mbind option_bind].
  destruct (span_split is_space r1) as (g & r2 & -> & Hg & Hr2). rewrite space1_law, span_at by done. destruct g as [|x g]; [done|]. cbn [mbind option_bind].
  destruct (hhmmss_delimited r2 false) as [ [r3 q]|] eqn:E2; [|done]. apply delimited_inv in E2 as (b & c & -> & Hc & _). intros [= <- <- <-].
  exists ds, (x :: g), b, c. split_and!; [by rewrite <- !app_assoc|done..].
Qed.
Lemma day_none ds n r : num ds n → stops is_digit r → (∀ g r', r = g ++ r' → gap g → stops is_space r' → stops is_digit r') →
  day_hhmmss (ds ++ r) = None.
Proof.
  intros Hn Hr Hsp. unfold day_hhmmss. rewrite (number_at ds n r) by done. cbn [mbind option_bind].
  destruct (span_split is_space r) as (g & r' & Heq & Hg & Hr'). specialize (Hsp g r' Heq Hg Hr'). rewrite Heq, space1_law, span_at by done.
  destruct g; [done|]. cbn [mbind option_bind]. unfold hhmmss_delimited. by rewrite number_none.
Qed.

Lemma gap_unique g1 r1 g2 r2 : g1 ++ r1 = g2 ++ r2 → gap g1 → gap g2 → stops is_space r1 → stops is_space r2 → r1 = r2.
Proof. intros Heq H1 H2 Hr1 Hr2. apply (f_equal (span_while is_space)) in Heq. rewrite !span_at in Heq by done. by injection Heq. Qed.
Lemma ending_after_gap r g r' : ending r → r = g ++ r' → gap g → stops is_space r' → stops is_digit r'.
Proof.
  intros (g0 & f & -> & Hg0 & Hf) Heq Hg Hr'. assert (f = r') as <-; [|by destruct Hf as [->|[ds ->] ] ].
  apply (gap_unique g0 f g r'); try done. by destruct Hf as [->|[ds ->] ].
Qed.
Lemma colon_after_gap g1 r g r' : gap g1 → g1 ++ 58 :: r = g ++ r' → gap g → stops is_space r' → stops is_digit r'.
Proof. intros H1 Heq Hg Hr'. by rewrite <- (gap_unique g1 (58 :: r) g r'). Qed.

Lemma checked_u32 n : 0 <= n <= U32_MAX → checked 0 U32_MAX n = Some n.
Proof. intros H. by apply checked_Some. Qed.

Lemma any_inv s r p : hhmmss_any s = Some (r, p) → ∃ c, s = c ++ r ∧ TimeText c p.
Proof.
  unfold hhmmss_any. intros H. assert (∀ o : option (chars * list Z), match o with Some x => Some x
    | None => match hhmmss_delimited s true with Some x => Some x | None => hhmmss_compact s end end = Some (r, p) →
    o = Some (r, p) ∨ hhmmss_delimited s true = Some (r, p) ∨ hhmmss_compact s = Some (r, p)) as Hcases.
  { intros [x|]; [by left|]. destruct (hhmmss_delimited s true); by auto. }
  apply Hcases in H as [H|[H|H] ]; clear Hcases.
  - destruct (day_hhmmss s) as [ [r1 [d q] ]|] eqn:E; [|done]. apply day_inv in E as (ds & g & b & c & -> & Hd & Hg & Hgn & Hc). cbn [mbind option_bind] in H.
    destruct q as [|hh [|mm [|ss [|] ] ] ]; try done. apply bind_Some in H as (x & Hx & H). apply bind_Some in H as (y & Hy & H). injection H as <- <-.
    apply checked_Some in Hx as (-> & _ & _). apply checked_Some in Hy as (-> & Hy1 & Hy2). exists (ds ++ g ++ c). split; [done|].
    apply (parts_day ds d g b c hh mm ss); done.
  - apply delimited_inv in H as (b & c & -> & Hc & Hb & _). exists c. split; [done|]. constructor. by rewrite (Hb eq_refl) in Hc.
  - unfold hhmmss_compact in H. destruct (number s) as [ [r1 n]|] eqn:E1; [|done]. injection H as <- <-.
    apply number_inv in E1 as (ds & -> & Hn & _). exists ds. split; [done|]. by constructor.
Qed.

Lemma any_at c p r : TimeText c p → ending r → hhmmss_any (c ++ r) = Some (r, p).
Proof.
  intros Hp He. destruct (ending_stops r He) as [Hr Hn]. unfold hhmmss_any. destruct Hp as [ds d g b c h m s Hd Hg Hgn Hc Hmax|c p Hc|ds n Hd].
  - rewrite <- !app_assoc. unfold day_hhmmss. assert (stops is_space (c ++ r)) as Hcr.
    { inversion Hc; subst; repeat rewrite <- ?app_assoc; by eapply num_stops_space. }
    rewrite (number_at ds d) by (try apply gap_not_digit; done).
    cbn [mbind option_bind]. rewrite space1_at by done. cbn [mbind option_bind]. rewrite (delimited_at b c [h; m; s]) by done. cbn [mbind option_bind].
    apply num_nonneg in Hd. apply clock_nonneg in Hc as (Hh & _). rewrite (checked_u32 (d * 24)) by lia. cbn [mbind option_bind]. by rewrite checked_u32 by lia.
  - rewrite (delimited_at true c p) by done. assert (day_hhmmss (c ++ r) = None) as ->; [|done].
    inversion Hc as [|ds h g1 g2 ms m Hh H1 H2 Hm|ds h g1 g2 ms m g3 g4 ss s Hh H1 H2 Hm H3 H4 Hs]; subst; repeat (rewrite <- ?app_assoc; cbn [app]).
    + apply (day_none ds h); [done|by apply gap_stops_digit|]. intros g r' Heq. by apply (colon_after_gap _ _ _ _ H1 Heq).
    + apply (day_none ds h); [done|by apply gap_stops_digit|]. intros g r' Heq. by apply (colon_after_gap _ _ _ _ H1 Heq).
  - rewrite (day_none ds n r) by (try done; intros g r' Heq; by apply ending_after_gap with (1 := He)). cbn [mbind option_bind].
    unfold hhmmss_delimited, hhmmss_compact. rewrite (number_at ds n r) by done. cbn [mbind option_bind delimited_loop]. by rewrite Hn.
Qed.

(** *** The fraction *)

Lemma fraction_value fsp ds r : 0 <= fsp <= 6 → ds ≠ [] → Forall (λ c, is_digit c = true) ds → stops is_digit r →
  let ds' := take (Z.to_nat (fsp + 1)) ds in
  0 <= digits_val ds' * 10 ^ (9 - zlen ds') <= 999999999
  ∧ fraction (46 :: ds ++ r) fsp = Ret (Some (r, digits_val ds' * 10 ^ (9 - zlen ds'))).
Proof.
  intros Hf Hne Hd Hr ds'. assert (Forall (λ c, is_digit c = true) ds') as Hd' by by apply list.Forall_take.
  assert (1 <= zlen ds' <= 7) as Hlen. { subst ds'. rewrite length_take. destruct ds; [done|]. cbn [length]. lia. }
  pose proof (digits_val_bound ds' Hd') as Hb. assert (ds' ≠ []) as Hne' by (intros E; rewrite E in Hlen; cbn in Hlen; lia).
  assert (10 ^ zlen ds' * 10 ^ (9 - zlen ds') = 1000000000) as Hp by (rewrite <- Z.pow_add_r by lia; by replace (zlen ds' + (9 - zlen ds')) with 9 by lia).
  assert (0 < 10 ^ (9 - zlen ds')) by (apply Z.pow_pos_nonneg; lia). assert (10 ^ zlen ds' <= 10 ^ 7) by (apply Z.pow_le_mono_r; lia).
  assert (digits_val ds' * 10 ^ (9 - zlen ds') < 10 ^ zlen ds' * 10 ^ (9 - zlen ds')) as Hlt by (apply Z.mul_lt_mono_pos_r; lia).
  split; [nia|]. unfold fraction. rewrite opt_law, nom_char_law, Z.eqb_refl, digit0_law, span_at by done. cbn [fst snd].
  assert (number ds' = Some ([], digits_val ds')) as Hnum.
  { rewrite <- (app_nil_r ds') at 1. apply number_at; [|done]. split_and!; [done..|mach; lia]. }
  assert ((if zlen ds <=? fsp then (number ds, zlen ds) else (number (take (Z.to_nat (fsp + 1)) ds), fsp + 1)) = (Some ([] : chars, digits_val ds'), zlen ds')) as ->.
  { destruct (Z.leb_spec (zlen ds) fsp) as [Hle|Hgt]; subst ds'.
    - rewrite take_ge in * by lia. by rewrite Hnum.
    - rewrite Hnum, length_take. f_equal. lia. }
  cbv beta iota zeta. rewrite Z.max_r, TEN_POW_get by (unfold NANO_WIDTH; lia). bindr. change NANO_WIDTH with 9. rewrite u32_ok by (mach; nia). done.
Qed.

Lemma fraction_cases fsp f : 0 <= fsp <= 6 →
  (∃ n, Fraction fsp f n ∧ 0 <= n <= 999999999 ∧ fraction f fsp = Ret (Some ([], n)))
  ∨ (∀ n, ¬ Fraction fsp f n) ∧ (fraction f fsp = Ret None ∨ ∃ c r n, fraction f fsp = Ret (Some (c :: r, n))).
Proof.
  intros Hfsp. destruct f as [|c f].
  { left. exists 0. split; [constructor|]. split; [lia|]. unfold fraction. by rewrite opt_law, nom_char_law. }
  destruct (Z.eq_dec c 46) as [->|Hc].
  2:{ right. split; [by intros n H; inversion H|]. right. exists c, f, 0. unfold fraction. rewrite opt_law, nom_char_law. by rewrite (proj2 (Z.eqb_neq _ _)). }
  destruct (span_split is_digit f) as (ds & r & -> & Hd & Hr). destruct ds as [|d ds].
  { right. split.
    - intros n H. inversion H as [|ds Hne Hds]; subst. cbn [app] in *. destruct r as [|x r]; [done|]. apply Forall_cons_iff in Hds as [Hx _]. cbn in Hr. congruence.
    - left. unfold fraction. rewrite opt_law, nom_char_law, Z.eqb_refl, digit0_law, span_at by done. cbn [fst snd length].
      rewrite (proj2 (Z.leb_le _ _)) by lia. by rewrite (number_none []). }
  destruct (fraction_value fsp (d :: ds) r Hfsp ltac:(done) Hd Hr) as [Hb He]. rewrite He. destruct r as [|x r].
  - left. eexists. split; [|done]. rewrite app_nil_r. by constructor.
  - right. split; [|right; by eexists _, _, _]. intros n H. inversion H as [|ds' Hne Hds]; subst. apply Forall_cons_iff in Hds as [_ Hds]. apply Forall_app in Hds as [_ Hds].
    apply Forall_cons_iff in Hds as [Hx _]. cbn in Hr. congruence.
Qed.

(** ** The duration of a text *)

(** What the parts of a text make: nothing when the minutes or seconds are out of range or the
    rounded duration is, the longest duration for more hours than there may be, where an
    overflow is a warning. *)
Definition text_result (fsp : Z) (neg : bool) (h m s n : Z) (ctx : EvalContext) : option Duration * EvalContext :=
  let sign := if neg then -1 else 1 in
  let r := round_half_away (sign * (((h * 60 + m) * 60 + s) * 1000000000 + n)) (step fsp) in
  if decide (m <= 59 ∧ s <= 59) then
    if decide (h <= 838) then (if decide (- MAX_NANOS <= r <= MAX_NANOS) then Some (mkDuration 0 r fsp) else None, ctx)
    else if has_flag ctx OVERCausetxctx_AS_WARNING then (Some (mkDuration 0 (if neg then - MAX_NANOS else MAX_NANOS) fsp), warn ctx truncated_wrong_val)
    else (None, ctx)
  else (None, ctx).

Lemma new_from_parts_cases neg h m s n f : 0 <= h → 0 <= m → 0 <= s → 0 <= n <= 999999999 → 0 <= f <= 6 →
  new_from_parts neg h m s n f = Ret (
    if decide (m <= 59 ∧ s <= 59) then
      if decide (h <= 838) then
        let r := round_half_away ((if neg then -1 else 1) * (((h * 60 + m) * 60 + s) * 1000000000 + n)) (step f) in
        if decide (- MAX_NANOS <= r <= MAX_NANOS) then Ok (mkDuration 0 r f) else Err truncated_wrong_val
      else Err over_causetxctx
    else Err truncated_wrong_val).
Proof.
  intros Hh Hm Hs Hn Hf. destruct (decide (m <= 59 ∧ s <= 59)) as [ [Hm' Hs']|Hms].
  - destruct (decide (h <= 838)) as [Hh'|Hh'].
    + rewrite new_from_parts_eq by lia. unfold rounded. rewrite checked_round_spec by done. bindr.
      rewrite decide_True by (rewrite MAX_NANOS_eq; destruct neg; lia). rewrite check_nanos_cases. cbv zeta. by case_decide.
    + unfold new_from_parts, check_minute_part, check_second_part, check_nanos_part, check_hour_part, MAX_MINUTE_PART, MAX_SECOND_PART, MAX_NANOS_PART, MAX_HOUR_PART.
      rewrite (proj2 (Z.ltb_ge 59 m)), (proj2 (Z.ltb_ge 59 s)), (proj2 (Z.ltb_ge 999999999 n)), (proj2 (Z.ltb_lt 838 h)) by lia. done.
  - unfold new_from_parts, check_minute_part, check_second_part, MAX_MINUTE_PART, MAX_SECOND_PART.
    destruct (Z.ltb_spec 59 m); [done|]. cbn [try_res]. rewrite (proj2 (Z.ltb_lt 59 s)) by lia. done.
Qed.

Lemma parts_three c p : TimeText c p → ∃ h m s, p = [h; m; s].
Proof. intros [| ? ? Hc|]; [by eexists _, _, _|by inversion Hc; subst; eexists _, _, _|by eexists _, _, _]. Qed.
Lemma parts_nonempty c p : TimeText c p → c ≠ [].
Proof.
  assert (∀ ds n r, num ds n → ds ++ r ≠ []) as Hnum by (intros ds n r (Hne & _) E; by apply app_eq_nil in E as [? _]).
  intros [ds d g b c' h m s Hd _ _ _ _|c' q Hc|ds n Hd]; [by eapply Hnum| |by destruct Hd].
  inversion Hc; subst; by eapply Hnum.
Qed.
Lemma parts_stops c p r : TimeText c p → stops is_space (c ++ r) ∧ stops (λ c, c =? 45) (c ++ r).
Proof.
  assert (∀ ds n r, num ds n → stops is_space (ds ++ r) ∧ stops (λ c, c =? 45) (ds ++ r)) as Hnum.
  { intros ds n r' Hn. split; [by eapply num_stops_space|]. destruct Hn as (Hne & Hd & _). destruct ds as [|x ds]; [done|].
    apply Forall_cons_iff in Hd as [Hx _]. cbn. unfold is_digit in Hx. by repeat case_Z; cbn in *; lia. }
  intros Hp. destruct Hp as [|c p Hc|]; [|inversion Hc; subst|]; rewrite <- ?app_assoc; by eapply Hnum.
Qed.

Lemma signed_at neg g r : (neg = false → stops (λ c, c =? 45) (g ++ r)) → gap g → stops is_space r →
  signed ((if neg then [45] else []) ++ g ++ r) = Some (r, neg).
Proof.
  intros Hneg Hg Hr. unfold signed. assert (negative ((if neg then [45] else []) ++ g ++ r) = Some (g ++ r, neg)) as ->.
  { unfold negative. rewrite opt_law. destruct neg; cbn [app].
    - by rewrite nom_char_law, Z.eqb_refl.
    - specialize (Hneg eq_refl). rewrite nom_char_law. destruct (g ++ r) as [|c l]; [done|]. cbn in Hneg. by rewrite Hneg. }
  cbn [mbind option_bind]. by rewrite space0_at.
Qed.

Lemma with_fraction_cases neg c r p fsp : 0 <= fsp <= 6 → TimeText c p →
  (∃ g f n h m s, r = g ++ f ∧ gap g ∧ Fraction fsp f n ∧ p = [h; m; s] ∧ 0 <= n <= 999999999 ∧ with_fraction neg r p fsp = Some <$> new_from_parts neg h m s n fsp)
  ∨ (∀ g f n, r = g ++ f → gap g → ¬ Fraction fsp f n) ∧ with_fraction neg r p fsp = Ret None.
Proof.
  intros Hfsp (h & m & s & ->)%parts_three. destruct (span_split is_space r) as (g & f & -> & Hg & Hf).
  unfold with_fraction. rewrite space0_at by done. destruct (fraction_cases fsp f Hfsp) as [(n & Hn & Hb & ->)|[Hn He] ].
  - left. exists g, f, n, h, m, s. split_and!; try done; try lia. bindr. rewrite as_i8_id by (mach; lia). by destruct (new_from_parts neg h m s n fsp).
  - right. split.
    + intros g' f' n Heq Hg' Hfr. assert (stops is_space f') as Hf' by by destruct Hfr. rewrite (gap_unique g f g' f') in Hn by done. by apply (Hn n).
    + destruct He as [->|(x & l & n & ->)]; [done|]. by bindr.
Qed.

Lemma duration_text_ending fsp f n g : Fraction fsp f n → gap g → ending (g ++ f).
Proof. intros Hf Hg. exists g, f. split_and!; [done..|]. destruct Hf; [by left|right; by eexists]. Qed.

Lemma parse_of_text fsp t neg h m s n ctx : 0 <= fsp <= 6 → DurationText fsp t neg [h; m; s] n → parse t fsp ctx = Ret (text_result fsp neg h m s n ctx).
Proof.
  intros Hfsp (g0 & c & g & f & -> & Hg0 & Hg & Hp & Hf). destruct (parts_stops c [h; m; s] (g ++ f) Hp) as [Hsp Hneg].
  assert (neg = false → stops (λ c, c =? 45) (g0 ++ c ++ g ++ f)) as Hneg'.
  { intros _. destruct Hg0 as [|x g0 Hx _]; [done|]. cbn. unfold is_space in Hx. by repeat case_Z; cbn in *; lia. }
  unfold parse. destruct (_ ++ g0 ++ c ++ g ++ f) as [|x l] eqn:E.
  { destruct (app_eq_nil _ _ E) as [_ (_ & E')%app_eq_nil]. apply app_eq_nil in E' as [-> _]. by apply parts_nonempty in Hp. }
  rewrite <- E, signed_at by done. rewrite (any_at c [h; m; s]) by (try eapply duration_text_ending; done).
  destruct (with_fraction_cases neg c (g ++ f) [h; m; s] fsp Hfsp Hp) as [(g' & f' & n' & h' & m' & s' & Heq & Hg' & Hf' & [= <- <- <-] & Hb & ->)|[Hno _] ].
  2:{ by destruct (Hno g f n). }
  assert (f = f') as <-. { apply (gap_unique g f g' f'); try done; [by destruct Hf|by destruct Hf']. }
  assert (n = n') as <-. { clear -Hf Hf'. inversion Hf; subst; inversion Hf'; subst; done. }
  destruct (parts_nonneg _ _ _ _ Hp) as (Hh & Hm & Hs). rewrite new_from_parts_cases by done. cbn [fmap outcome_fmap mbind outcome_bind].
  unfold text_result. case_decide; [|done]. case_decide.
  - cbv zeta. by case_decide.
  - change (is_over_causetxctx over_causetxctx) with true. cbv iota. unfold handle_overCausetxctx_err. by destruct (has_flag ctx _).
Qed.

Lemma parse_of_other fsp neg g r ctx : 0 <= fsp <= 6 → (neg = false → stops (λ c, c =? 45) (g ++ r)) → gap g → stops is_space r →
  (if neg then [45] else []) ++ g ++ r ≠ [] → (∀ p n, ¬ DurationText fsp ((if neg then [45] else []) ++ g ++ r) neg p n) →
  parse ((if neg then [45] else []) ++ g ++ r) fsp ctx = hhmmss_datetime r fsp ctx.
Proof.
  intros Hfsp Hneg Hg Hr Hne Hno. unfold parse. destruct (_ ++ g ++ r) as [|x l] eqn:E; [done|]. rewrite <- E, signed_at by done.
  destruct (hhmmss_any r) as [ [r' p]|] eqn:Ea; [|done]. apply any_inv in Ea as (c & -> & Hp).
  destruct (with_fraction_cases neg c r' p fsp Hfsp Hp) as [(g' & f & n & h & m & s & -> & Hg' & Hf & -> & _)|[_ ->] ]; [|done].
  destruct (Hno [h; m; s] n). exists g, c, g', f. by rewrite <- E.
Qed.

(** What a text has behind its sign and the spaces. *)
Definition has_minus (t : chars) : bool := bool_decide (head t = Some 45).
Definition unsigned (t : chars) : chars := (span_while is_space (if has_minus t then tail t else t)).2.

Lemma unsigned_split t : ∃ g, t = (if has_minus t then [45] else []) ++ g ++ unsigned t ∧ gap g ∧ stops is_space (unsigned t)
  ∧ (has_minus t = false → stops (λ c, c =? 45) (g ++ unsigned t)).
Proof.
  unfold unsigned. set (u := if has_minus t then tail t else t). destruct (span_split is_space u) as (g & r & Hu & Hg & Hr).
  rewrite Hu, span_at by done. cbn [snd]. exists g. rewrite <- Hu. split_and!; [|done..|].
  - subst u. unfold has_minus. case_bool_decide as H; [|done]. destruct t; cbn in *; [done|]. by injection H as ->.
  - intros H. subst u. rewrite H. unfold has_minus in H. apply bool_decide_eq_false in H. destruct t as [|c t]; [done|]. cbn in *.
    apply Z.eqb_neq. intros ->. by destruct H.
Qed.

(** C20. Parsing a duration from bytes in UTF-8, at any precision there is: a text that is blank is
    no time at all; one that the grammar reads (a sign, days and a time of day, a time of day
    with colons or the digits of HHMMSS, and a fraction) is the duration its parts say,
    rounded, or an error when they are out of range, or the longest duration with a warning;
    and only any other is tried as a date with a time. *)
Theorem parse_duration_exact input s fsp ctx : from_utf8 input = Some s → 0 <= fsp <= 6 →
  let t := trim s in
  (t = [] → dur_parse input fsp ctx = Ret (Ok dur_zero, ctx))
  ∧ (∀ neg h m sec n, DurationText fsp t neg [h; m; sec] n →
       let '(o, ctx') := text_result fsp neg h m sec n ctx in dur_parse input fsp ctx = Ret (ok_or o truncated_wrong_val, ctx'))
  ∧ (t ≠ [] → (∀ neg p n, ¬ DurationText fsp t neg p n) →
       dur_parse input fsp ctx = ('(o, ctx') ← hhmmss_datetime (unsigned t) fsp ctx; Ret (ok_or o truncated_wrong_val, ctx'))).
Proof.
  intros Hs Hf t. unfold dur_parse. rewrite Hs, check_fsp_id by (rewrite MAX_FSP_law; lia). fold t. split_and!.
  - by intros ->.
  - intros neg h m sec n Ht. rewrite (parse_of_text fsp t neg h m sec n ctx Hf Ht). by destruct (text_result _ _ _ _ _ _ _).
  - intros Hne Hno. destruct (unsigned_split t) as (g & Heq & Hg & Hr & Hm). rewrite Heq at 1.
    rewrite parse_of_other; [done..|by rewrite <- Heq|]. intros p n. rewrite <- Heq. apply Hno.
Qed.

(** ** Durations are read back *)

Lemma trim_none s : Forall (λ c, is_whitespace c = false) s → trim s = s.
Proof.
  assert (∀ s, Forall (λ c, is_whitespace c = false) s → trim_start_ws s = s) as H by (intros s' [|c s'' Hc _]; [done|cbn [trim_start_ws]; by rewrite Hc]).
  intros Hs. unfold trim. rewrite (H s Hs), H by by apply List.Forall_rev. apply rev_involutive.
Qed.

Lemma plain_text s : Forall (λ c, 45 <= c <= 58) s → from_utf8 s = Some s ∧ trim s = s.
Proof.
  intros Hs. split.
  - apply ascii_utf8. eapply List.Forall_impl; [|exact Hs]. cbn. lia.
  - apply trim_none. eapply List.Forall_impl; [|exact Hs]. cbv beta. intros c Hc. unfold is_whitespace. by repeat case_Z; cbn; lia.
Qed.
Lemma digits_plain ds : Forall (λ c, is_digit c = true) ds → Forall (λ c, 45 <= c <= 58) ds.
Proof. intros H. eapply List.Forall_impl; [|exact H]. intros c Hc. cbv beta in Hc. unfold is_digit in Hc. repeat case_Z; cbn in *; lia. Qed.

(** A duration without the digits its precision does not show. *)
Definition shown (d : Duration) : Duration := mkDuration 0 (nanos d - Z.rem (nanos d) (step (fsp d))) (fsp d).

Lemma shown_result d ctx : dur_wf d →
  text_result (fsp d) (dur_is_neg d) (hours d) (minutes d) (secs d) (subsec_nanos d / step (fsp d) * step (fsp d)) ctx = (Some (shown d), ctx).
Proof.
  intros Hwf. destruct (part_ranges d Hwf) as (Hh & Hm & Hs & Hn & Ha). destruct Hwf as [Hr Hf]. destruct (step_bounds (fsp d) Hf) as [Hst _].
  unfold text_result. rewrite decide_True, decide_True by lia.
  assert ((if dur_is_neg d then -1 else 1) * (((hours d * 60 + minutes d) * 60 + secs d) * 1000000000 + subsec_nanos d / step (fsp d) * step (fsp d))
    = nanos d - Z.rem (nanos d) (step (fsp d))) as ->.
  { assert (subsec_nanos d / step (fsp d) * step (fsp d) = subsec_nanos d - Z.abs (nanos d) mod step (fsp d)) as ->.
    { rewrite Ha. assert (1000000000 = 10 ^ fsp d * step (fsp d)) as -> by (unfold step; rewrite <- Z.pow_add_r by lia; by replace (fsp d + (9 - fsp d)) with 9 by lia).
      rewrite Z.mul_assoc, Z.add_comm, Z.mod_add by lia. pose proof (Z.div_mod (subsec_nanos d) (step (fsp d)) ltac:(lia)). lia. }
    unfold dur_is_neg. destruct (Z.ltb_spec (nanos d) 0) as [Hneg|Hpos].
    - rewrite (Z.abs_neq (nanos d)) in * by lia. assert (Z.rem (nanos d) (step (fsp d)) = - ((- nanos d) mod step (fsp d))) as ->; [|lia].
      rewrite <- Z.rem_mod_nonneg, <- Z.rem_opp_l by lia. f_equal. lia.
    - rewrite (Z.abs_eq (nanos d)) in * by lia. rewrite Z.rem_mod_nonneg by lia. lia. }
  assert ((step (fsp d) | nanos d - Z.rem (nanos d) (step (fsp d)))) as Hdiv.
  { exists (Z.quot (nanos d) (step (fsp d))). pose proof (Z.quot_rem' (nanos d) (step (fsp d))). lia. }
  rewrite round_half_away_fix by (done || lia). rewrite decide_True; [done|]. revert Hr. generalize MAX_NANOS. intros M Hr.
  destruct (Z.le_gt_cases 0 (nanos d)) as [Hp|Hp].
  - rewrite Z.rem_mod_nonneg by lia. pose proof (Z.mod_le (nanos d) (step (fsp d))). pose proof (Z.mod_pos_bound (nanos d) (step (fsp d))). lia.
  - replace (nanos d) with (- - nanos d) by lia. rewrite Z.rem_opp_l, Z.rem_mod_nonneg by lia.
    pose proof (Z.mod_le (- nanos d) (step (fsp d))). pose proof (Z.mod_pos_bound (- nanos d) (step (fsp d))). lia.
Qed.

(** What [format] writes follows the grammar, with colons or without a separator. *)
Lemma format_grammar d sep : dur_wf d → sep = [58] ∨ sep = [] →
  ∃ t, format d sep = Ret t ∧ Forall (λ c, 45 <= c <= 58) t
    ∧ DurationText (fsp d) t (dur_is_neg d) [hours d; minutes d; secs d] (subsec_nanos d / step (fsp d) * step (fsp d)).
Proof.
  intros Hwf Hsep. destruct (format_text d sep Hwf) as (hs & ms & ss & fs & He & Hd & Vh & Vm & Vs & Vf & Lh & Lm & Ls & Lf).
  rewrite !Forall_cons_iff in Hd. destruct Hd as (Dh & Dm & Ds & Df & _). destruct (part_ranges d Hwf) as (Hh & Hm & Hs & Hn & _). destruct Hwf as [_ Hf].
  set (f := if 0 <? fsp d then 46 :: fs else []) in *. rewrite He. eexists. split; [done|].
  assert (num hs (hours d) ∧ num ms (minutes d) ∧ num ss (secs d)) as (Nh & Nm & Ns).
  { assert (U32_MAX = 4294967295) by done. split_and!; (split_and!; [intros ->|..]); try done; try lia. cbn in Lh. case_match; lia. }
  assert (Fraction (fsp d) f (subsec_nanos d / step (fsp d) * step (fsp d))) as Hfr.
  { subst f. rewrite <- Vf. destruct (Z.ltb_spec 0 (fsp d)) as [Hp|Hp].
    - pose proof (some_fraction (fsp d) fs ltac:(intros ->; cbn in Lf; lia) Df) as H. cbv zeta in H. rewrite take_ge, Lf in H by lia. exact H.
    - assert (fs = []) as -> by (destruct fs; [done|cbn in Lf; lia]). constructor. }
  split.
  - assert (Forall (λ c, 45 <= c <= 58) f). { subst f. destruct (0 <? fsp d); [|constructor]. constructor; [lia|by apply digits_plain]. }
    assert (Forall (λ c, 45 <= c <= 58) sep) by (destruct Hsep as [->| ->]; [repeat constructor; lia|constructor]).
    rewrite !Forall_app. split_and!; try done; try by apply digits_plain. destruct (dur_is_neg d); [repeat constructor; lia|constructor].
  - assert (TimeText (hs ++ sep ++ ms ++ sep ++ ss) [hours d; minutes d; secs d]) as Hp.
    { destruct Hsep as [->| ->].
      - apply parts_clock. exact (clock_hms hs (hours d) [] [] ms (minutes d) [] [] ss (secs d) Nh ltac:(constructor) ltac:(constructor) Nm ltac:(constructor) ltac:(constructor) Ns).
      - cbn [app]. assert (num (hs ++ ms ++ ss) (hours d * 10000 + minutes d * 100 + secs d)) as Hc.
        { split_and!; [|by rewrite !Forall_app| |mach; lia].
          - intros E. apply app_eq_nil in E as [-> _]. by destruct Nh.
          - rewrite !digits_val_app, !length_app, !Nat2Z.inj_add, Lm, Ls, Vh, Vm, Vs. lia. }
        apply parts_compact in Hc. match type of Hc with TimeText _ ?l => replace l with [hours d; minutes d; secs d] in Hc; [exact Hc|] end.
        repeat f_equal; zdiv. }
    exists [], (hs ++ sep ++ ms ++ sep ++ ss), [], f. split_and!; [|constructor|constructor|done..]. cbn [app]. by rewrite <- !app_assoc.
Qed.

(** C11. A duration that is written out, with colons or as a number, is read back at its precision,
    sign included: what comes back is the duration without the digits that its precision
    does not show, whatever the session. *)
Theorem duration_text_roundtrip d ctx : dur_wf d → ∃ t t',
  dur_fmt d = Ret t ∧ dur_parse t (fsp d) ctx = Ret (Ok (shown d), ctx)
  ∧ to_numeric_string d = Ret t' ∧ dur_parse t' (fsp d) ctx = Ret (Ok (shown d), ctx).
Proof.
  intros Hwf. assert (∀ sep, sep = [58] ∨ sep = [] → ∃ t, format d sep = Ret t ∧ dur_parse t (fsp d) ctx = Ret (Ok (shown d), ctx)) as H.
  { intros sep Hsep. destruct (format_grammar d sep Hwf Hsep) as (t & He & Ht & Hd). exists t. split; [done|].
    destruct (plain_text t Ht) as [Hu Htr]. destruct Hwf as [Hr Hf]. unfold dur_parse. rewrite Hu, Htr, check_fsp_id by (rewrite MAX_FSP_law; lia).
    rewrite (parse_of_text _ _ _ _ _ _ _ ctx Hf Hd), shown_result by done. done. }
  destruct (H [58]) as (t & Ht & Hp); [by left|]. destruct (H []) as (t' & Ht' & Hp'); [by right|]. by exists t, t'.
Qed.
End Grammar.

(** ** The combinators, and the repository's tests *)

#[export] Instance sample_nom : NomParsers := {|
  digit0 := λ s, Some ((span_while is_digit s).2, (span_while is_digit s).1);
  digit1 := λ s, match span_while is_digit s with ([], _) => None | (d, r) => Some (r, d) end;
  space0 := λ s, Some ((span_while is_space s).2, (span_while is_space s).1);
  space1 := λ s, match span_while is_space s with ([], _) => None | (d, r) => Some (r, d) end;
  nom_char := λ c s, match s with x :: r => if x =? c then Some (r, x) else None | [] => None end;
  anychar := λ s, match s with x :: r => Some (r, x) | [] => None end;
  opt := λ p s, Some match p s with Some (r, x) => (r, Some x) | None => (s, None) end;
|}.
#[export] Instance sample_nom_laws : NomLaws.
Proof. by split. Qed.

(** No text is a date. *)
#[local] Instance no_dates : DateTimes := {|
  DateTime := unit;
  parse_datetime := λ _ _ _ ctx, Ret (Err Other, ctx);
  dt_to_duration := λ _ ctx, Ret (Err Other, ctx);
|}.
#[local] Existing Instance ten_pow_table.
#[local] Existing Instance fsp_table.

Definition plain_session (flag : Z) : EvalContext := EvalContext_new (from_flag 0 flag).
Definition read_written (flag : Z) (s : string) (fsp : Z) : option (list Z) :=
  match dur_parse (texts s) fsp (plain_session flag) with
  | Ret (Ok d, _) => match dur_fmt d with Ret t => Some t | Panic => None end
  | _ => None
  end.

(** The table of [test_parse], but for its three dates. *)
Definition parse_table : list (string * Z * option string) := [
  ("10:11:12"%string, 0, Some "10:11:12"%string); ("101112"%string, 0, Some "10:11:12"%string); ("10:11"%string, 0, Some "10:11:00"%string);
  ("101112.123456"%string, 0, Some "10:11:12"%string); ("1112"%string, 0, Some "00:11:12"%string); ("12"%string, 0, Some "00:00:12"%string);
  ("1 12"%string, 0, Some "36:00:00"%string); ("1 10:11:12"%string, 0, Some "34:11:12"%string); ("1 10:11:12.123456"%string, 0, Some "34:11:12"%string);
  ("1 10:11:12.123456"%string, 4, Some "34:11:12.1235"%string); ("1 10:11:12.12"%string, 4, Some "34:11:12.1200"%string); ("1 10:11:12.1234565"%string, 6, Some "34:11:12.123457"%string);
  ("1 10:11:12.9999995"%string, 6, Some "34:11:13.000000"%string); ("1 10:11:12.123456"%string, 7, None); ("10:11:12.123456"%string, 0, Some "10:11:12"%string);
  ("1 10:11"%string, 0, Some "34:11:00"%string); ("1 10"%string, 0, Some "34:00:00"%string); ("24 10"%string, 0, Some "586:00:00"%string);
  ("-24 10"%string, 0, Some "-586:00:00"%string); ("0 10"%string, 0, Some "10:00:00"%string); ("-10:10:10"%string, 0, Some "-10:10:10"%string);
  ("-838:59:59"%string, 0, Some "-838:59:59"%string); ("838:59:59"%string, 0, Some "838:59:59"%string); ("839:00:00"%string, 0, None);
  ("-839:00:00"%string, 0, None); ("23:60:59"%string, 0, None); ("54:59:59"%string, 0, Some "54:59:59"%string);
  ("2011-11-11"%string, 0, None); ("--23"%string, 0, None); ("232 10"%string, 0, None);
  ("-232 10"%string, 0, None); ("00:00:00.1"%string, 0, Some "00:00:00"%string); ("00:00:00.1"%string, 1, Some "00:00:00.1"%string);
  ("00:00:00.777777"%string, 2, Some "00:00:00.78"%string); ("00:00:00.777777"%string, 6, Some "00:00:00.777777"%string); ("00:00:00.001"%string, 3, Some "00:00:00.001"%string);
  ("- 1 "%string, 0, Some "-00:00:01"%string); ("1:2:3"%string, 0, Some "01:02:03"%string); ("1 1:2:3"%string, 0, Some "25:02:03"%string);
  ("-1 1:2:3.123"%string, 3, Some "-25:02:03.123"%string); ("-.123"%string, 3, None); ("12345"%string, 0, Some "01:23:45"%string);
  ("-123"%string, 0, Some "-00:01:23"%string); ("-23"%string, 0, Some "-00:00:23"%string); ("- 1 1"%string, 0, Some "-25:00:00"%string);
  ("-1 1"%string, 0, Some "-25:00:00"%string); (" - 1:2:3 .123 "%string, 3, Some "-01:02:03.123"%string); (" - 1 :2 :3 .123 "%string, 3, Some "-01:02:03.123"%string);
  (" - 1 : 2 :3 .123 "%string, 3, Some "-01:02:03.123"%string); (" - 1 : 2 :  3 .123 "%string, 3, Some "-01:02:03.123"%string); (" - 1 .123 "%string, 3, Some "-00:00:01.123"%string);
  ("-"%string, 0, None); ("- .1"%string, 0, None); (EmptyString, 0, Some "00:00:00"%string);
  (EmptyString, 7, None); ("1.1"%string, 1, Some "00:00:01.1"%string); ("-1.1"%string, 1, Some "-00:00:01.1"%string);
  ("- 1.1"%string, 1, Some "-00:00:01.1"%string); ("- 1 .1"%string, 1, Some "-00:00:01.1"%string); ("18446744073709551615:59:59"%string, 0, None);
  ("4294967295 0:59:59"%string, 0, None); ("4294967295 232:59:59"%string, 0, None); ("-4294967295 232:59:59"%string, 0, None);
  ("1::2:3"%string, 0, None); ("1.23 3"%string, 0, None); ("1:62:3"%string, 0, None);
  ("1:02:63"%string, 0, None); ("-231342080"%string, 0, None)].
Example test_parse : forallb (λ r : string * Z * option string, bool_decide (read_written 0 r.1.1 r.1.2 = texts <$> r.2)) parse_table = true.
Proof. by vm_compute. Qed.

(** An overflow is a warning or an error, and more than 838:59:59.999999999 after rounding is no
    overflow but an error. *)
Example test_parse_overflow :
  read_written OVERCausetxctx_AS_WARNING "-1062600704" 0 = Some (texts "-838:59:59")
  ∧ read_written OVERCausetxctx_AS_WARNING "1062600704" 0 = Some (texts "838:59:59")
  ∧ read_written 0 "1062600704" 0 = None ∧ read_written OVERCausetxctx_AS_WARNING "838:59:59.5" 0 = None
  ∧ read_written OVERCausetxctx_AS_WARNING "4294967295 0:59:59" 0 = None.
Proof. by vm_compute. Qed.

(** -1 1:2:3.123 *)
Definition sample_text : chars := [45; 49; 32; 49; 58; 50; 58; 51; 46; 49; 50; 51].
Lemma sample_text_parts : DurationText 3 sample_text true [1 * 24 + 1; 2; 3] 123000000.
Proof.
  assert (∀ c n, is_digit c = true → c - 48 = n → num [c] n) as Hn.
  { intros c n Hc <-. split_and!; [done|by repeat constructor|done|]. unfold is_digit in Hc. mach. repeat case_Z; cbn in *; lia. }
  exists [], [49; 32; 49; 58; 50; 58; 51], [], [46; 49; 50; 51]. split_and!; [done|constructor|constructor| |].
  - apply (parts_day [49] 1 [32] true [49; 58; 50; 58; 51]); [by apply Hn|by repeat constructor|done| |by vm_compute].
    by apply (clock_hms [49] 1 [] [] [50] 2 [] [] [51] 3); (apply Hn || constructor).
  - exact (some_fraction 3 [49; 50; 51] ltac:(done) ltac:(by repeat constructor)).
Qed.

Lemma parse_duration_exact_witness : from_utf8 sample_text = Some sample_text
  ∧ dur_parse sample_text 3 (plain_session 0) = Ret (Ok (mkDuration 0 (-90123123000000) 3), plain_session 0).
Proof.
  split; [reflexivity|].
  exact (proj1 (proj2 (parse_duration_exact sample_text sample_text 3 (plain_session 0) eq_refl ltac:(lia))) true (1 * 24 + 1) 2 3 123000000 sample_text_parts).
Defined.

Lemma duration_text_roundtrip_witness : dur_wf dur_sample
  ∧ ∃ t, dur_fmt dur_sample = Ret t ∧ dur_parse t 6 (plain_session 0) = Ret (Ok (shown dur_sample), plain_session 0).
Proof.
  split; [exact dur_sample_wf|]. destruct (duration_text_roundtrip dur_sample (plain_session 0) dur_sample_wf) as (t & _ & Ht & Hp & _). by exists t.
Defined.
