(* ===== verification/Columns.v ===== *)
(** * Columns: columns that are decoded when they are needed

    [causets/quiesce_column.rs], [causets/quiesce_column_vec.rs] and
    [causets/not_chunked_vec.rs].  A column of a batch holds the bytes of its cells as
    they came from the store, or the values they decode to; it is decoded in place, for
    the rows that are asked for.  The decoder of cells, the writers of values and of
    chunks belong to other crates: the class [ColumnTypes].  Capacities, which only reserve
    memory, are not modelled. *)
From Stdlib Require Import ZArith Lia.
From stdpp Require Import base list numbers.
From S2P Require Import Prelude EvalCtx.
#[local] Open Scope Z_scope.

#[local] Notation bytes := (list Z).
#[local] Notation zlen l := (Z.of_nat (length l)).

(** ** Vectors of values *)

Record NotChunkedVec (T : Type) := mkVec { vec_data : list (option T) }.
Arguments mkVec {T}.
Arguments vec_data {T}.

Section Vec.
Context {T : Type}.
Implicit Types v : NotChunkedVec T.

Definition vec_from_slice (slice : list (option T)) : NotChunkedVec T := mkVec slice.
Definition vec_with_capacity : NotChunkedVec T := mkVec [].
Definition vec_push v (x : option T) : NotChunkedVec T := mkVec (vec_data v ++ [x]).
Definition vec_replace v (idx : Z) (x : option T) : outcome (NotChunkedVec T) := d ← set (vec_data v) idx x; Ret (mkVec d).
Definition vec_len v : Z := zlen (vec_data v).
Definition vec_is_empty v : bool := bool_decide (vec_data v = []).
Definition vec_truncate v (len : Z) : NotChunkedVec T := mkVec (take (Z.to_nat len) (vec_data v)).
(** The other vector is left empty. *)
Definition vec_append v (other : NotChunkedVec T) : NotChunkedVec T * NotChunkedVec T := (mkVec (vec_data v ++ vec_data other), mkVec []).
Definition vec_as_slice v : list (option T) := vec_data v.
Definition get_option_ref v (idx : Z) : outcome (option T) := get (vec_data v) idx.
End Vec.

(** What other crates provide.  A writer appends to the output, also when it then fails. *)
Class ColumnTypes := {
  FieldType : Type;
  EvalType : Type;
  CellValue : Type;
  Chunk : Type;
  (** [EvalType::try_from(field_type.as_accessor().tp())] *)
  eval_type : FieldType → result EvalType;
  (** [decode] of the bytes of a cell, as a value of the type. *)
  decode_cell : EvalType → bytes → FieldType → evalM (option CellValue);
  (** [VectorValue::encode], for the value of the row. *)
  encode_value : EvalType → option CellValue → FieldType → EvalContext → bytes → outcome (result unit * EvalContext * bytes);
  buffer_maximum_encoded_size : list bytes → list Z → outcome Z;
  vector_maximum_encoded_size : EvalType → list (option CellValue) → list Z → outcome Z;
  vector_maximum_encoded_size_chunk : EvalType → list (option CellValue) → list Z → outcome Z;
  from_primitive_causet_datums : FieldType → list bytes → list Z → evalM Chunk;
  from_vector_causet_locale : FieldType → EvalType → list (option CellValue) → list Z → result Chunk;
  write_chunk_column : Chunk → bytes → outcome (result unit * bytes);
}.

Section Columns.
Context {CT : ColumnTypes}.

(** The values of a column are a vector of one type. *)
Record VectorValue := mkVector { vector_type : EvalType; vector_values : NotChunkedVec CellValue }.

Inductive QuiesceBatchColumn :=
| Primitive_Causet (v : list bytes)
| Decoded (v : VectorValue).
Implicit Types c : QuiesceBatchColumn.

Definition primitive_causet_with_capacity : QuiesceBatchColumn := Primitive_Causet [].
Definition decoded_with_capacity_and_tp (eval_tp : EvalType) : QuiesceBatchColumn := Decoded (mkVector eval_tp vec_with_capacity).
Definition clone_empty c : QuiesceBatchColumn :=
  match c with
  | Primitive_Causet _ => primitive_causet_with_capacity
  | Decoded v => decoded_with_capacity_and_tp (vector_type v)
  end.
Definition is_primitive_causet c : bool := match c with Primitive_Causet _ => true | Decoded _ => false end.
Definition is_decoded c : bool := match c with Primitive_Causet _ => false | Decoded _ => true end.
Definition decoded c : outcome VectorValue := match c with Primitive_Causet _ => Panic | Decoded v => Ret v end.
Definition primitive_causet c : outcome (list bytes) := match c with Primitive_Causet v => Ret v | Decoded _ => Panic end.
Definition col_len c : Z := match c with Primitive_Causet v => zlen v | Decoded v => vec_len (vector_values v) end.
Definition col_truncate c (len : Z) : QuiesceBatchColumn :=
  match c with
  | Primitive_Causet v => Primitive_Causet (take (Z.to_nat len) v)
  | Decoded v => Decoded (mkVector (vector_type v) (vec_truncate (vector_values v) len))
  end.
Definition col_clear c : QuiesceBatchColumn :=
  match c with Primitive_Causet v => Primitive_Causet [] | Decoded v => Decoded (mkVector (vector_type v) (mkVec [])) end.
Definition col_is_empty c : bool := col_len c =? 0.

(** Decoding: of the rows that are asked for, in their order; the others have no value. *)
Definition decode_cell_at (t : EvalType) (ft : FieldType) (raw : list bytes) (vec : NotChunkedVec CellValue) (row_index : Z)
  : evalM (NotChunkedVec CellValue) :=
  b ← lift_out (get raw row_index);
  x ← decode_cell t b ft;
  lift_out (vec_replace vec row_index x).
Fixpoint decode_cells (t : EvalType) (ft : FieldType) (raw : list bytes) (rows : list Z) (vec : NotChunkedVec CellValue)
  : evalM (NotChunkedVec CellValue) :=
  match rows with
  | [] => mret vec
  | i :: rows => vec ← decode_cell_at t ft raw vec i; decode_cells t ft raw rows vec
  end.

Definition ensure_decoded c (ctx : EvalContext) (ft : FieldType) (logical_rows : list Z)
  : outcome (QuiesceBatchColumn * EvalContext * result unit) :=
  match c with
  | Decoded _ => Ret (c, ctx, Ok tt)
  | Primitive_Causet raw =>
      match eval_type ft with
      | Err e => Ret (c, ctx, Err e)
      | Ok t =>
          '(r, ctx) ← decode_cells t ft raw logical_rows (mkVec (replicate (length raw) None)) ctx;
          match r with
          | Ok vec => Ret (Decoded (mkVector t vec), ctx, Ok tt)
          | Err e => Ret (c, ctx, Err e)
          end
      end
  end.

Definition ensure_all_decoded_for_test c (ctx : EvalContext) (ft : FieldType) : outcome (QuiesceBatchColumn * EvalContext * result unit) :=
  ensure_decoded c ctx ft (seqZ 0 (col_len c)).

Definition maximum_encoded_size c (logical_rows : list Z) : outcome Z :=
  match c with
  | Primitive_Causet v => buffer_maximum_encoded_size v logical_rows
  | Decoded v => vector_maximum_encoded_size (vector_type v) (vec_data (vector_values v)) logical_rows
  end.
Definition maximum_encoded_size_chunk c (logical_rows : list Z) : outcome Z :=
  match c with
  | Primitive_Causet v => usize (zlen (concat v) * 2)
  | Decoded v => vector_maximum_encoded_size_chunk (vector_type v) (vec_data (vector_values v)) logical_rows
  end.

Definition encode_cell c (row_index : Z) (ft : FieldType) (ctx : EvalContext) (output : bytes) : outcome (result unit * EvalContext * bytes) :=
  match c with
  | Primitive_Causet v => b ← get v row_index; Ret (Ok tt, ctx, output ++ b)
  | Decoded v => x ← get_option_ref (vector_values v) row_index; encode_value (vector_type v) x ft ctx output
  end.

Definition encode_chunk c (ctx : EvalContext) (logical_rows : list Z) (ft : FieldType) (output : bytes)
  : outcome (result unit * EvalContext * bytes) :=
  '(r, ctx) ← (match c with
    | Primitive_Causet v => from_primitive_causet_datums ft v logical_rows ctx
    | Decoded v => Ret (from_vector_causet_locale ft (vector_type v) (vec_data (vector_values v)) logical_rows, ctx)
    end);
  match r with
  | Err e => Ret (Err e, ctx, output)
  | Ok chunk => '(r, output) ← write_chunk_column chunk output; Ret (r, ctx, output)
  end.
Definition encode_chunk_with_decoded := encode_chunk.

(** ** Batches of columns *)

Record QuiesceBatchColumnVec := mkColumns { columns : list QuiesceBatchColumn }.
Implicit Types cs : QuiesceBatchColumnVec.

Definition columns_empty : QuiesceBatchColumnVec := mkColumns [].
Definition columns_from (l : list VectorValue) : QuiesceBatchColumnVec := mkColumns (map Decoded l).
Definition columns_clone_empty cs : QuiesceBatchColumnVec := mkColumns (map clone_empty (columns cs)).
Definition with_primitive_causet_columns (columns_count : Z) : QuiesceBatchColumnVec :=
  mkColumns (replicate (Z.to_nat columns_count) primitive_causet_with_capacity).
Definition columns_len cs : Z := zlen (columns cs).
Definition rows_len cs : Z := match columns cs with [] => 0 | c :: _ => col_len c end.
Definition assert_columns_equal_length cs : outcome unit :=
  guardM (forallb (λ c, rows_len cs =? col_len c) (columns cs)).

Definition columns_maximum_encoded_size cs (logical_rows output_offsets : list Z) : outcome Z :=
  foldO (λ size o, c ← get (columns cs) o; n ← maximum_encoded_size c logical_rows; usize (size + n)) 0 output_offsets.
Definition columns_maximum_encoded_size_chunk cs (logical_rows output_offsets : list Z) : outcome Z :=
  foldO (λ size o, c ← get (columns cs) o; n ← maximum_encoded_size_chunk c logical_rows; usize (size + n)) 0 output_offsets.

(** A loop that writes and stops at the first error. *)
Fixpoint write_all {A} (f : A → EvalContext → bytes → outcome (result unit * EvalContext * bytes)) (l : list A)
  (ctx : EvalContext) (output : bytes) : outcome (result unit * EvalContext * bytes) :=
  match l with
  | [] => Ret (Ok tt, ctx, output)
  | a :: l =>
      '(r, ctx, output) ← f a ctx output;
      match r with Ok _ => write_all f l ctx output | Err e => Ret (Err e, ctx, output) end
  end.

Definition columns_encode cs (logical_rows output_offsets : list Z) (topograph : list FieldType) (output : bytes) (ctx : EvalContext)
  : outcome (result unit * EvalContext * bytes) :=
  write_all (λ idx, write_all (λ offset ctx output,
    col ← get (columns cs) offset; ft ← get topograph offset; encode_cell col idx ft ctx output) output_offsets) logical_rows ctx output.

Definition columns_encode_chunk cs (logical_rows output_offsets : list Z) (topograph : list FieldType) (output : bytes) (ctx : EvalContext)
  : outcome (result unit * EvalContext * bytes) :=
  write_all (λ offset ctx output,
    col ← get (columns cs) offset; ft ← get topograph offset; encode_chunk col ctx logical_rows ft output) output_offsets ctx output.

Definition truncate_into_equal_length cs : outcome QuiesceBatchColumnVec :=
  let min_len := foldl (λ m c, Z.min m (col_len c)) (rows_len cs) (columns cs) in
  let cs := mkColumns (map (λ c, col_truncate c min_len) (columns cs)) in
  _ ← assert_columns_equal_length cs;
  Ret cs.
End Columns.

(** ** What decoding does *)

Section Laws.
Context {CT : ColumnTypes}.

(** The cells of some rows decode one after the other. *)
Inductive Decodes (t : EvalType) (ft : FieldType) (raw : list bytes)
  : list Z → EvalContext → list (option CellValue) → EvalContext → Prop :=
| decodes_nil ctx : Decodes t ft raw [] ctx [] ctx
| decodes_cons i rows b x vs ctx ctx1 ctx2 :
    get raw i = Ret b → decode_cell t b ft ctx = Ret (Ok x, ctx1) → Decodes t ft raw rows ctx1 vs ctx2 →
    Decodes t ft raw (i :: rows) ctx (x :: vs) ctx2.

(** What the row has after its last decoding, [None] for a row that is not decoded. *)
Definition assigned (d : list (option CellValue)) (rows : list Z) (vs : list (option CellValue)) : list (option CellValue) :=
  foldl (λ d p, <[Z.to_nat p.1 := p.2]> d) d (zip rows vs).

Lemma set_same_length {A B} (l : list A) (m : list B) i x b : get m i = Ret b → length l = length m → set l i x = Ret (<[Z.to_nat i := x]> l).
Proof.
  intros [Hi Hb]%get_Ret Hl. apply lookup_lt_Some in Hb. unfold set.
  rewrite (proj2 (Z.leb_le _ _)), (proj2 (Z.ltb_lt _ _)) by lia. done.
Qed.

Lemma decode_cells_spec t ft raw rows : ∀ vec ctx vec' ctx', length (vec_data vec) = length raw →
  decode_cells t ft raw rows vec ctx = Ret (Ok vec', ctx') ↔
  ∃ vs, Decodes t ft raw rows ctx vs ctx' ∧ vec' = mkVec (assigned (vec_data vec) rows vs).
Proof.
  induction rows as [|i rows IH]; intros vec ctx vec' ctx' Hl; cbn [decode_cells].
  - split.
    + intros [= <- <-]. exists []. split; [constructor|]. by destruct vec.
    + intros (vs & H & ->). inversion H; subst. by destruct vec.
  - unfold decode_cell_at, mbind, evalM_bind, lift_out. destruct (get raw i) as [b|] eqn:Hb.
    2:{ split; [done|]. intros (vs & H & _). inversion H; subst. congruence. }
    destruct (decode_cell t b ft ctx) as [ [ [x|e] ctx1]|] eqn:Hx.
    2,3: (split; [done|]; intros (vs & H & _); inversion H; subst; congruence).
    unfold vec_replace. rewrite (set_same_length _ raw _ _ b) by done. cbn [mbind outcome_bind].
    rewrite IH by (cbn [vec_data]; by rewrite length_insert). split.
    + intros (vs & H & ->). exists (x :: vs). split; [by econstructor|done].
    + intros (vs & H & ->). inversion H; subst. assert (b0 = b) as -> by congruence.
      assert (x0 = x ∧ ctx2 = ctx1) as [-> ->] by (split; congruence). by eexists.
Qed.

Lemma length_assigned rows : ∀ d vs, length (assigned d rows vs) = length d.
Proof.
  induction rows as [|i rows IH]; intros d [|x vs]; try done. unfold assigned in *. cbn [zip zip_with foldl]. rewrite IH. apply length_insert.
Qed.
Lemma assigned_other rows : ∀ d vs i, 0 <= i → Forall (λ j, 0 <= j) rows → i ∉ rows → assigned d rows vs !! Z.to_nat i = d !! Z.to_nat i.
Proof.
  induction rows as [|j rows IH]; intros d [|x vs] i Hi Hr Hn; try done. unfold assigned in *. cbn [zip zip_with foldl fst snd].
  apply not_elem_of_cons in Hn as [Hij Hn]. apply Forall_cons_iff in Hr as [Hj Hr].
  rewrite IH by done. apply list_lookup_insert_ne. lia.
Qed.

Lemma decodes_rows t ft raw rows ctx vs ctx' : Decodes t ft raw rows ctx vs ctx' → length vs = length rows ∧ Forall (λ i, 0 <= i < zlen raw) rows.
Proof.
  induction 1 as [|i rows b x vs ctx ctx1 ctx2 Hb Hx _ [IH1 IH2] ]; [done|]. apply get_Ret in Hb as [Hi Hb]. apply lookup_lt_Some in Hb.
  cbn [length]. split; [lia|]. constructor; [lia|done].
Qed.

Lemma ensure_decoded_Ok raw ctx ft rows c' ctx' :
  ensure_decoded (Primitive_Causet raw) ctx ft rows = Ret (c', ctx', Ok tt) ↔
  ∃ t vs, eval_type ft = Ok t ∧ Decodes t ft raw rows ctx vs ctx'
    ∧ c' = Decoded (mkVector t (mkVec (assigned (replicate (length raw) None) rows vs))).
Proof.
  unfold ensure_decoded. destruct (eval_type ft) as [t|e]; [|naive_solver].
  pose proof (decode_cells_spec t ft raw rows (mkVec (replicate (length raw) None)) ctx) as Hs. cbn [vec_data] in Hs.
  destruct (decode_cells _ _ _ _ _ _) as [ [ [vec|e] ctx1]|]; cbn [mbind outcome_bind].
  - destruct (Hs vec ctx1) as [(vs & Hd & ->) _]; [by rewrite length_replicate|done|]. split.
    + intros [= <- <-]. by exists t, vs.
    + intros (t' & vs' & [= <-] & Hd' & ->). destruct (Hs (mkVec (assigned (replicate (length raw) None) rows vs')) ctx') as [_ Hs']; [by rewrite length_replicate|].
      specialize (Hs' (ex_intro _ vs' (conj Hd' eq_refl))). by injection Hs' as -> ->.
  - split; [done|]. intros (t' & vs' & [= <-] & Hd' & ->). destruct (Hs (mkVec (assigned (replicate (length raw) None) rows vs')) ctx') as [_ Hs']; [by rewrite length_replicate|].
    by specialize (Hs' (ex_intro _ vs' (conj Hd' eq_refl))).
  - split; [done|]. intros (t' & vs' & [= <-] & Hd' & ->). destruct (Hs (mkVec (assigned (replicate (length raw) None) rows vs')) ctx') as [_ Hs']; [by rewrite length_replicate|].
    by specialize (Hs' (ex_intro _ vs' (conj Hd' eq_refl))).
Qed.

(** Decoding a column.  It succeeds exactly when the type has values and the cells of the rows asked
    for, in that order, decode; the column then has as many rows as before, each of these rows
    has the value of its last decoding, and every other row has none - also when it is asked for
    later, as a column that is decoded once is never decoded again.  When it fails the column
    is as it was. *)
Theorem ensure_decoded_exact raw ctx ft rows :
  (∀ c' ctx', ensure_decoded (Primitive_Causet raw) ctx ft rows = Ret (c', ctx', Ok tt) ↔
     ∃ t vs, eval_type ft = Ok t ∧ Decodes t ft raw rows ctx vs ctx'
       ∧ c' = Decoded (mkVector t (mkVec (assigned (replicate (length raw) None) rows vs))))
  ∧ (∀ c' ctx', ensure_decoded (Primitive_Causet raw) ctx ft rows = Ret (c', ctx', Ok tt) →
       col_len c' = zlen raw ∧ is_decoded c' = true
       ∧ (∀ i, 0 <= i < zlen raw → i ∉ rows → ∃ v, decoded c' = Ret v ∧ get_option_ref (vector_values v) i = Ret None)
       ∧ ∀ ft2 rows2 ctx2, ensure_decoded c' ctx2 ft2 rows2 = Ret (c', ctx2, Ok tt))
  ∧ (∀ c' ctx' e, ensure_decoded (Primitive_Causet raw) ctx ft rows = Ret (c', ctx', Err e) → c' = Primitive_Causet raw).
Proof.
  pose proof (ensure_decoded_Ok raw ctx ft rows) as H.
  split; [exact H|]. split.
  - intros c' ctx' (t & vs & Ht & Hd & ->)%H. split; [|split; [done|split; [|done] ] ].
    + cbn. unfold vec_len. cbn [vec_data]. by rewrite length_assigned, length_replicate.
    + intros i Hi Hn. eexists. split; [done|]. unfold get_option_ref. cbn [vector_values vec_data]. apply get_Ret. split; [lia|].
      apply decodes_rows in Hd as [_ Hd]. rewrite assigned_other; [|lia| |done].
      * apply lookup_replicate. split; [done|lia].
      * eapply Forall_impl; [|done]. cbn. lia.
  - intros c' ctx' e. unfold ensure_decoded. destruct (eval_type ft) as [t|e']; [|by intros [= <- _ _] ].
    destruct (decode_cells _ _ _ _ _ _) as [ [ [vec|e'] ctx1]|]; [done| |done]. by intros [= <- _ _].
Qed.

(** ** Decoding is not seen in the output *)

(** A cell whose bytes are what the value they decode to is written as. *)
Definition canonical (t : EvalType) (ft : FieldType) (b : bytes) : Prop :=
  ∃ x, (∀ ctx, decode_cell t b ft ctx = Ret (Ok x, ctx)) ∧ (∀ ctx out, encode_value t x ft ctx out = Ret (Ok tt, ctx, out ++ b)).

Lemma decodes_canonical t ft raw rows ctx : (∀ i, i ∈ rows → ∃ b, get raw i = Ret b ∧ canonical t ft b) →
  ∃ vs, Decodes t ft raw rows ctx vs ctx ∧ ∀ d, length d = length raw → ∀ i, i ∈ rows → ∃ b x, get raw i = Ret b
    ∧ assigned d rows vs !! Z.to_nat i = Some x ∧ (∀ ctx out, encode_value t x ft ctx out = Ret (Ok tt, ctx, out ++ b)).
Proof.
  induction rows as [|i rows IH]; intros Hc.
  { exists []. split; [constructor|]. intros d _ i Hi. by apply elem_of_nil in Hi. }
  destruct IH as (vs & Hd & IH); [intros j Hj; apply Hc; by right|].
  destruct (Hc i) as (b & Hb & x & Hx & He); [left|]. exists (x :: vs). split; [by econstructor|].
  intros d Hl k Hk. change (assigned d (i :: rows) (x :: vs)) with (assigned (<[Z.to_nat i := x]> d) rows vs).
  destruct (decide (k ∈ rows)) as [Hin|Hn]; [apply IH; [by rewrite length_insert|done]|].
  apply elem_of_cons in Hk as [->|Hk]; [|done]. exists b, x. split; [done|]. split; [|done].
  apply get_Ret in Hb as [Hi Hb]. apply lookup_lt_Some in Hb. apply decodes_rows in Hd as [_ Hd].
  rewrite assigned_other; [|done| |done].
  - apply list_lookup_insert_eq. lia.
  - eapply Forall_impl; [|done]. cbn. lia.
Qed.

Lemma get_insert {A} (l : list A) n a a' o : l !! n = Some a →
  (Z.to_nat o = n ∧ get (<[n := a']> l) o = Ret a' ∧ get l o = Ret a) ∨ get (<[n := a']> l) o = get l o.
Proof.
  intros Hn. unfold get. destruct (Z.leb_spec 0 o); [|by right]. destruct (decide (Z.to_nat o = n)) as [->|Hne].
  - left. rewrite list_lookup_insert_eq by by eapply lookup_lt_Some. by rewrite Hn.
  - right. by rewrite list_lookup_insert_ne.
Qed.

Lemma write_all_ext {A} (f g : A → EvalContext → bytes → outcome (result unit * EvalContext * bytes)) l :
  (∀ a ctx out, a ∈ l → f a ctx out = g a ctx out) → ∀ ctx out, write_all f l ctx out = write_all g l ctx out.
Proof.
  induction l as [|a l IH]; intros H ctx out; [done|]. cbn [write_all]. rewrite H by left.
  destruct (g a ctx out) as [ [ [r ctx'] out']|]; [|done]. cbn [mbind outcome_bind]. destruct r; [|done].
  apply IH. intros. apply H. by right.
Qed.

(** C27. Decoding a column of a batch for some rows, whose cells are in the form in which their
    values are written, succeeds, and whatever of these rows is then encoded, of whichever
    columns, is what would have been encoded before: the same bytes, or the same error or panic
    of another column. *)
Theorem decoding_unseen cs topograph n raw ft t rows ctx :
  columns cs !! n = Some (Primitive_Causet raw) → topograph !! n = Some ft → eval_type ft = Ok t →
  (∀ i, i ∈ rows → ∃ b, get raw i = Ret b ∧ canonical t ft b) →
  ∃ c', ensure_decoded (Primitive_Causet raw) ctx ft rows = Ret (c', ctx, Ok tt)
  ∧ ∀ rows' offsets output ctx1, rows' ⊆ rows →
      columns_encode (mkColumns (<[n := c']> (columns cs))) rows' offsets topograph output ctx1
      = columns_encode cs rows' offsets topograph output ctx1.
Proof.
  intros Hn Hft Ht Hc. destruct (decodes_canonical t ft raw rows ctx Hc) as (vs & Hd & Hv).
  specialize (Hv (replicate (length raw) None) ltac:(by rewrite length_replicate)).
  exists (Decoded (mkVector t (mkVec (assigned (replicate (length raw) None) rows vs)))). split.
  - apply ensure_decoded_Ok. by exists t, vs.
  - intros rows' offsets output ctx1 Hsub. unfold columns_encode. apply write_all_ext. intros i ctx2 out2 Hi.
    apply write_all_ext. intros o ctx3 out3 _. cbn [columns].
    destruct (get_insert (columns cs) n (Primitive_Causet raw) (Decoded (mkVector t (mkVec (assigned (replicate (length raw) None) rows vs)))) o Hn)
      as [ [Ho [-> ->] ]| ->]; [|done]. cbn [mbind outcome_bind].
    destruct (get topograph o) as [ft'|] eqn:Hg; [|done]. apply get_Ret in Hg as [_ Hg]. rewrite Ho in Hg. assert (ft' = ft) as -> by congruence.
    cbn [mbind outcome_bind encode_cell vector_type vector_values]. destruct (Hv i) as (b & x & Hb & Hx & He); [by apply Hsub|].
    rewrite Hb. unfold get_option_ref. rewrite (proj2 (get_Ret _ i x)).
    + cbn [mbind outcome_bind]. by rewrite He.
    + split; [|done]. by apply get_Ret in Hb as [? _].
Qed.

(** ** Equal lengths *)

Lemma min_length l : ∀ m, foldl (λ m c, Z.min m (col_len c)) m l <= m
  ∧ Forall (λ c, foldl (λ m c, Z.min m (col_len c)) m l <= col_len c) l
  ∧ (foldl (λ m c, Z.min m (col_len c)) m l = m ∨ ∃ c, c ∈ l ∧ foldl (λ m c, Z.min m (col_len c)) m l = col_len c).
Proof.
  induction l as [|c l IH]; intros m; cbn [foldl]; [split_and!; [lia|done|by left]|].
  destruct (IH (Z.min m (col_len c))) as (H1 & H2 & H3). split_and!.
  - lia.
  - constructor; [lia|done].
  - destruct H3 as [->|(c' & Hc & ->)]; [|right; exists c'; split; [by right|done] ].
    destruct (Z.min_spec m (col_len c)) as [ [_ ->]|[_ ->] ]; [by left|right; exists c; split; [left|done] ].
Qed.

Lemma col_len_nonneg c : 0 <= col_len c.
Proof. destruct c; cbn; unfold vec_len; lia. Qed.
Lemma col_len_truncate c n : 0 <= n <= col_len c → col_len (col_truncate c n) = n.
Proof. destruct c; cbn; unfold vec_len; cbn [vec_data vec_truncate]; intros H; rewrite length_take; lia. Qed.

(** Bringing the columns of a batch to equal length never fails: all of them are cut to the length of
    the shortest, which the batch then has for its rows. *)
Theorem truncate_exact cs : ∃ n, truncate_into_equal_length cs = Ret (mkColumns (map (λ c, col_truncate c n) (columns cs)))
  ∧ (∀ c, c ∈ columns cs → n <= col_len c ∧ col_len (col_truncate c n) = n)
  ∧ (columns cs = [] ∨ ∃ c, c ∈ columns cs ∧ col_len c = n)
  ∧ rows_len (mkColumns (map (λ c, col_truncate c n) (columns cs))) = n.
Proof.
  destruct (min_length (columns cs) (rows_len cs)) as (H1 & H2 & H3). set (n := foldl _ _ _) in *. exists n.
  assert (∀ c, c ∈ columns cs → n <= col_len c ∧ col_len (col_truncate c n) = n) as Hc.
  { intros c Hc. rewrite List.Forall_forall in H2. specialize (H2 c ltac:(by apply list_elem_of_In)). split; [done|]. apply col_len_truncate.
    split; [|done]. destruct H3 as [->|(c' & _ & ->)]; [|apply col_len_nonneg]. unfold rows_len. destruct (columns cs); [done|apply col_len_nonneg]. }
  assert (columns cs = [] ∧ n = 0 ∨ ∃ c l, columns cs = c :: l) as [ [He Hz]|(c & l & He)].
  { unfold n, rows_len. destruct (columns cs) as [|c l]; [by left|right; by eexists _, _]. }
  - unfold truncate_into_equal_length. fold n. rewrite He. cbn. split_and!; [done|intros c H; by apply elem_of_nil in H|by left|done].
  - assert (rows_len (mkColumns (map (λ c, col_truncate c n) (columns cs))) = n) as Hr.
    { rewrite He. cbn. apply Hc. rewrite He. left. }
    split_and!; [|done| |done].
    + unfold truncate_into_equal_length. fold n. unfold assert_columns_equal_length.
      replace (forallb _ _) with true; [done|]. symmetry. apply forallb_forall. intros c' Hc'. rewrite Hr. cbn [columns] in Hc'.
      apply in_map_iff in Hc' as (c0 & <- & Hc0). apply Z.eqb_eq. symmetry. apply Hc. by apply list_elem_of_In.
    + right. destruct H3 as [Hm|(c' & Hin & Hm)]; [|by exists c']. exists c. split; [rewrite He; left|]. rewrite Hm. unfold rows_len. by rewrite He.
Qed.
End Laws.

(** ** A batch *)

(** Cells of one byte, or of none for no value; nothing else decodes. *)
#[export] Instance sample_columns : ColumnTypes := {|
  FieldType := bool;
  EvalType := unit;
  CellValue := Z;
  Chunk := bytes;
  eval_type := λ ft, if ft : bool then Ok tt else Err Other;
  decode_cell := λ _ b _, match b with [] => mret None | [x] => mret (Some x) | _ => fail InvalidDataType end;
  encode_value := λ _ x _ ctx out, Ret (Ok tt, ctx, out ++ match x with Some x => [x] | None => [] end);
  buffer_maximum_encoded_size := λ l _, Ret (zlen (concat l));
  vector_maximum_encoded_size := λ _ l _, Ret (zlen l);
  vector_maximum_encoded_size_chunk := λ _ l _, Ret (2 * zlen l);
  from_primitive_causet_datums := λ _ l rows, mret (concat l);
  from_vector_causet_locale := λ _ _ l _, Ok (omap id l);
  write_chunk_column := λ c out, Ret (Ok tt, out ++ c);
|}.

Definition sample_batch : QuiesceBatchColumnVec :=
  mkColumns [Primitive_Causet [ [5]; []; [7; 8] ]; Decoded (mkVector tt (mkVec [Some 1; Some 2; None; Some 4]))].

(** The third cell does not decode; it is not asked for. *)
Example columns_tests ctx :
  ensure_decoded (Primitive_Causet [ [5]; []; [7; 8] ]) ctx true [1; 0] = Ret (Decoded (mkVector tt (mkVec [Some 5; None; None])), ctx, Ok tt)
  ∧ ensure_decoded (Primitive_Causet [ [5]; []; [7; 8] ]) ctx true [0; 2] = Ret (Primitive_Causet [ [5]; []; [7; 8] ], ctx, Err InvalidDataType)
  ∧ ensure_decoded (Primitive_Causet [ [5] ]) ctx true [1] = Panic
  ∧ columns_encode sample_batch [2; 0] [1; 0] [true; true] [] ctx = Ret (Ok tt, ctx, [7; 8; 1; 5])
  ∧ truncate_into_equal_length sample_batch
    = Ret (mkColumns [Primitive_Causet [ [5]; []; [7; 8] ]; Decoded (mkVector tt (mkVec [Some 1; Some 2; None]))])
  ∧ columns_maximum_encoded_size_chunk sample_batch [] [0; 1] = Ret 14 ∧ assert_columns_equal_length sample_batch = Panic.
Proof. repeat split. Qed.

Definition sample_context : EvalContext := EvalContext_new (PolicyGradient_new).

Lemma decoding_unseen_witness :
  ∃ c', ensure_decoded (Primitive_Causet [ [5]; []; [7; 8] ]) sample_context true [1; 0] = Ret (c', sample_context, Ok tt)
  ∧ columns_encode (mkColumns (<[0%nat := c']> (columns sample_batch))) [0; 1] [1; 0] [true; true] [] sample_context
    = columns_encode sample_batch [0; 1] [1; 0] [true; true] [] sample_context.
Proof.
  destruct (decoding_unseen sample_batch [true; true] 0 [ [5]; []; [7; 8] ] true tt [1; 0] sample_context) as (c' & H1 & H2); try done.
  - intros i Hi. repeat (apply elem_of_cons in Hi as [->|Hi]); [exists []|exists [5]|by apply elem_of_nil in Hi].
    all: split; [done|eexists; split; [done|]; done].
  - exists c'. split; [done|]. apply H2. intros i Hi. repeat (apply elem_of_cons in Hi as [->|Hi]); [right; left|left|by apply elem_of_nil in Hi].
Defined.
