(* ===== verification/Capture.v ===== *)
(** * Capture: change capture, the observer of a region

    [einstein_db_alexandrov_processing/mod.rs].  A [Sentinel] watches one region: it turns
    the commands of the region into events for the downstreams that subscribed to it, and
    tracks the locks of the transactions in flight, from which the resolver computes the
    timestamp before which nothing more will be committed.  Until the region is ready (its
    resolver is installed) the downstreams and the locks wait in [Pending].

    What the functions do to the outside is the record [World]: the counter of downstream
    ids, the cells of the downstreams' states (shared with whoever holds a handle), the
    events handed to the channels, in order, and the gauge of pending bytes.  The resolver,
    the readers of locks, writes and keys, and the protocol's errors belong to other crates:
    the class [CaptureTypes]. *)
From Stdlib Require Import ZArith Lia.
From stdpp Require Import base list numbers countable gmap.
From S2P Require Import Prelude Slice.
#[local] Open Scope Z_scope.

#[local] Notation bytes := (list Z).
#[local] Notation zlen l := (Z.of_nat (length l)).

(** ** Rows of events *)

Inductive EventRowOpType := OP_UnCausetLocaleNucleon | OP_Put | OP_Delete.
Inductive EventLogType := LOG_UnCausetLocaleNucleon | LOG_Prewrite | LOG_Commit | LOG_Rollback | LOG_Committed | LOG_Initialized.

Record EventRow := mkRow {
  start_ts : Z; commit_ts : Z; soliton_id : bytes; op_type : EventRowOpType; r_type : EventLogType;
  causet_locale : bytes;
}.
Definition default_row : EventRow := mkRow 0 0 [] OP_UnCausetLocaleNucleon LOG_UnCausetLocaleNucleon [].

Definition set_event_row_type (event : EventRow) (ty : EventLogType) : EventRow :=
  mkRow (start_ts event) (commit_ts event) (soliton_id event) (op_type event) ty (causet_locale event).
Definition set_causet_locale (event : EventRow) (v : bytes) : EventRow :=
  mkRow (start_ts event) (commit_ts event) (soliton_id event) (op_type event) (r_type event) v.

(** The kinds of writes and locks that the code tells apart. *)
Inductive WriteType := Write_Put | Write_Delete | Write_Rollback | Write_Other.
Inductive LockType := Lock_Put | Lock_Delete | Lock_Other.
Record Write := mkWrite { write_type : WriteType; wr_start_ts : Z; wr_short_causet_locale : option bytes }.
Record Lock := mkLock { lock_type : LockType; lk_ts : Z; lk_short_causet_locale : option bytes }.

(** What other crates provide. *)
Class CaptureTypes := {
  RegionEpoch : Type;
  Region : Type;
  NotLeader : Type;
  EpochNotMatch : Type;
  (** A header of an error; [Error::Request] makes an error of it. *)
  Header : Type;
  CaptureError : Type;
  Request : Header → CaptureError;
  extract_error_header : CaptureError → Header;
  header_not_leader : Header → option NotLeader;
  header_epoch_not_match : Header → option EpochNotMatch;
  (** [violetabftStoreError::EpochNotMatch(_, regions).into()] *)
  epoch_not_match : list Region → Header;
  (** [compare_region_epoch(epoch, region, false, true, true)], its error as a header. *)
  compare_region_epoch : RegionEpoch → Region → option Header;
  Resolver : Type;
  track_lock : Z → bytes → Resolver → Resolver;
  untrack_lock : Z → option Z → bytes → Resolver → Resolver;
  resolve : Z → Resolver → Resolver * option Z;
  (** [TimeStamp::physical]. *)
  physical : Z → Z;
  parse_lock : bytes → option Lock;
  parse_write : bytes → option Write;
  (** [Key::from_encoded(k)] and then [decode_ts], [truncate_ts], [into_raw]. *)
  decode_ts : bytes → option Z;
  truncate_ts : bytes → option bytes;
  into_primitive_causet : bytes → option bytes;
  (** The order in which a map of rows is walked. *)
  iter_rows : gmap bytes EventRow → list (bytes * EventRow);
}.

Class CaptureLaws {CT : CaptureTypes} : Prop := {
  request_header h : extract_error_header (Request h) = h;
  epoch_header rs : header_not_leader (epoch_not_match rs) = None ∧ is_Some (header_epoch_not_match (epoch_not_match rs));
  iter_rows_perm m : iter_rows m ≡ₚ map_to_list m;
}.

Definition unwrap_option {A} (o : option A) : outcome A := match o with Some a => Ret a | None => Panic end.

Section Rows.
Context {CT : CaptureTypes}.

(** The result tells whether the record is skipped. *)
Definition decode_write (key v : bytes) (event : EventRow) : outcome (bool * EventRow) :=
  write ← unwrap_option (parse_write v);
  match
    match write_type write with
    | Write_Put => Some (OP_Put, LOG_Commit)
    | Write_Delete => Some (OP_Delete, LOG_Commit)
    | Write_Rollback => Some (OP_UnCausetLocaleNucleon, LOG_Rollback)
    | Write_Other => None
    end
  with
  | None => Ret (true, event)
  | Some (op, ty) =>
      ts ← (match write_type write with Write_Rollback => Ret 0 | _ => unwrap_option (decode_ts key) end);
      k ← unwrap_option (truncate_ts key);
      raw ← unwrap_option (into_primitive_causet k);
      Ret (false, mkRow (wr_start_ts write) ts raw op ty (default (causet_locale event) (wr_short_causet_locale write)))
  end.

Definition decode_lock (key v : bytes) (event : EventRow) : outcome (bool * EventRow) :=
  lock ← unwrap_option (parse_lock v);
  match
    match lock_type lock with Lock_Put => Some OP_Put | Lock_Delete => Some OP_Delete | Lock_Other => None end
  with
  | None => Ret (true, event)
  | Some op =>
      raw ← unwrap_option (into_primitive_causet key);
      Ret (false, mkRow (lk_ts lock) (commit_ts event) raw op LOG_Prewrite
        (default (causet_locale event) (lk_short_causet_locale lock)))
  end.

Definition decode_default (v : bytes) (event : EventRow) : EventRow :=
  match v with [] => event | _ => set_causet_locale event v end.

(** ** Events and downstreams *)

Inductive EventError :=
| EE_NotLeader (e : NotLeader)
| EE_EpochNotMatch (e : EpochNotMatch)
| EE_RegionNotFound (region_id : Z)
| EE_DuplicateRequest (region_id : Z).

Inductive Event_oneof_event :=
| EV_Error (e : EventError)
| EV_Entries (entries : list EventRow)
| EV_ResolvedTs (ts : Z).

Record Event := mkEvent { ev_region_id : Z; ev_index : Z; ev_request_id : Z; ev_event : option Event_oneof_event }.
Definition set_request_id (e : Event) (id : Z) : Event := mkEvent (ev_region_id e) (ev_index e) id (ev_event e).

Definition EVENT_MAX_SIZE : Z := 6 * 1024 * 1024.

Record World := mkWorld {
  next_id : Z;                          (* DOWNSTREAM_ID_ALLOC *)
  cells : list Z;                       (* the states, by address *)
  sent : list (Z * (Z * Event));        (* channel, size and event *)
  gauge : Z;                            (* CC_PENDING_BYTES_GAUGE *)
}.
Definition with_cells (w : World) (c : list Z) : World := mkWorld (next_id w) c (sent w) (gauge w).
Definition with_sent (w : World) (l : list (Z * (Z * Event))) : World := mkWorld (next_id w) (cells w) l (gauge w).
Definition gauge_add (w : World) (n : Z) : World := mkWorld (next_id w) (cells w) (sent w) (gauge w + n).

(** A state is the address of its cell. *)
Definition UNINITIALIZED : Z := 0.
Definition NORMAL : Z := 1.
Definition STOPPED : Z := 2.
Definition load (w : World) (st : nat) : Z := default UNINITIALIZED (cells w !! st).
Definition store (w : World) (st : nat) (v : Z) : World := with_cells w (<[st := v]> (cells w)).
Definition is_normal (w : World) (st : nat) : bool := load w st =? NORMAL.
Definition is_stopped (w : World) (st : nat) : bool := load w st =? STOPPED.
Definition is_uninitialized (w : World) (st : nat) : bool := load w st =? UNINITIALIZED.
Definition set_normal (w : World) (st : nat) : World := store w st NORMAL.
Definition set_stopped (w : World) (st : nat) : World := store w st STOPPED.
Definition set_uninitialized (w : World) (st : nat) : World := store w st UNINITIALIZED.
(** One compare-and-swap. *)
Definition uninitialized_to_normal (w : World) (st : nat) : World * bool :=
  if load w st =? UNINITIALIZED then (store w st NORMAL, true) else (w, false).

Record Downstream := mkDownstream {
  d_id : Z; req_id : Z; conn_id : Z; region_epoch : RegionEpoch; sink : option Z; state : nat;
}.

Definition Downstream_new (epoch : RegionEpoch) (req conn : Z) (w : World) : World * Downstream :=
  (mkWorld (as_u64 (next_id w + 1)) (cells w ++ [UNINITIALIZED]) (sent w) (gauge w),
   mkDownstream (next_id w) req conn epoch None (length (cells w))).

Definition set_sink (d : Downstream) (s : Z) : Downstream :=
  mkDownstream (d_id d) (req_id d) (conn_id d) (region_epoch d) (Some s) (state d).

(** A channel that refuses the event only makes a line in the log. *)
Definition sink_event (d : Downstream) (e : Event) (size : Z) (w : World) : outcome World :=
  ch ← unwrap_option (sink d);
  Ret (with_sent w (sent w ++ [(ch, (size, set_request_id e (req_id d)))])).

Definition sink_duplicate_error (d : Downstream) (region_id : Z) (w : World) : outcome World :=
  sink_event d (mkEvent region_id 0 0 (Some (EV_Error (EE_DuplicateRequest region_id)))) 0 w.

(** ** The sentinel *)

Inductive PendingLock :=
| Track (key : bytes) (ts : Z)
| Untrack (key : bytes) (ts : Z) (commit : option Z).

Record Pending := mkPending { p_downstreams : list Downstream; p_locks : list PendingLock; pending_bytes : Z }.

Record Sentinel := mkSentinel {
  s_id : Z; region_id : Z; region : option Region; s_downstreams : list Downstream;
  resolver : option Resolver; pending : option Pending; enabled : bool; failed : bool;
}.

Definition with_downstreams (s : Sentinel) (l : list Downstream) : Sentinel :=
  mkSentinel (s_id s) (region_id s) (region s) l (resolver s) (pending s) (enabled s) (failed s).
Definition with_resolver (s : Sentinel) (r : option Resolver) : Sentinel :=
  mkSentinel (s_id s) (region_id s) (region s) (s_downstreams s) r (pending s) (enabled s) (failed s).
Definition with_pending (s : Sentinel) (p : option Pending) : Sentinel :=
  mkSentinel (s_id s) (region_id s) (region s) (s_downstreams s) (resolver s) p (enabled s) (failed s).
Definition with_region (s : Sentinel) (r : option Region) : Sentinel :=
  mkSentinel (s_id s) (region_id s) r (s_downstreams s) (resolver s) (pending s) (enabled s) (failed s).
Definition disable (s : Sentinel) : Sentinel :=
  mkSentinel (s_id s) (region_id s) (region s) (s_downstreams s) (resolver s) (pending s) false (failed s).
Definition mark_failed (s : Sentinel) : Sentinel :=
  mkSentinel (s_id s) (region_id s) (region s) (s_downstreams s) (resolver s) (pending s) (enabled s) true.

(** [observe_id] is what [ObserveID::new] gives. *)
Definition Sentinel_new (observe_id id : Z) : Sentinel :=
  mkSentinel observe_id id None [] None (Some (mkPending [] [] 0)) true false.

Definition error_event (s : Sentinel) (err : CaptureError) : Event :=
  let h := extract_error_header err in
  let e := match header_not_leader h, header_epoch_not_match h with
           | Some x, _ => EE_NotLeader x
           | None, Some x => EE_EpochNotMatch x
           | None, None => EE_RegionNotFound (region_id s)
           end in
  mkEvent (region_id s) 0 0 (Some (EV_Error e)).

Definition subscribe (s : Sentinel) (d : Downstream) (w : World) : outcome (Sentinel * World * bool) :=
  match region s with
  | Some r =>
      match compare_region_epoch (region_epoch d) r with
      | Some h => w ← sink_event d (error_event s (Request h)) 0 w; Ret (s, w, false)
      | None => Ret (with_downstreams s (s_downstreams s ++ [d]), w, true)
      end
  | None =>
      p ← unwrap_option (pending s);
      Ret (with_pending s (Some (mkPending (p_downstreams p ++ [d]) (p_locks p) (pending_bytes p))), w, true)
  end.

Definition downstreams (s : Sentinel) : list Downstream :=
  match pending s with Some p => p_downstreams p | None => s_downstreams s end.
(** Writing through [downstreams_mut]. *)
Definition downstreams_mut (s : Sentinel) (l : list Downstream) : Sentinel :=
  match pending s with
  | Some p => with_pending s (Some (mkPending l (p_locks p) (pending_bytes p)))
  | None => with_downstreams s l
  end.

Definition unsubscribe (s : Sentinel) (id : Z) (err : option CaptureError) (w : World) : outcome (Sentinel * World * bool) :=
  let change_data_error := error_event s <$> err in
  w ← foldO (λ w d,
        if d_id d =? id then
          w ← (match change_data_error with Some e => sink_event d e 0 w | None => Ret w end);
          Ret (set_stopped w (state d))
        else Ret w) w (downstreams s);
  let rest := filter (λ d, d_id d ≠ id) (downstreams s) in
  let s := downstreams_mut s rest in
  let is_last := bool_decide (rest = []) in
  Ret (if is_last then disable s else s, w, is_last).

(** All but the last one are passed over when they are not normal and only normal ones are
    meant; the last one gets every event. *)
Definition broadcast (s : Sentinel) (e : Event) (size : Z) (normal_only : bool) (w : World) : outcome World :=
  match last (downstreams s) with
  | None => Panic
  | Some d_last =>
      w ← foldO (λ w d, if normal_only && negb (is_normal w (state d)) then Ret w else sink_event d e size w)
            w (take (length (downstreams s) - 1) (downstreams s));
      sink_event d_last e size w
  end.

Definition stop (s : Sentinel) (err : CaptureError) (w : World) : outcome (Sentinel * World) :=
  let s := disable (mark_failed s) in
  let w := foldl (λ w d, set_stopped w (state d)) w (s_downstreams s) in
  w ← broadcast s (error_event s err) 0 false w;
  Ret (s, w).

Definition apply_lock (r : Resolver) (l : PendingLock) : Resolver :=
  match l with
  | Track k ts => track_lock ts k r
  | Untrack k ts c => untrack_lock ts c k r
  end.

(** The pending record is dropped at the end, which gives its bytes back to the gauge. *)
Definition on_region_ready (s : Sentinel) (r : Resolver) (reg : Region) (w : World) : outcome (Sentinel * World * list Downstream) :=
  match resolver s with
  | Some _ => Panic
  | None =>
      p ← unwrap_option (pending s);
      let r := foldl apply_lock r (p_locks p) in
      Ret (with_resolver (with_pending (with_region s (Some reg)) None) (Some r), gauge_add w (- pending_bytes p), p_downstreams p)
  end.

Definition on_min_ts (s : Sentinel) (min_ts : Z) (w : World) : outcome (Sentinel * World * option Z) :=
  match resolver s with
  | None => Ret (s, w, None)
  | Some r =>
      let '(r, o) := resolve min_ts r in
      let s := with_resolver s (Some r) in
      match o with
      | None => Ret (s, w, None)
      | Some ts =>
          w ← broadcast s (mkEvent (region_id s) 0 0 (Some (EV_ResolvedTs ts))) 0 true w;
          _ ← u64 (physical min_ts - physical ts);
          Ret (s, w, Some ts)
      end
  end.

(** ** Commands *)

Inductive Req :=
| Req_Put (brane key v : bytes)
| Req_Delete
| Req_Other.

Inductive AdminCmdType := Admin_Split | Admin_BatchSplit | Admin_PrepareMerge | Admin_CommitMerge | Admin_RollbackMerge | Admin_Other.
Record AdminResponse := mkAdmin { split_left : Region; split_right : Region; splits_regions : list Region }.

Record Cmd := mkCmd {
  c_index : Z; c_requests : list Req; c_admin : option (AdminCmdType * AdminResponse); c_error : option Header;
}.
Record CmdBatch := mkBatch { observe_id : Z; cmds : list Cmd }.

(** Tracks (or untracks) at once if there is a resolver, and keeps it for later if not. *)
Definition track (s : Sentinel) (key : bytes) (l : PendingLock) (w : World) : outcome (Sentinel * World) :=
  match resolver s with
  | Some r => Ret (with_resolver s (Some (apply_lock r l)), w)
  | None =>
      p ← unwrap_option (pending s);
      Ret (with_pending s (Some (mkPending (p_downstreams p) (p_locks p ++ [l]) (pending_bytes p + zlen key))),
           gauge_add w (zlen key))
  end.

Definition BRANE_WRITE : bytes := [119; 114; 105; 116; 101].
Definition BRANE_LOCK : bytes := [108; 111; 99; 107].
Definition BRANE_DEFAULT : bytes := [100; 101; 102; 97; 117; 108; 116].

Record Sinking := mkSinking { k_sentinel : Sentinel; k_world : World; k_rows : gmap bytes EventRow; k_total : Z }.

Definition sink_write (k : Sinking) (key v : bytes) : outcome Sinking :=
  '(skip, event) ← decode_write key v default_row;
  if skip : bool then Ret k else
  let commit := if commit_ts event =? 0 then None else Some (commit_ts event) in
  '(s, w) ← track (k_sentinel k) (soliton_id event) (Untrack (soliton_id event) (start_ts event) commit) (k_world k);
  match k_rows k !! soliton_id event with
  | Some _ => Panic
  | None => Ret (mkSinking s w (<[soliton_id event := event]> (k_rows k)) (k_total k))
  end.

Definition sink_lock (k : Sinking) (key v : bytes) : outcome Sinking :=
  '(skip, event) ← decode_lock key v default_row;
  if skip : bool then Ret k else
  let occupied := default default_row (k_rows k !! soliton_id event) in
  event ← (match causet_locale occupied with
           | [] => Ret event
           | v => match causet_locale event with [] => Ret (set_causet_locale event v) | _ => Panic end
           end);
  '(s, w) ← track (k_sentinel k) (soliton_id event) (Track (soliton_id event) (start_ts event)) (k_world k);
  Ret (mkSinking s w (<[soliton_id event := event]> (k_rows k)) (k_total k)).

Definition sink_default (k : Sinking) (key v : bytes) : outcome Sinking :=
  t ← unwrap_option (truncate_ts key);
  raw ← unwrap_option (into_primitive_causet t);
  let event := decode_default v (default default_row (k_rows k !! raw)) in
  Ret (mkSinking (k_sentinel k) (k_world k) (<[raw := event]> (k_rows k)) (k_total k + zlen (causet_locale event))).

Definition sink_request (k : Sinking) (req : Req) : outcome Sinking :=
  match req with
  | Req_Put brane key v =>
      if bool_decide (brane = BRANE_WRITE) then sink_write k key v
      else if bool_decide (brane = BRANE_LOCK) then sink_lock k key v
      else if bool_decide (brane = [] ∨ brane = BRANE_DEFAULT) then sink_default k key v
      else Panic
  | _ => Ret k
  end.

Definition sink_data (s : Sentinel) (index : Z) (requests : list Req) (w : World) : outcome (Sentinel * World) :=
  k ← foldO sink_request (mkSinking s w ∅ 0) requests;
  let entries := (iter_rows (k_rows k)).*2 in
  w ← broadcast (k_sentinel k) (mkEvent (region_id s) index 0 (Some (EV_Entries entries))) (k_total k) true (k_world k);
  Ret (k_sentinel k, w).

Definition sink_admin (s : Sentinel) (ty : AdminCmdType) (resp : AdminResponse) : Sentinel * (CaptureError + unit) :=
  match
    match ty with
    | Admin_Split => Some [split_left resp; split_right resp]
    | Admin_BatchSplit => Some (splits_regions resp)
    | Admin_PrepareMerge | Admin_CommitMerge | Admin_RollbackMerge => Some []
    | Admin_Other => None
    end
  with
  | None => (s, inr tt)
  | Some regions => (mark_failed s, inl (Request (epoch_not_match regions)))
  end.

Fixpoint run_cmds (s : Sentinel) (l : list Cmd) (w : World) : outcome (Sentinel * World * (CaptureError + unit)) :=
  match l with
  | [] => Ret (s, w, inr tt)
  | c :: l =>
      match c_error c with
      | Some h => Ret (mark_failed s, w, inl (Request h))
      | None =>
          match c_admin c with
          | None => '(s, w) ← sink_data s (c_index c) (c_requests c) w; run_cmds s l w
          | Some (ty, resp) =>
              match sink_admin s ty resp with
              | (s, inl e) => Ret (s, w, inl e)
              | (s, inr _) => run_cmds s l w
              end
          end
      end
  end.

Definition on_alexandrov_poset_process (s : Sentinel) (b : CmdBatch) (w : World) : outcome (Sentinel * World * (CaptureError + unit)) :=
  if observe_id b =? s_id s then run_cmds s (cmds b) w else Ret (s, w, inr tt).

(** ** The scan of what was there before *)

Inductive TxnEntry :=
| Prewrite (dflt : bytes) (lock : bytes * bytes)
| Commit (dflt : bytes) (write : bytes * bytes).

(** What an entry of the scan becomes, if anything; the end of the scan is [None]. *)
Definition scan_row (entry : option TxnEntry) : outcome (option EventRow) :=
  match entry with
  | Some (Prewrite dflt (k, v)) =>
      '(skip, event) ← decode_lock k v default_row;
      Ret (if skip : bool then None else Some (decode_default dflt event))
  | Some (Commit dflt (k, v)) =>
      '(skip, event) ← decode_write k v default_row;
      if skip : bool then Ret None else
      let event := decode_default dflt event in
      match r_type event with
      | LOG_Rollback => Ret None
      | _ => Ret (Some (set_event_row_type event LOG_Committed))
      end
  | None => Ret (Some (set_event_row_type default_row LOG_Initialized))
  end.

(** The vector of rows is [g_done ++ [(0, g_last)]], with the size of the last batch so far. *)
Record Gathering := mkGathering { g_done : list (Z * list EventRow); g_last : list EventRow; g_size : Z }.

Definition gather (g : Gathering) (entry : option TxnEntry) : outcome Gathering :=
  r ← scan_row entry;
  match r, entry with
  | None, _ => Ret g
  | Some event, None => Ret (mkGathering (g_done g) (g_last g ++ [event]) (g_size g))
  | Some event, Some _ =>
      let row_size := zlen (soliton_id event) + zlen (causet_locale event) in
      let g := if EVENT_MAX_SIZE <=? g_size g + row_size
               then mkGathering (g_done g ++ [(g_size g, g_last g)]) [] 0 else g in
      Ret (mkGathering (g_done g) (g_last g ++ [event]) (g_size g + row_size))
  end.

Definition on_mutant_search (s : Sentinel) (id : Z) (entries : list (option TxnEntry)) (w : World) : outcome World :=
  match find (λ d, d_id d =? id) (downstreams s) with
  | None => Ret w
  | Some d =>
      g ← foldO gather (mkGathering [] [] 0) entries;
      foldO (λ w '(size, rs), match rs with
               | [] => Ret w
               | _ => sink_event d (mkEvent (region_id s) 0 0 (Some (EV_Entries rs))) size w
               end) w (g_done g ++ [(0, g_last g)])
  end.
End Rows.
