(* ===== verification/CaptureLaws.v ===== *)
(** * CaptureLaws: what the downstreams of a region are told

    The life of a sentinel as a step relation with the log of the locks it was shown, the
    resolver against that log, and what commands, scans and resolved timestamps send to
    whom. *)
From Stdlib Require Import ZArith Lia.
From stdpp Require Import base list numbers countable gmap.
From S2P Require Import Prelude Slice Capture.
#[local] Open Scope Z_scope.

#[local] Notation bytes := (list Z).
#[local] Notation zlen l := (Z.of_nat (length l)).

Section Laws.
Context {CT : CaptureTypes}.
Implicit Types (s : Sentinel) (w : World) (d : Downstream).

(** ** Sending *)

(** The event as the downstream's channel gets it. *)
Definition delivery (e : Event) (size : Z) (d : Downstream) : list (Z * (Z * Event)) :=
  match sink d with Some ch => [(ch, (size, set_request_id e (req_id d)))] | None => [] end.
Definition deliver (w : World) (l : list (Z * (Z * Event))) : World := with_sent w (sent w ++ l).

Lemma deliver_nil w : deliver w [] = w.
Proof. unfold deliver, with_sent. rewrite app_nil_r. by destruct w. Qed.

Lemma deliver_app w l l' : deliver (deliver w l) l' = deliver w (l ++ l').
Proof. unfold deliver, with_sent. cbn. by rewrite app_assoc. Qed.

Lemma sink_event_eq d e size w : is_Some (sink d) → sink_event d e size w = Ret (deliver w (delivery e size d)).
Proof. intros [ch Hs]. unfold sink_event, delivery. by rewrite Hs. Qed.

Lemma sink_event_Ret d e size w w' :
  sink_event d e size w = Ret w' ↔ is_Some (sink d) ∧ w' = deliver w (delivery e size d).
Proof.
  unfold sink_event, delivery. destruct (sink d) as [ch|]; cbn; [|split; [done|intros [[? ?] _]; done]].
  split; [intros [= <-]; eauto|]. by intros [_ ->].
Qed.

(** Who is meant by a broadcast. *)
Definition heard (w : World) (normal_only : bool) (l : list Downstream) : list Downstream :=
  match last l with
  | None => []
  | Some z => filter (λ d, normal_only = false ∨ is_normal w (state d) = true) (take (length l - 1) l) ++ [z]
  end.

Lemma deliver_normal w l st : is_normal (deliver w l) st = is_normal w st.
Proof. done. Qed.

Lemma broadcast_loop normal_only e size l : ∀ w w',
  foldO (λ w d, if normal_only && negb (is_normal w (state d)) then Ret w else sink_event d e size w) w l = Ret w'
  ↔ let l' := filter (λ d, normal_only = false ∨ is_normal w (state d) = true) l in
    Forall (λ d, is_Some (sink d)) l' ∧ w' = deliver w (l' ≫= delivery e size).
Proof.
  induction l as [|d l IH]; intros w w'; cbn [foldO].
  - cbn. rewrite deliver_nil. naive_solver.
  - rewrite filter_cons. destruct (decide (normal_only = false ∨ is_normal w (state d) = true)) as [Hd|Hd].
    + assert (normal_only && negb (is_normal w (state d)) = false) as -> by (destruct Hd as [E|E]; rewrite E; cbn; by rewrite ?andb_false_r).
      cbn [mbind list_bind]. rewrite Forall_cons. rewrite bind_Ret. setoid_rewrite sink_event_Ret. setoid_rewrite IH. split.
      * intros (w1 & [Hs ->] & Hf & ->). split; [done|]. by rewrite deliver_app.
      * intros [[Hs Hf] ->]. eexists. split; [done|]. split; [done|]. by rewrite deliver_app.
    + assert (normal_only && negb (is_normal w (state d)) = true) as ->.
      { destruct normal_only; [|naive_solver]. cbn. destruct (is_normal w (state d)); naive_solver. }
      cbn [mbind outcome_bind]. by rewrite IH.
Qed.

Lemma broadcast_Ret s e size normal_only w w' :
  broadcast s e size normal_only w = Ret w' ↔
  downstreams s ≠ [] ∧ Forall (λ d, is_Some (sink d)) (heard w normal_only (downstreams s))
  ∧ w' = deliver w (heard w normal_only (downstreams s) ≫= delivery e size).
Proof.
  unfold broadcast, heard. destruct (last (downstreams s)) as [z|] eqn:E; cycle 1.
  { apply last_None in E. split; [done|]. intros [H _]. by rewrite E in H. }
  rewrite bind_Ret, Forall_app, Forall_singleton, bind_app. cbn [mbind list_bind]. rewrite app_nil_r.
  setoid_rewrite broadcast_loop. setoid_rewrite sink_event_Ret. split.
  - intros (w1 & [H1 ->] & H2 & ->). rewrite deliver_app. split_and!; try done. intros H. by rewrite H in E.
  - intros (_ & [H1 H2] & ->). eexists. split; [done|]. split; [done|]. by rewrite deliver_app.
Qed.

(** ** Commands, put by put

    What a put says ([item]), what it does to the row of its key ([key_step]) and which lock
    it shows the resolver. *)
Inductive item :=
| I_write (e : EventRow)
| I_lock (e : EventRow)
| I_default (key v : bytes).

Definition item_key (i : item) : bytes :=
  match i with I_write e | I_lock e => soliton_id e | I_default k _ => k end.
Definition item_locks (i : item) : list PendingLock :=
  match i with
  | I_write e => [Untrack (soliton_id e) (start_ts e) (if commit_ts e =? 0 then None else Some (commit_ts e))]
  | I_lock e => [Track (soliton_id e) (start_ts e)]
  | I_default _ _ => []
  end.
Definition item_size (i : item) (row : EventRow) : Z :=
  match i with I_default _ _ => zlen (causet_locale row) | _ => 0 end.

Definition put_item (brane key v : bytes) : outcome (option item) :=
  if bool_decide (brane = BRANE_WRITE) then
    '(skip, e) ← decode_write key v default_row; Ret (if skip : bool then None else Some (I_write e))
  else if bool_decide (brane = BRANE_LOCK) then
    '(skip, e) ← decode_lock key v default_row; Ret (if skip : bool then None else Some (I_lock e))
  else if bool_decide (brane = [] ∨ brane = BRANE_DEFAULT) then
    t ← unwrap_option (truncate_ts key); raw ← unwrap_option (into_primitive_causet t); Ret (Some (I_default raw v))
  else Panic.
Definition req_item (req : Req) : outcome (option item) :=
  match req with Req_Put brane key v => put_item brane key v | _ => Ret None end.
Fixpoint req_items (l : list Req) : outcome (list item) :=
  match l with
  | [] => Ret []
  | r :: l => o ← req_item r; its ← req_items l; Ret (match o with Some i => i :: its | None => its end)
  end.

Definition key_step (row : option EventRow) (i : item) : outcome EventRow :=
  match i with
  | I_write e => match row with Some _ => Panic | None => Ret e end
  | I_lock e =>
      match causet_locale (default default_row row) with
      | [] => Ret e
      | v => match causet_locale e with [] => Ret (set_causet_locale e v) | _ => Panic end
      end
  | I_default _ v => Ret (decode_default v (default default_row row))
  end.
Definition key_rows (row : option EventRow) (l : list item) : outcome (option EventRow) :=
  foldO (λ o i, Some <$> key_step o i) row l.

(** Showing locks to a sentinel: at once, or for later. *)
Definition lock_bytes (l : PendingLock) : Z := match l with Track k _ | Untrack k _ _ => zlen k end.
Definition total_bytes (l : list PendingLock) : Z := foldr (λ x n, lock_bytes x + n) 0 l.
Definition show s (l : list PendingLock) : Sentinel :=
  match resolver s with
  | Some r => with_resolver s (Some (foldl apply_lock r l))
  | None =>
      match pending s with
      | Some p => with_pending s (Some (mkPending (p_downstreams p) (p_locks p ++ l) (pending_bytes p + total_bytes l)))
      | None => s
      end
  end.
Definition shown_bytes s (l : list PendingLock) : Z := match resolver s with Some _ => 0 | None => total_bytes l end.
Definition standing s : Prop := is_Some (resolver s) ∨ is_Some (pending s).

Lemma gauge_add_0 w : gauge_add w 0 = w.
Proof. destruct w. unfold gauge_add. cbn. by rewrite Z.add_0_r. Qed.

Lemma gauge_add_add w a b : gauge_add (gauge_add w a) b = gauge_add w (a + b).
Proof. unfold gauge_add. cbn. by rewrite Z.add_assoc. Qed.

Lemma total_bytes_app l l' : total_bytes (l ++ l') = total_bytes l + total_bytes l'.
Proof. unfold total_bytes. induction l as [|x l IH]; cbn; [done|]. rewrite IH. lia. Qed.

Lemma show_nil s : show s [] = s.
Proof.
  unfold show. destruct s as [? ? ? ? [r|] [ [? ? ?]|] ? ?]; cbn; try done.
  unfold with_pending. cbn. by rewrite app_nil_r, Z.add_0_r.
Qed.

Lemma show_app s l l' : show (show s l) l' = show s (l ++ l').
Proof.
  unfold show. destruct s as [? ? ? ? [r|] [ [? ? ?]|] ? ?]; cbn; try done.
  - unfold with_resolver. cbn. by rewrite foldl_app.
  - unfold with_resolver. cbn. by rewrite foldl_app.
  - unfold with_pending. cbn. by rewrite <- app_assoc, total_bytes_app, Z.add_assoc.
Qed.

Lemma shown_bytes_app s l l' : shown_bytes (show s l) l' = shown_bytes s l'.
Proof. unfold shown_bytes, show. by destruct s as [? ? ? ? [r|] [ [? ? ?]|] ? ?]. Qed.

Lemma shown_bytes_add s l l' : shown_bytes s l + shown_bytes s l' = shown_bytes s (l ++ l').
Proof. unfold shown_bytes. destruct (resolver s); [done|]. by rewrite total_bytes_app. Qed.

Lemma standing_show s l : standing s → standing (show s l).
Proof. unfold standing, show. destruct s as [? ? ? ? [r|] [ [? ? ?]|] ? ?]; cbn; eauto. Qed.

Lemma show_keeps s l : region (show s l) = region s ∧ region_id (show s l) = region_id s ∧ s_id (show s l) = s_id s
  ∧ s_downstreams (show s l) = s_downstreams s ∧ downstreams (show s l) = downstreams s
  ∧ enabled (show s l) = enabled s ∧ failed (show s l) = failed s
  ∧ (is_Some (resolver (show s l)) ↔ is_Some (resolver s)) ∧ (is_Some (pending (show s l)) ↔ is_Some (pending s)).
Proof. unfold show, downstreams. destruct s as [? ? ? ? [r|] [ [? ? ?]|] ? ?]; cbn; split_and!; eauto; split; intros [? ?]; eauto; done. Qed.

Lemma track_eq s key l w : standing s → lock_bytes l = zlen key →
  track s key l w = Ret (show s [l], gauge_add w (shown_bytes s [l])).
Proof.
  intros Hs Hl. unfold track, show, shown_bytes. destruct (resolver s) as [r|] eqn:Er; cbn; [by rewrite gauge_add_0|].
  destruct Hs as [ [? Hr]|[p Hp] ]; [congruence|]. rewrite Hp. bindr. cbn [total_bytes foldr]. by rewrite Hl, Z.add_0_r.
Qed.

(** The state of a command after an item. *)
Definition after_item (k : Sinking) (i : item) (row : EventRow) : Sinking :=
  mkSinking (show (k_sentinel k) (item_locks i)) (gauge_add (k_world k) (shown_bytes (k_sentinel k) (item_locks i)))
    (<[item_key i := row]> (k_rows k)) (k_total k + item_size i row).

Lemma sink_request_eq k req : standing (k_sentinel k) →
  sink_request k req = (o ← req_item req; match o with
    | None => Ret k
    | Some i => row ← key_step (k_rows k !! item_key i) i; Ret (after_item k i row) end).
Proof.
  intros Hs. destruct req as [brane key v| |]; try done. cbn [sink_request req_item]. unfold put_item.
  case_bool_decide; [|case_bool_decide; [|case_bool_decide] ].
  - unfold sink_write. destruct (decode_write key v default_row) as [ [ [] e]|]; bindr; try done.
    rewrite (track_eq (k_sentinel k)) by done. bindr. cbn [item_key key_step].
    destruct (k_rows k !! soliton_id e); bindr; [done|]. unfold after_item. cbn. by rewrite Z.add_0_r.
  - unfold sink_lock. destruct (decode_lock key v default_row) as [ [ [] e]|]; bindr; try done. cbn [item_key key_step].
    set (occ := causet_locale _). destruct occ as [|a b]; bindr.
    + rewrite (track_eq (k_sentinel k)) by done. bindr. unfold after_item. cbn. by rewrite Z.add_0_r.
    + destruct (causet_locale e); bindr; [|done]. rewrite (track_eq (k_sentinel k)) by done. bindr. unfold after_item. cbn. by rewrite Z.add_0_r.
  - unfold sink_default. destruct (truncate_ts key) as [t|]; cbn [unwrap_option]; bindr; [|done].
    destruct (into_primitive_causet t) as [raw|]; cbn [unwrap_option]; bindr; [|done]. cbn [item_key key_step]. bindr.
    unfold after_item. cbn [item_locks item_size]. rewrite show_nil. unfold shown_bytes.
    by destruct (resolver (k_sentinel k)); cbn [total_bytes foldr]; rewrite gauge_add_0.
  - done.
Qed.

(** All items of one command, key by key: which rows come out, and when there are any. *)
Definition on_key (key : bytes) (l : list item) : list item := filter (λ i, item_key i = key) l.

Lemma key_rows_cons o i l : key_rows o (i :: l) = (row ← key_step o i; key_rows (Some row) l).
Proof. unfold key_rows. cbn. by destruct (key_step o i). Qed.

Lemma sink_requests_exact reqs : ∀ k, standing (k_sentinel k) →
  match foldO sink_request k reqs with
  | Ret k' => ∃ items, req_items reqs = Ret items
      ∧ k_sentinel k' = show (k_sentinel k) (items ≫= item_locks)
      ∧ k_world k' = gauge_add (k_world k) (shown_bytes (k_sentinel k) (items ≫= item_locks))
      ∧ (∀ key, key_rows (k_rows k !! key) (on_key key items) = Ret (k_rows k' !! key))
      ∧ (Forall (λ i, ∀ key, i ≠ I_default key []) items →
           k_total k' = k_total k + foldr (λ i n, match i with I_default _ v => zlen v | _ => 0 end + n) 0 items)
  | Panic => req_items reqs = Panic ∨ ∃ items key, req_items reqs = Ret items ∧ key_rows (k_rows k !! key) (on_key key items) = Panic
  end.
Proof.
  induction reqs as [|req reqs IH]; intros k Hs; cbn [foldO req_items].
  - exists []. cbn. rewrite show_nil, Z.add_0_r. unfold shown_bytes. cbn.
    destruct (resolver _); rewrite gauge_add_0; auto.
  - rewrite sink_request_eq by done. destruct (req_item req) as [ [i|]|] eqn:Ei; bindr; [|cbn; auto|by left].
    + destruct (key_step (k_rows k !! item_key i) i) as [row|] eqn:Er; bindr; cycle 1.
      { destruct (req_items reqs) as [its|]; bindr; [|by left]. right. exists (i :: its), (item_key i).
        split; [done|]. unfold on_key. rewrite filter_cons, decide_True by done. by rewrite key_rows_cons, Er. }
      specialize (IH (after_item k i row) (standing_show _ _ Hs)). destruct (foldO _ _ _) as [k'|].
      * destruct IH as (its & -> & H1 & H2 & H3 & H4). bindr. exists (i :: its). split; [done|]. cbn [mbind list_bind].
        split; [rewrite H1; cbn; by rewrite show_app|]. split.
        { rewrite H2. cbn. by rewrite shown_bytes_app, gauge_add_add, shown_bytes_add. }
        split.
        -- intros key. specialize (H3 key). cbn in H3. unfold on_key in *. rewrite filter_cons. case_decide as Hk.
           ++ subst key. rewrite lookup_insert in H3. rewrite decide_True in H3 by done. by rewrite key_rows_cons, Er.
           ++ by rewrite lookup_insert_ne in H3.
        -- intros [Hi Hf]%Forall_cons. rewrite (H4 Hf). cbn [after_item k_total foldr]. destruct i as [e|e|key v]; cbn; try lia.
           cbn in Er. injection Er as <-. destruct v; [by destruct (Hi key)|]. cbn. lia.
      * destruct IH as [->|(its & key & -> & Hk)]; [by left|]. right. bindr. exists (i :: its), key. split; [done|].
        cbn in Hk. unfold on_key in *. rewrite filter_cons. case_decide as E.
        -- subst key. rewrite lookup_insert, decide_True in Hk by done. by rewrite key_rows_cons, Er.
        -- by rewrite lookup_insert_ne in Hk.
    + specialize (IH k Hs). destruct (foldO _ _ _) as [k'|].
      * destruct IH as (its & -> & ?). bindr. eauto.
      * destruct IH as [->|(its & key & -> & Hk)]; [by left|]. right. bindr. eauto.
Qed.

(** C17. The commands of one entry.  They make one event, for the downstreams a broadcast to normal
    ones reaches: it holds one row for each key the puts speak of, and that row depends only on
    the puts of its key, in their order; its size is the length of the values in the default
    family, when none of those is empty.  Every lock and write is shown to the resolver, at once or later, in order.
    Otherwise it panics: when a put cannot be read, the puts of a key do not fit together, there
    is no downstream, or one of those it is meant for has no channel.  The value of a prewrite may
    come before its lock or after it; the value of a write may come after it, and panics before. *)
Theorem sink_data_exact s index reqs w : standing s →
  match sink_data s index reqs w with
  | Ret (s', w') => ∃ items rows size, req_items reqs = Ret items
      ∧ s' = show s (items ≫= item_locks)
      ∧ (∀ key, key_rows None (on_key key items) = Ret (rows !! key))
      ∧ (Forall (λ i, ∀ key, i ≠ I_default key []) items →
           size = foldr (λ i n, match i with I_default _ v => zlen v | _ => 0 end + n) 0 items)
      ∧ w' = deliver (gauge_add w (shown_bytes s (items ≫= item_locks)))
               (heard w true (downstreams s) ≫= delivery (mkEvent (region_id s) index 0 (Some (EV_Entries (iter_rows rows).*2))) size)
  | Panic => req_items reqs = Panic ∨ (∃ items key, req_items reqs = Ret items ∧ key_rows None (on_key key items) = Panic)
      ∨ downstreams s = [] ∨ ∃ d, d ∈ heard w true (downstreams s) ∧ sink d = None
  end
  ∧ (∀ e key v, causet_locale e = [] → v ≠ [] → let whole := set_causet_locale e v in
       key_rows None [I_default key v; I_lock e] = Ret (Some whole) ∧ key_rows None [I_lock e; I_default key v] = Ret (Some whole)
       ∧ key_rows None [I_write e; I_default key v] = Ret (Some whole) ∧ key_rows None [I_default key v; I_write e] = Panic).
Proof.
  intros Hs. split; cycle 1.
  { intros e key v He Hv. destruct v as [|a v]; [done|]. cbv zeta. unfold key_rows. cbn. rewrite He. done. }
  unfold sink_data. pose proof (sink_requests_exact reqs (mkSinking s w ∅ 0) Hs) as H.
  destruct (foldO _ _ _) as [k|]; bindr; cycle 1.
  { destruct H as [?|(items & key & H1 & H2)]; [by left|]. cbn in H2. rewrite lookup_empty in H2. right. left. eauto. }
  destruct H as (items & H1 & H2 & H3 & H4 & H5). cbn [k_sentinel k_world k_rows k_total] in *.
  destruct (broadcast _ _ _ _ _) as [w'|] eqn:E; bindr.
  - apply broadcast_Ret in E as (_ & _ & ->). exists items, (k_rows k), (k_total k). split; [done|]. split; [done|].
    split; [intros key; specialize (H4 key); by rewrite lookup_empty in H4|]. split; [done|].
    rewrite H3, H2. by destruct (show_keeps s (items ≫= item_locks)) as (_ & _ & _ & _ & -> & _).
  - right. right. destruct (decide (downstreams s = [])) as [|Hd]; [by left|right].
    destruct (decide (Forall (λ d, is_Some (sink d)) (heard w true (downstreams s)))) as [Hf|Hf].
    + exfalso. assert (∃ w', broadcast (k_sentinel k) (mkEvent (region_id s) index 0 (Some (EV_Entries (iter_rows (k_rows k)).*2)))
        (k_total k) true (k_world k) = Ret w') as [w' Hw]; [|congruence].
      eexists. apply broadcast_Ret. rewrite H2, H3. destruct (show_keeps s (items ≫= item_locks)) as (_ & _ & _ & _ & -> & _).
      split; [done|]. split; [exact Hf|done].
    + apply not_Forall_Exists in Hf; [|intros d; apply _]. apply Exists_exists in Hf as (d & Hin & Hn).
      exists d. split; [done|]. by apply eq_None_not_Some.
Qed.

(** ** Commands, one by one *)

(** What a command is answered with instead of being processed, if anything. *)
Definition refusal (c : Cmd) : option CaptureError :=
  match c_error c, c_admin c with
  | Some h, _ => Some (Request h)
  | None, Some (Admin_Split, resp) => Some (Request (epoch_not_match [split_left resp; split_right resp]))
  | None, Some (Admin_BatchSplit, resp) => Some (Request (epoch_not_match (splits_regions resp)))
  | None, Some (Admin_PrepareMerge, _) | None, Some (Admin_CommitMerge, _) | None, Some (Admin_RollbackMerge, _) =>
      Some (Request (epoch_not_match []))
  | None, Some (Admin_Other, _) => None
  | None, None => None
  end.
(** The locks that the commands before the first refused one show. *)
Fixpoint cmds_locks (l : list Cmd) : outcome (list PendingLock) :=
  match l with
  | [] => Ret []
  | c :: l =>
      match refusal c, c_admin c with
      | Some _, _ => Ret []
      | None, Some _ => cmds_locks l
      | None, None => items ← req_items (c_requests c); ls ← cmds_locks l; Ret ((items ≫= item_locks) ++ ls)
      end
  end.
Fixpoint first_refusal (l : list Cmd) : option CaptureError :=
  match l with [] => None | c :: l => match refusal c with Some e => Some e | None => first_refusal l end end.

Lemma sink_data_Ret s index reqs w s' w' : standing s → sink_data s index reqs w = Ret (s', w') →
  ∃ items evs, req_items reqs = Ret items ∧ s' = show s (items ≫= item_locks)
    ∧ w' = deliver (gauge_add w (shown_bytes s (items ≫= item_locks))) evs.
Proof.
  intros Hs H. unfold sink_data in H. pose proof (sink_requests_exact reqs (mkSinking s w ∅ 0) Hs) as Hk.
  apply bind_Ret in H as (k & Ek & H). rewrite Ek in Hk. destruct Hk as (items & H1 & H2 & H3 & _).
  apply bind_Ret in H as (w1 & E & [= <- <-]). apply broadcast_Ret in E as (_ & _ & ->). cbn in H2, H3. rewrite H3. eauto.
Qed.

Lemma run_cmds_Ret l : ∀ s w s' w' v, standing s → run_cmds s l w = Ret (s', w', v) →
  ∃ ls evs, cmds_locks l = Ret ls ∧ w' = deliver (gauge_add w (shown_bytes s ls)) evs
    ∧ match first_refusal l with
      | Some e => v = inl e ∧ s' = mark_failed (show s ls)
      | None => v = inr tt ∧ s' = show s ls
      end.
Proof.
  assert (∀ s w, ∃ ls evs, Ret [] = Ret ls ∧ w = deliver (gauge_add w (shown_bytes s ls)) evs ∧ show s ls = s) as Hstay.
  { intros s w. exists [], []. split; [done|]. rewrite show_nil, deliver_nil. split; [|done].
    unfold shown_bytes. cbn. by destruct (resolver s); rewrite gauge_add_0. }
  induction l as [|c l IH]; intros s w s' w' v Hs; cbn [run_cmds cmds_locks first_refusal].
  { intros [= <- <- <-]. destruct (Hstay s w) as (ls & evs & E & H & Hn). exists ls, evs. by rewrite Hn. }
  unfold refusal. destruct (c_error c) as [h|].
  { intros [= <- <- <-]. destruct (Hstay s w) as (ls & evs & E & H & Hn). exists ls, evs. by rewrite Hn. }
  destruct (c_admin c) as [ [ty resp]|].
  - destruct ty; cbn [sink_admin]; try apply (IH _ _ _ _ _ Hs);
      intros [= <- <- <-]; destruct (Hstay s w) as (ls & evs & E & H & Hn); exists ls, evs; by rewrite Hn.
  - intros H. apply bind_Ret in H as ([s1 w1] & E & H). apply (sink_data_Ret _ _ _ _ _ _ Hs) in E as (items & evs & -> & -> & ->).
    apply IH in H as (ls & evs' & -> & -> & H); [|by apply standing_show]. bindr. eexists _, (evs ++ evs'). split; [done|].
    rewrite shown_bytes_app. split.
    + rewrite <- shown_bytes_add, <- deliver_app. unfold deliver, gauge_add, with_sent. cbn. f_equal. lia.
    + rewrite show_app in H. destruct (first_refusal l); intuition.
Qed.

(** The commands of a region.  An entry observed under another id is ignored.  Otherwise the
    commands run in order up to the first that carries an error, splits or merges the region:
    that one's error is returned (with the regions a split leaves), the sentinel is marked as
    failed, and the commands after it are not looked at; every other administrative command is
    passed over.  The locks of the commands that ran have been shown to the resolver, and
    nothing else of the sentinel has changed. *)
Theorem commands_exact s b w s' w' v : standing s → on_alexandrov_poset_process s b w = Ret (s', w', v) →
  (observe_id b ≠ s_id s ∧ s' = s ∧ w' = w ∧ v = inr tt)
  ∨ observe_id b = s_id s ∧ ∃ ls evs, cmds_locks (cmds b) = Ret ls ∧ w' = deliver (gauge_add w (shown_bytes s ls)) evs
    ∧ match first_refusal (cmds b) with
      | Some e => v = inl e ∧ s' = mark_failed (show s ls)
      | None => v = inr tt ∧ s' = show s ls
      end.
Proof.
  intros Hs. unfold on_alexandrov_poset_process. destruct (Z.eqb_spec (observe_id b) (s_id s)) as [E|E].
  - intros H. right. split; [done|]. by apply run_cmds_Ret.
  - intros [= <- <- <-]. by left.
Qed.

(** ** The life of a sentinel *)

(** What the resolver is asked to do, in order. *)
Inductive rop := R_lock (l : PendingLock) | R_resolve (min_ts : Z).
Definition rapply (r : Resolver) (x : rop) : Resolver :=
  match x with R_lock l => apply_lock r l | R_resolve m => (resolve m r).1 end.

Lemma rapply_locks ls : ∀ r, foldl rapply r (R_lock <$> ls) = foldl apply_lock r ls.
Proof. induction ls as [|l ls IH]; intros r; cbn; [done|]. by rewrite IH. Qed.

(** The bytes of the gauge that this sentinel accounts for. *)
Definition held s : Z := match pending s with Some p => pending_bytes p | None => 0 end.

(** Runs of a sentinel: its operations in any order, with anything happening to the world in
    between.  [log] is what its resolver should have been asked, [o] the resolver it was given
    and [g] the part of the gauge that is not its own. *)
Inductive runs (oid rid : Z) : Sentinel → World → list rop → option Resolver → Z → Prop :=
| run_new w : runs oid rid (Sentinel_new oid rid) w [] None (gauge w)
| run_world s w w' log o g : runs oid rid s w log o g → runs oid rid s w' log o (g + (gauge w' - gauge w))
| run_subscribe s w log o g d s' w' b : runs oid rid s w log o g → subscribe s d w = Ret (s', w', b) → runs oid rid s' w' log o g
| run_unsubscribe s w log o g id err s' w' b :
    runs oid rid s w log o g → unsubscribe s id err w = Ret (s', w', b) → runs oid rid s' w' log o g
| run_stop s w log o g err s' w' : runs oid rid s w log o g → stop s err w = Ret (s', w') → runs oid rid s' w' log o g
| run_ready s w log o g r reg s' w' ds :
    runs oid rid s w log o g → on_region_ready s r reg w = Ret (s', w', ds) → runs oid rid s' w' log (Some r) g
| run_min_ts s w log o g m s' w' t : runs oid rid s w log o g → on_min_ts s m w = Ret (s', w', t) →
    runs oid rid s' w' (match o with Some _ => log ++ [R_resolve m] | None => log end) o g
| run_commands s w log o g b s' w' v ls : runs oid rid s w log o g → on_alexandrov_poset_process s b w = Ret (s', w', v) →
    (if observe_id b =? oid then cmds_locks (cmds b) else Ret []) = Ret ls →
    runs oid rid s' w' (log ++ (R_lock <$> ls)) o g
| run_scan s w log o g id l w' : runs oid rid s w log o g → on_mutant_search s id l w = Ret w' → runs oid rid s w' log o g.

(** The phase a sentinel is in. *)
Definition phase s (log : list rop) (o : option Resolver) : Prop :=
  match o with
  | None => resolver s = None ∧ region s = None ∧ s_downstreams s = []
      ∧ ∃ p, pending s = Some p ∧ R_lock <$> p_locks p = log ∧ pending_bytes p = total_bytes (p_locks p)
  | Some r => resolver s = Some (foldl rapply r log) ∧ pending s = None ∧ is_Some (region s)
  end.

Lemma phase_standing s log o : phase s log o → standing s.
Proof. unfold phase, standing. destruct o; [intros (-> & _)|intros (_ & _ & _ & p & -> & _)]; eauto. Qed.

Lemma phase_show s log o ls : phase s log o → phase (show s ls) (log ++ (R_lock <$> ls)) o ∧ held (show s ls) = held s + shown_bytes s ls.
Proof.
  unfold phase, show, held, shown_bytes. destruct o as [r|].
  - intros (-> & Hp & Hr). cbn. rewrite Hp, foldl_app, rapply_locks. split; [done|lia].
  - intros (Hn & Hr & Hd & p & Hp & <- & Hb). rewrite Hn, Hp. cbn. split; [|done]. split_and!; try done. eexists. split; [done|]. cbn.
    rewrite fmap_app, total_bytes_app, Hb. done.
Qed.

Lemma gauge_deliver w l : gauge (deliver w l) = gauge w.
Proof. done. Qed.

Lemma foldO_gauge {A} (f : World → A → outcome World) (l : list A) :
  (∀ w x w', f w x = Ret w' → gauge w' = gauge w) → ∀ w w', foldO f w l = Ret w' → gauge w' = gauge w.
Proof.
  intros Hf. induction l as [|x l IH]; intros w w'; cbn; [by intros [= <-]|]. intros H.
  apply bind_Ret in H as (w1 & H1 & H2). rewrite (IH _ _ H2). by eapply Hf.
Qed.

Lemma sink_gauge d e size w w' : sink_event d e size w = Ret w' → gauge w' = gauge w.
Proof. rewrite sink_event_Ret. by intros [_ ->]. Qed.

Lemma broadcast_gauge s e size n w w' : broadcast s e size n w = Ret w' → gauge w' = gauge w.
Proof. rewrite broadcast_Ret. by intros (_ & _ & ->). Qed.

Lemma unsubscribe_gauge s id err w s' w' b : unsubscribe s id err w = Ret (s', w', b) → gauge w' = gauge w.
Proof.
  intros H. apply bind_Ret in H as (w1 & H & [= _ <- _]). revert H. apply foldO_gauge. intros w0 d w2.
  destruct (d_id d =? id); [|by intros [= <-]]. intros H. apply bind_Ret in H as (w3 & H & [= <-]). cbn.
  destruct (_ <$> err); [by eapply sink_gauge|by injection H as <-].
Qed.

Lemma stop_gauge s err w s' w' : stop s err w = Ret (s', w') → gauge w' = gauge w.
Proof.
  intros H. apply bind_Ret in H as (w1 & H & [= _ <-]). apply broadcast_gauge in H. rewrite H. generalize (s_downstreams (disable (mark_failed s))).
  intros l. clear H. revert w. induction l as [|d l IH]; intros w; cbn; [done|]. by rewrite IH.
Qed.

Lemma scan_gauge s id l w w' : on_mutant_search s id l w = Ret w' → gauge w' = gauge w.
Proof.
  unfold on_mutant_search. destruct (find _ _); [|by intros [= <-]]. intros H. apply bind_Ret in H as (g & _ & H). revert H.
  apply foldO_gauge. intros w0 [size rs] w2. destruct rs; [by intros [= <-]|]. apply sink_gauge.
Qed.

(** What an operation leaves: the identity of the sentinel and the part of the gauge that is not
    its own. *)
Definition kept s w s' w' : Prop := s_id s' = s_id s ∧ region_id s' = region_id s ∧ gauge w' - held s' = gauge w - held s.

Lemma kept_same s w w' : gauge w' = gauge w → kept s w s w'.
Proof. intros H. unfold kept. rewrite H. done. Qed.

Lemma subscribe_phase s w d s' w' b log o : phase s log o → subscribe s d w = Ret (s', w', b) → kept s w s' w' ∧ phase s' log o.
Proof.
  intros Hph E. pose proof Hph as H. unfold subscribe in E. unfold phase in H. destruct (region s) as [reg|] eqn:Er.
  - destruct o as [r|]; [|naive_solver]. destruct H as (P1 & P2 & P3). destruct (compare_region_epoch _ _).
    + apply bind_Ret in E as (w1 & E & [= <- <- <-]). apply sink_gauge in E. split; [by apply kept_same|done].
    + injection E as <- <- <-. split; [done|]. cbn. by rewrite Er.
  - destruct o as [r|]; [by destruct H as (_ & _ & [? ?])|]. destruct H as (P1 & P2 & P3 & p & Hp & P5 & P6).
    rewrite Hp in E. cbn in E. injection E as <- <- <-. unfold kept, held. rewrite Hp. cbn. split; [done|]. split_and!; try done. eauto 10.
Qed.

Lemma downstreams_mut_phase s l log o : phase s log o → phase (downstreams_mut s l) log o ∧ held (downstreams_mut s l) = held s
  ∧ s_id (downstreams_mut s l) = s_id s ∧ region_id (downstreams_mut s l) = region_id s.
Proof.
  unfold downstreams_mut, phase, held. destruct o as [r|].
  - intros (P1 & P2 & P3). rewrite P2. cbn. by rewrite P2.
  - intros (P1 & P2 & P3 & p & Hp & P5 & P6). rewrite Hp. cbn. split_and!; try done. eauto 10.
Qed.

Lemma unsubscribe_phase s w id err s' w' b log o : phase s log o → unsubscribe s id err w = Ret (s', w', b) →
  kept s w s' w' ∧ phase s' log o.
Proof.
  intros Hph E. pose proof (unsubscribe_gauge _ _ _ _ _ _ _ E) as Hg. apply bind_Ret in E as (w1 & E & [= <- <- <-]).
  set (rest := filter _ _). destruct (downstreams_mut_phase s rest log o Hph) as (P1 & P2 & P3 & P4). unfold kept.
  case_bool_decide; [change (held (disable ?x)) with (held x); change (phase (disable ?x)) with (phase x)|]; by rewrite Hg, P2.
Qed.

Lemma ready_phase s w r reg s' w' ds log o : phase s log o → on_region_ready s r reg w = Ret (s', w', ds) →
  kept s w s' w' ∧ phase s' log (Some r).
Proof.
  intros H E. unfold on_region_ready in E. unfold phase in H. destruct (resolver s) eqn:Er; [done|]. destruct o as [?|]; [naive_solver|].
  destruct H as (_ & P2 & P3 & p & Hp & <- & Hb). rewrite Hp in E. cbn in E. injection E as <- <- <-. unfold kept, held. rewrite Hp. cbn.
  rewrite rapply_locks. split_and!; try done. lia.
Qed.

Lemma min_ts_phase s w m s' w' t log o : phase s log o → on_min_ts s m w = Ret (s', w', t) →
  kept s w s' w' ∧ phase s' (match o with Some _ => log ++ [R_resolve m] | None => log end) o.
Proof.
  intros Hph E. pose proof Hph as H. unfold on_min_ts in E. unfold phase in H. destruct (resolver s) as [r1|] eqn:Er.
  - destruct o as [r|]; [|naive_solver]. destruct H as ([= ->] & P2 & P3).
    assert (phase (with_resolver s (Some (resolve m (foldl rapply r log)).1)) (log ++ [R_resolve m]) (Some r)) as Hp.
    { cbn. by rewrite foldl_app. }
    destruct (resolve m _) as [r2 [ts|] ]; cbn in Hp.
    + apply bind_Ret in E as (w1 & E & H). apply bind_Ret in H as (? & _ & [= <- <- <-]). apply broadcast_gauge in E.
      split; [|done]. by unfold kept; rewrite E.
    + by injection E as <- <- <-.
  - injection E as <- <- <-. destruct o; [naive_solver|]. by split.
Qed.

Lemma commands_phase s w b s' w' v ls log o : phase s log o → on_alexandrov_poset_process s b w = Ret (s', w', v) →
  (if observe_id b =? s_id s then cmds_locks (cmds b) else Ret []) = Ret ls → kept s w s' w' ∧ phase s' (log ++ (R_lock <$> ls)) o.
Proof.
  intros Hph E Els. unfold on_alexandrov_poset_process in E. destruct (observe_id b =? s_id s).
  - apply run_cmds_Ret in E as (ls' & evs & Hls & -> & Hr); [|by eapply phase_standing].
    rewrite Hls in Els. injection Els as ->. destruct (phase_show s log o ls Hph) as [P1 P2]. destruct (show_keeps s ls) as (_ & K2 & K3 & _).
    assert (kept s w (show s ls) (deliver (gauge_add w (shown_bytes s ls)) evs)) as Hk.
    { split_and!; [done..|]. rewrite P2, gauge_deliver. cbn. lia. }
    destruct (first_refusal (cmds b)); destruct Hr as [_ ->]; by split.
  - injection Els as <-. injection E as <- <- <-. cbn. rewrite app_nil_r. by split.
Qed.

Lemma runs_phase oid rid s w log o g : runs oid rid s w log o g →
  s_id s = oid ∧ region_id s = rid ∧ gauge w = g + held s ∧ phase s log o.
Proof.
  assert (∀ s w s' w' log' o' g, s_id s = oid ∧ region_id s = rid ∧ gauge w = g + held s →
    kept s w s' w' ∧ phase s' log' o' → s_id s' = oid ∧ region_id s' = rid ∧ gauge w' = g + held s' ∧ phase s' log' o') as Hk.
  { intros s0 w0 s' w' log' o' g0 (I1 & I2 & I3) [(K1 & K2 & K3) Hp]. split_and!; [congruence|congruence|lia|exact Hp]. }
  induction 1 as [w|s w w' log o g _ (I1 & I2 & I3 & I4)|s w log o g d s' w' b _ (I1 & I2 & I3 & I4) E
    |s w log o g id err s' w' b _ (I1 & I2 & I3 & I4) E|s w log o g err s' w' _ (I1 & I2 & I3 & I4) E
    |s w log o g r reg s' w' ds _ (I1 & I2 & I3 & I4) E|s w log o g m s' w' t _ (I1 & I2 & I3 & I4) E
    |s w log o g b s' w' v ls _ (I1 & I2 & I3 & I4) E Els|s w log o g id l w' _ (I1 & I2 & I3 & I4) E].
  - cbn. split_and!; try done; [lia|]. eauto 10.
  - split_and!; [done..|lia|done].
  - eapply (Hk s w); [auto|]. by eapply subscribe_phase.
  - eapply (Hk s w); [auto|]. by eapply unsubscribe_phase.
  - eapply (Hk s w); [auto|]. pose proof (stop_gauge _ _ _ _ _ E) as Hg. apply bind_Ret in E as (w1 & E & [= <- <-]).
    split; [by unfold kept; rewrite Hg|exact I4].
  - eapply (Hk s w); [auto|]. by eapply ready_phase.
  - eapply (Hk s w); [auto|]. by eapply min_ts_phase.
  - eapply (Hk s w); [auto|]. eapply commands_phase; [done..|by rewrite I1].
  - eapply (Hk s w); [auto|]. split; [apply kept_same; by eapply scan_gauge|done].
Qed.

(** C5. A sentinel is its log.  Whatever is done to it, in whatever order, and whatever else happens:
    before it is ready it has no region and no resolver, the downstreams and the locks of its
    commands wait, and the gauge holds the length of the waiting keys; once it is ready, the
    resolver is the one it was given after all the locks of all the commands, those before it was
    ready and those after, in order, and the rounds of resolution.  So when it becomes ready does
    not matter.  Making it ready succeeds exactly when it is not; showing it commands never fails
    for want of a resolver. *)
Theorem sentinel_refines oid rid s w log o g : runs oid rid s w log o g →
  s_id s = oid ∧ region_id s = rid ∧ gauge w = g + held s ∧ phase s log o ∧ standing s
  ∧ ∀ r reg, match on_region_ready s r reg w with Ret (s', w', ds) => o = None ∧ ds = downstreams s ∧ gauge w' = g ∧ phase s' log (Some r)
             | Panic => o ≠ None end.
Proof.
  intros H. destruct (runs_phase _ _ _ _ _ _ _ H) as (H1 & H2 & H3 & H4). split_and!; [done..|by eapply phase_standing|]. intros r reg.
  destruct (on_region_ready s r reg w) as [ [ [s' w'] ds]|] eqn:E.
  - destruct (ready_phase _ _ _ _ _ _ _ _ _ H4 E) as [(K1 & K2 & K3) Hp]. unfold on_region_ready in E. unfold phase in H4.
    destruct o as [r0|]; [by destruct H4 as (H4 & _); rewrite H4 in E|]. destruct H4 as (Hr & _ & _ & p & Hpe & _).
    rewrite Hr, Hpe in E. injection E as <- <- <-. unfold downstreams, held in *. rewrite Hpe in *. split; [done|]. split; [done|].
    split; [cbn in *; lia|exact Hp].
  - intros ->. destruct H4 as (Hr & _ & _ & p & Hpe & _). unfold on_region_ready in E. by rewrite Hr, Hpe in E.
Qed.

(** ** Resolved timestamps *)

(** What is promised of the resolver: it keeps the locks it is shown, each a key with the start
    of its transaction; a write or rollback takes away the lock of its own transaction and, when
    there is none, nothing; the timestamp it resolves never goes back, and a new one is at most
    the timestamp it is offered and the start of every lock it keeps. *)
Class ResolverLaws := {
  tracked : Resolver → gset (bytes * Z);
  resolved : Resolver → Z;
  tracked_track ts k r : tracked (track_lock ts k r) = tracked r ∪ {[ (k, ts) ]};
  tracked_untrack ts c k r : tracked (untrack_lock ts c k r) = tracked r ∖ {[ (k, ts) ]};
  resolved_track ts k r : resolved (track_lock ts k r) = resolved r;
  resolved_untrack ts c k r : resolved (untrack_lock ts c k r) = resolved r;
  resolve_tracked m r : tracked (resolve m r).1 = tracked r;
  resolve_resolved m r : resolved (resolve m r).1 = resolved r
    ∨ resolved r <= resolved (resolve m r).1 <= m
      ∧ ∀ k ts, (k, ts) ∈ tracked r → resolved (resolve m r).1 <= ts;
  resolve_value m r ts : (resolve m r).2 = Some ts → ts = resolved (resolve m r).1;
}.

Section Resolved.
Context {RL : ResolverLaws}.

(** The locks in flight, from the log alone: a transaction's lock on a key is in flight from
    its prewrite to its own commit or rollback, whatever other transactions do to the key. *)
Definition in_flight_step (m : gset (bytes * Z)) (x : rop) : gset (bytes * Z) :=
  match x with
  | R_lock (Track k ts) => m ∪ {[ (k, ts) ]}
  | R_lock (Untrack k ts _) => m ∖ {[ (k, ts) ]}
  | R_resolve _ => m
  end.
Definition in_flight (m : gset (bytes * Z)) (log : list rop) : gset (bytes * Z) :=
  foldl in_flight_step m log.

(** New transactions start after what was resolved before: what the oracle of timestamps
    promises. *)
Fixpoint in_time (r : Resolver) (log : list rop) : Prop :=
  match log with
  | [] => True
  | x :: log => match x with R_lock (Track _ ts) => resolved r <= ts | _ => True end ∧ in_time (rapply r x) log
  end.

Lemma rapply_tracked x r : tracked (rapply r x) = in_flight_step (tracked r) x.
Proof. destruct x as [ [k ts|k ts c]|m]; cbn; [apply tracked_track|apply tracked_untrack|apply resolve_tracked]. Qed.

Lemma log_tracked log : ∀ r, tracked (foldl rapply r log) = in_flight (tracked r) log.
Proof. induction log as [|x log IH]; intros r; cbn; [done|]. by rewrite IH, rapply_tracked. Qed.

(** No lock in flight is older than what is resolved. *)
Definition sound (r : Resolver) : Prop := ∀ k ts, (k, ts) ∈ tracked r → resolved r <= ts.

Lemma resolve_sound m r : sound r → sound (resolve m r).1 ∧ resolved r <= resolved (resolve m r).1.
Proof.
  intros Hs. unfold sound. rewrite resolve_tracked. destruct (resolve_resolved m r) as [->|[H1 H2] ]; [by split|]. split; [exact H2|lia].
Qed.

Lemma rapply_sound x r log : sound r → in_time r (x :: log) →
  sound (rapply r x) ∧ in_time (rapply r x) log ∧ resolved r <= resolved (rapply r x).
Proof.
  intros Hs [Hx Ht]. split; [|split; [done|] ].
  - destruct x as [ [k ts|k ts c]|m]; cbn in *; [| |by apply resolve_sound].
    + intros k' ts'. rewrite tracked_track, resolved_track, elem_of_union, elem_of_singleton.
      intros [?|[= -> ->] ]; [by eapply Hs|done].
    + intros k' ts'. rewrite tracked_untrack, resolved_untrack, elem_of_difference.
      intros [? _]. by eapply Hs.
  - destruct x as [ [k ts|k ts c]|m]; cbn; [by rewrite resolved_track|by rewrite resolved_untrack|by apply resolve_sound].
Qed.

Lemma log_sound log : ∀ r, sound r → in_time r log → sound (foldl rapply r log) ∧ resolved r <= resolved (foldl rapply r log).
Proof.
  induction log as [|x log IH]; intros r Hs Ht; cbn; [by split|].
  destruct (rapply_sound x r log Hs Ht) as (H1 & H2 & H3). destruct (IH _ H1 H2). split; [done|lia].
Qed.

(** C8. A resolved timestamp is a promise.  Given a resolver that is sound for the locks it holds, and
    transactions that start after what was resolved before, in any run of a sentinel: when a
    round of resolution answers with a timestamp, every lock in flight, as the commands alone
    tell (those before the region was ready included; only a transaction's own commit or rollback
    ends its lock), started no earlier, and it is no smaller than any earlier answer; it is what the downstreams are sent.  A sentinel that is not ready
    answers nothing. *)
Theorem resolved_ts_safe oid rid s w log o g m s' w' answer : runs oid rid s w log o g → on_min_ts s m w = Ret (s', w', answer) →
  match o with
  | None => answer = None ∧ s' = s ∧ w' = w
  | Some r => sound r → in_time r log →
      (∀ k ts, (k, ts) ∈ in_flight (tracked r) log → resolved (foldl rapply r (log ++ [R_resolve m])) <= ts)
      ∧ (∀ before, before `prefix_of` log → resolved (foldl rapply r before) <= resolved (foldl rapply r (log ++ [R_resolve m])))
      ∧ match answer with
        | Some ts => ts = resolved (foldl rapply r (log ++ [R_resolve m]))
            ∧ w' = deliver w (heard w true (downstreams s) ≫= delivery (mkEvent (region_id s) 0 0 (Some (EV_ResolvedTs ts))) 0)
        | None => w' = w
        end
  end.
Proof.
  intros H E. apply runs_phase in H as (_ & _ & _ & Hp). unfold on_min_ts in E. destruct o as [r|]; cycle 1.
  { destruct Hp as (Hr & _). rewrite Hr in E. by simplify_eq. }
  destruct Hp as (Hr & _ & _). rewrite Hr in E. intros Hs Ht. destruct (log_sound log r Hs Ht) as [S1 S2].
  rewrite foldl_app. cbn [foldl rapply]. set (rl := foldl rapply r log) in *. destruct (resolve_sound m rl S1) as [S3 S4]. split_and!.
  - rewrite <- log_tracked. fold rl. unfold sound in S3. by rewrite resolve_tracked in S3.
  - intros before [rest ->]. unfold rl in *. rewrite foldl_app in *. set (r1 := foldl rapply r before) in *.
    assert (resolved r1 <= resolved (foldl rapply r1 rest)); [|lia].
    assert (sound r1 ∧ in_time r1 rest) as [R1 R2]; [|by apply log_sound].
    clear -Hs Ht. unfold r1. clear r1. revert r Hs Ht. induction before as [|x before IH]; intros r Hs Ht; cbn in *; [by split|].
    destruct (rapply_sound x r (before ++ rest) Hs Ht) as (H1 & H2 & _). by apply IH.
  - pose proof (resolve_value m rl) as Hv. destruct (resolve m rl) as [r2 [ts|] ]; cbn in *; cycle 1.
    { by simplify_eq. }
    apply bind_Ret in E as (w1 & E & H). apply bind_Ret in H as (? & _ & [= <- <- <-]). apply broadcast_Ret in E as (_ & _ & ->).
    split; [by apply Hv|done].
Qed.
End Resolved.

(** ** Leaving and stopping *)

Lemma heard_normal w l d : d ∈ l → is_normal w (state d) = true → d ∈ heard w true l.
Proof.
  intros Hd Hn. unfold heard. destruct (last l) as [z|] eqn:E; [|apply last_None in E; subst; by apply elem_of_nil in Hd].
  apply last_Some in E as [l' ->]. rewrite length_app. cbn [length].
  replace (length l' + 1 - 1)%nat with (length l') by lia. rewrite take_app_length, elem_of_app, list_elem_of_filter.
  apply elem_of_app in Hd as [Hd|Hd]; auto.
Qed.

Lemma heard_inv w n l d : d ∈ heard w n l → d ∈ l ∧ (n = false ∨ is_normal w (state d) = true ∨ last l = Some d).
Proof.
  unfold heard. destruct (last l) as [z|] eqn:E; [|by intros ?%elem_of_nil].
  rewrite elem_of_app, list_elem_of_filter, list_elem_of_singleton. intros [ [Hc Hd]| ->].
  - split; [|tauto]. apply elem_of_take in Hd as (i & Hi & _). by eapply list_elem_of_lookup_2.
  - split; [|tauto]. apply last_Some in E as [l' ->]. set_solver.
Qed.

Lemma heard_all w l : heard w false l = l.
Proof.
  unfold heard. destruct (last l) as [z|] eqn:E; [|by apply last_None in E].
  apply last_Some in E as [l' ->]. rewrite length_app. cbn [length].
  replace (length l' + 1 - 1)%nat with (length l') by lia. rewrite take_app_length. f_equal.
  induction l' as [|x l' IH]; [done|]. rewrite filter_cons, decide_True by auto. by rewrite IH.
Qed.

Lemma stop_states (l : list Downstream) : ∀ w st, let w' := foldl (λ w d, set_stopped w (state d)) w l in
  ((∃ d, d ∈ l ∧ state d = st) ∧ (st < length (cells w))%nat → load w' st = STOPPED)
  ∧ ((∀ d, d ∈ l → state d ≠ st) → load w' st = load w st)
  ∧ sent w' = sent w ∧ length (cells w') = length (cells w).
Proof.
  induction l as [|d l IH]; intros w st; cbn [foldl].
  { cbn. split_and!; try done. intros [(d & Hd & _) _]. by apply elem_of_nil in Hd. }
  specialize (IH (set_stopped w (state d)) st). cbn zeta in *. set (w1 := foldl _ _ _) in *.
  destruct IH as (H1 & H2 & H3 & H4). assert (length (cells (set_stopped w (state d))) = length (cells w)) as Hl by apply length_insert.
  rewrite Hl in *. split_and!; try done.
  - intros [(x & Hx & Est) Hlt]. destruct (decide (Exists (λ y, state y = st) l)) as [Hy|Hy]; rewrite Exists_exists in Hy; [by apply H1|].
    rewrite H2 by naive_solver. apply elem_of_cons in Hx as [->|Hx]; [|naive_solver]. unfold load, set_stopped, store, with_cells. cbn.
    by rewrite Est, list_lookup_insert_eq.
  - intros Hd. rewrite H2 by set_solver. unfold load, set_stopped, store, with_cells. cbn. rewrite list_lookup_insert_ne by set_solver. done.
Qed.

Lemma unsubscribe_loop id (e : option Event) l : ∀ w w',
  foldO (λ w d, if d_id d =? id then
          w ← (match e with Some e => sink_event d e 0 w | None => Ret w end); Ret (set_stopped w (state d))
        else Ret w) w l = Ret w' →
  let gone := filter (λ d, d_id d = id) l in
  sent w' = sent w ++ (gone ≫= λ d, match e with Some e => delivery e 0 d | None => [] end)
  ∧ cells w' = cells (foldl (λ w d, set_stopped w (state d)) w gone).
Proof.
  induction l as [|d l IH]; intros w w'; cbn [foldO].
  { intros [= <-]. cbn. by rewrite app_nil_r. }
  intros H. apply bind_Ret in H as (w1 & H1 & H2). apply IH in H2 as [S1 S2]. cbn zeta. rewrite filter_cons.
  destruct (Z.eqb_spec (d_id d) id) as [Ed|Ed]; cycle 1.
  { rewrite decide_False by done. injection H1 as <-. done. }
  rewrite decide_True by done. apply bind_Ret in H1 as (w2 & H1 & [= <-]). cbn [mbind list_bind foldl].
  assert (sent w2 = sent w ++ (match e with Some e => delivery e 0 d | None => [] end) ∧ cells w2 = cells w) as [T1 T2].
  { destruct e; [|by injection H1 as <-; rewrite app_nil_r]. apply sink_event_Ret in H1 as [_ ->]. done. }
  cbn in S1, S2. rewrite S1, S2, T1, app_assoc. split; [done|].
  assert (∀ l w w', cells w = cells w' → cells (foldl (λ w d, set_stopped w (state d)) w l) = cells (foldl (λ w d, set_stopped w (state d)) w' l)) as Hc.
  { clear. induction l as [|d l IH]; intros w w' H; cbn; [done|]. apply IH. cbn. by rewrite H. }
  apply Hc. cbn. by rewrite T2.
Qed.

(** Leaving and stopping.  Leaving takes out every downstream of that id, waiting or not: each is
    sent the error, if there is one, and its state is stopped; no other is sent anything or
    changes its state; the region is no longer observed exactly when none is left, and was left
    alone if it was not observed before.  Stopping sends the error to all downstreams and ends
    observation; but only those of a region that is ready have their states stopped, those that
    wait do not.  An error tells that there is another leader, or that the region has changed,
    or else that the region was not found. *)
Theorem leave_exact s w :
  (∀ id err s' w' is_last, unsubscribe s id err w = Ret (s', w', is_last) →
    let gone := filter (λ d, d_id d = id) (downstreams s) in
    downstreams s' = filter (λ d, d_id d ≠ id) (downstreams s)
    ∧ (is_last = true ↔ downstreams s' = []) ∧ enabled s' = enabled s && negb is_last
    ∧ sent w' = sent w ++ (gone ≫= λ d, match err with Some e => delivery (error_event s e) 0 d | None => [] end)
    ∧ (∀ d, d ∈ gone → (state d < length (cells w))%nat → load w' (state d) = STOPPED)
    ∧ (∀ st, (∀ d, d ∈ gone → state d ≠ st) → load w' st = load w st))
  ∧ ∀ err s' w', stop s err w = Ret (s', w') →
    s' = disable (mark_failed s) ∧ downstreams s ≠ []
    ∧ sent w' = sent w ++ (downstreams s ≫= delivery (error_event s err) 0)
    ∧ (∀ d, d ∈ s_downstreams s → (state d < length (cells w))%nat → load w' (state d) = STOPPED)
    ∧ (∀ st, (∀ d, d ∈ s_downstreams s → state d ≠ st) → load w' st = load w st).
Proof.
  split.
  - intros id err s' w' is_last H. apply bind_Ret in H as (w1 & H & [= <- <- <-]). apply unsubscribe_loop in H as [H1 H2]. cbn zeta in *.
    set (gone := filter (λ d, d_id d = id) _) in *. assert (downstreams (downstreams_mut s (filter (λ d, d_id d ≠ id) (downstreams s)))
      = filter (λ d, d_id d ≠ id) (downstreams s)) as Hd by (unfold downstreams, downstreams_mut; destruct (pending s) eqn:Ep; cbn; by rewrite ?Ep).
    assert (∀ st, load w1 st = load (foldl (λ w d, set_stopped w (state d)) w gone) st) as Hl by (intros st; unfold load; by rewrite H2).
    split_and!.
    + case_bool_decide; exact Hd.
    + case_bool_decide as Hn; [change (downstreams (disable ?x)) with (downstreams x)|]; rewrite Hd; naive_solver.
    + assert (enabled (downstreams_mut s (filter (λ d, d_id d ≠ id) (downstreams s))) = enabled s) as He
        by (unfold downstreams_mut; by destruct (pending s)). case_bool_decide; cbn; rewrite ?andb_false_r, ?andb_true_r; done.
    + rewrite H1. f_equal. by destruct err.
    + intros d Hin Hlt. rewrite Hl. apply (stop_states gone w (state d)). eauto.
    + intros st Hst. rewrite Hl. by apply (stop_states gone w st).
  - intros err s' w' H. apply bind_Ret in H as (w1 & H & [= <- <-]). apply broadcast_Ret in H as (Hd & _ & ->).
    change (s_downstreams (disable (mark_failed s))) with (s_downstreams s). set (w1 := foldl _ _ _). rewrite heard_all.
    change (downstreams (disable (mark_failed s))) with (downstreams s) in *. split_and!; try done.
    + cbn. f_equal. by apply (stop_states (s_downstreams s) w 0).
    + intros d Hin Hlt. apply (stop_states (s_downstreams s) w (state d)). eauto.
    + intros st Hst. by apply (stop_states (s_downstreams s) w st).
Qed.

(** ** Scans *)

Definition row_size (r : EventRow) : Z := zlen (soliton_id r) + zlen (causet_locale r).
Definition batch_size (b : list EventRow) : Z := foldr (λ r n, row_size r + n) 0 b.

(** The rows of a scan, one by one. *)
Fixpoint scan_rows (l : list (option TxnEntry)) : outcome (list EventRow) :=
  match l with
  | [] => Ret []
  | x :: l => o ← scan_row x; rs ← scan_rows l; Ret (match o with Some r => r :: rs | None => rs end)
  end.

(** A batch is below the limit, but for one that starts with a row that is too large by itself,
    and then holds nothing else of any size. *)
Definition batch_ok (b : list EventRow) : Prop :=
  batch_size b < EVENT_MAX_SIZE ∨ ∃ r rest, b = r :: rest ∧ Forall (λ x, row_size x = 0) rest.

Lemma batch_size_snoc b r : batch_size (b ++ [r]) = batch_size b + row_size r.
Proof. unfold batch_size. induction b as [|x b IH]; cbn; [lia|]. rewrite IH. lia. Qed.

Definition gathered (rows : list EventRow) (g : Gathering) : Prop :=
  concat (g_done g).*2 ++ g_last g = rows ∧ g_size g = batch_size (g_last g)
  ∧ Forall (λ x, x.1 = batch_size x.2 ∧ batch_ok x.2) (g_done g) ∧ batch_ok (g_last g).

Lemma batch_ok_zero b r : batch_ok b → row_size r = 0 → batch_ok (b ++ [r]).
Proof.
  intros [H|(x & rest & -> & H)] Hr; [left; rewrite batch_size_snoc; lia|]. right. exists x, (rest ++ [r]).
  split; [done|]. by apply Forall_app_2; [|apply Forall_singleton].
Qed.

Lemma gather_step rows g x g' : gathered rows g → gather g x = Ret g' →
  ∃ o, scan_row x = Ret o ∧ gathered (rows ++ match o with Some r => [r] | None => [] end) g'.
Proof.
  intros (H1 & H2 & H3 & H4) H. apply bind_Ret in H as (o & Eo & H). exists o. split; [done|].
  destruct o as [r|]; [|injection H as <-; by rewrite app_nil_r]. destruct x as [t|].
  - cbv zeta in H. fold (row_size r) in H. revert H. destruct (Z.leb_spec EVENT_MAX_SIZE (g_size g + row_size r)) as [Hle|Hlt]; intros [= <-]; unfold gathered; cbn [g_done g_last g_size].
    + rewrite fmap_app, concat_app. cbn. rewrite app_nil_r, H1. split; [done|]. split; [lia|]. split.
      { apply Forall_app_2; [done|]. apply Forall_singleton. done. }
      right. by exists r, [].
    + rewrite app_assoc, H1. split; [done|]. split; [rewrite batch_size_snoc; lia|]. split; [done|]. left. rewrite batch_size_snoc. lia.
  - injection Eo as <-. injection H as <-. unfold gathered. cbn. rewrite app_assoc, H1, batch_size_snoc, H2. split; [done|].
    split; [unfold row_size; cbn; lia|]. split; [done|]. by apply batch_ok_zero.
Qed.

Lemma gather_all l : ∀ rows g, gathered rows g →
  match foldO gather g l with
  | Ret g' => ∃ rs, scan_rows l = Ret rs ∧ gathered (rows ++ rs) g'
  | Panic => scan_rows l = Panic
  end.
Proof.
  induction l as [|x l IH]; intros rows g Hg; cbn [foldO scan_rows].
  { exists []. by rewrite app_nil_r. }
  destruct (gather g x) as [g1|] eqn:E; bindr; cycle 1.
  { unfold gather in E. destruct (scan_row x) as [ [r|]|]; [by destruct x|done|done]. }
  destruct (gather_step _ _ _ _ Hg E) as (o & -> & Hg1). bindr. specialize (IH _ _ Hg1). destruct (foldO gather g1 l) as [g2|].
  - destruct IH as (rs & -> & Hg2). bindr. eexists. split; [done|]. rewrite <- app_assoc in Hg2. by destruct o.
  - by rewrite IH.
Qed.

(** What is sent for a batch. *)
Definition batch_event s (b : Z * list EventRow) (d : Downstream) : list (Z * (Z * Event)) :=
  delivery (mkEvent (region_id s) 0 0 (Some (EV_Entries b.2))) b.1 d.

Lemma send_batches s d l : is_Some (sink d) → ∀ w,
  foldO (λ w '(size, rs), match rs with
    | [] => Ret w
    | _ => sink_event d (mkEvent (region_id s) 0 0 (Some (EV_Entries rs))) size w
    end) w l = Ret (deliver w (filter (λ b : Z * list EventRow, b.2 ≠ []) l ≫= λ b, batch_event s b d)).
Proof.
  intros Hd. induction l as [|[n rs] l IH]; intros w; cbn [foldO]; [by rewrite deliver_nil|].
  rewrite filter_cons. destruct rs as [|r rs]; bindr.
  - rewrite decide_False by (cbn; intros H; by apply H). apply IH.
  - rewrite decide_True by done. rewrite sink_event_eq by done. bindr. rewrite IH, deliver_app. done.
Qed.

(** The scan of a region, for one of its downstreams.  Put together, the batches sent are the
    rows of the entries, in order: prewrites and commits as they are read, a mark at the end of
    the scan, and nothing for rollbacks and for locks and writes of other kinds.  No batch is
    empty, and each stays below the limit, but one that starts with a row too large by itself.
    The size announced with a batch is that of its rows, but for the last one, which is announced
    as empty.  For an unknown downstream nothing happens. *)
Theorem scan_exact s id l w :
  match find (λ d, d_id d =? id) (downstreams s) with
  | None => on_mutant_search s id l w = Ret w
  | Some d => is_Some (sink d) →
      match on_mutant_search s id l w with
      | Panic => scan_rows l = Panic
      | Ret w' => ∃ rows done_ last_, scan_rows l = Ret rows ∧ concat (done_ ++ [last_]).*2 = rows
          ∧ w' = deliver w (filter (λ b : Z * list EventRow, b.2 ≠ []) (done_ ++ [last_]) ≫= λ b, batch_event s b d)
          ∧ Forall (λ b, b.1 = batch_size b.2) done_ ∧ last_.1 = 0 ∧ Forall (λ b, batch_ok b.2) (done_ ++ [last_])
          ∧ (rows ≠ [] → last_.2 ≠ [])
      end
  end.
Proof.
  unfold on_mutant_search. destruct (find _ _) as [d|]; [|done]. intros Hd.
  assert (gathered [] (mkGathering [] [] 0)) as Hg by (unfold gathered; cbn; split_and!; try done; by left).
  pose proof (gather_all l [] _ Hg) as H. destruct (foldO gather _ l) as [g|] eqn:Eg; bindr; [|done].
  destruct H as (rows & Hr & H1 & H2 & H3 & H4). rewrite send_batches by done. exists rows, (g_done g), (0, g_last g).
  cbn in H1. split; [done|]. split; [by rewrite fmap_app, concat_app; cbn; rewrite app_nil_r|]. split; [done|].
  split; [eapply Forall_impl; [done|]; by intros ? [? _]|]. split; [done|]. split.
  { apply Forall_app_2; [eapply Forall_impl; [done|]; by intros ? [_ ?]|by apply Forall_singleton]. }
  cbn. intros Hne Hl. apply Hne. rewrite <- H1, Hl, app_nil_r.
  assert (∀ l g0, foldO gather g0 l = Ret g → g_last g = [] → (g_last g0 = [] → g_done g0 = []) → g_done g = []) as Hx; [|by rewrite (Hx l _ Eg Hl)].
  clear. induction l as [|x l IH]; intros g0 H Hl Hg; cbn in H; [injection H as ->; auto|].
  apply bind_Ret in H as (g1 & H1 & H). apply (IH _ H Hl). apply bind_Ret in H1 as (o & _ & H1).
  destruct o as [r|]; [|by injection H1 as <-]. destruct x; [|injection H1 as <-; cbn; by destruct (g_last g0)].
  revert H1. cbv zeta. destruct (_ <=? _); intros [= <-]; cbn; [done|by destruct (g_last g0)].
Qed.

(** ** Becoming ready *)

Lemma resubscribe_all ds : ∀ s w reg, region s = Some reg → Forall (λ d, compare_region_epoch (region_epoch d) reg = None) ds →
  foldO (λ '(s, w) d, '(s, w, _) ← subscribe s d w; Ret (s, w)) (s, w) ds = Ret (with_downstreams s (s_downstreams s ++ ds), w).
Proof.
  induction ds as [|d ds IH]; intros s w reg Hr Hf; cbn [foldO].
  { rewrite app_nil_r. by destruct s. }
  apply Forall_cons in Hf as [Hd Hf]. unfold subscribe. rewrite Hr, Hd. bindr. rewrite (IH _ _ reg) by done. cbn. by rewrite <- app_assoc.
Qed.

(** C32. Nobody who waits is forgotten.  From any state a sentinel can be in before it is ready: when
    it becomes ready, every downstream that waited is handed back, and, if they have seen the
    region as it is now, they subscribe again one after the other without fail; the next time
    the resolver has an answer, it is sent to every one of them that is normal, on its own
    channel and under its own request. *)
Theorem waiting_are_served oid rid s w log g r reg m : runs oid rid s w log None g →
  let ds := downstreams s in
  let rl := foldl rapply r log in
  ds ≠ [] → Forall (λ d, compare_region_epoch (region_epoch d) reg = None ∧ is_Some (sink d)) ds →
  is_Some (resolve m rl).2 → 0 <= physical m - physical (default 0 (resolve m rl).2) <= U64_MAX →
  ∃ s1 w1 s2 s3 w3 ts, on_region_ready s r reg w = Ret (s1, w1, ds)
    ∧ foldO (λ '(s, w) d, '(s, w, _) ← subscribe s d w; Ret (s, w)) (s1, w1) ds = Ret (s2, w1)
    ∧ downstreams s2 = ds ∧ on_min_ts s2 m w1 = Ret (s3, w3, Some ts)
    ∧ ∀ d, d ∈ ds → is_normal w (state d) = true →
        ∃ ch, sink d = Some ch ∧ (ch, (0, mkEvent rid 0 (req_id d) (Some (EV_ResolvedTs ts)))) ∈ drop (length (sent w)) (sent w3).
Proof.
  intros H ds rl Hne Hds [ts Hts] Hphys. apply runs_phase in H as (_ & Hrid & _ & (Hr & Hreg & Hsd & p & Hp & Hlog & _)).
  apply Forall_and in Hds as [Hep Hsink]. assert (ds = p_downstreams p) as Hdp by (unfold ds, downstreams; by rewrite Hp).
  set (s1 := with_resolver (with_pending (with_region s (Some reg)) None) (Some rl)).
  set (s2 := with_downstreams s1 ds). set (w1 := gauge_add w (- pending_bytes p)).
  assert (on_region_ready s r reg w = Ret (s1, w1, ds)) as E1.
  { unfold on_region_ready. rewrite Hr, Hp. cbn. unfold s1, rl. by rewrite <- Hlog, rapply_locks, Hdp. }
  assert (foldO (λ '(s, w) d, '(s, w, _) ← subscribe s d w; Ret (s, w)) (s1, w1) ds = Ret (s2, w1)) as E2.
  { rewrite (resubscribe_all ds s1 w1 reg) by done. unfold s2. do 2 f_equal. cbn. by rewrite Hsd. }
  assert (downstreams s2 = ds) as E3 by done.
  set (e := mkEvent (region_id s2) 0 0 (Some (EV_ResolvedTs ts))).
  assert (on_min_ts s2 m w1 = Ret (with_resolver s2 (Some (resolve m rl).1), deliver w1 (heard w1 true ds ≫= delivery e 0), Some ts)) as E4.
  { unfold on_min_ts. change (resolver s2) with (Some rl). cbv beta iota. rewrite Hts in Hphys. cbn in Hphys.
    destruct (resolve m rl) as [r2 o]. cbn in Hts. subst o. cbv zeta. change (region_id (with_resolver s2 (Some r2))) with (region_id s2). fold e.
    assert (broadcast (with_resolver s2 (Some r2)) e 0 true w1 = Ret (deliver w1 (heard w1 true ds ≫= delivery e 0))) as Hb.
    { apply broadcast_Ret. split; [exact Hne|]. split; [|done]. apply Forall_forall. intros d Hd. apply heard_inv in Hd as [Hd _].
      rewrite Forall_forall in Hsink. by apply Hsink. }
    rewrite Hb. bindr. unfold u64. rewrite chk_ok by done. done. }
  exists s1, w1, s2. eexists _, _, ts. split_and!; [done..|exact E4|]. intros d Hd Hn.
  rewrite Forall_forall in Hsink. destruct (Hsink d Hd) as [ch Hch]. exists ch. split; [done|].
  cbn [sent deliver with_sent w1 gauge_add]. rewrite drop_app_length. apply list_elem_of_bind. exists d. split; [|by apply heard_normal].
  unfold delivery. rewrite Hch. apply list_elem_of_singleton. unfold e, set_request_id. cbn. by rewrite Hrid.
Qed.
End Laws.

(** ** A concrete region

    Epochs and regions are numbers, keys end in the byte of their timestamp, a lock or write is
    its kind, the start of its transaction and its value; the resolver keeps the locks and the
    last answer. *)
Definition sample_record (v : list Z) : option (Z * Z * option (list Z)) :=
  match v with
  | kind :: ts :: v => Some (kind, ts, match v with [] => None | _ => Some v end)
  | _ => None
  end.

#[local] Instance sample_capture : CaptureTypes := {|
  RegionEpoch := Z; Region := Z; NotLeader := unit; EpochNotMatch := list Z;
  Header := option (unit + list Z); CaptureError := option (unit + list Z);
  Request h := h; extract_error_header h := h;
  header_not_leader h := match h with Some (inl u) => Some u | _ => None end;
  header_epoch_not_match h := match h with Some (inr l) => Some l | _ => None end;
  epoch_not_match l := Some (inr l);
  compare_region_epoch e r := if e =? r then None else Some (Some (inr [r]));
  Resolver := gset (list Z * Z) * Z;
  track_lock ts k r := (r.1 ∪ {[ (k, ts) ]}, r.2);
  untrack_lock ts c k r := (r.1 ∖ {[ (k, ts) ]}, r.2);
  resolve m r := let t := Z.max r.2 (foldr Z.min m (elements r.1).*2) in ((r.1, t), Some t);
  physical t := t / 2 ^ 18;
  parse_lock v := '(k, ts, v) ← sample_record v;
    Some (mkLock (if k =? 1 then Lock_Put else if k =? 2 then Lock_Delete else Lock_Other) ts v);
  parse_write v := '(k, ts, v) ← sample_record v;
    Some (mkWrite (if k =? 1 then Write_Put else if k =? 2 then Write_Delete else if k =? 3 then Write_Rollback else Write_Other) ts v);
  decode_ts k := last k;
  truncate_ts k := match k with [] => None | _ => Some (take (length k - 1) k) end;
  into_primitive_causet k := Some k;
  iter_rows m := map_to_list m;
|}.

Lemma min_le m l : foldr Z.min m l <= m ∧ Forall (λ x, foldr Z.min m l <= x) l.
Proof.
  induction l as [|x l [IH1 IH2] ]; cbn; [split; [lia|done]|]. split; [lia|]. constructor; [lia|].
  eapply Forall_impl; [done|]. cbn. intros. lia.
Qed.

#[local] Instance sample_resolver : ResolverLaws.
Proof.
  refine (Build_ResolverLaws (fst : gset (list Z * Z) * Z → _) (snd : gset (list Z * Z) * Z → Z) _ _ _ _ _ _ _); try done.
  - intros m [t old]. cbn. destruct (min_le m (elements t).*2) as [H1 H2]. set (n := foldr _ _ _) in *.
    destruct (Z.max_spec old n) as [ [Hlt ->]|[Hle ->] ]; [right|by left]. split; [lia|]. intros k ts Hk.
    rewrite Forall_fmap, Forall_forall in H2. exact (H2 (k, ts) (proj2 (elem_of_elements _ _) Hk)).
  - intros m [t old] ts. cbn. congruence.
Defined.

Definition sample_r0 : Resolver := ((∅ : gset (list Z * Z)), 0).
(** Two downstreams; the first is normal, the second not yet. *)
Definition sample_d (i : Z) : Downstream := mkDownstream i (100 + i) 1 1 (Some (10 + i)) (Z.to_nat i).
Definition sample_w : World := mkWorld 2 [NORMAL; UNINITIALIZED] [] 0.
Definition sample_s : Sentinel := mkSentinel 1 7 (Some 1) [sample_d 0; sample_d 1] (Some (∅, 0)) None true false.
Definition sample_waiting : Sentinel := mkSentinel 1 7 None [] None (Some (mkPending [sample_d 0; sample_d 1] [] 0)) true false.
(** A prewrite with its value apart: key 97, start 5. *)
Definition sample_prewrite : list Req := [Req_Put [] [97; 5] [42; 43]; Req_Put BRANE_LOCK [97] [1; 5]].
Definition sample_commit : list Req := [Req_Put BRANE_WRITE [97; 9] [1; 5]].
Definition sample_batch (reqs : list Req) : CmdBatch := mkBatch 1 [mkCmd 3 reqs None None].
Definition sample_row : EventRow := mkRow 5 0 [97] OP_Put LOG_Prewrite [42; 43].

(** The events that are sent: to the downstream that is not normal too, as it is the last. *)
Definition rows_sent (w : World) : list (Z * Z * list EventRow) :=
  (λ '(ch, (n, e)), (ch, n, match ev_event e with Some (EV_Entries l) => l | _ => [] end)) <$> sent w.
Example sample_sinks : (λ r, (rows_sent r.2, default [] (elements ∘ tracked <$> resolver r.1))) <$> sink_data sample_s 3 sample_prewrite sample_w
  = Ret ([(10, 2, [sample_row]); (11, 2, [sample_row])], [([97], 5)]).
Proof. by vm_compute. Qed.

Example sample_answers : (λ r, r.2) <$> (
  '(s, w, _) ← on_alexandrov_poset_process sample_waiting (sample_batch sample_prewrite) sample_w;
  '(s, w, _) ← on_region_ready s (∅, 0) 1 w;
  '(s, w, _) ← subscribe s (sample_d 0) w;
  '(s, w, a) ← on_min_ts s 20 w;
  '(s, w, _) ← on_alexandrov_poset_process s (sample_batch sample_commit) w;
  '(s, w, b) ← on_min_ts s 20 w; Ret (s, w, (a, b))) = Ret (Some 5, Some 20).
Proof. by vm_compute. Qed.

(** The rollback of another transaction on the key leaves the lock in flight. *)
Example sample_foreign_rollback : (λ r, r.2) <$> (
  '(s, w, _) ← on_alexandrov_poset_process sample_s (sample_batch sample_prewrite) sample_w;
  '(s, w, _) ← on_alexandrov_poset_process s (sample_batch [Req_Put BRANE_WRITE [97; 9] [3; 8]]) w;
  '(s, w, a) ← on_min_ts s 20 w; Ret (s, w, a)) = Ret (Some 5)
  ∧ in_flight ∅ [R_lock (Track [97] 5); R_lock (Untrack [97] 8 None)] = {[ ([97], 5) ]}.
Proof. split; by vm_compute. Qed.

(** A stop while downstreams wait leaves their states as they were. *)
Example sample_stop : (λ r, (cells r.2, length (sent r.2))) <$> stop sample_waiting (Some (inl tt)) sample_w
  = Ret ([NORMAL; UNINITIALIZED], 2%nat)
  ∧ (λ r, cells r.2) <$> stop sample_s (Some (inl tt)) sample_w = Ret [STOPPED; STOPPED].
Proof. by vm_compute. Qed.

Lemma sample_runs : runs 1 7 sample_waiting sample_w [] None 0.
Proof.
  change 0 with (0 + (gauge sample_w - gauge sample_w)). eapply (run_world _ _ _ sample_w).
  eapply (run_subscribe _ _ (mkSentinel 1 7 None [] None (Some (mkPending [sample_d 0] [] 0)) true false) _ _ _ _ (sample_d 1)); [|done].
  eapply (run_subscribe _ _ (Sentinel_new 1 7) sample_w _ _ _ (sample_d 0)); [|done]. apply (run_new _ _ sample_w).
Qed.

Lemma sink_data_exact_witness : standing sample_s
  ∧ key_rows None [I_default [97] [42; 43]; I_lock (mkRow 5 0 [97] OP_Put LOG_Prewrite [])] = Ret (Some sample_row).
Proof.
  assert (standing sample_s) as H by (left; eauto). split; [exact H|].
  exact (proj1 (proj2 (sink_data_exact sample_s 3 sample_prewrite sample_w H) (mkRow 5 0 [97] OP_Put LOG_Prewrite []) [97] [42; 43] eq_refl ltac:(done))).
Defined.

Lemma commands_exact_witness : ∃ s' w' v, standing sample_s
  ∧ on_alexandrov_poset_process sample_s (sample_batch sample_prewrite) sample_w = Ret (s', w', v)
  ∧ (observe_id (sample_batch sample_prewrite) ≠ s_id sample_s ∨ s_id sample_s = 1 ∧ ∃ ls, cmds_locks (cmds (sample_batch sample_prewrite)) = Ret ls).
Proof.
  eexists _, _, _. assert (standing sample_s) as H by (left; eauto). split; [exact H|]. split; [reflexivity|].
  destruct (commands_exact sample_s (sample_batch sample_prewrite) sample_w _ _ _ H eq_refl) as [(? & _)|(_ & ls & evs & E & _)];
    [by left|right; split; [done|by exists ls] ].
Defined.

Lemma sentinel_refines_witness : runs 1 7 sample_waiting sample_w [] None 0 ∧ gauge sample_w = 0 + held sample_waiting.
Proof. split; [exact sample_runs|]. exact (proj1 (proj2 (proj2 (sentinel_refines _ _ _ _ _ _ _ sample_runs)))). Defined.

Lemma resolved_ts_safe_witness : ∃ s w s' w', runs 1 7 s w [R_lock (Track [97] 5)] (Some sample_r0) 0
  ∧ on_min_ts s 20 w = Ret (s', w', Some 5) ∧ ∀ k ts, (k, ts) ∈ in_flight ∅ [R_lock (Track [97] 5)] → 5 <= ts.
Proof.
  assert (∃ s w s1 w1 s' w', runs 1 7 s w [R_lock (Track [97] 5)] None 0 ∧ on_region_ready s sample_r0 1 w = Ret (s1, w1, [sample_d 0; sample_d 1])
    ∧ (∃ s2, subscribe s1 (sample_d 0) w1 = Ret (s2, w1, true) ∧ on_min_ts s2 20 w1 = Ret (s', w', Some 5))) as (s & w & s1 & w1 & s' & w' & R & E1 & s2 & E2 & E3).
  { eexists _, _, _, _, _, _. split; [|split; [|eexists; split] ].
    - pose proof (run_commands 1 7 sample_waiting sample_w [] None 0 (sample_batch [Req_Put BRANE_LOCK [97] [1; 5]])) as H.
      specialize (H (mkSentinel 1 7 None [] None (Some (mkPending [sample_d 0; sample_d 1] [Track [97] 5] 1)) true false)).
      eapply (H _ _ [Track [97] 5] sample_runs); reflexivity.
    - reflexivity.
    - reflexivity.
    - reflexivity. }
  assert (runs 1 7 s2 w1 [R_lock (Track [97] 5)] (Some sample_r0) 0) as R2.
  { eapply run_subscribe; [|exact E2]. eapply run_ready; [exact R|exact E1]. }
  exists s2, w1, s', w'.
  split; [exact R2|]. split; [exact E3|].
  pose proof (resolved_ts_safe 1 7 s2 w1 [R_lock (Track [97] 5)] (Some sample_r0) 0 20 s' w' (Some 5) R2 E3) as H. cbn beta iota in H.
  destruct H as (H & _ & Hv & _); [intros k ts []%elem_of_empty|split; [vm_compute; done|done]|]. rewrite Hv. exact H.
Defined.

Lemma waiting_are_served_witness : ∃ s1 w1 s3 w3 ts, on_region_ready sample_waiting sample_r0 1 sample_w = Ret (s1, w1, downstreams sample_waiting)
  ∧ (∃ s2, on_min_ts s2 20 w1 = Ret (s3, w3, Some ts)).
Proof.
  destruct (waiting_are_served 1 7 sample_waiting sample_w [] 0 sample_r0 1 20 sample_runs) as (s1 & w1 & s2 & s3 & w3 & ts & H1 & _ & _ & H2 & _).
  - done.
  - repeat constructor; by eexists.
  - by eexists.
  - vm_compute. split; discriminate.
  - exists s1, w1, s3, w3, ts. split; [exact H1|]. by exists s2.
Defined.
