(* ===== verification/Vocab.v ===== *)
(** * Vocab: vocabularies, versioned sets of attributes

    [fdb_traits/src/vocabulary.rs].  A program defines a vocabulary: a name, a version and
    attributes.  The store remembers the vocabularies it has as entities with a version and
    attributes; a definition is checked against them, and installed, completed or upgraded
    by transacting a description of it.

    The store, its queries and the builder of terms are other crates' (the class
    [VocabularyStore]).  What the store is asked to do may change it, also when it fails: an
    operation gives the store afterwards and a result.  The bodies of the hooks a definition
    runs before and after an upgrade are mangled in the source; they are fields here. *)
From Stdlib Require Import ZArith Lia String.
From stdpp Require Import base list numbers countable gmap sorting.
From S2P Require Import Prelude Slice Order Shelling EmlValue TypedValue Schema SchemaUpdate Bootstrap.
#[local] Open Scope Z_scope.
#[local] Open Scope list_scope.

(** ** Maps by name *)

#[export] Instance IsolatedNamespace_countable : Countable IsolatedNamespace.
Proof.
  refine (inj_countable (λ s, (ns_components s, ns_boundary s))
    (λ p, match decide (Is_true (valid_namespace p.1 p.2)) with left H => Some (mkNamespace p.1 p.2 H) | right _ => None end) _).
  intros [c b H]. cbn. destruct (decide (Is_true (valid_namespace c b))) as [H'|]; [|done]. do 2 f_equal. apply proof_irrel.
Defined.
#[export] Instance Keyword_countable : Countable Keyword.
Proof. by apply (inj_countable' keyword_ns mkKeyword); intros []. Defined.
#[export] Instance Attribute_eq : EqDecision Attribute.
Proof. solve_decision. Defined.

(** The entries of a [BTreeMap] by name, in their order. *)
Definition name_le {A} (x y : Keyword * A) : Prop := keyword_cmp x.1 y.1 ≠ Gt.
#[export] Instance name_le_dec {A} : RelDecision (@name_le A).
Proof. intros x y. unfold name_le. destruct (keyword_cmp x.1 y.1); [left|left|right]; congruence. Defined.
Definition name_entries {A} (m : gmap Keyword A) : list (Keyword * A) := merge_sort name_le (map_to_list m).

(** ** Vocabularies and their definitions *)

Record Vocabulary := mkVocabulary { voc_causet : Z; voc_version : Z; voc_attributes : list (Z * Attribute) }.
Definition Vocabularies : Type := gmap Keyword Vocabulary.

(** [Vocabulary::find] *)
Definition voc_find (v : Vocabulary) (causetid : Z) : option Attribute :=
  snd <$> find (λ p, p.1 =? causetid) (voc_attributes v).

Section Definitions.
Context {AT : EmlAtoms}.

(** A place of a term that the descriptions fill: a value, an entity that is known, or one that is
    named within the description. *)
Inductive Place (T : Type) := P_value (v : causetq_TV) | P_causetid (e : Z) | P_tempid (t : T).
#[global] Arguments P_value {T}.
#[global] Arguments P_causetid {T}.
#[global] Arguments P_tempid {T}.

(** A column of a query's result. *)
Inductive ResultBinding := Scalar (v : causetq_TV) | OtherBinding.
End Definitions.

Class VocabularyStore {AT : EmlAtoms} := {
  Store : Type;
  StoreError : Type;
  (** The macro that makes names of texts. *)
  kw : list Z → list Z → Keyword;
  keyword_to_string : Keyword → list Z;
  (** [HasSchema] *)
  get_causetid : Store → Keyword → option Z;
  get_solitonid : Store → Z → option Keyword;
  attribute_for_causetid : Store → Z → option Attribute;
  attribute_for_solitonid : Store → Keyword → option (Attribute * Z);
  causetid_for_type : Store → ValueType → option Z;
  (** [Queryable]; the two queries are those for the versions and for the attributes. *)
  lookup_causet_locale_for_attribute : Store → Z → Keyword → StoreError + option causetq_TV;
  lookup_causet_locales_for_attribute : Store → Z → Keyword → StoreError + list causetq_TV;
  q_versions : Store → StoreError + list (ResultBinding * ResultBinding);
  q_attributes : Store → StoreError + list (ResultBinding * ResultBinding);
  (** [TermBuilder] *)
  Builder : Type;
  TempId : Type;
  Terms : Type;
  builder_new : Builder;
  named_tempid : Builder → list Z → Builder * TempId;
  builder_add : Builder → TempId → Z → Place TempId → StoreError + Builder;
  builder_retract : Builder → TempId → Z → Place TempId → StoreError + Builder;
  builder_build : Builder → StoreError + Terms;
  transact_causets : Store → Terms → Store * (StoreError + unit);
}.

Section Vocab.
Context {AT : EmlAtoms} {VS : VocabularyStore}.

(** The errors carry names where the code carries their texts. *)
Inductive VocabularyError :=
| MissingCoreVocabulary (name : Keyword)
| UnexpectedCoreSchema (expected : Z) (found : option Z)
| ConflictingAttributeDefinitions (vocabulary : Keyword) (version : Z) (attribute : Keyword) (current requested : Attribute)
| ExistingVocabularyTooNew (name : Keyword) (version ours : Z)
| InvalidVocabularyVersion
| OtherError (e : StoreError).

Definition named (ns name : string) : Keyword := kw (text ns) (text name).
Definition DB_SCHEMA_CORE : Keyword := named "einsteindb.schema" "core".
Definition DB_SCHEMA_ATTRIBUTE : Keyword := named "einsteindb.schema" "attribute".
Definition DB_SCHEMA_VERSION : Keyword := named "einsteindb.schema" "version".
Definition DB_SOLITONID : Keyword := named "einsteindb" "solitonid".
Definition DB_UNIQUE : Keyword := named "einsteindb" "unique".
Definition DB_UNIQUE_VALUE : Keyword := named "einsteindb.unique" "causet_locale".
Definition DB_UNIQUE_IDcauset : Keyword := named "einsteindb.unique" "idcauset".
Definition DB_IS_COMPONENT : Keyword := named "einsteindb" "isComponent".
Definition DB_VALUE_TYPE : Keyword := named "einsteindb" "causet_localeType".
Definition DB_INDEX : Keyword := named "einsteindb" "index".
Definition DB_FULLTEXT : Keyword := named "einsteindb" "fulltext".
Definition DB_CARDINALITY : Keyword := named "einsteindb" "cardinality".
Definition DB_CARDINALITY_ONE : Keyword := named "einsteindb.cardinality" "one".
Definition DB_CARDINALITY_MANY : Keyword := named "einsteindb.cardinality" "many".
Definition DB_NO_HISTORY : Keyword := named "einsteindb" "noHistory".

Record VocDefinition := mkDefinition {
  def_name : Keyword; def_version : Z; def_attributes : list (Keyword * Attribute);
  def_pre : Store → Vocabulary → Store * (VocabularyError + unit);
  def_post : Store → Vocabulary → Store * (VocabularyError + unit);
}.
Definition no_op (s : Store) (_ : Vocabulary) : Store * (VocabularyError + unit) := (s, inr tt).
Definition Definition_new (name : Keyword) (version : Z) (attributes : list (Keyword * Attribute)) : VocDefinition :=
  mkDefinition name version attributes no_op no_op.

Definition vbind {E A B} (x : E + A) (f : A → E + B) : E + B := match x with inl e => inl e | inr a => f a end.
Definition other {A} (x : StoreError + A) : VocabularyError + A := match x with inl e => inl (OtherError e) | inr a => inr a end.
Local Notation "x ←! c ; k" := (vbind c (λ x, k)) (at level 20, c at level 100, k at level 200, only parsing).

(** ** What the core schema provides *)

Definition ok_or_missing {A} (o : option A) : VocabularyError + A :=
  match o with Some a => inr a | None => inl (MissingCoreVocabulary DB_SCHEMA_VERSION) end.
Definition core_type (s : Store) (t : ValueType) : VocabularyError + Z := ok_or_missing (causetid_for_type s t).
Definition core_causetid (s : Store) (name : Keyword) : VocabularyError + Z := ok_or_missing (get_causetid s name).
Definition core_attribute (s : Store) (name : Keyword) : VocabularyError + Z := ok_or_missing (snd <$> attribute_for_solitonid s name).

(** The ids that a description uses. *)
Record CoreIds := mkCore {
  a_version : Z; a_solitonid : Z; a_attr : Z; a_cardinality : Z; a_fulltext : Z; a_index : Z; a_is_component : Z;
  a_value_type : Z; a_unique : Z; a_no_history : Z;
  v_cardinality_many : Z; v_cardinality_one : Z; v_unique_idcauset : Z; v_unique_value : Z;
}.
Definition core_ids (s : Store) : VocabularyError + CoreIds :=
  version ←! core_attribute s DB_SCHEMA_VERSION;
  solitonid ←! core_attribute s DB_SOLITONID;
  attr ←! core_attribute s DB_SCHEMA_ATTRIBUTE;
  cardinality ←! core_attribute s DB_CARDINALITY;
  fulltext ←! core_attribute s DB_FULLTEXT;
  index ←! core_attribute s DB_INDEX;
  is_component ←! core_attribute s DB_IS_COMPONENT;
  value_type ←! core_attribute s DB_VALUE_TYPE;
  unique ←! core_attribute s DB_UNIQUE;
  no_history ←! core_attribute s DB_NO_HISTORY;
  many ←! core_causetid s DB_CARDINALITY_MANY;
  one ←! core_causetid s DB_CARDINALITY_ONE;
  idcauset ←! core_causetid s DB_UNIQUE_IDcauset;
  value ←! core_causetid s DB_UNIQUE_VALUE;
  inr (mkCore version solitonid attr cardinality fulltext index is_component value_type unique no_history many one idcauset value).

(** ** Descriptions *)

Definition describe_unique (c : CoreIds) (diff : gmap Keyword Attribute) (name : Keyword) (a : Attribute) (b : Builder) (t : TempId)
  : VocabularyError + Builder :=
  let causetid u := match u with Unique_Idcauset => v_unique_idcauset c | Unique_Value => v_unique_value c end in
  match at_unique a with
  | Some u => other (builder_add b t (a_unique c) (P_causetid (causetid u)))
  | None =>
      match diff !! name ≫= at_unique with
      | None => inr b
      | Some u => other (builder_retract b t (a_unique c) (P_causetid (causetid u)))
      end
  end.

Definition describe_attribute (s : Store) (c : CoreIds) (topograph : TempId) (diff : gmap Keyword Attribute) (b : Builder)
  (r : Keyword * Attribute) : VocabularyError + Builder :=
  let '(name, a) := r in
  let '(b, t) := named_tempid b (keyword_to_string name) in
  b ←! other (builder_add b t (a_solitonid c) (P_value (TV_Keyword name)));
  b ←! other (builder_add b topograph (a_attr c) (P_tempid t));
  ty ←! core_type s (at_value_type a);
  b ←! other (builder_add b t (a_value_type c) (P_causetid ty));
  b ←! other (builder_add b t (a_cardinality c) (P_causetid (if at_multival a then v_cardinality_many c else v_cardinality_one c)));
  b ←! other (builder_add b t (a_index c) (P_value (TV_Boolean (at_index a))));
  b ←! other (builder_add b t (a_fulltext c) (P_value (TV_Boolean (at_fulltext a))));
  b ←! other (builder_add b t (a_is_component c) (P_value (TV_Boolean (at_component a))));
  b ←! other (builder_add b t (a_no_history c) (P_value (TV_Boolean (at_no_history a))));
  describe_unique c diff name a b t.

(** [diff] is what the attributes were, where that is known; without it, the empty map. *)
Definition description_for_attributes (d : VocDefinition) (attributes : list (Keyword * Attribute)) (s : Store)
  (diff : gmap Keyword Attribute) : VocabularyError + Terms :=
  c ←! core_ids s;
  let '(b, topograph) := named_tempid builder_new (text "s") in
  b ←! other (builder_add b topograph (a_version c) (P_value (TV_Long (as_i64 (def_version d)))));
  b ←! other (builder_add b topograph (a_solitonid c) (P_value (TV_Keyword (def_name d))));
  b ←! foldE (describe_attribute s c topograph diff) b attributes;
  other (builder_build b).

(** [BTreeMap::from_iter]: of two entries with one name the later one stays. *)
Definition of_entries {A} (l : list (Keyword * A)) : gmap Keyword A := foldl (λ m p, <[p.1 := p.2]> m) ∅ l.

Definition relevant (d : VocDefinition) (s : Store) (from : Vocabulary) : gmap Keyword Attribute :=
  of_entries (omap (λ p, (λ e, (p.1, e)) <$> (get_causetid s p.1 ≫= voc_find from)) (def_attributes d)).

Definition description_diff (d : VocDefinition) (s : Store) (from : Vocabulary) : VocabularyError + Terms :=
  description_for_attributes d (def_attributes d) s (relevant d s from).

Definition description (d : VocDefinition) (s : Store) : VocabularyError + Terms :=
  description_for_attributes d (def_attributes d) s ∅.

(** ** Reading vocabularies *)

Definition version_ok (version : Z) : bool := (0 <? version) && (version <? U32_MAX).

Definition read_vocabulary_named (s : Store) (name : Keyword) : VocabularyError + option Vocabulary :=
  match get_causetid s name with
  | None => inr None
  | Some e =>
      v ←! other (lookup_causet_locale_for_attribute s e DB_SCHEMA_VERSION);
      match v with
      | None => inr None
      | Some (TV_Long version) =>
          if version_ok version then
            l ←! other (lookup_causet_locales_for_attribute s e DB_SCHEMA_ATTRIBUTE);
            inr (Some (mkVocabulary e (as_u32 version)
              (omap (λ v, match v with TV_Ref a => (λ attr, (a, attr)) <$> attribute_for_causetid s a | _ => None end) l)))
          else inl InvalidVocabularyVersion
      | Some _ => inl InvalidVocabularyVersion
      end
  end.

Definition version_row (p : ResultBinding * ResultBinding) : option (Z * Z) :=
  match p with
  | (Scalar (TV_Ref vocab), Scalar (TV_Long version)) => if version_ok version then Some (vocab, as_u32 version) else None
  | _ => None
  end.
Definition attribute_row (p : ResultBinding * ResultBinding) : option (Z * Z) :=
  match p with (Scalar (TV_Ref vocab), Scalar (TV_Ref attr)) => Some (vocab, attr) | _ => None end.

Definition group_attribute (s : Store) (m : gmap Z (list (Z * Attribute))) (p : Z * Z) : gmap Z (list (Z * Attribute)) :=
  match attribute_for_causetid s p.2 with
  | Some attribute => <[p.1 := default [] (m !! p.1) ++ [(p.2, attribute)]]> m
  | None => m
  end.

(** The names are looked up by increasing id of the vocabulary, and of two ids with one name the
    later one stays; the attributes of an id are taken once, as ids are different. *)
Definition read_vocabularies (s : Store) : VocabularyError + Vocabularies :=
  rows ←! other (q_versions s);
  let versions : gmap Z Z := foldl (λ m p, <[p.1 := p.2]> m) ∅ (omap version_row rows) in
  pairs ←! other (q_attributes s);
  let attributes := foldl (group_attribute s) ∅ (omap attribute_row pairs) in
  inr (of_entries (omap (λ '(vocab, version),
    (λ name, (name, mkVocabulary vocab version (default [] (attributes !! vocab)))) <$> get_solitonid s vocab) (bt_entries versions))).

(** ** Checking *)

Inductive VocabularyCheck :=
| NotPresent
| Present
| PresentButNeedsUpdate (older_version : Vocabulary)
| PresentButTooNew (newer_version : Vocabulary)
| PresentButMissingAttributes (attributes : list (Keyword * Attribute)).

Inductive VocabularyOutcome := Installed | InstalledMissingAttributes | Existed | Upgraded.

(** One attribute of a definition with the version of the store: missing, or the same. *)
Definition check_attribute (d : VocDefinition) (s : Store) (v : Vocabulary) (missing : list (Keyword * Attribute))
  (p : Keyword * Attribute) : VocabularyError + list (Keyword * Attribute) :=
  match get_causetid s p.1 ≫= voc_find v with
  | Some existing =>
      if bool_decide (existing = p.2) then inr missing
      else inl (ConflictingAttributeDefinitions (def_name d) (def_version d) p.1 existing p.2)
  | None => inr (missing ++ [p])
  end.

Definition check_vocabulary (s : Store) (d : VocDefinition) : VocabularyError + VocabularyCheck :=
  o ←! read_vocabulary_named s (def_name d);
  match o with
  | None => inr NotPresent
  | Some v =>
      if voc_version v =? def_version d then
        missing ←! foldE (check_attribute d s v) [] (def_attributes d);
        inr (match missing with [] => Present | _ => PresentButMissingAttributes missing end)
      else if voc_version v <? def_version d then inr (PresentButNeedsUpdate v)
      else inr (PresentButTooNew v)
  end.

Definition verify_core_schema (s : Store) : VocabularyError + unit :=
  o ←! read_vocabulary_named s DB_SCHEMA_CORE;
  match o with
  | Some core =>
      if voc_version core =? CORE_SCHEMA_VERSION then inr tt
      else inl (UnexpectedCoreSchema CORE_SCHEMA_VERSION (Some (voc_version core)))
  | None => inl (UnexpectedCoreSchema CORE_SCHEMA_VERSION None)
  end.

(** ** Changing the store *)

Definition vM (A : Type) : Type := Store → Store * (VocabularyError + A).
Definition vret {A} (a : A) : vM A := λ s, (s, inr a).
Definition vthen {A B} (c : vM A) (f : A → vM B) : vM B := λ s,
  match c s with (s, inr a) => f a s | (s, inl e) => (s, inl e) end.
Definition vread {A} (f : Store → VocabularyError + A) : vM A := λ s, (s, f s).
Definition vtransact (t : Terms) : vM unit := λ s, let '(s, r) := transact_causets s t in (s, other r).
Local Notation "'let*' x := c 'in' k" := (vthen c (λ x, k)) (at level 200, x name, c at level 100, k at level 200).

Definition install_vocabulary (d : VocDefinition) : vM VocabularyOutcome :=
  let* terms := vread (description d) in
  let* _ := vtransact terms in
  vret Installed.

Definition install_attributes_for (d : VocDefinition) (attributes : list (Keyword * Attribute)) : vM VocabularyOutcome :=
  let* terms := vread (λ s, description_for_attributes d attributes s ∅) in
  let* _ := vtransact terms in
  vret InstalledMissingAttributes.

Definition upgrade_vocabulary (d : VocDefinition) (from_version : Vocabulary) : vM VocabularyOutcome :=
  let* _ := (λ s, def_pre d s from_version) in
  let* terms := vread (λ s, description_diff d s from_version) in
  let* _ := vtransact terms in
  let* _ := (λ s, def_post d s from_version) in
  vret Upgraded.

Definition ensure_vocabulary (d : VocDefinition) : vM VocabularyOutcome :=
  let* c := vread (λ s, check_vocabulary s d) in
  match c with
  | Present => vret Existed
  | NotPresent => install_vocabulary d
  | PresentButNeedsUpdate older => upgrade_vocabulary d older
  | PresentButMissingAttributes attributes => install_attributes_for d attributes
  | PresentButTooNew newer => λ s, (s, inl (ExistingVocabularyTooNew (def_name d) (voc_version newer) (def_version d)))
  end.

(** [CheckedVocabularies] *)
Definition Checked : Type := gmap Keyword (VocDefinition * VocabularyCheck).

(** [VocabularySource] *)
Record VocabularySource := mkSource {
  src_definitions : list VocDefinition;
  src_pre : Checked → vM unit;
  src_post : vM unit;
}.
(** [SimpleVocabularySource::with_definitions] *)
Definition with_definitions (l : list VocDefinition) : VocabularySource := mkSource l (λ _, vret tt) (vret tt).

Record Sorted := mkSorted { so_out : gmap Keyword VocabularyOutcome; so_work : Checked }.

Fixpoint sort_definitions (l : list VocDefinition) (x : Sorted) : vM Sorted :=
  match l with
  | [] => vret x
  | d :: l =>
      let* c := vread (λ s, check_vocabulary s d) in
      match c with
      | Present => sort_definitions l (mkSorted (<[def_name d := Existed]> (so_out x)) (so_work x))
      | PresentButTooNew newer => λ s, (s, inl (ExistingVocabularyTooNew (def_name d) (voc_version newer) (def_version d)))
      | _ => sort_definitions l (mkSorted (so_out x) (<[def_name d := (d, c)]> (so_work x)))
      end
  end.

Record Delayed := mkDelayed {
  de_out : gmap Keyword VocabularyOutcome; de_update : list (VocDefinition * Vocabulary);
  de_missing : list (VocDefinition * list (Keyword * Attribute));
}.

(** What is absent is installed at once, the rest is put off; the two arms that are marked as
    unreachable panic. *)
Fixpoint install_absent (l : list (Keyword * (VocDefinition * VocabularyCheck))) (x : Delayed) (s : Store)
  : outcome (Store * (VocabularyError + Delayed)) :=
  match l with
  | [] => Ret (s, inr x)
  | (name, (d, c)) :: l =>
      match c with
      | NotPresent =>
          match install_vocabulary d s with
          | (s, inl e) => Ret (s, inl e)
          | (s, inr o) => install_absent l (mkDelayed (<[name := o]> (de_out x)) (de_update x) (de_missing x)) s
          end
      | PresentButNeedsUpdate v => install_absent l (mkDelayed (de_out x) (de_update x ++ [(d, v)]) (de_missing x)) s
      | PresentButMissingAttributes a => install_absent l (mkDelayed (de_out x) (de_update x) (de_missing x ++ [(d, a)])) s
      | Present | PresentButTooNew _ => Panic
      end
  end.

Fixpoint run_delayed {A} (f : VocDefinition → A → vM VocabularyOutcome) (l : list (VocDefinition * A))
  (out : gmap Keyword VocabularyOutcome) : vM (gmap Keyword VocabularyOutcome) :=
  match l with
  | [] => vret out
  | (d, a) :: l => let* o := f d a in run_delayed f l (<[def_name d := o]> out)
  end.

Definition ensure_vocabularies (src : VocabularySource) (s : Store) : outcome (Store * (VocabularyError + gmap Keyword VocabularyOutcome)) :=
  match sort_definitions (src_definitions src) (mkSorted ∅ ∅) s with
  | (s, inl e) => Ret (s, inl e)
  | (s, inr x) =>
      if bool_decide (so_work x = ∅) then Ret (s, inr (so_out x)) else
      match src_pre src (so_work x) s with
      | (s, inl e) => Ret (s, inl e)
      | (s, inr _) =>
          '(s, r) ← install_absent (name_entries (so_work x)) (mkDelayed (so_out x) [] []) s;
          match r with
          | inl e => Ret (s, inl e)
          | inr y =>
              Ret ((let* out := run_delayed upgrade_vocabulary (de_update y) (de_out y) in
                    let* out := run_delayed install_attributes_for (de_missing y) out in
                    let* _ := src_post src in vret out) s)
          end
      end
  end.
End Vocab.
