(* ===== verification/VocabLaws.v ===== *)
(** * VocabLaws: what is checked, described, read and ensured of vocabularies *)
From Stdlib Require Import ZArith Lia String.
From stdpp Require Import base list numbers countable gmap sorting.
From S2P Require Import Prelude Slice Order Shelling EmlValue TypedValue Schema SchemaUpdate SchemaLaws Bootstrap QuerySample Vocab.
#[local] Open Scope Z_scope.
#[local] Open Scope list_scope.

Section Laws.
Context {AT : EmlAtoms} {VS : VocabularyStore}.
Implicit Types (s : Store) (d : VocDefinition).

(** ** Checking *)

(** What the store's version of a vocabulary has for an attribute of a definition. *)
Definition current s (v : Vocabulary) (p : Keyword * Attribute) : option Attribute := get_causetid s p.1 ≫= voc_find v.

Lemma check_attributes d s v l : ∀ missing,
  match foldE (check_attribute d s v) missing l with
  | inr m => m = missing ++ filter (λ p, current s v p = None) l ∧ Forall (λ p, current s v p = None ∨ current s v p = Some p.2) l
  | inl e => ∃ pre p post old, l = pre ++ p :: post ∧ Forall (λ p, current s v p = None ∨ current s v p = Some p.2) pre
      ∧ current s v p = Some old ∧ old ≠ p.2 ∧ e = ConflictingAttributeDefinitions (def_name d) (def_version d) p.1 old p.2
  end.
Proof.
  induction l as [|p l IH]; intros missing; cbn [foldE].
  { rewrite app_nil_r. by split. }
  unfold check_attribute at 1. fold (current s v p). destruct (current s v p) as [old|] eqn:E.
  - case_bool_decide as Hp.
    + specialize (IH missing). destruct (foldE _ _ l) as [e|m].
      * destruct IH as (pre & q & post & old' & -> & Hpre & H1 & H2 & ->). exists (p :: pre), q, post, old'.
        split_and!; try done. constructor; [right; congruence|done].
      * destruct IH as [-> Hl]. rewrite filter_cons, decide_False by congruence. split; [done|]. constructor; [right; congruence|done].
    + exists [], p, l, old. by split_and!.
  - specialize (IH (missing ++ [p])). destruct (foldE _ _ l) as [e|m].
    + destruct IH as (pre & q & post & old' & -> & Hpre & H1 & H2 & ->). exists (p :: pre), q, post, old'.
      split_and!; try done. constructor; [by left|done].
    + destruct IH as [-> Hl]. rewrite filter_cons, decide_True by done. rewrite <- app_assoc. split; [done|]. constructor; [by left|done].
Qed.

(** C34. Checking a definition.  A vocabulary the store cannot read is an error, and one it does not
    have is absent.  Otherwise the versions are compared first.  For the same version: it is
    present exactly when the store has every attribute as defined; the missing attributes are
    reported, in the order of the definition, exactly when there are some and all others are the
    same; and the first attribute that differs is a conflict, whatever comes after it. *)
Theorem check_vocabulary_exact s d :
  match read_vocabulary_named s (def_name d) with
  | inl e => check_vocabulary s d = inl e
  | inr None => check_vocabulary s d = inr NotPresent
  | inr (Some v) =>
      let same p := current s v p = Some p.2 in
      let absent p := current s v p = None in
      (voc_version v < def_version d → check_vocabulary s d = inr (PresentButNeedsUpdate v))
      ∧ (def_version d < voc_version v → check_vocabulary s d = inr (PresentButTooNew v))
      ∧ (voc_version v = def_version d →
          (check_vocabulary s d = inr Present ↔ Forall same (def_attributes d))
          ∧ (∀ m, check_vocabulary s d = inr (PresentButMissingAttributes m) ↔
               m ≠ [] ∧ m = filter absent (def_attributes d) ∧ Forall (λ p, absent p ∨ same p) (def_attributes d))
          ∧ (∀ e, check_vocabulary s d = inl e ↔ ∃ pre p post old, def_attributes d = pre ++ p :: post
               ∧ Forall (λ p, absent p ∨ same p) pre ∧ current s v p = Some old ∧ old ≠ p.2
               ∧ e = ConflictingAttributeDefinitions (def_name d) (def_version d) p.1 old p.2))
  end.
Proof.
  unfold check_vocabulary. destruct (read_vocabulary_named s (def_name d)) as [e|[v|] ]; cbn [vbind]; [done| |done].
  cbv zeta. split; [|split].
  - intros H. rewrite (proj2 (Z.eqb_neq _ _)), (proj2 (Z.ltb_lt _ _)) by lia. done.
  - intros H. rewrite (proj2 (Z.eqb_neq _ _)), (proj2 (Z.ltb_ge _ _)) by lia. done.
  - intros ->. rewrite Z.eqb_refl. pose proof (check_attributes d s v (def_attributes d) []) as H.
    destruct (foldE _ [] (def_attributes d)) as [e|m]; cbn [vbind].
    + assert (¬ Forall (λ p, current s v p = None ∨ current s v p = Some p.2) (def_attributes d)) as Hn.
      { destruct H as (pre & p & post & old & -> & _ & H1 & H2 & _). intros [_ [Hp _]%Forall_cons]%Forall_app. destruct Hp; congruence. }
      split; [|split].
      * split; [done|]. intros Hf. destruct Hn. eapply Forall_impl; [done|]. auto.
      * intros m. split; [done|]. tauto.
      * intros e'. split; [by intros [= <-]|]. destruct H as (pre & p & post & old & Hl & Hpre & H1 & H2 & ->).
        intros (pre' & p' & post' & old' & Hl' & Hpre' & H1' & H2' & ->).
        rewrite Hl in Hl'. clear -Hl' Hpre Hpre' H1 H2 H1' H2'. revert pre' Hl' Hpre'. induction pre as [|q pre IH]; intros [|q' pre'] Hl' Hpre'.
        -- injection Hl' as -> ->. congruence.
        -- injection Hl' as -> _. apply Forall_cons in Hpre' as [Hq _]. destruct Hq; congruence.
        -- injection Hl' as -> _. apply Forall_cons in Hpre as [Hq _]. destruct Hq; congruence.
        -- injection Hl' as -> Hl'. apply Forall_cons in Hpre as [_ Hpre], Hpre' as [_ Hpre']. by eapply IH.
    + destruct H as [-> Hf]. cbn [app]. assert (filter (λ p, current s v p = None) (def_attributes d) = [] ↔ Forall (λ p, current s v p = Some p.2) (def_attributes d)) as Hs.
      { clear -Hf. induction Hf as [|p l Hp Hf IH]; [done|]. rewrite filter_cons, Forall_cons. case_decide as E.
        - split; [done|]. intros [? _]. congruence.
        - rewrite IH. naive_solver. }
      split; [|split].
      * rewrite <- Hs. by destruct (filter _ _).
      * intros m. destruct (filter _ _) as [|q l] eqn:E.
        -- split; [done|]. intros (H1 & -> & _). done.
        -- split; [intros [= <-]; split_and!; done|by intros (_ & -> & _)].
      * intros e. split; [by destruct (filter _ _)|]. intros (pre & p & post & old & Hl & _ & H1 & H2 & ->). rewrite Hl in Hf.
        apply Forall_app in Hf as [_ [Hp _]%Forall_cons]. destruct Hp; congruence.
Qed.

(** ** Ensuring *)

(** What makes a definition stop the whole: its check fails, or the store has a newer version. *)
Definition refusal s d : option VocabularyError :=
  match check_vocabulary s d with
  | inl e => Some e
  | inr (PresentButTooNew v) => Some (ExistingVocabularyTooNew (def_name d) (voc_version v) (def_version d))
  | inr _ => None
  end.

(** What there is to do for a definition, and what to say of one that is there. *)
Definition to_do s d : option (Keyword * (VocDefinition * VocabularyCheck)) :=
  match check_vocabulary s d with
  | inl _ | inr Present | inr (PresentButTooNew _) => None
  | inr c => Some (def_name d, (d, c))
  end.
Definition said_existed s d : option (Keyword * VocabularyOutcome) :=
  match check_vocabulary s d with inr Present => Some (def_name d, Existed) | _ => None end.

(** Carrying out the work for one definition, and for many in a row. *)
Definition do_work (p : Keyword * (VocDefinition * VocabularyCheck)) : vM VocabularyOutcome :=
  let '(_, (d, c)) := p in
  match c with
  | NotPresent => install_vocabulary d
  | PresentButNeedsUpdate v => upgrade_vocabulary d v
  | PresentButMissingAttributes a => install_attributes_for d a
  | Present | PresentButTooNew _ => vret Existed
  end.
Fixpoint carry_all (l : list (Keyword * (VocDefinition * VocabularyCheck))) (out : gmap Keyword VocabularyOutcome)
  : vM (gmap Keyword VocabularyOutcome) :=
  match l with
  | [] => vret out
  | p :: l => vthen (do_work p) (λ o, carry_all l (<[p.1 := o]> out))
  end.

(** Installing comes first, then upgrading, then completing. *)
Definition phase (c : VocabularyCheck) : Z :=
  match c with NotPresent => 0 | PresentButNeedsUpdate _ => 1 | PresentButMissingAttributes _ => 2 | _ => 3 end.
Definition in_phase (n : Z) (l : list (Keyword * (VocDefinition * VocabularyCheck))) : list (Keyword * (VocDefinition * VocabularyCheck)) :=
  filter (λ p, phase p.2.2 = n) l.
Definition in_phases l := in_phase 0 l ++ in_phase 1 l ++ in_phase 2 l.

Definition work_entry (p : Keyword * (VocDefinition * VocabularyCheck)) : Prop := p.1 = def_name p.2.1 ∧ phase p.2.2 ≠ 3.

Definition add_entries {A} (m : gmap Keyword A) (l : list (Keyword * A)) : gmap Keyword A := foldl (λ m p, <[p.1 := p.2]> m) m l.

Lemma sort_definitions_spec s l : ∀ x,
  sort_definitions l x s =
  match head (omap (refusal s) l) with
  | Some e => (s, inl e)
  | None => (s, inr (mkSorted (add_entries (so_out x) (omap (said_existed s) l)) (add_entries (so_work x) (omap (to_do s) l))))
  end.
Proof.
  induction l as [|d l IH]; intros x; [by destruct x|].
  cbn [sort_definitions omap list_omap]. unfold vthen, vread.
  unfold refusal at 1, said_existed at 1, to_do at 1. destruct (check_vocabulary s d) as [e|[| | | |] ]; try done; by rewrite IH.
Qed.

Lemma vthen_assoc {A B C} (c : vM A) (f : A → vM B) (g : B → vM C) s :
  vthen (vthen c f) g s = vthen c (λ a, vthen (f a) g) s.
Proof. unfold vthen. by destruct (c s) as [s1 [e|a] ]. Qed.
Lemma vthen_ext {A B} (c : vM A) (f g : A → vM B) s : (∀ a s, f a s = g a s) → vthen c f s = vthen c g s.
Proof. intros H. unfold vthen. destruct (c s) as [s1 [e|a] ]; [done|apply H]. Qed.
Lemma vret_then {A B} (a : A) (f : A → vM B) s : vthen (vret a) f s = f a s.
Proof. done. Qed.

Lemma carry_all_app l k out s : carry_all (l ++ k) out s = vthen (carry_all l out) (carry_all k) s.
Proof.
  revert out s. induction l as [|p l IH]; intros out s; [done|]. cbn [app carry_all].
  rewrite vthen_assoc. apply vthen_ext. intros o s'. apply IH.
Qed.

Lemma run_upgrades l : Forall work_entry l → ∀ out s,
  run_delayed upgrade_vocabulary (omap (λ p, match p.2.2 with PresentButNeedsUpdate v => Some (p.2.1, v) | _ => None end) l) out s
  = carry_all (in_phase 1 l) out s.
Proof.
  unfold in_phase. induction 1 as [|[n [d c] ] l [Hn _] _ IH]; intros out s; [done|].
  cbn in Hn. subst n. cbn [omap list_omap fst snd]. rewrite filter_cons. destruct c; cbn; try apply IH. apply vthen_ext. intros. apply IH.
Qed.
Lemma run_completions l : Forall work_entry l → ∀ out s,
  run_delayed install_attributes_for (omap (λ p, match p.2.2 with PresentButMissingAttributes a => Some (p.2.1, a) | _ => None end) l) out s
  = carry_all (in_phase 2 l) out s.
Proof.
  unfold in_phase. induction 1 as [|[n [d c] ] l [Hn _] _ IH]; intros out s; [done|].
  cbn in Hn. subst n. cbn [omap list_omap fst snd]. rewrite filter_cons. destruct c; cbn; try apply IH. apply vthen_ext. intros. apply IH.
Qed.

(** Installing what is absent, and putting off the rest. *)
Lemma install_absent_spec l : Forall work_entry l → ∀ x s,
  install_absent l x s = Ret (vthen (carry_all (in_phase 0 l) (de_out x)) (λ out, vret (mkDelayed out
    (de_update x ++ omap (λ p, match p.2.2 with PresentButNeedsUpdate v => Some (p.2.1, v) | _ => None end) l)
    (de_missing x ++ omap (λ p, match p.2.2 with PresentButMissingAttributes a => Some (p.2.1, a) | _ => None end) l))) s).
Proof.
  unfold in_phase. induction 1 as [|[n [d c] ] l [Hn Hc] _ IH]; intros x s.
  { cbn. rewrite !app_nil_r. by destruct x. }
  cbn in Hn, Hc. subst n. cbn [install_absent omap list_omap fst snd]. rewrite filter_cons. destruct c; cbn [fst snd phase] in *; try done.
  - rewrite decide_True by done. cbn [carry_all do_work]. rewrite vthen_assoc. unfold vthen at 1.
    destruct (install_vocabulary d s) as [s1 [e|o] ]; [done|]. rewrite IH. done.
  - rewrite decide_False by done. rewrite IH. cbn [de_out de_update de_missing]. by rewrite <- app_assoc.
  - rewrite decide_False by done. rewrite IH. cbn [de_out de_update de_missing]. by rewrite <- app_assoc.
Qed.

Lemma add_entries_Forall {A} (P : Keyword → A → Prop) l : ∀ m : gmap Keyword A,
  map_Forall P m → Forall (λ p, P p.1 p.2) l → map_Forall P (add_entries m l).
Proof.
  induction l as [|[k a] l IH]; intros m Hm Hl; cbn; [done|]. apply Forall_cons in Hl as [Ha Hl].
  apply IH; [|done]. apply map_Forall_insert_2; done.
Qed.
Lemma to_do_work_entry s l : Forall work_entry (omap (to_do s) l).
Proof.
  apply Forall_forall. intros p (d & _ & Hp)%list_elem_of_omap. unfold to_do in Hp.
  destruct (check_vocabulary s d) as [e|[| | | |] ]; try done; injection Hp as <-; split; done.
Qed.
Lemma name_entries_work s l : Forall work_entry (name_entries (add_entries ∅ (omap (to_do s) l))).
Proof.
  apply Forall_forall. intros [n [d c] ] Hp. unfold name_entries in Hp. rewrite merge_sort_Permutation in Hp.
  apply elem_of_map_to_list in Hp.
  assert (map_Forall (λ n p, work_entry (n, p)) (add_entries ∅ (omap (to_do s) l))) as H.
  { apply add_entries_Forall; [apply map_Forall_empty|]. eapply Forall_impl; [apply to_do_work_entry|]. by intros []. }
  by apply (H n (d, c)).
Qed.

Lemma vthen_run {A B} (c : vM A) (f : A → vM B) s :
  vthen c f s = match c s with (s, inr a) => f a s | (s, inl e) => (s, inl e) end.
Proof. done. Qed.

(** The loop and the two that follow it carry out the work in phases. *)
Lemma install_then_delayed l out s1 (g : vM unit) : Forall work_entry l →
  (install_absent l (mkDelayed out [] []) s1 ≫= λ '(s, r),
    match r with
    | inl e => Ret (s, inl e)
    | inr y => Ret (vthen (run_delayed upgrade_vocabulary (de_update y) (de_out y)) (λ out,
                 vthen (run_delayed install_attributes_for (de_missing y) out) (λ out, vthen g (λ _, vret out))) s)
    end) = Ret (vthen (carry_all (in_phases l) out) (λ out, vthen g (λ _, vret out)) s1).
Proof.
  intros Hl. rewrite install_absent_spec by exact Hl. cbn [de_out de_update de_missing app]. unfold in_phases.
  rewrite (vthen_run (carry_all (in_phase 0 l ++ _) _) _ s1), carry_all_app, !(vthen_run (carry_all (in_phase 0 l) _)).
  destruct (carry_all (in_phase 0 l) _ s1) as [s2 [e|out0] ]; [done|]. cbn [vret de_out de_update de_missing mbind outcome_bind].
  rewrite vthen_run, run_upgrades by exact Hl. rewrite carry_all_app, !(vthen_run (carry_all (in_phase 1 l) _)).
  destruct (carry_all (in_phase 1 l) out0 s2) as [s3 [e|out1] ]; [done|]. rewrite vthen_run, run_completions by exact Hl. done.
Qed.

(** What ensuring does, given the work and what is there already. *)
Lemma ensure_carry src s :
  head (omap (refusal s) (src_definitions src)) = None →
  add_entries ∅ (omap (to_do s) (src_definitions src)) ≠ ∅ →
  ensure_vocabularies src s = Ret (vthen (src_pre src (add_entries ∅ (omap (to_do s) (src_definitions src)))) (λ _,
    vthen (carry_all (in_phases (name_entries (add_entries ∅ (omap (to_do s) (src_definitions src)))))
            (add_entries ∅ (omap (said_existed s) (src_definitions src)))) (λ out,
    vthen (src_post src) (λ _, vret out))) s).
Proof.
  intros Hr Hw. unfold ensure_vocabularies. rewrite sort_definitions_spec, Hr. cbn [so_out so_work].
  rewrite bool_decide_eq_false_2 by done. rewrite (vthen_run (src_pre src _)). destruct (src_pre src _ s) as [s1 [e|[] ] ]; [done|].
  apply install_then_delayed, name_entries_work.
Qed.

(** C14. Ensuring the vocabularies of a source.  It always finishes, and never reaches the two
    arms that are marked unreachable.  All definitions are checked before anything is changed:
    the first one whose check fails, or that the store has in a newer version, is the result,
    with the store as it was.  When all are there, the result says so and neither hook is run.
    Otherwise the work (of two definitions with one name, the later one) is carried out between
    the hooks: by name, first what is absent is installed, then what is older upgraded, then
    what is incomplete completed; the first failure ends it, with what was done before kept. *)
Theorem ensure_refines src s :
  let work := add_entries ∅ (omap (to_do s) (src_definitions src)) in
  let existing := add_entries ∅ (omap (said_existed s) (src_definitions src)) in
  ensure_vocabularies src s =
  match head (omap (refusal s) (src_definitions src)) with
  | Some e => Ret (s, inl e)
  | None =>
      if bool_decide (work = ∅) then Ret (s, inr existing)
      else Ret (vthen (src_pre src work) (λ _, vthen (carry_all (in_phases (name_entries work)) existing) (λ out,
                vthen (src_post src) (λ _, vret out))) s)
  end.
Proof.
  cbv zeta. destruct (head _) as [e|] eqn:Hr.
  { unfold ensure_vocabularies. by rewrite sort_definitions_spec, Hr. }
  case_bool_decide as Hw; [|by apply ensure_carry].
  unfold ensure_vocabularies. rewrite sort_definitions_spec, Hr. cbn [so_out so_work]. by rewrite bool_decide_eq_true_2.
Qed.

(** ** What the result says *)

Definition outcome_of (c : VocabularyCheck) : VocabularyOutcome :=
  match c with
  | NotPresent => Installed
  | PresentButNeedsUpdate _ => Upgraded
  | PresentButMissingAttributes _ => InstalledMissingAttributes
  | Present | PresentButTooNew _ => Existed
  end.

Lemma vthen_inr {A B} (c : vM A) (f : A → vM B) s s' b :
  vthen c f s = (s', inr b) → ∃ s1 a, c s = (s1, inr a) ∧ f a s1 = (s', inr b).
Proof. unfold vthen. destruct (c s) as [s1 [e|a] ]; [done|]. intros H. by exists s1, a. Qed.

Lemma carry_out_outcome p s s' o : work_entry p → do_work p s = (s', inr o) → o = outcome_of p.2.2.
Proof.
  destruct p as [n [d c] ]. intros [_ Hc]. cbn in Hc. cbn [fst snd]. destruct c; cbn [do_work]; unfold upgrade_vocabulary, install_vocabulary, install_attributes_for; try done.
  - intros (s1 & t & _ & (s2 & u & _ & [= _ <-])%vthen_inr)%vthen_inr. done.
  - intros (s0 & u0 & _ & (s1 & t & _ & (s2 & u & _ & (s3 & u1 & _ & [= _ <-])%vthen_inr)%vthen_inr)%vthen_inr)%vthen_inr. done.
  - intros (s1 & t & _ & (s2 & u & _ & [= _ <-])%vthen_inr)%vthen_inr. done.
Qed.

Lemma carry_all_out l : Forall work_entry l → ∀ out s s' out', carry_all l out s = (s', inr out') →
  out' = add_entries out (map (λ p, (p.1, outcome_of p.2.2)) l).
Proof.
  induction 1 as [|p l Hp _ IH]; intros out s s' out'; [by intros [= _ <-]|].
  cbn [carry_all]. intros (s1 & o & H1 & H2)%vthen_inr. apply carry_out_outcome in H1 as ->; [|done]. by apply IH in H2.
Qed.

Lemma add_entries_cons {A} (m : gmap Keyword A) p l : add_entries m (p :: l) = add_entries (<[p.1 := p.2]> m) l.
Proof. done. Qed.
Lemma add_entries_other {A} l : ∀ (m : gmap Keyword A) k, k ∉ l.*1 → add_entries m l !! k = m !! k.
Proof.
  induction l as [|[n a] l IH]; intros m k Hk; [done|]. rewrite add_entries_cons. cbn in Hk |- *. apply not_elem_of_cons in Hk as [Hn Hk].
  rewrite IH by done. by rewrite lookup_insert_ne.
Qed.
Lemma add_entries_at {A} l : ∀ (m : gmap Keyword A) k a, NoDup l.*1 → (k, a) ∈ l → add_entries m l !! k = Some a.
Proof.
  induction l as [|[n b] l IH]; intros m k a Hl Hk; [by apply elem_of_nil in Hk|]. rewrite add_entries_cons. cbn in Hl |- *. apply NoDup_cons in Hl as [Hn Hl].
  apply elem_of_cons in Hk as [ [= -> ->]|Hk]; [|by apply IH].
  rewrite add_entries_other by done. by rewrite lookup_insert_eq.
Qed.

Section Outcomes.
Context (s : Store) (l : list VocDefinition) (Hl : NoDup (map def_name l)).

Lemma selected_name {A} (f : VocDefinition → option (Keyword * A)) (Hf : ∀ d p, f d = Some p → p.1 = def_name d) :
  ∀ l', NoDup (map def_name l') → NoDup (omap f l').*1 ∧ ∀ k, k ∈ (omap f l').*1 → k ∈ map def_name l'.
Proof.
  induction l' as [|d l' IH]; intros H; [by split|]. cbn in H. apply NoDup_cons in H as [Hd H]. destruct (IH H) as [H1 H2].
  cbn [omap list_omap map]. destruct (f d) as [p|] eqn:E.
  - rewrite fmap_cons. apply Hf in E. split.
    + apply NoDup_cons. split; [|done]. rewrite E. by intros ?%H2.
    + intros k [->|Hk]%elem_of_cons; [rewrite E; left|right; by apply H2].
  - split; [done|]. intros k Hk. right. by apply H2.
Qed.

Lemma to_do_name d p : to_do s d = Some p → p.1 = def_name d.
Proof. unfold to_do. destruct (check_vocabulary s d) as [e|[| | | |] ]; naive_solver. Qed.
Lemma said_existed_name d p : said_existed s d = Some p → p.1 = def_name d.
Proof. unfold said_existed. destruct (check_vocabulary s d) as [e|[| | | |] ]; naive_solver. Qed.

Lemma work_lookup d c : d ∈ l → to_do s d = Some (def_name d, (d, c)) →
  add_entries ∅ (omap (to_do s) l) !! def_name d = Some (d, c).
Proof.
  intros Hd Hc. apply add_entries_at; [by apply (selected_name (to_do s) to_do_name)|].
  apply list_elem_of_omap. by exists d.
Qed.
End Outcomes.

Lemma add_entries_inv {A} l : ∀ (m : gmap Keyword A) k a, add_entries m l !! k = Some a → (k, a) ∈ l ∨ m !! k = Some a.
Proof.
  induction l as [|[n b] l IH]; intros m k a H; [by right|]. rewrite add_entries_cons in H. apply IH in H as [H|H]; [left; by right|].
  apply lookup_insert_Some in H as [ [<- <-]|[_ H] ]; [left; left|by right].
Qed.

Lemma in_phases_perm l : Forall work_entry l → in_phases l ≡ₚ l.
Proof.
  unfold in_phases, in_phase. induction 1 as [|[n [d c] ] l [_ Hc] _ IH]; [done|]. cbn in Hc. rewrite !filter_cons.
  destruct c; cbn [fst snd phase]; repeat (first [rewrite decide_True by done|rewrite decide_False by done]); cbn [app]; try done.
  - by rewrite IH.
  - rewrite <- Permutation_middle. by rewrite IH.
  - rewrite app_assoc, <- Permutation_middle, <- app_assoc. by rewrite IH.
Qed.

Lemma entries_perm {A} (m : gmap Keyword A) : name_entries m ≡ₚ map_to_list m.
Proof. apply merge_sort_Permutation. Qed.

(** The outcomes that carrying out the work adds. *)
Lemma carried_lookup s l (ex : gmap Keyword VocabularyOutcome) k :
  let work := add_entries ∅ (omap (to_do s) l) in
  add_entries ex (map (λ p, (p.1, outcome_of p.2.2)) (in_phases (name_entries work))) !! k =
  match work !! k with Some p => Some (outcome_of p.2) | None => ex !! k end.
Proof.
  intros work. set (es := in_phases (name_entries work)).
  assert (es ≡ₚ map_to_list work) as Hp by (unfold es; rewrite in_phases_perm by apply name_entries_work; apply entries_perm).
  assert ((map (λ p : Keyword * (VocDefinition * VocabularyCheck), (p.1, outcome_of p.2.2)) es).*1 = es.*1) as Hk
    by (by rewrite map_map).
  destruct (work !! k) as [ [d c]|] eqn:E.
  - apply add_entries_at.
    + rewrite Hk, Hp. apply NoDup_fst_map_to_list.
    + apply list_elem_of_fmap. exists (k, (d, c)). split; [done|]. rewrite Hp. by apply elem_of_map_to_list.
  - apply add_entries_other. rewrite Hk. intros ([k' p] & -> & H)%list_elem_of_fmap. rewrite Hp in H.
    apply elem_of_map_to_list in H. cbn in E. congruence.
Qed.

Lemma no_refusal s l d : head (omap (refusal s) l) = None → d ∈ l →
  ∃ c, check_vocabulary s d = inr c ∧ (c = Present ∨ (phase c ≠ 3 ∧ to_do s d = Some (def_name d, (d, c)))).
Proof.
  intros H Hd. assert (refusal s d = None) as Hr.
  { induction Hd as [d l|d d' l Hd IH]; cbn [omap list_omap] in H; [by destruct (refusal s d)|]. destruct (refusal s d'); [done|by apply IH]. }
  unfold refusal in Hr. unfold to_do. destruct (check_vocabulary s d) as [e|c]; [done|]. exists c. split; [done|].
  destruct c; try done; [right|left|right|right]; done.
Qed.

Lemma existed_lookup s l d : NoDup (map def_name l) → d ∈ l → check_vocabulary s d = inr Present →
  add_entries ∅ (omap (said_existed s) l) !! def_name d = Some Existed ∧ add_entries ∅ (omap (to_do s) l) !! def_name d = None.
Proof.
  intros Hl Hd Hc. split.
  - apply add_entries_at; [by apply (selected_name (said_existed s) (said_existed_name s))|].
    apply list_elem_of_omap. exists d. split; [done|]. unfold said_existed. by rewrite Hc.
  - destruct (_ !! _) as [p|] eqn:E; [|done]. apply add_entries_inv in E as [E|E]; [|done].
    apply list_elem_of_omap in E as (d' & Hd' & E). assert (def_name d = def_name d') as Hn by by apply to_do_name in E.
    assert (d = d') as <-. { clear -Hl Hd Hd' Hn. induction Hd as [d l|d d1 l Hd IH]; cbn in Hl; apply NoDup_cons in Hl as [H1 H2].
      - apply elem_of_cons in Hd' as [->|Hd']; [done|]. destruct H1. rewrite Hn. by apply (list_elem_of_fmap_2 def_name).
      - apply elem_of_cons in Hd' as [->|Hd']; [|by apply IH]. destruct H1. rewrite <- Hn. by apply (list_elem_of_fmap_2 def_name). }
    unfold to_do in E. by rewrite Hc in E.
Qed.

Lemma said_in s l k (o : VocabularyOutcome) : add_entries ∅ (omap (said_existed s) l) !! k = Some o → k ∈ map def_name l.
Proof.
  intros H. apply add_entries_inv in H as [H|H]; [|done]. apply list_elem_of_omap in H as (d & Hd & H).
  apply said_existed_name in H. cbn in H. subst k. by apply (list_elem_of_fmap_2 def_name).
Qed.
Lemma work_in s l k p : add_entries ∅ (omap (to_do s) l) !! k = Some p → k ∈ map def_name l.
Proof.
  intros H. apply add_entries_inv in H as [H|H]; [|done]. apply list_elem_of_omap in H as (d & Hd & H).
  apply to_do_name in H. cbn in H. subst k. by apply (list_elem_of_fmap_2 def_name).
Qed.

(** The result of ensuring the definitions of a source, which have different names: exactly
    their names, each with the outcome that its check in the store at the start gives - whatever
    the hooks and the work on the other definitions did in between. *)
Theorem outcomes_follow_checks src s s' out :
  NoDup (map def_name (src_definitions src)) →
  ensure_vocabularies src s = Ret (s', inr out) →
  (∀ d, d ∈ src_definitions src → ∃ c, check_vocabulary s d = inr c ∧ out !! def_name d = Some (outcome_of c))
  ∧ (∀ k, is_Some (out !! k) → k ∈ map def_name (src_definitions src)).
Proof.
  set (l := src_definitions src). intros Hl H.
  assert (head (omap (refusal s) l) = None ∧ out = add_entries (add_entries ∅ (omap (said_existed s) l))
    (map (λ p, (p.1, outcome_of p.2.2)) (in_phases (name_entries (add_entries ∅ (omap (to_do s) l)))))) as [Hr ->].
  { destruct (head (omap (refusal s) l)) as [e|] eqn:Hr.
    { unfold ensure_vocabularies in H. fold l in H. by rewrite sort_definitions_spec, Hr in H. }
    split; [done|]. destruct (decide (add_entries ∅ (omap (to_do s) l) = ∅)) as [Hw|Hw].
    - unfold ensure_vocabularies in H. fold l in H. rewrite sort_definitions_spec, Hr in H. cbn [so_out so_work] in H.
      rewrite bool_decide_eq_true_2 in H by done. rewrite Hw. cbn. injection H as _ <-. done.
    - rewrite ensure_carry in H by done. injection H as H. fold l in H.
      apply vthen_inr in H as (s1 & u & _ & (s2 & o & H & (s3 & u1 & _ & [= _ <-])%vthen_inr)%vthen_inr).
      apply carry_all_out in H; [done|]. rewrite in_phases_perm; apply name_entries_work. }
  split.
  - intros d Hd. destruct (no_refusal s l d Hr Hd) as (c & Hc & Hcase). exists c. split; [done|]. rewrite carried_lookup.
    destruct Hcase as [->|[_ Hw] ].
    + destruct (existed_lookup s l d Hl Hd Hc) as [-> ->]. done.
    + by rewrite (work_lookup s l Hl d c Hd Hw).
  - intros k [o Ho]. rewrite carried_lookup in Ho. destruct (_ !! k) as [p|] eqn:E; [by eapply work_in|by eapply said_in].
Qed.

(** ** What a description says *)

Inductive Fact := Says (retracted : bool) (t : TempId) (a : Z) (p : Place TempId).

(** The builder of terms: it collects what it is told, in order, and an entity that is named
    twice is the same. *)
Class BuilderLaws := {
  said : Builder → list Fact;
  terms_said : Terms → list Fact;
  tempid_of : list Z → TempId;
  said_new : said builder_new = [];
  named_tempid_spec b n : said (named_tempid b n).1 = said b ∧ (named_tempid b n).2 = tempid_of n;
  builder_add_said b t a p b' : builder_add b t a p = inr b' → said b' = said b ++ [Says false t a p];
  builder_retract_said b t a p b' : builder_retract b t a p = inr b' → said b' = said b ++ [Says true t a p];
  builder_build_said b u : builder_build b = inr u → terms_said u = said b;
}.

Section Description.
Context {BL : BuilderLaws}.

Definition unique_facts (c : CoreIds) (old : option Attribute) (a : Attribute) (t : TempId) : list Fact :=
  let causetid u := match u with Unique_Idcauset => v_unique_idcauset c | Unique_Value => v_unique_value c end in
  match at_unique a, old ≫= at_unique with
  | Some u, _ => [Says false t (a_unique c) (P_causetid (causetid u))]
  | None, Some u => [Says true t (a_unique c) (P_causetid (causetid u))]
  | None, None => []
  end.

(** What is said of an attribute whose type is [ty], that was [old]. *)
Definition attribute_facts (c : CoreIds) (ty : Z) (old : option Attribute) (r : Keyword * Attribute) : list Fact :=
  let t := tempid_of (keyword_to_string r.1) in
  let a := r.2 in
  [ Says false t (a_solitonid c) (P_value (TV_Keyword r.1)); Says false (tempid_of (text "s")) (a_attr c) (P_tempid t);
    Says false t (a_value_type c) (P_causetid ty);
    Says false t (a_cardinality c) (P_causetid (if at_multival a then v_cardinality_many c else v_cardinality_one c));
    Says false t (a_index c) (P_value (TV_Boolean (at_index a))); Says false t (a_fulltext c) (P_value (TV_Boolean (at_fulltext a)));
    Says false t (a_is_component c) (P_value (TV_Boolean (at_component a)));
    Says false t (a_no_history c) (P_value (TV_Boolean (at_no_history a))) ] ++ unique_facts c old a t.

Definition header_facts (d : VocDefinition) (c : CoreIds) : list Fact :=
  [ Says false (tempid_of (text "s")) (a_version c) (P_value (TV_Long (as_i64 (def_version d))));
    Says false (tempid_of (text "s")) (a_solitonid c) (P_value (TV_Keyword (def_name d))) ].

(** Some attribute or value of the core schema, or the type of one of the attributes, is not known. *)
Definition lacks_core s (l : list (Keyword * Attribute)) : Prop :=
  (∃ e, core_ids s = inl e) ∨ ∃ p, p ∈ l ∧ causetid_for_type s (at_value_type p.2) = None.

Lemma vbind_inr {E A B} (x : E + A) (f : A → E + B) b : vbind x f = inr b → ∃ a, x = inr a ∧ f a = inr b.
Proof. destruct x as [e|a]; [done|]. by exists a. Qed.
Lemma other_inr {A} (x : StoreError + A) a : other x = inr a → x = inr a.
Proof. destruct x; [done|]. by intros [= ->]. Qed.

Lemma describe_unique_said c diff name a b t b' :
  describe_unique c diff name a b t = inr b' → said b' = said b ++ unique_facts c (diff !! name) a t.
Proof.
  unfold describe_unique, unique_facts. destruct (at_unique a) as [u|].
  - by intros ?%other_inr%builder_add_said.
  - destruct (diff !! name ≫= at_unique) as [u|]; [by intros ?%other_inr%builder_retract_said|].
    intros [= <-]. by rewrite app_nil_r.
Qed.

Lemma describe_attribute_said s c diff b r b' :
  describe_attribute s c (tempid_of (text "s")) diff b r = inr b' →
  ∃ ty, causetid_for_type s (at_value_type r.2) = Some ty ∧ said b' = said b ++ attribute_facts c ty (diff !! r.1) r.
Proof.
  destruct r as [name a]. unfold describe_attribute. pose proof (named_tempid_spec b (keyword_to_string name)) as Hn.
  destruct (named_tempid b _) as [b0 t]. cbn [fst snd] in *. destruct Hn as [H0 ->].
  intros (b1 & H1%other_inr%builder_add_said & H)%vbind_inr. apply vbind_inr in H as (b2 & H2%other_inr%builder_add_said & H).
  apply vbind_inr in H as (ty & Hty & H). apply vbind_inr in H as (b3 & H3%other_inr%builder_add_said & H).
  apply vbind_inr in H as (b4 & H4%other_inr%builder_add_said & H). apply vbind_inr in H as (b5 & H5%other_inr%builder_add_said & H).
  apply vbind_inr in H as (b6 & H6%other_inr%builder_add_said & H). apply vbind_inr in H as (b7 & H7%other_inr%builder_add_said & H).
  apply vbind_inr in H as (b8 & H8%other_inr%builder_add_said & H). apply describe_unique_said in H.
  exists ty. split. { unfold core_type, ok_or_missing in Hty. by destruct (causetid_for_type _ _); [injection Hty as ->|]. }
  rewrite H, H8, H7, H6, H5, H4, H3, H2, H1, H0. unfold attribute_facts. cbn [fst snd]. by rewrite <- !app_assoc.
Qed.

Lemma describe_all_said s c diff l : ∀ b b',
  foldE (describe_attribute s c (tempid_of (text "s")) diff) b l = inr b' →
  ∃ tys, Forall2 (λ r ty, causetid_for_type s (at_value_type r.2) = Some ty) l tys ∧
  said b' = said b ++ concat (zip_with (λ r ty, attribute_facts c ty (diff !! r.1) r) l tys).
Proof.
  induction l as [|r l IH]; intros b b' H; cbn [foldE] in H.
  { injection H as <-. exists []. split; [done|]. by rewrite app_nil_r. }
  destruct (describe_attribute _ _ _ _ b r) as [e|b1] eqn:E; [done|]. apply describe_attribute_said in E as (ty & Hty & H1).
  apply IH in H as (tys & Htys & H). exists (ty :: tys). split; [by constructor|]. rewrite H, H1. cbn [zip_with concat]. by rewrite <- app_assoc.
Qed.

Lemma description_said d l s diff u :
  description_for_attributes d l s diff = inr u →
  ∃ c tys, core_ids s = inr c ∧ Forall2 (λ r ty, causetid_for_type s (at_value_type r.2) = Some ty) l tys ∧
  terms_said u = header_facts d c ++ concat (zip_with (λ r ty, attribute_facts c ty (diff !! r.1) r) l tys).
Proof.
  unfold description_for_attributes. intros (c & Hc & H)%vbind_inr. pose proof (named_tempid_spec builder_new (text "s")) as Hn.
  destruct (named_tempid _ _) as [b0 t]. cbn [fst snd] in Hn. destruct Hn as [H0 ->]. rewrite said_new in H0.
  apply vbind_inr in H as (b1 & H1%other_inr%builder_add_said & H). apply vbind_inr in H as (b2 & H2%other_inr%builder_add_said & H).
  apply vbind_inr in H as (b3 & H3 & H). apply describe_all_said in H3 as (tys & Htys & H3).
  apply other_inr, builder_build_said in H. exists c, tys. split; [done|]. split; [done|].
  rewrite H, H3, H2, H1, H0. unfold header_facts. by rewrite <- !app_assoc.
Qed.

(** Only the core schema and the builder make a description fail. *)
Lemma describe_attribute_error s c t diff b r e :
  describe_attribute s c t diff b r = inl e →
  (e = MissingCoreVocabulary DB_SCHEMA_VERSION ∧ causetid_for_type s (at_value_type r.2) = None) ∨ ∃ e', e = OtherError e'.
Proof.
  destruct r as [name a]. unfold describe_attribute, describe_unique, core_type, ok_or_missing. cbn [snd].
  destruct (named_tempid b _) as [b0 t0].
  assert (∀ (x : StoreError + Builder) e, other x = inl e → ∃ e', e = OtherError e') as Ho by (intros [] ? [= <-]; by eexists).
  repeat match goal with
  | |- vbind (other ?x) _ = inl e → _ => destruct x eqn:?; cbn [other vbind]; [intros [= <-]; right; by eexists|]
  | |- vbind (match ?x with Some _ => _ | None => _ end) _ = _ → _ => destruct x eqn:?; cbn [vbind]; [|intros [= <-]; by left]
  end.
  destruct (at_unique a); [intros ?%Ho; by right|]. destruct (diff !! name ≫= at_unique); [intros ?%Ho; by right|done].
Qed.

Lemma core_ids_error s e : core_ids s = inl e → e = MissingCoreVocabulary DB_SCHEMA_VERSION.
Proof.
  unfold core_ids, core_attribute, core_causetid, ok_or_missing.
  repeat match goal with
  | |- vbind (match ?x with Some _ => _ | None => _ end) _ = _ → _ => destruct x; cbn [vbind]; [|by intros [= <-] ]
  end. done.
Qed.

Lemma description_error d l s diff e :
  description_for_attributes d l s diff = inl e →
  (e = MissingCoreVocabulary DB_SCHEMA_VERSION ∧ lacks_core s l) ∨ ∃ e', e = OtherError e'.
Proof.
  unfold description_for_attributes. destruct (core_ids s) as [e0|c] eqn:Hc; cbn [vbind].
  { intros [= <-]. left. split; [by eapply core_ids_error|]. left. by eexists. }
  destruct (named_tempid _ _) as [b0 t].
  destruct (builder_add b0 _ _ _) as [e1|b1]; cbn [other vbind]; [intros [= <-]; right; by eexists|].
  destruct (builder_add b1 _ _ _) as [e1|b2]; cbn [other vbind]; [intros [= <-]; right; by eexists|].
  destruct (foldE _ b2 l) as [e1|b3] eqn:E; cbn [vbind].
  - intros [= <-]. clear Hc. assert ((e1 = MissingCoreVocabulary DB_SCHEMA_VERSION ∧ ∃ p, p ∈ l ∧ causetid_for_type s (at_value_type p.2) = None)
      ∨ ∃ e', e1 = OtherError e') as H.
    { revert b2 E. induction l as [|r l IH]; intros b2 E; cbn [foldE] in E; [done|].
      destruct (describe_attribute _ _ _ _ b2 r) as [e2|b4] eqn:E2.
      - injection E as <-. apply describe_attribute_error in E2 as [ [-> H]|H]; [left|by right]. split; [done|]. exists r. split; [left|done].
      - apply IH in E as [ [-> (p & Hp & H)]|H]; [left|by right]. split; [done|]. exists p. split; [by right|done]. }
    destruct H as [ [-> H]|H]; [left|by right]. split; [done|by right].
  - destruct (builder_build b3) as [e1|u]; [|done]. intros [= <-]. right. by eexists.
Qed.

Lemma of_entries_spec {A} (f : Keyword → option A) (l : list Keyword) k :
  (of_entries (omap (λ n, (λ a, (n, a)) <$> f n) l) : gmap Keyword A) !! k = if bool_decide (k ∈ l) then f k else None.
Proof.
  unfold of_entries. assert (∀ m : gmap Keyword A, (∀ k a, m !! k = Some a → f k = Some a) →
    foldl (λ m p, <[p.1 := p.2]> m) m (omap (λ n, (λ a, (n, a)) <$> f n) l) !! k = if bool_decide (k ∈ l) then f k else m !! k) as H.
  { induction l as [|n l IH]; intros m Hm; [done|]. cbn [omap list_omap]. destruct (f n) as [a|] eqn:E; cbn [fmap option_fmap option_map foldl fst snd].
    - rewrite IH.
      + destruct (decide (k ∈ l)) as [Hk|Hk].
        * rewrite !bool_decide_eq_true_2; [done|by right|done].
        * rewrite (bool_decide_eq_false_2 (k ∈ l)) by done. destruct (decide (k = n)) as [->|Hn].
          -- rewrite bool_decide_eq_true_2 by left. by rewrite lookup_insert_eq.
          -- rewrite bool_decide_eq_false_2 by (by intros [?|?]%elem_of_cons). by rewrite lookup_insert_ne.
      + intros k' a' H. apply lookup_insert_Some in H as [ [<- <-]|[_ H] ]; [done|by apply Hm].
    - rewrite IH by done. destruct (decide (k ∈ l)) as [Hk|Hk].
      * rewrite !bool_decide_eq_true_2; [done|by right|done].
      * rewrite (bool_decide_eq_false_2 (k ∈ l)) by done. destruct (decide (k = n)) as [->|Hn].
        -- rewrite bool_decide_eq_true_2 by left. rewrite E. destruct (m !! n) eqn:Em; [|done]. apply Hm in Em. congruence.
        -- by rewrite bool_decide_eq_false_2 by (by intros [?|?]%elem_of_cons). }
  apply H. intros k' a. by rewrite lookup_empty.
Qed.

Lemma lookup_relevant d s from n :
  n ∈ map fst (def_attributes d) → relevant d s from !! n = get_causetid s n ≫= voc_find from.
Proof.
  intros Hn. unfold relevant.
  replace (omap _ (def_attributes d)) with (omap (λ k, (λ a, (k, a)) <$> (get_causetid s k ≫= voc_find from)) (map fst (def_attributes d))).
  - rewrite of_entries_spec. by rewrite bool_decide_eq_true_2.
  - generalize (def_attributes d). induction l as [|p l IH]; [done|]. cbn [map omap list_omap]. by rewrite IH.
Qed.

Lemma zip_with_at {A B C} (f g : A → B → C) l : ∀ k, (∀ x y, x ∈ l → f x y = g x y) → zip_with f l k = zip_with g l k.
Proof.
  induction l as [|x l IH]; intros [|y k] H; [done..|]. cbn [zip_with]. rewrite H by left. f_equal. apply IH. intros. apply H. by right.
Qed.

Definition described s d (l : list (Keyword * Attribute)) (old : Keyword * Attribute → option Attribute) (u : Terms) : Prop :=
  ∃ c tys, core_ids s = inr c ∧ Forall2 (λ r ty, causetid_for_type s (at_value_type r.2) = Some ty) l tys ∧
  terms_said u = header_facts d c ++ concat (zip_with (λ r ty, attribute_facts c ty (old r) r) l tys).

(** C28. What a description says: the version and the name of the vocabulary, then of each attribute,
    in order, its name, that it belongs to the vocabulary, its type, cardinality and flags, and its
    uniqueness.  For an attribute that is not unique, uniqueness is retracted exactly when what
    the vocabulary is upgraded from has the attribute, under the same id, as unique; installing
    retracts nothing.  A description fails only for what the core schema lacks, whatever it is
    blaming the same name, or for an error of the builder. *)
Theorem description_exact s d from :
  match description_diff d s from with
  | inr u => described s d (def_attributes d) (current s from) u
  | inl (MissingCoreVocabulary n) => n = DB_SCHEMA_VERSION ∧ lacks_core s (def_attributes d)
  | inl (OtherError _) => True
  | inl _ => False
  end
  ∧ ∀ l, match description_for_attributes d l s ∅ with
    | inr u => described s d l (λ _, None) u
    | inl (MissingCoreVocabulary n) => n = DB_SCHEMA_VERSION ∧ lacks_core s l
    | inl (OtherError _) => True
    | inl _ => False
    end.
Proof.
  split; [|intros l].
  - unfold description_diff. destruct (description_for_attributes _ _ _ _) as [e|u] eqn:E.
    + apply description_error in E as [ [-> H]|[e' ->] ]; [by split|done].
    + apply description_said in E as (c & tys & Hc & Ht & Hs). exists c, tys. split_and!; [done..|]. rewrite Hs. do 2 f_equal.
      apply zip_with_at. intros r ty Hr. f_equal. apply lookup_relevant. by apply (list_elem_of_fmap_2 fst).
  - destruct (description_for_attributes _ _ _ _) as [e|u] eqn:E.
    + apply description_error in E as [ [-> H]|[e' ->] ]; [by split|done].
    + apply description_said in E as (c & tys & Hc & Ht & Hs). exists c, tys. split_and!; [done..|]. rewrite Hs. do 2 f_equal.
Qed.
End Description.

(** ** The names of the core schema *)

(** The names of this module, and those that a new store knows ([Bootstrap.solitonids]). *)
Definition vocabulary_names : list (string * string) := [
  ("einsteindb.schema", "core"); ("einsteindb.schema", "attribute"); ("einsteindb.schema", "version"); ("einsteindb", "solitonid");
  ("einsteindb", "unique"); ("einsteindb.unique", "causet_locale"); ("einsteindb.unique", "idcauset"); ("einsteindb", "isComponent");
  ("einsteindb", "causet_localeType"); ("einsteindb", "index"); ("einsteindb", "fulltext"); ("einsteindb", "cardinality");
  ("einsteindb.cardinality", "one"); ("einsteindb.cardinality", "many"); ("einsteindb", "noHistory")]%string.
Definition bootstrapped s : Prop :=
  Forall (λ p, is_Some (get_causetid s (named p.1 p.2)) → p ∈ map fst solitonids) vocabulary_names.

(** A store that knows no more of the names of this module than bootstrap gives it: the core
    schema is reported as absent, and no vocabulary can be installed; the store stays as it is. *)
Theorem core_names_missing s d :
  bootstrapped s →
  (∀ k a e, attribute_for_solitonid s k = Some (a, e) → get_causetid s k = Some e) →
  verify_core_schema s = inl (UnexpectedCoreSchema CORE_SCHEMA_VERSION None)
  ∧ install_vocabulary d s = (s, inl (MissingCoreVocabulary DB_SCHEMA_VERSION)).
Proof.
  intros Hs Ha. assert (∀ n, ("einsteindb.schema"%string, n) ∈ vocabulary_names → get_causetid s (named "einsteindb.schema" n) = None) as Hn.
  { intros n Hn. destruct (get_causetid _ _) eqn:E; [|done]. unfold bootstrapped in Hs. rewrite Forall_forall in Hs.
    specialize (Hs _ Hn). cbn [fst snd] in Hs. rewrite E in Hs. specialize (Hs ltac:(done)).
    exfalso. revert Hs. clear. intros ([ [ns n'] e] & H & Hin)%list_elem_of_fmap. cbn in H. injection H as <- <-.
    repeat (apply elem_of_cons in Hin as [ [=]|Hin]). by apply elem_of_nil in Hin. }
  split.
  - unfold verify_core_schema, read_vocabulary_named, DB_SCHEMA_CORE. rewrite Hn; [done|]. left.
  - unfold install_vocabulary, vthen, vread, description, description_for_attributes, core_ids, core_attribute at 1.
    destruct (attribute_for_solitonid s DB_SCHEMA_VERSION) as [ [a e]|] eqn:E; [|done].
    apply Ha in E. unfold DB_SCHEMA_VERSION in E. rewrite Hn in E; [done|]. do 2 right. left.
Qed.
End Laws.

(** ** A store *)

(** Names with their ids, attributes by id, and for each vocabulary its version and attributes;
    transacting keeps a log of what was said. *)
Record SampleStore := mkSampleStore {
  ss_names : list (Keyword * Z); ss_attributes : gmap Z Attribute; ss_vocabularies : gmap Z (Z * list Z);
  ss_log : list (bool * list Z * Z * Place (list Z));
}.
Definition id_of (l : list (Keyword * Z)) (k : Keyword) : option Z := snd <$> find (λ p, bool_decide (p.1 = k)) l.
Definition name_of (l : list (Keyword * Z)) (e : Z) : option Keyword := fst <$> find (λ p, p.2 =? e) l.

#[export] Instance sample_store : VocabularyStore := {|
  Store := SampleStore;
  StoreError := unit;
  Vocab.kw := QuerySample.kw;
  keyword_to_string := keyword_display;
  get_causetid := λ s, id_of (ss_names s);
  get_solitonid := λ s, name_of (ss_names s);
  attribute_for_causetid := λ s e, ss_attributes s !! e;
  attribute_for_solitonid := λ s k, e ← id_of (ss_names s) k; (λ a, (a, e)) <$> ss_attributes s !! e;
  causetid_for_type := λ s t, match t with VT_Ref => Some 23 | VT_Long => Some 25 | VT_String => Some 27 | _ => None end;
  lookup_causet_locale_for_attribute := λ s e _, inr ((λ p, TV_Long p.1) <$> ss_vocabularies s !! e);
  lookup_causet_locales_for_attribute := λ s e _, inr (map TV_Ref (default [] (snd <$> ss_vocabularies s !! e)));
  q_versions := λ s, inr (map (λ p, (Scalar (TV_Ref p.1), Scalar (TV_Long p.2.1))) (map_to_list (ss_vocabularies s)));
  q_attributes := λ s, inr (concat (map (λ p, map (λ a, (Scalar (TV_Ref p.1), Scalar (TV_Ref a))) p.2.2) (map_to_list (ss_vocabularies s))));
  Builder := list (bool * list Z * Z * Place (list Z));
  TempId := list Z;
  Terms := list (bool * list Z * Z * Place (list Z));
  builder_new := [];
  named_tempid := λ b n, (b, n);
  builder_add := λ b t a p, inr (b ++ [(false, t, a, p)]);
  builder_retract := λ b t a p, inr (b ++ [(true, t, a, p)]);
  builder_build := λ b, inr b;
  transact_causets := λ s u, (mkSampleStore (ss_names s) (ss_attributes s) (ss_vocabularies s) (ss_log s ++ u), inr tt);
|}.

#[export] Instance sample_builder_laws : BuilderLaws.
Proof.
  refine {| said := map (λ '(r, t, a, p), Says r t a p); terms_said := map (λ '(r, t, a, p), Says r t a p); tempid_of := λ n, n |}.
  - done.
  - done.
  - intros b t a p b' [= <-]. by rewrite map_app.
  - intros b t a p b' [= <-]. by rewrite map_app.
  - by intros b u [= <-].
Defined.

(** A store with the names of this module, and one with those of bootstrap. *)
Definition flag (u : option Unique) : Attribute := mkAttribute false VT_Long false u false false false.
Definition core_names : list (Keyword * Z) := zip (map (λ p, named p.1 p.2) vocabulary_names) (map Z.of_nat (seq 1 15)).
Definition core_store : SampleStore := mkSampleStore
  (core_names ++ [(named "a" "v", 100); (named "a" "x", 101); (named "b" "v", 102); (named "b" "y", 103)])
  (list_to_map (map (λ p, (p.2, flag None)) core_names ++ [(101, flag (Some Unique_Value)); (103, flag None)]))
  {[ 100 := (1, [101]); 102 := (1, [103]) ]} [].
Definition new_store : SampleStore := mkSampleStore (map (λ '(ns, n, e), (named ns n, e)) solitonids)
  (list_to_map (map (λ p, (p.2, flag None)) solitonids)) ∅ [].

(** One vocabulary that is there, one that is older, one that lacks an attribute, one that is new. *)
Definition sample_a (v : Z) (u : option Unique) : VocDefinition := Definition_new (named "a" "v") v [(named "a" "x", flag u)].
Definition sample_b (l : list (Keyword * Attribute)) : VocDefinition := Definition_new (named "b" "v") 1 ((named "b" "y", flag None) :: l).
Definition sample_c : VocDefinition := Definition_new (named "c" "v") 1 [(named "c" "z", flag None)].

Example check_tests :
  match check_vocabulary core_store (sample_a 1 (Some Unique_Value)) with inr Present => true | _ => false end = true
  ∧ match check_vocabulary core_store (sample_a 2 None) with
    | inr (PresentButNeedsUpdate v) => voc_causet v = 100 ∧ voc_version v = 1 ∧ voc_find v 101 = Some (flag (Some Unique_Value)) | _ => False end
  ∧ match check_vocabulary core_store (sample_b [(named "b" "z", flag None)]) with
    | inr (PresentButMissingAttributes l) => map snd l = [flag None] | _ => False end
  ∧ match check_vocabulary core_store sample_c with inr NotPresent => true | _ => false end = true
  ∧ match check_vocabulary core_store (sample_a 1 None) with
    | inl (ConflictingAttributeDefinitions _ 1 _ old new) => at_unique old = Some Unique_Value ∧ at_unique new = None | _ => False end.
Proof. split_and!; vm_compute; done. Qed.

Definition sample_source : VocabularySource := with_definitions [sample_a 2 None; sample_b [(named "b" "z", flag None)]; sample_c].

(** The new vocabulary comes first, then the upgrade, which retracts the uniqueness (14 is the id of
    unique values), then the completion. *)
Example ensure_test :
  match ensure_vocabularies sample_source core_store with
  | Ret (s, inr out) =>
      out !! named "a" "v" = Some Upgraded ∧ out !! named "b" "v" = Some InstalledMissingAttributes ∧ out !! named "c" "v" = Some Installed
      ∧ map (λ '(r, t, a, p), match p with P_value (TV_Keyword k) => keyword_name k | _ => [] end)
          (filter (λ '(r, t, a, p), a = 4 ∨ r = true) (ss_log s))
        = [text "v"; text "z"; text "v"; text "x"; []; text "v"; text "z"]
  | _ => False
  end.
Proof. vm_compute. repeat split. Qed.

Definition finished (r : outcome (SampleStore * (VocabularyError + gmap Keyword VocabularyOutcome))) : option (SampleStore * gmap Keyword VocabularyOutcome) :=
  match r with Ret (s, inr out) => Some (s, out) | _ => None end.
Definition ensured : SampleStore * gmap Keyword VocabularyOutcome :=
  default (core_store, ∅) (finished (ensure_vocabularies sample_source core_store)).
Lemma finished_Ret r x : (if finished r then true else false) = true → r = Ret ((default x (finished r)).1, inr (default x (finished r)).2).
Proof. by destruct r as [ [s [e|out] ]|]. Qed.

Lemma outcomes_follow_checks_witness :
  NoDup (map def_name (src_definitions sample_source)) ∧ ensure_vocabularies sample_source core_store = Ret (ensured.1, inr ensured.2)
  ∧ ∀ d, d ∈ src_definitions sample_source → ∃ c, check_vocabulary core_store d = inr c ∧ ensured.2 !! def_name d = Some (outcome_of c).
Proof.
  assert (NoDup (map def_name (src_definitions sample_source))) as Hn by (apply (bool_decide_unpack _); by vm_compute).
  assert (ensure_vocabularies sample_source core_store = Ret (ensured.1, inr ensured.2)) as He
    by (apply finished_Ret; vm_compute; reflexivity).
  split; [done|]. split; [done|]. by apply (outcomes_follow_checks sample_source core_store ensured.1 ensured.2 Hn He).
Defined.

Lemma bootstrapped_bool s :
  forallb (λ p, negb (if get_causetid s (named p.1 p.2) then true else false) || bool_decide (p ∈ map fst solitonids)) vocabulary_names = true →
  bootstrapped s.
Proof.
  intros H. apply Forall_forall. intros p Hp [e He]. apply list_elem_of_In in Hp. eapply forallb_forall in H; [|done].
  rewrite He in H. cbn in H. by apply bool_decide_eq_true in H.
Qed.

Lemma core_names_missing_witness : bootstrapped new_store
  ∧ verify_core_schema new_store = inl (UnexpectedCoreSchema CORE_SCHEMA_VERSION None)
  ∧ install_vocabulary sample_c new_store = (new_store, inl (MissingCoreVocabulary DB_SCHEMA_VERSION)).
Proof.
  assert (bootstrapped new_store) as H by (apply bootstrapped_bool; vm_compute; reflexivity).
  split; [done|]. apply (core_names_missing (VS := sample_store) new_store sample_c H).
  intros k a e. cbn [attribute_for_solitonid get_causetid sample_store]. destruct (id_of _ k) as [i|]; [|done]. cbn [mbind option_bind].
  destruct (ss_attributes new_store !! i); [|done]. by intros [= _ <-].
Defined.

Lemma sum_right {E A} (r : E + A) (P : E → Prop) (Q : A → Prop) :
  match r with inl e => P e | inr a => Q a end → (if r then true else false) = false → match r with inl _ => False | inr a => Q a end.
Proof. by destruct r. Qed.

(** The upgrade of the sample, in the store that has its attribute as unique. *)
Lemma description_exact_witness :
  match description_diff (sample_a 2 None) core_store (mkVocabulary 100 1 [(101, flag (Some Unique_Value))]) with
  | inr u => described core_store (sample_a 2 None) (def_attributes (sample_a 2 None))
      (current core_store (mkVocabulary 100 1 [(101, flag (Some Unique_Value))])) u
  | inl _ => False
  end.
Proof.
  eapply (sum_right _ (λ e, match e with
    | MissingCoreVocabulary n => n = DB_SCHEMA_VERSION ∧ lacks_core (VS := sample_store) core_store (def_attributes (sample_a 2 None)) | OtherError _ => True | _ => False end)).
  - exact (proj1 (description_exact (VS := sample_store) core_store (sample_a 2 None) (mkVocabulary 100 1 [(101, flag (Some Unique_Value))]))).
  - vm_compute. reflexivity.
Defined.
