(* ===== verification/Fsm.v ===== *)
(** * Fsm: handing a state machine over between threads

    [FsmState] of [engine_test/src/fsm.rs]: a status and a pointer, both atomic, through
    which threads take a state machine, give it back and clear it without a lock.  Each
    atomic access is one function ([take_cas], [take_swap], [release_swap],
    [release_cas], [clear_swap]); the methods compose them, and [fsm_step] interleaves
    the methods of any number of threads access by access.  The three values of the
    status are constants of a module that is not in the repository.

    Two matches of the file have patterns that are names: the first arm of the match in
    [release] binds whatever the status was and returns, and that of [clear] has an arm
    for one status only, the others being a panic.  The scheduler takes a reference, so
    that [notify] drops the machine it took. *)
From Stdlib Require Import ZArith Lia.
From stdpp Require Import base list numbers relations.
From S2P Require Import Prelude.

Inductive FsmStatus := NOTIFYSTATE_IDLE | NOTIFYSTATE_NOTIFIED | NOTIFYSTATE_DROP.
#[export] Instance FsmStatus_eq_dec : EqDecision FsmStatus.
Proof. solve_decision. Defined.

Section Fsm.
Context {N : Type}.

Record FsmState := mkFsm { status : FsmStatus; data : option N }.

Definition FsmState_new (n : N) : FsmState := mkFsm NOTIFYSTATE_IDLE (Some n).

(** ** The atomic accesses *)

(** [compare_and_swap]: the new state and the status there was. *)
Definition compare_and_swap (s : FsmState) (old new : FsmStatus) : FsmState * FsmStatus :=
  (if decide (status s = old) then mkFsm new (data s) else s, status s).

Definition take_cas (s : FsmState) : FsmState * bool :=
  let '(s, previous) := compare_and_swap s NOTIFYSTATE_IDLE NOTIFYSTATE_NOTIFIED in
  (s, bool_decide (previous = NOTIFYSTATE_IDLE)).
Definition take_swap (s : FsmState) : FsmState * option N := (mkFsm (status s) None, data s).
Definition release_swap (s : FsmState) (n : N) : FsmState * option N := (mkFsm (status s) (Some n), data s).
Definition release_cas (s : FsmState) : FsmState := (compare_and_swap s NOTIFYSTATE_NOTIFIED NOTIFYSTATE_IDLE).1.
Definition clear_swap (s : FsmState) : FsmState * FsmStatus := (mkFsm NOTIFYSTATE_DROP (data s), status s).

(** ** The methods, undisturbed *)

Definition take_turing_automata (s : FsmState) : outcome (FsmState * option N) :=
  let '(s, taken) := take_cas s in
  if taken then match take_swap s with (s, Some n) => Ret (s, Some n) | (_, None) => Panic end else Ret (s, None).

Definition release (s : FsmState) (n : N) : outcome FsmState :=
  let '(s, previous) := release_swap s n in
  match previous with None => Ret (release_cas s) | Some _ => Panic end.

Definition clear (s : FsmState) : outcome FsmState :=
  let '(s, previous) := clear_swap s in
  match previous with NOTIFYSTATE_NOTIFIED => Ret s | _ => Panic end.

(** The state, what the scheduler was given and what was freed. *)
Definition notify (set_mailbox : N → N) (s : FsmState) : outcome (FsmState * list N * list N) :=
  '(s, taken) ← take_turing_automata s;
  match taken with
  | None => Ret (s, [], [])
  | Some n => let n := set_mailbox n in Ret (s, [n], [n])
  end.

(** [Drop]: what is freed with the state. *)
Definition fsm_drop (s : FsmState) : list N := match data s with Some n => [n] | None => [] end.

(** ** The methods, interleaved *)

Inductive failure := Inconsistent | InvalidRelease | NoArm.
(** Where a thread is: outside, between the two accesses of a take (for itself or to
    notify), with the machine, about to schedule it, between the two accesses of a
    release, or in a panic. *)
Inductive place := Outside | Taking (notifies : bool) | Holds (n : N) | Scheduling (n : N) | Releasing | Failed (f : failure).

Record world := mkWorld { shared : FsmState; places : list place; scheduled : list N; freed : list N }.

(** A thread only releases the machine it took. *)
Inductive fsm_step (set_mailbox : N → N) : world → world → Prop :=
| st_take s ps sch fr i b s' taken : ps !! i = Some Outside → take_cas s = (s', taken) →
    fsm_step set_mailbox (mkWorld s ps sch fr) (mkWorld s' (<[i := if taken then Taking b else Outside]> ps) sch fr)
| st_taken s ps sch fr i b s' p : ps !! i = Some (Taking b) → take_swap s = (s', p) →
    fsm_step set_mailbox (mkWorld s ps sch fr)
      (mkWorld s' (<[i := match p with None => Failed Inconsistent | Some n => if b then Scheduling (set_mailbox n) else Holds n end]> ps) sch fr)
| st_schedule s ps sch fr i n : ps !! i = Some (Scheduling n) →
    fsm_step set_mailbox (mkWorld s ps sch fr) (mkWorld s (<[i := Outside]> ps) (sch ++ [n]) (fr ++ [n]))
| st_release s ps sch fr i n s' p : ps !! i = Some (Holds n) → release_swap s n = (s', p) →
    fsm_step set_mailbox (mkWorld s ps sch fr) (mkWorld s' (<[i := match p with None => Releasing | Some _ => Failed InvalidRelease end]> ps) sch fr)
| st_released s ps sch fr i : ps !! i = Some Releasing →
    fsm_step set_mailbox (mkWorld s ps sch fr) (mkWorld (release_cas s) (<[i := Outside]> ps) sch fr)
| st_clear s ps sch fr i s' previous : ps !! i = Some Outside → clear_swap s = (s', previous) →
    fsm_step set_mailbox (mkWorld s ps sch fr)
      (mkWorld s' (<[i := match previous with NOTIFYSTATE_NOTIFIED => Outside | _ => Failed NoArm end]> ps) sch fr).

Definition fsm_start (n : N) (threads : nat) : world := mkWorld (FsmState_new n) (replicate threads Outside) [] [].
End Fsm.

(** ** Counting *)

Definition total {N} (f : place (N := N) → nat) (ps : list place) : nat := sum_list (map f ps).

Lemma total_insert {N} (f : place (N := N) → nat) ps i p q : ps !! i = Some p →
  (total f (<[i := q]> ps) + f p = total f ps + f q)%nat.
Proof.
  revert i. unfold total. induction ps as [|x ps IH]; intros [|i] Hi; try done.
  - injection Hi as ->. simpl. lia.
  - specialize (IH i Hi). simpl. lia.
Qed.
Lemma total_ge {N} (f : place (N := N) → nat) ps i p : ps !! i = Some p → (f p <= total f ps)%nat.
Proof.
  revert i. unfold total. induction ps as [|x ps IH]; intros [|i] Hi; try done; cbn in *.
  - injection Hi as ->. lia.
  - apply IH in Hi. lia.
Qed.
Lemma total_replicate {N} (f : place (N := N) → nat) k p : f p = 0%nat → total f (replicate k p) = 0%nat.
Proof. intros Hf. unfold total. induction k; cbn; lia. Qed.
Lemma total_le {N} (f g : place (N := N) → nat) ps : (∀ p, f p <= g p)%nat → (total f ps <= total g ps)%nat.
Proof. intros H. unfold total. induction ps as [|x ps IH]; cbn; [lia|]. specialize (H x). lia. Qed.

#[local] Arguments total {N} f ps : simpl never.

Section Handover.
Context {N : Type}.
Implicit Types (w : world (N := N)) (ps : list (place (N := N))) (s : FsmState (N := N)).

Definition takes (p : place (N := N)) : nat := match p with Taking _ => 1 | _ => 0 end.
Definition has (p : place (N := N)) : nat := match p with Holds _ | Scheduling _ => 1 | _ => 0 end.
Definition releases (p : place (N := N)) : nat := match p with Releasing => 1 | _ => 0 end.
Definition fails (p : place (N := N)) : nat := match p with Failed Inconsistent | Failed InvalidRelease => 1 | _ => 0 end.
Definition busy (p : place (N := N)) : nat := takes p + has p + releases p.
Definition idle s : nat := match status s with NOTIFYSTATE_IDLE => 1 | _ => 0 end.

(** The machine is in one place: behind the pointer, with a thread or freed; and behind the
    pointer it is free to take, or one thread is about to take it or to give it back, or
    the state is cleared. *)
Record sound w : Prop := {
  one_place : (length (fsm_drop (shared w)) + total has (places w) + length (freed w) = 1)%nat;
  guarded : (total takes (places w) + total releases (places w) + idle (shared w) <= length (fsm_drop (shared w)))%nat;
  no_failure : total fails (places w) = 0%nat;
  freed_scheduled : scheduled w = freed w;
  available : fsm_drop (shared w) ≠ [] → status (shared w) ≠ NOTIFYSTATE_DROP →
    (total takes (places w) + total releases (places w) + idle (shared w) = 1)%nat;
}.

Lemma start_sound n k : sound (fsm_start n k).
Proof. split; cbn; rewrite ?total_replicate; done || lia. Qed.

#[local] Ltac counts H q :=
  pose proof (total_insert takes _ _ _ q H); pose proof (total_insert has _ _ _ q H);
  pose proof (total_insert releases _ _ _ q H); pose proof (total_insert fails _ _ _ q H);
  pose proof (total_ge takes _ _ _ H); pose proof (total_ge has _ _ _ H); pose proof (total_ge releases _ _ _ H).

Lemma step_sound f w w' : fsm_step f w w' → sound w → sound w'.
Proof.
  intros Hst [H1 H2 H3 H4 H5].
  destruct Hst as [s ps sch fr i b s' taken Hi Ht|s ps sch fr i b s' p Hi Ht|s ps sch fr i n Hi|s ps sch fr i n s' p Hi Ht|s ps sch fr i Hi|s ps sch fr i s' p Hi Ht];
    destruct s as [st d]; cbn [shared places scheduled freed] in *.
  - counts Hi (Taking (N := N) b).
    destruct st, d; vm_compute in Ht; injection Ht as <- <-; cbn in *; rewrite ?(list_insert_id _ _ _ Hi); split; cbn; done || lia.
  - injection Ht as <- <-. destruct d as [n|]; [counts Hi (if b then Scheduling (f n) else Holds n)|counts Hi (Failed (N := N) Inconsistent)];
    destruct st, b; cbn in *; rewrite ?(list_insert_id _ _ _ Hi); split; cbn; done || lia.
  - counts Hi (Outside (N := N)). destruct st, d; cbn in *; (split; cbn; rewrite ?length_app; cbn; [lia|lia|lia|by rewrite H4|done || lia]).
  - injection Ht as <- <-. counts Hi (Releasing (N := N)). destruct st, d; cbn in *; split; cbn; done || lia.
  - counts Hi (Outside (N := N)). remember (release_cas (mkFsm st d)) as s' eqn:Hs.
    destruct st, d; vm_compute in Hs; subst s'; cbn in *; split; cbn; done || lia.
  - injection Ht as <- <-. counts Hi (Outside (N := N)). counts Hi (Failed (N := N) NoArm).
    destruct st, d; cbn in *; split; cbn; done || lia.
Qed.

Lemma run_sound f w w' : rtc (fsm_step f) w w' → sound w → sound w'.
Proof. induction 1; [done|]. intros. eauto using step_sound. Qed.
Lemma reach_sound f n k w : rtc (fsm_step f) (fsm_start n k) w → sound w.
Proof. intros H. apply (run_sound f _ _ H), start_sound. Qed.
End Handover.

Lemma total_add {N} (f g : place (N := N) → nat) ps : total (λ p, (f p + g p)%nat) ps = (total f ps + total g ps)%nat.
Proof. unfold total. induction ps as [|x ps IH]; [done|]. simpl in *. lia. Qed.
Lemma total_two {N} (f : place (N := N) → nat) ps i j p q : i ≠ j → ps !! i = Some p → ps !! j = Some q → f Outside = 0%nat →
  (f p + f q <= total f ps)%nat.
Proof.
  intros Hij Hi Hj H0. pose proof (total_insert f ps i p Outside Hi). 
  pose proof (total_ge f (<[i := Outside]> ps) j q ltac:(by rewrite list_lookup_insert_ne)). lia.
Qed.

Section Promises.
Context {N : Type}.
Implicit Types (w : world (N := N)).

Lemma total_busy (ps : list (place (N := N))) : total busy ps = (total takes ps + total has ps + total releases ps)%nat.
Proof. unfold busy. by rewrite !total_add. Qed.
Lemma busy_le w : sound w → (total busy (places w) <= 1)%nat.
Proof. intros [H1 H2 _ _ _]. rewrite total_busy. lia. Qed.

(** C9. However the methods of any number of threads interleave, at most one thread is
    taking, holding or giving back the machine; the machine is in one place; and neither
    a take nor a release finds the state inconsistent. *)
Theorem fsm_exclusive f (n : N) k w : rtc (fsm_step f) (fsm_start n k) w →
  (∀ i j p q, places w !! i = Some p → places w !! j = Some q → (0 < busy p)%nat → (0 < busy q)%nat → i = j)
  ∧ (∀ i e, places w !! i = Some (Failed e) → e = NoArm)
  ∧ (length (fsm_drop (shared w)) + total has (places w) + length (freed w) = 1)%nat.
Proof.
  intros Hw%reach_sound. pose proof (busy_le w Hw) as Hb. destruct Hw as [H1 _ H3 _ _]. split_and!; [| |done].
  - intros i j p q Hi Hj Hp Hq. destruct (decide (i = j)) as [|Hij]; [done|].
    pose proof (total_two busy _ _ _ _ _ Hij Hi Hj eq_refl). lia.
  - intros i e Hi. pose proof (total_ge fails _ _ _ Hi). destruct e; cbn in *; done || lia.
Qed.

Lemma step_scheduled f w w' : fsm_step f w w' → scheduled w `prefix_of` scheduled w'.
Proof. destruct 1; cbn; done || by apply prefix_app_r. Qed.
Lemma run_scheduled f w w' : rtc (fsm_step f) w w' → scheduled w `prefix_of` scheduled w'.
Proof. induction 1 as [|w1 w2 w3 H _ IH]; [done|]. apply step_scheduled in H. by etrans. Qed.

(** The scheduler is given the machine at most once: after a notification the machine is
    gone, nobody takes it again and nothing more is scheduled. *)
Theorem fsm_scheduled_once f (n : N) k w w' : rtc (fsm_step f) (fsm_start n k) w → scheduled w ≠ [] → rtc (fsm_step f) w w' →
  scheduled w' = scheduled w ∧ total busy (places w') = 0%nat ∧ fsm_drop (shared w') = [].
Proof.
  intros Hw%reach_sound Hs Hr. pose proof (run_sound _ _ _ Hr Hw) as [H1 H2 _ H4 _]. apply run_scheduled in Hr as [l Hl].
  assert (length (scheduled w') <= 1)%nat as Hle by (rewrite H4; lia). rewrite Hl, length_app in Hle.
  destruct (scheduled w) as [|m r] eqn:E; [done|]. destruct l; [|cbn in *; lia]. rewrite app_nil_r in Hl.
  assert (length (freed w') = S (length r)) as Hf by (by rewrite <- H4, Hl).
  rewrite total_busy. split_and!; [done|lia|]. destruct (fsm_drop (shared w')); [done|cbn in *; lia].
Qed.

Lemma step_cleared f w w' : fsm_step f w w' → status (shared w) = NOTIFYSTATE_DROP →
  status (shared w') = NOTIFYSTATE_DROP ∧ (total busy (places w') <= total busy (places w))%nat.
Proof.
  destruct 1 as [s ps sch fr i b s' taken Hi Ht|s ps sch fr i b s' p Hi Ht|s ps sch fr i n Hi|s ps sch fr i n s' p Hi Ht|s ps sch fr i Hi|s ps sch fr i s' p Hi Ht];
    destruct s as [st d]; cbn [shared places status]; intros ->; pose proof (λ q, total_insert busy _ _ _ q Hi) as Hq.
  - vm_compute in Ht. injection Ht as <- <-. split; [done|]. by rewrite list_insert_id.
  - injection Ht as <- <-. split; [done|]. destruct d as [n|]; [specialize (Hq (if b then Scheduling (f n) else Holds n)); destruct b|specialize (Hq (Failed Inconsistent))];
      cbn in *; lia.
  - split; [done|]. specialize (Hq Outside). cbn in *. lia.
  - injection Ht as <- <-. split; [done|]. destruct d as [m|]; [specialize (Hq (Failed InvalidRelease))|specialize (Hq Releasing)]; cbn in *; lia.
  - split; [by destruct d|]. specialize (Hq Outside). cbn in *. lia.
  - injection Ht as <- <-. split; [done|]. specialize (Hq (Failed NoArm)). cbn in *. lia.
Qed.

(** Once the state is cleared it stays so: nobody takes the machine any more, and when
    those that had it are done, dropping the state frees what was not freed before. *)
Theorem fsm_cleared f (n : N) k w w' : rtc (fsm_step f) (fsm_start n k) w → status (shared w) = NOTIFYSTATE_DROP → rtc (fsm_step f) w w' →
  status (shared w') = NOTIFYSTATE_DROP ∧ (total busy (places w') <= total busy (places w))%nat
  ∧ (total busy (places w') = 0%nat → length (fsm_drop (shared w') ++ freed w') = 1%nat).
Proof.
  intros Hw%reach_sound Hs Hr. assert (status (shared w') = NOTIFYSTATE_DROP ∧ (total busy (places w') <= total busy (places w))%nat) as [H1 H2].
  { clear Hw. induction Hr as [|w1 w2 w3 H _ IH]; [done|]. apply step_cleared in H as [H1 H2]; [|done]. destruct (IH H1). split; [done|lia]. }
  split_and!; [done..|]. intros H0. pose proof (run_sound _ _ _ Hr Hw) as [H3 _ _ _ _]. rewrite total_busy in H0. rewrite length_app. lia.
Qed.

(** C25. A machine that is with nobody and was neither cleared nor dropped can be taken: a
    thread that asks, undisturbed, gets it in two steps. *)
Theorem fsm_available f (n : N) k w i : rtc (fsm_step f) (fsm_start n k) w → total busy (places w) = 0%nat → freed w = [] →
  status (shared w) ≠ NOTIFYSTATE_DROP → places w !! i = Some Outside →
  ∃ m w1 w2, fsm_drop (shared w) = [m] ∧ fsm_step f w w1 ∧ fsm_step f w1 w2 ∧ places w2 !! i = Some (Holds m).
Proof.
  intros [H1 _ _ _ H5]%reach_sound Hb Hf Hs Hi. rewrite total_busy in Hb. rewrite Hf in H1. cbn [length] in H1.
  destruct w as [ [st d] ps sch fr]. cbn [shared places freed status] in *. destruct d as [m|]; [|cbn in *; lia].
  specialize (H5 ltac:(done) Hs). assert (st = NOTIFYSTATE_IDLE) as -> by (destruct st; cbn in *; done || lia).
  exists m. eexists _, _. split; [done|]. split; [by eapply (st_take f _ _ _ _ i false)|]. split.
  - eapply (st_taken f _ _ _ _ i false); [|done]. cbn. apply list_lookup_insert_eq. by eapply lookup_lt_Some.
  - cbn. rewrite list_insert_insert_eq. apply list_lookup_insert_eq. by eapply lookup_lt_Some.
Qed.
End Promises.

(** ** Undisturbed, and two concrete runs *)

Example fsm_tests :
  take_turing_automata (FsmState_new 7) = Ret (mkFsm NOTIFYSTATE_NOTIFIED None, Some 7)
  ∧ release (mkFsm NOTIFYSTATE_NOTIFIED None) 7 = Ret (FsmState_new 7)
  ∧ take_turing_automata (mkFsm NOTIFYSTATE_NOTIFIED (None : option nat)) = Ret (mkFsm NOTIFYSTATE_NOTIFIED None, None)
  ∧ notify id (FsmState_new 7) = Ret (mkFsm NOTIFYSTATE_NOTIFIED None, [7], [7])
  ∧ clear (mkFsm NOTIFYSTATE_NOTIFIED (None : option nat)) = Ret (mkFsm NOTIFYSTATE_DROP None)
  ∧ release (mkFsm NOTIFYSTATE_DROP None) 7 = Ret (mkFsm NOTIFYSTATE_DROP (Some 7))
  ∧ clear (FsmState_new 7) = Panic.
Proof. by vm_compute. Qed.

#[local] Ltac fsm_next := eapply rtc_l; [first [eapply (st_take id) with (i := 0%nat) (b := false); reflexivity | eapply (st_taken id) with (i := 0%nat); reflexivity
  | eapply (st_release id) with (i := 0%nat); reflexivity | eapply (st_released id) with (i := 0%nat); reflexivity]|cbn].

Lemma sample_cycle : rtc (fsm_step id) (fsm_start 7 2) (mkWorld (FsmState_new 7) [Outside; Outside] [] []).
Proof. do 4 fsm_next. apply rtc_refl. Qed.
Lemma sample_held : rtc (fsm_step id) (fsm_start 7 2) (mkWorld (mkFsm NOTIFYSTATE_NOTIFIED None) [Holds 7; Outside] [] []).
Proof. do 2 fsm_next. apply rtc_refl. Qed.
Lemma sample_notified : rtc (fsm_step id) (fsm_start 7 2) (mkWorld (mkFsm NOTIFYSTATE_NOTIFIED None) [Outside; Outside] [7] [7]).
Proof.
  eapply rtc_l; [eapply (st_take id) with (i := 0%nat) (b := true); reflexivity|cbn].
  eapply rtc_l; [eapply (st_taken id) with (i := 0%nat); reflexivity|cbn].
  eapply rtc_l; [eapply (st_schedule id) with (i := 0%nat); reflexivity|cbn]. apply rtc_refl.
Qed.
Lemma sample_clear : fsm_step id (mkWorld (mkFsm NOTIFYSTATE_NOTIFIED None) [Holds 7; Outside] [] [])
  (mkWorld (mkFsm NOTIFYSTATE_DROP None) [Holds 7; Outside] [] []).
Proof. by apply (st_clear id (mkFsm NOTIFYSTATE_NOTIFIED None) [Holds 7; Outside] [] [] 1 (mkFsm NOTIFYSTATE_DROP None) NOTIFYSTATE_NOTIFIED). Qed.
Lemma sample_returned : rtc (fsm_step id) (mkWorld (mkFsm NOTIFYSTATE_DROP None) [Holds 7; Outside] [] [])
  (mkWorld (mkFsm NOTIFYSTATE_DROP (Some 7)) [Outside; Outside] [] []).
Proof. do 2 fsm_next. apply rtc_refl. Qed.

Lemma fsm_exclusive_witness : rtc (fsm_step id) (fsm_start 7 2) (mkWorld (mkFsm NOTIFYSTATE_NOTIFIED None) [Holds 7; Outside] [] [])
  ∧ (length (fsm_drop (mkFsm NOTIFYSTATE_NOTIFIED (None : option nat))) + total has [Holds 7; Outside] + length ([] : list nat) = 1)%nat.
Proof. split; [exact sample_held|]. exact (proj2 (proj2 (fsm_exclusive id 7 2 _ sample_held))). Defined.

Lemma fsm_scheduled_once_witness : [7] ≠ [] ∧ scheduled (mkWorld (mkFsm NOTIFYSTATE_NOTIFIED None) [Outside; Outside] [7] [7]) = [7].
Proof.
  assert ([7] ≠ []) as H by done. split; [exact H|].
  exact (proj1 (fsm_scheduled_once id 7 2 _ _ sample_notified H (rtc_refl _ _))).
Defined.

Lemma fsm_cleared_witness : length (fsm_drop (mkFsm NOTIFYSTATE_DROP (Some 7)) ++ []) = 1%nat.
Proof.
  assert (rtc (fsm_step id) (fsm_start 7 2) (mkWorld (mkFsm NOTIFYSTATE_DROP None) [Holds 7; Outside] [] [])) as H.
  { eapply rtc_r; [exact sample_held|exact sample_clear]. }
  exact (proj2 (proj2 (fsm_cleared id 7 2 _ _ H eq_refl sample_returned)) eq_refl).
Defined.

Lemma fsm_available_witness : ∃ m w1 w2, fsm_drop (FsmState_new 7) = [m]
  ∧ fsm_step id (mkWorld (FsmState_new 7) [Outside; Outside] [] []) w1 ∧ fsm_step id w1 w2 ∧ places w2 !! 1%nat = Some (Holds m).
Proof.
  assert (status (FsmState_new 7) ≠ NOTIFYSTATE_DROP) as H by done.
  exact (fsm_available id 7 2 _ 1 sample_cycle eq_refl eq_refl H eq_refl).
Defined.
