(* ===== verification/ReadPool.v ===== *)
(** * ReadPool: how many reads run at once

    [soliton/read_pool.rs]: a handle to three pools, one for each priority, or to one
    unified pool that counts its tasks in a gauge.  [spawn] on the unified pool reads the
    gauge, then increments it and hands the task over; the task decrements the gauge when
    it has run.  [spawn] is the method undisturbed; [pool_step] interleaves the accesses of
    any number of calling threads and of the tasks.  The external pools are the class
    [FuturePools].  A gauge is a 64-bit integer read as [usize]. *)
From Stdlib Require Import ZArith Lia.
From stdpp Require Import base list numbers relations.
From S2P Require Import Prelude EvalCtx.
#[local] Open Scope Z_scope.

Inductive CommandPri := High | Normal | Low.
Inductive ReadPoolError := FuturePoolFull | UnifiedReadPoolFull | Canceled.
Inductive spawned (E A : Type) := Accepted (a : A) | Refused (e : E).
Arguments Accepted {E A} a.
Arguments Refused {E A} e.

(** A pool of the external crate: whether it accepts one more task, and its readers. *)
Class FuturePools := {
  FuturePool : Type;
  pool_spawn : FuturePool → Z → option FuturePool;
  get_pool_size : FuturePool → Z;
  get_running_task_count : FuturePool → Z;
}.

(** What the unified pool is given with a task: its id and the level it is fixed at. *)
Record Extras := mkExtras { extras_task : Z; fixed_l_naught : option Z }.
Definition new_multil_naught (task_id : Z) (priority : CommandPri) : Extras :=
  mkExtras task_id match priority with High => Some 0 | Normal => None | Low => Some 2 end.

Section ReadPool.
Context {FP : FuturePools}.

(** The pools a handle reaches are shared by its clones: they are the state. *)
Inductive ReadPoolHandle :=
| FuturePools_ (read_pool_high read_pool_normal read_pool_low : FuturePool)
| Yatp (remote : list Extras) (running_tasks max_tasks pool_size : Z).

(** [From<Vec<FuturePool>>]: the pools come from the lowest priority up. *)
Definition from_pools (v : list FuturePool) : outcome ReadPoolHandle :=
  match v with [low; normal; high] => Ret (FuturePools_ high normal low) | _ => Panic end.

Definition full (running_tasks max_tasks : Z) : bool := max_tasks <=? as_u64 running_tasks.

Definition spawn (self : ReadPoolHandle) (priority : CommandPri) (task_id : Z) : outcome (ReadPoolHandle * spawned ReadPoolError unit) :=
  match self with
  | FuturePools_ high normal low =>
      Ret match priority with
      | High => match pool_spawn high task_id with Some p => (FuturePools_ p normal low, Accepted tt) | None => (self, Refused FuturePoolFull) end
      | Normal => match pool_spawn normal task_id with Some p => (FuturePools_ high p low, Accepted tt) | None => (self, Refused FuturePoolFull) end
      | Low => match pool_spawn low task_id with Some p => (FuturePools_ high normal p, Accepted tt) | None => (self, Refused FuturePoolFull) end
      end
  | Yatp remote running_tasks max_tasks pool_size =>
      if full running_tasks max_tasks then Ret (self, Refused UnifiedReadPoolFull)
      else
        n ← i64 (running_tasks + 1);
        Ret (Yatp (remote ++ [new_multil_naught task_id priority]) n max_tasks pool_size, Accepted tt)
  end.

(** [spawn_handle]: what the future it returns gives, when the task ran to [answer] or was
    dropped before. *)
Definition spawn_handle {T} (self : ReadPoolHandle) (priority : CommandPri) (task_id : Z) (answer : option T)
  : outcome (ReadPoolHandle * spawned ReadPoolError T) :=
  '(self, res) ← spawn self priority task_id;
  Ret (self, match res with
             | Refused e => Refused e
             | Accepted _ => match answer with Some t => Accepted t | None => Refused Canceled end
             end).

Definition get_normal_pool_size (self : ReadPoolHandle) : Z :=
  match self with FuturePools_ _ normal _ => get_pool_size normal | Yatp _ _ _ pool_size => pool_size end.

(** The division panics without workers. *)
Definition get_queue_size_per_worker (self : ReadPoolHandle) : outcome Z :=
  let per n d := if d =? 0 then Panic else Ret (as_u64 n / d) in
  match self with
  | FuturePools_ _ normal _ => per (get_running_task_count normal) (get_pool_size normal)
  | Yatp _ running_tasks _ pool_size => per running_tasks pool_size
  end.
End ReadPool.

(** ** The unified pool, interleaved *)

(** Where a calling thread is: outside, past the check, past the increment. *)
Inductive caller := Outside | Passed (e : Extras) | Counted (e : Extras).

(** The gauge, the threads, the tasks that were handed over and did not end, and the number
    of those that ended in a panic or were dropped. *)
Record pool := mkPool { gauge : Z; callers : list caller; tasks : list Extras; lost : nat }.

Inductive pool_step (max_tasks : Z) : pool → pool → Prop :=
| ps_refused g cs ts l i : cs !! i = Some Outside → full g max_tasks = true →
    pool_step max_tasks (mkPool g cs ts l) (mkPool g cs ts l)
| ps_check g cs ts l i priority task_id : cs !! i = Some Outside → full g max_tasks = false →
    pool_step max_tasks (mkPool g cs ts l) (mkPool g (<[i := Passed (new_multil_naught task_id priority)]> cs) ts l)
| ps_inc g cs ts l i e : cs !! i = Some (Passed e) →
    pool_step max_tasks (mkPool g cs ts l) (mkPool (g + 1) (<[i := Counted e]> cs) ts l)
| ps_spawn g cs ts l i e : cs !! i = Some (Counted e) →
    pool_step max_tasks (mkPool g cs ts l) (mkPool g (<[i := Outside]> cs) (ts ++ [e]) l)
| ps_done g cs ts l e ts1 ts2 : ts = ts1 ++ e :: ts2 →
    pool_step max_tasks (mkPool g cs ts l) (mkPool (g - 1) cs (ts1 ++ ts2) l)
| ps_lost g cs ts l e ts1 ts2 : ts = ts1 ++ e :: ts2 →
    pool_step max_tasks (mkPool g cs ts l) (mkPool g cs (ts1 ++ ts2) (S l)).

Definition pool_start (threads : nat) : pool := mkPool 0 (replicate threads Outside) [] 0.

(** ** Accounting *)

Definition passed (cs : list caller) : Z := Z.of_nat (sum_list_with (λ c, match c with Passed _ => 1%nat | _ => 0%nat end) cs).
Definition counted (cs : list caller) : Z := Z.of_nat (sum_list_with (λ c, match c with Counted _ => 1%nat | _ => 0%nat end) cs).
#[local] Notation zlen l := (Z.of_nat (length l)).

Lemma sum_insert (f : caller → nat) cs i p q : cs !! i = Some p →
  (sum_list_with f (<[i := q]> cs) + f p = sum_list_with f cs + f q)%nat.
Proof.
  revert i. induction cs as [|x cs IH]; intros [|i] Hi; try done.
  - injection Hi as ->. simpl. lia.
  - specialize (IH i Hi). simpl. lia.
Qed.
Lemma passed_insert cs i p q : cs !! i = Some p →
  passed (<[i := q]> cs) + (if p is Passed _ then 1 else 0) = passed cs + (if q is Passed _ then 1 else 0).
Proof. intros H. pose proof (sum_insert (λ c, match c with Passed _ => 1%nat | _ => 0%nat end) cs i p q H). unfold passed. destruct p, q; lia. Qed.
Lemma counted_insert cs i p q : cs !! i = Some p →
  counted (<[i := q]> cs) + (if p is Counted _ then 1 else 0) = counted cs + (if q is Counted _ then 1 else 0).
Proof. intros H. pose proof (sum_insert (λ c, match c with Counted _ => 1%nat | _ => 0%nat end) cs i p q H). unfold counted. destruct p, q; lia. Qed.
Lemma callers_le cs : 0 <= passed cs ∧ 0 <= counted cs ∧ passed cs + counted cs <= zlen cs.
Proof. unfold passed, counted. induction cs as [|[] cs IH]; simpl; lia. Qed.
Lemma outside_lt cs i : cs !! i = Some Outside → passed cs + counted cs < zlen cs.
Proof.
  intros Hi. pose proof (passed_insert cs i Outside (Counted (mkExtras 0 None)) Hi). pose proof (counted_insert cs i Outside (Counted (mkExtras 0 None)) Hi).
  pose proof (callers_le (<[i := Counted (mkExtras 0 None)]> cs)) as H1. rewrite length_insert in H1. cbv iota in *. lia.
Qed.
Lemma callers_start k : passed (replicate k Outside) = 0 ∧ counted (replicate k Outside) = 0.
Proof. unfold passed, counted. induction k as [|k IH]; [done|]. simpl. lia. Qed.

Section Pool.
Context (max_tasks : Z) (threads : nat) (Hmax : 0 <= max_tasks) (Hbig : max_tasks + Z.of_nat threads <= I64_MAX).

(** The gauge counts the calls past the increment, the tasks that did not end and those
    that ended without decrementing it; together with the calls past the check it exceeds
    the maximum by the other threads at most. *)
Record counts (w : pool) : Prop := {
  same_threads : length (callers w) = threads;
  gauge_is : gauge w = counted (callers w) + zlen (tasks w) + Z.of_nat (lost w);
  gauge_le : gauge w + passed (callers w) <= Z.max 0 (max_tasks + Z.of_nat threads - 1);
  none_at_zero : max_tasks = 0 → gauge w = 0 ∧ passed (callers w) = 0;
}.

Lemma full_spec g : 0 <= g <= I64_MAX → full g max_tasks = true ↔ max_tasks <= g.
Proof. intros Hg. unfold full. rewrite as_u64_id by (mach; lia). apply Z.leb_le. Qed.

Lemma counts_gauge w : counts w → 0 <= gauge w <= I64_MAX.
Proof. intros [_ H1 H2 _]. pose proof (callers_le (callers w)). mach. lia. Qed.

Lemma start_counts : counts (pool_start threads).
Proof. destruct (callers_start threads). split; cbn -[replicate]; rewrite ?length_replicate; lia. Qed.

Lemma step_counts w w' : pool_step max_tasks w w' → counts w → counts w'.
Proof.
  intros Hst Hw. pose proof (counts_gauge w Hw) as Hg. destruct Hw as [H0 H1 H2 H3].
  destruct Hst as [g cs ts l i Hi Hf|g cs ts l i pr id Hi Hf|g cs ts l i e Hi|g cs ts l i e Hi|g cs ts l e ts1 ts2 ->|g cs ts l e ts1 ts2 ->]; cbn [gauge callers tasks lost] in *.
  - by split.
  - pose proof (passed_insert _ _ _ (Passed (new_multil_naught id pr)) Hi). pose proof (counted_insert _ _ _ (Passed (new_multil_naught id pr)) Hi).
    apply outside_lt in Hi. assert (g < max_tasks) as Hlt by (apply Z.nle_gt; rewrite <- full_spec by done; by rewrite Hf).
    pose proof (callers_le cs). cbv iota in *. split; cbn [gauge callers tasks lost]; rewrite ?length_insert; lia.
  - pose proof (passed_insert _ _ _ (Counted e) Hi). pose proof (counted_insert _ _ _ (Counted e) Hi).
    pose proof (callers_le (<[i := Counted e]> cs)). cbv iota in *. split; cbn [gauge callers tasks lost]; rewrite ?length_insert; lia.
  - pose proof (passed_insert _ _ _ Outside Hi). pose proof (counted_insert _ _ _ Outside Hi).
    cbv iota in *. split; cbn [gauge callers tasks lost]; rewrite ?length_insert, ?length_app; cbn [length]; lia.
  - rewrite length_app in H1. cbn [length] in H1. pose proof (callers_le cs). split; cbn [gauge callers tasks lost]; rewrite ?length_app; lia.
  - rewrite length_app in H1. cbn [length] in H1. split; cbn [gauge callers tasks lost]; rewrite ?length_app; lia.
Qed.
Lemma run_counts w w' : rtc (pool_step max_tasks) w w' → counts w → counts w'.
Proof. induction 1; [done|]. intros. eauto using step_counts. Qed.
Lemma reach_counts w : rtc (pool_step max_tasks) (pool_start threads) w → counts w.
Proof. intros H. apply (run_counts _ _ H), start_counts. Qed.

(** C22. The gauge of the unified pool is the number of reads that were accepted and did not
    end, plus those that ended in a panic; a call is refused exactly when that is the
    maximum or more; and however the calls interleave it exceeds the maximum by less than
    the number of threads that call. *)
Theorem pool_bounded w : rtc (pool_step max_tasks) (pool_start threads) w →
  gauge w = counted (callers w) + zlen (tasks w) + Z.of_nat (lost w)
  ∧ (full (gauge w) max_tasks = true ↔ max_tasks <= counted (callers w) + zlen (tasks w) + Z.of_nat (lost w))
  ∧ gauge w <= Z.max 0 (max_tasks + Z.of_nat threads - 1)
  ∧ (max_tasks = 0 → tasks w = []).
Proof.
  intros Hw%reach_counts. pose proof (counts_gauge w Hw) as Hg. pose proof (callers_le (callers w)). destruct Hw as [_ H1 H2 H3].
  split_and!; [done| |lia|].
  - rewrite full_spec by done. lia.
  - intros H0. destruct (H3 H0) as [H4 _]. destruct (tasks w); [done|]. cbn [length] in H1. lia.
Qed.

Lemma step_lost w w' : pool_step max_tasks w w' → (lost w <= lost w')%nat.
Proof. destruct 1; cbn; lia. Qed.
Lemma run_lost w w' : rtc (pool_step max_tasks) w w' → (lost w <= lost w')%nat.
Proof. induction 1 as [|w1 w2 w3 H _ IH]; [done|]. apply step_lost in H. lia. Qed.

(** A task that panics keeps its place: once as many have as the maximum, every call is
    refused, for ever. *)
Theorem pool_starves w w' : rtc (pool_step max_tasks) (pool_start threads) w → max_tasks <= Z.of_nat (lost w) →
  rtc (pool_step max_tasks) w w' → full (gauge w') max_tasks = true.
Proof.
  intros Hw%reach_counts Hl Hr. pose proof (run_lost _ _ Hr). pose proof (run_counts _ _ Hr Hw) as Hw'.
  pose proof (counts_gauge _ Hw'). destruct Hw' as [_ H1 _ _]. pose proof (callers_le (callers w')). apply full_spec; [done|lia].
Qed.

(** ** The bound is reached *)

Lemma middle_lookup {A} (pre post : list A) x : (pre ++ x :: post) !! length pre = Some x.
Proof. by apply list_lookup_middle. Qed.
Lemma middle_insert {A} (pre post : list A) x y : <[length pre := y]> (pre ++ x :: post) = pre ++ y :: post.
Proof. rewrite insert_app_r_alt by done. by rewrite Nat.sub_diag. Qed.

(** A step that every thread takes in turn. *)
Lemma sweep p q d g tk :
  (∀ (k : nat) ts pre post, pool_step max_tasks (mkPool (g + Z.of_nat k * d) (pre ++ p :: post) ts 0)
    (mkPool (g + Z.of_nat (S k) * d) (pre ++ q :: post) (ts ++ tk) 0)) →
  ∀ n k pre ts, rtc (pool_step max_tasks) (mkPool (g + Z.of_nat k * d) (pre ++ replicate n p) ts 0)
    (mkPool (g + Z.of_nat (k + n) * d) (pre ++ replicate n q) (ts ++ concat (replicate n tk)) 0).
Proof.
  intros Hs n. induction n as [|n IH]; intros k pre ts.
  - rewrite Nat.add_0_r. cbn [replicate concat]. rewrite !app_nil_r. apply rtc_refl.
  - cbn [replicate concat]. eapply rtc_l; [apply Hs|]. specialize (IH (S k) (pre ++ [q]) (ts ++ tk)).
    rewrite <- !app_assoc in IH. cbn [app] in IH. by replace (k + S n)%nat with (S k + n)%nat by lia.
Qed.
Lemma sweep_all p q d g tk n ts :
  (∀ (k : nat) ts pre post, pool_step max_tasks (mkPool (g + Z.of_nat k * d) (pre ++ p :: post) ts 0)
    (mkPool (g + Z.of_nat (S k) * d) (pre ++ q :: post) (ts ++ tk) 0)) →
  rtc (pool_step max_tasks) (mkPool g (replicate n p) ts 0) (mkPool (g + Z.of_nat n * d) (replicate n q) (ts ++ concat (replicate n tk)) 0).
Proof. intros Hs. pose proof (sweep p q d g tk Hs n 0 [] ts) as H. rewrite Z.mul_0_l, Z.add_0_r in H. exact H. Qed.

Definition some_task : Extras := new_multil_naught 0 Normal.

Lemma call_check g cs1 cs2 ts : full g max_tasks = false →
  pool_step max_tasks (mkPool g (cs1 ++ Outside :: cs2) ts 0) (mkPool g (cs1 ++ Passed some_task :: cs2) ts 0).
Proof. intros Hf. pose proof (ps_check max_tasks g _ ts 0 _ Normal 0 (middle_lookup cs1 cs2 Outside) Hf) as H. by rewrite middle_insert in H. Qed.
Lemma call_inc g cs1 cs2 ts :
  pool_step max_tasks (mkPool g (cs1 ++ Passed some_task :: cs2) ts 0) (mkPool (g + 1) (cs1 ++ Counted some_task :: cs2) ts 0).
Proof. pose proof (ps_inc max_tasks g _ ts 0 _ _ (middle_lookup cs1 cs2 (Passed some_task))) as H. by rewrite middle_insert in H. Qed.
Lemma call_spawn g cs1 cs2 ts :
  pool_step max_tasks (mkPool g (cs1 ++ Counted some_task :: cs2) ts 0) (mkPool g (cs1 ++ Outside :: cs2) (ts ++ [some_task]) 0).
Proof. pose proof (ps_spawn max_tasks g _ ts 0 _ _ (middle_lookup cs1 cs2 (Counted some_task))) as H. by rewrite middle_insert in H. Qed.

(** One thread after the other fills the pool up to one place. *)
Lemma fill_pool n : (0 < threads)%nat → Z.of_nat n < max_tasks → ∃ ts, length ts = n ∧
  rtc (pool_step max_tasks) (pool_start threads) (mkPool (Z.of_nat n) (replicate threads Outside) ts 0).
Proof.
  intros Ht. destruct threads as [|c]; [lia|]. induction n as [|n IH]; intros Hn; [exists []; split; [done|apply rtc_refl]|].
  destruct IH as (ts & Hl & Hr); [lia|]. exists (ts ++ [some_task]). split; [rewrite length_app; cbn; lia|].
  replace (Z.of_nat (S n)) with (Z.of_nat n + 1) by lia. cbn [replicate]. etrans; [exact Hr|].
  assert (full (Z.of_nat n) max_tasks = false) as Hf by (apply not_true_iff_false; rewrite full_spec by (mach; lia); lia).
  eapply rtc_l; [by apply (call_check _ [])|]. eapply rtc_l; [apply (call_inc _ [])|]. apply rtc_once, (call_spawn _ []).
Qed.

(** The limit is not strict: whatever the maximum and the number of threads, if they all
    check before any increments, the pool runs as many tasks more than its maximum as
    there are other threads. *)
Theorem pool_overshoots : 0 < max_tasks → (0 < threads)%nat →
  ∃ w, rtc (pool_step max_tasks) (pool_start threads) w ∧ zlen (tasks w) = max_tasks + Z.of_nat threads - 1.
Proof.
  intros Hm Ht. destruct (fill_pool (Z.to_nat (max_tasks - 1)) Ht ltac:(lia)) as (ts & Hl & Hr).
  rewrite Z2Nat.id in Hr by lia.
  assert (full (max_tasks - 1) max_tasks = false) as Hf by (apply not_true_iff_false; rewrite full_spec by (mach; lia); lia).
  eexists. split.
  - etrans; [exact Hr|]. etrans.
    { apply (sweep_all Outside (Passed some_task) 0 (max_tasks - 1) [] threads). intros k l1 pre post.
      rewrite !Z.mul_0_r, Z.add_0_r, app_nil_r. by apply call_check. }
    rewrite Z.mul_0_r, Z.add_0_r. etrans.
    { apply (sweep_all (Passed some_task) (Counted some_task) 1 (max_tasks - 1) [] threads). intros k l1 pre post.
      rewrite app_nil_r. replace (max_tasks - 1 + Z.of_nat (S k) * 1) with (max_tasks - 1 + Z.of_nat k * 1 + 1) by lia. apply call_inc. }
    apply (sweep_all (Counted some_task) Outside 0 _ [some_task] threads). intros k l1 pre post.
    rewrite !Z.mul_0_r, Z.add_0_r. apply call_spawn.
  - cbn [tasks]. assert (∀ n, concat (replicate n ([] : list Extras)) = []) as -> by (induction n; done). rewrite !app_nil_r.
    assert (∀ n, length (concat (replicate n [some_task])) = n) as Hn by (induction n; cbn; [done|by f_equal]).
    rewrite length_app, Hn, Hl. lia.
Qed.
End Pool.

(** ** The repository's test, and witnesses *)

#[local] Instance sample_pools : FuturePools := {|
  FuturePool := Z; pool_spawn := λ p _, if p <? 1 then Some (p + 1) else None; get_pool_size := λ _, 2; get_running_task_count := λ p, p;
|}.

(** Two tasks fit, the third is refused, and one is accepted when one has run. *)
Example test_yatp_full :
  spawn (Yatp [] 0 2 1) Normal 1 = Ret (Yatp [mkExtras 1 None] 1 2 1, Accepted tt)
  ∧ spawn (Yatp [mkExtras 1 None] 1 2 1) Normal 2 = Ret (Yatp [mkExtras 1 None; mkExtras 2 None] 2 2 1, Accepted tt)
  ∧ spawn (Yatp [mkExtras 1 None; mkExtras 2 None] 2 2 1) Normal 3 = Ret (Yatp [mkExtras 1 None; mkExtras 2 None] 2 2 1, Refused UnifiedReadPoolFull)
  ∧ spawn (Yatp [mkExtras 2 None] 1 2 1) High 4 = Ret (Yatp [mkExtras 2 None; mkExtras 4 (Some 0)] 2 2 1, Accepted tt)
  ∧ spawn_handle (Yatp [] 0 2 1) Low 1 (None : option Z) = Ret (Yatp [mkExtras 1 (Some 2)] 1 2 1, Refused Canceled)
  ∧ from_pools [0; 1; 0] = Ret (FuturePools_ 0 1 0) ∧ spawn (FuturePools_ 0 1 0) Normal 7 = Ret (FuturePools_ 0 1 0, Refused FuturePoolFull)
  ∧ get_queue_size_per_worker (Yatp [] 5 9 2) = Ret 2 ∧ get_queue_size_per_worker (Yatp [] 5 9 0) = Panic.
Proof. by vm_compute. Qed.

(** A task that panics in a pool for one. *)
Definition starved : pool := mkPool 1 [Outside] [] 1.
Lemma starved_reach : rtc (pool_step 1) (pool_start 1) starved.
Proof.
  eapply rtc_l; [by apply (ps_check 1 0 [Outside] [] 0 0 Normal 0)|]. eapply rtc_l; [by apply (ps_inc 1 0 _ [] 0 0 some_task)|].
  eapply rtc_l; [by apply (ps_spawn 1 1 _ [] 0 0 some_task)|]. apply rtc_once. by apply (ps_lost 1 1 [Outside] [some_task] 0 some_task [] []).
Qed.

Lemma pool_bounded_witness : rtc (pool_step 1) (pool_start 1) starved ∧ gauge starved <= Z.max 0 (1 + Z.of_nat 1 - 1).
Proof.
  assert (0 <= 1) as H0 by lia. assert (1 + Z.of_nat 1 <= I64_MAX) as H1 by (mach; lia).
  split; [exact starved_reach|]. exact (proj1 (proj2 (proj2 (pool_bounded 1 1 H0 H1 _ starved_reach)))).
Defined.
Lemma pool_starves_witness : full (gauge starved) 1 = true.
Proof.
  assert (0 <= 1) as H0 by lia. assert (1 + Z.of_nat 1 <= I64_MAX) as H1 by (mach; lia). assert (1 <= Z.of_nat (lost starved)) as H2 by (cbn; lia).
  exact (pool_starves 1 1 H0 H1 _ _ starved_reach H2 (rtc_refl _ _)).
Defined.
Lemma pool_overshoots_witness : ∃ w, rtc (pool_step 4) (pool_start 3) w ∧ Z.of_nat (length (tasks w)) = 4 + Z.of_nat 3 - 1.
Proof.
  assert (0 <= 4) as H0 by lia. assert (4 + Z.of_nat 3 <= I64_MAX) as H1 by (mach; lia). assert (0 < 4) as H2 by lia. assert (0 < 3)%nat as H3 by lia.
  exact (pool_overshoots 4 3 H1 H2 H3).
Defined.
