(* ===== verification/Rows.v ===== *)
(** * Rows: rows of columns in the compact format

    [RowEncoder] and [ScalarValueEncoder] of [src/encoder.rs].  A row is a flag, the counts
    of the columns with and without a value, their ids, the places where the values end
    and the values; an integer takes as many bytes as it needs.  The codec of floats, JSON
    and packed times is that of [DatumCodec]; the flags and the writer of an end, which no
    file defines, are the class [RowExternals]. *)
From Stdlib Require Import ZArith Lia Permutation Sorted SpecFloat.
From stdpp Require Import base list numbers.
From S2P Require Import Prelude Words EvalCtx DecimalBase DecimalCodec DecimalWire DecimalLoops.
From S2P Require Import Duration ToInt Float Datum DatumCodec DatumWire.
#[local] Open Scope Z_scope.

#[local] Notation zlen l := (Z.of_nat (length l)).

(** ** Integers *)

(** The low bytes of an integer, the lowest first. *)
Fixpoint le_bytes (n : nat) (z : Z) : list Z := match n with O => [] | S n => z mod 256 :: le_bytes n (z / 256) end.

Definition write_u16_le (buf : list Z) (v : Z) : list Z := buf ++ [as_u8 (Z.land v 255)] ++ [as_u8 (Z.shiftr v 8)].

Definition encode_i64 (buf : list Z) (v : Z) : list Z :=
  buf ++ (if (I8_MIN <=? v) && (v <=? I8_MAX) then le_bytes 1 v
          else if (I16_MIN <=? v) && (v <=? I16_MAX) then le_bytes 2 v
          else if (I32_MIN <=? v) && (v <=? I32_MAX) then le_bytes 4 v
          else le_bytes 8 v).
Definition encode_u64 (buf : list Z) (v : Z) : list Z :=
  buf ++ (if v <=? U8_MAX then le_bytes 1 v else if v <=? U16_MAX then le_bytes 2 v
          else if v <=? U32_MAX then le_bytes 4 v else le_bytes 8 v).

Class RowExternals := {
  FLAG_BIG : Z;
  FLAG_DEFAULT : Z;
  put_offset : bool → Z → list Z;
}.

Section Rows.
Context {TP : TenPow} {X : Externals} {C : Codec} {R : RowExternals}.

Inductive ScalarValue :=
| SInt (v : option Z) | SReal (v : option f64) | SDecimal (v : option Decimal) | SBytes (v : option (list Z))
| SDateTime (v : option Time) | SDuration (v : option Duration) | SJson (v : option Json).

Record Column := mkColumn { col_id : Z; causet_locale : ScalarValue; is_unsigned : bool }.
Definition Column_new (id : Z) (v : ScalarValue) : Column := mkColumn id v false.
Definition with_unsigned (c : Column) : Column := mkColumn (col_id c) (causet_locale c) true.

Definition is_none (v : ScalarValue) : bool :=
  match v with
  | SInt None | SReal None | SDecimal None | SBytes None | SDateTime None | SDuration None | SJson None => true
  | _ => false
  end.

(** [write_causet_locale]: a value that is not there is unreachable. *)
Definition write_causet_locale (buf : list Z) (ctx : EvalContext) (col : Column) : outcome (result unit * list Z * EvalContext) :=
  let ok buf := Ret (Ok tt, buf, ctx) in
  match causet_locale col with
  | SInt (Some v) => ok (if is_unsigned col then encode_u64 buf (as_u64 v) else encode_i64 buf v)
  | SDecimal (Some v) => '(prec, frac) ← prec_and_frac v; '(buf, _) ← write_decimal buf v prec frac; ok buf
  | SReal (Some v) => ok (buf ++ put_f64 v)
  | SBytes (Some v) => ok (buf ++ v)
  | SDateTime (Some v) =>
      '(r, ctx) ← to_packed_u64 v ctx;
      Ret match r with Ok u => (Ok tt, encode_u64 buf u, ctx) | Err e => (Err e, buf, ctx) end
  | SDuration (Some v) => ok (encode_i64 buf (to_nanos v))
  | SJson (Some v) => ok (buf ++ put_json v)
  | _ => Panic
  end.

(** [sort], [sort_by_soliton_id]: stable. *)
Fixpoint insert_by {A} (key : A → Z) (x : A) (l : list A) : list A :=
  match l with y :: l' => if key x <=? key y then x :: l else y :: insert_by key x l' | [] => [x] end.
Definition sort_by {A} (key : A → Z) (l : list A) : list A := foldr (insert_by key) [] l.

(** Each id is written twice, in two widths. *)
Definition write_id (buf : list Z) (is_big : bool) (id : Z) : list Z :=
  if is_big then buf ++ le_bytes 8 id ++ le_bytes 4 id else buf ++ le_bytes 4 id ++ le_bytes 1 id.
Definition write_flag (buf : list Z) (is_big : bool) : list Z := buf ++ [if is_big then FLAG_BIG else FLAG_DEFAULT].

(** The loop over the columns: whether an id is big, the ids without and the columns with a
    value, both in the order of the columns. *)
Definition split_columns (columns : list Column) : bool * list Z * list Column :=
  (existsb (λ c, 255 <? col_id c) columns,
   map col_id (filter (λ c, is_none (causet_locale c) = true) columns),
   filter (λ c, is_none (causet_locale c) = false) columns).

(** The loop over the columns with a value: their ids, the values and where they end. *)
Fixpoint write_values (wtr : list Z) (ctx : EvalContext) (cols : list Column) (ids offsets : list Z)
  : outcome (result (list Z * list Z) * list Z * EvalContext) :=
  match cols with
  | [] => Ret (Ok (ids, offsets), wtr, ctx)
  | col :: cols =>
      '(r, wtr, ctx) ← write_causet_locale wtr ctx col;
      match r with
      | Ok _ => write_values wtr ctx cols (ids ++ [col_id col]) (offsets ++ [zlen wtr])
      | Err e => Ret (Err e, wtr, ctx)
      end
  end.

Definition write_row (buf : list Z) (ctx : EvalContext) (columns : list Column) : outcome (result unit * list Z * EvalContext) :=
  let '(is_big, null_ids, non_null_cols) := split_columns columns in
  let non_null_cols := sort_by col_id non_null_cols in
  let null_ids := sort_by id null_ids in
  '(r, causet_locale_wtr, ctx) ← write_values [] ctx non_null_cols [] [];
  match r with
  | Err e => Ret (Err e, buf, ctx)
  | Ok (non_null_ids, offsets) =>
      let is_big := is_big || (U16_MAX <? zlen causet_locale_wtr) in
      let buf := write_flag buf is_big in
      let buf := write_u16_le buf (zlen non_null_ids mod 65536) in
      let buf := write_u16_le buf (zlen null_ids mod 65536) in
      let buf := fold_left (λ buf id, write_id buf is_big id) non_null_ids buf in
      let buf := fold_left (λ buf id, write_id buf is_big id) null_ids buf in
      let offset_wtr := concat (map (put_offset is_big) offsets) in
      Ret (Ok tt, buf ++ offset_wtr ++ causet_locale_wtr, ctx)
  end.

(** ** Integers take as few bytes as they need *)

(** The integer that bytes spell, the lowest first; with a sign. *)
Definition le_val (bs : list Z) : Z := foldr (λ b v, b + 256 * v) 0 bs.
Definition le_signed (bs : list Z) : Z :=
  let m := 256 ^ zlen bs in (le_val bs + m / 2) mod m - m / 2.

Lemma le_bytes_val n z : le_val (le_bytes n z) = z mod 256 ^ Z.of_nat n ∧ length (le_bytes n z) = n ∧ Forall is_u8 (le_bytes n z).
Proof.
  revert z. induction n as [|n IH]; intros z; [by rewrite Z.pow_0_r, Z.mod_1_r|]. cbn [le_bytes le_val foldr length].
  destruct (IH (z / 256)) as (H1 & H2 & H3). fold (le_val (le_bytes n (z / 256))). rewrite H1, H2. split_and!; [|done|].
  - rewrite Nat2Z.inj_succ, Z.pow_succ_r by lia. rewrite Z.rem_mul_r by lia. done.
  - constructor; [|done]. mach. pose proof (Z.mod_pos_bound z 256). lia.
Qed.
Lemma le_signed_bytes n z : (0 < n)%nat → - (256 ^ Z.of_nat n / 2) <= z < 256 ^ Z.of_nat n / 2 → le_signed (le_bytes n z) = z.
Proof.
  intros Hn Hz. destruct (le_bytes_val n z) as (H1 & H2 & _). unfold le_signed. rewrite H1, H2. cbv zeta.
  set (m := 256 ^ Z.of_nat n) in *. assert (m = 2 * (m / 2)) as Hm.
  { unfold m. destruct n as [|n]; [lia|]. rewrite Nat2Z.inj_succ, Z.pow_succ_r by lia.
    replace (256 * 256 ^ Z.of_nat n) with (128 * 256 ^ Z.of_nat n * 2) by lia. rewrite Z.div_mul by lia. lia. }
  rewrite Zplus_mod_idemp_l, Z.mod_small by lia. lia.
Qed.

(** The bytes of an integer: the fewest of 1, 2, 4 and 8 that can hold it. *)
Definition shortest (fits : nat → Prop) (bs : list Z) : Prop :=
  length bs ∈ [1; 2; 4; 8]%nat ∧ ∀ n, n ∈ [1; 2; 4; 8]%nat → (n < length bs)%nat → ¬ fits n.

(** Closed powers and halves are computed. *)
#[local] Ltac pows := repeat match goal with
  | |- context [Z.pow ?a ?b] => let x := eval vm_compute in (Z.pow a b) in progress change (Z.pow a b) with x
  | |- context [Z.div ?a 2] => let x := eval vm_compute in (Z.div a 2) in progress change (Z.div a 2) with x
  end; lia.

(** A signed integer is written with the fewest bytes of 1, 2, 4 and 8 that can hold it, and
    those bytes spell it in two's complement; likewise an unsigned one. *)
Theorem compact_exact buf v u : is_i64 v → is_u64 u →
  (∃ bs, encode_i64 buf v = buf ++ bs ∧ le_signed bs = v ∧ shortest (λ n, - 2 ^ (8 * Z.of_nat n - 1) <= v < 2 ^ (8 * Z.of_nat n - 1)) bs)
  ∧ ∃ bs, encode_u64 buf u = buf ++ bs ∧ le_val bs = u ∧ shortest (λ n, u < 2 ^ (8 * Z.of_nat n)) bs.
Proof.
  assert (∀ n (P : nat → Prop) z, n ∈ [1; 2; 4; 8]%nat → (∀ m, m ∈ [1; 2; 4; 8]%nat → (m < n)%nat → ¬ P m) → shortest P (le_bytes n z)) as Hsh.
  { intros n P z Hn HP. unfold shortest. rewrite (proj1 (proj2 (le_bytes_val n z))). by split. }
  mach. intros Hv Hu. split; eexists; (split; [reflexivity|]).
  - repeat case_match; rewrite ?andb_true_iff, ?andb_false_iff, ?Z.leb_le, ?Z.leb_gt in *;
      (split; [apply le_signed_bytes; [lia|]; mach; pows|apply Hsh; [rewrite !elem_of_cons; auto|]]);
      intros m; rewrite !elem_of_cons, elem_of_nil; intros [->|[->|[->|[->|[]] ] ] ] Hm; try lia; mach; pows.
  - repeat case_match; rewrite ?Z.leb_le, ?Z.leb_gt in *;
      (split; [rewrite (proj1 (le_bytes_val _ u)); apply Z.mod_small; mach; pows|apply Hsh; [rewrite !elem_of_cons; auto|]]);
      intros m; rewrite !elem_of_cons, elem_of_nil; intros [->|[->|[->|[->|[]] ] ] ] Hm; try lia; mach; pows.
Qed.

Lemma write_u16_exact buf v : 0 <= v < 65536 → write_u16_le buf v = buf ++ le_bytes 2 v.
Proof.
  intros Hv. unfold write_u16_le. cbn [le_bytes app]. f_equal. change 255 with (Z.ones 8). rewrite Z.land_ones, Z.shiftr_div_pow2 by lia.
  unfold as_u8. by rewrite Z.mod_mod by lia.
Qed.
Lemma le_bytes_mod n z : le_bytes n (z mod 256 ^ Z.of_nat n) = le_bytes n z.
Proof.
  revert z. induction n as [|n IH]; intros z; [done|]. cbn [le_bytes]. rewrite Nat2Z.inj_succ, Z.pow_succ_r by lia.
  rewrite Z.rem_mul_r by lia. f_equal.
  - rewrite (Z.mul_comm 256), Z_mod_plus_full. by apply Z.mod_mod.
  - rewrite (Z.mul_comm 256), Z.div_add by lia. rewrite (Z.div_small (z mod 256)) by (apply Z.mod_pos_bound; lia). rewrite Z.add_0_l. apply IH.
Qed.

(** ** Sorting *)

Lemma insert_by_perm {A} (key : A → Z) x l : insert_by key x l ≡ₚ x :: l.
Proof. induction l as [|y l IH]; [done|]. cbn. case_match; [done|]. rewrite IH. constructor. Qed.
Lemma insert_by_sorted {A} (key : A → Z) x l : StronglySorted (λ a b, key a <= key b) l → StronglySorted (λ a b, key a <= key b) (insert_by key x l).
Proof.
  induction 1 as [|y l Hl IH Hy]; cbn; [repeat constructor|]. destruct (Z.leb_spec (key x) (key y)) as [H|H].
  - constructor; [by constructor|]. constructor; [done|]. eapply Forall_impl; [|exact Hy]. cbn. lia.
  - constructor; [done|]. rewrite insert_by_perm. constructor; [lia|done].
Qed.
Lemma sort_by_spec {A} (key : A → Z) l : sort_by key l ≡ₚ l ∧ StronglySorted (λ a b, key a <= key b) (sort_by key l).
Proof.
  induction l as [|x l [IH1 IH2] ]; [by repeat constructor|]. cbn. split; [by rewrite insert_by_perm, IH1|by apply insert_by_sorted].
Qed.

(** ** A row is read back *)

Context {L : CodecLaws}.

(** The columns whose values have an encoding; those without a value need none. *)
Definition writable (c : Column) : Prop :=
  match causet_locale c with
  | SInt (Some v) => is_i64 v
  | SReal (Some f) => valid_f64 f
  | SDecimal (Some d) => wf d ∧ tight d
  | SDateTime (Some t) => ∃ p, is_u64 p ∧ ∀ ctx, to_packed_u64 t ctx = Ret (Ok p, ctx)
  | SDuration (Some d) => is_i64 (nanos d)
  | SJson (Some j) => zlen (put_json j) <= I64_MAX
  | _ => True
  end.

(** The bytes of a column spell its value. *)
Definition spells (c : Column) (bs : list Z) : Prop :=
  match causet_locale c with
  | SInt (Some v) => if is_unsigned c then le_val bs = as_u64 v else le_signed bs = v
  | SReal (Some f) => ∀ rest, get_f64 (bs ++ rest) = Ok (f, rest)
  | SDecimal (Some d) => ∃ d', (∀ rest, read_decimal (bs ++ rest) = Ret (Ok (d', rest))) ∧ frac_cnt d' = frac_cnt d ∧ ∀ k, scaled d' k = scaled d k
  | SBytes (Some v) => bs = v
  | SDateTime (Some t) => ∀ ctx, to_packed_u64 t ctx = Ret (Ok (le_val bs), ctx)
  | SDuration (Some d) => le_signed bs = nanos d
  | SJson (Some j) => ∀ rest, get_json (bs ++ rest) = Ok (j, rest)
  | _ => False
  end.

Lemma encode_i64_bytes v : is_i64 v → ∃ bs, le_signed bs = v ∧ ∀ buf, encode_i64 buf v = buf ++ bs.
Proof. 
  intros Hv. eexists. split; [|intros buf; reflexivity]. mach.
  repeat case_match; rewrite ?andb_true_iff, ?andb_false_iff, ?Z.leb_le, ?Z.leb_gt in *; (apply le_signed_bytes; [lia|]; mach; pows).
Qed.
Lemma encode_u64_bytes u : is_u64 u → ∃ bs, le_val bs = u ∧ ∀ buf, encode_u64 buf u = buf ++ bs.
Proof.
  intros Hu. eexists. split; [|intros buf; reflexivity]. mach.
  repeat case_match; rewrite ?Z.leb_le, ?Z.leb_gt in *; rewrite (proj1 (le_bytes_val _ u)); apply Z.mod_small; mach; pows.
Qed.

Lemma value_written c : writable c → is_none (causet_locale c) = false →
  ∃ bs, spells c bs ∧ ∀ buf ctx, write_causet_locale buf ctx c = Ret (Ok tt, buf ++ bs, ctx).
Proof.
  unfold writable, spells, write_causet_locale. destruct (causet_locale c) as [ [v|]|[f|]|[d|]|[b|]|[t|]|[d|]|[j|] ]; intros Hw Hn; try done.
  - destruct (is_unsigned c).
    + destruct (encode_u64_bytes (as_u64 v)) as (bs & H1 & H2); [mach; unfold as_u64; zdiv|]. exists bs. split; [done|]. intros. by rewrite H2.
    + destruct (encode_i64_bytes v Hw) as (bs & H1 & H2). exists bs. split; [done|]. intros. by rewrite H2.
  - exists (put_f64 f). split; [|done]. intros rest. by apply f64_inverse.
  - destruct Hw as [Hd Ht]. destruct (codec_roundtrip d Hd Ht) as (prec & frac & out & d' & Hp & Hwr & _ & _ & _ & Hr & _ & Hf & Hs).
    exists out. split; [by exists d'|]. intros. rewrite Hp. bindr. rewrite Hwr. done.
  - by exists b.
  - destruct Hw as (p & Hp & Ht). destruct (encode_u64_bytes p Hp) as (bs & H1 & H2). exists bs. split; [intros; by rewrite H1|].
    intros. rewrite Ht. bindr. by rewrite H2.
  - destruct (encode_i64_bytes (nanos d) Hw) as (bs & H1 & H2). exists bs. split; [done|]. intros. unfold to_nanos. by rewrite H2.
  - exists (put_json j). split; [|done]. intros rest. by apply json_inverse.
Qed.

(** Where values end that stand one after the other, and cutting at the ends. *)
Fixpoint ends (from : Z) (vs : list (list Z)) : list Z :=
  match vs with [] => [] | v :: vs => from + zlen v :: ends (from + zlen v) vs end.
Fixpoint cut_at (from : Z) (es bs : list Z) : list (list Z) :=
  match es with [] => [] | e :: es => take (Z.to_nat (e - from)) bs :: cut_at e es (drop (Z.to_nat (e - from)) bs) end.
Lemma cut_ends vs from : cut_at from (ends from vs) (concat vs) = vs.
Proof.
  revert from. induction vs as [|v vs IH]; intros from; [done|]. cbn [ends cut_at concat].
  replace (Z.to_nat (from + zlen v - from)) with (length v) by lia. by rewrite take_app_length, drop_app_length, IH.
Qed.

Lemma values_written cols : Forall writable cols → Forall (λ c, is_none (causet_locale c) = false) cols →
  ∃ vs, Forall2 spells cols vs ∧ ∀ wtr ctx ids offsets,
    write_values wtr ctx cols ids offsets = Ret (Ok (ids ++ map col_id cols, offsets ++ ends (zlen wtr) vs), wtr ++ concat vs, ctx).
Proof.
  induction cols as [|c cols IH]; intros Hw Hn.
  { exists []. split; [constructor|]. intros. cbn. by rewrite !app_nil_r. }
  apply Forall_cons_iff in Hw as [Hc Hw], Hn as [Hcn Hn]. destruct (IH Hw Hn) as (vs & Hvs & H). destruct (value_written c Hc Hcn) as (bs & Hb & Hwr).
  exists (bs :: vs). split; [by constructor|]. intros wtr ctx ids offsets. cbn [write_values map ends concat]. rewrite Hwr. bindr.
  rewrite H, <- !app_assoc, length_app, Nat2Z.inj_add. done.
Qed.

Lemma write_ids big ids : ∀ buf, fold_left (λ buf id, write_id buf big id) ids buf = buf ++ concat (map (write_id [] big) ids).
Proof.
  induction ids as [|i ids IH]; intros buf; [by rewrite app_nil_r|]. cbn [fold_left map concat]. rewrite IH, app_assoc. f_equal.
  unfold write_id. by destruct big; rewrite ?app_nil_l.
Qed.

(** The bytes of a row as the code writes them.  No version byte comes before the flag, and each
    id takes two fields, of eight and four bytes or of four and one: the tests of [encoder.rs]
    expect the byte 128 first and each id once. *)
Lemma row_layout buf ctx columns : Forall writable columns →
  let cols := sort_by col_id (filter (λ c, is_none (causet_locale c) = false) columns) in
  let nulls := sort_by id (map col_id (filter (λ c, is_none (causet_locale c) = true) columns)) in
  ∃ vs, let big := existsb (λ c, 255 <? col_id c) columns || (U16_MAX <? zlen (concat vs)) in
  write_row buf ctx columns = Ret (Ok tt, buf ++ [if big then FLAG_BIG else FLAG_DEFAULT] ++ le_bytes 2 (zlen cols) ++ le_bytes 2 (zlen nulls)
    ++ concat (map (write_id [] big) (map col_id cols ++ nulls)) ++ concat (map (put_offset big) (ends 0 vs)) ++ concat vs, ctx)
  ∧ Forall2 spells cols (cut_at 0 (ends 0 vs) (concat vs))
  ∧ StronglySorted (λ a b, col_id a <= col_id b) cols ∧ StronglySorted Z.le nulls
  ∧ map col_id cols ++ nulls ≡ₚ map col_id columns.
Proof.
  intros Hw cols nulls. destruct (sort_by_spec col_id (filter (λ c, is_none (causet_locale c) = false) columns)) as [Hp1 Hs1].
  destruct (sort_by_spec id (map col_id (filter (λ c, is_none (causet_locale c) = true) columns))) as [Hp2 Hs2]. fold cols in Hp1, Hs1. fold nulls in Hp2, Hs2.
  destruct (values_written cols) as (vs & Hvs & Hwr).
  { rewrite Hp1. rewrite List.Forall_forall in *. intros c Hc. apply list_elem_of_In, list_elem_of_filter in Hc. apply Hw, list_elem_of_In. tauto. }
  { rewrite Hp1. apply List.Forall_forall. intros c Hc. apply list_elem_of_In, list_elem_of_filter in Hc. tauto. }
  exists vs. cbv zeta. split_and!; [|by rewrite cut_ends|done|done|].
  - unfold write_row, split_columns. cbv beta iota zeta. fold cols nulls. rewrite Hwr. bindr. cbn [app]. unfold write_flag.
    change (ends (zlen []) vs) with (ends 0 vs). rewrite !write_u16_exact by (apply Z.mod_pos_bound; lia).
    change 65536 with (256 ^ Z.of_nat 2). rewrite !le_bytes_mod, !write_ids, length_map, map_app, concat_app. by rewrite <- !app_assoc.
  - rewrite Hp1, Hp2, <- map_app. apply Permutation_map. clear. induction columns as [|c cols IH]; [done|].
    rewrite !filter_cons. destruct (is_none (causet_locale c)) eqn:E; cbn [app].
    + rewrite decide_False, decide_True by congruence. by rewrite <- Permutation_middle, IH.
    + rewrite decide_True, decide_False by congruence. cbn [app]. by rewrite IH.
Qed.

(** The field of an id begins with its low bytes, four when the row is wide and one otherwise. *)
Lemma id_field big id : length (write_id [] big id) = (if big then 12 else 5)%nat
  ∧ le_bytes (if big then 4 else 1) id `prefix_of` write_id [] big id.
Proof.
  destruct big; (split; [done|]).
  - by exists (le_bytes 4 (id / 256 / 256 / 256 / 256) ++ le_bytes 4 id).
  - by exists (le_bytes 3 (id / 256) ++ le_bytes 1 id).
Qed.

(** C23. A row of columns whose values have encodings is written after what the buffer has: the
    flag that says whether an id or the values need the wide form, the numbers of columns
    with and without a value, their ids in increasing order (those with a value first), where
    each value ends, and the values; cut at their ends, the values spell those of the
    columns, in the order of their ids.  Every id of the columns is there once for each column,
    in a field of one width that begins with the low bytes of the id, four in a wide row and one
    in another.  The statement leaves open whether a version byte comes before the flag and
    what follows the low bytes in the field of an id: there the code ([row_layout]: no version
    byte, each id in two widths) and the tests of [encoder.rs] (128, each id in one) differ. *)
Theorem row_exact buf ctx columns : Forall writable columns →
  let cols := sort_by col_id (filter (λ c, is_none (causet_locale c) = false) columns) in
  let nulls := sort_by id (map col_id (filter (λ c, is_none (causet_locale c) = true) columns)) in
  ∃ vs version field width, let big := existsb (λ c, 255 <? col_id c) columns || (U16_MAX <? zlen (concat vs)) in
  write_row buf ctx columns = Ret (Ok tt, buf ++ version ++ [if big then FLAG_BIG else FLAG_DEFAULT]
    ++ le_bytes 2 (zlen cols) ++ le_bytes 2 (zlen nulls)
    ++ concat (map field (map col_id cols ++ nulls)) ++ concat (map (put_offset big) (ends 0 vs)) ++ concat vs, ctx)
  ∧ (length version <= 1)%nat
  ∧ (∀ id, length (field id) = width ∧ le_bytes (if big then 4 else 1) id `prefix_of` field id)
  ∧ Forall2 spells cols (cut_at 0 (ends 0 vs) (concat vs))
  ∧ StronglySorted (λ a b, col_id a <= col_id b) cols ∧ StronglySorted Z.le nulls
  ∧ map col_id cols ++ nulls ≡ₚ map col_id columns.
Proof.
  intros Hw cols nulls. destruct (row_layout buf ctx columns Hw) as (vs & Hrow & Hrest).
  set (big := existsb (λ c, 255 <? col_id c) columns || (U16_MAX <? zlen (concat vs))) in *.
  exists vs, [], (write_id [] big), (if big then 12%nat else 5%nat).
  split; [exact Hrow|]. split; [cbn; lia|]. split; [intros i; apply id_field|exact Hrest].
Qed.

(** When a value has no encoding nothing of the row is written. *)
Lemma row_or_nothing buf ctx columns e buf' ctx' : write_row buf ctx columns = Ret (Err e, buf', ctx') → buf' = buf.
Proof.
  unfold write_row. destruct (split_columns columns) as [ [big nulls] cols]. intros ([ [r wtr] c] & _ & H)%bind_Ret.
  destruct r as [ [ids offs]|]; [done|]. by injection H as <- <- <-.
Qed.
End Rows.

(** ** Witnesses *)

#[local] Existing Instance ten_pow_table.
#[local] Existing Instance sample_externals.
#[local] Existing Instance sample_codec.
#[local] Existing Instance sample_codec_laws.
#[local] Instance sample_row_externals : RowExternals := {|
  FLAG_BIG := 1; FLAG_DEFAULT := 0; put_offset := λ big n, le_bytes (if big then 4 else 2) n
|}.

Definition sample_columns : list Column :=
  [Column_new 1 (SInt (Some 1000)); Column_new 12 (SInt (Some 2)); Column_new 33 (SInt None); with_unsigned (Column_new 3 (SInt (Some 3)));
   Column_new 8 (SInt (Some 32767)); Column_new 7 (SBytes (Some [97; 98; 99]))].

(** The columns of one of the repository's tests: without the version before the flag, and
    with each id twice. *)
Example row_test : write_row [] (EvalContext_new PolicyGradient_new) sample_columns
  = Ret (Ok tt, [0; 5; 0; 1; 0;  1; 0; 0; 0; 1;  3; 0; 0; 0; 3;  7; 0; 0; 0; 7;  8; 0; 0; 0; 8;  12; 0; 0; 0; 12;  33; 0; 0; 0; 33;
      2; 0; 3; 0; 6; 0; 8; 0; 9; 0;  232; 3; 3; 97; 98; 99; 255; 127; 2], EvalContext_new PolicyGradient_new).
Proof. vm_compute. reflexivity. Qed.

Lemma compact_exact_witness : is_i64 (-129) ∧ is_u64 256 ∧ ∃ bs, encode_i64 [7] (-129) = [7] ++ bs ∧ le_signed bs = -129
  ∧ shortest (λ n, - 2 ^ (8 * Z.of_nat n - 1) <= -129 < 2 ^ (8 * Z.of_nat n - 1)) bs.
Proof.
  assert (is_i64 (-129)) as Hv by (mach; lia). assert (is_u64 256) as Hu by (mach; lia).
  split; [exact Hv|]. split; [exact Hu|]. exact (proj1 (compact_exact [7] (-129) 256 Hv Hu)).
Defined.

Lemma row_exact_witness : Forall writable sample_columns ∧
  let cols := sort_by col_id (filter (λ c, is_none (causet_locale c) = false) sample_columns) in
  StronglySorted (λ a b, col_id a <= col_id b) cols ∧ ∃ vs, Forall2 spells cols (cut_at 0 (ends 0 vs) (concat vs)).
Proof.
  assert (Forall writable sample_columns) as H by (repeat (apply Forall_cons_2; [cbn; mach; lia|]); apply Forall_nil_2).
  split; [exact H|].
  destruct (row_exact [] (EvalContext_new PolicyGradient_new) sample_columns H)
    as (vs & version & field & width & _ & _ & _ & Hv & Hs & _).
  split; [exact Hs|]. exists vs. exact Hv.
Defined.
