(* ===== verification/Timeline.v ===== *)
(** * Timeline: moving transactions off the main timeline

    [soliton/discrete_morse.rs].  The store has a table of transactions, each row a datom
    asserted or retracted by a transaction on a timeline, and a table of the datoms that
    hold on the main one.  The queries and updates of the file, in SQL, are functions on
    the tables; rows of one transaction come in the table's order, which SQL leaves open.
    The transactor, the reading of a stored value and that of the partitions, and the number
    of the main timeline, are the class [TimelineExternals].  An operation gives the store back also when it fails: nothing is
    rolled back here. *)
From Stdlib Require Import ZArith Lia Sorted.
From stdpp Require Import base list numbers gmap sorting.
From S2P Require Import Prelude.
#[local] Open Scope Z_scope.

Inductive TimelineError := NotYetImplemented | discrete_morsesMoveToNonEmpty | discrete_morsesInvalid | discrete_morsesMixed | StoreError.
Inductive OpType := Add | Retract.
#[export] Instance OpType_eq_dec : EqDecision OpType.
Proof. solve_decision. Defined.

Section Timeline.
Context {V : Type} `{Countable V} {Stored Topograph PartitionMap : Type}.

Definition Datom : Type := Z * Z * V.
(** A row of the transactions: the value is as stored, with the tag of its type. *)
Record TxRow := mkTxRow { row_e : Z; row_a : Z; row_v : Stored; row_tag : Z; row_tx : Z; row_added : bool; row_discrete_morse : Z }.
Record Store := mkStore { transactions : list TxRow; causets : gset Datom }.
Record Term := mkTerm { term_op : OpType; term_datom : Datom }.

Class TimelineExternals := {
  discrete_morse_MAIN : Z;
  from_stored : Stored → Z → option V;
  (** [transact_terms_with_action], materialising: the transaction's id and the schema when it changed. *)
  transact_terms : Store → PartitionMap → Topograph → list Term → Store * (Z * option Topograph + TimelineError);
  read_partition_map : Store → PartitionMap + TimelineError;
}.
Context {TE : TimelineExternals}.

(** [SELECT .. GROUP BY tx ORDER BY tx DESC] *)
Definition grouped (txs : list Z) : list Z := merge_sort Z.le (elements (list_to_set txs : gset Z)).
Definition txs_of (s : Store) (from timeline : Z) : list Z :=
  grouped (map row_tx (filter (λ r, from <= row_tx r ∧ row_discrete_morse r = timeline) (transactions s))).

(** [collect_ordered_txs_to_move]: each row also brings its timeline, compared with that of
    the first. *)
Fixpoint same_timeline (first : Z) (rows : list (Z * Z)) : list Z + TimelineError :=
  match rows with
  | [] => inl []
  | (tx, timeline) :: rows =>
      if timeline =? first then match same_timeline first rows with inl txs => inl (tx :: txs) | inr e => inr e end
      else inr discrete_morsesMixed
  end.
Definition collect_ordered_txs_to_move (s : Store) (txs_from timeline : Z) : list Z + TimelineError :=
  match map (λ tx, (tx, timeline)) (reverse (txs_of s txs_from timeline)) with
  | [] => inr discrete_morsesInvalid
  | (tx, first) :: rows => match same_timeline first rows with inl txs => inl (tx :: txs) | inr e => inr e end
  end.

(** [UPDATE .. SET .. WHERE tx IN ..] *)
Definition move_transactions_to (s : Store) (tx_ids : list Z) (new_discrete_morse : Z) : Store :=
  mkStore (map (λ r, if decide (row_tx r ∈ tx_ids)
                     then mkTxRow (row_e r) (row_a r) (row_v r) (row_tag r) (row_tx r) (row_added r) new_discrete_morse else r) (transactions s))
          (causets s).

Definition remove_tx_from_causets (s : Store) (tx_id : Z) : Store :=
  mkStore (transactions s) (filter (λ d : Datom, d.1.1 ≠ tx_id) (causets s)).

Definition is_discrete_morse_empty (s : Store) (timeline : Z) : bool :=
  bool_decide (filter (λ r, row_discrete_morse r = timeline) (transactions s) = []).

(** [reversed_terms_for]: what was added is retracted, what was retracted is added. *)
Definition reversed_term (r : TxRow) : option Term :=
  v ← from_stored (row_v r) (row_tag r);
  Some (mkTerm (if row_added r then Retract else Add) (row_e r, row_a r, v)).
Definition rows_of (s : Store) (tx timeline : Z) : list TxRow :=
  filter (λ r, row_tx r = tx ∧ row_discrete_morse r = timeline) (transactions s).
Definition reversed_terms_for (s : Store) (tx_id : Z) : list Term + TimelineError :=
  match mapM reversed_term (rows_of s tx_id discrete_morse_MAIN) with Some terms => inl terms | None => inr StoreError end.

(** The loop of [move_from_main_discrete_morse]: the last schema it saw. *)
Fixpoint rewind (s : Store) (parts : PartitionMap) (topograph : Topograph) (txs : list Z) (last : option Topograph)
  : Store * (option Topograph + TimelineError) :=
  match txs with
  | [] => (s, inl last)
  | tx_id :: txs =>
      match reversed_terms_for s tx_id with
      | inr e => (s, inr e)
      | inl terms =>
          match transact_terms s parts topograph terms with
          | (s, inr e) => (s, inr e)
          | (s, inl (report_tx, new_topograph)) => rewind (remove_tx_from_causets s report_tx) parts topograph txs new_topograph
          end
      end
  end.

Definition move_from_main_discrete_morse (s : Store) (topograph : Topograph) (parts : PartitionMap) (txs_from new_discrete_morse : Z)
  : Store * (option Topograph * PartitionMap + TimelineError) :=
  if new_discrete_morse =? discrete_morse_MAIN then (s, inr NotYetImplemented)
  else if negb (is_discrete_morse_empty s new_discrete_morse) then (s, inr discrete_morsesMoveToNonEmpty)
  else match collect_ordered_txs_to_move s txs_from discrete_morse_MAIN with
       | inr e => (s, inr e)
       | inl txs =>
           match rewind s parts topograph txs None with
           | (s, inr e) => (s, inr e)
           | (s, inl last_topograph) =>
               let s := move_transactions_to s txs new_discrete_morse in
               match read_partition_map s with inl parts => (s, inl (last_topograph, parts)) | inr e => (s, inr e) end
           end
       end.

(** ** What the tables mean *)

Definition txs_on (l : list TxRow) (timeline : Z) : list Z := grouped (map row_tx (filter (λ r, row_discrete_morse r = timeline) l)).
Definition datom_of (r : TxRow) : option Datom := v ← from_stored (row_v r) (row_tag r); Some (row_e r, row_a r, v).
(** What a transaction of the main timeline asserted, or retracted. *)
Definition changes (l : list TxRow) (tx : Z) (added : bool) : gset Datom :=
  list_to_set (omap datom_of (filter (λ r, row_added r = added) (filter (λ r, row_tx r = tx ∧ row_discrete_morse r = discrete_morse_MAIN) l))).

(** At most one value for an entity and an attribute of cardinality one. *)
Definition single (card_one : Z → bool) (s : gset Datom) : Prop :=
  ∀ d d', d ∈ s → d' ∈ s → d.1 = d'.1 → card_one d.1.2 = true → d = d'.

(** The datoms after some transactions, the latest first, each of which asserted only
    datoms that did not hold, retracted only datoms that did, and left one value at most
    where one is allowed. *)
Inductive History (card_one : Z → bool) (l : list TxRow) : list Z → gset Datom → Prop :=
| history_start : History card_one l [] ∅
| history_next tx txs s : History card_one l txs s → changes l tx true ## s → changes l tx false ⊆ s →
    single card_one ((s ∖ changes l tx false) ∪ changes l tx true) →
    History card_one l (tx :: txs) ((s ∖ changes l tx false) ∪ changes l tx true).

Definition asserted (terms : list Term) : gset Datom := list_to_set (map term_datom (filter (λ t, term_op t = Add) terms)).
Definition retracted (terms : list Term) : gset Datom := list_to_set (map term_datom (filter (λ t, term_op t = Retract) terms)).

(** An asserted datom takes the place of another value of its entity and attribute, when the
    attribute has cardinality one. *)
Definition replaced (card_one : Z → bool) (terms : list Term) (d : Datom) : Prop :=
  card_one d.1.2 = true ∧ ∃ d', d' ∈ asserted terms ∧ d'.1 = d.1 ∧ d' ≠ d.

(** What the transactor does to the datoms, those of the transaction's own entity apart
    ([search], [insert_transaction] and [update_causets] of [einsteindb.rs]): what is asserted
    is there, what is retracted or replaced is not, the rest stays.  The terms retract only
    datoms that hold.  The transaction's id is the next of the partition; a materialising
    transaction adds no rows to the table of transactions. *)
Class TimelineLaws := {
  next_tx : PartitionMap → Z;
  cardinality_one : Topograph → Z → bool;
  transact_law s parts topograph terms s' tx new_topograph : transact_terms s parts topograph terms = (s', inl (tx, new_topograph)) →
    asserted terms ## retracted terms → retracted terms ⊆ causets s →
    tx = next_tx parts ∧ transactions s' = transactions s
    ∧ ∀ d : Datom, d.1.1 ≠ tx →
        d ∈ causets s' ↔ d ∈ asserted terms
          ∨ (d ∈ causets s ∧ d ∉ retracted terms ∧ ¬ replaced (cardinality_one topograph) terms d);
}.
Context {TL : TimelineLaws}.

(** ** Sorted sets of transactions *)

Lemma grouped_elem txs x : x ∈ grouped txs ↔ x ∈ txs.
Proof. unfold grouped. rewrite merge_sort_Permutation. by rewrite elem_of_elements, elem_of_list_to_set. Qed.
Lemma grouped_sorted txs : StronglySorted Z.le (grouped txs) ∧ NoDup (grouped txs).
Proof.
  unfold grouped. split; [apply (StronglySorted_merge_sort Z.le)|]. rewrite merge_sort_Permutation. apply NoDup_elements.
Qed.
Lemma sorted_unique (l1 l2 : list Z) : StronglySorted Z.le l1 → StronglySorted Z.le l2 → NoDup l1 → NoDup l2 → (∀ x, x ∈ l1 ↔ x ∈ l2) → l1 = l2.
Proof. intros H1 H2 N1 N2 He. apply (StronglySorted_unique Z.le); [done..|]. by apply NoDup_Permutation. Qed.
Lemma filter_sorted (P : Z → Prop) `{!∀ x, Decision (P x)} l : StronglySorted Z.le l → StronglySorted Z.le (filter P l).
Proof.
  induction 1 as [|x l Hl IH Hx]; [constructor|]. rewrite filter_cons. case_decide; [|done]. constructor; [done|].
  rewrite List.Forall_forall in *. intros y Hy. apply Hx. apply list_elem_of_In, list_elem_of_filter in Hy as [_ Hy]. by apply list_elem_of_In.
Qed.

Lemma txs_on_elem l timeline tx : tx ∈ txs_on l timeline ↔ ∃ r, r ∈ l ∧ row_tx r = tx ∧ row_discrete_morse r = timeline.
Proof.
  unfold txs_on. rewrite grouped_elem, list_elem_of_fmap. split.
  - intros (r & -> & [Hr Hl]%list_elem_of_filter). by exists r.
  - intros (r & Hl & <- & Hr). exists r. split; [done|]. by apply list_elem_of_filter.
Qed.
Lemma txs_of_on s from timeline : txs_of s from timeline = filter (λ x, from <= x) (txs_on (transactions s) timeline).
Proof.
  apply sorted_unique; [apply grouped_sorted|apply filter_sorted, grouped_sorted|apply grouped_sorted|apply NoDup_filter, grouped_sorted|].
  intros x. rewrite list_elem_of_filter, txs_on_elem. unfold txs_of. rewrite grouped_elem, list_elem_of_fmap. split.
  - intros (r & -> & [ [? ?] ?]%list_elem_of_filter). split; [done|]. by exists r.
  - intros (Hf & r & ? & <- & ?). exists r. split; [done|]. by apply list_elem_of_filter.
Qed.
Lemma sorted_split (l : list Z) from : StronglySorted Z.le l → l = filter (λ x, x < from) l ++ filter (λ x, from <= x) l.
Proof.
  induction 1 as [|x l Hl IH Hx]; [done|]. rewrite !filter_cons. destruct (decide (x < from)) as [Hlt|Hge].
  - rewrite decide_False by lia. cbn [app]. by f_equal.
  - rewrite decide_True by lia. assert (filter (λ x, x < from) l = []) as Hn.
    { apply elem_of_nil_inv. intros y [Hy Hl']%list_elem_of_filter. rewrite List.Forall_forall in Hx. apply list_elem_of_In, Hx in Hl'. lia. }
    rewrite Hn in *. cbn [app] in *. by f_equal.
Qed.

(** ** Rewinding *)

Lemma reversed_terms_ok s tx terms : reversed_terms_for s tx = inl terms →
  asserted terms = changes (transactions s) tx false ∧ retracted terms = changes (transactions s) tx true.
Proof.
  unfold reversed_terms_for, changes, asserted, retracted. fold (rows_of s tx discrete_morse_MAIN). generalize (rows_of s tx discrete_morse_MAIN) as rows.
  intros rows Ht. destruct (mapM reversed_term rows) as [ts|] eqn:E; [|done]. injection Ht as <-.
  apply mapM_Some in E. induction E as [|r t rows ts Hr _ [IH1 IH2] ]; [done|]. 
  unfold reversed_term in Hr. rewrite !filter_cons. unfold datom_of in *.
  destruct (from_stored (row_v r) (row_tag r)) as [v|] eqn:Ev; [|done]. injection Hr as <-. cbn [term_op].
  destruct (row_added r); repeat case_decide; try congruence; cbn [map omap list_omap term_datom list_to_set]; rewrite ?Ev; cbn; by rewrite ?IH1, ?IH2.
Qed.

Lemma changes_entity l tx b d : d ∈ changes l tx b → ∃ r, r ∈ l ∧ d.1.1 = row_e r.
Proof.
  unfold changes. rewrite elem_of_list_to_set, list_elem_of_omap. intros (r & Hr & Hd).
  apply list_elem_of_filter in Hr as [_ [_ Hr]%list_elem_of_filter]. exists r. split; [done|]. unfold datom_of in Hd.
  destruct (from_stored (row_v r) (row_tag r)); [|done]. by injection Hd as <-.
Qed.
Lemma history_entity card_one l txs s d : History card_one l txs s → d ∈ s → ∃ r, r ∈ l ∧ d.1.1 = row_e r.
Proof.
  induction 1 as [|tx txs s _ IH H1 H2 _]; [set_solver|]. intros [ [Hd _]%elem_of_difference|Hd]%elem_of_union; [by apply IH|by eapply changes_entity].
Qed.

Lemma history_single card_one l txs s : History card_one l txs s → single card_one s.
Proof. destruct 1; [|done]. intros d d' []%elem_of_empty. Qed.

Lemma history_inv card_one l tx txs s : History card_one l (tx :: txs) s →
  ∃ s0, History card_one l txs s0 ∧ changes l tx true ## s0 ∧ changes l tx false ⊆ s0 ∧ s = (s0 ∖ changes l tx false) ∪ changes l tx true.
Proof. inversion 1; subst. by eexists. Qed.

(** Transacting the reverse of a transaction that replaced a value brings the value back. *)
Lemma reversed_back (card_one : Z → bool) (added removed s0 : gset Datom) terms d :
  asserted terms = removed → added ## s0 → removed ⊆ s0 → single card_one s0 →
  d ∈ s0 ↔ d ∈ removed
    ∨ (d ∈ (s0 ∖ removed) ∪ added ∧ d ∉ added ∧ ¬ replaced card_one terms d).
Proof.
  intros <- Hd Hsub Hone. split; [|set_solver]. intros Hin.
  destruct (decide (d ∈ asserted terms)) as [|Hn]; [by left|]. right.
  split; [set_solver|]. split; [set_solver|]. intros (Hc & d' & Hd' & He & Hne).
  apply Hne, Hone; [set_solver|done..|congruence].
Qed.

Lemma rewind_exact parts topograph older : ∀ newer s last s' last',
  (∀ r, r ∈ transactions s → row_e r ≠ next_tx parts) →
  History (cardinality_one topograph) (transactions s) (newer ++ older) (causets s) →
  rewind s parts topograph newer last = (s', inl last') →
  transactions s' = transactions s ∧ History (cardinality_one topograph) (transactions s) older (causets s').
Proof.
  induction newer as [|tx newer IH]; intros s last s' last' Hfr Hh Hr; cbn [rewind app] in *; [by injection Hr as <- <-|].
  destruct (reversed_terms_for s tx) as [terms|] eqn:Et; [|done]. apply reversed_terms_ok in Et as [Ha Hre].
  destruct (transact_terms s parts topograph terms) as [s1 [ [rtx ntopo]|] ] eqn:Etr; [|done].
  apply history_inv in Hh as (s0 & Hh & Hd & Hsub & Hc).
  pose proof (transact_law _ _ _ _ _ _ _ Etr) as Hlaw. rewrite Ha, Hre, Hc in Hlaw.
  destruct Hlaw as (-> & Htx & Hmem); [set_solver..|].
  assert (causets (remove_tx_from_causets s1 (next_tx parts)) = s0) as Hs0.
  { cbn [remove_tx_from_causets causets]. apply set_eq. intros d. rewrite elem_of_filter.
    assert (d ∈ s0 → d.1.1 ≠ next_tx parts) as Hf by (intros (r & Hr' & ->)%(history_entity _ _ _ _ _ Hh); by apply Hfr).
    pose proof (reversed_back _ _ _ _ _ d Ha Hd Hsub (history_single _ _ _ _ Hh)) as Hback.
    split; [|intros Hin; specialize (Hf Hin); split; [done|]; by apply Hmem, Hback].
    intros [Hne Hin]. by apply Hback, Hmem. }
  apply IH in Hr as [Ht Hh']; cbn [remove_tx_from_causets transactions] in *; rewrite ?Htx in *; [by split|done|by rewrite Hs0].
Qed.

(** ** Moving *)

Lemma same_timeline_ok first txs : same_timeline first (map (λ tx, (tx, first)) txs) = inl txs.
Proof. induction txs as [|tx txs IH]; [done|]. cbn. by rewrite Z.eqb_refl, IH. Qed.
Lemma collect_exact s from timeline : collect_ordered_txs_to_move s from timeline
  = match reverse (txs_of s from timeline) with [] => inr discrete_morsesInvalid | txs => inl txs end.
Proof. unfold collect_ordered_txs_to_move. destruct (reverse (txs_of s from timeline)) as [|tx txs]; [done|]. cbn [map]. by rewrite same_timeline_ok. Qed.

(** [changes] looks at the rows of one transaction on the main timeline. *)
Lemma changes_moved s txs new tx b : tx ∉ txs → changes (transactions (move_transactions_to s txs new)) tx b = changes (transactions s) tx b.
Proof.
  intros Htx. unfold changes, move_transactions_to. cbn [transactions]. f_equal. induction (transactions s) as [|r l IH]; [done|].
  cbn [map]. rewrite !filter_cons. destruct (decide (row_tx r ∈ txs)) as [Hin|Hni]; cbn [row_tx row_discrete_morse].
  - rewrite !decide_False by naive_solver. exact IH.
  - destruct (decide (row_tx r = tx ∧ row_discrete_morse r = discrete_morse_MAIN)); [|exact IH].
    rewrite !filter_cons. case_decide; [|exact IH]. cbn [omap list_omap]. by rewrite IH.
Qed.
Lemma history_moved card_one s txs new older c : (∀ tx, tx ∈ older → tx ∉ txs) →
  History card_one (transactions s) older c → History card_one (transactions (move_transactions_to s txs new)) older c.
Proof.
  intros Hn. induction 1 as [|tx older c Hh IH H1 H2 H3]; [constructor|].
  rewrite <- (changes_moved s txs new tx false), <- (changes_moved s txs new tx true) in * by (apply Hn; by left).
  apply history_next; [|done..]. apply IH. intros tx' Htx'. apply Hn. by right.
Qed.

Lemma moved_elem s txs new timeline tx : tx ∈ txs_on (transactions (move_transactions_to s txs new)) timeline ↔
  (tx ∉ txs ∧ tx ∈ txs_on (transactions s) timeline) ∨ (tx ∈ txs ∧ new = timeline ∧ ∃ r, r ∈ transactions s ∧ row_tx r = tx).
Proof.
  rewrite !txs_on_elem. cbn [move_transactions_to transactions]. split.
  - intros (r & Hr & <- & Ht). apply list_elem_of_fmap in Hr as (r0 & -> & Hr0). case_decide; cbn in *.
    + right. split_and!; [done..|]. by exists r0.
    + left. split; [done|]. by exists r0.
  - intros [ [Hn (r & Hr & <- & Ht)]|(Hin & -> & r & Hr & <-)].
    + exists r. split_and!; [|done..]. apply list_elem_of_fmap. exists r. by rewrite decide_False.
    + eexists. split; [apply list_elem_of_fmap; exists r; split; [reflexivity|done]|]. by rewrite decide_True.
Qed.

(** C10. Moving the transactions of the main timeline from a given one on rewinds the store:
    the main timeline keeps the earlier ones, the other timeline has the later ones, and
    the datoms are again those that the transactions of the main timeline made: a value that a
    later transaction replaced is back.  The transactions made their changes to the letter,
    with at most one value where the schema the move is given allows one, and no datom is
    about the entity of the transaction that the transactor makes for the purpose. *)
Theorem rewound_exact s topograph parts from new s' topograph' parts' :
  History (cardinality_one topograph) (transactions s) (reverse (txs_on (transactions s) discrete_morse_MAIN)) (causets s) →
  (∀ r, r ∈ transactions s → row_e r ≠ next_tx parts) →
  move_from_main_discrete_morse s topograph parts from new = (s', inl (topograph', parts')) →
  txs_on (transactions s') discrete_morse_MAIN = filter (λ x, x < from) (txs_on (transactions s) discrete_morse_MAIN)
  ∧ txs_on (transactions s') new = filter (λ x, from <= x) (txs_on (transactions s) discrete_morse_MAIN)
  ∧ History (cardinality_one topograph) (transactions s') (reverse (txs_on (transactions s') discrete_morse_MAIN)) (causets s').
Proof.
  intros Hh Hfr Hm. unfold move_from_main_discrete_morse in Hm. destruct (Z.eqb_spec new discrete_morse_MAIN) as [|Hnew]; [done|].
  destruct (is_discrete_morse_empty s new) eqn:Hem; [|done]. cbn [negb] in Hm. rewrite collect_exact, txs_of_on in Hm.
  set (main := txs_on (transactions s) discrete_morse_MAIN) in *. assert (StronglySorted Z.le main ∧ NoDup main) as [Hso Hnd] by apply grouped_sorted.
  set (moved := filter (λ x, from <= x) main) in *. set (kept := filter (λ x, x < from) main) in *.
  assert (main = kept ++ moved) as Hsplit by by apply sorted_split. rewrite Hsplit, reverse_app in Hh.
  destruct (reverse moved) as [|m0 ms] eqn:Erev; [done|]. rewrite <- Erev in *.
  destruct (rewind s parts topograph (reverse moved) None) as [s1 [last|] ] eqn:Erw; [|done].
  apply rewind_exact with (older := reverse kept) in Erw as [Ht1 Hh1]; [|done..].
  destruct (read_partition_map (move_transactions_to s1 (reverse moved) new)) as [p|]; [|done]. injection Hm as <- <- <-.
  assert (∀ tx, tx ∈ kept → tx ∉ reverse moved) as Hsep.
  { intros tx Hk Hmv. rewrite elem_of_reverse in Hmv. apply list_elem_of_filter in Hk as [? _], Hmv as [? _]. lia. }
  assert (∀ tx, tx ∉ txs_on (transactions s) new) as Hempty.
  { intros tx (r & Hr & _ & Ht)%txs_on_elem. apply bool_decide_eq_true in Hem. apply (elem_of_nil r). rewrite <- Hem. by apply list_elem_of_filter. }
  assert (txs_on (transactions (move_transactions_to s1 (reverse moved) new)) discrete_morse_MAIN = kept) as Hmain'.
  { apply sorted_unique; [apply grouped_sorted|by apply filter_sorted|apply grouped_sorted|by apply NoDup_filter|].
    intros x. rewrite moved_elem, Ht1. fold main. rewrite elem_of_reverse. unfold moved, kept. rewrite !list_elem_of_filter. split.
    - intros [ [Hn Hx]|(_ & ? & _)]; [|done]. split; [|done]. apply Z.nle_gt. intros ?. by apply Hn.
    - intros [Hlt Hx]. left. split; [|done]. intros [? _]. lia. }
  split_and!; [done| |].
  - apply sorted_unique; [apply grouped_sorted|by apply filter_sorted|apply grouped_sorted|by apply NoDup_filter|].
    intros x. rewrite moved_elem, Ht1, elem_of_reverse. split; [|intros Hx; right; split_and!; [done..|]].
    + intros [ [_ []%Hempty]|[? _] ]. done.
    + apply list_elem_of_filter in Hx as [_ (r & ? & ? & _)%txs_on_elem]. by exists r.
  - rewrite Hmain'. apply history_moved; [|by rewrite Ht1]. intros tx Htx. apply Hsep. by rewrite elem_of_reverse in Htx.
Qed.

(** A move to the main timeline, to one that has transactions, or of no transactions is
    refused, each with its error, and the store is as it was; the error about mixed
    timelines is never given when transactions are collected. *)
Theorem move_refused s topograph parts from new :
  let main := filter (λ x, from <= x) (txs_on (transactions s) discrete_morse_MAIN) in
  (new = discrete_morse_MAIN → move_from_main_discrete_morse s topograph parts from new = (s, inr NotYetImplemented))
  ∧ (new ≠ discrete_morse_MAIN → txs_on (transactions s) new ≠ [] →
      move_from_main_discrete_morse s topograph parts from new = (s, inr discrete_morsesMoveToNonEmpty))
  ∧ (new ≠ discrete_morse_MAIN → txs_on (transactions s) new = [] → main = [] →
      move_from_main_discrete_morse s topograph parts from new = (s, inr discrete_morsesInvalid))
  ∧ collect_ordered_txs_to_move s from discrete_morse_MAIN ≠ inr discrete_morsesMixed.
Proof.
  intros main. unfold move_from_main_discrete_morse. rewrite collect_exact, txs_of_on. fold main.
  assert (is_discrete_morse_empty s new = true ↔ txs_on (transactions s) new = []) as Hem.
  { unfold is_discrete_morse_empty. rewrite bool_decide_eq_true. split.
    - intros He. apply elem_of_nil_inv. intros tx (r & Hr & _ & Ht)%txs_on_elem. apply (elem_of_nil r). rewrite <- He. by apply list_elem_of_filter.
    - intros He. apply elem_of_nil_inv. intros r [Ht Hr]%list_elem_of_filter. apply (elem_of_nil (row_tx r)). rewrite <- He. apply txs_on_elem. by exists r. }
  split_and!.
  - intros ->. by rewrite Z.eqb_refl.
  - intros Hn Hne. rewrite (proj2 (Z.eqb_neq _ _)) by done. destruct (is_discrete_morse_empty s new); [|done]. by destruct Hne; apply Hem.
  - intros Hn He ->. rewrite (proj2 (Z.eqb_neq _ _)) by done. by rewrite (proj2 Hem).
  - by destruct (reverse main).
Qed.
End Timeline.

(** ** A store with three transactions

    Attributes up to 3 have one value; the transactor replaces it. *)

#[local] Notation sample_card_one := (λ a : Z, a <=? 3).
Definition sample_transacted (causets : gset (Z * Z * Z)) (terms : list Term) : gset (Z * Z * Z) :=
  filter (λ d, d ∉ retracted terms
    ∧ ¬ (sample_card_one d.1.2 = true ∧ set_Exists (λ d', d'.1 = d.1 ∧ d' ≠ d) (asserted terms))) causets
  ∪ asserted terms.

#[local] Instance sample_timeline : TimelineExternals (V := Z) (Stored := Z) (Topograph := unit) (PartitionMap := Z) := {|
  discrete_morse_MAIN := 0;
  from_stored := λ v tag, if tag =? 5 then Some v else None;
  transact_terms := λ s next _ terms,
    (mkStore (transactions s) (sample_transacted (causets s) terms ∪ {[ (next, 3, 77) ]}), inl (next, None));
  read_partition_map := λ _, inl 1000;
|}.
#[local] Instance sample_timeline_laws : TimelineLaws (V := Z) (Stored := Z) (Topograph := unit) (PartitionMap := Z).
Proof.
  refine {| next_tx := λ p : Z, p; cardinality_one := λ _ : unit, sample_card_one; transact_law := _ |}.
  intros s parts topo terms s' tx nt [= <- <- <-] _ _. split_and!; [done..|]. intros d Hd. cbn [causets].
  unfold sample_transacted, replaced, set_Exists. rewrite !elem_of_union, elem_of_singleton, elem_of_filter.
  split; [|tauto]. intros [ [H|H]| ->]; [tauto..|done].
Defined.

(** A name is given, changed and taken back; the second transaction replaces it. *)
Definition sample_store : Store (V := Z) (Stored := Z) := mkStore
  [mkTxRow 7 1 10 5 100 true 0; mkTxRow 100 3 50 5 100 true 0;
   mkTxRow 7 1 10 5 101 false 0; mkTxRow 7 1 20 5 101 true 0; mkTxRow 101 3 51 5 101 true 0;
   mkTxRow 7 1 20 5 102 false 0; mkTxRow 102 3 52 5 102 true 0]
  {[ (100, 3, 50); (101, 3, 51); (102, 3, 52) ]}.
Definition sample_rewound : Store (V := Z) (Stored := Z) := mkStore
  [mkTxRow 7 1 10 5 100 true 0; mkTxRow 100 3 50 5 100 true 0;
   mkTxRow 7 1 10 5 101 false 9; mkTxRow 7 1 20 5 101 true 9; mkTxRow 101 3 51 5 101 true 9;
   mkTxRow 7 1 20 5 102 false 9; mkTxRow 102 3 52 5 102 true 9]
  {[ (7, 1, 10); (100, 3, 50) ]}.

Example sample_replaces : sample_transacted {[ (7, 1, 10); (7, 4, 1) ]}
  [mkTerm Add (7, 1, 20); mkTerm Add (7, 4, 2)] = {[ (7, 1, 20); (7, 4, 1); (7, 4, 2) ]}.
Proof. by vm_compute. Qed.

Lemma sample_moved : move_from_main_discrete_morse sample_store tt 1000 101 9 = (sample_rewound, inl (None, 1000)).
Proof. vm_compute. reflexivity. Qed.

(** One transaction of the sample, its sides given in full. *)
Lemma sample_next (tx : Z) (txs : list Z) (s s' added removed : gset (Z * Z * Z)) :
  History sample_card_one (transactions sample_store) txs s →
  changes (transactions sample_store) tx true = added → changes (transactions sample_store) tx false = removed →
  (s ∖ removed) ∪ added = s' → added ## s → removed ⊆ s → single sample_card_one s' →
  History sample_card_one (transactions sample_store) (tx :: txs) s'.
Proof. intros Hh <- <- <- ? ? ?. by apply history_next. Qed.

Ltac sample_side :=
  first [by vm_compute|set_solver
        |let H1 := fresh in let H2 := fresh in intros d d' H1 H2; set_unfold; naive_solver].

Lemma sample_history : History sample_card_one (transactions sample_store) (reverse (txs_on (transactions sample_store) discrete_morse_MAIN)) (causets sample_store).
Proof.
  assert (reverse (txs_on (transactions sample_store) discrete_morse_MAIN) = [102; 101; 100]) as -> by (vm_compute; reflexivity).
  apply (sample_next 102 [101; 100] {[ (7, 1, 20); (100, 3, 50); (101, 3, 51) ]} _ {[ (102, 3, 52) ]} {[ (7, 1, 20) ]}); [|sample_side..].
  apply (sample_next 101 [100] {[ (7, 1, 10); (100, 3, 50) ]} _ {[ (7, 1, 20); (101, 3, 51) ]} {[ (7, 1, 10) ]}); [|sample_side..].
  apply (sample_next 100 [] ∅ _ {[ (7, 1, 10); (100, 3, 50) ]} ∅); [|sample_side..]. constructor.
Qed.

Lemma rewound_exact_witness : txs_on (transactions sample_rewound) 0 = filter (λ x, x < 101) (txs_on (transactions sample_store) 0)
  ∧ txs_on (transactions sample_rewound) 9 = filter (λ x, 101 <= x) (txs_on (transactions sample_store) 0)
  ∧ History sample_card_one (transactions sample_rewound) (reverse (txs_on (transactions sample_rewound) 0)) (causets sample_rewound).
Proof.
  assert (∀ r, r ∈ transactions sample_store → row_e r ≠ next_tx 1000) as Hfr.
  { intros r Hr. repeat (apply elem_of_cons in Hr as [->|Hr]; [by vm_compute|]). by apply elem_of_nil in Hr. }
  exact (rewound_exact sample_store tt 1000 101 9 sample_rewound None 1000 sample_history Hfr sample_moved).
Defined.
